(* ===== verification/_CoqProject ===== *)
-Q . S2P
Prelude.v
Errors.v
Routing.v
RouteSettings.v
Json.v
GuardrailPolicy.v
Policies.v
OutputLimits.v
BodyAdmission.v
AuthAdmission.v
VerificationCache.v
VerificationFlight.v
Auth.v
Redis.v
Budgets.v
BudgetLedger.v
RateLimits.v
Guardrails.v
Pii.v
PiiRestore.v
EndpointAccess.v
TrafficRequest.v
TrafficMonitor.v
TrafficRuns.v
ResponseCost.v
CostNumbers.v
CostEquivalence.v
Foundry.v
ServiceTypes.v
ServicePricing.v
ServicePrices.v
Usage.v
UsageCost.v
SocketFrames.v
ConnectionLimits.v
BodyRewrite.v
StreamGuardrails.v
RequestBody.v
CompleteBody.v
Headers.v
ProviderConfigs.v
Upstream.v
ProxyContext.v
UpstreamRequest.v
Entra.v
AuthSettings.v
Stages.v
RequestFilter.v
RequestIdentity.v
Settlement.v
SocketAdmission.v
AccessaRuntime.v
AccessaTurns.v
UpstreamAdmission.v
RequestLife.v
FoundryTokens.v
ResponseHeaders.v
ResponseBody.v
Access.v
KeyAdmin.v
ProviderSelection.v
OpenApi.v
UsageCsv.v
AdminStore.v
AdminAuth.v
AdminApi.v
AdminConfig.v
AdminUsage.v
OwnerApi.v
PortalLogin.v
AdminRouter.v
AdminAudit.v
UsageStore.v
PortalStore.v
KeyStore.v
OperatorStore.v
ServiceStore.v
ProviderStore.v
RouteStore.v
GuardrailStore.v
