(* ===== verification/Prelude.v ===== *)
(** * Relayna Gateway: a verification library

    Relayna Gateway is a multi-tenant HTTP gateway in front of model providers
    and internal services.  A request to the proxy is identified, routed,
    checked against the policy of its key and against rate limits and budgets,
    passes its guardrails, is forwarded with the gateway's credentials, and is
    metered and settled when it ends.  Beside the proxy stand the admin API and
    the portal, through which keys, policies, services and settings are
    managed, and the stores - Redis for what replicas share while they run,
    Postgres for what is kept.  This library models the code that takes these
    decisions and the state they rest on, and proves what each part promises.

    ** The files and the code they model

    Paths are relative to [src/crates].  Names follow the source; a method of
    a type carries the type's name as a prefix where Rocq has a single name
    space ([policy_validate] for [SizeAwareBodyPolicy::validate]).

    Foundations.
    - [Prelude] (this file): [Result] with its [?] operator, the iterator and
      string functions of the Rust library the code uses, checked and
      saturating integer arithmetic, [f64] as IEEE binary64, sums over finite
      maps, comparisons and sorting, the tactics [result_cases], [result_path]
      and [bool_prop].
    - [Errors]: gateway-core/src/errors.rs; every fallible definition returns
      [GatewayResult].  [Json]: the [serde_json::Value] tree.
      [Headers]: header maps and URIs as interfaces.
    - [Stages]: callbacks that write a context and continue or stop.
      [AdminStore.Programs]: handlers as trees of questions, run against a
      world that answers them.

    Decisions of gateway-core.
    - [Routing], [RouteSettings]: routing.rs and route_settings.rs.
    - [GuardrailPolicy], [Policies], [OutputLimits]: the policy part of
      guardrails.rs, and policies.rs.  [Guardrails], [Pii], [PiiRestore]: the
      rest of guardrails.rs.
    - [AuthAdmission], [VerificationCache], [VerificationFlight], [Auth]:
      auth_admission.rs (with the slot queue), verification_cache.rs,
      verification_flight.rs and auth.rs.
    - [EndpointAccess]: endpoint_access.rs and auth_profiles.rs.  [Entra]:
      entra.rs.  [AuthSettings]: auth_settings.rs.
    - [Foundry], [ServiceTypes], [ServicePricing], [ServicePrices]:
      foundry.rs and services.rs.  [ProviderConfigs], [ProviderSelection]:
      provider_configs.rs and provider_intelligence.rs.
    - [TrafficRequest], [TrafficMonitor], [TrafficRuns]: traffic.rs.
      [ResponseCost], [CostNumbers], [CostEquivalence]: response_cost.rs and
      its reference grammar.  [Usage], [UsageCost]: usage.rs, with the pricing
      of requests in the proxy and the repricing of recorded usage.
    - [Access], [KeyAdmin]: access.rs, operators.rs, admin.rs, projects.rs and
      studio_settings.rs.

    Stores.
    - [Redis], [Budgets], [BudgetLedger], [RateLimits]: budgets.rs and
      rate_limits.rs with gateway-store/src/redis.rs.  [Redis] is the store and
      the monad of its scripts; [Budgets] has every script; [BudgetLedger] is
      the abstract ledger they implement; the end of [CompleteBody] puts them
      behind the proxy's interface.
    - Of gateway-store/src/postgres.rs: [KeyStore] (projects, keys, policies,
      layers), [OperatorStore] (operator tokens), [PortalStore] (members,
      memberships, identities, logins, sessions), [UsageStore] (the usage
      ledger, its filters, cursors and pages), [ServiceStore] (services, their
      imports, the lookup of routes, the repricing of usage), [ProviderStore]
      (provider connections, credential mappings, settings), [RouteStore]
      (routes, the passthrough, route identities), [GuardrailStore] (guardrail
      definitions and executions).  The state is the tables; an operation is a
      call, with the constraints and triggers that refuse its statements;
      [now()] and new identifiers are arguments.

    The proxy, gateway-proxy/src.
    - [BodyAdmission], [BodyRewrite], [RequestBody], [CompleteBody]:
      body_admission.rs, body_rewrite.rs and the handling of request bodies in
      pingora_plane.rs.  A step of [BodyAdmission] is one atomic action.
    - [ProxyContext], [RequestFilter], [RequestIdentity], [UpstreamAdmission],
      [Upstream], [UpstreamRequest], [ResponseHeaders], [ResponseBody],
      [StreamGuardrails], [Settlement], [RequestLife]: the callbacks of
      pingora_plane.rs, in the order in which the framework calls them.
    - [SocketFrames], [ConnectionLimits], [SocketAdmission], [AccessaRuntime],
      [AccessaTurns]: accessa_transport.rs, websocket.rs, accessa_runtime.rs.
      [FoundryTokens]: foundry.rs.

    The admin API and the portal, gateway-api/src.
    - [AdminStore] (the questions), [AdminAuth], [AdminApi], [AdminConfig],
      [AdminUsage], [OwnerApi], [PortalLogin], [OpenApi], [UsageCsv],
      [AdminRouter], [AdminAudit]: the handlers of app.rs and portal.rs.

    ** What the theorems show

    - Who calls: a request that the proxy lets through was authenticated and
      met the Entra policy of its endpoint ([RequestIdentity]); authentication
      is sound under any interleaving over the shared cache and flights
      ([Auth]); accepted tokens are signed, current and for this gateway
      ([Entra]); a turn of a session is checked again under the policy of its
      key, and the rate limiter grants it at most one request
      ([AccessaTurns]).
    - What it may do: the complete body and the forwarded request are governed
      by policy, limits and budget ([CompleteBody], [UpstreamAdmission]); the
      policy that the database hands out binds as the key's own and every
      layer's ([KeyStore]); guardrail plans are exact and passing one accounts
      for every entry ([Guardrails]).
    - What leaves: a client's credential headers are replaced, and a
      credential reaches an upstream only where the code forwards the caller's
      key or token by name; the caller's headers are exact
      ([UpstreamRequest]); guarded responses are withheld until they are
      checked, and bounded ([ResponseBody], [ResponseHeaders]); redaction is
      undone by its own mappings where the client wrote no placeholder of its
      own ([PiiRestore]).
    - What is counted: a budget is exceeded by no more than what settled
      calls cost above their reservations ([BudgetLedger]), a request is settled once ([RequestLife]), the cost
      observed in a stream is the cost the document reports
      ([CostEquivalence]), lost accounting state is not rearmed
      ([CompleteBody]), memory for bodies is bounded and paid for
      ([BodyAdmission], [RequestBody]).
    - Administration: every request is authorized before it asks anything and
      successful changes are audited, but for the requests that are named
      there as recording nothing ([AdminAudit]); owners read their own
      scope ([OwnerApi]); a login belongs to the browser that started it
      ([PortalLogin]) and its transaction is used once, and a blocked member
      is refused by admin and owner API alike, with a session that reads and
      ends only itself ([PortalStore], composing the handlers with the
      tables); revoked keys and rotated tokens are refused
      for good ([KeyStore], [OperatorStore]); a change of authentication
      profiles built on a superseded revision is refused, and stored services
      stay valid ([ServiceStore]); the revision of a Foundry connection
      identifies its configuration, and a connection keeps no secret but the
      one its identity needs ([ProviderStore]); the proxy reads of a route what
      the calls for it amount to ([RouteStore]); the guardrails that the policy
      of a key names are defined, and what the administration is shown of one
      does not depend on its token ([GuardrailStore]); exports are whole ([AdminUsage],
      [UsageCsv]), following the cursors of usage pages visits every row once
      ([UsageStore]), and repricing in pages is repricing in one pass
      ([ServiceStore]).
    - Where the code falls short of its documentation or of itself, a theorem
      of the file says so, and the statements above are made for what the code
      does.

    ** Bounds and fuel

    Loops are structural wherever the code's loop runs over a list: the
    eviction loops of the cache over the order queue, the executor over the
    plan, redaction over the bytes of the input.  A compare-exchange loop
    ([BodyAdmission.increment_bounded]) takes the list of values it reads.
    [decimal_go] has fuel 20, the digits of the largest [usize];
    [Pii.replace_all] has one unit more than the bytes of its text, and
    [PiiRestore.replace_all_fuel] shows that more changes nothing;
    [SocketFrames.feed_loop] ends within the bytes of its chunk
    ([feed_terminates]); a split at white space within the bytes of its text;
    an export is drained within its pages and four more steps; a traversal of
    usage pages and a repricing end within their rows and one more.  Three operations on the
    store suffice for a turn of [AccessaTurns].
    Integers are unbounded [Z] with the code's checked, saturating or
    wrapping operations written out where it uses them; counters that only
    count are shown to stay within bounds instead.

    ** Assumptions

    Code outside the repository is a parameter: Argon2, HMAC and SHA-256
    (assumed free of collisions in [Auth]), the JWT library, the JSON and URL
    parsers, header maps and the grammars of header names and methods,
    Chrono's date format, Unicode case mapping and control characters, UUIDs,
    the allocator, the HTTP exchanges with providers, guardrails and identity
    providers, the number conversions of Redis and Lua (assumed exact in
    [BudgetLedger]), the collation of the database, its calendar and the
    visibility of its transactions.  Clocks and random values are inputs.
    Where a theorem rests on such an assumption, its witness instantiates the
    parameter with a concrete function.

    ** What is not modelled

    Telemetry (gateway-telemetry), debug events, traffic rows and timing
    probes, zeroization and mutex poisoning.  Of the Postgres store: the
    aggregates of dashboards, and traffic, debug and audit rows.  Of the API:
    the proxy for the LiteLLM user interface, the exchange with the OIDC
    provider, static assets, cluster and status pages, start-up. *)

From stdpp Require Export base gmap strings list sorting.
From Stdlib Require Export ZArith Lia Ascii.
From Stdlib Require String.
From Stdlib Require Import SpecFloat.

#[global] Open Scope Z_scope.
#[global] Set Default Proof Using "Type".

(** ** Results: [Result<T, E>] of the source and its [?] operator *)

Inductive result (E A : Type) : Type :=
| Ok (a : A)
| Err (e : E).
Arguments Ok {E A} a.
Arguments Err {E A} e.

Declare Scope rust_scope.
Delimit Scope rust_scope with rust.
#[global] Open Scope rust_scope.

Notation "'let?' x ':=' c 'in' k" :=
  (match c with Ok x => k | Err e => Err e end)
  (at level 10, x name, c at level 99, k at level 200,
   format "'[v' 'let?'  x  ':='  c  'in'  '/' k ']'") : rust_scope.
Notation "'check?' c 'in' k" :=
  (match c with Ok _ => k | Err e => Err e end)
  (at level 10, c at level 99, k at level 200,
   format "'[v' 'check?'  c  'in'  '/' k ']'") : rust_scope.

Definition is_ok {E A} (r : result E A) : bool :=
  match r with Ok _ => true | Err _ => false end.

(** [Option::ok_or]. *)
Definition ok_or {E A} (o : option A) (e : E) : result E A :=
  match o with Some a => Ok a | None => Err e end.

#[global] Instance result_eq_dec {E A} `{EqDecision E, EqDecision A} : EqDecision (result E A).
Proof. solve_decision. Defined.

(** [Iterator::try_fold]: stop at the first error. *)
Fixpoint try_fold {E A B} (f : B → A → result E B) (b : B) (l : list A) : result E B :=
  match l with
  | [] => Ok b
  | a :: l => let? b' := f b a in try_fold f b' l
  end.

(** [for x in l { f(x)?; }]. *)
Fixpoint try_for_each {E A} (f : A → result E unit) (l : list A) : result E unit :=
  match l with
  | [] => Ok tt
  | a :: l => check? f a in try_for_each f l
  end.

(** [iter.map(f).collect::<Result<Vec<_>, _>>()]. *)
Fixpoint try_map {E A B} (f : A → result E B) (l : list A) : result E (list B) :=
  match l with
  | [] => Ok []
  | a :: l => let? b := f a in let? bs := try_map f l in Ok (b :: bs)
  end.

(** ** Options *)

(** [Option::is_some_and] and [Option::is_none_or]. *)
Definition is_some_and {A} (p : A → bool) (o : option A) : bool :=
  match o with Some a => p a | None => false end.
Definition is_none_or {A} (p : A → bool) (o : option A) : bool :=
  match o with Some a => p a | None => true end.
Definition is_some {A} (o : option A) : bool :=
  match o with Some _ => true | None => false end.
Definition is_none {A} (o : option A) : bool := negb (is_some o).
Definition is_nil {A} (l : list A) : bool :=
  match l with [] => true | _ => false end.
Definition opt_filter {A} (p : A → bool) (o : option A) : option A :=
  match o with Some a => if p a then Some a else None | None => None end.

(** ** Machine integers (64-bit target) *)

Definition usize_max : Z := 2 ^ 64 - 1.
Definition u64_max : Z := 2 ^ 64 - 1.
Definition i64_max : Z := 2 ^ 63 - 1.

Definition checked_add (a b : Z) : option Z :=
  if a + b <=? usize_max then Some (a + b) else None.
Definition checked_sub (a b : Z) : option Z :=
  if b <=? a then Some (a - b) else None.
Definition checked_mul (a b : Z) : option Z :=
  if a * b <=? usize_max then Some (a * b) else None.
Definition saturating_add (a b : Z) : Z := Z.min usize_max (a + b).
Definition saturating_sub (a b : Z) : Z := Z.max 0 (a - b).

(** [(lo..=hi).contains(&v)]. *)
Definition in_range (lo hi v : Z) : bool := (lo <=? v) && (v <=? hi).

(** [Instant] and [DateTime<Utc>] are nanoseconds on one time line;
    [Instant::duration_since] saturates at zero. *)
Definition nanos_per_sec : Z := 1000000000.
Definition duration_since (now earlier : Z) : Z := Z.max 0 (now - earlier).

(** ** Rust strings

    A [&str] is the [string] of its UTF-8 bytes, so [len] is the byte length.
    Every pattern the source searches for is ASCII, hence byte-wise search
    agrees with the source's search on characters. *)

Definition len (s : string) : Z := Z.of_nat (String.length s).
Definition str_eqb : string → string → bool := String.eqb.
Definition is_empty (s : string) : bool :=
  match s with EmptyString => true | _ => false end.

Fixpoint strip_prefix (p s : string) : option string :=
  match p, s with
  | EmptyString, _ => Some s
  | String a p, String b s => if Ascii.eqb a b then strip_prefix p s else None
  | String _ _, EmptyString => None
  end.
Definition starts_with (s p : string) : bool := is_some (strip_prefix p s).

Fixpoint strip_suffix (p s : string) : option string :=
  if String.eqb s p then Some EmptyString
  else match s with
       | EmptyString => None
       | String c s => String c <$> strip_suffix p s
       end.
Definition ends_with (s p : string) : bool := is_some (strip_suffix p s).

Fixpoint all_bytes (f : ascii → bool) (s : string) : bool :=
  match s with EmptyString => true | String c s => f c && all_bytes f s end.
Definition contains_byte (c : ascii) (s : string) : bool :=
  negb (all_bytes (λ d, negb (Ascii.eqb c d)) s).

Fixpoint contains_str (s p : string) : bool :=
  starts_with s p ||
  match s with EmptyString => false | String _ s => contains_str s p end.

(** [str::split(c)]: never the empty list. *)
Fixpoint split_on (c : ascii) (s : string) : list string :=
  match s with
  | EmptyString => [EmptyString]
  | String d s =>
      if Ascii.eqb c d then EmptyString :: split_on c s
      else match split_on c s with
           | [] => [String d EmptyString]
           | w :: ws => String d w :: ws
           end
  end.

(** [s.split(c).next().unwrap_or(s)]. *)
Fixpoint before (c : ascii) (s : string) : string :=
  match s with
  | EmptyString => EmptyString
  | String d s => if Ascii.eqb c d then EmptyString else String d (before c s)
  end.

(** [str::split_once(c)]. *)
Fixpoint split_once (c : ascii) (s : string) : option (string * string) :=
  match s with
  | EmptyString => None
  | String d s =>
      if Ascii.eqb c d then Some (EmptyString, s)
      else match split_once c s with
           | Some (l, r) => Some (String d l, r)
           | None => None
           end
  end.

Fixpoint str_join (l : list string) : string :=
  match l with [] => EmptyString | s :: l => s +:+ str_join l end.

(** Byte classes of [u8::is_ascii_*]. *)
Definition byte_val (c : ascii) : Z := Z.of_N (N_of_ascii c).
Definition is_ascii_digit (c : ascii) : bool := in_range 48 57 (byte_val c).
Definition is_ascii_upper (c : ascii) : bool := in_range 65 90 (byte_val c).
Definition is_ascii_lower (c : ascii) : bool := in_range 97 122 (byte_val c).
Definition is_ascii_alphanumeric (c : ascii) : bool :=
  is_ascii_digit c || is_ascii_upper c || is_ascii_lower c.
Definition is_ascii_graphic (c : ascii) : bool := in_range 33 126 (byte_val c).
Definition is_ascii_hexdigit (c : ascii) : bool :=
  is_ascii_digit c || in_range 97 102 (byte_val c) || in_range 65 70 (byte_val c).
Definition is_ascii (c : ascii) : bool := byte_val c <? 128.

Definition ascii_lower (c : ascii) : ascii :=
  if is_ascii_upper c then ascii_of_N (Z.to_N (byte_val c + 32)) else c.
Fixpoint to_ascii_lowercase (s : string) : string :=
  match s with
  | EmptyString => EmptyString
  | String c s => String (ascii_lower c) (to_ascii_lowercase s)
  end.
Definition eq_ignore_ascii_case (a b : string) : bool :=
  String.eqb (to_ascii_lowercase a) (to_ascii_lowercase b).

(** [char::is_whitespace] on the UTF-8 bytes: the rest of the string after one
    leading whitespace character, if it starts with one.  UTF-8 is
    self-synchronising, so such a byte sequence only occurs at a character
    boundary. *)
Definition bytes_of (l : list Z) : string :=
  String.string_of_list_ascii ((λ z, ascii_of_N (Z.to_N z)) <$> l).
Definition whitespace_encodings : list string :=
  bytes_of <$>
  ([[9]; [10]; [11]; [12]; [13]; [32]; [194; 133]; [194; 160]; [225; 154; 128];
    [226; 128; 168]; [226; 128; 169]; [226; 128; 175]; [226; 129; 159];
    [227; 128; 128]] ++
   ((λ z, [226; 128; z]) <$> [128; 129; 130; 131; 132; 133; 134; 135; 136; 137; 138])).
Fixpoint first_strip (encs : list string) (s : string) : option string :=
  match encs with
  | [] => None
  | e :: encs =>
      match strip_prefix e s with Some r => Some r | None => first_strip encs s end
  end.
Definition strip_whitespace_char (s : string) : option string :=
  first_strip whitespace_encodings s.

Fixpoint trim_start_fuel (n : nat) (s : string) : string :=
  match n with
  | O => s
  | S n => match strip_whitespace_char s with
           | Some r => trim_start_fuel n r
           | None => s
           end
  end.
(** [str::trim_start]: each round removes at least one byte. *)
Definition trim_start (s : string) : string := trim_start_fuel (String.length s) s.
Fixpoint trim_end (s : string) : string :=
  match s with
  | EmptyString => EmptyString
  | String c r => if is_empty (trim_start s) then EmptyString else String c (trim_end r)
  end.
Definition trim (s : string) : string := trim_end (trim_start s).
Fixpoint contains_whitespace (s : string) : bool :=
  is_some (strip_whitespace_char s) ||
  match s with EmptyString => false | String _ s => contains_whitespace s end.

(** [s.bytes().take(n)], and [s.chars().take(n)] of an ASCII text. *)
Fixpoint str_take (n : nat) (s : string) : string :=
  match n, s with
  | S n, String c s => String c (str_take n s)
  | _, _ => EmptyString
  end.

(** [str::trim_end_matches(c)] and [str::trim_start_matches(p)]. *)
Fixpoint trim_end_matches (c : ascii) (s : string) : string :=
  match s with
  | EmptyString => EmptyString
  | String d r =>
      if all_bytes (Ascii.eqb c) s then EmptyString else String d (trim_end_matches c r)
  end.
Fixpoint trim_start_matches_fuel (n : nat) (p s : string) : string :=
  match n with
  | O => s
  | S n => match strip_prefix p s with
           | Some r => trim_start_matches_fuel n p r
           | None => s
           end
  end.
Definition trim_start_matches (p s : string) : string :=
  trim_start_matches_fuel (String.length s) p s.

(** ** binary64 floats: the Standard Library's executable IEEE 754 model *)

Definition f64 : Type := spec_float.
Definition f64_prec : Z := 53.
Definition f64_emax : Z := 1024.
Definition f64_add : f64 → f64 → f64 := SFadd f64_prec f64_emax.
Definition f64_sub : f64 → f64 → f64 := SFsub f64_prec f64_emax.
Definition f64_mul : f64 → f64 → f64 := SFmul f64_prec f64_emax.
Definition f64_div : f64 → f64 → f64 := SFdiv f64_prec f64_emax.
Definition f64_ltb : f64 → f64 → bool := SFltb.
Definition f64_leb : f64 → f64 → bool := SFleb.
Definition f64_gtb (a b : f64) : bool := SFltb b a.
Definition f64_geb (a b : f64) : bool := SFleb b a.
Definition f64_is_nan (a : f64) : bool := match a with S754_nan => true | _ => false end.
Definition f64_is_finite (a : f64) : bool :=
  match a with S754_nan | S754_infinity _ => false | _ => true end.
(** [n as f64]: round to nearest. *)
Definition f64_of_Z (n : Z) : f64 := binary_normalize f64_prec f64_emax n 0 false.
(** [f64::min] and [f64::max]: a NaN operand yields the other one. *)
Definition f64_min (a b : f64) : f64 :=
  if f64_is_nan a then b else if f64_is_nan b then a else if f64_leb a b then a else b.
Definition f64_max (a b : f64) : f64 :=
  if f64_is_nan a then b else if f64_is_nan b then a else if f64_leb a b then b else a.

(** ** Sums over finite maps *)

Section msum.
Context {K V : Type} `{Countable K}.
Implicit Types (f : V → Z) (m : gmap K V).

Definition msum f m : Z := map_fold (λ _ v acc, f v + acc) 0 m.

Lemma msum_empty f : msum f ∅ = 0.
Proof. apply map_fold_empty. Qed.

Lemma msum_insert f m k v : m !! k = None → msum f (<[k:=v]> m) = f v + msum f m.
Proof.
  intros Hk. unfold msum. rewrite map_fold_insert_L; [done| |done].
  intros; lia.
Qed.

Lemma msum_delete f m k v : m !! k = Some v → msum f (delete k m) = msum f m - f v.
Proof.
  intros Hk. pose proof (msum_insert f (delete k m) k v (lookup_delete_eq m k)) as E.
  rewrite insert_delete_id in E by done. lia.
Qed.

Lemma msum_update f m k v v' :
  m !! k = Some v → msum f (<[k:=v']> m) = msum f m - f v + f v'.
Proof.
  intros Hk. rewrite <- insert_delete_eq, msum_insert by apply lookup_delete_eq.
  rewrite (msum_delete _ _ _ v) by done. lia.
Qed.

Lemma msum_nonneg f m : (∀ k v, m !! k = Some v → 0 ≤ f v) → 0 ≤ msum f m.
Proof.
  induction m as [|k v m Hk IH] using map_ind; intros Hf.
  - rewrite msum_empty; lia.
  - rewrite msum_insert by done.
    assert (0 ≤ f v) by (apply (Hf k); by rewrite lookup_insert_eq).
    assert (0 ≤ msum f m); [|lia].
    apply IH. intros k' v' Hk'. apply (Hf k').
    rewrite lookup_insert_ne; [done|congruence].
Qed.

Lemma msum_le f m k v : (∀ k v, m !! k = Some v → 0 ≤ f v) → m !! k = Some v → f v ≤ msum f m.
Proof.
  intros Hf Hk. assert (0 ≤ msum f (delete k m)).
  { apply msum_nonneg. intros k' v' Hd%lookup_delete_Some. naive_solver. }
  rewrite (msum_delete _ _ _ v) in H0 by done. lia.
Qed.

Lemma msum_ext f g m : (∀ k v, m !! k = Some v → f v = g v) → msum f m = msum g m.
Proof.
  induction m as [|k v m Hk IH] using map_ind; intros Hf.
  - by rewrite !msum_empty.
  - rewrite !msum_insert by done. rewrite (Hf k) by apply lookup_insert_eq.
    f_equal. apply IH. intros k' v' Hk'. apply (Hf k').
    rewrite lookup_insert_ne; [done|congruence].
Qed.

Lemma msum_mono f g m : (∀ k v, m !! k = Some v → f v ≤ g v) → msum f m ≤ msum g m.
Proof.
  induction m as [|k v m Hk IH] using map_ind; intros Hf.
  - by rewrite !msum_empty.
  - rewrite !msum_insert by done.
    pose proof (Hf k v (lookup_insert_eq _ _ _)).
    assert (msum f m ≤ msum g m); [|lia].
    apply IH. intros k' v' Hk'. apply (Hf k').
    rewrite lookup_insert_ne; [done|congruence].
Qed.

Lemma msum_const m : msum (λ _, 1) m = Z.of_nat (size m).
Proof.
  induction m as [|k v m Hk IH] using map_ind; [done|].
  rewrite msum_insert, map_size_insert_None, IH by done. lia.
Qed.

Lemma msum_scale f m c : msum (λ v, c * f v) m = c * msum f m.
Proof.
  induction m as [|k v m Hk IH] using map_ind.
  - rewrite !msum_empty; lia.
  - rewrite !msum_insert by done. lia.
Qed.
End msum.

(** The decimal text of a [usize] or [u64]: at most 20 digits. *)
Fixpoint decimal_go (fuel : nat) (n : Z) (acc : string) : string :=
  match fuel with
  | O => acc
  | S fuel =>
      let acc := String (ascii_of_N (Z.to_N (48 + n `mod` 10))) acc in
      if n `div` 10 =? 0 then acc else decimal_go fuel (n `div` 10) acc
  end.
Definition decimal (n : Z) : string := decimal_go 20 n "".

(** The number a text of digits stands for, after [acc]. *)
Fixpoint digits_value (s : string) (acc : Z) : Z :=
  match s with
  | EmptyString => acc
  | String c s => digits_value s (10 * acc + (byte_val c - 48))
  end.

(** ** Automation *)

Create HintDb gateway.

(** Record update: [replace_field eta c (f c) v] is [c] with the field [f]
    set to [v], for the eta-expansion [eta] of its record. *)
Ltac replace_field eta c old new :=
  let whole := eval cbv beta delta [eta] in (eta c) in
  let abstracted := eval pattern old in whole in
  match abstracted with ?f _ => let updated := eval cbv beta in (f new) in exact updated end.

(** Split a successful or failing computation into its branches. *)
Ltac result_step :=
  match goal with
  | H : Ok _ = Ok _ |- _ => injection H as H
  | H : Err _ = Err _ |- _ => injection H as H
  | H : Some _ = Some _ |- _ => injection H as H
  | H : Ok _ = Err _ |- _ => discriminate H
  | H : Err _ = Ok _ |- _ => discriminate H
  | H : Some _ = None |- _ => discriminate H
  | H : None = Some _ |- _ => discriminate H
  | H : (if ?b then _ else _) = _ |- _ => destruct b eqn:?
  | H : match ?x with _ => _ end = _ |- _ => destruct x eqn:?
  end.
Ltac result_cases := repeat (result_step; subst; cbn [is_ok] in *).
(** The same along the only branch that does not contradict the outcome. *)
Ltac result_path := repeat (result_step; try discriminate; []).

(** Turn boolean tests into propositions. *)
Ltac bool_prop :=
  repeat match goal with
  | H : _ && _ = true |- _ => apply andb_true_iff in H as [? ?]
  | H : _ || _ = false |- _ => apply orb_false_iff in H as [? ?]
  | H : negb _ = true |- _ => apply negb_true_iff in H
  | H : negb _ = false |- _ => apply negb_false_iff in H
  | H : (_ =? _)%Z = true |- _ => apply Z.eqb_eq in H
  | H : (_ =? _)%Z = false |- _ => apply Z.eqb_neq in H
  | H : (_ <=? _)%Z = true |- _ => apply Z.leb_le in H
  | H : (_ <=? _)%Z = false |- _ => apply Z.leb_gt in H
  | H : (_ <? _)%Z = true |- _ => apply Z.ltb_lt in H
  | H : (_ <? _)%Z = false |- _ => apply Z.ltb_ge in H
  | H : (_ >? _)%Z = true |- _ => rewrite Z.gtb_ltb in H; apply Z.ltb_lt in H
  | H : (_ >? _)%Z = false |- _ => rewrite Z.gtb_ltb in H; apply Z.ltb_ge in H
  | H : (_ >=? _)%Z = true |- _ => rewrite Z.geb_leb in H; apply Z.leb_le in H
  | H : (_ >=? _)%Z = false |- _ => rewrite Z.geb_leb in H; apply Z.leb_gt in H
  | H : bool_decide _ = true |- _ => apply bool_decide_eq_true in H
  | H : bool_decide _ = false |- _ => apply bool_decide_eq_false in H
  | H : String.eqb _ _ = true |- _ => apply String.eqb_eq in H
  | H : String.eqb _ _ = false |- _ => apply String.eqb_neq in H
  end.

(** ** Generic lemmas *)

(** A guard [if b { return Err(e) }] is passed exactly when [b] is false. *)
Lemma guard_ok {E A} (b : bool) (e : E) (k : result E A) a :
  (if b then Err e else k) = Ok a ↔ b = false ∧ k = Ok a.
Proof. destruct b; naive_solver. Qed.
Lemma check_ok {E A} (c : result E unit) (k : result E A) a :
  (check? c in k) = Ok a ↔ c = Ok tt ∧ k = Ok a.
Proof. destruct c as [[]|]; naive_solver. Qed.
Lemma andb_negb_false (a b : bool) : a && negb b = false ↔ (a = true → b = true).
Proof. destruct a, b; naive_solver. Qed.

Lemma existsb_false_iff {A} (f : A → bool) l :
  existsb f l = false ↔ ∀ x, x ∈ l → f x = false.
Proof.
  induction l as [|a l IH]; simpl.
  - split; [by intros _ ? ?%not_elem_of_nil|done].
  - rewrite orb_false_iff, IH. setoid_rewrite elem_of_cons. naive_solver.
Qed.
Lemma existsb_true_iff {A} (f : A → bool) l :
  existsb f l = true ↔ ∃ x, x ∈ l ∧ f x = true.
Proof.
  induction l as [|a l IH]; simpl.
  - split; [done|]. by intros (? & ?%not_elem_of_nil & _).
  - rewrite orb_true_iff, IH. setoid_rewrite elem_of_cons. naive_solver.
Qed.
Lemma existsb_eqb_iff s l : existsb (String.eqb s) l = true ↔ s ∈ l.
Proof.
  rewrite existsb_true_iff. setoid_rewrite String.eqb_eq. naive_solver.
Qed.

Lemma try_for_each_ok {E A} (f : A → result E unit) l :
  try_for_each f l = Ok tt ↔ Forall (λ a, f a = Ok tt) l.
Proof.
  induction l as [|a l IH]; simpl; [done|]. rewrite Forall_cons, <- IH.
  destruct (f a) as [[]|]; naive_solver.
Qed.

Lemma try_map_ok {E A B} (f : A → result E B) l k :
  try_map f l = Ok k ↔ Forall2 (λ a b, f a = Ok b) l k.
Proof.
  revert k. induction l as [|a l IH]; intros k; simpl; split.
  - intros [= <-]. constructor.
  - by inversion_clear 1.
  - intros E'. destruct (f a) eqn:Hf; [|done].
    destruct (try_map f l) eqn:Hl; [|done]. injection E' as <-.
    constructor; [done|]. by apply IH.
  - inversion_clear 1 as [|? b ? k' Hb Hk]. rewrite Hb.
    apply IH in Hk. by rewrite Hk.
Qed.

Lemma try_map_total {E A B} (f : A → result E B) l : (∀ a, a ∈ l → is_ok (f a) = true) → is_ok (try_map f l) = true.
Proof.
  induction l as [|a l IH]; intros Hf; cbn; [done|]. pose proof (Hf a ltac:(by left)) as Ha. destruct (f a); [|done]. cbn.
  specialize (IH ltac:(intros x Hx; apply Hf; by right)). by destruct (try_map f l).
Qed.

Lemma checked_add_Some a b c : checked_add a b = Some c ↔ c = a + b ∧ a + b ≤ usize_max.
Proof. unfold checked_add. destruct (Z.leb_spec (a + b) usize_max); naive_solver lia. Qed.
Lemma checked_sub_Some a b c : checked_sub a b = Some c ↔ c = a - b ∧ b ≤ a.
Proof. unfold checked_sub. destruct (Z.leb_spec b a); naive_solver lia. Qed.
Lemma checked_mul_Some a b c : checked_mul a b = Some c ↔ c = a * b ∧ a * b ≤ usize_max.
Proof. unfold checked_mul. destruct (Z.leb_spec (a * b) usize_max); naive_solver lia. Qed.

Lemma in_range_iff lo hi v : in_range lo hi v = true ↔ lo ≤ v ≤ hi.
Proof. unfold in_range. rewrite andb_true_iff, !Z.leb_le. lia. Qed.

(** Bits below and above position [k] do not meet. *)
Lemma lor_disjoint x k h : 0 ≤ k → 0 ≤ h < 2 ^ k → Z.lor (x * 2 ^ k) h = x * 2 ^ k + h.
Proof.
  intros Hk Hh. destruct (Z.eq_dec h 0) as [->|Hne]; [rewrite Z.lor_0_r; lia|].
  assert (Z.land (x * 2 ^ k) h = 0) as Hand.
  { apply Z.bits_inj'. intros n Hn. rewrite Z.land_spec, Z.bits_0, Z.mul_pow2_bits by lia.
    destruct (Z.ltb_spec n k); [by rewrite (Z.testbit_neg_r x) by lia|].
    rewrite (Z.bits_above_log2 h n), ?andb_false_r; [done|lia|]. apply Z.log2_lt_pow2; [lia|].
    apply Z.lt_le_trans with (2 ^ k); [lia|]. apply Z.pow_le_mono_r; lia. }
  by rewrite <- Z.lxor_lor, <- Z.add_nocarry_lxor.
Qed.

Lemma duration_since_nonneg a b : 0 ≤ duration_since a b.
Proof. unfold duration_since. lia. Qed.
#[export] Hint Resolve duration_since_nonneg : gateway.

(** *** Strings *)

#[global] Arguments String.append : simpl nomatch.

Lemma byte_val_inj c d : byte_val c = byte_val d → c = d.
Proof.
  unfold byte_val. intros E. apply N2Z.inj in E. rewrite <- (ascii_N_embedding c), <- (ascii_N_embedding d).
  by rewrite E.
Qed.
Lemma append_nil_r (s : string) : s +:+ "" = s.
Proof. induction s as [|c s IH]; simpl; congruence. Qed.
Lemma append_assoc (a b c : string) : (a +:+ b) +:+ c = a +:+ b +:+ c.
Proof. induction a as [|x a IH]; simpl; congruence. Qed.
Lemma length_append (a b : string) :
  String.length (a +:+ b) = (String.length a + String.length b)%nat.
Proof. induction a as [|x a IH]; simpl; congruence. Qed.

Lemma len_append a b : len (a +:+ b) = len a + len b.
Proof. unfold len. rewrite length_append. lia. Qed.

Lemma len_nonneg s : 0 ≤ len s.
Proof. unfold len. lia. Qed.

Lemma strip_prefix_Some p s r : strip_prefix p s = Some r ↔ s = p +:+ r.
Proof.
  revert s. induction p as [|a p IH]; intros s; simpl; [naive_solver|].
  destruct s as [|b s]; simpl; [naive_solver|].
  destruct (Ascii.eqb_spec a b) as [->|]; [rewrite IH|]; naive_solver.
Qed.
Lemma starts_with_iff s p : starts_with s p = true ↔ ∃ r, s = p +:+ r.
Proof.
  unfold starts_with. destruct (strip_prefix p s) as [r|] eqn:E; simpl.
  - apply strip_prefix_Some in E. naive_solver.
  - split; [done|]. intros [r Hr]. apply strip_prefix_Some in Hr. congruence.
Qed.
Lemma starts_with_append p r : starts_with (p +:+ r) p = true.
Proof. apply starts_with_iff. eauto. Qed.

Lemma strip_suffix_Some p s r : strip_suffix p s = Some r ↔ s = r +:+ p.
Proof.
  revert r. induction s as [|c s IH]; intros r; cbn [strip_suffix].
  - destruct p as [|a p]; simpl.
    + rewrite append_nil_r. naive_solver.
    + destruct r; naive_solver.
  - destruct (String.eqb_spec (String c s) p) as [<-|Hne].
    + split; [by intros [= <-]|]. intros Hl. f_equal.
      destruct r as [|d r]; [done|]. apply (f_equal String.length) in Hl.
      rewrite length_append in Hl. simpl in Hl. lia.
    + rewrite fmap_Some. setoid_rewrite IH. split.
      * intros (r' & -> & ->). done.
      * destruct r as [|d r]; simpl; [by intros <-|]. intros [= -> ->]. eauto.
Qed.

Lemma all_bytes_append f a b : all_bytes f (a +:+ b) = all_bytes f a && all_bytes f b.
Proof. induction a as [|c a IH]; simpl; [done|]. by rewrite IH, andb_assoc. Qed.
Lemma contains_byte_append c a b :
  contains_byte c (a +:+ b) = contains_byte c a || contains_byte c b.
Proof. unfold contains_byte. by rewrite all_bytes_append, negb_andb. Qed.
Lemma contains_byte_cons c d s :
  contains_byte c (String d s) = Ascii.eqb c d || contains_byte c s.
Proof. unfold contains_byte. simpl. by rewrite negb_andb, negb_involutive. Qed.

Lemma before_no_sep c s : contains_byte c (before c s) = false.
Proof.
  induction s as [|d s IH]; simpl; [done|].
  destruct (Ascii.eqb_spec c d); [done|]. rewrite contains_byte_cons, IH.
  destruct (Ascii.eqb_spec c d); done.
Qed.
Lemma before_append c a b : contains_byte c a = false → before c (a +:+ String c b) = a.
Proof.
  induction a as [|d a IH]; simpl.
  - by rewrite Ascii.eqb_refl.
  - rewrite contains_byte_cons. intros [Hd Ha]%orb_false_iff. rewrite Hd. f_equal. auto.
Qed.
Lemma before_id c s : contains_byte c s = false → before c s = s.
Proof.
  induction s as [|d s IH]; simpl; [done|].
  rewrite contains_byte_cons. intros [Hd Ha]%orb_false_iff. rewrite Hd. f_equal. auto.
Qed.
Lemma before_idem c s : before c (before c s) = before c s.
Proof. apply before_id, before_no_sep. Qed.

Lemma contains_whitespace_append_l a b :
  contains_whitespace (a +:+ b) = false → contains_whitespace a = false.
Proof.
  assert (Hs : ∀ encs s t r, first_strip encs s = Some r → is_Some (first_strip encs (s +:+ t))).
  { induction encs as [|e encs IH]; simpl; intros s t r; [done|].
    destruct (strip_prefix e s) as [r'|] eqn:E.
    - intros _. apply strip_prefix_Some in E as ->. rewrite append_assoc.
      destruct (strip_prefix e _) eqn:E'; [eauto|].
      by rewrite (proj2 (strip_prefix_Some _ _ (r' +:+ t))) in E'.
    - intros H. destruct (strip_prefix e (s +:+ t)); [eauto|]. eauto. }
  induction a as [|c a IH]; intros H; [done|].
  cbn [contains_whitespace String.append] in *. apply orb_false_iff in H as [H1 H2].
  rewrite IH, orb_false_r by done. unfold strip_whitespace_char in *.
  destruct (first_strip _ (String c a)) as [r|] eqn:E; [|done].
  destruct (Hs _ _ b _ E) as [? E']. cbn [String.append] in E'. by rewrite E' in H1.
Qed.
Lemma trim_no_whitespace s : contains_whitespace s = false → trim s = s.
Proof.
  assert (Hst : ∀ s, contains_whitespace s = false → trim_start s = s).
  { intros [|c s'] H; [done|]. unfold trim_start.
    cbn [contains_whitespace] in H. apply orb_false_iff in H as [H _].
    cbn [String.length trim_start_fuel]. by destruct (strip_whitespace_char _). }
  intros H. unfold trim. rewrite (Hst s H). induction s as [|c s IH]; [done|].
  cbn [trim_end]. rewrite (Hst _ H). cbn [is_empty]. f_equal. apply IH.
  cbn [contains_whitespace] in H. by apply orb_false_iff in H as [_ H].
Qed.

(** *** Trimming is idempotent *)

Lemma append_comparable (a b p q : string) :
  a +:+ p = b +:+ q → (∃ c, a = b +:+ c) ∨ (∃ c, b = a +:+ c).
Proof.
  revert b. induction a as [|x a IH]; intros b H; [right; by exists b|].
  destruct b as [|y b]; [left; by exists (String x a)|]. simpl in H. injection H as -> H.
  destruct (IH b H) as [[c ->]|[c ->]]; [left|right]; by exists c.
Qed.
(** No encoding of a whitespace character begins another. *)
Definition begins (e e' : string) : bool := is_some (strip_prefix e e').
Lemma whitespace_prefix_free e e' :
  e ∈ whitespace_encodings → e' ∈ whitespace_encodings → begins e e' = true → e = e'.
Proof.
  intros He He' Hb.
  assert (Hall : forallb (λ e, forallb (λ e', implb (begins e e') (String.eqb e e')) whitespace_encodings)
                   whitespace_encodings = true) by (vm_compute; reflexivity).
  rewrite forallb_forall in Hall. specialize (Hall e (proj1 (list_elem_of_In _ _) He)).
  rewrite forallb_forall in Hall. specialize (Hall e' (proj1 (list_elem_of_In _ _) He')).
  rewrite Hb in Hall. by apply String.eqb_eq.
Qed.
Lemma first_strip_Some encs s r : first_strip encs s = Some r → ∃ e, (e ∈ encs) ∧ s = e +:+ r.
Proof.
  induction encs as [|e encs IH]; simpl; [done|]. destruct (strip_prefix e s) as [r'|] eqn:E.
  - intros [= ->]. apply strip_prefix_Some in E. exists e. split; [left|done].
  - intros (e' & ? & ?)%IH. exists e'. split; [by right|done].
Qed.
Lemma strip_encoding e x : e ∈ whitespace_encodings → strip_whitespace_char (e +:+ x) = Some x.
Proof.
  intros He. unfold strip_whitespace_char.
  assert (Hsub : ∀ encs, (∀ e', e' ∈ encs → e' ∈ whitespace_encodings) → e ∈ encs → first_strip encs (e +:+ x) = Some x).
  { induction encs as [|e0 encs IH]; intros Hs Hin; [by apply elem_of_nil in Hin|]. simpl.
    destruct (strip_prefix e0 (e +:+ x)) as [r|] eqn:E.
    - apply strip_prefix_Some in E as E'. assert (e0 = e) as ->.
      { destruct (append_comparable e e0 x r E') as [[c Hc]|[c Hc]]; [|symmetry]; apply whitespace_prefix_free;
          try done; try (apply Hs; left); unfold begins; subst; by rewrite (proj2 (strip_prefix_Some _ _ c) eq_refl). }
      f_equal. clear -E'. induction e; simpl in E'; [done|]. injection E' as E'. by apply IHe.
    - apply IH; [intros; apply Hs; by right|]. apply elem_of_cons in Hin as [->|]; [|done].
      by rewrite (proj2 (strip_prefix_Some e0 _ x) eq_refl) in E. }
  by apply Hsub.
Qed.
Lemma strip_char_Some s r : strip_whitespace_char s = Some r →
  ∃ e, (e ∈ whitespace_encodings) ∧ s = e +:+ r ∧ (String.length r < String.length s)%nat.
Proof.
  intros (e & He & ->)%first_strip_Some. exists e. split_and!; [done..|]. rewrite length_append.
  assert (Hne : forallb (λ e, negb (is_empty e)) whitespace_encodings = true) by (vm_compute; reflexivity).
  rewrite forallb_forall in Hne. specialize (Hne e (proj1 (list_elem_of_In _ _) He)).
  destruct e; [done|simpl; lia].
Qed.
Lemma strip_char_append s r w : strip_whitespace_char s = Some r → strip_whitespace_char (s +:+ w) = Some (r +:+ w).
Proof. intros (e & He & -> & _)%strip_char_Some. rewrite append_assoc. by apply strip_encoding. Qed.

Lemma trim_start_fuel_enough n m s : (String.length s ≤ n)%nat → (String.length s ≤ m)%nat →
  trim_start_fuel n s = trim_start_fuel m s.
Proof.
  revert m s. induction n as [|n IH]; intros m s Hn Hm.
  - destruct s; [|simpl in Hn; lia]. destruct m; done.
  - destruct m as [|m]; [destruct s; [done|simpl in Hm; lia]|]. simpl.
    destruct (strip_whitespace_char s) as [r|] eqn:E; [|done].
    apply strip_char_Some in E as (_ & _ & _ & Hl). apply IH; lia.
Qed.
Lemma trim_start_step s r : strip_whitespace_char s = Some r → trim_start s = trim_start r.
Proof.
  intros E. unfold trim_start. apply strip_char_Some in E as E'. destruct E' as (_ & _ & _ & Hl).
  destruct s as [|c s]; [simpl in Hl; lia|]. cbn [String.length trim_start_fuel] in *. rewrite E.
  apply trim_start_fuel_enough; simpl in *; lia.
Qed.
Lemma trim_start_stop s : strip_whitespace_char s = None → trim_start s = s.
Proof. intros E. unfold trim_start. destruct (String.length s); [done|]. cbn [trim_start_fuel]. by rewrite E. Qed.
Lemma strip_ind (P : string → Prop) :
  (∀ s, strip_whitespace_char s = None → P s) →
  (∀ s r, strip_whitespace_char s = Some r → P r → P s) → ∀ s, P s.
Proof.
  intros H0 H1 s. remember (String.length s) as n eqn:Hn. revert s Hn.
  induction (lt_wf n) as [n _ IH]. intros s ->. destruct (strip_whitespace_char s) as [r|] eqn:E; [|auto].
  apply strip_char_Some in E as E'. destruct E' as (_ & _ & _ & Hl). eapply H1; [done|]. by eapply IH.
Qed.
Lemma trim_start_none s : strip_whitespace_char (trim_start s) = None.
Proof. induction s as [s E|s r E IH] using strip_ind; [by rewrite trim_start_stop|by rewrite (trim_start_step s r)]. Qed.
Lemma white_append u w : trim_start u = "" → trim_start w = "" → trim_start (u +:+ w) = "".
Proof.
  induction u as [u E|u r E IH] using strip_ind; intros Hu Hw.
  - rewrite trim_start_stop in Hu by done. by subst.
  - rewrite (trim_start_step _ (r +:+ w)) by (by apply strip_char_append).
    apply IH; [by rewrite <- (trim_start_step u r)|done].
Qed.
Lemma trim_end_split s : ∃ w, s = trim_end s +:+ w ∧ trim_start w = "".
Proof.
  induction s as [|c s [w [Hs Hw]]]; [by exists ""|]. cbn [trim_end]. destruct (is_empty (trim_start (String c s))) eqn:E.
  - exists (String c s). split; [done|]. by destruct (trim_start (String c s)).
  - exists w. split; [|done]. simpl. by rewrite <- Hs.
Qed.
Lemma trim_end_idem s : trim_end (trim_end s) = trim_end s.
Proof.
  induction s as [|c s IH]; [done|]. cbn [trim_end]. destruct (is_empty (trim_start (String c s))) eqn:E; [done|].
  cbn [trim_end]. rewrite IH. destruct (is_empty (trim_start (String c (trim_end s)))) eqn:E'; [|done].
  destruct (trim_end_split s) as (w & Hs & Hw). exfalso.
  assert (trim_start (String c s) = "") as Ht; [|by rewrite Ht in E].
  rewrite Hs. change (String c (trim_end s +:+ w)) with (String c (trim_end s) +:+ w).
  apply white_append; [|done]. by destruct (trim_start (String c (trim_end s))).
Qed.
Lemma trim_trim s : trim (trim s) = trim s.
Proof.
  unfold trim. rewrite (trim_start_stop (trim_end (trim_start s))); [by rewrite trim_end_idem|].
  destruct (trim_end_split (trim_start s)) as (w & Hs & _).
  destruct (strip_whitespace_char (trim_end (trim_start s))) as [r|] eqn:E; [|done].
  apply (strip_char_append _ _ w) in E. rewrite <- Hs, trim_start_none in E. done.
Qed.
Lemma trim_end_matches_snoc c s :
  trim_end_matches c (s +:+ String c "") = trim_end_matches c s.
Proof.
  induction s as [|d s IH].
  - simpl. by rewrite Ascii.eqb_refl.
  - cbn [trim_end_matches String.append].
    replace (all_bytes (Ascii.eqb c) (String d (s +:+ String c "")))
      with (all_bytes (Ascii.eqb c) (String d s)).
    + destruct (all_bytes _ _); [done|]. by rewrite IH.
    + cbn [all_bytes]. rewrite all_bytes_append. cbn [all_bytes].
      by rewrite Ascii.eqb_refl, andb_true_r.
Qed.
Lemma trim_end_matches_prefix c s : ∃ t, s = trim_end_matches c s +:+ t.
Proof.
  induction s as [|d s [t IH]]; [by exists ""|].
  cbn [trim_end_matches]. destruct (all_bytes _ _); [by eexists|].
  exists t. cbn [String.append]. congruence.
Qed.

(** *** Floats: [SFcompare] orders the non-NaN values totally *)

Ltac f64_order :=
  repeat match goal with
  | a : f64 |- _ => destruct a as [[]|[]| |[] ? ?]
  | a : spec_float |- _ => destruct a as [[]|[]| |[] ? ?]
  end; simpl in *; try done;
  change (Pos.compare_cont Eq) with Pos.compare in *;
  rewrite <- ?Pos.compare_antisym in *;
  repeat (case_match; simpl in *; try done);
  rewrite ?Z.compare_eq_iff, ?Z.compare_lt_iff, ?Z.compare_gt_iff,
    ?Pos.compare_eq_iff, ?Pos.compare_lt_iff, ?Pos.compare_gt_iff in *;
  subst; try lia.

Lemma f64_leb_trans a b c : f64_leb a b = true → f64_leb b c = true → f64_leb a c = true.
Proof. unfold f64_leb, SFleb. f64_order. Qed.
Lemma f64_leb_ltb_trans a b c : f64_leb a b = true → f64_ltb b c = true → f64_ltb a c = true.
Proof. unfold f64_leb, SFleb, f64_ltb, SFltb. f64_order. Qed.
Lemma f64_ltb_leb a b : f64_ltb a b = true → f64_leb a b = true.
Proof. unfold f64_leb, SFleb, f64_ltb, SFltb. f64_order. Qed.
Lemma f64_leb_refl a : f64_is_nan a = false → f64_leb a a = true.
Proof. unfold f64_leb, SFleb. f64_order. Qed.
Lemma f64_leb_total a b :
  f64_is_nan a = false → f64_is_nan b = false → f64_leb a b = false → f64_leb b a = true.
Proof. unfold f64_leb, SFleb. f64_order. Qed.
Lemma f64_ltb_nan_l b : f64_ltb S754_nan b = false.
Proof. done. Qed.
Lemma f64_leb_nan_r a : f64_leb a S754_nan = false.
Proof. by destruct a as [[]|[]| |[] ? ?]. Qed.

(** A value is above [min a b] exactly when it is above [a] or above [b], NaN included. *)
Lemma f64_gtb_min x a b : f64_gtb x (f64_min a b) = f64_gtb x a || f64_gtb x b.
Proof.
  unfold f64_gtb, f64_min. change SFltb with f64_ltb.
  destruct (f64_is_nan a) eqn:Ha; [by destruct a|].
  destruct (f64_is_nan b) eqn:Hb; [destruct b; try done; by rewrite orb_false_r|].
  destruct (f64_leb a b) eqn:Hab.
  - destruct (f64_ltb b x) eqn:Hbx; [|by rewrite orb_false_r].
    by rewrite (f64_leb_ltb_trans a b x) by done.
  - destruct (f64_ltb a x) eqn:Hax; [|done].
    rewrite (f64_leb_ltb_trans b a x) by (done || by apply f64_leb_total). done.
Qed.
Lemma f64_leb_min_r a b : f64_is_nan b = false → f64_leb (f64_min a b) b = true.
Proof.
  intros Hb. unfold f64_min. destruct (f64_is_nan a); [by apply f64_leb_refl|].
  rewrite Hb. destruct (f64_leb a b) eqn:E; [done|by apply f64_leb_refl].
Qed.

(** *** Decimal texts *)

Lemma digit_text n : is_ascii_digit (ascii_of_N (Z.to_N (48 + n `mod` 10))) = true.
Proof.
  pose proof (Z.mod_pos_bound n 10). unfold is_ascii_digit, byte_val.
  rewrite N_ascii_embedding by lia. apply in_range_iff. lia.
Qed.

Lemma decimal_go_value fuel n acc a :
  0 ≤ n < 10 ^ Z.of_nat fuel → a = 0 →
  digits_value (decimal_go fuel n acc) a = digits_value acc n.
Proof.
  revert n acc. induction fuel as [|fuel IH]; intros n acc Hn Ha.
  - simpl in *. replace n with 0 by lia. by subst.
  - cbn [decimal_go]. replace (Z.of_nat (S fuel)) with (Z.of_nat fuel + 1) in Hn by lia.
    rewrite Z.pow_add_r in Hn by lia.
    pose proof (Z.div_mod n 10). pose proof (Z.mod_pos_bound n 10).
    assert (byte_val (ascii_of_N (Z.to_N (48 + n `mod` 10))) = 48 + n `mod` 10) as Hb.
    { unfold byte_val. rewrite N_ascii_embedding; lia. }
    destruct (Z.eqb_spec (n `div` 10) 0) as [E|E].
    + subst. cbn [digits_value]. rewrite Hb. f_equal. lia.
    + rewrite IH; [|lia|done]. cbn [digits_value]. rewrite Hb. f_equal. lia.
Qed.


(** ** Comparisons: [std::cmp::Ordering], first least elements and sorting *)

Definition then_with (o o' : comparison) : comparison := match o with Eq => o' | _ => o end.
(** [f64::partial_cmp]. *)
Definition partial_cmp (a b : f64) : option comparison :=
  match f64_leb a b, f64_geb a b with
  | false, false => None
  | false, true => Some Gt
  | true, false => Some Lt
  | true, true => Some Eq
  end.
(** [Iterator::min_by], which keeps the first of equals. *)
Definition min_by {A} (cmp : A → A → comparison) (l : list A) : option A :=
  match l with
  | [] => None
  | x :: l => Some (foldl (λ best y, match cmp best y with Gt => y | _ => best end) x l)
  end.

(** A total preorder on the elements with [P]. *)
Record total_cmp {A} (P : A → Prop) (cmp : A → A → comparison) : Prop := {
  cmp_flip a b : P a → P b → cmp b a = CompOpp (cmp a b);
  cmp_trans a b c : P a → P b → P c → cmp a b ≠ Gt → cmp b c ≠ Gt → cmp a c ≠ Gt
}.
(** Uses what is known of three comparisons. *)
Ltac cmp_facts :=
  cbn in *;
  repeat match goal with H : (_ ≠ _) → _ |- _ => specialize (H ltac:(first [discriminate | assumption | congruence])) end;
  try done; try congruence.
Lemma total_Z {A} (P : A → Prop) (f : A → Z) : total_cmp P (λ a b, f a ?= f b).
Proof. split; intros; [apply Z.compare_antisym|rewrite Z.compare_le_iff in *; lia]. Qed.
Lemma total_f64 {A} (f : A → f64) : total_cmp (λ a, f64_is_nan (f a) = false) (λ a b, default Eq (partial_cmp (f a) (f b))).
Proof.
  split.
  - intros a b Ha Hb. unfold partial_cmp, f64_geb. change SFleb with f64_leb.
    destruct (f64_leb (f a) (f b)) eqn:E, (f64_leb (f b) (f a)) eqn:E'; done.
  - assert (∀ a b, f64_is_nan (f a) = false → f64_is_nan (f b) = false →
      default Eq (partial_cmp (f a) (f b)) ≠ Gt → f64_leb (f a) (f b) = true) as Hle.
    { intros a b Ha Hb. unfold partial_cmp, f64_geb. change SFleb with f64_leb. destruct (f64_leb (f a) (f b)) eqn:E; [done|].
      by rewrite (f64_leb_total _ _ Ha Hb E). }
    intros a b c Ha Hb Hc H1%Hle H2%Hle; try done. unfold partial_cmp. rewrite (f64_leb_trans _ _ _ H1 H2). by destruct (f64_geb _ _).
Qed.
Lemma total_then {A} (P : A → Prop) (c1 c2 : A → A → comparison) :
  total_cmp P c1 → total_cmp P c2 → total_cmp P (λ a b, then_with (c1 a b) (c2 a b)).
Proof.
  intros [F1 T1] [F2 T2]. split.
  - intros a b Ha Hb. rewrite (F1 a b), (F2 a b) by done. destruct (c1 a b); done.
  - intros a b c Ha Hb Hc H1 H2. pose proof (T1 a b c Ha Hb Hc) as HT. pose proof (T1 b c a Hb Hc Ha) as HU.
    pose proof (T1 c a b Hc Ha Hb) as HV. pose proof (T2 a b c Ha Hb Hc) as HW.
    pose proof (F1 a b Ha Hb) as G1. pose proof (F1 b c Hb Hc) as G2. pose proof (F1 a c Ha Hc) as G3.
    rewrite G1, G3 in *. rewrite G2 in *. clear G1 G2 G3.
    destruct (c1 a b), (c1 b c), (c1 a c); cmp_facts.
Qed.
Lemma total_weaken {A} (P Q : A → Prop) cmp : total_cmp P cmp → (∀ a, Q a → P a) → total_cmp Q cmp.
Proof. intros [F T] HP. split; eauto. Qed.

(** The first least element. *)
Lemma foldl_min {A} (P : A → Prop) cmp x l : total_cmp P cmp → P x → (∀ y, y ∈ l → P y) →
  ∃ m pre post, foldl (λ best y, match cmp best y with Gt => y | _ => best end) x l = m ∧ x :: l = pre ++ m :: post ∧
    (∀ y, y ∈ pre → cmp m y = Lt) ∧ (∀ y, y ∈ post → cmp m y ≠ Gt).
Proof.
  intros HT. revert x. induction l as [|y l IH]; intros x Hx Hl; cbn [foldl].
  { exists x, [], []. split; [done|]. split; [done|]. split; intros z Hz; by apply elem_of_nil in Hz. }
  assert (P y) as Hy by (apply Hl; by left). assert (∀ z, z ∈ l → P z) as Hl' by (intros; apply Hl; by right).
  destruct (cmp x y) eqn:E.
  1, 2: destruct (IH x Hx Hl') as (m & pre & post & Hm & Hs & Hp & Hq); exists m; destruct pre as [|x' pre];
    cbn in Hs; injection Hs as -> ->.
  1, 3: exists [], (y :: post); (do 2 (split; [done|])); split; [intros z Hz; by apply elem_of_nil in Hz|];
    intros z [->|Hz]%elem_of_cons; [congruence|by apply Hq].
  1, 2: exists (x' :: y :: pre), post; (do 2 (split; [done|])); split; [|done]; intros z Hz;
    apply elem_of_cons in Hz as [->|Hz]; [apply Hp; by left|]; apply elem_of_cons in Hz as [->|Hz]; [|apply Hp; by right];
    assert (P m) as Hmp by (apply Hl'; apply elem_of_app; right; by left);
    pose proof (Hp x' ltac:(by left)) as Hmx; pose proof (cmp_trans _ _ HT m x' y Hmp Hx Hy) as Ht1;
    pose proof (cmp_trans _ _ HT x' y m Hx Hy Hmp) as Ht2; rewrite (cmp_flip _ _ HT m x') , (cmp_flip _ _ HT m y) in Ht2 by done;
    rewrite Hmx, E in *; destruct (cmp m y); cmp_facts.
  destruct (IH y Hy Hl') as (m & pre & post & Hm & Hs & Hp & Hq). exists m, (x :: pre), post. split; [done|]. split; [by rewrite Hs|].
  split; [|done]. intros z Hz. apply elem_of_cons in Hz as [->|Hz]; [|by apply Hp].
  assert (P m) as Hmp. { assert (m ∈ y :: l) as Hin by (rewrite Hs; apply elem_of_app; right; by left).
    apply elem_of_cons in Hin as [->|Hin]; auto. }
  assert (cmp m y ≠ Gt) as Hmy.
  { destruct pre as [|y' pre]; cbn in Hs; injection Hs as -> ->.
    - pose proof (cmp_flip _ _ HT m m Hy Hy). destruct (cmp m m); done.
    - by rewrite (Hp y' ltac:(by left)). }
  pose proof (cmp_flip _ _ HT x y Hx Hy) as Hf. rewrite E in Hf. pose proof (cmp_trans _ _ HT m y x Hmp Hy Hx) as Ht1.
  pose proof (cmp_trans _ _ HT x m y Hx Hmp Hy) as Ht2. rewrite (cmp_flip _ _ HT m x) in Ht2 by done. rewrite Hf in Ht1. rewrite E in Ht2.
  destruct (cmp m x); cmp_facts.
Qed.


Lemma string_compare_trans (a b c : string) : String.compare a b ≠ Gt → String.compare b c ≠ Gt → String.compare a c ≠ Gt.
Proof.
  revert b c. induction a as [|x a IH]; intros [|y b] [|z c]; cbn; try done.
  unfold Ascii.compare. destruct (N.compare_spec (N_of_ascii x) (N_of_ascii y)), (N.compare_spec (N_of_ascii y) (N_of_ascii z)),
    (N.compare_spec (N_of_ascii x) (N_of_ascii z)); try done; try lia. apply IH.
Qed.
Lemma total_string {A} (P : A → Prop) (f : A → string) : total_cmp P (λ a b, String.compare (f a) (f b)).
Proof. split; intros; [apply String.compare_antisym|by eapply string_compare_trans]. Qed.

(** Sorting by a comparison. *)
Definition sort_by {A} (cmp : A → A → comparison) (l : list A) : list A := merge_sort (λ a b, cmp a b ≠ Gt) l.
Lemma sort_by_perm {A} (cmp : A → A → comparison) l : sort_by cmp l ≡ₚ l.
Proof. apply merge_sort_Permutation. Qed.
Lemma sort_by_sorted {A} (cmp : A → A → comparison) l : total_cmp (λ _, True) cmp → StronglySorted (λ a b, cmp a b ≠ Gt) (sort_by cmp l).
Proof.
  intros HT. apply StronglySorted_merge_sort.
  - intros a b c. by apply (cmp_trans _ _ HT).
  - intros a b. pose proof (cmp_flip _ _ HT a b I I) as E. destruct (cmp a b); [by left|by left|right; by rewrite E].
Qed.
