(* ===== verification/Errors.v ===== *)
(** * Errors: the gateway's error type and its HTTP rendering

    Models [crates/gateway-core/src/errors.rs]: [GatewayError] with its
    [status_code], machine-readable [code], [public_message] and the JSON
    [body] sent to clients.  Every other component returns
    [GatewayResult]. *)

From S2P Require Import Prelude.

Inductive GatewayError : Type :=
| AuthenticationOverloaded
| SourceRateLimitExceeded
| AuthenticationProfileDenied
| AuthenticationProfileConflict
| MissingAuthorization
| MalformedAuthorization
| InvalidKeyPayload
| InvalidVirtualKey
| DisabledVirtualKey
| RevokedVirtualKey
| ExpiredVirtualKey
| MissingEntraAuthorization
| MalformedEntraAuthorization
| InvalidEntraToken
| ExpiredEntraToken
| InvalidEntraAudience
| InvalidEntraIssuer
| InsufficientEntraAuthorization
| UntrustedApigeeIdentity
| InvalidOperatorToken
| DisabledOperatorToken
| InsufficientOperatorScope
| InvalidPortalSession
| PendingPortalMember
| BlockedPortalMember
| InsufficientPortalAccess
| InvalidAccessPayload
| InvalidOidcTransaction
| OidcUnavailable
| InvalidCsrfToken
| UnsupportedRoute
| DisabledRoute
| RequestBodyTooLarge
| ResponseBodyTooLarge
| GatewayOverloaded
| UpstreamTimeout
| UpstreamConnection
| LiteLlmAuthenticationConflict
| PolicyDenied
| RateLimitExceeded (retry_after_seconds : option Z)
| TokenRateLimitExceeded (retry_after_seconds : option Z)
| BudgetExceeded
| GuardrailBlocked
| GuardrailForbidden
| GuardrailUnavailable
| InvalidGuardrailRequest
| DuplicateProject
| MissingProject
| ProjectInUse
| InvalidProjectPayload
| DuplicateProviderConfig
| MissingProviderConfig
| ProviderConfigInUse
| InvalidProviderConfigPayload
| InvalidFoundryConfiguration
| InvalidFoundryRequest
| FoundryCredentialUnavailable
| DuplicateService
| MissingService
| DisabledService
| IncompleteService
| InvalidServicePayload
| KeyProfileProjectConflict
| InvalidServiceUpstream
| ServiceOpenApiUnavailable
| InvalidServiceOpenApi
| ServiceOpenApiChanged
| InvalidUsageQuery
| MissingDebugBundle
| MissingUsageEvent
| StudioUnavailable
| InvalidStudioConnectionPayload
| ControlStateUnavailable
| StoreUnavailable
| InvalidConfiguration.

#[global] Instance GatewayError_eq_dec : EqDecision GatewayError.
Proof. solve_decision. Defined.

(** [StatusCode] as its number. *)
Definition status_code (e : GatewayError) : Z :=
  match e with
  | MissingAuthorization | MalformedAuthorization => 401
  | AuthenticationProfileDenied => 403
  | AuthenticationProfileConflict => 409
  | InvalidVirtualKey | DisabledVirtualKey | RevokedVirtualKey | ExpiredVirtualKey => 401
  | MissingEntraAuthorization | MalformedEntraAuthorization | InvalidEntraToken | ExpiredEntraToken | InvalidEntraAudience | InvalidEntraIssuer | UntrustedApigeeIdentity => 401
  | InsufficientEntraAuthorization => 403
  | InvalidOperatorToken | DisabledOperatorToken => 401
  | InsufficientOperatorScope => 403
  | InvalidPortalSession | InvalidOidcTransaction => 401
  | PendingPortalMember | BlockedPortalMember | InsufficientPortalAccess | InvalidCsrfToken => 403
  | InvalidAccessPayload => 400
  | OidcUnavailable => 502
  | UnsupportedRoute => 404
  | DisabledRoute => 403
  | RequestBodyTooLarge | ResponseBodyTooLarge => 413
  | GatewayOverloaded | AuthenticationOverloaded => 503
  | SourceRateLimitExceeded => 429
  | LiteLlmAuthenticationConflict => 503
  | PolicyDenied => 403
  | RateLimitExceeded _ | TokenRateLimitExceeded _ => 429
  | BudgetExceeded => 402
  | GuardrailBlocked | GuardrailForbidden => 403
  | GuardrailUnavailable => 502
  | InvalidGuardrailRequest | InvalidKeyPayload => 400
  | DuplicateProject | DuplicateProviderConfig | DuplicateService => 409
  | ProjectInUse | ProviderConfigInUse => 409
  | MissingProject | MissingProviderConfig => 404
  | FoundryCredentialUnavailable => 502
  | InvalidFoundryConfiguration | InvalidFoundryRequest => 400
  | InvalidProjectPayload | InvalidProviderConfigPayload => 400
  | MissingService | MissingDebugBundle | MissingUsageEvent => 404
  | DisabledService => 403
  | IncompleteService => 409
  | InvalidServicePayload | InvalidServiceUpstream | InvalidServiceOpenApi | InvalidUsageQuery | InvalidStudioConnectionPayload => 400
  | ServiceOpenApiChanged | KeyProfileProjectConflict => 409
  | StudioUnavailable => 502
  | ServiceOpenApiUnavailable => 502
  | UpstreamTimeout => 504
  | UpstreamConnection | StoreUnavailable => 502
  | ControlStateUnavailable => 503
  | InvalidConfiguration => 500
  end.

Definition code (e : GatewayError) : string :=
  match e with
  | AuthenticationOverloaded => "authentication_overloaded"
  | SourceRateLimitExceeded => "source_rate_limit_exceeded"
  | MissingAuthorization => "missing_authorization"
  | AuthenticationProfileDenied => "authentication_profile_denied"
  | AuthenticationProfileConflict => "authentication_profile_conflict"
  | MalformedAuthorization => "malformed_authorization"
  | InvalidKeyPayload => "invalid_key_payload"
  | InvalidVirtualKey => "invalid_virtual_key"
  | DisabledVirtualKey => "disabled_virtual_key"
  | RevokedVirtualKey => "revoked_virtual_key"
  | ExpiredVirtualKey => "expired_virtual_key"
  | MissingEntraAuthorization => "missing_entra_authorization"
  | MalformedEntraAuthorization => "malformed_entra_authorization"
  | InvalidEntraToken => "invalid_entra_token"
  | ExpiredEntraToken => "expired_entra_token"
  | InvalidEntraAudience => "invalid_entra_audience"
  | InvalidEntraIssuer => "invalid_entra_issuer"
  | InsufficientEntraAuthorization => "insufficient_entra_authorization"
  | UntrustedApigeeIdentity => "untrusted_apigee_identity"
  | InvalidOperatorToken => "invalid_operator_token"
  | DisabledOperatorToken => "disabled_operator_token"
  | InsufficientOperatorScope => "insufficient_operator_scope"
  | InvalidPortalSession => "invalid_portal_session"
  | PendingPortalMember => "pending_portal_member"
  | BlockedPortalMember => "blocked_portal_member"
  | InsufficientPortalAccess => "insufficient_portal_access"
  | InvalidAccessPayload => "invalid_access_payload"
  | InvalidOidcTransaction => "invalid_oidc_transaction"
  | OidcUnavailable => "oidc_unavailable"
  | InvalidCsrfToken => "invalid_csrf_token"
  | UnsupportedRoute => "unsupported_route"
  | DisabledRoute => "disabled_route"
  | RequestBodyTooLarge => "request_body_too_large"
  | ResponseBodyTooLarge => "response_body_too_large"
  | GatewayOverloaded => "gateway_overloaded"
  | UpstreamTimeout => "upstream_timeout"
  | UpstreamConnection => "upstream_connection"
  | LiteLlmAuthenticationConflict => "litellm_authentication_conflict"
  | PolicyDenied => "policy_denied"
  | RateLimitExceeded _ => "rate_limit_exceeded"
  | TokenRateLimitExceeded _ => "token_rate_limit_exceeded"
  | BudgetExceeded => "budget_exceeded"
  | GuardrailBlocked => "guardrail_blocked"
  | GuardrailForbidden => "guardrail_forbidden"
  | GuardrailUnavailable => "guardrail_unavailable"
  | InvalidGuardrailRequest => "invalid_guardrail_request"
  | DuplicateProject => "duplicate_project"
  | MissingProject => "missing_project"
  | ProjectInUse => "project_in_use"
  | InvalidProjectPayload => "invalid_project_payload"
  | DuplicateProviderConfig => "duplicate_provider_config"
  | ProviderConfigInUse => "provider_config_in_use"
  | MissingProviderConfig => "missing_provider_config"
  | InvalidFoundryConfiguration => "invalid_foundry_configuration"
  | InvalidFoundryRequest => "invalid_foundry_request"
  | FoundryCredentialUnavailable => "foundry_credential_unavailable"
  | InvalidProviderConfigPayload => "invalid_provider_config_payload"
  | DuplicateService => "duplicate_service"
  | MissingService => "missing_service"
  | DisabledService => "disabled_service"
  | IncompleteService => "incomplete_service"
  | KeyProfileProjectConflict => "key_profile_project_conflict"
  | InvalidServicePayload => "invalid_service_payload"
  | InvalidServiceUpstream => "invalid_service_upstream"
  | ServiceOpenApiUnavailable => "service_openapi_unavailable"
  | InvalidServiceOpenApi => "invalid_service_openapi"
  | ServiceOpenApiChanged => "service_openapi_changed"
  | InvalidUsageQuery => "invalid_usage_query"
  | MissingDebugBundle => "debug_bundle_not_found"
  | MissingUsageEvent => "request_not_found"
  | StudioUnavailable => "studio_unavailable"
  | InvalidStudioConnectionPayload => "invalid_studio_connection_payload"
  | ControlStateUnavailable => "control_state_unavailable"
  | StoreUnavailable => "store_unavailable"
  | InvalidConfiguration => "invalid_configuration"
  end.

Definition public_message (e : GatewayError) : string :=
  match e with
  | AuthenticationOverloaded => "Gateway authentication capacity is temporarily exhausted."
  | SourceRateLimitExceeded => "Source request rate limit exceeded."
  | MissingAuthorization => "Authorization header is required."
  | AuthenticationProfileDenied => "Authentication profile selection denied."
  | AuthenticationProfileConflict => "Authentication configuration changed. Reload before saving."
  | MalformedAuthorization => "Authorization header must be a Bearer Relayna key."
  | InvalidKeyPayload => "Key name must be at most 120 characters without control characters."
  | InvalidVirtualKey => "Virtual key is invalid."
  | DisabledVirtualKey => "Virtual key is disabled."
  | RevokedVirtualKey => "Virtual key is revoked."
  | ExpiredVirtualKey => "Virtual key has expired."
  | MissingEntraAuthorization => "Entra authorization is required."
  | MalformedEntraAuthorization => "Entra authorization must be a Bearer token."
  | InvalidEntraToken => "Entra token is invalid."
  | ExpiredEntraToken => "Entra token has expired."
  | InvalidEntraAudience => "Entra token audience is invalid."
  | InvalidEntraIssuer => "Entra token issuer is invalid."
  | InsufficientEntraAuthorization => "Entra token lacks the required gateway authorization."
  | UntrustedApigeeIdentity => "Apigee identity proof is untrusted."
  | InvalidOperatorToken => "Operator token is invalid."
  | DisabledOperatorToken => "Operator token is disabled."
  | InsufficientOperatorScope => "Operator token lacks the required scope."
  | InvalidPortalSession => "Portal session is invalid or expired."
  | PendingPortalMember => "Portal access is awaiting administrator approval."
  | BlockedPortalMember => "Portal access is blocked."
  | InsufficientPortalAccess => "Portal member lacks access to this resource."
  | InvalidAccessPayload => "Portal access payload is invalid."
  | InvalidOidcTransaction => "OIDC login transaction is invalid or expired."
  | OidcUnavailable => "OIDC provider is unavailable."
  | InvalidCsrfToken => "CSRF validation failed."
  | UnsupportedRoute => "Route is not supported by this gateway."
  | DisabledRoute => "Route is disabled by gateway policy."
  | RequestBodyTooLarge => "Request body exceeds the route limit."
  | ResponseBodyTooLarge => "Response body exceeds the policy limit."
  | GatewayOverloaded => "Gateway body processing capacity is temporarily exhausted."
  | LiteLlmAuthenticationConflict => "LiteLLM caller-key mode conflicts with mandatory Gateway authentication. Review route profiles and inherited identity settings."
  | PolicyDenied => "Request is denied by key policy."
  | RateLimitExceeded _ => "Rate limit exceeded."
  | TokenRateLimitExceeded _ => "Token rate limit exceeded."
  | BudgetExceeded => "Budget limit exceeded."
  | GuardrailBlocked => "Request was blocked by a gateway guardrail."
  | GuardrailForbidden => "Guardrail is not allowed by policy."
  | GuardrailUnavailable => "Gateway guardrail is unavailable."
  | InvalidGuardrailRequest => "Guardrail request is invalid."
  | DuplicateProject => "Project already exists."
  | MissingProject => "Project was not found."
  | ProjectInUse => "Project is still referenced."
  | InvalidProjectPayload => "Project payload is invalid."
  | DuplicateProviderConfig => "Provider configuration already exists."
  | ProviderConfigInUse => "This provider is used by registered Foundry services. Reassign or delete those services before deleting the provider."
  | MissingProviderConfig => "Provider configuration was not found."
  | InvalidFoundryConfiguration => "Check the Foundry project endpoint, Azure identity and provider connection. Registered agents need a valid agent name and optional version."
  | InvalidFoundryRequest => "Use POST responses with inline text input. Stored conversations, response IDs, background execution and registered-agent overrides are not supported."
  | FoundryCredentialUnavailable => "The gateway could not obtain an Azure token. Ask an administrator to check the Foundry identity credentials and Azure connectivity."
  | InvalidProviderConfigPayload => "Provider configuration payload is invalid."
  | DuplicateService => "Service registration already exists."
  | MissingService => "Service registration was not found."
  | DisabledService => "Service registration is disabled."
  | IncompleteService => "Service registration is incomplete."
  | KeyProfileProjectConflict => "This key is assigned to authentication profiles in its current project. Remove those service profile assignments before changing the key project, then assign it to profiles in the new project."
  | InvalidServicePayload => "Service registration payload is invalid."
  | InvalidServiceUpstream => "Service upstream configuration is invalid."
  | ServiceOpenApiUnavailable => "Service OpenAPI document is unavailable."
  | InvalidServiceOpenApi => "Service OpenAPI document is invalid."
  | ServiceOpenApiChanged => "Service OpenAPI document changed after preview; preview it again."
  | InvalidUsageQuery => "Usage query is invalid."
  | MissingDebugBundle => "No debug bundle was captured for this request. Try a proxy request that records debug traces."
  | MissingUsageEvent => "No request exists for the supplied request ID."
  | StudioUnavailable => "Relayna Studio catalog is unavailable."
  | InvalidStudioConnectionPayload => "Studio connection payload is invalid."
  | UpstreamTimeout => "Upstream provider timed out."
  | UpstreamConnection => "Upstream provider is unavailable."
  | ControlStateUnavailable => "Gateway control state is unavailable."
  | StoreUnavailable => "Gateway store is unavailable."
  | InvalidConfiguration => "Gateway configuration is invalid."
  end.

Abbreviation GatewayResult := (result GatewayError).

Record ErrorEnvelope := {
  env_code : string;
  env_message : string;
  env_request_id : string;
  env_retry_after_seconds : option Z
}.

Record ErrorBody := { error : ErrorEnvelope }.

Definition body (e : GatewayError) (request_id : string) : ErrorBody :=
  {| error :=
       {| env_code := code e;
          env_message := public_message e;
          env_request_id := request_id;
          env_retry_after_seconds :=
            match e with
            | RateLimitExceeded r | TokenRateLimitExceeded r => r
            | GatewayOverloaded | AuthenticationOverloaded | SourceRateLimitExceeded => Some 1
            | _ => None
            end |} |}.

(** The variant of an error, its retry payload forgotten. *)
Definition variant (e : GatewayError) : GatewayError :=
  match e with
  | RateLimitExceeded _ => RateLimitExceeded None
  | TokenRateLimitExceeded _ => TokenRateLimitExceeded None
  | e => e
  end.

(** Every variant, the retry payloads erased. *)
Definition all_errors : list GatewayError :=
  [AuthenticationOverloaded;
   SourceRateLimitExceeded;
   AuthenticationProfileDenied;
   AuthenticationProfileConflict;
   MissingAuthorization;
   MalformedAuthorization;
   InvalidKeyPayload;
   InvalidVirtualKey;
   DisabledVirtualKey;
   RevokedVirtualKey;
   ExpiredVirtualKey;
   MissingEntraAuthorization;
   MalformedEntraAuthorization;
   InvalidEntraToken;
   ExpiredEntraToken;
   InvalidEntraAudience;
   InvalidEntraIssuer;
   InsufficientEntraAuthorization;
   UntrustedApigeeIdentity;
   InvalidOperatorToken;
   DisabledOperatorToken;
   InsufficientOperatorScope;
   InvalidPortalSession;
   PendingPortalMember;
   BlockedPortalMember;
   InsufficientPortalAccess;
   InvalidAccessPayload;
   InvalidOidcTransaction;
   OidcUnavailable;
   InvalidCsrfToken;
   UnsupportedRoute;
   DisabledRoute;
   RequestBodyTooLarge;
   ResponseBodyTooLarge;
   GatewayOverloaded;
   UpstreamTimeout;
   UpstreamConnection;
   LiteLlmAuthenticationConflict;
   PolicyDenied;
   RateLimitExceeded None;
   TokenRateLimitExceeded None;
   BudgetExceeded;
   GuardrailBlocked;
   GuardrailForbidden;
   GuardrailUnavailable;
   InvalidGuardrailRequest;
   DuplicateProject;
   MissingProject;
   ProjectInUse;
   InvalidProjectPayload;
   DuplicateProviderConfig;
   MissingProviderConfig;
   ProviderConfigInUse;
   InvalidProviderConfigPayload;
   InvalidFoundryConfiguration;
   InvalidFoundryRequest;
   FoundryCredentialUnavailable;
   DuplicateService;
   MissingService;
   DisabledService;
   IncompleteService;
   InvalidServicePayload;
   KeyProfileProjectConflict;
   InvalidServiceUpstream;
   ServiceOpenApiUnavailable;
   InvalidServiceOpenApi;
   ServiceOpenApiChanged;
   InvalidUsageQuery;
   MissingDebugBundle;
   MissingUsageEvent;
   StudioUnavailable;
   InvalidStudioConnectionPayload;
   ControlStateUnavailable;
   StoreUnavailable;
   InvalidConfiguration].

Lemma variant_in_all e : variant e ∈ all_errors.
Proof.
  destruct e; refine (bool_decide_unpack _ _); vm_compute; exact I.
Qed.

Lemma code_variant e : code (variant e) = code e.
Proof. by destruct e. Qed.

Lemma all_codes_NoDup : NoDup (code <$> all_errors).
Proof. refine (bool_decide_unpack _ _). vm_compute. exact I. Qed.

Lemma NoDup_fmap_inj_in {A B} (f : A → B) (l : list A) x y :
  NoDup (f <$> l) → x ∈ l → y ∈ l → f x = f y → x = y.
Proof.
  induction l as [|a l IH]; [by intros _ ?%not_elem_of_nil|].
  rewrite fmap_cons, NoDup_cons. intros [Ha Hl] Hx Hy Hf.
  apply elem_of_cons in Hx as [->|Hx], Hy as [->|Hy]; [done| | |auto].
  - destruct Ha. rewrite Hf. by apply list_elem_of_fmap_2.
  - destruct Ha. rewrite <- Hf. by apply list_elem_of_fmap_2.
Qed.

(** clients can tell errors apart by their machine-readable code: two errors
    with the same [code] are the same variant (they differ at most in the
    retry hint carried by the two rate-limit variants). *)
Theorem code_identifies_variant e1 e2 : code e1 = code e2 → variant e1 = variant e2.
Proof.
  intros H. apply (NoDup_fmap_inj_in code all_errors);
    auto using all_codes_NoDup, variant_in_all.
  by rewrite !code_variant.
Qed.

Lemma code_identifies_variant_witness :
  code (RateLimitExceeded (Some 3)) = code (RateLimitExceeded None) ∧
  variant (RateLimitExceeded (Some 3)) = variant (RateLimitExceeded None).
Proof. split; [reflexivity|]. apply code_identifies_variant. reflexivity. Defined.

(** a retry hint is only ever sent with a "try again" status: when the error
    body carries [retry_after_seconds], the status is 429 or 503. *)
Theorem retry_hint_status e rid n :
  env_retry_after_seconds (error (body e rid)) = Some n →
  status_code e = 429 ∨ status_code e = 503.
Proof. destruct e; simpl; intros; try discriminate; auto. Qed.

Lemma retry_hint_status_witness :
  env_retry_after_seconds (error (body GatewayOverloaded "r")) = Some 1 ∧
  (status_code GatewayOverloaded = 429 ∨ status_code GatewayOverloaded = 503).
Proof. split; [reflexivity|]. apply (retry_hint_status _ "r" 1). reflexivity. Defined.
