(* ===== verification/Routing.v ===== *)
(** * Routing: which route a request path selects

    Models [crates/gateway-core/src/routing.rs]: the [Route], [Provider] and
    [BackendType] enums, [RouteMatch], [Route::resolve_match] and its
    [as_str] spelling.  An [http::Method] is its token string. *)

From S2P Require Import Prelude Errors.

Inductive Provider : Type := LiteLlm | OpenAiCompatible | InternalService.

Inductive Route : Type :=
| ChatCompletions
| Responses
| LiteLlmEmbeddings
| LiteLlmRerank
| AnthropicMessages
| AnthropicMessagesCountTokens
| AnthropicMessageBatches
| AnthropicMessageBatch
| AnthropicMessageBatchResults
| AnthropicMessageBatchCancel
| AnthropicModels
| DirectOpenAi
| LiteLlmPassthrough
| Summary
| Translation
| Ocr
| Embeddings
| ServiceWildcard.

Inductive BackendType : Type :=
| BackendLiteLlm
| BackendDirectProvider
| BackendInternalService.

#[global] Instance Provider_eq_dec : EqDecision Provider.
Proof. solve_decision. Defined.
#[global] Instance Route_eq_dec : EqDecision Route.
Proof. solve_decision. Defined.
#[global] Instance BackendType_eq_dec : EqDecision BackendType.
Proof. solve_decision. Defined.

Record RouteMatch := {
  rm_route : Route;
  rm_backend : BackendType;
  rm_provider : Provider;
  rm_service_name : option string;
  rm_timeout_ms : Z;
  rm_max_body_bytes : Z;
  rm_max_response_body_bytes : Z;
  rm_estimated_cost_usd : option f64
}.

Definition GET : string := "GET".
Definition POST : string := "POST".

(** The literal [0.01]. *)
Definition f64_0_01 : f64 := f64_div (f64_of_Z 1) (f64_of_Z 100).

Definition route_match_litellm (route : Route) : RouteMatch :=
  {| rm_route := route;
     rm_backend := BackendLiteLlm;
     rm_provider := LiteLlm;
     rm_service_name := None;
     rm_timeout_ms := 120000;
     rm_max_body_bytes := 1048576;
     rm_max_response_body_bytes := 1048576;
     rm_estimated_cost_usd := Some f64_0_01 |}.

Definition route_match_service (route : Route) (service_name : string) : RouteMatch :=
  {| rm_route := route;
     rm_backend := BackendInternalService;
     rm_provider := InternalService;
     rm_service_name := Some service_name;
     rm_timeout_ms := 60000;
     rm_max_body_bytes := 2097152;
     rm_max_response_body_bytes := usize_max;
     rm_estimated_cost_usd := Some f64_0_01 |}.

Definition route_match_openai : RouteMatch :=
  {| rm_route := DirectOpenAi;
     rm_backend := BackendDirectProvider;
     rm_provider := OpenAiCompatible;
     rm_service_name := None;
     rm_timeout_ms := 60000;
     rm_max_body_bytes := 1048576;
     rm_max_response_body_bytes := 1048576;
     rm_estimated_cost_usd := Some f64_0_01 |}.

Definition path_in (path : string) (l : list string) : bool :=
  existsb (String.eqb path) l.

(** The match arms of the source, in order; an arm is taken when its pattern
    and its guard hold. *)
Definition resolve_match (method path : string) : GatewayResult RouteMatch :=
  let is_post := String.eqb method POST in
  let is_get := String.eqb method GET in
  if path_in path ["/chat/completions"; "/v1/chat/completions"] && is_post then
    Ok (route_match_litellm ChatCompletions)
  else if path_in path ["/responses"; "/v1/responses"] && is_post then
    Ok (route_match_litellm Responses)
  else if path_in path ["/embeddings"; "/v1/embeddings"] && is_post then
    Ok (route_match_litellm LiteLlmEmbeddings)
  else if path_in path ["/rerank"; "/v1/rerank"; "/v2/rerank"] && is_post then
    Ok (route_match_litellm LiteLlmRerank)
  else if path_in path ["/v1/messages"] && is_post then
    Ok (route_match_litellm AnthropicMessages)
  else if path_in path ["/v1/messages/count_tokens"] && is_post then
    Ok (route_match_litellm AnthropicMessagesCountTokens)
  else if path_in path ["/v1/messages/batches"] && (is_post || is_get) then
    Ok (route_match_litellm AnthropicMessageBatches)
  else if is_get && starts_with path "/v1/messages/batches/" && ends_with path "/results" then
    Ok (route_match_litellm AnthropicMessageBatchResults)
  else if is_get && starts_with path "/v1/messages/batches/" then
    Ok (route_match_litellm AnthropicMessageBatch)
  else if is_post && starts_with path "/v1/messages/batches/" && ends_with path "/cancel" then
    Ok (route_match_litellm AnthropicMessageBatchCancel)
  else if path_in path ["/v1/models"] && is_get then
    Ok (route_match_litellm AnthropicModels)
  else if path_in path ["/summary"] && is_post then
    Ok (route_match_service Summary "summary")
  else if path_in path ["/translation"] && is_post then
    Ok (route_match_service Translation "translation")
  else if path_in path ["/ocr"] && is_post then
    Ok (route_match_service Ocr "ocr")
  else if starts_with path "/services/" then
    let service_name := before "/"%char (trim_start_matches "/services/" path) in
    if is_empty service_name then Err UnsupportedRoute
    else Ok (route_match_service ServiceWildcard service_name)
  else if is_post && starts_with path "/providers/openai/" then
    Ok route_match_openai
  else Err UnsupportedRoute.

Definition resolve (method path : string) : GatewayResult Route :=
  let? matched := resolve_match method path in Ok (rm_route matched).

Definition route_as_str (r : Route) : string :=
  match r with
  | ChatCompletions => "/v1/chat/completions"
  | Responses => "/v1/responses"
  | LiteLlmEmbeddings => "/v1/embeddings"
  | LiteLlmRerank => "/v1/rerank"
  | AnthropicMessages => "/v1/messages"
  | AnthropicMessagesCountTokens => "/v1/messages/count_tokens"
  | AnthropicMessageBatches => "/v1/messages/batches"
  | AnthropicMessageBatch => "/v1/messages/batches/*"
  | AnthropicMessageBatchResults => "/v1/messages/batches/*/results"
  | AnthropicMessageBatchCancel => "/v1/messages/batches/*/cancel"
  | AnthropicModels => "/v1/models"
  | DirectOpenAi => "/providers/openai/*"
  | LiteLlmPassthrough => "/litellm/*"
  | Summary => "/summary"
  | Translation => "/translation"
  | Ocr => "/ocr"
  | Embeddings => "/embeddings"
  | ServiceWildcard => "/services/*"
  end.

Definition provider_as_str (p : Provider) : string :=
  match p with
  | LiteLlm => "litellm"
  | OpenAiCompatible => "openai-compatible"
  | InternalService => "internal-service"
  end.

Definition is_retry_safe_status (status : Z) : bool :=
  existsb (Z.eqb status) [429; 500; 502; 503; 504].

(** The method under which a route is reachable by its own spelling. *)
Definition route_method (r : Route) : string :=
  match r with
  | AnthropicMessageBatch | AnthropicMessageBatchResults | AnthropicModels => GET
  | _ => POST
  end.

(** ** Properties *)

(** One case per arm of [resolve_match]. *)
Ltac route_arms H :=
  unfold resolve_match in H;
  repeat match type of H with
  | (if ?b then _ else _) = _ => destruct b eqn:?
  end; try discriminate H; injection H as <-.

(** every route with a canonical spelling is reached by that spelling and by
    no other route: resolving [as_str] gives the route back.  The two
    exceptions are routes no path selects: the legacy [Embeddings] and the
    wildcard [LiteLlmPassthrough]. *)
Theorem resolve_as_str r :
  resolve (route_method r) (route_as_str r) =
  match r with
  | LiteLlmPassthrough => Err UnsupportedRoute
  | Embeddings => Ok LiteLlmEmbeddings
  | r => Ok r
  end.
Proof. destruct r; reflexivity. Qed.

(** the gateway only acts on GET and POST outside registered services: a
    request that resolves to anything but a service wildcard used one of the
    two methods, and [GET] only reaches the read-only Anthropic routes. *)
Theorem resolve_match_method method path rm :
  resolve_match method path = Ok rm →
  rm_route rm = ServiceWildcard ∨ method = POST ∨
  (method = GET ∧
   rm_route rm ∈ [AnthropicMessageBatches; AnthropicMessageBatchResults;
                  AnthropicMessageBatch; AnthropicModels]).
Proof.
  intros H. route_arms H; simpl; bool_prop; auto;
    repeat match goal with
    | H : _ || _ = true |- _ => apply orb_true_iff in H as [?|?]; bool_prop; auto
    end; right; right; (split; [done|]); set_solver.
Qed.

Lemma resolve_match_method_witness :
  resolve_match GET "/v1/models" = Ok (route_match_litellm AnthropicModels) ∧
  (AnthropicModels = ServiceWildcard ∨ GET = POST ∨
   (GET = GET ∧ AnthropicModels ∈ [AnthropicMessageBatches; AnthropicMessageBatchResults;
                  AnthropicMessageBatch; AnthropicModels])).
Proof.
  split; [reflexivity|].
  apply (resolve_match_method GET "/v1/models" (route_match_litellm AnthropicModels)).
  reflexivity.
Defined.

(** a service wildcard always names a service: the name is a single
    non-empty path segment, and internal services are exactly the matches
    that carry one. *)
Theorem resolve_match_service_name method path rm :
  resolve_match method path = Ok rm →
  match rm_service_name rm with
  | Some name =>
      rm_backend rm = BackendInternalService ∧ rm_provider rm = InternalService ∧
      name ≠ "" ∧ contains_byte "/"%char name = false
  | None => rm_backend rm ≠ BackendInternalService
  end.
Proof.
  intros H. route_arms H; simpl; try done.
  split; [done|]. split; [done|]. split; [|apply before_no_sep].
  by destruct (before _ _).
Qed.

Lemma resolve_match_service_name_witness :
  resolve_match "PUT" "/services/billing/x" = Ok (route_match_service ServiceWildcard "billing") ∧
  (BackendInternalService = BackendInternalService ∧ InternalService = InternalService ∧
   "billing" ≠ "" ∧ contains_byte "/"%char "billing" = false).
Proof.
  split; [reflexivity|].
  apply (resolve_match_service_name "PUT" "/services/billing/x"
           (route_match_service ServiceWildcard "billing")).
  reflexivity.
Defined.
