(* ===== verification/RouteSettings.v ===== *)
(** * Route settings: per-route switches and the LiteLLM passthrough allowlist

    Models [crates/gateway-core/src/route_settings.rs]: the stable route
    identifiers, the admin patch requests with their validation, and the
    passthrough decision procedures [denies_path], [allows],
    [trusted_ingress_ui_path_allowed] and
    [trusted_ingress_passthrough_path_allowed].  The [http] crate's method
    parser is a parameter of the validation. *)

From S2P Require Import Prelude Errors Routing.

Definition CHAT_COMPLETIONS_ROUTE_ID : string := "chat-completions".
Definition EMBEDDINGS_ROUTE_ID : string := "embeddings".
Definition RERANK_ROUTE_ID : string := "rerank".
Definition RESPONSES_ROUTE_ID : string := "responses".
Definition ANTHROPIC_MESSAGES_ROUTE_ID : string := "messages".
Definition ANTHROPIC_MESSAGES_COUNT_TOKENS_ROUTE_ID : string := "messages-count-tokens".
Definition ANTHROPIC_MESSAGE_BATCHES_ROUTE_ID : string := "message-batches".
Definition ANTHROPIC_MESSAGE_BATCH_ROUTE_ID : string := "message-batch".
Definition ANTHROPIC_MESSAGE_BATCH_RESULTS_ROUTE_ID : string := "message-batch-results".
Definition ANTHROPIC_MESSAGE_BATCH_CANCEL_ROUTE_ID : string := "message-batch-cancel".
Definition ANTHROPIC_MODELS_ROUTE_ID : string := "models".
Definition DEFAULT_LITELLM_ROUTE_TIMEOUT_MS : Z := 120000.
Definition DEFAULT_LITELLM_ROUTE_REQUEST_BODY_BYTES : Z := 1048576.
Definition DEFAULT_LITELLM_ROUTE_RESPONSE_BODY_BYTES : Z := 1048576.
Definition MAX_LITELLM_ROUTE_TIMEOUT_MS : Z := 600000.
Definition MAX_LITELLM_ROUTE_BODY_BYTES : Z := 104857600.

Inductive OpenAiRouteMode : Type := ManagedByGateway | DirectLiteLlmPassthrough.
Inductive LiteLlmSensitiveRouteExposure : Type :=
| Disabled | OperatorOnly | ExplicitlyExposed | TrustedIngress.
Inductive LiteLlmAuthenticationMode : Type := Gateway | LitellmBearer.

#[global] Instance OpenAiRouteMode_eq_dec : EqDecision OpenAiRouteMode.
Proof. solve_decision. Defined.
#[global] Instance Exposure_eq_dec : EqDecision LiteLlmSensitiveRouteExposure.
Proof. solve_decision. Defined.

Definition authentication_mode_as_str (m : LiteLlmAuthenticationMode) : string :=
  match m with Gateway => "gateway" | LitellmBearer => "litellm_bearer" end.

Record LiteLlmRouteLimits := {
  limits_timeout_ms : Z;
  limits_max_request_body_bytes : Z;
  limits_max_response_body_bytes : Z
}.

Definition LiteLlmRouteLimits_default : LiteLlmRouteLimits :=
  {| limits_timeout_ms := DEFAULT_LITELLM_ROUTE_TIMEOUT_MS;
     limits_max_request_body_bytes := DEFAULT_LITELLM_ROUTE_REQUEST_BODY_BYTES;
     limits_max_response_body_bytes := DEFAULT_LITELLM_ROUTE_RESPONSE_BODY_BYTES |}.

Record OpenAiRouteConfigPatchRequest := {
  rc_mode : option OpenAiRouteMode;
  rc_timeout_ms : option Z;
  rc_max_request_body_bytes : option Z;
  rc_max_response_body_bytes : option Z
}.

Record LiteLlmPassthroughSettingsPatchRequest := {
  pp_authentication_mode : option LiteLlmAuthenticationMode;
  pp_blocked_paths : option (list string);
  pp_enabled : option bool;
  pp_allowed_paths : option (list string);
  pp_allowed_methods : option (list string);
  pp_ui_exposure : option LiteLlmSensitiveRouteExposure;
  pp_admin_api_exposure : option LiteLlmSensitiveRouteExposure;
  pp_timeout_ms : option Z;
  pp_max_request_body_bytes : option Z;
  pp_max_response_body_bytes : option Z
}.

Record LiteLlmPassthroughSettings := {
  ps_authentication_mode : LiteLlmAuthenticationMode;
  ps_blocked_paths : list string;
  ps_enabled : bool;
  ps_allowed_paths : list string;
  ps_allowed_methods : list string;
  ps_ui_exposure : LiteLlmSensitiveRouteExposure;
  ps_admin_api_exposure : LiteLlmSensitiveRouteExposure;
  ps_timeout_ms : Z;
  ps_max_request_body_bytes : Z;
  ps_max_response_body_bytes : Z;
  ps_updated_at : Z
}.

(** ** Route identifiers *)

Definition openai_route_id (route : Route) : option string :=
  match route with
  | ChatCompletions => Some CHAT_COMPLETIONS_ROUTE_ID
  | Responses => Some RESPONSES_ROUTE_ID
  | LiteLlmEmbeddings => Some EMBEDDINGS_ROUTE_ID
  | LiteLlmRerank => Some RERANK_ROUTE_ID
  | _ => None
  end.

Definition openai_route_from_id (id : string) : option Route :=
  if String.eqb id CHAT_COMPLETIONS_ROUTE_ID then Some ChatCompletions
  else if String.eqb id RESPONSES_ROUTE_ID then Some Responses
  else if String.eqb id EMBEDDINGS_ROUTE_ID then Some LiteLlmEmbeddings
  else if String.eqb id RERANK_ROUTE_ID then Some LiteLlmRerank
  else None.

Definition anthropic_route_id (route : Route) : option string :=
  match route with
  | AnthropicMessages => Some ANTHROPIC_MESSAGES_ROUTE_ID
  | AnthropicMessagesCountTokens => Some ANTHROPIC_MESSAGES_COUNT_TOKENS_ROUTE_ID
  | AnthropicMessageBatches => Some ANTHROPIC_MESSAGE_BATCHES_ROUTE_ID
  | AnthropicMessageBatch => Some ANTHROPIC_MESSAGE_BATCH_ROUTE_ID
  | AnthropicMessageBatchResults => Some ANTHROPIC_MESSAGE_BATCH_RESULTS_ROUTE_ID
  | AnthropicMessageBatchCancel => Some ANTHROPIC_MESSAGE_BATCH_CANCEL_ROUTE_ID
  | AnthropicModels => Some ANTHROPIC_MODELS_ROUTE_ID
  | _ => None
  end.

Definition anthropic_route_from_id (id : string) : option Route :=
  if String.eqb id ANTHROPIC_MESSAGES_ROUTE_ID then Some AnthropicMessages
  else if String.eqb id ANTHROPIC_MESSAGES_COUNT_TOKENS_ROUTE_ID then
    Some AnthropicMessagesCountTokens
  else if String.eqb id ANTHROPIC_MESSAGE_BATCHES_ROUTE_ID then Some AnthropicMessageBatches
  else if String.eqb id ANTHROPIC_MESSAGE_BATCH_ROUTE_ID then Some AnthropicMessageBatch
  else if String.eqb id ANTHROPIC_MESSAGE_BATCH_RESULTS_ROUTE_ID then
    Some AnthropicMessageBatchResults
  else if String.eqb id ANTHROPIC_MESSAGE_BATCH_CANCEL_ROUTE_ID then
    Some AnthropicMessageBatchCancel
  else if String.eqb id ANTHROPIC_MODELS_ROUTE_ID then Some AnthropicModels
  else None.

Definition is_openai_route (route : Route) : bool := is_some (openai_route_id route).
Definition is_anthropic_route (route : Route) : bool := is_some (anthropic_route_id route).
Definition is_litellm_canonical_route (route : Route) : bool :=
  is_openai_route route || is_anthropic_route route.

Definition openai_route_mode_str (m : OpenAiRouteMode) : string :=
  match m with
  | ManagedByGateway => "managed_by_gateway"
  | DirectLiteLlmPassthrough => "direct_litellm_passthrough"
  end.
Definition parse_openai_route_mode (value : string) : GatewayResult OpenAiRouteMode :=
  if String.eqb value "managed_by_gateway" then Ok ManagedByGateway
  else if String.eqb value "direct_litellm_passthrough" then Ok DirectLiteLlmPassthrough
  else Err InvalidProviderConfigPayload.

Definition litellm_exposure_str (e : LiteLlmSensitiveRouteExposure) : string :=
  match e with
  | Disabled => "disabled"
  | OperatorOnly => "operator_only"
  | ExplicitlyExposed => "explicitly_exposed"
  | TrustedIngress => "trusted_ingress"
  end.
Definition parse_litellm_exposure (value : string) :
    GatewayResult LiteLlmSensitiveRouteExposure :=
  if String.eqb value "disabled" then Ok Disabled
  else if String.eqb value "operator_only" then Ok OperatorOnly
  else if String.eqb value "explicitly_exposed" then Ok ExplicitlyExposed
  else if String.eqb value "trusted_ingress" then Ok TrustedIngress
  else Err InvalidProviderConfigPayload.

(** ** Paths *)

Definition unambiguous_litellm_path (path : string) : bool :=
  starts_with path "/"
  && negb (contains_byte "%"%char path || contains_byte "\"%char path
           || contains_byte ";"%char path)
  && negb (contains_str path "//")
  && negb (contains_whitespace path)
  && negb (existsb (λ seg, String.eqb seg "." || String.eqb seg "..")
             (split_on "/"%char path)).

Definition path_matches_allowed_pattern (path pattern : string) : bool :=
  let pattern := trim pattern in
  match strip_suffix "*" pattern with
  | Some prefix => starts_with path prefix
  | None => String.eqb path pattern
  end.

Definition is_litellm_ui_path (path : string) : bool :=
  String.eqb path "/ui" || starts_with path "/ui/".

Definition UI_SUPPORT_EXACT : list string :=
  ["/"; "/get_image"; "/in_product_nudges"; "/litellm/.well-known/litellm-ui-config";
   "/login"; "/logout"; "/models"; "/user/info"; "/v1/models"; "/v2/login"].

Definition UI_SUPPORT_PREFIXES : list string :=
  ["/get/"; "/health/"; "/litellm-asset-prefix/"; "/model/"; "/model_group/"; "/public/";
   "/schedule/"; "/v1/model/"].

Definition is_litellm_ui_support_path (path : string) : bool :=
  existsb (String.eqb path) UI_SUPPORT_EXACT
  || existsb (starts_with path) UI_SUPPORT_PREFIXES.

Definition ADMIN_PREFIXES : list string :=
  ["/api/"; "/audit"; "/audit/"; "/key/"; "/keys/"; "/user/"; "/team/"; "/config/";
   "/config_overrides/"; "/credentials"; "/credentials/"; "/files"; "/files/";
   "/guardrails/"; "/health"; "/health/"; "/spend/"; "/global/"; "/budget/";
   "/customer/"; "/alerting/"; "/cache/"; "/callbacks/"; "/cloudzero/"; "/email/";
   "/mcp"; "/mcp/"; "/mcp-rest/"; "/model_hub/"; "/model_hub_table"; "/model_hub_table/";
   "/organization/"; "/policies/"; "/project/"; "/prompts/"; "/provider/"; "/reload/";
   "/router/"; "/search_tools/"; "/sso/"; "/tag/"; "/utils/"; "/v2/"; "/v1/agents";
   "/v1/agents/"; "/v1/mcp/"; "/v1/memory"; "/v1/memory/"; "/v1/tool/"; "/v1/workflows/";
   "/v2/guardrails/"; "/v2/key/"; "/v2/model/"; "/v2/team/"; "/v2/user/"; "/v3/"].

Definition is_litellm_admin_path (path : string) : bool :=
  existsb (λ prefix, String.eqb path (trim_end_matches "/"%char prefix)
                     || starts_with path prefix) ADMIN_PREFIXES.

(** ** Passthrough decisions *)

Definition default_with_updated_at (updated_at : Z) : LiteLlmPassthroughSettings :=
  {| ps_authentication_mode := Gateway;
     ps_blocked_paths := [];
     ps_enabled := false;
     ps_allowed_paths := ["/v1/*"];
     ps_allowed_methods := ["GET"; "POST"];
     ps_ui_exposure := Disabled;
     ps_admin_api_exposure := Disabled;
     ps_timeout_ms := DEFAULT_LITELLM_ROUTE_TIMEOUT_MS;
     ps_max_request_body_bytes := DEFAULT_LITELLM_ROUTE_REQUEST_BODY_BYTES;
     ps_max_response_body_bytes := DEFAULT_LITELLM_ROUTE_RESPONSE_BODY_BYTES;
     ps_updated_at := updated_at |}.

Definition denies_path (s : LiteLlmPassthroughSettings) (path : string) : bool :=
  let path := before "?"%char path in
  negb (unambiguous_litellm_path path)
  || existsb (λ pattern,
       path_matches_allowed_pattern path pattern
       || path_matches_allowed_pattern (trim_end_matches "/"%char path)
            (trim_end_matches "/"%char (trim pattern)))
       (ps_blocked_paths s).

Definition sensitive_exposure_for_path (s : LiteLlmPassthroughSettings) (path : string) :
    option LiteLlmSensitiveRouteExposure :=
  if is_litellm_ui_path path then Some (ps_ui_exposure s)
  else if is_litellm_admin_path path then Some (ps_admin_api_exposure s)
  else None.

Definition method_allowed (s : LiteLlmPassthroughSettings) (method : string) : bool :=
  existsb (λ allowed, eq_ignore_ascii_case allowed method) (ps_allowed_methods s).
Definition path_allowed (s : LiteLlmPassthroughSettings) (path : string) : bool :=
  existsb (path_matches_allowed_pattern path) (ps_allowed_paths s).

Definition allows (s : LiteLlmPassthroughSettings) (method path : string) : bool :=
  let path := before "?"%char path in
  if negb (ps_enabled s) || denies_path s path then false
  else if negb (method_allowed s method) then false
  else if bool_decide (sensitive_exposure_for_path s path = Some Disabled) then false
  else path_allowed s path.

Definition trusted_ingress_ui_path_allowed (s : LiteLlmPassthroughSettings)
    (method path : string) : bool :=
  let path := before "?"%char path in
  if denies_path s path then false
  else if negb (bool_decide (ps_ui_exposure s = TrustedIngress)) || negb (ps_enabled s)
  then false
  else if negb (method_allowed s method) then false
  else if negb (is_litellm_ui_path path || is_litellm_ui_support_path path) then false
  else path_allowed s path.

Definition trusted_ingress_passthrough_path_allowed (s : LiteLlmPassthroughSettings)
    (method path : string) : bool :=
  let path := before "?"%char path in
  if denies_path s path then false
  else if trusted_ingress_ui_path_allowed s method path then true
  else if negb (bool_decide (ps_ui_exposure s = TrustedIngress))
          || negb (bool_decide (ps_admin_api_exposure s = ExplicitlyExposed))
          || negb (ps_enabled s)
  then false
  else if negb (method_allowed s method) then false
  else if negb (is_litellm_admin_path path) then false
  else path_allowed s path.

(** ** Validation of admin patches *)

Definition validate_allowed_paths (paths : list string) : GatewayResult unit :=
  if is_nil paths || (64 <? Z.of_nat (length paths)) then Err InvalidProviderConfigPayload
  else try_for_each (λ path,
    let path := trim path in
    if negb (unambiguous_litellm_path path)
       || contains_byte "?"%char path
       || contains_byte "#"%char path
       || contains_byte "*"%char (default path (strip_suffix "*" path))
    then Err InvalidProviderConfigPayload
    else Ok tt) paths.

Definition validate_optional_runtime_limit (timeout_ms max_body_bytes : option Z) :
    GatewayResult unit :=
  if is_some_and (λ t, negb (in_range 1 MAX_LITELLM_ROUTE_TIMEOUT_MS t)) timeout_ms
  then Err InvalidProviderConfigPayload
  else if is_some_and (λ b, negb (in_range 1 MAX_LITELLM_ROUTE_BODY_BYTES b)) max_body_bytes
  then Err InvalidProviderConfigPayload
  else Ok tt.

Definition route_config_patch_validate (p : OpenAiRouteConfigPatchRequest) :
    GatewayResult unit :=
  check? validate_optional_runtime_limit (rc_timeout_ms p) (rc_max_request_body_bytes p) in
  check? validate_optional_runtime_limit (rc_timeout_ms p) (rc_max_response_body_bytes p) in
  Ok tt.

Section validation.
(** [str::parse::<http::Method>] succeeds. *)
Variable method_parses : string → bool.

Definition validate_allowed_methods (methods : list string) : GatewayResult unit :=
  if is_nil methods || (16 <? Z.of_nat (length methods)) then Err InvalidProviderConfigPayload
  else try_for_each (λ m,
    if negb (method_parses (trim m)) then Err InvalidProviderConfigPayload else Ok tt) methods.

Definition passthrough_patch_validate (p : LiteLlmPassthroughSettingsPatchRequest) :
    GatewayResult unit :=
  check? match pp_allowed_paths p with
         | Some paths => validate_allowed_paths paths
         | None => Ok tt
         end in
  check? match pp_blocked_paths p with
         | Some paths => if negb (is_nil paths) then validate_allowed_paths paths else Ok tt
         | None => Ok tt
         end in
  check? match pp_allowed_methods p with
         | Some methods => validate_allowed_methods methods
         | None => Ok tt
         end in
  if bool_decide (pp_admin_api_exposure p = Some TrustedIngress)
  then Err InvalidProviderConfigPayload
  else
    check? validate_optional_runtime_limit (pp_timeout_ms p) (pp_max_request_body_bytes p) in
    check? validate_optional_runtime_limit (pp_timeout_ms p) (pp_max_response_body_bytes p) in
    Ok tt.
End validation.

(** ** Properties *)

(** route identifiers round-trip: an identifier names a route exactly when
    that route prints as the identifier, for both route families. *)
Theorem route_ids_roundtrip id r :
  (openai_route_from_id id = Some r ↔ openai_route_id r = Some id) ∧
  (anthropic_route_from_id id = Some r ↔ anthropic_route_id r = Some id).
Proof.
  unfold openai_route_from_id, anthropic_route_from_id.
  split; split; intros H;
    try (repeat case_match; bool_prop; simplify_eq; reflexivity);
    destruct r; simpl in H; simplify_eq; reflexivity.
Qed.

(** the routes an operator can switch and limit through the route settings
    are exactly the routes forwarded to LiteLLM: a resolved request has the
    LiteLLM backend iff its route has a route identifier. *)
Theorem litellm_backend_iff_canonical method path rm :
  resolve_match method path = Ok rm →
  rm_backend rm = BackendLiteLlm ↔ is_litellm_canonical_route (rm_route rm) = true.
Proof. intros H. route_arms H; done. Qed.

Lemma litellm_backend_iff_canonical_witness :
  resolve_match POST "/v2/rerank" = Ok (route_match_litellm LiteLlmRerank) ∧
  (BackendLiteLlm = BackendLiteLlm ↔ is_litellm_canonical_route LiteLlmRerank = true).
Proof.
  split; [reflexivity|].
  apply (litellm_backend_iff_canonical POST "/v2/rerank" (route_match_litellm LiteLlmRerank)).
  reflexivity.
Defined.

(** What a path must satisfy before any pattern is consulted. *)
Definition path_is_plain (path : string) : Prop :=
  (∃ rest, path = "/" +:+ rest) ∧
  contains_byte "%"%char path = false ∧ contains_byte "\"%char path = false ∧
  contains_byte ";"%char path = false ∧ contains_str path "//" = false ∧
  contains_whitespace path = false ∧
  ∀ seg, seg ∈ split_on "/"%char path → seg ≠ "." ∧ seg ≠ "..".

Lemma unambiguous_plain path : unambiguous_litellm_path path = true ↔ path_is_plain path.
Proof.
  unfold unambiguous_litellm_path, path_is_plain.
  rewrite !andb_true_iff, !negb_true_iff, !orb_false_iff, starts_with_iff, existsb_false_iff.
  setoid_rewrite orb_false_iff. setoid_rewrite String.eqb_neq. naive_solver.
Qed.

Lemma denies_path_false s path :
  denies_path s path = false →
  path_is_plain (before "?"%char path) ∧
  ∀ b, b ∈ ps_blocked_paths s →
    path_matches_allowed_pattern (before "?"%char path) b = false.
Proof.
  unfold denies_path. intros [Hp Hb]%orb_false_iff. bool_prop.
  split; [by apply unambiguous_plain|]. intros b Hin.
  apply (proj1 (existsb_false_iff _ _) Hb) in Hin. by bool_prop.
Qed.

(** the wildcard passthrough only forwards what its settings allow: the
    switch is on, the method is listed, the path (query removed) is free of
    traversal and encoding tricks, matches an allowed pattern and no blocked
    one, and its sensitive area, if any, is not disabled. *)
Theorem allows_sound s method path :
  allows s method path = true →
  let p := before "?"%char path in
  ps_enabled s = true ∧ path_is_plain p ∧
  (∃ m, m ∈ ps_allowed_methods s ∧ eq_ignore_ascii_case m method = true) ∧
  (∃ a, a ∈ ps_allowed_paths s ∧ path_matches_allowed_pattern p a = true) ∧
  (∀ b, b ∈ ps_blocked_paths s → path_matches_allowed_pattern p b = false) ∧
  (is_litellm_ui_path p = true → ps_ui_exposure s ≠ Disabled) ∧
  (is_litellm_admin_path p = true → is_litellm_ui_path p = false →
   ps_admin_api_exposure s ≠ Disabled).
Proof.
  unfold allows. intros H. destruct (_ || denies_path _ _) eqn:Hd; [done|].
  apply orb_false_iff in Hd as [Hen Hd].
  destruct (method_allowed s method) eqn:Hm; [|done]. simpl in H.
  destruct (bool_decide _) eqn:Hex; [done|]. bool_prop.
  apply denies_path_false in Hd as [Hplain Hblock]. rewrite before_idem in Hplain, Hblock.
  apply existsb_true_iff in Hm, H. unfold sensitive_exposure_for_path in Hex.
  split_and!; try done.
  - intros Hu Hdis. by rewrite Hu, Hdis in Hex.
  - intros Ha Hu Hdis. by rewrite Hu, Ha, Hdis in Hex.
Qed.

Definition example_settings : LiteLlmPassthroughSettings :=
  {| ps_authentication_mode := Gateway; ps_blocked_paths := ["/v1/files*"];
     ps_enabled := true; ps_allowed_paths := ["/v1/*"; "/ui/*"];
     ps_allowed_methods := ["GET"]; ps_ui_exposure := TrustedIngress;
     ps_admin_api_exposure := Disabled; ps_timeout_ms := 1000;
     ps_max_request_body_bytes := 10; ps_max_response_body_bytes := 10;
     ps_updated_at := 0 |}.

Lemma allows_sound_witness :
  allows example_settings "get" "/v1/models?x=../y" = true ∧
  ps_enabled example_settings = true.
Proof.
  split; [vm_compute; reflexivity|].
  refine (proj1 (allows_sound example_settings "get" "/v1/models?x=../y" _)).
  vm_compute; reflexivity.
Defined.

(** unauthenticated trusted-ingress access is confined to the LiteLLM UI, its
    support paths and, when the admin API is explicitly exposed, the admin
    paths; it needs the trusted-ingress exposure, never bypasses a denied
    path. *)
Theorem trusted_ingress_confined s method path :
  trusted_ingress_passthrough_path_allowed s method path = true →
  let p := before "?"%char path in
  ps_ui_exposure s = TrustedIngress ∧ ps_enabled s = true ∧
  path_is_plain p ∧ path_allowed s p = true ∧
  (∀ b, b ∈ ps_blocked_paths s → path_matches_allowed_pattern p b = false) ∧
  (is_litellm_ui_path p = true ∨ is_litellm_ui_support_path p = true ∨
   (is_litellm_admin_path p = true ∧ ps_admin_api_exposure s = ExplicitlyExposed)).
Proof.
  unfold trusted_ingress_passthrough_path_allowed, trusted_ingress_ui_path_allowed.
  rewrite !before_idem. intros H.
  destruct (denies_path s (before "?"%char path)) eqn:Hd; [done|].
  apply denies_path_false in Hd as [Hplain Hblock]. rewrite before_idem in Hplain, Hblock.
  result_cases; bool_prop;
    try match goal with H : _ || _ = true |- _ => apply orb_true_iff in H as [?|?] end;
    split_and!; auto; naive_solver.
Qed.

Lemma trusted_ingress_confined_witness :
  trusted_ingress_passthrough_path_allowed example_settings "GET" "/ui/login" = true ∧
  ps_ui_exposure example_settings = TrustedIngress.
Proof.
  split; [vm_compute; reflexivity|].
  refine (proj1 (trusted_ingress_confined example_settings "GET" "/ui/login" _)).
  vm_compute; reflexivity.
Defined.

Lemma path_matches_self pt :
  contains_whitespace pt = false → path_matches_allowed_pattern pt pt = true.
Proof.
  intros Hw. unfold path_matches_allowed_pattern. rewrite trim_no_whitespace by done.
  destruct (strip_suffix "*" pt) as [pre|] eqn:E; [|apply String.eqb_refl].
  apply strip_suffix_Some in E as ->. apply starts_with_append.
Qed.

(** validated deny entries deny: once a patch's blocked list passed validation,
    each entry blocks the path it spells, with or without a trailing slash. *)
Theorem blocked_pattern_denies s b :
  validate_allowed_paths (ps_blocked_paths s) = Ok tt →
  b ∈ ps_blocked_paths s →
  denies_path s (trim b) = true ∧ denies_path s (trim b +:+ "/") = true.
Proof.
  unfold validate_allowed_paths. intros H Hin. case_match; [done|].
  apply (proj1 (try_for_each_ok _ _)) in H. rewrite Forall_forall in H.
  specialize (H b Hin). simpl in H. case_match eqn:Hc; [done|]. bool_prop.
  pose proof (proj1 (unambiguous_plain _) ltac:(eassumption)) as (_ & _ & _ & _ & _ & Hw & _).
  assert (Hq : contains_byte "?"%char (trim b +:+ "/") = false).
  { rewrite contains_byte_append. by apply orb_false_iff. }
  set (pt := trim b) in *. unfold denies_path.
  rewrite (before_id "?"%char pt), (before_id "?"%char (pt +:+ "/")) by done.
  split; apply orb_true_iff; right; apply existsb_true_iff; exists b; (split; [done|]);
    apply orb_true_iff; fold pt.
  - left. unfold path_matches_allowed_pattern. fold pt.
    generalize (path_matches_self pt Hw). unfold path_matches_allowed_pattern.
    by rewrite (trim_no_whitespace pt Hw).
  - right. rewrite trim_end_matches_snoc. apply path_matches_self.
    destruct (trim_end_matches_prefix "/"%char pt) as [t Ht]. rewrite Ht in Hw.
    by apply contains_whitespace_append_l in Hw.
Qed.

Lemma blocked_pattern_denies_witness :
  validate_allowed_paths (ps_blocked_paths example_settings) = Ok tt ∧
  denies_path example_settings (trim "/v1/files*") = true ∧
  denies_path example_settings (trim "/v1/files*" +:+ "/") = true.
Proof.
  split; [vm_compute; reflexivity|].
  apply blocked_pattern_denies; [vm_compute; reflexivity|set_solver].
Defined.
