(* ===== verification/Json.v ===== *)
(** * JSON values

    The [serde_json::Value] tree the gateway inspects and rewrites.  An object
    is the list of its members in key order with distinct keys, as
    [serde_json::Map] iterates it. *)

From S2P Require Import Prelude.

Inductive Number : Type :=
| PosInt (n : Z)
| NegInt (n : Z)
| Float (x : f64).

Inductive Value : Type :=
| JNull
| JBool (b : bool)
| JNumber (n : Number)
| JString (s : string)
| JArray (items : list Value)
| JObject (members : list (string * Value)).

Abbreviation JMap := (list (string * Value)).

(** Byte-wise order of keys. *)
Definition key_ltb (a b : string) : bool :=
  match String.compare a b with Lt => true | _ => false end.

Definition map_get {A} (k : string) (m : list (string * A)) : option A :=
  snd <$> List.find (λ p, String.eqb k p.1) m.
Definition map_contains_key {A} (k : string) (m : list (string * A)) : bool :=
  is_some (map_get k m).
Fixpoint map_insert {A} (k : string) (v : A) (m : list (string * A)) : list (string * A) :=
  match m with
  | [] => [(k, v)]
  | (k', v') :: m' =>
      if String.eqb k k' then (k, v) :: m'
      else if key_ltb k k' then (k, v) :: m
      else (k', v') :: map_insert k v m'
  end.
Definition map_remove {A} (k : string) (m : list (string * A)) : list (string * A) :=
  List.filter (λ p, negb (String.eqb k p.1)) m.

Definition as_object (v : Value) : option JMap :=
  match v with JObject m => Some m | _ => None end.
Definition as_array (v : Value) : option (list Value) :=
  match v with JArray l => Some l | _ => None end.
Definition as_str (v : Value) : option string :=
  match v with JString s => Some s | _ => None end.
Definition as_bool (v : Value) : option bool :=
  match v with JBool b => Some b | _ => None end.
Definition as_u64 (v : Value) : option Z :=
  match v with JNumber (PosInt n) => Some n | _ => None end.
Definition is_object (v : Value) : bool := is_some (as_object v).
(** [Value::get(&str)]. *)
Definition value_get (k : string) (v : Value) : option Value :=
  as_object v ≫= map_get k.

(** Structural induction through arrays and objects. *)
Section value_ind.
Variable P : Value → Prop.
Hypothesis Hnull : P JNull.
Hypothesis Hbool : ∀ b, P (JBool b).
Hypothesis Hnum : ∀ n, P (JNumber n).
Hypothesis Hstr : ∀ s, P (JString s).
Hypothesis Harr : ∀ l, Forall P l → P (JArray l).
Hypothesis Hobj : ∀ m, Forall (λ p, P p.2) m → P (JObject m).

Fixpoint Value_nested_ind (v : Value) : P v :=
  match v with
  | JNull => Hnull
  | JBool b => Hbool b
  | JNumber n => Hnum n
  | JString s => Hstr s
  | JArray l =>
      Harr l ((fix go l : Forall P l :=
                 match l with
                 | [] => Forall_nil_2 P
                 | v :: l => Forall_cons_2 P v l (Value_nested_ind v) (go l)
                 end) l)
  | JObject m =>
      Hobj m ((fix go m : Forall (λ p, P p.2) m :=
                 match m with
                 | [] => Forall_nil_2 _
                 | p :: m => Forall_cons_2 (λ p, P p.2) p m (Value_nested_ind p.2) (go m)
                 end) m)
  end.
End value_ind.

Lemma map_get_insert {A} k k' (v : A) m :
  map_get k (map_insert k' v m) = if String.eqb k k' then Some v else map_get k m.
Proof.
  unfold map_get. induction m as [|[k0 v0] m IH]; simpl.
  - by destruct (String.eqb k k').
  - destruct (String.eqb_spec k' k0) as [->|Hne]; simpl.
    + by destruct (String.eqb k k0).
    + destruct (key_ltb k' k0); simpl; [by destruct (String.eqb k k')|].
      destruct (String.eqb_spec k k0) as [->|]; [|done].
      by destruct (String.eqb_spec k0 k').
Qed.

Lemma map_get_remove_ne {A} k k' (m : list (string * A)) :
  k ≠ k' → map_get k (map_remove k' m) = map_get k m.
Proof.
  intros Hne. unfold map_get, map_remove. induction m as [|[k0 v0] m IH]; simpl; [done|].
  destruct (String.eqb_spec k' k0) as [->|]; simpl.
  - destruct (String.eqb_spec k k0); [done|]. apply IH.
  - by destruct (String.eqb k k0).
Qed.

Lemma map_get_remove {A} k (m : list (string * A)) : map_get k (map_remove k m) = None.
Proof.
  unfold map_get. induction m as [|[k0 v0] m IH]; simpl; [done|].
  destruct (String.eqb_spec k k0); simpl; [done|].
  by destruct (String.eqb_spec k k0).
Qed.
