(* ===== verification/GuardrailPolicy.v ===== *)
(** * Guardrail policies: names, validation and admin patches

    Models the policy part of [crates/gateway-core/src/guardrails.rs]:
    [GuardrailPolicy] with [validate], [GuardrailPolicyPatch::apply] and
    [validate_guardrail_name].  The plan and the executor are in
    [Guardrails]; layered merging is in [Policies]. *)

From S2P Require Import Prelude Errors Json.

Record GuardrailPolicy := {
  mandatory_guardrails : list string;
  optional_guardrails : list string;
  forbidden_guardrails : list string;
  guardrail_config_overrides : JMap
}.

Definition GuardrailPolicy_default : GuardrailPolicy :=
  {| mandatory_guardrails := []; optional_guardrails := [];
     forbidden_guardrails := []; guardrail_config_overrides := [] |}.

Definition valid_name_byte (c : ascii) : bool :=
  is_ascii_alphanumeric c || Ascii.eqb c "-"%char || Ascii.eqb c "_"%char || Ascii.eqb c "."%char.

Definition validate_guardrail_name (name : string) : GatewayResult unit :=
  if negb (is_empty name) && (len name <=? 128) && all_bytes valid_name_byte name
  then Ok tt else Err InvalidGuardrailRequest.

Definition str_mem (name : string) (l : list string) : bool := existsb (String.eqb name) l.

Definition guardrail_policy_validate (p : GuardrailPolicy) : GatewayResult unit :=
  check? try_for_each validate_guardrail_name
           (mandatory_guardrails p ++ optional_guardrails p ++ forbidden_guardrails p) in
  try_for_each (λ entry : string * Value,
    check? validate_guardrail_name entry.1 in
    if negb (is_object entry.2) then Err InvalidGuardrailRequest
    else if str_mem entry.1 (forbidden_guardrails p) then Err GuardrailForbidden
    else Ok tt) (guardrail_config_overrides p).

Record GuardrailPolicyPatch := {
  patch_mandatory : option (list string);
  patch_optional : option (list string);
  patch_forbidden : option (list string);
  patch_overrides : option JMap
}.

Definition guardrail_policy_patch_apply (patch : GuardrailPolicyPatch)
    (policy : GuardrailPolicy) : GatewayResult GuardrailPolicy :=
  let policy :=
    {| mandatory_guardrails := default (mandatory_guardrails policy) (patch_mandatory patch);
       optional_guardrails := default (optional_guardrails policy) (patch_optional patch);
       forbidden_guardrails := default (forbidden_guardrails policy) (patch_forbidden patch);
       guardrail_config_overrides :=
         default (guardrail_config_overrides policy) (patch_overrides patch) |} in
  check? guardrail_policy_validate policy in
  Ok policy.

Lemma str_mem_iff name l : str_mem name l = true ↔ name ∈ l.
Proof.
  unfold str_mem. induction l as [|x l IH]; simpl.
  - split; [done|]. by intros ?%not_elem_of_nil.
  - rewrite orb_true_iff, IH, elem_of_cons, String.eqb_eq. done.
Qed.
Lemma str_mem_false name l : str_mem name l = false ↔ name ∉ l.
Proof. rewrite <- str_mem_iff. by destruct (str_mem name l). Qed.

(** What a valid policy guarantees to the plan resolver. *)
Lemma guardrail_policy_validate_ok p :
  guardrail_policy_validate p = Ok tt ↔
  (∀ name, name ∈ mandatory_guardrails p ++ optional_guardrails p ++ forbidden_guardrails p →
     validate_guardrail_name name = Ok tt) ∧
  (∀ name v, (name, v) ∈ guardrail_config_overrides p →
     validate_guardrail_name name = Ok tt ∧ is_object v = true ∧
     name ∉ forbidden_guardrails p).
Proof.
  unfold guardrail_policy_validate.
  destruct (try_for_each validate_guardrail_name _) as [[]|e] eqn:Hn.
  - apply try_for_each_ok in Hn. rewrite Forall_forall in Hn.
    rewrite try_for_each_ok, Forall_forall. split.
    + intros Ho. split; [done|]. intros name v Hin. specialize (Ho _ Hin). simpl in Ho.
      destruct (validate_guardrail_name name) as [[]|]; [|done].
      destruct (is_object v); [|done]. simpl in Ho.
      destruct (str_mem name _) eqn:Hm; [done|]. apply str_mem_false in Hm. done.
    + intros [_ Ho] [name v] Hin. destruct (Ho _ _ Hin) as (Hv & Hobj & Hm).
      apply str_mem_false in Hm. simpl. by rewrite Hv, Hobj, Hm.
  - split; [done|]. intros [Hall _].
    rewrite (proj2 (try_for_each_ok _ _)) in Hn; [done|]. by apply Forall_forall.
Qed.
