(* ===== verification/Policies.v ===== *)
(** * Policies: key policies, their evaluation and layered merging

    Models [crates/gateway-core/src/policies.rs] up to request parsing:
    [KeyPolicy], [evaluate_policy], [evaluate_policy_limits] and the merging
    of global, project, team, key, route and model layers by
    [resolve_effective_policy].  The output-token bound is in
    [OutputLimits]. *)

From S2P Require Import Prelude Errors Routing Json GuardrailPolicy.

Record KeyPolicy := {
  deny : bool;
  allowed_routes : list Route;
  allowed_models : list string;
  allowed_providers : list Provider;
  allowed_services : list string;
  rpm_limit : option Z;
  tpm_limit : option Z;
  daily_budget_usd : option f64;
  monthly_budget_usd : option f64;
  allow_streaming : bool;
  allow_tools : bool;
  max_requests_per_day : option Z;
  max_tokens_per_day : option Z;
  max_cost_per_request : option f64;
  max_input_tokens_per_request : option Z;
  max_output_tokens_per_request : option Z;
  allowed_hours_utc : list Z;
  unused_key_auto_disable_after_days : option Z;
  max_request_body_bytes : option Z;
  max_response_body_bytes : option Z;
  max_stream_duration_seconds : option Z;
  max_sse_event_bytes : option Z;
  max_tool_call_count : option Z;
  max_tool_schema_bytes : option Z;
  policy_version : Z
}.

Definition KeyPolicy_default : KeyPolicy :=
  {| deny := false;
     allowed_routes := [ChatCompletions; Responses];
     allowed_models := [];
     allowed_providers := [LiteLlm];
     allowed_services := [];
     rpm_limit := None;
     tpm_limit := None;
     daily_budget_usd := None;
     monthly_budget_usd := None;
     allow_streaming := false;
     allow_tools := false;
     max_requests_per_day := None;
     max_tokens_per_day := None;
     max_cost_per_request := None;
     max_input_tokens_per_request := None;
     max_output_tokens_per_request := None;
     allowed_hours_utc := [];
     unused_key_auto_disable_after_days := None;
     max_request_body_bytes := None;
     max_response_body_bytes := None;
     max_stream_duration_seconds := None;
     max_sse_event_bytes := None;
     max_tool_call_count := None;
     max_tool_schema_bytes := None;
     policy_version := 1 |}.

Definition neutral_layer (version : Z) : KeyPolicy :=
  {| deny := false;
     allowed_routes := [];
     allowed_models := [];
     allowed_providers := [];
     allowed_services := [];
     rpm_limit := None;
     tpm_limit := None;
     daily_budget_usd := None;
     monthly_budget_usd := None;
     allow_streaming := true;
     allow_tools := true;
     max_requests_per_day := None;
     max_tokens_per_day := None;
     max_cost_per_request := None;
     max_input_tokens_per_request := None;
     max_output_tokens_per_request := None;
     allowed_hours_utc := [];
     unused_key_auto_disable_after_days := None;
     max_request_body_bytes := None;
     max_response_body_bytes := None;
     max_stream_duration_seconds := None;
     max_sse_event_bytes := None;
     max_tool_call_count := None;
     max_tool_schema_bytes := None;
     policy_version := version |}.

Record GenerationFeatures := {
  feat_model : option string;
  feat_stream : bool;
  feat_tools : bool;
  feat_service_name : option string
}.

Definition GenerationFeatures_default : GenerationFeatures :=
  {| feat_model := None; feat_stream := false; feat_tools := false; feat_service_name := None |}.

(** ** Evaluation *)

(** [!list.is_empty() && !list.contains(x)]. *)
Definition not_listed {A} `{EqDecision A} (l : list A) (x : A) : bool :=
  negb (is_nil l) && negb (bool_decide (x ∈ l)).

Definition evaluate_policy (policy : KeyPolicy) (route : Route) (provider : Provider)
    (features : GenerationFeatures) : GatewayResult unit :=
  if deny policy then Err PolicyDenied
  else if not_listed (allowed_routes policy) route then Err PolicyDenied
  else if not_listed (allowed_providers policy) provider then Err PolicyDenied
  else if is_some_and (not_listed (allowed_services policy)) (feat_service_name features)
  then Err PolicyDenied
  else if is_some_and (not_listed (allowed_models policy)) (feat_model features)
  then Err PolicyDenied
  else if feat_stream features && negb (allow_streaming policy) then Err PolicyDenied
  else if feat_tools features && negb (allow_tools policy) then Err PolicyDenied
  else Ok tt.

(** [exceeds_i64] and [exceeds_i32]. *)
Definition exceeds (value limit : option Z) : bool :=
  match value, limit with Some v, Some l => l <? v | _, _ => false end.
Definition exceeds_f64 (value limit : option f64) : bool :=
  match value, limit with Some v, Some l => f64_gtb v l | _, _ => false end.

(** [DateTime<Utc>::hour]. *)
Definition hour (now : Z) : Z := (now / (3600 * nanos_per_sec)) mod 24.

Definition evaluate_policy_limits (policy : KeyPolicy) (now : Z)
    (request_body_bytes response_body_bytes input_tokens output_tokens : option Z)
    (estimated_cost_usd : option f64) : GatewayResult unit :=
  if not_listed (allowed_hours_utc policy) (hour now) then Err PolicyDenied
  else if exceeds request_body_bytes (max_request_body_bytes policy)
  then Err RequestBodyTooLarge
  else if exceeds response_body_bytes (max_response_body_bytes policy)
  then Err ResponseBodyTooLarge
  else if exceeds input_tokens (max_input_tokens_per_request policy)
          || exceeds output_tokens (max_output_tokens_per_request policy)
  then Err PolicyDenied
  else if exceeds_f64 estimated_cost_usd (max_cost_per_request policy) then Err PolicyDenied
  else Ok tt.

(** ** Merging *)

Inductive PolicyLayerKind : Type :=
| LayerGlobal | LayerProject | LayerTeam | LayerKey | LayerRoute | LayerModel.

Definition layer_kind_as_str (k : PolicyLayerKind) : string :=
  match k with
  | LayerGlobal => "global"
  | LayerProject => "project"
  | LayerTeam => "team"
  | LayerKey => "key"
  | LayerRoute => "route"
  | LayerModel => "model"
  end.

Record PolicyLayer := {
  layer_kind : PolicyLayerKind;
  layer_scope_id : option string;
  layer_policy : KeyPolicy;
  layer_guardrail_policy : GuardrailPolicy;
  layer_policy_version : Z
}.

Record PolicyLayerTrace := {
  trace_kind : PolicyLayerKind;
  trace_scope_id : option string;
  trace_policy_version : Z
}.

Record EffectivePolicy := {
  eff_policy : KeyPolicy;
  eff_guardrail_policy : GuardrailPolicy;
  applied_layers : list PolicyLayerTrace
}.

(** The new allowlist and the new [deny] flag. *)
Definition merge_allowlist {A} `{EqDecision A} (effective next : list A) (deny : bool) :
    list A * bool :=
  if is_nil next then (effective, deny)
  else if is_nil effective then (next, deny)
  else
    let effective := filter (λ v, v ∈ next) effective in
    (effective, if is_nil effective then true else deny).

(** [Vec::dedup]: drop consecutive repetitions. *)
Fixpoint dedup (l : list Z) : list Z :=
  match l with
  | [] => []
  | x :: l' =>
      match dedup l' with
      | y :: r => if x =? y then y :: r else x :: y :: r
      | [] => [x]
      end
  end.

Definition valid_hours (hours : list Z) : list Z :=
  dedup (merge_sort Z.le (List.filter (in_range 0 23) hours)).

Definition merge_allowed_hours (effective next : list Z) (deny : bool) : list Z * bool :=
  let normalized_next := valid_hours next in
  if is_nil normalized_next then (effective, deny)
  else if is_nil effective then (normalized_next, deny)
  else
    let effective := filter (λ v, v ∈ normalized_next) effective in
    (effective, if is_nil effective then true else deny).

(** [stricter_i32] and [stricter_i64]. *)
Definition stricter (current next : option Z) : option Z :=
  match current, next with
  | Some a, Some b => Some (Z.min a b)
  | Some a, None => Some a
  | None, Some b => Some b
  | None, None => None
  end.
Definition stricter_f64 (current next : option f64) : option f64 :=
  match current, next with
  | Some a, Some b => Some (f64_min a b)
  | Some a, None => Some a
  | None, Some b => Some b
  | None, None => None
  end.

Definition merge_policy (effective next : KeyPolicy) : KeyPolicy :=
  let deny0 := deny effective || deny next in
  let '(routes, deny1) := merge_allowlist (allowed_routes effective) (allowed_routes next) deny0 in
  let '(models, deny2) := merge_allowlist (allowed_models effective) (allowed_models next) deny1 in
  let '(providers, deny3) :=
    merge_allowlist (allowed_providers effective) (allowed_providers next) deny2 in
  let '(services, deny4) :=
    merge_allowlist (allowed_services effective) (allowed_services next) deny3 in
  let '(hours, deny5) :=
    merge_allowed_hours (allowed_hours_utc effective) (allowed_hours_utc next) deny4 in
  {| deny := deny5;
     allowed_routes := routes;
     allowed_models := models;
     allowed_providers := providers;
     allowed_services := services;
     rpm_limit := stricter (rpm_limit effective) (rpm_limit next);
     tpm_limit := stricter (tpm_limit effective) (tpm_limit next);
     daily_budget_usd := stricter_f64 (daily_budget_usd effective) (daily_budget_usd next);
     monthly_budget_usd := stricter_f64 (monthly_budget_usd effective) (monthly_budget_usd next);
     allow_streaming := allow_streaming effective && allow_streaming next;
     allow_tools := allow_tools effective && allow_tools next;
     max_requests_per_day := stricter (max_requests_per_day effective) (max_requests_per_day next);
     max_tokens_per_day := stricter (max_tokens_per_day effective) (max_tokens_per_day next);
     max_cost_per_request :=
       stricter_f64 (max_cost_per_request effective) (max_cost_per_request next);
     max_input_tokens_per_request :=
       stricter (max_input_tokens_per_request effective) (max_input_tokens_per_request next);
     max_output_tokens_per_request :=
       stricter (max_output_tokens_per_request effective) (max_output_tokens_per_request next);
     allowed_hours_utc := hours;
     unused_key_auto_disable_after_days :=
       stricter (unused_key_auto_disable_after_days effective)
         (unused_key_auto_disable_after_days next);
     max_request_body_bytes :=
       stricter (max_request_body_bytes effective) (max_request_body_bytes next);
     max_response_body_bytes :=
       stricter (max_response_body_bytes effective) (max_response_body_bytes next);
     max_stream_duration_seconds :=
       stricter (max_stream_duration_seconds effective) (max_stream_duration_seconds next);
     max_sse_event_bytes := stricter (max_sse_event_bytes effective) (max_sse_event_bytes next);
     max_tool_call_count := stricter (max_tool_call_count effective) (max_tool_call_count next);
     max_tool_schema_bytes :=
       stricter (max_tool_schema_bytes effective) (max_tool_schema_bytes next);
     policy_version := Z.max (policy_version effective) (policy_version next) |}.

Definition append_unique (target values : list string) : list string :=
  fold_left (λ t v, if str_mem v t then t else t ++ [v]) values target.

Definition merge_guardrail_policy (effective next : GuardrailPolicy) :
    GatewayResult GuardrailPolicy :=
  let mandatory := append_unique (mandatory_guardrails effective) (mandatory_guardrails next) in
  let optional := append_unique (optional_guardrails effective) (optional_guardrails next) in
  let forbidden := append_unique (forbidden_guardrails effective) (forbidden_guardrails next) in
  let merged :=
    {| mandatory_guardrails := mandatory;
       optional_guardrails := List.filter (λ name, negb (str_mem name forbidden)) optional;
       forbidden_guardrails := forbidden;
       guardrail_config_overrides :=
         fold_left (λ m (e : string * Value), map_insert e.1 e.2 m)
           (guardrail_config_overrides next) (guardrail_config_overrides effective) |} in
  check? guardrail_policy_validate merged in
  Ok merged.

Definition layer_trace (layer : PolicyLayer) : PolicyLayerTrace :=
  {| trace_kind := layer_kind layer;
     trace_scope_id := layer_scope_id layer;
     trace_policy_version := layer_policy_version layer |}.

Definition resolve_effective_policy (layers : list PolicyLayer) :
    GatewayResult EffectivePolicy :=
  match layers with
  | [] => Ok {| eff_policy := KeyPolicy_default;
                eff_guardrail_policy := GuardrailPolicy_default;
                applied_layers := [] |}
  | first :: rest =>
      try_fold (λ eff layer,
        let policy := merge_policy (eff_policy eff) (layer_policy layer) in
        let? guardrails :=
          merge_guardrail_policy (eff_guardrail_policy eff) (layer_guardrail_policy layer) in
        Ok {| eff_policy := policy;
              eff_guardrail_policy := guardrails;
              applied_layers := applied_layers eff ++ [layer_trace layer] |})
        {| eff_policy := layer_policy first;
           eff_guardrail_policy := layer_guardrail_policy first;
           applied_layers := [layer_trace first] |}
        rest
  end.

(** ** Specification of evaluation *)

(** An empty allowlist places no restriction. *)
Definition allows_item {A} (l : list A) (x : A) : Prop := l = [] ∨ x ∈ l.

(** Everything the request pipeline checks against one policy. *)
Record Request := {
  req_route : Route;
  req_provider : Provider;
  req_features : GenerationFeatures;
  req_now : Z;
  req_body_bytes : option Z;
  req_response_bytes : option Z;
  req_input_tokens : option Z;
  req_output_tokens : option Z;
  req_cost : option f64
}.

Definition admits (policy : KeyPolicy) (r : Request) : Prop :=
  evaluate_policy policy (req_route r) (req_provider r) (req_features r) = Ok tt ∧
  evaluate_policy_limits policy (req_now r) (req_body_bytes r) (req_response_bytes r)
    (req_input_tokens r) (req_output_tokens r) (req_cost r) = Ok tt.

Lemma not_listed_false {A} `{EqDecision A} (l : list A) x :
  not_listed l x = false ↔ allows_item l x.
Proof.
  unfold not_listed, allows_item. destruct l as [|y l]; simpl; [naive_solver|].
  rewrite negb_false_iff, bool_decide_eq_true. naive_solver.
Qed.

Lemma is_some_and_not_listed {A} `{EqDecision A} (l : list A) o :
  is_some_and (not_listed l) o = false ↔ ∀ x, o = Some x → allows_item l x.
Proof. destruct o as [y|]; simpl; [rewrite not_listed_false|]; naive_solver. Qed.

Lemma evaluate_policy_ok p route provider f :
  evaluate_policy p route provider f = Ok tt ↔
  deny p = false ∧ allows_item (allowed_routes p) route ∧
  allows_item (allowed_providers p) provider ∧
  (∀ s, feat_service_name f = Some s → allows_item (allowed_services p) s) ∧
  (∀ m, feat_model f = Some m → allows_item (allowed_models p) m) ∧
  (feat_stream f = true → allow_streaming p = true) ∧
  (feat_tools f = true → allow_tools p = true).
Proof.
  unfold evaluate_policy. rewrite <- !is_some_and_not_listed, <- !not_listed_false.
  rewrite !guard_ok, !andb_negb_false. tauto.
Qed.

Lemma evaluate_policy_limits_ok p now rb sb it ot cost :
  evaluate_policy_limits p now rb sb it ot cost = Ok tt ↔
  allows_item (allowed_hours_utc p) (hour now) ∧
  exceeds rb (max_request_body_bytes p) = false ∧
  exceeds sb (max_response_body_bytes p) = false ∧
  exceeds it (max_input_tokens_per_request p) = false ∧
  exceeds ot (max_output_tokens_per_request p) = false ∧
  exceeds_f64 cost (max_cost_per_request p) = false.
Proof.
  unfold evaluate_policy_limits. rewrite <- !not_listed_false.
  rewrite !guard_ok, orb_false_iff. tauto.
Qed.

Lemma hour_range now : 0 ≤ hour now ≤ 23.
Proof. unfold hour. pose proof (Z.mod_pos_bound (now / (3600 * nanos_per_sec)) 24). lia. Qed.

(** ** Merging keeps every restriction *)

Lemma exceeds_stricter v a b : exceeds v (stricter a b) = exceeds v a || exceeds v b.
Proof.
  destruct v as [v|], a as [a|], b as [b|]; simpl; rewrite ?orb_false_r; try done.
  destruct (Z.ltb_spec a v), (Z.ltb_spec b v), (Z.ltb_spec (Z.min a b) v); simpl; lia.
Qed.
Lemma exceeds_stricter_f64 v a b :
  exceeds_f64 v (stricter_f64 a b) = exceeds_f64 v a || exceeds_f64 v b.
Proof.
  destruct v as [v|], a as [a|], b as [b|]; simpl; rewrite ?orb_false_r; try done.
  apply f64_gtb_min.
Qed.

Lemma merge_allowlist_sound {A} `{EqDecision A} (e n : list A) d e' d' x :
  merge_allowlist e n d = (e', d') → d' = false →
  d = false ∧ (allows_item e' x → allows_item e x ∧ allows_item n x).
Proof.
  unfold merge_allowlist, allows_item. intros H ->.
  destruct n as [|y n]; simpl in H; [naive_solver|].
  destruct e as [|z e]; [simpl in H; naive_solver|].
  cbn [is_nil] in H. destruct (filter _ (z :: e)) as [|w l] eqn:E; simpl in H; [done|].
  injection H as <- <-. split; [done|]. intros [?|Hx]; [done|].
  rewrite <- E in Hx. apply list_elem_of_filter in Hx. naive_solver.
Qed.

Lemma merge_allowlist_complete {A} `{EqDecision A} (e n : list A) d e' d' x :
  merge_allowlist e n d = (e', d') → allows_item e x → allows_item n x →
  allows_item e' x ∧ d' = d.
Proof.
  unfold merge_allowlist, allows_item. intros H He Hn.
  destruct n as [|y n]; simpl in H; [naive_solver|].
  destruct e as [|z e]; [simpl in H; naive_solver|].
  cbn [is_nil] in H.
  assert (x ∈ filter (λ v, v ∈ y :: n) (z :: e)) as Hx.
  { apply list_elem_of_filter. naive_solver. }
  destruct (filter _ (z :: e)) as [|w l] eqn:E; [by apply not_elem_of_nil in Hx|].
  injection H as <- <-. auto.
Qed.

(** A merge without conflict never sets [deny]; an empty next list changes nothing. *)
Lemma merge_allowlist_nil {A} `{EqDecision A} (e : list A) d : merge_allowlist e [] d = (e, d).
Proof. done. Qed.

Lemma elem_of_dedup x l : x ∈ dedup l ↔ x ∈ l.
Proof.
  induction l as [|a l IH]; simpl; [done|]. rewrite elem_of_cons, <- IH.
  destruct (dedup l) as [|y r]; [set_solver|].
  destruct (Z.eqb_spec a y) as [->|]; set_solver.
Qed.
Lemma elem_of_valid_hours x l : x ∈ valid_hours l ↔ x ∈ l ∧ 0 ≤ x ≤ 23.
Proof.
  unfold valid_hours. rewrite elem_of_dedup, merge_sort_Permutation.
  rewrite list_elem_of_In, filter_In, <- list_elem_of_In, in_range_iff. done.
Qed.
Lemma valid_hours_nil l : Forall (λ h, 0 ≤ h ≤ 23) l → valid_hours l = [] → l = [].
Proof.
  intros Hl Hn. destruct l as [|h l]; [done|]. exfalso.
  apply Forall_cons in Hl as [Hh _].
  assert (h ∈ valid_hours (h :: l)) as Hin by (apply elem_of_valid_hours; set_solver).
  rewrite Hn in Hin. by apply not_elem_of_nil in Hin.
Qed.

Lemma merge_allowed_hours_eq e n d :
  merge_allowed_hours e n d = merge_allowlist e (valid_hours n) d.
Proof. done. Qed.

Lemma allows_valid_hours l h :
  Forall (λ h, 0 ≤ h ≤ 23) l → 0 ≤ h ≤ 23 → allows_item (valid_hours l) h ↔ allows_item l h.
Proof.
  intros Hl Hh. unfold allows_item. rewrite elem_of_valid_hours. split.
  - intros [Hn|[? _]]; [left; by apply valid_hours_nil|by right].
  - intros [->|?]; [by left|by right].
Qed.

Definition hours_valid (p : KeyPolicy) : Prop := Forall (λ h, 0 ≤ h ≤ 23) (allowed_hours_utc p).

Ltac open_merge :=
  unfold merge_policy;
  repeat match goal with
  | |- context [merge_allowlist ?e ?n ?d] => destruct (merge_allowlist e n d) as [? ?] eqn:?
  | |- context [merge_allowed_hours ?e ?n ?d] =>
      rewrite (merge_allowed_hours_eq e n d)
  end.

Lemma merge_policy_sound a b r :
  hours_valid b → admits (merge_policy a b) r → admits a r ∧ admits b r.
Proof.
  intros Hv. unfold admits. open_merge. rewrite !evaluate_policy_ok, !evaluate_policy_limits_ok.
  cbn -[merge_allowlist exceeds exceeds_f64 stricter stricter_f64].
  rewrite !exceeds_stricter, exceeds_stricter_f64, !orb_false_iff.
  intros [(Hd & Hr & Hp & Hs & Hm & Hst & Ht) (Hh & Hrb & Hsb & Hit & Hot & Hc)].
  eapply merge_allowlist_sound in Heqp3 as [-> Hhours]; [|done].
  eapply (merge_allowlist_sound _ _ _ _ _ "") in Heqp2 as Hsv; [|done]. destruct Hsv as [-> _].
  eapply merge_allowlist_sound in Heqp1 as [-> Hprov]; [|done].
  eapply (merge_allowlist_sound _ _ _ _ _ "") in Heqp0 as Hmo; [|done]. destruct Hmo as [-> _].
  eapply merge_allowlist_sound in Heqp as [Hd0 Hro]; [|done].
  apply orb_false_iff in Hd0 as [? ?].
  specialize (Hhours Hh). specialize (Hprov Hp). specialize (Hro Hr).
  rewrite allows_valid_hours in Hhours by (done || apply hour_range).
  assert (∀ s, feat_service_name (req_features r) = Some s →
    allows_item (allowed_services a) s ∧ allows_item (allowed_services b) s) as Hsv.
  { intros s Hs'. eapply merge_allowlist_sound; [exact Heqp2|done|auto]. }
  assert (∀ m, feat_model (req_features r) = Some m →
    allows_item (allowed_models a) m ∧ allows_item (allowed_models b) m) as Hmo.
  { intros m Hm'. eapply merge_allowlist_sound; [exact Heqp0|done|auto]. }
  setoid_rewrite andb_true_iff in Hst. setoid_rewrite andb_true_iff in Ht.
  naive_solver.
Qed.

Lemma merge_policy_complete a b r :
  hours_valid b → is_Some (feat_model (req_features r)) →
  is_Some (feat_service_name (req_features r)) →
  admits a r → admits b r → admits (merge_policy a b) r.
Proof.
  intros Hv [m Hm] [s Hs]. unfold admits. open_merge.
  rewrite !evaluate_policy_ok, !evaluate_policy_limits_ok.
  cbn -[merge_allowlist exceeds exceeds_f64 stricter stricter_f64].
  rewrite !exceeds_stricter, exceeds_stricter_f64, !orb_false_iff.
  intros [(Hda & Hra & Hpa & Hsa & Hma & ? & ?) (Hha & ? & ? & ? & ? & ?)]
    [(Hdb & Hrb & Hpb & Hsb & Hmb & ? & ?) (Hhb & ? & ? & ? & ? & ?)].
  rewrite <- allows_valid_hours in Hhb by (done || apply hour_range).
  eapply merge_allowlist_complete in Heqp3 as [? ->]; [|done|done].
  eapply (merge_allowlist_complete _ _ _ _ _ s) in Heqp2 as [? ->]; [|auto|auto].
  eapply merge_allowlist_complete in Heqp1 as [? ->]; [|done|done].
  eapply (merge_allowlist_complete _ _ _ _ _ m) in Heqp0 as [? ->]; [|auto|auto].
  eapply merge_allowlist_complete in Heqp as [? ->]; [|done|done].
  rewrite Hda, Hdb, Hm, Hs, !andb_true_iff. naive_solver.
Qed.

(** ** Properties of the effective policy *)

Definition merge_layers (first : KeyPolicy) (rest : list PolicyLayer) : KeyPolicy :=
  fold_left (λ p l, merge_policy p (layer_policy l)) rest first.

(** The policy part of the resolution is the left fold of [merge_policy]. *)
Lemma resolve_effective_policy_fold first rest eff :
  resolve_effective_policy (first :: rest) = Ok eff →
  eff_policy eff = merge_layers (layer_policy first) rest ∧
  applied_layers eff = layer_trace <$> (first :: rest).
Proof.
  unfold resolve_effective_policy.
  assert (Hgen : ∀ start,
    try_fold (λ eff layer,
      let policy := merge_policy (eff_policy eff) (layer_policy layer) in
      let? guardrails :=
        merge_guardrail_policy (eff_guardrail_policy eff) (layer_guardrail_policy layer) in
      Ok {| eff_policy := policy; eff_guardrail_policy := guardrails;
            applied_layers := applied_layers eff ++ [layer_trace layer] |}) start rest = Ok eff →
    eff_policy eff = merge_layers (eff_policy start) rest ∧
    applied_layers eff = applied_layers start ++ (layer_trace <$> rest)).
  { induction rest as [|l rest IH]; intros start H; simpl in H.
    - injection H as <-. rewrite app_nil_r. done.
    - destruct (merge_guardrail_policy _ _) as [g|] eqn:Hg; [|done].
      apply IH in H as [-> ->]. simpl. by rewrite <- app_assoc. }
  intros H. apply Hgen in H as [-> ->]. done.
Qed.

Lemma merge_layers_sound first rest r :
  Forall (λ l, hours_valid (layer_policy l)) rest →
  admits (merge_layers first rest) r →
  admits first r ∧ Forall (λ l, admits (layer_policy l) r) rest.
Proof.
  revert first. induction rest as [|l rest IH]; intros first Hv H; simpl in *; [auto|].
  apply Forall_cons in Hv as [Hl Hv]. apply IH in H as [H Hrest]; [|done].
  apply merge_policy_sound in H as [? ?]; auto.
Qed.

Lemma merge_layers_complete first rest r :
  Forall (λ l, hours_valid (layer_policy l)) rest →
  is_Some (feat_model (req_features r)) → is_Some (feat_service_name (req_features r)) →
  admits first r → Forall (λ l, admits (layer_policy l) r) rest →
  admits (merge_layers first rest) r.
Proof.
  intros Hv Hm Hs. revert first. induction rest as [|l rest IH]; intros first Hf Hr; simpl; [done|].
  apply Forall_cons in Hv as [Hl Hv], Hr as [Hal Hr].
  apply IH; auto. by apply merge_policy_complete.
Qed.

(** no layer can be loosened by another: a request admitted under the
    effective policy is admitted by every single layer it was merged from
    (route, provider, model, service, streaming, tools, hours, sizes, tokens
    and cost).  Stored hour lists are valid hours, as the admin API enforces. *)
Theorem effective_policy_sound layers eff r :
  Forall (λ l, hours_valid (layer_policy l)) layers →
  layers ≠ [] →
  resolve_effective_policy layers = Ok eff →
  admits (eff_policy eff) r →
  Forall (λ l, admits (layer_policy l) r) layers.
Proof.
  destruct layers as [|first rest]; [done|]. intros [Hf Hv]%Forall_cons _ H Ha.
  apply resolve_effective_policy_fold in H as [E _]. rewrite E in Ha.
  apply merge_layers_sound in Ha as [? ?]; auto.
Qed.

(** merging adds no restriction of its own: a request that names a model and
    a service and that every layer admits is admitted by the effective policy. *)
Theorem effective_policy_complete layers eff r :
  Forall (λ l, hours_valid (layer_policy l)) layers →
  layers ≠ [] →
  resolve_effective_policy layers = Ok eff →
  is_Some (feat_model (req_features r)) → is_Some (feat_service_name (req_features r)) →
  Forall (λ l, admits (layer_policy l) r) layers →
  admits (eff_policy eff) r.
Proof.
  destruct layers as [|first rest]; [done|]. intros [Hf Hv]%Forall_cons _ H Hm Hs.
  intros [Haf Har]%Forall_cons. apply resolve_effective_policy_fold in H as [-> _].
  by apply merge_layers_complete.
Qed.

Definition example_layer (kind : PolicyLayerKind) (p : KeyPolicy) : PolicyLayer :=
  {| layer_kind := kind; layer_scope_id := None; layer_policy := p;
     layer_guardrail_policy := GuardrailPolicy_default; layer_policy_version := 1 |}.
Definition example_layers : list PolicyLayer :=
  [example_layer LayerGlobal (neutral_layer 1); example_layer LayerKey KeyPolicy_default].
Definition example_effective : EffectivePolicy :=
  {| eff_policy := KeyPolicy_default; eff_guardrail_policy := GuardrailPolicy_default;
     applied_layers := layer_trace <$> example_layers |}.
Definition example_request : Request :=
  {| req_route := ChatCompletions; req_provider := LiteLlm;
     req_features := {| feat_model := Some "gpt-4o"; feat_stream := false;
                        feat_tools := false; feat_service_name := Some "s" |};
     req_now := 0; req_body_bytes := Some 10; req_response_bytes := None;
     req_input_tokens := None; req_output_tokens := None; req_cost := None |}.

Lemma effective_policy_sound_witness :
  resolve_effective_policy example_layers = Ok example_effective ∧
  Forall (λ l, admits (layer_policy l) example_request) example_layers.
Proof.
  split; [reflexivity|].
  apply (effective_policy_sound _ example_effective); [|done|reflexivity|split; reflexivity].
  repeat constructor.
Defined.

Lemma effective_policy_complete_witness :
  resolve_effective_policy example_layers = Ok example_effective ∧
  admits (eff_policy example_effective) example_request.
Proof.
  split; [reflexivity|].
  apply (effective_policy_complete example_layers);
    [repeat constructor|done|reflexivity|by eexists|by eexists|].
  repeat constructor.
Defined.

(** The integer caps and the money caps of a policy. *)
Definition int_caps : list (KeyPolicy → option Z) :=
  [rpm_limit; tpm_limit; max_requests_per_day; max_tokens_per_day;
   max_input_tokens_per_request; max_output_tokens_per_request;
   unused_key_auto_disable_after_days; max_request_body_bytes; max_response_body_bytes;
   max_stream_duration_seconds; max_sse_event_bytes; max_tool_call_count;
   max_tool_schema_bytes].
Definition money_caps : list (KeyPolicy → option f64) :=
  [daily_budget_usd; monthly_budget_usd; max_cost_per_request].

(** [cap_at_most e c]: whatever exceeds the cap [c] exceeds the cap [e]. *)
Definition cap_at_most (e c : option Z) : Prop :=
  ∀ v, exceeds (Some v) c = true → exceeds (Some v) e = true.
Definition money_at_most (e c : option f64) : Prop :=
  ∀ v, exceeds_f64 (Some v) c = true → exceeds_f64 (Some v) e = true.

Definition tighter (e p : KeyPolicy) : Prop :=
  Forall (λ cap, cap_at_most (cap e) (cap p)) int_caps ∧
  Forall (λ cap, money_at_most (cap e) (cap p)) money_caps.

#[global] Instance tighter_preorder : PreOrder tighter.
Proof.
  split.
  - intros p. split; apply Forall_forall; intros ? _ ?; done.
  - intros p q r [H1 H2] [H3 H4].
    split; apply Forall_forall; intros c Hc v Hv.
    + apply (proj1 (Forall_forall _ _) H1 c Hc), (proj1 (Forall_forall _ _) H3 c Hc), Hv.
    + apply (proj1 (Forall_forall _ _) H2 c Hc), (proj1 (Forall_forall _ _) H4 c Hc), Hv.
Qed.

Lemma merge_policy_tighter a b : tighter (merge_policy a b) a ∧ tighter (merge_policy a b) b.
Proof.
  open_merge. unfold tighter, cap_at_most, money_at_most.
  split; split; repeat (apply Forall_cons; split); try apply Forall_nil_2;
    cbn -[exceeds exceeds_f64 stricter stricter_f64]; intros v Hv;
    rewrite ?exceeds_stricter, ?exceeds_stricter_f64, Hv; auto using orb_true_r.
Qed.

Lemma merge_layers_tighter p rest :
  tighter (merge_layers p rest) p ∧
  Forall (λ l, tighter (merge_layers p rest) (layer_policy l)) rest.
Proof.
  revert p. induction rest as [|l rest IH]; intros p; simpl; [done|].
  destruct (IH (merge_policy p (layer_policy l))) as [H1 H2].
  destruct (merge_policy_tighter p (layer_policy l)) as [Ha Hb].
  split; [by etrans|]. constructor; [by etrans|done].
Qed.

(** every numeric cap of the effective policy (rates, budgets, body, stream,
    token, tool and cost limits) is at most the cap of each layer, and the
    trace lists the layers in the order they were applied. *)
Theorem effective_caps_tighter layers eff :
  layers ≠ [] →
  resolve_effective_policy layers = Ok eff →
  Forall (λ l, tighter (eff_policy eff) (layer_policy l)) layers ∧
  applied_layers eff = layer_trace <$> layers.
Proof.
  destruct layers as [|first rest]; [done|]. intros _ H.
  apply resolve_effective_policy_fold in H as [-> ->]. split; [|done].
  destruct (merge_layers_tighter (layer_policy first) rest). auto.
Qed.

Lemma effective_caps_tighter_witness :
  resolve_effective_policy example_layers = Ok example_effective ∧
  Forall (λ l, tighter (eff_policy example_effective) (layer_policy l)) example_layers ∧
  applied_layers example_effective = layer_trace <$> example_layers.
Proof. split; [reflexivity|]. apply effective_caps_tighter; [done|reflexivity]. Defined.

(** a neutral layer is neutral: merging [neutral_layer] after a policy changes
    nothing but the version, which becomes the larger one. *)
Theorem merge_policy_neutral p v :
  merge_policy p (neutral_layer v) =
  {| deny := deny p; allowed_routes := allowed_routes p; allowed_models := allowed_models p;
     allowed_providers := allowed_providers p; allowed_services := allowed_services p;
     rpm_limit := rpm_limit p; tpm_limit := tpm_limit p;
     daily_budget_usd := daily_budget_usd p; monthly_budget_usd := monthly_budget_usd p;
     allow_streaming := allow_streaming p; allow_tools := allow_tools p;
     max_requests_per_day := max_requests_per_day p; max_tokens_per_day := max_tokens_per_day p;
     max_cost_per_request := max_cost_per_request p;
     max_input_tokens_per_request := max_input_tokens_per_request p;
     max_output_tokens_per_request := max_output_tokens_per_request p;
     allowed_hours_utc := allowed_hours_utc p;
     unused_key_auto_disable_after_days := unused_key_auto_disable_after_days p;
     max_request_body_bytes := max_request_body_bytes p;
     max_response_body_bytes := max_response_body_bytes p;
     max_stream_duration_seconds := max_stream_duration_seconds p;
     max_sse_event_bytes := max_sse_event_bytes p;
     max_tool_call_count := max_tool_call_count p;
     max_tool_schema_bytes := max_tool_schema_bytes p;
     policy_version := Z.max (policy_version p) v |}.
Proof.
  unfold merge_policy. cbn -[stricter stricter_f64].
  assert (Hz : ∀ o, stricter o None = o) by (by intros []).
  assert (Hf : ∀ o, stricter_f64 o None = o) by (by intros []).
  by rewrite orb_false_r, !andb_true_r, !Hz, !Hf.
Qed.

(** ** Guardrail layers *)

Lemma elem_of_append_unique x target values :
  x ∈ append_unique target values ↔ x ∈ target ∨ x ∈ values.
Proof.
  unfold append_unique. revert target. induction values as [|v values IH]; intros target; simpl.
  - set_solver.
  - rewrite IH. destruct (str_mem v target) eqn:Hm.
    + apply str_mem_iff in Hm. set_solver.
    + set_solver.
Qed.

Lemma merge_guardrail_policy_spec a b g :
  merge_guardrail_policy a b = Ok g →
  (∀ x, x ∈ mandatory_guardrails g ↔ x ∈ mandatory_guardrails a ∨ x ∈ mandatory_guardrails b) ∧
  (∀ x, x ∈ forbidden_guardrails g ↔ x ∈ forbidden_guardrails a ∨ x ∈ forbidden_guardrails b) ∧
  (∀ x, x ∈ optional_guardrails g → x ∉ forbidden_guardrails g) ∧
  guardrail_policy_validate g = Ok tt.
Proof.
  unfold merge_guardrail_policy. intros H.
  destruct (guardrail_policy_validate _) as [[]|] eqn:Hv; [|done]. injection H as <-.
  split_and!; [| | |done]; simpl.
  - intros. apply elem_of_append_unique.
  - intros. apply elem_of_append_unique.
  - intros x Hx. rewrite list_elem_of_In, filter_In in Hx. destruct Hx as [_ Hx].
    apply negb_true_iff, str_mem_false in Hx. done.
Qed.

(** What a merged guardrail policy satisfies. *)
Definition guardrails_consistent (g : GuardrailPolicy) : Prop :=
  guardrail_policy_validate g = Ok tt ∧
  ∀ x, x ∈ optional_guardrails g → x ∉ forbidden_guardrails g.

Definition guardrails_extend (g g' : GuardrailPolicy) : Prop :=
  mandatory_guardrails g ⊆ mandatory_guardrails g' ∧
  forbidden_guardrails g ⊆ forbidden_guardrails g'.

#[global] Instance guardrails_extend_preorder : PreOrder guardrails_extend.
Proof. split; [done|]. intros x y z [? ?] [? ?]. split; by etrans. Qed.

Lemma merge_guardrails_fold (step := λ eff layer,
      let policy := merge_policy (eff_policy eff) (layer_policy layer) in
      let? guardrails :=
        merge_guardrail_policy (eff_guardrail_policy eff) (layer_guardrail_policy layer) in
      Ok {| eff_policy := policy; eff_guardrail_policy := guardrails;
            applied_layers := applied_layers eff ++ [layer_trace layer] |}) start rest eff :
  try_fold step start rest = Ok eff →
  guardrails_extend (eff_guardrail_policy start) (eff_guardrail_policy eff) ∧
  Forall (λ l, guardrails_extend (layer_guardrail_policy l) (eff_guardrail_policy eff)) rest ∧
  (guardrails_consistent (eff_guardrail_policy start) ∨ rest ≠ [] →
   guardrails_consistent (eff_guardrail_policy eff)).
Proof.
  revert start. induction rest as [|l rest IH]; intros start H; simpl in H.
  - injection H as <-. split_and!; [done|done|naive_solver].
  - unfold step in H at 1.
    destruct (merge_guardrail_policy _ _) as [g'|] eqn:Hg; [|done].
    apply IH in H as (Hst & Hrest & Hc). simpl in *.
    apply merge_guardrail_policy_spec in Hg as (Hmand & Hforb & Hopt & Hv).
    split_and!.
    + etrans; [|done]. split; set_solver.
    + constructor; [|done]. etrans; [|done]. split; set_solver.
    + intros _. apply Hc. left. split; done.
Qed.

(** guardrail obligations accumulate over the layers: every guardrail some
    layer makes mandatory or forbidden is so in the effective policy, and once
    two layers are merged the result is a valid policy in which no optional
    guardrail is forbidden. *)
Theorem effective_guardrails_accumulate first rest eff :
  resolve_effective_policy (first :: rest) = Ok eff →
  Forall (λ l, guardrails_extend (layer_guardrail_policy l) (eff_guardrail_policy eff))
    (first :: rest) ∧
  (rest ≠ [] → guardrails_consistent (eff_guardrail_policy eff)).
Proof.
  intros H. apply merge_guardrails_fold in H as (Hs & Hr & Hc). simpl in *.
  split; [by constructor|]. auto.
Qed.

Lemma effective_guardrails_accumulate_witness :
  resolve_effective_policy example_layers = Ok example_effective ∧
  guardrails_consistent (eff_guardrail_policy example_effective).
Proof.
  split; [reflexivity|].
  refine (proj2 (effective_guardrails_accumulate
    (example_layer LayerGlobal (neutral_layer 1))
    [example_layer LayerKey KeyPolicy_default] example_effective _) _); [reflexivity|done].
Defined.
