(* ===== verification/OutputLimits.v ===== *)
(** * Output limits: bounding paid generation before it starts

    Models the request-body part of [crates/gateway-core/src/policies.rs]:
    [enforce_output_token_limit] with [reject_provider_parameter_overrides]
    and [provider_output_maximum], and the feature extraction
    [analyze_generation_request].  The [serde_json] deserializers are the
    interface [SerdeJson]: the probes below are the structs the source
    derives [Deserialize] for.  A [u64] is an [N]. *)

From S2P Require Import Prelude Errors Routing Json GuardrailPolicy Policies.

Inductive OutputMaximum : Type := Missing | Tokens (value : N).

Record OutputMaximumProbe := {
  max_tokens : OutputMaximum;
  max_completion_tokens : OutputMaximum;
  max_output_tokens : OutputMaximum;
  probe_n : OutputMaximum
}.

(** [tools] and [functions] only matter through their lengths. *)
Record GenerationRequestProbe := {
  gp_model : option string;
  gp_stream : bool;
  gp_tools : option nat;
  gp_functions : option nat;
  gp_function_call : option Value;
  gp_tool_choice : option Value;
  gp_service : option string;
  gp_service_name : option string;
  gp_guardrails : option Value
}.

Record GenerationRequestAnalysis := {
  ga_features : GenerationFeatures;
  ga_client_guardrails : option Value
}.

(** [serde_json::from_slice] at the types the source uses; [None] is a parse
    error.  A batch is the raw bytes of its entries' [params]. *)
Class SerdeJson := {
  from_slice_value : string → option Value;
  from_slice_maximum_probe : string → option OutputMaximumProbe;
  from_slice_batch : string → option (list string);
  from_slice_extra_body : string → option (option JMap);
  from_slice_generation_probe : string → option GenerationRequestProbe
}.

Definition u64_limit : N := 18446744073709551615%N.
Definition u64_checked_add (a b : N) : option N :=
  if (a + b <=? u64_limit)%N then Some (a + b)%N else None.
Definition u64_checked_mul (a b : N) : option N :=
  if (a * b <=? u64_limit)%N then Some (a * b)%N else None.

Definition chat_fields : list string :=
  ["model"; "messages"; "stream"; "stream_options"; "max_tokens";
   "max_completion_tokens"; "max_output_tokens"; "n"; "temperature"; "top_p"; "stop";
   "frequency_penalty"; "presence_penalty"; "logit_bias"; "logprobs"; "top_logprobs";
   "seed"; "user"; "tools"; "tool_choice"; "functions"; "function_call";
   "parallel_tool_calls"; "response_format"; "metadata"; "store"; "reasoning_effort";
   "service_tier"; "modalities"; "audio"; "prediction"; "web_search_options";
   "verbosity"; "prompt_cache_key"; "safety_identifier"; "guardrails"; "extra_body"].
Definition responses_fields : list string :=
  ["model"; "input"; "instructions"; "stream"; "stream_options"; "max_output_tokens";
   "max_tool_calls"; "max_tokens"; "max_completion_tokens"; "n"; "temperature";
   "top_p"; "top_logprobs"; "tools"; "tool_choice"; "parallel_tool_calls"; "metadata";
   "store"; "reasoning"; "service_tier"; "truncation"; "include"; "text";
   "previous_response_id"; "conversation"; "background"; "prompt"; "user";
   "prompt_cache_key"; "safety_identifier"; "guardrails"; "extra_body"].
Definition messages_fields : list string :=
  ["model"; "messages"; "system"; "stream"; "max_tokens"; "max_completion_tokens";
   "max_output_tokens"; "n"; "temperature"; "top_p"; "top_k"; "stop_sequences";
   "metadata"; "tools"; "tool_choice"; "thinking"; "output_config"; "service_tier";
   "cache_control"; "container"; "context_management"; "guardrails"; "extra_body"].

(** The fields a capped request may carry, for routes with a wire contract. *)
Definition allowed_fields (route : Route) : option (list string) :=
  match route with
  | ChatCompletions => Some chat_fields
  | Responses => Some responses_fields
  | AnthropicMessages => Some messages_fields
  | _ => None
  end.

(** The maximum the provider will honour for the route. *)
Definition required_maximum (route : Route) (probe : OutputMaximumProbe) : option N :=
  match route with
  | ChatCompletions =>
      match max_completion_tokens probe, max_tokens probe with
      | Tokens value, _ | _, Tokens value => Some value
      | _, _ => None
      end
  | Responses => match max_output_tokens probe with Tokens value => Some value | _ => None end
  | AnthropicMessages => match max_tokens probe with Tokens value => Some value | _ => None end
  | _ => None
  end.

Definition conflicts (required : N) (field : OutputMaximum) : bool :=
  match field with Tokens value => negb (value =? required)%N | Missing => false end.

Section with_serde.
Context `{SerdeJson}.

Definition provider_output_maximum (route : Route) (body : string) : GatewayResult N :=
  let? allowed := ok_or (allowed_fields route) PolicyDenied in
  let? value := ok_or (from_slice_value body) PolicyDenied in
  if is_none_or (λ object, existsb (λ field : string * Value,
       negb (str_mem field.1 allowed)) object) (as_object value)
  then Err PolicyDenied
  else
    let? probe := ok_or (from_slice_maximum_probe body) PolicyDenied in
    let? required := ok_or (required_maximum route probe) PolicyDenied in
    if (required =? 0)%N then Err PolicyDenied
    else if existsb (conflicts required)
              [max_tokens probe; max_completion_tokens probe; max_output_tokens probe]
    then Err PolicyDenied
    else
      let count := match probe_n probe with Missing => 1%N | Tokens value => value end in
      if (count =? 0)%N || (negb (bool_decide (route = ChatCompletions)) && negb (count =? 1)%N)
      then Err PolicyDenied
      else ok_or (u64_checked_mul required count) PolicyDenied.

(** The checks on one request body; a batch applies them to each entry. *)
Definition reject_overrides_single (policy : KeyPolicy) (route : Route) (body : string) :
    GatewayResult unit :=
  let wildcard := bool_decide (route = LiteLlmPassthrough) in
  if wildcard && negb (is_some_and is_object (from_slice_value body)) then Ok tt
  else if negb wildcard
       && negb (bool_decide (route ∈ [ChatCompletions; Responses; AnthropicMessages;
                                      LiteLlmEmbeddings; LiteLlmRerank]))
  then Ok tt
  else
    let? probe := ok_or (from_slice_extra_body body) PolicyDenied in
    match probe with
    | None => Ok tt
    | Some extra =>
        if map_contains_key "model" extra then Err PolicyDenied
        else if wildcard then Ok tt
        else if (is_some (max_output_tokens_per_request policy)
                 && bool_decide (route ∈ [ChatCompletions; Responses; AnthropicMessages])
                 && negb (is_nil extra))
             || (negb (allow_streaming policy) && map_contains_key "stream" extra)
             || (negb (allow_tools policy)
                 && existsb (λ field, map_contains_key field extra)
                      ["tools"; "functions"; "tool_choice"; "function_call"])
        then Err PolicyDenied
        else Ok tt
    end.

Definition reject_provider_parameter_overrides (policy : KeyPolicy) (route : Route)
    (body : string) : GatewayResult unit :=
  if bool_decide (route = AnthropicMessageBatches) then
    let? entries := ok_or (from_slice_batch body) PolicyDenied in
    try_for_each (reject_overrides_single policy AnthropicMessages) entries
  else reject_overrides_single policy route body.

Definition batch_total (entries : list string) : GatewayResult N :=
  try_fold (λ total params,
    let? maximum := provider_output_maximum AnthropicMessages params in
    ok_or (u64_checked_add total maximum) PolicyDenied) 0%N entries.

Definition enforce_output_token_limit (policy : KeyPolicy) (route : Route) (body : string) :
    GatewayResult unit :=
  check? reject_provider_parameter_overrides policy route body in
  match max_output_tokens_per_request policy with
  | None => Ok tt
  | Some limit =>
      if bool_decide (route ∈ [LiteLlmEmbeddings; LiteLlmRerank;
                               AnthropicMessagesCountTokens; AnthropicModels])
      then Ok tt
      else if limit <? 0 then Err PolicyDenied
      else
        let? maximum :=
          if bool_decide (route = AnthropicMessageBatches) then
            let? entries := ok_or (from_slice_batch body) PolicyDenied in
            if is_nil entries then Err PolicyDenied else batch_total entries
          else provider_output_maximum route body in
        if (Z.to_N limit <? maximum)%N then Err PolicyDenied else Ok tt
  end.

(** ** Request features *)

Definition explicit_tool_selection (value : Value) : bool :=
  is_object value
  || is_some_and (λ s, negb (String.eqb s "none") && negb (String.eqb s "auto")) (as_str value).

Definition non_empty (o : option string) : option string := opt_filter (λ s, negb (is_empty s)) o.

Definition analyze_generation_request (body : string) : option GenerationRequestAnalysis :=
  probe ← from_slice_generation_probe body;
  let service_name :=
    match non_empty (gp_service probe) with
    | Some s => Some s
    | None => non_empty (gp_service_name probe)
    end in
  Some {| ga_features :=
            {| feat_model := non_empty (gp_model probe);
               feat_stream := gp_stream probe;
               feat_tools :=
                 is_some_and (λ n, negb (Nat.eqb n 0)) (gp_tools probe)
                 || is_some_and (λ n, negb (Nat.eqb n 0)) (gp_functions probe)
                 || is_some_and explicit_tool_selection (gp_function_call probe)
                 || is_some_and explicit_tool_selection (gp_tool_choice probe);
               feat_service_name := service_name |};
          ga_client_guardrails := gp_guardrails probe |}.

Definition extract_generation_features (body : string) : GenerationFeatures :=
  match analyze_generation_request body with
  | Some analysis => ga_features analysis
  | None => GenerationFeatures_default
  end.
End with_serde.

(** ** Properties *)

Lemma ok_or_ok {E A} (o : option A) (e : E) a : ok_or o e = Ok a ↔ o = Some a.
Proof. destruct o; simpl; naive_solver. Qed.

(** What a provider will generate at most for an accepted request body: the
    declared maximum times the number of completions. *)
Definition generation_bound `{SerdeJson} (route : Route) (body : string) (bound : N) : Prop :=
  ∃ probe required count,
    from_slice_maximum_probe body = Some probe ∧
    required_maximum route probe = Some required ∧ (0 < required)%N ∧
    Forall (λ field, field = Missing ∨ field = Tokens required)
      [max_tokens probe; max_completion_tokens probe; max_output_tokens probe] ∧
    (probe_n probe = Missing ∧ count = 1%N ∨ probe_n probe = Tokens count) ∧
    (0 < count)%N ∧ (route ≠ ChatCompletions → count = 1%N) ∧
    bound = (required * count)%N ∧ (bound <= u64_limit)%N.

Lemma conflicts_false required field :
  conflicts required field = false ↔ field = Missing ∨ field = Tokens required.
Proof.
  destruct field as [|v]; simpl; [naive_solver|].
  rewrite negb_false_iff, N.eqb_eq. naive_solver.
Qed.

Section properties.
Context `{SerdeJson}.

Lemma provider_output_maximum_bound route body bound :
  provider_output_maximum route body = Ok bound → generation_bound route body bound.
Proof.
  unfold provider_output_maximum. intros H1.
  destruct (ok_or (allowed_fields route) _) as [allowed|] eqn:Ha; [|done].
  destruct (ok_or (from_slice_value body) _) as [value|] eqn:Hv; [|done].
  apply guard_ok in H1 as [_ H1].
  destruct (ok_or (from_slice_maximum_probe body) _) as [probe|] eqn:Hp; [|done].
  destruct (ok_or (required_maximum route probe) _) as [required|] eqn:Hr; [|done].
  apply guard_ok in H1 as [Hz H1]. apply guard_ok in H1 as [Hc H1].
  apply guard_ok in H1 as [Hn H1]. apply ok_or_ok in Hp, Hr, H1.
  apply orb_false_iff in Hn as [Hn0 Hn1]. apply N.eqb_neq in Hz, Hn0.
  exists probe, required, (match probe_n probe with Missing => 1%N | Tokens v => v end).
  unfold u64_checked_mul in H1. case_match eqn:Hle; [|done]. apply N.leb_le in Hle.
  injection H1 as <-. split_and!; try done; try lia.
  - simpl in Hc. rewrite !orb_false_iff, !conflicts_false in Hc.
    rewrite !Forall_cons. split_and!; try tauto. constructor.
  - destruct (probe_n probe); auto.
  - intros Hne. rewrite bool_decide_eq_false_2 in Hn1 by done. simpl in Hn1.
    by apply negb_false_iff, N.eqb_eq in Hn1.
Qed.

(** Under a cap nothing can be smuggled past the recognised fields. *)
Lemma provider_output_maximum_fields route body bound :
  provider_output_maximum route body = Ok bound →
  ∃ allowed object, allowed_fields route = Some allowed ∧
    from_slice_value body = Some (JObject object) ∧
    ∀ field, field ∈ object.*1 → field ∈ allowed.
Proof.
  unfold provider_output_maximum. intros H1.
  destruct (ok_or (allowed_fields route) _) as [allowed|] eqn:Ha; [|done].
  destruct (ok_or (from_slice_value body) _) as [value|] eqn:Hv; [|done].
  apply guard_ok in H1 as [Hf _]. apply ok_or_ok in Ha, Hv.
  destruct value as [| | | | |object]; simpl in Hf; try done.
  exists allowed, object. split_and!; [done|done|].
  intros field ([f v] & -> & Hin)%list_elem_of_fmap.
  destruct (str_mem f allowed) eqn:Hm; [by apply str_mem_iff|].
  assert (existsb (λ field : string * Value, negb (str_mem field.1 allowed)) object = true)
    as Hx; [|congruence].
  apply existsb_exists. exists (f, v). split; [by apply list_elem_of_In|].
  simpl. by rewrite Hm.
Qed.

Lemma reject_single_no_extra policy route body limit :
  max_output_tokens_per_request policy = Some limit →
  route ∈ [ChatCompletions; Responses; AnthropicMessages] →
  reject_overrides_single policy route body = Ok tt →
  from_slice_extra_body body = Some None ∨ from_slice_extra_body body = Some (Some []).
Proof.
  intros Hl Hr. unfold reject_overrides_single.
  rewrite (bool_decide_eq_false_2 (route = LiteLlmPassthrough)) by (intros ->; set_solver).
  rewrite (bool_decide_eq_true_2 (route ∈ [ChatCompletions; Responses; AnthropicMessages;
             LiteLlmEmbeddings; LiteLlmRerank])) by set_solver.
  rewrite (bool_decide_eq_true_2 (route ∈ [ChatCompletions; Responses; AnthropicMessages]))
    by done.
  rewrite Hl. simpl. intros H1.
  destruct (from_slice_extra_body body) as [[extra|]|]; simpl in H1; [|auto|done].
  apply guard_ok in H1 as [_ H1]. apply guard_ok in H1 as [H1 _].
  destruct extra; [auto|done].
Qed.

Lemma batch_total_sum entries total :
  batch_total entries = Ok total →
  ∃ bounds, Forall2 (generation_bound AnthropicMessages) entries bounds ∧
    total = foldr N.add 0%N bounds.
Proof.
  unfold batch_total.
  assert (∀ start, try_fold (λ total params,
      let? maximum := provider_output_maximum AnthropicMessages params in
      ok_or (u64_checked_add total maximum) PolicyDenied) start entries = Ok total →
    ∃ bounds, Forall2 (generation_bound AnthropicMessages) entries bounds ∧
      total = (start + foldr N.add 0%N bounds)%N) as Hgen.
  { induction entries as [|e entries IH]; intros start H1; simpl in H1.
    - injection H1 as <-. exists []. split; [constructor|by rewrite N.add_0_r].
    - destruct (provider_output_maximum _ e) as [m|] eqn:Hm; [|done].
      destruct (u64_checked_add start m) as [s|] eqn:Hs; [|done]. simpl in H1.
      unfold u64_checked_add in Hs. destruct (_ <=? _)%N; [|done]. injection Hs as <-.
      apply IH in H1 as (bounds & Hb & ->). exists (m :: bounds). split; [|cbn [foldr]; by rewrite N.add_assoc].
      constructor; [by apply provider_output_maximum_bound|done]. }
  intros H1. apply Hgen in H1 as (bounds & ? & ->). exists bounds. split; [done|by rewrite N.add_0_l].
Qed.

(** a key's output cap bounds paid work: when a chat, responses or messages
    request is accepted under a cap, the body declares a positive maximum,
    all recognised maxima agree, maximum times completions is at most the
    cap, only known fields occur and no provider-specific extension is
    present. *)
Theorem enforced_request_within_cap policy route body limit :
  max_output_tokens_per_request policy = Some limit →
  route ∈ [ChatCompletions; Responses; AnthropicMessages] →
  enforce_output_token_limit policy route body = Ok tt →
  (∃ bound, generation_bound route body bound ∧ Z.of_N bound ≤ limit) ∧
  (∃ allowed object, allowed_fields route = Some allowed ∧
     from_slice_value body = Some (JObject object) ∧
     ∀ field, field ∈ object.*1 → field ∈ allowed) ∧
  (from_slice_extra_body body = Some None ∨ from_slice_extra_body body = Some (Some [])).
Proof.
  intros Hl Hr. unfold enforce_output_token_limit, reject_provider_parameter_overrides.
  rewrite Hl, (bool_decide_eq_false_2 (route = AnthropicMessageBatches))
    by (intros ->; set_solver).
  rewrite bool_decide_eq_false_2 by set_solver.
  destruct (reject_overrides_single _ _ _) as [[]|] eqn:Hrej; [|done].
  rewrite guard_ok. intros [Hneg H1]. apply Z.ltb_ge in Hneg.
  destruct (provider_output_maximum route body) as [bound|] eqn:Hb; [|done].
  apply guard_ok in H1 as [Hle _]. apply N.ltb_ge in Hle. split_and!.
  - exists bound. split; [by apply provider_output_maximum_bound|lia].
  - by eapply provider_output_maximum_fields.
  - by eapply reject_single_no_extra.
Qed.

(** a message batch is bounded as a whole: an accepted batch is non-empty
    and the sum of its entries' bounds is at most the cap, with no 64-bit
    overflow on the way. *)
Theorem enforced_batch_within_cap policy body limit :
  max_output_tokens_per_request policy = Some limit →
  enforce_output_token_limit policy AnthropicMessageBatches body = Ok tt →
  ∃ entries bounds, from_slice_batch body = Some entries ∧ entries ≠ [] ∧
    Forall2 (generation_bound AnthropicMessages) entries bounds ∧
    Z.of_N (foldr N.add 0%N bounds) ≤ limit.
Proof.
  intros Hl. unfold enforce_output_token_limit.
  destruct (reject_provider_parameter_overrides _ _ _) as [[]|]; [|done].
  rewrite Hl, bool_decide_eq_false_2 by set_solver. rewrite guard_ok.
  rewrite bool_decide_eq_true_2 by done. intros [Hneg H1]. apply Z.ltb_ge in Hneg.
  destruct (from_slice_batch body) as [entries|] eqn:Hbatch; [|done]. cbn [ok_or] in H1.
  destruct (is_nil entries) eqn:Hnil; [done|].
  destruct (batch_total _) as [total|] eqn:Ht; [|done].
  apply guard_ok in H1 as [Hle _]. apply N.ltb_ge in Hle.
  apply batch_total_sum in Ht as (bounds & Hb & ->).
  exists entries, bounds. split_and!; [done|by intros ->|done|lia].
Qed.

(** no contract, no paid work: under a cap every route whose wire format has
    no proven output bound (services, wildcards, direct providers, batch
    retrieval) is denied, whatever the body. *)
Theorem capped_unbounded_routes_denied policy route body limit :
  max_output_tokens_per_request policy = Some limit →
  route ∉ [ChatCompletions; Responses; AnthropicMessages; AnthropicMessageBatches;
           LiteLlmEmbeddings; LiteLlmRerank; AnthropicMessagesCountTokens; AnthropicModels] →
  enforce_output_token_limit policy route body = Err PolicyDenied.
Proof.
  intros Hl Hr. unfold enforce_output_token_limit.
  destruct (reject_provider_parameter_overrides policy route body) as [[]|e] eqn:Hrej.
  - rewrite Hl, bool_decide_eq_false_2 by set_solver.
    case_match; [done|]. rewrite bool_decide_eq_false_2 by (intros ->; set_solver).
    by destruct route; try (exfalso; set_solver).
  - unfold reject_provider_parameter_overrides, reject_overrides_single in Hrej.
    rewrite bool_decide_eq_false_2 in Hrej by (intros ->; set_solver).
    repeat case_match; simplify_eq; auto.
    by destruct (from_slice_extra_body body); simplify_eq/=.
Qed.
End properties.

(** A toy deserializer: the body text names the document. *)
Definition example_serde : SerdeJson :=
  {| from_slice_value := λ _, Some (JObject [("max_tokens", JNumber (PosInt 100))]);
     from_slice_maximum_probe := λ _,
       Some {| max_tokens := Tokens 100; max_completion_tokens := Missing;
               max_output_tokens := Missing; probe_n := Missing |};
     from_slice_batch := λ _, Some ["a"; "b"];
     from_slice_extra_body := λ _, Some None;
     from_slice_generation_probe := λ _, None |}.
Definition capped_policy : KeyPolicy := merge_policy (neutral_layer 1)
  {| deny := false; allowed_routes := []; allowed_models := []; allowed_providers := [];
     allowed_services := []; rpm_limit := None; tpm_limit := None; daily_budget_usd := None;
     monthly_budget_usd := None; allow_streaming := true; allow_tools := true;
     max_requests_per_day := None; max_tokens_per_day := None; max_cost_per_request := None;
     max_input_tokens_per_request := None; max_output_tokens_per_request := Some 200;
     allowed_hours_utc := []; unused_key_auto_disable_after_days := None;
     max_request_body_bytes := None; max_response_body_bytes := None;
     max_stream_duration_seconds := None; max_sse_event_bytes := None;
     max_tool_call_count := None; max_tool_schema_bytes := None; policy_version := 1 |}.

Lemma enforced_request_within_cap_witness :
  @enforce_output_token_limit example_serde capped_policy ChatCompletions "x" = Ok tt ∧
  ∃ bound, @generation_bound example_serde ChatCompletions "x" bound ∧ Z.of_N bound ≤ 200.
Proof.
  split; [reflexivity|].
  refine (proj1 (@enforced_request_within_cap example_serde capped_policy ChatCompletions "x" 200
    _ _ _)); [reflexivity|set_solver|reflexivity].
Defined.

Lemma enforced_batch_within_cap_witness :
  @enforce_output_token_limit example_serde capped_policy AnthropicMessageBatches "x" = Ok tt ∧
  ∃ entries bounds, @from_slice_batch example_serde "x" = Some entries ∧ entries ≠ [] ∧
    Forall2 (@generation_bound example_serde AnthropicMessages) entries bounds ∧
    Z.of_N (foldr N.add 0%N bounds) ≤ 200.
Proof.
  split; [reflexivity|].
  apply (@enforced_batch_within_cap example_serde capped_policy); reflexivity.
Defined.

Lemma capped_unbounded_routes_denied_witness :
  @enforce_output_token_limit example_serde capped_policy ServiceWildcard "x" = Err PolicyDenied.
Proof.
  apply (@capped_unbounded_routes_denied example_serde capped_policy ServiceWildcard "x" 200);
    [reflexivity|]. set_solver.
Defined.
