(* ===== verification/BodyAdmission.v ===== *)
(** * Body admission: bounding the memory held by buffered request bodies

    Models [crates/gateway-proxy/src/body_admission.rs]: the controller state
    shared by all requests, the lease each request owns, every method that
    changes them, and [Drop].  Telemetry calls are omitted.

    The shared counters are two atomics and one mutex-protected record, so
    the methods are decomposed into the atomic actions [step] on which
    concurrent requests interleave; [reachable] closes the initial state
    under them.  The theorems are about all reachable states. *)

From S2P Require Import Prelude Errors.

Definition DEFAULT_MAX_BUFFERED_REQUESTS : Z := 8.
Definition DEFAULT_MAX_INFLIGHT_BUFFER_BYTES : Z := 512 * 1024 * 1024.
Definition SMALL_BODY_MAX_BYTES : Z := 256 * 1024.
Definition REQUEST_WORKING_OVERHEAD : Z := 64 * 1024.

Record SizeAwareBodyPolicy := {
  max_working_bytes : Z;
  elastic_max_requests : option Z;
  reserved_small_requests : Z;
  workspace_multiplier : Z;
  upload_timeout : Z
}.

Definition small_reserve (p : SizeAwareBodyPolicy) : option Z :=
  checked_mul SMALL_BODY_MAX_BYTES (1 + workspace_multiplier p) ≫= λ b,
  checked_add b REQUEST_WORKING_OVERHEAD ≫= λ b,
  checked_mul b (reserved_small_requests p).

Definition policy_validate (p : SizeAwareBodyPolicy) (max_requests : Z) : GatewayResult unit :=
  if (max_working_bytes p =? 0)
     || is_some_and (λ limit, limit <? max_requests) (elastic_max_requests p)
     || (max_requests <=? reserved_small_requests p)
     || negb (in_range 1 16 (workspace_multiplier p))
     || (upload_timeout p =? 0)
     || (600 * nanos_per_sec <? upload_timeout p)
     || is_none_or (λ bytes, max_working_bytes p <=? bytes) (small_reserve p)
  then Err InvalidConfiguration
  else Ok tt.

Record WorkingSet := { ws_bytes : Z; ws_large_bytes : Z; ws_large_requests : Z }.

Record BodyAdmissionState := {
  configured_max_requests : Z;
  max_requests : Z;
  max_bytes : Z;
  active_requests : Z;
  active_bytes : Z;
  size_policy : option SizeAwareBodyPolicy;
  working : WorkingSet
}.

Record BodyAdmissionLease := {
  reserved_bytes : Z;
  admitted_at : Z;
  expected_length : option Z;
  allocation_capacity : Z;
  rewrite_capacity : Z;
  working_bytes : Z;
  extent : Z;
  processing : bool;
  compact_workspace : bool;
  large : bool
}.

Definition set_active_requests (n : Z) (st : BodyAdmissionState) : BodyAdmissionState :=
  {| configured_max_requests := configured_max_requests st; max_requests := max_requests st;
     max_bytes := max_bytes st; active_requests := n; active_bytes := active_bytes st;
     size_policy := size_policy st; working := working st |}.
Definition set_active_bytes (n : Z) (st : BodyAdmissionState) : BodyAdmissionState :=
  {| configured_max_requests := configured_max_requests st; max_requests := max_requests st;
     max_bytes := max_bytes st; active_requests := active_requests st; active_bytes := n;
     size_policy := size_policy st; working := working st |}.
Definition set_working (w : WorkingSet) (st : BodyAdmissionState) : BodyAdmissionState :=
  {| configured_max_requests := configured_max_requests st; max_requests := max_requests st;
     max_bytes := max_bytes st; active_requests := active_requests st;
     active_bytes := active_bytes st; size_policy := size_policy st; working := w |}.

Definition set_reserved (n : Z) (l : BodyAdmissionLease) : BodyAdmissionLease :=
  {| reserved_bytes := n; admitted_at := admitted_at l; expected_length := expected_length l;
     allocation_capacity := allocation_capacity l; rewrite_capacity := rewrite_capacity l;
     working_bytes := working_bytes l; extent := extent l; processing := processing l;
     compact_workspace := compact_workspace l; large := large l |}.
Definition set_charge (charge : Z) (is_large : bool) (l : BodyAdmissionLease) : BodyAdmissionLease :=
  {| reserved_bytes := reserved_bytes l; admitted_at := admitted_at l;
     expected_length := expected_length l; allocation_capacity := allocation_capacity l;
     rewrite_capacity := rewrite_capacity l; working_bytes := charge; extent := extent l;
     processing := processing l; compact_workspace := compact_workspace l; large := is_large |}.
Definition set_buffer (capacity ext : Z) (l : BodyAdmissionLease) : BodyAdmissionLease :=
  {| reserved_bytes := reserved_bytes l; admitted_at := admitted_at l;
     expected_length := expected_length l; allocation_capacity := capacity;
     rewrite_capacity := rewrite_capacity l; working_bytes := working_bytes l; extent := ext;
     processing := processing l; compact_workspace := compact_workspace l; large := large l |}.
Definition set_rewrite (capacity : Z) (l : BodyAdmissionLease) : BodyAdmissionLease :=
  {| reserved_bytes := reserved_bytes l; admitted_at := admitted_at l;
     expected_length := expected_length l; allocation_capacity := allocation_capacity l;
     rewrite_capacity := capacity; working_bytes := working_bytes l; extent := extent l;
     processing := processing l; compact_workspace := compact_workspace l; large := large l |}.
Definition set_processing (b : bool) (l : BodyAdmissionLease) : BodyAdmissionLease :=
  {| reserved_bytes := reserved_bytes l; admitted_at := admitted_at l;
     expected_length := expected_length l; allocation_capacity := allocation_capacity l;
     rewrite_capacity := rewrite_capacity l; working_bytes := working_bytes l; extent := extent l;
     processing := b; compact_workspace := compact_workspace l; large := large l |}.
Definition set_compact (b : bool) (l : BodyAdmissionLease) : BodyAdmissionLease :=
  {| reserved_bytes := reserved_bytes l; admitted_at := admitted_at l;
     expected_length := expected_length l; allocation_capacity := allocation_capacity l;
     rewrite_capacity := rewrite_capacity l; working_bytes := working_bytes l; extent := extent l;
     processing := processing l; compact_workspace := b; large := large l |}.

(** ** Controller construction *)

Definition with_size_policy (max_req max_byt : Z) (policy : option SizeAwareBodyPolicy) :
    GatewayResult BodyAdmissionState :=
  if (max_req =? 0) || (max_byt =? 0) then Err InvalidConfiguration
  else
    check? match policy with
           | Some p => policy_validate p max_req
           | None => Ok tt
           end in
    Ok {| configured_max_requests := max_req;
          max_requests := default max_req (policy ≫= elastic_max_requests);
          max_bytes := max_byt;
          active_requests := 0;
          active_bytes := 0;
          size_policy := policy;
          working := {| ws_bytes := 0; ws_large_bytes := 0; ws_large_requests := 0 |} |}.

Definition controller_new (max_req max_byt : Z) : GatewayResult BodyAdmissionState :=
  with_size_policy max_req max_byt None.

(** ** The bounded counter

    [observed] lists the counter values seen by failed (possibly spuriously
    failed) compare-and-swap attempts; the attempt after the last one
    succeeds, at the value it saw.  The result is the value stored. *)
Fixpoint increment_bounded (observed : list Z) (current amount maximum : Z) : option Z :=
  match checked_add current amount with
  | None => None
  | Some next =>
      if maximum <? next then None
      else match observed with
           | [] => Some next
           | seen :: observed => increment_bounded observed seen amount maximum
           end
  end.

(** ** Lease operations

    An operation returns the shared state, the lease and its outcome. *)

Definition outcome : Type := BodyAdmissionState * BodyAdmissionLease * GatewayResult unit.

(** The charge [update_working] computes for a lease. *)
Definition working_charge (p : SizeAwareBodyPolicy) (l : BodyAdmissionLease)
    (length capacity : Z) (proc : bool) : option Z :=
  (if proc || compact_workspace l then
     checked_mul (Z.max length (rewrite_capacity l)) (workspace_multiplier p) ≫= λ bytes,
     Some (if proc then bytes else Z.min bytes (64 * 1024))
   else Some 0) ≫= λ workspace,
  checked_add workspace (Z.max capacity length) ≫= λ bytes,
  checked_add bytes (rewrite_capacity l) ≫= λ bytes,
  checked_add bytes REQUEST_WORKING_OVERHEAD.

(** Fits the shared working set under the policy's three bounds. *)
Definition working_rejected (p : SizeAwareBodyPolicy) (max_req : Z)
    (next_bytes next_large_bytes : option Z) (next_large_requests : Z) : bool :=
  is_none_or (λ bytes, max_working_bytes p <? bytes) next_bytes
  || is_none_or (λ bytes, max_working_bytes p - default 0 (small_reserve p) <? bytes)
       next_large_bytes
  || (max_req - reserved_small_requests p <? next_large_requests).

Definition update_working (st : BodyAdmissionState) (l : BodyAdmissionLease)
    (length capacity : Z) (is_large proc : bool) : outcome :=
  match size_policy st with
  | None => (st, l, Ok tt)
  | Some p =>
      let is_large := is_large || (SMALL_BODY_MAX_BYTES <? rewrite_capacity l) in
      match working_charge p l length capacity proc with
      | None => (st, l, Err GatewayOverloaded)
      | Some charge =>
          if (charge =? working_bytes l) && Bool.eqb is_large (large l) then (st, l, Ok tt)
          else
            let w := working st in
            let next_bytes :=
              checked_sub (ws_bytes w) (working_bytes l) ≫= λ v, checked_add v charge in
            let next_large_bytes :=
              checked_sub (ws_large_bytes w) (if large l then working_bytes l else 0) ≫= λ v,
              checked_add v (if is_large then charge else 0) in
            let next_large_requests :=
              ws_large_requests w - (if large l then 1 else 0) + (if is_large then 1 else 0) in
            if working_rejected p (max_requests st) next_bytes next_large_bytes
                 next_large_requests
            then (st, l, Err GatewayOverloaded)
            else
              (set_working {| ws_bytes := default 0 next_bytes;
                              ws_large_bytes := default 0 next_large_bytes;
                              ws_large_requests := next_large_requests |} st,
               set_charge charge is_large l, Ok tt)
      end
  end.

Definition prepare_buffer (st : BodyAdmissionState) (l : BodyAdmissionLease)
    (length capacity : Z) : outcome :=
  let capacity := Z.max (allocation_capacity l) capacity in
  let ext := Z.max length (default 0 (expected_length l)) in
  let is_large := is_none (expected_length l) || (SMALL_BODY_MAX_BYTES <? ext) in
  match update_working st l ext capacity is_large (processing l) with
  | (st, l, Ok _) => (st, set_buffer capacity ext l, Ok tt)
  | (st, l, Err e) => (st, l, Err e)
  end.

Definition begin_processing (st : BodyAdmissionState) (l : BodyAdmissionLease) : outcome :=
  match update_working st l (extent l) (allocation_capacity l) (large l) true with
  | (st, l, Ok _) => (st, set_processing true l, Ok tt)
  | (st, l, Err e) => (st, l, Err e)
  end.

Definition prepare_rewrite (st : BodyAdmissionState) (l : BodyAdmissionLease)
    (capacity : Z) : outcome :=
  let previous := rewrite_capacity l in
  let l := set_rewrite (Z.max previous capacity) l in
  match update_working st l (extent l) (allocation_capacity l) (large l) true with
  | (st, l, Err e) => (st, set_rewrite previous l, Err e)
  | (st, l, Ok _) => (st, set_processing true l, Ok tt)
  end.

Definition not_elastic (st : BodyAdmissionState) : bool :=
  is_none_or (λ p, is_none (elastic_max_requests p)) (size_policy st).

Definition retain_compact_workspace (st : BodyAdmissionState) (l : BodyAdmissionLease) : outcome :=
  if not_elastic st then (st, l, Ok tt)
  else
    let previous := compact_workspace l in
    let l := set_compact true l in
    match update_working st l (extent l) (allocation_capacity l) (large l) false with
    | (st, l, Err e) => (st, set_compact previous l, Err e)
    | (st, l, Ok _) => (st, set_processing false l, Ok tt)
    end.

Definition try_reserve (st : BodyAdmissionState) (l : BodyAdmissionLease)
    (additional : Z) : outcome :=
  if additional =? 0 then (st, l, Ok tt)
  else match increment_bounded [] (active_bytes st) additional (max_bytes st) with
       | None => (st, l, Err GatewayOverloaded)
       | Some next =>
           (set_active_bytes next st,
            set_reserved (saturating_add (reserved_bytes l) additional) l, Ok tt)
       end.

Definition fresh_lease (st : BodyAdmissionState) (now : Z) (expected : option Z) :
    BodyAdmissionLease :=
  {| reserved_bytes := 0; admitted_at := now; expected_length := expected;
     allocation_capacity := 0; rewrite_capacity := 0; working_bytes := 0; extent := 0;
     processing := not_elastic st; compact_workspace := false; large := false |}.

(** [Drop]: the three shared updates, in order. *)
Definition drop_working (st : BodyAdmissionState) (l : BodyAdmissionLease) : BodyAdmissionState :=
  if 0 <? working_bytes l then
    let w := working st in
    set_working
      {| ws_bytes := ws_bytes w - working_bytes l;
         ws_large_bytes := if large l then ws_large_bytes w - working_bytes l
                           else ws_large_bytes w;
         ws_large_requests := if large l then ws_large_requests w - 1
                              else ws_large_requests w |} st
  else st.
Definition drop_bytes (st : BodyAdmissionState) (l : BodyAdmissionLease) : BodyAdmissionState :=
  if 0 <? reserved_bytes l then set_active_bytes (active_bytes st - reserved_bytes l) st else st.
Definition drop_request (st : BodyAdmissionState) : BodyAdmissionState :=
  set_active_requests (active_requests st - 1) st.
Definition drop_lease (st : BodyAdmissionState) (l : BodyAdmissionLease) : BodyAdmissionState :=
  drop_request (drop_bytes (drop_working st l) l).

Definition try_acquire_sized (st : BodyAdmissionState) (now : Z) (expected : option Z) :
    BodyAdmissionState * GatewayResult BodyAdmissionLease :=
  match increment_bounded [] (active_requests st) 1 (max_requests st) with
  | None => (st, Err GatewayOverloaded)
  | Some next =>
      let st := set_active_requests next st in
      match prepare_buffer st (fresh_lease st now expected) 0 0 with
      | (st, l, Ok _) => (st, Ok l)
      | (st, l, Err e) => (drop_lease st l, Err e)
      end
  end.

Definition try_acquire (st : BodyAdmissionState) (now : Z) :
    BodyAdmissionState * GatewayResult BodyAdmissionLease :=
  try_acquire_sized st now None.

(** The part of [into_bytes] after the byte reservation. *)
Definition settle_body (st : BodyAdmissionState) (l : BodyAdmissionLease) (body_len : Z) : outcome :=
  let l := set_compact false l in
  let retained :=
    if 0 <? rewrite_capacity l then rewrite_capacity l else allocation_capacity l in
  let l := set_rewrite 0 l in
  update_working st l body_len (Z.max retained body_len) (SMALL_BODY_MAX_BYTES <? body_len) false.

(** [into_bytes] consumes the lease: on success it lives on with the body, on
    failure it is dropped. *)
Definition into_bytes (st : BodyAdmissionState) (l : BodyAdmissionLease) (body_len : Z) :
    BodyAdmissionState * GatewayResult BodyAdmissionLease :=
  match try_reserve st l (saturating_sub body_len (reserved_bytes l)) with
  | (st, l, Err e) => (drop_lease st l, Err e)
  | (st, l, Ok _) =>
      match settle_body st l body_len with
      | (st, l, Ok _) => (st, Ok l)
      | (st, l, Err e) => (drop_lease st l, Err e)
      end
  end.

Definition upload_remaining (st : BodyAdmissionState) (l : BodyAdmissionLease) (now : Z) :
    option Z :=
  (λ p, saturating_sub (upload_timeout p) (duration_since now (admitted_at l))) <$> size_policy st.

(** ** Interleaving *)

Inductive action : Type :=
| APrepare (length capacity : Z)
| ABegin
| ARewrite (capacity : Z)
| ACompact
| AReserve (additional : Z)
| ASettle (body_len : Z).

Definition action_args (a : action) : list Z :=
  match a with
  | APrepare length capacity => [length; capacity]
  | ABegin | ACompact => []
  | ARewrite capacity => [capacity]
  | AReserve additional => [additional]
  | ASettle body_len => [body_len]
  end.

Definition run_action (a : action) (st : BodyAdmissionState) (l : BodyAdmissionLease) : outcome :=
  match a with
  | APrepare length capacity => prepare_buffer st l length capacity
  | ABegin => begin_processing st l
  | ARewrite capacity => prepare_rewrite st l capacity
  | ACompact => retain_compact_workspace st l
  | AReserve additional => try_reserve st l additional
  | ASettle body_len => settle_body st l body_len
  end.

Definition System : Type := BodyAdmissionState * gmap nat BodyAdmissionLease.

(** The value the successful compare-and-swap was applied to. *)
Definition last_seen (current : Z) (observed : list Z) : Z := default current (last observed).

(** One atomic action of one request. *)
Inductive step : System → System → Prop :=
| step_admit st ls id now expected current observed next :
    ls !! id = None →
    is_none_or (Z.leb 0) expected = true →
    last_seen current observed = active_requests st →
    increment_bounded observed current 1 (max_requests st) = Some next →
    step (st, ls)
      (set_active_requests next st,
       <[id := fresh_lease (set_active_requests next st) now expected]> ls)
| step_action st ls id l a st' l' r :
    ls !! id = Some l →
    Forall (Z.le 0) (action_args a) →
    run_action a st l = (st', l', r) →
    step (st, ls) (st', <[id := l']> ls)
| step_drop_working st ls id l :
    ls !! id = Some l →
    step (st, ls) (drop_working st l, <[id := set_charge 0 false l]> ls)
| step_drop_bytes st ls id l :
    ls !! id = Some l →
    step (st, ls) (drop_bytes st l, <[id := set_reserved 0 l]> ls)
| step_drop_request st ls id l :
    ls !! id = Some l → working_bytes l = 0 → reserved_bytes l = 0 →
    step (st, ls) (drop_request st, delete id ls).

Definition initial (s : System) : Prop :=
  ∃ max_req max_byt policy st,
    0 ≤ max_req ≤ usize_max ∧ 0 ≤ max_byt ≤ usize_max ∧
    (∀ p, policy = Some p → 0 ≤ max_working_bytes p ≤ usize_max ∧
       0 ≤ reserved_small_requests p ∧
       is_none_or (λ n, n <=? usize_max) (elastic_max_requests p) = true) ∧
    with_size_policy max_req max_byt policy = Ok st ∧ s = (st, ∅).

Definition reachable (s : System) : Prop := ∃ s0, initial s0 ∧ rtc step s0 s.

(** ** The accounting invariant *)

Definition large_bytes_of (l : BodyAdmissionLease) : Z := if large l then working_bytes l else 0.
Definition large_count_of (l : BodyAdmissionLease) : Z := if large l then 1 else 0.

Definition lease_wf (st : BodyAdmissionState) (l : BodyAdmissionLease) : Prop :=
  0 ≤ reserved_bytes l ∧ 0 ≤ working_bytes l ∧ 0 ≤ allocation_capacity l ∧
  0 ≤ rewrite_capacity l ∧ 0 ≤ extent l ∧ 0 ≤ default 0 (expected_length l) ∧
  (large l = true → 0 < working_bytes l) ∧
  (size_policy st = None → working_bytes l = 0 ∧ large l = false).

Definition config_wf (st : BodyAdmissionState) : Prop :=
  max_requests st ≤ usize_max ∧ max_bytes st ≤ usize_max ∧
  0 ≤ max_requests st ∧ 0 ≤ max_bytes st ∧
  ∀ p, size_policy st = Some p →
    max_working_bytes p ≤ usize_max ∧ 0 ≤ reserved_small_requests p < max_requests st ∧
    1 ≤ workspace_multiplier p ≤ 16 ∧
    ∃ reserve, small_reserve p = Some reserve ∧ 0 ≤ reserve < max_working_bytes p.

Definition within_policy (st : BodyAdmissionState) : Prop :=
  ∀ p reserve, size_policy st = Some p → small_reserve p = Some reserve →
    ws_bytes (working st) ≤ max_working_bytes p ∧
    ws_large_bytes (working st) ≤ max_working_bytes p - reserve ∧
    ws_large_requests (working st) ≤ max_requests st - reserved_small_requests p.

Record Inv (s : System) : Prop := {
  inv_config : config_wf s.1;
  inv_requests : active_requests s.1 = Z.of_nat (size s.2);
  inv_requests_max : active_requests s.1 ≤ max_requests s.1;
  inv_bytes : active_bytes s.1 = msum reserved_bytes s.2;
  inv_bytes_max : active_bytes s.1 ≤ max_bytes s.1;
  inv_working : ws_bytes (working s.1) = msum working_bytes s.2;
  inv_large_bytes : ws_large_bytes (working s.1) = msum large_bytes_of s.2;
  inv_large_requests : ws_large_requests (working s.1) = msum large_count_of s.2;
  inv_policy : within_policy s.1;
  inv_leases : ∀ id l, s.2 !! id = Some l → lease_wf s.1 l
}.

Lemma increment_bounded_spec observed current amount maximum next :
  increment_bounded observed current amount maximum = Some next →
  next = last_seen current observed + amount ∧ next ≤ maximum.
Proof.
  revert current. induction observed as [|seen observed IH]; intros current H; simpl in H.
  - destruct (checked_add current amount) as [n|] eqn:E; [|done].
    apply checked_add_Some in E as [-> _]. case_match; [done|]. bool_prop.
    injection H as <-. unfold last_seen. simpl. lia.
  - destruct (checked_add current amount) as [n|]; [|done]. case_match; [done|].
    apply IH in H as [-> ?]. split; [|done]. unfold last_seen.
    destruct observed as [|x observed]; [done|].
    change (last (seen :: x :: observed)) with (last (x :: observed)).
    destruct (last (x :: observed)) eqn:E; [done|]. by apply last_None in E.
Qed.

(** The effect of a successful or failed [update_working] on the accounts. *)
Definition charge_moved (st st' : BodyAdmissionState) (l l' : BodyAdmissionLease) : Prop :=
  ∃ charge is_large,
    l' = set_charge charge is_large l ∧
    st' = set_working
            {| ws_bytes := ws_bytes (working st) - working_bytes l + charge;
               ws_large_bytes :=
                 ws_large_bytes (working st) - large_bytes_of l + (if is_large then charge else 0);
               ws_large_requests :=
                 ws_large_requests (working st) - large_count_of l
                 + (if is_large then 1 else 0) |} st ∧
    0 ≤ charge ∧ (is_large = true → 0 < charge) ∧
    (size_policy st = None → charge = 0 ∧ is_large = false) ∧
    (within_policy st → within_policy st').

Lemma charge_moved_refl st l : lease_wf st l → charge_moved st st l l.
Proof.
  intros (_ & ? & _ & _ & _ & _ & ? & ?). exists (working_bytes l), (large l).
  split_and!; try done.
  - by destruct l.
  - destruct st as [? ? ? ? ? ? [? ? ?]]. unfold set_working, large_bytes_of, large_count_of; simpl.
    f_equal. f_equal; destruct (large l); lia.
Qed.

Lemma working_charge_pos p l length capacity proc charge :
  1 ≤ workspace_multiplier p → 0 ≤ length → 0 ≤ capacity → 0 ≤ rewrite_capacity l →
  working_charge p l length capacity proc = Some charge → 0 < charge ≤ usize_max.
Proof.
  intros Hm Hl Hc Hr H. unfold working_charge in H.
  apply bind_Some in H as (workspace & Hw & H).
  apply bind_Some in H as (b1 & Hb1 & H). apply bind_Some in H as (b2 & Hb2 & H).
  apply checked_add_Some in Hb1 as [-> ?], Hb2 as [-> ?], H as [-> ?].
  assert (0 ≤ workspace); [|unfold REQUEST_WORKING_OVERHEAD in *; lia].
  destruct (proc || compact_workspace l); [|injection Hw; lia].
  apply bind_Some in Hw as (bytes & Hb & Hw). apply checked_mul_Some in Hb as [-> ?].
  assert (0 ≤ Z.max length (rewrite_capacity l) * workspace_multiplier p) by nia.
  destruct proc; injection Hw as <-; lia.
Qed.

Lemma update_working_moves st l length capacity is_large proc st' l' r :
  config_wf st → lease_wf st l → 0 ≤ length → 0 ≤ capacity →
  update_working st l length capacity is_large proc = (st', l', r) →
  charge_moved st st' l l' ∧ (is_ok r = false → st' = st ∧ l' = l).
Proof.
  intros Hcfg Hwf Hlen Hcap. unfold update_working.
  destruct (size_policy st) as [p|] eqn:Hp;
    [|intros [= <- <- <-]; split; [by apply charge_moved_refl|done]].
  destruct (working_charge p l length capacity proc) as [charge|] eqn:Hch;
    [|intros [= <- <- <-]; split; [by apply charge_moved_refl|done]].
  generalize (is_large || (SMALL_BODY_MAX_BYTES <? rewrite_capacity l)). intros lg.
  destruct (_ && _) eqn:Hsame; [intros [= <- <- <-]; split; [by apply charge_moved_refl|done]|].
  destruct (working_rejected _ _ _ _ _) eqn:Hrej;
    [intros [= <- <- <-]; split; [by apply charge_moved_refl|done]|].
  intros [= <- <- <-]. split; [|done].
  destruct Hcfg as (_ & _ & _ & _ & Hpol).
  destruct (Hpol p Hp) as (? & ? & ? & reserve & Hres & ?).
  assert (0 < charge ≤ usize_max) as Hpos.
  { apply (working_charge_pos p l length capacity proc); try lia; [apply Hwf|done]. }
  unfold working_rejected in Hrej. rewrite !orb_false_iff in Hrej.
  destruct Hrej as [[Hb Hlb] Hlr]. rewrite Hres in Hlb. cbn [default] in Hlb.
  destruct (_ ≫= _) as [nb|] eqn:Enb in Hb; [|done].
  destruct (_ ≫= _) as [nlb|] eqn:Enlb in Hlb; [|done].
  cbn [is_none_or] in Hb, Hlb. bool_prop. rewrite Enb, Enlb. cbn [default].
  apply bind_Some in Enb as (v & Hv & Enb). apply bind_Some in Enlb as (v' & Hv' & Enlb).
  apply checked_sub_Some in Hv as [-> ?], Hv' as [-> ?].
  apply checked_add_Some in Enb as [-> ?], Enlb as [-> ?].
  exists charge, lg. split_and!; try done; try lia; [congruence|].
  intros _ p' reserve' Hp' Hres'. simpl in *. simplify_eq. auto.
Qed.

(** Accounting fields only. *)
Definition same_account (l l' : BodyAdmissionLease) : Prop :=
  reserved_bytes l = reserved_bytes l' ∧ working_bytes l = working_bytes l' ∧ large l = large l'.

Lemma msum_account (f : BodyAdmissionLease → Z) (ls : gmap nat BodyAdmissionLease) id l l' :
  ls !! id = Some l → msum f (<[id := l']> ls) = msum f ls - f l + f l'.
Proof. apply msum_update. Qed.

Lemma size_update (ls : gmap nat BodyAdmissionLease) id l l' :
  ls !! id = Some l → size (<[id := l']> ls) = size ls.
Proof. intros H. apply map_size_insert_Some. by exists l. Qed.

(** Moving a charge and touching fields the accounts do not depend on keeps
    the invariant. *)
Lemma Inv_charge_moved st st' ls id l l1 l' :
  Inv (st, ls) → ls !! id = Some l →
  charge_moved st st' l l1 → same_account l1 l' → lease_wf st' l' →
  Inv (st', <[id := l']> ls).
Proof.
  intros HI Hid (charge & lg & -> & -> & ? & ? & Hnone & Hpol) (Hr & Hw & Hlg) Hwf.
  simpl in Hr, Hw, Hlg. destruct HI; simpl in *. constructor; simpl; try done.
  - by rewrite (size_update _ _ l).
  - rewrite (msum_account _ _ _ l) by done. lia.
  - rewrite (msum_account _ _ _ l) by done. lia.
  - rewrite (msum_account _ _ _ l) by done. unfold large_bytes_of in *. rewrite <- Hlg, <- Hw. lia.
  - rewrite (msum_account _ _ _ l) by done. unfold large_count_of in *. rewrite <- Hlg. lia.
  - auto.
  - intros id' l0. destruct (decide (id' = id)) as [->|Hne].
    + rewrite lookup_insert_eq. by intros [= <-].
    + rewrite lookup_insert_ne by done. apply inv_leases0.
Qed.

Lemma charge_moved_wf st st' l l' :
  lease_wf st l → charge_moved st st' l l' → lease_wf st' l'.
Proof.
  intros (? & ? & ? & ? & ? & ? & ? & ?) (charge & lg & -> & -> & ? & ? & ? & ?).
  repeat split; simpl in *; try done; naive_solver.
Qed.

Lemma charge_moved_account st st' l l0 l1 :
  same_account l l0 → charge_moved st st' l0 l1 →
  ∃ l1', charge_moved st st' l l1' ∧ same_account l1' l1.
Proof.
  intros (Hr & Hw & Hlg) (charge & lg & -> & -> & Hrest).
  exists (set_charge charge lg l). split; [|done]. exists charge, lg. split; [done|].
  unfold large_bytes_of, large_count_of in *. by rewrite Hw, Hlg.
Qed.

Lemma lease_wf_account st l l' :
  lease_wf st l → same_account l l' → 0 ≤ allocation_capacity l' → 0 ≤ rewrite_capacity l' →
  0 ≤ extent l' → 0 ≤ default 0 (expected_length l') → lease_wf st l'.
Proof.
  intros (? & ? & _ & _ & _ & _ & ? & ?) (Hr & Hw & Hlg) ????. unfold lease_wf.
  rewrite <- Hr, <- Hw, <- Hlg. done.
Qed.

(** An action that is [update_working] on a lease [l0] with the accounts of
    [l], followed by changes outside the accounts. *)
Lemma Inv_update st ls id l l0 l1 l' st' length capacity is_large proc r :
  Inv (st, ls) → ls !! id = Some l → same_account l l0 → lease_wf st l0 →
  0 ≤ length → 0 ≤ capacity →
  update_working st l0 length capacity is_large proc = (st', l1, r) →
  same_account l1 l' → 0 ≤ allocation_capacity l' → 0 ≤ rewrite_capacity l' →
  0 ≤ extent l' → 0 ≤ default 0 (expected_length l') →
  Inv (st', <[id := l']> ls).
Proof.
  intros HI Hid Hacc Hwf0 ?? Hup Hacc' ????.
  apply update_working_moves in Hup as [Hmv _]; [|apply HI|done..].
  pose proof (charge_moved_wf _ _ _ _ Hwf0 Hmv) as Hwf1.
  destruct (charge_moved_account _ _ _ _ _ Hacc Hmv) as (l1' & Hmv' & Ha).
  eapply Inv_charge_moved; [done..| |eapply lease_wf_account; eauto].
  destruct Ha as (? & ? & ?), Hacc' as (? & ? & ?). repeat split; congruence.
Qed.

(** What [update_working] leaves alone, successful or not. *)
Lemma update_working_fields st l length capacity is_large proc st' l' r :
  update_working st l length capacity is_large proc = (st', l', r) →
  allocation_capacity l' = allocation_capacity l ∧ rewrite_capacity l' = rewrite_capacity l ∧
  extent l' = extent l ∧ expected_length l' = expected_length l ∧
  reserved_bytes l' = reserved_bytes l.
Proof. unfold update_working. intros H. repeat (case_match; simplify_eq); done. Qed.

(** Discharges a case of an action built on the call [E]. *)
Ltac by_update E :=
  destruct (update_working_fields _ _ _ _ _ _ _ _ _ E) as (? & ? & ? & ? & ?); simpl in *;
  eapply Inv_update; [eassumption|eassumption| | | | |exact E|..];
  repeat split; simpl; try lia; try congruence; try tauto.

Lemma reserved_le_active st ls id l :
  Inv (st, ls) → ls !! id = Some l → 0 ≤ reserved_bytes l ≤ active_bytes st.
Proof.
  intros HI Hid. split; [apply (inv_leases _ HI _ _ Hid)|].
  pose proof (inv_bytes _ HI) as Eb; simpl in Eb; rewrite Eb. apply (msum_le _ _ id); [|done].
  intros k v Hk. apply (inv_leases _ HI _ _ Hk).
Qed.

(** A granted reservation, with no saturation. *)
Lemma try_reserve_ok st ls id l additional st' l' :
  Inv (st, ls) → ls !! id = Some l → 0 ≤ additional →
  try_reserve st l additional = (st', l', Ok tt) →
  st' = set_active_bytes (active_bytes st + additional) st ∧
  l' = set_reserved (reserved_bytes l + additional) l ∧
  active_bytes st + additional ≤ max_bytes st.
Proof.
  intros HI Hid Hadd H. pose proof (reserved_le_active _ _ _ _ HI Hid) as Hle.
  pose proof (inv_config _ HI) as (_ & ? & _). pose proof (inv_bytes_max _ HI). simpl in *.
  unfold try_reserve in H. destruct (Z.eqb_spec additional 0) as [->|].
  - simplify_eq. rewrite !Z.add_0_r. split_and!; [by destruct st'|by destruct l'|done].
  - destruct (increment_bounded _ _ _ _) as [next|] eqn:E; [|done].
    apply increment_bounded_spec in E as [-> Hmax]. unfold last_seen in *. simpl in *.
    injection H as <- <-. unfold saturating_add. rewrite Z.min_r by lia. done.
Qed.

Lemma try_reserve_failed st l additional st' l' e :
  try_reserve st l additional = (st', l', Err e) → st' = st ∧ l' = l ∧ e = GatewayOverloaded.
Proof. unfold try_reserve. intros H. repeat (case_match; simplify_eq); done. Qed.

Lemma Inv_reserve st ls id l additional st' l' r :
  Inv (st, ls) → ls !! id = Some l → 0 ≤ additional →
  try_reserve st l additional = (st', l', r) → Inv (st', <[id := l']> ls).
Proof.
  intros HI Hid Hadd H. pose proof (inv_leases _ HI _ _ Hid) as Hwf.
  destruct r as [[]|e]; [|apply try_reserve_failed in H as (-> & -> & _); by rewrite insert_id].
  eapply try_reserve_ok in H as (-> & -> & Hmax); [|done..].
  destruct HI; constructor; simpl in *; try done;
    rewrite ?(size_update _ _ l), ?(msum_account _ _ _ l) by done;
    unfold large_bytes_of, large_count_of in *; simpl; try lia.
  intros id' l0. destruct (decide (id' = id)) as [->|Hne].
  - rewrite lookup_insert_eq. intros [= <-]. destruct Hwf as (? & ? & ? & ? & ? & ? & ? & ?).
    repeat split; simpl; try done; try tauto. lia.
  - rewrite lookup_insert_ne by done. apply inv_leases0.
Qed.

Lemma Inv_action st ls id l a st' l' r :
  Inv (st, ls) → ls !! id = Some l → Forall (Z.le 0) (action_args a) →
  run_action a st l = (st', l', r) → Inv (st', <[id := l']> ls).
Proof.
  intros HI Hid Hargs H. pose proof (inv_leases _ HI _ _ Hid) as Hwf.
  pose proof Hwf as (? & ? & ? & ? & ? & ? & ? & ?).
  destruct a as [length capacity| |capacity| |additional|body_len]; simpl in H, Hargs;
    repeat match goal with K : Forall _ (_ :: _) |- _ => inversion K; clear K; subst end.
  - unfold prepare_buffer in H. destruct (update_working _ _ _ _ _ _) as [[? ?] [[]|]] eqn:E;
      simplify_eq; by_update E.
  - unfold begin_processing in H. destruct (update_working _ _ _ _ _ _) as [[? ?] [[]|]] eqn:E;
      simplify_eq; by_update E.
  - unfold prepare_rewrite in H. destruct (update_working _ _ _ _ _ _) as [[? ?] [[]|]] eqn:E;
      simplify_eq; by_update E.
  - unfold retain_compact_workspace in H. destruct (not_elastic st);
      [simplify_eq; by rewrite insert_id|].
    destruct (update_working _ _ _ _ _ _) as [[? ?] [[]|]] eqn:E; simplify_eq; by_update E.
  - eapply Inv_reserve; eauto.
  - unfold settle_body in H. by_update H.
Qed.

Lemma drop_working_moves st l :
  lease_wf st l → charge_moved st (drop_working st l) l (set_charge 0 false l).
Proof.
  intros (? & ? & _ & _ & _ & _ & Hlarge & ?). exists 0, false. unfold drop_working.
  assert (within_policy st → within_policy (set_working
    {| ws_bytes := ws_bytes (working st) - working_bytes l + 0;
       ws_large_bytes := ws_large_bytes (working st) - large_bytes_of l + 0;
       ws_large_requests := ws_large_requests (working st) - large_count_of l + 0 |} st)) as Hpol.
  { intros Hp p reserve Hp1 Hp2. destruct (Hp p reserve Hp1 Hp2) as (? & ? & ?).
    unfold large_bytes_of, large_count_of. simpl. destruct (large l); lia. }
  destruct (Z.ltb_spec 0 (working_bytes l)) as [Hpos|Hz].
  - split_and!; try done; unfold large_bytes_of, large_count_of in *; simpl in *;
      rewrite ?Z.add_0_r in *; destruct (large l); rewrite ?Z.sub_0_r in *; done.
  - assert (working_bytes l = 0) as E by lia. destruct (large l) eqn:El; [lia|].
    unfold large_bytes_of, large_count_of in *. rewrite El in *.
    assert (set_working
              {| ws_bytes := ws_bytes (working st) - working_bytes l + 0;
                 ws_large_bytes := ws_large_bytes (working st) - 0 + 0;
                 ws_large_requests := ws_large_requests (working st) - 0 + 0 |} st = st) as Est.
    { rewrite E, !Z.sub_0_r, !Z.add_0_r. by destruct st as [? ? ? ? ? ? []]. }
    rewrite Est in *. done.
Qed.

Lemma Inv_drop_bytes st ls id l :
  Inv (st, ls) → ls !! id = Some l → Inv (drop_bytes st l, <[id := set_reserved 0 l]> ls).
Proof.
  intros HI Hid. pose proof (inv_leases _ HI _ _ Hid) as (Hr & ? & ? & ? & ? & ? & ? & ?).
  assert (drop_bytes st l = set_active_bytes (active_bytes st - reserved_bytes l) st) as ->.
  { unfold drop_bytes. destruct (Z.ltb_spec 0 (reserved_bytes l)); [done|].
    replace (reserved_bytes l) with 0 by lia. rewrite Z.sub_0_r. by destruct st. }
  destruct HI; constructor; simpl in *; try done;
    rewrite ?(size_update _ _ l), ?(msum_account _ _ _ l) by done;
    unfold large_bytes_of, large_count_of in *; simpl; try lia.
  intros id' l0. destruct (decide (id' = id)) as [->|Hne].
  - rewrite lookup_insert_eq. intros [= <-]. by repeat split; simpl; try tauto.
  - rewrite lookup_insert_ne by done. apply inv_leases0.
Qed.

Lemma Inv_drop_request st ls id l :
  Inv (st, ls) → ls !! id = Some l → working_bytes l = 0 → reserved_bytes l = 0 →
  Inv (drop_request st, delete id ls).
Proof.
  intros HI Hid Hw Hr. pose proof (inv_leases _ HI _ _ Hid) as (_ & _ & _ & _ & _ & _ & Hlg & _).
  assert (large l = false) as El by (destruct (large l); [lia|done]).
  assert (size ls ≠ 0%nat) as Hsz.
  { intros E%map_size_empty_inv. by rewrite E in Hid. }
  destruct HI; constructor; simpl in *; try done;
    rewrite ?(msum_delete _ _ _ l) by done; unfold large_bytes_of, large_count_of in *;
    rewrite ?El, ?Hw, ?Hr; try lia.
  - rewrite map_size_delete_Some by done. lia.
  - intros id' l0 H%lookup_delete_Some. naive_solver.
Qed.

Lemma Inv_admit st ls id now expected next :
  Inv (st, ls) → ls !! id = None → is_none_or (Z.leb 0) expected = true →
  next = active_requests st + 1 → next ≤ max_requests st →
  Inv (set_active_requests next st,
       <[id := fresh_lease (set_active_requests next st) now expected]> ls).
Proof.
  intros HI Hid Hexp -> Hmax. destruct HI; constructor; simpl in *; try done;
    rewrite ?msum_insert by done; unfold large_bytes_of, large_count_of in *; simpl; try lia.
  - rewrite map_size_insert_None by done. lia.
  - intros id' l0. destruct (decide (id' = id)) as [->|Hne].
    + rewrite lookup_insert_eq. intros [= <-]. repeat split; simpl; try done; try lia.
      destruct expected; simpl in *; [by bool_prop|done].
    + rewrite lookup_insert_ne by done. apply inv_leases0.
Qed.

Lemma ledger_Inv_step s s' : Inv s → step s s' → Inv s'.
Proof.
  intros HI Hs. inversion Hs; subst.
  - match goal with H : increment_bounded _ _ _ _ = _ |- _ =>
      apply increment_bounded_spec in H as [-> ?] end.
    eapply Inv_admit; eauto; congruence.
  - eapply Inv_action; eauto.
  - pose proof (inv_leases _ HI _ _ H) as Hwf. pose proof (drop_working_moves _ _ Hwf) as Hmv.
    eapply Inv_charge_moved; [done..|eapply charge_moved_wf; eauto].
  - by apply Inv_drop_bytes.
  - by eapply Inv_drop_request.
Qed.

Lemma policy_validate_ok p max_req :
  policy_validate p max_req = Ok tt →
  max_req ≤ default max_req (elastic_max_requests p) ∧
  reserved_small_requests p < max_req ∧ 1 ≤ workspace_multiplier p ≤ 16 ∧
  ∃ reserve, small_reserve p = Some reserve ∧ reserve < max_working_bytes p.
Proof.
  unfold policy_validate. destruct (_ || _) eqn:E; [done|intros _]. bool_prop.
  match goal with H : in_range _ _ _ = true |- _ => apply in_range_iff in H end.
  destruct (small_reserve p) as [reserve|]; [|done]. simpl in *. bool_prop.
  split_and!; [|lia|lia|lia|by exists reserve].
  destruct (elastic_max_requests p); simpl in *; bool_prop; lia.
Qed.

Lemma small_reserve_Some p reserve :
  small_reserve p = Some reserve →
  reserve = (SMALL_BODY_MAX_BYTES * (1 + workspace_multiplier p) + REQUEST_WORKING_OVERHEAD)
            * reserved_small_requests p ∧ reserve ≤ usize_max.
Proof.
  unfold small_reserve. intros H. apply bind_Some in H as (b & Hb & H).
  apply bind_Some in H as (b' & Hb' & H).
  apply checked_mul_Some in Hb as [-> _], H as [-> ?].
  apply checked_add_Some in Hb' as [-> _]. done.
Qed.

Lemma with_size_policy_ok max_req max_byt policy st :
  with_size_policy max_req max_byt policy = Ok st →
  max_req ≠ 0 ∧ max_byt ≠ 0 ∧ (∀ p, policy = Some p → policy_validate p max_req = Ok tt) ∧
  max_requests st = default max_req (policy ≫= elastic_max_requests) ∧
  max_bytes st = max_byt ∧ active_requests st = 0 ∧ active_bytes st = 0 ∧
  size_policy st = policy ∧
  working st = {| ws_bytes := 0; ws_large_bytes := 0; ws_large_requests := 0 |}.
Proof.
  unfold with_size_policy. intros Hst. destruct (_ || _) eqn:Hz; [done|]. bool_prop.
  destruct policy as [p|]; [destruct (policy_validate p max_req) as [[]|] eqn:E; [|done]|];
    simpl in Hst; injection Hst as <-; split_and!; simpl; try done; naive_solver.
Qed.

Lemma initial_config st : initial (st, ∅) → config_wf st.
Proof.
  intros (max_req & max_byt & policy & st' & Hr & Hb & Hp & Hst & [= <-]).
  apply with_size_policy_ok in Hst as (? & ? & Hval & Hmr & Hmb & _ & _ & Hpol & _).
  unfold config_wf. rewrite Hmr, Hmb, Hpol. destruct policy as [p|]; simpl; [|split_and!; [lia..|done]].
  destruct (Hp p eq_refl) as (? & ? & Hel).
  destruct (policy_validate_ok _ _ (Hval p eq_refl)) as (? & ? & ? & reserve & Hres & ?).
  pose proof (small_reserve_Some _ _ Hres) as [Hrv _].
  unfold SMALL_BODY_MAX_BYTES, REQUEST_WORKING_OVERHEAD in Hrv.
  assert (default max_req (elastic_max_requests p) ≤ usize_max).
  { destruct (elastic_max_requests p); simpl in *; bool_prop; lia. }
  split_and!; try lia. intros p' [= <-]. split_and!; try lia. exists reserve.
  split; [done|]. nia.
Qed.

Lemma ledger_Inv_initial s : initial s → Inv s.
Proof.
  intros Hi. pose proof Hi as (max_req & max_byt & policy & st & Hr & Hb & Hp & Hst & ->).
  pose proof (initial_config _ Hi) as Hcfg.
  apply with_size_policy_ok in Hst as (_ & _ & _ & Hmr & Hmb & Har & Hab & Hpol & Hw).
  pose proof Hcfg as (_ & _ & ? & ? & Hcp).
  constructor; simpl; rewrite ?Hw, ?Har, ?Hab; try done.
  intros p reserve E1 E2. destruct (Hcp p E1) as (? & ? & ? & r & E3 & ?). simplify_eq.
  rewrite Hw. simpl. lia.
Qed.

Lemma ledger_reachable_Inv s : reachable s → Inv s.
Proof.
  intros (s0 & Hi%ledger_Inv_initial & Hr). induction Hr as [|s0 s1 s2 Hs Hr IH]; [done|].
  apply IH. by eapply ledger_Inv_step.
Qed.

(** ** What callers rely on *)

(** C23: In every reachable state, under any interleaving, the live leases
    respect the configured request count and byte limit, and with a size
    policy the working-set bound and the share left to large bodies. *)
Theorem admission_bounds st ls :
  reachable (st, ls) →
  Z.of_nat (size ls) ≤ max_requests st ∧
  msum reserved_bytes ls ≤ max_bytes st ∧
  ∀ p reserve, size_policy st = Some p → small_reserve p = Some reserve →
    msum working_bytes ls ≤ max_working_bytes p ∧
    msum large_bytes_of ls ≤ max_working_bytes p - reserve ∧
    msum large_count_of ls ≤ max_requests st - reserved_small_requests p.
Proof.
  intros HI%ledger_reachable_Inv. destruct HI; simpl in *.
  split_and!; [lia|lia|]. intros p reserve H1 H2.
  destruct (inv_policy0 p reserve H1 H2). by rewrite <- inv_working0, <- inv_large_bytes0,
    <- inv_large_requests0.
Qed.

(** The shared counters are exactly what the live leases hold: nothing
    leaks, and no subtraction in [Drop] can wrap. *)
Theorem accounts_exact st ls :
  reachable (st, ls) →
  active_requests st = Z.of_nat (size ls) ∧
  active_bytes st = msum reserved_bytes ls ∧
  working st = {| ws_bytes := msum working_bytes ls; ws_large_bytes := msum large_bytes_of ls;
                  ws_large_requests := msum large_count_of ls |} ∧
  ∀ id l, ls !! id = Some l →
    0 < active_requests st ∧ reserved_bytes l ≤ active_bytes st ∧
    working_bytes l ≤ ws_bytes (working st) ∧
    large_bytes_of l ≤ ws_large_bytes (working st) ∧
    large_count_of l ≤ ws_large_requests (working st).
Proof.
  intros HI%ledger_reachable_Inv.
  assert (∀ id l, ls !! id = Some l → lease_wf st l) as Hwf by apply HI.
  assert (∀ f, (∀ l, lease_wf st l → 0 ≤ f l) →
    ∀ id l, ls !! id = Some l → f l ≤ msum f ls) as Hle.
  { intros f Hf id l Hid. apply (msum_le _ _ id); [|done]. eauto. }
  destruct HI; simpl in *. split_and!; [done..| |].
  - destruct (working st); simpl in *; congruence.
  - intros id l Hid. rewrite inv_requests0, inv_bytes0, inv_working0, inv_large_bytes0,
      inv_large_requests0.
    split_and!; try (apply (Hle _) with id; [|done]; intros l0 (? & ? & _);
      unfold large_bytes_of, large_count_of; destruct (large l0); lia).
    assert (size ls ≠ 0%nat); [|lia]. intros E%map_size_empty_inv. by rewrite E in Hid.
Qed.

Lemma update_working_failed st l length capacity is_large proc st' l' e :
  update_working st l length capacity is_large proc = (st', l', Err e) →
  st' = st ∧ l' = l ∧ e = GatewayOverloaded.
Proof. unfold update_working. intros H. repeat (case_match; simplify_eq); done. Qed.

(** A rejected operation is an overload error and leaves the shared state
    and the lease as they were, rolled-back rewrites included. *)
Lemma run_action_rejected a st l st' l' e :
  (∀ n, a ≠ ASettle n) →
  run_action a st l = (st', l', Err e) → st' = st ∧ l' = l ∧ e = GatewayOverloaded.
Proof.
  intros Ha H. destruct a; simpl in H; [| | | | |by destruct (Ha body_len)];
    unfold prepare_buffer, begin_processing, prepare_rewrite, retain_compact_workspace,
      try_reserve in H; repeat (case_match; simplify_eq); try done;
    match goal with E : update_working _ _ _ _ _ _ = _ |- _ =>
      apply update_working_failed in E as (-> & -> & ->) end;
    split_and!; try done; by destruct l.
Qed.

(** The unit of which the policy reserves [reserved_small_requests]. *)
Definition small_unit (p : SizeAwareBodyPolicy) : Z :=
  SMALL_BODY_MAX_BYTES * (1 + workspace_multiplier p) + REQUEST_WORKING_OVERHEAD.

Definition small_leases (ls : gmap nat BodyAdmissionLease) : gmap nat BodyAdmissionLease :=
  filter (λ '(_, l), large l = false) ls.

Lemma small_leases_split (f : BodyAdmissionLease → Z) ls :
  msum f ls = msum f (small_leases ls) + msum (λ l, if large l then f l else 0) ls.
Proof.
  unfold small_leases. induction ls as [|id l ls Hid IH] using map_ind.
  - rewrite map_filter_empty, !msum_empty. lia.
  - rewrite map_filter_insert, !msum_insert by done. case_decide as E; simpl in E.
    + rewrite E, msum_insert; [lia|]. apply map_lookup_filter_None. by left.
    + apply not_false_is_true in E. rewrite E, delete_id by done. lia.
Qed.

Lemma small_charge p l n proc :
  rewrite_capacity l = 0 → compact_workspace l = false → 1 ≤ workspace_multiplier p →
  0 ≤ n ≤ SMALL_BODY_MAX_BYTES → small_unit p ≤ usize_max →
  ∃ charge, working_charge p l n 0 proc = Some charge ∧ 0 < charge ≤ small_unit p.
Proof.
  unfold small_unit, working_charge. intros -> -> Hm Hn Hmax.
  rewrite orb_false_r, (Z.max_l n 0), (Z.max_r 0 n) by lia.
  assert (0 ≤ n * workspace_multiplier p ≤ SMALL_BODY_MAX_BYTES * workspace_multiplier p) by nia.
  assert (0 < REQUEST_WORKING_OVERHEAD) by done.
  destruct proc; simpl.
  - unfold checked_mul. rewrite (proj2 (Z.leb_le _ _)) by lia. simpl. unfold checked_add.
    do 3 (rewrite (proj2 (Z.leb_le _ _)) by lia; simpl).
    eexists; split; [done|lia].
  - unfold checked_add.
    do 3 (rewrite (proj2 (Z.leb_le _ _)) by lia; simpl).
    eexists; split; [done|lia].
Qed.

(** A first small charge fits when the whole working set leaves room for it. *)
Lemma first_charge_granted st l p length capacity proc charge reserve :
  size_policy st = Some p → small_reserve p = Some reserve →
  working_charge p l length capacity proc = Some charge → 0 < charge →
  working_bytes l = 0 → large l = false → rewrite_capacity l = 0 →
  0 ≤ ws_bytes (working st) → 0 ≤ ws_large_bytes (working st) → max_working_bytes p ≤ usize_max →
  ws_bytes (working st) + charge ≤ max_working_bytes p → within_policy st → 0 ≤ reserve →
  ∃ st', update_working st l length capacity false proc = (st', set_charge charge false l, Ok tt).
Proof.
  intros Hp Hres Hch Hpos Hw Hlg Hrw Hb0 Hlb0 Hmax Hfit Hpol Hr0.
  destruct (Hpol p reserve Hp Hres) as (_ & Hlb & Hlr).
  unfold update_working. rewrite Hp, Hch, Hw, Hlg, Hrw.
  rewrite (proj2 (Z.eqb_neq charge 0)) by lia.
  change (SMALL_BODY_MAX_BYTES <? 0) with false. cbn [orb andb].
  unfold working_rejected, checked_sub, checked_add.
  rewrite !(proj2 (Z.leb_le _ _)) by lia. cbn [mbind option_bind].
  rewrite !(proj2 (Z.leb_le _ _)) by lia. rewrite Hres. cbn.
  rewrite !(proj2 (Z.ltb_ge _ _)) by (unfold id; lia). cbn [orb]. eexists. done.
Qed.

(** Reserved capacity works: while fewer than [reserved_small_requests]
    small bodies are held, each within its reserved unit, a declared small
    body is always admitted, whatever large bodies are being held. *)
Theorem small_body_admitted st ls p now n :
  reachable (st, ls) → size_policy st = Some p →
  Z.of_nat (size (small_leases ls)) < reserved_small_requests p →
  (∀ id l, small_leases ls !! id = Some l → working_bytes l ≤ small_unit p) →
  0 ≤ n ≤ SMALL_BODY_MAX_BYTES →
  ∃ st' l, try_acquire_sized st now (Some n) = (st', Ok l) ∧
    large l = false ∧ 0 < working_bytes l ≤ small_unit p.
Proof.
  intros HI%ledger_reachable_Inv Hp Hsmall Hunit Hn.
  destruct HI as [Hcfg Hreq _ Hbytes _ Hw Hlb Hlr Hpol Hwf]; simpl in *.
  destruct Hcfg as (? & _ & ? & _ & Hcp). destruct (Hcp p Hp) as (? & ? & ? & reserve & Hres & ?).
  pose proof (small_reserve_Some _ _ Hres) as [Hrv Hru]. fold (small_unit p) in Hrv.
  destruct (Hpol p reserve Hp Hres) as (_ & Hlb' & Hlr').
  pose proof (small_leases_split working_bytes ls) as Hsplit.
  pose proof (small_leases_split (λ _, 1) ls) as Hcount. rewrite !msum_const in Hcount.
  assert (msum working_bytes (small_leases ls)
          ≤ small_unit p * Z.of_nat (size (small_leases ls))) as Hsum.
  { rewrite <- msum_const, <- msum_scale. apply msum_mono. intros k v Hk.
    specialize (Hunit k v Hk). lia. }
  assert (0 < small_unit p) by (unfold small_unit, SMALL_BODY_MAX_BYTES,
    REQUEST_WORKING_OVERHEAD; lia).
  assert (small_unit p ≤ reserve) by nia.
  assert (0 ≤ msum large_bytes_of ls).
  { apply msum_nonneg. intros k v Hk. destruct (Hwf _ _ Hk) as (_ & ? & _).
    unfold large_bytes_of. destruct (large v); lia. }
  assert (0 ≤ msum working_bytes ls).
  { apply msum_nonneg. intros k v Hk. apply (Hwf _ _ Hk). }
  change (msum (λ l, if large l then working_bytes l else 0) ls) with (msum large_bytes_of ls)
    in Hsplit.
  change (msum (λ l, if large l then 1 else 0) ls) with (msum large_count_of ls) in Hcount.
  unfold try_acquire_sized. simpl. unfold checked_add.
  rewrite (proj2 (Z.leb_le _ _)), (proj2 (Z.ltb_ge _ _)) by lia.
  set (st1 := set_active_requests _ st). set (l := fresh_lease st1 now (Some n)).
  destruct (small_charge p l n (processing l)) as (charge & Hch & Hcr); try done; [lia..|].
  unfold prepare_buffer. cbn [expected_length allocation_capacity fresh_lease l default is_none orb id].
  change (is_none (Some n)) with false. change (Z.max 0 0) with 0. cbn [orb].
  rewrite (Z.max_r 0 n) by lia.
  rewrite (proj2 (Z.ltb_ge SMALL_BODY_MAX_BYTES n)) by lia.
  destruct (first_charge_granted st1 l p n 0 (processing l) charge reserve) as [st' Hup];
    try done; simpl; try lia; [nia|].
  change (processing l) with (not_elastic st1) in Hup. rewrite Hup.
  eexists _, _. split; [done|]. done.
Qed.

(** ** The methods as sequences of steps *)

Lemma reachable_step s s' : reachable s → step s s' → reachable s'.
Proof. intros (s0 & Hi & Hr) Hs. exists s0. split; [done|]. by eapply rtc_r. Qed.

Lemma reachable_action st ls id l a st' l' r :
  reachable (st, ls) → ls !! id = Some l → Forall (Z.le 0) (action_args a) →
  run_action a st l = (st', l', r) → reachable (st', <[id := l']> ls).
Proof. intros. eapply reachable_step; [done|]. by econstructor. Qed.

Lemma reachable_drop st ls id l :
  reachable (st, ls) → ls !! id = Some l → reachable (drop_lease st l, delete id ls).
Proof.
  intros Hr Hid.
  pose proof (reachable_step _ _ Hr (step_drop_working _ _ _ _ Hid)) as H1.
  pose proof (reachable_step _ _ H1 (step_drop_bytes _ _ id _ (lookup_insert_eq _ _ _))) as H2.
  pose proof (reachable_step _ _ H2
    (step_drop_request _ _ id (set_reserved 0 (set_charge 0 false l)) (lookup_insert_eq _ _ _) eq_refl eq_refl)) as H3.
  by rewrite !delete_insert_eq in H3.
Qed.

(** [try_acquire_sized] is an admission step followed by a [prepare_buffer]
    step; when it fails nothing has changed. *)
Theorem acquire_is_steps st ls id now expected st' r :
  reachable (st, ls) → ls !! id = None → is_none_or (Z.leb 0) expected = true →
  try_acquire_sized st now expected = (st', r) →
  match r with
  | Ok l => reachable (st', <[id := l]> ls)
  | Err e => st' = st ∧ e = GatewayOverloaded
  end.
Proof.
  intros Hr Hid Hexp H. unfold try_acquire_sized in H.
  destruct (increment_bounded _ _ _ _) as [next|] eqn:Hinc; [|by simplify_eq].
  pose proof (increment_bounded_spec _ _ _ _ _ Hinc) as [Hnext _].
  set (st1 := set_active_requests next st) in *. set (l0 := fresh_lease st1 now expected) in *.
  destruct (prepare_buffer st1 l0 0 0) as [[st2 l2] [[]|e]] eqn:Hprep; simplify_eq.
  - assert (reachable (st1, <[id := l0]> ls)) as Hr1.
    { eapply reachable_step; [done|]. apply (step_admit _ _ _ now expected (active_requests st) []);
        done. }
    eapply (reachable_action _ _ id l0 (APrepare 0 0)) in Hr1; [|apply lookup_insert_eq|by repeat constructor|done].
    by rewrite insert_insert_eq in Hr1.
  - apply (run_action_rejected (APrepare 0 0)) in Hprep as (-> & -> & ->); [|done].
    split; [|done]. unfold drop_lease, drop_bytes, drop_working, drop_request. simpl.
    unfold st1, last_seen. simpl. rewrite Z.add_simpl_r. by destruct st.
Qed.

Lemma drop_lease_reserved st l add :
  0 ≤ add → 0 ≤ reserved_bytes l →
  drop_lease (set_active_bytes (active_bytes st + add) st)
    (set_rewrite 0 (set_compact false (set_reserved (reserved_bytes l + add) l)))
  = drop_lease st l.
Proof.
  intros. unfold drop_lease, drop_request, drop_bytes, drop_working. simpl.
  destruct (Z.ltb_spec 0 (working_bytes l)); simpl;
    destruct (Z.ltb_spec 0 (reserved_bytes l + add)), (Z.ltb_spec 0 (reserved_bytes l)); simpl;
    try lia; unfold set_active_requests, set_active_bytes, set_working; simpl; f_equal; lia.
Qed.

(** [into_bytes] is a [try_reserve] step followed by a settling step; when
    either is rejected, the lease is released as a whole. *)
Theorem into_bytes_is_steps st ls id l body_len st' r :
  reachable (st, ls) → ls !! id = Some l → 0 ≤ body_len →
  into_bytes st l body_len = (st', r) →
  match r with
  | Ok l' => reachable (st', <[id := l']> ls) ∧ body_len ≤ reserved_bytes l'
  | Err e => reachable (st', delete id ls) ∧ st' = drop_lease st l ∧ e = GatewayOverloaded
  end.
Proof.
  intros Hr Hid Hlen H. unfold into_bytes in H. pose proof (ledger_reachable_Inv _ Hr) as HI.
  pose proof (reserved_le_active _ _ _ _ HI Hid) as Hres0.
  assert (0 ≤ saturating_sub body_len (reserved_bytes l) ∧
    body_len ≤ reserved_bytes l + saturating_sub body_len (reserved_bytes l)) as [Hadd Hcover]
    by (unfold saturating_sub; lia).
  generalize dependent (saturating_sub body_len (reserved_bytes l)). intros add H Hadd Hcover.
  destruct (try_reserve st l add) as [[st1 l1] [[]|e]] eqn:Hres.
  - pose proof (reachable_action _ _ _ _ (AReserve add) _ _ _ Hr Hid
      ltac:(by repeat constructor) Hres) as Hr1.
    eapply try_reserve_ok in Hres as (-> & -> & _); [|done..].
    destruct (settle_body _ _ body_len) as [[st2 l2] [[]|e]] eqn:Hset; simplify_eq.
    + pose proof (reachable_action _ _ _ _ (ASettle body_len) _ _ _ Hr1
        (lookup_insert_eq _ _ _) ltac:(by repeat constructor) Hset) as Hr2.
      rewrite insert_insert_eq in Hr2. split; [done|].
      apply update_working_fields in Hset as (_ & _ & _ & _ & ->). done.
    + apply update_working_failed in Hset as (-> & -> & ->).
      rewrite drop_lease_reserved by lia. split_and!; [|done..]. by apply reachable_drop.
  - simplify_eq. apply try_reserve_failed in Hres as (-> & -> & ->).
    split_and!; [|done..]. by apply reachable_drop.
Qed.

(** ** A concrete run *)

Definition sample_policy : SizeAwareBodyPolicy :=
  {| max_working_bytes := 4 * 1024 * 1024; elastic_max_requests := None;
     reserved_small_requests := 2; workspace_multiplier := 2;
     upload_timeout := 30 * nanos_per_sec |}.
Definition sample_state : BodyAdmissionState :=
  {| configured_max_requests := 4; max_requests := 4; max_bytes := 1024 * 1024;
     active_requests := 0; active_bytes := 0; size_policy := Some sample_policy;
     working := {| ws_bytes := 0; ws_large_bytes := 0; ws_large_requests := 0 |} |}.

Lemma sample_reachable : reachable (sample_state, ∅).
Proof.
  exists (sample_state, ∅). split; [|done].
  exists 4, (1024 * 1024), (Some sample_policy), sample_state.
  unfold usize_max. split_and!; try lia; try done.
  intros p [= <-]. unfold usize_max. simpl. lia.
Qed.

(** One body of unknown length has been admitted. *)
Definition sample_lease : BodyAdmissionLease :=
  {| reserved_bytes := 0; admitted_at := 5; expected_length := None;
     allocation_capacity := 0; rewrite_capacity := 0; working_bytes := 65536; extent := 0;
     processing := true; compact_workspace := false; large := true |}.
Definition sample_held : BodyAdmissionState :=
  set_working {| ws_bytes := 65536; ws_large_bytes := 65536; ws_large_requests := 1 |}
    (set_active_requests 1 sample_state).

Lemma sample_held_reachable : reachable (sample_held, <[0%nat := sample_lease]> ∅).
Proof.
  assert (reachable (set_active_requests 1 sample_state,
    <[0%nat := fresh_lease (set_active_requests 1 sample_state) 5 None]> ∅)) as H.
  { eapply reachable_step; [apply sample_reachable|].
    by apply (step_admit _ _ _ 5 None 0 [] 1). }
  eapply (reachable_action _ _ 0%nat _ (APrepare 0 0)) in H;
    [|apply lookup_insert_eq|by repeat constructor|vm_compute; reflexivity].
  by rewrite insert_insert_eq in H.
Qed.

Lemma admission_bounds_witness :
  Z.of_nat (size (<[0%nat := sample_lease]> (∅ : gmap nat BodyAdmissionLease))) ≤ 4.
Proof. apply (admission_bounds _ _ sample_held_reachable). Defined.

Lemma accounts_exact_witness : active_requests sample_held = 1.
Proof. apply (accounts_exact _ _ sample_held_reachable). Defined.

Lemma small_body_admitted_witness :
  ∃ st' l, try_acquire_sized sample_held 7 (Some 1000) = (st', Ok l) ∧
    large l = false ∧ 0 < working_bytes l ≤ small_unit sample_policy.
Proof.
  apply (small_body_admitted _ _ sample_policy 7 1000 sample_held_reachable eq_refl).
  - by vm_compute.
  - intros id l H. vm_compute in H. by destruct id.
  - unfold SMALL_BODY_MAX_BYTES. lia.
Defined.

Lemma acquire_is_steps_witness :
  ∃ st' l, try_acquire_sized sample_state 5 (Some 10) = (st', Ok l) ∧
    reachable (st', <[3%nat := l]> ∅).
Proof.
  eexists _, _. split; [vm_compute; reflexivity|].
  eapply (acquire_is_steps sample_state ∅ 3 5 (Some 10) _ (Ok _) sample_reachable eq_refl eq_refl).
  vm_compute; reflexivity.
Defined.

Lemma into_bytes_is_steps_witness :
  ∃ st' l', into_bytes sample_held sample_lease 100 = (st', Ok l') ∧ 100 ≤ reserved_bytes l'.
Proof.
  eexists _, _. split; [vm_compute; reflexivity|].
  eapply (into_bytes_is_steps _ _ 0%nat sample_lease 100 _ (Ok _) sample_held_reachable);
    [done|lia|vm_compute; reflexivity].
Defined.
