(* ===== verification/AuthAdmission.v ===== *)
(** * Admission of unauthenticated requests

    The gateway guards expensive work twice with the same pattern: a semaphore
    of slots, and a second semaphore that bounds how many callers may wait for
    a slot; it is modelled first, for [RequestAdmission::acquire]
    ([crates/gateway-core/src/auth_admission.rs]) and [verify_in_background]
    ([crates/gateway-core/src/auth.rs]), which instantiate it with their own
    limits.  Then [crates/gateway-core/src/auth_admission.rs]: the per-source
    token buckets with their pruning, the request slots and the cheap
    credential checks.  [f64] is IEEE binary64.  The HTTP header map and
    [HeaderValue::to_str] are parameters; telemetry and mutex poisoning are not
    modelled. *)

From Stdlib Require Import SpecFloat.
From S2P Require Import Prelude Errors.
(** Free permits of the two semaphores. *)
Record Slots := { slots : Z; waiters : Z }.

Inductive entered : Type := Granted | Queued | Refused.

(** [slots.try_acquire()], else [waiters.try_acquire()]. *)
Definition enter (q : Slots) : Slots * entered :=
  if 0 <? slots q then ({| slots := slots q - 1; waiters := waiters q |}, Granted)
  else if 0 <? waiters q then ({| slots := slots q; waiters := waiters q - 1 |}, Queued)
  else (q, Refused).

(** A queued caller is handed a slot and leaves the waiting room. *)
Definition wake (q : Slots) : option Slots :=
  if 0 <? slots q then Some {| slots := slots q - 1; waiters := waiters q + 1 |} else None.

(** A queued caller times out or is cancelled. *)
Definition give_up_waiting (q : Slots) : Slots := {| slots := slots q; waiters := waiters q + 1 |}.

(** A worker is done: its permit is dropped. *)
Definition release (q : Slots) : Slots := {| slots := slots q + 1; waiters := waiters q |}.

(** How the wait of a queued caller ends; [None] while no slot is free. *)
Inductive waited : Type := Woken | TimedOut.
Definition finish_wait (q : Slots) (w : waited) : option (Slots * GatewayResult unit) :=
  match w with
  | Woken => (λ q, (q, Ok tt)) <$> wake q
  | TimedOut => Some (give_up_waiting q, Err AuthenticationOverloaded)
  end.

Section queue.
Variables max_slots max_waiters : Z.
Hypothesis max_slots_nonneg : 0 ≤ max_slots.
Hypothesis max_waiters_nonneg : 0 ≤ max_waiters.

(** The semaphores with the callers that hold or wait for a slot. *)
Record System := { q : Slots; running : Z; queued : Z }.

Definition initial : System :=
  {| q := {| slots := max_slots; waiters := max_waiters |}; running := 0; queued := 0 |}.

Inductive step : System → System → Prop :=
| step_granted s q' :
    enter (q s) = (q', Granted) → step s {| q := q'; running := running s + 1; queued := queued s |}
| step_queued s q' :
    enter (q s) = (q', Queued) → step s {| q := q'; running := running s; queued := queued s + 1 |}
| step_wake s q' :
    0 < queued s → finish_wait (q s) Woken = Some (q', Ok tt) →
    step s {| q := q'; running := running s + 1; queued := queued s - 1 |}
| step_time_out s q' e :
    0 < queued s → finish_wait (q s) TimedOut = Some (q', Err e) →
    step s {| q := q'; running := running s; queued := queued s - 1 |}
| step_release s :
    0 < running s →
    step s {| q := release (q s); running := running s - 1; queued := queued s |}.

Definition reachable (s : System) : Prop := rtc step initial s.

Definition Inv (s : System) : Prop :=
  slots (q s) + running s = max_slots ∧ waiters (q s) + queued s = max_waiters ∧
  0 ≤ slots (q s) ∧ 0 ≤ waiters (q s) ∧ 0 ≤ running s ∧ 0 ≤ queued s.

Lemma slots_Inv_step s s' : Inv s → step s s' → Inv s'.
Proof.
  unfold Inv. intros HI Hs. destruct Hs; unfold enter, wake in *; simpl in *; unfold wake in *;
    simplify_eq/=; repeat (case_match; simplify_eq/=); bool_prop; simpl; lia.
Qed.

Lemma slots_reachable_Inv s : reachable s → Inv s.
Proof using max_slots_nonneg max_waiters_nonneg.
  intros Hr. assert (Inv initial) as HI by (unfold Inv; simpl; lia).
  unfold reachable in Hr. induction Hr; [done|]. eauto using slots_Inv_step.
Qed.

(** At any moment at most [max_slots] callers work and [max_waiters] wait,
    and a caller is turned away exactly when both limits are reached. *)
Theorem slots_bounded s :
  reachable s →
  running s ≤ max_slots ∧ queued s ≤ max_waiters ∧
  ((enter (q s)).2 = Refused ↔ running s = max_slots ∧ queued s = max_waiters).
Proof using max_slots_nonneg max_waiters_nonneg.
  intros HI%slots_reachable_Inv. unfold Inv in HI. split; [lia|split; [lia|]].
  unfold enter. destruct (Z.ltb_spec 0 (slots (q s))), (Z.ltb_spec 0 (waiters (q s))); simpl;
    (split; [try done; lia|intros; try lia; try done]).
Qed.
End queue.

Lemma slots_bounded_witness :
  running {| q := {| slots := 63; waiters := 128 |}; running := 1; queued := 0 |} ≤ 64.
Proof.
  apply (slots_bounded 64 128); [lia..|]. apply rtc_once.
  by apply (step_granted (initial 64 128)).
Defined.

Definition DEFAULT_SOURCE_RPS : Z := 100.
Definition DEFAULT_SOURCE_BURST : Z := 200.
Definition SOURCE_CAPACITY : Z := 4096.
Definition SOURCE_TTL : Z := 60 * nanos_per_sec.
Definition MAX_KEY_BYTES : Z := 1024.
Definition MAX_CREDENTIAL_HEADER_BYTES : Z := 16 * 1024.
Definition REQUEST_SLOTS : Z := 64.
Definition REQUEST_WAITERS : Z := 128.

(** Addresses as 32-bit and 128-bit numbers. *)
Inductive IpAddr : Type := V4 (bits : Z) | V6 (bits : Z).
#[export] Instance IpAddr_eq_dec : EqDecision IpAddr.
Proof. solve_decision. Defined.
#[export] Program Instance IpAddr_countable : Countable IpAddr :=
  inj_countable' (λ ip, match ip with V4 b => inl b | V6 b => inr b end)
    (λ x, match x with inl b => V4 b | inr b => V6 b end) _.
Next Obligation. by intros []. Qed.

(** [::ffff:a.b.c.d]. *)
Definition to_ipv4_mapped (bits : Z) : option Z :=
  if Z.shiftr bits 32 =? 0xffff then Some (Z.land bits 0xffffffff) else None.

Record Bucket := { tokens : f64; updated : Z }.
Record Sources := { buckets : gmap (option IpAddr) Bucket; last_prune : Z }.
Record RequestAdmission := { admission_slots : Slots; sources : Sources; rps : Z; burst : Z }.

Definition new (rps burst now : Z) : GatewayResult RequestAdmission :=
  if negb (in_range 1 1000000 rps) || negb (in_range 1 1000000 burst)
  then Err InvalidConfiguration
  else Ok {| admission_slots := {| slots := REQUEST_SLOTS; waiters := REQUEST_WAITERS |};
             sources := {| buckets := ∅; last_prune := now |};
             rps := rps; burst := burst |}.

(** [Duration::as_secs_f64]. *)
Definition as_secs_f64 (d : Z) : f64 :=
  f64_add (f64_of_Z (d `div` nanos_per_sec))
    (f64_div (f64_of_Z (d `mod` nanos_per_sec)) (f64_of_Z nanos_per_sec)).

Definition normalize_peer (peer : option IpAddr) : option IpAddr :=
  (λ ip, match ip with
         | V6 v6 => default ip (V4 <$> to_ipv4_mapped v6)
         | V4 _ => ip
         end) <$> peer.

Definition refilled (rps : Z) (b : Bucket) (idle : Z) : f64 :=
  f64_add (tokens b) (f64_mul (as_secs_f64 idle) (f64_of_Z rps)).

Definition retained (rps burst now : Z) (b : Bucket) : bool :=
  let idle := duration_since now (updated b) in
  (idle <? SOURCE_TTL) || f64_ltb (refilled rps b idle) (f64_of_Z burst).

Definition prune (rps burst : Z) (s : Sources) (now : Z) : Sources :=
  if nanos_per_sec <=? duration_since now (last_prune s) then
    {| buckets := filter (λ kv, retained rps burst now kv.2 = true) (buckets s);
       last_prune := now |}
  else s.

Definition check_source (rps burst : Z) (s : Sources) (peer : option IpAddr) (now : Z) :
    Sources * GatewayResult unit :=
  let peer := normalize_peer peer in
  let s := prune rps burst s now in
  if is_none (buckets s !! peer) && (SOURCE_CAPACITY <=? Z.of_nat (size (buckets s)))
  then (s, Err AuthenticationOverloaded)
  else
    let bucket := default {| tokens := f64_of_Z burst; updated := now |} (buckets s !! peer) in
    let level :=
      f64_min (refilled rps bucket (duration_since now (updated bucket))) (f64_of_Z burst) in
    if f64_ltb level (f64_of_Z 1) then
      ({| buckets := <[peer := {| tokens := level; updated := now |}]> (buckets s);
          last_prune := last_prune s |}, Err SourceRateLimitExceeded)
    else
      ({| buckets := <[peer := {| tokens := f64_sub level (f64_of_Z 1); updated := now |}]>
                       (buckets s);
          last_prune := last_prune s |}, Ok tt).

(** [acquire] up to its only suspension point: a slot is [Granted] at once,
    or the caller is [Queued] and goes on with [AuthAdmission.finish_wait]. *)
Definition acquire (ra : RequestAdmission) (peer : option IpAddr) (now : Z) :
    RequestAdmission * GatewayResult entered :=
  match check_source (rps ra) (burst ra) (sources ra) peer now with
  | (s, Err e) =>
      ({| admission_slots := admission_slots ra; sources := s; rps := rps ra; burst := burst ra |},
       Err e)
  | (s, Ok _) =>
      let (q, e) := enter (admission_slots ra) in
      ({| admission_slots := q; sources := s; rps := rps ra; burst := burst ra |},
       match e with Refused => Err AuthenticationOverloaded | _ => Ok e end)
  end.

(** ** Credential text *)

Definition validate_key_text (value : string) : GatewayResult unit :=
  if (MAX_KEY_BYTES <? len value)
     || negb (all_bytes (λ b, is_ascii_graphic b && negb (Ascii.eqb b ","%char)) value)
  then Err MalformedAuthorization
  else Ok tt.

Section headers.
(** [HeaderMap::get_all] and [HeaderValue::to_str]. *)
Variable get_all : string → list string.
Variable to_str : string → option string.

Definition validate_credential_value (key_header name value : string) : GatewayResult unit :=
  let? value := ok_or (to_str value) MalformedAuthorization in
  if String.eqb name key_header then
    check? validate_key_text (trim value) in
    if negb (starts_with (trim value) "rk_live_") || (len (trim value) <=? 16)
    then Err MalformedAuthorization else Ok tt
  else if String.eqb name "authorization" then
    let? token := ok_or (strip_prefix "Bearer " value) MalformedAuthorization in
    let token := trim token in
    if is_empty token || negb (all_bytes is_ascii_graphic token) then Err MalformedAuthorization
    else if starts_with token "rk_live_" then validate_key_text token
    else Ok tt
  else Ok tt.

Definition credential_names (key_header : string) : list string :=
  ["authorization"; key_header; "x-apigee-entra-identity"; "x-apigee-entra-signature";
   "x-relayna-admission-context"; "x-relayna-worker-token"].

Definition validate_credential_headers (key_header : string) : GatewayResult unit :=
  try_for_each (λ name,
    match get_all name with
    | [] => Ok tt
    | value :: more =>
        if negb (is_nil more) || (MAX_CREDENTIAL_HEADER_BYTES <? len value)
        then Err MalformedAuthorization
        else validate_credential_value key_header name value
    end) (credential_names key_header).
End headers.

(** ** Source buckets *)

(** The map of buckets never outgrows [SOURCE_CAPACITY]. *)
Definition sources_wf (s : Sources) : Prop := Z.of_nat (size (buckets s)) ≤ SOURCE_CAPACITY.

Lemma filter_size (P : option IpAddr * Bucket → Prop) `{∀ x, Decision (P x)}
    (m : gmap (option IpAddr) Bucket) :
  (size (filter P m) ≤ size m)%nat.
Proof. apply map_subseteq_size, map_filter_subseteq. Qed.

Lemma prune_wf rps burst s now : sources_wf s → sources_wf (prune rps burst s now).
Proof.
  unfold sources_wf, prune. destruct (_ <=? _); [simpl|done]. intros H.
  pose proof (filter_size (λ kv, retained rps burst now kv.2 = true) (buckets s)). lia.
Qed.

Lemma insert_wf s peer b lp :
  sources_wf s →
  is_none (buckets s !! peer) && (SOURCE_CAPACITY <=? Z.of_nat (size (buckets s))) = false →
  sources_wf {| buckets := <[peer := b]> (buckets s); last_prune := lp |}.
Proof.
  unfold sources_wf. simpl. intros Hs Hfull. destruct (buckets s !! peer) as [b'|] eqn:E.
  - rewrite map_size_insert_Some by done. done.
  - rewrite map_size_insert_None by done. simpl in Hfull. bool_prop. lia.
Qed.

Lemma check_source_wf rps burst s peer now :
  sources_wf s → sources_wf (check_source rps burst s peer now).1.
Proof.
  intros Hs%(prune_wf rps burst _ now). unfold check_source.
  destruct (_ && _) eqn:Hfull; [done|]. case_match; by apply insert_wf.
Qed.

Lemma prune_lookup rps burst s now k b :
  buckets s !! k = Some b → retained rps burst now b = true →
  buckets (prune rps burst s now) !! k = Some b.
Proof.
  intros Hk Hr. unfold prune. destruct (_ <=? _); [|done]. simpl.
  by apply map_lookup_filter_Some.
Qed.

Lemma prune_subseteq rps burst s now : buckets (prune rps burst s now) ⊆ buckets s.
Proof. unfold prune. destruct (_ <=? _); [apply map_filter_subseteq|done]. Qed.

(** Requests of other sources neither read nor change a bucket in use: one
    that was touched within [SOURCE_TTL] or is not yet full again stays as it
    is, whatever address the other request claims. *)
Theorem active_bucket_kept rps burst s peer now other b :
  buckets s !! other = Some b → other ≠ normalize_peer peer →
  retained rps burst now b = true →
  buckets (check_source rps burst s peer now).1 !! other = Some b.
Proof.
  intros Hb Hne Hr. pose proof (prune_lookup _ _ _ _ _ _ Hb Hr) as Hp.
  unfold check_source. destruct (_ && _); [done|].
  case_match; simpl; by rewrite lookup_insert_ne.
Qed.

(** A request is refused for lack of room only when its source is unknown
    and the map is full of buckets in use. *)
Theorem capacity_refusal rps burst s peer now :
  (check_source rps burst s peer now).2 = Err AuthenticationOverloaded ↔
  buckets (prune rps burst s now) !! normalize_peer peer = None ∧
  SOURCE_CAPACITY ≤ Z.of_nat (size (buckets (prune rps burst s now))).
Proof.
  unfold check_source. destruct (_ && _) eqn:Hfull.
  - bool_prop. split; [intros _|done]. split; [|done].
    by destruct (buckets (prune rps burst s now) !! normalize_peer peer).
  - split; [by case_match|]. intros [Hn Hs]. rewrite Hn in Hfull. simpl in Hfull. bool_prop. lia.
Qed.

(** *** Forgetting a full bucket is unobservable *)

Definition f64_is_zero (x : f64) : bool := match x with S754_zero _ => true | _ => false end.

Lemma f64_compare_eq x y :
  SFcompare x y = Some Eq → x = y ∨ f64_is_zero x = true ∧ f64_is_zero y = true.
Proof.
  destruct x as [?|[]| |[] m e], y as [?|[]| |[] m' e']; simpl; auto; try done;
    destruct (Z.compare_spec e e') as [->| |]; try done; intros [= H];
    change (Pos.compare_cont Eq) with Pos.compare in H; left;
    destruct (Pos.compare_spec m m') as [->| |]; done.
Qed.

(** A level that is not below a non-zero ceiling is cut to the ceiling. *)
Lemma f64_min_full x y :
  f64_ltb x y = false → f64_is_nan y = false → f64_is_zero y = false → f64_min x y = y.
Proof.
  intros Hlt Hn Hz. unfold f64_min. rewrite Hn. destruct (f64_is_nan x) eqn:Hx; [done|].
  unfold f64_leb, f64_ltb, SFleb, SFltb in *.
  destruct (SFcompare x y) as [[]|] eqn:E; try done.
  apply f64_compare_eq in E as [->|[_ E]]; [done|congruence].
Qed.

(** Adding a product with zero never lowers a value. *)
Lemma f64_add_zero_product x y :
  f64_ltb (f64_add x (f64_mul (S754_zero false) y)) x = false.
Proof.
  unfold f64_ltb, f64_add, f64_mul.
  destruct x as [[]|[]| |[] m e], y as [[]|[]| |[] m' e']; try done; simpl;
    unfold SFltb, SFcompare; rewrite ?Z.compare_refl, ?Pos.compare_cont_refl; try done;
    by rewrite Pos.compare_refl.
Qed.

(** The bucket after a request that finds it at [level]. *)
Definition spend (level : f64) : f64 * GatewayResult unit :=
  if f64_ltb level (f64_of_Z 1) then (level, Err SourceRateLimitExceeded)
  else (f64_sub level (f64_of_Z 1), Ok tt).

Definition level_at (rps burst now : Z) (b : Bucket) : f64 :=
  f64_min (refilled rps b (duration_since now (updated b))) (f64_of_Z burst).

Lemma check_source_spend rps burst s peer now :
  is_none (buckets (prune rps burst s now) !! normalize_peer peer)
    && (SOURCE_CAPACITY <=? Z.of_nat (size (buckets (prune rps burst s now)))) = false →
  let b := default {| tokens := f64_of_Z burst; updated := now |}
             (buckets (prune rps burst s now) !! normalize_peer peer) in
  check_source rps burst s peer now =
  ({| buckets := <[normalize_peer peer :=
                     {| tokens := (spend (level_at rps burst now b)).1; updated := now |}]>
                   (buckets (prune rps burst s now));
      last_prune := last_prune (prune rps burst s now) |},
   (spend (level_at rps burst now b)).2).
Proof.
  intros Hfull b. unfold check_source. rewrite Hfull. fold b. unfold spend, level_at.
  by destruct (f64_ltb _ _).
Qed.

Lemma as_secs_zero : as_secs_f64 0 = S754_zero false.
Proof. by vm_compute. Qed.

Section refill.
Variables rps burst : Z.
Hypothesis burst_number : f64_is_nan (f64_of_Z burst) = false.
Hypothesis burst_nonzero : f64_is_zero (f64_of_Z burst) = false.

Lemma fresh_level now :
  level_at rps burst now {| tokens := f64_of_Z burst; updated := now |} = f64_of_Z burst.
Proof using burst_number burst_nonzero.
  unfold level_at, refilled, duration_since. simpl. rewrite Z.sub_diag, Z.max_id, as_secs_zero.
  apply f64_min_full; [apply f64_add_zero_product|done..].
Qed.

Lemma forgotten_level now b :
  retained rps burst now b = false → level_at rps burst now b = f64_of_Z burst.
Proof using burst_number burst_nonzero.
  unfold retained, level_at. intros H. bool_prop. by apply f64_min_full.
Qed.

(** A source that finds room and a full bucket, or none. *)
Lemma full_outcome s peer now :
  (buckets (prune rps burst s now) !! normalize_peer peer = None →
   Z.of_nat (size (buckets (prune rps burst s now))) < SOURCE_CAPACITY) →
  (∀ b, buckets (prune rps burst s now) !! normalize_peer peer = Some b →
        level_at rps burst now b = f64_of_Z burst) →
  (check_source rps burst s peer now).2 = (spend (f64_of_Z burst)).2 ∧
  buckets (check_source rps burst s peer now).1 !! normalize_peer peer =
  Some {| tokens := (spend (f64_of_Z burst)).1; updated := now |}.
Proof using burst_number burst_nonzero.
  intros Hroom Hfull. rewrite check_source_spend.
  - simpl. rewrite lookup_insert_eq.
    assert (level_at rps burst now (default {| tokens := f64_of_Z burst; updated := now |}
      (buckets (prune rps burst s now) !! normalize_peer peer)) = f64_of_Z burst) as ->; [|done].
    destruct (_ !! _) as [b|]; [by apply Hfull|apply fresh_level].
  - destruct (_ !! _); [done|]. simpl. apply Z.leb_gt. auto.
Qed.

(** Pruning loses nothing: a source whose bucket may be forgotten is treated
    as one that was never seen, and its bucket ends up the same. *)
Theorem forgotten_source_afresh s peer now b :
  sources_wf s → buckets s !! normalize_peer peer = Some b → retained rps burst now b = false →
  let s0 := {| buckets := delete (normalize_peer peer) (buckets s); last_prune := last_prune s |} in
  (check_source rps burst s peer now).2 = (check_source rps burst s0 peer now).2 ∧
  buckets (check_source rps burst s peer now).1 !! normalize_peer peer =
  buckets (check_source rps burst s0 peer now).1 !! normalize_peer peer.
Proof using burst_number burst_nonzero.
  intros Hs Hb Hr s0. set (p := normalize_peer peer) in *.
  assert (∀ m, m ⊆ delete p (buckets s) → Z.of_nat (size m) < SOURCE_CAPACITY) as Hroom.
  { intros m Hm%map_subseteq_size. rewrite map_size_delete_Some in Hm by done.
    unfold sources_wf in Hs. assert (size (buckets s) ≠ 0%nat); [|lia].
    intros E%map_size_empty_inv. by rewrite E in Hb. }
  assert (buckets (prune rps burst s0 now) ⊆ delete p (buckets s)) as Hsub
    by apply (prune_subseteq rps burst s0 now).
  destruct (full_outcome s peer now) as [E1 E2]; try (fold p).
  - intros Hn. apply Hroom, map_subseteq_spec. intros k b' Hk. apply lookup_delete_Some.
    split; [congruence|]. by eapply lookup_weaken, prune_subseteq.
  - intros b' Hb'. eapply lookup_weaken in Hb'; [|apply prune_subseteq]. simplify_eq.
    by apply forgotten_level.
  - destruct (full_outcome s0 peer now) as [E3 E4]; try (fold p); [auto| |unfold p; by rewrite E1, E2, E3, E4].
    intros b' Hb'. eapply lookup_weaken in Hb'; [|exact Hsub].
    by rewrite lookup_delete_eq in Hb'.
Qed.
End refill.

(** *** The burst is exact *)

(** The decisions on [n] requests of one source at one instant. *)
Fixpoint checks (rps burst : Z) (n : nat) (s : Sources) (peer : option IpAddr) (now : Z) :
    list (GatewayResult unit) :=
  match n with
  | O => []
  | S n => (check_source rps burst s peer now).2
           :: checks rps burst n (check_source rps burst s peer now).1 peer now
  end.

(** Later requests of the same instant only spend. *)
Lemma same_instant rps burst s peer now t :
  buckets s !! normalize_peer peer = Some {| tokens := t; updated := now |} →
  let level := f64_min (f64_add t (f64_mul (S754_zero false) (f64_of_Z rps))) (f64_of_Z burst) in
  (check_source rps burst s peer now).2 = (spend level).2 ∧
  buckets (check_source rps burst s peer now).1 !! normalize_peer peer =
  Some {| tokens := (spend level).1; updated := now |}.
Proof.
  intros Hb level.
  assert (buckets (prune rps burst s now) !! normalize_peer peer
          = Some {| tokens := t; updated := now |}) as Hp.
  { apply prune_lookup; [done|]. unfold retained, duration_since. simpl. by rewrite Z.sub_diag. }
  rewrite check_source_spend by by rewrite Hp. simpl. rewrite lookup_insert_eq, Hp. simpl.
  unfold level_at, refilled, duration_since. simpl. by rewrite Z.sub_diag, Z.max_id, as_secs_zero.
Qed.

Definition default_level (k : nat) : f64 := f64_of_Z (DEFAULT_SOURCE_BURST - Z.of_nat k).

Definition default_spend (t : f64) : f64 * GatewayResult unit :=
  spend (f64_min (f64_add t (f64_mul (S754_zero false) (f64_of_Z DEFAULT_SOURCE_RPS)))
           (f64_of_Z DEFAULT_SOURCE_BURST)).

Lemma default_spend_ok k :
  (k < 200)%nat → default_spend (default_level k) = (default_level (S k), Ok tt).
Proof.
  intros Hk.
  assert (forallb (λ k, match default_spend (default_level k) with
    | (t, Ok _) => match SFcompare t (default_level (S k)), default_level (S k) with
                   | Some Eq, S754_finite _ _ _ => true
                   | Some Eq, S754_zero false => match t with S754_zero false => true | _ => false end
                   | _, _ => false end
    | _ => false end) (seq 0 200) = true) as H by (vm_compute; reflexivity).
  rewrite forallb_forall in H. specialize (H k). rewrite in_seq in H. specialize (H ltac:(lia)).
  destruct (default_spend (default_level k)) as [t [[]|]]; [|done].
  destruct (SFcompare t (default_level (S k))) as [[]|] eqn:E; try done.
  apply f64_compare_eq in E as [->|[Hz Hz']]; [done|].
  destruct (default_level (S k)) as [[]|?| |? ? ?]; try done. by destruct t as [[]|?| |? ? ?].
Qed.

Lemma default_spend_empty :
  default_spend (default_level 200) = (default_level 200, Err SourceRateLimitExceeded).
Proof. by vm_compute. Qed.

Lemma checks_from n k s peer now :
  (k ≤ 200)%nat →
  buckets s !! normalize_peer peer = Some {| tokens := default_level k; updated := now |} →
  checks DEFAULT_SOURCE_RPS DEFAULT_SOURCE_BURST n s peer now =
  replicate (min n (200 - k)) (Ok tt) ++
  replicate (n - (200 - k)) (Err SourceRateLimitExceeded).
Proof.
  revert k s. induction n as [|n IH]; intros k s Hk Hb; [done|]. cbn [checks].
  destruct (same_instant DEFAULT_SOURCE_RPS DEFAULT_SOURCE_BURST _ _ _ _ Hb) as [Hr Hb'].
  fold (default_spend (default_level k)) in Hr, Hb'.
  destruct (decide (k = 200%nat)) as [->|Hne].
  - rewrite default_spend_empty in Hr, Hb'. rewrite Hr, (IH 200%nat) by done.
    change (200 - 200)%nat with 0%nat. by rewrite !Nat.min_0_r, !Nat.sub_0_r.
  - rewrite default_spend_ok in Hr, Hb' by lia. rewrite Hr, (IH (S k)) by (done || lia).
    replace (200 - k)%nat with (S (200 - S k)) by lia. done.
Qed.

(** With the default limits a new source gets exactly
    [DEFAULT_SOURCE_BURST] requests through at one instant; every further one
    is refused with the source rate limit. *)
Theorem default_burst_exact s peer now n :
  buckets (prune DEFAULT_SOURCE_RPS DEFAULT_SOURCE_BURST s now) !! normalize_peer peer = None →
  Z.of_nat (size (buckets (prune DEFAULT_SOURCE_RPS DEFAULT_SOURCE_BURST s now)))
    < SOURCE_CAPACITY →
  checks DEFAULT_SOURCE_RPS DEFAULT_SOURCE_BURST n s peer now =
  replicate (min n 200) (Ok tt) ++ replicate (n - 200) (Err SourceRateLimitExceeded).
Proof.
  intros Hn Hroom. destruct n as [|n]; [done|]. cbn [checks].
  destruct (full_outcome DEFAULT_SOURCE_RPS DEFAULT_SOURCE_BURST eq_refl eq_refl s peer now)
    as [-> Hb]; [done|by rewrite Hn|].
  assert (spend (f64_of_Z DEFAULT_SOURCE_BURST) = (default_level 1, Ok tt)) as E
    by (vm_compute; reflexivity).
  rewrite E in Hb |- *. cbn [fst snd] in *. by rewrite (checks_from n 1) by (done || lia).
Qed.

(** ** Concrete states *)

Definition sample_source : option IpAddr := Some (V4 167772161).
Definition sample_sources : Sources :=
  {| buckets := {[ sample_source := {| tokens := f64_of_Z 3; updated := 0 |} ]}; last_prune := 0 |}.

(** An IPv4-mapped IPv6 peer shares the bucket of the IPv4 address. *)
Example mapped_peer : normalize_peer (Some (V6 (0xffff * 2 ^ 32 + 167772161))) = sample_source.
Proof. done. Qed.

Lemma active_bucket_kept_witness :
  buckets (check_source 100 200 sample_sources None (30 * nanos_per_sec)).1 !! sample_source =
  Some {| tokens := f64_of_Z 3; updated := 0 |}.
Proof. by apply active_bucket_kept. Defined.

Lemma forgotten_source_afresh_witness :
  (check_source 100 200 sample_sources sample_source (70 * nanos_per_sec)).2 =
  (check_source 100 200
     {| buckets := delete (normalize_peer sample_source) (buckets sample_sources);
        last_prune := last_prune sample_sources |} sample_source (70 * nanos_per_sec)).2.
Proof.
  refine (proj1 (forgotten_source_afresh 100 200 _ _ sample_sources sample_source
    (70 * nanos_per_sec) {| tokens := f64_of_Z 3; updated := 0 |} _ _ _)).
  - vm_compute; reflexivity.
  - vm_compute; reflexivity.
  - vm_compute; discriminate.
  - vm_compute; reflexivity.
  - vm_compute; reflexivity.
Defined.

Lemma default_burst_exact_witness :
  checks DEFAULT_SOURCE_RPS DEFAULT_SOURCE_BURST 202 sample_sources None 5 =
  replicate 200 (Ok tt) ++ replicate 2 (Err SourceRateLimitExceeded).
Proof. apply (default_burst_exact sample_sources None 5 202); vm_compute; reflexivity. Defined.
