(* ===== verification/VerificationCache.v ===== *)
(** * The cache of successful secret verifications

    Models [crates/gateway-core/src/verification_cache.rs]: the FIFO entries,
    both eviction loops, the process-wide cell that holds the cache and the
    message the proof authenticates.  HMAC-SHA-256 and the entropy source are
    parameters.  Zeroization and mutex poisoning are not modelled. *)

From S2P Require Import Prelude.

Definition Proof_ : Type := string.
Definition CAPACITY : Z := 1024.
Definition TTL : Z := 60 * nanos_per_sec.

Record Entries := { proofs : gmap Proof_ Z; order : list Proof_ }.
Definition Entries_default : Entries := {| proofs := ∅; order := [] |}.

Definition remove_oldest (e : Entries) : Entries :=
  match order e with
  | [] => e
  | oldest :: rest => {| proofs := delete oldest (proofs e); order := rest |}
  end.

Definition contains (e : Entries) (proof : Proof_) (now : Z) : bool :=
  is_some_and (λ verified, duration_since now verified <? TTL) (proofs e !! proof).

(** Both [while] loops remove from the front until [stop] holds there. *)
Fixpoint evict (stop : Entries → Proof_ → bool) (ps : gmap Proof_ Z) (o : list Proof_) : Entries :=
  match o with
  | [] => {| proofs := ps; order := [] |}
  | oldest :: rest =>
      if stop {| proofs := ps; order := o |} oldest then {| proofs := ps; order := o |}
      else evict stop (delete oldest ps) rest
  end.

Definition purge_expired (e : Entries) (now : Z) : Entries :=
  evict (λ e proof, contains e proof now) (proofs e) (order e).

Definition insert_keeps (now : Z) (e : Entries) (oldest : Proof_) : bool :=
  (Z.of_nat (size (proofs e)) <? CAPACITY) && contains e oldest now.

Definition insert (e : Entries) (proof : Proof_) (now : Z) : Entries :=
  if contains e proof now then e
  else
    let e := evict (insert_keeps now) (proofs e) (order e) in
    match proofs e !! proof with
    | Some _ => e
    | None => {| proofs := <[proof := now]> (proofs e); order := order e ++ [proof] |}
    end.

(** The loops are the ones of the source: test the front, [remove_oldest]. *)
Lemma evict_unfold stop e :
  evict stop (proofs e) (order e) =
  if is_some_and (λ oldest, negb (stop e oldest)) (head (order e))
  then evict stop (proofs (remove_oldest e)) (order (remove_oldest e)) else e.
Proof. destruct e as [ps [|oldest rest]]; [done|]. simpl. by destruct (stop _ oldest). Qed.

(** Evicting only forgets, and inserting adds at most the new proof. *)
Lemma evict_subseteq stop ps o : proofs (evict stop ps o) ⊆ ps.
Proof.
  revert ps. induction o as [|oldest o IH]; intros ps; [done|]. cbn [evict].
  destruct (stop _ _); [done|]. etrans; [apply IH|apply delete_subseteq].
Qed.

Lemma insert_origin e p now q t :
  proofs (insert e p now) !! q = Some t → proofs e !! q = Some t ∨ q = p.
Proof.
  unfold insert. destruct (contains e p now); [auto|].
  pose proof (evict_subseteq (insert_keeps now) (proofs e) (order e)) as Hsub.
  destruct (proofs (evict _ _ _) !! p); simpl.
  - intros H. left. by eapply lookup_weaken.
  - intros [[<- _]|[_ H]]%lookup_insert_Some; [auto|left; by eapply lookup_weaken].
Qed.

(** ** The process-wide cell *)

Record VerificationCache := { secret : string; entries : Entries }.

(** [OnceLock<Option<VerificationCache>>]. *)
Definition Cell : Type := option (option VerificationCache).

(** [entropy] is what [OsRng] yields, [None] when it fails. *)
Definition cache (entropy : option string) (c : Cell) : option VerificationCache :=
  match c with
  | Some v => v
  | None => (λ s, {| secret := s; entries := Entries_default |}) <$> entropy
  end.

Definition set_entries (vc : VerificationCache) (e : Entries) : VerificationCache :=
  {| secret := secret vc; entries := e |}.

Definition cell_contains (entropy : option string) (c : Cell) (proof : option Proof_) (now : Z) : bool :=
  match cache entropy c, proof with
  | Some vc, Some p => contains (entries vc) p now
  | _, _ => false
  end.

Definition cell_insert (entropy : option string) (c : Cell) (proof : option Proof_) (now : Z) : Cell :=
  Some (match cache entropy c, proof with
        | Some vc, Some p => Some (set_entries vc (insert (entries vc) p now))
        | r, _ => r
        end).

Definition cell_purge_expired (c : Cell) (now : Z) : Cell :=
  match c with
  | Some (Some vc) => Some (Some (set_entries vc (purge_expired (entries vc) now)))
  | _ => c
  end.

(** ** The authenticated message *)

Fixpoint le_bytes (k : nat) (n : Z) : string :=
  match k with
  | O => ""
  | S k => String (ascii_of_N (Z.to_N (n `mod` 256))) (le_bytes k (n `div` 256))
  end.

Definition proof_message (id raw encoded_hash : string) : string :=
  id +:+ le_bytes 8 (len encoded_hash) +:+ encoded_hash +:+ raw.

(** [hmac key message]: [None] when the key is refused. *)
Definition proof (hmac : string → string → option Proof_) (vc : option VerificationCache)
    (id raw encoded_hash : string) : option Proof_ :=
  vc ≫= λ vc, hmac (secret vc) (proof_message id raw encoded_hash).

(** ** Specification: a queue of verified proofs, oldest first *)

Definition Queue : Type := list (Proof_ * Z).

Definition fresh (now t : Z) : bool := duration_since now t <? TTL.

Definition queue_contains (q : Queue) (p : Proof_) (now : Z) : bool :=
  existsb (λ x, String.eqb x.1 p && fresh now x.2) q.

Definition queue_purge (q : Queue) (now : Z) : Queue := filter (λ x, fresh now x.2 = true) q.

(** The newest [n] elements. *)
Definition newest (n : nat) (q : Queue) : Queue := drop (length q - n) q.

Definition queue_insert (q : Queue) (p : Proof_) (now : Z) : Queue :=
  if queue_contains q p now then q
  else newest (Z.to_nat (CAPACITY - 1)) (queue_purge q now) ++ [(p, now)].

Definition of_queue (q : Queue) : Entries := {| proofs := list_to_map q; order := q.*1 |}.

(** The queues that arise at time [now]. *)
Definition queue_wf (now : Z) (q : Queue) : Prop :=
  NoDup q.*1 ∧ StronglySorted Z.le q.*2 ∧ Forall (λ t, t ≤ now) q.*2 ∧
  Z.of_nat (length q) ≤ CAPACITY.

Lemma queue_contains_iff q p now :
  queue_contains q p now = true ↔ ∃ t, (p, t) ∈ q ∧ fresh now t = true.
Proof.
  unfold queue_contains. rewrite existsb_exists. split.
  - intros ([p' t] & Hin%list_elem_of_In & [E%String.eqb_eq Hf]%andb_true_iff).
    simpl in *. subst. eauto.
  - intros (t & Hin & Hf). exists (p, t). rewrite <- list_elem_of_In. split; [done|].
    simpl. by rewrite String.eqb_refl.
Qed.

Lemma contains_queue q p now :
  NoDup q.*1 → contains (of_queue q) p now = queue_contains q p now.
Proof.
  intros Hnd. apply eq_true_iff_eq. rewrite queue_contains_iff. unfold contains, fresh. simpl.
  destruct (list_to_map q !! p) as [t|] eqn:E; simpl.
  - split; [intros Hf; exists t; by rewrite (elem_of_list_to_map (M := gmap Proof_))|].
    intros (t' & Hin & Hf). apply (elem_of_list_to_map (M := gmap Proof_)) in Hin; [|done].
    by simplify_eq.
  - split; [done|]. intros (t & Hin & _).
    apply (elem_of_list_to_map (M := gmap Proof_)) in Hin; [|done]. congruence.
Qed.

Lemma of_queue_tail p t q :
  NoDup ((p, t) :: q).*1 →
  {| proofs := delete p (list_to_map ((p, t) :: q)); order := q.*1 |} = of_queue q.
Proof.
  intros Hnd. inversion Hnd; subst. unfold of_queue. simpl.
  rewrite delete_insert_id; [done|]. by apply not_elem_of_list_to_map.
Qed.

(** The front of a queue is fresh in the map iff its own time is. *)
Lemma contains_front p t q now : contains (of_queue ((p, t) :: q)) p now = fresh now t.
Proof. unfold contains. simpl. by rewrite lookup_insert_eq. Qed.

Fixpoint queue_drop (stop : Queue → Z → bool) (q : Queue) : Queue :=
  match q with
  | [] => []
  | (p, t) :: rest => if stop q t then q else queue_drop stop rest
  end.

Lemma evict_queue stop stop' q :
  (∀ p t q, NoDup ((p, t) :: q).*1 →
     stop (of_queue ((p, t) :: q)) p = stop' ((p, t) :: q) t) →
  NoDup q.*1 → evict stop (list_to_map q) q.*1 = of_queue (queue_drop stop' q).
Proof.
  intros Hs. induction q as [|[p t] q IH]; intros Hnd; [done|].
  change (evict stop (list_to_map ((p, t) :: q)) (p :: q.*1) = of_queue (queue_drop stop' ((p, t) :: q))).
  simpl queue_drop. rewrite <- Hs by done. cbn [evict].
  change {| proofs := list_to_map ((p, t) :: q); order := p :: q.*1 |} with (of_queue ((p, t) :: q)).
  destruct (stop _ p); [done|]. inversion Hnd; subst.
  rewrite <- IH by done. f_equal.
  pose proof (f_equal proofs (of_queue_tail p t q Hnd)) as E. exact E.
Qed.

Lemma fresh_mono now t t' : t ≤ t' → fresh now t = true → fresh now t' = true.
Proof. unfold fresh, duration_since. rewrite !Z.ltb_lt. lia. Qed.

Lemma filter_all {A} (P : A → Prop) `{∀ x, Decision (P x)} (l : list A) :
  Forall P l → filter P l = l.
Proof. induction 1 as [|x l Hx Hl IH]; [done|]. by rewrite filter_cons_True, IH. Qed.

(** Once the front is fresh, everything is. *)
Lemma purge_fresh_front now p t q :
  StronglySorted Z.le ((p, t) :: q).*2 → fresh now t = true →
  queue_purge ((p, t) :: q) now = (p, t) :: q.
Proof.
  intros Hs Hf. unfold queue_purge. apply filter_all. apply Forall_forall.
  intros [p' t'] Hin. simpl. apply (fresh_mono _ t); [|done].
  apply elem_of_cons in Hin as [[= -> ->]|Hin]; [done|].
  simpl in Hs. inversion Hs as [|? ? _ Hall]; subst. rewrite Forall_forall in Hall.
  apply Hall, list_elem_of_fmap. by exists (p', t').
Qed.

Lemma purge_stale_front now p t q :
  fresh now t = false → queue_purge ((p, t) :: q) now = queue_purge q now.
Proof. intros Hf. unfold queue_purge. apply filter_cons_False. simpl. congruence. Qed.

Lemma purge_app q q' now : queue_purge (q ++ q') now = queue_purge q now ++ queue_purge q' now.
Proof. apply list.filter_app. Qed.

Lemma drop_stale q now :
  StronglySorted Z.le q.*2 → queue_drop (λ _ t, fresh now t) q = queue_purge q now.
Proof.
  induction q as [|[p t] q IH]; intros Hs; [done|]. simpl queue_drop.
  destruct (fresh now t) eqn:Hf; [by rewrite purge_fresh_front|].
  rewrite purge_stale_front by done. apply IH. by inversion Hs.
Qed.

Definition queue_keeps (now : Z) (q : Queue) (t : Z) : bool :=
  (Z.of_nat (length q) <? CAPACITY) && fresh now t.

Lemma newest_short n q : (length q ≤ n)%nat → newest n q = q.
Proof. intros. unfold newest. by replace (length q - n)%nat with 0%nat by lia. Qed.

Lemma newest_cons n x q : (n ≤ length q)%nat → newest n (x :: q) = newest n q.
Proof. intros. unfold newest. simpl. by replace (S (length q) - n)%nat with (S (length q - n)) by lia. Qed.

Lemma drop_keeps q now :
  StronglySorted Z.le q.*2 →
  queue_drop (queue_keeps now) q = newest (Z.to_nat (CAPACITY - 1)) (queue_purge q now).
Proof.
  induction q as [|[p t] q IH]; intros Hs; [done|].
  assert (StronglySorted Z.le q.*2) as Hs' by by inversion Hs.
  cbn [queue_drop]. unfold queue_keeps at 1.
  destruct (fresh now t) eqn:Hf; [|by rewrite andb_false_r, purge_stale_front, <- IH by done].
  rewrite purge_fresh_front, andb_true_r by done.
  destruct (Z.ltb_spec (Z.of_nat (length ((p, t) :: q))) CAPACITY) as [Hl|Hl].
  - rewrite newest_short; [done|]. lia.
  - rewrite newest_cons by (simpl in Hl; lia). rewrite IH by done. f_equal.
    destruct q as [|[p' t'] q]; [done|]. apply purge_fresh_front; [done|].
    apply (fresh_mono _ t); [|done]. simpl in Hs. by inversion Hs as [|? ? ? Hall]; inversion Hall.
Qed.

Lemma purge_queue now q :
  queue_wf now q → purge_expired (of_queue q) now = of_queue (queue_purge q now).
Proof.
  intros (Hnd & Hs & _). unfold purge_expired. simpl.
  rewrite (evict_queue _ (λ _ t, fresh now t)) by (intros; by rewrite ?contains_front).
  by rewrite drop_stale.
Qed.

Lemma evict_insert_queue now q :
  queue_wf now q →
  evict (insert_keeps now) (list_to_map q) q.*1 =
  of_queue (newest (Z.to_nat (CAPACITY - 1)) (queue_purge q now)).
Proof.
  intros (Hnd & Hs & _). rewrite (evict_queue _ (queue_keeps now)); [by rewrite drop_keeps| |done].
  intros p t q' Hnd'. unfold insert_keeps, queue_keeps. rewrite contains_front. f_equal.
  unfold of_queue. cbn [proofs]. by rewrite map_size_list_to_map.
Qed.

(** What is left after purging and trimming. *)
Lemma newest_subseq n q : newest n q `sublist_of` q.
Proof. apply sublist_drop. Qed.
Lemma trimmed_sublist n q now : newest n (queue_purge q now) `sublist_of` q.
Proof. etrans; [apply newest_subseq|]. apply sublist_filter. Qed.

Lemma sublist_sorted (l k : list Z) : l `sublist_of` k → StronglySorted Z.le k → StronglySorted Z.le l.
Proof.
  induction 1 as [|x l k Hsub IH|x l k Hsub IH]; intros Hs; [done| |].
  - inversion Hs as [|? ? Hk Hall]; subst. constructor; [auto|].
    rewrite Forall_forall in *. intros y Hy. apply Hall. by eapply elem_of_sublist.
  - inversion Hs; subst. auto.
Qed.

Lemma queue_wf_sublist now q q' :
  q' `sublist_of` q → queue_wf now q → queue_wf now q'.
Proof.
  intros Hsub (Hnd & Hs & Hall & Hlen). pose proof (fmap_sublist fst _ _ Hsub) as H1.
  pose proof (fmap_sublist snd _ _ Hsub) as H2. pose proof (sublist_length _ _ Hsub). split_and!.
  - by eapply sublist_NoDup.
  - by eapply sublist_sorted.
  - rewrite Forall_forall in *. intros t Ht. apply Hall. by eapply elem_of_sublist.
  - lia.
Qed.

Lemma queue_wf_later now now' q : now ≤ now' → queue_wf now q → queue_wf now' q.
Proof.
  intros ? (? & ? & Hall & ?). split_and!; try done. eapply Forall_impl; [done|]. simpl. lia.
Qed.

Lemma sorted_snoc l t : StronglySorted Z.le l → Forall (λ x, x ≤ t) l → StronglySorted Z.le (l ++ [t]).
Proof.
  induction 1 as [|x l Hs IH Hx]; intros Ht; [repeat constructor|].
  inversion Ht; subst. simpl. constructor; [auto|]. apply Forall_app. split; [done|].
  by constructor.
Qed.

Lemma newest_length n q : (length (newest n q) ≤ n)%nat.
Proof. unfold newest. rewrite length_drop. lia. Qed.

(** An unknown or stale proof does not survive the trimming. *)
Lemma trimmed_absent n q p now :
  queue_contains q p now = false → p ∉ (newest n (queue_purge q now)).*1.
Proof.
  intros Hc (x & -> & Hin)%list_elem_of_fmap.
  apply (elem_of_sublist _ (queue_purge q now)) in Hin; [|apply newest_subseq].
  unfold queue_purge in Hin. apply list_elem_of_filter in Hin as [Hf Hin].
  apply not_true_iff_false in Hc. apply Hc, queue_contains_iff. exists x.2. by destruct x.
Qed.

Lemma queue_insert_wf now q p : queue_wf now q → queue_wf now (queue_insert q p now).
Proof.
  intros Hwf. unfold queue_insert. destruct (queue_contains q p now) eqn:Hc; [done|].
  set (q' := newest _ _).
  destruct (queue_wf_sublist now q q' (trimmed_sublist _ _ _) Hwf) as (Hnd & Hs & Hall & _).
  unfold queue_wf. rewrite !fmap_app. simpl. split_and!.
  - apply NoDup_app. split_and!; [done| |apply NoDup_singleton].
    intros x Hx ->%list_elem_of_singleton. by apply (trimmed_absent _ _ _ _ Hc) in Hx.
  - by apply sorted_snoc.
  - apply Forall_app. split; [done|]. by repeat constructor.
  - rewrite length_app. simpl. pose proof (newest_length (Z.to_nat (CAPACITY - 1)) (queue_purge q now)).
    change (Z.to_nat (CAPACITY - 1)) with 1023%nat in *. unfold q', CAPACITY. lia.
Qed.

Lemma list_to_map_snoc (q : Queue) p t :
  p ∉ q.*1 → list_to_map (q ++ [(p, t)]) = <[p := t]> (list_to_map q : gmap Proof_ Z).
Proof.
  intros Hp. rewrite list_to_map_app. simpl.
  induction q as [|[p' t'] q IH]; simpl in *; [by rewrite map_empty_union|].
  apply not_elem_of_cons in Hp as [Hne Hp].
  rewrite <- insert_union_l, IH by done. by rewrite insert_insert_ne.
Qed.

Lemma insert_queue now q p :
  queue_wf now q → insert (of_queue q) p now = of_queue (queue_insert q p now).
Proof.
  intros Hwf. unfold insert, queue_insert. rewrite contains_queue by apply Hwf.
  destruct (queue_contains q p now) eqn:Hc; [done|].
  cbn [of_queue proofs order]. rewrite evict_insert_queue by done.
  pose proof (trimmed_absent (Z.to_nat (CAPACITY - 1)) q p now Hc) as Habs.
  set (q' := newest _ _) in *. cbn [of_queue proofs order].
  rewrite (not_elem_of_list_to_map_1 _ _ Habs). unfold of_queue.
  by rewrite list_to_map_snoc, fmap_app by done.
Qed.

(** ** Histories

    The lock is held while each operation reads the clock, so the
    operations of a history have non-decreasing times. *)

Inductive op : Type := OpInsert (p : Proof_) | OpPurge.

Definition run_op (e : Entries) (o : op * Z) : Entries :=
  match o.1 with OpInsert p => insert e p o.2 | OpPurge => purge_expired e o.2 end.
Definition queue_op (q : Queue) (o : op * Z) : Queue :=
  match o.1 with OpInsert p => queue_insert q p o.2 | OpPurge => queue_purge q o.2 end.

Definition run_history (h : list (op * Z)) : Entries := foldl run_op Entries_default h.
Definition queue_history (h : list (op * Z)) : Queue := foldl queue_op [] h.

Definition chronological (h : list (op * Z)) (now : Z) : Prop := StronglySorted Z.le (h.*2 ++ [now]).

Lemma queue_op_wf q o t : queue_wf t q → t ≤ o.2 → queue_wf o.2 (queue_op q o).
Proof.
  intros Hwf Ht. apply (queue_wf_later _ o.2) in Hwf; [|done].
  destruct o as [[p|] now]; simpl in *; [by apply queue_insert_wf|].
  eapply queue_wf_sublist; [apply sublist_filter|done].
Qed.

Lemma run_op_queue q o t :
  queue_wf t q → t ≤ o.2 → run_op (of_queue q) o = of_queue (queue_op q o).
Proof.
  intros Hwf Ht. apply (queue_wf_later _ o.2) in Hwf; [|done].
  destruct o as [[p|] now]; simpl in *; [by apply insert_queue|by apply purge_queue].
Qed.

Lemma history_refines q t h now :
  queue_wf t q → StronglySorted Z.le (t :: h.*2 ++ [now]) →
  foldl run_op (of_queue q) h = of_queue (foldl queue_op q h) ∧
  queue_wf now (foldl queue_op q h).
Proof.
  revert q t. induction h as [|o h IH]; intros q t Hwf Hs; simpl in *.
  - split; [done|]. apply (queue_wf_later t); [|done].
    by inversion Hs as [|? ? _ Hall]; inversion Hall.
  - inversion Hs as [|? ? Hs' Hall]; subst. inversion Hall; subst.
    rewrite (run_op_queue _ _ t) by done. eapply IH; [by eapply queue_op_wf|done].
Qed.

Lemma empty_wf t : queue_wf t [].
Proof. unfold queue_wf. simpl. split_and!; try constructor. done. Qed.

Lemma history_queue h now :
  chronological h now →
  run_history h = of_queue (queue_history h) ∧ queue_wf now (queue_history h).
Proof.
  intros Hs. unfold run_history, queue_history.
  change Entries_default with (of_queue []).
  apply (history_refines [] (default now (head h.*2))); [apply empty_wf|].
  unfold chronological in Hs. destruct h as [|o h]; simpl in *; [by repeat constructor|].
  constructor; [done|]. constructor; [done|]. by inversion Hs.
Qed.

Lemma queue_op_origin q o p t :
  (p, t) ∈ queue_op q o → (p, t) ∈ q ∨ o = (OpInsert p, t).
Proof.
  destruct o as [[p'|] now]; unfold queue_op; simpl.
  - unfold queue_insert. destruct (queue_contains q p' now); [auto|].
    intros [Hin|Hin]%elem_of_app.
    + left. eapply elem_of_sublist; [done|apply trimmed_sublist].
    + apply list_elem_of_singleton in Hin. simplify_eq. auto.
  - unfold queue_purge. intros [_ ?]%list_elem_of_filter. auto.
Qed.

Lemma queue_origin h q p t :
  (p, t) ∈ foldl queue_op q h → (p, t) ∈ q ∨ (OpInsert p, t) ∈ h.
Proof.
  revert q. induction h as [|o h IH]; intros q Hin; simpl in *; [auto|].
  apply IH in Hin as [Hin|Hin]; [|right; by apply list_elem_of_further].
  apply queue_op_origin in Hin as [?| ->]; [auto|right; by left].
Qed.

(** An entry survives an operation while it is fresh and the queue behind it is short. *)
Lemma queue_op_keeps q1 p t q2 o :
  fresh o.2 t = true → Z.of_nat (length q2) < CAPACITY - 1 →
  ∃ q1' q2', queue_op (q1 ++ (p, t) :: q2) o = q1' ++ (p, t) :: q2' ∧
    (length q2' ≤ S (length q2))%nat.
Proof.
  intros Hf Hlen.
  assert (∃ q1' q2', queue_purge (q1 ++ (p, t) :: q2) o.2 = q1' ++ (p, t) :: q2' ∧
    (length q2' ≤ length q2)%nat) as (a & b & Hp & Hb).
  { exists (queue_purge q1 o.2), (queue_purge q2 o.2).
    split; [|unfold queue_purge; apply length_filter]. rewrite purge_app. f_equal.
    by apply filter_cons_True. }
  destruct o as [[p'|] now]; unfold queue_op; simpl in *.
  - unfold queue_insert. destruct (queue_contains _ p' now); [eexists _, _; split; [done|lia]|].
    rewrite Hp. unfold newest. rewrite drop_app_le; [|rewrite length_app; simpl; lia].
    rewrite <- app_assoc. simpl. eexists _, _. split; [done|]. rewrite length_app. simpl. lia.
  - rewrite Hp. eexists _, _. split; [done|lia].
Qed.

Lemma queue_keeps_history h q1 p t q2 :
  Forall (λ o, fresh o.2 t = true) h →
  Z.of_nat (length q2) + Z.of_nat (length h) < CAPACITY →
  ∃ q1' q2', foldl queue_op (q1 ++ (p, t) :: q2) h = q1' ++ (p, t) :: q2'.
Proof.
  revert q1 q2. induction h as [|o h IH]; intros q1 q2 Hall Hlen; simpl in *; [eauto|].
  inversion Hall; subst.
  destruct (queue_op_keeps q1 p t q2 o) as (a & b & -> & Hb); [done|lia|].
  apply IH; [done|lia].
Qed.

(** C27: The cache behaves as a bounded queue of verified proofs: after any
    history it answers as the queue does, and it holds at most [CAPACITY]
    proofs, each listed once in the eviction order. *)
Theorem cache_refines_queue h now :
  chronological h now →
  (∀ p, contains (run_history h) p now = queue_contains (queue_history h) p now) ∧
  order (run_history h) = (queue_history h).*1 ∧ NoDup (order (run_history h)) ∧
  size (proofs (run_history h)) = length (order (run_history h)) ∧
  Z.of_nat (length (order (run_history h))) ≤ CAPACITY.
Proof.
  intros Hh. destruct (history_queue _ _ Hh) as [-> Hwf]. destruct Hwf as (Hnd & Hs & Hall & Hlen).
  split_and!; try done.
  - intros p. by apply contains_queue.
  - simpl. by rewrite map_size_list_to_map, length_fmap.
  - simpl. by rewrite length_fmap.
Qed.

(** A proof is reported as verified only if it was inserted less than 60
    seconds ago. *)
Theorem cache_sound h now p :
  chronological h now → contains (run_history h) p now = true →
  ∃ t, (OpInsert p, t) ∈ h ∧ t ≤ now < t + TTL.
Proof.
  intros Hh Hc. destruct (history_queue _ _ Hh) as [E Hwf]. rewrite E in Hc.
  rewrite contains_queue in Hc by apply Hwf. apply queue_contains_iff in Hc as (t & Hin & Hf).
  exists t. split; [by apply queue_origin in Hin as [?%not_elem_of_nil|?]|].
  destruct Hwf as (_ & _ & Hall & _). rewrite Forall_forall in Hall.
  assert (t ≤ now). { apply Hall, list_elem_of_fmap. by exists (p, t). }
  unfold fresh, duration_since in Hf. bool_prop. lia.
Qed.

Lemma chronological_prefix h o h' now :
  chronological (h ++ o :: h') now → chronological h o.2.
Proof.
  unfold chronological. rewrite fmap_app. simpl. rewrite <- app_assoc. simpl.
  intros Hs. eapply sublist_sorted; [|done].
  apply sublist_app; [done|]. apply sublist_skip. apply sublist_nil_l.
Qed.

Lemma chronological_after h o h' now :
  chronological (h ++ o :: h') now → Forall (λ t, o.2 ≤ t ≤ now) (h'.*2 ++ [now]).
Proof.
  unfold chronological. rewrite fmap_app. simpl. rewrite <- app_assoc. simpl. intros Hs.
  assert (StronglySorted Z.le (o.2 :: h'.*2 ++ [now])) as Hs'.
  { eapply sublist_sorted; [|done]. by apply sublist_inserts_l. }
  inversion Hs' as [|? ? Hs'' Hall]; subst. clear Hs Hs'.
  apply Forall_app in Hall as [Hall Hn]. inversion Hn; subst.
  apply Forall_app. split; [|repeat constructor; lia].
  assert (Forall (λ t, t ≤ now) h'.*2) as Hle.
  { clear -Hs''. induction h'.*2 as [|x l IH]; [done|]. simpl in Hs''.
    inversion Hs'' as [|? ? ? Hall]; subst. apply Forall_app in Hall as [_ Hn]. inversion Hn; subst.
    constructor; auto. }
  rewrite Forall_forall in *. auto.
Qed.

(** A newly inserted proof is found for its full 60 seconds, whatever else
    happens, while fewer than [CAPACITY] operations follow it. *)
Theorem verified_proof_kept h p t h' now :
  chronological (h ++ (OpInsert p, t) :: h') now →
  contains (run_history h) p t = false → now < t + TTL →
  Z.of_nat (length h') < CAPACITY →
  contains (run_history (h ++ (OpInsert p, t) :: h')) p now = true.
Proof.
  intros Hh Hc Hnow Hlen. destruct (history_queue _ _ Hh) as [E Hwf]. rewrite E.
  rewrite contains_queue by apply Hwf. apply queue_contains_iff. exists t.
  pose proof (chronological_after _ _ _ _ Hh) as Hall. simpl in Hall.
  assert (∀ x, t ≤ x ≤ now → fresh x t = true) as Hfresh.
  { intros x Hx. unfold fresh, duration_since. apply Z.ltb_lt. lia. }
  apply Forall_app in Hall as [Hall Hn]. inversion Hn; subst.
  split; [|by apply Hfresh].
  pose proof (chronological_prefix _ _ _ _ Hh) as Hpre. simpl in Hpre.
  destruct (history_queue _ _ Hpre) as [E1 Hwf1]. rewrite E1, contains_queue in Hc by apply Hwf1.
  unfold queue_history. rewrite foldl_app. simpl. fold (queue_history h).
  unfold queue_op at 2. simpl. unfold queue_insert. rewrite Hc.
  destruct (queue_keeps_history h' (newest (Z.to_nat (CAPACITY - 1)) (queue_purge (queue_history h) t))
    p t []) as (a & b & ->); [|done|set_solver].
  apply Forall_forall. intros o Ho. apply Hfresh. rewrite Forall_forall in Hall.
  apply Hall, list_elem_of_fmap. by exists o.
Qed.

(** ** The message determines the key, the hash and the secret *)

Lemma le_bytes_length k n : String.length (le_bytes k n) = k.
Proof. revert n. induction k as [|k IH]; intros n; simpl; [done|]. by rewrite IH. Qed.

Lemma le_bytes_inj k a b :
  0 ≤ a < 256 ^ Z.of_nat k → 0 ≤ b < 256 ^ Z.of_nat k → le_bytes k a = le_bytes k b → a = b.
Proof.
  revert a b. induction k as [|k IH]; intros a b Ha Hb H; [simpl in *; lia|].
  rewrite Nat2Z.inj_succ, Z.pow_succ_r in Ha, Hb by lia. cbn [le_bytes] in H.
  injection H as Hh Ht.
  assert (a `div` 256 = b `div` 256) as Hd.
  { apply IH; [..|done]; (split; [apply Z.div_pos; lia|apply Z.div_lt_upper_bound; lia]). }
  apply (f_equal N_of_ascii) in Hh. rewrite !N_ascii_embedding in Hh.
  - rewrite (Z.div_mod a 256), (Z.div_mod b 256), Hd by lia.
    pose proof (Z.mod_pos_bound a 256). pose proof (Z.mod_pos_bound b 256). lia.
  - pose proof (Z.mod_pos_bound b 256). lia.
  - pose proof (Z.mod_pos_bound a 256). lia.
Qed.

Lemma append_inj_len a b c d :
  String.length a = String.length c → a +:+ b = c +:+ d → a = c ∧ b = d.
Proof.
  revert c. induction a as [|x a IH]; intros [|y c] Hl H; try done.
  injection Hl as Hl. cbn [String.append] in H. injection H as -> H.
  apply IH in H as [-> ->]; done.
Qed.

(** The bytes under the MAC determine the key id, the secret and the stored
    hash: no other triple has the same message. *)
Lemma proof_message_injective id raw hash id' raw' hash' :
  String.length id = 16%nat → String.length id' = 16%nat →
  len hash < 2 ^ 64 → len hash' < 2 ^ 64 →
  proof_message id raw hash = proof_message id' raw' hash' →
  id = id' ∧ raw = raw' ∧ hash = hash'.
Proof.
  intros Hi Hi' Hh Hh' H. unfold proof_message in H.
  apply append_inj_len in H as [-> H]; [|congruence].
  apply append_inj_len in H as [Hl H]; [|by rewrite !le_bytes_length].
  apply le_bytes_inj in Hl; [|unfold len in *; lia..].
  apply append_inj_len in H as [-> ->]; [done|]. unfold len in Hl. lia.
Qed.

(** ** Concrete histories *)

Definition sample_history : list (op * Z) :=
  [(OpInsert "a", 0); (OpInsert "b", 10 * nanos_per_sec); (OpInsert "a", 20 * nanos_per_sec);
   (OpPurge, 65 * nanos_per_sec)].

Ltac sorted := repeat first [apply SSorted_nil | apply SSorted_cons | apply Forall_nil_2
  | apply Forall_cons_2 | lia].

Lemma sample_chronological : chronological sample_history (69 * nanos_per_sec).
Proof. unfold chronological, sample_history, nanos_per_sec. simpl. sorted. Qed.

Lemma cache_refines_queue_witness :
  size (proofs (run_history sample_history)) = length (order (run_history sample_history)).
Proof. apply (cache_refines_queue _ _ sample_chronological). Defined.

(** [a] was verified at 0 and has expired; [b] has one second left. *)
Example sample_history_contains :
  contains (run_history sample_history) "a" (69 * nanos_per_sec) = false ∧
  contains (run_history sample_history) "b" (69 * nanos_per_sec) = true.
Proof. by vm_compute. Qed.

Lemma cache_sound_witness :
  ∃ t, (OpInsert "b", t) ∈ sample_history ∧ t ≤ 69 * nanos_per_sec < t + TTL.
Proof. apply (cache_sound _ _ "b" sample_chronological). by vm_compute. Defined.

Lemma verified_proof_kept_witness :
  contains (run_history ([(OpInsert "a", 0)] ++ (OpInsert "b", 10) :: [(OpPurge, 30)])) "b" 40 = true.
Proof.
  apply (verified_proof_kept [(OpInsert "a", 0)] "b" 10 [(OpPurge, 30)] 40).
  - unfold chronological. simpl. sorted.
  - by vm_compute.
  - unfold TTL, nanos_per_sec. lia.
  - unfold CAPACITY. simpl. lia.
Defined.
