(* ===== verification/VerificationFlight.v ===== *)
(** * Coalescing concurrent secret verifications

    Models [crates/gateway-core/src/verification_flight.rs]: the map of
    flights, [join], the leader's publication and drop, and a follower's wait.
    Requests interleave at these operations ([step]); the verification work
    itself is a relation [Work proof result] supplied by the caller, and a
    timeout may strike a waiter at any moment.  Telemetry, zeroization and
    mutex poisoning are not modelled. *)

From S2P Require Import Prelude Errors VerificationCache.

Definition MAX_FLIGHTS : Z := 10.
Definition MAX_FOLLOWERS : Z := 64.
Definition MAX_FOLLOWERS_PER_PROOF : Z := 63.
Definition PROOF_WAIT : Z := nanos_per_sec.

(** A flight's watch channel and semaphore.  They outlive its map entry, as
    followers hold references.  [about] is the proof it was opened for; no
    operation reads it. *)
Record Flight := {
  about : Proof_;
  result : option (GatewayResult unit);
  sender_alive : bool;
  followers : Z
}.

Record Waiting := { flight : nat; global_permit : bool; per_proof_permit : bool }.

Record Flights := {
  entries : gmap Proof_ nat;
  global_followers : Z;
  flights : gmap nat Flight;
  next_flight : nat
}.
Definition Flights_default : Flights :=
  {| entries := ∅; global_followers := MAX_FOLLOWERS; flights := ∅; next_flight := 0 |}.

Definition set_flight (f : nat) (fl : Flight) (st : Flights) : Flights :=
  {| entries := entries st; global_followers := global_followers st;
     flights := <[f := fl]> (flights st); next_flight := next_flight st |}.
Definition set_global (n : Z) (st : Flights) : Flights :=
  {| entries := entries st; global_followers := n; flights := flights st;
     next_flight := next_flight st |}.
Definition set_followers (n : Z) (fl : Flight) : Flight :=
  {| about := about fl; result := result fl; sender_alive := sender_alive fl; followers := n |}.
Definition set_result (r : GatewayResult unit) (fl : Flight) : Flight :=
  {| about := about fl; result := Some r; sender_alive := sender_alive fl;
     followers := followers fl |}.
Definition close_sender (fl : Flight) : Flight :=
  {| about := about fl; result := result fl; sender_alive := false; followers := followers fl |}.

(** [Semaphore::try_acquire_owned] on a counter of free permits. *)
Definition try_acquire (permits : Z) : option Z := if 0 <? permits then Some (permits - 1) else None.

(** [Flights::join]: the waiter and, for a new flight, the leader's flight.
    A refused per-proof permit drops the global one just taken. *)
Definition join (st : Flights) (proof : Proof_) :
    Flights * GatewayResult (Waiting * option nat) :=
  match entries st !! proof with
  | Some f =>
      match try_acquire (global_followers st), flights st !! f with
      | Some global, Some fl =>
          match try_acquire (followers fl) with
          | Some per_proof =>
              (set_global global (set_flight f (set_followers per_proof fl) st),
               Ok ({| flight := f; global_permit := true; per_proof_permit := true |}, None))
          | None => (set_global (global + 1) st, Err AuthenticationOverloaded)
          end
      | _, _ => (st, Err AuthenticationOverloaded)
      end
  | None =>
      if MAX_FLIGHTS <=? Z.of_nat (size (entries st)) then (st, Err AuthenticationOverloaded)
      else
        let f := next_flight st in
        ({| entries := <[proof := f]> (entries st);
            global_followers := global_followers st;
            flights := <[f := {| about := proof; result := None; sender_alive := true;
                                 followers := MAX_FOLLOWERS_PER_PROOF |}]> (flights st);
            next_flight := S f |},
         Ok ({| flight := f; global_permit := false; per_proof_permit := false |}, Some f))
  end.

(** [leader.result.send_replace(Some(result))]. *)
Definition publish (st : Flights) (f : nat) (r : GatewayResult unit) : Flights :=
  match flights st !! f with
  | Some fl => set_flight f (set_result r fl) st
  | None => st
  end.

(** [Drop for Leader]: remove the map entry, then drop the only sender.  The
    two are one step here: in between, the flight can no longer be found, and
    its followers keep waiting as they do before. *)
Definition drop_leader (st : Flights) (f : nat) (proof : Proof_) : Flights :=
  let st := {| entries := delete proof (entries st); global_followers := global_followers st;
               flights := flights st; next_flight := next_flight st |} in
  match flights st !! f with
  | Some fl => set_flight f (close_sender fl) st
  | None => st
  end.

(** One poll of [Waiting::wait]: [None] is pending. *)
Definition poll_wait (st : Flights) (w : Waiting) : option (GatewayResult unit) :=
  match flights st !! flight w with
  | Some fl =>
      match result fl with
      | Some r => Some r
      | None => if sender_alive fl then None else Some (Err AuthenticationOverloaded)
      end
  | None => Some (Err AuthenticationOverloaded)
  end.

(** Dropping a waiter returns its permits. *)
Definition drop_waiting (st : Flights) (w : Waiting) : Flights :=
  let st := if global_permit w then set_global (global_followers st + 1) st else st in
  if per_proof_permit w then
    match flights st !! flight w with
    | Some fl => set_flight (flight w) (set_followers (followers fl + 1) fl) st
    | None => st
    end
  else st.

(** ** Interleaving *)

Record System := {
  sys : Flights;
  leaders : gmap nat Proof_;
  waiting : gmap nat Waiting
}.
Definition initial : System := {| sys := Flights_default; leaders := ∅; waiting := ∅ |}.

Definition joined (s : System) (st : Flights) (id : nat) (proof : Proof_) (w : Waiting)
    (leader : option nat) : System :=
  {| sys := st;
     leaders := match leader with Some f => <[f := proof]> (leaders s) | None => leaders s end;
     waiting := <[id := w]> (waiting s) |}.

Section flights.
Variable Work : Proof_ → GatewayResult unit → Prop.

Inductive step : System → System → Prop :=
| step_join s id proof st w leader :
    waiting s !! id = None → join (sys s) proof = (st, Ok (w, leader)) →
    step s (joined s st id proof w leader)
| step_refused s proof st e :
    join (sys s) proof = (st, Err e) →
    step s {| sys := st; leaders := leaders s; waiting := waiting s |}
| step_publish s f proof r :
    leaders s !! f = Some proof → Work proof r →
    step s {| sys := publish (sys s) f r; leaders := leaders s; waiting := waiting s |}
| step_drop_leader s f proof :
    leaders s !! f = Some proof →
    step s {| sys := drop_leader (sys s) f proof; leaders := delete f (leaders s);
              waiting := waiting s |}
| step_finish s id w :
    (* a result, a closed channel, a timeout or a cancellation *)
    waiting s !! id = Some w →
    step s {| sys := drop_waiting (sys s) w; leaders := leaders s;
              waiting := delete id (waiting s) |}.

Definition reachable (s : System) : Prop := rtc step initial s.

Definition is_global (w : Waiting) : Z := if global_permit w then 1 else 0.
Definition is_follower (f : nat) (w : Waiting) : Z :=
  if per_proof_permit w && (flight w =? f)%nat then 1 else 0.

Record Inv (s : System) : Prop := {
  inv_entries : ∀ p f, entries (sys s) !! p = Some f ↔ leaders s !! f = Some p;
  inv_leaders : ∀ f p, leaders s !! f = Some p →
    ∃ fl, flights (sys s) !! f = Some fl ∧ about fl = p ∧ sender_alive fl = true;
  inv_alive : ∀ f fl, flights (sys s) !! f = Some fl → sender_alive fl = true →
    is_Some (leaders s !! f);
  inv_size : Z.of_nat (size (entries (sys s))) ≤ MAX_FLIGHTS;
  inv_global : 0 ≤ global_followers (sys s) ∧
    global_followers (sys s) = MAX_FOLLOWERS - msum is_global (waiting s);
  inv_followers : ∀ f fl, flights (sys s) !! f = Some fl →
    0 ≤ followers fl ∧ followers fl = MAX_FOLLOWERS_PER_PROOF - msum (is_follower f) (waiting s);
  inv_result : ∀ f fl r, flights (sys s) !! f = Some fl → result fl = Some r → Work (about fl) r;
  inv_waiting : ∀ id w, waiting s !! id = Some w →
    is_Some (flights (sys s) !! flight w) ∧ per_proof_permit w = global_permit w;
  inv_next : ∀ f, is_Some (flights (sys s) !! f) → (f < next_flight (sys s))%nat
}.

Lemma try_acquire_Some n n' : try_acquire n = Some n' ↔ n' = n - 1 ∧ 0 < n.
Proof. unfold try_acquire. destruct (Z.ltb_spec 0 n); naive_solver lia. Qed.

(** Changing flights in place without touching [about], [sender_alive] or
    the accounts. *)
Lemma Inv_joined_follower s id proof f fl g n :
  Inv s → waiting s !! id = None → entries (sys s) !! proof = Some f →
  flights (sys s) !! f = Some fl →
  try_acquire (global_followers (sys s)) = Some g → try_acquire (followers fl) = Some n →
  Inv (joined s (set_global g (set_flight f (set_followers n fl) (sys s))) id proof
         {| flight := f; global_permit := true; per_proof_permit := true |} None).
Proof.
  intros HI Hid Hp Hf [-> Hg]%try_acquire_Some [-> Hn]%try_acquire_Some.
  destruct HI. constructor; simpl.
  - done.
  - intros f' p Hl. destruct (inv_leaders0 f' p Hl) as (fl' & Hf' & ? & ?).
    destruct (decide (f' = f)) as [->|Hne].
    + rewrite lookup_insert_eq. simplify_eq. eexists; split; [done|]. done.
    + rewrite lookup_insert_ne by done. eauto.
  - intros f' fl' Hl Ha. apply lookup_insert_Some in Hl as [[<- <-]|[Hne Hl]]; eauto.
  - done.
  - rewrite msum_insert by done. unfold is_global at 1; simpl. lia.
  - intros f' fl' Hl. rewrite msum_insert by done. unfold is_follower at 1; simpl.
    apply lookup_insert_Some in Hl as [[<- <-]|[Hne Hl]].
    + rewrite Nat.eqb_refl. specialize (inv_followers0 _ _ Hf). simpl. lia.
    + rewrite (proj2 (Nat.eqb_neq f f')) by done. specialize (inv_followers0 _ _ Hl). lia.
  - intros f' fl' r Hl Hr. apply lookup_insert_Some in Hl as [[<- <-]|[Hne Hl]]; eauto.
    simpl in *. eauto.
  - intros id' w Hw. assert (∀ f', is_Some (flights (sys s) !! f') →
      is_Some (<[f := set_followers (followers fl - 1) fl]> (flights (sys s)) !! f')) as Hmono.
    { intros f' Hs. by apply lookup_insert_is_Some'; right. }
    apply lookup_insert_Some in Hw as [[<- <-]|[Hne Hw]]; simpl; [by split; [apply Hmono|]|].
    destruct (inv_waiting0 _ _ Hw). eauto.
  - intros f' [->|?]%lookup_insert_is_Some'; eauto.
Qed.

Lemma Inv_joined_leader s id proof :
  Inv s → waiting s !! id = None → entries (sys s) !! proof = None →
  Z.of_nat (size (entries (sys s))) < MAX_FLIGHTS →
  let f := next_flight (sys s) in
  Inv (joined s
         {| entries := <[proof := f]> (entries (sys s));
            global_followers := global_followers (sys s);
            flights := <[f := {| about := proof; result := None; sender_alive := true;
                                 followers := MAX_FOLLOWERS_PER_PROOF |}]> (flights (sys s));
            next_flight := S f |} id proof
         {| flight := f; global_permit := false; per_proof_permit := false |} (Some f)).
Proof.
  intros HI Hid Hp Hsz f. destruct HI.
  assert (flights (sys s) !! f = None) as Hnew.
  { apply eq_None_not_Some. intros ?%inv_next0. unfold f in *. lia. }
  assert (leaders s !! f = None) as Hnl.
  { apply eq_None_not_Some. intros [p Hl]. destruct (inv_leaders0 _ _ Hl) as (? & ? & _). congruence. }
  constructor; simpl.
  - intros p f'. rewrite !lookup_insert_Some, inv_entries0. split.
    + intros [[<- <-]|[Hne Hl]]; [auto|]. right. split; [congruence|done].
    + intros [[<- <-]|[Hne Hl]]; [auto|]. right. split; [|done].
      intros <-. apply inv_entries0 in Hl. congruence.
  - intros f' p [[<- <-]|[Hne Hl]]%lookup_insert_Some.
    + rewrite lookup_insert_eq. eexists. split; done.
    + rewrite lookup_insert_ne by done. eauto.
  - intros f' fl [[<- <-]|[Hne Hl]]%lookup_insert_Some Ha.
    + rewrite lookup_insert_eq. eauto.
    + rewrite lookup_insert_ne by done. eauto.
  - rewrite map_size_insert_None by done. lia.
  - rewrite msum_insert by done. unfold is_global at 1; simpl. lia.
  - intros f' fl Hl. rewrite msum_insert by done. unfold is_follower at 1; simpl.
    apply lookup_insert_Some in Hl as [[<- <-]|[Hne Hl]]; [|specialize (inv_followers0 _ _ Hl); lia].
    simpl. assert (msum (is_follower f) (waiting s) = 0) as ->; [|unfold MAX_FOLLOWERS_PER_PROOF; lia].
    rewrite (msum_ext _ (λ _, 0 * 1)), msum_scale; [done|].
    intros k w Hw. destruct (inv_waiting0 _ _ Hw) as [[fl Hfl] _]. unfold is_follower.
    destruct (Nat.eqb_spec (flight w) f); [congruence|]. by rewrite andb_false_r.
  - intros f' fl r [[<- <-]|[Hne Hl]]%lookup_insert_Some Hr; [done|eauto].
  - intros id' w [[<- <-]|[Hne Hw]]%lookup_insert_Some; simpl.
    + split; [|done]. rewrite lookup_insert_eq. eauto.
    + destruct (inv_waiting0 _ _ Hw). split; [|done]. by apply lookup_insert_is_Some'; right.
  - intros f' [Hx|Hx%inv_next0]%lookup_insert_is_Some'; subst f; lia.
Qed.

(** Replacing a flight by one about the same proof with the same accounts. *)
Lemma Inv_publish s f proof r :
  Inv s → leaders s !! f = Some proof → Work proof r →
  Inv {| sys := publish (sys s) f r; leaders := leaders s; waiting := waiting s |}.
Proof.
  intros HI Hl HW. destruct (inv_leaders _ HI _ _ Hl) as (fl & Hf & Habout & Halive).
  unfold publish. rewrite Hf. destruct HI. constructor; simpl; try done.
  - intros f' p Hl'. destruct (inv_leaders0 _ _ Hl') as (fl' & Hf' & ? & ?).
    destruct (decide (f' = f)) as [->|Hne].
    + rewrite lookup_insert_eq. simplify_eq. eexists; split; [done|]. done.
    + rewrite lookup_insert_ne by done. eauto.
  - intros f' fl' [[<- <-]|[Hne Hl']]%lookup_insert_Some Ha; eauto.
  - intros f' fl' [[<- <-]|[Hne Hl']]%lookup_insert_Some; simpl; eauto.
  - intros f' fl' r' [[<- <-]|[Hne Hl']]%lookup_insert_Some Hr; simpl in *; [|eauto].
    by simplify_eq.
  - intros id w Hw. destruct (inv_waiting0 _ _ Hw). split; [|done].
    by apply lookup_insert_is_Some'; right.
  - intros f' [<-|?]%lookup_insert_is_Some'; eauto.
Qed.

Lemma Inv_drop_leader s f proof :
  Inv s → leaders s !! f = Some proof →
  Inv {| sys := drop_leader (sys s) f proof; leaders := delete f (leaders s);
         waiting := waiting s |}.
Proof.
  intros HI Hl. destruct (inv_leaders _ HI _ _ Hl) as (fl & Hf & Habout & Halive).
  unfold drop_leader. simpl. rewrite Hf. destruct HI.
  assert (entries (sys s) !! proof = Some f) as Hp by by apply inv_entries0.
  constructor; simpl; try done.
  - intros p f'. rewrite !lookup_delete_Some, inv_entries0. split.
    + intros [Hne Hl']. split; [|done]. congruence.
    + intros [Hne Hl']. split; [|done]. intros <-. apply inv_entries0 in Hl'. congruence.
  - intros f' p [Hne Hl']%lookup_delete_Some. rewrite lookup_insert_ne by done. eauto.
  - intros f' fl' [[<- <-]|[Hne Hl']]%lookup_insert_Some Ha; [done|].
    rewrite lookup_delete_ne by done. eauto.
  - rewrite map_size_delete_Some by done. lia.
  - intros f' fl' [[<- <-]|[Hne Hl']]%lookup_insert_Some; simpl; eauto.
  - intros f' fl' r' [[<- <-]|[Hne Hl']]%lookup_insert_Some Hr; simpl in *; eauto.
  - intros id w Hw. destruct (inv_waiting0 _ _ Hw). split; [|done].
    by apply lookup_insert_is_Some'; right.
  - intros f' [<-|?]%lookup_insert_is_Some'; eauto.
Qed.

Lemma Inv_finish s id w :
  Inv s → waiting s !! id = Some w →
  Inv {| sys := drop_waiting (sys s) w; leaders := leaders s; waiting := delete id (waiting s) |}.
Proof.
  intros HI Hw. destruct (inv_waiting _ HI _ _ Hw) as [[fl Hf] Hpp].
  unfold drop_waiting. rewrite Hpp. destruct HI. destruct (global_permit w) eqn:Hg; simpl.
  - rewrite Hf. constructor; simpl; try done.
    + intros f' p Hl'. destruct (inv_leaders0 _ _ Hl') as (fl' & Hf' & ? & ?).
      destruct (decide (f' = flight w)) as [->|Hne].
      * rewrite lookup_insert_eq. simplify_eq. eexists; split; [done|]. done.
      * rewrite lookup_insert_ne by done. eauto.
    + intros f' fl' [[<- <-]|[Hne Hl']]%lookup_insert_Some Ha; eauto.
    + rewrite (msum_delete _ _ _ w) by done. unfold is_global at 2. rewrite Hg. lia.
    + intros f' fl' Hl. rewrite (msum_delete _ _ _ w) by done. unfold is_follower at 2.
      rewrite Hpp. apply lookup_insert_Some in Hl as [[<- <-]|[Hne Hl]].
      * rewrite Nat.eqb_refl. specialize (inv_followers0 _ _ Hf). simpl. lia.
      * rewrite (proj2 (Nat.eqb_neq _ f')) by done. specialize (inv_followers0 _ _ Hl). simpl. lia.
    + intros f' fl' r' [[<- <-]|[Hne Hl']]%lookup_insert_Some Hr; simpl in *; eauto.
    + intros id' w' [Hne Hw']%lookup_delete_Some. destruct (inv_waiting0 _ _ Hw'). split; [|done].
      by apply lookup_insert_is_Some'; right.
    + intros f' [<-|?]%lookup_insert_is_Some'; eauto.
  - constructor; simpl; try done.
    + rewrite (msum_delete _ _ _ w) by done. unfold is_global at 2. rewrite Hg. lia.
    + intros f' fl' Hl. rewrite (msum_delete _ _ _ w) by done. unfold is_follower at 2.
      rewrite Hpp. specialize (inv_followers0 _ _ Hl). simpl. lia.
    + intros id' w' [Hne Hw']%lookup_delete_Some. eauto.
Qed.

Lemma flight_Inv_initial : Inv initial.
Proof.
  constructor; simpl; try done.
  - intros f [x Hx]. done.
Qed.

(** What an admitted [join] returns. *)
Lemma join_ok st proof st' w leader :
  join st proof = (st', Ok (w, leader)) →
  (∃ f fl g n, entries st !! proof = Some f ∧ flights st !! f = Some fl ∧
     try_acquire (global_followers st) = Some g ∧ try_acquire (followers fl) = Some n ∧
     st' = set_global g (set_flight f (set_followers n fl) st) ∧ leader = None ∧
     w = {| flight := f; global_permit := true; per_proof_permit := true |}) ∨
  (entries st !! proof = None ∧ Z.of_nat (size (entries st)) < MAX_FLIGHTS ∧
     leader = Some (next_flight st) ∧
     w = {| flight := next_flight st; global_permit := false; per_proof_permit := false |} ∧
     st' = {| entries := <[proof := next_flight st]> (entries st);
            global_followers := global_followers st;
            flights := <[next_flight st := {| about := proof; result := None;
              sender_alive := true; followers := MAX_FOLLOWERS_PER_PROOF |}]> (flights st);
            next_flight := S (next_flight st) |}).
Proof.
  unfold join. intros H. repeat (case_match; simplify_eq); bool_prop.
  - left. eexists _, _, _, _. split_and!; done.
  - right. split_and!; done.
Qed.

(** A refused [join] changes nothing. *)
Lemma join_refused st proof st' e :
  join st proof = (st', Err e) → st' = st ∧ e = AuthenticationOverloaded.
Proof.
  unfold join. intros H. repeat (case_match; simplify_eq); try done.
  match goal with K : try_acquire _ = Some ?z |- context [?z + 1] =>
    apply try_acquire_Some in K as [-> _] end.
  split; [|done]. destruct st; simpl. unfold set_global; simpl. f_equal. lia.
Qed.

Lemma flight_Inv_step s s' : Inv s → step s s' → Inv s'.
Proof.
  intros HI Hs. destruct Hs as [s id proof st w leader Hid Hj|s proof st e Hj|s f proof r Hl HW
    |s f proof Hl|s id w Hw].
  - apply join_ok in Hj as [(f & fl & g & n & ? & ? & ? & ? & -> & -> & ->)|(? & ? & -> & -> & ->)].
    + by apply Inv_joined_follower.
    + by apply Inv_joined_leader.
  - apply join_refused in Hj as [-> _]. by destruct s.
  - by eapply Inv_publish.
  - by apply Inv_drop_leader.
  - by eapply Inv_finish.
Qed.

Lemma flight_Inv_rtc s s' : Inv s → rtc step s s' → Inv s'.
Proof. intros HI Hr. induction Hr; [done|]. eauto using flight_Inv_step. Qed.

Lemma flight_reachable_Inv s : reachable s → Inv s.
Proof. apply flight_Inv_rtc, flight_Inv_initial. Qed.

(** The proof a flight is about never changes, and flights do not disappear. *)
Lemma about_kept s s' f fl :
  step s s' → flights (sys s) !! f = Some fl → (f < next_flight (sys s))%nat →
  ∃ fl', flights (sys s') !! f = Some fl' ∧ about fl' = about fl.
Proof.
  intros Hs Hf Hlt.
  assert (∀ g fg n, flights (sys s) !! g = Some fg → about n = about fg →
    ∃ fl', <[g := n]> (flights (sys s)) !! f = Some fl' ∧ about fl' = about fl) as Hupd.
  { intros g fg n Hg Ha. destruct (decide (g = f)) as [->|Hne].
    - rewrite lookup_insert_eq. simplify_eq. eauto.
    - rewrite lookup_insert_ne by done. eauto. }
  destruct Hs as [s id proof st w leader Hid Hj|s proof st e Hj|s g proof r Hl HW
    |s g proof Hl|s id w Hw]; simpl.
  - apply join_ok in Hj as [(g & fg & ? & ? & ? & ? & ? & ? & -> & -> & ->)|(? & ? & -> & -> & ->)].
    + simpl. by eapply Hupd.
    + simpl. rewrite lookup_insert_ne by lia. eauto.
  - apply join_refused in Hj as [-> _]. eauto.
  - unfold publish. destruct (flights (sys s) !! g) eqn:E; simpl; [by eapply Hupd|eauto].
  - unfold drop_leader. simpl. destruct (flights (sys s) !! g) eqn:E; simpl; [by eapply Hupd|eauto].
  - unfold drop_waiting. destruct (global_permit w), (per_proof_permit w); simpl; try eauto;
      destruct (flights (sys s) !! flight w) eqn:E; simpl; try eauto; by eapply Hupd.
Qed.

Lemma about_rtc s s' f fl :
  Inv s → rtc step s s' → flights (sys s) !! f = Some fl →
  ∃ fl', flights (sys s') !! f = Some fl' ∧ about fl' = about fl.
Proof.
  intros HI Hr. revert fl. induction Hr as [s|s s1 s2 Hs Hr IH]; intros fl Hf; [eauto|].
  destruct (about_kept _ _ _ _ Hs Hf) as (fl1 & Hf1 & E1); [by eapply inv_next, mk_is_Some|].
  destruct (IH (flight_Inv_step _ _ HI Hs) fl1 Hf1) as (fl2 & Hf2 & E2). exists fl2. split; congruence.
Qed.

(** Resources stay bounded under any interleaving: at most ten flights, 64
    followers in all and 63 on any flight, and one leader per proof. *)
Theorem flights_bounded s :
  reachable s →
  Z.of_nat (size (entries (sys s))) ≤ MAX_FLIGHTS ∧
  msum is_global (waiting s) ≤ MAX_FOLLOWERS ∧
  (∀ f, is_Some (flights (sys s) !! f) →
     msum (is_follower f) (waiting s) ≤ MAX_FOLLOWERS_PER_PROOF) ∧
  (∀ f f' p, leaders s !! f = Some p → leaders s !! f' = Some p → f = f').
Proof.
  intros HI%flight_reachable_Inv. destruct HI. split_and!; [done|lia| |].
  - intros f [fl Hf]. specialize (inv_followers0 _ _ Hf). lia.
  - intros f f' p Hl Hl'. apply inv_entries0 in Hl, Hl'. congruence.
Qed.

(** A request that joined the flight of a proof and is told that the secret
    is right has a leader's verification of that very proof behind it. *)
Lemma shared_result_sound s id proof st w leader s' :
  reachable s → join (sys s) proof = (st, Ok (w, leader)) → waiting s !! id = None →
  rtc step (joined s st id proof w leader) s' →
  poll_wait (sys s') w = Some (Ok tt) → Work proof (Ok tt).
Proof.
  intros HI%flight_reachable_Inv Hj Hid Hr Hpoll.
  assert (step s (joined s st id proof w leader)) as Hs by by constructor.
  pose proof (flight_Inv_step _ _ HI Hs) as HI1. pose proof (flight_Inv_rtc _ _ HI1 Hr) as HI2.
  assert (∃ fl, flights st !! flight w = Some fl ∧ about fl = proof) as (fl & Hf & Ha).
  { apply join_ok in Hj as [(f & fl & g & n & Hp & Hf & ? & ? & -> & -> & ->)
      |(? & ? & -> & -> & ->)]; simpl; rewrite lookup_insert_eq; eexists; (split; [done|]); simpl; [|done].
    apply (inv_entries _ HI) in Hp. destruct (inv_leaders _ HI _ _ Hp) as (? & ? & ? & _). congruence. }
  destruct (about_rtc _ _ (flight w) fl HI1 Hr Hf) as (fl' & Hf' & Ha').
  unfold poll_wait in Hpoll. rewrite Hf' in Hpoll. destruct (result fl') as [r|] eqn:Er.
  - injection Hpoll as ->. rewrite <- Ha, <- Ha'. by eapply (inv_result _ HI2).
  - by destruct (sender_alive fl').
Qed.

(** C29: No lost wake-up: a waiter is pending only while the leader of its flight
    is still at work; afterwards it always has an answer. *)
Theorem pending_has_leader s id w :
  reachable s → waiting s !! id = Some w → poll_wait (sys s) w = None →
  ∃ proof, leaders s !! flight w = Some proof ∧ entries (sys s) !! proof = Some (flight w).
Proof.
  intros HI%flight_reachable_Inv Hw Hpoll. destruct (inv_waiting _ HI _ _ Hw) as [[fl Hf] _].
  unfold poll_wait in Hpoll. rewrite Hf in Hpoll.
  destruct (result fl); [done|]. destruct (sender_alive fl) eqn:Ha; [|done].
  destruct (inv_alive _ HI _ _ Hf Ha) as [p Hp]. exists p. split; [done|]. by apply (inv_entries _ HI).
Qed.
End flights.

(** ** A concrete run: a leader, a follower, a published success *)

Definition sample_work (p : Proof_) (r : GatewayResult unit) : Prop := p = "p" ∧ r = Ok tt.

Definition sample_one : System :=
  let '(st, r) := join Flights_default "p" in
  match r with Ok (w, l) => joined initial st 0 "p" w l | Err _ => initial end.
Definition sample_w : Waiting := {| flight := 0; global_permit := true; per_proof_permit := true |}.
Definition sample_two : System := joined sample_one (join (sys sample_one) "p").1 1 "p" sample_w None.
Definition sample_done : System :=
  {| sys := publish (sys sample_two) 0 (Ok tt); leaders := leaders sample_two;
     waiting := waiting sample_two |}.

Lemma sample_one_reachable : reachable sample_work sample_one.
Proof. apply rtc_once. by apply (step_join _ initial 0 "p"). Qed.
Lemma sample_two_reachable : reachable sample_work sample_two.
Proof. eapply rtc_r; [apply sample_one_reachable|]. by apply (step_join _ sample_one 1 "p"). Qed.

Lemma flights_bounded_witness : Z.of_nat (size (entries (sys sample_two))) ≤ MAX_FLIGHTS.
Proof. apply (flights_bounded _ _ sample_two_reachable). Defined.

Lemma pending_has_leader_witness :
  ∃ proof, leaders sample_two !! flight sample_w = Some proof ∧
    entries (sys sample_two) !! proof = Some (flight sample_w).
Proof. by apply (pending_has_leader _ _ 1 _ sample_two_reachable). Defined.
