(* ===== verification/Auth.v ===== *)
(** * Virtual-key authentication

    Models [crates/gateway-core/src/auth.rs]: key parsing, key state, secret
    verification and [authenticate_virtual_key], together with the shared
    verification cache and flights it runs on.  Argon2 (hash parsing and
    password verification), HMAC and the key store are parameters.  The
    requests that share the cache interleave as the steps of [step]. *)

From S2P Require Import Prelude Errors AuthAdmission VerificationCache VerificationFlight.

Definition RELAYNA_KEY_PREFIX : string := "rk_live_".
Definition LOOKUP_PREFIX_LEN : Z := 16.
Definition KEY_VERIFICATION_SLOTS : Z := 2.
Definition KEY_VERIFICATION_WAITERS : Z := 8.
Definition AUTH_LOOKUP_SLOTS : Z := 64.

Record VirtualKey := { raw : string; prefix : string }.

(** Accepted keys are ASCII, so characters are bytes. *)
Definition virtual_key_parse (raw : string) : GatewayResult VirtualKey :=
  check? validate_key_text raw in
  if negb (starts_with raw RELAYNA_KEY_PREFIX) || (len raw <=? LOOKUP_PREFIX_LEN)
  then Err MalformedAuthorization
  else Ok {| raw := raw; prefix := String.substring 0 (Z.to_nat LOOKUP_PREFIX_LEN) raw |}.

Definition from_authorization (value : string) : GatewayResult VirtualKey :=
  match strip_prefix "Bearer " value with
  | None => Err MalformedAuthorization
  | Some token => virtual_key_parse (trim token)
  end.

Record StoredVirtualKey := {
  stored_id : string;
  stored_project_id : option string;
  stored_key_prefix : string;
  key_hash : string;
  disabled : bool;
  revoked_at : option Z;
  expires_at : option Z
}.

Record AuthenticatedKey := {
  key_id : string;
  project_id : option string;
  key_prefix : string
}.

Definition validate_key_state (stored : StoredVirtualKey) (now : Z) : GatewayResult unit :=
  if is_some (revoked_at stored) then Err RevokedVirtualKey
  else if disabled stored then Err DisabledVirtualKey
  else if is_some_and (λ expiry, expiry <=? now) (expires_at stored) then Err ExpiredVirtualKey
  else Ok tt.

(** [verify_in_background], given how the slot queue treated the caller and
    what the job returned ([None]: it panicked). *)
Definition verify_in_background {T} (e : entered) (w : waited) (job : option (GatewayResult T)) :
    GatewayResult T :=
  match e, w with
  | Refused, _ | Queued, TimedOut => Err AuthenticationOverloaded
  | Granted, _ | Queued, Woken => default (Err InvalidVirtualKey) job
  end.

(** What a request observes: the store's two answers, the clock, the cache
    and the outcome of the shared verification. *)
Record Env := {
  lookup_permit : bool;
  find_first : string → GatewayResult (option StoredVirtualKey);
  elapsed_first : Z;
  cached : option Proof_ → bool;
  verified : option Proof_ → string → string → GatewayResult unit;
  find_again : string → GatewayResult (option StoredVirtualKey);
  elapsed_again : Z
}.

Section auth.
Variable hmac : string → string → option Proof_.
Variable Hash : Type.
Variable parse_hash : string → option Hash.
Variable verify_password : string → Hash → bool.

Definition verify_secret (raw_key encoded_hash : string) : GatewayResult unit :=
  let? parsed := ok_or (parse_hash encoded_hash) InvalidVirtualKey in
  if verify_password raw_key parsed then Ok tt else Err InvalidVirtualKey.

(** The cell has been initialised ([cache()]); its secret never changes. *)
Variable secret_cell : option string.

Definition key_proof (id raw encoded_hash : string) : option Proof_ :=
  proof hmac ((λ s, {| secret := s; VerificationCache.entries := Entries_default |}) <$> secret_cell)
    id raw encoded_hash.

Definition authenticate_virtual_key (env : Env) (key : VirtualKey) (now : Z) :
    GatewayResult AuthenticatedKey :=
  if negb (lookup_permit env) then Err AuthenticationOverloaded
  else
    let? found := find_first env (prefix key) in
    let? stored := ok_or found InvalidVirtualKey in
    check? validate_key_state stored (now + elapsed_first env) in
    let p := key_proof (stored_id stored) (raw key) (key_hash stored) in
    let? stored :=
      if negb (cached env p) then
        check? verified env p (raw key) (key_hash stored) in
        let? found := find_again env (prefix key) in
        let? refreshed := ok_or found InvalidVirtualKey in
        check? validate_key_state refreshed (now + elapsed_again env) in
        if negb (String.eqb (stored_id refreshed) (stored_id stored))
           || negb (String.eqb (key_hash refreshed) (key_hash stored))
        then Err InvalidVirtualKey
        else Ok refreshed
      else Ok stored in
    Ok {| key_id := stored_id stored; project_id := stored_project_id stored;
          key_prefix := stored_key_prefix stored |}.

Definition authenticate_authorization (env : Env) (authorization : option string) (now : Z) :
    GatewayResult AuthenticatedKey :=
  let? authorization := ok_or authorization MissingAuthorization in
  if MAX_KEY_BYTES + 16 <? len authorization then Err MalformedAuthorization
  else
    let? key := from_authorization authorization in
    authenticate_virtual_key env key now.

Definition authenticate_raw_key (env : Env) (raw_key : option string) (now : Z) :
    GatewayResult AuthenticatedKey :=
  let? raw_key := ok_or raw_key MissingAuthorization in
  if MAX_KEY_BYTES + 16 <? len raw_key then Err MalformedAuthorization
  else
    let? key := virtual_key_parse (trim raw_key) in
    authenticate_virtual_key env key now.

(** ** The shared cache and flights *)

(** Where the work of a leader stands. *)
Inductive progress : Type := Checked (hit : bool) | Finished (r : GatewayResult unit).

Record State := {
  clock : Z;
  cache_entries : Entries;
  fl : VerificationFlight.System;
  work : gmap nat progress
}.

Definition start (now : Z) : State :=
  {| clock := now; cache_entries := Entries_default; fl := VerificationFlight.initial; work := ∅ |}.

(** The closure given to [verify], after its cache check came out as [hit]. *)
Definition leader_work (hit : bool) (e : Entries) (p : Proof_) (raw_key encoded_hash : string)
    (now : Z) : Entries * GatewayResult unit :=
  if hit then (e, Ok tt)
  else match verify_secret raw_key encoded_hash with
       | Ok _ => (insert e p now, Ok tt)
       | Err e' => (e, Err e')
       end.

Definition key_typed (id encoded_hash : string) : Prop :=
  String.length id = 16%nat ∧ len encoded_hash < 2 ^ 64.

(** The secret behind a proof has been checked against its hash. *)
Definition Verified (p : Proof_) : Prop :=
  ∃ id raw_key encoded_hash, key_typed id encoded_hash ∧
    key_proof id raw_key encoded_hash = Some p ∧ verify_secret raw_key encoded_hash = Ok tt.

Definition set_fl (f : VerificationFlight.System) (s : State) : State :=
  {| clock := clock s; cache_entries := cache_entries s; fl := f; work := work s |}.

(** Requests join and leave flights as in [VerificationFlight.step], leaders
    do their work in two cache accesses and publish the result. *)
Inductive step : State → State → Prop :=
| step_tick s now :
    clock s ≤ now →
    step s {| clock := now; cache_entries := cache_entries s; fl := fl s; work := work s |}
| step_purge s :
    step s {| clock := clock s; cache_entries := purge_expired (cache_entries s) (clock s);
              fl := fl s; work := work s |}
| step_flight s f :
    VerificationFlight.step (λ _ _, False) (fl s) f → step s (set_fl f s)
| step_check s f p :
    leaders (fl s) !! f = Some p → work s !! f = None →
    step s {| clock := clock s; cache_entries := cache_entries s; fl := fl s;
              work := <[f := Checked (contains (cache_entries s) p (clock s))]> (work s) |}
| step_work s f p id raw_key encoded_hash hit e r :
    leaders (fl s) !! f = Some p → work s !! f = Some (Checked hit) →
    key_typed id encoded_hash → key_proof id raw_key encoded_hash = Some p →
    leader_work hit (cache_entries s) p raw_key encoded_hash (clock s) = (e, r) →
    step s {| clock := clock s; cache_entries := e; fl := fl s;
              work := <[f := Finished r]> (work s) |}
| step_work_lost s f p e :
    (* no slot was free or the job panicked *)
    leaders (fl s) !! f = Some p →
    step s {| clock := clock s; cache_entries := cache_entries s; fl := fl s;
              work := <[f := Finished (Err e)]> (work s) |}
| step_send s f p r :
    leaders (fl s) !! f = Some p → work s !! f = Some (Finished r) →
    step s (set_fl {| sys := publish (sys (fl s)) f r; leaders := leaders (fl s);
                      waiting := waiting (fl s) |} s).

Definition reachable (s : State) : Prop := ∃ now, rtc step (start now) s.

(** [verification_flight::verify], from the state at the call to the state at
    the return. *)
Inductive verify_run (s : State) : option Proof_ → string → string → State →
    GatewayResult unit → Prop :=
| run_uncoalesced raw_key encoded_hash e w s' r :
    r = verify_in_background e w (Some (verify_secret raw_key encoded_hash)) ∨
    r = verify_in_background e w None →
    rtc step s s' → verify_run s None raw_key encoded_hash s' r
| run_cached p raw_key encoded_hash :
    contains (cache_entries s) p (clock s) = true →
    verify_run s (Some p) raw_key encoded_hash s (Ok tt)
| run_refused p raw_key encoded_hash st e :
    join (sys (fl s)) p = (st, Err e) → verify_run s (Some p) raw_key encoded_hash s (Err e)
| run_waited p raw_key encoded_hash st w leader id s' r :
    join (sys (fl s)) p = (st, Ok (w, leader)) → waiting (fl s) !! id = None →
    rtc step (set_fl (joined (fl s) st id p w leader) s) s' →
    poll_wait (sys (fl s')) w = Some r ∨ r = Err AuthenticationOverloaded →
    verify_run s (Some p) raw_key encoded_hash s' r.

(** A request's observations come from the shared state. *)
Record consistent (env : Env) : Prop := {
  cached_real : ∀ p, cached env p = true →
    ∃ s p', p = Some p' ∧ reachable s ∧ contains (cache_entries s) p' (clock s) = true;
  verified_real : ∀ p raw_key encoded_hash,
    ∃ s s', reachable s ∧
      verify_run s p raw_key encoded_hash s' (verified env p raw_key encoded_hash)
}.

(** ** Everything the cache and the flights report has been verified *)

Definition Work (p : Proof_) (r : GatewayResult unit) : Prop := r = Ok tt → Verified p.

Lemma flight_step_weaken f f' :
  VerificationFlight.step (λ _ _, False) f f' → VerificationFlight.step Work f f'.
Proof. destruct 1; [by constructor| by econstructor|done|by constructor|by econstructor]. Qed.

Record Inv (s : State) : Prop := {
  inv_flights : VerificationFlight.reachable Work (fl s);
  inv_cache : ∀ q t, proofs (cache_entries s) !! q = Some t → Verified q;
  inv_checked : ∀ f p, leaders (fl s) !! f = Some p → work s !! f = Some (Checked true) → Verified p;
  inv_finished : ∀ f p r, leaders (fl s) !! f = Some p → work s !! f = Some (Finished r) → Work p r;
  inv_work : ∀ f, is_Some (work s !! f) → is_Some (flights (sys (fl s)) !! f)
}.

Lemma contains_verified s p now : Inv s → contains (cache_entries s) p now = true → Verified p.
Proof.
  intros HI H. unfold contains in H. destruct (proofs (cache_entries s) !! p) eqn:E; [|done].
  by eapply inv_cache.
Qed.

(** Who may be a leader after a flight step. *)
Lemma flight_step_leaders W f f' g p :
  VerificationFlight.reachable W f → VerificationFlight.step W f f' →
  leaders f' !! g = Some p → leaders f !! g = Some p ∨ flights (sys f) !! g = None.
Proof.
  intros HR%flight_reachable_Inv Hs. destruct Hs as [f id proof st w leader Hid Hj| | | |]; simpl; auto.
  - apply join_ok in Hj as [(? & ? & ? & ? & _ & _ & _ & _ & -> & -> & ->)|(_ & _ & -> & -> & ->)];
      simpl; [auto|]. intros [[<- _]|[_ ?]]%lookup_insert_Some; [right|auto].
    apply eq_None_not_Some. intros Hs%(inv_next _ _ HR). lia.
  - intros [_ ?]%lookup_delete_Some. auto.
Qed.

Lemma flight_step_kept W f f' g :
  VerificationFlight.reachable W f → VerificationFlight.step W f f' →
  is_Some (flights (sys f) !! g) → is_Some (flights (sys f') !! g).
Proof.
  intros HR%flight_reachable_Inv Hs [x Hx].
  destruct (about_kept W f f' g x Hs Hx) as (x' & Hx' & _); [|by exists x'].
  by eapply inv_next, mk_is_Some.
Qed.

Lemma Inv_flight s f :
  Inv s → VerificationFlight.step (λ _ _, False) (fl s) f → Inv (set_fl f s).
Proof.
  intros [HF HC HK HN HW] Hs%flight_step_weaken.
  assert (∀ g p, leaders f !! g = Some p → is_Some (work s !! g) → leaders (fl s) !! g = Some p) as Hl.
  { intros g p Hg Hw. destruct (flight_step_leaders _ _ _ _ _ HF Hs Hg) as [?|Hn]; [done|].
    apply HW in Hw. rewrite Hn in Hw. by destruct Hw. }
  constructor; simpl; try done.
  - by eapply rtc_r.
  - intros g p Hg Hw. eapply HK; [|done]. eauto.
  - intros g p r Hg Hw. eapply HN; [|done]. eauto.
  - intros g Hg. eapply flight_step_kept; eauto.
Qed.

Lemma leader_work_verified s f p id raw_key encoded_hash hit e r :
  Inv s → leaders (fl s) !! f = Some p → work s !! f = Some (Checked hit) →
  key_typed id encoded_hash → key_proof id raw_key encoded_hash = Some p →
  leader_work hit (cache_entries s) p raw_key encoded_hash (clock s) = (e, r) →
  Work p r ∧ ∀ q t, proofs e !! q = Some t → Verified q.
Proof.
  intros HI Hl Hw Ht Hp H. unfold leader_work in H.
  assert (∀ q t, proofs (cache_entries s) !! q = Some t → Verified q) as HC by apply HI.
  destruct hit.
  - simplify_eq. split; [|done]. intros _. by eapply inv_checked.
  - destruct (verify_secret raw_key encoded_hash) as [[]|e'] eqn:Ev; simplify_eq; [|done].
    assert (Verified p) as Hv by by exists id, raw_key, encoded_hash.
    split; [by intros _|]. intros q t [?| ->]%insert_origin; eauto.
Qed.

Lemma Inv_record s f p st e :
  Inv s → leaders (fl s) !! f = Some p →
  (st = Checked true → Verified p) → (∀ r, st = Finished r → Work p r) →
  (∀ q t, proofs e !! q = Some t → Verified q) →
  Inv {| clock := clock s; cache_entries := e; fl := fl s; work := <[f := st]> (work s) |}.
Proof.
  intros [HF HC HK HN HW] Hl Hc Hf He. constructor; simpl; try done.
  - intros g q Hg [[<- ->]|[_ ?]]%lookup_insert_Some; [|eauto]. simplify_eq. auto.
  - intros g q r Hg [[<- ->]|[_ ?]]%lookup_insert_Some; [|eauto]. simplify_eq. auto.
  - intros g [<-|?]%lookup_insert_is_Some'; [|auto].
    apply flight_reachable_Inv in HF.
    destruct (inv_leaders _ _ HF _ _ Hl) as (x & Hx & _). eauto.
Qed.

Lemma auth_Inv_step s s' :
  Inv s → step s s' → Inv s' ∧ rtc (VerificationFlight.step Work) (fl s) (fl s').
Proof.
  intros HI Hs. destruct Hs.
  - split; [|done]. by destruct HI.
  - split; [|done]. destruct HI as [HF HC HK HN HW]. constructor; simpl; try done.
    intros q t Hq. eapply HC, lookup_weaken; [done|]. apply evict_subseteq.
  - split; [by apply Inv_flight|]. by apply rtc_once, flight_step_weaken.
  - split; [|done]. eapply Inv_record; eauto; [|done|apply HI].
    intros [= Hc]. by eapply contains_verified.
  - split; [|done]. edestruct leader_work_verified as [Hr He]; [done..|].
    eapply Inv_record; eauto; [done|]. by intros ? [= <-].
  - split; [|done]. eapply Inv_record; eauto; [done| |apply HI]. by intros ? [= <-].
  - assert (Work p r) as HW by by eapply inv_finished.
    assert (VerificationFlight.step Work (fl s) {| sys := publish (sys (fl s)) f r;
      leaders := leaders (fl s); waiting := waiting (fl s) |}) as Hst by by econstructor.
    split; [|by apply rtc_once]. destruct HI as [HF HC HK HN HWk]. constructor; simpl; try done.
    + by eapply rtc_r.
    + intros g Hg. exact (flight_step_kept Work _ _ g HF Hst (HWk _ Hg)).
Qed.

Lemma auth_Inv_rtc s s' :
  Inv s → rtc step s s' → Inv s' ∧ rtc (VerificationFlight.step Work) (fl s) (fl s').
Proof.
  intros HI Hr. induction Hr as [s|s s1 s2 Hs Hr IH]; [done|].
  destruct (auth_Inv_step _ _ HI Hs) as [HI1 H1]. destruct (IH HI1) as [HI2 H2].
  split; [done|]. by etrans.
Qed.

Lemma Inv_start now : Inv (start now).
Proof.
  constructor; simpl; try done; [apply rtc_refl|]. intros f Hf. by destruct Hf.
Qed.

Lemma Auth_reachable_Inv s : reachable s → Inv s.
Proof. intros [now Hr]. eapply auth_Inv_rtc; [apply Inv_start|done]. Qed.

(** A proof reported by the cache or by a shared verification is verified. *)
Lemma verify_run_verified s p raw_key encoded_hash s' :
  reachable s → verify_run s (Some p) raw_key encoded_hash s' (Ok tt) → Verified p.
Proof.
  intros HI%Auth_reachable_Inv Hrun.
  inversion Hrun as [|? ? ? Hc| |? ? ? st w leader id ? ? Hj Hid Hr Hpoll]; subst.
  - by eapply contains_verified.
  - assert (step s (set_fl (joined (fl s) st id p w leader) s)) as Hs by (constructor; by constructor).
    destruct (auth_Inv_step _ _ HI Hs) as [HI1 _]. destruct (auth_Inv_rtc _ _ HI1 Hr) as [_ Hr'].
    destruct Hpoll as [Hpoll|]; [|done].
    apply (shared_result_sound Work (fl s) id p st w leader (fl s')) in Hpoll; try done; [by apply Hpoll|apply HI].
Qed.

(** HMAC under the process secret is assumed free of collisions. *)
Hypothesis hmac_collision_free :
  ∀ k a b p, hmac k a = Some p → hmac k b = Some p → a = b.

Lemma key_proof_message id raw_key encoded_hash p :
  key_proof id raw_key encoded_hash = Some p →
  ∃ k, secret_cell = Some k ∧ hmac k (proof_message id raw_key encoded_hash) = Some p.
Proof.
  unfold key_proof, proof. destruct secret_cell as [k|]; [|done]. simpl. eauto.
Qed.

Lemma verified_secret id raw_key encoded_hash p :
  key_typed id encoded_hash → key_proof id raw_key encoded_hash = Some p → Verified p →
  verify_secret raw_key encoded_hash = Ok tt.
Proof using hmac_collision_free.
  intros [Hi Hh] Hp (id' & raw' & hash' & [Hi' Hh'] & Hp' & Hv).
  apply key_proof_message in Hp as (k & Hk & Hp), Hp' as (k' & Hk' & Hp'). simplify_eq.
  pose proof (hmac_collision_free _ _ _ _ Hp Hp') as E.
  apply proof_message_injective in E as (-> & -> & ->); done.
Qed.

Lemma verify_in_background_ok e w job :
  verify_in_background e w job = Ok tt → job = Some (Ok tt).
Proof. destruct e, w, job as [[[]|]|]; simpl; done. Qed.

(** Every way to be told that the secret is right. *)
Lemma observed_secret env id raw_key encoded_hash :
  consistent env → key_typed id encoded_hash →
  let p := key_proof id raw_key encoded_hash in
  cached env p = true ∨ verified env p raw_key encoded_hash = Ok tt →
  verify_secret raw_key encoded_hash = Ok tt.
Proof using hmac_collision_free.
  intros [Hc Hv] Ht p [Hcached|Hver].
  - destruct (Hc _ Hcached) as (s & p' & Hp & Hr & Hin).
    eapply verified_secret; [done|exact Hp|].
    eapply contains_verified; [by apply Auth_reachable_Inv|done].
  - destruct (Hv p raw_key encoded_hash) as (s & s' & Hr & Hrun). rewrite Hver in Hrun.
    destruct p as [p'|] eqn:Hp.
    + eapply verified_secret; [done|exact Hp|]. by eapply verify_run_verified.
    + inversion Hrun as [? ? e w ? ? Hor| | |]; subst. destruct Hor as [E|E]; symmetry in E;
        apply verify_in_background_ok in E; [by injection E|done].
Qed.

(** The stored key that decides: the first lookup when the proof of what it
    found is cached, the second one, made after the verification, otherwise. *)
Definition deciding_lookup (env : Env) (key : VirtualKey) (hit : bool) :
    GatewayResult (option StoredVirtualKey) :=
  if hit then find_first env (prefix key) else find_again env (prefix key).
Definition deciding_time (env : Env) (now : Z) (hit : bool) : Z :=
  now + if hit then elapsed_first env else elapsed_again env.

(** C2: Authentication is sound: a request that is let in presented a secret
    that verifies against the hash the store holds at the deciding lookup,
    for a key that is then neither revoked, disabled nor expired, however
    the verification was cached or shared with other requests.  The first lookup
    decides only if the proof of what it found is in the cache; otherwise it is
    the second one, made after the verification, which must have found the same
    key with the same hash. *)
Theorem authentication_sound env key now k :
  consistent env →
  (∀ stored, find_first env (prefix key) = Ok (Some stored) →
     key_typed (stored_id stored) (key_hash stored)) →
  authenticate_virtual_key env key now = Ok k →
  ∃ first stored,
    find_first env (prefix key) = Ok (Some first) ∧
    validate_key_state first (now + elapsed_first env) = Ok tt ∧
    let hit := cached env (key_proof (stored_id first) (raw key) (key_hash first)) in
    deciding_lookup env key hit = Ok (Some stored) ∧
    stored_id stored = stored_id first ∧ key_hash stored = key_hash first ∧
    validate_key_state stored (deciding_time env now hit) = Ok tt ∧
    verify_secret (raw key) (key_hash stored) = Ok tt ∧
    k = {| key_id := stored_id stored; project_id := stored_project_id stored;
           key_prefix := stored_key_prefix stored |}.
Proof using hmac_collision_free.
  intros Hcons Hty H. unfold authenticate_virtual_key in H.
  destruct (lookup_permit env); [|done]. simpl in H.
  destruct (find_first env (prefix key)) as [[stored|]|] eqn:Hf; try done. simpl in H.
  specialize (Hty stored eq_refl).
  destruct (validate_key_state stored _) as [[]|] eqn:Hst; [|done]. simpl in H.
  set (p := key_proof (stored_id stored) (raw key) (key_hash stored)) in *.
  exists stored. destruct (cached env p) eqn:Hc; simpl in H.
  - injection H as <-. exists stored. cbv zeta. fold p. rewrite Hc. split_and!; try done.
    eapply observed_secret; [done|exact Hty|]. left. exact Hc.
  - destruct (verified env p (raw key) (key_hash stored)) as [[]|] eqn:Hv; [|done]. simpl in H.
    destruct (find_again env (prefix key)) as [[refreshed|]|] eqn:Hf'; try done. simpl in H.
    destruct (validate_key_state refreshed _) as [[]|] eqn:Hst'; [|done]. simpl in H.
    destruct (_ || _) eqn:Hsame; [done|]. simpl in H. injection H as <-.
    apply orb_false_iff in Hsame as [Hid Hhash]. apply negb_false_iff, String.eqb_eq in Hid, Hhash.
    exists refreshed. cbv zeta. fold p. rewrite Hc. split_and!; try done. rewrite Hhash.
    eapply observed_secret; [done|exact Hty|]. right. exact Hv.
Qed.

Lemma validate_key_state_ok stored now :
  validate_key_state stored now = Ok tt ↔
  revoked_at stored = None ∧ disabled stored = false ∧
  (∀ expiry, expires_at stored = Some expiry → now < expiry).
Proof.
  unfold validate_key_state. destruct (revoked_at stored), (disabled stored); simpl; try naive_solver.
  destruct (expires_at stored) as [x|]; simpl; [|naive_solver].
  destruct (Z.leb_spec x now); naive_solver lia.
Qed.

(** Authentication is complete: a live key whose secret verifies gets in when
    capacity allows and the store gives the same key both times. *)
Theorem authentication_complete env key now stored :
  lookup_permit env = true →
  find_first env (prefix key) = Ok (Some stored) →
  find_again env (prefix key) = Ok (Some stored) →
  validate_key_state stored (now + elapsed_first env) = Ok tt →
  validate_key_state stored (now + elapsed_again env) = Ok tt →
  verified env (key_proof (stored_id stored) (raw key) (key_hash stored)) (raw key)
    (key_hash stored) = Ok tt →
  authenticate_virtual_key env key now =
  Ok {| key_id := stored_id stored; project_id := stored_project_id stored;
        key_prefix := stored_key_prefix stored |}.
Proof.
  intros Hl Hf Hf' Hs Hs' Hv. unfold authenticate_virtual_key. rewrite Hl, Hf. simpl.
  rewrite Hs. simpl. destruct (cached env _); simpl; [done|].
  rewrite Hv. simpl. rewrite Hf'. simpl. rewrite Hs'. simpl. by rewrite !String.eqb_refl.
Qed.
End auth.

Lemma substring_length n t :
  String.length (String.substring 0 n t) = min n (String.length t).
Proof. revert t. induction n as [|n IH]; intros [|c t]; simpl; try done. by rewrite IH. Qed.

(** The cheap header check and the key parser agree: a request whose key
    header passed [validate_credential_headers] has a parseable key there,
    with a 16-byte lookup prefix. *)
Theorem validated_key_header_parses get_all to_str key_header value text :
  get_all key_header = [value] → to_str value = Some text →
  validate_credential_headers get_all to_str key_header = Ok tt →
  ∃ key, virtual_key_parse (trim text) = Ok key ∧ raw key = trim text ∧
    String.length (prefix key) = 16%nat.
Proof.
  intros Hg Ht H. unfold validate_credential_headers in H.
  rewrite try_for_each_ok, Forall_forall in H. specialize (H key_header).
  rewrite Hg in H. specialize (H ltac:(unfold credential_names; set_solver)).
  destruct (_ || _); [done|]. unfold validate_credential_value in H. rewrite Ht in H. simpl in H.
  rewrite String.eqb_refl in H. unfold virtual_key_parse.
  destruct (validate_key_text (trim text)) as [[]|]; [|done]. simpl in *.
  unfold RELAYNA_KEY_PREFIX, LOOKUP_PREFIX_LEN.
  destruct (_ || _) eqn:E; [done|]. eexists. split_and!; [done..|].
  cbn [prefix]. rewrite substring_length. apply orb_false_iff in E as [_ E]. bool_prop.
  unfold len in E. lia.
Qed.

Lemma validated_key_header_parses_witness :
  ∃ key, virtual_key_parse (trim " rk_live_0123456789 ") = Ok key ∧
    raw key = trim " rk_live_0123456789 " ∧ String.length (prefix key) = 16%nat.
Proof.
  apply (validated_key_header_parses
    (λ name, if String.eqb name "x-relayna-key" then [" rk_live_0123456789 "] else [])
    Some "x-relayna-key" " rk_live_0123456789 "); vm_compute; reflexivity.
Defined.

(** ** A concrete instance: a plain-text hash and an identity MAC *)

Definition sample_hmac (k m : string) : option Proof_ := Some m.
Definition sample_secret : string := "rk_live_0123456789".
Definition sample_stored : StoredVirtualKey :=
  {| stored_id := "0123456789abcdef"; stored_project_id := None;
     stored_key_prefix := "rk_live_01234567"; key_hash := sample_secret; disabled := false;
     revoked_at := None; expires_at := Some 1000 |}.
Definition sample_key : VirtualKey := {| raw := sample_secret; prefix := "rk_live_01234567" |}.
Definition sample_proof : Proof_ := proof_message "0123456789abcdef" sample_secret sample_secret.

Definition sample_env : Env :=
  {| lookup_permit := true;
     find_first := λ _, Ok (Some sample_stored); elapsed_first := 1;
     cached := λ _, false;
     verified := λ p _ _, if decide (p = Some sample_proof) then Ok tt
                          else Err AuthenticationOverloaded;
     find_again := λ _, Ok (Some sample_stored); elapsed_again := 5 |}.

Abbreviation sample_step := (step sample_hmac string Some String.eqb (Some "k")).
Abbreviation sample_reach := (reachable sample_hmac string Some String.eqb (Some "k")).

(** A leader has joined, checked the cache, verified and inserted. *)
Definition sample_joined : VerificationFlight.System :=
  let '(st, r) := join Flights_default sample_proof in
  match r with
  | Ok (w, l) => joined VerificationFlight.initial st 0 sample_proof w l
  | Err _ => VerificationFlight.initial
  end.
Definition sample_state (e : Entries) (w : gmap nat progress) : State :=
  {| clock := 0; cache_entries := e; fl := sample_joined; work := w |}.
Definition sample_cache : Entries := insert Entries_default sample_proof 0.

Lemma sample_cached :
  ∃ s, sample_reach s ∧ contains (cache_entries s) sample_proof (clock s) = true.
Proof.
  exists (sample_state sample_cache (<[0%nat := Finished (Ok tt)]> (<[0%nat := Checked false]> ∅))).
  split; [|vm_compute; reflexivity]. exists 0.
  apply (rtc_l _ _ (sample_state Entries_default ∅)).
  { apply (step_flight _ _ _ _ _ (start 0) sample_joined).
    apply (step_join _ VerificationFlight.initial 0%nat sample_proof); reflexivity. }
  apply (rtc_l _ _ (sample_state Entries_default (<[0%nat := Checked false]> ∅))).
  { apply (step_check _ _ _ _ _ (sample_state Entries_default ∅) 0%nat sample_proof);
      vm_compute; reflexivity. }
  apply rtc_once.
  refine (step_work sample_hmac string Some String.eqb (Some "k")
    (sample_state Entries_default (<[0%nat := Checked false]> ∅)) 0%nat
    sample_proof "0123456789abcdef" sample_secret sample_secret false sample_cache (Ok tt) _ _ _ _ _);
    [vm_compute; reflexivity..| |vm_compute; reflexivity|vm_compute; reflexivity].
  split; [reflexivity|]. unfold len. simpl. lia.
Qed.

Lemma sample_consistent : consistent sample_hmac string Some String.eqb (Some "k") sample_env.
Proof.
  constructor; [done|]. intros p raw_key encoded_hash. simpl.
  destruct (decide (p = Some sample_proof)) as [->|Hne].
  - destruct sample_cached as (s & Hr & Hc). exists s, s. split; [done|]. by constructor.
  - assert (sample_reach (start 0)) as Hr by (exists 0; apply rtc_refl).
    destruct p as [p|].
    + eexists (start 0), _. split; [done|]. eapply (run_waited _ _ _ _ _ _ p); [done| |apply rtc_refl|by right].
      by apply (lookup_empty 0%nat).
    + exists (start 0), (start 0). split; [done|].
      apply (run_uncoalesced _ _ _ _ _ _ _ _ Refused Woken); [by left|apply rtc_refl].
Qed.

Lemma sample_collision_free k a b p : sample_hmac k a = Some p → sample_hmac k b = Some p → a = b.
Proof. unfold sample_hmac. congruence. Qed.

Lemma authentication_sound_witness :
  ∃ stored, deciding_lookup sample_env sample_key false = Ok (Some stored) ∧
    verify_secret string Some String.eqb sample_secret (key_hash stored) = Ok tt.
Proof.
  destruct (authentication_sound sample_hmac string Some String.eqb (Some "k") sample_collision_free
    sample_env sample_key 10
    {| key_id := "0123456789abcdef"; project_id := None; key_prefix := "rk_live_01234567" |})
    as (first & stored & [= <-] & _ & H1 & _ & _ & _ & H2 & _).
  - exact sample_consistent.
  - intros stored [= <-]. split; [done|]. unfold len. simpl. lia.
  - vm_compute. reflexivity.
  - by exists stored.
Defined.

Lemma authentication_complete_witness :
  authenticate_virtual_key sample_hmac (Some "k") sample_env sample_key 10 =
  Ok {| key_id := "0123456789abcdef"; project_id := None; key_prefix := "rk_live_01234567" |}.
Proof. by apply (authentication_complete sample_hmac (Some "k") _ _ _ sample_stored). Defined.
