(* ===== verification/Redis.v ===== *)
(** * Redis: the store the control state lives in

    A store of text values with expiry times, and the monad in which the
    gateway's server-side scripts run.  Redis executes a script atomically
    but does not roll back: an error leaves the writes made before it.  What
    Redis and Lua do with numbers is the interface [LuaNum]: the scripts are
    written against it, doubles are one instance ([f64_num]) and exact
    integers another ([Z_num]). *)

From S2P Require Import Prelude.

(** ** Numbers as the scripts see them *)

Class LuaNum (A : Type) : Type := {
  num_zero : A;
  num_eps : A;                          (* the literal 0.000000001 *)
  num_add : A → A → A;
  num_sub : A → A → A;
  num_ltb : A → A → bool;
  num_leb : A → A → bool;
  num_max : A → A → A;                  (* math.max *)
  num_is_finite : A → bool;             (* f64::is_finite on the Rust side *)
  tonumber : string → option A;
  arg_text : A → string;                (* a number passed to redis.call *)
  rust_text : A → string;               (* a float sent as an argument *)
  tostring : A → string;
  parse_reply : string → option A;      (* a float read from a reply *)
  incrbyfloat : option string → string → option string
}.

(** Doubles, with the text conversions of the Redis server and client. *)
Definition f64_num (eps : f64) (tonumber : string → option f64)
    (arg_text rust_text tostring : f64 → string) (parse_reply : string → option f64)
    (incrbyfloat : option string → string → option string) : LuaNum f64 :=
  {| num_zero := f64_of_Z 0; num_eps := eps; num_add := f64_add; num_sub := f64_sub;
     num_ltb := f64_ltb; num_leb := f64_leb;
     num_max := λ a b, if f64_ltb a b then b else a;
     num_is_finite := f64_is_finite; tonumber := tonumber; arg_text := arg_text;
     rust_text := rust_text; tostring := tostring; parse_reply := parse_reply;
     incrbyfloat := incrbyfloat |}.

(** Exact amounts in some fixed unit. *)
Definition Z_num (eps : Z) (tonumber : string → option Z)
    (arg_text rust_text tostring : Z → string) (parse_reply : string → option Z)
    (incrbyfloat : option string → string → option string) : LuaNum Z :=
  {| num_zero := 0; num_eps := eps; num_add := Z.add; num_sub := Z.sub;
     num_ltb := Z.ltb; num_leb := Z.leb; num_max := Z.max; num_is_finite := λ _, true;
     tonumber := tonumber; arg_text := arg_text; rust_text := rust_text; tostring := tostring;
     parse_reply := parse_reply; incrbyfloat := incrbyfloat |}.

(** ** Stores *)

Record Entry := { text : string; expiry : option Z }.
Abbreviation Store := (gmap string Entry).

(** [GET]: expired entries are gone. *)
Definition live (t : Z) (e : Entry) : bool := is_none_or (λ x, t <? x) (expiry e).
Definition read (t : Z) (s : Store) (k : string) : option string :=
  s !! k ≫= λ e, if live t e then Some (text e) else None.
Definition write (k v : string) (x : option Z) (s : Store) : Store :=
  <[k := {| text := v; expiry := x |}]> s.
Definition ttl_at (t : Z) (s : Store) (k : string) : option Z :=
  s !! k ≫= λ e, if live t e then expiry e else None.

(** ** Scripts *)

Definition Script (A : Type) : Type := Store → Store * result string A.

Definition ret {A} (a : A) : Script A := λ s, (s, Ok a).
Definition error_reply {A} (msg : string) : Script A := λ s, (s, Err msg).
Definition bind {A B} (m : Script A) (k : A → Script B) : Script B :=
  λ s, match m s with (s, Ok a) => k a s | (s, Err e) => (s, Err e) end.

Declare Scope script_scope.
Delimit Scope script_scope with script.
Notation "'lua!' x := m 'in' k" := (bind m (λ x, k%script))
  (at level 10, x name, m at level 100, k at level 200) : script_scope.
Notation "'do!' m 'in' k" := (bind m (λ _, k%script))
  (at level 10, m at level 100, k at level 200) : script_scope.
Notation "'reject!' msg 'if' c 'in' k" := (if c then error_reply msg else k%script)
  (at level 10, msg at level 9, c at level 100, k at level 200) : script_scope.

(** Commands, at the server time [t]. *)
Section commands.
Variable t : Z.

Definition GET (k : string) : Script (option string) := λ s, (s, Ok (read t s k)).
Definition EXISTS (k : string) : Script bool := λ s, (s, Ok (is_some (read t s k))).
Definition SET_EX (k v : string) (secs : Z) : Script unit :=
  λ s, (write k v (Some (t + secs * nanos_per_sec)) s, Ok tt).
Definition SET_NX (k v : string) : Script unit :=
  λ s, (if is_some (read t s k) then s else write k v None s, Ok tt).
Definition EXPIRE (k : string) (secs : Z) : Script unit :=
  λ s, (match read t s k with
        | Some v => write k v (Some (t + secs * nanos_per_sec)) s
        | None => s
        end, Ok tt).
Definition DEL (k : string) : Script unit := λ s, (delete k s, Ok tt).
Definition INCRBYFLOAT `{LuaNum A} (k x : string) : Script unit :=
  λ s, match incrbyfloat (read t s k) x with
       | Some v => (write k v (ttl_at t s k) s, Ok tt)
       | None => (s, Err "ERR value is not a valid float")
       end.
End commands.

(** [tonumber(v or fallback)] and [not x]. *)
Definition number_or `{LuaNum A} (v : option string) (fallback : string) : option A :=
  tonumber (default fallback v).
Definition negative `{LuaNum A} (x : A) : bool := num_ltb x num_zero.

(** ** Reading and writing *)

Lemma read_write_eq t k v x s :
  is_none_or (λ x, t <? x) x = true → read t (write k v x s) k = Some v.
Proof. intros H. unfold read, write. rewrite lookup_insert_eq. simpl. unfold live. simpl. by rewrite H. Qed.

Lemma read_write_ne t k k' v x s : k ≠ k' → read t (write k v x s) k' = read t s k'.
Proof. intros H. unfold read, write. by rewrite lookup_insert_ne. Qed.

Lemma read_delete_eq t k s : read t (delete k s) k = None.
Proof. unfold read. by rewrite lookup_delete_eq. Qed.

Lemma read_delete_ne t k k' s : k ≠ k' → read t (delete k s) k' = read t s k'.
Proof. intros H. unfold read. by rewrite lookup_delete_ne. Qed.

(** A key holds [v] at least until [h]. *)
Definition alive (h : Z) (s : Store) (k v : string) : Prop :=
  ∃ e, s !! k = Some e ∧ text e = v ∧ is_none_or (λ x, h <=? x) (expiry e) = true.

Lemma alive_read h s k v t : alive h s k v → t < h → read t s k = Some v.
Proof.
  intros (e & He & <- & Hx) Ht. unfold read. rewrite He. simpl. unfold live.
  destruct (expiry e) as [x|]; simpl in *; [|done]. bool_prop.
  by rewrite (proj2 (Z.ltb_lt t x)) by lia.
Qed.

Lemma alive_write_eq h s k v x : h ≤ x → alive h (write k v (Some x) s) k v.
Proof.
  intros Hx. unfold alive, write. rewrite lookup_insert_eq. eexists. split; [done|].
  split; [done|]. simpl. by apply Z.leb_le.
Qed.

Lemma alive_write_ne h s k v k' v' x : k' ≠ k → alive h s k v → alive h (write k' v' x s) k v.
Proof. intros Hne (e & He & ?). exists e. unfold write. by rewrite lookup_insert_ne. Qed.

Lemma alive_delete_ne h s k v k' : k' ≠ k → alive h s k v → alive h (delete k' s) k v.
Proof. intros Hne (e & He & ?). exists e. by rewrite lookup_delete_ne. Qed.

Lemma absent_read s k t : s !! k = None → read t s k = None.
Proof. intros H. unfold read. by rewrite H. Qed.

Lemma absent_write_ne s k v k' x : k' ≠ k → s !! k = None → write k' v x s !! k = None.
Proof. intros Hne H. unfold write. by rewrite lookup_insert_ne. Qed.

(** [INCRBYFLOAT] keeps the expiry time, so a following [EXPIRE] finds the key. *)
Lemma ttl_at_live t s k : is_none_or (λ x, t <? x) (ttl_at t s k) = true.
Proof.
  unfold ttl_at. destruct (s !! k) as [e|]; [|done]. simpl. unfold live.
  destruct (expiry e) as [x|]; simpl; [|done]. by destruct (t <? x) eqn:E.
Qed.

Lemma incr_run `{LuaNum A} t k x s r :
  incrbyfloat (read t s k) x = Some r →
  INCRBYFLOAT t k x s = (write k r (ttl_at t s k) s, Ok tt).
Proof. intros E. unfold INCRBYFLOAT. by rewrite E. Qed.

Lemma expire_run t k v x secs s :
  is_none_or (λ x, t <? x) x = true →
  EXPIRE t k secs (write k v x s) =
  (write k v (Some (t + secs * nanos_per_sec)) (write k v x s), Ok tt).
Proof. intros Hx. unfold EXPIRE. by rewrite read_write_eq. Qed.

Lemma write_write k v x v' x' (s : Store) : write k v x (write k v' x' s) = write k v x s.
Proof. unfold write. by rewrite insert_insert_eq. Qed.

(** Running one command of a script. *)
Lemma bind_GET {A} t k (f : option string → Script A) s : bind (GET t k) f s = f (read t s k) s.
Proof. done. Qed.
Lemma bind_EXISTS {A} t k (f : bool → Script A) s :
  bind (EXISTS t k) f s = f (is_some (read t s k)) s.
Proof. done. Qed.
Lemma bind_SET_EX {A} t k v secs (f : unit → Script A) s :
  bind (SET_EX t k v secs) f s = f tt (write k v (Some (t + secs * nanos_per_sec)) s).
Proof. done. Qed.
Lemma bind_DEL {A} k (f : unit → Script A) s : bind (DEL k) f s = f tt (delete k s).
Proof. done. Qed.
Lemma bind_INCR `{LuaNum B} {A} t k x r (f : unit → Script A) s :
  incrbyfloat (read t s k) x = Some r →
  bind (INCRBYFLOAT t k x) f s = f tt (write k r (ttl_at t s k) s).
Proof. intros E. unfold bind. by rewrite (incr_run _ _ _ _ r). Qed.
Lemma bind_EXPIRE {A} t k v x secs (f : unit → Script A) s :
  is_none_or (λ x, t <? x) x = true →
  bind (EXPIRE t k secs) f (write k v x s) =
  f tt (write k v (Some (t + secs * nanos_per_sec)) s).
Proof. intros E. unfold bind. by rewrite expire_run, write_write. Qed.

(** ** A concrete notation for numbers, with which the parameters can be instantiated *)

Fixpoint tally (n : nat) : string := match n with O => "" | S n => String "i" (tally n) end.
Fixpoint untally (s : string) : option nat :=
  match s with
  | EmptyString => Some O
  | String c s => if Ascii.eqb c "i" then S <$> untally s else None
  end.
Definition tally_text (z : Z) : string :=
  if z <? 0 then String "-" (String "0" (tally (Z.to_nat (- z)))) else String "0" (tally (Z.to_nat z)).
Definition tally_number (s : string) : option Z :=
  match s with
  | String c r =>
      if Ascii.eqb c "0" then Z.of_nat <$> untally r
      else match r with
           | String c' r =>
               if Ascii.eqb c "-" && Ascii.eqb c' "0" then (λ n, - Z.of_nat n) <$> untally r else None
           | EmptyString => None
           end
  | EmptyString => None
  end.
Definition tally_incr (v : option string) (x : string) : option string :=
  (match v with Some v => tally_number v | None => Some 0 end) ≫= λ a,
  tally_number x ≫= λ b, Some (tally_text (a + b)).

Lemma untally_tally n : untally (tally n) = Some n.
Proof. induction n as [|n IH]; simpl; [done|]. by rewrite IH. Qed.

Lemma tally_number_text z : tally_number (tally_text z) = Some z.
Proof.
  unfold tally_text. destruct (Z.ltb_spec z 0); simpl; rewrite untally_tally; simpl; f_equal; lia.
Qed.

Lemma tally_plain n : contains_byte "|" (tally n) = false.
Proof. induction n as [|n IH]; [done|]. cbn [tally]. rewrite contains_byte_cons, IH. done. Qed.
