(* ===== verification/Budgets.v ===== *)
(** * Budget accounting in Redis

    Models the budget types of [crates/gateway-core/src/budgets.rs] and the
    [BudgetStore] of [crates/gateway-store/src/redis.rs]: every server-side
    script, line by line, and the Rust method around it.  Each method runs at
    one instant [t] of the server, with the accounting epoch the replica has
    cached.  Chrono's date formatting is a parameter; lost connections are
    the error [ControlStateUnavailable] without an effect and are left out. *)

From S2P Require Import Prelude Errors Redis.

Definition BUDGET_EPOCH_KEY : string := "budget:accounting-epoch:v2".

Record BudgetState A := { daily_spend_usd : A; monthly_spend_usd : A }.
Arguments daily_spend_usd {_} _. Arguments monthly_spend_usd {_} _.
Arguments Build_BudgetState {_} _ _.
Inductive BudgetDecision A := BudgetAllowed (st : BudgetState A) | BudgetExceeded (st : BudgetState A).
Arguments BudgetAllowed {_} _. Arguments BudgetExceeded {_} _.

Definition DAILY_TTL : Z := 172800.
Definition MONTHLY_TTL : Z := 5356800.

Section keys.
(** [now.format("%Y%m%d")] and [now.format("%Y%m")]. *)
Variables format_day format_month : Z → string.

Definition daily_budget_key (key_id : string) (now : Z) : string :=
  "budget:daily:" +:+ key_id +:+ ":" +:+ format_day now.
Definition monthly_budget_key (key_id : string) (now : Z) : string :=
  "budget:monthly:" +:+ key_id +:+ ":" +:+ format_month now.
End keys.

Definition budget_reservation_key (key_id request_id : string) : string :=
  "budget:reservation:" +:+ key_id +:+ ":" +:+ request_id.

Definition reserved_key (k : string) : string := k +:+ ":reserved".

Section budgets.
Context {A : Type} `{LuaNum A}.

Definition evaluate_budget (st : BudgetState A) (daily monthly : option A) : BudgetDecision A :=
  let daily_exceeded := is_some_and (λ budget, num_leb budget (daily_spend_usd st)) daily in
  let monthly_exceeded := is_some_and (λ budget, num_leb budget (monthly_spend_usd st)) monthly in
  if daily_exceeded || monthly_exceeded then BudgetExceeded st else BudgetAllowed st.

(** ** The scripts *)

Local Open Scope script_scope.

Definition str_eq (a : option string) (b : string) : bool :=
  is_some_and (λ a, String.eqb a b) a.

Definition epoch_script (t : Z) (fresh : string) : Script (option string) :=
  do! SET_NX t BUDGET_EPOCH_KEY fresh in
  GET t BUDGET_EPOCH_KEY.

Definition seed_script (t : Z) (daily monthly : string) (arg1 arg2 epoch : string) : Script unit :=
  lua! e := GET t BUDGET_EPOCH_KEY in
  reject! "budget recovery required" if negb (str_eq e epoch) in
  lua! d := GET t daily in
  reject! "invalid budget state" if is_none_or negative (number_or d "0") in
  lua! m := GET t monthly in
  reject! "invalid budget state" if is_none_or negative (number_or m "0") in
  match number_or d "0", tonumber arg1, number_or m "0", tonumber arg2 with
  | Some cd, Some ad, Some cm, Some am =>
      do! SET_EX t daily (arg_text (num_max cd ad)) DAILY_TTL in
      SET_EX t monthly (arg_text (num_max cm am)) MONTHLY_TTL
  | _, _, _, _ => error_reply "bad argument to max"
  end.

(** [string.match(value, '^([^|]+)|([^|]+)|([^|]+)|([^|]+)$')]. *)
Definition match_reservation (value : string) : option (string * string * string * string) :=
  match split_on "|"%char value with
  | [amount; daily; monthly; version] =>
      if is_empty amount || is_empty daily || is_empty monthly || is_empty version then None
      else Some (amount, daily, monthly, version)
  | _ => None
  end.

Definition finalize_script (t : Z) (reservation : string) (arg_actual epoch : string) : Script Z :=
  lua! e := GET t BUDGET_EPOCH_KEY in
  reject! "budget recovery required" if negb (str_eq e epoch) in
  lua! value := GET t reservation in
  match value with
  | None => ret 0
  | Some value =>
      match match_reservation value with
      | None => error_reply "invalid or legacy reservation; drain before upgrade"
      | Some (amount, daily, monthly, version) =>
          match (tonumber amount : option A) with
          | None => error_reply "invalid or legacy reservation; drain before upgrade"
          | Some amount =>
              reject! "invalid or legacy reservation; drain before upgrade"
                if negative amount || negb (String.eqb version "v2") in
              lua! d := GET t daily in
              lua! m := GET t monthly in
              reject! "missing budget state"
                if is_none_or (negative (A := A)) (number_or d "")
                   || is_none_or (negative (A := A)) (number_or m "") in
              lua! dr := GET t (reserved_key daily) in
              lua! mr := GET t (reserved_key monthly) in
              match number_or dr "", number_or mr "", (tonumber arg_actual : option A) with
              | Some dr, Some mr, Some actual =>
                  reject! "missing reservation state"
                    if num_ltb (num_add dr num_eps) amount || num_ltb (num_add mr num_eps) amount in
                  do! SET_EX t (reserved_key daily)
                        (arg_text (num_max num_zero (num_sub dr amount))) DAILY_TTL in
                  do! SET_EX t (reserved_key monthly)
                        (arg_text (num_max num_zero (num_sub mr amount))) MONTHLY_TTL in
                  do! INCRBYFLOAT t daily (arg_text actual) in
                  do! INCRBYFLOAT t monthly (arg_text actual) in
                  do! DEL reservation in
                  ret 1
              | _, _, _ => error_reply "missing reservation state"
              end
          end
      end
  end.

Definition check_script (t : Z) (daily monthly epoch : string) : Script (string * string) :=
  lua! e := GET t BUDGET_EPOCH_KEY in
  reject! "budget recovery required" if negb (str_eq e epoch) in
  lua! d := GET t daily in
  lua! m := GET t monthly in
  lua! dr := GET t (reserved_key daily) in
  lua! mr := GET t (reserved_key monthly) in
  match number_or d "", number_or m "", number_or dr "0", number_or mr "0" with
  | Some d, Some m, Some dr, Some mr =>
      reject! "budget requires rehydration"
        if negative d || negative m || negative dr || negative mr in
      ret (tostring (num_add d dr), tostring (num_add m mr))
  | _, _, _, _ => error_reply "budget requires rehydration"
  end.

Definition add_spend_script (t : Z) (daily monthly arg epoch : string) : Script unit :=
  lua! e := GET t BUDGET_EPOCH_KEY in
  reject! "budget recovery required" if negb (str_eq e epoch) in
  lua! d := GET t daily in
  reject! "invalid budget state" if is_none_or (negative (A := A)) (number_or d "0") in
  lua! m := GET t monthly in
  reject! "invalid budget state" if is_none_or (negative (A := A)) (number_or m "0") in
  do! INCRBYFLOAT t daily arg in
  do! EXPIRE t daily DAILY_TTL in
  do! INCRBYFLOAT t monthly arg in
  EXPIRE t monthly MONTHLY_TTL.

(** [limit and (spent >= limit or spent + amount > limit)]. *)
Definition over_limit (spent amount : A) (limit : option A) : bool :=
  is_some_and (λ l, num_leb l spent || num_ltb l (num_add spent amount)) limit.

(** [amount] is converted where it is first needed; it is always a number. *)
Definition admit_script (t : Z) (reservation daily monthly : string)
    (arg_amount arg_daily arg_monthly epoch : string) : Script (Z * string * string) :=
  lua! e := GET t BUDGET_EPOCH_KEY in
  reject! "budget recovery required" if negb (str_eq e epoch) in
  lua! duplicate := EXISTS t reservation in
  reject! "duplicate reservation" if duplicate in
  lua! d := GET t daily in
  lua! m := GET t monthly in
  reject! "budget requires rehydration"
    if (negb (is_empty arg_daily) || negb (is_empty arg_monthly)) && (is_none d || is_none m) in
  lua! dr := GET t (reserved_key daily) in
  lua! mr := GET t (reserved_key monthly) in
  match number_or d "0", number_or m "0", number_or dr "0", number_or mr "0" with
  | Some d, Some m, Some dr, Some mr =>
      reject! "invalid budget state"
        if negative d || negative m || negative dr || negative mr in
      match tonumber arg_amount with
      | None => error_reply "attempt to perform arithmetic on a nil value"
      | Some amount =>
          if over_limit (num_add d dr) amount (tonumber arg_daily)
             || over_limit (num_add m mr) amount (tonumber arg_monthly)
          then ret (0, tostring (num_add d dr), tostring (num_add m mr))
          else
            do! SET_EX t reservation
                  (arg_amount +:+ "|" +:+ daily +:+ "|" +:+ monthly +:+ "|v2") MONTHLY_TTL in
            do! SET_EX t daily (arg_text d) DAILY_TTL in
            do! SET_EX t monthly (arg_text m) MONTHLY_TTL in
            do! INCRBYFLOAT t (reserved_key daily) (arg_text amount) in
            do! EXPIRE t (reserved_key daily) DAILY_TTL in
            do! INCRBYFLOAT t (reserved_key monthly) (arg_text amount) in
            do! EXPIRE t (reserved_key monthly) MONTHLY_TTL in
            ret (1, tostring (num_add (num_add d dr) amount), tostring (num_add (num_add m mr) amount))
      end
  | _, _, _, _ => error_reply "invalid budget state"
  end.

(** ** The methods *)

Local Close Scope script_scope.

(** A script error, or a reply that does not convert, is
    [ControlStateUnavailable]; the writes of the script stay. *)
Definition invoke {R B} (m : Script R) (convert : R → option B) (s : Store) :
    Store * GatewayResult B :=
  match m s with
  | (s, Ok r) => (s, ok_or (convert r) ControlStateUnavailable)
  | (s, Err _) => (s, Err ControlStateUnavailable)
  end.

(** [RedisControlState::budget_epoch]: the replica caches the epoch for good. *)
Definition budget_epoch (t : Z) (cached : option string) (fresh : string) (s : Store) :
    Store * option string * GatewayResult string :=
  match cached with
  | Some epoch => (s, cached, Ok epoch)
  | None =>
      match invoke (epoch_script t fresh) id s with
      | (s, Ok epoch) => (s, Some epoch, Ok epoch)
      | (s, Err e) => (s, None, Err e)
      end
  end.

Definition parse_state (daily monthly : string) : option (BudgetState A) :=
  parse_reply daily ≫= λ d, parse_reply monthly ≫= λ m, Some (Build_BudgetState d m).

Context (format_day format_month : Z → string).
Abbreviation daily_key := (daily_budget_key format_day).
Abbreviation monthly_key := (monthly_budget_key format_month).

Definition seed_budget_counters (t : Z) (epoch key_id : string) (daily monthly : A) (now : Z)
    (s : Store) : Store * GatewayResult unit :=
  if negb (num_is_finite daily) || negb (num_is_finite monthly)
  then (s, Err ControlStateUnavailable)
  else invoke (seed_script t (daily_key key_id now) (monthly_key key_id now)
                 (rust_text (num_max daily num_zero)) (rust_text (num_max monthly num_zero)) epoch)
         Some s.

Definition finalize_reservation (t : Z) (epoch key_id reservation_id : string) (actual : A)
    (s : Store) : Store * GatewayResult unit :=
  if negb (num_is_finite actual) || num_ltb actual num_zero
  then (s, Err ControlStateUnavailable)
  else invoke (finalize_script t (budget_reservation_key key_id reservation_id)
                 (rust_text actual) epoch) (λ _, Some tt) s.

Definition check_budget (t : Z) (epoch key_id : string) (daily monthly : option A) (now : Z)
    (s : Store) : Store * GatewayResult (BudgetDecision A) :=
  if is_none daily && is_none monthly
  then (s, Ok (BudgetAllowed (Build_BudgetState num_zero num_zero)))
  else invoke (check_script t (daily_key key_id now) (monthly_key key_id now) epoch)
         (λ '(d, m), (λ st, evaluate_budget st daily monthly) <$> parse_state d m) s.

Definition add_budget_spend (t : Z) (epoch key_id : string) (cost : A) (now : Z) (s : Store) :
    Store * GatewayResult unit :=
  if num_leb cost num_zero then (s, Ok tt)
  else if negb (num_is_finite cost) then (s, Err ControlStateUnavailable)
  else invoke (add_spend_script t (daily_key key_id now) (monthly_key key_id now)
                 (rust_text cost) epoch) Some s.

Definition seed_committed_budget (t : Z) (epoch key_id : string) (st : BudgetState A) (now : Z)
    (s : Store) : Store * GatewayResult unit :=
  seed_budget_counters t epoch key_id (daily_spend_usd st) (monthly_spend_usd st) now s.

Definition invalid_amount (v : A) : bool := negb (num_is_finite v) || num_ltb v num_zero.

Definition admit_budget (t : Z) (epoch key_id reservation_id : string) (cost : A)
    (daily monthly : option A) (now : Z) (s : Store) : Store * GatewayResult (BudgetDecision A) :=
  if invalid_amount cost || is_some_and invalid_amount daily || is_some_and invalid_amount monthly
  then (s, Err ControlStateUnavailable)
  else invoke (admit_script t (budget_reservation_key key_id reservation_id)
                 (daily_key key_id now) (monthly_key key_id now)
                 (rust_text cost) (from_option rust_text "" daily) (from_option rust_text "" monthly)
                 epoch)
         (λ '(allowed, d, m),
            (λ st, if allowed =? 1 then BudgetAllowed st else BudgetExceeded st) <$> parse_state d m) s.

Definition reserve_budget (t : Z) (epoch key_id request_id : string) (cost : A) (now : Z)
    (s : Store) : Store * GatewayResult unit :=
  match admit_budget t epoch key_id request_id cost None None now s with
  | (s, Ok _) => (s, Ok tt)
  | (s, Err e) => (s, Err e)
  end.

Definition reconcile_budget_reservation (t : Z) (epoch key_id request_id : string) (actual : A)
    (s : Store) : Store * GatewayResult unit :=
  finalize_reservation t epoch key_id request_id actual s.

Definition release_budget_reservation (t : Z) (epoch key_id request_id : string) (s : Store) :
    Store * GatewayResult unit :=
  finalize_reservation t epoch key_id request_id num_zero s.
End budgets.
