(* ===== verification/BudgetLedger.v ===== *)
(** * The budget ledger

    What the scripts of [Budgets] implement: per key and accounting period a
    committed amount and a set of outstanding reservations.  The store is
    shown to represent such a ledger, every operation to act on it as
    specified, and the budget limits to hold after any sequence of
    operations.  Amounts are exact integers here ([Redis.Z_num]): the text
    conversions of Redis, Lua and the client are parameters assumed to be
    exact. *)

From S2P Require Import Prelude Errors Redis Budgets.

(** ** Facts that hold for any arithmetic *)

Section any_number.
Context {A : Type} `{LuaNum A} (format_day format_month : Z → string).

Lemma invoke_epoch {R B} (t : Z) (epoch : string) (k : Script R) (conv : R → option B) s :
  read t s BUDGET_EPOCH_KEY ≠ Some epoch →
  invoke (bind (GET t BUDGET_EPOCH_KEY)
            (λ e, if negb (str_eq e epoch) then error_reply "budget recovery required" else k)) conv s
  = (s, Err ControlStateUnavailable).
Proof.
  intros Hne. unfold invoke, bind, GET. simpl.
  destruct (read t s BUDGET_EPOCH_KEY) as [e|]; simpl; [|done].
  destruct (String.eqb_spec e epoch) as [->|]; [done|]. done.
Qed.

(** A replica whose epoch is not the one in Redis (the store was lost or
    recovered) changes nothing: every accounting operation is refused. *)
Theorem epoch_mismatch_refused t epoch key_id rid (cost actual : A) daily monthly now s :
  read t s BUDGET_EPOCH_KEY ≠ Some epoch →
  admit_budget format_day format_month t epoch key_id rid cost daily monthly now s
    = (s, Err ControlStateUnavailable) ∧
  finalize_reservation t epoch key_id rid actual s = (s, Err ControlStateUnavailable) ∧
  seed_budget_counters format_day format_month t epoch key_id cost actual now s
    = (s, Err ControlStateUnavailable) ∧
  (add_budget_spend format_day format_month t epoch key_id cost now s).1 = s ∧
  (check_budget format_day format_month t epoch key_id daily monthly now s).1 = s.
Proof.
  intros Hne. split_and!.
  - unfold admit_budget. destruct (_ || _); [done|]. by apply invoke_epoch.
  - unfold finalize_reservation. destruct (_ || _); [done|]. by apply invoke_epoch.
  - unfold seed_budget_counters. destruct (_ || _); [done|]. by apply invoke_epoch.
  - unfold add_budget_spend. destruct (num_leb _ _); [done|]. destruct (negb _); [done|].
    unfold add_spend_script. by rewrite invoke_epoch.
  - unfold check_budget. destruct (_ && _); [done|]. unfold check_script. by rewrite invoke_epoch.
Qed.

(** A refused admission leaves the store as it was. *)
Theorem exceeded_unchanged t epoch key_id rid (cost : A) daily monthly now s s' st :
  admit_budget format_day format_month t epoch key_id rid cost daily monthly now s
    = (s', Ok (BudgetExceeded st)) → s' = s.
Proof.
  unfold admit_budget. destruct (_ || _); [done|]. unfold invoke, admit_script, bind, GET, EXISTS.
  simpl. destruct (negb (str_eq _ _)); [done|]. destruct (is_some (read t s _)); [done|].
  destruct (_ && _); [done|].
  destruct (number_or (read t s _) "0") as [d|]; [|done].
  destruct (number_or (read t s _) "0") as [m|]; [|done].
  destruct (number_or (read t s _) "0") as [dr|]; [|done].
  destruct (number_or (read t s _) "0") as [mr|]; [|done].
  destruct (_ || _); [done|]. destruct (tonumber _) as [amount|]; [|done].
  destruct (over_limit _ _ _ || over_limit _ _ _); simpl.
  - by intros [= <- _].
  - unfold SET_EX, INCRBYFLOAT, EXPIRE.
    destruct (incrbyfloat _ _); simpl; [|done].
    destruct (incrbyfloat _ _); simpl; [|done].
    destruct (parse_state _ _); simpl; [|done]. done.
Qed.
End any_number.

(** ** The keys of one period never collide *)

(** The eighth character tells the families of keys apart. *)
Lemma key_family k1 k2 : String.get 7 k1 ≠ String.get 7 k2 → k1 ≠ k2.
Proof. congruence. Qed.

Lemma reserved_key_ne k : reserved_key k ≠ k.
Proof.
  intros E. apply (f_equal String.length) in E. unfold reserved_key in E.
  rewrite length_append in E. simpl in E. lia.
Qed.

Lemma append_cancel a b c : a +:+ b = a +:+ c → b = c.
Proof. induction a as [|x a IH]; [done|]. cbn [String.append]. intros [= E]. auto. Qed.

Lemma reservation_key_inj key_id r r' :
  budget_reservation_key key_id r = budget_reservation_key key_id r' → r = r'.
Proof. unfold budget_reservation_key. intros E. by do 3 apply append_cancel in E. Qed.

Lemma split_on_none c w : contains_byte c w = false → split_on c w = [w].
Proof.
  induction w as [|d w IH]; [done|]. rewrite contains_byte_cons. intros H. bool_prop.
  cbn [split_on]. rewrite (Ascii.eqb_sym c d) in *. rewrite H. by rewrite IH.
Qed.

Lemma split_on_app c w rest :
  contains_byte c w = false → split_on c (w +:+ String c rest) = w :: split_on c rest.
Proof.
  induction w as [|d w IH]; cbn [String.append split_on]; [by rewrite Ascii.eqb_refl|].
  rewrite contains_byte_cons. intros H. bool_prop. rewrite H. by rewrite IH.
Qed.

Lemma match_reservation_text amount daily monthly :
  contains_byte "|" amount = false → amount ≠ "" →
  contains_byte "|" daily = false → daily ≠ "" →
  contains_byte "|" monthly = false → monthly ≠ "" →
  match_reservation (amount +:+ "|" +:+ daily +:+ "|" +:+ monthly +:+ "|v2") =
  Some (amount, daily, monthly, "v2").
Proof.
  intros Ha Ha' Hd Hd' Hm Hm'. unfold match_reservation.
  cbn [String.append]. rewrite !split_on_app by done. cbn [split_on].
  destruct amount, daily, monthly; done.
Qed.

(** ** Exact amounts *)

Section exact.
Variables (eps : Z) (tonum : string → option Z) (argt rustt tostr : Z → string)
  (parser : string → option Z) (incr : option string → string → option string).

#[local] Instance exact_num : LuaNum Z := Z_num eps tonum argt rustt tostr parser incr.

(** The conversions are exact, [INCRBYFLOAT] adds, replies are numbers, and
    the text of an argument contains no separator. *)
Record ExactText : Prop := {
  arg_number : ∀ a, tonum (argt a) = Some a;
  rust_number : ∀ a, tonum (rustt a) = Some a;
  zero_number : tonum "0" = Some 0;
  empty_no_number : tonum "" = None;
  rust_plain : ∀ a, rustt a ≠ "" ∧ contains_byte "|" (rustt a) = false;
  incr_number : ∀ v x a b, tonum v = Some a → tonum x = Some b →
    ∃ r, incr (Some v) x = Some r ∧ tonum r = Some (a + b);
  incr_missing : ∀ x b, tonum x = Some b → ∃ r, incr None x = Some r ∧ tonum r = Some b;
  reply_number : ∀ a, is_Some (parser (tostr a));
  eps_nonneg : 0 ≤ eps
}.
Hypothesis exact : ExactText.

Variables (fd fm : Z → string) (key_id epoch : string).

(** One accounting period: the day and month of [now0]. *)
Variable now0 : Z.
Abbreviation D := (daily_budget_key fd key_id now0).
Abbreviation Mo := (monthly_budget_key fm key_id now0).
Abbreviation R := (budget_reservation_key key_id).
Hypothesis D_plain : contains_byte "|" D = false.
Hypothesis Mo_plain : contains_byte "|" Mo = false.

Definition same_period (now : Z) : Prop := fd now = fd now0 ∧ fm now = fm now0.

Lemma period_keys now :
  same_period now → daily_budget_key fd key_id now = D ∧ monthly_budget_key fm key_id now = Mo.
Proof. intros [E1 E2]. unfold daily_budget_key, monthly_budget_key. by rewrite E1, E2. Qed.

(** *** The abstract ledger *)

Record ledger := { committed_day : Z; committed_month : Z; outstanding : gmap string Z }.
Definition held (l : ledger) : Z := msum id (outstanding l).

(** [h] bounds the times up to which the counters are kept. *)
Definition counter (h : Z) (s : Store) (k : string) (a : Z) : Prop :=
  ∃ v, alive h s k v ∧ tonum v = Some a.
Definition counter_or_zero (h : Z) (s : Store) (k : string) (a : Z) : Prop :=
  counter h s k a ∨ s !! k = None ∧ a = 0.

(** The counter of held amounts exists once something has been reserved. *)
Definition held_counter (h : Z) (s : Store) (k : string) (l : ledger) : Prop :=
  counter h s k (held l) ∨ s !! k = None ∧ outstanding l = ∅.

Lemma held_counter_zero h s k l : held_counter h s k l → counter_or_zero h s k (held l).
Proof.
  intros [?|[? Ho]]; [by left|right]. split; [done|]. unfold held. rewrite Ho. apply msum_empty.
Qed.

Definition reservation_text (amount : Z) : string :=
  rustt amount +:+ "|" +:+ D +:+ "|" +:+ Mo +:+ "|v2".

Record represents (h : Z) (s : Store) (l : ledger) : Prop := {
  rep_epoch : alive h s BUDGET_EPOCH_KEY epoch;
  rep_day : counter h s D (committed_day l) ∧ 0 ≤ committed_day l;
  rep_month : counter h s Mo (committed_month l) ∧ 0 ≤ committed_month l;
  rep_held_day : held_counter h s (reserved_key D) l;
  rep_held_month : held_counter h s (reserved_key Mo) l;
  rep_reserved : ∀ rid a, outstanding l !! rid = Some a →
    alive h s (R rid) (reservation_text a) ∧ 0 ≤ a;
  rep_free : ∀ rid, outstanding l !! rid = None → s !! R rid = None
}.

(** An instant at which every key the period touches is still alive. *)
Definition in_window (h t : Z) : Prop := t < h ≤ t + DAILY_TTL * nanos_per_sec.

Lemma window_monthly h t : in_window h t → h ≤ t + MONTHLY_TTL * nanos_per_sec.
Proof. unfold in_window, DAILY_TTL, MONTHLY_TTL, nanos_per_sec. lia. Qed.

(** *** Distinct keys *)

Lemma D_Mo : D ≠ Mo. Proof. by apply key_family. Qed.
Lemma D_rMo : D ≠ reserved_key Mo. Proof. by apply key_family. Qed.
Lemma rD_Mo : reserved_key D ≠ Mo. Proof. by apply key_family. Qed.
Lemma rD_rMo : reserved_key D ≠ reserved_key Mo. Proof. by apply key_family. Qed.
Lemma R_D rid : R rid ≠ D. Proof. by apply key_family. Qed.
Lemma R_Mo rid : R rid ≠ Mo. Proof. by apply key_family. Qed.
Lemma R_rD rid : R rid ≠ reserved_key D. Proof. by apply key_family. Qed.
Lemma R_rMo rid : R rid ≠ reserved_key Mo. Proof. by apply key_family. Qed.
Lemma E_D : BUDGET_EPOCH_KEY ≠ D. Proof. by apply key_family. Qed.
Lemma E_Mo : BUDGET_EPOCH_KEY ≠ Mo. Proof. by apply key_family. Qed.
Lemma E_rD : BUDGET_EPOCH_KEY ≠ reserved_key D. Proof. by apply key_family. Qed.
Lemma E_rMo : BUDGET_EPOCH_KEY ≠ reserved_key Mo. Proof. by apply key_family. Qed.
Lemma E_R rid : BUDGET_EPOCH_KEY ≠ R rid. Proof. by apply key_family. Qed.

Create HintDb keys.
#[local] Hint Resolve D_Mo D_rMo rD_Mo rD_rMo R_D R_Mo R_rD R_rMo E_D E_Mo E_rD E_rMo E_R
  reserved_key_ne not_eq_sym : keys.

(** *** Reading counters *)

Lemma counter_read h s k a t v :
  in_window h t → alive h s k v → tonum v = Some a → number_or (read t s k) "0" = Some a.
Proof. intros [Ht _] Hv Ha. unfold number_or. by rewrite (alive_read h s k v). Qed.

Lemma counter_or_zero_read h s k a t :
  in_window h t → counter_or_zero h s k a → number_or (read t s k) "0" = Some a.
Proof using exact.
  intros Hw [(v & Hv & Ha)|[Hn ->]]; [by eapply counter_read|].
  unfold number_or. rewrite absent_read by done. apply exact.
Qed.

Lemma counter_incr h s k a t x b :
  in_window h t → counter_or_zero h s k a → tonum x = Some b →
  ∃ r, incr (read t s k) x = Some r ∧ tonum r = Some (a + b).
Proof using exact.
  intros [Ht _] [(v & Hv & Ha)|[Hn ->]] Hx.
  - rewrite (alive_read h s k v) by done. by apply exact.
  - rewrite absent_read by done. by apply exact.
Qed.

Lemma counter_written h s k v x a : h ≤ x → tonum v = Some a → counter h (write k v (Some x) s) k a.
Proof. intros. exists v. split; [by apply alive_write_eq|done]. Qed.

Lemma counter_write_ne h s k a k' v x : k' ≠ k → counter h s k a → counter h (write k' v x s) k a.
Proof. intros ? (v' & ? & ?). exists v'. split; [by apply alive_write_ne|done]. Qed.

Lemma counter_or_zero_write_ne h s k a k' v x :
  k' ≠ k → counter_or_zero h s k a → counter_or_zero h (write k' v x s) k a.
Proof.
  intros ? [?|[? ?]]; [left; by apply counter_write_ne|right]. split; [|done].
  by apply absent_write_ne.
Qed.

(** *** Admission *)

Definition admits (l : ledger) (cost : Z) (dl ml : option Z) : bool :=
  negb (over_limit (committed_day l + held l) cost dl
        || over_limit (committed_month l + held l) cost ml).

Definition reserve (l : ledger) (rid : string) (cost : Z) : ledger :=
  {| committed_day := committed_day l; committed_month := committed_month l;
     outstanding := <[rid := cost]> (outstanding l) |}.

(** The store after the writes of an admission. *)
Definition admitted_store (t d m : Z) (rid : string) (cost : Z) (rd rm : string) (s : Store) : Store :=
  let day := Some (t + DAILY_TTL * nanos_per_sec) in
  let month := Some (t + MONTHLY_TTL * nanos_per_sec) in
  write (reserved_key Mo) rm month (write (reserved_key D) rd day
    (write Mo (argt m) month (write D (argt d) day
      (write (R rid) (reservation_text cost) month s)))).

Lemma held_insert l rid cost :
  outstanding l !! rid = None → held (reserve l rid cost) = held l + cost.
Proof. intros Hn. unfold held, reserve. simpl. rewrite msum_insert by done. unfold id. lia. Qed.

Lemma represents_admitted h s l t rid cost rd rm :
  represents h s l → in_window h t → outstanding l !! rid = None → 0 ≤ cost →
  tonum rd = Some (held l + cost) → tonum rm = Some (held l + cost) →
  represents h (admitted_store t (committed_day l) (committed_month l) rid cost rd rm s)
    (reserve l rid cost).
Proof using exact.
  intros [He [Hd Hd0] [Hm Hm0] Hhd Hhm Hr Hf] Hw Hn Hc Hrd Hrm.
  assert (h ≤ t + DAILY_TTL * nanos_per_sec) as Hday by apply Hw.
  pose proof (window_monthly _ _ Hw) as Hmonth.
  pose proof (held_insert l rid cost Hn) as Hheld. unfold admitted_store.
  constructor; simpl.
  - repeat apply alive_write_ne; auto with keys.
  - split; [|done]. do 3 (apply counter_write_ne; [auto with keys|]).
    apply counter_written; [done|apply exact].
  - split; [|done]. do 2 (apply counter_write_ne; [auto with keys|]).
    apply counter_written; [done|apply exact].
  - left. rewrite Hheld. apply counter_write_ne; [auto with keys|]. by apply counter_written.
  - left. rewrite Hheld. by apply counter_written.
  - intros rid' a [[<- <-]|[Hne Ha]]%lookup_insert_Some.
    + split; [|done]. do 4 (apply alive_write_ne; [auto with keys|]). by apply alive_write_eq.
    + destruct (Hr _ _ Ha) as [Hal ?]. split; [|done].
      do 4 (apply alive_write_ne; [auto with keys|]). apply alive_write_ne; [|done].
      intros E%reservation_key_inj. done.
  - intros rid' [Hfree Hne]%lookup_insert_None.
    do 4 (apply absent_write_ne; [auto with keys|]). apply absent_write_ne; [|auto].
    intros E%reservation_key_inj. done.
Qed.

(** The script, run on a store that represents [l]. *)
Lemma admit_script_run h s l t rid cost ad am :
  represents h s l → in_window h t → outstanding l !! rid = None → 0 ≤ cost →
  let out (allowed : Z) (x y : Z) := Ok (allowed, tostr x, tostr y) in
  if admits l cost (tonum ad) (tonum am) then
    ∃ rd rm, tonum rd = Some (held l + cost) ∧ tonum rm = Some (held l + cost) ∧
      admit_script t (R rid) D Mo (rustt cost) ad am epoch s =
      (admitted_store t (committed_day l) (committed_month l) rid cost rd rm s,
       out 1 (committed_day l + held l + cost) (committed_month l + held l + cost))
  else admit_script t (R rid) D Mo (rustt cost) ad am epoch s =
       (s, out 0 (committed_day l + held l) (committed_month l + held l)).
Proof using exact.
  intros Hrep Hw Hn Hc out. pose proof Hrep as [He [(vd & Hvd & Hd) Hd0] [(vm & Hvm & Hm) Hm0] Hhd%held_counter_zero
    Hhm%held_counter_zero Hr Hf].
  pose proof Hw as [Ht _].
  assert (0 ≤ held l) as Hh0.
  { apply msum_nonneg. intros k v Hk. apply (Hr _ _ Hk). }
  assert (number_or (read t s (reserved_key D)) "0" = Some (held l)) as Ndr
    by by eapply counter_or_zero_read.
  assert (number_or (read t s (reserved_key Mo)) "0" = Some (held l)) as Nmr
    by by eapply counter_or_zero_read.
  unfold admit_script. rewrite bind_GET, (alive_read _ _ _ _ t He) by done.
  unfold str_eq. cbn [is_some_and]. rewrite String.eqb_refl. cbn [negb].
  rewrite bind_EXISTS, (absent_read s (R rid)) by auto. cbn [is_some].
  rewrite !bind_GET, (alive_read _ _ _ _ t Hvd), (alive_read _ _ _ _ t Hvm) by done.
  cbn [is_none orb]. rewrite andb_false_r, !bind_GET, Ndr, Nmr.
  unfold number_or. cbn [default from_option id].
  change (tonumber vd) with (tonum vd). change (tonumber vm) with (tonum vm).
  change (tonumber (rustt cost)) with (tonum (rustt cost)).
  rewrite Hd, Hm, (rust_number exact). unfold negative.
  cbn [num_ltb exact_num Z_num num_zero].
  rewrite !(proj2 (Z.ltb_ge _ _)) by lia. cbn [orb].
  unfold admits.
  change (num_add (committed_day l) (held l)) with (committed_day l + held l).
  change (num_add (committed_month l) (held l)) with (committed_month l + held l).
  change (tonumber ad) with (tonum ad). change (tonumber am) with (tonum am).
  destruct (over_limit _ cost (tonum ad) || over_limit _ cost (tonum am)); cbn [negb]; [done|].
  set (day := Some (t + DAILY_TTL * nanos_per_sec)). set (month := Some (t + MONTHLY_TTL * nanos_per_sec)).
  set (s3 := write Mo (argt (committed_month l)) month (write D (argt (committed_day l)) day
    (write (R rid) (reservation_text cost) month s))).
  assert (counter_or_zero h s3 (reserved_key D) (held l)) as C1.
  { unfold s3. by do 3 (apply counter_or_zero_write_ne; [auto with keys|]). }
  destruct (counter_incr _ _ _ _ t (argt cost) cost Hw C1) as (rd & Ird & Nrd); [apply exact|].
  assert (counter_or_zero h (write (reserved_key D) rd day s3) (reserved_key Mo) (held l)) as C2.
  { unfold s3. by do 4 (apply counter_or_zero_write_ne; [auto with keys|]). }
  destruct (counter_incr _ _ _ _ t (argt cost) cost Hw C2) as (rm & Irm & Nrm); [apply exact|].
  exists rd, rm. split; [done|]. split; [done|].
  rewrite !bind_SET_EX. fold (reservation_text cost) day month.
  change (arg_text (committed_day l)) with (argt (committed_day l)).
  change (arg_text (committed_month l)) with (argt (committed_month l)). fold s3.
  change (arg_text cost) with (argt cost).
  rewrite (bind_INCR t _ _ rd) by exact Ird. rewrite bind_EXPIRE by apply ttl_at_live. fold day.
  rewrite (bind_INCR t _ _ rm) by exact Irm. rewrite bind_EXPIRE by apply ttl_at_live. done.
Qed.

(** An admission acts on the ledger: it is granted exactly when both limits
    leave room for the whole cost, and then reserves it. *)
Lemma admit_ledger h s l t rid cost dl ml now :
  represents h s l → in_window h t → same_period now → outstanding l !! rid = None →
  0 ≤ cost → is_none_or (Z.leb 0) dl = true → is_none_or (Z.leb 0) ml = true →
  ∃ s' st, represents h s' (if admits l cost dl ml then reserve l rid cost else l) ∧
    admit_budget fd fm t epoch key_id rid cost dl ml now s =
    (s', Ok (if admits l cost dl ml then BudgetAllowed st else BudgetExceeded st)).
Proof using exact.
  intros Hrep Hw Hp Hn Hc Hdl Hml. destruct (period_keys _ Hp) as [Ed Em].
  assert (∀ x : option Z, is_none_or (Z.leb 0) x = true → is_some_and invalid_amount x = false) as Hok.
  { intros [x|]; simpl; [|done]. unfold invalid_amount. simpl. intros. bool_prop. by apply Z.ltb_ge. }
  assert (∀ x : option Z, tonum (from_option rustt "" x) = x) as Harg.
  { intros [x|]; simpl; apply exact. }
  unfold admit_budget. rewrite (Hok dl), (Hok ml) by done.
  assert (invalid_amount cost = false) as ->. { unfold invalid_amount. simpl. by apply Z.ltb_ge. }
  cbn [orb]. rewrite Ed, Em.
  pose proof (admit_script_run h s l t rid cost (from_option rustt "" dl) (from_option rustt "" ml)
    Hrep Hw Hn Hc) as Hrun. cbv zeta in Hrun. rewrite !Harg in Hrun. unfold invoke.
  change (from_option rust_text "" dl) with (from_option rustt "" dl).
  change (from_option rust_text "" ml) with (from_option rustt "" ml).
  change (rust_text cost) with (rustt cost).
  assert (∀ x y, ∃ st : BudgetState Z, parse_state (tostr x) (tostr y) = Some st) as Hreply.
  { intros x y. unfold parse_state. simpl. destruct (reply_number exact x) as [? ->].
    destruct (reply_number exact y) as [? ->]. simpl. eauto. }
  destruct (admits l cost dl ml).
  - destruct Hrun as (rd & rm & H1 & H2 & ->).
    destruct (Hreply (committed_day l + held l + cost) (committed_month l + held l + cost)) as [st ->].
    simpl. eexists _, st. split; [|done]. by apply represents_admitted.
  - rewrite Hrun. destruct (Hreply (committed_day l + held l) (committed_month l + held l)) as [st ->].
    simpl. by exists s, st.
Qed.

(** *** Settlement *)

Definition settle (l : ledger) (rid : string) (actual : Z) : ledger :=
  {| committed_day := committed_day l + actual; committed_month := committed_month l + actual;
     outstanding := delete rid (outstanding l) |}.

Lemma held_settle l rid actual a :
  outstanding l !! rid = Some a → held (settle l rid actual) = held l - a.
Proof. intros Hr. unfold held, settle. simpl. by rewrite (msum_delete _ _ _ a). Qed.

Lemma held_covers h s l rid a :
  represents h s l → outstanding l !! rid = Some a → 0 ≤ a ≤ held l.
Proof.
  intros Hrep Ha. split; [apply (rep_reserved _ _ _ Hrep _ _ Ha)|].
  apply (msum_le id _ rid a); [|done]. intros k v Hk. apply (rep_reserved _ _ _ Hrep _ _ Hk).
Qed.

(** [INCRBYFLOAT] on a live counter. *)
Lemma alive_incr h s k v r t :
  alive h s k v → t < h → alive h (write k r (ttl_at t s k) s) k r.
Proof.
  intros (e & He & _ & Hx) Ht. unfold alive, write. rewrite lookup_insert_eq. eexists.
  split; [done|]. split; [done|]. simpl. unfold ttl_at. rewrite He. simpl. unfold live.
  destruct (expiry e) as [x|]; simpl in *; [|done]. bool_prop.
  rewrite (proj2 (Z.ltb_lt t x)) by lia. simpl. by apply Z.leb_le.
Qed.

Definition settled_store (t : Z) (rid : string) (left_over : Z) (rd rm : string) (s : Store) : Store :=
  let s2 := write (reserved_key Mo) (argt left_over) (Some (t + MONTHLY_TTL * nanos_per_sec))
    (write (reserved_key D) (argt left_over) (Some (t + DAILY_TTL * nanos_per_sec)) s) in
  let s3 := write D rd (ttl_at t s2 D) s2 in
  delete (R rid) (write Mo rm (ttl_at t s3 Mo) s3).

Lemma represents_settled h s l t rid a actual rd rm :
  represents h s l → in_window h t → outstanding l !! rid = Some a → 0 ≤ actual →
  tonum rd = Some (committed_day l + actual) → tonum rm = Some (committed_month l + actual) →
  represents h (settled_store t rid (held l - a) rd rm s) (settle l rid actual).
Proof using exact.
  intros Hrep Hw Ha Hac Hrd Hrm. pose proof (held_settle l rid actual a Ha) as Hheld.
  destruct Hrep as [He [(vd & Hvd & Hd) Hd0] [(vm & Hvm & Hm) Hm0] Hhd Hhm Hr Hf].
  assert (h ≤ t + DAILY_TTL * nanos_per_sec) as Hday by apply Hw.
  pose proof (window_monthly _ _ Hw) as Hmonth. pose proof Hw as [Ht _].
  unfold settled_store. constructor; simpl.
  - apply alive_delete_ne; [auto with keys|]. repeat (apply alive_write_ne; [auto with keys|]). done.
  - split; [|lia]. exists rd. split; [|done]. apply alive_delete_ne; [auto with keys|].
    apply alive_write_ne; [auto with keys|]. eapply alive_incr; [|done].
    do 2 (apply alive_write_ne; [auto with keys|]). done.
  - split; [|lia]. exists rm. split; [|done]. apply alive_delete_ne; [auto with keys|].
    eapply alive_incr; [|done]. do 3 (apply alive_write_ne; [auto with keys|]). done.
  - left. rewrite Hheld. exists (argt (held l - a)). split; [|apply exact].
    apply alive_delete_ne; [auto with keys|]. do 3 (apply alive_write_ne; [auto with keys|]).
    by apply alive_write_eq.
  - left. rewrite Hheld. exists (argt (held l - a)). split; [|apply exact].
    apply alive_delete_ne; [auto with keys|]. do 2 (apply alive_write_ne; [auto with keys|]).
    by apply alive_write_eq.
  - intros rid' b [Hne Hb]%lookup_delete_Some. destruct (Hr _ _ Hb) as [Hal ?]. split; [|done].
    apply alive_delete_ne; [by intros E%reservation_key_inj|].
    do 4 (apply alive_write_ne; [auto with keys|]). done.
  - intros rid' [->|Hb]%lookup_delete_None; [apply lookup_delete_eq|].
    destruct (decide (rid' = rid)) as [->|Hne]; [apply lookup_delete_eq|].
    rewrite lookup_delete_ne by by intros E%reservation_key_inj.
    do 4 (apply absent_write_ne; [auto with keys|]). auto.
Qed.

Lemma number_or_read h s k v a t d :
  in_window h t → alive h s k v → tonum v = Some a → number_or (read t s k) d = Some a.
Proof. intros [Ht _] Hv Ha. unfold number_or. by rewrite (alive_read h s k v). Qed.

Lemma finalize_script_run h s l t rid a actual :
  represents h s l → in_window h t → outstanding l !! rid = Some a → 0 ≤ actual →
  ∃ rd rm, tonum rd = Some (committed_day l + actual) ∧ tonum rm = Some (committed_month l + actual) ∧
    finalize_script t (R rid) (rustt actual) epoch s = (settled_store t rid (held l - a) rd rm s, Ok 1).
Proof using exact D_plain Mo_plain.
  intros Hrep Hw Ha Hac. pose proof (held_covers _ _ _ _ _ Hrep Ha) as Hcov.
  pose proof Hrep as [He [(vd & Hvd & Hd) Hd0] [(vm & Hvm & Hm) Hm0] Hhd Hhm Hr Hf].
  pose proof Hw as [Ht _]. destruct (Hr _ _ Ha) as [Hres _].
  assert (outstanding l ≠ ∅) as Hne by (intros E; by rewrite E in Ha).
  destruct Hhd as [(wd & Hwd & Nd)|[_ ?]]; [|done]. destruct Hhm as [(wm & Hwm & Nm)|[_ ?]]; [|done].
  set (s2 := write (reserved_key Mo) (argt (held l - a)) (Some (t + MONTHLY_TTL * nanos_per_sec))
    (write (reserved_key D) (argt (held l - a)) (Some (t + DAILY_TTL * nanos_per_sec)) s)).
  assert (alive h s2 D vd) as A1 by (unfold s2; by do 2 (apply alive_write_ne; [auto with keys|])).
  destruct (incr_number exact vd (argt actual) (committed_day l) actual) as (rd & Ird & Nrd);
    [done|apply exact|].
  set (s3 := write D rd (ttl_at t s2 D) s2).
  assert (alive h s3 Mo vm) as A2 by (unfold s3, s2; by do 3 (apply alive_write_ne; [auto with keys|])).
  destruct (incr_number exact vm (argt actual) (committed_month l) actual) as (rm & Irm & Nrm);
    [done|apply exact|].
  exists rd, rm. split; [done|]. split; [done|]. unfold finalize_script.
  rewrite bind_GET, (alive_read _ _ _ _ t He) by done.
  unfold str_eq. cbn [is_some_and]. rewrite String.eqb_refl. cbn [negb].
  rewrite bind_GET, (alive_read _ _ _ _ t Hres) by done.
  unfold reservation_text at 1.
  rewrite match_reservation_text; try done; [|apply exact..].
  change (tonumber (rustt a)) with (tonum (rustt a)). rewrite (rust_number exact).
  unfold negative at 1. cbn [num_ltb exact_num Z_num num_zero].
  rewrite (proj2 (Z.ltb_ge a 0)), String.eqb_refl by lia. cbn [negb orb].
  rewrite !bind_GET, (number_or_read h s D vd (committed_day l) t ""),
    (number_or_read h s Mo vm (committed_month l) t "") by done.
  unfold negative. cbn [is_none_or num_ltb exact_num Z_num num_zero].
  rewrite !(proj2 (Z.ltb_ge _ 0)) by lia. cbn [orb].
  rewrite !bind_GET, (number_or_read h s _ wd (held l) t ""), (number_or_read h s _ wm (held l) t "")
    by done.
  change (tonumber (rustt actual)) with (tonum (rustt actual)). rewrite (rust_number exact).
  cbn [num_ltb num_add num_eps num_sub num_max num_zero exact_num Z_num].
  pose proof (eps_nonneg exact).
  rewrite !(proj2 (Z.ltb_ge _ a)) by lia. cbn [orb]. rewrite !bind_SET_EX, Z.max_r by lia.
  change (arg_text (held l - a)) with (argt (held l - a)). fold s2.
  change (arg_text actual) with (argt actual).
  rewrite (bind_INCR t _ _ rd) by by rewrite (alive_read _ _ _ _ t A1). fold s3.
  rewrite (bind_INCR t _ _ rm) by by rewrite (alive_read _ _ _ _ t A2). by rewrite bind_DEL.
Qed.

(** Settling an outstanding reservation frees it and commits what was
    actually spent; settling an unknown one changes nothing. *)
Lemma finalize_ledger h s l t rid actual :
  represents h s l → in_window h t → 0 ≤ actual →
  ∃ s', finalize_reservation t epoch key_id rid actual s = (s', Ok tt) ∧
    match outstanding l !! rid with
    | Some _ => represents h s' (settle l rid actual)
    | None => s' = s
    end.
Proof using exact D_plain Mo_plain.
  intros Hrep Hw Hac. unfold finalize_reservation, invoke.
  assert ((negb (num_is_finite actual) || num_ltb actual num_zero) = false) as ->
    by (simpl; by apply Z.ltb_ge).
  change (rust_text actual) with (rustt actual).
  destruct (outstanding l !! rid) as [a|] eqn:Ha.
  - destruct (finalize_script_run _ _ _ _ _ _ _ Hrep Hw Ha Hac) as (rd & rm & H1 & H2 & ->).
    simpl. eexists. split; [done|]. by apply represents_settled.
  - unfold finalize_script. pose proof (rep_free _ _ _ Hrep _ Ha) as Hfree.
    rewrite bind_GET, (alive_read _ _ _ _ t (rep_epoch _ _ _ Hrep)) by apply Hw.
    unfold str_eq. cbn [is_some_and]. rewrite String.eqb_refl. cbn [negb].
    rewrite bind_GET, absent_read by done. simpl. by exists s.
Qed.

(** An admission under a reservation id in use is refused. *)
Lemma admit_duplicate h s l t rid a cost dl ml now :
  represents h s l → in_window h t → outstanding l !! rid = Some a →
  admit_budget fd fm t epoch key_id rid cost dl ml now s = (s, Err ControlStateUnavailable).
Proof.
  intros Hrep Hw Ha. unfold admit_budget. destruct (_ || _); [done|]. unfold invoke, admit_script.
  rewrite bind_GET, (alive_read _ _ _ _ t (rep_epoch _ _ _ Hrep)) by apply Hw.
  unfold str_eq. cbn [is_some_and]. rewrite String.eqb_refl. cbn [negb].
  destruct (rep_reserved _ _ _ Hrep _ _ Ha) as [Hres _].
  rewrite bind_EXISTS, (alive_read _ _ _ _ t Hres) by apply Hw. done.
Qed.

(** *** Sequences of operations of one period *)

Inductive op : Type := Admit (rid : string) (cost : Z) | Settle (rid : string) (actual : Z).

(** The stored effect of an operation, whatever it answers. *)
Definition exec (dl ml : option Z) (now t : Z) (o : op) (s : Store) : Store :=
  match o with
  | Admit rid cost => (admit_budget fd fm t epoch key_id rid cost dl ml now s).1
  | Settle rid actual => (reconcile_budget_reservation t epoch key_id rid actual s).1
  end.

Definition ledger_op (dl ml : option Z) (o : op) (l : ledger) : ledger :=
  match o with
  | Admit rid cost =>
      if is_none (outstanding l !! rid) && admits l cost dl ml then reserve l rid cost else l
  | Settle rid actual => if is_some (outstanding l !! rid) then settle l rid actual else l
  end.

(** Costs are not negative. *)
Definition op_amount (o : op) : Prop := match o with Admit _ a | Settle _ a => 0 ≤ a end.
(** What a settlement spends beyond its reservation. *)
Definition overrun (l : ledger) (o : op) : Z :=
  match o with
  | Admit _ _ => 0
  | Settle rid actual => match outstanding l !! rid with Some a => Z.max 0 (actual - a) | None => 0 end
  end.

Definition timed : Type := Z * Z * op.   (* server time, request time, operation *)

Fixpoint exec_all (dl ml : option Z) (os : list timed) (s : Store) : Store :=
  match os with
  | [] => s
  | (t, now, o) :: os => exec_all dl ml os (exec dl ml now t o s)
  end.
Fixpoint ledger_all (dl ml : option Z) (os : list timed) (l : ledger) : ledger :=
  match os with
  | [] => l
  | (_, _, o) :: os => ledger_all dl ml os (ledger_op dl ml o l)
  end.
(** What the settlements of a sequence spend beyond their reservations. *)
Fixpoint overruns (dl ml : option Z) (os : list timed) (l : ledger) : Z :=
  match os with
  | [] => 0
  | (_, _, o) :: os => overrun l o + overruns dl ml os (ledger_op dl ml o l)
  end.
Lemma overrun_nonneg l o : 0 ≤ overrun l o.
Proof. destruct o as [|rid actual]; cbn; [lia|]. destruct (outstanding l !! rid); lia. Qed.

Definition timely (h : Z) (os : list timed) : Prop :=
  Forall (λ '(t, now, o), in_window h t ∧ same_period now ∧ op_amount o) os.

Lemma exec_ledger h s l dl ml now t o :
  represents h s l → in_window h t → same_period now → op_amount o →
  is_none_or (Z.leb 0) dl = true → is_none_or (Z.leb 0) ml = true →
  represents h (exec dl ml now t o s) (ledger_op dl ml o l).
Proof using exact D_plain Mo_plain.
  intros Hrep Hw Hp Hc Hdl Hml. destruct o as [rid cost|rid actual]; simpl in *.
  - destruct (outstanding l !! rid) as [a|] eqn:Ha; simpl.
    + by rewrite (admit_duplicate _ _ _ _ _ _ _ _ _ _ Hrep Hw Ha).
    + destruct (admit_ledger _ _ _ _ _ _ _ _ _ Hrep Hw Hp Ha Hc Hdl Hml) as (s' & st & Hs' & ->).
      by destruct (admits l cost dl ml).
  - unfold reconcile_budget_reservation.
    destruct (finalize_ledger _ _ _ _ rid actual Hrep Hw) as (s' & -> & Hs'); [done|].
    simpl. destruct (outstanding l !! rid); simpl; [done|by subst].
Qed.

(** Up to [extra] above the limit. *)
Definition under (spent : Z) (limit : option Z) (extra : Z) : Prop := ∀ x, limit = Some x → spent ≤ x + extra.
Definition within (dl ml : option Z) (l : ledger) (extra : Z) : Prop :=
  under (committed_day l + held l) dl extra ∧ under (committed_month l + held l) ml extra.

Lemma over_limit_false spent amount limit extra :
  over_limit spent amount limit = false → 0 ≤ extra → under (spent + amount) limit extra.
Proof. unfold over_limit, under. intros H He x ->. simpl in H. bool_prop. cbn in *. lia. Qed.

Lemma ledger_op_within dl ml o l extra :
  0 ≤ extra → within dl ml l extra → within dl ml (ledger_op dl ml o l) (extra + overrun l o).
Proof.
  intros He [Hd Hm]. destruct o as [rid cost|rid actual]; simpl in *.
  - rewrite Z.add_0_r. destruct (outstanding l !! rid) eqn:Ha; simpl; [done|].
    destruct (admits l cost dl ml) eqn:Hadm; [|done].
    unfold admits in Hadm. apply negb_true_iff, orb_false_iff in Hadm as [H1 H2].
    apply (over_limit_false _ _ _ extra) in H1, H2; try done. unfold within. rewrite held_insert by done. simpl.
    by rewrite !Z.add_assoc.
  - destruct (outstanding l !! rid) as [a|] eqn:Ha; simpl; [|by rewrite Z.add_0_r].
    unfold within. rewrite (held_settle l rid actual a) by done. simpl.
    split; intros x Hx; [specialize (Hd x Hx)|specialize (Hm x Hx)]; lia.
Qed.

Lemma exec_all_ledger h os s l dl ml :
  represents h s l → timely h os →
  is_none_or (Z.leb 0) dl = true → is_none_or (Z.leb 0) ml = true →
  represents h (exec_all dl ml os s) (ledger_all dl ml os l).
Proof using exact D_plain Mo_plain.
  revert s l. induction os as [|[[t now] o] os IH]; intros s l Hrep Ht Hdl Hml; simpl in *; [done|].
  apply Forall_cons in Ht as [(? & ? & ?) ?]. apply IH; try done. by apply exec_ledger.
Qed.

Lemma ledger_all_within os dl ml l extra :
  0 ≤ extra → within dl ml l extra → within dl ml (ledger_all dl ml os l) (extra + overruns dl ml os l).
Proof.
  revert l extra. induction os as [|[[t now] o] os IH]; intros l extra He Hl; simpl in *; [by rewrite Z.add_0_r|].
  rewrite Z.add_assoc. apply IH; [pose proof (overrun_nonneg l o); lia|]. by apply ledger_op_within.
Qed.

(** C24: Starting within the limits, after any sequence of admissions and
    settlements of one key in one accounting period, while the keys of the
    period are alive, the committed spend plus all outstanding reservations, as
    stored, exceed the daily and monthly limits by no more than what settlements
    cost beyond their own reservations: by nothing if every actual cost is
    covered by its estimate.  The store represents the ledger that the operations
    produce, duplicate admissions and repeated settlements included.  Amounts are
    exact: the texts that Redis, Lua and the client exchange are assumed to
    denote them without rounding. *)
Theorem budget_overrun_bounded h os s l dl ml :
  represents h s l → within dl ml l 0 → timely h os →
  is_none_or (Z.leb 0) dl = true → is_none_or (Z.leb 0) ml = true →
  represents h (exec_all dl ml os s) (ledger_all dl ml os l) ∧
  ∃ d m held, counter h (exec_all dl ml os s) D d ∧ counter h (exec_all dl ml os s) Mo m ∧
    counter_or_zero h (exec_all dl ml os s) (reserved_key D) held ∧
    counter_or_zero h (exec_all dl ml os s) (reserved_key Mo) held ∧
    under (d + held) dl (overruns dl ml os l) ∧ under (m + held) ml (overruns dl ml os l).
Proof using exact D_plain Mo_plain.
  intros Hrep Hwi Ht Hdl Hml. pose proof (exec_all_ledger _ _ _ _ _ _ Hrep Ht Hdl Hml) as Hr.
  pose proof (ledger_all_within os _ _ _ 0 ltac:(lia) Hwi) as [? ?].
  set (l' := ledger_all dl ml os l) in *.
  split; [done|]. exists (committed_day l'), (committed_month l'), (held l').
  split_and!; try done; try apply held_counter_zero; apply Hr.
Qed.

(** Each admission's answer is right: granted exactly when both limits leave
    room for the whole cost, and releasing the reservation gives it back. *)
Theorem admit_then_release h s l t t' rid cost dl ml now :
  represents h s l → in_window h t → in_window h t' → same_period now →
  outstanding l !! rid = None → 0 ≤ cost →
  is_none_or (Z.leb 0) dl = true → is_none_or (Z.leb 0) ml = true →
  ∃ s' st, admit_budget fd fm t epoch key_id rid cost dl ml now s =
    (s', Ok (if admits l cost dl ml then BudgetAllowed st else BudgetExceeded st)) ∧
    ∃ s'', release_budget_reservation t' epoch key_id rid s' = (s'', Ok tt) ∧
      represents h s'' l.
Proof using exact D_plain Mo_plain.
  intros Hrep Hw Hw' Hp Hn Hc Hdl Hml.
  destruct (admit_ledger _ _ _ _ _ _ _ _ _ Hrep Hw Hp Hn Hc Hdl Hml) as (s' & st & Hs' & ->).
  exists s', st. split; [done|]. unfold release_budget_reservation.
  change (num_zero : Z) with 0.
  destruct (admits l cost dl ml).
  - destruct (finalize_ledger _ _ _ _ rid 0 Hs' Hw' ltac:(lia)) as (s'' & -> & Hs'').
    exists s''. split; [done|]. simpl in Hs''. rewrite lookup_insert_eq in Hs''.
    assert (settle (reserve l rid cost) rid 0 = l) as E; [|by rewrite E in Hs''].
    unfold settle, reserve. simpl. rewrite delete_insert_id by done. destruct l. simpl.
    by rewrite !Z.add_0_r.
  - destruct (finalize_ledger _ _ _ _ rid 0 Hs' Hw' ltac:(lia)) as (s'' & -> & Hs'').
    rewrite Hn in Hs''. subst s''. by exists s'.
Qed.
End exact.

(** ** A concrete instance: amounts in tally notation *)

Abbreviation tally_num :=
  (exact_num 0 tally_number tally_text tally_text tally_text tally_number tally_incr).

Lemma tally_exact : ExactText 0 tally_number tally_text tally_text tally_text tally_number tally_incr.
Proof.
  constructor; try apply tally_number_text; try done.
  - intros a. unfold tally_text. destruct (a <? 0); (split; [done|]);
      rewrite !contains_byte_cons, tally_plain; done.
  - intros v x a b Ha Hb. exists (tally_text (a + b)). split; [|apply tally_number_text].
    unfold tally_incr. by rewrite Ha, Hb.
  - intros x b Hb. exists (tally_text b). split; [|apply tally_number_text].
    unfold tally_incr. by rewrite Hb.
  - intros a. rewrite tally_number_text. eauto.
Qed.

Definition sample_day (_ : Z) : string := "20260101".
Definition sample_month (_ : Z) : string := "202601".
Definition sample_store : Store :=
  write BUDGET_EPOCH_KEY "e1" None
    (write (daily_budget_key sample_day "k" 0) "0i" (Some 1000)
       (write (monthly_budget_key sample_month "k" 0) "0ii" (Some 1000) ∅)).
Definition sample_ledger : ledger :=
  {| committed_day := 1; committed_month := 2; outstanding := ∅ |}.

Lemma sample_represents :
  represents tally_number tally_text sample_day sample_month "k" "e1" 0 1000 sample_store sample_ledger.
Proof.
  constructor; simpl.
  - by eexists.
  - split; [|lia]. eexists. split; [by eexists|done].
  - split; [|lia]. eexists. split; [by eexists|done].
  - by right.
  - by right.
  - intros rid a Ha. by rewrite lookup_empty in Ha.
  - intros rid _. unfold sample_store, write. rewrite !lookup_insert_ne by by apply key_family. done.
Qed.

Definition sample_ops : list timed :=
  [(5, 0, Admit "r1" 3); (6, 0, Admit "r2" 4); (7, 0, Settle "r1" 7); (8, 0, Settle "r1" 7); (9, 0, Admit "r3" 1)].

Lemma sample_timely : timely sample_day sample_month 0 1000 sample_ops.
Proof.
  unfold timely, sample_ops, in_window, DAILY_TTL, nanos_per_sec.
  repeat (apply Forall_cons_2; [split; [lia|split; [done|cbn; lia]]|]). by apply Forall_nil_2.
Qed.

(** A daily limit of 6 admits the first request and refuses the second; the
    first costs 4 more than was reserved, so that 8 are spent; its repeated
    settlement changes nothing, and the next request is refused. *)
Example sample_ledger_run :
  let l := ledger_all 0 tally_number tally_text tally_text tally_text tally_number tally_incr
             (Some 6) None sample_ops sample_ledger in
  committed_day l = 8 ∧ outstanding l = ∅ ∧
  overruns 0 tally_number tally_text tally_text tally_text tally_number tally_incr (Some 6) None sample_ops sample_ledger = 4.
Proof. by vm_compute. Qed.

Lemma budget_overrun_bounded_witness :
  represents tally_number tally_text sample_day sample_month "k" "e1" 0 1000
    (exec_all 0 tally_number tally_text tally_text tally_text tally_number tally_incr
       sample_day sample_month "k" "e1" (Some 6) None sample_ops sample_store)
    (ledger_all 0 tally_number tally_text tally_text tally_text tally_number tally_incr
       (Some 6) None sample_ops sample_ledger).
Proof.
  apply (budget_overrun_bounded 0 tally_number tally_text tally_text tally_text tally_number
    tally_incr tally_exact sample_day sample_month "k" "e1" 0 eq_refl eq_refl 1000 sample_ops
    sample_store sample_ledger (Some 6) None sample_represents); [|exact sample_timely|done|done].
  split; intros x [= <-]. vm_compute. discriminate.
Defined.

Lemma sample_window t : 0 ≤ t < 1000 → in_window 1000 t.
Proof. unfold in_window, DAILY_TTL, nanos_per_sec. lia. Qed.

Lemma admit_then_release_witness :
  ∃ s' st, admit_budget (H := tally_num) sample_day sample_month 5 "e1" "k" "r1" 3 (Some 6) None 0
    sample_store = (s', Ok (BudgetAllowed st)).
Proof.
  destruct (admit_then_release 0 tally_number tally_text tally_text tally_text tally_number
    tally_incr tally_exact sample_day sample_month "k" "e1" 0 eq_refl eq_refl 1000 sample_store
    sample_ledger 5 9 "r1" 3 (Some 6) None 0 sample_represents
    (sample_window 5 ltac:(lia)) (sample_window 9 ltac:(lia)) (conj eq_refl eq_refl)
    (lookup_empty _) ltac:(lia) eq_refl eq_refl) as (s' & st & E & _).
  exists s', st. exact E.
Defined.

Lemma epoch_mismatch_refused_witness :
  admit_budget (H := tally_num) sample_day sample_month 5 "other" "k" "r1" 3 None None 0 sample_store
  = (sample_store, Err ControlStateUnavailable).
Proof.
  apply (epoch_mismatch_refused (H := tally_num) sample_day sample_month 5 "other" "k" "r1" 3 1
    None None 0 sample_store). vm_compute. discriminate.
Defined.

Definition sample_refused : Store * GatewayResult (BudgetDecision Z) :=
  admit_budget (H := tally_num) sample_day sample_month 5 "e1" "k" "r1" 9 (Some 6) None 0 sample_store.

Lemma exceeded_unchanged_witness : sample_refused.1 = sample_store.
Proof.
  apply (exceeded_unchanged (H := tally_num) sample_day sample_month 5 "e1" "k" "r1" 9 (Some 6) None 0
    sample_store sample_refused.1 {| daily_spend_usd := 1; monthly_spend_usd := 2 |}).
  assert (sample_refused.2 = Ok (BudgetExceeded {| daily_spend_usd := 1; monthly_spend_usd := 2 |}))
    as E by (vm_compute; reflexivity).
  rewrite <- E. exact (surjective_pairing sample_refused).
Defined.
