(* ===== verification/RateLimits.v ===== *)
(** * Request and token rate limits in Redis

    Models [crates/gateway-core/src/rate_limits.rs] and the [RateLimitStore]
    of [crates/gateway-store/src/redis.rs].  A counter per key and minute is
    incremented and its expiry renewed in one transaction.  Integer texts, the
    minute format and the [TTL] reply of Redis are parameters. *)

From S2P Require Import Prelude Errors Redis.

Inductive RateLimitDecision : Type :=
| RateAllowed (count : Z)
| RateExceeded (count : Z) (retry_after_seconds : option Z).

Section rate_limits.
Variable format_minute : Z → string.
Variable int_number : string → option Z.
Variable int_text : Z → string.
(** [TTL key] at a server time. *)
Variable ttl_reply : Z → Store → string → Z.

Definition request_rate_limit_key (key_id : string) (now : Z) : string :=
  "rl:req:" +:+ key_id +:+ ":" +:+ format_minute now.
Definition token_rate_limit_key (key_id : string) (now : Z) : string :=
  "rl:tpm:" +:+ key_id +:+ ":" +:+ format_minute now.

Definition WINDOW_TTL : Z := 70.

(** [INCRBY]: 64-bit, keeps the expiry time. *)
Definition INCRBY (t : Z) (k : string) (amount : Z) : Script Z := λ s,
  match (match read t s k with Some v => int_number v | None => Some 0 end) with
  | Some a =>
      if in_range (- i64_max - 1) i64_max (a + amount)
      then (write k (int_text (a + amount)) (ttl_at t s k) s, Ok (a + amount))
      else (s, Err "ERR increment or decrement would overflow")
  | None => (s, Err "ERR value is not an integer or out of range")
  end.

(** The atomic pipeline [INCRBY key amount; EXPIRE key 70]: both commands are
    executed even when the first one fails. *)
Definition count_pipeline (t : Z) (k : string) (amount : Z) : Script Z := λ s,
  let '(s, r) := INCRBY t k amount s in
  ((EXPIRE t k WINDOW_TTL s).1, r).

Definition decide_rate (t' : Z) (k : string) (limit : Z) (s : Store) (r : result string Z) :
    Store * GatewayResult RateLimitDecision :=
  match r with
  | Err _ => (s, Err ControlStateUnavailable)
  | Ok count =>
      (s, Ok (if limit <? count
              then RateExceeded count
                     (let ttl := ttl_reply t' s k in
                      if (0 <=? ttl) && (0 <? ttl) then Some ttl else None)
              else RateAllowed count))
  end.

(** [t] is the server time of the pipeline, [t'] that of the [TTL] call. *)
Definition check_request_rate_limit (t t' : Z) (key_id : string) (rpm_limit : option Z) (now : Z)
    (s : Store) : Store * GatewayResult RateLimitDecision :=
  match rpm_limit with
  | None => (s, Ok (RateAllowed 0))
  | Some limit =>
      let k := request_rate_limit_key key_id now in
      let '(s, r) := count_pipeline t k 1 s in
      decide_rate t' k limit s r
  end.

Definition check_token_rate_limit (t t' : Z) (key_id : string) (tpm_limit : option Z)
    (estimated_tokens now : Z) (s : Store) : Store * GatewayResult RateLimitDecision :=
  match tpm_limit with
  | None => (s, Ok (RateAllowed 0))
  | Some limit =>
      let estimated_tokens := Z.max estimated_tokens 0 in
      if estimated_tokens =? 0 then (s, Ok (RateAllowed 0))
      else
        let k := token_rate_limit_key key_id now in
        let '(s, r) := count_pipeline t k estimated_tokens s in
        decide_rate t' k limit s r
  end.

(** ** Counting within a window *)

Hypothesis int_exact : ∀ a, int_number (int_text a) = Some a.

(** The key holds the count [a] and lives until the end of the window that
    started at the last increment [t0]; or nothing has been counted yet. *)
Definition counted (t0 : Z) (s : Store) (k : string) (a : Z) : Prop :=
  alive (t0 + WINDOW_TTL * nanos_per_sec) s k (int_text a) ∨ s !! k = None ∧ a = 0.

Lemma pipeline_counts t0 t s k a amount :
  counted t0 s k a → t < t0 + WINDOW_TTL * nanos_per_sec → 0 ≤ a → 0 ≤ amount →
  a + amount ≤ i64_max →
  ∃ s', count_pipeline t k amount s = (s', Ok (a + amount)) ∧ counted t s' k (a + amount) ∧
    ∀ k', k' ≠ k → s' !! k' = s !! k'.
Proof using int_exact.
  intros Hc Ht Ha Ham Hmax. unfold count_pipeline, INCRBY.
  assert (match read t s k with Some v => int_number v | None => Some 0 end = Some a) as ->.
  { destruct Hc as [Hv|[Hn ->]].
    - by rewrite (alive_read _ _ _ _ t Hv).
    - by rewrite absent_read. }
  rewrite (proj2 (in_range_iff _ _ _)) by (unfold i64_max in *; lia).
  rewrite expire_run by apply ttl_at_live. rewrite write_write. simpl. eexists. split; [done|].
  split; [left; by apply alive_write_eq|].
  intros k' Hne. unfold write. by rewrite lookup_insert_ne.
Qed.

(** What the gateway answers when the count has reached [count]. *)
Definition allowed (d : RateLimitDecision) : bool :=
  match d with RateAllowed _ => true | RateExceeded _ _ => false end.

Definition count_of (d : RateLimitDecision) : Z :=
  match d with RateAllowed c => c | RateExceeded c _ => c end.

(** The decisions on a sequence of token estimates of one minute, each made
    at its own server time. *)
Fixpoint run_tokens (key_id : string) (limit now : Z) (reqs : list (Z * Z)) (s : Store) :
    list (GatewayResult RateLimitDecision) :=
  match reqs with
  | [] => []
  | (t, tokens) :: reqs =>
      let '(s, r) := check_token_rate_limit t t key_id (Some limit) tokens now s in
      r :: run_tokens key_id limit now reqs s
  end.
Fixpoint run_requests (key_id : string) (limit now : Z) (ts : list Z) (s : Store) :
    list (GatewayResult RateLimitDecision) :=
  match ts with
  | [] => []
  | t :: ts =>
      let '(s, r) := check_request_rate_limit t t key_id (Some limit) now s in
      r :: run_requests key_id limit now ts s
  end.

(** Each request follows the previous one before the counter expires. *)
Fixpoint close_together (t0 : Z) (ts : list Z) : Prop :=
  match ts with
  | [] => True
  | t :: ts => t0 ≤ t < t0 + WINDOW_TTL * nanos_per_sec ∧ close_together t ts
  end.

(** The verdict on the running totals. *)
Definition verdict (limit count : Z) (r : GatewayResult RateLimitDecision) : Prop :=
  ∃ d, r = Ok d ∧ count_of d = count ∧ (allowed d = true ↔ count ≤ limit).

Lemma decide_rate_verdict t k limit s count :
  ∃ d, decide_rate t k limit s (Ok count) = (s, Ok d) ∧ verdict limit count (Ok d).
Proof.
  unfold decide_rate. eexists. split; [done|]. eexists. split; [done|].
  destruct (Z.ltb_spec limit count); simpl; split; try done; split; try done; lia.
Qed.

Lemma run_requests_from key_id limit now ts t0 s a :
  counted t0 s (request_rate_limit_key key_id now) a → close_together t0 ts → 0 ≤ a →
  a + Z.of_nat (length ts) ≤ i64_max →
  ∀ i r, run_requests key_id limit now ts s !! i = Some r → verdict limit (a + Z.of_nat i + 1) r.
Proof using int_exact.
  revert t0 s a. induction ts as [|t ts IH]; intros t0 s a Hc Hts Ha Hmax i r Hi; [done|].
  cbn [run_requests check_request_rate_limit length close_together] in *. destruct Hts as [Ht Hts].
  destruct (pipeline_counts t0 t s _ a 1 Hc) as (s' & E & Hc' & _); [lia..|].
  unfold check_request_rate_limit in Hi. rewrite E in Hi.
  destruct (decide_rate_verdict t (request_rate_limit_key key_id now) limit s' (a + 1)) as (d & Ed & Hv).
  rewrite Ed in Hi. destruct i as [|i]; simpl in Hi.
  - injection Hi as <-. by replace (a + Z.of_nat 0 + 1) with (a + 1) by lia.
  - replace (a + Z.of_nat (S i) + 1) with (a + 1 + Z.of_nat i + 1) by lia.
    eapply IH; [exact Hc'|done|lia|lia|done].
Qed.

(** The request limit is exact: of the requests of one minute, the first
    [limit] are allowed and every later one is refused, refused requests
    being counted too. *)
Theorem request_limit_exact key_id limit now t0 ts s :
  s !! request_rate_limit_key key_id now = None → close_together t0 ts →
  Z.of_nat (length ts) ≤ i64_max →
  ∀ i r, run_requests key_id limit now ts s !! i = Some r →
    verdict limit (Z.of_nat i + 1) r.
Proof using int_exact.
  intros Hn Hts Hmax i r Hi.
  replace (Z.of_nat i + 1) with (0 + Z.of_nat i + 1) by lia.
  eapply (run_requests_from key_id limit now ts t0 s 0); eauto; [by right|lia].
Qed.

(** Running totals of the estimates that count. *)
Definition total (reqs : list (Z * Z)) : Z := foldr (λ x acc, Z.max x.2 0 + acc) 0 reqs.

Lemma total_nonneg reqs : 0 ≤ total reqs.
Proof. induction reqs as [|x reqs IH]; simpl; lia. Qed.

Lemma run_tokens_from key_id limit now reqs t0 s a :
  counted t0 s (token_rate_limit_key key_id now) a → close_together t0 reqs.*1 → 0 ≤ a →
  Forall (λ x, 0 < x.2) reqs → a + total reqs ≤ i64_max →
  ∀ i r, run_tokens key_id limit now reqs s !! i = Some r →
    verdict limit (a + total (take (S i) reqs)) r.
Proof using int_exact.
  revert t0 s a. induction reqs as [|[t tokens] reqs IH];
    intros t0 s a Hc Hts Ha Hpos Hmax i r Hi; [done|].
  apply Forall_cons in Hpos as [Hp Hpos]. simpl in Hp, Hts, Hmax. destruct Hts as [Ht Hts].
  pose proof (total_nonneg reqs). cbn [run_tokens] in Hi. unfold check_token_rate_limit in Hi.
  rewrite Z.max_l in Hi, Hmax by lia. rewrite (proj2 (Z.eqb_neq tokens 0)) in Hi by lia.
  destruct (pipeline_counts t0 t s _ a tokens Hc) as (s' & E & Hc' & _); [lia..|].
  rewrite E in Hi.
  destruct (decide_rate_verdict t (token_rate_limit_key key_id now) limit s' (a + tokens))
    as (d & Ed & Hv). rewrite Ed in Hi. destruct i as [|i]; simpl in Hi.
  - injection Hi as <-. simpl. by rewrite Z.max_l, Z.add_0_r by lia.
  - replace (a + total (take (S (S i)) ((t, tokens) :: reqs)))
      with (a + tokens + total (take (S i) reqs)) by (simpl; lia).
    eapply IH; [exact Hc'|done|lia|done|lia|done].
Qed.

(** The token limit is exact: a request is allowed exactly when the estimates
    of the minute up to and including its own stay within the limit. *)
Theorem token_limit_exact key_id limit now t0 reqs s :
  s !! token_rate_limit_key key_id now = None → close_together t0 reqs.*1 →
  Forall (λ x, 0 < x.2) reqs → total reqs ≤ i64_max →
  ∀ i r, run_tokens key_id limit now reqs s !! i = Some r →
    verdict limit (total (take (S i) reqs)) r.
Proof using int_exact.
  intros Hn Hts Hpos Hmax i r Hi. rewrite <- (Z.add_0_l (total _)).
  eapply (run_tokens_from key_id limit now reqs t0 s 0); eauto; [by right|lia].
Qed.
End rate_limits.

(** ** A concrete minute *)

Definition sample_minute (_ : Z) : string := "202601010000".
Definition sample_ttl (_ : Z) (_ : Store) (_ : string) : Z := 42.

Lemma request_limit_exact_witness :
  verdict 2 3 (Ok (RateExceeded 3 (Some 42))).
Proof.
  refine (request_limit_exact sample_minute tally_number tally_text sample_ttl tally_number_text
    "k" 2 0 0 [1; 2; 3] ∅ _ _ _ 2%nat _ _).
  - done.
  - simpl. unfold WINDOW_TTL, nanos_per_sec. lia.
  - unfold i64_max. simpl. lia.
  - vm_compute. reflexivity.
Defined.

Lemma token_limit_exact_witness : verdict 10 7 (Ok (RateAllowed 7)).
Proof.
  refine (token_limit_exact sample_minute tally_number tally_text sample_ttl tally_number_text
    "k" 10 0 0 [(1, 3); (2, 4); (3, 5)] ∅ _ _ _ _ 1%nat _ _).
  - done.
  - simpl. unfold WINDOW_TTL, nanos_per_sec. lia.
  - repeat (apply Forall_cons_2; [simpl; lia|]). by apply Forall_nil_2.
  - unfold i64_max. simpl. lia.
  - vm_compute. reflexivity.
Defined.
