(* ===== verification/Guardrails.v ===== *)
(** * Guardrail plans and their execution

    Models [crates/gateway-core/src/guardrails.rs]: the enumerations and
    their spellings, the resolution of a plan from definitions, layered
    policies and client requests, the merging of configuration overrides, the
    executor and its failure policies, client-requested guardrails and the
    sanitising of provider metadata.  A handler is a function from its input
    to a result or an error; the network exchange of the HTTP handler is a
    parameter, and latencies are supplied by the environment.  The built-in
    PII handler is in [Pii]. *)

From S2P Require Import Prelude Errors Routing Json GuardrailPolicy.

Definition PII_REDACT_GUARDRAIL : string := "pii-redact".

Inductive GuardrailMode : Type := PreCall | PostCall | DuringCall.
#[export] Instance GuardrailMode_eq_dec : EqDecision GuardrailMode.
Proof. solve_decision. Defined.

Definition mode_as_str (m : GuardrailMode) : string :=
  match m with PreCall => "pre_call" | PostCall => "post_call" | DuringCall => "during_call" end.
Definition mode_from_str (value : string) : GatewayResult GuardrailMode :=
  if String.eqb value "pre_call" then Ok PreCall
  else if String.eqb value "post_call" then Ok PostCall
  else if String.eqb value "during_call" then Ok DuringCall
  else Err InvalidGuardrailRequest.

Inductive GuardrailAction : Type := Allow | Block | Modify | Warn.
#[export] Instance GuardrailAction_eq_dec : EqDecision GuardrailAction.
Proof. solve_decision. Defined.

Definition action_as_str (a : GuardrailAction) : string :=
  match a with Allow => "allow" | Block => "block" | Modify => "modify" | Warn => "warn" end.
Definition action_from_str (value : string) : GatewayResult GuardrailAction :=
  if String.eqb value "allow" then Ok Allow
  else if String.eqb value "block" then Ok Block
  else if String.eqb value "modify" then Ok Modify
  else if String.eqb value "warn" then Ok Warn
  else Err InvalidGuardrailRequest.

Inductive GuardrailFailurePolicy : Type := FailClosed | FailOpen | DryRun.
#[export] Instance GuardrailFailurePolicy_eq_dec : EqDecision GuardrailFailurePolicy.
Proof. solve_decision. Defined.

Definition failure_policy_as_str (p : GuardrailFailurePolicy) : string :=
  match p with FailClosed => "fail_closed" | FailOpen => "fail_open" | DryRun => "dry_run" end.
Definition failure_policy_from_str (value : string) : GatewayResult GuardrailFailurePolicy :=
  if String.eqb value "fail_closed" then Ok FailClosed
  else if String.eqb value "fail_open" then Ok FailOpen
  else if String.eqb value "dry_run" then Ok DryRun
  else Err InvalidGuardrailRequest.

Record GuardrailDefinition := {
  name : string;
  description : string;
  modes : list GuardrailMode;
  default_on : bool;
  failure_policy : GuardrailFailurePolicy;
  config_schema : Value;
  config : Value;
  enabled : bool
}.

Definition definition_new (name description : string) (modes : list GuardrailMode)
    (failure_policy : GuardrailFailurePolicy) : GuardrailDefinition :=
  {| name := name; description := description; modes := modes; default_on := false;
     failure_policy := failure_policy; config_schema := JObject []; config := JObject [];
     enabled := true |}.

Definition supports_mode (d : GuardrailDefinition) (mode : GuardrailMode) : bool :=
  enabled d && existsb (λ m, bool_decide (m = mode)) (modes d).

Definition set_config (c : Value) (d : GuardrailDefinition) : GuardrailDefinition :=
  {| name := name d; description := description d; modes := modes d; default_on := default_on d;
     failure_policy := failure_policy d; config_schema := config_schema d; config := c;
     enabled := enabled d |}.

(** A plan is the list of its entries' definitions. *)
Definition GuardrailPlan : Type := list GuardrailDefinition.

Record GuardrailPolicySet := {
  key_policy : GuardrailPolicy;
  team_policy : option GuardrailPolicy;
  route_policy : option GuardrailPolicy;
  model_policy : option GuardrailPolicy
}.

Record GuardrailPlanRequest := {
  plan_mode : GuardrailMode;
  definitions : list GuardrailDefinition;
  policies : GuardrailPolicySet;
  client_requested_guardrails : list string
}.

(** ** Configuration overrides *)

Definition opt_list {A} (o : option A) : list A := match o with Some a => [a] | None => [] end.

Definition policy_iter (ps : GuardrailPolicySet) : list GuardrailPolicy :=
  key_policy ps :: opt_list (team_policy ps) ++ opt_list (route_policy ps) ++ opt_list (model_policy ps).

Definition effective_forbidden_guardrails (ps : GuardrailPolicySet) : list string :=
  flat_map forbidden_guardrails (policy_iter ps).

Definition merge_object_config (base override : Value) : Value :=
  let merged := default [] (as_object base) in
  JObject (match as_object override with
           | Some values => foldl (λ m kv, map_insert kv.1 kv.2 m) merged values
           | None => merged
           end).

Definition merge_http_provider_config (base override : Value) : Value :=
  let conf := default [] (as_object base) in
  let provider_config := default (JObject []) (map_get "provider_config" conf) in
  let conf := map_remove "provider_config" conf in
  JObject (map_insert "provider_config" (merge_object_config provider_config override) conf).

Definition is_http_config (v : Value) : bool :=
  is_some_and (String.eqb "http") (value_get "provider_kind" v ≫= as_str).

Definition merge_runtime_config (base override : Value) : Value :=
  if is_http_config base then merge_http_provider_config base override
  else merge_object_config base override.

Definition apply_override (n : string) (c : Value) (p : GuardrailPolicy) : Value :=
  match map_get n (guardrail_config_overrides p) with
  | Some override => merge_runtime_config c override
  | None => c
  end.

Definition with_effective_config (d : GuardrailDefinition) (ps : GuardrailPolicySet) :
    GuardrailDefinition :=
  set_config (foldl (apply_override (name d)) (config d) (policy_iter ps)) d.

Definition validate_guardrail_config_overrides (r : GuardrailPlanRequest) : GatewayResult unit :=
  let known_names := map name (definitions r) in
  let forbidden := effective_forbidden_guardrails (policies r) in
  try_for_each (λ p,
    check? guardrail_policy_validate p in
    try_for_each (λ entry : string * Value,
      if negb (str_mem entry.1 known_names) then Err InvalidGuardrailRequest
      else if str_mem entry.1 forbidden then Err GuardrailForbidden
      else Ok tt) (guardrail_config_overrides p)) (policy_iter (policies r)).

(** ** Plan resolution *)

Definition push_definition_once (plan : GuardrailPlan) (d : GuardrailDefinition) : GuardrailPlan :=
  if existsb (λ e, String.eqb (name e) (name d)) plan then plan else plan ++ [d].

(** The [BTreeMap] of usable definitions, in name order. *)
Definition usable_definitions (r : GuardrailPlanRequest) : list (string * GuardrailDefinition) :=
  foldl (λ m d, if supports_mode d (plan_mode r)
                then map_insert (name d) (with_effective_config d (policies r)) m else m)
    [] (definitions r).

Definition add_mandatory (defs : list (string * GuardrailDefinition)) (forbidden : list string)
    (plan : GuardrailPlan) (n : string) : GatewayResult GuardrailPlan :=
  if str_mem n forbidden then Err GuardrailForbidden
  else let? d := ok_or (map_get n defs) GuardrailUnavailable in
       Ok (push_definition_once plan d).

Definition add_requested (defs : list (string * GuardrailDefinition))
    (forbidden optional : list string) (plan : GuardrailPlan) (n : string) :
    GatewayResult GuardrailPlan :=
  if str_mem n forbidden then Err GuardrailForbidden
  else if negb (str_mem n optional) then Err GuardrailForbidden
  else let? d := ok_or (map_get n defs) InvalidGuardrailRequest in
       Ok (push_definition_once plan d).

Definition resolve_guardrail_plan (r : GuardrailPlanRequest) : GatewayResult GuardrailPlan :=
  check? validate_guardrail_config_overrides r in
  let defs := usable_definitions r in
  let layers := policy_iter (policies r) in
  let forbidden := flat_map forbidden_guardrails layers in
  let optional := flat_map optional_guardrails layers in
  let plan := foldl push_definition_once []
                (List.filter default_on (map snd defs)) in
  let? plan := try_fold (add_mandatory defs forbidden) plan
                 (flat_map mandatory_guardrails layers) in
  try_fold (add_requested defs forbidden optional) plan (client_requested_guardrails r).

(** ** Client requests *)

Definition strip_client_guardrails (v : Value) : Value :=
  match v with JObject m => JObject (map_remove "guardrails" m) | _ => v end.

Definition extract_client_guardrails_value (g : option Value) : GatewayResult (list string) :=
  match g with
  | None => Ok []
  | Some g =>
      let? items := ok_or (as_array g) InvalidGuardrailRequest in
      try_map (λ item,
        let? n := ok_or (as_str item) InvalidGuardrailRequest in
        check? validate_guardrail_name n in
        Ok n) items
  end.
Definition extract_client_guardrails (v : Value) : GatewayResult (list string) :=
  extract_client_guardrails_value (value_get "guardrails" v).

(** ** Execution *)

Record GuardrailExecutionRecord := {
  guardrail_name : string;
  rec_mode : GuardrailMode;
  action : GuardrailAction;
  rec_failure_policy : GuardrailFailurePolicy;
  latency_ms : Z;
  reason : option string;
  metadata : Value
}.

Record GuardrailContext := {
  request_id : string;
  key_id : option string;
  team_id : option string;
  user_id : option string;
  project_id : option string;
  model : option string;
  route : option Route;
  provider : option Provider;
  pii_mappings : list (string * string);
  applied_guardrails : list string;
  guardrail_results : list GuardrailExecutionRecord
}.

Record GuardrailInput := {
  in_mode : GuardrailMode;
  in_request : option Value;
  in_response : option Value;
  in_context : GuardrailContext;
  in_config : Value
}.

Record GuardrailResult := {
  res_action : GuardrailAction;
  res_request : option Value;
  res_response : option Value;
  res_reason : option string;
  res_metadata : Value;
  res_pii_mappings : list (string * string)
}.

Record GuardrailExecution := {
  ex_request : option Value;
  ex_response : option Value;
  ex_context : GuardrailContext;
  ex_records : list GuardrailExecutionRecord
}.

Definition result_of (a : GuardrailAction) (req resp : option Value) (why : option string) :
    GuardrailResult :=
  {| res_action := a; res_request := req; res_response := resp; res_reason := why;
     res_metadata := JObject []; res_pii_mappings := [] |}.
Definition result_allow : GuardrailResult := result_of Allow None None None.
Definition result_block (why : string) : GuardrailResult := result_of Block None None (Some why).
Definition result_modify_request (v : Value) : GuardrailResult := result_of Modify (Some v) None None.
Definition result_modify_response (v : Value) : GuardrailResult := result_of Modify None (Some v) None.
Definition result_warn (why : string) : GuardrailResult := result_of Warn None None (Some why).

Definition context_record (ms : list (string * string)) (n : string)
    (r : GuardrailExecutionRecord) (c : GuardrailContext) : GuardrailContext :=
  {| request_id := request_id c; key_id := key_id c; team_id := team_id c; user_id := user_id c;
     project_id := project_id c; model := model c; route := route c; provider := provider c;
     pii_mappings := pii_mappings c ++ ms;
     applied_guardrails := applied_guardrails c ++ [n];
     guardrail_results := guardrail_results c ++ [r] |}.

Definition push_record (ms : list (string * string)) (r : GuardrailExecutionRecord)
    (ex : GuardrailExecution) : GuardrailExecution :=
  {| ex_request := ex_request ex; ex_response := ex_response ex;
     ex_context := context_record ms (guardrail_name r) r (ex_context ex);
     ex_records := ex_records ex ++ [r] |}.

Definition handle_guardrail_failure (ex : GuardrailExecution) (d : GuardrailDefinition)
    (mode : GuardrailMode) (error : GatewayError) (latency : Z) : GatewayResult GuardrailExecution :=
  match failure_policy d with
  | FailClosed => Err error
  | FailOpen | DryRun =>
      Ok (push_record []
            {| guardrail_name := name d; rec_mode := mode; action := Warn;
               rec_failure_policy := failure_policy d; latency_ms := latency;
               reason := Some (code error); metadata := JObject [] |} ex)
  end.

Section executor.
(** The registered handlers and the time each call takes. *)
Variable handlers : string → option (GuardrailInput → GatewayResult GuardrailResult).
Variable latency : GuardrailInput → Z.

Definition execute_entry (mode : GuardrailMode) (ex : GuardrailExecution) (d : GuardrailDefinition) :
    GatewayResult GuardrailExecution :=
  match handlers (name d) with
  | None => handle_guardrail_failure ex d mode GuardrailUnavailable 0
  | Some handler =>
      let input := {| in_mode := mode; in_request := ex_request ex; in_response := ex_response ex;
                      in_context := ex_context ex; in_config := config d |} in
      match handler input with
      | Err error => handle_guardrail_failure ex d mode error (latency input)
      | Ok result =>
          let dry_run := bool_decide (failure_policy d = DryRun) in
          let record :=
            {| guardrail_name := name d; rec_mode := mode;
               action := if dry_run then Warn else res_action result;
               rec_failure_policy := failure_policy d; latency_ms := latency input;
               reason := res_reason result; metadata := res_metadata result |} in
          let ex := push_record (res_pii_mappings result) record ex in
          if dry_run then Ok ex
          else match res_action result with
               | Allow | Warn => Ok ex
               | Modify =>
                   Ok {| ex_request := match res_request result with
                                       | Some v => Some v | None => ex_request ex end;
                         ex_response := match res_response result with
                                        | Some v => Some v | None => ex_response ex end;
                         ex_context := ex_context ex; ex_records := ex_records ex |}
               | Block => Err GuardrailBlocked
               end
      end
  end.

Definition execute (plan : GuardrailPlan) (mode : GuardrailMode) (context : GuardrailContext)
    (req resp : option Value) : GatewayResult GuardrailExecution :=
  try_fold (execute_entry mode)
    {| ex_request := req; ex_response := resp; ex_context := context; ex_records := [] |} plan.
End executor.

(** ** Events and the built-in definition *)

Record GuardrailExecutionEvent := {
  ev_request_id : string;
  ev_key_id : option string;
  ev_project_id : option string;
  ev_route : option Route;
  ev_model : option string;
  ev_provider : option Provider;
  ev_guardrail_name : string;
  ev_mode : GuardrailMode;
  ev_action : GuardrailAction;
  ev_failure_policy : GuardrailFailurePolicy;
  ev_latency_ms : Z;
  ev_reason : option string;
  ev_metadata : Value;
  created_at : Z
}.

Definition execution_events_from_records (c : GuardrailContext)
    (records : list GuardrailExecutionRecord) (created : Z) : list GuardrailExecutionEvent :=
  map (λ r,
    {| ev_request_id := request_id c; ev_key_id := key_id c; ev_project_id := project_id c;
       ev_route := route c; ev_model := model c; ev_provider := provider c;
       ev_guardrail_name := guardrail_name r; ev_mode := rec_mode r; ev_action := action r;
       ev_failure_policy := rec_failure_policy r; ev_latency_ms := Z.min (latency_ms r) i64_max;
       ev_reason := reason r; ev_metadata := metadata r; created_at := created |}) records.

Definition pii_redact_definition : GuardrailDefinition :=
  {| name := PII_REDACT_GUARDRAIL;
     description := "Redacts common PII before provider calls and optionally restores placeholders after responses.";
     modes := [PreCall; PostCall; DuringCall]; default_on := false; failure_policy := FailClosed;
     config_schema := JObject [("restore_output", JString "boolean")];
     config := JObject [("restore_output", JBool true)]; enabled := true |}.

(** ** The HTTP handler's configuration and the metadata filter *)

Record HttpGuardrailConfig := {
  endpoint_url : string;
  bearer_token : option string;
  timeout_ms : Z
}.

Definition http_guardrail_config (v : Value) : option HttpGuardrailConfig :=
  if negb (is_http_config v) then None
  else
    (value_get "endpoint_url" v ≫= as_str) ≫= λ url,
    Some {| endpoint_url := url;
            bearer_token := value_get "bearer_token_secret" v ≫= as_str;
            timeout_ms := Z.max 100 (Z.min 10000 (default 1500 (value_get "timeout_ms" v ≫= as_u64))) |}.

Definition secret_key (k : string) : bool :=
  let n := to_ascii_lowercase k in
  contains_str n "secret" || contains_str n "token" || contains_str n "password"
  || contains_str n "authorization".

Fixpoint sanitize_metadata (v : Value) : Value :=
  match v with
  | JObject members =>
      JObject ((fix go ms := match ms with
                             | [] => []
                             | (k, v) :: ms =>
                                 if secret_key k then go ms else (k, sanitize_metadata v) :: go ms
                             end) members)
  | JArray items => JArray (map sanitize_metadata items)
  | other => other
  end.

Definition opt_string (o : option string) : Value :=
  match o with Some s => JString s | None => JNull end.

Definition sanitized_context (c : GuardrailContext) : Value :=
  JObject [("key_id", opt_string (key_id c)); ("model", opt_string (model c));
           ("project_id", opt_string (project_id c));
           ("provider", opt_string (provider_as_str <$> provider c));
           ("route", opt_string (route_as_str <$> route c));
           ("team_id", opt_string (team_id c)); ("user_id", opt_string (user_id c))].

Record HttpGuardrailProviderRequest := {
  pr_request_id : string;
  pr_guardrail : string;
  pr_mode : GuardrailMode;
  pr_context : Value;
  pr_config : Value;
  pr_request : option Value;
  pr_response : option Value
}.

Record HttpGuardrailProviderResponse := {
  pa_action : GuardrailAction;
  pa_request : option Value;
  pa_response : option Value;
  pa_reason : option string;
  pa_metadata : Value
}.

(** [HttpGuardrailHandler::execute]; [send] is the HTTP exchange. *)
Definition http_execute
    (send : HttpGuardrailConfig → HttpGuardrailProviderRequest → GatewayResult HttpGuardrailProviderResponse)
    (input : GuardrailInput) : GatewayResult GuardrailResult :=
  let? conf := ok_or (http_guardrail_config (in_config input)) GuardrailUnavailable in
  let guardrail := default "custom" (value_get "guardrail_name" (in_config input) ≫= as_str) in
  let? response :=
    send conf
      {| pr_request_id := request_id (in_context input); pr_guardrail := guardrail;
         pr_mode := in_mode input; pr_context := sanitized_context (in_context input);
         pr_config := default (JObject []) (value_get "provider_config" (in_config input));
         pr_request := in_request input; pr_response := in_response input |} in
  Ok {| res_action := pa_action response; res_request := pa_request response;
        res_response := pa_response response; res_reason := pa_reason response;
        res_metadata := sanitize_metadata (pa_metadata response); res_pii_mappings := [] |}.

(** ** Resolution is exact *)

Lemma set_config_name c d : name (set_config c d) = name d.
Proof. done. Qed.

(** The usable definition under a name, in terms of the catalog. *)
Definition is_usable (r : GuardrailPlanRequest) (n : string) (d : GuardrailDefinition) : Prop :=
  ∃ d0, d0 ∈ definitions r ∧ supports_mode d0 (plan_mode r) = true ∧ name d0 = n ∧
    d = with_effective_config d0 (policies r).

Lemma usable_lookup r n d : map_get n (usable_definitions r) = Some d → is_usable r n d.
Proof.
  unfold usable_definitions, is_usable.
  assert (∀ ds m,
    (∀ d, map_get n m = Some d → ∃ d0, d0 ∈ definitions r ∧ supports_mode d0 (plan_mode r) = true ∧
       name d0 = n ∧ d = with_effective_config d0 (policies r)) →
    (∀ x, x ∈ ds → x ∈ definitions r) →
    map_get n (foldl (λ m d, if supports_mode d (plan_mode r)
      then map_insert (name d) (with_effective_config d (policies r)) m else m) m ds) = Some d →
    ∃ d0, d0 ∈ definitions r ∧ supports_mode d0 (plan_mode r) = true ∧
      name d0 = n ∧ d = with_effective_config d0 (policies r)) as Hgen.
  { induction ds as [|x ds IH]; intros m Hm Hin H; simpl in H; [auto|].
    eapply IH; [|intros y Hy; apply Hin; by right|exact H]. clear IH H.
    destruct (supports_mode x (plan_mode r)) eqn:Hs; [|done]. intros d' H.
    rewrite map_get_insert in H. destruct (String.eqb_spec n (name x)) as [->|]; [|auto].
    injection H as <-. exists x. split; [apply Hin; by left|]. done. }
  intros H. eapply Hgen; [| |exact H]; [done|auto].
Qed.

Lemma usable_elem r d : d ∈ map snd (usable_definitions r) → is_usable r (name d) d.
Proof.
  intros (p & -> & Hp)%list_elem_of_fmap.
  assert (∀ ds m, (∀ p, p ∈ m → is_usable r (name p.2) p.2) →
    (∀ x, x ∈ ds → x ∈ definitions r) → ∀ p,
    p ∈ foldl (λ m d, if supports_mode d (plan_mode r)
      then map_insert (name d) (with_effective_config d (policies r)) m else m) m ds →
    is_usable r (name p.2) p.2) as Hgen.
  { induction ds as [|x ds IH]; intros m Hm Hin q Hq; simpl in Hq; [auto|].
    eapply IH; [|intros y Hy; apply Hin; by right|exact Hq]. clear IH Hq q.
    destruct (supports_mode x (plan_mode r)) eqn:Hs; [|done].
    intros q Hq. assert (q = (name x, with_effective_config x (policies r)) ∨ q ∈ m) as [->|?]; [|simpl|auto].
    - clear -Hq. induction m as [|[k v] m IH]; simpl in Hq.
      + apply list_elem_of_singleton in Hq. auto.
      + destruct (String.eqb (name x) k); [set_solver|]. destruct (key_ltb (name x) k); [set_solver|].
        apply elem_of_cons in Hq as [->|Hq]; [set_solver|]. apply IH in Hq. set_solver.
    - exists x. split; [apply Hin; by left|]. done. }
  eapply Hgen; [| |exact Hp]; [by intros ? ?%not_elem_of_nil|auto].
Qed.

Definition in_plan (n : string) (plan : GuardrailPlan) : Prop := n ∈ map name plan.

Lemma push_spec plan d :
  NoDup (map name plan) →
  NoDup (map name (push_definition_once plan d)) ∧
  (∀ n, in_plan n (push_definition_once plan d) ↔ in_plan n plan ∨ n = name d) ∧
  (∀ e, e ∈ push_definition_once plan d → e ∈ plan ∨ e = d).
Proof.
  intros Hnd. unfold push_definition_once, in_plan.
  destruct (existsb _ plan) eqn:E.
  - apply existsb_exists in E as (e & Hin%list_elem_of_In & He%String.eqb_eq).
    split_and!; [done| |auto]. intros n. split; [auto|]. intros [?| ->]; [done|].
    rewrite <- He. apply list_elem_of_fmap. eauto.
  - assert (name d ∉ map name plan) as Hn.
    { intros (e & He & Hin)%list_elem_of_fmap. apply not_true_iff_false in E. apply E.
      apply existsb_exists. exists e. rewrite <- list_elem_of_In. split; [done|].
      by apply String.eqb_eq. }
    rewrite map_app. simpl. split_and!.
    + apply NoDup_app. split_and!; [done| |apply NoDup_singleton].
      intros x Hx ->%list_elem_of_singleton. done.
    + intros n. rewrite elem_of_app, list_elem_of_singleton. done.
    + intros e [?| ->%list_elem_of_singleton]%elem_of_app; auto.
Qed.

Lemma push_all_spec ds plan :
  NoDup (map name plan) →
  NoDup (map name (foldl push_definition_once plan ds)) ∧
  (∀ n, in_plan n (foldl push_definition_once plan ds) ↔ in_plan n plan ∨ n ∈ map name ds) ∧
  (∀ e, e ∈ foldl push_definition_once plan ds → e ∈ plan ∨ e ∈ ds).
Proof.
  revert plan. induction ds as [|d ds IH]; intros plan Hnd; simpl.
  - split_and!; [done| |auto]. intros n. rewrite elem_of_nil. tauto.
  - destruct (push_spec plan d Hnd) as (Hnd' & Hn & He). destruct (IH _ Hnd') as (Hnd2 & Hn2 & He2).
    split_and!; [done| |].
    + intros n. rewrite Hn2, Hn, elem_of_cons. tauto.
    + intros e [Hin|Hin]%He2; [|set_solver]. apply He in Hin as [?| ->]; set_solver.
Qed.

(** Adding names one by one, each found under [get] and passing [ok]. *)
Lemma add_names_spec (get : string → option GuardrailDefinition) (ok : string → Prop)
    (f : GuardrailPlan → string → GatewayResult GuardrailPlan) ns plan plan' :
  (∀ plan n plan', f plan n = Ok plan' →
     ok n ∧ ∃ d, get n = Some d ∧ plan' = push_definition_once plan d) →
  (∀ n d, get n = Some d → name d = n) →
  NoDup (map name plan) → try_fold f plan ns = Ok plan' →
  NoDup (map name plan') ∧ (∀ n, n ∈ ns → ok n) ∧
  (∀ n, in_plan n plan' ↔ in_plan n plan ∨ n ∈ ns) ∧
  (∀ e, e ∈ plan' → e ∈ plan ∨ ∃ n, get n = Some e).
Proof.
  intros Hf Hname. revert plan. induction ns as [|n ns IH]; intros plan Hnd H; simpl in H.
  - injection H as <-. split_and!; [done|set_solver| |auto]. intros n. rewrite elem_of_nil. tauto.
  - destruct (f plan n) as [plan1|] eqn:E; [|done]. simpl in H.
    apply Hf in E as (Hok & d & Hd & ->). destruct (push_spec plan d Hnd) as (Hnd' & Hn & He).
    destruct (IH _ Hnd' H) as (Hnd2 & Hall & Hn2 & He2). apply Hname in Hd as Hdn. split_and!.
    + done.
    + intros x [->|Hx]%elem_of_cons; auto.
    + intros x. rewrite Hn2, Hn, elem_of_cons, Hdn. tauto.
    + intros e [Hin|?]%He2; [|auto]. apply He in Hin as [?| ->]; eauto.
Qed.

Lemma map_get_elem {A} n (m : list (string * A)) d : map_get n m = Some d → (n, d) ∈ m.
Proof.
  unfold map_get. intros H. apply fmap_Some in H as ([k v] & Hf & ->).
  apply List.find_some in Hf as [Hin E]. apply String.eqb_eq in E. simpl in E. subst.
  by apply list_elem_of_In.
Qed.

Lemma usable_name r n d : map_get n (usable_definitions r) = Some d → name d = n.
Proof. intros (d0 & _ & _ & <- & ->)%usable_lookup. done. Qed.

(** Some policy layer lists [n] under [f]. *)
Definition listed (f : GuardrailPolicy → list string) (r : GuardrailPlanRequest) (n : string) : Prop :=
  ∃ p, p ∈ policy_iter (policies r) ∧ n ∈ f p.

Lemma listed_flat f r n : n ∈ flat_map f (policy_iter (policies r)) ↔ listed f r n.
Proof.
  unfold listed. rewrite list_elem_of_In, in_flat_map. by setoid_rewrite <- list_elem_of_In.
Qed.

Lemma add_mandatory_ok r defs plan n plan' :
  add_mandatory defs (flat_map forbidden_guardrails (policy_iter (policies r))) plan n = Ok plan' →
  ¬ listed forbidden_guardrails r n ∧
  ∃ d, map_get n defs = Some d ∧ plan' = push_definition_once plan d.
Proof.
  unfold add_mandatory. destruct (str_mem n _) eqn:E; [done|].
  apply str_mem_false in E. rewrite listed_flat in E.
  destruct (map_get n defs) as [d|]; simpl; [|done]. intros [= <-]. eauto.
Qed.

Lemma add_requested_ok r defs plan n plan' :
  add_requested defs (flat_map forbidden_guardrails (policy_iter (policies r)))
    (flat_map optional_guardrails (policy_iter (policies r))) plan n = Ok plan' →
  (listed optional_guardrails r n ∧ ¬ listed forbidden_guardrails r n) ∧
  ∃ d, map_get n defs = Some d ∧ plan' = push_definition_once plan d.
Proof.
  unfold add_requested. destruct (str_mem n _) eqn:E; [done|].
  destruct (str_mem n (flat_map optional_guardrails _)) eqn:E'; simpl; [|done].
  apply str_mem_false in E. apply str_mem_iff in E'. rewrite listed_flat in E, E'.
  destruct (map_get n defs) as [d|]; simpl; [|done]. intros [= <-]. eauto.
Qed.

(** A resolved plan holds exactly the default-on, the mandatory and the
    requested guardrails, each once, each from an enabled definition that
    supports the mode; nothing mandatory or requested is forbidden by any
    layer, and what a client requested is optional in some layer. *)
Theorem plan_exact r plan :
  resolve_guardrail_plan r = Ok plan →
  NoDup (map name plan) ∧
  (∀ d, d ∈ plan → is_usable r (name d) d) ∧
  (∀ n, in_plan n plan ↔
     (∃ d, d ∈ map snd (usable_definitions r) ∧ default_on d = true ∧ name d = n) ∨
     listed mandatory_guardrails r n ∨ n ∈ client_requested_guardrails r) ∧
  (∀ n, listed mandatory_guardrails r n → ¬ listed forbidden_guardrails r n) ∧
  (∀ n, n ∈ client_requested_guardrails r →
     listed optional_guardrails r n ∧ ¬ listed forbidden_guardrails r n).
Proof.
  intros H. unfold resolve_guardrail_plan in H.
  destruct (validate_guardrail_config_overrides r) as [[]|]; [|done]. cbv beta zeta iota in H.
  set (defs := usable_definitions r) in *.
  set (defaults := List.filter default_on (map snd defs)) in *.
  destruct (push_all_spec defaults [] (NoDup_nil_2)) as (Hnd0 & Hn0 & He0).
  set (plan0 := foldl push_definition_once [] defaults) in *.
  destruct (try_fold (add_mandatory _ _) plan0 _) as [plan1|] eqn:E1; [|done]. cbn beta iota in H.
  eapply (add_names_spec (λ n, map_get n defs)) in E1 as (Hnd1 & Hok1 & Hn1 & He1);
    [|intros; by apply add_mandatory_ok|apply usable_name|done].
  eapply (add_names_spec (λ n, map_get n defs)) in H as (Hnd2 & Hok2 & Hn2 & He2);
    [|intros; by apply add_requested_ok|apply usable_name|done].
  assert (∀ d, d ∈ defaults ↔ d ∈ map snd defs ∧ default_on d = true) as Hdef.
  { intros d. unfold defaults. by rewrite !list_elem_of_In, filter_In. }
  split_and!; [done| | | |done].
  - assert (∀ n e, map_get n defs = Some e → is_usable r (name e) e) as Hget.
    { intros n e Hg. apply usable_elem. apply map_get_elem in Hg. apply list_elem_of_fmap.
      by exists (n, e). }
    intros d Hd. apply He2 in Hd as [Hd|[n ?]]; [|by eapply Hget].
    apply He1 in Hd as [Hd|[n ?]]; [|by eapply Hget].
    apply He0 in Hd as [?%not_elem_of_nil|Hd]; [done|]. apply usable_elem. by apply Hdef in Hd as [? _].
  - intros n. rewrite Hn2, Hn1, Hn0, listed_flat.
    assert (n ∈ map name defaults ↔
      ∃ d, d ∈ map snd defs ∧ default_on d = true ∧ name d = n) as ->.
    { rewrite list_elem_of_fmap. setoid_rewrite Hdef. naive_solver. }
    unfold in_plan at 1. rewrite elem_of_nil. tauto.
  - intros n Hn. apply Hok1. by apply listed_flat.
Qed.

(** ** Configuration overrides stay inside the provider configuration *)

Lemma http_merge_get base override k :
  k ≠ "provider_config" →
  value_get k (merge_http_provider_config base override) = value_get k base.
Proof.
  intros Hne. unfold value_get, merge_http_provider_config. simpl.
  rewrite map_get_insert. destruct (String.eqb_spec k "provider_config"); [done|].
  rewrite map_get_remove_ne by done. by destruct (as_object base).
Qed.

Lemma http_merge_config base override :
  is_http_config base = true →
  is_http_config (merge_runtime_config base override) = true ∧
  http_guardrail_config (merge_runtime_config base override) = http_guardrail_config base.
Proof.
  intros Hh. unfold merge_runtime_config. rewrite Hh.
  assert (is_http_config (merge_http_provider_config base override) = is_http_config base) as E.
  { unfold is_http_config. by rewrite http_merge_get. }
  split; [by rewrite E|]. unfold http_guardrail_config. rewrite E, !http_merge_get by done. done.
Qed.

Lemma http_overrides n l c :
  is_http_config c = true →
  http_guardrail_config (foldl (apply_override n) c l) = http_guardrail_config c.
Proof.
  revert c. induction l as [|p l IH]; intros c Hh; [done|]. simpl. unfold apply_override at 2.
  destruct (map_get n (guardrail_config_overrides p)) as [o|]; [|by apply IH].
  destruct (http_merge_config c o Hh) as [Hh' <-]. by apply IH.
Qed.

(** No policy layer can redirect an HTTP guardrail: overrides leave its
    endpoint, its credential and its timeout as the catalog has them. *)
Theorem http_endpoint_fixed d ps :
  is_http_config (config d) = true →
  http_guardrail_config (config (with_effective_config d ps)) = http_guardrail_config (config d).
Proof. intros Hh. by apply http_overrides. Qed.

(** ** Execution *)

Section execution.
Variable handlers : string → option (GuardrailInput → GatewayResult GuardrailResult).
Variable latency : GuardrailInput → Z.
Abbreviation execute_entry := (execute_entry handlers latency).
Abbreviation execute := (execute handlers latency).

(** The input an entry is given in a state of the execution. *)
Definition entry_input (mode : GuardrailMode) (ex : GuardrailExecution) (d : GuardrailDefinition) :
    GuardrailInput :=
  {| in_mode := mode; in_request := ex_request ex; in_response := ex_response ex;
     in_context := ex_context ex; in_config := config d |}.

(** The record of an entry: what it says of the guardrail, and of the verdict. *)
Record record_of (mode : GuardrailMode) (d : GuardrailDefinition) (verdict : GuardrailAction) (why : option string) (details : Value)
    (rec : GuardrailExecutionRecord) : Prop := {
  ro_name : guardrail_name rec = name d;
  ro_mode : rec_mode rec = mode;
  ro_policy : rec_failure_policy rec = failure_policy d;
  ro_action : action rec = verdict;
  ro_reason : reason rec = why;
  ro_metadata : metadata rec = details
}.
(** The record is kept in the execution and in the context that the next
    guardrails see, with the mappings the entry added. *)
Record recorded (mappings : list (string * string)) (d : GuardrailDefinition) (rec : GuardrailExecutionRecord)
    (before after : GuardrailExecution) : Prop := {
  rd_records : ex_records after = ex_records before ++ [rec];
  rd_results : guardrail_results (ex_context after) = guardrail_results (ex_context before) ++ [rec];
  rd_applied : applied_guardrails (ex_context after) = applied_guardrails (ex_context before) ++ [name d];
  rd_mappings : pii_mappings (ex_context after) = pii_mappings (ex_context before) ++ mappings
}.
Definition same_bodies (before after : GuardrailExecution) : Prop :=
  ex_request after = ex_request before ∧ ex_response after = ex_response before.
(** What an entry does that does not stop the request: a verdict other than
    [Block] is recorded as it is, and a modified body replaces the one before; in
    dry run it is recorded as a warning and changes nothing; a guardrail that is
    missing or fails passes only if it does not fail closed, with its error as
    the reason. *)
Inductive entry_passed (mode : GuardrailMode) (before : GuardrailExecution) (d : GuardrailDefinition) (rec : GuardrailExecutionRecord)
    (after : GuardrailExecution) : Prop :=
| Enforced h res : handlers (name d) = Some h → h (entry_input mode before d) = Ok res → failure_policy d ≠ DryRun →
    res_action res ≠ Block → record_of mode d (res_action res) (res_reason res) (res_metadata res) rec →
    recorded (res_pii_mappings res) d rec before after →
    (res_action res = Modify → ex_request after = match res_request res with Some v => Some v | None => ex_request before end ∧
                               ex_response after = match res_response res with Some v => Some v | None => ex_response before end) →
    (res_action res ≠ Modify → same_bodies before after) → entry_passed mode before d rec after
| Observed h res : handlers (name d) = Some h → h (entry_input mode before d) = Ok res → failure_policy d = DryRun →
    record_of mode d Warn (res_reason res) (res_metadata res) rec → recorded (res_pii_mappings res) d rec before after →
    same_bodies before after → entry_passed mode before d rec after
| FailedOpen e : failure_policy d ≠ FailClosed →
    match handlers (name d) with Some h => h (entry_input mode before d) = Err e | None => e = GuardrailUnavailable end →
    record_of mode d Warn (Some (code e)) (JObject []) rec → recorded [] d rec before after →
    same_bodies before after → entry_passed mode before d rec after.

Lemma execute_entry_ok mode ex d ex' :
  execute_entry mode ex d = Ok ex' → ∃ rec, entry_passed mode ex d rec ex'.
Proof.
  unfold execute_entry. fold (entry_input mode ex d).
  assert (∀ e t, match handlers (name d) with Some h => h (entry_input mode ex d) = Err e | None => e = GuardrailUnavailable end →
    handle_guardrail_failure ex d mode e t = Ok ex' → ∃ rec, entry_passed mode ex d rec ex') as Hfail.
  { intros e t He. unfold handle_guardrail_failure. intros Hx. destruct (failure_policy d) eqn:Hp; try done.
    all: injection Hx as <-; eexists; apply (FailedOpen _ _ _ _ _ e); [congruence|done| |constructor; try done; cbn; by rewrite app_nil_r|done];
      by constructor. }
  intros H. destruct (handlers (name d)) as [h|] eqn:Hh; [|by eapply Hfail].
  destruct (h (entry_input mode ex d)) as [res|e] eqn:He; [|by eapply Hfail]. case_bool_decide as Hdry.
  - injection H as <-. eexists. apply (Observed _ _ _ _ _ h res); [done|done|done| |constructor; done|done]; constructor; done.
  - destruct (res_action res) eqn:Ha; try done; injection H as <-; eexists;
      (apply (Enforced _ _ _ _ _ h res); [done|done|done|congruence| |constructor; done|intros Hm|intros Hm]);
      try (by constructor); congruence || done.
Qed.
Lemma entry_passed_records mode ex d rec ex' : entry_passed mode ex d rec ex' →
  ex_records ex' = ex_records ex ++ [rec] ∧ applied_guardrails (ex_context ex') = applied_guardrails (ex_context ex) ++ [name d].
Proof. by intros [? ? ? ? ? ? ? [] ? ?|? ? ? ? ? ? [] ?|? ? ? ? [] ?]. Qed.

Definition execution_start (context : GuardrailContext) (req resp : option Value) : GuardrailExecution :=
  {| ex_request := req; ex_response := resp; ex_context := context; ex_records := [] |}.

Lemma execute_run plan mode ex ex' :
  try_fold (execute_entry mode) ex plan = Ok ex' →
  ∃ recs, ex_records ex' = ex_records ex ++ recs ∧ length recs = length plan ∧
    applied_guardrails (ex_context ex') = applied_guardrails (ex_context ex) ++ map name plan ∧
    (∀ i d, plan !! i = Some d → ∃ rec before after, recs !! i = Some rec ∧
       try_fold (execute_entry mode) ex (take i plan) = Ok before ∧
       try_fold (execute_entry mode) ex (take (S i) plan) = Ok after ∧ entry_passed mode before d rec after).
Proof.
  revert ex. induction plan as [|d plan IH]; intros ex H; simpl in H.
  - injection H as <-. exists []. rewrite !app_nil_r. by split_and!.
  - destruct (execute_entry mode ex d) as [ex1|] eqn:E; [|done]. simpl in H.
    destruct (execute_entry_ok _ _ _ _ E) as (rec & Hp). destruct (entry_passed_records _ _ _ _ _ Hp) as [Hr Ha].
    destruct (IH _ H) as (recs & Hr' & Hl' & Ha' & Hc'). exists (rec :: recs).
    split_and!.
    + by rewrite Hr', Hr, <- app_assoc.
    + cbn. by rewrite Hl'.
    + by rewrite Ha', Ha, <- app_assoc.
    + intros [|i] d' Hd; simpl in Hd.
      * injection Hd as ->. exists rec, ex, ex1. cbn. rewrite E. cbn. done.
      * destruct (Hc' _ _ Hd) as (rec' & before & after & Hi & Hb & Hf & He). exists rec', before, after.
        change (take (S (S i)) (d :: plan)) with (d :: take (S i) plan). cbn [take try_fold]. rewrite E. done.
Qed.


Lemma dry_run_entry mode ex d :
  failure_policy d = DryRun →
  ∃ ex', execute_entry mode ex d = Ok ex' ∧ ex_request ex' = ex_request ex ∧
    ex_response ex' = ex_response ex.
Proof.
  intros Hp. unfold execute_entry, handle_guardrail_failure. rewrite Hp.
  destruct (handlers (name d)) as [h|]; [|by eexists]. destruct (h _); by eexists.
Qed.

(** Guardrails in dry run never stop or change a request, whatever their
    handlers do. *)
Theorem dry_run_harmless plan mode context req resp :
  Forall (λ d, failure_policy d = DryRun) plan →
  ∃ ex, execute plan mode context req resp = Ok ex ∧ ex_request ex = req ∧ ex_response ex = resp.
Proof.
  intros Hall. unfold execute. fold (execution_start context req resp).
  change req with (ex_request (execution_start context req resp)) at 2.
  change resp with (ex_response (execution_start context req resp)) at 3.
  generalize (execution_start context req resp) as ex.
  induction Hall as [|d plan Hd Hall IH]; intros ex; simpl; [eauto|].
  destruct (dry_run_entry mode ex d Hd) as (ex1 & -> & <- & <-). simpl. apply IH.
Qed.
End execution.

(** ** Provider metadata *)

Fixpoint no_secret_keys (v : Value) : bool :=
  match v with
  | JObject members =>
      (fix go ms := match ms with
                    | [] => true
                    | (k, v) :: ms => negb (secret_key k) && no_secret_keys v && go ms
                    end) members
  | JArray items => forallb no_secret_keys items
  | _ => true
  end.

(** What a provider reports is stored without any member whose name mentions
    a secret, token, password or authorization, at any depth. *)
Theorem sanitized_no_secrets v : no_secret_keys (sanitize_metadata v) = true.
Proof.
  induction v as [| | | |l IH|m IH] using Value_nested_ind; try done.
  - simpl. apply forallb_forall. intros x Hx. apply in_map_iff in Hx as (y & <- & Hy).
    rewrite Forall_forall in IH. apply IH. by apply list_elem_of_In.
  - simpl. induction IH as [|[k v] m Hv _ IHm]; [done|]. simpl.
    destruct (secret_key k) eqn:E; [done|]. simpl in *. by rewrite E, Hv, IHm.
Qed.

(** ** Concrete plans *)

Definition sample_policies : GuardrailPolicySet :=
  {| key_policy := {| mandatory_guardrails := ["pii-redact"]; optional_guardrails := ["tone"];
                      forbidden_guardrails := ["legacy"];
                      guardrail_config_overrides := [("pii-redact", JObject [("restore_output", JBool false)])] |};
     team_policy := None; route_policy := None; model_policy := None |}.
Definition sample_tone : GuardrailDefinition := definition_new "tone" "" [PreCall] DryRun.
Definition sample_request : GuardrailPlanRequest :=
  {| plan_mode := PreCall; definitions := [pii_redact_definition; sample_tone];
     policies := sample_policies; client_requested_guardrails := ["tone"] |}.
Definition sample_plan : GuardrailPlan :=
  [set_config (JObject [("restore_output", JBool false)]) pii_redact_definition; sample_tone].

Lemma plan_exact_witness :
  resolve_guardrail_plan sample_request = Ok sample_plan ∧ NoDup (map name sample_plan).
Proof.
  assert (resolve_guardrail_plan sample_request = Ok sample_plan) as E by (vm_compute; reflexivity).
  split; [exact E|]. apply (plan_exact _ _ E).
Defined.

Definition sample_http : GuardrailDefinition :=
  set_config (JObject [("endpoint_url", JString "https://guard"); ("provider_kind", JString "http")])
    (definition_new "pii-redact" "" [PreCall] FailClosed).

Lemma http_endpoint_fixed_witness :
  http_guardrail_config (config (with_effective_config sample_http sample_policies)) =
  Some {| endpoint_url := "https://guard"; bearer_token := None; timeout_ms := 1500 |}.
Proof. rewrite (http_endpoint_fixed sample_http sample_policies); vm_compute; reflexivity. Defined.

Definition sample_context : GuardrailContext :=
  {| request_id := "r"; key_id := None; team_id := None; user_id := None; project_id := None;
     model := None; route := None; provider := None; pii_mappings := [];
     applied_guardrails := []; guardrail_results := [] |}.
Definition sample_handlers (n : string) : option (GuardrailInput → GatewayResult GuardrailResult) :=
  if String.eqb n "pii-redact" then Some (λ _, Ok (result_modify_request (JString "clean"))) else None.


Lemma dry_run_harmless_witness :
  ∃ ex, execute (λ _, Some (λ _, Ok (result_block "no"))) (λ _, 0) [sample_tone] PreCall
    sample_context (Some JNull) None = Ok ex ∧ ex_request ex = Some JNull ∧ ex_response ex = None.
Proof. apply dry_run_harmless. by repeat constructor. Defined.
