(* ===== verification/Pii.v ===== *)
(** * The built-in PII guardrail

    Models [PiiRedactGuardrail] of [crates/gateway-core/src/guardrails.rs]:
    the detection of e-mail addresses, social security and phone numbers in
    maximal runs of token characters, their replacement by placeholders
    throughout a JSON value, and the restoring of placeholders.  Token
    characters are ASCII, so the model works on UTF-8 bytes. *)

From S2P Require Import Prelude Errors Json Guardrails.

Inductive PiiKind : Type := Email | Phone | Ssn.

Definition label (k : PiiKind) : string :=
  match k with Email => "EMAIL" | Phone => "PHONE" | Ssn => "SSN" end.

Record RedactionResult := {
  email_count : Z;
  phone_count : Z;
  ssn_count : Z;
  mappings : list (string * string)
}.
Definition RedactionResult_default : RedactionResult :=
  {| email_count := 0; phone_count := 0; ssn_count := 0; mappings := [] |}.

Definition redaction_metadata (r : RedactionResult) : Value :=
  JObject [("email_count", JNumber (PosInt (email_count r)));
           ("phone_count", JNumber (PosInt (phone_count r)));
           ("ssn_count", JNumber (PosInt (ssn_count r)))].

(** ** Detection *)

Definition char_in (cs : list ascii) (c : ascii) : bool := existsb (Ascii.eqb c) cs.

Definition email_char (c : ascii) : bool :=
  is_ascii_alphanumeric c || char_in ["@"; "."; "_"; "%"; "+"; "-"]%char c.
Definition phone_char (c : ascii) : bool :=
  is_ascii_digit c || char_in ["+"; "-"; "("; ")"; "."]%char c.
Definition ssn_char (c : ascii) : bool := is_ascii_digit c || Ascii.eqb c "-".

Definition pii_token_character (c : ascii) (k : PiiKind) : bool :=
  match k with Email => email_char c | Phone => phone_char c | Ssn => ssn_char c end.

Definition looks_like_email (value : string) : bool :=
  match split_once "@" value with
  | None => false
  | Some (local, domain) =>
      negb (is_empty local) && contains_byte "." domain && negb (starts_with domain ".")
      && negb (ends_with domain ".") && all_bytes email_char value
  end.

Definition looks_like_ssn (value : string) : bool :=
  match split_on "-" value with
  | [a; b; c] =>
      (len a =? 3) && (len b =? 2) && (len c =? 4)
      && all_bytes is_ascii_digit a && all_bytes is_ascii_digit b && all_bytes is_ascii_digit c
  | _ => false
  end.

Fixpoint count_bytes (f : ascii → bool) (s : string) : Z :=
  match s with
  | EmptyString => 0
  | String c s => (if f c then 1 else 0) + count_bytes f s
  end.

Definition looks_like_phone (value : string) : bool :=
  in_range 10 15 (count_bytes is_ascii_digit value) && all_bytes phone_char value.

Definition looks_like (k : PiiKind) (value : string) : bool :=
  match k with
  | Email => looks_like_email value
  | Phone => looks_like_phone value
  | Ssn => looks_like_ssn value
  end.

(** ** Replacement *)

Definition trim_char (c : ascii) : bool :=
  char_in [","; "."; ";"; ":"; ")"; "("; "["; "]"; "{"; "}"; "034"; "'"]%char c.

Fixpoint trim_start_by (f : ascii → bool) (s : string) : string :=
  match s with
  | String c s' => if f c then trim_start_by f s' else s
  | EmptyString => s
  end.
Fixpoint trim_end_by (f : ascii → bool) (s : string) : string :=
  match s with
  | EmptyString => EmptyString
  | String c s' => if all_bytes f s then EmptyString else String c (trim_end_by f s')
  end.
Definition trim_matches (f : ascii → bool) (s : string) : string := trim_end_by f (trim_start_by f s).

(** [str::replacen(pattern, replacement, 1)]. *)
Fixpoint replace_first (s pattern replacement : string) : string :=
  match strip_prefix pattern s with
  | Some rest => replacement +:+ rest
  | None => match s with
            | EmptyString => EmptyString
            | String c s => String c (replace_first s pattern replacement)
            end
  end.

Definition placeholder (k : PiiKind) (index : Z) : string :=
  "[" +:+ label k +:+ "_" +:+ decimal index +:+ "]".

Definition count_of_kind (k : PiiKind) (r : RedactionResult) : Z :=
  match k with Email => email_count r | Phone => phone_count r | Ssn => ssn_count r end.
Definition bump_count (k : PiiKind) (r : RedactionResult) : RedactionResult :=
  match k with
  | Email => {| email_count := email_count r + 1; phone_count := phone_count r;
                ssn_count := ssn_count r; mappings := mappings r |}
  | Phone => {| email_count := email_count r; phone_count := phone_count r + 1;
                ssn_count := ssn_count r; mappings := mappings r |}
  | Ssn => {| email_count := email_count r; phone_count := phone_count r;
              ssn_count := ssn_count r + 1; mappings := mappings r |}
  end.
Definition add_mapping (m : string * string) (r : RedactionResult) : RedactionResult :=
  {| email_count := email_count r; phone_count := phone_count r; ssn_count := ssn_count r;
     mappings := mappings r ++ [m] |}.

(** What is appended to the output for a token. *)
Definition push_redacted_token (token : string) (r : RedactionResult) (collect : bool)
    (k : PiiKind) : string * RedactionResult :=
  if is_empty token then ("", r)
  else
    let trimmed := trim_matches trim_char token in
    if negb (looks_like k trimmed) then (token, r)
    else
      let r := bump_count k r in
      let p := placeholder k (count_of_kind k r) in
      let r := if collect then add_mapping (p, trimmed) r else r in
      (replace_first token trimmed p, r).

Fixpoint redact_go (input token : string) (r : RedactionResult) (collect : bool) (k : PiiKind) :
    string * RedactionResult :=
  match input with
  | EmptyString => push_redacted_token token r collect k
  | String c input =>
      if pii_token_character c k
      then redact_go input (token +:+ String c EmptyString) r collect k
      else
        let '(out, r) := push_redacted_token token r collect k in
        let '(rest, r) := redact_go input EmptyString r collect k in
        (out +:+ String c rest, r)
  end.
Definition redact_tokens (input : string) (r : RedactionResult) (collect : bool) (k : PiiKind) :
    string * RedactionResult :=
  redact_go input EmptyString r collect k.

Definition redact_text (input : string) (r : RedactionResult) (collect : bool) :
    string * RedactionResult :=
  let '(s, r) := redact_tokens input r collect Email in
  let '(s, r) := redact_tokens s r collect Ssn in
  redact_tokens s r collect Phone.

Definition redact_pii_text (input : string) : string * Value :=
  let '(s, r) := redact_text input RedactionResult_default false in
  (s, redaction_metadata r).

(** A loop over a list that updates each element and a running state. *)
Definition for_each_mut {A S} (f : A → S → A * S) : list A → S → list A * S :=
  fix go l r := match l with
                | [] => ([], r)
                | a :: l => let '(a, r) := f a r in
                            let '(l, r) := go l r in
                            (a :: l, r)
                end.

Fixpoint redact_json_strings_inner (v : Value) (r : RedactionResult) (collect : bool) :
    Value * RedactionResult :=
  match v with
  | JString s => let '(s, r) := redact_text s r collect in (JString s, r)
  | JArray items =>
      let '(items, r) := for_each_mut (λ v r, redact_json_strings_inner v r collect) items r in
      (JArray items, r)
  | JObject members =>
      let '(members, r) :=
        for_each_mut (λ '(key, v) r, let '(v, r) := redact_json_strings_inner v r collect in
                                     ((key, v), r)) members r in
      (JObject members, r)
  | other => (other, r)
  end.
Definition redact_json_strings (v : Value) (collect : bool) : Value * RedactionResult :=
  redact_json_strings_inner v RedactionResult_default collect.

(** [str::replace]: all occurrences, left to right; the fuel is the number of
    bytes left. *)
Fixpoint replace_all_go (fuel : nat) (s pattern replacement : string) : string :=
  match fuel with
  | O => s
  | S fuel =>
      match strip_prefix pattern s with
      | Some rest => replacement +:+ replace_all_go fuel rest pattern replacement
      | None => match s with
                | EmptyString => EmptyString
                | String c s => String c (replace_all_go fuel s pattern replacement)
                end
      end
  end.
Definition replace_all (s pattern replacement : string) : string :=
  replace_all_go (S (String.length s)) s pattern replacement.

Fixpoint restore_placeholders (v : Value) (ms : list (string * string)) : Value :=
  match v with
  | JString s => JString (foldl (λ s m, replace_all s m.1 m.2) s ms)
  | JArray items => JArray (map (λ v, restore_placeholders v ms) items)
  | JObject members => JObject (map (λ '(key, v), (key, restore_placeholders v ms)) members)
  | other => other
  end.

Definition with_metadata (m : Value) (ms : list (string * string)) (r : GuardrailResult) :
    GuardrailResult :=
  {| res_action := res_action r; res_request := res_request r; res_response := res_response r;
     res_reason := res_reason r; res_metadata := m; res_pii_mappings := ms |}.

Definition redact_value (v : option Value) (collect : bool) : GatewayResult GuardrailResult :=
  let '(v, r) := redact_json_strings (default JNull v) collect in
  Ok (with_metadata (redaction_metadata r) (mappings r) (result_modify_request v)).

(** [PiiRedactGuardrail::execute]. *)
Definition pii_redact_execute (input : GuardrailInput) : GatewayResult GuardrailResult :=
  match in_mode input with
  | PreCall => redact_value (in_request input) true
  | PostCall =>
      let restore_output := default true (value_get "restore_output" (in_config input) ≫= as_bool) in
      let response := default JNull (in_response input) in
      let response :=
        if restore_output then restore_placeholders response (pii_mappings (in_context input))
        else response in
      let '(response, r) := redact_json_strings response true in
      Ok (with_metadata (redaction_metadata r) [] (result_modify_response response))
  | DuringCall =>
      let '(response, r) := redact_json_strings (default JNull (in_response input)) false in
      Ok (with_metadata (redaction_metadata r) [] (result_modify_response response))
  end.

(** ** The registered handlers *)

Section executors.
Variable send :
  HttpGuardrailConfig → HttpGuardrailProviderRequest → GatewayResult HttpGuardrailProviderResponse.

Definition Handlers : Type := list (string * (GuardrailInput → GatewayResult GuardrailResult)).

Definition builtin_guardrail_executor : Handlers :=
  map_insert PII_REDACT_GUARDRAIL pii_redact_execute [].

Definition guardrail_executor_for_definitions (ds : list GuardrailDefinition) : Handlers :=
  foldl (λ hs d,
    if String.eqb (name d) PII_REDACT_GUARDRAIL then hs
    else if is_some (http_guardrail_config (config d)) then map_insert (name d) (http_execute send) hs
    else hs) builtin_guardrail_executor ds.
End executors.

(** ** Redaction leaves no token of its kind *)

(** The maximal runs of token characters, as [redact_tokens] sees them. *)
Fixpoint tokens (k : PiiKind) (s : string) : list string :=
  match s with
  | EmptyString => [EmptyString]
  | String c s =>
      if pii_token_character c k then
        match tokens k s with
        | [] => [String c EmptyString]
        | t :: ts => String c t :: ts
        end
      else EmptyString :: tokens k s
  end.

Definition detected (k : PiiKind) (token : string) : bool := looks_like k (trim_matches trim_char token).
Definition clean (k : PiiKind) (s : string) : Prop := Forall (λ t, detected k t = false) (tokens k s).

Definition token_bytes (k : PiiKind) (s : string) : bool := all_bytes (λ c, pii_token_character c k) s.

Lemma tokens_one k s : token_bytes k s = true → tokens k s = [s].
Proof.
  unfold token_bytes. induction s as [|c s IH]; [done|]. simpl. intros H. bool_prop.
  rewrite H. by rewrite IH.
Qed.

Lemma tokens_sep k a c b :
  pii_token_character c k = false → tokens k (a +:+ String c b) = tokens k a ++ tokens k b.
Proof.
  intros Hc. induction a as [|d a IH]; cbn [String.append tokens]; [by rewrite Hc|].
  rewrite IH. destruct (pii_token_character d k); [|done].
  destruct (tokens k a) as [|t ts] eqn:E; [|done]. exfalso. clear -E.
  destruct a; simpl in E; [done|]. repeat case_match; done.
Qed.

Lemma clean_sep k a c b :
  pii_token_character c k = false → clean k (a +:+ String c b) ↔ clean k a ∧ clean k b.
Proof. intros Hc. unfold clean. by rewrite tokens_sep, Forall_app. Qed.

Lemma clean_one k s : token_bytes k s = true → clean k s ↔ detected k s = false.
Proof. intros H. unfold clean. rewrite tokens_one by done. rewrite Forall_singleton. done. Qed.

(** *** Trimming and replacing *)

Lemma trim_start_by_split f s :
  ∃ pre, s = pre +:+ trim_start_by f s ∧ all_bytes f pre = true ∧
    (∀ c r, trim_start_by f s = String c r → f c = false).
Proof.
  induction s as [|c s (pre & E & Hp & Hs)]; simpl; [by exists ""|].
  destruct (f c) eqn:Hc.
  - exists (String c pre). simpl. rewrite Hc, Hp. split_and!; [|done|done]. congruence.
  - exists "". split_and!; try done. intros c' r [= <- _]. done.
Qed.

Lemma trim_end_by_split f s :
  ∃ post, s = trim_end_by f s +:+ post ∧ all_bytes f post = true.
Proof.
  induction s as [|c s (post & E & Hp)]; [by exists ""|]. cbn [trim_end_by].
  destruct (all_bytes f (String c s)) eqn:Ha; [by exists (String c s)|].
  exists post. cbn [String.append]. split; [congruence|done].
Qed.

Lemma trim_end_by_head f s c r : trim_end_by f s = String c r → ∃ r', s = String c r'.
Proof.
  destruct s as [|d s]; [done|]. cbn [trim_end_by]. destruct (all_bytes _ _); [done|].
  intros [= <- _]. eauto.
Qed.

Lemma trim_matches_split f s :
  ∃ pre post, s = pre +:+ trim_matches f s +:+ post ∧
    all_bytes f pre = true ∧ all_bytes f post = true ∧
    (∀ c r, trim_matches f s = String c r → f c = false).
Proof.
  destruct (trim_start_by_split f s) as (pre & E & Hpre & Hs).
  destruct (trim_end_by_split f (trim_start_by f s)) as (post & E' & Hpost).
  exists pre, post. unfold trim_matches. split_and!; [congruence|done|done|].
  intros c r H. apply trim_end_by_head in H as [r' H]. by eapply Hs.
Qed.

Lemma all_trimmed f s : all_bytes f s = true → trim_matches f s = "".
Proof.
  unfold trim_matches. induction s as [|c s IH]; [done|]. simpl. intros H. bool_prop.
  rewrite H. auto.
Qed.

(** Replacing a trimmed token puts the replacement between what was trimmed. *)
Lemma replace_first_trimmed f pre t post p c r :
  t = String c r → f c = false → all_bytes f pre = true →
  replace_first (pre +:+ t +:+ post) t p = pre +:+ p +:+ post.
Proof.
  intros Ht Hc. induction pre as [|d pre IH]; intros Hp.
  - simpl. assert (strip_prefix t (t +:+ post) = Some post) as E by by apply strip_prefix_Some.
    subst t. cbn [String.append] in *. cbn [replace_first]. by rewrite E.
  - simpl in Hp. bool_prop. cbn [String.append]. cbn [replace_first].
    destruct (strip_prefix t (String d (pre +:+ t +:+ post))) as [x|] eqn:E.
    + exfalso. apply strip_prefix_Some in E. subst t. cbn [String.append] in E.
      injection E as -> _. congruence.
    + by rewrite IH.
Qed.

Lemma trimmed_all f g s : all_bytes g s = true → all_bytes g (trim_matches f s) = true.
Proof.
  destruct (trim_matches_split f s) as (pre & post & E & _). intros H. rewrite E in H.
  rewrite !all_bytes_append in H. by bool_prop.
Qed.

(** *** Placeholders *)

Lemma decimal_go_spec d fuel n acc :
  0 ≤ n < 10 ^ Z.of_nat (S d) → (d < fuel)%nat → all_bytes is_ascii_digit acc = true →
  all_bytes is_ascii_digit (decimal_go fuel n acc) = true ∧
  len (decimal_go fuel n acc) ≤ Z.of_nat (S d) + len acc.
Proof.
  revert fuel n acc. induction d as [|d IH]; intros [|fuel] n acc Hn Hf Ha; try lia;
    cbn [decimal_go]; destruct (Z.eqb_spec (n `div` 10) 0) as [E|E].
  - simpl. rewrite digit_text, Ha. unfold len; simpl; lia.
  - exfalso. apply E. apply Z.div_small. simpl in Hn. lia.
  - simpl. rewrite digit_text, Ha. unfold len; simpl; lia.
  - destruct (IH fuel (n `div` 10) (String (ascii_of_N (Z.to_N (48 + n `mod` 10))) acc)) as [H1 H2].
    + rewrite Nat2Z.inj_succ, Z.pow_succ_r in Hn by lia.
      split; [apply Z.div_pos; lia|apply Z.div_lt_upper_bound; lia].
    + lia.
    + simpl. by rewrite digit_text, Ha.
    + split; [done|]. unfold len in *. simpl in *. lia.
Qed.

Lemma decimal_spec n :
  0 ≤ n < 10 ^ 9 → all_bytes is_ascii_digit (decimal n) = true ∧ len (decimal n) ≤ 9.
Proof.
  intros Hn. destruct (decimal_go_spec 8 20 n "") as [H1 H2]; [lia|lia|done|].
  split; [exact H1|]. change (len "") with 0 in H2. unfold decimal. lia.
Qed.
#[local] Opaque decimal.

Lemma count_bytes_le f s : count_bytes f s ≤ len s.
Proof. unfold len. induction s as [|c s IH]; simpl; [lia|]. destruct (f c); lia. Qed.

Lemma all_bytes_mono (f g : ascii → bool) s :
  (∀ c, f c = true → g c = true) → all_bytes f s = true → all_bytes g s = true.
Proof. intros Hfg. induction s; simpl; [done|]. intros H. bool_prop. rewrite Hfg; auto. Qed.

Lemma split_once_None c s : contains_byte c s = false → split_once c s = None.
Proof.
  induction s as [|d s IH]; [done|]. rewrite contains_byte_cons. intros H. bool_prop.
  cbn [split_once]. rewrite H. by rewrite IH.
Qed.

Lemma split_on_single c s : contains_byte c s = false → split_on c s = [s].
Proof.
  induction s as [|d s IH]; [done|]. rewrite contains_byte_cons. intros H. bool_prop.
  cbn [split_on]. rewrite H. by rewrite IH.
Qed.

Lemma contains_byte_all c s :
  all_bytes (λ d, negb (Ascii.eqb c d)) s = true → contains_byte c s = false.
Proof. intros H. unfold contains_byte. by rewrite H. Qed.

(** A digit is not the given non-digit. *)
Lemma digit_ne c d : is_ascii_digit c = false → is_ascii_digit d = true → Ascii.eqb c d = false.
Proof. intros Hc Hd. destruct (Ascii.eqb_spec c d); [congruence|done]. Qed.

Lemma decimal_no_byte c n :
  is_ascii_digit c = false → 0 ≤ n < 10 ^ 9 →
  all_bytes (λ d, negb (Ascii.eqb c d)) (decimal n) = true.
Proof.
  intros Hc Hn. eapply all_bytes_mono; [|apply decimal_spec; exact Hn].
  intros d Hd. simpl. by rewrite (digit_ne c d).
Qed.

Lemma looks_like_empty k : looks_like k "" = false.
Proof. by destruct k. Qed.

(** Up to nine digits are neither a phone nor a social security number. *)
Lemma decimal_clean_phone n : 0 ≤ n < 10 ^ 9 → clean Phone (decimal n).
Proof.
  intros Hn. destruct (decimal_spec n Hn) as [Hdig Hlen]. apply clean_one.
  - unfold token_bytes. eapply all_bytes_mono; [|exact Hdig]. intros c Hc. simpl.
    unfold phone_char. by rewrite Hc.
  - unfold detected. simpl. unfold looks_like_phone. apply andb_false_iff. left.
    pose proof (count_bytes_le is_ascii_digit (trim_matches trim_char (decimal n))).
    destruct (trim_matches_split trim_char (decimal n)) as (pre & post & E & _).
    pose proof (f_equal len E) as El. rewrite !len_append in El.
    apply not_true_iff_false. rewrite in_range_iff. unfold len in *. lia.
Qed.
Lemma decimal_clean_ssn n : 0 ≤ n < 10 ^ 9 → clean Ssn (decimal n).
Proof.
  intros Hn. destruct (decimal_spec n Hn) as [Hdig Hlen]. apply clean_one.
  - unfold token_bytes. eapply all_bytes_mono; [|exact Hdig]. intros c Hc. simpl.
    unfold ssn_char. by rewrite Hc.
  - unfold detected. simpl. unfold looks_like_ssn. rewrite split_on_single; [done|].
    apply contains_byte_all, trimmed_all. by apply decimal_no_byte.
Qed.
Lemma no_at_clean s :
  token_bytes Email s = true → all_bytes (λ d, negb (Ascii.eqb "@" d)) s = true → clean Email s.
Proof.
  intros Ht Hs. apply clean_one; [done|]. unfold detected, looks_like, looks_like_email.
  rewrite split_once_None; [done|]. apply contains_byte_all. by apply trimmed_all.
Qed.

(** The text between the brackets of a placeholder is of no kind. *)
Lemma placeholder_body_clean k k' n :
  0 ≤ n < 10 ^ 9 → clean k (label k' +:+ "_" +:+ decimal n).
Proof.
  intros Hn. destruct k.
  - apply no_at_clean.
    + unfold token_bytes. rewrite !all_bytes_append. apply andb_true_iff.
      split; [by destruct k'|]. simpl. eapply all_bytes_mono; [|apply (decimal_spec n Hn)].
      intros c Hc. unfold email_char, is_ascii_alphanumeric. by rewrite Hc.
    + rewrite !all_bytes_append, decimal_no_byte by done. by destruct k'.
  - apply decimal_clean_phone in Hn. unfold clean in *.
    by destruct k'; simpl; repeat apply Forall_cons_2.
  - apply decimal_clean_ssn in Hn. unfold clean in *.
    by destruct k'; simpl; repeat apply Forall_cons_2.
Qed.

Lemma brackets_separate k : pii_token_character "["%char k = false ∧ pii_token_character "]"%char k = false.
Proof. by destruct k. Qed.

(** What is pushed for a token is clean, and counts at most one match. *)
Lemma push_clean k token r collect out r' :
  token_bytes k token = true → 0 ≤ count_of_kind k r < 10 ^ 9 - 1 →
  push_redacted_token token r collect k = (out, r') →
  clean k out ∧ count_of_kind k r ≤ count_of_kind k r' ≤ count_of_kind k r + 1.
Proof.
  intros Htok Hcount H. unfold push_redacted_token in H.
  destruct (is_empty token) eqn:Hemp.
  { injection H as <- <-. split; [|lia]. apply clean_one; [done|]. apply looks_like_empty. }
  destruct (looks_like k (trim_matches trim_char token)) eqn:Hl; cbn [negb] in H;
    [|injection H as <- <-; split; [by apply clean_one|lia]].
  destruct (trim_matches_split trim_char token) as (pre & post & E & Hpre & Hpost & Hhead).
  set (trimmed := trim_matches trim_char token) in *.
  destruct trimmed as [|c rest] eqn:Ht; [by rewrite looks_like_empty in Hl|].
  assert (count_of_kind k (bump_count k r) = count_of_kind k r + 1) as Hb by by destruct k.
  assert (count_of_kind k r' = count_of_kind k r + 1) as Hr'.
  { injection H as _ <-. rewrite <- Hb. by destruct collect, k. }
  split; [|lia]. injection H as <- _. rewrite Hb.
  rewrite E, <- Ht. rewrite Ht.
  rewrite (replace_first_trimmed trim_char pre _ post _ c rest); [|done|by eapply Hhead|done].
  unfold token_bytes in Htok. rewrite E, !all_bytes_append in Htok. bool_prop.
  destruct (brackets_separate k) as [Ho Hc']. unfold placeholder.
  assert (∀ x, clean k x → clean k (pre +:+ ("[" +:+ x +:+ "]") +:+ post)) as Hwrap.
  { intros x Hx. cbn [String.append]. rewrite clean_sep by done. split.
    - apply clean_one; [done|]. unfold detected. rewrite all_trimmed by done. apply looks_like_empty.
    - rewrite append_assoc. cbn [String.append]. rewrite clean_sep by done. split; [done|].
      apply clean_one; [done|]. unfold detected. rewrite all_trimmed by done. apply looks_like_empty. }
  rewrite <- (append_assoc "_"), <- (append_assoc (label k)). apply Hwrap.
  apply placeholder_body_clean. lia.
Qed.

(** Redacting never counts more matches than there are input bytes. *)
Lemma redact_go_clean k input token r collect out r' :
  token_bytes k token = true →
  0 ≤ count_of_kind k r → count_of_kind k r + len input < 10 ^ 9 - 1 →
  redact_go input token r collect k = (out, r') →
  clean k out ∧ count_of_kind k r ≤ count_of_kind k r' ≤ count_of_kind k r + len input + 1.
Proof.
  revert token r out r'. induction input as [|c input IH]; intros token r out r' Ht H0 Hb H.
  - cbn [redact_go] in H. change (len "") with 0 in *. eapply push_clean in H as [? ?]; [|done|lia].
    split; [done|lia].
  - assert (len (String c input) = 1 + len input) as Hl by (unfold len; simpl; lia).
    rewrite Hl in *. cbn [redact_go] in H. destruct (pii_token_character c k) eqn:Hc.
    + apply IH in H as [? ?]; [split; [done|lia]| |lia|lia].
      unfold token_bytes in *. rewrite all_bytes_append, Ht. simpl. by rewrite Hc.
    + destruct (push_redacted_token token r collect k) as [o r1] eqn:Hp.
      destruct (redact_go input "" r1 collect k) as [rest r2] eqn:Hg. injection H as <- <-.
      eapply push_clean in Hp as [Ho Hr1]; [|done|unfold len in *; lia].
      apply IH in Hg as [Hrest Hr2]; [|done|lia|lia].
      split; [by apply clean_sep|lia].
Qed.

(** After a redaction pass no maximal run of token characters of that kind is
    recognised any more: e-mail addresses, phone or social security numbers
    found by the detector are gone, and placeholders do not look like one. *)
Theorem redact_tokens_clean k input r collect :
  0 ≤ count_of_kind k r → count_of_kind k r + len input < 10 ^ 9 - 1 →
  clean k (redact_tokens input r collect k).1.
Proof.
  intros H0 Hb. destruct (redact_tokens input r collect k) as [out r'] eqn:E.
  apply redact_go_clean in E as [? _]; done.
Qed.

Lemma redact_tokens_clean_witness :
  clean Email (redact_tokens "mail (ann@example.org), or bob@x.io." RedactionResult_default true Email).1.
Proof. apply redact_tokens_clean; [done|]. by vm_compute. Defined.

Example redact_text_example :
  redact_text "call +1-555-010-9999 or mail ann@example.org; ssn 123-45-6789" RedactionResult_default true =
  ("call [PHONE_1] or mail [EMAIL_1]; ssn [SSN_1]",
   {| email_count := 1; phone_count := 1; ssn_count := 1;
      mappings := [("[EMAIL_1]", "ann@example.org"); ("[SSN_1]", "123-45-6789");
                   ("[PHONE_1]", "+1-555-010-9999")] |}).
Proof. vm_compute. reflexivity. Qed.

(** The passes run once each, so text that only becomes an e-mail address
    when a phone number next to it is replaced stays in the output. *)
Example redact_text_order :
  (redact_text "@1234567890x@b.io" RedactionResult_default false).1 = "@[PHONE_1]x@b.io".
Proof. vm_compute. reflexivity. Qed.

(** With [restore_output] a placeholder of the response is restored and then
    redacted again, so the original value does not reach the client. *)
Example post_call_redacts_restored :
  let input :=
    {| in_mode := PostCall; in_request := None; in_response := Some (JString "hi [EMAIL_1]");
       in_context :=
         {| request_id := "r"; key_id := None; team_id := None; user_id := None; project_id := None;
            model := None; route := None; provider := None;
            pii_mappings := [("[EMAIL_1]", "ann@example.org")]; applied_guardrails := [];
            guardrail_results := [] |};
       in_config := JObject [("restore_output", JBool true)] |} in
  restore_placeholders (JString "hi [EMAIL_1]") (pii_mappings (in_context input))
    = JString "hi ann@example.org" ∧
  ∃ res, pii_redact_execute input = Ok res ∧ res_response res = Some (JString "hi [EMAIL_1]").
Proof. split; [vm_compute; reflexivity|]. eexists. split; vm_compute; reflexivity. Qed.

(** ** Which handler runs *)

Lemma map_get_insert_fold {A} (key : A → string) (keep : A → bool) {B} (h : B) l m n :
  map_get n (foldl (λ m a, if keep a then map_insert (key a) h m else m) m l) =
  if existsb (λ a, keep a && String.eqb n (key a)) l then Some h else map_get n m.
Proof.
  revert m. induction l as [|a l IH]; intros m; simpl; [done|]. rewrite IH.
  destruct (keep a) eqn:Hk; simpl; [|done]. rewrite map_get_insert.
  destruct (String.eqb n (key a)); simpl; [|done]. by destruct (existsb _ l).
Qed.

(** The built-in PII guardrail always runs its own handler, whatever the
    catalog defines under its name; every other guardrail has the HTTP handler
    exactly when a definition of that name is an HTTP one. *)
Theorem handlers_exact send ds n :
  map_get n (guardrail_executor_for_definitions send ds) =
  if String.eqb n PII_REDACT_GUARDRAIL then Some pii_redact_execute
  else if existsb (λ d, String.eqb n (name d) && is_some (http_guardrail_config (config d))) ds
       then Some (http_execute send) else None.
Proof.
  unfold guardrail_executor_for_definitions.
  transitivity (map_get n (foldl (λ hs d,
    if negb (String.eqb (name d) PII_REDACT_GUARDRAIL) && is_some (http_guardrail_config (config d))
    then map_insert (name d) (http_execute send) hs else hs) builtin_guardrail_executor ds)).
  { f_equal. generalize builtin_guardrail_executor as hs.
    induction ds as [|d ds IH]; intros hs; [done|]. simpl. rewrite IH. f_equal.
    by destruct (String.eqb (name d) _). }
  rewrite (map_get_insert_fold name). unfold builtin_guardrail_executor. rewrite map_get_insert.
  destruct (String.eqb_spec n PII_REDACT_GUARDRAIL) as [->|Hne].
  - replace (existsb _ ds) with false; [done|]. symmetry. apply not_true_iff_false.
    intros (d & _ & Hd)%existsb_exists. bool_prop. by subst.
  - replace (existsb _ ds) with
      (existsb (λ d, String.eqb n (name d) && is_some (http_guardrail_config (config d))) ds); [done|].
    induction ds as [|d ds IH]; [done|]. simpl. rewrite IH. f_equal.
    destruct (String.eqb_spec n (name d)) as [<-|]; [|by rewrite andb_false_r].
    apply String.eqb_neq in Hne. by rewrite Hne, andb_true_r.
Qed.
