(* ===== verification/PiiRestore.v ===== *)
(** * Restoring redacted values

    The placeholders written by the PII guardrail of
    [crates/gateway-core/src/guardrails.rs] can be replaced back: restoring a
    redacted JSON value with the mappings collected while it was redacted
    gives the value that was redacted, unless it already contained what looks
    like a placeholder. *)

From S2P Require Import Prelude Errors Json Guardrails Pii.

Abbreviation no_open := (all_bytes (λ d, negb (Ascii.eqb "[" d))).
Abbreviation no_close := (all_bytes (λ d, negb (Ascii.eqb "]" d))).

(** ** Replacing all occurrences *)

Lemma strip_prefix_shorter p s r :
  strip_prefix p s = Some r → p ≠ "" → (String.length r < String.length s)%nat.
Proof.
  intros ->%strip_prefix_Some Hp. rewrite length_append. destruct p; [done|]. simpl. lia.
Qed.

Lemma replace_all_fuel f f' s p o :
  p ≠ "" → (String.length s < f)%nat → (String.length s < f')%nat →
  replace_all_go f s p o = replace_all_go f' s p o.
Proof.
  intros Hp. revert f' s. induction f as [|f IH]; intros [|f'] s H H'; try lia. cbn [replace_all_go].
  destruct (strip_prefix p s) as [r|] eqn:E.
  - apply strip_prefix_shorter in E; [|done]. f_equal. apply IH; lia.
  - destruct s as [|c s]; [done|]. simpl in *. f_equal. apply IH; lia.
Qed.

Lemma replace_all_hit p s o : p ≠ "" → replace_all (p +:+ s) p o = o +:+ replace_all s p o.
Proof.
  intros Hp. unfold replace_all at 1. cbn [replace_all_go].
  assert (strip_prefix p (p +:+ s) = Some s) as -> by by apply strip_prefix_Some.
  f_equal. apply replace_all_fuel; [done| |lia]. rewrite length_append. destruct p; [done|simpl; lia].
Qed.

Lemma replace_all_miss c s p o :
  strip_prefix p (String c s) = None → replace_all (String c s) p o = String c (replace_all s p o).
Proof. intros H. unfold replace_all at 1. cbn [replace_all_go]. by rewrite H. Qed.

(** A text without the pattern's first byte is passed over. *)
Lemma replace_all_skip t s q o :
  no_open t = true → replace_all (t +:+ s) (String "[" q) o = t +:+ replace_all s (String "[" q) o.
Proof.
  induction t as [|c t IH]; [done|]. cbn [String.append all_bytes]. intros H. bool_prop.
  rewrite replace_all_miss; [by rewrite IH|]. cbn [strip_prefix]. by rewrite H.
Qed.

(** ** Placeholders *)

Lemma decimal_inj n m : 0 ≤ n < 10 ^ 9 → 0 ≤ m < 10 ^ 9 → decimal n = decimal m → n = m.
Proof.
  intros Hn Hm H. apply (f_equal (λ s, digits_value s 0)) in H.
  unfold decimal in H. rewrite !decimal_go_value in H by lia. exact H.
Qed.
#[local] Opaque decimal.

Definition body (k : PiiKind) (n : Z) : string := label k +:+ "_" +:+ decimal n.

Lemma placeholder_body k n : placeholder k n = String "[" (body k n +:+ "]").
Proof. unfold placeholder, body. cbn [String.append]. by rewrite !append_assoc. Qed.

Lemma body_plain k n : 0 ≤ n < 10 ^ 9 → no_open (body k n) = true ∧ no_close (body k n) = true.
Proof.
  intros Hn. unfold body. rewrite !all_bytes_append, !decimal_no_byte by done. by destruct k.
Qed.

Lemma body_inj k n k' n' :
  0 ≤ n < 10 ^ 9 → 0 ≤ n' < 10 ^ 9 → body k n = body k' n' → k = k' ∧ n = n'.
Proof.
  intros Hn Hn' H. unfold body in H. destruct k, k'; try done;
    cbn [label String.append] in H; injection H as H; by apply decimal_inj in H.
Qed.

Lemma close_split a b x y :
  no_close a = true → no_close b = true → a +:+ String "]" x = b +:+ String "]" y → a = b ∧ x = y.
Proof.
  revert b. induction a as [|c a IH]; intros [|d b] Ha Hb H; simpl in *; injection H as H; bool_prop.
  - done.
  - subst. done.
  - subst. done.
  - subst. destruct (IH b) as [-> ->]; done.
Qed.

(** A collected mapping: a placeholder already given out, for a text without
    an opening bracket. *)
Definition mapping_ok (r : RedactionResult) (m : string * string) : Prop :=
  ∃ k n, m.1 = placeholder k n ∧ 1 ≤ n ≤ count_of_kind k r ∧ no_open m.2 = true.

Definition bounded (r : RedactionResult) : Prop := ∀ k, 0 ≤ count_of_kind k r < 10 ^ 9.

Record mappings_ok (r : RedactionResult) : Prop := {
  mo_entries : Forall (mapping_ok r) (mappings r);
  mo_keys : NoDup (map fst (mappings r))
}.

(** The beginning of every placeholder of a kind. *)
Definition marker (k : PiiKind) : string := String "[" (label k +:+ "_").
Definition starts_marker (s : string) : bool := existsb (λ k, is_some (strip_prefix (marker k) s)) [Email; Phone; Ssn].
(** The text nowhere begins like a placeholder. *)
Fixpoint no_marker (s : string) : bool :=
  match s with EmptyString => true | String _ rest => negb (starts_marker s) && no_marker rest end.
Lemma placeholder_marker k n rest : starts_marker (placeholder k n +:+ rest) = true.
Proof.
  unfold starts_marker. apply existsb_exists. exists k. split; [destruct k; cbn; auto|].
  assert (strip_prefix (marker k) (placeholder k n +:+ rest) = Some (decimal n +:+ "]" +:+ rest)) as ->; [|done].
  apply strip_prefix_Some. rewrite placeholder_body. unfold marker, body. cbn [String.append]. by rewrite !append_assoc.
Qed.

(** [out] is [orig] with some texts replaced by placeholders of [ms]; the rest
    of [orig] nowhere begins like one. *)
Inductive masks (ms : list (string * string)) : string → string → Prop :=
| masks_nil : masks ms "" ""
| masks_byte c out orig :
    (c = "["%char → starts_marker (String c orig) = false) → masks ms out orig → masks ms (String c out) (String c orig)
| masks_hole p o out orig :
    (p, o) ∈ ms → masks ms out orig → masks ms (p +:+ out) (o +:+ orig).

Lemma masks_text ms t out orig :
  no_open t = true → masks ms out orig → masks ms (t +:+ out) (t +:+ orig).
Proof.
  intros Ht Hm. induction t as [|c t IH]; [done|]. simpl in *. bool_prop. constructor; [by intros ->|auto].
Qed.

Lemma masks_plain ms t : no_open t = true → masks ms t t.
Proof.
  intros Ht. rewrite <- (append_nil_r t). apply masks_text; [done|constructor].
Qed.
Lemma masks_unmarked ms t : no_marker t = true → masks ms t t.
Proof. induction t as [|c t IH]; [constructor|]. cbn [no_marker]. intros [Hs%negb_true_iff Ht]%andb_true_iff. constructor; auto. Qed.

Lemma masks_app ms out orig out' orig' :
  no_open orig = true → masks ms out orig → masks ms out' orig' → masks ms (out +:+ out') (orig +:+ orig').
Proof.
  intros Ho H H'. induction H as [|c out orig Hc _ IH|p o out orig Hin _ IH]; [done|..]; cbn [String.append all_bytes] in *.
  - bool_prop. constructor; [by intros ->|auto].
  - rewrite all_bytes_append in Ho. bool_prop. rewrite !append_assoc. constructor; auto.
Qed.

Lemma masks_mono ms ms' out orig :
  (∀ m, m ∈ ms → m ∈ ms') → masks ms out orig → masks ms' out orig.
Proof. intros Hs. induction 1; [constructor|by constructor|]. apply masks_hole; auto. Qed.

Lemma masks_none out orig : masks [] out orig → out = orig.
Proof. induction 1; [done|congruence|]. by apply not_elem_of_nil in H. Qed.

(** ** Restoring *)

Definition is_placeholder (p : string) : Prop := ∃ k n, p = placeholder k n ∧ 0 ≤ n < 10 ^ 9.

(** A text without an opening bracket at the front of a masked text was there. *)
Lemma masked_prefix ms b out orig rest :
  Forall (λ m, is_placeholder m.1) ms → no_open b = true → masks ms out orig → out = b +:+ rest → ∃ rest', orig = b +:+ rest'.
Proof.
  intros Hms. revert out orig. induction b as [|d b IH]; intros out orig Hb Hm E; [by exists orig|].
  cbn [all_bytes String.append] in *. bool_prop. destruct Hm as [|c out orig _ Hm|p o out orig Hin _]; [done| |].
  - injection E as -> ->. destruct (IH _ _ ltac:(done) Hm eq_refl) as [rest' ->]. by exists rest'.
  - rewrite Forall_forall in Hms. destruct (Hms _ Hin) as (k & n & Hp & _). cbn [fst] in Hp. subst p. rewrite placeholder_body in E.
    cbn [String.append] in E. injection E as <- _. done.
Qed.
(** Only a placeholder itself matches at a placeholder. *)
Lemma replace_other p p' s o :
  is_placeholder p → is_placeholder p' → p ≠ p' →
  replace_all (p' +:+ s) p o = p' +:+ replace_all s p o.
Proof.
  intros (k & n & -> & Hn) (k' & n' & -> & Hn') Hne. rewrite !placeholder_body in *.
  cbn [String.append]. rewrite replace_all_miss.
  - f_equal. apply replace_all_skip. rewrite all_bytes_append.
    destruct (body_plain k' n' Hn') as [-> _]. done.
  - destruct (strip_prefix _ _) as [r|] eqn:E; [|done]. apply strip_prefix_Some in E.
    cbn [String.append] in E. injection E as E. rewrite !append_assoc in E. cbn [String.append] in E.
    apply close_split in E as [E _]; [|by apply body_plain..]. congruence.
Qed.

Lemma masks_replace p o ms out orig :
  is_placeholder p → no_open o = true →
  Forall (λ m, is_placeholder m.1 ∧ m.1 ≠ p) ms →
  masks ((p, o) :: ms) out orig → masks ms (replace_all out p o) orig.
Proof.
  intros Hp Ho Hms. assert (∃ q, p = String "[" q) as [q Hq].
  { destruct Hp as (k & n & -> & _). rewrite placeholder_body. eauto. }
  induction 1 as [|c out orig Hc Hm IH|p' o' out orig Hin _ IH].
  - subst p. constructor.
  - destruct (Ascii.eqb_spec "[" c) as [<-|Hne].
    + rewrite replace_all_miss; [by constructor|]. destruct (strip_prefix p (String "[" out)) as [rest|] eqn:E; [|done].
      destruct Hp as (k & n & -> & Hn). apply strip_prefix_Some in E. rewrite placeholder_body in E. cbn [String.append] in E.
      injection E as E. destruct (masked_prefix ((placeholder k n, o) :: ms) (body k n +:+ "]") out orig rest) as [rest' ->]; [|..|done|done|].
      * constructor; [by exists k, n|]. eapply Forall_impl; [exact Hms|]. by intros m [? _].
      * rewrite all_bytes_append. destruct (body_plain k n Hn) as [-> _]. done.
      * specialize (Hc eq_refl). pose proof (placeholder_marker k n rest') as Hx. rewrite placeholder_body in Hx. cbn [String.append] in Hx, Hc. congruence.
    + subst p. change (String c out) with (String c "" +:+ out).
      rewrite replace_all_skip by (cbn [all_bytes]; by rewrite (proj2 (Ascii.eqb_neq _ _) Hne)). by constructor.
  - apply elem_of_cons in Hin as [[= -> ->]|Hin].
    + rewrite replace_all_hit by (by subst p). by apply masks_text.
    + rewrite Forall_forall in Hms. destruct (Hms _ Hin) as [Hp' Hne]. simpl in *.
      rewrite replace_other by done. by apply masks_hole.
Qed.

Lemma masks_restore ms out orig :
  Forall (λ m, is_placeholder m.1 ∧ no_open m.2 = true) ms → NoDup (map fst ms) →
  masks ms out orig → foldl (λ s m, replace_all s m.1 m.2) out ms = orig.
Proof.
  revert out. induction ms as [|[p o] ms IH]; intros out Hall Hnd H; [by apply masks_none|].
  inversion Hall as [|? ? [Hp Ho] Hms]; inversion Hnd as [|? ? Hfresh Hnd']; subst. simpl in *.
  apply IH; [done|done|]. apply masks_replace; [done|done| |done].
  rewrite Forall_forall in *. intros m Hm. split; [by apply Hms|].
  intros <-. apply Hfresh. by apply list_elem_of_fmap_2.
Qed.

(** ** Redacting masks *)

Lemma mapping_ok_mono r r' m :
  (∀ k, count_of_kind k r ≤ count_of_kind k r') → mapping_ok r m → mapping_ok r' m.
Proof. intros Hc (k & n & ? & ? & ?). exists k, n. specialize (Hc k). split_and!; try done; lia. Qed.

(** [r'] has redacted at least what [r] has, and collected its mappings. *)
Definition extends (r r' : RedactionResult) : Prop :=
  (∀ k, count_of_kind k r ≤ count_of_kind k r') ∧ ∃ new, mappings r' = mappings r ++ new.

#[export] Instance extends_preorder : PreOrder extends.
Proof.
  split; [intros r; split; [lia|]; exists []; by rewrite app_nil_r|].
  intros r1 r2 r3 [H1 [n1 E1]] [H2 [n2 E2]]. split; [intros k; specialize (H1 k); specialize (H2 k); lia|].
  exists (n1 ++ n2). by rewrite E2, E1, app_assoc.
Qed.

Lemma extends_bounded r r' : (∀ k, 0 ≤ count_of_kind k r) → extends r r' → bounded r' → bounded r.
Proof. intros H0 [H _] Hb k. specialize (H k); specialize (Hb k). auto with lia. Qed.

Lemma masks_extends r r' out orig :
  extends r r' → masks (mappings r) out orig → masks (mappings r') out orig.
Proof. intros [_ [new E]]. apply masks_mono. rewrite E. intros m ?. apply elem_of_app. auto. Qed.

Lemma token_no_open k t : token_bytes k t = true → no_open t = true.
Proof.
  unfold token_bytes. apply all_bytes_mono. intros c Hc.
  destruct (Ascii.eqb_spec "[" c) as [<-|]; [|done]. by destruct k.
Qed.

Lemma push_extends k token r collect out r' :
  push_redacted_token token r collect k = (out, r') → extends r r'.
Proof.
  unfold push_redacted_token. intros H.
  destruct (is_empty token); [by injection H as <- <-|].
  destruct (looks_like _ _); [|by injection H as <- <-]. injection H as <- <-.
  split; [intros k'; destruct collect, k, k'; simpl; lia|].
  destruct collect; [|exists []; rewrite app_nil_r; by destruct k].
  eexists. simpl. by destruct k.
Qed.

Lemma redact_go_extends k input token r collect out r' :
  redact_go input token r collect k = (out, r') → extends r r'.
Proof.
  revert token r out r'. induction input as [|c input IH]; intros token r out r' H; cbn [redact_go] in H.
  - by eapply push_extends.
  - destruct (pii_token_character c k); [by eapply IH|].
    destruct (push_redacted_token _ _ _ _) as [o1 r1] eqn:E1.
    destruct (redact_go input "" r1 collect k) as [o2 r2] eqn:E2. injection H as <- <-.
    etransitivity; [by eapply push_extends|by eapply IH].
Qed.

Lemma nonneg_extends r r' :
  (∀ k, 0 ≤ count_of_kind k r) → extends r r' → ∀ k, 0 ≤ count_of_kind k r'.
Proof. intros H0 [H _] k. specialize (H k); specialize (H0 k). lia. Qed.

(** Giving out the next placeholder of a kind keeps the mappings in order. *)
Lemma add_mapping_ok k r o :
  mappings_ok r → bounded (bump_count k r) → bounded r → no_open o = true →
  mappings_ok (add_mapping (placeholder k (count_of_kind k (bump_count k r)), o) (bump_count k r)).
Proof.
  intros [He Hk] Hb Hb0 Ho.
  assert (mappings (bump_count k r) = mappings r) as Hm by by destruct k.
  assert (count_of_kind k (bump_count k r) = count_of_kind k r + 1) as Hc by by destruct k.
  assert (∀ k', count_of_kind k' r ≤ count_of_kind k' (bump_count k r)) as Hmono
    by (intros k'; destruct k, k'; simpl; lia).
  split; simpl; rewrite Hm.
  - apply Forall_app. split; [|repeat constructor].
    + eapply Forall_impl; [exact He|]. intros m. apply mapping_ok_mono. intros k'.
      specialize (Hmono k'). by destruct k'.
    + exists k, (count_of_kind k (bump_count k r)). specialize (Hb0 k).
      split_and!; [done|lia| |done]. by destruct k.
  - rewrite map_app. simpl. apply NoDup_app. split_and!; [done| |apply NoDup_singleton].
    intros x Hx ->%list_elem_of_singleton. apply list_elem_of_fmap in Hx as (m & Hm1 & Hin).
    rewrite Forall_forall in He. destruct (He _ Hin) as (k' & n & Hp & Hn & _).
    rewrite <- Hm1, !placeholder_body in Hp. injection Hp as Hp.
    apply (f_equal (λ s, before "]" s)) in Hp.
    pose proof (Hb0 k'); pose proof (Hb k).
    destruct (body_plain k' n) as [_ Hc1]; [lia|].
    destruct (body_plain k (count_of_kind k (bump_count k r))) as [_ Hc2]; [done|].
    rewrite !before_append in Hp by by apply contains_byte_all.
    apply body_inj in Hp as [Ek En]; [|lia|lia]. rewrite Ek in *. lia.
Qed.

Lemma push_masks k token r out r' :
  token_bytes k token = true → mappings_ok r → (∀ k, 0 ≤ count_of_kind k r) →
  push_redacted_token token r true k = (out, r') → bounded r' →
  mappings_ok r' ∧ masks (mappings r') out token.
Proof.
  intros Ht Hok H0 H Hb.
  assert (bounded r) as Hb0 by (eapply extends_bounded; [done|by eapply push_extends|done]).
  apply token_no_open in Ht as Hopen. unfold push_redacted_token in H.
  destruct (is_empty token) eqn:Hemp.
  { injection H as <- <-. destruct token; [|done]. split; [done|constructor]. }
  destruct (looks_like k _) eqn:Hl; cbn [negb] in H;
    [|injection H as <- <-; split; [done|by apply masks_plain]].
  destruct (trim_matches_split trim_char token) as (pre & post & E & Hpre & Hpost & Hhead).
  set (trimmed := trim_matches trim_char token) in *.
  destruct trimmed as [|c rest] eqn:Htr; [by rewrite looks_like_empty in Hl|].
  rewrite E, !all_bytes_append in Hopen. bool_prop.
  assert (bounded (bump_count k r)) as Hb1.
  { injection H as _ <-. intros k'. specialize (Hb k'). by destruct k'. }
  injection H as <- <-. split; [by apply add_mapping_ok|].
  rewrite E at 1. rewrite (replace_first_trimmed trim_char pre _ post _ c rest);
    [|done|by eapply Hhead|done].
  rewrite E. apply masks_text; [done|]. apply masks_hole; [|by apply masks_plain].
  simpl. apply elem_of_app. right. by left.
Qed.

Lemma push_undetected k token r collect :
  token_bytes k token = true → clean k token → push_redacted_token token r collect k = (token, r).
Proof.
  intros Ht Hc%clean_one; [|done]. unfold push_redacted_token. unfold detected in Hc. rewrite Hc.
  destruct token; done.
Qed.

(** A clean text in front of a separator is copied. *)
Lemma redact_go_skip k a c b token r collect out r' :
  token_bytes k token = true → clean k (token +:+ a) → pii_token_character c k = false →
  redact_go b "" r collect k = (out, r') →
  redact_go (a +:+ String c b) token r collect k = (token +:+ a +:+ String c out, r').
Proof.
  intros Ht Hcl Hc Hb. revert token Ht Hcl. induction a as [|d a IH]; intros token Ht Hcl.
  - rewrite append_nil_r in Hcl. cbn [String.append redact_go]. rewrite Hc.
    rewrite push_undetected by done. by rewrite Hb.
  - cbn [String.append redact_go]. destruct (pii_token_character d k) eqn:Hd.
    + rewrite IH.
      * by rewrite append_assoc.
      * unfold token_bytes in *. rewrite all_bytes_append, Ht. simpl. by rewrite Hd.
      * by rewrite append_assoc.
    + apply clean_sep in Hcl as [Hcl Hcl']; [|done]. rewrite push_undetected by done.
      by rewrite IH.
Qed.

Lemma extends_subset r r' (ms : list (string * string)) :
  extends r r' → (∀ m, m ∈ ms → m ∈ mappings r) → ∀ m, m ∈ ms → m ∈ mappings r'.
Proof. intros [_ [new ->]] H m Hm. apply elem_of_app. auto. Qed.

(** Flushing a token before a separator. *)
Lemma flush_masks k (ms : list (string * string)) token r o1 r1 r2 :
  token_bytes k token = true → mappings_ok r → (∀ k, 0 ≤ count_of_kind k r) →
  (∀ m, m ∈ ms → m ∈ mappings r) →
  push_redacted_token token r true k = (o1, r1) → extends r1 r2 → bounded r2 →
  mappings_ok r1 ∧ (∀ k, 0 ≤ count_of_kind k r1) ∧ (∀ m, m ∈ ms → m ∈ mappings r1) ∧
  masks (mappings r2) o1 token.
Proof.
  intros Ht Hok H0 Hsub E1 He2 Hb. apply push_extends in E1 as He1.
  pose proof (nonneg_extends _ _ H0 He1) as H1.
  apply push_masks in E1 as [Hok1 Hm1]; [|done|done|done|by eapply extends_bounded].
  split_and!; [done|done|by eapply extends_subset|by eapply masks_extends].
Qed.

Lemma redact_go_masks k ms input orig token r out r' :
  masks ms input orig → (∀ m, m ∈ ms → m ∈ mappings r) →
  token_bytes k token = true → mappings_ok r → (∀ k, 0 ≤ count_of_kind k r) →
  redact_go input token r true k = (out, r') → bounded r' →
  mappings_ok r' ∧ masks (mappings r') out (token +:+ orig).
Proof.
  intros Hm. revert token r out r'.
  induction Hm as [|c input orig Hc Hm IH|p o input orig Hin Hm IH];
    intros token r out r' Hsub Ht Hok H0 H Hb.
  - rewrite append_nil_r. by eapply push_masks.
  - cbn [redact_go] in H. destruct (pii_token_character c k) eqn:Hck.
    + apply IH in H; [by rewrite append_assoc in H|done| |done|done|done].
      unfold token_bytes in *. rewrite all_bytes_append, Ht. simpl. by rewrite Hck.
    + destruct (push_redacted_token token r true k) as [o1 r1] eqn:E1.
      destruct (redact_go input "" r1 true k) as [o2 r2] eqn:E2. injection H as <- <-.
      apply redact_go_extends in E2 as He2.
      eapply flush_masks in E1 as (Hok1 & H1 & Hsub1 & Hm1); [|done..].
      apply IH in E2 as [Hok2 Hm2]; [|done..].
      split; [done|]. apply masks_app; [by eapply token_no_open|done|]. by constructor.
  - apply Hsub in Hin as Hin'. pose proof (mo_entries _ Hok) as Hall.
    rewrite Forall_forall in Hall. destruct (Hall _ Hin') as (k' & n & Hp & Hn & Ho).
    cbn [fst snd] in Hp, Ho.
    assert (0 ≤ n < 10 ^ 9) as Hn9.
    { apply redact_go_extends in H as He. pose proof (extends_bounded _ _ H0 He Hb k'). lia. }
    subst p. rewrite placeholder_body in H. cbn [String.append redact_go] in H.
    destruct (brackets_separate k) as [Hsep Hsep']. rewrite Hsep in H.
    destruct (push_redacted_token token r true k) as [o1 r1] eqn:E1.
    destruct (redact_go input "" r1 true k) as [o2 r2] eqn:E2.
    rewrite append_assoc in H. cbn [String.append] in H.
    rewrite (redact_go_skip k _ _ _ "" _ _ o2 r2) in H;
      [|done|by apply placeholder_body_clean|done|done].
    injection H as <- <-. apply redact_go_extends in E2 as He2.
    eapply flush_masks in E1 as (Hok1 & H1 & Hsub1 & Hm1); [|done..].
    apply IH in E2 as [Hok2 Hm2]; [|done..].
    split; [done|]. apply masks_app; [by eapply token_no_open|done|].
    replace (String "[" (body k' n +:+ String "]" o2)) with (placeholder k' n +:+ o2)
      by (rewrite placeholder_body; cbn [String.append]; by rewrite append_assoc).
    apply masks_hole; [|done]. apply (extends_subset _ _ _ He2 Hsub1), Hin.
Qed.

(** ** Texts and JSON values *)

Record redacting (r : RedactionResult) : Prop := {
  rd_mappings : mappings_ok r;
  rd_counts : ∀ k, 0 ≤ count_of_kind k r
}.

Lemma redact_text_extends s r collect out r' :
  redact_text s r collect = (out, r') → extends r r'.
Proof.
  unfold redact_text, redact_tokens. intros H.
  destruct (redact_go s "" r collect Email) as [s1 r1] eqn:E1.
  destruct (redact_go s1 "" r1 collect Ssn) as [s2 r2] eqn:E2.
  apply redact_go_extends in E1, E2, H. by repeat (etransitivity; [eassumption|]).
Qed.

Lemma redact_text_masks s r out r' :
  no_marker s = true → redacting r → redact_text s r true = (out, r') → bounded r' →
  redacting r' ∧ masks (mappings r') out s.
Proof.
  unfold redact_text, redact_tokens. intros Hs [Hok H0] H Hb.
  destruct (redact_go s "" r true Email) as [s1 r1] eqn:E1.
  destruct (redact_go s1 "" r1 true Ssn) as [s2 r2] eqn:E2.
  apply redact_go_extends in E1 as He1, E2 as He2, H as He3.
  pose proof (nonneg_extends _ _ H0 He1) as H1. pose proof (nonneg_extends _ _ H1 He2) as H2.
  pose proof (nonneg_extends _ _ H2 He3) as H3.
  pose proof (extends_bounded _ _ H2 He3 Hb) as Hb2. pose proof (extends_bounded _ _ H1 He2 Hb2) as Hb1.
  eapply (redact_go_masks Email []) in E1 as [Hok1 Hm1];
    [|by apply masks_unmarked|by intros ? ?%not_elem_of_nil|done..].
  eapply redact_go_masks in E2 as [Hok2 Hm2]; [|done..].
  eapply redact_go_masks in H as [Hok3 Hm3]; [|done..]. done.
Qed.

(** No string value of [v] contains the beginning of a placeholder. *)
Fixpoint no_markers (v : Value) : bool :=
  match v with
  | JString s => no_marker s
  | JArray items => forallb no_markers items
  | JObject members => forallb (λ '(_, v), no_markers v) members
  | _ => true
  end.

(** Later mappings restore the masked value as well. *)
Definition restores (r : RedactionResult) (f : list (string * string) → Prop) : Prop :=
  ∀ rf, extends r rf → redacting rf → bounded rf → f (mappings rf).

Lemma restores_mono r r' f : extends r r' → restores r f → restores r' f.
Proof. intros He H rf Hrf. apply H. by etransitivity. Qed.

Lemma restores_text r s out :
  redacting r → masks (mappings r) out s →
  restores r (λ ms, foldl (λ s m, replace_all s m.1 m.2) out ms = s).
Proof.
  intros Hr Hm rf He [[Hall Hnd] H0] Hb. apply masks_restore; [|done|by eapply masks_extends].
  eapply Forall_impl; [exact Hall|]. intros m (k & n & Hp & Hn & Ho). split; [|done].
  exists k, n. specialize (Hb k). split; [done|lia].
Qed.

(** What redacting a value promises; [f] says how the masked value restores. *)
Definition redaction_step (plain : bool) (r r' : RedactionResult)
    (f : list (string * string) → Prop) : Prop :=
  extends r r' ∧ (plain = true → redacting r → bounded r' → redacting r' ∧ restores r' f).

Lemma redaction_step_refl (b : bool) r (f : list (string * string) → Prop) :
  (∀ ms, f ms) → redaction_step b r r f.
Proof. intros Hf. split; [done|]. intros _ Hr _. split; [done|]. intros rf _ _ _. apply Hf. Qed.

Lemma redaction_step_trans b1 b2 r1 r2 r3 f1 f2 f :
  redaction_step b1 r1 r2 f1 → redaction_step b2 r2 r3 f2 → (∀ ms, f1 ms → f2 ms → f ms) →
  redaction_step (b1 && b2) r1 r3 f.
Proof.
  intros [He1 H1] [He2 H2] Hf. split; [by etransitivity|]. intros Hb Hr Hb3. bool_prop.
  assert (bounded r2) as Hb2.
  { eapply extends_bounded; [|exact He2|done]. eapply nonneg_extends; [apply Hr|done]. }
  destruct H1 as [Hr2 Hs1]; [done..|]. destruct H2 as [Hr3 Hs2]; [done..|]. split; [done|].
  intros rf He Hrf Hbf. apply Hf; [|by apply Hs2]. apply Hs1; [by etransitivity|done|done].
Qed.

Lemma redaction_step_impl b r r' f f' :
  redaction_step b r r' f → (∀ ms, f ms → f' ms) → redaction_step b r r' f'.
Proof.
  intros [He H] Hf. split; [done|]. intros. destruct H as [? Hs]; [done..|]. split; [done|].
  intros rf ???. by apply Hf, Hs.
Qed.

Lemma for_each_mut_step {A} (f : A → RedactionResult → A * RedactionResult) (plain : A → bool)
    (restore : list (string * string) → A → A) l :
  Forall (λ a, ∀ r a' r', f a r = (a', r') →
    redaction_step (plain a) r r' (λ ms, restore ms a' = a)) l →
  ∀ r l' r', for_each_mut f l r = (l', r') →
  redaction_step (forallb plain l) r r' (λ ms, map (restore ms) l' = l).
Proof.
  induction 1 as [|a l Ha _ IH]; intros r l' r' H; simpl in H.
  - injection H as <- <-. by apply redaction_step_refl.
  - destruct (f a r) as [a1 r1] eqn:E1. destruct (for_each_mut f l r1) as [l1 r2] eqn:E2.
    injection H as <- <-. eapply redaction_step_trans; [by apply Ha|by apply IH|].
    intros ms H1 H2. simpl. congruence.
Qed.

Lemma redact_inner_step v : ∀ r v' r',
  redact_json_strings_inner v r true = (v', r') →
  redaction_step (no_markers v) r r' (λ ms, restore_placeholders v' ms = v).
Proof.
  induction v as [| | |s|l IH|m IH] using Value_nested_ind; intros r v' r' H;
    try (injection H as <- <-; by apply redaction_step_refl); cbn [redact_json_strings_inner] in H.
  - destruct (redact_text s r true) as [s' r1] eqn:E. injection H as <- <-.
    split; [by eapply redact_text_extends|]. intros Hs Hr Hb.
    destruct (redact_text_masks s r s' r1) as [Hr1 Hm]; [done..|]. split; [done|].
    intros rf ???. cbn [restore_placeholders]. f_equal. by apply (restores_text r1).
  - destruct (for_each_mut _ l r) as [l' r1] eqn:E. injection H as <- <-.
    eapply (for_each_mut_step _ no_markers (λ ms v, restore_placeholders v ms)) in E; [|exact IH].
    eapply redaction_step_impl; [exact E|]. intros ms Hms. cbn [restore_placeholders]. by f_equal.
  - destruct (for_each_mut _ m r) as [m' r1] eqn:E. injection H as <- <-.
    eapply (for_each_mut_step _ (λ '(_, v), no_markers v)
      (λ ms '(key, v), (key, restore_placeholders v ms))) in E.
    + eapply redaction_step_impl; [exact E|]. intros ms Hms. cbn [restore_placeholders]. by f_equal.
    + eapply Forall_impl; [exact IH|]. intros [key v] Hv r0 a' r0' H. cbn [snd] in Hv.
      destruct (redact_json_strings_inner v r0 true) as [v1 r2] eqn:E1. injection H as <- <-.
      eapply redaction_step_impl; [by apply Hv|]. intros ms ?. simpl. congruence.
Qed.

(** C39: Redacting and restoring are inverse for a request that does not
    contain, in any string, the beginning of a placeholder ("[EMAIL_", "[PHONE_"
    or "[SSN_"): redacted with its mappings collected, it is restored to itself by
    them, as long as fewer than [10 ^ 9] values of each kind are found, so that a
    placeholder's number cannot look like a phone number. *)
Theorem redact_restore v v' r :
  redact_json_strings v true = (v', r) → no_markers v = true →
  email_count r < 10 ^ 9 → phone_count r < 10 ^ 9 → ssn_count r < 10 ^ 9 →
  restore_placeholders v' (mappings r) = v.
Proof.
  unfold redact_json_strings. intros H Hv He Hp Hs.
  apply redact_inner_step in H as [Hext H].
  assert (∀ k, 0 ≤ count_of_kind k RedactionResult_default) as H0 by by intros [].
  assert (bounded r) as Hb.
  { intros k. pose proof (nonneg_extends _ _ H0 Hext k). by destruct k. }
  destruct H as [Hr Hres]; [done| |done|by apply Hres].
  split; [split; [constructor|constructor]|done].
Qed.

Lemma redact_restore_witness :
  let v := JObject [("to", JString "[cc] mail ann@example.org, or 123-45-6789"); ("n", JArray [JString "b@x.io"])] in
  redact_json_strings v true =
    (JObject [("to", JString "[cc] mail [EMAIL_1], or [SSN_1]"); ("n", JArray [JString "[EMAIL_2]"])],
     {| email_count := 2; phone_count := 0; ssn_count := 1;
        mappings := [("[EMAIL_1]", "ann@example.org"); ("[SSN_1]", "123-45-6789"); ("[EMAIL_2]", "b@x.io")] |}) ∧
  restore_placeholders
    (JObject [("to", JString "[cc] mail [EMAIL_1], or [SSN_1]"); ("n", JArray [JString "[EMAIL_2]"])])
    [("[EMAIL_1]", "ann@example.org"); ("[SSN_1]", "123-45-6789"); ("[EMAIL_2]", "b@x.io")] = v.
Proof.
  intros v. split; [vm_compute; reflexivity|].
  apply (redact_restore v _
    {| email_count := 2; phone_count := 0; ssn_count := 1;
       mappings := [("[EMAIL_1]", "ann@example.org"); ("[SSN_1]", "123-45-6789"); ("[EMAIL_2]", "b@x.io")] |});
    vm_compute; reflexivity.
Defined.

(** A placeholder that the client wrote itself is taken for one of the
    gateway's: the request is not restored to itself. *)
Theorem client_placeholder_replaced :
  let '(v', r) := redact_json_strings (JString "[EMAIL_1] ann@x.org") true in
  v' = JString "[EMAIL_1] [EMAIL_1]" ∧ restore_placeholders v' (mappings r) = JString "ann@x.org ann@x.org".
Proof. vm_compute. done. Qed.
