(* ===== verification/EndpointAccess.v ===== *)
(** * Who may call an endpoint

    Models [crates/gateway-core/src/endpoint_access.rs] and
    [crates/gateway-core/src/auth_profiles.rs]: validation of an endpoint's
    access settings, selection of an authentication profile by key, and the
    authorization of a verified Entra identity.  The Unicode classification
    and case mapping of profile names and the HTTP header-name grammar are
    parameters. *)

From S2P Require Import Prelude Errors GuardrailPolicy.

Record EndpointEntraPolicy := {
  audience : string;
  required_scopes : list string;
  required_roles : list string;
  allowed_groups : list string;
  allow_apigee : bool
}.

Inductive EntraIdentitySource : Type := Jwt | ApigeeTrustedHeader.

Record EntraIdentityContext := {
  audiences : list string;
  expires_at : option Z;
  tenant_id : string;
  subject : option string;
  object_id : option string;
  app_id : option string;
  authorized_party : option string;
  email : option string;
  display_name : option string;
  nonce : option string;
  scopes : list string;
  roles : list string;
  groups : list string;
  token_version : string;
  identity_source : EntraIdentitySource
}.

(** ** Authentication profiles *)

Inductive ProfileAuthentication : Type := EntraAndRelaynaKey | RelaynaKeyOnly.

Record AuthenticationProfile := {
  profile_id : string;
  profile_name : string;
  profile_enabled : bool;
  authentication : ProfileAuthentication;
  profile_entra : option EndpointEntraPolicy
}.

Record ProfileBinding := { bound_key : string; bound_profile : string }.

Record AuthenticationProfiles := {
  revision : Z;
  profiles : list AuthenticationProfile;
  bindings : list ProfileBinding
}.

Definition authentication_type (p : AuthenticationProfile) : string :=
  if is_some (profile_entra p) then "entra_and_relayna_key" else "relayna_key_only".

Definition valid_claim (value : string) : bool :=
  negb (is_empty value) && (len value <=? 512) && negb (contains_whitespace value).

Definition segment_byte (c : ascii) : bool :=
  is_ascii_alphanumeric c || Ascii.eqb c "-" || Ascii.eqb c "_".
Definition valid_segment (value : string) : bool :=
  negb (is_empty value) && (len value <=? 64) && all_bytes segment_byte value.

(** [EndpointAccess { entra, ..Default::default() }.validate(..)]: the only
    check that applies there is the one on the claims. *)
Definition validate_entra (entra : option EndpointEntraPolicy) : GatewayResult unit :=
  match entra with
  | Some policy =>
      if negb (valid_claim (audience policy))
         || existsb (λ v, negb (valid_claim v))
              (required_scopes policy ++ required_roles policy ++ allowed_groups policy)
      then Err InvalidServicePayload
      else Ok tt
  | None => Ok tt
  end.

Section profiles.
(** [str::to_lowercase] and [char::is_control] somewhere in a string. *)
Variable to_lowercase : string → string.
Variable has_control : string → bool.

Definition is_entra_and_key (a : ProfileAuthentication) : bool :=
  match a with EntraAndRelaynaKey => true | RelaynaKeyOnly => false end.

(** One iteration over the profiles, with the ids and names seen so far. *)
Definition validate_profile (accessa : bool) (seen : list string * list string)
    (p : AuthenticationProfile) : GatewayResult (list string * list string) :=
  let '(ids, names) := seen in
  let lowered := to_lowercase (trim (profile_name p)) in
  if is_empty (profile_id p) || (64 <? len (profile_id p))
     || negb (all_bytes segment_byte (profile_id p))
     || is_empty (trim (profile_name p)) || (120 <? len (profile_name p))
     || has_control (profile_name p)
     || str_mem (profile_id p) ids || str_mem lowered names
     || (accessa && is_none (profile_entra p))
     || negb (Bool.eqb (is_entra_and_key (authentication p)) (is_some (profile_entra p)))
  then Err InvalidServicePayload
  else
    check? match profile_entra p with
           | Some entra =>
               if existsb (λ claims, 64 <? Z.of_nat (length claims))
                    [required_scopes entra; required_roles entra; allowed_groups entra]
               then Err InvalidServicePayload
               else validate_entra (Some entra)
           | None => Ok tt
           end in
    Ok (profile_id p :: ids, lowered :: names).

Definition validate_binding (ids keys : list string) (b : ProfileBinding) : GatewayResult (list string) :=
  if negb (str_mem (bound_profile b) ids) || str_mem (bound_key b) keys
  then Err InvalidServicePayload else Ok (bound_key b :: keys).

Definition profiles_validate (ps : AuthenticationProfiles) (accessa : bool) : GatewayResult unit :=
  if is_nil (profiles ps) || (32 <? Z.of_nat (length (profiles ps)))
     || (1024 <? Z.of_nat (length (bindings ps))) || (i64_max <=? revision ps)
  then Err InvalidServicePayload
  else
    let? seen := try_fold (validate_profile accessa) ([], []) (profiles ps) in
    let? keys := try_fold (validate_binding seen.1) [] (bindings ps) in
    Ok tt.
End profiles.

Definition select (ps : AuthenticationProfiles) (key_id : string) : GatewayResult AuthenticationProfile :=
  match List.filter (λ b, String.eqb (bound_key b) key_id) (bindings ps) with
  | [] => Err AuthenticationProfileDenied
  | binding :: more =>
      if negb (is_nil more) then Err AuthenticationProfileDenied
      else
        match List.filter (λ p, String.eqb (profile_id p) (bound_profile binding)) (profiles ps) with
        | [] => Err AuthenticationProfileDenied
        | profile :: more =>
            if negb (profile_enabled profile) || negb (is_nil more)
            then Err AuthenticationProfileDenied else Ok profile
        end
  end.

(** ** Endpoint access *)

Record WebSocketSettings := {
  idle_timeout_ms : Z;
  max_connections : Z;
  max_connections_per_key : Z;
  max_frame_bytes : Z;
  max_session_duration_seconds : Z
}.
Definition WebSocketSettings_default : WebSocketSettings :=
  {| idle_timeout_ms := 60000; max_connections := 100; max_connections_per_key := 10;
     max_frame_bytes := 1048576; max_session_duration_seconds := 3600 |}.

Definition websocket_validate (w : WebSocketSettings) : GatewayResult unit :=
  if negb (in_range 100 600000 (idle_timeout_ms w))
     || negb (in_range 1 10000 (max_connections w))
     || negb (in_range 1 (max_connections w) (max_connections_per_key w))
     || negb (in_range 125 16777216 (max_frame_bytes w))
     || negb (in_range 1 86400 (max_session_duration_seconds w))
  then Err InvalidServicePayload else Ok tt.

Record UserTokenForwarding := { forwarding_enabled : bool; header : string }.
Definition UserTokenForwarding_default : UserTokenForwarding :=
  {| forwarding_enabled := false; header := "x-access-token" |}.

Definition FORBIDDEN_HEADERS : list string :=
  ["accept"; "accept-encoding"; "accept-language"; "authorization"; "proxy-authorization"; "host";
   "connection"; "keep-alive"; "upgrade"; "te"; "trailer"; "transfer-encoding"; "cookie";
   "set-cookie"; "origin"; "referer"; "forwarded"; "via"; "range"; "expect"; "cache-control";
   "pragma"; "date"; "location"; "server"; "vary"; "allow"; "etag"; "last-modified"; "traceparent";
   "tracestate"; "baggage"; "x-api-key"; "api-key"; "x-request-id"; "x-correlation-id";
   "x-amzn-trace-id"].
Definition FORBIDDEN_HEADER_PREFIXES : list string :=
  ["content-"; "accept-"; "if-"; "sec-"; "access-control-"; "proxy-"; "x-caller-"; "x-route-";
   "x-relayna-"; "x-apigee-"; "x-forwarded-"; "x-original-"; "x-envoy-"; "x-ms-"].

Record AccessaBinding := {
  app : option string;
  channel : string;
  accessa_idle_timeout_ms : Z;
  accessa_max_connections : Z;
  accessa_max_connections_per_key : Z;
  accessa_max_frame_bytes : Z
}.

Definition route_pattern (b : AccessaBinding) : string :=
  match app b with
  | Some app => "/app/" +:+ app +:+ "/channel/" +:+ channel b +:+ "/v1/*"
  | None => "/channel/" +:+ channel b +:+ "/v1/me"
  end.
Definition run_path (b : AccessaBinding) : option string :=
  (λ app, "/app/" +:+ app +:+ "/channel/" +:+ channel b +:+ "/v1/run") <$> app b.

Record EndpointAccess := {
  authentication_profiles : option AuthenticationProfiles;
  skip_entra : bool;
  entra : option EndpointEntraPolicy;
  accessa : option AccessaBinding;
  websocket : option WebSocketSettings;
  user_token_forwarding : option UserTokenForwarding
}.

Definition identity_for_key (ea : EndpointAccess) (key_id : string) :
    GatewayResult (option EndpointEntraPolicy) :=
  match authentication_profiles ea with
  | Some ps => let? p := select ps key_id in Ok (profile_entra p)
  | None => Ok (entra ea)
  end.

Section access.
Variable to_lowercase : string → string.
Variable has_control : string → bool.
(** [HeaderName::from_bytes(..).is_ok()]. *)
Variable header_name_ok : string → bool.

Definition forwarding_validate (f : UserTokenForwarding) : GatewayResult unit :=
  let name := to_ascii_lowercase (header f) in
  if (128 <? len name) || negb (header_name_ok name) || str_mem name FORBIDDEN_HEADERS
     || existsb (starts_with name) FORBIDDEN_HEADER_PREFIXES
  then Err InvalidServicePayload else Ok tt.

Definition accessa_invalid (ea : EndpointAccess) (b : AccessaBinding) (pattern : string) : bool :=
  (is_none (entra ea) && is_none (authentication_profiles ea))
  || negb (valid_segment (channel b))
  || is_some_and (λ a, negb (valid_segment a)) (app b)
  || negb (in_range 100 600000 (accessa_idle_timeout_ms b))
  || negb (in_range 1 10000 (accessa_max_connections b))
  || negb (in_range 1 (accessa_max_connections b) (accessa_max_connections_per_key b))
  || negb (in_range 125 16777216 (accessa_max_frame_bytes b))
  || negb (String.eqb pattern (route_pattern b)).

Definition endpoint_validate (ea : EndpointAccess) (pattern : string) : GatewayResult unit :=
  check? match websocket ea with
         | Some socket =>
             check? websocket_validate socket in
             if is_some (accessa ea) then Err InvalidServicePayload else Ok tt
         | None => Ok tt
         end in
  check? match user_token_forwarding ea with
         | Some f => if is_none (accessa ea) then Err InvalidServicePayload else forwarding_validate f
         | None => Ok tt
         end in
  check? match authentication_profiles ea with
         | Some ps =>
             check? profiles_validate to_lowercase has_control ps (is_some (accessa ea)) in
             if skip_entra ea || is_some (entra ea) then Err InvalidServicePayload else Ok tt
         | None => Ok tt
         end in
  if skip_entra ea && (is_some (entra ea) || is_some (accessa ea)) then Err InvalidServicePayload
  else
    check? validate_entra (entra ea) in
    match accessa ea with
    | Some b => if accessa_invalid ea b pattern then Err InvalidServicePayload else Ok tt
    | None => Ok tt
    end.
End access.

(** ** Authorization *)

Definition authorize (p : EndpointEntraPolicy) (identity : EntraIdentityContext) (now : Z) : GatewayResult unit :=
  if negb (existsb (String.eqb (audience p)) (audiences identity)) then Err InvalidEntraAudience
  else if is_none_or (λ exp, exp <=? now) (expires_at identity) then Err ExpiredEntraToken
  else if existsb (λ scope, negb (str_mem scope (scopes identity))) (required_scopes p)
          || existsb (λ role, negb (str_mem role (roles identity))) (required_roles p)
          || (negb (is_nil (allowed_groups p))
              && negb (existsb (λ g, str_mem g (groups identity)) (allowed_groups p)))
  then Err InsufficientEntraAuthorization
  else Ok tt.

(** ** Properties *)

(** The check [AuthenticationProfiles::validate] makes on a profile's claims
    by validating a default [EndpointAccess] that only has them. *)
Lemma validate_entra_default lower ctl hdr e :
  endpoint_validate lower ctl hdr
    {| authentication_profiles := None; skip_entra := false; entra := e; accessa := None;
       websocket := None; user_token_forwarding := None |} "/profile" = validate_entra e.
Proof.
  unfold endpoint_validate. simpl. by destruct (validate_entra e) as [[]|].
Qed.

(** A fold that refuses an element whose key was already seen collects the
    keys of the whole list, each once. *)
Lemma try_fold_fresh {E A S K} (f : S → A → result E S) (seen : S → list K) (key : A → K) l s s' :
  (∀ s a s', f s a = Ok s' → (key a ∉ seen s) ∧ seen s' = key a :: seen s) →
  try_fold f s l = Ok s' → NoDup (seen s) →
  seen s' ≡ₚ (key <$> l) ++ seen s ∧ NoDup (seen s').
Proof.
  intros Hf. revert s; induction l as [|a l IH]; simpl; intros s H Hnd; result_cases; [done|].
  apply Hf in Heqr as [Hnew Hseen]. apply IH in H as [Hp Hd].
  - split; [|done]. rewrite Hp, Hseen. by rewrite Permutation_middle.
  - rewrite Hseen. by constructor.
Qed.

Lemma try_fold_each {E A S} (f : S → A → result E S) (P : A → Prop) l s s' :
  (∀ s a s', f s a = Ok s' → P a) → try_fold f s l = Ok s' → Forall P l.
Proof.
  intros Hf. revert s; induction l as [|a l IH]; simpl; intros s H; result_cases; constructor; eauto.
Qed.

(** A list without repeated keys has at most one element of each key. *)
Lemma filter_key_NoDup {A} (key : A → string) l a :
  NoDup (key <$> l) → a ∈ l → List.filter (λ x, String.eqb (key x) (key a)) l = [a].
Proof.
  induction l as [|x l IH]; simpl; intros Hnd Ha; [by apply not_elem_of_nil in Ha|].
  inversion Hnd as [|? ? Hx Hl]; subst. destruct (String.eqb_spec (key x) (key a)) as [He|He].
  - assert (x = a) as ->.
    { apply elem_of_cons in Ha as [->|Ha]; [done|]. destruct Hx. rewrite He. by apply list_elem_of_fmap_2. }
    f_equal. clear -Hx. induction l as [|y l IH]; simpl in *; [done|].
    apply not_elem_of_cons in Hx as [Hy Hl]. destruct (String.eqb_spec (key y) (key a)); [congruence|auto].
  - apply elem_of_cons in Ha as [->|Ha]; [done|auto].
Qed.

Lemma filter_eqb_elem {A} (key : A → string) l k a r :
  List.filter (λ x, String.eqb (key x) k) l = a :: r → a ∈ l ∧ key a = k.
Proof.
  intros H. assert (List.In a (List.filter (λ x, String.eqb (key x) k) l)) as Ha by (rewrite H; by left).
  apply filter_In in Ha as [Ha Hk]. apply String.eqb_eq in Hk. by rewrite list_elem_of_In.
Qed.

Lemma validate_profile_ok lower ctl accessa seen p seen' :
  validate_profile lower ctl accessa seen p = Ok seen' →
  (profile_id p ∉ seen.1) ∧ seen'.1 = profile_id p :: seen.1 ∧
  (accessa = true → is_some (profile_entra p) = true) ∧
  (authentication p = EntraAndRelaynaKey ↔ is_some (profile_entra p) = true) ∧
  validate_entra (profile_entra p) = Ok tt.
Proof.
  unfold validate_profile. destruct seen as [ids names]. cbn [fst].
  intros H. result_path. bool_prop. subst.
  assert (validate_entra (profile_entra p) = Ok tt) as Hv.
  { destruct (profile_entra p) as [en|]; [|done]. destruct a. by result_cases. }
  split_and!; try done.
  - by apply str_mem_false.
  - intros ->. match goal with H : true && _ = false |- _ => simpl in H; unfold is_none in H end. by bool_prop.
  - match goal with H : Bool.eqb _ _ = true |- _ => apply Bool.eqb_prop in H; rewrite <- H end.
    by destruct (authentication p).
Qed.

(** What validated profiles satisfy. *)
Record profiles_valid (ps : AuthenticationProfiles) (accessa : bool) : Prop := {
  pv_ids : NoDup (profile_id <$> profiles ps);
  pv_keys : NoDup (bound_key <$> bindings ps);
  pv_bound : Forall (λ b, bound_profile b ∈ profile_id <$> profiles ps) (bindings ps);
  pv_entra : Forall (λ p, (accessa = true → is_some (profile_entra p) = true) ∧
     (authentication p = EntraAndRelaynaKey ↔ is_some (profile_entra p) = true) ∧
     validate_entra (profile_entra p) = Ok tt) (profiles ps)
}.

Lemma profiles_validate_valid lower ctl ps accessa :
  profiles_validate lower ctl ps accessa = Ok tt → profiles_valid ps accessa.
Proof.
  unfold profiles_validate. intros H. result_path. rename a into seen, a0 into keys.
  destruct (try_fold_fresh _ fst profile_id _ _ _ (λ s a s' Hs,
    let Hv := validate_profile_ok _ _ _ _ _ _ Hs in conj (proj1 Hv) (proj1 (proj2 Hv))) Heqr) as [Hids Hnd];
    [constructor|].
  assert (∀ (s : list string) b s', validate_binding seen.1 s b = Ok s' →
    (bound_key b ∉ s) ∧ s' = bound_key b :: s) as Hfresh.
  { unfold validate_binding. intros s b s' Hb. result_cases. bool_prop. by split; [apply str_mem_false|]. }
  destruct (try_fold_fresh _ id bound_key _ _ _ Hfresh Heqr0) as [Hkeys Hndk]; [constructor|].
  unfold id in *. cbn [fst] in Hids. rewrite app_nil_r in Hids, Hkeys.
  split; [by rewrite <- Hids|by rewrite <- Hkeys| |].
  - eapply try_fold_each; [|exact Heqr0]. intros s b s' Hb. unfold validate_binding in Hb.
    result_cases. bool_prop. rewrite <- Hids. by apply str_mem_iff.
  - eapply try_fold_each; [|exact Heqr]. intros s a s' Ha. by apply validate_profile_ok in Ha as (_ & _ & ?).
Qed.

Lemma select_elem ps key p : select ps key = Ok p →
  p ∈ profiles ps ∧ profile_enabled p = true ∧
  ∃ b, b ∈ bindings ps ∧ bound_key b = key ∧ bound_profile b = profile_id p.
Proof.
  unfold select. destruct (List.filter _ (bindings ps)) as [|b more] eqn:Hb; [done|].
  destruct (is_nil more); [|done]. simpl.
  destruct (List.filter _ (profiles ps)) as [|q more'] eqn:Hp; [done|].
  intros H. result_cases. bool_prop.
  apply filter_eqb_elem in Hb as [? ?]. apply filter_eqb_elem in Hp as [? ?]. eauto 10.
Qed.

(** once an endpoint's profiles are validated, the key a caller
    authenticated with selects a profile exactly when the key is bound to it
    and the profile is enabled: no key is ambiguous, and a key that is not
    bound, or is bound to a disabled profile, is refused. *)
Theorem profiles_select_exact lower ctl ps accessa key p :
  profiles_validate lower ctl ps accessa = Ok tt →
  select ps key = Ok p ↔
  p ∈ profiles ps ∧ profile_enabled p = true ∧
  ∃ b, b ∈ bindings ps ∧ bound_key b = key ∧ bound_profile b = profile_id p.
Proof.
  intros Hv%profiles_validate_valid. split; [apply select_elem|].
  intros (Hp & He & b & Hb & <- & Hid). unfold select.
  rewrite (filter_key_NoDup bound_key) by (done || apply Hv). cbn [is_nil negb].
  rewrite Hid, (filter_key_NoDup profile_id) by (done || apply Hv). by rewrite He.
Qed.

(** behind a validated endpoint with an Accessa binding, every key either
    is refused or comes with an Entra policy, whose claims are well formed:
    no caller gets through on the gateway key alone. *)
Theorem accessa_requires_entra lower ctl hdr ea pattern key policy :
  endpoint_validate lower ctl hdr ea pattern = Ok tt → is_some (accessa ea) = true →
  identity_for_key ea key = Ok policy →
  is_some policy = true ∧ validate_entra policy = Ok tt ∧ skip_entra ea = false.
Proof.
  unfold endpoint_validate, identity_for_key. intros H Ha Hi. rewrite Ha in H.
  assert (skip_entra ea = false) as Hs.
  { destruct (skip_entra ea); [|done]. rewrite orb_true_r in H. simpl in H. by result_cases. }
  destruct (accessa ea) as [b|]; [|done]. unfold accessa_invalid in H.
  destruct (authentication_profiles ea) as [ps|] eqn:Hps.
  - destruct (select ps key) as [p|] eqn:Hsel; [|done]. injection Hi as <-. result_path. subst.
    match goal with H : profiles_validate _ _ _ _ = Ok ?u |- _ =>
      destruct u; apply profiles_validate_valid in H as Hv end.
    apply select_elem in Hsel as (Hin & _).
    apply (proj1 (Forall_forall _ _) (pv_entra _ _ Hv)) in Hin as (? & _ & ?). auto.
  - result_path. subst.
    match goal with H : validate_entra _ = Ok ?u |- _ => destruct u end.
    split_and!; try done. bool_prop. by destruct (entra ea).
Qed.

Lemma subset_test l l' : existsb (λ v, negb (str_mem v l')) l = false ↔ ∀ v, v ∈ l → v ∈ l'.
Proof.
  rewrite <- not_true_iff_false, existsb_exists. setoid_rewrite negb_true_iff.
  setoid_rewrite str_mem_false. setoid_rewrite <- list_elem_of_In. split; [|naive_solver].
  intros H v Hv. destruct (decide (v ∈ l')); naive_solver.
Qed.
Lemma str_exists l l' : existsb (λ v, str_mem v l') l = true ↔ ∃ v, v ∈ l ∧ v ∈ l'.
Proof.
  rewrite existsb_exists. setoid_rewrite str_mem_iff. by setoid_rewrite <- list_elem_of_In.
Qed.

(** an identity passes an endpoint's policy exactly when the token is for
    the endpoint's audience, has an expiry in the future, carries every
    required scope and role, and belongs to one of the allowed groups if any
    is listed. *)
Theorem authorize_exact p identity now :
  authorize p identity now = Ok tt ↔
  audience p ∈ audiences identity ∧
  (∃ exp, expires_at identity = Some exp ∧ now < exp) ∧
  (∀ s, s ∈ required_scopes p → s ∈ scopes identity) ∧
  (∀ r, r ∈ required_roles p → r ∈ roles identity) ∧
  (allowed_groups p = [] ∨ ∃ g, g ∈ allowed_groups p ∧ g ∈ groups identity).
Proof.
  unfold authorize. rewrite !guard_ok, !orb_false_iff, !subset_test, negb_false_iff.
  assert (∀ l, existsb (String.eqb (audience p)) l = true ↔ audience p ∈ l) as -> by apply str_mem_iff.
  assert (is_none_or (λ exp, exp <=? now) (expires_at identity) = false ↔
    ∃ exp, expires_at identity = Some exp ∧ now < exp) as ->.
  { destruct (expires_at identity) as [exp|]; simpl; [|naive_solver].
    rewrite Z.leb_gt. naive_solver. }
  assert (negb (is_nil (allowed_groups p)) &&
      negb (existsb (λ g, str_mem g (groups identity)) (allowed_groups p)) = false ↔
    allowed_groups p = [] ∨ ∃ g, g ∈ allowed_groups p ∧ g ∈ groups identity) as ->; [|naive_solver].
  rewrite <- str_exists. destruct (allowed_groups p) as [|g l]; [naive_solver|].
  cbn [is_nil negb andb]. rewrite negb_false_iff. naive_solver.
Qed.

(** ** Witnesses *)

Definition reports_policy : EndpointEntraPolicy :=
  {| audience := "api://reports"; required_scopes := ["read"]; required_roles := [];
     allowed_groups := []; allow_apigee := false |}.
Definition staff_profile : AuthenticationProfile :=
  {| profile_id := "staff"; profile_name := "Staff"; profile_enabled := true;
     authentication := EntraAndRelaynaKey; profile_entra := Some reports_policy |}.
Definition staff_profiles : AuthenticationProfiles :=
  {| revision := 1; profiles := [staff_profile];
     bindings := [{| bound_key := "k1"; bound_profile := "staff" |}] |}.
Definition staff_access : EndpointAccess :=
  {| authentication_profiles := Some staff_profiles; skip_entra := false; entra := None;
     accessa := Some {| app := Some "crm"; channel := "web"; accessa_idle_timeout_ms := 1000;
       accessa_max_connections := 10; accessa_max_connections_per_key := 2;
       accessa_max_frame_bytes := 1024 |};
     websocket := None; user_token_forwarding := Some UserTokenForwarding_default |}.
Abbreviation ascii_control := (λ s, negb (all_bytes (λ c, (32 <=? N_of_ascii c)%N) s)).

Lemma profiles_select_exact_witness :
  profiles_validate to_ascii_lowercase ascii_control staff_profiles true = Ok tt ∧
  select staff_profiles "k1" = Ok staff_profile.
Proof.
  split; [reflexivity|].
  apply (profiles_select_exact to_ascii_lowercase ascii_control staff_profiles true); [reflexivity|].
  split_and!; [by left|reflexivity|].
  exists {| bound_key := "k1"; bound_profile := "staff" |}. split_and!; [by left|reflexivity..].
Defined.

Lemma accessa_requires_entra_witness :
  identity_for_key staff_access "k1" = Ok (Some reports_policy) ∧
  validate_entra (Some reports_policy) = Ok tt.
Proof.
  split; [reflexivity|].
  apply (accessa_requires_entra to_ascii_lowercase ascii_control (λ _, true) staff_access
    "/app/crm/channel/web/v1/*" "k1" (Some reports_policy)); reflexivity.
Defined.
