(* ===== verification/TrafficRequest.v ===== *)
(** * Request diagnostics

    Models the data of [crates/gateway-core/src/traffic.rs]: the diagnostic
    record of a request, its timeline and failure bookkeeping, the bounded
    projection kept in the active registry, the Entra diagnostics, and the
    query that filters records.  A string is its UTF-8 bytes; a [Uuid] is its
    128-bit number, whose order is the byte order of the source; times are
    integers.  The two [Arc] cells of a record are handles into stores that
    [TrafficMonitor] keeps, so that clones share them. *)

From S2P Require Import Prelude Errors Routing EndpointAccess.

Abbreviation Uuid := Z (only parsing).

Definition TIMELINE_CAPACITY : Z := 32.

(** ** Characters of UTF-8 text *)

(** Continuation bytes do not start a character. *)
Definition starts_char (c : ascii) : bool := negb (in_range 128 191 (byte_val c)).
Fixpoint chars_count (s : string) : Z :=
  match s with
  | EmptyString => 0
  | String c s => (if starts_char c then 1 else 0) + chars_count s
  end.
(** [s.chars().take(n).collect::<String>()]. *)
Fixpoint take_chars (n : Z) (s : string) : string :=
  match s with
  | EmptyString => EmptyString
  | String c s =>
      if starts_char c then
        if n <=? 0 then EmptyString else String c (take_chars (n - 1) s)
      else String c (take_chars n s)
  end.

(** ** Diagnostics *)

Record AuthenticationProfileDiagnostics := {
  ap_id : option string;
  ap_name : option string;
  ap_revision : Z;
  ap_authentication_type : option string;
  ap_binding_source : string;
  ap_outcome : string
}.

Record WebSocketDiagnostics := {
  ws_state : string;
  ws_app : option string;
  ws_channel : string;
  ws_opened_at : option Z;
  ws_observed_at : option Z;
  ws_closed_at : option Z;
  ws_duration_ms : Z;
  ws_client_bytes : Z;
  ws_upstream_bytes : Z;
  ws_client_frames : Z;
  ws_upstream_frames : Z;
  ws_client_close_frame : bool;
  ws_upstream_close_frame : bool;
  ws_last_client_activity_at : option Z;
  ws_last_upstream_activity_at : option Z;
  ws_idle_timeout_ms : Z;
  ws_session_expires_at : option Z;
  ws_max_frame_bytes : Z;
  ws_close_cause : option string
}.

Record EntraDiagnostics := {
  en_policy_source : string;
  en_verification : string;
  en_expected_audience : option string;
  en_required_scopes : list string;
  en_required_roles : list string;
  en_allowed_groups : list string;
  en_allow_apigee : bool;
  en_source : option string;
  en_tenant_id : option string;
  en_object_id : option string;
  en_app_id : option string;
  en_authorized_party : option string;
  en_token_version : option string;
  en_expires_at : option Z;
  en_audiences : list string;
  en_scopes : list string;
  en_roles : list string;
  en_groups : list string;
  en_truncated : bool
}.

Record RequestDiagnostics := {
  d_authentication_profile : option AuthenticationProfileDiagnostics;
  d_protocol : option string;
  d_websocket : option WebSocketDiagnostics;
  d_entra : option EntraDiagnostics;
  d_routing_mode : option string;
  d_traffic_id : option Uuid;
  d_failure_stage : option string;
  d_failure_code : option string;
  d_failure_source : option string;
  d_outcome : option string;
  d_upstream_status : option Z;
  d_instance_id : option string
}.
Definition RequestDiagnostics_default : RequestDiagnostics :=
  {| d_authentication_profile := None; d_protocol := None; d_websocket := None; d_entra := None;
     d_routing_mode := None; d_traffic_id := None; d_failure_stage := None; d_failure_code := None;
     d_failure_source := None; d_outcome := None; d_upstream_status := None; d_instance_id := None |}.

(** [EntraDiagnostics::bounded] and [claims]: the text or list kept, and
    whether anything was cut so far. *)
Definition bounded_text (value : string) (truncated : bool) : string * bool :=
  (take_chars 256 value, truncated || (256 <? chars_count value)).
Definition bounded_option (value : option string) (truncated : bool) : option string * bool :=
  match value with
  | Some v => let '(v, t) := bounded_text v truncated in (Some v, t)
  | None => (None, truncated)
  end.
Fixpoint bounded_all (values : list string) (truncated : bool) : list string * bool :=
  match values with
  | [] => ([], truncated)
  | v :: values =>
      let '(v, t) := bounded_text v truncated in
      let '(values, t) := bounded_all values t in
      (v :: values, t)
  end.
Definition claims (values : list string) (truncated : bool) : list string * bool :=
  bounded_all (take 32 values) (truncated || (32 <? Z.of_nat (length values))).

Definition entra_endpoint (policy : EndpointEntraPolicy) : EntraDiagnostics :=
  let '(aud, t) := bounded_text (audience policy) false in
  let '(scopes, t) := claims (required_scopes policy) t in
  let '(roles, t) := claims (required_roles policy) t in
  let '(groups, t) := claims (allowed_groups policy) t in
  {| en_policy_source := "endpoint"; en_verification := "pending"; en_expected_audience := Some aud;
     en_required_scopes := scopes; en_required_roles := roles; en_allowed_groups := groups;
     en_allow_apigee := allow_apigee policy; en_source := None; en_tenant_id := None;
     en_object_id := None; en_app_id := None; en_authorized_party := None; en_token_version := None;
     en_expires_at := None; en_audiences := []; en_scopes := []; en_roles := []; en_groups := [];
     en_truncated := t |}.

Definition source_text (s : EntraIdentitySource) : string :=
  match s with Jwt => "jwt" | ApigeeTrustedHeader => "signed_apigee" end.

Definition entra_verified (e : EntraDiagnostics) (identity : EntraIdentityContext) : EntraDiagnostics :=
  let '(tenant, t) := bounded_text (tenant_id identity) (en_truncated e) in
  let '(object, t) := bounded_option (object_id identity) t in
  let '(app, t) := bounded_option (app_id identity) t in
  let '(party, t) := bounded_option (authorized_party identity) t in
  let '(version, t) := bounded_text (token_version identity) t in
  let '(auds, t) := claims (audiences identity) t in
  let '(scps, t) := claims (scopes identity) t in
  let '(rls, t) := claims (roles identity) t in
  let '(grps, t) := claims (groups identity) t in
  {| en_policy_source := en_policy_source e; en_verification := "verified";
     en_expected_audience := en_expected_audience e; en_required_scopes := en_required_scopes e;
     en_required_roles := en_required_roles e; en_allowed_groups := en_allowed_groups e;
     en_allow_apigee := en_allow_apigee e; en_source := Some (source_text (identity_source identity));
     en_tenant_id := Some tenant; en_object_id := object; en_app_id := app;
     en_authorized_party := party; en_token_version := Some version;
     en_expires_at := expires_at identity; en_audiences := auds; en_scopes := scps; en_roles := rls;
     en_groups := grps; en_truncated := t |}.

(** ** The record of a request *)

Record TrafficStep := {
  st_stage : string;
  st_elapsed_ms : Z;
  st_code : option string;
  st_upstream_status : option Z;
  st_attempt : Z
}.

Record UpstreamTiming := {
  ut_attempt : Z;
  ut_provider : option string;
  ut_started_elapsed_ms : Z;
  ut_dns_status : string;
  ut_dns_us : option Z;
  ut_connection_reused : option bool;
  ut_tls : bool;
  ut_tcp_connect_us : option Z;
  ut_tls_handshake_us : option Z;
  ut_response_headers_ms : option Z;
  ut_first_body_byte_ms : option Z;
  ut_first_token_ms : option Z;
  ut_total_ms : option Z;
  ut_upstream_status : option Z;
  ut_failure_code : option string
}.

Record TrafficUsage := {
  us_model : option string;
  us_input_tokens : option Z;
  us_output_tokens : option Z;
  us_total_tokens : option Z;
  us_estimated_cost_usd : option f64;
  us_cost_source : option string;
  us_pricing_rule_name : option string;
  us_service_version : option string;
  us_trace_id : option string;
  us_task_id : option string;
  us_run_id : option string
}.

Record FallbackAttempt := {
  fa_from_provider : string;
  fa_to_provider : string;
  fa_reason : string;
  fa_status_code : option Z;
  fa_latency_ms : option Z
}.

Record DebugBundle := {
  db_request_id : string;
  db_project_id : option string; (* the text of the identifier *)
  db_route : option Route;
  db_provider : option Provider;
  db_service_name : option string;
  db_trace_id : option string;
  db_policy_trace : list string;
  db_guardrail_trace : list string;
  db_selection_trace : list string;
  db_fallback_history : list FallbackAttempt;
  db_upstream_latency_ms : option Z;
  db_request_hash : option string;
  db_response_hash : option string;
  db_redaction_version : Z;
  db_created_at : Z
}.

Record TrafficRequest := {
  (* handles of the shared cells *)
  monitor_state : nat;
  monitor_sampled_at : nat;
  t_completed_at : option Z;
  t_summary_only : bool;
  t_upstream_timings : list UpstreamTiming;
  t_usage : option TrafficUsage;
  t_debug_bundle : option DebugBundle;
  t_key_prefix : option string;
  t_id : Uuid;
  t_request_id : string;
  t_instance_id : string;
  t_started_at : Z;
  t_elapsed_ms : Z;
  t_method : string;
  t_endpoint : option string;
  t_service : option string;
  t_provider : option string;
  t_key_id : option Uuid;
  t_project_id : option Uuid;
  t_stage : string;
  t_client_status : option Z;
  t_attempts : Z;
  t_streaming : bool;
  t_completed : bool;
  t_diagnostics : RequestDiagnostics;
  t_timeline : list TrafficStep;
  t_timeline_truncated : bool;
  t_recording_failures : list string
}.

(** [TrafficRequest::default()], given what it draws from the environment:
    fresh cells, a fresh id, the monitor's instance and the clock. *)
Definition TrafficRequest_default (state sampled : nat) (id : Uuid) (instance : string) (now : Z) :
    TrafficRequest :=
  {| monitor_state := state; monitor_sampled_at := sampled; t_completed_at := None;
     t_summary_only := false; t_upstream_timings := []; t_usage := None; t_debug_bundle := None;
     t_key_prefix := None; t_id := id; t_request_id := ""; t_instance_id := instance;
     t_started_at := now; t_elapsed_ms := 0; t_method := ""; t_endpoint := None; t_service := None;
     t_provider := None; t_key_id := None; t_project_id := None; t_stage := "received";
     t_client_status := None; t_attempts := 0; t_streaming := false; t_completed := false;
     t_diagnostics := RequestDiagnostics_default; t_timeline := []; t_timeline_truncated := false;
     t_recording_failures := [] |}.

(** The fields the operations below assign. *)
Definition with_fields (r : TrafficRequest) (stage : string) (elapsed : Z) (d : RequestDiagnostics)
    (timeline : list TrafficStep) (truncated : bool) (failures : list string) : TrafficRequest :=
  {| monitor_state := monitor_state r; monitor_sampled_at := monitor_sampled_at r;
     t_completed_at := t_completed_at r; t_summary_only := t_summary_only r;
     t_upstream_timings := t_upstream_timings r; t_usage := t_usage r;
     t_debug_bundle := t_debug_bundle r; t_key_prefix := t_key_prefix r; t_id := t_id r;
     t_request_id := t_request_id r; t_instance_id := t_instance_id r;
     t_started_at := t_started_at r; t_elapsed_ms := elapsed; t_method := t_method r;
     t_endpoint := t_endpoint r; t_service := t_service r; t_provider := t_provider r;
     t_key_id := t_key_id r; t_project_id := t_project_id r; t_stage := stage;
     t_client_status := t_client_status r; t_attempts := t_attempts r; t_streaming := t_streaming r;
     t_completed := t_completed r; t_diagnostics := d; t_timeline := timeline;
     t_timeline_truncated := truncated; t_recording_failures := failures |}.

Definition protocol (r : TrafficRequest) : string :=
  match d_protocol (t_diagnostics r) with
  | Some "websocket" => "websocket"
  | Some "http" => "http"
  | _ => if is_some (d_websocket (t_diagnostics r)) then "websocket" else "unknown"
  end.

(** [TrafficRequest::step] up to the publication. *)
Definition record_step (r : TrafficRequest) (stage : string) (elapsed : Z) (code : option string) :
    TrafficRequest :=
  let full := Z.of_nat (length (t_timeline r)) =? TIMELINE_CAPACITY in
  (* [Vec::remove(1)] *)
  let timeline := if full then take 1 (t_timeline r) ++ drop 2 (t_timeline r) else t_timeline r in
  with_fields r stage elapsed (t_diagnostics r)
    (timeline ++ [{| st_stage := stage; st_elapsed_ms := elapsed; st_code := code;
                     st_upstream_status := d_upstream_status (t_diagnostics r);
                     st_attempt := t_attempts r |}])
    (t_timeline_truncated r || full) (t_recording_failures r).

Definition fail (r : TrafficRequest) (source code : string) : TrafficRequest :=
  let d := t_diagnostics r in
  if is_none (d_failure_code d) then
    with_fields r (t_stage r) (t_elapsed_ms r)
      {| d_authentication_profile := d_authentication_profile d; d_protocol := d_protocol d;
         d_websocket := d_websocket d; d_entra := d_entra d; d_routing_mode := d_routing_mode d;
         d_traffic_id := d_traffic_id d; d_failure_stage := Some (t_stage r);
         d_failure_code := Some code; d_failure_source := Some source; d_outcome := d_outcome d;
         d_upstream_status := d_upstream_status d; d_instance_id := d_instance_id d |}
      (t_timeline r) (t_timeline_truncated r) (t_recording_failures r)
  else r.

(** [TrafficRequest::recording_failed] up to the publication. *)
Definition record_failed (r : TrafficRequest) (destination : string) : TrafficRequest :=
  if existsb (String.eqb destination) (t_recording_failures r) then r
  else with_fields r (t_stage r) (t_elapsed_ms r) (t_diagnostics r) (t_timeline r)
         (t_timeline_truncated r) (t_recording_failures r ++ [destination]).

(** ** Queries *)

Record TrafficQuery := {
  q_snapshot : option bool;
  q_id : option Uuid;
  q_request_id : option string;
  q_service : option string;
  q_project_id : option Uuid;
  q_key_id : option Uuid;
  q_status : option Z;
  q_failures_only : option bool;
  q_failure_code : option string;
  q_from : option Z;
  q_to : option Z;
  q_before : option Z;
  q_before_id : option Uuid;
  q_limit : option Z;
  q_time_basis : option string;
  q_protocol : option string
}.
Definition TrafficQuery_default : TrafficQuery :=
  {| q_snapshot := None; q_id := None; q_request_id := None; q_service := None;
     q_project_id := None; q_key_id := None; q_status := None; q_failures_only := None;
     q_failure_code := None; q_from := None; q_to := None; q_before := None; q_before_id := None;
     q_limit := None; q_time_basis := None; q_protocol := None |}.

Definition zip_opt {A B} (a : option A) (b : option B) : option (A * B) :=
  match a, b with Some a, Some b => Some (a, b) | _, _ => None end.

Definition one_of (values : list string) (v : string) : bool := existsb (String.eqb v) values.

Definition query_validate (q : TrafficQuery) : GatewayResult unit :=
  if is_some_and (λ v, negb (in_range 1 200 v)) (q_limit q)
     || is_some_and (λ v, negb (in_range 100 599 v)) (q_status q)
     || is_some_and (λ '(from, to), to <? from) (zip_opt (q_from q) (q_to q))
     || negb (Bool.eqb (is_some (q_before q)) (is_some (q_before_id q)))
     || is_some_and (λ v, 128 <? len v) (q_request_id q)
     || is_some_and (λ v, 80 <? len v) (q_failure_code q)
     || is_some_and (λ v, 256 <? len v) (q_service q)
     || is_some_and (λ v, negb (one_of ["started"; "completed"] v)) (q_time_basis q)
     || is_some_and (λ v, negb (one_of ["http"; "websocket"; "unknown"] v)) (q_protocol q)
  then Err InvalidUsageQuery else Ok tt.

Definition some_eqb (v : Z) (o : option Z) : bool := is_some_and (Z.eqb v) o.
Definition some_seqb (v : string) (o : option string) : bool := is_some_and (String.eqb v) o.
(** [<] on pairs of a start time and an id. *)
Definition key_before (a b : Z * Uuid) : bool := (a.1 <? b.1) || ((a.1 =? b.1) && (a.2 <? b.2)).
Definition row_key (r : TrafficRequest) : Z * Uuid := (t_started_at r, t_id r).

Definition matches_active (q : TrafficQuery) (row : TrafficRequest) : bool :=
  is_none_or (λ v, v =? t_id row) (q_id q)
  && is_none_or (λ v, contains_str (t_request_id row) v) (q_request_id q)
  && is_none_or (λ v, some_seqb v (t_service row)) (q_service q)
  && is_none_or (λ v, some_eqb v (t_project_id row)) (q_project_id q)
  && is_none_or (λ v, some_eqb v (t_key_id row)) (q_key_id q)
  && is_none_or (λ v, some_eqb v (t_client_status row)) (q_status q)
  && is_none_or (λ v, some_seqb v (d_failure_code (t_diagnostics row))) (q_failure_code q)
  && (negb (is_some_and (Bool.eqb true) (q_failures_only q))
      || is_some (d_failure_code (t_diagnostics row)))
  && is_none_or (λ v, String.eqb (protocol row) v) (q_protocol q)
  && is_none_or (λ v, v <=? t_started_at row) (q_from q)
  && is_none_or (λ v, t_started_at row <=? v) (q_to q)
  && is_none_or (λ v, key_before (row_key row) v) (zip_opt (q_before q) (q_before_id q)).

Definition has_row_filters (q : TrafficQuery) : bool :=
  is_some (q_id q) || is_some (q_request_id q) || is_some (q_service q) || is_some (q_project_id q)
  || is_some (q_key_id q) || is_some (q_status q) || is_some (q_failure_code q)
  || is_some_and (Bool.eqb true) (q_failures_only q) || is_some (q_from q) || is_some (q_to q)
  || is_some (q_before q).

(** ** The registry projection *)

Definition bounded (s : string) : string := take_chars 256 s.
Definition optional (s : option string) : option string := bounded <$> s.

Definition project_socket (w : WebSocketDiagnostics) : WebSocketDiagnostics :=
  {| ws_state := bounded (ws_state w); ws_app := optional (ws_app w);
     ws_channel := bounded (ws_channel w); ws_opened_at := ws_opened_at w;
     ws_observed_at := ws_observed_at w; ws_closed_at := ws_closed_at w;
     ws_duration_ms := ws_duration_ms w; ws_client_bytes := ws_client_bytes w;
     ws_upstream_bytes := ws_upstream_bytes w; ws_client_frames := ws_client_frames w;
     ws_upstream_frames := ws_upstream_frames w; ws_client_close_frame := ws_client_close_frame w;
     ws_upstream_close_frame := ws_upstream_close_frame w;
     ws_last_client_activity_at := ws_last_client_activity_at w;
     ws_last_upstream_activity_at := ws_last_upstream_activity_at w;
     ws_idle_timeout_ms := ws_idle_timeout_ms w; ws_session_expires_at := ws_session_expires_at w;
     ws_max_frame_bytes := ws_max_frame_bytes w; ws_close_cause := optional (ws_close_cause w) |}.

Definition active_projection (r : TrafficRequest) : TrafficRequest :=
  let d := t_diagnostics r in
  {| monitor_state := monitor_state r; monitor_sampled_at := monitor_sampled_at r;
     t_completed_at := t_completed_at r; t_summary_only := true; t_upstream_timings := [];
     t_usage := None; t_debug_bundle := None; t_key_prefix := optional (t_key_prefix r);
     t_id := t_id r; t_request_id := bounded (t_request_id r);
     t_instance_id := bounded (t_instance_id r); t_started_at := t_started_at r;
     t_elapsed_ms := t_elapsed_ms r; t_method := bounded (t_method r);
     t_endpoint := optional (t_endpoint r); t_service := optional (t_service r);
     t_provider := optional (t_provider r); t_key_id := t_key_id r; t_project_id := t_project_id r;
     t_stage := bounded (t_stage r); t_client_status := t_client_status r;
     t_attempts := t_attempts r; t_streaming := t_streaming r; t_completed := t_completed r;
     t_diagnostics :=
       {| d_authentication_profile := None; d_protocol := optional (d_protocol d);
          d_websocket := project_socket <$> d_websocket d; d_entra := None;
          d_routing_mode := optional (d_routing_mode d); d_traffic_id := d_traffic_id d;
          d_failure_stage := optional (d_failure_stage d);
          d_failure_code := optional (d_failure_code d);
          d_failure_source := optional (d_failure_source d); d_outcome := optional (d_outcome d);
          d_upstream_status := d_upstream_status d;
          d_instance_id := Some (bounded (t_instance_id r)) |};
     t_timeline := []; t_timeline_truncated := t_timeline_truncated r;
     t_recording_failures := map bounded (take 3 (t_recording_failures r)) |}.

Definition socket_progress (target source : WebSocketDiagnostics) : WebSocketDiagnostics :=
  {| ws_state := ws_state target; ws_app := ws_app target; ws_channel := ws_channel target;
     ws_opened_at := ws_opened_at target; ws_observed_at := ws_observed_at source;
     ws_closed_at := ws_closed_at target; ws_duration_ms := ws_duration_ms source;
     ws_client_bytes := ws_client_bytes source; ws_upstream_bytes := ws_upstream_bytes source;
     ws_client_frames := ws_client_frames source; ws_upstream_frames := ws_upstream_frames source;
     ws_client_close_frame := ws_client_close_frame source;
     ws_upstream_close_frame := ws_upstream_close_frame source;
     ws_last_client_activity_at := ws_last_client_activity_at source;
     ws_last_upstream_activity_at := ws_last_upstream_activity_at source;
     ws_idle_timeout_ms := ws_idle_timeout_ms target;
     ws_session_expires_at := ws_session_expires_at target;
     ws_max_frame_bytes := ws_max_frame_bytes target; ws_close_cause := ws_close_cause target |}.

Definition set_websocket (w : option WebSocketDiagnostics) (d : RequestDiagnostics) : RequestDiagnostics :=
  {| d_authentication_profile := d_authentication_profile d; d_protocol := d_protocol d;
     d_websocket := w; d_entra := d_entra d; d_routing_mode := d_routing_mode d;
     d_traffic_id := d_traffic_id d; d_failure_stage := d_failure_stage d;
     d_failure_code := d_failure_code d; d_failure_source := d_failure_source d;
     d_outcome := d_outcome d; d_upstream_status := d_upstream_status d;
     d_instance_id := d_instance_id d |}.

Definition coalesce_socket_progress (target source : TrafficRequest) : TrafficRequest :=
  let d := t_diagnostics target in
  let d := match zip_opt (d_websocket d) (d_websocket (t_diagnostics source)) with
           | Some (t, s) => set_websocket (Some (socket_progress t s)) d
           | None => d
           end in
  with_fields target (t_stage target) (t_elapsed_ms source) d (t_timeline target)
    (t_timeline_truncated target) (t_recording_failures target).

Definition correlation_byte (c : ascii) : bool :=
  is_ascii_alphanumeric c || existsb (Ascii.eqb c) ["-"; "_"; "."; ":"]%char.
(** [correlation_id]; [fresh] is the UUID drawn when the header is unusable. *)
Definition correlation_id (value : option string) (fresh : string) : string :=
  match value with
  | Some v => if negb (is_empty v) && (len v <=? 128) && all_bytes correlation_byte v then v else fresh
  | None => fresh
  end.

(** ** The timeline keeps the arrival and the most recent steps *)

Definition keep_timeline (history : list TrafficStep) : list TrafficStep :=
  if Z.of_nat (length history) <=? TIMELINE_CAPACITY then history
  else take 1 history ++ drop (length history - 31) history.

Lemma keep_timeline_length h :
  Z.of_nat (length (keep_timeline h)) = Z.min TIMELINE_CAPACITY (Z.of_nat (length h)).
Proof.
  unfold keep_timeline, TIMELINE_CAPACITY. destruct (Z.leb_spec (Z.of_nat (length h)) 32); [lia|].
  rewrite length_app, length_take, length_drop. lia.
Qed.

Lemma keep_timeline_snoc h s :
  (if Z.of_nat (length (keep_timeline h)) =? TIMELINE_CAPACITY
   then take 1 (keep_timeline h) ++ drop 2 (keep_timeline h) else keep_timeline h) ++ [s] =
  keep_timeline (h ++ [s]).
Proof.
  rewrite keep_timeline_length. unfold keep_timeline, TIMELINE_CAPACITY. rewrite length_app. simpl.
  destruct (Z.leb_spec (Z.of_nat (length h)) 32) as [Hle|Hgt].
  - destruct (Z.eqb_spec (Z.min 32 (Z.of_nat (length h))) 32) as [E|E].
    + destruct (Z.leb_spec (Z.of_nat (length h + 1)) 32); [lia|].
      rewrite take_app_le by lia. replace (length h + 1 - 31)%nat with 2%nat by lia.
      rewrite drop_app_le by lia. by rewrite app_assoc.
    + destruct (Z.leb_spec (Z.of_nat (length h + 1)) 32); [done|lia].
  - destruct (Z.eqb_spec (Z.min 32 (Z.of_nat (length h))) 32); [|lia].
    destruct (Z.leb_spec (Z.of_nat (length h + 1)) 32); [lia|].
    destruct h as [|a h]; [simpl in Hgt; lia|]. cbn [length] in *.
    replace (S (length h) - 31)%nat with (S (length h - 31)) by lia.
    replace (S (length h) + 1 - 31)%nat with (S (S (length h - 31))) by lia.
    change (a :: drop 1 (drop (length h - 31) h) ++ [s] = a :: drop (S (length h - 31)) (h ++ [s])).
    rewrite drop_drop, drop_app_le by lia. do 3 f_equal. lia.
Qed.

(** A record whose timeline is what is kept of a history of steps still keeps
    it after one more step: the first step and the last 31 of them, flagged
    as truncated exactly when something was dropped. *)
Theorem timeline_keeps r history stage elapsed code :
  t_timeline r = keep_timeline history →
  t_timeline_truncated r = (TIMELINE_CAPACITY <? Z.of_nat (length history)) →
  let r' := record_step r stage elapsed code in
  ∃ s, st_stage s = stage ∧ st_elapsed_ms s = elapsed ∧ st_code s = code ∧
    t_timeline r' = keep_timeline (history ++ [s]) ∧
    t_timeline_truncated r' = (TIMELINE_CAPACITY <? Z.of_nat (length (history ++ [s]))) ∧
    Z.of_nat (length (t_timeline r')) ≤ TIMELINE_CAPACITY.
Proof.
  intros Ht Htr. unfold record_step. rewrite Ht, Htr. cbn [t_timeline t_timeline_truncated with_fields].
  eexists (Build_TrafficStep stage elapsed code _ _). split_and!; [reflexivity..| | |].
  - apply keep_timeline_snoc.
  - rewrite keep_timeline_length, length_app. unfold TIMELINE_CAPACITY. simpl.
    destruct (Z.eqb_spec (Z.min 32 (Z.of_nat (length history))) 32);
      destruct (Z.ltb_spec 32 (Z.of_nat (length history)));
      destruct (Z.ltb_spec 32 (Z.of_nat (length history + 1))); simpl; lia || done.
  - rewrite keep_timeline_snoc, keep_timeline_length. lia.
Qed.

Lemma timeline_keeps_witness :
  let r := TrafficRequest_default 0 0 7 "gw" 100 in
  t_timeline (record_step r "received" 0 None) =
    [{| st_stage := "received"; st_elapsed_ms := 0; st_code := None; st_upstream_status := None;
        st_attempt := 0 |}] ∧
  ∃ s, t_timeline (record_step r "received" 0 None) = keep_timeline [s].
Proof.
  intros r. split; [reflexivity|].
  destruct (timeline_keeps r [] "received" 0 None) as (s & _ & _ & _ & H & _); [reflexivity..|].
  by exists s.
Defined.
