(* ===== verification/TrafficMonitor.v ===== *)
(** * The traffic monitor

    Models the state machine of [crates/gateway-core/src/traffic.rs]: the
    journal that readers poll with a cursor, the coalesced socket samples and
    the bounded registry of active requests.  Every operation holds the
    monitor's mutex from start to end, so a run of the gateway is a sequence
    of whole operations.  The lifecycle marker and the sampling time of a
    request live in cells its clones share; they are only touched under the
    mutex.  The size of a row's JSON is a parameter, the clock is read once
    per operation, and the iteration order of a hash map is an argument. *)

From S2P Require Import Prelude TrafficRequest.

Definition JOURNAL_CAPACITY : Z := 512.
Definition ACTIVE_RECORD_LIMIT : Z := 2048.
Definition ACTIVE_BYTE_LIMIT : Z := 2 * 1024 * 1024.
Definition SOCKET_SAMPLE_INTERVAL : Z := 500.
Definition SOCKET_PROGRESS_RESERVE : Z := 512.

Record TrafficCoverage := {
  cov_total : Z;
  cov_retained : Z;
  cov_retained_bytes : Z;
  cov_record_limit : Z;
  cov_byte_limit : Z;
  cov_saturated : bool;
  cov_matching : option Z
}.

Record TrafficActiveCounts := { count_http : Z; count_websocket : Z }.

Record TrafficSummarySnapshot := {
  sum_instance_id : string;
  sum_sampled_at : Z;
  sum_counts : TrafficActiveCounts;
  sum_http : TrafficCoverage;
  sum_websocket : TrafficCoverage
}.

Record TrafficActiveSnapshot := {
  snap_summary : TrafficSummarySnapshot;
  snap_rows : list TrafficRequest;
  snap_has_more : bool;
  snap_truncated : bool
}.

Record ActivePartition := {
  rows : gmap Z (TrafficRequest * Z);
  bytes : Z;
  total : Z;
  record_limit : Z;
  byte_limit : Z
}.
Definition partition_new (records bytes : Z) : ActivePartition :=
  {| rows := ∅; bytes := 0; total := 0; record_limit := records; byte_limit := bytes |}.
Definition set_rows (m : gmap Z (TrafficRequest * Z)) (b : Z) (p : ActivePartition) : ActivePartition :=
  {| rows := m; bytes := b; total := total p; record_limit := record_limit p; byte_limit := byte_limit p |}.
Definition set_total (n : Z) (p : ActivePartition) : ActivePartition :=
  {| rows := rows p; bytes := bytes p; total := n; record_limit := record_limit p; byte_limit := byte_limit p |}.

Definition partition_remove (id : Uuid) (p : ActivePartition) : ActivePartition :=
  match rows p !! id with
  | Some (_, size) => set_rows (delete id (rows p)) (saturating_sub (bytes p) size) p
  | None => p
  end.

Definition coverage (p : ActivePartition) : TrafficCoverage :=
  {| cov_total := total p; cov_retained := Z.of_nat (size (rows p)); cov_retained_bytes := bytes p;
     cov_record_limit := record_limit p; cov_byte_limit := byte_limit p;
     cov_saturated := Z.of_nat (size (rows p)) <? total p; cov_matching := Some (total p) |}.

Record MonitorState := {
  sequence : Z;
  journal : list (Z * TrafficRequest);
  socket_updates : gmap Z (Z * TrafficRequest);
  http : ActivePartition;
  websocket : ActivePartition
}.
(** The monitor and the cells shared by the clones of each request: the
    lifecycle marker and the time of the last socket sample. *)
Record World := {
  monitor : MonitorState;
  lifecycle : gmap nat Z;
  sampled : gmap nat Z
}.

Definition set_partitions (h w : ActivePartition) (m : MonitorState) : MonitorState :=
  {| sequence := sequence m; journal := journal m; socket_updates := socket_updates m;
     http := h; websocket := w |}.
Definition set_updates (u : gmap Z (Z * TrafficRequest)) (m : MonitorState) : MonitorState :=
  {| sequence := sequence m; journal := journal m; socket_updates := u;
     http := http m; websocket := websocket m |}.
Definition set_monitor (m : MonitorState) (w : World) : World :=
  {| monitor := m; lifecycle := lifecycle w; sampled := sampled w |}.

(** A fresh [AtomicU8] is 0. *)
Definition load (w : World) (cell : nat) : Z := default 0 (lifecycle w !! cell).
Definition store (cell : nat) (v : Z) (w : World) : World :=
  {| monitor := monitor w; lifecycle := <[cell := v]> (lifecycle w); sampled := sampled w |}.

(** [TrafficMonitor::new]. *)
Definition monitor_new : World :=
  {| monitor := {| sequence := 0; journal := []; socket_updates := ∅;
                   http := partition_new ACTIVE_RECORD_LIMIT ACTIVE_BYTE_LIMIT;
                   websocket := partition_new ACTIVE_RECORD_LIMIT ACTIVE_BYTE_LIMIT |};
     lifecycle := ∅; sampled := ∅ |}.

Section monitor.
(** [serde_json::to_vec(&row)], its length. *)
Variable json_len : TrafficRequest → option Z.
(** [TrafficMonitor::capacity] and [instance_id]. *)
Variable capacity : Z.
Variable instance_id : string.

Definition row_size (row : TrafficRequest) : Z :=
  saturating_add (default usize_max (json_len row))
    (if is_some (d_websocket (t_diagnostics row)) then SOCKET_PROGRESS_RESERVE else 0).

Definition partition_update (r : TrafficRequest) (p : ActivePartition) : ActivePartition :=
  let row := active_projection r in
  let sz := row_size row in
  let previous := match rows p !! t_id row with Some (_, s) => s | None => 0 end in
  if (is_some (rows p !! t_id row) || (Z.of_nat (size (rows p)) <? record_limit p))
     && (saturating_add (saturating_sub (bytes p) previous) sz <=? byte_limit p)
  then set_rows (<[t_id row := (row, sz)]> (rows p))
         (saturating_add (saturating_sub (bytes p) previous) sz) p
  else partition_remove (t_id r) p.

(** ** Lifecycle *)

Definition protocol_code (r : TrafficRequest) : Z :=
  if String.eqb (protocol r) "websocket" then 2 else 1.

(** The counters of a marker that moves from [previous] to [next]. *)
Definition move_count (code previous next : Z) (p : ActivePartition) : ActivePartition :=
  let p := if previous =? code then set_total (saturating_sub (total p) 1) p else p in
  if next =? code then set_total (saturating_add (total p) 1) p else p.

Definition observe (w : World) (r : TrafficRequest) : World * bool :=
  let previous := load w (monitor_state r) in
  if previous =? 3 then (w, false)
  else
    let code := protocol_code r in
    let next := if t_completed r then 3 else code in
    let h := http (monitor w) in
    let s := websocket (monitor w) in
    let '(h, s, w) :=
      if negb (previous =? next)
      then (move_count 1 previous next h, move_count 2 previous next s, store (monitor_state r) next w)
      else (h, s, w) in
    let h := if t_completed r || negb (code =? 1) then partition_remove (t_id r) h else h in
    let s := if t_completed r || negb (code =? 2) then partition_remove (t_id r) s else s in
    let '(h, s) :=
      if negb (t_completed r)
      then if code =? 2 then (h, partition_update r s) else (partition_update r h, s)
      else (h, s) in
    (set_monitor (set_partitions h s (monitor w)) w, true).

(** [while journal.len() > capacity { journal.pop_front(); }]. *)
Fixpoint pop_excess (j : list (Z * TrafficRequest)) : list (Z * TrafficRequest) :=
  match j with
  | [] => []
  | _ :: rest => if capacity <? Z.of_nat (length j) then pop_excess rest else j
  end.

Definition append (m : MonitorState) (r : TrafficRequest) : MonitorState :=
  let seq := sequence m + 1 in
  {| sequence := seq; journal := pop_excess (journal m ++ [(seq, r)]);
     socket_updates := socket_updates m; http := http m; websocket := websocket m |}.

Definition publish (w : World) (r : TrafficRequest) : World :=
  let w := set_monitor (set_updates (delete (t_id r) (socket_updates (monitor w))) (monitor w)) w in
  let '(w, fresh) := observe w r in
  if negb fresh && negb (t_completed r) then w
  else set_monitor (append (monitor w) r) w.

(** [TrafficRequest::step] and [recording_failed]: update the record, publish a clone. *)
Definition step (w : World) (r : TrafficRequest) (stage : string) (elapsed : Z) (code : option string) :
    World * TrafficRequest :=
  let r := record_step r stage elapsed code in (publish w r, r).
Definition recording_failed (w : World) (r : TrafficRequest) (destination : string) :
    World * TrafficRequest :=
  let r := record_failed r destination in (publish w r, r).

Definition coalesce_row (id : Uuid) (r : TrafficRequest) (p : ActivePartition) : ActivePartition :=
  match rows p !! id with
  | Some (row, size) => set_rows (<[id := (coalesce_socket_progress row r, size)]> (rows p)) (bytes p) p
  | None => p
  end.
Definition coalesce_update (id : Uuid) (r : TrafficRequest) (u : gmap Z (Z * TrafficRequest)) :
    gmap Z (Z * TrafficRequest) :=
  match u !! id with
  | Some (at_, row) => <[id := (at_, coalesce_socket_progress row r)]> u
  | None => u
  end.

Definition publish_socket_progress (w : World) (r : TrafficRequest) (now : Z) : World :=
  if t_completed r || (load w (monitor_state r) =? 3) then w
  else
    let m := monitor w in
    let w := set_monitor (set_updates (coalesce_update (t_id r) r (socket_updates m))
               (set_partitions (http m) (coalesce_row (t_id r) r (websocket m)) m)) w in
    if is_some_and (λ at_, saturating_sub now at_ <? SOCKET_SAMPLE_INTERVAL)
         (sampled w !! monitor_sampled_at r)
    then w
    else
      let w := {| monitor := monitor w; lifecycle := lifecycle w;
                  sampled := <[monitor_sampled_at r := now]> (sampled w) |} in
      let '(w, fresh) := observe w r in
      if negb fresh then w
      else
        let u := socket_updates (monitor w) in
        if (Z.of_nat (size u) <? capacity) || is_some (u !! t_id r)
        then set_monitor (set_updates (<[t_id r := (now, r)]> u) (monitor w)) w
        else w.

(** [Drop for TrafficActiveLease]. *)
Definition drop_active_lease (w : World) (id : Uuid) (cell : nat) : World :=
  let previous := load w cell in
  let w := store cell 3 w in
  let m := monitor w in
  let clean (h s : ActivePartition) :=
    set_monitor
      (set_updates (delete id (socket_updates m))
         (set_partitions (partition_remove id h) (partition_remove id s) m)) w in
  if previous =? 1 then clean (set_total (saturating_sub (total (http m)) 1) (http m)) (websocket m)
  else if previous =? 2 then
    clean (http m) (set_total (saturating_sub (total (websocket m)) 1) (websocket m))
  else w.

(** ** Reading *)

Definition summary_snapshot (w : World) (now : Z) : TrafficSummarySnapshot :=
  let m := monitor w in
  {| sum_instance_id := instance_id; sum_sampled_at := now;
     sum_counts := {| count_http := total (http m); count_websocket := total (websocket m) |};
     sum_http := coverage (http m); sum_websocket := coverage (websocket m) |}.

(** [sort_unstable_by_key(Reverse((started_at, id)))]; keys are distinct. *)
Definition newest_first (a b : TrafficRequest) : Prop := key_before (row_key a) (row_key b) = false.
#[global] Instance newest_first_dec a b : Decision (newest_first a b).
Proof. unfold newest_first. apply _. Defined.

Definition matching_rows (q : TrafficQuery) (p : ActivePartition) : list TrafficRequest :=
  merge_sort newest_first
    (List.filter (matches_active q) (map (λ e, e.2.1) (map_to_list (rows p)))).

Definition with_matching (n : option Z) (c : TrafficCoverage) : TrafficCoverage :=
  {| cov_total := cov_total c; cov_retained := cov_retained c;
     cov_retained_bytes := cov_retained_bytes c; cov_record_limit := cov_record_limit c;
     cov_byte_limit := cov_byte_limit c; cov_saturated := cov_saturated c; cov_matching := n |}.

(** One iteration of the loop over the partitions. *)
Definition partition_coverage (q : TrafficQuery) (name : string) (p : ActivePartition) : TrafficCoverage :=
  let c := coverage p in
  with_matching
    (if has_row_filters q then
       if cov_saturated c then None else Some (Z.of_nat (length (matching_rows q p)))
     else Some (if is_none_or (λ v, String.eqb v name) (q_protocol q) then total p else 0)) c.

Definition active_snapshot_with_limit (w : World) (q : TrafficQuery) (limit now : Z) :
    TrafficActiveSnapshot :=
  let m := monitor w in
  let http_rows := matching_rows q (http m) in
  let socket_rows := matching_rows q (websocket m) in
  let h := partition_coverage q "http" (http m) in
  let s := partition_coverage q "websocket" (websocket m) in
  {| snap_summary :=
       {| sum_instance_id := instance_id; sum_sampled_at := now;
          sum_counts := {| count_http := total (http m); count_websocket := total (websocket m) |};
          sum_http := h; sum_websocket := s |};
     snap_rows := take (Z.to_nat limit) http_rows ++ take (Z.to_nat limit) socket_rows;
     snap_has_more := (limit <? Z.of_nat (length http_rows)) || (limit <? Z.of_nat (length socket_rows));
     snap_truncated := cov_saturated h || cov_saturated s |}.

Definition active_snapshot (w : World) (q : TrafficQuery) (now : Z) : TrafficActiveSnapshot :=
  active_snapshot_with_limit w q (Z.max 1 (Z.min 200 (default 100 (q_limit q)))) now.
Definition publication_snapshot (w : World) (now : Z) : TrafficActiveSnapshot :=
  active_snapshot_with_limit w TrafficQuery_default ACTIVE_RECORD_LIMIT now.

Record TrafficBatch := {
  batch_instance_id : string;
  batch_cursor : string;
  batch_gap : bool;
  batch_evicted_updates : Z;
  batch_rows : list TrafficRequest;
  batch_active : option TrafficActiveSnapshot
}.

(** [str::rsplit_once(c)]. *)
Fixpoint rsplit_once (c : ascii) (s : string) : option (string * string) :=
  match s with
  | EmptyString => None
  | String d s =>
      match rsplit_once c s with
      | Some (a, b) => Some (String d a, b)
      | None => if Ascii.eqb c d then Some (EmptyString, s) else None
      end
  end.
(** [str::parse::<u64>().ok()]: an optional sign, then digits. *)
Definition parse_u64 (s : string) : option Z :=
  let digits := match s with String "+" s' => s' | _ => s end in
  if is_empty digits || negb (all_bytes is_ascii_digit digits) then None
  else let n := digits_value digits 0 in if n <=? u64_max then Some n else None.

Definition cursor_sequence (cursor : option string) : option Z :=
  match cursor ≫= rsplit_once ":" with
  | Some (instance, seq) => if String.eqb instance instance_id then parse_u64 seq else None
  | None => None
  end.

(** [filter(|(seq, request)| *seq > after && seen.insert(request.id))]. *)
Fixpoint unseen (after : Z) (seen : list Uuid) (j : list (Z * TrafficRequest)) : list TrafficRequest :=
  match j with
  | [] => []
  | (seq, r) :: j =>
      if (after <? seq) && negb (existsb (Z.eqb (t_id r)) seen)
      then r :: unseen after (t_id r :: seen) j else unseen after seen j
  end.

(** [batch]; [drained] are the pending samples in the order they are taken
    from the map. *)
Definition batch (w : World) (cursor : option string) (drained : list (Z * (Z * TrafficRequest))) :
    World * TrafficBatch :=
  let m := set_updates ∅ (monitor w) in
  let m := foldl (λ m e, append m e.2.2) m drained in
  let seq := cursor_sequence cursor in
  let oldest := match journal m with (s, _) :: _ => s | [] => sequence m + 1 end in
  let gap := is_some cursor
             && is_none_or (λ s, (saturating_add s 1 <? oldest) || (sequence m <? s)) seq in
  let after := if gap then 0 else default 0 seq in
  (set_monitor m w,
   {| batch_instance_id := instance_id;
      batch_cursor := instance_id +:+ ":" +:+ decimal (sequence m);
      batch_gap := gap; batch_evicted_updates := saturating_sub oldest 1;
      batch_rows := unseen after [] (rev (journal m)); batch_active := None |}).
End monitor.
