(* ===== verification/TrafficRuns.v ===== *)
(** * Runs of the traffic monitor

    What [TrafficMonitor] promises after any sequence of its operations: the
    registry and the journal are bounded, the counts of active requests are
    exact although rows may be missing, no finished request is listed, and a
    reader that polls with its cursor misses nothing without being told. *)

From S2P Require Import Prelude TrafficRequest TrafficMonitor.

(** ** A single partition *)

(** What a partition stores is within its limits and accounted for. *)
Record store_ok (p : ActivePartition) : Prop := {
  so_records : record_limit p = ACTIVE_RECORD_LIMIT;
  so_limit : byte_limit p = ACTIVE_BYTE_LIMIT;
  so_rows : ∀ id row sz, rows p !! id = Some (row, sz) → 0 ≤ sz ∧ t_id row = id;
  so_bytes : bytes p = msum snd (rows p);
  so_bound : bytes p ≤ ACTIVE_BYTE_LIMIT;
  so_count : Z.of_nat (size (rows p)) ≤ ACTIVE_RECORD_LIMIT
}.

Lemma store_ok_new : store_ok (partition_new ACTIVE_RECORD_LIMIT ACTIVE_BYTE_LIMIT).
Proof. by split; simpl; rewrite ?map_size_empty. Qed.

Lemma store_ok_total p n : store_ok p → store_ok (set_total n p).
Proof. intros []. by split. Qed.

Lemma row_sizes_nonneg p : store_ok p → ∀ k v, rows p !! k = Some v → 0 ≤ v.2.
Proof. intros Hp k [row sz] H. by apply (so_rows _ Hp) in H as [? _]. Qed.

Lemma remove_rows id p : rows (partition_remove id p) = delete id (rows p).
Proof.
  unfold partition_remove. destruct (rows p !! id) as [[row sz]|] eqn:E; [done|].
  by rewrite delete_id.
Qed.
Lemma remove_total id p : total (partition_remove id p) = total p.
Proof. unfold partition_remove. by destruct (rows p !! id) as [[]|]. Qed.

Lemma remove_ok id p : store_ok p → store_ok (partition_remove id p).
Proof.
  intros Hp. pose proof (row_sizes_nonneg p Hp) as Hn. unfold partition_remove.
  destruct (rows p !! id) as [[row sz]|] eqn:E; [|done].
  pose proof (msum_le snd (rows p) id _ Hn E) as Hle. pose proof (Hn _ _ E) as H0.
  destruct Hp as [Hr Hl Hrows Hb Hbd Hc]. simpl in *. unfold saturating_sub.
  split; simpl; try done.
  - intros id' row' sz' H. apply lookup_delete_Some in H as [_ H]. by eapply Hrows.
  - rewrite (msum_delete snd _ _ _ E). simpl. lia.
  - lia.
  - rewrite map_size_delete_Some by eauto. lia.
Qed.

Section runs.
Context (json_len : TrafficRequest → option Z) (capacity : Z) (instance_id : string).
Hypothesis json_len_nonneg : ∀ r n, json_len r = Some n → 0 ≤ n.
Hypothesis capacity_pos : 1 ≤ capacity.

Abbreviation partition_update := (partition_update json_len).
Abbreviation observe := (observe json_len).

Lemma row_size_nonneg row : 0 ≤ row_size json_len row.
Proof using json_len_nonneg.
  unfold row_size, saturating_add, usize_max, SOCKET_PROGRESS_RESERVE.
  destruct (json_len row) as [n|] eqn:E; simpl; [apply json_len_nonneg in E|];
    destruct (is_some _); lia.
Qed.

Lemma update_total r p : total (partition_update r p) = total p.
Proof. unfold partition_update. destruct (_ && _); [done|apply remove_total]. Qed.

Lemma update_rows_ne r p id :
  id ≠ t_id r → rows (partition_update r p) !! id = rows p !! id.
Proof.
  intros Hne. unfold partition_update. destruct (_ && _); simpl.
  - by rewrite lookup_insert_ne.
  - rewrite remove_rows. by rewrite lookup_delete_ne.
Qed.

Lemma update_ok r p : store_ok p → store_ok (partition_update r p).
Proof using json_len_nonneg.
  intros Hp. unfold partition_update.
  destruct (_ && _) eqn:Hg; [|by apply remove_ok]. bool_prop.
  pose proof (row_size_nonneg (active_projection r)) as Hs0.
  pose proof (row_sizes_nonneg p Hp) as Hn. pose proof (msum_nonneg snd (rows p) Hn) as Hs.
  destruct Hp as [Hr Hl Hrows Hb Hbd Hc]. simpl in *.
  set (sz := row_size json_len (active_projection r)) in *.
  rewrite Hl in *. assert (ACTIVE_BYTE_LIMIT < usize_max) by done.
  destruct (rows p !! t_id r) as [[row0 s0]|] eqn:E.
  - pose proof (msum_le snd (rows p) (t_id r) _ Hn E) as Hle. pose proof (Hn _ _ E) as Hs1. simpl in *.
    unfold saturating_add, saturating_sub in *.
    split; simpl; try done; try lia.
    + intros id row sz' H'. apply lookup_insert_Some in H' as [[<- [= <- <-]]|[_ H']]; [done|by eapply Hrows].
    + rewrite (msum_update snd _ _ _ _ E). simpl. lia.
    + by rewrite map_size_insert_Some by eauto.
  - simpl in *. bool_prop. unfold saturating_add, saturating_sub in *.
    split; simpl; try done; try lia.
    + intros id row sz' H'. apply lookup_insert_Some in H' as [[<- [= <- <-]]|[_ H']]; [done|by eapply Hrows].
    + rewrite (msum_insert snd _ _ _ E). simpl. lia.
    + rewrite map_size_insert_None by done. lia.
Qed.

Lemma coalesce_ok id r p : store_ok p → store_ok (coalesce_row id r p).
Proof.
  intros Hp. pose proof (row_sizes_nonneg p Hp) as Hn. unfold coalesce_row.
  destruct (rows p !! id) as [[row sz]|] eqn:E; [|done]. pose proof (Hn _ _ E) as H0.
  destruct Hp as [Hr Hl Hrows Hb Hbd Hc]. split; simpl; try done.
  - intros id' row' sz' H'. apply lookup_insert_Some in H' as [[<- [= <- <-]]|[_ H']]; [|by eapply Hrows].
    simpl in *. split; [done|]. by apply Hrows in E as [_ ?].
  - rewrite (msum_update snd _ _ _ _ E). simpl. lia.
  - by rewrite map_size_insert_Some by eauto.
Qed.
Lemma coalesce_dom id r p id' :
  is_Some (rows (coalesce_row id r p) !! id') ↔ is_Some (rows p !! id').
Proof.
  unfold coalesce_row. destruct (rows p !! id) as [[row sz]|] eqn:E; [|done]. simpl.
  destruct (decide (id' = id)) as [->|]; [|by rewrite lookup_insert_ne].
  rewrite lookup_insert_eq, E. split; eauto.
Qed.

(** ** Counting lifecycle markers *)

Definition indicator (code v : Z) : Z := if v =? code then 1 else 0.
(** How many requests are in state [code]. *)
Definition active_count (code : Z) (life : gmap nat Z) : Z := msum (indicator code) life.

Lemma count_store code life c v :
  code ≠ 0 →
  active_count code (<[c := v]> life) =
  active_count code life - indicator code (default 0 (life !! c)) + indicator code v.
Proof.
  intros H0. unfold active_count. destruct (life !! c) as [u|] eqn:E; simpl.
  - by rewrite (msum_update _ _ _ _ _ E).
  - rewrite msum_insert by done. assert (indicator code 0 = 0) as ->; [|lia].
    unfold indicator. by destruct (Z.eqb_spec 0 code).
Qed.

Lemma count_le_size code life : active_count code life ≤ Z.of_nat (size life).
Proof.
  unfold active_count. rewrite <- msum_const. apply msum_mono. intros k v _.
  unfold indicator. destruct (v =? code); lia.
Qed.
Lemma count_nonneg code life : 0 ≤ active_count code life.
Proof.
  apply msum_nonneg. intros k v _. unfold indicator. destruct (v =? code); lia.
Qed.
Lemma count_pos code life c :
  code ≠ 0 → default 0 (life !! c) = code → 1 ≤ active_count code life.
Proof.
  intros H0 H. destruct (life !! c) as [u|] eqn:E; simpl in H; [|congruence]. subst u.
  unfold active_count. transitivity (indicator code code); [unfold indicator; by rewrite Z.eqb_refl|].
  apply (msum_le (indicator code) life c); [|done].
  intros k v _. unfold indicator. destruct (v =? code); lia.
Qed.

Lemma move_count_total code previous next p life c :
  code ≠ 0 → previous ≠ next → default 0 (life !! c) = previous → total p = active_count code life →
  Z.of_nat (size (<[c := next]> life)) ≤ u64_max →
  total (move_count code previous next p) = active_count code (<[c := next]> life).
Proof.
  intros H0 Hne Hp Ht Hsz. pose proof (count_le_size code (<[c := next]> life)) as Hle.
  rewrite count_store in * by done. rewrite Hp in *.
  assert (previous = code → 1 ≤ active_count code life) as Hpos by (intros <-; by eapply count_pos).
  pose proof (count_nonneg code life).
  unfold move_count, indicator in *. unfold u64_max, saturating_add, saturating_sub, usize_max in *.
  destruct (Z.eqb_spec previous code), (Z.eqb_spec next code); simpl; rewrite ?Ht; try lia.
Qed.

Lemma move_count_rows code previous next p : rows (move_count code previous next p) = rows p.
Proof. unfold move_count. by destruct (_ =? _), (_ =? _). Qed.
Lemma move_count_ok code previous next p : store_ok p → store_ok (move_count code previous next p).
Proof. intros Hp. unfold move_count. by destruct (_ =? _), (_ =? _); repeat apply store_ok_total. Qed.

(** ** The registry *)

(** The cell of a request's marker; distinct requests have distinct ids. *)
Context (cell_of : Z → nat) `{!Inj (=) (=) cell_of}.

Definition state_of (life : gmap nat Z) (id : Z) : Z := default 0 (life !! cell_of id).

Record part_ok (life : gmap nat Z) (code : Z) (p : ActivePartition) : Prop := {
  pt_store : store_ok p;
  pt_live : ∀ id, is_Some (rows p !! id) → state_of life id = code;
  pt_total : total p = active_count code life
}.

Definition updates_ok (life : gmap nat Z) (u : gmap Z (Z * TrafficRequest)) : Prop :=
  Z.of_nat (size u) ≤ capacity ∧
  ∀ id e, u !! id = Some e → t_id e.2 = id ∧ (state_of life id = 1 ∨ state_of life id = 2).

Record registry_ok (w : World) : Prop := {
  ro_http : part_ok (lifecycle w) 1 (http (monitor w));
  ro_websocket : part_ok (lifecycle w) 2 (websocket (monitor w));
  ro_updates : updates_ok (lifecycle w) (socket_updates (monitor w))
}.

Lemma state_store life id v id' :
  state_of (<[cell_of id := v]> life) id' = if decide (id' = id) then v else state_of life id'.
Proof using Inj0.
  unfold state_of. case_decide as E; [by subst; rewrite lookup_insert_eq|].
  rewrite lookup_insert_ne; [done|]. intros H. apply (inj cell_of) in H. congruence.
Qed.

(** A partition after the marker of [id] moved to [next] and its rows were
    removed or updated accordingly. *)
Lemma part_moved life code p p' id previous next :
  code ≠ 0 → part_ok life code p → previous ≠ 3 →
  state_of life id = previous →
  Z.of_nat (size (<[cell_of id := next]> life)) ≤ u64_max →
  total p' = total (if previous =? next then p else move_count code previous next p) →
  store_ok p' →
  (∀ id', id' ≠ id → rows p' !! id' = rows p !! id') →
  (is_Some (rows p' !! id) → next = code) →
  (previous = next → life !! cell_of id = Some next) →
  part_ok (<[cell_of id := next]> life) code p'.
Proof using Inj0.
  intros H0 [Hst Hlive Ht] H3 Hs Hsz Htot Hst' Hother Hself Hsame. split; [done| |].
  - intros id' Hid'. rewrite state_store. case_decide as E; [subst; auto|].
    rewrite Hother in Hid' by done. auto.
  - rewrite Htot. destruct (Z.eqb_spec previous next) as [E|E].
    + rewrite insert_id by auto. done.
    + by apply move_count_total.
Qed.

Definition next_state (r : TrafficRequest) : Z := if t_completed r then 3 else protocol_code r.

Lemma protocol_code_cases r : protocol_code r = 1 ∨ protocol_code r = 2.
Proof. unfold protocol_code. destruct (String.eqb _ _); [by right|by left]. Qed.
Lemma next_state_pos r : next_state r ≠ 0.
Proof. unfold next_state. destruct (t_completed r); [done|]. by destruct (protocol_code_cases r) as [->| ->]. Qed.

(** What an observation does to each partition. *)
Definition observed_http (r : TrafficRequest) (h : ActivePartition) : ActivePartition :=
  let h := if t_completed r || negb (protocol_code r =? 1) then partition_remove (t_id r) h else h in
  if negb (t_completed r) && negb (protocol_code r =? 2) then partition_update r h else h.
Definition observed_websocket (r : TrafficRequest) (s : ActivePartition) : ActivePartition :=
  let s := if t_completed r || negb (protocol_code r =? 2) then partition_remove (t_id r) s else s in
  if negb (t_completed r) && (protocol_code r =? 2) then partition_update r s else s.

Definition moved (w : World) (r : TrafficRequest) (code : Z) (p : ActivePartition) : ActivePartition :=
  let previous := load w (monitor_state r) in
  if previous =? next_state r then p else move_count code previous (next_state r) p.

Lemma observe_eq w r :
  load w (monitor_state r) ≠ 3 →
  observe w r =
  ({| monitor := set_partitions (observed_http r (moved w r 1 (http (monitor w))))
                   (observed_websocket r (moved w r 2 (websocket (monitor w)))) (monitor w);
      lifecycle := <[monitor_state r := next_state r]> (lifecycle w); sampled := sampled w |}, true).
Proof.
  intros H3. unfold observe, moved, observed_http, observed_websocket. fold (next_state r).
  apply Z.eqb_neq in H3. rewrite H3.
  destruct (Z.eqb_spec (load w (monitor_state r)) (next_state r)) as [E|E]; cbn [negb].
  - assert (<[monitor_state r := next_state r]> (lifecycle w) = lifecycle w) as ->.
    { apply insert_id. unfold load in E. pose proof (next_state_pos r).
      destruct (lifecycle w !! monitor_state r) as [v|]; simpl in E; congruence. }
    destruct (t_completed r), (protocol_code r =? 2); reflexivity.
  - destruct (t_completed r), (protocol_code r =? 2); reflexivity.
Qed.

Lemma observe_gone w r : load w (monitor_state r) = 3 → observe w r = (w, false).
Proof. intros H3. unfold observe. by rewrite H3. Qed.

Lemma observed_http_ok r h : store_ok h → store_ok (observed_http r h).
Proof using json_len_nonneg.
  intros H. unfold observed_http.
  destruct (t_completed r || _), (negb (t_completed r) && _); auto using remove_ok, update_ok.
Qed.
Lemma observed_websocket_ok r s : store_ok s → store_ok (observed_websocket r s).
Proof using json_len_nonneg.
  intros H. unfold observed_websocket.
  destruct (t_completed r || _), (negb (t_completed r) && _); auto using remove_ok, update_ok.
Qed.
Lemma observed_totals r p :
  total (observed_http r p) = total p ∧ total (observed_websocket r p) = total p.
Proof.
  unfold observed_http, observed_websocket. split;
    destruct (t_completed r || _), (negb (t_completed r) && _);
    by rewrite ?update_total, ?remove_total.
Qed.
Lemma observed_rows_ne r p id :
  id ≠ t_id r →
  rows (observed_http r p) !! id = rows p !! id ∧ rows (observed_websocket r p) !! id = rows p !! id.
Proof.
  intros Hne. unfold observed_http, observed_websocket. split;
    destruct (t_completed r || _), (negb (t_completed r) && _);
    rewrite ?update_rows_ne, ?remove_rows, ?lookup_delete_ne by done; done.
Qed.
Lemma observed_rows_self r p :
  (is_Some (rows (observed_http r p) !! t_id r) → next_state r = 1) ∧
  (is_Some (rows (observed_websocket r p) !! t_id r) → next_state r = 2).
Proof.
  unfold observed_http, observed_websocket, next_state. split; intros Hs;
    destruct (t_completed r), (protocol_code_cases r) as [E|E]; rewrite E in *; simpl in *; try done;
    rewrite remove_rows, lookup_delete_eq in Hs; by destruct Hs.
Qed.

Lemma moved_rows w r code p : rows (moved w r code p) = rows p.
Proof. unfold moved. destruct (_ =? _); [done|apply move_count_rows]. Qed.

Lemma part_observed w r code p f :
  code ≠ 0 → monitor_state r = cell_of (t_id r) → load w (monitor_state r) ≠ 3 →
  Z.of_nat (size (<[monitor_state r := next_state r]> (lifecycle w))) ≤ u64_max →
  part_ok (lifecycle w) code p →
  (∀ p, store_ok p → store_ok (f p)) → (∀ p, total (f p) = total p) →
  (∀ p id, id ≠ t_id r → rows (f p) !! id = rows p !! id) →
  (∀ p, is_Some (rows (f p) !! t_id r) → next_state r = code) →
  part_ok (<[monitor_state r := next_state r]> (lifecycle w)) code (f (moved w r code p)).
Proof using Inj0.
  intros H0 Hcell H3 Hsz Hp Hst Ht Hne Hself. rewrite Hcell in *.
  eapply (part_moved _ _ p); [done|done|exact H3|reflexivity|done| | | |by apply Hself|].
  - rewrite Ht. unfold moved. by rewrite Hcell.
  - apply Hst. unfold moved. destruct (_ =? _); [apply Hp|apply move_count_ok, Hp].
  - intros id Hid. rewrite Hne by done. by rewrite moved_rows.
  - intros E. pose proof (next_state_pos r) as Hpos. unfold load in E.
    destruct (lifecycle w !! cell_of (t_id r)) as [v|]; simpl in E; congruence.
Qed.

Lemma updates_moved life u id v :
  updates_ok life u → (is_Some (u !! id) → v = 1 ∨ v = 2) →
  updates_ok (<[cell_of id := v]> life) u.
Proof using Inj0.
  intros [Hsz Hu] Hv. split; [done|]. intros id' e He. rewrite state_store.
  destruct (Hu _ _ He) as [? ?]. case_decide; [subst; eauto|done].
Qed.

Lemma observe_ok w r w' fresh :
  registry_ok w → monitor_state r = cell_of (t_id r) →
  (t_completed r = true → socket_updates (monitor w) !! t_id r = None) →
  observe w r = (w', fresh) → Z.of_nat (size (lifecycle w')) ≤ u64_max → registry_ok w'.
Proof using Inj0 json_len_nonneg.
  intros [Hh Hs Hu] Hcell Hpend H Hsz.
  destruct (decide (load w (monitor_state r) = 3)) as [H3|H3].
  { rewrite observe_gone in H by done. injection H as <- <-. by split. }
  rewrite observe_eq in H by done. injection H as <- <-. simpl in *. split; simpl.
  - apply part_observed; [done..| | | |].
    + apply observed_http_ok.
    + apply observed_totals.
    + intros p id Hid. by apply observed_rows_ne.
    + apply observed_rows_self.
  - apply part_observed; [done..| | | |].
    + apply observed_websocket_ok.
    + apply observed_totals.
    + intros p id Hid. by apply observed_rows_ne.
    + apply observed_rows_self.
  - rewrite Hcell. apply updates_moved; [done|]. intros Hid. unfold next_state.
    destruct (t_completed r); [|apply protocol_code_cases].
    rewrite Hpend in Hid by done. by destruct Hid.
Qed.

(** ** Runs *)

(** The publications that enter the journal. *)
Definition recorded (w : World) (r : TrafficRequest) : list TrafficRequest :=
  if negb (load w (monitor_state r) =? 3) || t_completed r then [r] else [].

(** A run of the monitor, with everything that entered its journal so far. *)
Inductive run : World → list TrafficRequest → Prop :=
| run_new : run monitor_new []
| run_publish w h r :
    run w h → monitor_state r = cell_of (t_id r) →
    run (publish json_len capacity w r) (h ++ recorded w r)
| run_progress w h r now :
    run w h → monitor_state r = cell_of (t_id r) →
    run (publish_socket_progress json_len capacity w r now) h
| run_drop w h id :
    run w h → run (drop_active_lease w id (cell_of id)) h
| run_batch w h cursor drained :
    run w h → drained ≡ₚ map_to_list (socket_updates (monitor w)) →
    run (batch capacity instance_id w cursor drained).1 (h ++ map (λ e, e.2.2) drained).

Lemma publish_ok w r :
  registry_ok w → monitor_state r = cell_of (t_id r) →
  Z.of_nat (size (lifecycle (publish json_len capacity w r))) ≤ u64_max →
  registry_ok (publish json_len capacity w r).
Proof using Inj0 json_len_nonneg capacity_pos.
  intros [Hh Hs [Hc Hu]] Hcell. unfold publish.
  set (w1 := set_monitor _ w).
  assert (registry_ok w1) as Hw1.
  { split; [done|done|]. simpl. split.
    - pose proof (map_size_delete (t_id r) (socket_updates (monitor w))) as E.
      destruct (socket_updates (monitor w) !! t_id r); simpl in E; lia.
    - intros id e He. apply lookup_delete_Some in He as [_ He]. by apply Hu. }
  destruct (observe w1 r) as [w2 fresh] eqn:E. intros Hsz.
  assert (registry_ok w2) as [Hh2 Hs2 Hu2].
  { eapply observe_ok; [exact Hw1|done| |exact E|by destruct (negb fresh && _)].
    intros _. simpl. apply lookup_delete_eq. }
  by destruct (negb fresh && _).
Qed.

Lemma coalesce_update_ok life id r u :
  updates_ok life u → updates_ok life (coalesce_update id r u).
Proof.
  intros [Hsz Hu]. unfold coalesce_update. destruct (u !! id) as [[t row]|] eqn:E; [|done]. split.
  - by rewrite map_size_insert_Some by eauto.
  - intros id' e He. apply lookup_insert_Some in He as [[<- <-]|[_ He]]; [|by apply Hu].
    by apply Hu in E.
Qed.

Lemma insert_update_ok life u now r :
  updates_ok life u → state_of life (t_id r) = 1 ∨ state_of life (t_id r) = 2 →
  (Z.of_nat (size u) <? capacity) || is_some (u !! t_id r) = true →
  updates_ok life (<[t_id r := (now, r)]> u).
Proof.
  intros [Hsz Hu] Hst Hroom. split.
  - destruct (u !! t_id r) as [e|] eqn:E; simpl in Hroom.
    + by rewrite map_size_insert_Some by eauto.
    + rewrite orb_false_r in Hroom. bool_prop. rewrite map_size_insert_None by done. lia.
  - intros id' e He. apply lookup_insert_Some in He as [[<- <-]|[_ He]]; [done|by apply Hu].
Qed.

Lemma progress_ok w r now :
  registry_ok w → monitor_state r = cell_of (t_id r) →
  Z.of_nat (size (lifecycle (publish_socket_progress json_len capacity w r now))) ≤ u64_max →
  registry_ok (publish_socket_progress json_len capacity w r now).
Proof using Inj0 json_len_nonneg.
  intros [Hh Hs Hu] Hcell. unfold publish_socket_progress.
  destruct (t_completed r) eqn:Hcomp; [done|]. simpl.
  destruct (Z.eqb_spec (load w (monitor_state r)) 3) as [H3|H3]; [done|].
  set (w1 := set_monitor _ w).
  assert (registry_ok w1) as Hw1.
  { split; simpl; [done| |by apply coalesce_update_ok]. destruct Hs as [Hst Hl Ht]. split.
    - by apply coalesce_ok.
    - intros id Hid. apply Hl. by apply coalesce_dom in Hid.
    - unfold coalesce_row. by destruct (rows _ !! _) as [[]|]. }
  destruct (is_some_and _ _); [done|].
  set (w2 := {| monitor := monitor w1; lifecycle := lifecycle w1;
                sampled := <[monitor_sampled_at r := now]> (sampled w1) |}).
  assert (registry_ok w2) as Hw2 by (by destruct Hw1; split).
  rewrite (observe_eq w2) by done. intros Hsz.
  assert (registry_ok (observe w2 r).1) as Hw3.
  { eapply (observe_ok w2 r); [done|done|congruence|apply surjective_pairing|].
    rewrite observe_eq by done. by destruct (_ || is_some _). }
  rewrite observe_eq in Hw3 by done. cbn [negb fst] in *.
  destruct (_ || is_some _) eqn:Hroom; [|done]. destruct Hw3 as [Hh3 Hs3 Hu3]. split; [done|done|].
  simpl in *. apply insert_update_ok; [done| |done].
  rewrite Hcell, state_store, decide_True by done. unfold next_state. rewrite Hcomp.
  apply protocol_code_cases.
Qed.

(** The partition of a dropped lease. *)
Lemma part_dropped life code p id :
  code ≠ 0 → code ≠ 3 → part_ok life code p → Z.of_nat (size (<[cell_of id := 3]> life)) ≤ u64_max →
  part_ok (<[cell_of id := 3]> life) code
    (partition_remove id
       (if state_of life id =? code then set_total (saturating_sub (total p) 1) p else p)).
Proof using Inj0.
  intros H0 H3 [Hst Hl Ht] Hsz. split.
  - apply remove_ok. destruct (_ =? _); [by apply store_ok_total|done].
  - intros id' Hid. rewrite remove_rows in Hid. rewrite state_store. case_decide as E.
    + subst. rewrite lookup_delete_eq in Hid. by destruct Hid.
    + rewrite lookup_delete_ne in Hid by done. apply Hl. by destruct (_ =? _).
  - rewrite remove_total, count_store by done. fold (state_of life id).
    unfold indicator. destruct (Z.eqb_spec 3 code); [congruence|].
    destruct (Z.eqb_spec (state_of life id) code) as [E|E]; simpl; [|lia].
    pose proof (count_pos code life (cell_of id) H0 E). unfold saturating_sub. lia.
Qed.

(** A marker moved to 3 of a request that is not listed. *)
Lemma part_retired life code p id :
  code ≠ 0 → code ≠ 3 → part_ok life code p → state_of life id ≠ code →
  part_ok (<[cell_of id := 3]> life) code p.
Proof using Inj0.
  intros H0 H3 [Hst Hl Ht] Hne. split; [done| |].
  - intros id' Hid. rewrite state_store. case_decide; [subst; by apply Hl in Hid|auto].
  - rewrite count_store by done. fold (state_of life id). unfold indicator.
    destruct (Z.eqb_spec (state_of life id) code), (Z.eqb_spec 3 code); congruence || lia.
Qed.

Lemma drop_ok w id :
  registry_ok w → Z.of_nat (size (lifecycle (drop_active_lease w id (cell_of id)))) ≤ u64_max →
  registry_ok (drop_active_lease w id (cell_of id)).
Proof using Inj0 capacity_pos.
  intros [Hh Hs [Hc Hu]]. unfold drop_active_lease, load. fold (state_of (lifecycle w) id).
  assert (updates_ok (<[cell_of id := 3]> (lifecycle w)) (delete id (socket_updates (monitor w)))) as Hdel.
  { apply updates_moved; [|intros Hid; rewrite lookup_delete_eq in Hid; by destruct Hid]. split.
    - pose proof (map_size_delete id (socket_updates (monitor w))) as E.
      destruct (socket_updates (monitor w) !! id); simpl in E; lia.
    - intros id' e He. apply lookup_delete_Some in He as [_ He]. by apply Hu. }
  destruct (Z.eqb_spec (state_of (lifecycle w) id) 1) as [E1|E1];
    [|destruct (Z.eqb_spec (state_of (lifecycle w) id) 2) as [E2|E2]]; simpl; intros Hsz.
  - pose proof (part_dropped _ 1 _ id ltac:(done) ltac:(done) Hh Hsz) as H1.
    pose proof (part_dropped _ 2 _ id ltac:(done) ltac:(done) Hs Hsz) as H2.
    rewrite E1 in H1, H2. by split.
  - pose proof (part_dropped _ 1 _ id ltac:(done) ltac:(done) Hh Hsz) as H1.
    pose proof (part_dropped _ 2 _ id ltac:(done) ltac:(done) Hs Hsz) as H2.
    rewrite E2 in H1, H2. by split.
  - split; simpl; [by apply part_retired|by apply part_retired|].
    apply updates_moved; [by split|]. intros [e He]. apply Hu in He as [_ He].
    by destruct He.
Qed.

(** *** The journal *)

Lemma pop_excess_drop j : pop_excess capacity j = drop (length j - Z.to_nat capacity) j.
Proof using capacity_pos.
  induction j as [|e j IH]; [by rewrite drop_nil|]. cbn [pop_excess].
  destruct (Z.ltb_spec capacity (Z.of_nat (length (e :: j)))) as [H|H]; simpl length in *.
  - rewrite IH. replace (S (length j) - Z.to_nat capacity)%nat with (S (length j - Z.to_nat capacity)) by lia.
    done.
  - replace (S (length j) - Z.to_nat capacity)%nat with 0%nat by lia. done.
Qed.

(** Publications numbered from 1. *)
Definition numbered (h : list TrafficRequest) : list (Z * TrafficRequest) :=
  imap (λ i r, (Z.of_nat i + 1, r)) h.
Definition evicted (h : list TrafficRequest) : nat := length h - Z.to_nat capacity.

Definition journal_ok (h : list TrafficRequest) (m : MonitorState) : Prop :=
  sequence m = Z.of_nat (length h) ∧ journal m = drop (evicted h) (numbered h).

Lemma append_journal h m r : journal_ok h m → journal_ok (h ++ [r]) (append capacity m r).
Proof using capacity_pos.
  intros [Hs Hj]. unfold journal_ok, append, evicted, numbered in *. cbn [sequence journal].
  rewrite length_app. simpl. split; [lia|]. rewrite pop_excess_drop, imap_app. simpl.
  rewrite Hj, Hs, length_app, length_drop, length_imap. simpl.
  rewrite Nat.add_0_r.
  replace (length h + 1 - Z.to_nat capacity)%nat with
    (length h - Z.to_nat capacity + (length h - (length h - Z.to_nat capacity) + 1 - Z.to_nat capacity))%nat by lia.
  rewrite <- (drop_app_le (imap _ h) _ (length h - Z.to_nat capacity)) by (rewrite length_imap; lia).
  by rewrite drop_drop.
Qed.

Lemma appends_journal h m l :
  journal_ok h m →
  journal_ok (h ++ map (λ e : Z * (Z * TrafficRequest), e.2.2) l)
    (foldl (λ m e, append capacity m e.2.2) m l).
Proof using capacity_pos.
  revert h m. induction l as [|e l IH]; intros h m H; simpl; [by rewrite app_nil_r|].
  replace (h ++ e.2.2 :: map (λ e, e.2.2) l) with ((h ++ [e.2.2]) ++ map (λ e, e.2.2) l)
    by by rewrite <- app_assoc.
  apply IH. by apply append_journal.
Qed.

Lemma appends_frame m l :
  let m' := foldl (λ m (e : Z * (Z * TrafficRequest)), append capacity m e.2.2) m l in
  http m' = http m ∧ websocket m' = websocket m ∧ socket_updates m' = socket_updates m.
Proof. revert m. induction l as [|e l IH]; intros m; [done|]. simpl. apply (IH (append capacity m e.2.2)). Qed.

(** *** Every run *)

Lemma size_insert_le (m : gmap nat Z) k v : (size m ≤ size (<[k := v]> m))%nat.
Proof. rewrite map_size_insert. destruct (m !! k); simpl; lia. Qed.

Lemma observe_frame w r :
  let w' := (observe w r).1 in
  sequence (monitor w') = sequence (monitor w) ∧ journal (monitor w') = journal (monitor w) ∧
  (size (lifecycle w) ≤ size (lifecycle w'))%nat ∧
  (observe w r).2 = negb (load w (monitor_state r) =? 3).
Proof.
  destruct (decide (load w (monitor_state r) = 3)) as [H3|H3].
  - rewrite observe_gone by done. by rewrite H3.
  - rewrite observe_eq by done. apply Z.eqb_neq in H3. rewrite H3. simpl.
    split_and!; [done|done|apply size_insert_le|done].
Qed.

Lemma publish_frame w h r :
  journal_ok h (monitor w) →
  journal_ok (h ++ recorded w r) (monitor (publish json_len capacity w r)) ∧
  (size (lifecycle w) ≤ size (lifecycle (publish json_len capacity w r)))%nat.
Proof using capacity_pos.
  intros Hj. unfold publish, recorded. set (w1 := set_monitor _ w).
  assert (load w1 (monitor_state r) = load w (monitor_state r)) as Hl by done.
  destruct (observe_frame w1 r) as (Hs & Hjj & Hsz & Hf). rewrite Hl in Hf.
  destruct (observe w1 r) as [w2 fresh]. simpl in *. subst fresh.
  assert (journal_ok h (monitor w2)) as Hj2 by (unfold journal_ok in *; by rewrite Hs, Hjj).
  destruct (load w (monitor_state r) =? 3), (t_completed r); simpl; rewrite ?app_nil_r; split;
    try done; by apply append_journal.
Qed.

Lemma progress_frame w h r now :
  journal_ok h (monitor w) →
  journal_ok h (monitor (publish_socket_progress json_len capacity w r now)) ∧
  (size (lifecycle w) ≤ size (lifecycle (publish_socket_progress json_len capacity w r now)))%nat.
Proof.
  intros Hj. unfold publish_socket_progress.
  destruct (_ || _); [done|]. destruct (is_some_and _ _); [done|].
  match goal with |- context [observe ?w2 r] => pose proof (observe_frame w2 r) as (Hs & Hjj & Hsz & _);
    destruct (observe w2 r) as [w3 fresh] end.
  simpl in *. assert (journal_ok h (monitor w3)) by (unfold journal_ok in *; by rewrite Hs, Hjj).
  destruct (negb fresh); [done|]. by destruct (_ || is_some _).
Qed.

Lemma drop_frame w h id cell :
  journal_ok h (monitor w) →
  journal_ok h (monitor (drop_active_lease w id cell)) ∧
  (size (lifecycle w) ≤ size (lifecycle (drop_active_lease w id cell)))%nat.
Proof.
  intros Hj. unfold drop_active_lease.
  destruct (_ =? 1); [|destruct (_ =? 2)]; (split; [done|apply size_insert_le]).
Qed.

Lemma batch_frame w h cursor drained :
  journal_ok h (monitor w) →
  let w' := (batch capacity instance_id w cursor drained).1 in
  journal_ok (h ++ map (λ e, e.2.2) drained) (monitor w') ∧ lifecycle w' = lifecycle w.
Proof using capacity_pos.
  intros Hj. simpl. split; [|done]. by apply appends_journal.
Qed.

Lemma run_journal w h : run w h → journal_ok h (monitor w).
Proof using capacity_pos.
  induction 1 as [|w h r _ IH _|w h r now _ IH _|w h id _ IH|w h cursor drained _ IH _].
  - done.
  - by apply publish_frame.
  - by apply progress_frame.
  - by apply drop_frame.
  - by apply batch_frame.
Qed.

Lemma registry_ok_new : registry_ok monitor_new.
Proof using capacity_pos.
  assert (∀ code, part_ok ∅ code (partition_new ACTIVE_RECORD_LIMIT ACTIVE_BYTE_LIMIT)) as Hp.
  { intros code. split; [apply store_ok_new| |done]. intros id [x Hx]. done. }
  split; [apply Hp|apply Hp|]. split; [|done]. simpl. rewrite map_size_empty. lia.
Qed.

Lemma run_registry w h : run w h → Z.of_nat (size (lifecycle w)) ≤ u64_max → registry_ok w.
Proof using Inj0 json_len_nonneg capacity_pos.
  induction 1 as [|w h r Hr IH Hc|w h r now Hr IH Hc|w h id Hr IH|w h cursor drained Hr IH _];
    intros Hsz; pose proof run_journal as Hj.
  - apply registry_ok_new.
  - apply publish_ok; [|done..]. apply IH. destruct (publish_frame w h r (Hj _ _ Hr)). lia.
  - apply progress_ok; [|done..]. apply IH. destruct (progress_frame w h r now (Hj _ _ Hr)). lia.
  - apply drop_ok; [|done]. apply IH. destruct (drop_frame w h id (cell_of id) (Hj _ _ Hr)). lia.
  - apply IH in Hsz as [Hh Hs Hu].
    destruct (appends_frame (set_updates ∅ (monitor w)) drained) as (E1 & E2 & E3).
    split; simpl; rewrite ?E1, ?E2, ?E3; [done|done|]. split; [|done]. simpl. rewrite map_size_empty. lia.
Qed.

(** *** Counts and rows *)

(** Distinct requests in one state are no more than are counted. *)
Lemma count_ids code l life :
  code ≠ 0 → NoDup l → (∀ id, id ∈ l → state_of life id = code) →
  Z.of_nat (length l) ≤ active_count code life.
Proof using Inj0.
  intros H0 Hnd. revert life. induction Hnd as [|x l Hx Hnd IH]; intros life Hall.
  { apply count_nonneg. }
  assert (life !! cell_of x = Some code) as Hc.
  { specialize (Hall x ltac:(by left)). unfold state_of in Hall.
    destruct (life !! cell_of x); simpl in Hall; congruence. }
  assert (Z.of_nat (length l) ≤ active_count code (delete (cell_of x) life)) as Hl.
  { apply IH. intros id Hid. unfold state_of. rewrite lookup_delete_ne; [apply Hall; by right|].
    intros E. apply (inj cell_of) in E. congruence. }
  unfold active_count in *. rewrite (msum_delete _ _ _ _ Hc) in Hl.
  unfold indicator at 2 in Hl. rewrite Z.eqb_refl in Hl. simpl. lia.
Qed.

(** A partition that is not saturated lists every active request. *)
Lemma unsaturated_rows life code p :
  code ≠ 0 → part_ok life code p → cov_saturated (coverage p) = false →
  ∀ id, is_Some (rows p !! id) ↔ state_of life id = code.
Proof using Inj0.
  intros H0 [Hst Hl Ht] Hs id. split; [apply Hl|]. intros Hid.
  destruct (rows p !! id) as [e|] eqn:E; [eauto|]. exfalso. simpl in Hs. bool_prop.
  assert (∀ x, x ∈ (map_to_list (rows p)).*1 → is_Some (rows p !! x)) as Hkeys.
  { intros x ([k v] & -> & Hin)%list_elem_of_fmap. apply elem_of_map_to_list in Hin. eauto. }
  assert (NoDup (id :: (map_to_list (rows p)).*1)) as Hnd.
  { constructor; [|apply NoDup_fst_map_to_list]. intros Hin. apply Hkeys in Hin as [? ?]. congruence. }
  pose proof (count_ids code _ life H0 Hnd) as Hc.
  rewrite Ht in Hs. simpl in Hc. rewrite length_fmap, length_map_to_list in Hc.
  enough (∀ x, x ∈ id :: (map_to_list (rows p)).*1 → state_of life x = code) as Hall
    by (specialize (Hc Hall); lia).
  intros x [->|Hx]%elem_of_cons; [done|]. apply Hl, Hkeys, Hx.
Qed.

(** Whatever sequence of publications, socket samples, dropped leases and
    reads the monitor has gone through, the reported numbers of active HTTP
    and websocket requests are exact, even when rows had to be left out; only
    active requests are listed, each under its own protocol; and the registry,
    the pending samples and the journal stay within their limits. *)
Theorem monitor_exact w h :
  run w h → Z.of_nat (size (lifecycle w)) ≤ u64_max →
  let m := monitor w in
  (total (http m) = active_count 1 (lifecycle w) ∧
   total (websocket m) = active_count 2 (lifecycle w)) ∧
  (∀ id, is_Some (rows (http m) !! id) → state_of (lifecycle w) id = 1) ∧
  (∀ id, is_Some (rows (websocket m) !! id) → state_of (lifecycle w) id = 2) ∧
  (∀ p, p = http m ∨ p = websocket m →
     Z.of_nat (size (rows p)) ≤ ACTIVE_RECORD_LIMIT ∧
     bytes p = msum snd (rows p) ∧ bytes p ≤ ACTIVE_BYTE_LIMIT) ∧
  Z.of_nat (size (socket_updates m)) ≤ capacity ∧ Z.of_nat (length (journal m)) ≤ capacity.
Proof using Inj0 json_len_nonneg capacity_pos.
  intros Hr Hsz. pose proof (run_journal _ _ Hr) as [_ Hj].
  destruct (run_registry _ _ Hr Hsz) as [[Hs1 Hl1 Ht1] [Hs2 Hl2 Ht2] [Hu _]].
  split_and!; try done.
  - intros p [->| ->]; split_and!; by apply so_count || apply so_bytes || apply so_bound.
  - rewrite Hj. unfold evicted, numbered. rewrite length_drop, length_imap. lia.
Qed.

(** A filtered read reports how many active requests match only when it can
    know: the partition then lists every active request of its protocol, and
    the number is that of the listed ones that match. *)
Theorem filtered_count_exact w h q code name p n :
  run w h → Z.of_nat (size (lifecycle w)) ≤ u64_max →
  (code = 1 ∧ p = http (monitor w)) ∨ (code = 2 ∧ p = websocket (monitor w)) →
  has_row_filters q = true → cov_matching (partition_coverage q name p) = Some n →
  (∀ id, is_Some (rows p !! id) ↔ state_of (lifecycle w) id = code) ∧
  n = Z.of_nat (length (List.filter (matches_active q) (map (λ e, e.2.1) (map_to_list (rows p))))).
Proof using Inj0 json_len_nonneg capacity_pos.
  intros Hr Hsz Hp Hf Hn. destruct (run_registry _ _ Hr Hsz) as [H1 H2 _].
  unfold partition_coverage in Hn. rewrite Hf in Hn. cbn [cov_matching with_matching] in Hn.
  destruct (cov_saturated (coverage p)) eqn:Hs; [done|]. injection Hn as <-. split.
  - destruct Hp as [[-> ->]|[-> ->]]; by apply unsaturated_rows.
  - unfold matching_rows. by rewrite merge_sort_Permutation.
Qed.

(** *** Cursors *)

Lemma rsplit_once_none c s : contains_byte c s = false → rsplit_once c s = None.
Proof.
  induction s as [|d s IH]; [done|]. rewrite contains_byte_cons. intros H. bool_prop.
  cbn [rsplit_once]. rewrite IH by done. by rewrite H.
Qed.
Lemma rsplit_once_last c a b :
  contains_byte c b = false → rsplit_once c (a +:+ String c b) = Some (a, b).
Proof.
  intros Hb. induction a as [|d a IH]; cbn [String.append rsplit_once].
  - rewrite rsplit_once_none by done. by rewrite Ascii.eqb_refl.
  - by rewrite IH.
Qed.

Lemma decimal_go_digits fuel n acc :
  all_bytes is_ascii_digit acc = true → all_bytes is_ascii_digit (decimal_go fuel n acc) = true.
Proof.
  revert n acc. induction fuel as [|fuel IH]; intros n acc Ha; [done|]. cbn [decimal_go].
  assert (all_bytes is_ascii_digit (String (ascii_of_N (Z.to_N (48 + n `mod` 10))) acc) = true) as H'
    by (cbn [all_bytes]; by rewrite digit_text, Ha).
  destruct (_ =? 0); auto.
Qed.
Lemma decimal_go_not_empty fuel n acc : is_empty (decimal_go (S fuel) n acc) = false.
Proof.
  revert n acc. induction fuel as [|fuel IH]; intros n acc.
  - cbn [decimal_go]. by destruct (_ =? 0).
  - remember (S fuel) as f. cbn [decimal_go]. destruct (_ =? 0); [done|by apply IH].
Qed.

Lemma parse_decimal n : 0 ≤ n ≤ u64_max → parse_u64 (decimal n) = Some n.
Proof.
  intros Hn. assert (all_bytes is_ascii_digit (decimal n) = true) as Hd by by apply decimal_go_digits.
  assert (is_empty (decimal n) = false) as He.
  { apply (decimal_go_not_empty 19). }
  assert (digits_value (decimal n) 0 = n) as Hv.
  { apply (decimal_go_value 20 n "" 0); [|done]. unfold u64_max in Hn. lia. }
  unfold parse_u64. set (s := decimal n) in *.
  assert (match s with String "+" s' => s' | _ => s end = s) as ->.
  { destruct s as [|c s']; [done|]. simpl in Hd. bool_prop. clear -H.
    destruct c as [[] [] [] [] [] [] [] []]; done. }
  rewrite He, Hd, Hv. simpl. destruct (Z.leb_spec n u64_max); [done|lia].
Qed.

Definition cursor_text (n : Z) : string := instance_id +:+ ":" +:+ decimal n.

Lemma cursor_roundtrip n :
  0 ≤ n ≤ u64_max → cursor_sequence instance_id (Some (cursor_text n)) = Some n.
Proof.
  intros Hn. unfold cursor_sequence, cursor_text. simpl.
  rewrite rsplit_once_last, String.eqb_refl; [by apply parse_decimal|].
  apply not_true_iff_false. intros Hc. unfold contains_byte in Hc. apply negb_true_iff in Hc.
  apply not_true_iff_false in Hc. apply Hc.
  assert (all_bytes is_ascii_digit (decimal n) = true) as Hd by by apply decimal_go_digits.
  clear -Hd. induction (decimal n) as [|c s IH]; [done|]. cbn [all_bytes] in *. bool_prop.
  rewrite IH by done. destruct (Ascii.eqb_spec ":" c) as [<-|]; done.
Qed.

(** *** What a reader is given *)

(** The newest entry of each id. *)
Fixpoint newest (seen : list Z) (l : list TrafficRequest) : list TrafficRequest :=
  match l with
  | [] => []
  | r :: l => if existsb (Z.eqb (t_id r)) seen then newest seen l else r :: newest (t_id r :: seen) l
  end.

Lemma existsb_eqb x l : existsb (Z.eqb x) l = true ↔ x ∈ l.
Proof.
  rewrite existsb_exists, list_elem_of_In. split; [intros (y & Hy & E%Z.eqb_eq); by subst|].
  intros H. exists x. by rewrite Z.eqb_refl.
Qed.

Lemma newest_spec l : ∀ seen,
  NoDup (t_id <$> newest seen l) ∧
  (∀ r, r ∈ newest seen l ↔ ∃ a b, l = a ++ r :: b ∧ (t_id r ∉ seen) ∧ (t_id r ∉ t_id <$> a)).
Proof.
  induction l as [|x l IH]; intros seen; cbn [newest].
  { split; [constructor|]. intros r. rewrite elem_of_nil. split; [done|].
    intros ([] & b & H & _); done. }
  destruct (existsb (Z.eqb (t_id x)) seen) eqn:E.
  - apply existsb_eqb in E. destruct (IH seen) as [Hnd Hr]. split; [done|]. intros r. rewrite Hr.
    split.
    + intros (a & b & -> & H1 & H2). exists (x :: a), b. split_and!; [done|done|].
      simpl. apply not_elem_of_cons. split; [congruence|done].
    + intros ([|y a] & b & H & H1 & H2); injection H as -> ->; [done|].
      exists a, b. simpl in H2. apply not_elem_of_cons in H2 as [_ H2]. done.
  - apply not_true_iff_false in E. rewrite existsb_eqb in E.
    destruct (IH (t_id x :: seen)) as [Hnd Hr]. split.
    + simpl. constructor; [|done]. intros (r & Hid & Hin)%list_elem_of_fmap.
      apply Hr in Hin as (a & b & _ & H1 & _). apply not_elem_of_cons in H1 as [H1 _]. congruence.
    + intros r. rewrite elem_of_cons, Hr. split.
      * intros [->|(a & b & -> & H1 & H2)].
        -- exists [], l. split_and!; [done|done|by apply not_elem_of_nil].
        -- apply not_elem_of_cons in H1 as [H1 H1']. exists (x :: a), b. simpl.
           split_and!; [done|done|]. by apply not_elem_of_cons.
      * intros ([|y a] & b & H & H1 & H2); injection H as -> ->; [by left|right].
        simpl in H2. apply not_elem_of_cons in H2 as [H2 H2']. exists a, b.
        split_and!; [done| |done]. by apply not_elem_of_cons.
Qed.

Lemma unseen_old after seen j1 j2 :
  Forall (λ e, e.1 ≤ after) j2 → unseen after seen (j1 ++ j2) = unseen after seen j1.
Proof.
  intros H2. revert seen. induction j1 as [|[s r] j1 IH]; intros seen; simpl.
  - induction H2 as [|[s r] j2 Hs _ IH]; [done|]. simpl in *.
    destruct (Z.ltb_spec after s); [lia|done].
  - destruct (_ && _); [f_equal|]; apply IH.
Qed.
Lemma unseen_new after seen j :
  Forall (λ e, after < e.1) j → unseen after seen j = newest seen j.*2.
Proof.
  intros H. revert seen. induction H as [|[s r] j Hs _ IH]; intros seen; [done|]. simpl in *.
  destruct (Z.ltb_spec after s); [|lia]. simpl. destruct (existsb _ seen); simpl; by rewrite IH.
Qed.

Lemma numbered_lookup h i e :
  numbered h !! i = Some e ↔ ∃ r, h !! i = Some r ∧ e = (Z.of_nat i + 1, r).
Proof. unfold numbered. rewrite list_lookup_imap, fmap_Some. done. Qed.
Lemma numbered_snd h : (numbered h).*2 = h.
Proof.
  apply list_eq. intros i. rewrite list_lookup_fmap. unfold numbered.
  rewrite list_lookup_imap. by destruct (h !! i).
Qed.
Lemma numbered_after h n : Forall (λ e, Z.of_nat n < e.1) (drop n (numbered h)).
Proof.
  apply Forall_lookup. intros i e. rewrite lookup_drop, numbered_lookup.
  intros (r & _ & ->). simpl. lia.
Qed.
Lemma numbered_until h k n : Forall (λ e, e.1 ≤ Z.of_nat n) (drop k (take n (numbered h))).
Proof.
  apply Forall_drop, Forall_lookup. intros i e. rewrite lookup_take_Some, numbered_lookup.
  intros [(r & _ & ->) ?]. simpl. lia.
Qed.

Lemma fmap_rev {A B} (f : A → B) (l : list A) : f <$> rev l = rev (f <$> l).
Proof. apply map_rev. Qed.

Lemma unseen_numbered h k n :
  (k ≤ n ≤ length h)%nat →
  unseen (Z.of_nat n) [] (rev (drop k (numbered h))) = newest [] (rev (drop n h)).
Proof.
  intros Hn. assert (drop k (numbered h) = drop k (take n (numbered h)) ++ drop n (numbered h)) as ->.
  { rewrite <- (take_drop n (numbered h)) at 1. apply drop_app_le.
    unfold numbered. rewrite length_take, length_imap. lia. }
  rewrite rev_app_distr, unseen_old.
  - rewrite unseen_new by (apply Forall_rev, numbered_after).
    by rewrite fmap_rev, fmap_drop, numbered_snd.
  - apply Forall_rev, numbered_until.
Qed.

Lemma evicted_le h : (evicted h ≤ length h)%nat.
Proof. apply Nat.le_sub_l. Qed.

Lemma journal_oldest h m :
  journal_ok h m →
  match journal m with (s, _) :: _ => s | [] => sequence m + 1 end = Z.of_nat (evicted h) + 1.
Proof using capacity_pos.
  intros [Hs Hj]. rewrite Hj, Hs. pose proof (evicted_le h).
  destruct (drop (evicted h) (numbered h)) as [|[s r] j] eqn:E.
  - apply (f_equal length) in E. unfold numbered in E. rewrite length_drop, length_imap in E.
    simpl in E. unfold evicted in *. lia.
  - pose proof (lookup_drop (numbered h) (evicted h) 0) as Hl. rewrite E, Nat.add_0_r in Hl.
    symmetry in Hl. simpl in Hl. apply numbered_lookup in Hl as (r' & _ & Hl).
    injection Hl as -> _. done.
Qed.

Lemma newest_rev l r :
  r ∈ newest [] (rev l) ↔ ∃ l1 l2, l = l1 ++ r :: l2 ∧ t_id r ∉ t_id <$> l2.
Proof.
  destruct (newest_spec (rev l) []) as [_ H]. rewrite H. split.
  - intros (a & b & E & _ & Ha). apply (f_equal (@rev _)) in E.
    rewrite rev_involutive, rev_app_distr in E. simpl in E. rewrite <- app_assoc in E.
    exists (rev b), (rev a). split; [done|]. by rewrite fmap_rev, list_elem_of_In, <- in_rev, <- list_elem_of_In.
  - intros (l1 & l2 & -> & Hl). exists (rev l2), (rev l1).
    rewrite rev_app_distr. simpl. rewrite <- app_assoc. split_and!; [done|by apply not_elem_of_nil|].
    by rewrite fmap_rev, list_elem_of_In, <- in_rev, <- list_elem_of_In.
Qed.

(** A reader misses nothing silently.  Polling with the cursor of a read made
    after [s] publications, it is told of a gap exactly when one of the later
    publications is no longer retained; without a gap it receives, for every
    request published since, the latest record and only that one, and with a
    gap the latest records of everything retained.  The new cursor stands for
    all publications so far. *)
Theorem batch_no_loss w h s drained w' b :
  run w h → drained ≡ₚ map_to_list (socket_updates (monitor w)) →
  (s ≤ length h)%nat →
  Z.of_nat (length h + length drained) < u64_max →
  batch capacity instance_id w (Some (cursor_text (Z.of_nat s))) drained = (w', b) →
  let h' := h ++ map (λ e, e.2.2) drained in
  let from := if batch_gap b then evicted h' else s in
  (batch_gap b = true ↔ (s < evicted h')%nat) ∧
  NoDup (t_id <$> batch_rows b) ∧
  (∀ r, r ∈ batch_rows b ↔
     ∃ l1 l2, drop from h' = l1 ++ r :: l2 ∧ t_id r ∉ t_id <$> l2) ∧
  batch_cursor b = cursor_text (Z.of_nat (length h')).
Proof using capacity_pos.
  intros Hr _ Hs Hmax Hb h' from. apply run_journal in Hr as Hj.
  apply (appends_journal _ (set_updates ∅ (monitor w)) drained) in Hj. fold h' in Hj.
  assert (length h' = length h + length drained)%nat as Hlen by (unfold h'; by rewrite length_app, length_map).
  unfold batch in Hb. set (m := foldl _ _ drained) in *. destruct Hj as [Hseq Hjn] eqn:EJ. clear EJ.
  rewrite cursor_roundtrip in Hb by lia. cbn [is_some is_none_or andb default] in Hb.
  rewrite (journal_oldest h' m) in Hb by done. rewrite Hseq in Hb.
  assert ((saturating_add (Z.of_nat s) 1 <? Z.of_nat (evicted h') + 1) || (Z.of_nat (length h') <? Z.of_nat s)
    = bool_decide (s < evicted h')%nat) as Hgap.
  { unfold saturating_add, usize_max, u64_max in *.
    destruct (Z.ltb_spec (Z.of_nat (length h')) (Z.of_nat s)); [lia|]. rewrite orb_false_r.
    destruct (Z.ltb_spec (Z.min (2 ^ 64 - 1) (Z.of_nat s + 1)) (Z.of_nat (evicted h') + 1));
      case_bool_decide; lia || done. }
  rewrite Hgap in Hb. injection Hb as _ <-. subst from. cbn [batch_gap batch_rows batch_cursor].
  rewrite bool_decide_eq_true.
  assert (unseen (if bool_decide (s < evicted h')%nat then 0 else Z.of_nat s) [] (rev (journal m)) =
    newest [] (rev (drop (if bool_decide (s < evicted h')%nat then evicted h' else s) h'))) as ->.
  { rewrite Hjn. pose proof (evicted_le h'). case_bool_decide.
    - rewrite unseen_new; [by rewrite fmap_rev, fmap_drop, numbered_snd|].
      apply Forall_rev. eapply Forall_impl; [apply numbered_after|]. simpl. lia.
    - apply unseen_numbered. lia. }
  split_and!; [done|apply newest_spec|apply newest_rev|done].
Qed.
End runs.

(** ** A small run *)

Definition zigzag (z : Z) : nat := Z.to_nat (if z <? 0 then - 2 * z - 1 else 2 * z).
#[global] Instance zigzag_inj : Inj (=) (=) zigzag.
Proof.
  intros a b. unfold zigzag. destruct (Z.ltb_spec a 0), (Z.ltb_spec b 0); lia.
Qed.

Definition sample_len (r : TrafficRequest) : option Z := Some 100.
Definition sample_arrival : TrafficRequest := TrafficRequest_default (zigzag 7) 0 7 "gw" 100.
Definition sample_upstream : TrafficRequest := record_step sample_arrival "upstream" 5 None.
Definition sample_history : list TrafficRequest := [sample_arrival; sample_upstream].
Definition sample_world : World :=
  publish sample_len 2 (publish sample_len 2 monitor_new sample_arrival) sample_upstream.

Lemma sample_len_nonneg r n : sample_len r = Some n → 0 ≤ n.
Proof. by intros [= <-]. Qed.
Lemma sample_run : run sample_len 2 "gw" zigzag sample_world sample_history.
Proof.
  change sample_history with ((([] ++ recorded monitor_new sample_arrival)) ++
    recorded (publish sample_len 2 monitor_new sample_arrival) sample_upstream).
  apply run_publish; [|reflexivity]. apply run_publish; [apply run_new|reflexivity].
Qed.

Lemma monitor_exact_witness :
  Z.of_nat (size (lifecycle sample_world)) ≤ u64_max ∧ total (http (monitor sample_world)) = 1.
Proof.
  split; [by vm_compute|].
  assert (active_count 1 (lifecycle sample_world) = 1) as <- by (vm_compute; reflexivity).
  apply (monitor_exact sample_len 2 "gw" sample_len_nonneg ltac:(lia) zigzag sample_world
    sample_history sample_run). by vm_compute.
Defined.

Definition sample_query : TrafficQuery :=
  {| q_snapshot := None; q_id := Some 7; q_request_id := None; q_service := None;
     q_project_id := None; q_key_id := None; q_status := None; q_failures_only := None;
     q_failure_code := None; q_from := None; q_to := None; q_before := None; q_before_id := None;
     q_limit := None; q_time_basis := None; q_protocol := None |}.

Lemma filtered_count_exact_witness :
  is_Some (rows (http (monitor sample_world)) !! 7) ↔ state_of zigzag (lifecycle sample_world) 7 = 1.
Proof.
  apply (filtered_count_exact sample_len 2 "gw" sample_len_nonneg ltac:(lia) zigzag sample_world
    sample_history sample_query 1 "http" (http (monitor sample_world)) 1 sample_run).
  - by vm_compute.
  - by left.
  - reflexivity.
  - vm_compute. reflexivity.
Defined.

Lemma batch_no_loss_witness :
  let b := (batch 2 "gw" sample_world (Some "gw:1") []).2 in
  batch_gap b = false ∧ sample_upstream ∈ batch_rows b ∧ batch_cursor b = "gw:2".
Proof.
  intros b.
  destruct (batch_no_loss sample_len 2 "gw" ltac:(lia) zigzag sample_world sample_history 1 []
    (batch 2 "gw" sample_world (Some "gw:1") []).1 b sample_run) as (_ & _ & Hrows & Hcur).
  - assert (socket_updates (monitor sample_world) = ∅) as -> by (vm_compute; reflexivity).
    by rewrite map_to_list_empty.
  - simpl; lia.
  - by vm_compute.
  - apply surjective_pairing.
  - split_and!; [vm_compute; reflexivity| |exact Hcur].
    apply Hrows. exists [], []. split; [vm_compute; reflexivity|]. apply not_elem_of_nil.
Defined.
