(* ===== verification/ResponseCost.v ===== *)
(** * Observing the cost in a streamed JSON response

    Models [crates/gateway-core/src/response_cost.rs]: an incremental JSON
    recognizer that reads a response in arbitrary chunks, keeps a bounded
    amount of it, and remembers the last value found at each of six metadata
    paths.  Bytes are [ascii]; the stack is a list whose head is the innermost
    frame.  serde's number and string parsers and [str::parse::<f64>] are
    parameters.  A function that the source may leave by a panic returns
    [None] there. *)

From S2P Require Import Prelude.

Abbreviation quote := ("034"%char).
Abbreviation backslash := ("\"%char).

Definition COST_PATHS : list (list string) :=
  [["estimated_cost"]; ["response_cost"]; ["usage"; "estimated_cost"]; ["usage"; "total_cost"];
   ["usage"; "cost"]; ["_hidden_params"; "response_cost"]].

Inductive Expect : Type := KeyOrEnd | Key | Colon | ValueOrEnd | ExpectValue | CommaOrEnd.

Record Frame := {
  object : bool;
  expect : Expect;
  path : list string;
  key : option string
}.

Record StringToken := {
  st_key : bool;
  st_raw : option string;
  st_escape : bool;
  st_unicode : Z;
  st_codepoint : Z;
  st_surrogate : Z;
  st_utf8 : Z;
  st_next_min : Z;
  st_next_max : Z
}.

Record Scalar := {
  sc_raw : string;
  sc_state : Z;
  sc_literal : string;
  sc_offset : Z;
  sc_digits : string;
  sc_fraction : Z;
  sc_omitted : Z;
  sc_exponent : Z;
  sc_exponent_negative : bool;
  sc_negative : bool
}.

Inductive Token : Type :=
| TokString (t : StringToken)
| TokScalar (value : Scalar) (path : list string).

Definition json_whitespace (c : ascii) : bool :=
  existsb (Ascii.eqb c) [" "; "009"; "013"; "010"]%char.

(** ** Scalars *)

Definition one_of_states (l : list Z) (s : Z) : bool := existsb (Z.eqb s) l.

(** The transition table of [Scalar::feed]. *)
Definition scalar_next (previous : Z) (byte : ascii) : Z :=
  let digit := is_ascii_digit byte in
  if (previous =? 0) && Ascii.eqb byte "-" then 1
  else if one_of_states [0; 1] previous && Ascii.eqb byte "0" then 2
  else if (one_of_states [0; 1] previous && digit) || ((previous =? 3) && digit) then 3
  else if one_of_states [2; 3] previous && Ascii.eqb byte "." then 4
  else if one_of_states [4; 5] previous && digit then 5
  else if one_of_states [2; 3; 5] previous && (Ascii.eqb byte "e" || Ascii.eqb byte "E") then 6
  else if (previous =? 6) && (Ascii.eqb byte "+" || Ascii.eqb byte "-") then 7
  else if in_range 6 8 previous && digit then 8
  else 255.

Definition snoc (s : string) (c : ascii) : string := s +:+ String c EmptyString.

Definition literal_at (s : Scalar) : option ascii :=
  if sc_offset s <? 0 then None else String.get (Z.to_nat (sc_offset s)) (sc_literal s).

Definition scalar_feed (s : Scalar) (byte : ascii) : Scalar :=
  let raw := if len (sc_raw s) <? 129 then snoc (sc_raw s) byte else sc_raw s in
  if negb (is_empty (sc_literal s)) then
    {| sc_raw := raw;
       sc_state := if is_some_and (Ascii.eqb byte) (literal_at s) then sc_state s else 255;
       sc_literal := sc_literal s; sc_offset := sc_offset s + 1; sc_digits := sc_digits s;
       sc_fraction := sc_fraction s; sc_omitted := sc_omitted s; sc_exponent := sc_exponent s;
       sc_exponent_negative := sc_exponent_negative s; sc_negative := sc_negative s |}
  else
    let previous := sc_state s in
    let in_exponent := is_ascii_digit byte && in_range 6 8 previous in
    let in_mantissa := is_ascii_digit byte && negb (in_range 6 8 previous) in
    let significant := in_mantissa && (negb (Ascii.eqb byte "0") || negb (is_empty (sc_digits s))) in
    let room := len (sc_digits s) <? 64 in
    {| sc_raw := raw;
       sc_state := scalar_next previous byte;
       sc_literal := sc_literal s;
       sc_offset := sc_offset s;
       sc_digits := if significant && room then snoc (sc_digits s) byte else sc_digits s;
       sc_fraction := if in_mantissa && one_of_states [4; 5] previous
                      then sc_fraction s + 1 else sc_fraction s;
       sc_omitted := if significant && negb room then sc_omitted s + 1 else sc_omitted s;
       sc_exponent := if in_exponent
                      then Z.min 1000000000 (sc_exponent s * 10 + (byte_val byte - 48))
                      else sc_exponent s;
       sc_exponent_negative := sc_exponent_negative s
                               || (negb (is_ascii_digit byte) && (previous =? 6) && Ascii.eqb byte "-");
       sc_negative := sc_negative s |}.

Definition literal_of (byte : ascii) : string :=
  if Ascii.eqb byte "t" then "true"
  else if Ascii.eqb byte "f" then "false"
  else if Ascii.eqb byte "n" then "null"
  else "".

Definition scalar_new (byte : ascii) : Scalar :=
  scalar_feed
    {| sc_raw := ""; sc_state := 0; sc_literal := literal_of byte; sc_offset := 0; sc_digits := "";
       sc_fraction := 0; sc_omitted := 0; sc_exponent := 0; sc_exponent_negative := false;
       sc_negative := Ascii.eqb byte "-" |} byte.

Definition scalar_valid (s : Scalar) : bool :=
  if negb (is_empty (sc_literal s)) then
    negb (sc_state s =? 255) && (sc_offset s =? len (sc_literal s))
  else one_of_states [2; 3; 5; 8] (sc_state s).

(** The decimal text of an [i64]. *)
Definition i64_text (n : Z) : string := if n <? 0 then "-" +:+ decimal (- n) else decimal n.

Section observer.
(** [serde_json::from_slice::<Value>(..).ok()?.as_f64()],
    [str::parse::<f64>().ok()] and [serde_json::from_slice::<String>(..).ok()]. *)
Variable serde_number : string → option f64.
Variable parse_f64 : string → option f64.
Variable serde_string : string → option string.

Definition positive (v : f64) : option f64 :=
  if f64_is_finite v && f64_gtb v (f64_of_Z 0) then Some v else None.

Definition scalar_cost (s : Scalar) : option f64 :=
  if negb (is_empty (sc_literal s)) then None
  else
    (if len (sc_raw s) <=? 128 then serde_number (sc_raw s)
     else
       let exponent := if sc_exponent_negative s then - sc_exponent s else sc_exponent s in
       parse_f64 ((if sc_negative s then "-" else "")
                  +:+ (if is_empty (sc_digits s) then "0" else sc_digits s)
                  +:+ "e" +:+ i64_text (exponent - sc_fraction s + sc_omitted s)))
    ≫= positive.

(** ** The observer *)

Record ResponseCostObserver := {
  stack : list Frame;
  token : option Token;
  costs : list (option f64);
  started : bool;
  done_ : bool;
  failed : bool
}.
Definition observer_default : ResponseCostObserver :=
  {| stack := []; token := None; costs := [None; None; None; None; None; None];
     started := false; done_ := false; failed := false |}.

Definition set_stack (s : list Frame) (o : ResponseCostObserver) : ResponseCostObserver :=
  {| stack := s; token := token o; costs := costs o; started := started o; done_ := done_ o;
     failed := failed o |}.
Definition set_token (t : option Token) (o : ResponseCostObserver) : ResponseCostObserver :=
  {| stack := stack o; token := t; costs := costs o; started := started o; done_ := done_ o;
     failed := failed o |}.
Definition set_costs (c : list (option f64)) (o : ResponseCostObserver) : ResponseCostObserver :=
  {| stack := stack o; token := token o; costs := c; started := started o; done_ := done_ o;
     failed := failed o |}.
(** [self.failed |= b]. *)
Definition fail_if (b : bool) (o : ResponseCostObserver) : ResponseCostObserver :=
  {| stack := stack o; token := token o; costs := costs o; started := started o; done_ := done_ o;
     failed := failed o || b |}.

Definition set_expect (e : Expect) (k : option string) (f : Frame) : Frame :=
  {| object := object f; expect := e; path := path f; key := k |}.

(** [path.iter().zip(target).all(|(a, b)| a == b)]. *)
Fixpoint zip_all_eq (a b : list string) : bool :=
  match a, b with
  | x :: a, y :: b => String.eqb x y && zip_all_eq a b
  | _, _ => true
  end.
Definition within (p target : list string) : bool :=
  (length p <=? length target)%nat && zip_all_eq p target.
Definition at_target (p target : list string) : bool :=
  (length p =? length target)%nat && zip_all_eq p target.

Definition clear_costs (p : list string) (c : list (option f64)) : list (option f64) :=
  zip_with (λ target v, if within p target then None else v) COST_PATHS c.
Definition record_costs (p : list string) (v : option f64) (c : list (option f64)) :
    list (option f64) :=
  zip_with (λ target old, if at_target p target then v else old) COST_PATHS c.
Definition shorten (p : list string) : list string :=
  if existsb (within p) COST_PATHS then p else [""].

Definition expects_value (e : Expect) : bool :=
  match e with ExpectValue | ValueOrEnd => true | _ => false end.
Definition expects_key (e : Expect) : bool :=
  match e with Key | KeyOrEnd => true | _ => false end.
Definition expects_end (e : Expect) : bool :=
  match e with KeyOrEnd | ValueOrEnd | CommaOrEnd => true | _ => false end.

(** [value_path]: the path of the value that starts here. *)
Definition value_path (o : ResponseCostObserver) : ResponseCostObserver * option (list string) :=
  match stack o with
  | [] => (o, None)
  | frame :: rest =>
      if negb (expects_value (expect frame)) then (o, None)
      else
        match (if object frame then key frame else Some "") with
        | None => (o, None)
        | Some k =>
            let p := path frame ++ [k] in
            let key' := if object frame then None else key frame in
            (set_costs (clear_costs p (costs o))
               (set_stack (set_expect CommaOrEnd key' frame :: rest) o),
             Some (shorten p))
        end
  end.

Definition finish_scalar (o : ResponseCostObserver) : ResponseCostObserver :=
  match token o with
  | Some (TokScalar value p) =>
      let o := set_token None o in
      if scalar_valid value then set_costs (record_costs p (scalar_cost value) (costs o)) o
      else fail_if true o
  | _ => set_token None o
  end.

Definition new_frame (object : bool) (p : list string) : Frame :=
  {| object := object; expect := if object then KeyOrEnd else ValueOrEnd; path := p; key := None |}.
Definition new_string (key : bool) : StringToken :=
  {| st_key := key; st_raw := if key then Some (String quote EmptyString) else None;
     st_escape := false; st_unicode := 0; st_codepoint := 0; st_surrogate := 0; st_utf8 := 0;
     st_next_min := 128; st_next_max := 191 |}.

Definition scalar_start (byte : ascii) : bool :=
  Ascii.eqb byte "-" || is_ascii_digit byte || existsb (Ascii.eqb byte) ["t"; "f"; "n"]%char.

Definition set_done (b : bool) (o : ResponseCostObserver) : ResponseCostObserver :=
  {| stack := stack o; token := token o; costs := costs o; started := started o; done_ := b;
     failed := failed o |}.

Definition structural (o : ResponseCostObserver) (byte : ascii) : ResponseCostObserver :=
  if json_whitespace byte then o
  else if negb (started o) then
    let o := {| stack := stack o; token := token o; costs := costs o; started := true;
                done_ := done_ o; failed := failed o |} in
    if negb (Ascii.eqb byte "{") then fail_if true o
    else set_stack (new_frame true [] :: stack o) o
  else if done_ o then fail_if true o
  else
    match stack o with
    | [] => fail_if true o
    | frame :: rest =>
        if Ascii.eqb byte quote then
          let key := object frame && expects_key (expect frame) in
          if key then set_token (Some (TokString (new_string true))) o
          else
            match value_path o with
            | (o, None) => fail_if true o
            | (o, Some _) => set_token (Some (TokString (new_string false))) o
            end
        else if Ascii.eqb byte "{" || Ascii.eqb byte "[" then
          match value_path o with
          | (o, None) => fail_if true o
          | (o, Some p) =>
              if (128 <=? length (stack o))%nat then fail_if true o
              else set_stack (new_frame (Ascii.eqb byte "{") p :: stack o) o
          end
        else if Ascii.eqb byte "}" || Ascii.eqb byte "]" then
          if negb (Bool.eqb (object frame) (Ascii.eqb byte "}")) || negb (expects_end (expect frame))
          then fail_if true o
          else set_done (is_nil rest) (set_stack rest o)
        else if Ascii.eqb byte ":" && object frame && match expect frame with Colon => true | _ => false end
        then set_stack (set_expect ExpectValue (key frame) frame :: rest) o
        else if Ascii.eqb byte "," && match expect frame with CommaOrEnd => true | _ => false end
        then set_stack (set_expect (if object frame then Key else ExpectValue) (key frame) frame :: rest) o
        else if scalar_start byte then
          match value_path o with
          | (o, None) => fail_if true o
          | (o, Some p) => set_token (Some (TokScalar (scalar_new byte) p)) o
          end
        else fail_if true o
    end.

(** ** Strings *)

(** [char::to_digit(16).unwrap_or(0)]. *)
Definition hex_value (c : ascii) : Z :=
  if is_ascii_digit c then byte_val c - 48
  else if in_range 97 102 (byte_val c) then byte_val c - 87
  else if in_range 65 70 (byte_val c) then byte_val c - 55
  else 0.
Definition simple_escape (c : ascii) : bool :=
  existsb (Ascii.eqb c) [quote; backslash; "/"; "b"; "f"; "n"; "r"; "t"]%char.

(** What may follow a leading byte of a multi-byte character: how many
    continuation bytes, and the range of the first. *)
Definition utf8_lead (byte : ascii) : option (Z * Z * Z) :=
  let b := byte_val byte in
  if in_range 194 223 b then Some (1, 128, 191)
  else if b =? 224 then Some (2, 160, 191)
  else if in_range 225 236 b || in_range 238 239 b then Some (2, 128, 191)
  else if b =? 237 then Some (2, 128, 159)
  else if b =? 240 then Some (3, 144, 191)
  else if in_range 241 243 b then Some (3, 128, 191)
  else if b =? 244 then Some (3, 128, 143)
  else None.

Definition with_raw (raw : option string) (t : StringToken) : StringToken :=
  {| st_key := st_key t; st_raw := raw; st_escape := st_escape t; st_unicode := st_unicode t;
     st_codepoint := st_codepoint t; st_surrogate := st_surrogate t; st_utf8 := st_utf8 t;
     st_next_min := st_next_min t; st_next_max := st_next_max t |}.
Definition with_escape (escape : bool) (unicode codepoint surrogate : Z) (t : StringToken) : StringToken :=
  {| st_key := st_key t; st_raw := st_raw t; st_escape := escape; st_unicode := unicode;
     st_codepoint := codepoint; st_surrogate := surrogate; st_utf8 := st_utf8 t;
     st_next_min := st_next_min t; st_next_max := st_next_max t |}.
Definition with_utf8 (n lo hi : Z) (t : StringToken) : StringToken :=
  {| st_key := st_key t; st_raw := st_raw t; st_escape := st_escape t; st_unicode := st_unicode t;
     st_codepoint := st_codepoint t; st_surrogate := st_surrogate t; st_utf8 := n;
     st_next_min := lo; st_next_max := hi |}.

Definition keep_raw (raw : option string) (byte : ascii) : option string :=
  raw ≫= λ b, if len b <? 256 then Some (snoc b byte) else None.

(** A byte inside a string that does not end it: the token after it and
    whether it is an error. *)
Definition string_byte (t : StringToken) (byte : ascii) : StringToken * bool :=
  let b := byte_val byte in
  if 0 <? st_utf8 t then
    (with_utf8 (st_utf8 t - 1) 128 191 t, (b <? st_next_min t) || (st_next_max t <? b))
  else if 0 <? st_unicode t then
    (* [codepoint] is a [u16] *)
    let cp := Z.lor (Z.shiftl (st_codepoint t) 4 mod 2 ^ 16) (hex_value byte) in
    let bad := negb (is_ascii_hexdigit byte) in
    let low := in_range 56320 57343 cp in
    if st_unicode t - 1 =? 0 then
      if st_surrogate t =? 3 then (with_escape (st_escape t) 0 cp 0 t, bad || negb low)
      else if in_range 55296 56319 cp then (with_escape (st_escape t) 0 cp 1 t, bad)
      else (with_escape (st_escape t) 0 cp (st_surrogate t) t, bad || low)
    else (with_escape (st_escape t) (st_unicode t - 1) cp (st_surrogate t) t, bad)
  else if st_surrogate t =? 1 then
    (with_escape (st_escape t) (st_unicode t) (st_codepoint t) 2 t, negb (Ascii.eqb byte backslash))
  else if st_surrogate t =? 2 then (with_escape (st_escape t) 4 0 3 t, negb (Ascii.eqb byte "u"))
  else if st_escape t then
    if Ascii.eqb byte "u" then (with_escape false 4 0 (st_surrogate t) t, false)
    else (with_escape false (st_unicode t) (st_codepoint t) (st_surrogate t) t, negb (simple_escape byte))
  else if Ascii.eqb byte backslash then
    (with_escape true (st_unicode t) (st_codepoint t) (st_surrogate t) t, false)
  else if b <? 32 then (t, true)
  else if 128 <=? b then
    match utf8_lead byte with
    | Some (n, lo, hi) => (with_utf8 n lo hi t, false)
    | None => (with_utf8 0 128 191 t, true)
    end
  else (t, false).

(** Whether a quote would end the string here. *)
Definition at_char (t : StringToken) : bool :=
  negb (0 <? st_utf8 t) && negb (0 <? st_unicode t) && negb (st_surrogate t =? 1)
  && negb (st_surrogate t =? 2) && negb (st_escape t).

(** The end of a string; the key of an object is handed to its frame. *)
Definition end_string (o : ResponseCostObserver) (t : StringToken) : option ResponseCostObserver :=
  let o := set_token None o in
  if st_key t then
    match (match st_raw t with None => Some "" | Some raw => serde_string raw end) with
    | Some k =>
        match stack o with
        | [] => None
        | frame :: rest => Some (set_stack (set_expect Colon (Some k) frame :: rest) o)
        end
    | None => Some (fail_if true o)
    end
  else Some o.

(** [consume_token]: the observer and whether the byte is used up. *)
Definition consume_token (o : ResponseCostObserver) (byte : ascii) :
    option (ResponseCostObserver * bool) :=
  match token o with
  | None => Some (o, false)
  | Some (TokScalar value p) =>
      if json_whitespace byte || existsb (Ascii.eqb byte) [","; "}"; "]"]%char
      then Some (finish_scalar o, false)
      else
        let value := scalar_feed value byte in
        Some (fail_if (sc_state value =? 255) (set_token (Some (TokScalar value p)) o), true)
  | Some (TokString t) =>
      let t := with_raw (keep_raw (st_raw t) byte) t in
      if at_char t && Ascii.eqb byte quote then (λ o, (o, true)) <$> end_string o t
      else
        let '(t, bad) := string_byte t byte in
        Some (fail_if bad (set_token (Some (TokString t)) o), true)
  end.

(** ** The interface *)

Definition feed_byte (o : ResponseCostObserver) (byte : ascii) : option ResponseCostObserver :=
  if failed o then Some o
  else
    match consume_token o byte with
    | None => None
    | Some (o, true) => Some o
    | Some (o, false) => Some (structural o byte)
    end.
Fixpoint feed (o : ResponseCostObserver) (bytes : string) : option ResponseCostObserver :=
  match bytes with
  | EmptyString => Some o
  | String c bytes => feed_byte o c ≫= λ o, feed o bytes
  end.

Definition finish (o : ResponseCostObserver) : ResponseCostObserver :=
  let o := match token o with Some (TokScalar _ _) => finish_scalar o | _ => o end in
  fail_if (negb (done_ o) || is_some (token o) || negb (is_nil (stack o))) o.

Definition observed_cost (o : ResponseCostObserver) : option f64 :=
  if failed o || negb (done_ o) then None else head (omap id (costs o)).
Definition has_input (o : ResponseCostObserver) : bool := started o || failed o.
End observer.
