(* ===== verification/CostNumbers.v ===== *)
(** * JSON texts, their numbers and the cost they report

    The reference for [ResponseCost]: the syntax of a JSON text as a tree,
    with every choice the text may make (whitespace, escapes, spellings of
    numbers, repeated members), its rendering, and the cost it reports: the
    value of the last member of each name along a metadata path.  Then the
    number scanner of the observer: what [scalar_feed] has kept of a number
    after its last byte, and with it the cost the scanner reports. *)

From S2P Require Import Prelude ResponseCost.
(** ** Strings *)

(** One character of a JSON string as it is written. *)
Inductive schar : Type :=
| SPlain (c : ascii)
| SEscape (c : ascii)
| SUnicode (a b c d : ascii)
| SPair (h1 h2 h3 h4 l1 l2 l3 l4 : ascii)
| SUtf8 (lead : ascii) (first : ascii) (more : list ascii).

Definition string_of (l : list ascii) : string := foldr String EmptyString l.

Definition render_char (c : schar) : string :=
  match c with
  | SPlain c => String c EmptyString
  | SEscape c => string_of [backslash; c]
  | SUnicode a b c d => string_of [backslash; "u"%char; a; b; c; d]
  | SPair h1 h2 h3 h4 l1 l2 l3 l4 =>
      string_of [backslash; "u"%char; h1; h2; h3; h4; backslash; "u"%char; l1; l2; l3; l4]
  | SUtf8 lead first more => string_of (lead :: first :: more)
  end.

Definition hex4 (a b c d : ascii) : Z :=
  ((hex_value a * 16 + hex_value b) * 16 + hex_value c) * 16 + hex_value d.
Definition all_hex (l : list ascii) : bool := forallb is_ascii_hexdigit l.

Definition schar_ok (c : schar) : bool :=
  match c with
  | SPlain c => in_range 32 127 (byte_val c) && negb (Ascii.eqb c quote) && negb (Ascii.eqb c backslash)
  | SEscape c => simple_escape c
  | SUnicode a b c d => all_hex [a; b; c; d] && negb (in_range 55296 57343 (hex4 a b c d))
  | SPair h1 h2 h3 h4 l1 l2 l3 l4 =>
      all_hex [h1; h2; h3; h4; l1; l2; l3; l4]
      && in_range 55296 56319 (hex4 h1 h2 h3 h4) && in_range 56320 57343 (hex4 l1 l2 l3 l4)
  | SUtf8 lead first more =>
      match utf8_lead lead with
      | Some (n, lo, hi) =>
          (n =? 1 + Z.of_nat (length more)) && in_range lo hi (byte_val first)
          && forallb (λ c, in_range 128 191 (byte_val c)) more
      | None => false
      end
  end.

Abbreviation schars := (list schar).
Definition render_chars (l : schars) : string := foldr (λ c s, render_char c +:+ s) EmptyString l.
Definition render_string (l : schars) : string :=
  String quote (render_chars l +:+ String quote EmptyString).

(** ** Numbers *)

Record number := {
  n_negative : bool;
  n_int : string;
  n_frac : option string;
  (* the letter, the sign and the digits *)
  n_exp : option (ascii * option bool * string)
}.

Definition sign_text (s : option bool) : string :=
  match s with None => "" | Some true => "-" | Some false => "+" end.
Definition render_frac (f : option string) : string :=
  match f with None => "" | Some digits => String "." digits end.
Definition render_exp (e : option (ascii * option bool * string)) : string :=
  match e with None => "" | Some (letter, sign, digits) => String letter (sign_text sign +:+ digits) end.
Definition render_number (n : number) : string :=
  (if n_negative n then "-" else "") +:+ n_int n +:+ render_frac (n_frac n) +:+ render_exp (n_exp n).

Definition digits_ok (s : string) : bool := negb (is_empty s) && all_bytes is_ascii_digit s.
Definition number_ok (n : number) : bool :=
  digits_ok (n_int n)
  && (String.eqb (n_int n) "0" || negb (starts_with (n_int n) "0"))
  && match n_frac n with None => true | Some f => digits_ok f end
  && match n_exp n with
     | None => true
     | Some (letter, _, digits) => (Ascii.eqb letter "e" || Ascii.eqb letter "E") && digits_ok digits
     end.

Fixpoint skip_zeros (s : string) : string :=
  match s with
  | String c r => if Ascii.eqb c "0" then skip_zeros r else s
  | EmptyString => EmptyString
  end.
(** The digits of the mantissa from the first that is not zero. *)
Definition significant (n : number) : string := skip_zeros (n_int n +:+ default "" (n_frac n)).
Definition exponent_value (n : number) : Z :=
  match n_exp n with
  | None => 0
  | Some (_, sign, digits) =>
      let v := Z.min 1000000000 (digits_value digits 0) in
      match sign with Some true => - v | _ => v end
  end.
(** The text a number of more than 128 bytes is reduced to: its first 64
    significant digits and the exponent that restores their weight. *)
Definition reduced_text (n : number) : string :=
  let digits := str_take 64 (significant n) in
  (if n_negative n then "-" else "")
  +:+ (if is_empty digits then "0" else digits)
  +:+ "e" +:+ i64_text (exponent_value n - len (default "" (n_frac n))
                        + (len (significant n) - len digits)).

(** ** Texts *)

Inductive literal : Type := LTrue | LFalse | LNull.
Definition render_literal (l : literal) : string :=
  match l with LTrue => "true" | LFalse => "false" | LNull => "null" end.

(** The whitespace before and after an item or value, and around a key. *)
Record pad := { before_key : string; after_key : string; before_value : string; after_value : string }.

Inductive text : Type :=
| XNumber (n : number)
| XLiteral (l : literal)
| XString (s : schars)
| XArray (empty : string) (items : list (pad * text))
| XObject (empty : string) (members : list (pad * schars * text)).

Definition comma_join (l : list string) : string :=
  match l with
  | [] => EmptyString
  | x :: l => x +:+ foldr (λ y s, String "," (y +:+ s)) EmptyString l
  end.

Fixpoint render (t : text) : string :=
  match t with
  | XNumber n => render_number n
  | XLiteral l => render_literal l
  | XString s => render_string s
  | XArray empty items =>
      String "[" ((if is_nil items then empty
                   else comma_join (map (λ '(p, v), before_value p +:+ render v +:+ after_value p) items))
                  +:+ "]")
  | XObject empty members =>
      String "{" ((if is_nil members then empty
                   else comma_join (map (λ '(p, k, v),
                          before_key p +:+ render_string k +:+ after_key p
                          +:+ String ":" (before_value p +:+ render v +:+ after_value p)) members))
                  +:+ "}")
  end.

Definition ws_ok (s : string) : bool := all_bytes json_whitespace s.
Definition pad_ok (p : pad) : bool :=
  ws_ok (before_key p) && ws_ok (after_key p) && ws_ok (before_value p) && ws_ok (after_value p).

Fixpoint text_ok (t : text) : bool :=
  match t with
  | XNumber n => number_ok n
  | XLiteral _ => true
  | XString s => forallb schar_ok s
  | XArray empty items => ws_ok empty && forallb (λ '(p, v), pad_ok p && text_ok v) items
  | XObject empty members =>
      ws_ok empty && forallb (λ '(p, k, v), pad_ok p && forallb schar_ok k && text_ok v) members
  end.

(** Containers around the innermost value, itself included. *)
Fixpoint depth (t : text) : nat :=
  match t with
  | XArray _ items => S (foldr (λ '(_, v) d, Nat.max (depth v) d) 0%nat items)
  | XObject _ members => S (foldr (λ '(_, v) d, Nat.max (depth v) d) 0%nat members)
  | _ => 0%nat
  end.

(** ** The cost of a text *)

Section cost.
Variable serde_number : string → option f64.
Variable parse_f64 : string → option f64.
Variable serde_string : string → option string.

Definition number_cost (n : number) : option f64 :=
  (if len (render_number n) <=? 128 then serde_number (render_number n)
   else parse_f64 (reduced_text n)) ≫= positive.

Definition text_cost (t : text) : option f64 :=
  match t with XNumber n => number_cost n | _ => None end.

(** The last member of a name; names are compared after decoding. *)
Fixpoint last_member (k : string) (members : list (pad * schars * text)) : option text :=
  match members with
  | [] => None
  | (_, name, v) :: members =>
      match last_member k members with
      | Some v => Some v
      | None => if bool_decide (serde_string (render_string name) = Some k) then Some v else None
      end
  end.

Fixpoint cost_at (p : list string) (t : text) : option f64 :=
  match p with
  | [] => text_cost t
  | k :: p =>
      match t with
      | XObject _ members => last_member k members ≫= cost_at p
      | _ => None
      end
  end.

(** The cost a response reports: the first of the metadata paths that has one. *)
Definition reported_cost (t : text) : option f64 :=
  head (omap (λ p, cost_at p t) COST_PATHS).
End cost.

(** ** Prefixes and leading zeros *)

Lemma snoc_append a c b : snoc a c +:+ b = a +:+ String c b.
Proof. unfold snoc. by rewrite append_assoc. Qed.
Lemma len_cons c s : len (String c s) = 1 + len s.
Proof. unfold len. simpl. lia. Qed.
Lemma len_snoc s c : len (snoc s c) = len s + 1.
Proof. unfold snoc. rewrite len_append, len_cons. change (len "") with 0. lia. Qed.
Lemma is_empty_len s : is_empty s = (len s =? 0).
Proof. destruct s as [|c s]; [done|]. pose proof (len_nonneg s). rewrite len_cons. symmetry. apply Z.eqb_neq. lia. Qed.

Lemma len_take n s : len (str_take n s) = Z.min (Z.of_nat n) (len s).
Proof.
  revert s. induction n as [|n IH]; intros [|c s]; cbn [str_take]; try done.
  rewrite !len_cons, IH. lia.
Qed.
Lemma take_short n s : len s ≤ Z.of_nat n → str_take n s = s.
Proof.
  revert s. induction n as [|n IH]; intros [|c s]; cbn [str_take]; try done.
  rewrite len_cons. intros. rewrite IH by lia. done.
Qed.
Lemma take_snoc n s c :
  str_take n (snoc s c) = if len s <? Z.of_nat n then snoc (str_take n s) c else str_take n s.
Proof.
  revert s. induction n as [|n IH]; intros s; cbn [str_take].
  - pose proof (len_nonneg s). by destruct (Z.ltb_spec (len s) (Z.of_nat 0)); [lia|].
  - destruct s as [|d s]; [by destruct n|]. unfold snoc at 1. cbn [String.append str_take].
    fold (snoc s c). rewrite IH, len_cons.
    destruct (Z.ltb_spec (len s) (Z.of_nat n)), (Z.ltb_spec (1 + len s) (Z.of_nat (S n))); done || lia.
Qed.
Lemma take_take n s : str_take n (str_take n s) = str_take n s.
Proof. apply take_short. rewrite len_take. lia. Qed.

Lemma skip_zeros_snoc m c :
  skip_zeros (snoc m c) =
  if negb (Ascii.eqb c "0") || negb (is_empty (skip_zeros m)) then snoc (skip_zeros m) c else "".
Proof.
  induction m as [|d m IH]; cbn [snoc String.append skip_zeros].
  - unfold snoc. cbn [String.append skip_zeros is_empty negb]. rewrite orb_false_r.
    by destruct (Ascii.eqb c "0").
  - unfold snoc in *. cbn [String.append skip_zeros]. destruct (Ascii.eqb d "0"); [done|].
    cbn [is_empty negb]. by rewrite orb_true_r.
Qed.

(** ** Runs of the scanner *)

Fixpoint scalar_feeds (s : Scalar) (bytes : string) : Scalar :=
  match bytes with
  | EmptyString => s
  | String c bytes => scalar_feeds (scalar_feed s c) bytes
  end.
Lemma scalar_feeds_app s a b : scalar_feeds s (a +:+ b) = scalar_feeds (scalar_feeds s a) b.
Proof. revert s. induction a as [|c a IH]; intros s; simpl; [done|]. apply IH. Qed.

(** Failure is final. *)
Lemma scalar_failed s c : sc_state s = 255 → sc_state (scalar_feed s c) = 255.
Proof.
  intros E. unfold scalar_feed. destruct (negb (is_empty (sc_literal s))); cbn [sc_state].
  - rewrite E. by destruct (is_some_and _ _).
  - rewrite E. unfold scalar_next. by destruct (is_ascii_digit c).
Qed.
Lemma scalar_feeds_failed s a : sc_state s = 255 → sc_state (scalar_feeds s a) = 255.
Proof. revert s. induction a as [|c a IH]; intros s E; simpl; [done|]. by apply IH, scalar_failed. Qed.

(** The raw text is the first 129 bytes. *)
Lemma scalar_feeds_raw s a m :
  sc_raw s = str_take 129 m → sc_raw (scalar_feeds s a) = str_take 129 (m +:+ a).
Proof.
  revert s m. induction a as [|c a IH]; intros s m E; cbn [scalar_feeds].
  - by rewrite append_nil_r.
  - rewrite <- snoc_append. apply IH. rewrite take_snoc.
    transitivity (if len (sc_raw s) <? 129 then snoc (sc_raw s) c else sc_raw s).
    + unfold scalar_feed. by destruct (negb (is_empty (sc_literal s))).
    + rewrite E, len_take. pose proof (len_nonneg m).
      destruct (Z.ltb_spec (Z.min (Z.of_nat 129) (len m)) 129), (Z.ltb_spec (len m) (Z.of_nat 129));
        done || lia.
Qed.

(** What the scanner knows of a number whose mantissa so far is [m], [f]
    digits of it after the point, with the exponent [e]. *)
Record scanned (s : Scalar) (neg : bool) (m : string) (f e : Z) (eneg : bool) : Prop := {
  scanned_literal : sc_literal s = "";
  scanned_digits : sc_digits s = str_take 64 (skip_zeros m);
  scanned_omitted : sc_omitted s = len (skip_zeros m) - len (str_take 64 (skip_zeros m));
  scanned_fraction : sc_fraction s = f;
  scanned_exponent : sc_exponent s = Z.min 1000000000 e;
  scanned_exponent_negative : sc_exponent_negative s = eneg;
  scanned_negative : sc_negative s = neg
}.

Ltac scalar_fields :=
  cbn [sc_raw sc_state sc_literal sc_offset sc_digits sc_fraction sc_omitted sc_exponent
       sc_exponent_negative sc_negative].

Lemma scanned_mantissa s neg m f e eneg c :
  scanned s neg m f e eneg → is_ascii_digit c = true → in_range 6 8 (sc_state s) = false →
  scanned (scalar_feed s c) neg (snoc m c)
    (if one_of_states [4; 5] (sc_state s) then f + 1 else f) e eneg.
Proof.
  intros [] Hc Hs. unfold scalar_feed. rewrite scanned_literal0. cbn [is_empty negb].
  rewrite Hc, Hs. cbn [negb andb]. rewrite orb_false_r.
  assert (Hemp : is_empty (sc_digits s) = is_empty (skip_zeros m)).
  { rewrite scanned_digits0, !is_empty_len, len_take. pose proof (len_nonneg (skip_zeros m)).
    destruct (Z.eqb_spec (len (skip_zeros m)) 0); [by apply Z.eqb_eq; lia|apply Z.eqb_neq; lia]. }
  rewrite Hemp. split; scalar_fields; try by rewrite ?scanned_fraction0.
  all: rewrite skip_zeros_snoc;
    destruct (negb (Ascii.eqb c "0") || negb (is_empty (skip_zeros m))) eqn:E; cbn [andb].
  - rewrite take_snoc, scanned_digits0, len_take.
    destruct (Z.ltb_spec (len (skip_zeros m)) (Z.of_nat 64)).
    + rewrite Z.min_r by lia. rewrite (proj2 (Z.ltb_lt _ _)) by lia. done.
    + rewrite Z.min_l by lia. done.
  - apply orb_false_iff in E as [_ E]. apply negb_false_iff in E.
    destruct (skip_zeros m); [done|discriminate E].
  - rewrite scanned_digits0, scanned_omitted0, !len_take, len_snoc.
    pose proof (len_nonneg (skip_zeros m)).
    destruct (Z.ltb_spec (Z.min (Z.of_nat 64) (len (skip_zeros m))) 64); cbn [negb]; lia.
  - apply orb_false_iff in E as [_ E]. apply negb_false_iff in E. rewrite scanned_omitted0.
    destruct (skip_zeros m); [done|discriminate E].
Qed.

Lemma digit_value c : is_ascii_digit c = true → 0 ≤ byte_val c - 48 ≤ 9.
Proof. unfold is_ascii_digit. rewrite in_range_iff. lia. Qed.

Lemma scanned_exp_digit s neg m f e eneg c :
  scanned s neg m f e eneg → is_ascii_digit c = true → in_range 6 8 (sc_state s) = true → 0 ≤ e →
  scanned (scalar_feed s c) neg m f (10 * e + (byte_val c - 48)) eneg.
Proof.
  intros [] Hc Hs He. pose proof (digit_value c Hc). unfold scalar_feed.
  rewrite scanned_literal0. cbn [is_empty negb]. rewrite Hc, Hs. cbn [negb andb]. rewrite orb_false_r.
  split; scalar_fields; try done. rewrite scanned_exponent0. lia.
Qed.

(** A byte that is not a digit leaves the number as it is, the exponent's minus apart. *)
Lemma scanned_other s neg m f e eneg c :
  scanned s neg m f e eneg → is_ascii_digit c = false →
  scanned (scalar_feed s c) neg m f e (eneg || ((sc_state s =? 6) && Ascii.eqb c "-")).
Proof.
  intros [] Hc. unfold scalar_feed. rewrite scanned_literal0. cbn [is_empty negb].
  rewrite Hc. cbn [negb andb]. by split; scalar_fields; rewrite ?scanned_exponent_negative0.
Qed.

(** ** Phases of a number *)

Lemma digit_not c d : is_ascii_digit c = true → is_ascii_digit d = false → Ascii.eqb c d = false.
Proof. intros Hc Hd. destruct (Ascii.eqb_spec c d); [congruence|done]. Qed.

Lemma feed_state s c : sc_literal s = "" → sc_state (scalar_feed s c) = scalar_next (sc_state s) c.
Proof. intros E. unfold scalar_feed. by rewrite E. Qed.

(** Digits of a mantissa keep the scanner in the state it is in, once it is
    past the first. *)
Lemma mantissa_digits s neg m f e eneg a st :
  scanned s neg m f e eneg → all_bytes is_ascii_digit a = true →
  sc_state s = st → st = 3 ∨ st = 5 →
  let s' := scalar_feeds s a in
  sc_state s' = st ∧
  scanned s' neg (m +:+ a) (if st =? 5 then f + len a else f) e eneg.
Proof.
  revert s m f. induction a as [|c a IH]; intros s m f Hs Ha E Hst; cbn [all_bytes scalar_feeds] in *.
  - rewrite append_nil_r. change (len "") with 0. rewrite Z.add_0_r. by destruct (st =? 5).
  - apply andb_true_iff in Ha as [Hc Ha].
    assert (E' : sc_state (scalar_feed s c) = st).
    { rewrite feed_state by apply Hs. rewrite E. unfold scalar_next. rewrite Hc.
      destruct Hst as [-> | ->]; cbn -[Ascii.eqb]; by rewrite ?(digit_not c) by done. }
    pose proof (scanned_mantissa s neg m f e eneg c Hs Hc) as H.
    rewrite E in H. specialize (H ltac:(by destruct Hst as [-> | ->])).
    destruct (IH _ _ _ H Ha E' Hst) as [? H2]. split; [done|].
    rewrite snoc_append in H2. rewrite len_cons.
    by destruct Hst as [-> | ->]; cbn in H2 |- *; [|rewrite Z.add_assoc].
Qed.

Lemma exponent_digits s neg m f e eneg a :
  scanned s neg m f e eneg → all_bytes is_ascii_digit a = true →
  in_range 6 8 (sc_state s) = true → 0 ≤ e →
  let s' := scalar_feeds s a in
  sc_state s' = (if is_empty a then sc_state s else 8) ∧
  scanned s' neg m f (digits_value a e) eneg.
Proof.
  revert s e. induction a as [|c a IH]; intros s e Hs Ha E He; cbn [all_bytes scalar_feeds digits_value] in *.
  - done.
  - apply andb_true_iff in Ha as [Hc Ha]. pose proof (digit_value c Hc).
    assert (E' : sc_state (scalar_feed s c) = 8).
    { rewrite feed_state by apply Hs. unfold scalar_next. rewrite Hc, E.
      apply in_range_iff in E. unfold one_of_states, existsb.
      repeat match goal with |- context [?x =? ?y] => rewrite (proj2 (Z.eqb_neq x y)) by lia end.
      cbn [orb andb]. rewrite !(digit_not c) by done. rewrite ?andb_false_r. done. }
    destruct (IH _ _ (scanned_exp_digit _ _ _ _ _ _ _ Hs Hc E He) Ha ltac:(by rewrite E')) as [-> H2];
      [lia|]. split; [|done]. rewrite E'. by destruct (is_empty a).
Qed.

Definition blank (negative : bool) : Scalar :=
  {| sc_raw := ""; sc_state := 0; sc_literal := ""; sc_offset := 0; sc_digits := "";
     sc_fraction := 0; sc_omitted := 0; sc_exponent := 0; sc_exponent_negative := false;
     sc_negative := negative |}.
Lemma blank_scanned neg : scanned (blank neg) neg "" 0 0 false.
Proof. by split. Qed.

Lemma sign_run neg :
  let s := scalar_feeds (blank neg) (if neg then "-" else "") in
  one_of_states [0; 1] (sc_state s) = true ∧ scanned s neg "" 0 0 false.
Proof. by destruct neg. Qed.

Lemma int_run s neg a :
  one_of_states [0; 1] (sc_state s) = true → scanned s neg "" 0 0 false →
  digits_ok a = true → String.eqb a "0" || negb (starts_with a "0") = true →
  let s' := scalar_feeds s a in
  one_of_states [2; 3] (sc_state s') = true ∧ scanned s' neg a 0 0 false.
Proof.
  intros Hst Hs Ha Hz. destruct a as [|c a]; [done|].
  unfold digits_ok in Ha. cbn [is_empty negb andb all_bytes] in Ha.
  apply andb_true_iff in Ha as [Hc Ha]. cbn [scalar_feeds].
  assert (Hst' : sc_state s = 0 ∨ sc_state s = 1).
  { unfold one_of_states, existsb in Hst. rewrite orb_false_r in Hst.
    apply orb_true_iff in Hst as [?%Z.eqb_eq|?%Z.eqb_eq]; auto. }
  assert (H : scanned (scalar_feed s c) neg (String c "") 0 0 false).
  { pose proof (scanned_mantissa s neg "" 0 0 false c Hs Hc) as H.
    by destruct Hst' as [E|E]; rewrite E in H; apply H. }
  assert (E : sc_state (scalar_feed s c) = if Ascii.eqb c "0" then 2 else 3).
  { rewrite feed_state by apply Hs. unfold scalar_next. rewrite Hst, Hc. cbn [andb orb].
    rewrite (digit_not c "-"), andb_false_r by done. by destruct (Ascii.eqb c "0"). }
  destruct (Ascii.eqb c "0") eqn:Ez.
  - apply Ascii.eqb_eq in Ez as ->. destruct a as [|d a]; [|by destruct d as [[][][][][][][][]]].
    cbn [scalar_feeds]. by rewrite E.
  - destruct (mantissa_digits _ _ _ _ _ _ a 3 H Ha E) as [E2 H2]; [auto|]. by rewrite E2.
Qed.

Lemma feeds_cons s c a : scalar_feeds s (String c a) = scalar_feeds (scalar_feed s c) a.
Proof. done. Qed.

Lemma frac_run s neg m o :
  one_of_states [2; 3] (sc_state s) = true → scanned s neg m 0 0 false →
  match o with None => true | Some f => digits_ok f end = true →
  let s' := scalar_feeds s (render_frac o) in
  one_of_states [2; 3; 5] (sc_state s') = true ∧
  scanned s' neg (m +:+ default "" o) (len (default "" o)) 0 false.
Proof.
  intros Hst Hs Ho. destruct o as [[|c a]|]; cbn [render_frac default]; [done| |].
  - unfold digits_ok in Ho. cbn [is_empty negb andb all_bytes] in Ho.
    apply andb_true_iff in Ho as [Hc Ha]. rewrite !feeds_cons.
    assert (E : sc_state (scalar_feed s ".") = 4).
    { rewrite feed_state by apply Hs. unfold scalar_next. rewrite Hst.
      change (Ascii.eqb "." "-") with false. change (is_ascii_digit ".") with false.
      change (Ascii.eqb "." "0") with false. by rewrite !andb_false_r. }
    assert (H : scanned (scalar_feed s ".") neg m 0 0 false).
    { pose proof (scanned_other s neg m 0 0 false "." Hs eq_refl) as H.
      change (Ascii.eqb "." "-") with false in H. by rewrite andb_false_r in H. }
    pose proof (scanned_mantissa _ _ _ _ _ _ c H Hc) as H2. rewrite E in H2. specialize (H2 eq_refl).
    assert (E2 : sc_state (scalar_feed (scalar_feed s ".") c) = 5).
    { rewrite feed_state by apply H. rewrite E. unfold scalar_next. rewrite Hc. done. }
    destruct (mantissa_digits _ _ _ _ _ _ a 5 H2 Ha E2) as [E3 H3]; [auto|].
    rewrite E3. split; [done|]. rewrite snoc_append in H3. cbn [id]. by rewrite len_cons.
  - rewrite append_nil_r. split; [|done]. unfold one_of_states, existsb in *. cbn [scalar_feeds].
    by destruct (sc_state s =? 2), (sc_state s =? 3).
Qed.

Definition exp_magnitude (e : option (ascii * option bool * string)) : Z :=
  match e with None => 0 | Some (_, _, digits) => digits_value digits 0 end.
Definition exp_negative (e : option (ascii * option bool * string)) : bool :=
  match e with Some (_, Some true, _) => true | _ => false end.

Lemma exp_run s neg m f o :
  one_of_states [2; 3; 5] (sc_state s) = true → scanned s neg m f 0 false →
  match o with
  | None => true
  | Some (letter, _, digits) => (Ascii.eqb letter "e" || Ascii.eqb letter "E") && digits_ok digits
  end = true →
  let s' := scalar_feeds s (render_exp o) in
  one_of_states [2; 3; 5; 8] (sc_state s') = true ∧
  scanned s' neg m f (exp_magnitude o) (exp_negative o).
Proof.
  intros Hst Hs Ho. destruct o as [[[letter sign] a]|]; cbn [render_exp exp_magnitude exp_negative].
  2:{ split; [|done]. unfold one_of_states, existsb in *. cbn [scalar_feeds].
      by destruct (sc_state s =? 2), (sc_state s =? 3), (sc_state s =? 5). }
  apply andb_true_iff in Ho as [Hl Ha]. unfold digits_ok in Ha. apply andb_true_iff in Ha as [Hne Ha].
  rewrite feeds_cons. rewrite scalar_feeds_app.
  assert (Hd : is_ascii_digit letter = false ∧ Ascii.eqb letter "-" = false ∧ Ascii.eqb letter "0" = false
               ∧ Ascii.eqb letter "." = false).
  { apply orb_true_iff in Hl as [->%Ascii.eqb_eq| ->%Ascii.eqb_eq]; done. }
  destruct Hd as (Hd & Hm & Hz & Hp).
  assert (Hst' : sc_state s = 2 ∨ sc_state s = 3 ∨ sc_state s = 5).
  { unfold one_of_states, existsb in Hst. rewrite orb_false_r, !orb_true_iff, !Z.eqb_eq in Hst. auto. }
  assert (E : sc_state (scalar_feed s letter) = 6).
  { rewrite feed_state by apply Hs. unfold scalar_next. rewrite Hd, Hm, Hz, Hp, Hl, Hst.
    by rewrite !andb_false_r. }
  assert (H : scanned (scalar_feed s letter) neg m f 0 false).
  { pose proof (scanned_other s neg m f 0 false letter Hs Hd) as H.
    by rewrite Hm, andb_false_r in H. }
  set (s1 := scalar_feed s letter) in *.
  assert (H2 : in_range 6 8 (sc_state (scalar_feeds s1 (sign_text sign))) = true ∧
               scanned (scalar_feeds s1 (sign_text sign)) neg m f 0 (exp_negative (Some (letter, sign, a)))).
  { destruct sign as [[|]|]; cbn [sign_text scalar_feeds exp_negative]; [| |by rewrite E];
      (split; [rewrite feed_state by apply H; by rewrite E|]).
    - pose proof (scanned_other s1 neg m f 0 false "-" H eq_refl) as H'. by rewrite E in H'.
    - pose proof (scanned_other s1 neg m f 0 false "+" H eq_refl) as H'. by rewrite E in H'. }
  destruct H2 as [Hr H2].
  destruct (exponent_digits _ _ _ _ _ _ a H2 Ha Hr) as [E3 H3]; [lia|].
  rewrite E3. apply negb_true_iff in Hne. by rewrite Hne.
Qed.

(** The scanner after a well-formed number. *)
Lemma number_run n :
  number_ok n = true →
  let s := scalar_feeds (blank (n_negative n)) (render_number n) in
  one_of_states [2; 3; 5; 8] (sc_state s) = true ∧
  sc_raw s = str_take 129 (render_number n) ∧
  scanned s (n_negative n) (n_int n +:+ default "" (n_frac n)) (len (default "" (n_frac n)))
    (exp_magnitude (n_exp n)) (exp_negative (n_exp n)).
Proof.
  unfold number_ok. intros H. apply andb_true_iff in H as [H He]. apply andb_true_iff in H as [H Hf].
  apply andb_true_iff in H as [Hi Hz]. rewrite (scalar_feeds_raw _ _ "") by done.
  unfold render_number. rewrite !scalar_feeds_app.
  destruct (sign_run (n_negative n)) as [S1 H1].
  destruct (int_run _ _ _ S1 H1 Hi Hz) as [S2 H2].
  destruct (frac_run _ _ _ _ S2 H2 Hf) as [S3 H3].
  by destruct (exp_run _ _ _ _ _ S3 H3 He).
Qed.

(** The scanner's cost of a number is the cost of the number. *)
Lemma number_cost_scanned serde_number parse_f64 n :
  number_ok n = true →
  scalar_cost serde_number parse_f64 (scalar_feeds (blank (n_negative n)) (render_number n))
  = number_cost serde_number parse_f64 n.
Proof.
  intros Hn. destruct (number_run n Hn) as (_ & Hraw & []).
  unfold scalar_cost, number_cost. rewrite scanned_literal0, Hraw, len_take. cbn [is_empty negb].
  f_equal. destruct (Z.leb_spec (len (render_number n)) 128).
  - rewrite (proj2 (Z.leb_le _ _)) by lia. by rewrite take_short by lia.
  - rewrite (proj2 (Z.leb_gt _ _)) by lia. unfold reduced_text, significant, exponent_value.
    rewrite scanned_negative0, scanned_digits0, scanned_omitted0, scanned_fraction0,
      scanned_exponent0, scanned_exponent_negative0.
    by destruct (n_exp n) as [[[l [[|]|]] a]|].
Qed.
