(* ===== verification/CostEquivalence.v ===== *)
(** * The observed cost is the reported cost

    The observer of [ResponseCost] against the reference of [CostNumbers]:
    whatever way a well-formed response is written and cut into chunks, the
    observer finds the cost it reports.  And on arbitrary bytes: it never
    leaves by a panic, and everything it keeps is bounded. *)

From S2P Require Import Prelude ResponseCost CostNumbers.
(** ** Bytes *)

Definition terminator (c : ascii) : bool :=
  json_whitespace c || existsb (Ascii.eqb c) [","; "}"; "]"]%char.

Ltac every_byte c := destruct c as [[][][][][][][][]].

Lemma scalar_start_other c :
  scalar_start c = true →
  json_whitespace c = false ∧ Ascii.eqb c quote = false ∧ Ascii.eqb c "{" || Ascii.eqb c "[" = false ∧
  Ascii.eqb c "}" || Ascii.eqb c "]" = false ∧ Ascii.eqb c ":" = false ∧ Ascii.eqb c "," = false.
Proof. every_byte c; vm_compute; intros H; repeat split; discriminate H. Qed.

Definition number_byte (c : ascii) : bool :=
  is_ascii_digit c || existsb (Ascii.eqb c) ["+"; "-"; "."; "e"; "E"]%char.
Lemma number_byte_inside c : number_byte c = true → terminator c = false.
Proof. every_byte c; vm_compute; done. Qed.

Lemma all_bytes_impl (p q : ascii → bool) s :
  (∀ c, p c = true → q c = true) → all_bytes p s = true → all_bytes q s = true.
Proof.
  intros H. induction s as [|c s IH]; cbn [all_bytes]; [done|].
  intros [Hc Hs]%andb_true_iff. by rewrite (H c Hc), IH.
Qed.
Lemma number_bytes n : number_ok n = true → all_bytes (λ c, negb (terminator c)) (render_number n) = true.
Proof.
  intros Hn. apply (all_bytes_impl number_byte).
  { intros c Hc. by rewrite number_byte_inside. }
  assert (Hd : ∀ s, all_bytes is_ascii_digit s = true → all_bytes number_byte s = true).
  { intros s. apply all_bytes_impl. intros c Hc. unfold number_byte. by rewrite Hc. }
  unfold number_ok, digits_ok in Hn. bool_prop. unfold render_number. rewrite !all_bytes_append.
  rewrite (Hd (n_int n)) by done. apply andb_true_iff; split; [by destruct (n_negative n)|]. cbn [andb].
  destruct (n_frac n) as [f|]; cbn [render_frac]; bool_prop; cbn [all_bytes];
    rewrite ?(Hd f) by done; cbn [andb].
  all: destruct (n_exp n) as [[[l sg] d]|]; cbn [render_exp]; [|done]; bool_prop; cbn [all_bytes];
    rewrite all_bytes_append, (Hd d), andb_true_r by done.
  all: rewrite ?andb_true_l; apply andb_true_iff; split; [|by destruct sg as [[]|]].
  all: destruct (Ascii.eqb_spec l "e") as [->|]; [done|];
    destruct (Ascii.eqb_spec l "E") as [->|]; done.
Qed.

(** The first byte of a number. *)
Lemma number_start n :
  number_ok n = true →
  ∃ c r, render_number n = String c r ∧ scalar_start c = true ∧
         scalar_new c = scalar_feed (blank (n_negative n)) c.
Proof.
  unfold number_ok, digits_ok. intros Hn. bool_prop. unfold render_number.
  destruct (n_negative n); [by eexists _, _|].
  destruct (n_int n) as [|c r]; [done|]. cbn [String.append all_bytes] in *. bool_prop.
  eexists _, _. split; [done|]. 
  assert (is_ascii_digit c = true →
          scalar_start c = true ∧ literal_of c = "" ∧ Ascii.eqb c "-" = false) as Hc.
  { clear. every_byte c; vm_compute; done. }
  destruct Hc as (? & El & Em); [done|]. split; [done|]. unfold scalar_new. by rewrite El, Em.
Qed.

(** ** Paths *)

Lemma zip_all_eq_refl p : zip_all_eq p p = true.
Proof. induction p as [|x p IH]; simpl; [done|]. by rewrite String.eqb_refl. Qed.
Lemma within_iff p t : within p t = true ↔ p `prefix_of` t.
Proof.
  unfold within. revert t. induction p as [|x p IH]; intros t.
  - destruct t; split; intros; done || apply prefix_nil.
  - destruct t as [|y t].
    + split; [done|]. intros H%prefix_length. simpl in H. lia.
    + cbn [zip_all_eq length]. specialize (IH t). change (S (length p) <=? S (length t))%nat
        with (length p <=? length t)%nat.
      destruct (String.eqb_spec x y) as [->|Hne]; cbn [andb].
      * rewrite IH. split; [apply prefix_cons|apply prefix_cons_inv_2].
      * rewrite andb_false_r. split; [done|]. intros H%prefix_cons_inv_1. done.
Qed.
Lemma at_target_iff p t : at_target p t = true ↔ p = t.
Proof.
  unfold at_target. revert t. induction p as [|x p IH]; intros [|y t]; simpl; try done.
  specialize (IH t). destruct (String.eqb_spec x y) as [->|Hne]; cbn [andb].
  - rewrite IH. naive_solver.
  - rewrite andb_false_r. naive_solver.
Qed.
Lemma within_false p t : within p t = false ↔ ¬ p `prefix_of` t.
Proof. rewrite <- within_iff. by destruct (within p t). Qed.

(** No metadata path has an empty component, or one of more than 14 bytes. *)
Definition component_ok (k : string) : bool := negb (is_empty k) && (len k <=? 14).
Lemma target_components t : t ∈ COST_PATHS → Forall (λ k, component_ok k = true) t.
Proof.
  assert (H : Forall (Forall (λ k, component_ok k = true)) COST_PATHS)
    by (repeat constructor). rewrite Forall_forall in H. apply H.
Qed.
Lemma target_snoc_empty p t : t ∈ COST_PATHS → within (p ++ [""]) t = false.
Proof.
  intros Ht%target_components. apply within_false. intros [r ->].
  rewrite !Forall_app in Ht. destruct Ht as [[_ H%Forall_cons] _]. by destruct H.
Qed.
Lemma target_cons_empty p t : t ∈ COST_PATHS → within ("" :: p) t = false.
Proof. intros Ht%target_components. apply within_false. intros [r ->]. by inversion Ht. Qed.

Lemma shorten_within q t : t ∈ COST_PATHS → within q t = true → shorten q = q.
Proof.
  intros Ht Hw. unfold shorten. replace (existsb (within q) COST_PATHS) with true; [done|].
  symmetry. apply existsb_exists. exists t. split; [|done]. by apply list_elem_of_In.
Qed.
Lemma shorten_outside q k t :
  t ∈ COST_PATHS → within q t = false → within (shorten q ++ [k]) t = false ∧ at_target (shorten q) t = false.
Proof.
  intros Ht Hw. unfold shorten. destruct (existsb (within q) COST_PATHS).
  - apply within_false in Hw. split.
    + apply within_false. intros [r ->]. apply Hw. exists ([k] ++ r). by rewrite app_assoc.
    + apply not_true_iff_false. rewrite at_target_iff. intros ->. by apply Hw.
  - split; [by apply (target_cons_empty [k])|]. apply not_true_iff_false. rewrite at_target_iff.
    intros <-. apply target_components in Ht. by inversion Ht.
Qed.

Lemma zip_with_ext_in {A B C} (f g : A → B → C) l k :
  (∀ a b, a ∈ l → f a b = g a b) → zip_with f l k = zip_with g l k.
Proof.
  revert k. induction l as [|a l IH]; intros [|b k] H; simpl; try done.
  rewrite H by left. f_equal. apply IH. intros. apply H. by right.
Qed.
Lemma zip_with_zip_with {A B} (f g : A → B → B) l k :
  zip_with f l (zip_with g l k) = zip_with (λ a b, f a (g a b)) l k.
Proof. revert k. induction l as [|a l IH]; intros [|b k]; simpl; congruence. Qed.
Lemma zip_with_snd {A B} (l : list A) (k : list B) : length k = length l → zip_with (λ _ b, b) l k = k.
Proof. revert k. induction l as [|a l IH]; intros [|b k] H; simpl in *; try done. f_equal. apply IH. lia. Qed.

(** ** Induction over texts *)

Section text_induction.
Variable P : text → Prop.
Hypothesis P_number : ∀ n, P (XNumber n).
Hypothesis P_literal : ∀ l, P (XLiteral l).
Hypothesis P_string : ∀ s, P (XString s).
Hypothesis P_array : ∀ e items, Forall (λ i, P i.2) items → P (XArray e items).
Hypothesis P_object : ∀ e members, Forall (λ m, P m.2) members → P (XObject e members).

Fixpoint text_induction (t : text) : P t :=
  match t with
  | XNumber n => P_number n
  | XLiteral l => P_literal l
  | XString s => P_string s
  | XArray e items =>
      P_array e items ((fix go (l : list (pad * text)) : Forall (λ i, P i.2) l :=
        match l with
        | [] => Forall_nil_2 _
        | (p, v) :: l => Forall_cons_2 _ (p, v) l (text_induction v) (go l)
        end) items)
  | XObject e members =>
      P_object e members ((fix go (l : list (pad * schars * text)) : Forall (λ m, P m.2) l :=
        match l with
        | [] => Forall_nil_2 _
        | (pk, v) :: l => Forall_cons_2 _ (pk, v) l (text_induction v) (go l)
        end) members)
  end.
End text_induction.

Section equivalence.
Variable serde_number : string → option f64.
Variable parse_f64 : string → option f64.
Variable serde_string : string → option string.

Abbreviation feed := (ResponseCost.feed serde_number parse_f64 serde_string).
Abbreviation feed_byte := (ResponseCost.feed_byte serde_number parse_f64 serde_string).

(** ** Runs of the observer *)

(** Feeding chunk by chunk is feeding their concatenation. *)
Lemma feed_app o a b : feed o (a +:+ b) = feed o a ≫= λ o, feed o b.
Proof.
  revert o. induction a as [|c a IH]; intros o; [done|]. cbn [String.append ResponseCost.feed].
  destruct (feed_byte o c) as [o'|]; [|done]. cbn. apply IH.
Qed.

(** The observer inside a document. *)
Definition obs (st : list Frame) (tok : option Token) (cs : list (option f64)) : ResponseCostObserver :=
  {| stack := st; token := tok; costs := cs; started := true; done_ := false; failed := false |}.

Lemma ws_run st cs w s : ws_ok w = true → feed (obs st None cs) (w +:+ s) = feed (obs st None cs) s.
Proof.
  unfold ws_ok. induction w as [|c w IH]; cbn [all_bytes String.append]; [done|].
  intros [Hc Hw]%andb_true_iff. cbn [ResponseCost.feed]. unfold ResponseCost.feed_byte at 1.
  cbn -[structural ResponseCost.feed]. unfold structural. rewrite Hc. cbn -[ResponseCost.feed]. auto.
Qed.

(** *** Scalars *)

Lemma scalar_run st cs p a s :
  all_bytes (λ c, negb (terminator c)) a = true → sc_state (scalar_feeds s a) ≠ 255 →
  feed (obs st (Some (TokScalar s p)) cs) a = Some (obs st (Some (TokScalar (scalar_feeds s a) p)) cs).
Proof.
  revert s. induction a as [|c a IH]; intros s Ha Hs; [done|].
  cbn [all_bytes] in Ha. apply andb_true_iff in Ha as [Hc%negb_true_iff Ha].
  cbn [ResponseCost.feed scalar_feeds] in *. unfold ResponseCost.feed_byte. cbn [failed obs].
  unfold consume_token. cbn [token obs]. fold (terminator c). rewrite Hc.
  replace (sc_state (scalar_feed s c) =? 255) with false.
  - cbn [mbind option_bind]. by apply IH.
  - symmetry. apply Z.eqb_neq. intros E. by apply Hs, scalar_feeds_failed.
Qed.

Lemma scalar_end st cs p s c r :
  terminator c = true → scalar_valid s = true →
  feed (obs st (Some (TokScalar s p)) cs) (String c r)
  = feed (obs st None (record_costs p (scalar_cost serde_number parse_f64 s) cs)) (String c r).
Proof.
  intros Hc Hs. cbn [ResponseCost.feed]. f_equal. unfold ResponseCost.feed_byte. cbn [failed obs].
  unfold consume_token. cbn [token obs]. fold (terminator c). rewrite Hc. unfold finish_scalar.
  cbn [token obs]. by rewrite Hs.
Qed.

(** *** Where a value may start *)

(** The innermost frame waits for the value at path [q]. *)
Definition ready (f : Frame) (q : list string) : Prop :=
  expects_value (expect f) = true ∧
  ∃ k, (if object f then key f else Some "") = Some k ∧ q = path f ++ [k].
Definition after (f : Frame) : Frame :=
  set_expect CommaOrEnd (if object f then None else key f) f.

Lemma value_path_ready f rest cs q :
  ready f q →
  value_path (obs (f :: rest) None cs)
  = (obs (after f :: rest) None (clear_costs q cs), Some (shorten q)).
Proof. intros (He & k & Hk & ->). unfold value_path. cbn [stack obs]. by rewrite He, Hk. Qed.

Lemma ready_no_key f q : ready f q → object f && expects_key (expect f) = false.
Proof. intros (He & _). destruct (object f); [|done]. by destruct (expect f). Qed.

Lemma scalar_begin f rest cs q c :
  ready f q → scalar_start c = true →
  feed_byte (obs (f :: rest) None cs) c
  = Some (obs (after f :: rest) (Some (TokScalar (scalar_new c) (shorten q))) (clear_costs q cs)).
Proof.
  intros Hf Hc. destruct (scalar_start_other c Hc) as (E1 & E2 & E3 & E4 & E5 & E6).
  unfold ResponseCost.feed_byte. cbn [failed obs]. unfold consume_token. cbn [token obs].
  unfold structural. rewrite E1, E2, E3, E4, E5, E6, Hc. cbn [started done_ negb obs stack andb].
  by rewrite (value_path_ready f rest cs q).
Qed.

(** *** Strings *)

Definition tok (k : bool) (raw : option string) (esc : bool) (u cp sur utf8 lo hi : Z) : StringToken :=
  {| st_key := k; st_raw := raw; st_escape := esc; st_unicode := u; st_codepoint := cp;
     st_surrogate := sur; st_utf8 := utf8; st_next_min := lo; st_next_max := hi |}.

(** Between two characters of a string. *)
Definition idle (k : bool) (raw : option string) (t : StringToken) : Prop :=
  ∃ cp lo hi, t = tok k raw false 0 cp 0 0 lo hi.

Fixpoint keep_raws (raw : option string) (a : string) : option string :=
  match a with EmptyString => raw | String c a => keep_raws (keep_raw raw c) a end.
Lemma keep_raws_app raw a b : keep_raws raw (a +:+ b) = keep_raws (keep_raws raw a) b.
Proof. revert raw. induction a as [|c a IH]; intros raw; simpl; [done|]. apply IH. Qed.

Lemma string_step st cs t t' c :
  at_char t && Ascii.eqb c quote = false →
  string_byte (with_raw (keep_raw (st_raw t) c) t) c = (t', false) →
  feed_byte (obs st (Some (TokString t)) cs) c = Some (obs st (Some (TokString t')) cs).
Proof.
  intros Hq Hb. unfold ResponseCost.feed_byte. cbn [failed obs]. unfold consume_token. cbn [token obs].
  change (at_char (with_raw (keep_raw (st_raw t) c) t)) with (at_char t). by rewrite Hq, Hb.
Qed.

Lemma codepoint_step x h :
  0 ≤ x < 4096 → 0 ≤ h < 16 → Z.lor (Z.shiftl x 4 mod 2 ^ 16) h = x * 16 + h.
Proof.
  intros Hx Hh. rewrite Z.shiftl_mul_pow2 by lia. rewrite Z.mod_small by lia.
  by rewrite lor_disjoint by lia.
Qed.
Lemma hex_value_range c : 0 ≤ hex_value c < 16.
Proof. every_byte c; vm_compute; done. Qed.

(** The four hexadecimal digits of an escape. *)
Lemma hex_run st cs k raw esc sur lo hi a b c d r :
  all_hex [a; b; c; d] = true →
  feed (obs st (Some (TokString (tok k raw esc 4 0 sur 0 lo hi))) cs) (String a (String b (String c r)))
  = feed (obs st (Some (TokString (tok k (keep_raws raw (string_of [a; b; c])) esc 1
           ((hex_value a * 16 + hex_value b) * 16 + hex_value c) sur 0 lo hi))) cs) r.
Proof.
  intros H. unfold all_hex, forallb in H. bool_prop.
  pose proof (hex_value_range a). pose proof (hex_value_range b). pose proof (hex_value_range c).
  assert (Hs : ∀ raw u cp x r, 1 < u → 0 ≤ cp < 4096 → is_ascii_hexdigit x = true →
    feed (obs st (Some (TokString (tok k raw esc u cp sur 0 lo hi))) cs) (String x r)
    = feed (obs st (Some (TokString (tok k (keep_raw raw x) esc (u - 1) (cp * 16 + hex_value x) sur 0 lo hi))) cs) r).
  { intros raw' u cp x r' Hu Hcp Hx. pose proof (hex_value_range x). cbn [ResponseCost.feed].
    erewrite string_step; [reflexivity| |].
    - unfold at_char. cbn. rewrite (proj2 (Z.ltb_lt 0 u)) by lia. done.
    - unfold string_byte. cbn -[Z.lor Z.shiftl Z.pow Z.modulo].
      rewrite (proj2 (Z.ltb_lt 0 u)), (proj2 (Z.eqb_neq (u - 1) 0)) by lia.
      rewrite codepoint_step by lia. by rewrite Hx. }
  rewrite (Hs raw) by (done || lia). rewrite Hs by (done || lia). rewrite Hs by (done || lia).
  done.
Qed.

(** A [\u] escape from its letter on: what the last digit leaves. *)
Lemma unicode_run st cs k raw esc sur lo hi a b c d t' r :
  all_hex [a; b; c; d] = true →
  string_byte (tok k (keep_raws raw (string_of [a; b; c; d])) esc 1
    ((hex_value a * 16 + hex_value b) * 16 + hex_value c) sur 0 lo hi) d = (t', false) →
  feed (obs st (Some (TokString (tok k raw esc 4 0 sur 0 lo hi))) cs) (string_of [a; b; c; d] +:+ r)
  = feed (obs st (Some (TokString t')) cs) r.
Proof.
  intros H Hd. cbn [string_of foldr String.append]. rewrite (hex_run _ _ _ _ _ _ _ _ a b c d) by done.
  cbn [ResponseCost.feed]. by erewrite string_step; [|done|exact Hd].
Qed.

Lemma last_hex k raw esc x sur lo hi d :
  0 ≤ x < 4096 → is_ascii_hexdigit d = true →
  string_byte (tok k raw esc 1 x sur 0 lo hi) d
  = (let cp := x * 16 + hex_value d in
     let low := in_range 56320 57343 cp in
     if sur =? 3 then (tok k raw esc 0 cp 0 0 lo hi, negb low)
     else if in_range 55296 56319 cp then (tok k raw esc 0 cp 1 0 lo hi, false)
     else (tok k raw esc 0 cp sur 0 lo hi, low)).
Proof.
  intros Hx Hd. pose proof (hex_value_range d). unfold string_byte.
  cbn -[Z.lor Z.shiftl Z.pow Z.modulo in_range]. rewrite codepoint_step by lia. rewrite Hd. cbn [negb orb].
  by destruct (sur =? 3); [|destruct (in_range 55296 56319 _)].
Qed.

Lemma hex3_range a b c : 0 ≤ (hex_value a * 16 + hex_value b) * 16 + hex_value c < 4096.
Proof. pose proof (hex_value_range a). pose proof (hex_value_range b). pose proof (hex_value_range c). lia. Qed.

(** One byte of a string, spelled out. *)
Lemma step_to st cs t t' c r :
  at_char t && Ascii.eqb c quote = false →
  string_byte (with_raw (keep_raw (st_raw t) c) t) c = (t', false) →
  feed (obs st (Some (TokString t)) cs) (String c r) = feed (obs st (Some (TokString t')) cs) r.
Proof. intros. cbn [ResponseCost.feed]. by erewrite string_step by done. Qed.

Lemma escape_run st cs k raw cp lo hi r :
  feed (obs st (Some (TokString (tok k raw false 0 cp 0 0 lo hi))) cs) (String backslash r)
  = feed (obs st (Some (TokString (tok k (keep_raw raw backslash) true 0 cp 0 0 lo hi))) cs) r.
Proof. by apply step_to. Qed.
Lemma escape_u_run st cs k raw cp lo hi r :
  feed (obs st (Some (TokString (tok k raw true 0 cp 0 0 lo hi))) cs) (String "u" r)
  = feed (obs st (Some (TokString (tok k (keep_raw raw "u") false 4 0 0 0 lo hi))) cs) r.
Proof. by apply step_to. Qed.
Lemma surrogate_run st cs k raw cp lo hi r :
  feed (obs st (Some (TokString (tok k raw false 0 cp 1 0 lo hi))) cs) (String backslash (String "u" r))
  = feed (obs st (Some (TokString (tok k (keep_raws raw (string_of [backslash; "u"%char])) false 4 0 3 0 lo hi))) cs) r.
Proof. rewrite (step_to _ _ _ (tok k (keep_raw raw backslash) false 0 cp 2 0 lo hi)) by done. by apply step_to. Qed.

(** Continuation bytes. *)
Lemma continuation_run st cs k raw cp more r :
  forallb (λ c, in_range 128 191 (byte_val c)) more = true →
  ∃ t', idle k (keep_raws raw (string_of more)) t' ∧
  feed (obs st (Some (TokString (tok k raw false 0 cp 0 (Z.of_nat (length more)) 128 191))) cs)
       (string_of more +:+ r)
  = feed (obs st (Some (TokString t')) cs) r.
Proof.
  revert raw. induction more as [|c more IH]; intros raw H.
  - eexists. split; [by repeat eexists|]. done.
  - cbn [forallb] in H. apply andb_true_iff in H as [Hc H].
    destruct (IH (keep_raw raw c) H) as (t' & Ht & Hr). exists t'. split; [exact Ht|].
    cbn [string_of foldr String.append]. rewrite <- Hr. apply step_to.
    + unfold at_char. cbn [st_utf8 tok]. rewrite (proj2 (Z.ltb_lt _ _)) by (simpl; lia). done.
    + unfold string_byte. cbn [st_utf8 tok with_raw st_raw]. rewrite (proj2 (Z.ltb_lt _ _)) by (simpl; lia).
      apply in_range_iff in Hc. cbn [st_next_min st_next_max].
      rewrite (proj2 (Z.ltb_ge _ 128)), (proj2 (Z.ltb_ge 191 _)) by lia.
      unfold with_utf8, tok. cbn. do 3 f_equal. lia.
Qed.

Lemma plain_run st cs k raw cp lo hi c r :
  schar_ok (SPlain c) = true →
  feed (obs st (Some (TokString (tok k raw false 0 cp 0 0 lo hi))) cs) (String c r)
  = feed (obs st (Some (TokString (tok k (keep_raw raw c) false 0 cp 0 0 lo hi))) cs) r.
Proof.
  cbn [schar_ok]. intros H. bool_prop. apply in_range_iff in H. apply step_to.
  - by rewrite H1, andb_false_r.
  - unfold string_byte. cbn [st_utf8 st_unicode st_surrogate st_escape tok with_raw st_raw].
    rewrite H0, (proj2 (Z.ltb_ge _ 32)), (proj2 (Z.leb_gt 128 _)) by lia. done.
Qed.

Lemma simple_escape_run st cs k raw cp lo hi c r :
  simple_escape c = true →
  feed (obs st (Some (TokString (tok k raw true 0 cp 0 0 lo hi))) cs) (String c r)
  = feed (obs st (Some (TokString (tok k (keep_raw raw c) false 0 cp 0 0 lo hi))) cs) r.
Proof.
  intros H. assert (Hu : Ascii.eqb c "u" = false) by (revert H; clear; every_byte c; vm_compute; done).
  apply step_to; [done|].
  unfold string_byte. cbn [st_utf8 st_unicode st_surrogate st_escape tok with_raw st_raw].
  by rewrite Hu, H.
Qed.

Lemma utf8_lead_bounds c n lo hi :
  utf8_lead c = Some (n, lo, hi) → 128 ≤ byte_val c ∧ 1 ≤ n.
Proof.
  unfold utf8_lead. intros H.
  assert (Hr : ∀ a b, in_range a b (byte_val c) = true → 128 ≤ a → 128 ≤ byte_val c).
  { intros a b ?%in_range_iff. lia. }
  result_cases; rewrite ?orb_true_iff in *; bool_prop; split; try lia; naive_solver lia.
Qed.

Lemma utf8_run st cs k raw cp lo hi lead first more r :
  schar_ok (SUtf8 lead first more) = true →
  ∃ t', idle k (keep_raws raw (string_of (lead :: first :: more))) t' ∧
  feed (obs st (Some (TokString (tok k raw false 0 cp 0 0 lo hi))) cs)
       (string_of (lead :: first :: more) +:+ r)
  = feed (obs st (Some (TokString t')) cs) r.
Proof.
  cbn [schar_ok]. destruct (utf8_lead lead) as [[[n l] h]|] eqn:El; [|done]. intros H. bool_prop.
  destruct (utf8_lead_bounds _ _ _ _ El) as [Hb Hn].
  destruct (continuation_run st cs k (keep_raws raw (string_of [lead; first])) cp more r H0) as (t' & Ht & Hr).
  exists t'. split; [exact Ht|]. cbn [string_of foldr String.append].
  rewrite (step_to _ _ _ (tok k (keep_raw raw lead) false 0 cp 0 n l h)).
  - rewrite <- Hr. apply step_to.
    + unfold at_char. cbn [st_utf8 tok]. by rewrite (proj2 (Z.ltb_lt _ _)) by lia.
    + unfold string_byte. cbn [st_utf8 tok with_raw st_raw st_next_min st_next_max].
      rewrite (proj2 (Z.ltb_lt _ _)) by lia. apply in_range_iff in H1.
      rewrite (proj2 (Z.ltb_ge _ l)), (proj2 (Z.ltb_ge h _)) by lia.
      unfold with_utf8, tok. cbn. do 3 f_equal. lia.
  - assert (Ascii.eqb lead quote = false) as Hq.
    { destruct (Ascii.eqb_spec lead quote) as [->|]; [|done]. discriminate El. }
    by rewrite Hq, andb_false_r.
  - unfold string_byte. cbn [st_utf8 st_unicode st_surrogate st_escape tok with_raw st_raw].
    assert (Ascii.eqb lead backslash = false) as ->.
    { destruct (Ascii.eqb_spec lead backslash) as [->|]; [|done]. discriminate El. }
    rewrite (proj2 (Z.ltb_ge _ 32)), (proj2 (Z.leb_le 128 _)) by lia. by rewrite El.
Qed.

Lemma char_run st cs k raw c t r :
  schar_ok c = true → idle k raw t →
  ∃ t', idle k (keep_raws raw (render_char c)) t' ∧
  feed (obs st (Some (TokString t)) cs) (render_char c +:+ r) = feed (obs st (Some (TokString t')) cs) r.
Proof.
  intros Hc (cp & lo & hi & ->).
  destruct c as [c|c|a b c d|h1 h2 h3 h4 l1 l2 l3 l4|lead first more]; cbn [render_char].
  - eexists. split; [|by apply plain_run]. by repeat eexists.
  - eexists. split; [|cbn [string_of foldr String.append]; rewrite escape_run; by apply simple_escape_run].
    by repeat eexists.
  - cbn [schar_ok] in Hc. apply andb_true_iff in Hc as [Hh Hr]. apply negb_true_iff in Hr.
    assert (Hd : is_ascii_hexdigit d = true) by (unfold all_hex, forallb in Hh; by bool_prop).
    eexists. split; [|cbn [string_of foldr String.append]; rewrite escape_run, escape_u_run;
      apply (unicode_run _ _ _ _ _ _ _ _ a b c d); [done|]].
    2:{ rewrite last_hex by (done || apply hex3_range). cbn -[in_range].
        fold (hex4 a b c d). assert (in_range 55296 56319 (hex4 a b c d) = false ∧
          in_range 56320 57343 (hex4 a b c d) = false) as [-> ->]; [|done].
        unfold in_range in *. destruct (Z.leb_spec 55296 (hex4 a b c d)), (Z.leb_spec (hex4 a b c d) 57343),
          (Z.leb_spec (hex4 a b c d) 56319), (Z.leb_spec 56320 (hex4 a b c d)); done || lia. }
    by repeat eexists.
  - cbn [schar_ok] in Hc. bool_prop.
    assert (all_hex [h1; h2; h3; h4] = true ∧ all_hex [l1; l2; l3; l4] = true) as [Hh Hl].
    { unfold all_hex, forallb in *. bool_prop. split; repeat (apply andb_true_iff; split); done. }
    assert (is_ascii_hexdigit h4 = true ∧ is_ascii_hexdigit l4 = true) as [? ?].
    { unfold all_hex, forallb in *. by bool_prop. }
    eexists. split; [|cbn [string_of foldr String.append]; rewrite escape_run, escape_u_run;
      etransitivity; [eapply (unicode_run _ _ _ _ _ _ _ _ h1 h2 h3 h4 _
        (String backslash (String "u" (string_of [l1; l2; l3; l4] +:+ r)))); [done|]|]].
    2:{ rewrite last_hex by (done || apply hex3_range). cbn -[in_range]. fold (hex4 h1 h2 h3 h4).
        by rewrite H1. }
    2:{ rewrite surrogate_run.
        apply (unicode_run _ _ _ _ _ _ _ _ l1 l2 l3 l4); [done|].
        rewrite last_hex by (done || apply hex3_range). cbn -[in_range]. fold (hex4 l1 l2 l3 l4).
        by rewrite H0. }
    by repeat eexists.
  - by apply utf8_run.
Qed.

Lemma chars_run st cs k raw l t r :
  forallb schar_ok l = true → idle k raw t →
  ∃ t', idle k (keep_raws raw (render_chars l)) t' ∧
  feed (obs st (Some (TokString t)) cs) (render_chars l +:+ r) = feed (obs st (Some (TokString t')) cs) r.
Proof.
  revert raw t. induction l as [|c l IH]; intros raw t H Ht; [by exists t|].
  cbn [forallb] in H. apply andb_true_iff in H as [Hc Hl].
  destruct (char_run st cs k raw c t (render_chars l +:+ r) Hc Ht) as (t1 & H1 & E1).
  destruct (IH _ _ Hl H1) as (t2 & H2 & E2). exists t2. cbn [render_chars foldr].
  rewrite keep_raws_app, append_assoc. split; [done|]. by rewrite <- E2.
Qed.

Lemma string_begin f rest cs q :
  ready f q →
  feed_byte (obs (f :: rest) None cs) quote
  = Some (obs (after f :: rest) (Some (TokString (new_string false))) (clear_costs q cs)).
Proof.
  intros Hf. unfold ResponseCost.feed_byte. cbn [failed obs]. unfold consume_token. cbn [token obs].
  unfold structural. change (json_whitespace quote) with false.
  cbn [started obs negb done_ stack]. rewrite Ascii.eqb_refl. rewrite (ready_no_key f q) by done.
  by rewrite (value_path_ready f rest cs q) by done.
Qed.

(** A string that is a value leaves nothing behind. *)
Lemma value_string_run f rest cs q l r :
  ready f q → forallb schar_ok l = true →
  feed (obs (f :: rest) None cs) (render_string l +:+ r)
  = feed (obs (after f :: rest) None (clear_costs q cs)) r.
Proof.
  intros Hf Hl. unfold render_string. cbn [String.append]. rewrite append_assoc.
  cbn [ResponseCost.feed]. rewrite (string_begin f rest cs q) by done. cbn [mbind option_bind].
  edestruct (chars_run (after f :: rest) (clear_costs q cs) false None l (new_string false))
    as (t & (cp & lo & hi & ->) & ->); [done|by repeat eexists|]. done.
Qed.

Definition key_name (l : schars) : string :=
  if len (render_string l) <=? 256 then default "" (serde_string (render_string l)) else "".

Lemma keep_raws_Some b a :
  len b ≤ 256 →
  keep_raws (Some b) a = if len b + len a <=? 256 then Some (b +:+ a) else None.
Proof.
  assert (Hn : ∀ a, keep_raws None a = None) by (intros s; induction s as [|c s IH]; [done|exact IH]).
  revert b. induction a as [|c a IH]; intros b Hb; cbn [keep_raws].
  - rewrite append_nil_r. change (len "") with 0. by rewrite (proj2 (Z.leb_le _ _)) by lia.
  - cbn [keep_raw mbind option_bind]. rewrite len_cons. pose proof (len_nonneg a).
    destruct (Z.ltb_spec (len b) 256).
    + rewrite IH by (rewrite len_snoc; lia). rewrite len_snoc, snoc_append.
      by replace (len b + 1 + len a) with (len b + (1 + len a)) by lia.
    + rewrite Hn. by rewrite (proj2 (Z.leb_gt _ _)) by lia.
Qed.

Lemma key_begin f rest cs :
  object f = true → expects_key (expect f) = true →
  feed_byte (obs (f :: rest) None cs) quote
  = Some (obs (f :: rest) (Some (TokString (new_string true))) cs).
Proof.
  intros Ho He. unfold ResponseCost.feed_byte. cbn [failed obs]. unfold consume_token. cbn [token obs].
  unfold structural. change (json_whitespace quote) with false.
  cbn [started obs negb done_ stack]. by rewrite Ascii.eqb_refl, Ho, He.
Qed.

Lemma key_end f rest cs raw t name :
  idle true raw t →
  match keep_raw raw quote with None => Some "" | Some raw => serde_string raw end = Some name →
  feed_byte (obs (f :: rest) (Some (TokString t)) cs) quote
  = Some (obs (set_expect Colon (Some name) f :: rest) None cs).
Proof.
  intros (cp & lo & hi & ->) E. unfold ResponseCost.feed_byte. cbn [failed obs].
  unfold consume_token. cbn [token obs].
  change (at_char _ && Ascii.eqb quote quote) with true. cbn iota.
  unfold end_string. cbn [st_key with_raw tok st_raw]. by rewrite E.
Qed.

Hypothesis serde_string_decodes :
  ∀ l, forallb schar_ok l = true → is_Some (serde_string (render_string l)).

Lemma key_run f rest cs l r :
  object f = true → expects_key (expect f) = true → forallb schar_ok l = true →
  feed (obs (f :: rest) None cs) (render_string l +:+ r)
  = feed (obs (set_expect Colon (Some (key_name l)) f :: rest) None cs) r.
Proof using serde_string_decodes.
  intros Ho He Hl. destruct (serde_string_decodes l Hl) as [name Hname].
  unfold render_string. cbn [String.append]. rewrite append_assoc. cbn [ResponseCost.feed].
  rewrite key_begin by done. cbn [mbind option_bind].
  edestruct (chars_run (f :: rest) cs true (Some (String quote "")) l (new_string true))
    as (t & Ht & ->); [done|by repeat eexists|].
  cbn [String.append ResponseCost.feed]. erewrite key_end; [done|done|].
  change (keep_raw ?x ?c) with (keep_raws x (String c "")).
  rewrite <- keep_raws_app, keep_raws_Some by (vm_compute; done).
  rewrite <- len_append. fold (render_string l). change (String quote "" +:+ _) with (render_string l).
  unfold key_name. rewrite Hname. by destruct (len (render_string l) <=? 256).
Qed.

(** ** The costs a text leaves *)

Abbreviation cost_at := (CostNumbers.cost_at serde_number parse_f64 serde_string).
Abbreviation last_member := (CostNumbers.last_member serde_string).

(** The cost known for [target] once the value at path [q] has been read. *)
Definition read_at (q : list string) (v : text) (target : list string) (old : option f64) : option f64 :=
  if within q target then cost_at (drop (length q) target) v else old.
Definition read_all (q : list string) (v : text) (cs : list (option f64)) : list (option f64) :=
  zip_with (read_at q v) COST_PATHS cs.

Lemma read_all_length q v cs : length cs = 6%nat → length (read_all q v cs) = 6%nat.
Proof. intros H. unfold read_all. rewrite length_zip_with, H. done. Qed.

Lemma read_all_plain q v cs :
  (∀ ks, cost_at ks v = None) → clear_costs q cs = read_all q v cs.
Proof.
  intros H. apply zip_with_ext_in. intros t c _. unfold read_at. by rewrite H.
Qed.

Lemma read_all_number q n cs :
  record_costs (shorten q) (number_cost serde_number parse_f64 n) (clear_costs q cs)
  = read_all q (XNumber n) cs.
Proof.
  unfold record_costs, clear_costs. rewrite zip_with_zip_with. apply zip_with_ext_in. intros t c Ht.
  unfold read_at. destruct (within q t) eqn:Hw.
  - rewrite (shorten_within q t) by done. apply within_iff in Hw as [ks ->]. rewrite drop_app_length.
    destruct (at_target q (q ++ ks)) eqn:E.
    + apply at_target_iff in E. rewrite <- (app_nil_r q) in E at 1. by apply app_inv_head in E as <-.
    + destruct ks; [|done]. rewrite app_nil_r in E. by rewrite (proj2 (at_target_iff q q)) in E.
  - by rewrite (proj2 (shorten_outside q "" t Ht Hw)).
Qed.

Lemma record_none q cs : record_costs (shorten q) None (clear_costs q cs) = clear_costs q cs.
Proof.
  unfold record_costs, clear_costs. rewrite zip_with_zip_with. apply zip_with_ext_in.
  intros t x Ht. destruct (within q t) eqn:Hw; [by destruct (at_target _ _)|].
  by rewrite (proj2 (shorten_outside q "" t Ht Hw)).
Qed.

Lemma read_all_item p v cs : length cs = 6%nat → read_all (p ++ [""]) v cs = cs.
Proof.
  intros Hcs. rewrite <- (zip_with_snd COST_PATHS cs) at 2 by done. apply zip_with_ext_in.
  intros t c Ht. unfold read_at. by rewrite target_snoc_empty.
Qed.

(** The longest way to write a byte is an escape of six. *)
Hypothesis serde_string_len :
  ∀ l name, forallb schar_ok l = true → serde_string (render_string l) = Some name → len (render_string l) ≤ 6 * len name + 2.

(** A key the observer does not keep is no component of a metadata path. *)
Lemma key_name_component l k :
  forallb schar_ok l = true → component_ok k = true →
  key_name l = k ↔ serde_string (render_string l) = Some k.
Proof using serde_string_decodes serde_string_len.
  intros Hl Hk. destruct (serde_string_decodes l Hl) as [name E]. unfold key_name. rewrite E.
  cbn [default id]. unfold component_ok in Hk. bool_prop.
  destruct (Z.leb_spec (len (render_string l)) 256) as [|Hlong]; [split; congruence|].
  split; [by intros <-|]. intros [= ->]. apply (serde_string_len l) in E; [lia|done].
Qed.

Abbreviation member := (pad * schars * text)%type.
Definition member_key (m : member) : string := key_name m.1.2.
Definition read_members (p : list string) (members : list member) (cs : list (option f64)) :
    list (option f64) :=
  foldl (λ cs m, read_all (p ++ [member_key m]) m.2 cs) cs members.

Lemma read_members_pointwise p members (g : list string → option f64 → option f64) cs :
  read_members p members (zip_with g COST_PATHS cs)
  = zip_with (λ t c, foldl (λ c m, read_at (p ++ [member_key m]) m.2 t c) (g t c) members) COST_PATHS cs.
Proof.
  revert g. induction members as [|m members IH]; intros g; [done|].
  cbn [read_members foldl]. unfold read_all. rewrite zip_with_zip_with. apply IH.
Qed.

(** Along a metadata path, the last member of the next name decides. *)
Lemma fold_members_within q k ks members c :
  Forall (λ m : member, forallb schar_ok m.1.2 = true) members → component_ok k = true →
  foldl (λ c m, read_at (q ++ [member_key m]) m.2 (q ++ k :: ks) c) c members
  = match last_member k members with Some v => cost_at ks v | None => c end.
Proof using serde_string_decodes serde_string_len.
  intros Hm Hk. revert c. induction Hm as [|[[pd name] v] members Hname Hm IH]; intros c; [done|].
  cbn [foldl CostNumbers.last_member]. rewrite IH. destruct (last_member k members); [done|].
  cbn [fst snd member_key] in *. unfold read_at, member_key. cbn [fst snd].
  pose proof (key_name_component name k Hname Hk) as Hiff.
  destruct (bool_decide (serde_string (render_string name) = Some k)) eqn:Hd; bool_prop.
  - apply Hiff in Hd as ->. rewrite (proj2 (within_iff _ _)).
    + replace (q ++ k :: ks) with ((q ++ [k]) ++ ks) by by rewrite <- app_assoc.
      by rewrite drop_app_length.
    + exists ks. by rewrite <- app_assoc.
  - rewrite (proj2 (within_false _ _)); [done|]. intros [r Hr]. apply Hd, Hiff.
    rewrite <- app_assoc in Hr. apply app_inv_head in Hr. cbn in Hr. congruence.
Qed.

Lemma foldl_same {A B} (f : A → B → A) l a : (∀ a b, b ∈ l → f a b = a) → foldl f a l = a.
Proof.
  revert a. induction l as [|b l IH]; intros a H; simpl; [done|]. rewrite H by left.
  apply IH. intros. apply H. by right.
Qed.

Lemma read_object q e members cs :
  Forall (λ m : member, forallb schar_ok m.1.2 = true) members →
  read_members (shorten q) members (clear_costs q cs) = read_all q (XObject e members) cs.
Proof using serde_string_decodes serde_string_len.
  intros Hm. unfold clear_costs. rewrite read_members_pointwise. apply zip_with_ext_in. intros t c Ht.
  unfold read_at at 2. destruct (within q t) eqn:Hw.
  - rewrite (shorten_within q t) by done. apply within_iff in Hw as [ks ->]. rewrite drop_app_length.
    destruct ks as [|k ks].
    + apply foldl_same. intros a m _. unfold read_at. rewrite (proj2 (within_false _ _)); [done|].
      intros H%prefix_length. rewrite app_nil_r, length_app in H. simpl in H. lia.
    + apply target_components in Ht. rewrite Forall_app, Forall_cons in Ht.
      rewrite fold_members_within by naive_solver. cbn. by destruct (last_member k members).
  - apply foldl_same. intros a m _. unfold read_at.
    by rewrite (proj1 (shorten_outside q (member_key m) t Ht Hw)).
Qed.

(** ** Structure *)

Ltac structural_byte :=
  unfold ResponseCost.feed_byte; cbn [failed obs]; unfold consume_token; cbn [token obs];
  unfold structural;
  repeat match goal with
  | |- context [json_whitespace ?c] => let b := eval vm_compute in (json_whitespace c) in
      change (json_whitespace c) with b
  | |- context [scalar_start ?c] => let b := eval vm_compute in (scalar_start c) in
      change (scalar_start c) with b
  | |- context [Ascii.eqb (Ascii ?a ?b ?c ?d ?e ?f ?g ?h) ?y] =>
      let b := eval vm_compute in (Ascii.eqb (Ascii a b c d e f g h) y) in
      change (Ascii.eqb (Ascii a b c d e f g h) y) with b
  end;
  cbn [started done_ negb obs stack andb orb].

Definition open_byte (obj : bool) : ascii := if obj then "{"%char else "["%char.
Definition close_byte (obj : bool) : ascii := if obj then "}"%char else "]"%char.

Lemma container_begin f rest cs q obj :
  ready f q → (length rest < 127)%nat →
  feed_byte (obs (f :: rest) None cs) (open_byte obj)
  = Some (obs (new_frame obj (shorten q) :: after f :: rest) None (clear_costs q cs)).
Proof.
  intros Hf Hl. assert (((128 <=? S (length rest))%nat) = false) as El by (apply Nat.leb_gt; lia).
  destruct obj; unfold open_byte; structural_byte; rewrite (value_path_ready f rest cs q) by done;
    cbn [stack obs length]; by rewrite El.
Qed.

Lemma container_end f rest cs :
  expects_end (expect f) = true →
  feed_byte (obs (f :: rest) None cs) (close_byte (object f))
  = Some (set_done (is_nil rest) (obs rest None cs)).
Proof.
  intros He. destruct (object f) eqn:Ho; unfold close_byte; structural_byte; by rewrite Ho, He.
Qed.

Lemma colon_run f rest cs r :
  object f = true → expect f = Colon →
  feed (obs (f :: rest) None cs) (String ":" r)
  = feed (obs (set_expect ExpectValue (key f) f :: rest) None cs) r.
Proof. intros Ho He. cbn [ResponseCost.feed]. structural_byte. by rewrite Ho, He. Qed.
Lemma comma_run f rest cs r :
  expect f = CommaOrEnd →
  feed (obs (f :: rest) None cs) (String "," r)
  = feed (obs (set_expect (if object f then Key else ExpectValue) (key f) f :: rest) None cs) r.
Proof. intros He. cbn [ResponseCost.feed]. structural_byte. by rewrite He. Qed.

(** ** Values *)

(** Reading [v] where a value is due records its costs, whatever follows it. *)
Definition reads (v : text) : Prop :=
  text_ok v = true → ∀ f rest cs q c r,
  ready f q → length cs = 6%nat → (S (length rest) + depth v ≤ 128)%nat → terminator c = true →
  feed (obs (f :: rest) None cs) (render v +:+ String c r)
  = feed (obs (after f :: rest) None (read_all q v cs)) (String c r).

Lemma padded_terminator w c r :
  ws_ok w = true → terminator c = true →
  ∃ c' r', w +:+ String c r = String c' r' ∧ terminator c' = true.
Proof.
  intros Hw Hc. destruct w as [|d w]; [by eauto|]. cbn [String.append]. eexists _, _. split; [done|].
  unfold ws_ok in Hw. cbn [all_bytes] in Hw. bool_prop. unfold terminator. by rewrite H.
Qed.

(** A value between its whitespace. *)
Lemma reads_padded v b a f rest cs q c r :
  reads v → text_ok v = true → ws_ok b = true → ws_ok a = true → ready f q → length cs = 6%nat →
  (S (length rest) + depth v ≤ 128)%nat → terminator c = true →
  feed (obs (f :: rest) None cs) (b +:+ render v +:+ a +:+ String c r)
  = feed (obs (after f :: rest) None (read_all q v cs)) (String c r).
Proof.
  intros Hv Hok Hb Ha Hf Hcs Hd Hc. rewrite ws_run by done.
  destruct (padded_terminator a c r Ha Hc) as (c' & r' & E & Hc'). rewrite E, (Hv Hok f rest cs q) by done.
  rewrite <- E. by apply ws_run.
Qed.

Lemma reads_number n : reads (XNumber n).
Proof.
  intros Hok f rest cs q c r Hf Hcs _ Hc. cbn [text_ok render] in *.
  destruct (number_run n Hok) as (Hv & _ & Hsc). pose proof (number_bytes n Hok) as Hb.
  pose proof (number_cost_scanned serde_number parse_f64 n Hok) as Hcost.
  destruct (number_start n Hok) as (c0 & a & E & Hc0 & Hnew). rewrite E in *. cbn [scalar_feeds] in *.
  rewrite <- Hnew in *. cbn [String.append]. rewrite <- (read_all_number q n cs), <- Hcost.
  cbn [all_bytes] in Hb. apply andb_true_iff in Hb as [_ Hb].
  assert (scalar_valid (scalar_feeds (scalar_new c0) a) = true) as Hvalid
    by (unfold scalar_valid; by rewrite (scanned_literal _ _ _ _ _ _ Hsc)).
  cbn [ResponseCost.feed]. rewrite (scalar_begin f rest cs q) by done. cbn [mbind option_bind].
  rewrite feed_app, scalar_run; [|done|by intros E'; rewrite E' in Hv]. cbn [mbind option_bind].
  by apply scalar_end.
Qed.

Lemma reads_literal l : reads (XLiteral l).
Proof.
  intros _ f rest cs q c r Hf Hcs _ Hc. rewrite <- read_all_plain by by intros [].
  assert (E : ∀ c0 a, scalar_start c0 = true → all_bytes (λ c, negb (terminator c)) a = true →
    sc_state (scalar_feeds (scalar_new c0) a) ≠ 255 → scalar_valid (scalar_feeds (scalar_new c0) a) = true →
    scalar_cost serde_number parse_f64 (scalar_feeds (scalar_new c0) a) = None →
    feed (obs (f :: rest) None cs) (String c0 a +:+ String c r)
    = feed (obs (after f :: rest) None (clear_costs q cs)) (String c r)).
  { intros c0 a H1 H2 H3 H4 H5. cbn [String.append ResponseCost.feed].
    rewrite (scalar_begin f rest cs q) by done. cbn [mbind option_bind].
    rewrite feed_app, scalar_run by done. cbn [mbind option_bind].
    by rewrite scalar_end, H5, record_none by done. }
  by destruct l; apply E.
Qed.

Lemma reads_string l : reads (XString l).
Proof.
  intros Hl f rest cs q c r Hf Hcs _ _. rewrite <- read_all_plain by by intros [].
  by apply value_string_run.
Qed.

(** Arrays: no item is at a metadata path. *)
Definition array_frame (e : Expect) (p : list string) : Frame :=
  {| object := false; expect := e; path := p; key := None |}.
Definition item_text (i : pad * text) : string :=
  let '(p, v) := i in before_value p +:+ render v +:+ after_value p.

Definition item_ok (d : nat) (i : pad * text) : Prop :=
  reads i.2 ∧ pad_ok i.1 = true ∧ text_ok i.2 = true ∧ (depth i.2 ≤ d)%nat.

Lemma item_run i e p rest cs c r :
  item_ok (127 - length rest) i → expects_value e = true → length cs = 6%nat → terminator c = true →
  (length rest < 128)%nat →
  feed (obs (array_frame e p :: rest) None cs) (item_text i +:+ String c r)
  = feed (obs (array_frame CommaOrEnd p :: rest) None cs) (String c r).
Proof.
  intros (Hv & Hp & Hok & Hd) He Hcs Hc Hr. destruct i as [pd v]. cbn [fst snd item_text] in *.
  unfold pad_ok in Hp. bool_prop. rewrite !append_assoc.
  rewrite (reads_padded v _ _ _ _ _ (p ++ [""])) by (done || lia || by split; [|eexists]).
  by rewrite read_all_item.
Qed.

Lemma tail_terminator l c r :
  terminator c = true →
  ∃ c' r', foldr (λ y s, String "," (y +:+ s)) "" l +:+ String c r = String c' r' ∧ terminator c' = true.
Proof. intros Hc. destruct l; cbn [foldr String.append]; by eexists _, _. Qed.

Lemma items_run items p rest cs r :
  Forall (item_ok (127 - length rest)) items → length cs = 6%nat → (length rest < 128)%nat →
  feed (obs (array_frame CommaOrEnd p :: rest) None cs)
    (foldr (λ y s, String "," (y +:+ s)) "" (map item_text items) +:+ String "]" r)
  = feed (obs (array_frame CommaOrEnd p :: rest) None cs) (String "]" r).
Proof.
  intros Hi Hcs Hr. induction Hi as [|i items Hi His IH]; [done|]. cbn [map foldr String.append].
  rewrite comma_run by done. rewrite append_assoc.
  destruct (tail_terminator (map item_text items) "]" r eq_refl) as (c & a & E & Hc).
  rewrite E. etransitivity; [by apply (item_run i ExpectValue)|]. by rewrite <- E.
Qed.

(** The inside of an array, up to its closing bracket. *)
Lemma array_body e items p rest cs r :
  ws_ok e = true → Forall (item_ok (127 - length rest)) items → length cs = 6%nat → (length rest < 128)%nat →
  ∃ x, expects_end x = true ∧
  feed (obs (new_frame false p :: rest) None cs)
    ((if is_nil items then e else comma_join (map item_text items)) +:+ String "]" r)
  = feed (obs (array_frame x p :: rest) None cs) (String "]" r).
Proof.
  intros He Hi Hcs Hr. destruct Hi as [|i items Hi His]; cbn [is_nil].
  - exists ValueOrEnd. split; [done|]. by apply ws_run.
  - exists CommaOrEnd. split; [done|]. cbn [map comma_join]. rewrite append_assoc.
    destruct (tail_terminator (map item_text items) "]" r eq_refl) as (c & a & E & Hc). rewrite E.
    etransitivity; [by apply (item_run i ValueOrEnd)|]. rewrite <- E. by apply items_run.
Qed.

Lemma depth_items (A : Type) (l : list (A * text)) i :
  i ∈ l → (depth i.2 ≤ foldr (λ '(_, v) d, Nat.max (depth v) d) 0 l)%nat.
Proof.
  induction 1 as [[a v] l|x [a v] l _ IH]; cbn [foldr snd] in *; lia.
Qed.

Lemma container_close f rest f0 cs r :
  expects_end (expect f) = true →
  feed (obs (f :: f0 :: rest) None cs) (String (close_byte (object f)) r)
  = feed (obs (f0 :: rest) None cs) r.
Proof. intros He. cbn [ResponseCost.feed]. by rewrite container_end. Qed.
Lemma container_open f rest cs q obj r :
  ready f q → (length rest < 127)%nat →
  feed (obs (f :: rest) None cs) (String (open_byte obj) r)
  = feed (obs (new_frame obj (shorten q) :: after f :: rest) None (clear_costs q cs)) r.
Proof. intros Hf Hl. cbn [ResponseCost.feed]. by rewrite (container_begin f rest cs q). Qed.

Lemma clear_costs_length q cs : length cs = 6%nat → length (clear_costs q cs) = 6%nat.
Proof. intros H. unfold clear_costs. rewrite length_zip_with, H. done. Qed.

Lemma reads_array e items : Forall (λ i, reads i.2) items → reads (XArray e items).
Proof.
  intros Hi Hok f rest cs q c r Hf Hcs Hd Hc. rewrite <- read_all_plain by by intros [].
  cbn [text_ok render depth] in *. apply andb_true_iff in Hok as [He Hok].
  cbn [String.append]. rewrite append_assoc. change "["%char with (open_byte false).
  rewrite (container_open f rest cs q) by (done || lia). cbn [String.append].
  destruct (array_body e items (shorten q) (after f :: rest) (clear_costs q cs) (String c r))
    as (x & Hx & E); [done| |by apply clear_costs_length|simpl; lia|].
  - rewrite Forall_forall in *. intros i Hin. rewrite forallb_forall in Hok.
    apply list_elem_of_In in Hin as Hin'. specialize (Hok _ Hin'). specialize (Hi _ Hin).
    apply depth_items in Hin. destruct i as [pd v]. cbn [fst snd] in *. bool_prop.
    split; [done|]. repeat split; try done. cbn [length snd]. lia.
  - etransitivity; [exact E|]. by apply (container_close (array_frame x (shorten q))).
Qed.

(** Objects: each member is read at its key. *)
Definition object_frame (e : Expect) (p : list string) : Frame :=
  {| object := true; expect := e; path := p; key := None |}.
Definition member_text (m : member) : string :=
  let '(p, k, v) := m in
  before_key p +:+ render_string k +:+ after_key p
  +:+ String ":" (before_value p +:+ render v +:+ after_value p).

Definition member_ok (d : nat) (m : member) : Prop :=
  reads m.2 ∧ pad_ok m.1.1 = true ∧ forallb schar_ok m.1.2 = true ∧ text_ok m.2 = true ∧ (depth m.2 ≤ d)%nat.

Lemma member_run m e p rest cs c r :
  member_ok (127 - length rest) m → expects_key e = true → length cs = 6%nat → terminator c = true →
  (length rest < 128)%nat →
  feed (obs (object_frame e p :: rest) None cs) (member_text m +:+ String c r)
  = feed (obs (object_frame CommaOrEnd p :: rest) None (read_all (p ++ [member_key m]) m.2 cs)) (String c r).
Proof using serde_string_decodes.
  intros (Hv & Hp & Hk & Hok & Hd) He Hcs Hc Hr. destruct m as [[pd k] v]. cbn [fst snd member_text] in *.
  unfold pad_ok in Hp. bool_prop. rewrite !append_assoc. rewrite ws_run by done.
  rewrite key_run by done. rewrite ws_run by done. cbn [String.append].
  rewrite colon_run by done. rewrite !append_assoc.
  by rewrite (reads_padded v _ _ _ _ _ (p ++ [key_name k])) by (done || lia || by split; [|eexists]).
Qed.

Lemma members_run members p rest cs r :
  Forall (member_ok (127 - length rest)) members → length cs = 6%nat → (length rest < 128)%nat →
  feed (obs (object_frame CommaOrEnd p :: rest) None cs)
    (foldr (λ y s, String "," (y +:+ s)) "" (map member_text members) +:+ String "}" r)
  = feed (obs (object_frame CommaOrEnd p :: rest) None (read_members p members cs)) (String "}" r).
Proof using serde_string_decodes.
  intros Hi Hcs Hr. revert cs Hcs. induction Hi as [|m members Hm Hms IH]; intros cs Hcs; [done|].
  cbn [map foldr String.append]. rewrite comma_run by done. rewrite append_assoc.
  destruct (tail_terminator (map member_text members) "}" r eq_refl) as (c & a & E & Hc).
  rewrite E. etransitivity; [by apply (member_run m Key)|]. rewrite <- E.
  apply IH. by apply read_all_length.
Qed.

(** The inside of an object, up to its closing brace. *)
Lemma object_body e members p rest cs r :
  ws_ok e = true → Forall (member_ok (127 - length rest)) members → length cs = 6%nat →
  (length rest < 128)%nat →
  ∃ x, expects_end x = true ∧
  feed (obs (new_frame true p :: rest) None cs)
    ((if is_nil members then e else comma_join (map member_text members)) +:+ String "}" r)
  = feed (obs (object_frame x p :: rest) None (read_members p members cs)) (String "}" r).
Proof using serde_string_decodes.
  intros He Hi Hcs Hr. destruct Hi as [|m members Hm Hms]; cbn [is_nil].
  - exists KeyOrEnd. split; [done|]. by apply ws_run.
  - exists CommaOrEnd. split; [done|]. cbn [map comma_join]. rewrite append_assoc.
    destruct (tail_terminator (map member_text members) "}" r eq_refl) as (c & a & E & Hc). rewrite E.
    etransitivity; [by apply (member_run m KeyOrEnd)|]. rewrite <- E.
    apply (members_run members p rest (read_all _ _ cs)); [done| |done]. by apply read_all_length.
Qed.

Lemma members_ok e members d :
  Forall (λ m, reads m.2) members → text_ok (XObject e members) = true →
  (depth (XObject e members) ≤ S d)%nat → Forall (member_ok d) members.
Proof.
  intros Hm Hok Hd. cbn [text_ok depth] in *. apply andb_true_iff in Hok as [_ Hok].
  rewrite Forall_forall in *. intros m Hin. rewrite forallb_forall in Hok.
  apply list_elem_of_In in Hin as Hin'. specialize (Hok _ Hin'). specialize (Hm _ Hin).
  apply (depth_items (pad * schars)) in Hin. destruct m as [[pd k] v]. cbn [fst snd] in *. bool_prop.
  split; [done|]. repeat split; try done. cbn [snd]. lia.
Qed.
Lemma members_keys e members :
  text_ok (XObject e members) = true → Forall (λ m : member, forallb schar_ok m.1.2 = true) members.
Proof.
  cbn [text_ok]. intros [_ Hok]%andb_true_iff. rewrite forallb_forall in Hok. apply Forall_forall.
  intros [[pd k] v] Hin%list_elem_of_In. specialize (Hok _ Hin). cbn in *. by bool_prop.
Qed.

Lemma reads_object e members : Forall (λ m, reads m.2) members → reads (XObject e members).
Proof using serde_string_decodes serde_string_len.
  intros Hm Hok f rest cs q c r Hf Hcs Hd Hc. rewrite <- read_object by by eapply members_keys.
  assert (He : ws_ok e = true) by (cbn [text_ok] in Hok; by bool_prop).
  assert (Hms : Forall (member_ok (127 - length (after f :: rest))) members).
  { apply (members_ok e); [done|done|]. cbn [length]. cbn [depth] in Hd |- *. lia. }
  cbn [render depth] in *. cbn [String.append]. rewrite append_assoc.
  change "{"%char with (open_byte true).
  rewrite (container_open f rest cs q) by (done || lia). cbn [String.append].
  destruct (object_body e members (shorten q) (after f :: rest) (clear_costs q cs) (String c r))
    as (x & Hx & E); [done|done|by apply clear_costs_length|simpl; lia|].
  etransitivity; [exact E|]. by apply (container_close (object_frame x (shorten q))).
Qed.

Lemma reads_all v : reads v.
Proof using serde_string_decodes serde_string_len.
  induction v using text_induction;
    auto using reads_number, reads_literal, reads_string, reads_array, reads_object.
Qed.

(** ** Documents *)

(** What a caller does with a response: feed its chunks, then finish. *)
Fixpoint feed_chunks (o : ResponseCostObserver) (chunks : list string) : option ResponseCostObserver :=
  match chunks with
  | [] => Some o
  | c :: chunks => feed o c ≫= λ o, feed_chunks o chunks
  end.
Definition observe (chunks : list string) : option ResponseCostObserver :=
  finish serde_number parse_f64 <$> feed_chunks observer_default chunks.

Lemma feed_chunks_join o chunks : feed_chunks o chunks = feed o (str_join chunks).
Proof.
  revert o. induction chunks as [|c chunks IH]; intros o; simpl; [done|]. rewrite feed_app.
  destruct (feed o c) as [o'|]; simpl; [|done]. apply IH.
Qed.

Lemma ws_outside o w s :
  ws_ok w = true → failed o = false → token o = None → feed o (w +:+ s) = feed o s.
Proof.
  intros Hw Hf Ht. unfold ws_ok in Hw. induction w as [|c w IH]; [done|]. cbn [all_bytes] in Hw.
  apply andb_true_iff in Hw as [Hc Hw]. cbn [String.append ResponseCost.feed].
  unfold ResponseCost.feed_byte at 1. rewrite Hf. unfold consume_token. rewrite Ht.
  unfold structural. rewrite Hc. by apply IH.
Qed.

Lemma document_run b e members a :
  ws_ok b = true → ws_ok a = true → text_ok (XObject e members) = true →
  (depth (XObject e members) ≤ 128)%nat →
  feed observer_default (b +:+ render (XObject e members) +:+ a)
  = Some (set_done true (obs [] None (read_all [] (XObject e members) (costs observer_default)))).
Proof using serde_string_decodes serde_string_len.
  intros Hb Ha Hok Hd. rewrite ws_outside by done.
  rewrite <- (read_object [] e members (costs observer_default)) by by eapply members_keys.
  assert (He : ws_ok e = true) by (cbn [text_ok] in Hok; by bool_prop).
  assert (Hms : Forall (member_ok (127 - 0)) members).
  { apply (members_ok e); [|done|lia]. apply Forall_true. intros m. apply reads_all. }
  cbn [render String.append]. rewrite append_assoc. cbn [String.append].
  destruct (object_body e members [] [] (costs observer_default) a) as (x & Hx & E); [done..|simpl; lia|].
  etransitivity; [exact E|]. cbn [ResponseCost.feed].
  rewrite (container_end (object_frame x []) []) by done. cbn [mbind option_bind is_nil].
  rewrite <- (append_nil_r a). by rewrite ws_outside.
Qed.

(** C26: However a JSON object nested at most 128 deep is written, whatever
    whitespace surrounds it and however it is cut into chunks, the observer
    ends with the cost the object reports: at the first metadata path that
    has one, the value of the last member of each name along the path. Other
    bodies are outside the statement. The decoder of string literals is a
    parameter: it decodes every well-formed literal, to at least a sixth of its
    length. *)
Theorem observed_cost_exact b e members a chunks :
  ws_ok b = true → ws_ok a = true → text_ok (XObject e members) = true →
  (depth (XObject e members) ≤ 128)%nat →
  str_join chunks = b +:+ render (XObject e members) +:+ a →
  observed_cost <$> observe chunks
  = Some (reported_cost serde_number parse_f64 serde_string (XObject e members)).
Proof using serde_string_decodes serde_string_len.
  intros Hb Ha Hok Hd Hj. unfold observe. by rewrite feed_chunks_join, Hj, document_run.
Qed.
End equivalence.

(** A decoder that only takes the quotes off, for the witnesses. *)
Definition unquote (raw : string) : option string :=
  match raw with
  | String _ r => strip_suffix (String quote "") r
  | EmptyString => None
  end.
Lemma unquote_decodes l : is_Some (unquote (render_string l)).
Proof. unfold unquote, render_string. by rewrite (proj2 (strip_suffix_Some _ _ (render_chars l))). Qed.
Lemma unquote_len l name : forallb schar_ok l = true → unquote (render_string l) = Some name → len (render_string l) ≤ 6 * len name + 2.
Proof.
  intros _. destruct (render_string l) as [|c r]; [done|]. cbn [unquote]. intros ->%strip_suffix_Some.
  rewrite len_cons, len_append, len_cons. change (len "") with 0. pose proof (len_nonneg name). lia.
Qed.

Definition no_pad : pad := {| before_key := ""; after_key := ""; before_value := " "; after_value := "" |}.
Definition digits_of (s : string) : number :=
  {| n_negative := false; n_int := s; n_frac := None; n_exp := None |}.
Definition digit_number (s : string) : option f64 := Some (f64_of_Z (digits_value s 0)).

Definition plain (s : string) : schars := SPlain <$> String.list_ascii_of_string s.
Definition sample_members : list (pad * schars * text) :=
  [(no_pad, plain "usage",
    XObject "" [(no_pad, plain "cost", XNumber (digits_of "3"));
                (no_pad, plain "cost", XNumber (digits_of "7"))])].
Definition sample : text := XObject "" sample_members.

Lemma observed_cost_exact_witness :
  observed_cost <$> observe digit_number digit_number unquote
    [String.substring 0 14 (render sample); String.substring 14 100 (render sample)]
  = Some (Some (f64_of_Z 7)).
Proof.
  etransitivity; [apply (observed_cost_exact digit_number digit_number unquote
    (λ l _, unquote_decodes l) unquote_len "" "" sample_members "")|].
  - done.
  - done.
  - vm_compute. done.
  - vm_compute. lia.
  - vm_compute. done.
  - vm_compute. done.
Defined.

(** A path a frame or a scalar may carry: part of a metadata path, or none. *)
Definition path_ok (p : list string) : Prop :=
  p = [""] ∨ ∃ t, t ∈ COST_PATHS ∧ p `prefix_of` t.
Definition frame_ok (f : Frame) : Prop := path_ok (path f).

Definition string_ok (st : list Frame) (t : StringToken) : Prop :=
  (st_key t = true → ∃ f rest, st = f :: rest ∧ object f = true ∧ expects_key (expect f) = true) ∧
  (∀ raw, st_raw t = Some raw → len raw ≤ 256) ∧
  0 ≤ st_unicode t ≤ 4 ∧ 0 ≤ st_codepoint t < 2 ^ 16 ∧ 0 ≤ st_surrogate t ≤ 3 ∧ 0 ≤ st_utf8 t ≤ 3 ∧
  128 ≤ st_next_min t ∧ st_next_max t ≤ 191.
Definition scalar_ok (s : Scalar) : Prop :=
  len (sc_raw s) ≤ 129 ∧ len (sc_digits s) ≤ 64 ∧ 0 ≤ sc_exponent s ≤ 1000000000 ∧
  (sc_state s = 255 ∨ 0 ≤ sc_state s ≤ 8).
Definition token_ok (st : list Frame) (t : Token) : Prop :=
  match t with
  | TokString t => string_ok st t
  | TokScalar s p => scalar_ok s ∧ path_ok p
  end.

Definition observer_ok (o : ResponseCostObserver) : Prop :=
  (length (stack o) ≤ 128)%nat ∧ Forall frame_ok (stack o) ∧ length (costs o) = 6%nat ∧
  (∀ t, token o = Some t → token_ok (stack o) t) ∧ (done_ o = true → stack o = []) ∧
  (started o = false → stack o = [] ∧ done_ o = false).

Lemma default_ok : observer_ok observer_default.
Proof. repeat split; simpl; try done; try lia. Qed.

Lemma fail_ok o b : observer_ok o → observer_ok (fail_if b o).
Proof. done. Qed.
Lemma no_token_ok o : observer_ok o → observer_ok (set_token None o).
Proof. intros (? & ? & ? & _ & ? & ?). by repeat split; try apply H3. Qed.
#[export] Hint Resolve default_ok fail_ok no_token_ok : gateway.

(** ** Parts *)

Lemma scalar_next_range s c : scalar_next s c = 255 ∨ 0 ≤ scalar_next s c ≤ 8.
Proof. unfold scalar_next. repeat case_match; auto; right; lia. Qed.

Lemma scalar_feed_ok s c : scalar_ok s → scalar_ok (scalar_feed s c).
Proof.
  intros (Hr & Hd & He & Hs). unfold scalar_feed.
  assert (len (if len (sc_raw s) <? 129 then snoc (sc_raw s) c else sc_raw s) ≤ 129).
  { destruct (Z.ltb_spec (len (sc_raw s)) 129); rewrite ?len_snoc; lia. }
  destruct (negb (is_empty (sc_literal s))).
  - repeat split; scalar_fields; try lia. destruct (is_some_and _ _); auto.
  - unfold scalar_ok. scalar_fields. repeat split; [done| | | |apply scalar_next_range].
    + destruct (_ && _ && (len (sc_digits s) <? 64)) eqn:E; [|done]. rewrite len_snoc. bool_prop. lia.
    + destruct (is_ascii_digit c && in_range 6 8 (sc_state s)) eqn:E; [|lia]. bool_prop.
      pose proof (digit_value c H0). lia.
    + destruct (_ && _); lia.
Qed.
Lemma scalar_new_ok c : scalar_ok (scalar_new c).
Proof. apply scalar_feed_ok. repeat split; vm_compute; intuition congruence. Qed.

Lemma shorten_ok q : path_ok (shorten q).
Proof.
  unfold shorten. destruct (existsb (within q) COST_PATHS) eqn:E; [right|by left].
  apply existsb_exists in E as (t & Ht & Hw). exists t. split; [by apply list_elem_of_In|by apply within_iff].
Qed.
Lemma record_costs_length p v cs : length cs = 6%nat → length (record_costs p v cs) = 6%nat.
Proof. intros H. unfold record_costs. rewrite length_zip_with, H. done. Qed.


(** Split the invariant of the goal, using the one in hand. *)
Ltac observer_split :=
  unfold observer_ok; cbn [stack token costs started done_ failed set_stack set_token set_costs set_done fail_if];
  split_and!; try done.

Lemma set_token_ok o t :
  observer_ok o → token_ok (stack o) t → observer_ok (set_token (Some t) o).
Proof. intros (Hl & Hf & Hc & Ht & Hd & Hs) H. observer_split. by intros ? [= <-]. Qed.
Lemma set_costs_ok o cs : observer_ok o → length cs = 6%nat → observer_ok (set_costs cs o).
Proof. intros (Hl & Hf & Hc & Ht & Hd & Hs) H. by observer_split. Qed.
Lemma push_ok o f :
  observer_ok o → token o = None → done_ o = false → started o = true →
  (length (stack o) < 128)%nat → frame_ok f → observer_ok (set_stack (f :: stack o) o).
Proof.
  intros (Hl & Hf & Hc & Ht & Hd & Hs) Htok Hdone Hst Hlen H.
  observer_split; try (intros; congruence). by constructor.
Qed.
Lemma top_ok o f rest f' :
  observer_ok o → token o = None → stack o = f :: rest → path f' = path f →
  observer_ok (set_stack (f' :: rest) o).
Proof.
  intros (Hl & Hf & Hc & Ht & Hd & Hs) Htok Es Hp. rewrite Es in *.
  observer_split; try (intros; congruence).
  - inversion_clear Hf. constructor; [|done]. unfold frame_ok. by rewrite Hp.
  - intros H. by apply Hd in H.
  - intros H. by apply Hs in H as [? ?].
Qed.
Lemma pop_ok o f rest :
  observer_ok o → token o = None → stack o = f :: rest →
  observer_ok (set_done (is_nil rest) (set_stack rest o)).
Proof.
  intros (Hl & Hf & Hc & Ht & Hd & Hs) Htok Es. rewrite Es in *.
  observer_split; try (intros; congruence).
  - cbn in *. lia.
  - by inversion_clear Hf.
  - by destruct rest.
  - intros H. by apply Hs in H as [? ?].
Qed.
Lemma new_string_ok st k :
  (k = true → ∃ f rest, st = f :: rest ∧ object f = true ∧ expects_key (expect f) = true) →
  token_ok st (TokString (new_string k)).
Proof. intros H. repeat split; cbn; try lia; [done|]. destruct k; [|done]. by intros ? [= <-]. Qed.

Lemma value_path_ok o :
  observer_ok o → token o = None → done_ o = false → started o = true →
  let '(o', p) := value_path o in
  observer_ok o' ∧ token o' = None ∧ done_ o' = false ∧ started o' = true ∧ (∀ q, p = Some q → path_ok q).
Proof.
  intros Ho Htok Hdone Hst. unfold value_path.
  destruct (stack o) as [|f rest] eqn:Es; [done|].
  destruct (negb (expects_value (expect f))); [done|].
  destruct (if object f then key f else Some "") as [k|]; [|done].
  split_and!; try done.
  - apply set_costs_ok; [by eapply top_ok|]. apply clear_costs_length, Ho.
  - intros q [= <-]. apply shorten_ok.
Qed.

Lemma structural_ok o c : observer_ok o → token o = None → observer_ok (structural o c).
Proof.
  intros Ho Ht. unfold structural. destruct (json_whitespace c); [done|].
  destruct (started o) eqn:Hst; cbn [negb].
  2:{ destruct Ho as (Hl & Hf & Hc & _ & Hd & Hs). destruct (Hs Hst) as [Es Ed].
      destruct (Ascii.eqb c "{"); cbn [negb]; rewrite ?Es, ?Ed, ?Ht; observer_split; cbn; try lia; try done.
      constructor; [|done]. right. exists ["estimated_cost"]. split; [by left|apply prefix_nil]. }
  destruct (done_ o) eqn:Hd; [done|]. destruct (stack o) as [|f rest] eqn:Es; [done|].
  pose proof (value_path_ok o Ho Ht Hd Hst) as Hvp. destruct (value_path o) as [o' [q|]].
  2:{ repeat case_match; try done; simplify_eq; try (eapply top_ok; eauto; done); try (by eapply pop_ok; eauto);
      try (apply fail_ok; naive_solver).
      apply set_token_ok; [done|]. apply new_string_ok. intros _. rewrite Es. bool_prop. eauto. }
  destruct Hvp as (Ho' & Ht' & Hd' & Hs' & Hq).
  repeat case_match; try done; simplify_eq; try (eapply top_ok; eauto; done); try (by eapply pop_ok; eauto);
    try (apply fail_ok; done); try (apply set_token_ok; [done|]);
    try (split; [apply scalar_new_ok|by apply Hq]).
  - apply new_string_ok. intros _. rewrite Es. bool_prop. eauto.
  - by apply new_string_ok.
  - apply push_ok; try done; [by apply Nat.leb_gt|]. by apply Hq.
Qed.

Lemma keep_raw_len raw c b :
  (∀ b, raw = Some b → len b ≤ 256) → keep_raw raw c = Some b → len b ≤ 256.
Proof.
  destruct raw as [r|]; [|done]. intros H E. cbn in E. result_cases. rewrite len_snoc. bool_prop. lia.
Qed.

Lemma codepoint_range x c : 0 ≤ x < 2 ^ 16 → 0 ≤ Z.lor (Z.shiftl x 4 mod 2 ^ 16) (hex_value c) < 2 ^ 16.
Proof.
  intros Hx. pose proof (hex_value_range c). pose proof (Z.mod_pos_bound (Z.shiftl x 4) (2 ^ 16) ltac:(lia)).
  split; [apply Z.lor_nonneg; lia|].
  destruct (Z.eq_dec (Z.lor (Z.shiftl x 4 mod 2 ^ 16) (hex_value c)) 0) as [->|]; [lia|].
  assert (0 ≤ Z.lor (Z.shiftl x 4 mod 2 ^ 16) (hex_value c)) by (apply Z.lor_nonneg; lia).
  apply Z.log2_lt_pow2; [lia|]. rewrite Z.log2_lor by lia.
  assert (∀ y, 0 ≤ y < 2 ^ 16 → Z.log2 y < 16) as Hlog.
  { intros y Hy. destruct (Z.eq_dec y 0) as [->|]; [simpl; lia|]. apply Z.log2_lt_pow2; lia. }
  apply Z.max_lub_lt; apply Hlog; lia.
Qed.

Lemma utf8_lead_range c n lo hi :
  utf8_lead c = Some (n, lo, hi) → 0 ≤ n ≤ 3 ∧ 128 ≤ lo ∧ hi ≤ 191.
Proof. unfold utf8_lead. intros H. result_cases; lia. Qed.

Lemma string_byte_ok st t c : string_ok st t → string_ok st (string_byte t c).1.
Proof.
  intros (Hk & Hr & Hu & Hcp & Hs & H8 & Hlo & Hhi). pose proof (codepoint_range _ c Hcp) as Hn.
  unfold string_byte.
  repeat case_match; cbn [fst]; bool_prop; unfold string_ok, with_escape, with_utf8;
    cbn [st_key st_raw st_escape st_unicode st_codepoint st_surrogate st_utf8 st_next_min st_next_max];
    try (match goal with H : utf8_lead c = Some _ |- _ => apply utf8_lead_range in H end);
    split_and!; try done; try lia.
Qed.

Section observer_bounds.
Variable serde_number : string → option f64.
Variable parse_f64 : string → option f64.
Variable serde_string : string → option string.

Lemma finish_scalar_ok o :
  observer_ok o →
  observer_ok (finish_scalar serde_number parse_f64 o) ∧ token (finish_scalar serde_number parse_f64 o) = None.
Proof.
  intros Ho. unfold finish_scalar. destruct (token o) as [[|s p]|]; try (split; auto with gateway; done).
  destruct (scalar_valid s); (split; [|done]); auto with gateway.
  apply set_costs_ok; [auto with gateway|]. by apply record_costs_length, Ho.
Qed.

(** A byte never meets the state in which the source would panic. *)
Lemma consume_token_ok o c :
  observer_ok o →
  ∃ o' used, consume_token serde_number parse_f64 serde_string o c = Some (o', used) ∧ observer_ok o' ∧
  (used = false → token o' = None).
Proof.
  intros Ho. unfold consume_token. destruct (token o) as [[t|s p]|] eqn:Et.
  - destruct Ho as (Hl & Hf & Hc & Ht & Hd & Hs) eqn:Eo. clear Eo. specialize (Ht _ Et) as Htok.
    cbn [token_ok] in Htok.
    assert (Ht' : string_ok (stack o) (with_raw (keep_raw (st_raw t) c) t)).
    { destruct Htok as (Hk & Hr & ?). split; [done|]. split; [|done]. intros b. by apply keep_raw_len. }
    destruct (at_char _ && _).
    + unfold end_string. cbn [st_key with_raw]. destruct (st_key t) eqn:Ek; [|by eauto 10 with gateway].
      destruct Htok as (Hk & _). destruct (Hk Ek) as (f & rest & Es & _).
      destruct (match keep_raw (st_raw t) c with None => _ | Some _ => _ end) as [k|] eqn:E;
        cbn [st_raw with_raw]; rewrite ?E; [|by eauto 10 with gateway].
      cbn [stack set_token]. rewrite Es. cbn. eexists _, _. split; [done|]. split; [|done].
      eapply top_ok; [by apply no_token_ok|done|exact Es|done].
    + pose proof (string_byte_ok _ _ c Ht') as Hb. destruct (string_byte _ c) as [t' bad].
      eexists _, _. split; [done|]. split; [|done]. by apply fail_ok, set_token_ok.
  - destruct (_ || _).
    + eexists _, _. split; [done|]. destruct (finish_scalar_ok o Ho). done.
    + eexists _, _. split; [done|]. split; [|done]. apply fail_ok, set_token_ok; [done|].
      destruct Ho as (_ & _ & _ & Ht & _). destruct (Ht _ Et) as [Hs Hp]. split; [|done].
      by apply scalar_feed_ok.
  - by eauto 10.
Qed.

Lemma feed_byte_ok o c :
  observer_ok o → ∃ o', feed_byte serde_number parse_f64 serde_string o c = Some o' ∧ observer_ok o'.
Proof.
  intros Ho. unfold feed_byte. destruct (failed o); [by eauto|].
  destruct (consume_token_ok o c Ho) as (o' & [|] & -> & Ho' & Hu); [by eauto|].
  eexists. split; [done|]. apply structural_ok; auto.
Qed.
Lemma feed_ok bytes o :
  observer_ok o → ∃ o', feed serde_number parse_f64 serde_string o bytes = Some o' ∧ observer_ok o'.
Proof.
  revert o. induction bytes as [|c bytes IH]; intros o Ho; [by eauto|]. cbn [feed].
  destruct (feed_byte_ok o c Ho) as (o' & -> & Ho'). by apply IH.
Qed.

(** Whatever a response contains, observing it never panics, and the
    observer keeps a bounded amount of it: at most 128 frames, no path beyond
    the metadata paths, 256 bytes of a key, 129 bytes and 64 digits of a
    number, six costs. *)
Theorem observer_bounded chunks :
  ∃ o, observe serde_number parse_f64 serde_string chunks = Some o ∧ observer_ok o.
Proof.
  unfold observe. rewrite feed_chunks_join.
  destruct (feed_ok (str_join chunks) observer_default default_ok) as (o & -> & Ho).
  eexists. split; [done|]. unfold finish. apply fail_ok. destruct (token o) as [[|]|]; try done.
  by apply finish_scalar_ok.
Qed.
End observer_bounds.
