(* ===== verification/Foundry.v ===== *)
(** * Foundry bindings

    Models [crates/gateway-core/src/foundry.rs]: which project endpoints and
    identities are accepted, and the rewriting of a Responses request so that
    it neither reads nor leaves state at the shared provider identity.  The
    URL parser and the JSON reader and writer are parameters; a [Uuid] is its
    text. *)

From S2P Require Import Prelude Errors Json.

(** What the code reads of a parsed [url::Url]. *)
Record Url := {
  url_scheme : string;
  url_host_str : option string;
  url_port_or_known_default : option Z;
  url_path : string;
  url_username : string;
  url_password : option string;
  url_query : option string;
  url_fragment : option string
}.

Inductive FoundryIdentityMethod : Type := ClientSecret | WorkloadIdentity | ManagedIdentity.
#[global] Instance FoundryIdentityMethod_eq_dec : EqDecision FoundryIdentityMethod.
Proof. solve_decision. Defined.

Record FoundryIdentity := {
  method : FoundryIdentityMethod;
  identity_tenant_id : option string;
  identity_client_id : option string
}.

Inductive FoundryBinding : Type :=
| RegisteredAgent (provider_id agent_name : string) (agent_version : option string)
| EndpointPassthrough (provider_id : string).
#[global] Instance FoundryBinding_eq_dec : EqDecision FoundryBinding.
Proof. solve_decision. Defined.

Definition provider_id (b : FoundryBinding) : string :=
  match b with RegisteredAgent id _ _ | EndpointPassthrough id => id end.

(** [valid_segment]. *)
Definition foundry_segment (value : string) : bool :=
  negb (is_empty value) && (len value <=? 128)
  && all_bytes (λ c, is_ascii_alphanumeric c || Ascii.eqb c "-" || Ascii.eqb c "_") value.

Definition binding_validate (b : FoundryBinding) : GatewayResult unit :=
  match b with
  | RegisteredAgent _ agent_name agent_version =>
      if negb (foundry_segment agent_name)
         || is_some_and (λ v, negb (foundry_segment v)) agent_version
      then Err InvalidFoundryConfiguration else Ok tt
  | EndpointPassthrough _ => Ok tt
  end.

(** The service route without its wildcard, and the only path it exposes. *)
Definition responses_path (route : string) : string :=
  trim_end_matches "/" (trim_end_matches "*" route) +:+ "/responses".
Definition validate_path (method path : string) (query : option string) (route : string) :
    GatewayResult unit :=
  if negb (String.eqb method "POST") || negb (String.eqb path (responses_path route)) || is_some query
  then Err InvalidFoundryRequest else Ok tt.

(** ** Project endpoints *)

Section endpoints.
Variable url_parse : string → option Url.

Definition project_path_ok (path : string) : bool :=
  match split_on "/" (trim_end_matches "/" path) with
  | [_; a; b; c] => String.eqb a "api" && String.eqb b "projects" && foundry_segment c
  | _ => false
  end.

Definition project_url (endpoint : string) : GatewayResult Url :=
  match url_parse endpoint with
  | None => Err InvalidFoundryConfiguration
  | Some url =>
      let host := default "" (url_host_str url) in
      let azure := ends_with host ".services.ai.azure.com" && String.eqb (url_scheme url) "https" in
      let loopback := (String.eqb host "127.0.0.1" || String.eqb host "[::1]")
                      && String.eqb (url_scheme url) "http" in
      if (negb azure && negb loopback)
         || negb (is_empty (url_username url)) || is_some (url_password url)
         || is_some (url_query url) || is_some (url_fragment url)
         || negb (project_path_ok (url_path url))
      then Err InvalidFoundryConfiguration
      else Ok url
  end.

Definition identity_validate (i : FoundryIdentity) (endpoint : string) (secret_present : bool) :
    GatewayResult unit :=
  check? project_url endpoint in
  if negb (bool_decide (method i = ManagedIdentity))
     && (is_none (identity_tenant_id i) || is_none (identity_client_id i))
  then Err InvalidFoundryConfiguration
  else if bool_decide (method i = ClientSecret) && negb secret_present
  then Err InvalidFoundryConfiguration
  else Ok tt.
End endpoints.

(** ** Requests *)

Definition is_null (v : Value) : bool := match v with JNull => true | _ => false end.
Definition is_false (v : Value) : bool := match v with JBool false => true | _ => false end.
Definition is_string (v : Value) : bool := match v with JString _ => true | _ => false end.
(** [v == "s"]. *)
Definition value_is (s : string) (v : Value) : bool :=
  match v with JString s' => String.eqb s' s | _ => false end.
Definition keys_within (allowed : list string) (m : JMap) : bool :=
  negb (existsb (λ p, negb (existsb (String.eqb p.1) allowed)) m).

Definition validate_part (part : Value) : GatewayResult unit :=
  let? p := ok_or (as_object part) InvalidFoundryRequest in
  if negb (keys_within ["type"; "text"] p)
     || negb (is_some_and (λ v, value_is "input_text" v || value_is "output_text" v) (map_get "type" p))
     || negb (is_some_and is_string (map_get "text" p))
  then Err InvalidFoundryRequest else Ok tt.

Definition validate_message (message : Value) : GatewayResult unit :=
  let? item := ok_or (as_object message) InvalidFoundryRequest in
  if negb (keys_within ["type"; "role"; "content"] item)
     || is_some_and (λ v, negb (value_is "message" v)) (map_get "type" item)
     || negb (is_some_and (λ v, value_is "user" v || value_is "assistant" v) (map_get "role" item))
  then Err InvalidFoundryRequest
  else
    let? content := ok_or (map_get "content" item) InvalidFoundryRequest in
    if is_string content then Ok tt
    else
      let? parts := ok_or (as_array content) InvalidFoundryRequest in
      try_for_each validate_part parts.

Definition validate_input (value : Value) : GatewayResult unit :=
  if is_string value then Ok tt
  else
    let? messages := ok_or (as_array value) InvalidFoundryRequest in
    try_for_each validate_message messages.

Definition STATEFUL_FIELDS : list string := ["conversation"; "previous_response_id"; "background"].
Definition AGENT_FIELDS : list string :=
  ["input"; "stream"; "store"; "metadata"; "max_output_tokens"; "guardrails"].

Definition drop_stateful (object : JMap) (name : string) : GatewayResult JMap :=
  if is_some_and (λ v, negb (is_null v) && negb (is_false v)) (map_get name object)
  then Err InvalidFoundryRequest
  else Ok (map_remove name object).

Definition agent_reference (agent_name : string) (agent_version : option string) : Value :=
  let reference := map_insert "type" (JString "agent_reference")
                     (map_insert "name" (JString agent_name) []) in
  JObject (match agent_version with
           | Some version => map_insert "version" (JString version) reference
           | None => reference
           end).

Definition prepare_value (b : FoundryBinding) (value : Value) : GatewayResult Value :=
  let? object := ok_or (as_object value) InvalidFoundryRequest in
  let? object := try_fold drop_stateful object STATEFUL_FIELDS in
  if is_some_and (λ v, negb (is_false v)) (map_get "store" object) then Err InvalidFoundryRequest
  else if negb (map_contains_key "input" object) then Err InvalidFoundryRequest
  else
    check? match map_get "input" object with Some input => validate_input input | None => Ok tt end in
    let? object :=
      match b with
      | RegisteredAgent _ agent_name agent_version =>
          if negb (keys_within AGENT_FIELDS object) then Err InvalidFoundryRequest
          else Ok (map_insert "agent_reference" (agent_reference agent_name agent_version) object)
      | EndpointPassthrough _ => Ok object
      end in
    Ok (JObject (map_insert "store" (JBool false) object)).

Section requests.
(** [serde_json::from_slice] and [serde_json::to_vec]. *)
Variable from_slice : string → option Value.
Variable to_vec : Value → option string.

Definition prepare_request (b : FoundryBinding) (body : string) : GatewayResult string :=
  let? value := ok_or (from_slice body) InvalidFoundryRequest in
  let? value := prepare_value b value in
  ok_or (to_vec value) InvalidFoundryRequest.
End requests.

(** ** Properties *)

(** Message history that is carried in the request itself. *)
Inductive inline_part : Value → Prop :=
| inline_text m kind text :
    kind = "input_text" ∨ kind = "output_text" →
    map_get "type" m = Some (JString kind) → map_get "text" m = Some (JString text) →
    (∀ k v, (k, v) ∈ m → k = "type" ∨ k = "text") →
    inline_part (JObject m).
Inductive inline_message : Value → Prop :=
| inline_msg m role content :
    role = "user" ∨ role = "assistant" →
    map_get "role" m = Some (JString role) → map_get "content" m = Some content →
    (∃ s, content = JString s) ∨ (∃ parts, content = JArray parts ∧ Forall inline_part parts) →
    (∀ t, map_get "type" m = Some t → t = JString "message") →
    (∀ k v, (k, v) ∈ m → k = "type" ∨ k = "role" ∨ k = "content") →
    inline_message (JObject m).
Definition inline_input (v : Value) : Prop :=
  (∃ s, v = JString s) ∨ (∃ l, v = JArray l ∧ Forall inline_message l).

Lemma value_is_iff s v : value_is s v = true ↔ v = JString s.
Proof. destruct v; simpl; try naive_solver. rewrite String.eqb_eq. naive_solver. Qed.
Lemma is_string_iff v : is_string v = true ↔ ∃ s, v = JString s.
Proof. destruct v; naive_solver. Qed.
Lemma keys_within_iff allowed m :
  keys_within allowed m = true ↔ ∀ k v, (k, v) ∈ m → k ∈ allowed.
Proof.
  unfold keys_within. rewrite negb_true_iff, existsb_false_iff. split.
  - intros H k v Hin. specialize (H _ Hin). apply negb_false_iff, existsb_eqb_iff in H. done.
  - intros H [k v] Hin. apply negb_false_iff, existsb_eqb_iff. by eapply H.
Qed.

Lemma validate_part_ok v : validate_part v = Ok tt ↔ inline_part v.
Proof.
  unfold validate_part. destruct v as [| | | | |m]; simpl; try (split; [done|by inversion 1]).
  rewrite guard_ok, !orb_false_iff, !negb_false_iff, keys_within_iff. split.
  - intros [[[Hk Ht] Hx] _]. destruct (map_get "type" m) as [t|] eqn:Et; [|done].
    destruct (map_get "text" m) as [x|] eqn:Ex; [|done]. simpl in *.
    apply is_string_iff in Hx as [s ->]. rewrite orb_true_iff, !value_is_iff in Ht.
    destruct Ht as [-> | ->]; (econstructor; [|done..|]; [naive_solver|]).
    all: intros k v Hin; specialize (Hk _ _ Hin); set_solver.
  - inversion 1 as [? kind text Hkind Ht Hx Hk]; subst. rewrite Ht, Hx. simpl. split; [|done].
    split; [split|done].
    + intros k v Hin. destruct (Hk _ _ Hin) as [-> | ->]; set_solver.
    + destruct Hkind as [-> | ->]; done.
Qed.

Lemma validate_message_ok v : validate_message v = Ok tt ↔ inline_message v.
Proof.
  unfold validate_message. destruct v as [| | | | |m]; simpl; try (split; [done|by inversion 1]).
  rewrite guard_ok, !orb_false_iff, !negb_false_iff, keys_within_iff. split.
  - intros [[[Hk Ht] Hr] Hc]. destruct (map_get "role" m) as [role|] eqn:Er; [|done].
    destruct (map_get "content" m) as [content|] eqn:Ec; [|done]. simpl in *.
    rewrite orb_true_iff, !value_is_iff in Hr.
    assert (∀ t, map_get "type" m = Some t → t = JString "message").
    { intros t Et. rewrite Et in Ht. simpl in Ht. by apply negb_false_iff, value_is_iff in Ht. }
    assert ((∃ s, content = JString s) ∨ (∃ parts, content = JArray parts ∧ Forall inline_part parts)).
    { destruct (is_string content) eqn:Es; [left; by apply is_string_iff|right].
      destruct content; try done. simpl in Hc. apply try_for_each_ok in Hc. eexists. split; [done|].
      eapply Forall_impl; [done|]. intros x. apply validate_part_ok. }
    destruct Hr as [-> | ->]; (econstructor; [|done..|]; [naive_solver|]).
    all: intros k v Hin; specialize (Hk _ _ Hin); set_solver.
  - inversion 1 as [? role content Hrole Hr Hc Hcc Ht Hk]; subst. rewrite Hr, Hc. simpl. split.
    + split; [split|by destruct Hrole as [-> | ->]].
      * intros k v Hin. destruct (Hk _ _ Hin) as [-> | [-> | ->]]; set_solver.
      * destruct (map_get "type" m) as [t|]; [|done]. rewrite (Ht t eq_refl). done.
    + destruct Hcc as [[s ->]|(parts & -> & Hp)]; [done|]. simpl. apply try_for_each_ok.
      eapply Forall_impl; [done|]. intros x. apply validate_part_ok.
Qed.

Lemma validate_input_ok v : validate_input v = Ok tt ↔ inline_input v.
Proof.
  unfold validate_input, inline_input. destruct v as [| | |s|l|m]; simpl; try naive_solver.
  rewrite try_for_each_ok. split.
  - intros H. right. eexists. split; [done|]. eapply Forall_impl; [done|].
    intros x. apply validate_message_ok.
  - intros [[s ?]|(l' & [= <-] & H)]; [done|]. eapply Forall_impl; [done|].
    intros x. apply validate_message_ok.
Qed.

Lemma elem_of_map_remove {A} k' (m : list (string * A)) k v :
  (k, v) ∈ map_remove k' m ↔ (k, v) ∈ m ∧ k ≠ k'.
Proof.
  unfold map_remove. rewrite list_elem_of_In, filter_In, <- list_elem_of_In. simpl.
  rewrite negb_true_iff, String.eqb_neq. naive_solver.
Qed.
Lemma elem_of_map_insert {A} k' (w : A) (m : list (string * A)) k v :
  (k, v) ∈ map_insert k' w m → (k = k' ∧ v = w) ∨ (k, v) ∈ m.
Proof.
  induction m as [|[k0 v0] m IH]; simpl; [set_solver|].
  destruct (String.eqb k' k0); [set_solver|]. destruct (key_ltb k' k0); set_solver.
Qed.

(** A stateful field may only be switched off. *)
Definition switched_off (o : option Value) : Prop := o = None ∨ o = Some JNull ∨ o = Some (JBool false).
Definition without_state (m : JMap) : JMap :=
  map_remove "background" (map_remove "previous_response_id" (map_remove "conversation" m)).

Lemma drop_stateful_ok m name m' :
  drop_stateful m name = Ok m' ↔ switched_off (map_get name m) ∧ m' = map_remove name m.
Proof.
  unfold drop_stateful. rewrite guard_ok. unfold switched_off.
  destruct (map_get name m) as [[|[]| | | |]|]; simpl; naive_solver.
Qed.
Lemma drop_all_ok m m' :
  try_fold drop_stateful m STATEFUL_FIELDS = Ok m' ↔
  Forall (λ f, switched_off (map_get f m)) STATEFUL_FIELDS ∧ m' = without_state m.
Proof.
  unfold STATEFUL_FIELDS. cbn [try_fold]. rewrite !Forall_cons.
  assert (Hcb : ∀ m m' name P, (let? b := drop_stateful m name in P b) = Ok m' ↔
    switched_off (map_get name m) ∧ (P (map_remove name m) : GatewayResult JMap) = Ok m').
  { intros m0 m0' name P. destruct (drop_stateful m0 name) as [m1|e] eqn:E.
    - apply drop_stateful_ok in E as [? ->]. naive_solver.
    - split; [done|]. intros [H _]. by rewrite (proj2 (drop_stateful_ok m0 name _) (conj H eq_refl)) in E. }
  rewrite !Hcb, !map_get_remove_ne by done. unfold without_state. split.
  - intros (? & ? & ? & [= <-]). naive_solver.
  - intros ((? & ? & ? & _) & ->). done.
Qed.

Lemma map_get_without_state k m :
  map_get k (without_state m) = if existsb (String.eqb k) STATEFUL_FIELDS then None else map_get k m.
Proof.
  unfold without_state. cbn [existsb STATEFUL_FIELDS].
  destruct (String.eqb_spec k "background") as [->|]; [by rewrite map_get_remove|].
  rewrite map_get_remove_ne by done.
  destruct (String.eqb_spec k "previous_response_id") as [->|]; [by rewrite map_get_remove|].
  rewrite map_get_remove_ne by done.
  destruct (String.eqb_spec k "conversation") as [->|]; [by rewrite map_get_remove|].
  by rewrite map_get_remove_ne by done.
Qed.

Definition pinned_agent (b : FoundryBinding) : option Value :=
  match b with RegisteredAgent _ name version => Some (agent_reference name version) | _ => None end.

(** What a request must satisfy to be sent to the provider. *)
Record acceptable (b : FoundryBinding) (m : JMap) : Prop := {
  acceptable_state : Forall (λ f, switched_off (map_get f m)) STATEFUL_FIELDS;
  acceptable_store : map_get "store" m = None ∨ map_get "store" m = Some (JBool false);
  acceptable_input : ∃ input, map_get "input" m = Some input ∧ inline_input input;
  acceptable_fields : is_some (pinned_agent b) = true →
    ∀ k v, (k, v) ∈ m → k ∈ STATEFUL_FIELDS ++ AGENT_FIELDS
}.
(** What is sent instead of the member [k]. *)
Definition prepared_member (b : FoundryBinding) (m : JMap) (k : string) : option Value :=
  if String.eqb k "store" then Some (JBool false)
  else if existsb (String.eqb k) STATEFUL_FIELDS then None
  else if String.eqb k "agent_reference" && is_some (pinned_agent b) then pinned_agent b
  else map_get k m.

Lemma fields_without_state m :
  keys_within AGENT_FIELDS (without_state m) = true ↔ ∀ k v, (k, v) ∈ m → k ∈ STATEFUL_FIELDS ++ AGENT_FIELDS.
Proof.
  rewrite keys_within_iff. unfold without_state. setoid_rewrite elem_of_map_remove.
  setoid_rewrite elem_of_map_remove. setoid_rewrite elem_of_map_remove. split.
  - intros H k v Hin. rewrite elem_of_app. destruct (decide (k ∈ STATEFUL_FIELDS)) as [|Hk]; [by left|right].
    unfold STATEFUL_FIELDS in Hk. apply (H k v). set_solver.
  - intros H k v Hin. destruct Hin as [[[Hin ?] ?] ?]. apply H, elem_of_app in Hin as [Hs|]; [|done].
    unfold STATEFUL_FIELDS in Hs. set_solver.
Qed.

Lemma prepare_value_ok b v v' :
  prepare_value b v = Ok v' ↔
  ∃ m, v = JObject m ∧ acceptable b m ∧
       v' = JObject (map_insert "store" (JBool false)
              (match pinned_agent b with
               | Some r => map_insert "agent_reference" r (without_state m)
               | None => without_state m
               end)).
Proof.
  unfold prepare_value. destruct v as [| | | | |m]; cbn [as_object ok_or]; try naive_solver.
  destruct (try_fold drop_stateful m STATEFUL_FIELDS) as [m1|e] eqn:E.
  2:{ split; [done|]. intros (m2 & [= <-] & Ha & _).
      by rewrite (proj2 (drop_all_ok m _) (conj (acceptable_state _ _ Ha) eq_refl)) in E. }
  apply drop_all_ok in E as [Hst ->]. rewrite !guard_ok. unfold map_contains_key.
  rewrite !map_get_without_state.
  change (existsb (String.eqb "store") STATEFUL_FIELDS) with false.
  change (existsb (String.eqb "input") STATEFUL_FIELDS) with false. cbn iota. split.
  - intros (Hs & Hi & H). destruct (map_get "input" m) as [input|] eqn:Ei; [|done].
    destruct (validate_input input) as [[]|] eqn:Ev; [|done]. apply validate_input_ok in Ev.
    exists m. split; [done|]. split; [|destruct b; result_cases; done].
    split; [done| |by eauto|].
    + destruct (map_get "store" m) as [[|[]| | | |]|]; naive_solver.
    + destruct b; [|done]. result_cases. bool_prop. intros _. by apply fields_without_state.
  - intros (m' & [= <-] & [_ Hs (input & Hi & Hin) Hf] & ->). rewrite Hi. cbn [is_some negb].
    rewrite (proj2 (validate_input_ok input) Hin). split; [by destruct Hs as [-> | ->]|]. split; [done|].
    destruct b as [pid name version|]; [|done]. cbn [pinned_agent is_some] in *.
    by rewrite (proj2 (fields_without_state m) (Hf eq_refl)).
Qed.

(** A request is sent to a Foundry provider exactly when it carries its
    history inline, switches every stateful feature off and, for a registered
    agent, uses only the allowed fields.  What is sent then stores nothing,
    names no earlier response or conversation, carries the pinned agent of a
    registered binding, and is otherwise the caller's request, member by
    member. *)
Theorem prepared_request b m :
  (acceptable b m ↔ is_ok (prepare_value b (JObject m)) = true) ∧
  ∀ v', prepare_value b (JObject m) = Ok v' →
    ∃ m', v' = JObject m' ∧ ∀ k, map_get k m' = prepared_member b m k.
Proof.
  split.
  - split.
    + intros Ha. destruct (prepare_value b (JObject m)) eqn:E; [done|].
      by rewrite (proj2 (prepare_value_ok b (JObject m) _) (ex_intro _ m (conj eq_refl (conj Ha eq_refl)))) in E.
    + destruct (prepare_value b (JObject m)) eqn:E; [|done]. intros _.
      by apply prepare_value_ok in E as (m' & [= <-] & ? & _).
  - intros v' (m0 & [= <-] & Ha & ->)%prepare_value_ok. eexists. split; [done|]. intros k.
    rewrite map_get_insert. unfold prepared_member. destruct (String.eqb_spec k "store"); [done|].
    destruct b as [pid name version|]; cbn [pinned_agent is_some].
    + rewrite map_get_insert, map_get_without_state.
      destruct (String.eqb_spec k "agent_reference") as [->|]; [done|].
      by destruct (existsb (String.eqb k) STATEFUL_FIELDS).
    + rewrite map_get_without_state. by rewrite andb_false_r.
Qed.

Lemma prepared_request_witness :
  ∃ m', prepare_value (RegisteredAgent "p" "research" (Some "3"))
          (JObject [("background", JBool false); ("input", JString "hello")]) = Ok (JObject m') ∧
  map_get "background" m' = None ∧ map_get "store" m' = Some (JBool false) ∧
  map_get "agent_reference" m' = Some (agent_reference "research" (Some "3")).
Proof.
  destruct (proj2 (prepared_request (RegisteredAgent "p" "research" (Some "3"))
              [("background", JBool false); ("input", JString "hello")]) _ eq_refl) as (m' & E & Hk).
  exists m'. split; [by rewrite <- E|]. rewrite !Hk. done.
Defined.

(** A provider endpoint is an Azure AI project over TLS, or a local one. *)
Lemma project_url_ok url_parse endpoint url :
  project_url url_parse endpoint = Ok url →
  url_parse endpoint = Some url ∧
  ((∃ account, url_host_str url = Some (account +:+ ".services.ai.azure.com") ∧ url_scheme url = "https")
   ∨ ((url_host_str url = Some "127.0.0.1" ∨ url_host_str url = Some "[::1]") ∧ url_scheme url = "http")) ∧
  url_username url = "" ∧ url_password url = None ∧ url_query url = None ∧ url_fragment url = None ∧
  ∃ root project, split_on "/" (trim_end_matches "/" (url_path url)) = [root; "api"; "projects"; project]
                  ∧ foundry_segment project = true.
Proof.
  unfold project_url. destruct (url_parse endpoint) as [u|]; [|done].
  rewrite guard_ok, !orb_false_iff. intros ([[[[[Hh Hu] Hp] Hq] Hf] Hpath] & [= <-]).
  apply negb_false_iff in Hu, Hpath. split; [done|].
  assert (∀ A (o : option A), is_some o = false → o = None) as Hnone by by intros ? [].
  apply Hnone in Hp, Hq, Hf. destruct (url_username u); [|done]. split; [|repeat split; try done].
  - destruct (url_host_str u) as [h|]; [|done]. simpl in Hh.
    destruct (ends_with h ".services.ai.azure.com") eqn:Ea, (String.eqb_spec (url_scheme u) "https") as [E|];
      cbn [andb negb] in Hh.
    1:{ left. unfold ends_with in Ea. destruct (strip_suffix _ h) as [a|] eqn:Es; [|done].
        apply strip_suffix_Some in Es as ->. eauto. }
    all: right; apply negb_false_iff, andb_true_iff in Hh as [Hh Hs]; apply String.eqb_eq in Hs;
      apply orb_true_iff in Hh as [->%String.eqb_eq| ->%String.eqb_eq]; auto.
  - unfold project_path_ok in Hpath. destruct (split_on _ _) as [|r [|a [|b [|c [|]]]]]; try done.
    bool_prop. subst. eauto.
Qed.
