(* ===== verification/ServiceTypes.v ===== *)
(** * The service registry: data and validation

    Models the types and validators of [crates/gateway-core/src/services.rs].
    A registered service names a route, an upstream, its methods and limits,
    and how its requests are priced.  The URL parser, the [http] method
    parser, the shortest decimal text of an [f64] ([to_string]), the Unicode
    tables and the header-name grammar are parameters. *)

From S2P Require Import Prelude Errors Json GuardrailPolicy EndpointAccess Foundry.

Definition DEFAULT_TIMEOUT_MS : Z := 60000.
Definition DEFAULT_MAX_BODY_BYTES : Z := 2097152.

Inductive ServiceSource : Type := SourceGateway | SourceStudio.
Inductive ServiceSyncStatus : Type := SyncLocal | SyncSynced | SyncIncomplete | SyncStale | SyncFailed.
Inductive ServiceCostMode : Type := CostFixed | CostPassthrough | CostNone.
#[global] Instance ServiceCostMode_eq_dec : EqDecision ServiceCostMode.
Proof. solve_decision. Defined.

Record ServicePricingRule := {
  rule_name : option string;
  json_pointer : string;
  equals : string;
  rule_cost_mode : ServiceCostMode;
  rule_estimated_cost_usd : option f64
}.

Record ServiceOpenApiEndpoint := {
  endpoint_method : string;
  endpoint_path_template : string;
  endpoint_operation_id : option string;
  summary : option string;
  relayna_default : bool
}.

Record ServiceEndpointPricingRule := {
  ep_method : string;
  ep_path_template : string;
  ep_operation_id : option string;
  ep_cost_mode : ServiceCostMode;
  ep_estimated_cost_usd : option f64
}.

Record ServiceRegistration := {
  foundry : option FoundryBinding;
  access : EndpointAccess;
  name : string;
  project_id : option string;
  studio_service_id : option string;
  service_route_pattern : string;
  upstream_base_url : option string;
  health_check_path : option string;
  health_check_method : string;
  enabled : bool;
  allowed_methods : list string;
  timeout_ms : Z;
  max_body_bytes : Z;
  cost_mode : ServiceCostMode;
  estimated_cost_usd : option f64;
  pricing_rules : list ServicePricingRule;
  openapi_source_path : option string;
  openapi_schema_hash : option string;
  openapi_synced_at : option Z;
  openapi_endpoints : list ServiceOpenApiEndpoint;
  endpoint_pricing_rules : list ServiceEndpointPricingRule;
  credential_secret : option string;
  fallback_services : list string;
  source : ServiceSource;
  sync_status : ServiceSyncStatus;
  last_synced_at : option Z;
  disabled_at : option Z;
  created_at : Z;
  updated_at : Z
}.

Record ServiceCreateRequest := {
  cr_foundry : option FoundryBinding;
  cr_access : EndpointAccess;
  cr_name : string;
  cr_project_id : option string;
  cr_studio_service_id : option string;
  cr_route_pattern : option string;
  cr_upstream_base_url : option string;
  cr_health_check_path : option string;
  cr_health_check_method : string;
  cr_enabled : bool;
  cr_allowed_methods : list string;
  cr_credential : option string;
  cr_timeout_ms : Z;
  cr_max_body_bytes : Z;
  cr_cost_mode : ServiceCostMode;
  cr_estimated_cost_usd : option f64;
  cr_pricing_rules : list ServicePricingRule;
  cr_openapi_source_path : option string;
  cr_openapi_endpoints : list ServiceOpenApiEndpoint;
  cr_endpoint_pricing_rules : list ServiceEndpointPricingRule;
  cr_fallback_services : list string
}.

Record ServicePatchRequest := {
  pr_foundry : option (option FoundryBinding);
  pr_access : option EndpointAccess;
  pr_project_id : option (option string);
  pr_studio_service_id : option (option string);
  pr_route_pattern : option string;
  pr_upstream_base_url : option (option string);
  pr_health_check_path : option (option string);
  pr_health_check_method : option string;
  pr_enabled : option bool;
  pr_allowed_methods : option (list string);
  pr_credential : option (option string);
  pr_timeout_ms : option Z;
  pr_max_body_bytes : option Z;
  pr_cost_mode : option ServiceCostMode;
  pr_estimated_cost_usd : option (option f64);
  pr_pricing_rules : option (list ServicePricingRule);
  pr_openapi_source_path : option (option string);
  pr_openapi_schema_hash : option (option string);
  pr_openapi_synced_at : option (option Z);
  pr_openapi_endpoints : option (list ServiceOpenApiEndpoint);
  pr_endpoint_pricing_rules : option (list ServiceEndpointPricingRule);
  pr_fallback_services : option (list string);
  pr_sync_status : option ServiceSyncStatus;
  reprice_existing_usage : bool
}.

Record StudioServicePricing := {
  st_cost_mode : ServiceCostMode;
  st_estimated_cost_usd : option f64;
  st_pricing_rules : list ServicePricingRule
}.

Record StudioServiceImportRequest := {
  im_studio_service_id : string;
  im_name : string;
  im_project_id : option string;
  im_route_pattern : option string;
  im_upstream_base_url : option string;
  im_health_check_path : option string;
  im_health_check_method : string;
  im_allowed_methods : list string;
  im_category : option string;
  im_default_pricing : option StudioServicePricing
}.

Record StudioCatalogService := {
  ca_studio_service_id : string;
  ca_name : option string;
  gateway_service_name : option string;
  ca_display_name : option string;
  base_url : option string;
  ca_health_check_path : option string;
  ca_health_check_method : option string;
  environment : option string;
  tags : list string;
  status : option string;
  auth_mode : option string;
  ca_default_route_pattern : option string;
  ca_allowed_methods : option (list string);
  ca_default_pricing : option StudioServicePricing
}.

Record StudioServiceImportPreview := {
  pv_studio_service_id : string;
  pv_name : string;
  pv_display_name : option string;
  pv_environment : option string;
  pv_status : option string;
  pv_base_url : option string;
  pv_tags : list string;
  pv_route_pattern : string;
  import_request : StudioServiceImportRequest
}.

(** ** Names and routes *)

Definition name_byte (c : ascii) : bool := is_ascii_lower c || is_ascii_digit c.
Fixpoint last_byte (s : string) : option ascii :=
  match s with
  | EmptyString => None
  | String c EmptyString => Some c
  | String _ s => last_byte s
  end.
Definition first_byte (s : string) : option ascii :=
  match s with EmptyString => None | String c _ => Some c end.

Definition service_name_ok (name : string) : bool :=
  negb (is_empty name) && (len name <=? 64)
  && all_bytes (λ c, name_byte c || Ascii.eqb c "-") name
  && is_some_and name_byte (first_byte name) && is_some_and name_byte (last_byte name).
Definition validate_service_name (name : string) : GatewayResult unit :=
  if service_name_ok name then Ok tt else Err InvalidServicePayload.

Lemma validate_service_name_ok n : validate_service_name n = Ok tt ↔ service_name_ok n = true.
Proof. unfold validate_service_name. destruct (service_name_ok n); naive_solver. Qed.

Definition default_route_pattern (name : string) : option string :=
  if String.eqb name "summary" then Some "/summary"
  else if String.eqb name "translation" then Some "/translation"
  else if String.eqb name "ocr" then Some "/ocr"
  else if String.eqb name "embeddings" then Some "/embeddings"
  else None.
(** The route of a service that does not choose one. *)
Definition route_or_default (route : option string) (name : string) : string :=
  match route with
  | Some r => r
  | None => default ("/services/" +:+ name +:+ "/*") (default_route_pattern name)
  end.

(** [str::trim_start_matches(c)] and [str::trim_matches(c)] for a character. *)
Fixpoint trim_start_char (c : ascii) (s : string) : string :=
  match s with
  | EmptyString => EmptyString
  | String d r => if Ascii.eqb c d then trim_start_char c r else s
  end.
Definition trim_matches (c : ascii) (s : string) : string := trim_end_matches c (trim_start_char c s).

(** The loop of [normalize_gateway_service_name] over the lower-cased value.
    A character that is not a letter or digit becomes a dash unless one was
    just written, so its bytes count as one. *)
Fixpoint dashed (previous_dash : bool) (s : string) : string :=
  match s with
  | EmptyString => EmptyString
  | String c s =>
      if name_byte c then String c (dashed false s)
      else if previous_dash then dashed true s
      else String "-" (dashed true s)
  end.

Section names.
(** [value.chars().flat_map(char::to_lowercase)]. *)
Variable chars_to_lowercase : string → string.

Definition normalize_gateway_service_name (value : string) : string :=
  str_take 64 (trim_matches "-" (dashed false (chars_to_lowercase value))).

Fixpoint first_valid_name (candidates : list string) : GatewayResult string :=
  match candidates with
  | [] => Err InvalidServicePayload
  | candidate :: candidates =>
      let normalized := normalize_gateway_service_name candidate in
      match validate_service_name normalized with
      | Ok _ => Ok normalized
      | Err _ => first_valid_name candidates
      end
  end.
Definition gateway_name (s : StudioCatalogService) : GatewayResult string :=
  first_valid_name (omap id [gateway_service_name s; ca_name s; Some (ca_studio_service_id s)]).
End names.

(** ** Validators *)

Definition validate_route_pattern (route_pattern : string) : GatewayResult unit :=
  if starts_with route_pattern "/" && negb (contains_str route_pattern "//") then Ok tt
  else Err InvalidServicePayload.

Definition validate_optional_health_check_path (path : option string) : GatewayResult unit :=
  match opt_filter (λ v, negb (is_empty (trim v))) path with
  | None => Ok tt
  | Some path =>
      if starts_with path "/" && negb (contains_str path "//") then Ok tt else Err InvalidServicePayload
  end.

Definition validate_runtime_limits (timeout_ms max_body_bytes : Z) : GatewayResult unit :=
  if in_range 1 600000 timeout_ms && in_range 1 104857600 max_body_bytes then Ok tt
  else Err InvalidServicePayload.

Definition validate_fallback_services (services : list string) : GatewayResult unit :=
  try_for_each validate_service_name services.
Definition validate_optional_secret (secret : option string) : GatewayResult unit :=
  match secret with
  | Some value => if is_empty (trim value) then Err InvalidServicePayload else Ok tt
  | None => Ok tt
  end.

(** ** Templates *)

Definition is_parameter (segment : string) : bool := starts_with segment "{" && ends_with segment "}".
Definition has_brace (s : string) : bool := contains_byte "{" s || contains_byte "}" s.
(** [segment[1..segment.len() - 1]]. *)
Definition inner (segment : string) : string :=
  String.substring 1 (String.length segment - 2) segment.

Definition segment_valid (segment : string) : bool :=
  negb (has_brace segment)
  || (starts_with segment "{" && ends_with segment "}" && (2 <? len segment)
      && negb (has_brace (inner segment))).
Definition validate_openapi_endpoint_path (path : string) : GatewayResult unit :=
  if (512 <? len path) || negb (starts_with path "/") || contains_str path "//"
  then Err InvalidServicePayload
  else
    try_for_each (λ segment, if segment_valid segment then Ok tt else Err InvalidServicePayload)
      (split_on "/" (trim_matches "/" path)).

(** [iter.collect::<Vec<_>>().join("/")]. *)
Fixpoint slash_join (l : list string) : string :=
  match l with
  | [] => EmptyString
  | [s] => s
  | s :: l => s +:+ "/" +:+ slash_join l
  end.
Definition normalized_endpoint_template (path : string) : string :=
  slash_join (map (λ segment, if is_parameter segment then "{}" else segment) (split_on "/" path)).

Definition to_ascii_uppercase : string → string :=
  fix go s := match s with
              | EmptyString => EmptyString
              | String c s =>
                  String (if is_ascii_lower c then ascii_of_N (Z.to_N (byte_val c - 32)) else c) (go s)
              end.

Definition EXACT_DEFAULT : list string := ["/health"; "/history"].
Definition DEFAULT_PREFIXES : list string :=
  ["/events"; "/status"; "/dlq"; "/broker/dlq"; "/failed-tasks"; "/relayna"; "/executions"].
Definition is_relayna_default_endpoint (path_template : string) : bool :=
  existsb (String.eqb path_template) EXACT_DEFAULT
  || existsb (λ prefix,
       String.eqb path_template prefix
       || is_some_and (λ suffix, starts_with suffix "/") (strip_prefix prefix path_template))
       DEFAULT_PREFIXES.

(** ** Prices *)

Section validation.
(** [url::Url::parse], [Method::from_bytes(..).is_ok()] and [f64::to_string]. *)
Variable url_parse : string → option Url.
Variable method_parses : string → bool.
Variable f64_to_string : f64 → string.
(** [char::is_control] of some character, [str::to_lowercase], and
    [HeaderName::from_bytes(..).is_ok()]. *)
Variable has_control : string → bool.
Variable to_lowercase : string → string.
Variable header_name_ok : string → bool.
Variable chars_to_lowercase : string → string.

(** numeric(20, 8): twelve digits before the point and eight after it. *)
Definition cost_storable (cost : f64) : bool :=
  f64_is_finite cost && f64_leb (f64_of_Z 0) cost && f64_ltb cost (f64_of_Z 1000000000000)
  && negb (is_some_and (λ p, 8 <? len p.2) (split_once "." (f64_to_string cost))).
Definition validate_cost (cost_mode : ServiceCostMode) (estimated_cost_usd : option f64) :
    GatewayResult unit :=
  if is_some_and (λ cost, negb (cost_storable cost)) estimated_cost_usd then Err InvalidServicePayload
  else if bool_decide (cost_mode = CostFixed) && is_none estimated_cost_usd
  then Err InvalidServicePayload
  else Ok tt.

Definition validate_pricing_rule (rule : ServicePricingRule) : GatewayResult unit :=
  check? match rule_name rule with Some name => validate_service_name name | None => Ok tt end in
  if negb (starts_with (json_pointer rule) "/") then Err InvalidServicePayload
  else if is_empty (equals rule) then Err InvalidServicePayload
  else validate_cost (rule_cost_mode rule) (rule_estimated_cost_usd rule).
Definition validate_pricing_rules (rules : list ServicePricingRule) : GatewayResult unit :=
  if (50 <? length rules)%nat then Err InvalidServicePayload
  else try_for_each validate_pricing_rule rules.

Definition validate_endpoint_method (method : string) : GatewayResult unit :=
  if negb (method_parses method) then Err InvalidServicePayload
  else if str_mem method ["GET"; "POST"; "PUT"; "PATCH"; "DELETE"; "HEAD"; "OPTIONS"] then Ok tt
  else Err InvalidServicePayload.
Definition validate_health_check_method (method : string) : GatewayResult unit :=
  if negb (method_parses method) then Err InvalidServicePayload
  else if str_mem method ["GET"; "HEAD"] then Ok tt
  else Err InvalidServicePayload.
Definition validate_allowed_methods (methods : list string) : GatewayResult unit :=
  if is_nil methods then Err InvalidServicePayload
  else
    try_for_each (λ method,
      if negb (method_parses method) then Err InvalidServicePayload
      else if negb (str_mem method ["GET"; "POST"; "PUT"; "PATCH"; "DELETE"])
      then Err InvalidServicePayload else Ok tt) methods.

(** The identity under which an endpoint may be listed once. *)
Definition identity (method path_template : string) : string * string :=
  (to_ascii_uppercase method, normalized_endpoint_template path_template).
Definition insert_identity (i : string * string) (identities : list (string * string)) :
    GatewayResult (list (string * string)) :=
  if bool_decide (i ∈ identities) then Err InvalidServicePayload else Ok (i :: identities).

Definition validate_openapi_endpoint (identities : list (string * string))
    (endpoint : ServiceOpenApiEndpoint) : GatewayResult (list (string * string)) :=
  check? validate_endpoint_method (endpoint_method endpoint) in
  check? validate_openapi_endpoint_path (endpoint_path_template endpoint) in
  if is_some_and (λ v, 256 <? len v) (endpoint_operation_id endpoint)
     || is_some_and (λ v, 512 <? len v) (summary endpoint)
  then Err InvalidServicePayload
  else insert_identity (identity (endpoint_method endpoint) (endpoint_path_template endpoint)) identities.
Definition validate_openapi_endpoints (endpoints : list ServiceOpenApiEndpoint) : GatewayResult unit :=
  if (500 <? length endpoints)%nat then Err InvalidServicePayload
  else check? try_fold validate_openapi_endpoint [] endpoints in Ok tt.

Definition validate_endpoint_pricing_rule (identities : list (string * string))
    (rule : ServiceEndpointPricingRule) : GatewayResult (list (string * string)) :=
  check? validate_endpoint_method (ep_method rule) in
  check? validate_openapi_endpoint_path (ep_path_template rule) in
  check? validate_cost (ep_cost_mode rule) (ep_estimated_cost_usd rule) in
  if is_some_and (λ v, 256 <? len v) (ep_operation_id rule) then Err InvalidServicePayload
  else insert_identity (identity (ep_method rule) (ep_path_template rule)) identities.
Definition validate_endpoint_pricing_rules (rules : list ServiceEndpointPricingRule) :
    GatewayResult unit :=
  if (500 <? length rules)%nat then Err InvalidServicePayload
  else check? try_fold validate_endpoint_pricing_rule [] rules in Ok tt.

Definition validate_openapi_source_path (path : string) : GatewayResult unit :=
  if (len path <=? 512) && starts_with path "/" && negb (starts_with path "//")
     && negb (contains_str path "//")
     && negb (contains_byte "?" path || contains_byte "#" path || contains_byte "\" path)
     && negb (has_control path)
  then Ok tt else Err InvalidServicePayload.
Definition validate_optional_openapi_source_path (path : option string) : GatewayResult unit :=
  match path with Some path => validate_openapi_source_path path | None => Ok tt end.

Definition validate_optional_upstream (upstream : option string) : GatewayResult unit :=
  match opt_filter (λ v, negb (is_empty v)) upstream with
  | None => Ok tt
  | Some upstream =>
      match url_parse upstream with
      | None => Err InvalidServiceUpstream
      | Some url =>
          if str_mem (url_scheme url) ["http"; "https"] && is_some (url_host_str url) then Ok tt
          else Err InvalidServiceUpstream
      end
  end.

Definition validate_foundry_service (binding : option FoundryBinding) (route_pattern : string)
    (methods : list string) (upstream credential : option string) (fallbacks : list string)
    (access : EndpointAccess) : GatewayResult unit :=
  match binding with
  | None => Ok tt
  | Some binding =>
      check? binding_validate binding in
      if negb (ends_with route_pattern "/*") || negb (bool_decide (methods = ["POST"]))
         || is_some upstream || is_some credential || negb (is_nil fallbacks)
         || is_some (accessa access) || is_some (websocket access)
      then Err InvalidFoundryConfiguration else Ok tt
  end.

(** ** Requests *)

Definition create_validate (r : ServiceCreateRequest) : GatewayResult unit :=
  if is_some (cr_foundry r) && is_some (cr_studio_service_id r) then Err InvalidFoundryConfiguration
  else
    check? validate_service_name (cr_name r) in
    let route_pattern := route_or_default (cr_route_pattern r) (cr_name r) in
    check? validate_foundry_service (cr_foundry r) route_pattern (cr_allowed_methods r)
             (cr_upstream_base_url r) (cr_credential r) (cr_fallback_services r) (cr_access r) in
    check? validate_route_pattern route_pattern in
    check? endpoint_validate to_lowercase has_control header_name_ok (cr_access r) route_pattern in
    check? validate_optional_upstream (cr_upstream_base_url r) in
    check? validate_optional_health_check_path (cr_health_check_path r) in
    check? validate_health_check_method (cr_health_check_method r) in
    check? validate_allowed_methods (cr_allowed_methods r) in
    check? validate_runtime_limits (cr_timeout_ms r) (cr_max_body_bytes r) in
    check? validate_cost (cr_cost_mode r) (cr_estimated_cost_usd r) in
    check? validate_pricing_rules (cr_pricing_rules r) in
    check? validate_optional_openapi_source_path (cr_openapi_source_path r) in
    check? validate_openapi_endpoints (cr_openapi_endpoints r) in
    check? validate_endpoint_pricing_rules (cr_endpoint_pricing_rules r) in
    check? validate_fallback_services (cr_fallback_services r) in
    check? validate_optional_secret (cr_credential r) in
    Ok tt.

Definition if_present {A} (o : option A) (f : A → GatewayResult unit) : GatewayResult unit :=
  match o with Some a => f a | None => Ok tt end.

Definition patch_validate (p : ServicePatchRequest) : GatewayResult unit :=
  if reprice_existing_usage p && is_none (pr_cost_mode p) && is_none (pr_estimated_cost_usd p)
     && is_none (pr_pricing_rules p) && is_none (pr_endpoint_pricing_rules p)
  then Err InvalidServicePayload
  else
    check? if_present (pr_route_pattern p) validate_route_pattern in
    check? if_present (pr_upstream_base_url p) validate_optional_upstream in
    check? if_present (pr_health_check_path p) validate_optional_health_check_path in
    check? if_present (pr_health_check_method p) validate_health_check_method in
    check? if_present (pr_allowed_methods p) validate_allowed_methods in
    check? if_present (pr_timeout_ms p) (λ t, validate_runtime_limits t (default 1 (pr_max_body_bytes p))) in
    check? if_present (pr_max_body_bytes p) (λ m, validate_runtime_limits (default 1 (pr_timeout_ms p)) m) in
    check? match pr_estimated_cost_usd p with
           | Some (Some cost) => validate_cost (default CostNone (pr_cost_mode p)) (Some cost)
           | _ => Ok tt
           end in
    check? if_present (pr_pricing_rules p) validate_pricing_rules in
    check? if_present (pr_openapi_source_path p) validate_optional_openapi_source_path in
    check? if_present (pr_openapi_endpoints p) validate_openapi_endpoints in
    check? if_present (pr_endpoint_pricing_rules p) validate_endpoint_pricing_rules in
    check? if_present (pr_fallback_services p) validate_fallback_services in
    check? if_present (pr_credential p) validate_optional_secret in
    Ok tt.

Definition validate_default_pricing (pricing : StudioServicePricing) : GatewayResult unit :=
  check? validate_cost (st_cost_mode pricing) (st_estimated_cost_usd pricing) in
  validate_pricing_rules (st_pricing_rules pricing).

Definition import_validate (r : StudioServiceImportRequest) : GatewayResult unit :=
  check? validate_service_name (im_name r) in
  if is_empty (trim (im_studio_service_id r)) then Err InvalidServicePayload
  else
    check? if_present (im_route_pattern r) validate_route_pattern in
    check? validate_optional_upstream (im_upstream_base_url r) in
    check? validate_optional_health_check_path (im_health_check_path r) in
    check? validate_health_check_method (im_health_check_method r) in
    check? validate_allowed_methods (im_allowed_methods r) in
    check? if_present (im_default_pricing r) validate_default_pricing in
    Ok tt.

Definition into_preview (s : StudioCatalogService) : GatewayResult StudioServiceImportPreview :=
  let? name := gateway_name chars_to_lowercase s in
  let route_pattern := route_or_default (ca_default_route_pattern s) name in
  check? validate_route_pattern route_pattern in
  check? validate_optional_upstream (base_url s) in
  check? validate_optional_health_check_path (ca_health_check_path s) in
  check? if_present (ca_health_check_method s) validate_health_check_method in
  let allowed_methods := default ["POST"] (opt_filter (λ l, negb (is_nil l)) (ca_allowed_methods s)) in
  check? validate_allowed_methods allowed_methods in
  check? if_present (ca_default_pricing s) validate_default_pricing in
  let request :=
    {| im_studio_service_id := ca_studio_service_id s; im_name := name; im_project_id := None;
       im_route_pattern := Some route_pattern; im_upstream_base_url := base_url s;
       im_health_check_path := ca_health_check_path s;
       im_health_check_method := default "GET" (ca_health_check_method s);
       im_allowed_methods := allowed_methods; im_category := environment s;
       im_default_pricing := ca_default_pricing s |} in
  check? import_validate request in
  Ok {| pv_studio_service_id := ca_studio_service_id s; pv_name := name;
        pv_display_name := ca_display_name s; pv_environment := environment s; pv_status := status s;
        pv_base_url := base_url s; pv_tags := tags s; pv_route_pattern := route_pattern;
        import_request := request |}.

(** ** Registered services *)

Definition validate_foundry (s : ServiceRegistration) : GatewayResult unit :=
  if is_some (foundry s) && is_some (studio_service_id s) then Err InvalidFoundryConfiguration
  else
    check? validate_foundry_service (foundry s) (service_route_pattern s) (allowed_methods s)
             (upstream_base_url s) (credential_secret s) (fallback_services s) (access s) in
    Ok tt.

Definition missing_runtime_fields (s : ServiceRegistration) : list string :=
  if is_some (foundry s) then []
  else
    (if is_none_or is_empty (upstream_base_url s) then ["upstream_base_url"] else [])
    ++ (if is_none_or is_empty (credential_secret s) then ["credential"] else []).

Record HistoricalUsageRepricing := { updated_requests : Z; unchanged_requests : Z }.
Record ServiceResponse := {
  historical_usage_repricing : option HistoricalUsageRepricing;
  sr_foundry : option FoundryBinding;
  sr_access : EndpointAccess;
  sr_name : string;
  sr_project_id : option string;
  sr_studio_service_id : option string;
  sr_route_pattern : string;
  sr_upstream_base_url : option string;
  sr_health_check_path : option string;
  sr_health_check_method : string;
  sr_enabled : bool;
  sr_allowed_methods : list string;
  credential_configured : bool;
  sr_timeout_ms : Z;
  sr_max_body_bytes : Z;
  sr_cost_mode : ServiceCostMode;
  sr_estimated_cost_usd : option f64;
  sr_pricing_rules : list ServicePricingRule;
  sr_openapi_source_path : option string;
  sr_openapi_schema_hash : option string;
  sr_openapi_synced_at : option Z;
  sr_openapi_endpoints : list ServiceOpenApiEndpoint;
  sr_endpoint_pricing_rules : list ServiceEndpointPricingRule;
  sr_fallback_services : list string;
  sr_source : ServiceSource;
  sr_sync_status : ServiceSyncStatus;
  sr_last_synced_at : option Z;
  sr_disabled_at : option Z;
  sr_created_at : Z;
  sr_updated_at : Z;
  sr_missing_runtime_fields : list string
}.
Definition to_response (s : ServiceRegistration) : ServiceResponse :=
  {| historical_usage_repricing := None; sr_foundry := foundry s; sr_access := access s; sr_name := name s; sr_project_id := project_id s;
     sr_studio_service_id := studio_service_id s; sr_route_pattern := service_route_pattern s;
     sr_upstream_base_url := upstream_base_url s; sr_health_check_path := health_check_path s;
     sr_health_check_method := health_check_method s; sr_enabled := enabled s;
     sr_allowed_methods := allowed_methods s;
     credential_configured := is_some_and (λ v, negb (is_empty v)) (credential_secret s);
     sr_timeout_ms := timeout_ms s; sr_max_body_bytes := max_body_bytes s; sr_cost_mode := cost_mode s;
     sr_estimated_cost_usd := estimated_cost_usd s; sr_pricing_rules := pricing_rules s;
     sr_openapi_source_path := openapi_source_path s; sr_openapi_schema_hash := openapi_schema_hash s;
     sr_openapi_synced_at := openapi_synced_at s; sr_openapi_endpoints := openapi_endpoints s;
     sr_endpoint_pricing_rules := endpoint_pricing_rules s; sr_fallback_services := fallback_services s;
     sr_source := source s; sr_sync_status := sync_status s; sr_last_synced_at := last_synced_at s;
     sr_disabled_at := disabled_at s; sr_created_at := created_at s; sr_updated_at := updated_at s;
     sr_missing_runtime_fields := missing_runtime_fields s |}.

Definition ensure_routable (s : ServiceRegistration) : GatewayResult unit :=
  if negb (enabled s) then Err DisabledService
  else if negb (is_nil (missing_runtime_fields s)) then Err IncompleteService
  else
    check? validate_optional_upstream (upstream_base_url s) in
    check? validate_foundry s in
    Ok tt.

Definition validate_openapi_configuration (s : ServiceRegistration) : GatewayResult unit :=
  check? validate_optional_openapi_source_path (openapi_source_path s) in
  check? validate_openapi_endpoints (openapi_endpoints s) in
  validate_endpoint_pricing_rules (endpoint_pricing_rules s).

Lemma allowed_methods_ok methods :
  validate_allowed_methods methods = Ok tt →
  methods ≠ [] ∧ Forall (λ m, m ∈ ["GET"; "POST"; "PUT"; "PATCH"; "DELETE"]) methods.
Proof.
  unfold validate_allowed_methods. rewrite guard_ok, try_for_each_ok. intros [Hn H].
  split; [by intros ->|]. eapply Forall_impl; [exact H|]. intros m Hm. cbv beta in Hm.
  rewrite !guard_ok in Hm. destruct Hm as (_ & Hm%negb_false_iff & _). by apply existsb_eqb_iff.
Qed.
Lemma validate_cost_ok mode cost :
  validate_cost mode cost = Ok tt →
  (mode = CostFixed → is_some cost = true) ∧ ∀ c, cost = Some c → cost_storable c = true.
Proof.
  unfold validate_cost. rewrite !guard_ok. intros (Hs & Hf & _). split.
  - intros ->. rewrite bool_decide_eq_true_2 in Hf by done. by destruct cost.
  - intros c ->. cbn in Hs. by apply negb_false_iff.
Qed.
Lemma accessa_service_ok ea pattern b :
  endpoint_validate to_lowercase has_control header_name_ok ea pattern = Ok tt → accessa ea = Some b →
  (entra ea ≠ None ∨ authentication_profiles ea ≠ None) ∧ pattern = route_pattern b.
Proof.
  unfold endpoint_validate. rewrite !check_ok, guard_ok, check_ok. intros (_ & _ & _ & _ & _ & H) E.
  rewrite E in H. apply guard_ok in H as [H _]. unfold accessa_invalid in H. rewrite !orb_false_iff in H.
  destruct H as [H Hp]. split; [|by apply negb_false_iff, String.eqb_eq in Hp].
  destruct H as [[[[[[H _] _] _] _] _] _].
  destruct (entra ea); [by left|]. destruct (authentication_profiles ea); [by right|done].
Qed.
Lemma foundry_service_ok b route methods upstream credential fallbacks ea :
  validate_foundry_service (Some b) route methods upstream credential fallbacks ea = Ok tt →
  methods = ["POST"] ∧ upstream = None ∧ credential = None ∧ fallbacks = [] ∧ accessa ea = None ∧
  websocket ea = None ∧ ends_with route "/*" = true ∧ binding_validate b = Ok tt.
Proof.
  unfold validate_foundry_service. rewrite check_ok, guard_ok, !orb_false_iff, !negb_false_iff.
  intros (Hb & ([[[[[[Hr Hm] Hu] Hc] Hf] Ha] Hw] & _)). apply bool_decide_eq_true in Hm.
  destruct upstream, credential, fallbacks, (accessa ea), (websocket ea); try done.
Qed.

(** What a validated creation request guarantees. *)
Record service_wf (r : ServiceCreateRequest) : Prop := {
  wf_name : service_name_ok (cr_name r) = true;
  wf_route : let route := route_or_default (cr_route_pattern r) (cr_name r) in
    starts_with route "/" = true ∧ contains_str route "//" = false;
  wf_methods : cr_allowed_methods r ≠ [] ∧
    Forall (λ m, m ∈ ["GET"; "POST"; "PUT"; "PATCH"; "DELETE"]) (cr_allowed_methods r);
  wf_limits : 1 ≤ cr_timeout_ms r ≤ 600000 ∧ 1 ≤ cr_max_body_bytes r ≤ 104857600;
  wf_cost : (cr_cost_mode r = CostFixed → is_some (cr_estimated_cost_usd r) = true) ∧
    ∀ c, cr_estimated_cost_usd r = Some c → cost_storable c = true;
  wf_rules : (length (cr_pricing_rules r) ≤ 50)%nat ∧ (length (cr_endpoint_pricing_rules r) ≤ 500)%nat ∧
    (length (cr_openapi_endpoints r) ≤ 500)%nat;
  wf_fallbacks : Forall (λ n, service_name_ok n = true) (cr_fallback_services r);
  wf_secret : ∀ v, cr_credential r = Some v → is_empty (trim v) = false;
  wf_accessa : ∀ b, accessa (cr_access r) = Some b →
    (entra (cr_access r) ≠ None ∨ authentication_profiles (cr_access r) ≠ None) ∧
    route_or_default (cr_route_pattern r) (cr_name r) = route_pattern b;
  wf_foundry : ∀ b, cr_foundry r = Some b →
    ends_with (route_or_default (cr_route_pattern r) (cr_name r)) "/*" = true ∧ cr_studio_service_id r = None ∧ cr_allowed_methods r = ["POST"] ∧ cr_upstream_base_url r = None ∧
    cr_credential r = None ∧ cr_fallback_services r = [] ∧ accessa (cr_access r) = None ∧
    websocket (cr_access r) = None ∧ binding_validate b = Ok tt
}.

(** A service creation request that passes validation is well formed: its
    name and route, methods, limits, prices and fallbacks are in range, an
    Accessa service names an identity requirement and its own route, and a
    Foundry service is a POST-only wildcard route with no other upstream,
    credential, fallback or socket. *)
Theorem created_service_wellformed r : create_validate r = Ok tt → service_wf r.
Proof.
  unfold create_validate. rewrite guard_ok, !check_ok.
  intros (Hst & Hname & Hf & Hroute & Hacc & Hup & Hhp & Hhm & Hmeth & Hlim & Hcost & Hrules & Hsrc & Hoa
          & Hep & Hfb & Hsec & _).
  split.
  - by apply validate_service_name_ok.
  - unfold validate_route_pattern in Hroute. result_cases. by bool_prop.
  - by apply allowed_methods_ok.
  - unfold validate_runtime_limits in Hlim. result_cases. bool_prop.
    by rewrite <- !in_range_iff.
  - by apply validate_cost_ok.
  - unfold validate_pricing_rules, validate_endpoint_pricing_rules, validate_openapi_endpoints in *.
    apply guard_ok in Hrules as [?%Nat.ltb_ge _], Hep as [?%Nat.ltb_ge _], Hoa as [?%Nat.ltb_ge _]. done.
  - unfold validate_fallback_services in Hfb. apply try_for_each_ok in Hfb.
    eapply Forall_impl; [done|]. intros n. apply validate_service_name_ok.
  - intros v E. rewrite E in Hsec. cbn in Hsec. by apply guard_ok in Hsec as [? _].
  - intros b E. by eapply accessa_service_ok.
  - intros b E. rewrite E in Hst, Hf. apply foundry_service_ok in Hf as (? & ? & ? & ? & ? & ? & ? & ?).
    by destruct (cr_studio_service_id r).
Qed.

(** A service that may receive requests is enabled and either bound to a
    Foundry provider or has an HTTP upstream and a credential. *)
Lemma routable_service s :
  ensure_routable s = Ok tt →
  enabled s = true ∧
  ((∃ b, foundry s = Some b ∧ allowed_methods s = ["POST"] ∧ upstream_base_url s = None) ∨
   (foundry s = None ∧
    (∃ u url, upstream_base_url s = Some u ∧ url_parse u = Some url ∧
              url_scheme url ∈ ["http"; "https"] ∧ is_some (url_host_str url) = true) ∧
    ∃ c, credential_secret s = Some c ∧ c ≠ "")).
Proof.
  unfold ensure_routable. rewrite !guard_ok, !check_ok. intros (He & Hm & Hu & Hf & _).
  apply negb_false_iff in He, Hm. split; [done|]. unfold validate_foundry in Hf. apply guard_ok in Hf as [_ Hf].
  apply check_ok in Hf as [Hf _]. unfold missing_runtime_fields in Hm.
  destruct (foundry s) as [b|].
  - left. apply foundry_service_ok in Hf as (? & ? & _). eauto.
  - right. split; [done|]. cbn in Hm.
    destruct (upstream_base_url s) as [[|x u]|], (credential_secret s) as [[|y c]|]; try done.
    split; [|by eauto]. unfold validate_optional_upstream in Hu. cbn [opt_filter is_empty negb] in Hu. destruct (url_parse (String x u)) as [url|] eqn:Eu; [|done].
    exists (String x u), url. split; [done|]. split; [done|].
    destruct (str_mem _ _ && _) eqn:E; [|done]. bool_prop. split; [|done]. by apply existsb_eqb_iff.
Qed.
End validation.

(** A registered Foundry agent behind the service's default route. *)
Definition example_service : ServiceCreateRequest :=
  {| cr_foundry := Some (RegisteredAgent "0b7f6a4e-6f1c-4a67-9a0e-5d3f7c2b1e90" "research" None);
     cr_access := {| authentication_profiles := None; skip_entra := false; entra := None; accessa := None;
                     websocket := None; user_token_forwarding := None |};
     cr_name := "research-agent"; cr_project_id := None; cr_studio_service_id := None;
     cr_route_pattern := None; cr_upstream_base_url := None; cr_health_check_path := None;
     cr_health_check_method := "GET"; cr_enabled := true; cr_allowed_methods := ["POST"];
     cr_credential := None; cr_timeout_ms := 30000; cr_max_body_bytes := 1048576;
     cr_cost_mode := CostFixed; cr_estimated_cost_usd := Some (f64_of_Z 1); cr_pricing_rules := [];
     cr_openapi_source_path := None; cr_openapi_endpoints := []; cr_endpoint_pricing_rules := [];
     cr_fallback_services := [] |}.

Lemma created_service_wellformed_witness :
  create_validate (λ _, None) (λ _, true) (λ _, "1") (λ _, false) (λ s, s) (λ _, true) example_service = Ok tt ∧
  service_wf (λ _, "1") example_service.
Proof.
  split; [vm_compute; reflexivity|].
  apply (created_service_wellformed (λ _, None) (λ _, true) (λ _, "1") (λ _, false) (λ s, s) (λ _, true)).
  vm_compute. reflexivity.
Defined.

(** ** Names *)

Lemma all_bytes_trim_start p c s : all_bytes p s = true → all_bytes p (trim_start_char c s) = true.
Proof.
  induction s as [|d s IH]; [done|]. cbn [all_bytes trim_start_char]. intros H.
  destruct (Ascii.eqb c d); [|done]. bool_prop. auto.
Qed.
Lemma all_bytes_trim_end p c s : all_bytes p s = true → all_bytes p (trim_end_matches c s) = true.
Proof.
  destruct (trim_end_matches_prefix c s) as [t Ht]. intros H. rewrite Ht, all_bytes_append in H. by bool_prop.
Qed.
Lemma trim_start_first c s d : first_byte (trim_start_char c s) = Some d → d ≠ c.
Proof.
  induction s as [|e s IH]; cbn [trim_start_char]; [done|].
  destruct (Ascii.eqb_spec c e) as [->|]; [done|]. cbn. congruence.
Qed.
Lemma trim_end_first c s d : first_byte (trim_end_matches c s) = Some d → first_byte s = Some d.
Proof. destruct s as [|e s]; [done|]. cbn [trim_end_matches]. by destruct (all_bytes _ _). Qed.
Lemma trim_end_last c s d : last_byte (trim_end_matches c s) = Some d → d ≠ c.
Proof.
  induction s as [|e s IH]; [done|]. cbn [trim_end_matches].
  destruct (all_bytes (Ascii.eqb c) (String e s)) eqn:E; [done|]. cbn [last_byte].
  destruct (trim_end_matches c s) as [|f t] eqn:Et; [|exact IH].
  intros [= <-] ->. cbn [all_bytes] in E. rewrite Ascii.eqb_refl in E. cbn [andb] in E.
  destruct s as [|g s]; [done|]. cbn [trim_end_matches] in Et. by rewrite E in Et.
Qed.
Lemma last_byte_Some s : is_empty s = false → ∃ d, last_byte s = Some d.
Proof.
  induction s as [|c s IH]; [done|]. intros _. destruct s as [|d s]; [by eexists|]. by apply IH.
Qed.
Lemma all_bytes_last p s d : all_bytes p s = true → last_byte s = Some d → p d = true.
Proof.
  induction s as [|c s IH]; [done|]. cbn [all_bytes]. intros H E. bool_prop.
  destruct s as [|e s]; [cbn in E; congruence|]. by apply IH.
Qed.

Definition name_or_dash (c : ascii) : bool := name_byte c || Ascii.eqb c "-".
Lemma dashed_bytes b s : all_bytes name_or_dash (dashed b s) = true.
Proof.
  revert b. induction s as [|c s IH]; intros b; [done|]. cbn [dashed].
  destruct (name_byte c) eqn:E; [|destruct b; [apply IH|]]; cbn [all_bytes]; rewrite IH.
  - unfold name_or_dash. by rewrite E.
  - done.
Qed.
Lemma name_not_dash c : name_or_dash c = true → c ≠ "-"%char → name_byte c = true.
Proof.
  unfold name_or_dash. intros H Hc. apply orb_true_iff in H as [|H%Ascii.eqb_eq]; done.
Qed.

Lemma take_all n s : (String.length s ≤ n)%nat → str_take n s = s.
Proof.
  revert s. induction n as [|n IH]; intros [|c s] H; cbn in *; try done; try lia. f_equal. apply IH. lia.
Qed.

(** A catalogue name normalizes to a valid service name, as long as
    something of it is left and the result did not have to be cut. *)
Theorem normalized_name_valid chars_to_lowercase value :
  let name := trim_matches "-" (dashed false (chars_to_lowercase value)) in
  is_empty name = false → len name ≤ 64 →
  validate_service_name (normalize_gateway_service_name chars_to_lowercase value) = Ok tt.
Proof.
  intros name Hne Hlen. unfold normalize_gateway_service_name. fold name.
  rewrite take_all by (unfold len in Hlen; lia).
  assert (Hall : all_bytes name_or_dash name = true)
    by (apply all_bytes_trim_end, all_bytes_trim_start, dashed_bytes).
  assert (Hfirst : is_some_and name_byte (first_byte name) = true).
  { destruct name as [|c n] eqn:En; [done|]. cbn. apply name_not_dash.
    - cbn [all_bytes] in Hall. by bool_prop.
    - apply (trim_start_first "-" (dashed false (chars_to_lowercase value))).
      apply (trim_end_first "-"). unfold trim_matches in name. fold name. by rewrite En. }
  assert (Hlast : is_some_and name_byte (last_byte name) = true).
  { destruct (last_byte_Some name Hne) as [d Hd]. rewrite Hd. cbn. apply name_not_dash.
    - by eapply all_bytes_last.
    - by eapply trim_end_last. }
  unfold validate_service_name, service_name_ok. rewrite Hne, Hfirst, Hlast.
  change (λ c, name_byte c || Ascii.eqb c "-") with name_or_dash. rewrite Hall.
  by rewrite (proj2 (Z.leb_le _ _) Hlen).
Qed.

Definition ascii_lowercase : string → string := to_ascii_lowercase.
Lemma normalized_name_valid_witness :
  validate_service_name (normalize_gateway_service_name ascii_lowercase " Ocr: Fast ") = Ok tt.
Proof. apply (normalized_name_valid ascii_lowercase " Ocr: Fast "); vm_compute; [reflexivity|discriminate]. Defined.

(** A name cut right after a separator is refused: the dashes are trimmed
    before the cut, not after it. *)
Theorem cut_name_refused :
  let value := "aaaaaaaaaaaaaaaaaaaaaaaaaaaaaaaaaaaaaaaaaaaaaaaaaaaaaaaaaaaaaaa b" in
  validate_service_name (normalize_gateway_service_name ascii_lowercase value) = Err InvalidServicePayload.
Proof. vm_compute. reflexivity. Qed.
