(* ===== verification/ServicePricing.v ===== *)
(** * The price of a service request

    Models the pricing half of [crates/gateway-core/src/services.rs]: path
    templates and the rules attached to them, the rules selected by the body,
    the bound used before the body is known, and the repricing of recorded
    usage.  JSON parsing and pointers, the JSON text of a selector and SHA-256
    are parameters. *)

From S2P Require Import Prelude Errors Json GuardrailPolicy EndpointAccess Foundry ServiceTypes.

Record ResolvedServiceCost := {
  rc_fingerprint : option string;
  rc_cost_mode : ServiceCostMode;
  rc_estimated_cost_usd : option f64;
  rc_rule_name : option string
}.

(** ** Templates *)

(** The loop of [endpoint_template_matches] over both lists of segments. *)
Fixpoint segments_match (template path : list string) : bool :=
  match template, path with
  | [], [] => true
  | t :: template, a :: path =>
      if negb (is_parameter t) && negb (String.eqb t a) then false else segments_match template path
  | _, _ => false
  end.
Definition segments (path : string) : list string := split_on "/" (trim_matches "/" path).
Definition endpoint_template_matches (path_template path : string) : bool :=
  segments_match (segments path_template) (segments path).

Definition static_segments (path : string) : Z :=
  Z.of_nat (length (List.filter (λ segment, negb (is_parameter segment)) (segments path))).
Definition endpoint_template_specificity (path : string) : Z * Z := (static_segments path, len path).

(** The order of pairs that [max_by_key] uses. *)
Definition specificity_leb (a b : Z * Z) : bool := (a.1 <? b.1) || ((a.1 =? b.1) && (a.2 <=? b.2)).
(** [Iterator::max_by_key]: the last of the greatest elements. *)
Definition max_by_key {A} (key : A → Z * Z) (l : list A) : option A :=
  foldl (λ best a,
    match best with
    | None => Some a
    | Some b => if specificity_leb (key b) (key a) then Some a else Some b
    end) None l.

Definition matching_openapi_endpoint (method path : string) (endpoints : list ServiceOpenApiEndpoint) :
    option ServiceOpenApiEndpoint :=
  max_by_key (λ e, endpoint_template_specificity (endpoint_path_template e))
    (List.filter (λ e, endpoint_template_matches (endpoint_path_template e) path)
       (List.filter (λ e, eq_ignore_ascii_case (endpoint_method e) method) endpoints)).

Definition endpoint_pricing_rule_name (rule : ServiceEndpointPricingRule) : string :=
  default (to_ascii_uppercase (ep_method rule) +:+ " " +:+ ep_path_template rule) (ep_operation_id rule).

(** The rule that applies, before it is turned into a cost. *)
Definition matching_endpoint_rule (method path : string) (rules : list ServiceEndpointPricingRule) :
    option ServiceEndpointPricingRule :=
  max_by_key (λ r, endpoint_template_specificity (ep_path_template r))
    (List.filter (λ r, endpoint_template_matches (ep_path_template r) path)
       (List.filter (λ r, eq_ignore_ascii_case (ep_method r) method) rules)).

(** *** Suffixes *)

Definition service_wildcard_suffix (path service_name : string) : option string :=
  strip_prefix ("/services/" +:+ service_name) path ≫= λ suffix,
    if is_empty suffix then Some "/"
    else if starts_with suffix "/" then Some suffix
    else None.
Definition route_pattern_wildcard_suffix (path route_pattern : string) : option string :=
  strip_suffix "/*" route_pattern ≫= λ prefix,
  strip_prefix prefix path ≫= λ suffix,
    if is_empty suffix then Some "/"
    else if starts_with suffix "?" then Some ("/" +:+ suffix)
    else if starts_with suffix "/" then Some suffix
    else None.

(** *** Merging the rules with a new list of endpoints *)

Definition same_endpoint (m1 t1 m2 t2 : string) : bool :=
  eq_ignore_ascii_case m1 m2
  && String.eqb (normalized_endpoint_template t1) (normalized_endpoint_template t2).

Definition merged_rule (existing : list ServiceEndpointPricingRule) (default_cost_mode : ServiceCostMode)
    (default_estimated_cost_usd : option f64) (endpoint : ServiceOpenApiEndpoint) :
    ServiceEndpointPricingRule :=
  match List.find (λ rule, same_endpoint (ep_method rule) (ep_path_template rule)
                             (endpoint_method endpoint) (endpoint_path_template endpoint)) existing with
  | Some rule =>
      {| ep_method := ep_method rule; ep_path_template := endpoint_path_template endpoint;
         ep_operation_id := endpoint_operation_id endpoint; ep_cost_mode := ep_cost_mode rule;
         ep_estimated_cost_usd := ep_estimated_cost_usd rule |}
  | None =>
      {| ep_method := endpoint_method endpoint; ep_path_template := endpoint_path_template endpoint;
         ep_operation_id := endpoint_operation_id endpoint;
         ep_cost_mode := if relayna_default endpoint then CostNone else default_cost_mode;
         ep_estimated_cost_usd := if relayna_default endpoint then None else default_estimated_cost_usd |}
  end.
Definition merge_endpoint_pricing_rules (endpoints : list ServiceOpenApiEndpoint)
    (existing : list ServiceEndpointPricingRule) (default_cost_mode : ServiceCostMode)
    (default_estimated_cost_usd : option f64) : list ServiceEndpointPricingRule :=
  map (merged_rule existing default_cost_mode default_estimated_cost_usd) endpoints
  ++ List.filter (λ rule,
       negb (existsb (λ endpoint, same_endpoint (endpoint_method endpoint) (endpoint_path_template endpoint)
                                    (ep_method rule) (ep_path_template rule)) endpoints)) existing.

(** ** Costs *)

Definition default_service_cost (cost_mode : ServiceCostMode) (estimated_cost_usd : option f64) :
    ResolvedServiceCost :=
  {| rc_fingerprint := None; rc_cost_mode := cost_mode; rc_estimated_cost_usd := estimated_cost_usd;
     rc_rule_name := None |}.

Definition service_preflight_estimated_cost (default_cost_mode : ServiceCostMode)
    (default_estimated_cost_usd : option f64) (rules : list ServicePricingRule) : option f64 :=
  foldl (λ highest cost,
    Some (match highest with None => cost | Some current => f64_max current cost end))
    (if bool_decide (default_cost_mode = CostFixed) then default_estimated_cost_usd else None)
    (omap rule_estimated_cost_usd
       (List.filter (λ rule, bool_decide (rule_cost_mode rule = CostFixed)) rules)).

Section costs.
(** [serde_json::from_slice], [Value::pointer], [Value::to_string] and
    [format!("{:x}", Sha256::digest(..))]. *)
Variable from_slice : string → option Value.
Variable pointer : Value → string → option Value.
Variable value_to_string : Value → string.
Variable sha256_hex : string → string.
Variable method_parses : string → bool.

Definition pricing_fingerprint (kind : string) (selector : Value) : string :=
  "v1:" +:+ kind +:+ ":" +:+ sha256_hex (value_to_string selector).
Definition opt_json (o : option string) : Value := match o with Some s => JString s | None => JNull end.
Definition body_pricing_fingerprint (rule : ServicePricingRule) : string :=
  pricing_fingerprint "body"
    (JArray [opt_json (rule_name rule); JString (json_pointer rule); JString (equals rule)]).
Definition endpoint_pricing_fingerprint (rule : ServiceEndpointPricingRule) : string :=
  pricing_fingerprint "endpoint"
    (JArray [JString (endpoint_pricing_rule_name rule); JString (to_ascii_uppercase (ep_method rule));
             JString (ep_path_template rule)]).

Definition endpoint_cost (rule : ServiceEndpointPricingRule) : ResolvedServiceCost :=
  {| rc_fingerprint := Some (endpoint_pricing_fingerprint rule); rc_cost_mode := ep_cost_mode rule;
     rc_estimated_cost_usd := ep_estimated_cost_usd rule;
     rc_rule_name := Some (endpoint_pricing_rule_name rule) |}.
Definition resolve_endpoint_pricing_rule (method path : string)
    (rules : list ServiceEndpointPricingRule) : option ResolvedServiceCost :=
  endpoint_cost <$> matching_endpoint_rule method path rules.

Definition rule_matches (value : Value) (rule : ServicePricingRule) : bool :=
  is_some_and (String.eqb (equals rule)) (pointer value (json_pointer rule) ≫= as_str).
Definition matching_service_pricing_rule (value : Value) (rules : list ServicePricingRule) :
    option ServicePricingRule := List.find (rule_matches value) rules.

Definition body_cost (rule : ServicePricingRule) : ResolvedServiceCost :=
  {| rc_fingerprint := Some (body_pricing_fingerprint rule); rc_cost_mode := rule_cost_mode rule;
     rc_estimated_cost_usd := rule_estimated_cost_usd rule; rc_rule_name := rule_name rule |}.
Definition resolve_service_cost_from_value (value : Value) (default_cost_mode : ServiceCostMode)
    (default_estimated_cost_usd : option f64) (rules : list ServicePricingRule) : ResolvedServiceCost :=
  match matching_service_pricing_rule value rules with
  | Some rule => body_cost rule
  | None => default_service_cost default_cost_mode default_estimated_cost_usd
  end.
Definition resolve_service_cost (body : string) (default_cost_mode : ServiceCostMode)
    (default_estimated_cost_usd : option f64) (rules : list ServicePricingRule) : ResolvedServiceCost :=
  match from_slice body with
  | Some value =>
      resolve_service_cost_from_value value default_cost_mode default_estimated_cost_usd rules
  | None => default_service_cost default_cost_mode default_estimated_cost_usd
  end.

(** ** Repricing recorded usage *)

Definition named (n : string) (rule : ServicePricingRule) : bool :=
  bool_decide (rule_name rule = Some n).

Definition repriced (resolved : ResolvedServiceCost) : option ResolvedServiceCost :=
  match rc_cost_mode resolved with
  | CostPassthrough => None
  | CostFixed =>
      if is_some_and (λ cost, f64_is_finite cost && f64_leb (f64_of_Z 0) cost)
           (rc_estimated_cost_usd resolved)
      then Some resolved else None
  | CostNone =>
      Some {| rc_fingerprint := rc_fingerprint resolved; rc_cost_mode := CostNone;
              rc_estimated_cost_usd := None; rc_rule_name := rc_rule_name resolved |}
  end.

Definition reprice_recorded_service_cost (before after : ServiceRegistration)
    (cost_source pricing_rule_name method endpoint_path pricing_rule_fingerprint : option string) :
    option ResolvedServiceCost :=
  if is_some (accessa (access before))
     || negb (is_some_and (λ s, str_mem s ["service_default_fixed"; "service_pricing_rule_fixed"; "none"])
                cost_source)
  then None
  else
    let endpoint_context :=
      match method, endpoint_path with
      | Some m, Some p => if method_parses m then Some (m, p) else None
      | _, _ => None
      end in
    let resolve_with s :=
      endpoint_context ≫= λ '(m, p), resolve_endpoint_pricing_rule m p (endpoint_pricing_rules s) in
    if is_none endpoint_context
       && (negb (is_nil (endpoint_pricing_rules before)) || negb (is_nil (endpoint_pricing_rules after)))
    then None
    else
      let old_endpoint := resolve_with before in
      let base := default (default_service_cost (cost_mode after) (estimated_cost_usd after))
                    (resolve_with after) in
      match pricing_rule_name with
      | Some n =>
          let body_rules := List.filter (named n) (pricing_rules before) in
          let from_endpoint := is_some_and (λ r, bool_decide (rc_rule_name r = Some n)) old_endpoint in
          match body_rules with
          | _ :: _ :: _ => None
          | [old_body] =>
              if from_endpoint then None
              else if negb (bool_decide (pricing_rule_fingerprint = Some (body_pricing_fingerprint old_body)))
              then None
              else
                match List.filter (named n) (pricing_rules after) with
                | [new_body] =>
                    if negb (String.eqb (json_pointer old_body) (json_pointer new_body))
                       || negb (String.eqb (equals old_body) (equals new_body))
                    then None
                    else if bool_decide (rc_cost_mode base = CostNone) && is_some (resolve_with after)
                    then repriced base
                    else repriced (body_cost new_body)
                | _ => None
                end
          | [] =>
              if from_endpoint && is_some pricing_rule_fingerprint
                 && bool_decide (pricing_rule_fingerprint = old_endpoint ≫= rc_fingerprint)
              then repriced base
              else None
          end
      | None =>
          if is_some pricing_rule_fingerprint
             || existsb (λ rule, is_none (rule_name rule)) (pricing_rules before)
             || is_some old_endpoint
          then None
          else repriced base
      end.
End costs.

(** ** Letter case *)

Lemma upper_lower s : to_ascii_uppercase (to_ascii_lowercase s) = to_ascii_uppercase s.
Proof.
  induction s as [|c s IH]; [done|]. cbn [to_ascii_lowercase]. unfold to_ascii_uppercase in *. cbn. rewrite IH.
  f_equal. clear. by destruct c as [[][][][][][][][]].
Qed.
Lemma lower_upper s : to_ascii_lowercase (to_ascii_uppercase s) = to_ascii_lowercase s.
Proof.
  induction s as [|c s IH]; [done|]. unfold to_ascii_uppercase in *. cbn. f_equal; [|exact IH].
  clear. by destruct c as [[][][][][][][][]].
Qed.
Lemma ignore_case_iff a b : eq_ignore_ascii_case a b = true ↔ to_ascii_uppercase a = to_ascii_uppercase b.
Proof.
  unfold eq_ignore_ascii_case. rewrite String.eqb_eq. split; intros E.
  - by rewrite <- (upper_lower a), E, upper_lower.
  - by rewrite <- (lower_upper a), E, lower_upper.
Qed.
Lemma ignore_case_upper_r a b : eq_ignore_ascii_case a (to_ascii_uppercase b) = eq_ignore_ascii_case a b.
Proof. unfold eq_ignore_ascii_case. by rewrite lower_upper. Qed.

(** ** Matching *)

(** A template matches the paths it becomes when its parameters are filled in. *)
Lemma segments_match_iff ts ps :
  segments_match ts ps = true ↔ Forall2 (λ t p, is_parameter t = true ∨ t = p) ts ps.
Proof.
  revert ps. induction ts as [|t ts IH]; intros [|p ps]; cbn [segments_match].
  - split; [constructor|done].
  - split; [done|by inversion 1].
  - split; [done|by inversion 1].
  - destruct (is_parameter t) eqn:Et; cbn [negb andb].
    + rewrite IH. split; [by constructor; [left|]|by inversion 1].
    + destruct (String.eqb_spec t p) as [->|Hne]; cbn [negb].
      * rewrite IH. split; [by constructor; [right|]|by inversion 1].
      * split; [done|]. inversion 1 as [|? ? ? ? [?|?] ?]; congruence.
Qed.

Lemma specificity_refl a : specificity_leb a a = true.
Proof. unfold specificity_leb. rewrite Z.ltb_irrefl, Z.eqb_refl, Z.leb_refl. done. Qed.
Lemma specificity_trans a b c :
  specificity_leb a b = true → specificity_leb b c = true → specificity_leb a c = true.
Proof.
  unfold specificity_leb. rewrite !orb_true_iff, !andb_true_iff, !Z.ltb_lt, !Z.eqb_eq, !Z.leb_le. lia.
Qed.
Lemma specificity_total a b : specificity_leb a b = false → specificity_leb b a = true.
Proof.
  unfold specificity_leb. rewrite orb_false_iff, andb_false_iff, orb_true_iff, andb_true_iff,
    !Z.ltb_ge, !Z.ltb_lt, !Z.eqb_neq, !Z.eqb_eq, !Z.leb_le, !Z.leb_gt. lia.
Qed.

Lemma max_by_key_from {A} (key : A → Z * Z) l best :
  let step b a := match b with
                  | None => Some a
                  | Some b => if specificity_leb (key b) (key a) then Some a else Some b
                  end in
  ∃ a, foldl step (Some best) l = Some a ∧ (a = best ∨ a ∈ l) ∧
       specificity_leb (key best) (key a) = true ∧
       ∀ b, b ∈ l → specificity_leb (key b) (key a) = true.
Proof.
  cbv zeta. revert best. induction l as [|x l IH]; intros best; cbn [foldl].
  - exists best. split; [done|]. split; [by left|]. split; [apply specificity_refl|].
    by intros b ?%not_elem_of_nil.
  - destruct (specificity_leb (key best) (key x)) eqn:E.
    + destruct (IH x) as (a & Ha & Hin & Hx & Hl). exists a. split; [done|].
      split; [set_solver|]. split; [by eapply specificity_trans|].
      intros b [->|Hb]%elem_of_cons; auto.
    + destruct (IH best) as (a & Ha & Hin & Hx & Hl). exists a. split; [done|].
      split; [set_solver|]. split; [done|].
      intros b [->|Hb]%elem_of_cons; [|auto]. eapply specificity_trans; [by apply specificity_total|done].
Qed.
Lemma max_by_key_Some {A} (key : A → Z * Z) l a :
  max_by_key key l = Some a → a ∈ l ∧ ∀ b, b ∈ l → specificity_leb (key b) (key a) = true.
Proof.
  unfold max_by_key. destruct l as [|x l]; [done|]. cbn [foldl].
  destruct (max_by_key_from key l x) as (a' & Ha & Hin & Hx & Hl). rewrite Ha. intros [= <-].
  split; [set_solver|]. intros b [->|Hb]%elem_of_cons; auto.
Qed.
Lemma max_by_key_None {A} (key : A → Z * Z) l : max_by_key key l = None → l = [].
Proof.
  unfold max_by_key. destruct l as [|x l]; [done|]. cbn [foldl].
  destruct (max_by_key_from key l x) as (a' & Ha & _). by rewrite Ha.
Qed.

Definition rule_applies (method path : string) (r : ServiceEndpointPricingRule) : bool :=
  eq_ignore_ascii_case (ep_method r) method && endpoint_template_matches (ep_path_template r) path.
Lemma elem_of_applying method path rules r :
  r ∈ List.filter (λ r, endpoint_template_matches (ep_path_template r) path)
        (List.filter (λ r, eq_ignore_ascii_case (ep_method r) method) rules)
  ↔ r ∈ rules ∧ rule_applies method path r = true.
Proof.
  unfold rule_applies. rewrite list_elem_of_In, !filter_In, <- list_elem_of_In, andb_true_iff. naive_solver.
Qed.

Lemma static_le_segments t path :
  endpoint_template_matches t path = true →
  static_segments t ≤ Z.of_nat (length (segments path)) ∧
  (static_segments t = Z.of_nat (length (segments path)) → segments t = segments path).
Proof.
  unfold endpoint_template_matches, static_segments. rewrite segments_match_iff.
  induction 1 as [|x y ts ps Hxy H [IH1 IH2]]; [done|]. cbn [List.filter length].
  destruct (is_parameter x) eqn:Ex; cbn [negb length]; split; try lia.
  intros E. destruct Hxy as [Hxy| ->]; [congruence|]. f_equal. apply IH2. lia.
Qed.

(** The rule that prices a request is one whose method and template match
    it, and no matching rule has more fixed segments (or as many and a longer
    template); a rule without parameters that names the path exactly is only
    ever beaten by another such rule.  If none is selected, none matches. *)
Theorem most_specific_rule method path rules :
  match matching_endpoint_rule method path rules with
  | None => ∀ r, r ∈ rules → rule_applies method path r = false
  | Some r =>
      r ∈ rules ∧ rule_applies method path r = true ∧
      (∀ r', r' ∈ rules → rule_applies method path r' = true →
         specificity_leb (endpoint_template_specificity (ep_path_template r'))
           (endpoint_template_specificity (ep_path_template r)) = true) ∧
      ((∃ r', r' ∈ rules ∧ rule_applies method path r' = true ∧
              static_segments (ep_path_template r') = Z.of_nat (length (segments path))) →
       segments (ep_path_template r) = segments path)
  end.
Proof.
  destruct (matching_endpoint_rule method path rules) as [r|] eqn:E; unfold matching_endpoint_rule in E.
  - apply max_by_key_Some in E as [Hin Hmax]. apply elem_of_applying in Hin as [Hin Ha].
    assert (Hmax' : ∀ r', r' ∈ rules → rule_applies method path r' = true →
      specificity_leb (endpoint_template_specificity (ep_path_template r'))
        (endpoint_template_specificity (ep_path_template r)) = true).
    { intros r' Hr' Ha'. apply Hmax. by apply elem_of_applying. }
    do 3 (split; [done|]). intros (r' & Hr' & Ha' & Hs).
    specialize (Hmax' r' Hr' Ha'). unfold rule_applies in Ha. bool_prop.
    destruct (static_le_segments (ep_path_template r) path) as [H1 H2]; [done|]. apply H2.
    unfold specificity_leb, endpoint_template_specificity in Hmax'. cbn [fst snd] in Hmax'.
    rewrite orb_true_iff, andb_true_iff, Z.ltb_lt, Z.eqb_eq in Hmax'. lia.
  - apply max_by_key_None in E. intros r Hr. destruct (rule_applies method path r) eqn:Ha; [|done].
    assert (r ∈ []) as Hnil by (rewrite <- E; by apply elem_of_applying). by apply not_elem_of_nil in Hnil.
Qed.

(** ** Merging *)

Abbreviation rule_identity r := (identity (ep_method r) (ep_path_template r)).
Abbreviation endpoint_identity e := (identity (endpoint_method e) (endpoint_path_template e)).

Lemma same_endpoint_iff m1 t1 m2 t2 : same_endpoint m1 t1 m2 t2 = true ↔ identity m1 t1 = identity m2 t2.
Proof.
  unfold same_endpoint, identity. rewrite andb_true_iff, ignore_case_iff, String.eqb_eq.
  split; [by intros [-> ->]|by intros [= -> ->]].
Qed.

Lemma merged_rule_identity existing mode cost e :
  rule_identity (merged_rule existing mode cost e) = endpoint_identity e.
Proof.
  unfold merged_rule. destruct (List.find _ existing) as [r|] eqn:E; [|done].
  apply find_some in E as [_ E]. apply same_endpoint_iff in E. unfold identity in *. cbn.
  by injection E as -> _.
Qed.

Lemma merged_rule_price existing mode cost e r :
  NoDup ((λ r, rule_identity r) <$> existing) → r ∈ existing → rule_identity r = endpoint_identity e →
  ep_cost_mode (merged_rule existing mode cost e) = ep_cost_mode r ∧
  ep_estimated_cost_usd (merged_rule existing mode cost e) = ep_estimated_cost_usd r.
Proof.
  intros Hnd Hr E. unfold merged_rule. destruct (List.find _ existing) as [r'|] eqn:Ef.
  - apply find_some in Ef as [Hr'%list_elem_of_In Ef%same_endpoint_iff]. cbn.
    assert (r' = r) as ->; [|done].
    apply list_elem_of_lookup in Hr as [i Hi], Hr' as [j Hj].
    assert (i = j) as <-; [|congruence].
    eapply NoDup_lookup; [exact Hnd| |]; rewrite list_lookup_fmap; [by rewrite Hi|].
    rewrite Hj. cbn. by rewrite Ef, E.
  - apply list_elem_of_In in Hr. eapply find_none in Ef; [|exact Hr]. simpl in Ef.
    by rewrite (proj2 (same_endpoint_iff _ _ _ _) E) in Ef.
Qed.

(** The rules of endpoints that are no longer listed. *)
Lemma elem_of_unlisted endpoints existing r :
  r ∈ List.filter (λ rule,
       negb (existsb (λ endpoint, same_endpoint (endpoint_method endpoint) (endpoint_path_template endpoint)
                                    (ep_method rule) (ep_path_template rule)) endpoints)) existing
  ↔ r ∈ existing ∧ rule_identity r ∉ (λ e, endpoint_identity e) <$> endpoints.
Proof.
  rewrite list_elem_of_In, filter_In, <- list_elem_of_In, negb_true_iff, existsb_false_iff.
  rewrite list_elem_of_fmap. split.
  - intros [Hr H]. split; [done|]. intros (e & E & He). specialize (H e He).
    by rewrite (proj2 (same_endpoint_iff _ _ _ _) (eq_sym E)) in H.
  - intros [Hr H]. split; [done|]. intros e He. apply not_true_iff_false. rewrite same_endpoint_iff.
    intros E. apply H. by exists e.
Qed.

Lemma NoDup_fmap_filter {A B} (f : A → B) (p : A → bool) l :
  NoDup (f <$> l) → NoDup (f <$> List.filter p l).
Proof.
  induction l as [|a l IH]; cbn; [done|]. inversion_clear 1 as [|? ? Ha Hl]. destruct (p a); cbn; [|by apply IH].
  constructor; [|by apply IH]. contradict Ha. apply list_elem_of_fmap in Ha as (b & -> & Hb).
  apply list_elem_of_In, filter_In in Hb as [Hb _]. apply list_elem_of_fmap. exists b.
  split; [done|]. by apply list_elem_of_In.
Qed.

Lemma merge_identities endpoints existing mode cost :
  NoDup ((λ e, endpoint_identity e) <$> endpoints) → NoDup ((λ r, rule_identity r) <$> existing) →
  let merged := merge_endpoint_pricing_rules endpoints existing mode cost in
  NoDup ((λ r, rule_identity r) <$> merged) ∧
  (∀ e, e ∈ endpoints → ∃ r, r ∈ merged ∧ rule_identity r = endpoint_identity e ∧
     ep_path_template r = endpoint_path_template e) ∧
  (∀ r, r ∈ existing → ∃ r', r' ∈ merged ∧ rule_identity r' = rule_identity r ∧
     ep_cost_mode r' = ep_cost_mode r ∧ ep_estimated_cost_usd r' = ep_estimated_cost_usd r).
Proof.
  intros He Hr merged. unfold merged, merge_endpoint_pricing_rules. split; [|split].
  - rewrite fmap_app. apply NoDup_app. split; [|split; [|by apply NoDup_fmap_filter]].
    + change (map ?f endpoints) with (f <$> endpoints). rewrite <- list_fmap_compose.
      erewrite list_fmap_ext; [exact He|]. intros _ e _. apply merged_rule_identity.
    + intros i (r & -> & Hi)%list_elem_of_fmap (r' & E & Hu)%list_elem_of_fmap.
      apply elem_of_unlisted in Hu as [_ Hu]. apply Hu. apply list_elem_of_fmap in Hi as (e & -> & Hi).
      rewrite <- E, merged_rule_identity. apply list_elem_of_fmap. eauto.
  - intros e Hin. exists (merged_rule existing mode cost e). split; [|split].
    + apply elem_of_app. left. apply list_elem_of_fmap. eauto.
    + apply merged_rule_identity.
    + unfold merged_rule. by destruct (List.find _ existing).
  - intros r Hin. destruct (decide (rule_identity r ∈ (λ e, endpoint_identity e) <$> endpoints)) as [Hl|Hl].
    + apply list_elem_of_fmap in Hl as (e & E & Hein). exists (merged_rule existing mode cost e).
      split; [|split].
      * apply elem_of_app. left. apply list_elem_of_fmap. eauto.
      * by rewrite merged_rule_identity.
      * by apply merged_rule_price.
    + exists r. split; [|done]. apply elem_of_app. right. by apply elem_of_unlisted.
Qed.

Lemma try_fold_identities {A} (f : list (string * string) → A → GatewayResult (list (string * string)))
    (i : A → string * string) l s :
  (∀ seen a seen', f seen a = Ok seen' → insert_identity (i a) seen = Ok seen') →
  try_fold f [] l = Ok s → NoDup (i <$> l).
Proof.
  intros Hf H. destruct (try_fold_fresh f id i l [] s) as [Hp Hd]; [|done|constructor|].
  - intros s0 a s1 E%Hf. unfold insert_identity in E. result_cases. bool_prop. done.
  - rewrite app_nil_r in Hp. by rewrite <- Hp.
Qed.

Section validated.
Variable method_parses : string → bool.
Variable f64_to_string : f64 → string.

Lemma validated_endpoints_distinct endpoints :
  validate_openapi_endpoints method_parses endpoints = Ok tt →
  NoDup ((λ e, endpoint_identity e) <$> endpoints).
Proof.
  unfold validate_openapi_endpoints. intros H. result_cases.
  eapply (try_fold_identities (validate_openapi_endpoint method_parses)); [|done].
  intros seen e seen' E. unfold validate_openapi_endpoint in E. by result_cases.
Qed.
Lemma validated_rules_distinct rules :
  validate_endpoint_pricing_rules method_parses f64_to_string rules = Ok tt →
  NoDup ((λ r, rule_identity r) <$> rules).
Proof.
  unfold validate_endpoint_pricing_rules. intros H. result_cases.
  eapply (try_fold_identities (validate_endpoint_pricing_rule method_parses f64_to_string)); [|done].
  intros seen r seen' E. unfold validate_endpoint_pricing_rule in E. by result_cases.
Qed.

(** Merging validated pricing rules with a validated list of endpoints loses no price
    and creates no ambiguity: every listed endpoint gets exactly one rule
    under its own template, every earlier rule keeps its mode and cost, and
    the identities of the merged rules are distinct. *)
Theorem merge_keeps_prices endpoints existing mode cost :
  validate_openapi_endpoints method_parses endpoints = Ok tt →
  validate_endpoint_pricing_rules method_parses f64_to_string existing = Ok tt →
  let merged := merge_endpoint_pricing_rules endpoints existing mode cost in
  NoDup ((λ r, rule_identity r) <$> merged) ∧
  (∀ e, e ∈ endpoints → ∃ r, r ∈ merged ∧ rule_identity r = endpoint_identity e ∧
     ep_path_template r = endpoint_path_template e) ∧
  (∀ r, r ∈ existing → ∃ r', r' ∈ merged ∧ rule_identity r' = rule_identity r ∧
     ep_cost_mode r' = ep_cost_mode r ∧ ep_estimated_cost_usd r' = ep_estimated_cost_usd r).
Proof.
  intros He Hr. apply merge_identities; [by apply validated_endpoints_distinct|by apply validated_rules_distinct].
Qed.
End validated.

(** ** The bound before the body is known *)

Lemma f64_leb_max_l a b : f64_is_nan a = false → f64_leb a (f64_max a b) = true.
Proof.
  intros Ha. unfold f64_max. rewrite Ha. destruct (f64_is_nan b) eqn:Hb; [by apply f64_leb_refl|].
  destruct (f64_leb a b) eqn:E; [done|by apply f64_leb_refl].
Qed.
Lemma f64_leb_max_r a b : f64_is_nan b = false → f64_leb b (f64_max a b) = true.
Proof.
  intros Hb. unfold f64_max. destruct (f64_is_nan a) eqn:Ha; [by apply f64_leb_refl|].
  rewrite Hb. destruct (f64_leb a b) eqn:E; [by apply f64_leb_refl|]. by apply f64_leb_total.
Qed.
Lemma f64_max_nan a b : f64_is_nan a = false → f64_is_nan (f64_max a b) = false.
Proof. intros Ha. unfold f64_max. rewrite Ha. repeat case_match; done. Qed.

Abbreviation higher := (λ (highest : option f64) (cost : f64),
  Some (match highest with None => cost | Some current => f64_max current cost end)).

Lemma fold_higher l o :
  Forall (λ c, f64_is_nan c = false) l → is_some_and f64_is_nan o = false →
  is_some_and f64_is_nan (foldl higher o l) = false ∧
  ∀ c, o = Some c ∨ c ∈ l → ∃ p, foldl higher o l = Some p ∧ f64_leb c p = true.
Proof.
  intros Hl. revert o. induction Hl as [|x l Hx Hl IH]; intros o Ho; cbn [foldl].
  - split; [done|]. intros c [-> |?%not_elem_of_nil]; [|done]. exists c. split; [done|]. by apply f64_leb_refl.
  - set (n := match o with None => x | Some current => f64_max current x end).
    assert (Hn : f64_is_nan n = false) by (unfold n; destruct o; [by apply f64_max_nan|done]).
    destruct (IH (Some n) Hn) as [H1 H2]. split; [done|].
    assert (Hstep : ∀ c, f64_leb c n = true → ∃ p, foldl higher (Some n) l = Some p ∧ f64_leb c p = true).
    { intros c Hc. destruct (H2 n) as (p & Hp & Hle); [by left|]. exists p. split; [done|].
      by eapply f64_leb_trans. }
    intros c [-> |[-> |Hc]%elem_of_cons]; [| |by apply H2; right].
    + apply Hstep. unfold n. by apply f64_leb_max_l.
    + apply Hstep. unfold n. destruct o; [by apply f64_leb_max_r|by apply f64_leb_refl].
Qed.

(** A price that passed validation is a number. *)
Lemma cost_storable_number f64_to_string c : cost_storable f64_to_string c = true → f64_is_nan c = false.
Proof. unfold cost_storable. intros H. bool_prop. by destruct c. Qed.
Lemma validate_cost_number f64_to_string mode c :
  validate_cost f64_to_string mode (Some c) = Ok tt → f64_is_nan c = false.
Proof.
  unfold validate_cost. cbn [is_some_and]. intros H. result_cases. bool_prop.
  by eapply cost_storable_number.
Qed.
Lemma validated_rules_numbers f64_to_string rules :
  validate_pricing_rules f64_to_string rules = Ok tt →
  Forall (λ r, is_some_and f64_is_nan (rule_estimated_cost_usd r) = false) rules.
Proof.
  unfold validate_pricing_rules. intros H. result_cases. apply try_for_each_ok in H.
  eapply Forall_impl; [exact H|]. intros r Hr. unfold validate_pricing_rule in Hr.
  result_cases; destruct (rule_estimated_cost_usd r) as [c|]; try done; by eapply validate_cost_number.
Qed.

(** Whatever fixed price applies in the end, the bound is at least as high. *)
Lemma preflight_bounds mode est rules c :
  is_some_and f64_is_nan est = false →
  Forall (λ r, is_some_and f64_is_nan (rule_estimated_cost_usd r) = false) rules →
  (mode = CostFixed ∧ est = Some c) ∨
  (∃ r, r ∈ rules ∧ rule_cost_mode r = CostFixed ∧ rule_estimated_cost_usd r = Some c) →
  ∃ p, service_preflight_estimated_cost mode est rules = Some p ∧ f64_leb c p = true.
Proof.
  intros He Hr H. unfold service_preflight_estimated_cost.
  destruct (fold_higher
    (omap rule_estimated_cost_usd (List.filter (λ rule, bool_decide (rule_cost_mode rule = CostFixed)) rules))
    (if bool_decide (mode = CostFixed) then est else None)) as [_ Hf].
  - apply Forall_forall. intros x (r & Hin & E)%list_elem_of_omap.
    apply list_elem_of_In, filter_In in Hin as [Hin _]. rewrite Forall_forall in Hr.
    apply list_elem_of_In, Hr in Hin. by rewrite E in Hin.
  - by destruct (bool_decide _).
  - apply Hf. destruct H as [[-> ->]|(r & Hin & Hm & Hc)]; [by left|right].
    apply list_elem_of_omap. exists r. split; [|done]. apply list_elem_of_In, filter_In.
    split; [by apply list_elem_of_In|]. by rewrite Hm.
Qed.

Definition sample_endpoint : ServiceOpenApiEndpoint :=
  {| endpoint_method := "POST"; endpoint_path_template := "/jobs/{id}"; endpoint_operation_id := None;
     summary := None; relayna_default := false |}.
Definition sample_rule : ServiceEndpointPricingRule :=
  {| ep_method := "POST"; ep_path_template := "/jobs/{job}"; ep_operation_id := Some "run";
     ep_cost_mode := CostFixed; ep_estimated_cost_usd := Some (f64_of_Z 2) |}.

Lemma merge_keeps_prices_witness :
  ∃ r', r' ∈ merge_endpoint_pricing_rules [sample_endpoint] [sample_rule] CostNone None ∧
        ep_cost_mode r' = CostFixed ∧ ep_estimated_cost_usd r' = Some (f64_of_Z 2).
Proof.
  destruct (merge_keeps_prices (λ _, true) (λ _, "2") [sample_endpoint] [sample_rule] CostNone None)
    as (_ & _ & H); [vm_compute; reflexivity|vm_compute; reflexivity|].
  destruct (H sample_rule) as (r' & Hin & _ & Hm & Hc); [by left|]. exists r'. done.
Defined.
