(* ===== verification/ServicePrices.v ===== *)
(** * Reading a price without rounding it

    Models [deserialize_service_price] and [normalized_decimal] of
    [crates/gateway-core/src/services.rs]: a submitted price is only accepted
    when the [f64] it becomes still denotes the submitted decimal.  The number
    parser and [f64::to_string] are parameters; the texts are those of
    [CostNumbers]. *)

From S2P Require Import Prelude ResponseCost CostNumbers ServiceTypes.

(** [str::parse::<i64>]. *)
Definition i64_in_range (n : Z) : option Z := if in_range (- 2 ^ 63) i64_max n then Some n else None.
Definition parse_digits (s : string) : option Z :=
  if is_empty s || negb (all_bytes is_ascii_digit s) then None else Some (digits_value s 0).
Definition parse_i64 (s : string) : option Z :=
  match s with
  | String c r =>
      if Ascii.eqb c "-" then parse_digits r ≫= λ n, i64_in_range (- n)
      else if Ascii.eqb c "+" then parse_digits r ≫= i64_in_range
      else parse_digits s ≫= i64_in_range
  | EmptyString => None
  end.

(** [str::split_once] at the first byte that satisfies [p]. *)
Fixpoint split_once_by (p : ascii → bool) (s : string) : option (string * string) :=
  match s with
  | EmptyString => None
  | String c s =>
      if p c then Some (EmptyString, s)
      else match split_once_by p s with
           | Some (l, r) => Some (String c l, r)
           | None => None
           end
  end.
Definition exponent_letter (c : ascii) : bool := Ascii.eqb c "e" || Ascii.eqb c "E".

Fixpoint remove_byte (c : ascii) (s : string) : string :=
  match s with
  | EmptyString => EmptyString
  | String d s => if Ascii.eqb c d then remove_byte c s else String d (remove_byte c s)
  end.

Definition normalized_decimal (value : string) : option (bool * string * Z) :=
  let '(mantissa, exponent) := default (value, "0") (split_once_by exponent_letter value) in
  exponent ← parse_i64 exponent;
  let fraction := match split_once "." mantissa with Some (_, digits) => len digits | None => 0 end in
  let digits := trim_start_char "0" (remove_byte "." (trim_start_char "-" mantissa)) in
  if is_empty digits then Some (false, "0", 0)
  else
    let significant := trim_end_matches "0" digits in
    fraction ← i64_in_range fraction;
    scale ← i64_in_range (exponent - fraction);
    trailing ← i64_in_range (len digits - len significant);
    scale ← i64_in_range (scale + trailing);
    Some (starts_with mantissa "-", significant, scale).

Section price.
(** [serde_json::from_str::<f64>] and [f64::to_string]. *)
Variable from_str : string → option f64.
Variable f64_to_string : f64 → string.

(** [raw] is the text of the value, if it is not null. *)
Definition deserialize_service_price (raw : option string) : result unit (option f64) :=
  match raw with
  | None => Ok None
  | Some raw =>
      match from_str raw with
      | None => Err tt
      | Some cost =>
          if negb (f64_is_finite cost)
             || negb (bool_decide (normalized_decimal raw = normalized_decimal (f64_to_string cost)))
          then Err tt
          else Ok (Some cost)
      end
  end.
(** A patch distinguishes an absent price from a null one no further. *)
Definition deserialize_service_price_patch (raw : option string) : result unit (option (option f64)) :=
  let? cost := deserialize_service_price raw in Ok (Some <$> cost).
End price.

(** ** Digits *)

Lemma digits_value_app a b v : digits_value (a +:+ b) v = digits_value b (digits_value a v).
Proof. revert v. induction a as [|c a IH]; intros v; [done|]. cbn. apply IH. Qed.
Lemma digits_value_acc a v :
  digits_value a v = v * 10 ^ len a + digits_value a 0.
Proof.
  revert v. induction a as [|c a IH]; intros v; cbn [digits_value].
  - change (len "") with 0. lia.
  - rewrite IH, (IH (10 * 0 + _)), len_cons. rewrite Z.pow_add_r by (pose proof (len_nonneg a); lia). lia.
Qed.
Lemma digits_value_nonneg a v : all_bytes is_ascii_digit a = true → 0 ≤ v → v ≤ digits_value a v.
Proof.
  revert v. induction a as [|c a IH]; intros v Ha Hv; cbn [digits_value all_bytes] in *; [lia|].
  bool_prop. pose proof (digit_value c H). etransitivity; [|apply IH]; [lia|done|lia].
Qed.
Lemma digits_value_snoc a c : digits_value (snoc a c) 0 = 10 * digits_value a 0 + (byte_val c - 48).
Proof. unfold snoc. by rewrite digits_value_app. Qed.

Lemma zero_byte c : is_ascii_digit c = true → byte_val c = 48 → c = "0"%char.
Proof. destruct c as [[][][][][][][][]]; vm_compute; done. Qed.

Lemma string_snoc_ind (P : string → Prop) :
  P "" → (∀ a c, P a → P (snoc a c)) → ∀ s, P s.
Proof.
  intros H0 Hs s. assert (∀ b a, P a → P (a +:+ b)) as H.
  { induction b as [|c b IH]; intros a Ha; [by rewrite append_nil_r|].
    rewrite <- snoc_append. by apply IH, Hs. }
  by apply (H s "").
Qed.

Definition no_leading_zero (s : string) : Prop := first_byte s ≠ Some "0"%char.
Lemma no_leading_zero_pos s :
  all_bytes is_ascii_digit s = true → no_leading_zero s → s ≠ "" → 0 < digits_value s 0.
Proof.
  destruct s as [|c s]; [done|]. cbn [all_bytes digits_value]. intros H Hz _. bool_prop.
  pose proof (digit_value c H). assert (byte_val c ≠ 48).
  { intros E. apply Hz. cbn. f_equal. by apply zero_byte. }
  eapply Z.lt_le_trans; [|apply digits_value_nonneg; [done|lia]]. lia.
Qed.

(** A numeral without leading zeros is determined by its value. *)
Lemma digits_unique a b :
  all_bytes is_ascii_digit a = true → all_bytes is_ascii_digit b = true →
  no_leading_zero a → no_leading_zero b → digits_value a 0 = digits_value b 0 → a = b.
Proof.
  assert (Hprefix : ∀ x c, all_bytes is_ascii_digit (snoc x c) = true →
    all_bytes is_ascii_digit x = true ∧ is_ascii_digit c = true).
  { intros x c H. unfold snoc in H. rewrite all_bytes_append in H. cbn [all_bytes] in H. by bool_prop. }
  assert (Hlead : ∀ x c, no_leading_zero (snoc x c) → no_leading_zero x) by by intros [].
  assert (Hpos : ∀ x c, all_bytes is_ascii_digit (snoc x c) = true → no_leading_zero (snoc x c) →
    0 < digits_value (snoc x c) 0).
  { intros x c Hd Hz. apply no_leading_zero_pos; [done|done|]. by destruct x. }
  revert b. induction a as [|a c IH] using string_snoc_ind; intros b Ha Hb Hza Hzb E.
  - destruct b as [|b d _] using string_snoc_ind; [done|]. specialize (Hpos _ _ Hb Hzb). cbn in E. lia.
  - destruct b as [|b d _] using string_snoc_ind; [specialize (Hpos _ _ Ha Hza); cbn in E; lia|].
    rewrite !digits_value_snoc in E. apply Hprefix in Ha as [Ha Hc], Hb as [Hb Hd].
    pose proof (digit_value c Hc). pose proof (digit_value d Hd).
    assert (c = d) as -> by (apply byte_val_inj; lia).
    rewrite (IH b); eauto. lia.
Qed.

(** ** Normal forms *)

Lemma trim_start_zeros s :
  no_leading_zero (trim_start_char "0" s) ∧ digits_value (trim_start_char "0" s) 0 = digits_value s 0.
Proof.
  induction s as [|c s IH]; [done|]. cbn [trim_start_char digits_value].
  destruct (Ascii.eqb_spec "0" c) as [<-|Hne].
  - destruct IH as [H1 H2]. split; [done|]. by rewrite H2.
  - split; [|done]. unfold no_leading_zero. cbn. congruence.
Qed.

Lemma all_zeros_value s : all_bytes (Ascii.eqb "0") s = true → digits_value s 0 = 0.
Proof.
  induction s as [|c s IH]; [done|]. cbn [all_bytes digits_value]. intros H. bool_prop.
  apply Ascii.eqb_eq in H as <-. by apply IH.
Qed.
Lemma trim_end_zeros s :
  len (trim_end_matches "0" s) ≤ len s ∧
  digits_value s 0 = digits_value (trim_end_matches "0" s) 0 * 10 ^ (len s - len (trim_end_matches "0" s)).
Proof.
  induction s as [|c s [IH1 IH2]]; [done|]. cbn [trim_end_matches].
  destruct (all_bytes (Ascii.eqb "0") (String c s)) eqn:E.
  - split; [apply len_nonneg|]. rewrite (all_zeros_value _ E). done.
  - rewrite !len_cons. split; [lia|]. cbn [digits_value].
    rewrite (digits_value_acc s), (digits_value_acc (trim_end_matches "0" s)), IH2.
    replace (1 + len s - (1 + len (trim_end_matches "0" s)))
      with (len s - len (trim_end_matches "0" s)) by lia.
    replace (10 ^ len s) with (10 ^ len (trim_end_matches "0" s) * 10 ^ (len s - len (trim_end_matches "0" s))).
    + lia.
    + rewrite <- Z.pow_add_r; [f_equal; lia|apply len_nonneg|lia].
Qed.
Lemma last_byte_snoc s d : last_byte s = Some d → ∃ a, s = snoc a d.
Proof.
  induction s as [|c s IH]; [done|]. destruct s as [|e s]; cbn [last_byte].
  - intros [= <-]. by exists "".
  - intros H. destruct (IH H) as [a Ha]. exists (String c a). by rewrite Ha.
Qed.
Lemma trimmed_not_divisible s :
  all_bytes is_ascii_digit s = true → trim_end_matches "0" s ≠ "" →
  digits_value (trim_end_matches "0" s) 0 mod 10 ≠ 0.
Proof.
  intros Hs Hne. destruct (last_byte_Some (trim_end_matches "0" s)) as [d Hd]; [by destruct (trim_end_matches _ _)|].
  pose proof (trim_end_last "0" s d Hd) as Hz.
  assert (Hdig : is_ascii_digit d = true) by (eapply all_bytes_last; [by apply all_bytes_trim_end|done]).
  apply last_byte_snoc in Hd as [a ->]. rewrite digits_value_snoc. pose proof (digit_value d Hdig).
  rewrite Z.add_comm, Z.mul_comm, Z.mod_add, Z.mod_small by lia.
  intros E. apply Hz, zero_byte; [done|lia].
Qed.
Lemma trim_end_first_keep s : trim_end_matches "0" s ≠ "" → first_byte (trim_end_matches "0" s) = first_byte s.
Proof. destruct s as [|c s]; [done|]. cbn [trim_end_matches]. by destruct (all_bytes _ _). Qed.
Lemma trim_end_nonempty s : no_leading_zero s → s ≠ "" → trim_end_matches "0" s ≠ "".
Proof.
  destruct s as [|c s]; [done|]. intros Hz _. cbn [trim_end_matches all_bytes].
  destruct (Ascii.eqb_spec "0" c) as [<-|]; [by destruct Hz|]. done.
Qed.

(** Two scaled numbers of which neither mantissa is divisible by ten. *)
Lemma scaled_unique m1 e1 m2 e2 k :
  0 < m1 → 0 < m2 → m1 mod 10 ≠ 0 → m2 mod 10 ≠ 0 → k ≤ e1 → k ≤ e2 →
  m1 * 10 ^ (e1 - k) = m2 * 10 ^ (e2 - k) → m1 = m2 ∧ e1 = e2.
Proof.
  assert (Hle : ∀ m1 e1 m2 e2, 0 < m1 → 0 < m2 → m2 mod 10 ≠ 0 → k ≤ e2 → e2 < e1 →
    m1 * 10 ^ (e1 - k) = m2 * 10 ^ (e2 - k) → False).
  { intros a ea b eb Ha Hb Hm Hk Hlt E.
    replace (ea - k) with ((ea - eb) + (eb - k)) in E by lia. rewrite Z.pow_add_r in E by lia.
    assert (0 < 10 ^ (eb - k)) by (apply Z.pow_pos_nonneg; lia).
    assert (a * 10 ^ (ea - eb) = b) as <- by nia.
    replace (ea - eb) with (1 + (ea - eb - 1)) in Hm by lia. rewrite Z.pow_add_r in Hm by lia.
    apply Hm. rewrite Z.pow_1_r. rewrite Z.mul_assoc, (Z.mul_comm a 10), <- Z.mul_assoc, Z.mul_comm.
    by rewrite Z.mod_mul. }
  intros H1 H2 Hm1 Hm2 Hk1 Hk2 E. destruct (Z.lt_trichotomy e1 e2) as [Hlt|[->|Hlt]].
  - exfalso. by apply (Hle m2 e2 m1 e1).
  - split; [|done]. assert (0 < 10 ^ (e2 - k)) by (apply Z.pow_pos_nonneg; lia). nia.
  - exfalso. by apply (Hle m1 e1 m2 e2).
Qed.

(** ** The value of a number *)

Definition all_digits (n : number) : string := n_int n +:+ default "" (n_frac n).
Definition exponent_of (n : number) : Z :=
  match n_exp n with
  | None => 0
  | Some (_, Some true, digits) => - digits_value digits 0
  | Some (_, _, digits) => digits_value digits 0
  end.
Definition scale_of (n : number) : Z := exponent_of n - len (default "" (n_frac n)).
(** The numbers [±mantissa * 10^scale] are the same. *)
Definition same_value (a b : number) : Prop :=
  let k := Z.min (scale_of a) (scale_of b) in
  let v n := (if n_negative n then -1 else 1) * digits_value (all_digits n) 0 * 10 ^ (scale_of n - k) in
  v a = v b.

(** The exponent of the text, and its scale, can be held in an [i64]. *)
Definition scale_fits (n : number) : Prop :=
  - 2 ^ 63 ≤ exponent_of n ≤ i64_max ∧ len (all_digits n) ≤ i64_max ∧
  - 2 ^ 63 ≤ scale_of n ∧ scale_of n + len (all_digits n) ≤ i64_max.

Definition normal_form (n : number) : bool * string * Z :=
  let digits := trim_start_char "0" (all_digits n) in
  if is_empty digits then (false, "0", 0)
  else (n_negative n, trim_end_matches "0" digits,
        scale_of n + (len digits - len (trim_end_matches "0" digits))).

Lemma split_by_none p s : all_bytes (λ c, negb (p c)) s = true → split_once_by p s = None.
Proof.
  induction s as [|c s IH]; [done|]. cbn [all_bytes split_once_by]. intros H. bool_prop.
  rewrite H. by rewrite IH.
Qed.
Lemma split_by_app p a c b :
  all_bytes (λ c, negb (p c)) a = true → p c = true → split_once_by p (a +:+ String c b) = Some (a, b).
Proof.
  intros Ha Hc. induction a as [|d a IH]; cbn [String.append split_once_by].
  - by rewrite Hc.
  - cbn [all_bytes] in Ha. bool_prop. rewrite H. by rewrite IH.
Qed.
Lemma split_once_by_byte c s : split_once c s = split_once_by (Ascii.eqb c) s.
Proof. induction s as [|d s IH]; [done|]. cbn. rewrite IH. done. Qed.
Lemma remove_byte_app c a b : remove_byte c (a +:+ b) = remove_byte c a +:+ remove_byte c b.
Proof. induction a as [|d a IH]; [done|]. cbn. destruct (Ascii.eqb c d); [done|]. cbn. by rewrite IH. Qed.
Lemma remove_byte_absent c s : all_bytes (λ d, negb (Ascii.eqb c d)) s = true → remove_byte c s = s.
Proof. induction s as [|d s IH]; [done|]. cbn [all_bytes remove_byte]. intros H. bool_prop. rewrite H, IH; done. Qed.

Lemma digits_without c s :
  is_ascii_digit c = false → all_bytes is_ascii_digit s = true → all_bytes (λ d, negb (Ascii.eqb c d)) s = true.
Proof.
  intros Hc. induction s as [|d s IH]; [done|]. cbn [all_bytes]. intros H. bool_prop.
  rewrite IH by done. destruct (Ascii.eqb_spec c d); [congruence|done].
Qed.

(** The parts of a number before its exponent. *)
Definition mantissa_text (n : number) : string :=
  (if n_negative n then "-" else "") +:+ n_int n +:+ render_frac (n_frac n).
Lemma render_mantissa n : render_number n = mantissa_text n +:+ render_exp (n_exp n).
Proof. unfold render_number, mantissa_text. by rewrite !append_assoc. Qed.

Section one_number.
Variable n : number.
Hypothesis Hok : number_ok n = true.

Lemma int_digits : all_bytes is_ascii_digit (n_int n) = true ∧ n_int n ≠ "".
Proof using Hok.
  unfold number_ok, digits_ok in Hok. bool_prop. split; [done|]. by intros E; rewrite E in *.
Qed.
Lemma frac_digits : all_bytes is_ascii_digit (default "" (n_frac n)) = true.
Proof using Hok. unfold number_ok, digits_ok in Hok. destruct (n_frac n); [|done]. by bool_prop. Qed.
Lemma all_digits_digits : all_bytes is_ascii_digit (all_digits n) = true.
Proof using Hok.
  unfold all_digits. rewrite all_bytes_append. destruct int_digits as [-> _]. by rewrite frac_digits.
Qed.

Lemma mantissa_no_letter : all_bytes (λ c, negb (exponent_letter c)) (mantissa_text n) = true.
Proof using Hok.
  assert (Hd : ∀ s, all_bytes is_ascii_digit s = true → all_bytes (λ c, negb (exponent_letter c)) s = true).
  { induction s as [|c s IH]; [done|]. cbn [all_bytes]. intros H. bool_prop. rewrite IH by done.
    unfold exponent_letter. rewrite !(digit_not c) by done. done. }
  unfold mantissa_text. rewrite !all_bytes_append, (Hd (n_int n)) by apply int_digits.
  pose proof frac_digits as Hf. destruct (n_negative n), (n_frac n) as [f|]; cbn [render_frac all_bytes default id] in *;
    rewrite ?(Hd f) by done; done.
Qed.

Lemma split_exponent :
  default (render_number n, "0") (split_once_by exponent_letter (render_number n))
  = (mantissa_text n, match n_exp n with None => "0" | Some (_, sign, digits) => sign_text sign +:+ digits end).
Proof using Hok.
  rewrite render_mantissa. pose proof mantissa_no_letter as Hm.
  unfold number_ok in Hok. destruct (n_exp n) as [[[letter sign] digits]|]; cbn [render_exp].
  - apply andb_true_iff in Hok as [_ Hl]. apply andb_true_iff in Hl as [Hl _].
    by rewrite split_by_app.
  - rewrite append_nil_r. by rewrite split_by_none.
Qed.

Lemma parse_exponent :
  - 2 ^ 63 ≤ exponent_of n ≤ i64_max →
  parse_i64 (match n_exp n with None => "0" | Some (_, sign, digits) => sign_text sign +:+ digits end)
  = Some (exponent_of n).
Proof using Hok.
  unfold exponent_of, number_ok, digits_ok in *.
  assert (Hr : ∀ x, - 2 ^ 63 ≤ x ≤ i64_max → i64_in_range x = Some x).
  { intros x Hx. unfold i64_in_range. by rewrite (proj2 (in_range_iff _ _ _)). }
  destruct (n_exp n) as [[[letter sign] digits]|]; [|done].
  apply andb_true_iff in Hok as [_ Hd]. apply andb_true_iff in Hd as [_ Hd]. bool_prop.
  assert (Hp : parse_digits digits = Some (digits_value digits 0)).
  { unfold parse_digits. by rewrite H, H0. }
  destruct sign as [[|]|]; cbn [sign_text]; intros Hx.
  - unfold parse_i64. cbn. rewrite Hp. cbn. by apply Hr.
  - unfold parse_i64. cbn. rewrite Hp. cbn. by apply Hr.
  - cbn [String.append]. destruct digits as [|c d]; [done|]. unfold parse_i64.
    cbn [all_bytes] in H0. bool_prop. rewrite !(digit_not c) by done. rewrite Hp. cbn [mbind option_bind]. by apply Hr.
Qed.

Lemma mantissa_fraction :
  match split_once "." (mantissa_text n) with Some (_, digits) => len digits | None => 0 end
  = len (default "" (n_frac n)).
Proof using Hok.
  rewrite split_once_by_byte. unfold mantissa_text. pose proof int_digits as [Hi _].
  assert (Hs : all_bytes (λ c, negb (Ascii.eqb "." c)) ((if n_negative n then "-" else "") +:+ n_int n) = true).
  { rewrite all_bytes_append, (digits_without "." (n_int n)) by done. by destruct (n_negative n). }
  rewrite <- append_assoc. destruct (n_frac n) as [f|]; cbn [render_frac default id].
  - by rewrite split_by_app.
  - rewrite append_nil_r. by rewrite split_by_none.
Qed.

Lemma mantissa_all_digits : remove_byte "." (trim_start_char "-" (mantissa_text n)) = all_digits n.
Proof using Hok.
  pose proof int_digits as [Hi Hne]. pose proof frac_digits as Hf.
  assert (trim_start_char "-" (mantissa_text n) = n_int n +:+ render_frac (n_frac n)) as ->.
  { unfold mantissa_text. destruct (n_int n) as [|c i]; [done|]. cbn [all_bytes] in Hi. bool_prop.
    assert (Ascii.eqb "-" c = false) by (destruct (Ascii.eqb_spec "-" c); [subst; done|done]).
    destruct (n_negative n); cbn [String.append trim_start_char]; rewrite ?Ascii.eqb_refl; cbn [trim_start_char]; by rewrite H1. }
  rewrite remove_byte_app, (remove_byte_absent "." (n_int n)) by by apply digits_without.
  unfold all_digits. f_equal. destruct (n_frac n) as [f|]; cbn [render_frac remove_byte default id] in *; [|done].
  rewrite Ascii.eqb_refl. by rewrite remove_byte_absent by by apply digits_without.
Qed.

Lemma mantissa_sign : starts_with (mantissa_text n) "-" = n_negative n.
Proof using Hok.
  unfold mantissa_text. pose proof int_digits as [Hi Hne]. destruct (n_int n) as [|c i]; [done|].
  cbn [all_bytes] in Hi. bool_prop. destruct (n_negative n); [done|]. unfold starts_with. cbn.
  destruct (Ascii.eqb_spec "-" c); [subst; done|].
  by destruct c as [[][][][][][][][]].
Qed.

(** The normal form the code computes. *)
Lemma normalized_render : scale_fits n → normalized_decimal (render_number n) = Some (normal_form n).
Proof using Hok.
  intros (He & Hl & Hs & Ht). unfold normalized_decimal. rewrite split_exponent, parse_exponent by done.
  cbn [mbind option_bind]. rewrite mantissa_fraction, mantissa_all_digits, mantissa_sign.
  unfold normal_form. set (digits := trim_start_char "0" (all_digits n)).
  destruct (is_empty digits); [done|].
  assert (Hld : len digits ≤ len (all_digits n)).
  { unfold digits. clear. generalize (all_digits n). intros s. induction s as [|c s IH]; [done|].
    cbn [trim_start_char]. destruct (Ascii.eqb "0" c); rewrite ?len_cons in *; lia. }
  destruct (trim_end_zeros digits) as [Hle _]. pose proof (len_nonneg (trim_end_matches "0" digits)).
  pose proof (len_nonneg (default "" (n_frac n))).
  assert (Hr : ∀ x, - 2 ^ 63 ≤ x ≤ i64_max → i64_in_range x = Some x).
  { intros x Hx. unfold i64_in_range. by rewrite (proj2 (in_range_iff _ _ _)). }
  assert (len (default "" (n_frac n)) ≤ len (all_digits n)).
  { unfold all_digits. rewrite len_append. pose proof (len_nonneg (n_int n)). lia. }
  assert (- 2 ^ 63 ≤ 0) by lia.
  rewrite (Hr (len (default "" (n_frac n)))) by lia. cbn [mbind option_bind].
  fold (scale_of n). rewrite (Hr (scale_of n)) by lia. cbn [mbind option_bind].
  rewrite (Hr (len digits - len (trim_end_matches "0" digits))) by lia. cbn [mbind option_bind].
  by rewrite (Hr (scale_of n + (len digits - len (trim_end_matches "0" digits)))) by lia.
Qed.
End one_number.

(** A normal form is zero, or a mantissa without outer zeros and its scale. *)
Lemma normal_form_spec n :
  number_ok n = true →
  (digits_value (all_digits n) 0 = 0 ∧ normal_form n = (false, "0", 0)) ∨
  (∃ sig t, normal_form n = (n_negative n, sig, scale_of n + t) ∧ 0 ≤ t ∧ sig ≠ "" ∧
     digits_value (all_digits n) 0 = digits_value sig 0 * 10 ^ t ∧ 0 < digits_value sig 0 ∧
     digits_value sig 0 mod 10 ≠ 0 ∧ no_leading_zero sig ∧ all_bytes is_ascii_digit sig = true).
Proof.
  intros Hok. pose proof (all_digits_digits n Hok) as Hd. destruct (trim_start_zeros (all_digits n)) as [Hz Hv].
  unfold normal_form. set (digits := trim_start_char "0" (all_digits n)) in *.
  assert (Hdd : all_bytes is_ascii_digit digits = true) by by apply all_bytes_trim_start.
  destruct (is_empty digits) eqn:Ee.
  - left. split; [|done]. rewrite <- Hv. by destruct digits.
  - right. assert (digits ≠ "") as Hne by by intros E; rewrite E in Ee.
    destruct (trim_end_zeros digits) as [Hle Hval]. pose proof (trim_end_nonempty digits Hz Hne) as Hsig.
    exists (trim_end_matches "0" digits), (len digits - len (trim_end_matches "0" digits)).
    assert (no_leading_zero (trim_end_matches "0" digits))
      by (unfold no_leading_zero; by rewrite trim_end_first_keep).
    assert (all_bytes is_ascii_digit (trim_end_matches "0" digits) = true) by by apply all_bytes_trim_end.
    split; [done|]. split; [lia|]. split; [done|]. split; [by rewrite <- Hv|].
    split; [by apply no_leading_zero_pos|]. split; [by apply trimmed_not_divisible|]. done.
Qed.

Lemma same_value_scaled a b sa ta sb tb :
  digits_value (all_digits a) 0 = sa * 10 ^ ta → digits_value (all_digits b) 0 = sb * 10 ^ tb →
  0 ≤ ta → 0 ≤ tb →
  let k := Z.min (scale_of a) (scale_of b) in
  same_value a b ↔
  (if n_negative a then -1 else 1) * (sa * 10 ^ (scale_of a + ta - k))
  = (if n_negative b then -1 else 1) * (sb * 10 ^ (scale_of b + tb - k)).
Proof.
  intros Ha Hb Hta Htb k. unfold same_value. fold k. rewrite Ha, Hb.
  assert (Hp : ∀ s t e, 0 ≤ t → k ≤ e → s * 10 ^ t * 10 ^ (e - k) = s * 10 ^ (e + t - k)).
  { intros s t e Ht He. replace (e + t - k) with (t + (e - k)) by lia. rewrite Z.pow_add_r by lia. lia. }
  rewrite <- !Z.mul_assoc, !(Z.mul_assoc _ (10 ^ _) (10 ^ _)). rewrite !Hp by lia. done.
Qed.

Lemma normal_form_exact a b :
  number_ok a = true → number_ok b = true → (normal_form a = normal_form b ↔ same_value a b).
Proof.
  intros Ha Hb. destruct (normal_form_spec a Ha) as [[Za Ea]|(sa & ta & Ea & Hta & Hna & Va & Pa & Ma & La & Da)],
    (normal_form_spec b Hb) as [[Zb Eb]|(sb & tb & Eb & Htb & Hnb & Vb & Pb & Mb & Lb & Db)]; rewrite Ea, Eb.
  - split; [|done]. intros _. unfold same_value. by rewrite Za, Zb, !Z.mul_0_r, !Z.mul_0_l.
  - split.
    + intros [= _ <- _]. by destruct Lb.
    + intros H. exfalso. unfold same_value in H. rewrite Za, Vb in H.
      assert (0 < 10 ^ (scale_of b - Z.min (scale_of a) (scale_of b))) by (apply Z.pow_pos_nonneg; lia).
      assert (0 < 10 ^ tb) by (apply Z.pow_pos_nonneg; lia). destruct (n_negative b); nia.
  - split.
    + intros [= _ -> _]. by destruct La.
    + intros H. exfalso. unfold same_value in H. rewrite Zb, Va in H.
      assert (0 < 10 ^ (scale_of a - Z.min (scale_of a) (scale_of b))) by (apply Z.pow_pos_nonneg; lia).
      assert (0 < 10 ^ ta) by (apply Z.pow_pos_nonneg; lia). destruct (n_negative a); nia.
  - rewrite (same_value_scaled a b _ ta _ tb Va Vb Hta Htb).
    set (k := Z.min (scale_of a) (scale_of b)). split.
    + intros [= -> -> E]. by rewrite E.
    + intros E.
      assert (0 < 10 ^ (scale_of a + ta - k)) by (apply Z.pow_pos_nonneg; lia).
      assert (0 < 10 ^ (scale_of b + tb - k)) by (apply Z.pow_pos_nonneg; lia).
      assert (n_negative a = n_negative b) as Hneg by (destruct (n_negative a), (n_negative b); [done|nia|nia|done]).
      assert (E' : digits_value sa 0 * 10 ^ (scale_of a + ta - k) = digits_value sb 0 * 10 ^ (scale_of b + tb - k))
        by (rewrite Hneg in E; destruct (n_negative b); lia).
      destruct (scaled_unique (digits_value sa 0) (scale_of a + ta) (digits_value sb 0) (scale_of b + tb) k)
        as [Es Ee]; try done; [unfold k; lia..|].
      rewrite Hneg, Ee. by rewrite (digits_unique sa sb).
Qed.

(** Whenever a submitted price is accepted, the text the stored [f64]
    prints as denotes exactly the submitted decimal, and a finite price with
    that property is always accepted: no price is silently rounded. *)
Theorem accepted_price_exact from_str f64_to_string raw cost n m :
  number_ok n = true → number_ok m = true → scale_fits n → scale_fits m →
  raw = render_number n → from_str raw = Some cost → f64_to_string cost = render_number m →
  f64_is_finite cost = true →
  (deserialize_service_price from_str f64_to_string (Some raw) = Ok (Some cost) ↔ same_value n m).
Proof.
  intros Hn Hm Fn Fm -> Hp Hs Hf. unfold deserialize_service_price. rewrite Hp, Hs, Hf. cbn [negb orb].
  rewrite !normalized_render by done. rewrite <- (normal_form_exact n m) by done.
  destruct (decide (normal_form n = normal_form m)) as [E|E].
  - rewrite E, bool_decide_eq_true_2 by done. done.
  - rewrite bool_decide_eq_false_2 by congruence. cbn [negb]. split; [done|]. intros; done.
Qed.

(** The prices [2.50] and [2.5]. *)
Definition price (frac : string) : number :=
  {| n_negative := false; n_int := "2"; n_frac := Some frac; n_exp := None |}.
Definition half : f64 := f64_div (f64_of_Z 5) (f64_of_Z 2).
Lemma accepted_price_exact_witness :
  deserialize_service_price (λ _, Some half) (λ _, "2.5") (Some "2.50") = Ok (Some half).
Proof.
  apply (accepted_price_exact (λ _, Some half) (λ _, "2.5") "2.50" half (price "50") (price "5"));
    try reflexivity; vm_compute; intuition discriminate.
Defined.
