(* ===== verification/Usage.v ===== *)
(** * What a request uses

    Models the extraction half of [crates/gateway-core/src/usage.rs]: the
    model name, the cost and the token counts found in a body, and the
    estimate of the tokens a generation request may use.  [i64] additions
    wrap, as in a release build.  JSON parsing and pointers are parameters. *)

From S2P Require Import Prelude Json.

(** [a + b] on [i64]. *)
Definition i64_add (a b : Z) : Z := (a + b + 2 ^ 63) mod 2 ^ 64 - 2 ^ 63.

(** [Value::as_i64] and [Value::as_f64]. *)
Definition as_i64 (v : Value) : option Z :=
  match v with
  | JNumber (PosInt n) => if n <=? i64_max then Some n else None
  | JNumber (NegInt n) => Some n
  | _ => None
  end.
Definition as_f64 (v : Value) : option f64 :=
  match v with
  | JNumber (PosInt n) | JNumber (NegInt n) => Some (f64_of_Z n)
  | JNumber (Float x) => Some x
  | _ => None
  end.

(** [l.into_iter().flatten().filter_map(f).find(p)]. *)
Definition first_found {A B} (f : A → option B) (p : B → bool) (l : list (option A)) : option B :=
  List.find p (omap f (omap id l)).

Inductive UsageStatus : Type := Success | Failure.
(** [UsageEvent::new] and [with_diagnostics]: the status of a recorded request. *)
Definition usage_status (status_code : Z) (failure_code : option string) : UsageStatus :=
  if is_some failure_code then Failure else if status_code <? 400 then Success else Failure.

(** [with_usage_tokens]: the total, when only the parts are known. *)
Definition total_or_sum (input output total : option Z) : option Z :=
  match total with
  | Some t => Some t
  | None => match input, output with Some i, Some o => Some (i64_add i o) | _, _ => None end
  end.

Section extraction.
Variable from_slice : string → option Value.
Variable pointer : Value → string → option Value.

Definition extract_model (body : string) : option string :=
  value ← from_slice body;
  opt_filter (λ m, negb (is_empty m)) (trim <$> (value_get "model" value ≫= as_str)).

Definition cost_of_value (value : Value) : option f64 :=
  first_found as_f64 (λ cost, f64_is_finite cost && f64_gtb cost (f64_of_Z 0))
    [value_get "estimated_cost" value; value_get "response_cost" value;
     pointer value "/usage/estimated_cost"; pointer value "/usage/total_cost";
     pointer value "/usage/cost"; pointer value "/_hidden_params/response_cost"].
Definition extract_estimated_cost_usd (body : string) : option f64 :=
  from_slice body ≫= cost_of_value.

Definition non_negative (tokens : Z) : bool := 0 <=? tokens.
Definition extract_usage_tokens (body : string) : option Z * option Z * option Z :=
  match from_slice body with
  | None => (None, None, None)
  | Some value =>
      let input := first_found as_i64 non_negative
                     [pointer value "/usage/prompt_tokens"; pointer value "/usage/input_tokens"] in
      let output := first_found as_i64 non_negative
                      [pointer value "/usage/completion_tokens"; pointer value "/usage/output_tokens"] in
      let total := opt_filter non_negative (pointer value "/usage/total_tokens" ≫= as_i64) in
      (input, output, total_or_sum input output total)
  end.

(** ** Estimates *)

Definition estimate_text_tokens (byte_len : Z) : Z :=
  Z.max 1 (Z.min i64_max ((byte_len + 3) / 4)).

Definition output_field (k : string) : bool :=
  String.eqb k "max_tokens" || String.eqb k "max_completion_tokens" || String.eqb k "max_output_tokens".

Fixpoint estimate_value_tokens (value : Value) : Z :=
  match value with
  | JString s => estimate_text_tokens (len s)
  | JArray values => foldl i64_add 0 (map estimate_value_tokens values)
  | JObject values =>
      foldl i64_add 0
        (omap (λ '(k, v), if output_field k then None else Some (estimate_value_tokens v)) values)
  | JNumber _ | JBool _ => 1
  | JNull => 0
  end.

Definition or_else {A} (a b : option A) : option A := match a with Some _ => a | None => b end.
Definition requested_output (value : Value) : Z :=
  default 0 (opt_filter (λ tokens, 0 <? tokens)
    (or_else (value_get "max_completion_tokens" value)
       (or_else (value_get "max_tokens" value) (value_get "max_output_tokens" value)) ≫= as_i64)).

Definition estimate_of_value (value : Value) : Z :=
  Z.max 1 (i64_add (estimate_value_tokens value) (requested_output value)).
Definition estimate_generation_tokens (body : string) : Z :=
  match from_slice body with
  | None => estimate_text_tokens (len body)
  | Some value => estimate_of_value value
  end.
End extraction.

(** ** Properties *)

Lemma i64_add_exact a b : - 2 ^ 63 ≤ a + b ≤ i64_max → i64_add a b = a + b.
Proof. unfold i64_add, i64_max. intros H. rewrite Z.mod_small; lia. Qed.

(** The tokens of a value, counted without a bound. *)
Fixpoint tokens (value : Value) : Z :=
  match value with
  | JString s => Z.max 1 ((len s + 3) / 4)
  | JArray values => foldr Z.add 0 (map tokens values)
  | JObject values =>
      foldr Z.add 0 (omap (λ '(k, v), if output_field k then None else Some (tokens v)) values)
  | JNumber _ | JBool _ => 1
  | JNull => 0
  end.

Lemma sum_nonneg l : Forall (λ x, 0 ≤ x) l → 0 ≤ foldr Z.add 0 l.
Proof. induction 1; simpl; lia. Qed.

Lemma tokens_nonneg v : 0 ≤ tokens v.
Proof.
  induction v as [| | | |l IH|m IH] using Value_nested_ind; cbn [tokens]; try lia.
  - apply sum_nonneg. induction IH; simpl; constructor; auto.
  - apply sum_nonneg. induction IH as [|[k v] m Hv _ IHm]; cbn; [constructor|].
    destruct (output_field k); [done|]. by constructor.
Qed.

Lemma foldl_i64_add l a :
  Forall (λ x, 0 ≤ x) l → 0 ≤ a → a + foldr Z.add 0 l ≤ i64_max →
  foldl i64_add a l = a + foldr Z.add 0 l.
Proof.
  intros H. revert a. induction H as [|x l Hx Hl IH]; intros a Ha Hs; simpl in *; [lia|].
  pose proof (sum_nonneg l Hl). rewrite i64_add_exact by (unfold i64_max in *; lia).
  rewrite IH by lia. lia.
Qed.

Lemma sum_member_le l x : Forall (λ y, 0 ≤ y) l → x ∈ l → x ≤ foldr Z.add 0 l.
Proof.
  induction 1 as [|y l Hy Hl IH]; [by intros ?%not_elem_of_nil|]. simpl.
  pose proof (sum_nonneg l Hl). intros [->|Hx%IH]%elem_of_cons; lia.
Qed.

(** As long as the count fits, the estimate of a value is its count. *)
Lemma estimate_exact v : tokens v ≤ i64_max → estimate_value_tokens v = tokens v.
Proof.
  induction v as [| | |s|l IH|m IH] using Value_nested_ind; cbn [tokens estimate_value_tokens]; intros Hb; try done.
  - unfold estimate_text_tokens. lia.
  - assert (map estimate_value_tokens l = map tokens l) as ->.
    { assert (Hnn : Forall (λ y, 0 ≤ y) (map tokens l)).
      { apply Forall_forall. intros x (v & -> & _)%list_elem_of_fmap. apply tokens_nonneg. }
      apply map_ext_in. intros v Hv%list_elem_of_In. rewrite Forall_forall in IH. apply IH; [done|].
      transitivity (foldr Z.add 0 (map tokens l)); [|done]. apply sum_member_le; [done|].
      apply list_elem_of_fmap. eauto. }
    apply foldl_i64_add; [|lia|lia]. apply Forall_forall.
    intros x (v & -> & _)%list_elem_of_fmap. apply tokens_nonneg.
  - assert (Hnn : Forall (λ y, 0 ≤ y)
      (omap (λ '(k, v), if output_field k then None else Some (tokens v)) m)).
    { apply Forall_forall. intros x ([k v] & _ & E)%list_elem_of_omap.
      destruct (output_field k); [done|]. injection E as <-. apply tokens_nonneg. }
    assert (omap (λ '(k, v), if output_field k then None else Some (estimate_value_tokens v)) m
            = omap (λ '(k, v), if output_field k then None else Some (tokens v)) m) as ->.
    { clear Hnn. revert Hb. induction IH as [|[k v] m Hv _ IHm]; intros Hb; [done|]. cbn in *.
      destruct (output_field k); [by apply IHm|]. cbn in Hb.
      assert (0 ≤ foldr Z.add 0 (omap (λ '(k, v), if output_field k then None else Some (tokens v)) m)).
      { apply sum_nonneg, Forall_forall. intros x ([k' v'] & _ & E)%list_elem_of_omap.
        destruct (output_field k'); [done|]. injection E as <-. apply tokens_nonneg. }
      pose proof (tokens_nonneg v). rewrite Hv by lia. f_equal. apply IHm. lia. }
    apply foldl_i64_add; [done|lia|lia].
Qed.

(** When its input tokens and the output it asks for fit in an [i64], a
    generation request is estimated at exactly their sum, and never below the
    output it asks for. *)
Theorem estimate_covers_request from_slice body value :
  from_slice body = Some value → tokens value + requested_output value ≤ i64_max →
  estimate_generation_tokens from_slice body = Z.max 1 (tokens value + requested_output value) ∧
  requested_output value ≤ estimate_generation_tokens from_slice body.
Proof.
  intros E Hb. unfold estimate_generation_tokens, estimate_of_value. rewrite E.
  pose proof (tokens_nonneg value).
  assert (0 ≤ requested_output value).
  { unfold requested_output. destruct (_ ≫= as_i64) as [n|]; [|done]. simpl.
    destruct (Z.ltb_spec 0 n); simpl; lia. }
  rewrite estimate_exact, i64_add_exact by (unfold i64_max in *; lia). lia.
Qed.

Definition huge_request : Value :=
  JObject [("max_tokens", JNumber (PosInt i64_max)); ("prompt", JString "hello")].

Definition modest_request : Value :=
  JObject [("max_tokens", JNumber (PosInt 20)); ("prompt", JString "hello")].

Lemma estimate_covers_request_witness :
  estimate_generation_tokens (λ _, Some modest_request) "" = 22.
Proof.
  destruct (estimate_covers_request (λ _, Some modest_request) "" modest_request eq_refl) as [E _].
  - vm_compute. discriminate.
  - etransitivity; [exact E|]. vm_compute. reflexivity.
Defined.

(** A request for the largest output an [i64] can name is estimated at a
    single token: the sum with its own input wraps to a negative number. *)
Theorem estimate_wraps from_slice body :
  from_slice body = Some huge_request → estimate_generation_tokens from_slice body = 1.
Proof. intros E. unfold estimate_generation_tokens. rewrite E. vm_compute. done. Qed.
