(* ===== verification/UsageCost.v ===== *)
(** * The cost of a request

    The two readers of a response's cost - the streaming observer
    ([ResponseCost.observed_cost]) and the one for buffered bodies
    ([Usage.extract_estimated_cost_usd]) - agree on JSON objects.  Then the
    part of [crates/gateway-proxy/src/pingora_plane.rs] that prices a service
    request: the configuration of the context from the registered service, the
    bound reserved before the body is known, the price once it is, and the cost
    written to the usage record; and of [crates/gateway-store/src/postgres.rs]
    the decision whether a record is repriced.  The context is reduced to the
    fields these functions use. *)

From S2P Require Import Prelude Errors Json Routing GuardrailPolicy EndpointAccess Foundry ServiceTypes ServicePricing ResponseCost Usage CostNumbers CostEquivalence.
Section agreement.
Variable serde_number : string → option f64.
Variable parse_f64 : string → option f64.
Variable serde_string : string → option string.
(** The number serde keeps for a numeral. *)
Variable number_of : number → Number.

Definition decoded (s : schars) : string := default "" (serde_string (render_string s)).

(** The tree serde builds: a repeated member replaces the earlier one. *)
Fixpoint value_of (t : text) : Value :=
  match t with
  | XNumber n => JNumber (number_of n)
  | XLiteral LTrue => JBool true
  | XLiteral LFalse => JBool false
  | XLiteral LNull => JNull
  | XString s => JString (decoded s)
  | XArray _ items => JArray (map (λ i, value_of i.2) items)
  | XObject _ members =>
      JObject (foldl (λ m '(k, v), map_insert k v m) [] (map (λ m, (decoded m.1.2, value_of m.2)) members))
  end.

(** Every numeral is short enough to be parsed as it is written. *)
Fixpoint numbers_short (t : text) : bool :=
  match t with
  | XNumber n => len (render_number n) <=? 128
  | XArray _ items => forallb (λ i, numbers_short i.2) items
  | XObject _ members => forallb (λ m, numbers_short m.2) members
  | _ => true
  end.

Hypothesis serde_string_decodes :
  ∀ l, forallb schar_ok l = true → is_Some (serde_string (render_string l)).
Hypothesis number_of_value : ∀ n, as_f64 (JNumber (number_of n)) = serde_number (render_number n).

Abbreviation cost_at := (CostNumbers.cost_at serde_number parse_f64 serde_string).
Abbreviation last_member := (CostNumbers.last_member serde_string).

Lemma find_append {A} (p : A → bool) l k :
  List.find p (l ++ k) = match List.find p l with Some a => Some a | None => List.find p k end.
Proof. induction l as [|a l IH]; cbn; [done|]. by destruct (p a). Qed.
Lemma map_get_foldl k (l : list (string * Value)) m :
  map_get k (foldl (λ m '(k, v), map_insert k v m) m l)
  = match map_get k (rev l) with Some v => Some v | None => map_get k m end.
Proof.
  revert m. induction l as [|[k0 v0] l IH]; intros m; [done|]. cbn [foldl rev]. rewrite IH, map_get_insert.
  unfold map_get. rewrite find_append. destruct (List.find _ (rev l)) as [[]|]; [done|]. cbn.
  by destruct (String.eqb k k0).
Qed.

Lemma member_get k e members :
  text_ok (XObject e members) = true →
  value_get k (value_of (XObject e members)) = value_of <$> last_member k members.
Proof using serde_string_decodes.
  intros Hok. apply members_keys in Hok. unfold value_get. cbn [value_of as_object mbind option_bind].
  rewrite map_get_foldl. change (map_get k []) with (@None Value).
  induction Hok as [|[[pd name] v] members Hname _ IH]; [done|]. cbn [map rev CostNumbers.last_member].
  unfold map_get in *. rewrite find_append.
  destruct (List.find _ (rev _)) as [[k' v']|]; cbn [fmap option_fmap option_map snd] in *.
  - destruct (last_member k members); [|done]. cbn in *. done.
  - destruct (last_member k members); [done|]. cbn [List.find fst snd].
    cbn [fst snd] in Hname. destruct (serde_string_decodes name Hname) as [s Hs].
    unfold decoded. rewrite Hs. cbn [default id].
    destruct (String.eqb_spec k s) as [->|Hne].
    + by rewrite bool_decide_eq_true_2.
    + rewrite bool_decide_eq_false_2 by congruence. done.
Qed.

(** Following a path in the tree is following it in the text. *)
Fixpoint get_path (p : list string) (v : Value) : option Value :=
  match p with [] => Some v | k :: p => value_get k v ≫= get_path p end.

Lemma last_member_In k members v : last_member k members = Some v → ∃ m, m ∈ members ∧ m.2 = v.
Proof.
  induction members as [|[[pd name] w] members IH]; [done|]. cbn [CostNumbers.last_member].
  destruct (last_member k members) as [x|].
  - intros [= <-]. destruct (IH eq_refl) as (m & ? & ?). exists m. split; [by right|done].
  - case_bool_decide; [|done]. intros [= <-]. eexists. split; [by left|done].
Qed.

Lemma cost_at_path p t :
  text_ok t = true → numbers_short t = true →
  cost_at p t = (get_path p (value_of t) ≫= as_f64) ≫= positive.
Proof using serde_string_decodes number_of_value.
  revert t. induction p as [|k p IH]; intros t Hok Hs; cbn [CostNumbers.cost_at get_path].
  - destruct t as [n|[]| | |]; try done. cbn [text_cost value_of mbind option_bind]. unfold number_cost.
    cbn [numbers_short] in Hs. rewrite Hs. by rewrite number_of_value.
  - destruct t as [n|[]|s|e items|e members]; try done. rewrite member_get by done.
    destruct (last_member k members) as [v|] eqn:E; [|done]. cbn [fmap option_fmap option_map mbind option_bind].
    apply last_member_In in E as ([[pd name] w] & Hin%list_elem_of_In & <-). apply IH.
    + cbn [text_ok] in Hok. apply andb_true_iff in Hok as [_ Hok]. rewrite forallb_forall in Hok.
      specialize (Hok _ Hin). cbn in Hok. by bool_prop.
    + cbn [numbers_short] in Hs. rewrite forallb_forall in Hs. by apply (Hs _ Hin).
Qed.

(** The longest way to write a byte is an escape of six. *)
Hypothesis serde_string_len :
  ∀ l name, forallb schar_ok l = true → serde_string (render_string l) = Some name → len (render_string l) ≤ 6 * len name + 2.
(** serde's parser, and pointers into an object. *)
Variable from_slice : string → option Value.
Variable pointer : Value → string → option Value.
Hypothesis pointer_members : ∀ v a b,
  a ∈ ["usage"; "_hidden_params"] → b ∈ ["estimated_cost"; "total_cost"; "cost"; "response_cost"] →
  pointer v ("/" +:+ a +:+ "/" +:+ b) = get_path [a; b] v.

Lemma first_found_positive (l : list (option Value)) :
  first_found as_f64 (λ cost, f64_is_finite cost && f64_gtb cost (f64_of_Z 0)) l
  = head (omap (λ o, (o ≫= as_f64) ≫= positive) l).
Proof.
  unfold first_found. induction l as [|[v|] l IH]; cbn -[as_f64 positive f64_gtb f64_is_finite f64_of_Z];
    [done| |exact IH].
  destruct (as_f64 v) as [c|]; cbn -[as_f64 positive f64_gtb f64_is_finite f64_of_Z]; [|exact IH]. unfold positive at 1.
  destruct (f64_is_finite c && f64_gtb c (f64_of_Z 0)).
  - done.
  - exact IH.
Qed.

Lemma cost_of_tree t :
  text_ok t = true → numbers_short t = true →
  cost_of_value pointer (value_of t) = reported_cost serde_number parse_f64 serde_string t.
Proof using serde_string_decodes number_of_value pointer_members.
  intros Hok Hs. unfold cost_of_value, reported_cost. rewrite first_found_positive.
  assert (Hp : ∀ a b, a ∈ ["usage"; "_hidden_params"] →
    b ∈ ["estimated_cost"; "total_cost"; "cost"; "response_cost"] →
    pointer (value_of t) ("/" +:+ a +:+ "/" +:+ b) = get_path [a; b] (value_of t))
    by (intros; by apply pointer_members).
  pose proof (Hp "usage" "estimated_cost" ltac:(by apply existsb_eqb_iff) ltac:(by apply existsb_eqb_iff)) as P1.
  pose proof (Hp "usage" "total_cost" ltac:(by apply existsb_eqb_iff) ltac:(by apply existsb_eqb_iff)) as P2.
  pose proof (Hp "usage" "cost" ltac:(by apply existsb_eqb_iff) ltac:(by apply existsb_eqb_iff)) as P3.
  pose proof (Hp "_hidden_params" "response_cost" ltac:(by apply existsb_eqb_iff) ltac:(by apply existsb_eqb_iff)) as P4.
  cbn [String.append] in P1, P2, P3, P4. rewrite P1, P2, P3, P4.
  assert (H1 : ∀ k, value_get k (value_of t) = get_path [k] (value_of t)).
  { intros k. cbn. by destruct (value_get k (value_of t)). }
  rewrite !H1. f_equal.
  change ([get_path ["estimated_cost"] (value_of t); get_path ["response_cost"] (value_of t);
           get_path ["usage"; "estimated_cost"] (value_of t); get_path ["usage"; "total_cost"] (value_of t);
           get_path ["usage"; "cost"] (value_of t); get_path ["_hidden_params"; "response_cost"] (value_of t)])
    with (map (λ p, get_path p (value_of t)) COST_PATHS).
  induction COST_PATHS as [|p ps IH]; [done|]. cbn [map omap list_omap].
  rewrite <- (cost_at_path p t Hok Hs). destruct (cost_at p t); by rewrite IH.
Qed.

(** On the body of a response that is a JSON object, however it is
    written, repeated members included, the streaming observer and the reader
    of a buffered body find the same cost. *)
Theorem readers_agree b e members a chunks :
  ws_ok b = true → ws_ok a = true → text_ok (XObject e members) = true →
  (depth (XObject e members) ≤ 128)%nat → numbers_short (XObject e members) = true →
  str_join chunks = b +:+ render (XObject e members) +:+ a →
  from_slice (str_join chunks) = Some (value_of (XObject e members)) →
  observed_cost <$> observe serde_number parse_f64 serde_string chunks
  = Some (extract_estimated_cost_usd from_slice pointer (str_join chunks)).
Proof using serde_string_decodes serde_string_len number_of_value pointer_members.
  intros Hb Ha Hok Hd Hn Hj Hp. unfold observe. rewrite feed_chunks_join, Hj, document_run by done.
  rewrite <- Hj. unfold extract_estimated_cost_usd. rewrite Hp. cbn [mbind option_bind].
  by rewrite cost_of_tree.
Qed.
End agreement.

(** A number kept as the integer its digits denote. *)
Definition integer_of (n : number) : Number := PosInt (digits_value (render_number n) 0).
Definition two_level (v : Value) (p : string) : option Value :=
  match split_on "/" p with [_; a; b] => get_path [a; b] v | _ => None end.
Lemma two_level_members v a b :
  a ∈ ["usage"; "_hidden_params"] → b ∈ ["estimated_cost"; "total_cost"; "cost"; "response_cost"] →
  two_level v ("/" +:+ a +:+ "/" +:+ b) = get_path [a; b] v.
Proof.
  intros Ha Hb. repeat (apply elem_of_cons in Ha as [->|Ha]); try (by apply not_elem_of_nil in Ha).
  all: repeat (apply elem_of_cons in Hb as [->|Hb]); try (by apply not_elem_of_nil in Hb); done.
Qed.

Lemma readers_agree_witness :
  observed_cost <$> observe digit_number digit_number unquote [render sample]
  = Some (extract_estimated_cost_usd (λ _, Some (value_of unquote integer_of sample)) two_level
            (str_join [render sample])).
Proof.
  apply (readers_agree digit_number digit_number unquote integer_of (λ l _, unquote_decodes l)
           (λ n, eq_refl) unquote_len (λ _, Some (value_of unquote integer_of sample)) two_level
           two_level_members "" "" sample_members "").
  - done.
  - done.
  - vm_compute. done.
  - vm_compute. lia.
  - vm_compute. done.
  - vm_compute. done.
  - done.
Defined.

Record PricingContext := {
  route_match : option RouteMatch;
  ctx_access : EndpointAccess;
  socket : bool;
  litellm_passthrough : bool;
  service_cost_mode : option ServiceCostMode;
  service_estimated_cost_usd : option f64;
  service_pricing_rules : list ServicePricingRule;
  http_method : option string;
  endpoint_path : option string;
  endpoint_template : option string;
  resolved_endpoint_cost : option ResolvedServiceCost;
  resolved_service_cost : option ResolvedServiceCost;
  response_cost_observer : ResponseCostObserver;
  response_body_prefix : string
}.

Record ResolvedUsageCost := {
  uc_estimated_cost_usd : option f64;
  uc_cost_source : option string;
  uc_cost_mode : option ServiceCostMode;
  uc_pricing_rule_name : option string
}.

Definition set_match_cost (cost : option f64) (m : RouteMatch) : RouteMatch :=
  {| rm_route := rm_route m; rm_backend := rm_backend m; rm_provider := rm_provider m;
     rm_service_name := rm_service_name m; rm_timeout_ms := rm_timeout_ms m;
     rm_max_body_bytes := rm_max_body_bytes m; rm_max_response_body_bytes := rm_max_response_body_bytes m;
     rm_estimated_cost_usd := cost |}.
Definition set_costs_of (m : RouteMatch) (cost : option f64) (resolved : ResolvedServiceCost)
    (ctx : PricingContext) : PricingContext :=
  {| route_match := Some (set_match_cost cost m); ctx_access := ctx_access ctx; socket := socket ctx;
     litellm_passthrough := litellm_passthrough ctx; service_cost_mode := service_cost_mode ctx;
     service_estimated_cost_usd := service_estimated_cost_usd ctx;
     service_pricing_rules := service_pricing_rules ctx; http_method := http_method ctx;
     endpoint_path := endpoint_path ctx; endpoint_template := endpoint_template ctx;
     resolved_endpoint_cost := resolved_endpoint_cost ctx; resolved_service_cost := Some resolved;
     response_cost_observer := response_cost_observer ctx;
     response_body_prefix := response_body_prefix ctx |}.

(** The price before the body is considered. *)
Definition base_cost (ctx : PricingContext) : ResolvedServiceCost :=
  default (default_service_cost (default CostNone (service_cost_mode ctx)) (service_estimated_cost_usd ctx))
    (resolved_endpoint_cost ctx).
(** A rule that makes the endpoint free is final. *)
Definition free_endpoint (ctx : PricingContext) : bool :=
  is_some (resolved_endpoint_cost ctx) && bool_decide (rc_cost_mode (base_cost ctx) = CostNone).

Definition is_internal (m : RouteMatch) : bool :=
  match rm_provider m with InternalService => true | _ => false end.

Definition prepare_service_cost_for_ctx (ctx : PricingContext) : PricingContext :=
  match route_match ctx with
  | None => ctx
  | Some matched =>
      if negb (is_internal matched) then ctx
      else
        let base := base_cost ctx in
        if free_endpoint ctx then set_costs_of matched None base ctx
        else
          set_costs_of matched
            (service_preflight_estimated_cost (rc_cost_mode base) (rc_estimated_cost_usd base)
               (service_pricing_rules ctx)) base ctx
  end.

Section pipeline.
Variable from_slice : string → option Value.
Variable pointer : Value → string → option Value.
Variable value_to_string : Value → string.
Variable sha256_hex : string → string.
Variable method_parses : string → bool.

Abbreviation resolve_from_value := (resolve_service_cost_from_value pointer value_to_string sha256_hex).
Abbreviation matching_rule := (matching_service_pricing_rule pointer).
Abbreviation resolve_endpoint := (resolve_endpoint_pricing_rule value_to_string sha256_hex).
Abbreviation reprice := (reprice_recorded_service_cost value_to_string sha256_hex method_parses).

(** The price of a request whose body has been read ([None]: it selects nothing). *)
Definition resolved_for (ctx : PricingContext) (selector : option Value) : ResolvedServiceCost :=
  let base := base_cost ctx in
  match selector with
  | None => base
  | Some value =>
      let resolved := resolve_from_value value (rc_cost_mode base) (rc_estimated_cost_usd base)
                        (service_pricing_rules ctx) in
      if is_some (matching_rule value (service_pricing_rules ctx)) then resolved
      else {| rc_fingerprint := rc_fingerprint base; rc_cost_mode := rc_cost_mode resolved;
              rc_estimated_cost_usd := rc_estimated_cost_usd resolved; rc_rule_name := rc_rule_name base |}
  end.

Definition resolve_service_cost_for_ctx (ctx : PricingContext) (selector : option Value) : PricingContext :=
  match route_match ctx with
  | None => ctx
  | Some matched =>
      if negb (is_internal matched) then ctx
      else if free_endpoint ctx then set_costs_of matched None (base_cost ctx) ctx
      else
        let resolved := resolved_for ctx selector in
        set_costs_of matched
          (match rc_cost_mode resolved with
           | CostFixed => rc_estimated_cost_usd resolved
           | CostPassthrough | CostNone => None
           end) resolved ctx
  end.

Definition configure_service_pricing_context (ctx : PricingContext) (registration : ServiceRegistration)
    (method public_path : string) : PricingContext :=
  let path := default public_path (route_pattern_wildcard_suffix public_path (service_route_pattern registration)) in
  {| route_match := route_match ctx; ctx_access := ctx_access ctx; socket := socket ctx;
     litellm_passthrough := litellm_passthrough ctx;
     service_cost_mode := Some (cost_mode registration);
     service_estimated_cost_usd := estimated_cost_usd registration;
     service_pricing_rules := pricing_rules registration;
     http_method := Some (to_ascii_uppercase method);
     endpoint_path := Some path;
     endpoint_template :=
       endpoint_path_template <$> matching_openapi_endpoint method path (openapi_endpoints registration);
     resolved_endpoint_cost := resolve_endpoint method path (endpoint_pricing_rules registration);
     resolved_service_cost := resolved_service_cost ctx;
     response_cost_observer := response_cost_observer ctx;
     response_body_prefix := response_body_prefix ctx |}.

(** ** The recorded cost *)

Definition resolved_usage_cost (ctx : PricingContext) : ResolvedUsageCost :=
  if socket ctx || litellm_passthrough ctx || is_some (accessa (ctx_access ctx)) then
    {| uc_estimated_cost_usd := None; uc_cost_source := Some "none"; uc_cost_mode := Some CostNone;
       uc_pricing_rule_name := None |}
  else
    match resolved_service_cost ctx with
    | Some service_cost =>
        let from_rule := is_some (rc_rule_name service_cost) in
        match rc_cost_mode service_cost with
        | CostNone =>
            {| uc_estimated_cost_usd := None; uc_cost_source := Some "none";
               uc_cost_mode := Some CostNone; uc_pricing_rule_name := rc_rule_name service_cost |}
        | CostFixed =>
            {| uc_estimated_cost_usd := rc_estimated_cost_usd service_cost;
               uc_cost_source := Some (if from_rule then "service_pricing_rule_fixed"
                                       else "service_default_fixed");
               uc_cost_mode := Some CostFixed; uc_pricing_rule_name := rc_rule_name service_cost |}
        | CostPassthrough =>
            let upstream_cost :=
              if has_input (response_cost_observer ctx) then observed_cost (response_cost_observer ctx)
              else extract_estimated_cost_usd from_slice pointer (response_body_prefix ctx) in
            {| uc_estimated_cost_usd := upstream_cost;
               uc_cost_source :=
                 Some (if is_some upstream_cost
                       then if from_rule then "service_pricing_rule_passthrough"
                            else "service_default_passthrough"
                       else "missing_upstream_cost");
               uc_cost_mode := Some CostPassthrough; uc_pricing_rule_name := rc_rule_name service_cost |}
        end
    | None =>
        match extract_estimated_cost_usd from_slice pointer (response_body_prefix ctx) with
        | Some upstream_cost =>
            {| uc_estimated_cost_usd := Some upstream_cost; uc_cost_source := Some "upstream_passthrough";
               uc_cost_mode := None; uc_pricing_rule_name := None |}
        | None =>
            let route_cost := route_match ctx ≫= rm_estimated_cost_usd in
            {| uc_estimated_cost_usd := route_cost;
               uc_cost_source := (λ _, "route_default") <$> route_cost;
               uc_cost_mode := None; uc_pricing_rule_name := None |}
        end
    end.

(** The cost columns of a usage record. *)
Record UsageRecord := {
  ur_cost : option f64;
  ur_usage : ResolvedUsageCost;
  ur_fingerprint : option string;
  ur_method : option string;
  ur_path : option string;
  ur_routing_mode : option string
}.
Definition usage_record (ctx : PricingContext) (cost : option f64) (routing_mode : option string) : UsageRecord :=
  {| ur_cost := cost; ur_usage := resolved_usage_cost ctx;
     ur_fingerprint := resolved_service_cost ctx ≫= rc_fingerprint;
     ur_method := http_method ctx; ur_path := endpoint_path ctx; ur_routing_mode := routing_mode |}.
(** [logging] for a request that ran, and [record_terminal_usage] for one that was refused. *)
Definition logged_usage (ctx : PricingContext) (budget_reserved guardrail_error : bool)
    (routing_mode : option string) : UsageRecord :=
  usage_record ctx
    (if negb budget_reserved && guardrail_error then None
     else uc_estimated_cost_usd (resolved_usage_cost ctx)) routing_mode.
Definition record_terminal_usage (ctx : PricingContext) (routing_mode : option string) : UsageRecord :=
  usage_record ctx None routing_mode.

(** The decision of [reprice_service_usage_in_tx] for one record. *)
Definition reprice_record (before after : ServiceRegistration) (r : UsageRecord) :
    option ResolvedServiceCost :=
  let u := ur_usage r in
  let resolved :=
    match uc_cost_mode u with
    | Some CostFixed | Some CostNone =>
        reprice before after (uc_cost_source u) (uc_pricing_rule_name u) (ur_method r) (ur_path r)
          (ur_fingerprint r)
    | _ => None
    end in
  opt_filter (λ _, negb (bool_decide (ur_routing_mode r = Some "litellm_passthrough"))) resolved.

(** ** Properties *)

(** [Fixed] prices that passed validation bound what [resolve] charges. *)
Lemma prepared_covers ctx m selector c :
  route_match ctx = Some m → is_internal m = true →
  is_some_and f64_is_nan (rc_estimated_cost_usd (base_cost ctx)) = false →
  Forall (λ r, is_some_and f64_is_nan (rule_estimated_cost_usd r) = false) (service_pricing_rules ctx) →
  route_match (resolve_service_cost_for_ctx ctx selector) ≫= rm_estimated_cost_usd = Some c →
  ∃ b, route_match (prepare_service_cost_for_ctx ctx) ≫= rm_estimated_cost_usd = Some b ∧ f64_leb c b = true.
Proof.
  intros Hm Hi Hb Hr. unfold resolve_service_cost_for_ctx, prepare_service_cost_for_ctx. rewrite Hm, Hi.
  cbn [negb]. destruct (free_endpoint ctx); [done|]. cbn [set_costs_of route_match mbind option_bind set_match_cost
    rm_estimated_cost_usd]. intros E. apply preflight_bounds; [done|done|].
  unfold resolved_for, resolve_service_cost_from_value in E.
  destruct selector as [value|]; [|destruct (rc_cost_mode (base_cost ctx)); try discriminate E; by left].
  destruct (matching_rule value (service_pricing_rules ctx)) as [rule|] eqn:Er; cbn in E.
  - right. exists rule. apply find_some in Er as [Hin%list_elem_of_In _].
    destruct (rule_cost_mode rule); try discriminate E; done.
  - left. destruct (rc_cost_mode (base_cost ctx)); try discriminate E; done.
Qed.

Lemma matching_endpoint_rule_in method path rules r :
  matching_endpoint_rule method path rules = Some r → r ∈ rules.
Proof. intros [Hin _]%max_by_key_Some. by apply elem_of_applying in Hin as [? _]. Qed.

Variable f64_to_string : f64 → string.

(** The prices of a registered service have passed validation. *)
Definition prices_valid (s : ServiceRegistration) : Prop :=
  validate_cost f64_to_string (cost_mode s) (estimated_cost_usd s) = Ok tt ∧
  validate_pricing_rules f64_to_string (pricing_rules s) = Ok tt ∧
  validate_endpoint_pricing_rules method_parses f64_to_string (endpoint_pricing_rules s) = Ok tt.

Lemma endpoint_rule_number s r :
  prices_valid s → r ∈ endpoint_pricing_rules s →
  is_some_and f64_is_nan (ep_estimated_cost_usd r) = false.
Proof.
  intros (_ & _ & H) Hin. unfold validate_endpoint_pricing_rules in H. result_cases.
  assert (Hall : Forall (λ r, is_some_and f64_is_nan (ep_estimated_cost_usd r) = false) (endpoint_pricing_rules s)).
  { eapply try_fold_each; [|exact Heqr0]. intros seen x seen' E.
    unfold validate_endpoint_pricing_rule in E. result_cases.
    destruct (ep_estimated_cost_usd x); [|done]. repeat match goal with u : unit |- _ => destruct u end.
    by eapply validate_cost_number. }
  rewrite Forall_forall in Hall. by apply Hall.
Qed.

Lemma configured_base_number ctx s method path :
  prices_valid s →
  is_some_and f64_is_nan (rc_estimated_cost_usd (base_cost (configure_service_pricing_context ctx s method path))) = false.
Proof.
  intros Hs. unfold base_cost. cbn [configure_service_pricing_context resolved_endpoint_cost service_cost_mode
    service_estimated_cost_usd]. unfold resolve_endpoint_pricing_rule.
  destruct (matching_endpoint_rule _ _ _) as [r|] eqn:E; cbn.
  - apply matching_endpoint_rule_in in E. by eapply endpoint_rule_number.
  - destruct Hs as (Hc & _). destruct (estimated_cost_usd s); [|done]. by eapply validate_cost_number.
Qed.

(** For a service whose prices passed validation, the cost bound that is
    set before the body is read is at least the price the request ends up
    with, whatever its body selects. *)
Theorem preflight_covers_price ctx s method path m selector c :
  prices_valid s → route_match ctx = Some m → is_internal m = true →
  let ctx := configure_service_pricing_context ctx s method path in
  route_match (resolve_service_cost_for_ctx ctx selector) ≫= rm_estimated_cost_usd = Some c →
  ∃ b, route_match (prepare_service_cost_for_ctx ctx) ≫= rm_estimated_cost_usd = Some b ∧ f64_leb c b = true.
Proof.
  intros Hs Hm Hi. cbv zeta. apply (prepared_covers _ m); [done|done|by apply configured_base_number|].
  destruct Hs as (_ & Hr & _). by eapply validated_rules_numbers.
Qed.

(** ** Repricing without a change *)

(** The endpoint rule found again from the recorded method and path. *)
Lemma recorded_endpoint method path rules :
  resolve_endpoint (to_ascii_uppercase method) path rules = resolve_endpoint method path rules.
Proof.
  unfold resolve_endpoint_pricing_rule, matching_endpoint_rule. do 3 f_equal.
  induction rules as [|r rules IH]; [done|]. cbn [List.filter]. by rewrite ignore_case_upper_r, IH.
Qed.

(** Where the price of a request can come from. *)
Lemma resolved_origin ctx selector :
  let R := if free_endpoint ctx then base_cost ctx else resolved_for ctx selector in
  R = base_cost ctx ∨
  (∃ rule, rule ∈ service_pricing_rules ctx ∧ R = body_cost value_to_string sha256_hex rule ∧
           free_endpoint ctx = false).
Proof.
  cbv zeta. destruct (free_endpoint ctx); [by left|]. unfold resolved_for, resolve_service_cost_from_value.
  destruct selector as [value|]; [|by left].
  destruct (matching_rule value (service_pricing_rules ctx)) as [rule|] eqn:E; cbn [is_some].
  - right. exists rule. apply find_some in E as [Hin%list_elem_of_In _]. done.
  - left. cbn. by destruct (base_cost ctx).
Qed.

Lemma reprice_same s method path src R r :
  let E := resolve_endpoint method path (endpoint_pricing_rules s) in
  let base := default (default_service_cost (cost_mode s) (estimated_cost_usd s)) E in
  R = base ∨ (∃ rule, rule ∈ pricing_rules s ∧ R = body_cost value_to_string sha256_hex rule ∧
              is_some E && bool_decide (rc_cost_mode base = CostNone) = false) →
  reprice s s src (rc_rule_name R) (Some (to_ascii_uppercase method)) (Some path) (rc_fingerprint R) = Some r →
  repriced R = Some r.
Proof.
  intros E base HR. unfold reprice_recorded_service_cost.
  destruct (is_some (accessa (access s)) || _); [done|]. cbv zeta.
  set (ec := if method_parses (to_ascii_uppercase method) then Some (to_ascii_uppercase method, path) else None).
  destruct (is_none ec && _) eqn:Hec; [done|].
  assert ((ec ≫= λ '(m, p), resolve_endpoint m p (endpoint_pricing_rules s)) = E) as ->.
  { unfold ec in *. destruct (method_parses _); cbn; [apply recorded_endpoint|].
    cbn in Hec. apply orb_false_iff in Hec as [Hnil _]. unfold E.
    by destruct (endpoint_pricing_rules s). }
  fold base. destruct HR as [-> |(rule & Hin & -> & Hfree)].
  - destruct E as [e|] eqn:Ee.
    + unfold E, resolve_endpoint_pricing_rule in Ee.
      destruct (matching_endpoint_rule _ _ _) as [er|]; [|done]. injection Ee as <-.
      cbn [default base id endpoint_cost rc_rule_name rc_fingerprint is_some_and is_some mbind option_bind].
      rewrite !bool_decide_eq_true_2 by done. cbn [andb].
      by destruct (List.filter _ _) as [|? [|]].
    + cbn [default base id default_service_cost rc_rule_name rc_fingerprint is_some orb].
      rewrite orb_false_r. by destruct (existsb _ _).
  - cbn [body_cost rc_rule_name rc_fingerprint is_some].
    destruct (rule_name rule) as [n|] eqn:En; [|done].
    assert (Hf : rule ∈ List.filter (named n) (pricing_rules s)).
    { apply list_elem_of_In, filter_In. split; [by apply list_elem_of_In|]. unfold named.
      by apply bool_decide_eq_true. }
    destruct (List.filter (named n) (pricing_rules s)) as [|x [|]]; [by apply not_elem_of_nil in Hf| |done].
    apply list_elem_of_singleton in Hf as <-.
    destruct (is_some_and _ E); [done|]. rewrite bool_decide_eq_true_2 by done. cbn [negb].
    rewrite !String.eqb_refl. cbn [negb orb]. rewrite andb_comm, Hfree. done.
Qed.

(** Repricing recorded usage under an unchanged configuration changes no
    charge: for a request that ran, whatever its body selected, the record is
    either left alone or given the cost, mode, rule and fingerprint it has. *)
Theorem reprice_unchanged ctx s method path m selector mode r :
  socket ctx = false → litellm_passthrough ctx = false → accessa (ctx_access ctx) = None →
  route_match ctx = Some m → is_internal m = true →
  let ctx := resolve_service_cost_for_ctx (configure_service_pricing_context ctx s method path) selector in
  let record := logged_usage ctx true false mode in
  reprice_record s s record = Some r →
  rc_estimated_cost_usd r = ur_cost record ∧
  Some (rc_cost_mode r) = uc_cost_mode (ur_usage record) ∧
  rc_rule_name r = uc_pricing_rule_name (ur_usage record) ∧
  rc_fingerprint r = ur_fingerprint record.
Proof.
  intros Hso Hl Ha Hm Hi. cbv zeta. set (ctx1 := configure_service_pricing_context ctx s method path).
  set (R := if free_endpoint ctx1 then base_cost ctx1 else resolved_for ctx1 selector).
  assert (Hctx : ∃ cost, resolve_service_cost_for_ctx ctx1 selector = set_costs_of m cost R ctx1).
  { unfold resolve_service_cost_for_ctx. cbn [ctx1 configure_service_pricing_context route_match].
    rewrite Hm, Hi. cbn [negb]. fold ctx1. unfold R. destruct (free_endpoint ctx1); eauto. }
  destruct Hctx as [cost ->]. pose proof (resolved_origin ctx1 selector) as HR. fold R in HR.
  unfold reprice_record, logged_usage, usage_record. cbn [ur_usage ur_cost ur_fingerprint ur_method ur_path
    ur_routing_mode set_costs_of resolved_service_cost http_method endpoint_path mbind option_bind].
  unfold resolved_usage_cost. cbn [set_costs_of socket litellm_passthrough ctx_access resolved_service_cost].
  cbn [ctx1 configure_service_pricing_context socket litellm_passthrough ctx_access http_method endpoint_path].
  rewrite Hso, Hl, Ha. cbn [orb is_some negb andb].
  intros H. assert (Hrep : repriced R = Some r).
  { destruct (rc_cost_mode R); cbn [uc_cost_mode uc_cost_source uc_pricing_rule_name] in H; try done.
    all: destruct (reprice _ _ _ _ _ _ _) as [r'|] eqn:Er; [|done]; cbn in H;
      destruct (bool_decide _); [done|]; injection H as ->;
      (eapply reprice_same; [|exact Er]); exact HR. }
  unfold repriced in Hrep. destruct (rc_cost_mode R) eqn:Emode; try done.
  - destruct (is_some_and _ _); [|done]. injection Hrep as <-. cbn. by rewrite Emode.
  - injection Hrep as <-. done.
Qed.
End pipeline.

(** ** Instances *)

Definition open_access : EndpointAccess :=
  {| authentication_profiles := None; skip_entra := false; entra := None; accessa := None;
     websocket := None; user_token_forwarding := None |}.
Definition sample_service : ServiceRegistration :=
  {| foundry := None; access := open_access; name := "ocr"; project_id := None; studio_service_id := None;
     service_route_pattern := "/services/ocr/*"; upstream_base_url := Some "https://ocr.internal";
     health_check_path := None; health_check_method := "GET"; enabled := true;
     allowed_methods := ["POST"]; timeout_ms := 60000; max_body_bytes := 2097152;
     cost_mode := CostFixed; estimated_cost_usd := Some (f64_of_Z 2);
     pricing_rules := [{| rule_name := Some "large"; json_pointer := "/size"; equals := "large";
                          rule_cost_mode := CostFixed; rule_estimated_cost_usd := Some (f64_of_Z 5) |}];
     openapi_source_path := None; openapi_schema_hash := None; openapi_synced_at := None;
     openapi_endpoints := []; endpoint_pricing_rules := []; credential_secret := Some "secret";
     fallback_services := []; source := SourceGateway; sync_status := SyncLocal; last_synced_at := None;
     disabled_at := None; created_at := 0; updated_at := 0 |}.
Definition sample_match : RouteMatch := route_match_service ServiceWildcard "ocr".
Definition sample_context (socket : bool) : PricingContext :=
  {| route_match := Some sample_match; ctx_access := open_access; socket := socket;
     litellm_passthrough := false; service_cost_mode := None; service_estimated_cost_usd := None;
     service_pricing_rules := []; http_method := None; endpoint_path := None; endpoint_template := None;
     resolved_endpoint_cost := None; resolved_service_cost := None;
     response_cost_observer := observer_default; response_body_prefix := "" |}.
Definition large_body : Value := JObject [("size", JString "large")].
Definition size_pointer (v : Value) (p : string) : option Value :=
  if String.eqb p "/size" then value_get "size" v else None.
Definition any_text (v : Value) : string := match v with JArray (JString s :: _) => s | _ => "" end.

Definition prices_text (_ : f64) : string := "2".

Lemma preflight_covers_price_witness :
  ∃ b, route_match (prepare_service_cost_for_ctx
         (configure_service_pricing_context any_text id (sample_context false) sample_service "POST"
            "/services/ocr/run")) ≫= rm_estimated_cost_usd = Some b ∧ f64_leb (f64_of_Z 5) b = true.
Proof.
  apply (preflight_covers_price size_pointer any_text id (λ _, true) prices_text (sample_context false) sample_service
           "POST" "/services/ocr/run" sample_match (Some large_body)).
  - split; [|split]; vm_compute; reflexivity.
  - reflexivity.
  - reflexivity.
  - vm_compute. reflexivity.
Defined.

Lemma reprice_unchanged_witness :
  ∃ r, reprice_record any_text id (λ _, true) sample_service sample_service
         (logged_usage (λ _, None) size_pointer
            (resolve_service_cost_for_ctx size_pointer any_text id
               (configure_service_pricing_context any_text id (sample_context false) sample_service "POST"
                  "/services/ocr/run") (Some large_body)) true false None) = Some r ∧
       rc_estimated_cost_usd r = Some (f64_of_Z 5) ∧ rc_rule_name r = Some "large".
Proof.
  eexists. split; [vm_compute; reflexivity|].
  destruct (reprice_unchanged (λ _, None) size_pointer any_text id (λ _, true) (sample_context false)
              sample_service "POST" "/services/ocr/run" sample_match (Some large_body) None _
              eq_refl eq_refl eq_refl eq_refl eq_refl eq_refl) as (Hc & _ & Hn & _).
  split; [etransitivity; [exact Hc|vm_compute; reflexivity]|etransitivity; [exact Hn|vm_compute; reflexivity]].
Defined.

(** A refused request is recorded without a cost, yet repricing under the
    same configuration gives it the price of the service: the record carries
    the source of the price it was not charged. *)
Theorem refused_usage_repriced :
  let ctx := resolve_service_cost_for_ctx size_pointer any_text id
               (configure_service_pricing_context any_text id (sample_context false) sample_service "POST"
                  "/services/ocr/run") None in
  let record := record_terminal_usage (λ _, None) size_pointer ctx None in
  ur_cost record = None ∧
  rc_estimated_cost_usd <$> reprice_record any_text id (λ _, true) sample_service sample_service record
  = Some (Some (f64_of_Z 2)).
Proof. by vm_compute. Qed.

(** A WebSocket session, which is never charged, is recorded like a request
    to a free service and then repriced as one to the priced service. *)
Theorem websocket_usage_repriced :
  let ctx := configure_service_pricing_context any_text id (sample_context true) sample_service "GET"
               "/services/ocr/run" in
  let record := logged_usage (λ _, None) size_pointer ctx true false None in
  ur_cost record = None ∧
  rc_estimated_cost_usd <$> reprice_record any_text id (λ _, true) sample_service sample_service record
  = Some (Some (f64_of_Z 2)).
Proof. by vm_compute. Qed.
