(* ===== verification/SocketFrames.v ===== *)
(** * WebSocket frames

    Models [FrameLimit] of [crates/gateway-proxy/src/accessa_transport.rs]: a
    scanner that reads the headers of WebSocket frames out of a byte stream cut
    at arbitrary places, skips the payloads, and refuses frames and fragmented
    messages above a limit.  Bytes are [ascii]; [u64] arithmetic that cannot
    overflow is exact, the shift that accumulates a length is written out. *)

From S2P Require Import Prelude Errors.

Record FrameLimit := {
  frames : Z;
  close_seen : bool;
  header : list ascii;
  remaining : Z;
  message_bytes : Z;
  fragmented : bool;
  max : Z;
  masked : bool
}.
Definition frame_limit_new (max : Z) (masked : bool) : FrameLimit :=
  {| frames := 0; close_seen := false; header := []; remaining := 0; message_bytes := 0;
     fragmented := false; max := max; masked := masked |}.

Definition set_remaining (r : Z) (s : FrameLimit) : FrameLimit :=
  {| frames := frames s; close_seen := close_seen s; header := header s; remaining := r;
     message_bytes := message_bytes s; fragmented := fragmented s; max := max s; masked := masked s |}.
Definition set_header (h : list ascii) (s : FrameLimit) : FrameLimit :=
  {| frames := frames s; close_seen := close_seen s; header := h; remaining := remaining s;
     message_bytes := message_bytes s; fragmented := fragmented s; max := max s; masked := masked s |}.

Definition byte_at (h : list ascii) (i : nat) : Z := match h !! i with Some c => byte_val c | None => 0 end.

(** How many bytes of extended length follow the marker. *)
Definition extended_len (marker : Z) : nat :=
  if marker =? 126 then 2%nat else if marker =? 127 then 8%nat else 0%nat.
(** [size = (size << 8) | byte] on [u64]. *)
Definition push_byte (size : Z) (c : ascii) : Z := Z.lor (Z.shiftl size 8 mod 2 ^ 64) (byte_val c).

(** A complete header: the state after it, or why it is refused. *)
Definition end_header (s : FrameLimit) : GatewayResult FrameLimit :=
  let h := header s in
  let marker := Z.land (byte_at h 1) 127 in
  let extended := extended_len marker in
  let size := foldl push_byte (if (extended =? 0)%nat then marker else 0) (take extended (drop 2 h)) in
  let opcode := Z.land (byte_at h 0) 15 in
  let fin := negb (Z.land (byte_at h 0) 128 =? 0) in
  let invalid :=
    negb (Z.land (byte_at h 0) 112 =? 0)
    || negb (Bool.eqb (negb (Z.land (byte_at h 1) 128 =? 0)) (masked s))
    || (max s <? size) || (i64_max <? size)
    || ((marker =? 126) && (size <? 126)) || ((marker =? 127) && (size <=? 65535)) in
  if invalid then Err RequestBodyTooLarge
  else
    let? message :=
      if (opcode =? 0) && fragmented s then Ok (saturating_add (message_bytes s) size)
      else if ((opcode =? 1) || (opcode =? 2)) && negb (fragmented s) then Ok size
      else if in_range 8 10 opcode && fin && (size <=? 125) then Ok (message_bytes s)
      else Err InvalidServicePayload in
    if (opcode <? 8) && (max s <? message) then Err RequestBodyTooLarge
    else
      Ok {| frames := Z.min u64_max (frames s + 1);
            close_seen := close_seen s || (opcode =? 8);
            header := [];
            remaining := size;
            message_bytes := if (opcode <? 8) && fin then 0 else message;
            fragmented := if opcode <? 8 then negb fin else fragmented s;
            max := max s; masked := masked s |}.

(** One byte that belongs to a header. *)
Definition header_byte (s : FrameLimit) (c : ascii) : GatewayResult FrameLimit :=
  let s := set_header (header s ++ [c]) s in
  if (length (header s) <? 2)%nat then Ok s
  else
    let extended := extended_len (Z.land (byte_at (header s) 1) 127) in
    let header_len := (2 + extended + if masked s then 4 else 0)%nat in
    if (length (header s) <? header_len)%nat then Ok s else end_header s.

(** The loop of [feed]; [None] when the fuel runs out. *)
Fixpoint feed_loop (fuel : nat) (s : FrameLimit) (bytes : list ascii) : option (GatewayResult FrameLimit) :=
  match bytes with
  | [] => Some (Ok s)
  | c :: rest =>
      match fuel with
      | O => None
      | S fuel =>
          if negb (remaining s =? 0) then
            let skip := Z.min (remaining s) (Z.of_nat (length bytes)) in
            feed_loop fuel (set_remaining (remaining s - skip) s) (drop (Z.to_nat skip) bytes)
          else
            match header_byte s c with
            | Ok s => feed_loop fuel s rest
            | Err e => Some (Err e)
            end
      end
  end.
Definition feed (s : FrameLimit) (bytes : list ascii) : option (GatewayResult FrameLimit) :=
  feed_loop (length bytes) s bytes.
Fixpoint feed_chunks (s : FrameLimit) (chunks : list (list ascii)) : option (GatewayResult FrameLimit) :=
  match chunks with
  | [] => Some (Ok s)
  | c :: chunks =>
      match feed s c with
      | Some (Ok s) => feed_chunks s chunks
      | other => other
      end
  end.

(** ** One byte at a time *)

Definition step (s : FrameLimit) (c : ascii) : GatewayResult FrameLimit :=
  if negb (remaining s =? 0) then Ok (set_remaining (remaining s - 1) s) else header_byte s c.
Definition run (s : FrameLimit) (bytes : list ascii) : GatewayResult FrameLimit := try_fold step s bytes.

Lemma run_app s a b : run s (a ++ b) = let? s := run s a in run s b.
Proof.
  unfold run. revert s. induction a as [|c a IH]; intros s; [done|]. cbn [app try_fold].
  destruct (step s c) as [s'|]; [apply IH|done].
Qed.

(** Skipping [k] payload bytes at once is skipping them one by one. *)
Lemma run_skip s bytes k :
  0 ≤ k ≤ remaining s → k ≤ Z.of_nat (length bytes) →
  run s bytes = run (set_remaining (remaining s - k) s) (drop (Z.to_nat k) bytes).
Proof.
  intros [Hk Hr] Hl. assert (∃ n, k = Z.of_nat n) as [n ->] by (exists (Z.to_nat k); lia).
  rewrite Nat2Z.id. clear Hk. revert s bytes Hr Hl. induction n as [|n IH]; intros s bytes Hr Hl.
  - rewrite drop_0. f_equal. destruct s. unfold set_remaining. cbn. f_equal. lia.
  - destruct bytes as [|c bytes]; [cbn in Hl; lia|]. cbn [drop]. unfold run at 1. cbn [try_fold].
    unfold step. rewrite (proj2 (Z.eqb_neq (remaining s) 0)) by lia. cbn [negb].
    fold (run (set_remaining (remaining s - 1) s) bytes). rewrite IH by (cbn [set_remaining remaining length] in *; lia).
    f_equal. unfold set_remaining. cbn. f_equal. lia.
Qed.

Definition frame_state_ok (s : FrameLimit) : Prop := 0 ≤ remaining s.

Lemma push_byte_nonneg x c : 0 ≤ x → 0 ≤ push_byte x c.
Proof.
  intros Hx. unfold push_byte. apply Z.lor_nonneg. split.
  - pose proof (Z.mod_pos_bound (Z.shiftl x 8) (2 ^ 64)). lia.
  - unfold byte_val. lia.
Qed.
Lemma foldl_push_nonneg l x : 0 ≤ x → 0 ≤ foldl push_byte x l.
Proof. revert x. induction l as [|c l IH]; intros x Hx; [done|]. apply IH. by apply push_byte_nonneg. Qed.
Lemma header_size_nonneg h :
  let marker := Z.land (byte_at h 1) 127 in
  0 ≤ foldl push_byte (if (extended_len marker =? 0)%nat then marker else 0) (take (extended_len marker) (drop 2 h)).
Proof.
  cbv zeta. apply foldl_push_nonneg. destruct (_ =? 0)%nat; [|done]. apply Z.land_nonneg. right. done.
Qed.

Lemma end_header_remaining s s' : end_header s = Ok s' → 0 ≤ remaining s'.
Proof.
  unfold end_header. cbv zeta. intros H. repeat (result_step; try discriminate). all: subst; cbn; apply header_size_nonneg.
Qed.
Lemma step_ok s c s' : frame_state_ok s → step s c = Ok s' → frame_state_ok s'.
Proof.
  unfold frame_state_ok, step, header_byte. intros Hr H. destruct (Z.eqb_spec (remaining s) 0) as [E|E]; cbn [negb] in H.
  - destruct (_ <? 2)%nat; [injection H as <-; cbn; lia|].
    destruct (_ <? _)%nat; [injection H as <-; cbn; lia|]. by eapply end_header_remaining.
  - injection H as <-. cbn. lia.
Qed.

Lemma feed_loop_run fuel s bytes :
  frame_state_ok s → (length bytes ≤ fuel)%nat → feed_loop fuel s bytes = Some (run s bytes).
Proof.
  revert s bytes. induction fuel as [|fuel IH]; intros s bytes Hs Hf.
  - destruct bytes; [done|cbn in Hf; lia].
  - destruct bytes as [|c bytes]; [done|]. cbn [feed_loop].
    destruct (Z.eqb_spec (remaining s) 0) as [E|E]; cbn [negb].
    + unfold run. cbn [try_fold]. unfold step at 1. rewrite E. cbn [Z.eqb negb].
      destruct (header_byte s c) as [s'|e] eqn:Eh; [|done]. apply IH; [|cbn in Hf; lia].
      apply (step_ok s c); [done|]. unfold step. by rewrite E.
    + unfold frame_state_ok in Hs. set (k := Z.min (remaining s) (Z.of_nat (length (c :: bytes)))).
      rewrite (run_skip s (c :: bytes) k) by lia. apply IH.
      * unfold frame_state_ok. cbn. lia.
      * rewrite length_drop. cbn [length] in *. lia.
Qed.

(** C38: Reading a chunk always ends, within as many rounds as the chunk has
    bytes, and its outcome is that of reading the bytes one at a time. *)
Theorem feed_terminates s bytes :
  frame_state_ok s →
  feed s bytes = Some (run s bytes) ∧
  ∀ fuel, (length bytes ≤ fuel)%nat → feed_loop fuel s bytes = feed s bytes.
Proof.
  intros Hs. unfold feed. split; [by apply feed_loop_run|]. intros fuel Hf. by rewrite !feed_loop_run.
Qed.

Lemma feed_terminates_witness :
  feed (frame_limit_new 10 false) ["129"; "001"; "x"]%char
  = Some (run (frame_limit_new 10 false) ["129"; "001"; "x"]%char).
Proof.
  destruct (feed_terminates (frame_limit_new 10 false) ["129"; "001"; "x"]%char) as [E _]; [|exact E].
  unfold frame_state_ok. cbn. lia.
Defined.

Lemma run_ok s bytes s' : frame_state_ok s → run s bytes = Ok s' → frame_state_ok s'.
Proof.
  unfold run. revert s. induction bytes as [|c bytes IH]; intros s Hs; cbn [try_fold]; [by intros [= <-]|].
  destruct (step s c) as [s1|] eqn:E; [|done]. apply IH. by eapply step_ok.
Qed.
Lemma feed_chunks_run s chunks :
  frame_state_ok s → feed_chunks s chunks = Some (run s (concat chunks)).
Proof.
  revert s. induction chunks as [|c chunks IH]; intros s Hs; [done|]. cbn [feed_chunks concat].
  unfold feed. rewrite feed_loop_run, run_app by done. destruct (run s c) as [s1|] eqn:E; [|done].
  apply IH. by eapply run_ok.
Qed.

(** ** Frames *)

(** A frame as RFC 6455 writes it: its first byte (final, reserved and opcode
    bits), the masking key and the payload. *)
Record frame := { f_first : ascii; f_key : list ascii; f_payload : list ascii }.

Definition byte_of (n : Z) : ascii := ascii_of_N (Z.to_N n).
Fixpoint be_bytes (k : nat) (n : Z) : list ascii :=
  match k with O => [] | S k => be_bytes k (n / 256) ++ [byte_of (n mod 256)] end.

Definition payload_len (f : frame) : Z := Z.of_nat (length (f_payload f)).
(** The shortest form of the length. *)
Definition length_marker (n : Z) : Z := if n <? 126 then n else if n <=? 65535 then 126 else 127.
Definition length_bytes (n : Z) : list ascii := be_bytes (extended_len (length_marker n)) n.
Definition encode_header (masked : bool) (f : frame) : list ascii :=
  f_first f :: byte_of (length_marker (payload_len f) + if masked then 128 else 0)
  :: length_bytes (payload_len f) ++ (if masked then f_key f else []).
Definition encode (masked : bool) (f : frame) : list ascii := encode_header masked f ++ f_payload f.
Definition encode_all (masked : bool) (fs : list frame) : list ascii := concat (map (encode masked) fs).

Definition frame_wf (masked : bool) (f : frame) : Prop :=
  (masked = true → length (f_key f) = 4%nat) ∧ payload_len f < 2 ^ 63.

(** *** The specification: one frame at a time *)

Definition final (f : frame) : bool := 128 <=? byte_val (f_first f).
Definition reserved (f : frame) : Z := (byte_val (f_first f) / 16) mod 8.
Definition opcode_of (f : frame) : Z := byte_val (f_first f) mod 16.

(** The message being sent in fragments, as the bytes it has so far. *)
Definition accept_frame (max : Z) (open : option Z) (f : frame) : GatewayResult (option Z) :=
  let n := payload_len f in
  let continue total := if max <? total then Err RequestBodyTooLarge
                        else Ok (if final f then None else Some total) in
  if negb (reserved f =? 0) || (max <? n) then Err RequestBodyTooLarge
  else if opcode_of f =? 0 then
    match open with Some total => continue (total + n) | None => Err InvalidServicePayload end
  else if (opcode_of f =? 1) || (opcode_of f =? 2) then
    match open with None => continue n | Some _ => Err InvalidServicePayload end
  else if in_range 8 10 (opcode_of f) && final f && (n <=? 125) then Ok open
  else Err InvalidServicePayload.

(** The scanner between two frames, [n] frames in. *)
Definition between (s : FrameLimit) (max : Z) (masked : bool) (open : option Z) (n : Z) (closed : bool) : Prop :=
  s = {| frames := Z.min u64_max n; close_seen := closed; header := []; remaining := 0;
         message_bytes := default 0 open; fragmented := is_some open;
         max := max; masked := masked |}.

(** *** Lengths *)

Lemma byte_val_of n : 0 ≤ n < 256 → byte_val (byte_of n) = n.
Proof. intros H. unfold byte_val, byte_of. rewrite N_ascii_embedding; lia. Qed.
Lemma byte_val_range c : 0 ≤ byte_val c < 256.
Proof. unfold byte_val. pose proof (N_ascii_bounded c). lia. Qed.

Lemma push_byte_exact x c : 0 ≤ x < 2 ^ 56 → push_byte x c = x * 256 + byte_val c.
Proof.
  intros Hx. pose proof (byte_val_range c). unfold push_byte. rewrite Z.shiftl_mul_pow2 by lia.
  rewrite Z.mod_small by lia. by rewrite lor_disjoint by lia.
Qed.
Lemma be_bytes_length k n : length (be_bytes k n) = k.
Proof. revert n. induction k as [|k IH]; intros n; [done|]. cbn. rewrite length_app, IH. cbn. lia. Qed.
Lemma be_bytes_value k n :
  0 ≤ n < 256 ^ Z.of_nat k → (k ≤ 8)%nat → foldl push_byte 0 (be_bytes k n) = n.
Proof.
  revert n. induction k as [|k IH]; intros n Hn Hk; [cbn in *; lia|]. cbn [be_bytes].
  rewrite foldl_app. cbn [foldl]. replace (Z.of_nat (S k)) with (Z.of_nat k + 1) in Hn by lia.
  rewrite Z.pow_add_r in Hn by lia. pose proof (Z.div_mod n 256). pose proof (Z.mod_pos_bound n 256).
  assert (0 ≤ n / 256 < 256 ^ Z.of_nat k) by lia.
  rewrite IH by (done || lia). rewrite push_byte_exact, byte_val_of; [lia|lia|].
  split; [lia|]. eapply Z.lt_le_trans; [apply H1|]. change (2 ^ 56) with (256 ^ 7). apply Z.pow_le_mono_r; lia.
Qed.

(** *** Headers *)

Definition header_size (masked : bool) (h : list ascii) : nat :=
  (2 + extended_len (Z.land (byte_at h 1) 127) + if masked then 4 else 0)%nat.

Lemma set_header_twice h h' s : set_header h (set_header h' s) = set_header h s.
Proof. done. Qed.
Lemma set_header_id s : set_header (header s) s = s.
Proof. by destruct s. Qed.

(** Bytes that complete a header are collected, then judged together. *)
Lemma header_run s b :
  remaining s = 0 → b ≠ [] → length (header s ++ b) = header_size (masked s) (header s ++ b) →
  run s b = end_header (set_header (header s ++ b) s).
Proof.
  intros Hr Hb Hl. unfold run. remember (header s ++ b) as H eqn:EH. revert s Hr EH Hl.
  induction b as [|c b IH]; intros s Hr EH Hl; [done|]. cbn [try_fold].
  unfold step. rewrite Hr. cbn [Z.eqb negb]. unfold header_byte. cbn [set_header header masked].
  set (s1 := set_header (header s ++ [c]) s).
  assert (EH1 : H = header s1 ++ b) by (subst H; unfold s1; cbn; by rewrite <- app_assoc).
  assert (Hcont : b ≠ [] → try_fold step s1 b = end_header (set_header H s)).
  { intros Hne. rewrite (IH Hne s1) by done. by unfold s1; rewrite set_header_twice. }
  assert (Hlen : length H = (length (header s ++ [c]) + length b)%nat)
    by (rewrite EH1, length_app; done).
  destruct (length (header s ++ [c]) <? 2)%nat eqn:E2.
  - apply Nat.ltb_lt in E2. apply Hcont. intros ->. cbn in Hlen. unfold header_size in Hl. lia.
  - apply Nat.ltb_ge in E2.
    assert (Hat : byte_at (header s ++ [c]) 1 = byte_at H 1).
    { unfold byte_at. rewrite EH1. change (header s1) with (header s ++ [c]).
      by rewrite (lookup_app_l (header s ++ [c])) by lia. }
    rewrite Hat. fold (header_size (masked s) H).
    destruct (length (header s ++ [c]) <? header_size (masked s) H)%nat eqn:E3.
    + apply Nat.ltb_lt in E3. apply Hcont. intros ->. cbn in Hlen. lia.
    + apply Nat.ltb_ge in E3. destruct b as [|d b]; [|cbn in Hlen; lia].
      cbn [try_fold]. unfold s1. rewrite <- EH. by destruct (end_header _).
Qed.

Lemma length_marker_range n : 0 ≤ n → 0 ≤ length_marker n < 128.
Proof. intros Hn. unfold length_marker. destruct (Z.ltb_spec n 126); [lia|]. destruct (n <=? 65535); lia. Qed.
Lemma byte_bits c :
  let b := byte_val c in
  Z.land b 15 = b mod 16 ∧ Z.land b 127 = b mod 128 ∧ (Z.land b 128 =? 0) = negb (128 <=? b) ∧
  (Z.land b 112 =? 0) = ((b / 16) mod 8 =? 0).
Proof. by destruct c as [[][][][][][][][]]; vm_compute. Qed.

Section one_frame.
Variables (mk : bool) (f : frame).
Lemma payload_len_nonneg : 0 ≤ payload_len f.
Proof. unfold payload_len. lia. Qed.

Lemma second_byte :
  let b := byte_at (encode_header mk f) 1 in
  Z.land b 127 = length_marker (payload_len f) ∧ negb (Z.land b 128 =? 0) = mk.
Proof.
  cbv zeta. change (byte_at (encode_header mk f) 1)
    with (byte_val (byte_of (length_marker (payload_len f) + if mk then 128 else 0))).
  pose proof (length_marker_range _ payload_len_nonneg).
  destruct (byte_bits (byte_of (length_marker (payload_len f) + if mk then 128 else 0))) as (_ & H1 & H2 & _).
  rewrite H1, H2, byte_val_of by (destruct mk; lia). destruct mk.
  - rewrite (proj2 (Z.leb_le _ _)) by lia. split; [|done].
    rewrite <- Z.add_mod_idemp_r, Z.mod_same, Z.add_0_r by lia. by apply Z.mod_small.
  - rewrite Z.add_0_r. rewrite (proj2 (Z.leb_gt _ _)) by lia. split; [|done]. by apply Z.mod_small.
Qed.

Hypothesis Hwf : frame_wf mk f.

Lemma encoded_header_size : length (encode_header mk f) = header_size mk (encode_header mk f).
Proof using Hwf.
  unfold header_size. rewrite (proj1 second_byte). cbn [encode_header length]. rewrite length_app.
  unfold length_bytes. rewrite be_bytes_length. destruct Hwf as [Hk _]. destruct mk; [rewrite Hk by done|]; cbn; lia.
Qed.

Lemma encoded_size :
  let n := payload_len f in
  let marker := length_marker n in
  foldl push_byte (if (extended_len marker =? 0)%nat then marker else 0)
    (take (extended_len marker) (drop 2 (encode_header mk f))) = n.
Proof using Hwf.
  cbv zeta. change (drop 2 (encode_header mk f))
    with (length_bytes (payload_len f) ++ (if mk then f_key f else [])).
  rewrite take_app_length' by (unfold length_bytes; by rewrite be_bytes_length).
  pose proof payload_len_nonneg. destruct Hwf as [_ Hn].
  unfold length_bytes, length_marker, extended_len in *. destruct (Z.ltb_spec (payload_len f) 126).
  - rewrite !(proj2 (Z.eqb_neq (payload_len f) _)) by lia. done.
  - destruct (Z.leb_spec (payload_len f) 65535); cbn [Z.eqb Nat.eqb Pos.eqb].
    + apply be_bytes_value; [|lia]. change (256 ^ Z.of_nat 2) with 65536. lia.
    + apply be_bytes_value; [|lia]. change (256 ^ Z.of_nat 8) with (2 ^ 64). lia.
Qed.

(** A length in its shortest form is only refused for exceeding the limit. *)
Lemma shortest_length_valid mx :
  negb (reserved f =? 0) || negb (Bool.eqb mk mk) || (mx <? payload_len f) || (i64_max <? payload_len f)
  || ((length_marker (payload_len f) =? 126) && (payload_len f <? 126))
  || ((length_marker (payload_len f) =? 127) && (payload_len f <=? 65535))
  = negb (reserved f =? 0) || (mx <? payload_len f).
Proof using Hwf.
  destruct Hwf as [_ Hn]. rewrite eqb_reflx. cbn [negb]. rewrite orb_false_r.
  rewrite (proj2 (Z.ltb_ge i64_max _)) by (unfold i64_max; lia). rewrite orb_false_r.
  unfold length_marker. destruct (Z.ltb_spec (payload_len f) 126).
  - rewrite !(proj2 (Z.eqb_neq (payload_len f) _)) by lia. cbn [andb]. by rewrite !orb_false_r.
  - destruct (Z.leb_spec (payload_len f) 65535); cbn [Z.eqb Pos.eqb andb]; by rewrite !orb_false_r.
Qed.

(** The state after a judged header. *)
Definition after_header (mx : Z) (open : option Z) (k : Z) (closed : bool) : FrameLimit :=
  {| frames := Z.min u64_max (k + 1); close_seen := closed || (opcode_of f =? 8); header := [];
     remaining := payload_len f; message_bytes := default 0 open; fragmented := is_some open;
     max := mx; masked := mk |}.

(** The scanner judges an encoded header as the specification judges its frame. *)
Lemma end_header_encoded s mx open k closed :
  between s mx mk open k closed → 0 ≤ k → 0 ≤ mx < u64_max → 0 ≤ default 0 open →
  end_header (set_header (encode_header mk f) s)
  = (let? open' := accept_frame mx open f in Ok (after_header mx open' k closed)).
Proof using Hwf.
  intros -> Hk Hmax Hopen. pose proof payload_len_nonneg as Hn0.
  unfold end_header. cbn [set_header header masked max frames close_seen message_bytes fragmented].
  destruct second_byte as [Hm Hmask]. rewrite Hm, Hmask, encoded_size. cbv zeta.
  change (byte_at (encode_header mk f) 0) with (byte_val (f_first f)).
  destruct (byte_bits (f_first f)) as (H15 & _ & H128 & H112). rewrite H15, H128, H112.
  fold (opcode_of f) (reserved f). rewrite negb_involutive. fold (final f).
  rewrite shortest_length_valid. unfold accept_frame. cbv zeta.
  destruct (negb (reserved f =? 0) || (mx <? payload_len f)) eqn:Einv; [done|].
  apply orb_false_iff in Einv as [_ Hle]. apply Z.ltb_ge in Hle.
  assert (Hframes : Z.min u64_max (Z.min u64_max k + 1) = Z.min u64_max (k + 1)) by (unfold u64_max; lia).
  rewrite Hframes.
  assert (Hop : 0 ≤ opcode_of f < 16) by (unfold opcode_of; apply Z.mod_pos_bound; lia).
  destruct (Z.eqb_spec (opcode_of f) 0) as [E0|E0]; cbn [andb orb].
  { rewrite E0. cbn [Z.eqb Z.ltb Z.compare orb andb in_range Z.leb].
    destruct open as [t|]; cbn [is_some default id negb] in *; [|done].
    assert (Hsat : (mx <? saturating_add t (payload_len f)) = (mx <? t + payload_len f)).
    { unfold saturating_add, u64_max, usize_max in *.
      destruct (Z.ltb_spec mx (t + payload_len f)); [apply Z.ltb_lt|apply Z.ltb_ge]; lia. }
    rewrite Hsat. destruct (Z.ltb_spec mx (t + payload_len f)); [done|].
    assert (saturating_add t (payload_len f) = t + payload_len f) as ->
      by (unfold saturating_add, u64_max, usize_max in *; lia).
    unfold after_header. rewrite E0. by destruct (final f). }
  destruct ((opcode_of f =? 1) || (opcode_of f =? 2)) eqn:E12; cbn [andb].
  { assert ((opcode_of f <? 8) = true) as -> by (apply orb_true_iff in E12; rewrite !Z.eqb_eq in E12; apply Z.ltb_lt; lia).
    assert (in_range 8 10 (opcode_of f) = false) as ->.
    { apply orb_true_iff in E12. rewrite !Z.eqb_eq in E12. apply not_true_iff_false. rewrite in_range_iff. lia. }
    destruct open as [t|]; cbn [is_some default id negb andb] in *; [done|].
    destruct (Z.ltb_spec mx (payload_len f)); [lia|]. unfold after_header. by destruct (final f). }
  destruct (in_range 8 10 (opcode_of f) && final f && (payload_len f <=? 125)) eqn:Ec; [|done].
  apply andb_true_iff in Ec as [Ec _]. apply andb_true_iff in Ec as [Ec _]. apply in_range_iff in Ec.
  rewrite (proj2 (Z.ltb_ge (opcode_of f) 8)) by lia. done.
Qed.

(** Reading one frame, wherever the stream goes on. *)
Lemma frame_run s mx open k closed rest :
  between s mx mk open k closed → 0 ≤ k → 0 ≤ mx < u64_max → 0 ≤ default 0 open →
  run s (encode mk f ++ rest)
  = (let? open' := accept_frame mx open f in
     run (set_remaining 0 (after_header mx open' k closed)) rest).
Proof using Hwf.
  intros Hb Hk Hmax Hopen. unfold encode. rewrite <- app_assoc, run_app.
  assert (Hs : remaining s = 0 ∧ header s = [] ∧ masked s = mk) by (by rewrite Hb). destruct Hs as (Hr & Hh & Hmk).
  rewrite (header_run s (encode_header mk f)); [|done|done|by rewrite Hh, Hmk; apply encoded_header_size].
  rewrite Hh. cbn [app]. rewrite (end_header_encoded s mx open k closed) by done.
  destruct (accept_frame mx open f) as [open'|]; [|done].
  rewrite (run_skip _ _ (payload_len f)).
  - cbn [after_header remaining]. rewrite Z.sub_diag. unfold payload_len. rewrite Nat2Z.id, drop_app_length. done.
  - cbn [after_header remaining]. pose proof payload_len_nonneg. lia.
  - unfold payload_len. rewrite length_app. lia.
Qed.
End one_frame.

(** ** The stream *)

Definition is_close (f : frame) : bool := opcode_of f =? 8.

Lemma accept_open_nonneg mx open f open' :
  0 ≤ default 0 open → accept_frame mx open f = Ok open' → 0 ≤ default 0 open'.
Proof.
  intros Ho H. pose proof (payload_len_nonneg f). unfold accept_frame in H. cbv zeta in H.
  result_cases; cbn in *; try lia; destruct (final f); cbn; lia.
Qed.

Lemma frames_run mk mx fs s open k closed :
  between s mx mk open k closed → 0 ≤ k → 0 ≤ mx < u64_max → 0 ≤ default 0 open →
  Forall (frame_wf mk) fs →
  match try_fold (accept_frame mx) open fs with
  | Err e => run s (encode_all mk fs) = Err e
  | Ok open' => ∃ s', run s (encode_all mk fs) = Ok s' ∧
      between s' mx mk open' (k + Z.of_nat (length fs)) (closed || existsb is_close fs)
  end.
Proof.
  intros Hb Hk Hmax Ho Hwf. revert s open k closed Hb Hk Ho.
  induction Hwf as [|f fs Hf _ IH]; intros s open k closed Hb Hk Ho; cbn [try_fold encode_all map concat existsb length].
  - exists s. split; [done|]. rewrite orb_false_r. by rewrite Z.add_0_r.
  - fold (encode_all mk fs). rewrite (frame_run mk f Hf s mx open k closed) by done.
    destruct (accept_frame mx open f) as [open1|] eqn:Ea; [|done].
    specialize (IH (set_remaining 0 (after_header mk f mx open1 k closed)) open1 (k + 1)
                  (closed || is_close f) eq_refl).
    specialize (IH ltac:(lia) (accept_open_nonneg _ _ _ _ Ho Ea)).
    destruct (try_fold (accept_frame mx) open1 fs) as [open2|]; [|done].
    destruct IH as (s' & Hrun & Hs'). exists s'. split; [done|].
    rewrite orb_assoc. by replace (k + Z.of_nat (S (length fs))) with (k + 1 + Z.of_nat (length fs)) by lia.
Qed.

(** *** What an accepted stream is *)

Lemma byte_of_val c : byte_of (byte_val c) = c.
Proof. unfold byte_of, byte_val. by rewrite N2Z.id, ascii_N_embedding. Qed.
Lemma be_bytes_push l : (length l ≤ 8)%nat →
  0 ≤ foldl push_byte 0 l < 256 ^ Z.of_nat (length l) ∧ be_bytes (length l) (foldl push_byte 0 l) = l.
Proof.
  induction l as [|c l IH] using rev_ind; [done|]. rewrite length_app, Nat.add_1_r. intros Hl. destruct IH as [Hb He]; [lia|].
  rewrite foldl_app. cbn [foldl]. pose proof (byte_val_range c) as Hc.
  assert (256 ^ Z.of_nat (length l) ≤ 2 ^ 56) by (change (2 ^ 56) with (256 ^ 7); apply Z.pow_le_mono_r; lia).
  rewrite push_byte_exact by lia. rewrite Nat2Z.inj_succ, Z.pow_succ_r by lia. split; [lia|]. cbn [be_bytes].
  rewrite Z.div_add_l, Z.div_small, Z.add_0_r, He by lia. f_equal. f_equal.
  rewrite Z.add_comm, Z.mod_add, Z.mod_small by lia. apply byte_of_val.
Qed.
Lemma second_byte_inv b mk : negb (Z.land (byte_val b) 128 =? 0) = mk →
  byte_of (Z.land (byte_val b) 127 + if mk then 128 else 0) = b.
Proof.
  destruct (byte_bits b) as (_ & -> & -> & _). rewrite negb_involutive. intros <-. rewrite <- (byte_of_val b) at 3. f_equal.
  pose proof (byte_val_range b). destruct (Z.leb_spec 128 (byte_val b)); [|rewrite Z.mod_small; lia].
  pose proof (Z.div_mod (byte_val b) 128). pose proof (Z.mod_pos_bound (byte_val b) 128). lia.
Qed.
(** A length that passes the checks is in its shortest form. *)
Lemma length_inv m l : 0 ≤ m < 128 → length l = extended_len m →
  let size := foldl push_byte (if (extended_len m =? 0)%nat then m else 0) l in
  (m =? 126) && (size <? 126) = false → (m =? 127) && (size <=? 65535) = false →
  length_marker size = m ∧ length_bytes size = l.
Proof.
  intros Hm Hl size H126 H127. unfold length_bytes.
  enough (length_marker size = m ∧ be_bytes (extended_len m) size = l) as [-> ->] by done.
  unfold size, extended_len in *. destruct (Z.eqb_spec m 126) as [->|N1]; [|destruct (Z.eqb_spec m 127) as [->|N2]];
    cbn [Nat.eqb andb] in *.
  - destruct (be_bytes_push l) as [Hb He]; [lia|]. rewrite Hl in Hb, He. change (256 ^ Z.of_nat 2) with 65536 in Hb. apply Z.ltb_ge in H126.
    split; [|done]. unfold length_marker. rewrite (proj2 (Z.ltb_ge _ _)), (proj2 (Z.leb_le _ _)) by lia. done.
  - destruct (be_bytes_push l) as [Hb He]; [lia|]. rewrite Hl in Hb, He. apply Z.leb_gt in H127.
    split; [|done]. unfold length_marker. rewrite (proj2 (Z.ltb_ge _ _)), (proj2 (Z.leb_gt _ _)) by lia. done.
  - destruct l; [|done]. cbn. split; [|done]. unfold length_marker. by rewrite (proj2 (Z.ltb_lt _ _)) by lia.
Qed.
(** A header that is not refused was written by the encoder, for a frame of
    any payload of its length. *)
Lemma header_inv mk h s s' : masked s = mk → (2 ≤ length h)%nat → length h = header_size mk h → end_header (set_header h s) = Ok s' →
  ∃ f, frame_wf mk f ∧ encode_header mk f = h.
Proof.
  intros Hmk H2 Hl. destruct h as [|a [|b rest]]; [cbn in H2; lia..|]. unfold header_size in Hl.
  unfold end_header. cbn [set_header header masked max]. cbv zeta.
  change (byte_at (a :: b :: rest) 1) with (byte_val b) in *. change (drop 2 (a :: b :: rest)) with rest.
  set (m := Z.land (byte_val b) 127) in *. set (size := foldl push_byte _ _).
  destruct (_ || _) eqn:Einv; [done|]. rewrite !orb_false_iff in Einv. destruct Einv as [[[[[_ Hmask] _] Hi] H126] H127].
  intros _. rewrite Hmk in Hmask. apply negb_false_iff, eqb_prop in Hmask.
  assert (0 ≤ m < 128) as Hm. { unfold m. destruct (byte_bits b) as (_ & -> & _). apply Z.mod_pos_bound. lia. }
  cbn [length] in Hl. assert (length (take (extended_len m) rest) = extended_len m) as Ht by (rewrite length_take; lia).
  destruct (length_inv m _ Hm Ht H126 H127) as [E1 E2]. fold size in E1, E2.
  pose proof (header_size_nonneg (a :: b :: rest)) as Hs0. cbv zeta in Hs0.
  change (byte_at (a :: b :: rest) 1) with (byte_val b) in Hs0. change (drop 2 (a :: b :: rest)) with rest in Hs0. fold m size in Hs0.
  exists {| f_first := a; f_key := drop (extended_len m) rest; f_payload := repeat "000"%char (Z.to_nat size) |}.
  assert (payload_len {| f_first := a; f_key := drop (extended_len m) rest; f_payload := repeat "000"%char (Z.to_nat size) |} = size) as Hp.
  { unfold payload_len. cbn [f_payload]. rewrite repeat_length. lia. }
  split; [split; [intros ->; cbn; rewrite length_drop; lia|rewrite Hp; apply Z.ltb_ge in Hi; unfold i64_max in Hi; lia]|].
  unfold encode_header. rewrite Hp, E1, E2. cbn [f_first f_key]. unfold m. rewrite (second_byte_inv b mk Hmask). fold m. do 2 f_equal.
  assert ((if mk then drop (extended_len m) rest else []) = drop (extended_len m) rest) as ->; [|apply take_drop].
  destruct mk; [done|]. symmetry. apply nil_length_inv. rewrite length_drop. lia.
Qed.

(** The state between two frames, and a header that is not complete. *)
Definition between_state (mx : Z) (mk : bool) (open : option Z) (n : Z) (closed : bool) : FrameLimit :=
  {| frames := Z.min u64_max n; close_seen := closed; header := []; remaining := 0;
     message_bytes := default 0 open; fragmented := is_some open; max := mx; masked := mk |}.
Definition partial_header (mk : bool) (h : list ascii) : Prop := (length h < 2 ∨ length h < header_size mk h)%nat.
(** The bytes are allowed frames, each written in the one way the protocol
    prescribes, and then part of the header of a frame, or the header and part of
    the payload of a frame that is allowed too. *)
Inductive scanned (mx : Z) (mk : bool) (bytes : list ascii) (s : FrameLimit) : Prop :=
| InHeader fs open tail : bytes = encode_all mk fs ++ tail → Forall (frame_wf mk) fs → try_fold (accept_frame mx) None fs = Ok open →
    partial_header mk tail → s = set_header tail (between_state mx mk open (Z.of_nat (length fs)) (existsb is_close fs)) →
    scanned mx mk bytes s
| InPayload fs open f open' got rest : bytes = encode_all mk fs ++ encode_header mk f ++ got → f_payload f = got ++ rest → rest ≠ [] →
    Forall (frame_wf mk) (fs ++ [f]) → try_fold (accept_frame mx) None fs = Ok open → accept_frame mx open f = Ok open' →
    s = set_remaining (Z.of_nat (length rest)) (between_state mx mk open' (Z.of_nat (length (fs ++ [f]))) (existsb is_close (fs ++ [f]))) →
    scanned mx mk bytes s.

Lemma encode_all_snoc mk fs f : encode_all mk (fs ++ [f]) = encode_all mk fs ++ encode mk f.
Proof. unfold encode_all. rewrite map_app, concat_app. cbn. by rewrite app_nil_r. Qed.
Lemma try_fold_snoc mx fs f o : try_fold (accept_frame mx) o (fs ++ [f]) = let? open := try_fold (accept_frame mx) o fs in accept_frame mx open f.
Proof.
  revert o. induction fs as [|g fs IH]; intros o; cbn [app try_fold]; [by destruct (accept_frame mx o f)|].
  destruct (accept_frame mx o g) as [o'|]; [apply IH|done].
Qed.
Lemma accepted_nonneg mx fs o o' : 0 ≤ default 0 o → try_fold (accept_frame mx) o fs = Ok o' → 0 ≤ default 0 o'.
Proof.
  revert o. induction fs as [|f fs IH]; intros o Ho; cbn [try_fold]; [by intros [= <-]|].
  destruct (accept_frame mx o f) as [o1|] eqn:E; [|done]. apply IH. by eapply accept_open_nonneg.
Qed.
(** After the payload, or a header without one. *)
Lemma scanned_frame mx mk fs f open open' got rest bytes : bytes = encode_all mk fs ++ encode_header mk f ++ got → f_payload f = got ++ rest →
  Forall (frame_wf mk) (fs ++ [f]) → try_fold (accept_frame mx) None fs = Ok open → accept_frame mx open f = Ok open' →
  scanned mx mk bytes (set_remaining (Z.of_nat (length rest))
    (between_state mx mk open' (Z.of_nat (length (fs ++ [f]))) (existsb is_close (fs ++ [f])))).
Proof.
  intros Hb Hp Hw Ht Ha. destruct rest as [|c rest]; [|by eapply InPayload].
  rewrite app_nil_r in Hp. apply (InHeader _ _ _ _ (fs ++ [f]) open' []); [|done|by rewrite try_fold_snoc, Ht|left; cbn; lia|done].
  rewrite app_nil_r, encode_all_snoc, Hb. unfold encode. by rewrite Hp.
Qed.
Lemma same_length_frame mx mk open f f' : f_first f' = f_first f → f_key f' = f_key f → length (f_payload f') = length (f_payload f) →
  accept_frame mx open f' = accept_frame mx open f ∧ encode_header mk f' = encode_header mk f ∧ (frame_wf mk f → frame_wf mk f') ∧
  is_close f' = is_close f.
Proof.
  intros E1 E2 E3. unfold accept_frame, encode_header, frame_wf, is_close, opcode_of, reserved, final, payload_len. by rewrite E1, E2, E3.
Qed.
(** The next byte of a header: the header goes on, or is judged. *)
Lemma header_step mk s c : remaining s = 0 → masked s = mk → partial_header mk (header s) →
  let h := header s ++ [c] in
  (partial_header mk h ∧ step s c = Ok (set_header h s)) ∨
  ((2 ≤ length h)%nat ∧ length h = header_size mk h ∧ step s c = end_header (set_header h s)).
Proof.
  intros Hr Hm Hp h. unfold step. rewrite Hr. cbn [Z.eqb negb]. unfold header_byte. cbn [set_header header masked]. rewrite Hm. fold h.
  fold (header_size mk h). assert (length h = S (length (header s))) as Hlen by (unfold h; rewrite length_app; cbn; lia).
  destruct (Nat.ltb_spec (length h) 2); [left; split; [by left|done]|].
  destruct (Nat.ltb_spec (length h) (header_size mk h)); [left; split; [by right|done]|]. right. split; [done|]. split; [|done].
  destruct (Nat.lt_ge_cases (length (header s)) 2) as [H2|H2]; [unfold header_size in *; lia|].
  destruct Hp as [Hp|Hp]; [lia|]. enough (header_size mk h = header_size mk (header s)) by lia.
  unfold header_size, byte_at, h. by rewrite lookup_app_l by lia.
Qed.
Lemma scanned_step mx mk bytes s c s' : 0 ≤ mx < u64_max → scanned mx mk bytes s → step s c = Ok s' → scanned mx mk (bytes ++ [c]) s'.
Proof.
  intros Hmx [fs open tail Hb Hw Ht Hp ->|fs open f open' got rest Hb Hpl Hne Hw Ht Ha ->] Hs.
  - destruct (header_step mk (set_header tail (between_state mx mk open (Z.of_nat (length fs)) (existsb is_close fs))) c)
      as [[Hpart E]|(H2 & Hl & E)]; [done..| |]; cbn [set_header header] in *; rewrite E in Hs.
    + injection Hs as <-. apply (InHeader _ _ _ _ fs open (tail ++ [c])); try done. by rewrite Hb, <- app_assoc.
    + rewrite set_header_twice in Hs. destruct (λ E, header_inv mk _ _ _ E H2 Hl Hs) as (f & Hf & Ef); [done|]. rewrite <- Ef in Hs.
      rewrite (end_header_encoded mk f Hf _ mx open (Z.of_nat (length fs)) (existsb is_close fs)) in Hs;
        [|done|lia|done|by eapply accepted_nonneg; [|exact Ht]].
      destruct (accept_frame mx open f) as [open'|] eqn:Ea; [|done]. injection Hs as <-.
      assert (Forall (frame_wf mk) (fs ++ [f])) as Hw' by (apply Forall_app; split; [done|by constructor]).
      pose proof (scanned_frame mx mk fs f open open' [] (f_payload f) (bytes ++ [c])) as Hd.
      rewrite app_nil_r in Hd. rewrite Hb, <- app_assoc, Ef in *. specialize (Hd eq_refl eq_refl Hw' Ht Ea).
      replace (after_header _ _ _ _ _ _) with (set_remaining (Z.of_nat (length (f_payload f)))
        (between_state mx mk open' (Z.of_nat (length (fs ++ [f]))) (existsb is_close (fs ++ [f])))); [done|].
      unfold after_header, set_remaining, between_state, payload_len. cbn. rewrite length_app, existsb_app. cbn. f_equal; [lia|].
      by rewrite orb_false_r.
  - destruct rest as [|x rest]; [done|]. pose (f' := {| f_first := f_first f; f_key := f_key f; f_payload := (got ++ [c]) ++ rest |}).
    destruct (same_length_frame mx mk open f f') as (Ea & Eh & Hwf & Ec); [done..|cbn; rewrite Hpl, !length_app; cbn; lia|].
    unfold step in Hs. cbn [set_remaining between_state remaining] in Hs.
    rewrite (proj2 (Z.eqb_neq (Z.of_nat (length (x :: rest))) 0)) in Hs by (cbn; lia). cbn [negb] in Hs. injection Hs as <-.
    pose proof (scanned_frame mx mk fs f' open open' (got ++ [c]) rest (bytes ++ [c])) as Hd.
    rewrite Hb, Eh, <- !app_assoc, Ea in *. apply Forall_app in Hw as [Hw1 Hw2]. apply Forall_cons in Hw2 as [Hwf0 _].
    specialize (Hd eq_refl ltac:(unfold f'; cbn; by rewrite <- app_assoc)
      ltac:(apply Forall_app; split; [done|by constructor; [apply Hwf|]]) Ht Ha).
    replace (set_remaining _ (set_remaining _ _)) with (set_remaining (Z.of_nat (length rest))
      (between_state mx mk open' (Z.of_nat (length (fs ++ [f']))) (existsb is_close (fs ++ [f'])))); [done|].
    unfold set_remaining, between_state. cbn [frames close_seen header remaining message_bytes fragmented max masked].
    rewrite !length_app, !existsb_app. cbn [length existsb]. rewrite Ec. f_equal. lia.
Qed.
Lemma run_scanned mx mk bytes s : 0 ≤ mx < u64_max → run (frame_limit_new mx mk) bytes = Ok s → scanned mx mk bytes s.
Proof.
  intros Hmx. revert s. induction bytes as [|c bytes IH] using rev_ind; intros s.
  - intros [= <-]. apply (InHeader _ _ _ _ [] None []); [done|constructor|done|left; cbn; lia|done].
  - rewrite run_app. destruct (run _ bytes) as [s1|] eqn:E; [|done]. unfold run. cbn [try_fold].
    destruct (step s1 c) as [s2|] eqn:Es; [|done]. intros [= <-]. eapply scanned_step; [done|by apply IH|done].
Qed.

(** C37: However a stream is cut into chunks, the scanner accepts exactly the
    streams the protocol allows within the limit.  A stream of frames, each with
    the mask of its direction and the shortest form of its length, is accepted
    if they have no reserved bits, no frame and no fragmented message exceeds
    the limit, continuations come only inside a message, and control frames are
    short and not fragmented; the scanner then has counted the frames and noticed
    a close, and otherwise it reports the error of the first frame that breaks a
    rule.  Conversely, any bytes it has not refused are such frames, then part of
    one more header, or a header and part of the payload of one more such frame;
    another mask bit, a longer form of a length or a length above [i64::MAX] is
    refused. *)
Theorem frames_exact mx mk chunks :
  0 ≤ mx < u64_max →
  (∀ fs, Forall (frame_wf mk) fs → concat chunks = encode_all mk fs →
     match try_fold (accept_frame mx) None fs with
     | Err e => feed_chunks (frame_limit_new mx mk) chunks = Some (Err e)
     | Ok open => ∃ s, feed_chunks (frame_limit_new mx mk) chunks = Some (Ok s) ∧
         between s mx mk open (Z.of_nat (length fs)) (existsb is_close fs)
     end) ∧
  (∀ s, feed_chunks (frame_limit_new mx mk) chunks = Some (Ok s) → scanned mx mk (concat chunks) s).
Proof.
  intros Hmx. rewrite feed_chunks_run by (unfold frame_state_ok; cbn; lia).
  split; [|intros s [= Hs]; by apply run_scanned]. intros fs Hwf Hc. rewrite Hc.
  pose proof (frames_run mk mx fs (frame_limit_new mx mk) None 0 false eq_refl) as H.
  specialize (H ltac:(lia) Hmx ltac:(done) Hwf).
  destruct (try_fold (accept_frame mx) None fs) as [open|e]; [|by rewrite H].
  destruct H as (s & -> & Hs). by exists s.
Qed.

Definition text_frame (fin : bool) (payload : string) : frame :=
  {| f_first := if fin then "129"%char else "001"%char; f_key := [];
     f_payload := String.list_ascii_of_string payload |}.
Definition rest_frame (payload : string) : frame :=
  {| f_first := "128"%char; f_key := []; f_payload := String.list_ascii_of_string payload |}.

Lemma frames_exact_witness :
  let fs := [text_frame false "hello"; rest_frame " world"] in
  feed_chunks (frame_limit_new 10 false) [take 3 (encode_all false fs); drop 3 (encode_all false fs)]
  = Some (Err RequestBodyTooLarge) ∧
  ∃ s, feed_chunks (frame_limit_new 11 false) [encode_all false fs] = Some (Ok s) ∧ frames s = 2.
Proof.
  cbv zeta. split.
  - refine (proj1 (frames_exact 10 false
      [take 3 (encode_all false [text_frame false "hello"; rest_frame " world"]);
       drop 3 (encode_all false [text_frame false "hello"; rest_frame " world"])] _) [text_frame false "hello"; rest_frame " world"] _ _).
    + unfold u64_max. lia.
    + repeat constructor; vm_compute; done.
    + vm_compute. done.
  - assert (0 ≤ 11 < u64_max) as H11 by (unfold u64_max; lia).
    destruct (proj1 (frames_exact 11 false [encode_all false [text_frame false "hello"; rest_frame " world"]] H11)
      [text_frame false "hello"; rest_frame " world"]) as (s & Hs & Hb).
    + repeat constructor; vm_compute; done.
    + vm_compute. done.
    + exists s. split; [exact Hs|]. by rewrite Hb.
Defined.

(** ** Memory *)

(** Whatever it is fed, the scanner holds less than a header, and its
    counters stay within the limit. *)
Record scanner_bounded (s : FrameLimit) : Prop := {
  bounded_header : (length (header s) < 14)%nat;
  bounded_remaining : 0 ≤ remaining s ≤ max s;
  bounded_message : 0 ≤ message_bytes s ≤ max s
}.

Lemma extended_len_le m : (extended_len m ≤ 8)%nat.
Proof. unfold extended_len. destruct (m =? 126), (m =? 127); lia. Qed.

Lemma end_header_bounded s s' :
  0 ≤ message_bytes s ≤ max s → end_header s = Ok s' → scanner_bounded s' ∧ max s' = max s.
Proof.
  intros Hm. unfold end_header. cbv zeta. intros H.
  pose proof (header_size_nonneg (header s)) as Hsz. cbv zeta in Hsz. revert Hsz H.
  set (size := foldl _ _ _). set (op := Z.land _ 15). set (fin := negb (Z.land (byte_at _ 0) 128 =? 0)).
  destruct (_ || _) eqn:Einv; [done|].
  rewrite !orb_false_iff in Einv. destruct Einv as [[[[_ Hmax] _] _] _]. apply Z.ltb_ge in Hmax.
  intros Hsz H.
  assert (Hb : ∀ m, 0 ≤ m → (8 ≤ op → m ≤ max s) → ((op <? 8) && (max s <? m)) = false →
    0 ≤ (if (op <? 8) && fin then 0 else m) ≤ max s).
  { intros m H0 H8 E. destruct (Z.ltb_spec op 8); cbn in *.
    - apply Z.ltb_ge in E. destruct fin; lia.
    - specialize (H8 ltac:(lia)). lia. }
  unfold saturating_add in H.
  repeat (result_step; try discriminate); subst; bool_prop.
  all: split; [split; cbn; [lia|lia|]|done].
  all: apply Hb; try assumption; unfold usize_max; try lia.
  all: rewrite orb_true_iff, !Z.eqb_eq in *; lia.
Qed.

Lemma step_bounded s c s' :
  scanner_bounded s → step s c = Ok s' → scanner_bounded s' ∧ max s' = max s.
Proof.
  intros [Hh Hr Hm]. unfold step. destruct (Z.eqb_spec (remaining s) 0) as [E|E]; cbn [negb].
  - unfold header_byte. cbn [set_header header masked].
    pose proof (extended_len_le (Z.land (byte_at (header s ++ [c]) 1) 127)) as He.
    destruct (Nat.ltb_spec (length (header s ++ [c])) 2).
    { intros [= <-]. split; [split; cbn; lia|done]. }
    destruct (Nat.ltb_spec (length (header s ++ [c])) (2 + extended_len (Z.land (byte_at (header s ++ [c]) 1) 127) +
      (if masked s then 4 else 0))).
    { intros [= <-]. split; [split; cbn; [destruct (masked s)|..]; lia|done]. }
    intros H'. by apply end_header_bounded in H'.
  - intros [= <-]. split; [split; cbn; lia|done].
Qed.
Lemma run_bounded s bytes s' :
  scanner_bounded s → run s bytes = Ok s' → scanner_bounded s' ∧ max s' = max s.
Proof.
  unfold run. revert s. induction bytes as [|c bytes IH]; intros s Hs; cbn [try_fold]; [by intros [= <-]|].
  destruct (step s c) as [s1|] eqn:E; [|done]. destruct (step_bounded _ _ _ Hs E) as [H1 <-]. by apply IH.
Qed.

(** Whatever bytes arrive, in whatever chunks, a scanner that has not
    refused them holds less than one frame header (fourteen bytes) and counts
    no payload or message above its limit. *)
Theorem scanner_memory mx mk chunks s :
  0 ≤ mx → feed_chunks (frame_limit_new mx mk) chunks = Some (Ok s) → scanner_bounded s ∧ max s = mx.
Proof.
  intros Hmx. rewrite feed_chunks_run by (unfold frame_state_ok; cbn; lia). intros [= H].
  eapply (run_bounded (frame_limit_new mx mk)); [|done]. split; cbn; lia.
Qed.

Lemma scanner_memory_witness :
  ∃ s, feed_chunks (frame_limit_new 300 false) [["130"; "126"; "001"]%char] = Some (Ok s) ∧
       scanner_bounded s ∧ length (header s) = 3%nat.
Proof.
  eexists. split; [vm_compute; reflexivity|]. split; [|reflexivity].
  apply (scanner_memory 300 false [["130"; "126"; "001"]%char]); [lia|vm_compute; reflexivity].
Defined.
