(* ===== verification/ConnectionLimits.v ===== *)
(** * Streaming connections

    Models [ConnectionLimits] and [ConnectionLease] of
    [crates/gateway-proxy/src/accessa_transport.rs]: how many connections an
    instance, a route and a virtual key hold at once.  The table maps a service
    and a key to a number of leases; a lease gives its place back when it is
    dropped.  Every operation runs under one mutex, so a run is a sequence of
    operations.  A [Uuid] is its text. *)

From S2P Require Import Prelude Errors.

Definition INSTANCE_CONNECTION_LIMIT : Z := 4096.

Abbreviation entry := (string * string)%type.
Abbreviation counts := (gmap entry Z).

Definition count_of (m : counts) (e : entry) : Z := default 0 (m !! e).
(** The sums of [values()] and of the entries of one service. *)
Definition total (m : counts) : Z := msum id m.
Definition route_total (service : string) (m : counts) : Z := msum id (filter (λ kv, kv.1.1 = service) m).

(** A granted lease is the entry it counts for. *)
Definition acquire (m : counts) (service : string) (key : string) (route_max key_max : Z) : GatewayResult (counts * entry) :=
  let e := (service, key) in
  if (INSTANCE_CONNECTION_LIMIT <=? total m) || (route_max <=? route_total service m)
     || (key_max <=? count_of m e)
  then Err (RateLimitExceeded (Some 1))
  else Ok (<[e := count_of m e + 1]> m, e).

(** Dropping a lease; [None] when the subtraction would underflow. *)
Definition drop_lease (m : counts) (e : entry) : option counts :=
  match m !! e with
  | None => Some m
  | Some count =>
      match checked_sub count 1 with
      | None => None
      | Some count => Some (if count =? 0 then delete e m else <[e := count]> m)
      end
  end.

(** ** Runs *)

(** The table with the leases that are alive. *)
Record World := { table : counts; leases : list entry }.

Inductive step : World → World → Prop :=
| step_acquire w service key route_max key_max m e :
    acquire (table w) service key route_max key_max = Ok (m, e) →
    step w {| table := m; leases := e :: leases w |}
| step_refuse w service key route_max key_max err :
    acquire (table w) service key route_max key_max = Err err → step w w
| step_drop w l1 e l2 m :
    leases w = l1 ++ e :: l2 → drop_lease (table w) e = Some m →
    step w {| table := m; leases := l1 ++ l2 |}.

Definition reachable : World → Prop := rtc step {| table := ∅; leases := [] |}.

(** ** The table counts the leases *)

Definition held (e : entry) (l : list entry) : Z := Z.of_nat (length (filter (λ x, x = e) l)).
Definition held_by_route (service : string) (l : list entry) : Z :=
  Z.of_nat (length (filter (λ x, x.1 = service) l)).

(** The table a list of leases calls for. *)
Definition tally (l : list entry) : counts := foldr (λ e m, <[e := count_of m e + 1]> m) ∅ l.

Lemma held_cons e x l : held e (x :: l) = (if decide (x = e) then 1 else 0) + held e l.
Proof. unfold held. rewrite filter_cons. destruct (decide (x = e)); cbn [length]; lia. Qed.
Lemma held_split e l1 x l2 : held e (l1 ++ x :: l2) = held e (x :: l1 ++ l2).
Proof. unfold held. rewrite filter_app, !filter_cons, filter_app. case_decide; rewrite ?length_app; cbn [length]; rewrite ?length_app; lia. Qed.
Lemma held_nonneg e l : 0 ≤ held e l.
Proof. unfold held. lia. Qed.

Lemma held_pos e l : 0 < held e l ↔ e ∈ l.
Proof.
  unfold held. split.
  - intros H. destruct (filter _ l) as [|x k] eqn:E; [cbn in H; lia|].
    assert (x ∈ filter (λ x, x = e) l) as [-> ?]%list_elem_of_filter by (rewrite E; by left). done.
  - intros He. assert (e ∈ filter (λ x, x = e) l) as Hf by (by apply list_elem_of_filter).
    destruct (filter _ l); [by apply not_elem_of_nil in Hf|cbn; lia].
Qed.

Lemma tally_lookup l e : tally l !! e = if held e l =? 0 then None else Some (held e l).
Proof.
  induction l as [|x l IH]; [done|]. cbn [tally foldr]. fold (tally l). pose proof (held_nonneg x l).
  rewrite held_cons. destruct (decide (x = e)) as [->|Hne].
  - rewrite lookup_insert_eq. unfold count_of. rewrite IH. rewrite (proj2 (Z.eqb_neq (1 + _) 0)) by lia. f_equal.
    destruct (Z.eqb_spec (held e l) 0); cbn; lia.
  - by rewrite lookup_insert_ne.
Qed.

(** Two lists with the same leases in another order have one table. *)
Lemma tally_split l1 e l2 : tally (l1 ++ e :: l2) = tally (e :: l1 ++ l2).
Proof. apply map_eq. intros x. by rewrite !tally_lookup, held_split. Qed.

Lemma count_of_tally l e : count_of (tally l) e = held e l.
Proof. unfold count_of. rewrite tally_lookup. destruct (Z.eqb_spec (held e l) 0); cbn; lia. Qed.

(** Raising one count raises the sum by one. *)
Lemma msum_bump (m : counts) e : msum id (<[e := count_of m e + 1]> m) = msum id m + 1.
Proof.
  unfold count_of. destruct (m !! e) as [v|] eqn:E; cbn [default].
  - rewrite (msum_update _ _ _ v) by done. unfold id. lia.
  - rewrite msum_insert by done. unfold id. lia.
Qed.
Lemma count_of_filter (s : string) (m : counts) (e : entry) : e.1 = s → count_of (filter (λ kv, kv.1.1 = s) m) e = count_of m e.
Proof.
  intros He. unfold count_of. destruct (m !! e) as [v|] eqn:E.
  - by rewrite (map_lookup_filter_Some_2 _ _ _ v).
  - rewrite map_lookup_filter_None_2; [done|]. by left.
Qed.

Lemma total_tally l : total (tally l) = Z.of_nat (length l).
Proof.
  unfold total. induction l as [|e l IH]; [done|]. cbn [tally foldr length]. fold (tally l). rewrite msum_bump, IH. lia.
Qed.
Lemma route_total_tally s l : route_total s (tally l) = held_by_route s l.
Proof.
  unfold route_total, held_by_route. induction l as [|e l IH]; [done|]. cbn [tally foldr]. fold (tally l).
  rewrite filter_cons. destruct (decide (e.1 = s)) as [Hs|Hs].
  - rewrite map_filter_insert_True by done. rewrite <- (count_of_filter s) by done.
    rewrite msum_bump, IH. cbn [length]. lia.
  - rewrite map_filter_insert_not by (intros; done). done.
Qed.

Lemma acquire_tally m service key route_max key_max m' e l :
  m = tally l → acquire m service key route_max key_max = Ok (m', e) → m' = tally (e :: l).
Proof. intros ->. unfold acquire. destruct (_ || _); [done|]. by intros [= <- <-]. Qed.

(** The drop of a live lease never underflows and leaves the table of the others. *)
Lemma drop_tally l1 e l2 : drop_lease (tally (l1 ++ e :: l2)) e = Some (tally (l1 ++ l2)).
Proof.
  rewrite tally_split. unfold drop_lease. rewrite tally_lookup, held_cons, decide_True by done.
  pose proof (held_nonneg e (l1 ++ l2)). rewrite (proj2 (Z.eqb_neq _ 0)) by lia.
  destruct (checked_sub _ _) as [c|] eqn:Ec; [|unfold checked_sub in Ec; destruct (Z.leb_spec 1 (1 + held e (l1 ++ l2))); [done|lia]].
  apply checked_sub_Some in Ec as [-> _]. f_equal. replace (1 + _ - 1) with (held e (l1 ++ l2)) by lia.
  apply map_eq. intros x. rewrite (tally_lookup (l1 ++ l2)).
  destruct (decide (x = e)) as [->|Hne]; destruct (held e (l1 ++ l2) =? 0).
  - by rewrite lookup_delete_eq.
  - by rewrite lookup_insert_eq.
  - rewrite lookup_delete_ne, tally_lookup, held_cons, decide_False by done. done.
  - rewrite lookup_insert_ne, tally_lookup, held_cons, decide_False by done. done.
Qed.

Lemma acquire_total m service key route_max key_max m' e :
  acquire m service key route_max key_max = Ok (m', e) → total m < INSTANCE_CONNECTION_LIMIT ∧ e = (service, key).
Proof. unfold acquire. intros H. result_cases. bool_prop. by simplify_eq. Qed.

Lemma reachable_tally w :
  reachable w → table w = tally (leases w) ∧ Z.of_nat (length (leases w)) ≤ INSTANCE_CONNECTION_LIMIT.
Proof.
  revert w. unfold reachable. apply (rtc_ind_r (λ w, _)); [done|]. intros w w' _ Hstep [Ht Hn].
  destruct Hstep as [w service key rm km m e Ha|w service key rm km err Ha|w l1 e l2 m Hl Hd]; cbn [table leases].
  - split; [by eapply acquire_tally|]. apply acquire_total in Ha as [Ha _]. rewrite Ht, total_tally in Ha. cbn [length]. lia.
  - done.
  - rewrite Ht, Hl, drop_tally in Hd. injection Hd as <-. split; [done|].
    rewrite Hl in Hn. rewrite length_app in *. cbn [length] in Hn. lia.
Qed.

(** However connections come and go, the decision to admit one is exact:
    it is granted precisely when the leases alive are fewer than the
    instance's 4096, those of its service fewer than the route's limit and
    those of its service and key fewer than the key's; no more than 4096 are
    ever alive, the table keeps no entry without a lease, and dropping a
    lease that is alive never underflows its count. *)
Theorem connections_exact w service key route_max key_max :
  reachable w →
  acquire (table w) service key route_max key_max
  = (if (Z.of_nat (length (leases w)) <? INSTANCE_CONNECTION_LIMIT)
        && (held_by_route service (leases w) <? route_max) && (held (service, key) (leases w) <? key_max)
     then Ok (tally ((service, key) :: leases w), (service, key))
     else Err (RateLimitExceeded (Some 1)))
  ∧ Z.of_nat (length (leases w)) ≤ INSTANCE_CONNECTION_LIMIT
  ∧ (∀ e, is_Some (table w !! e) ↔ e ∈ leases w)
  ∧ (∀ l1 e l2, leases w = l1 ++ e :: l2 → drop_lease (table w) e = Some (tally (l1 ++ l2))).
Proof.
  intros [Ht Hn]%reachable_tally. split; [|split; [done|split]].
  - unfold acquire. rewrite Ht, total_tally, route_total_tally, count_of_tally.
    rewrite !Z.leb_antisym, <- !negb_andb.
    cbn [tally foldr]. fold (tally (leases w)). rewrite count_of_tally. by destruct (_ && _).
  - intros e. rewrite Ht, tally_lookup, <- held_pos. pose proof (held_nonneg e (leases w)).
    destruct (Z.eqb_spec (held e (leases w)) 0); (split; [intros [? ?]|]); (done || lia || by eexists).
  - intros l1 e l2 Hl. rewrite Ht, Hl. apply drop_tally.
Qed.

(** Two connections of one key: the third is refused, and is admitted once
    one of them has gone. *)
Lemma connections_exact_witness :
  let e := ("chat", "k7") in
  let w := {| table := tally [e; e]; leases := [e; e] |} in
  reachable w ∧ acquire (table w) "chat" "k7" 10 2 = Err (RateLimitExceeded (Some 1)) ∧
  drop_lease (table w) e = Some (tally [e]).
Proof.
  cbv zeta. assert (Hr : reachable {| table := tally [("chat", "k7"); ("chat", "k7")]; leases := [("chat", "k7"); ("chat", "k7")] |}).
  { apply (rtc_l _ _ {| table := tally [("chat", "k7")]; leases := [("chat", "k7")] |});
      [by apply (step_acquire {| table := ∅; leases := [] |} "chat" "k7" 10 2)|].
    apply rtc_once. by apply (step_acquire {| table := tally [("chat", "k7")]; leases := [("chat", "k7")] |} "chat" "k7" 10 2). }
  split; [exact Hr|]. destruct (connections_exact _ "chat" "k7" 10 2 Hr) as (Ha & _ & _ & Hd).
  split; [rewrite Ha; reflexivity|]. apply (Hd [] ("chat", "k7") [("chat", "k7")]). reflexivity.
Defined.
