(* ===== verification/BodyRewrite.v ===== *)
(** * Buffered bodies

    Models [crates/gateway-proxy/src/body_rewrite.rs]: [BoundedBodyRewriter],
    which collects the chunks of a body and hands the whole of it to a rewriting
    function, and [serialize_with_admission], which writes a rewritten body
    piece by piece while charging its growth to the request's admission lease.

    A [Vec<u8>] is its bytes and its capacity.  The allocator is a parameter:
    asked for a capacity it gives at least that, or fails.  The pieces in which
    the JSON writer emits a value are an argument. *)

From S2P Require Import Prelude Errors BodyAdmission.

Record Vec := { vec_bytes : string; capacity : Z }.
Definition vec_new : Vec := {| vec_bytes := ""; capacity := 0 |}.
Definition vec_len (v : Vec) : Z := len (vec_bytes v).
Definition extend_from_slice (v : Vec) (s : string) : Vec :=
  {| vec_bytes := vec_bytes v +:+ s; capacity := Z.max (capacity v) (vec_len v + len s) |}.

Definition saturating_mul (a b : Z) : Z := Z.min usize_max (a * b).

Inductive BodyRewriteOutcome : Type := Suppressed | Emitted.

Record BoundedBodyRewriter := {
  rw_max_bytes : Z;
  allocation_hint : Z;
  rw_expected_length : option Z;
  buffer : Vec
}.

Definition rewriter_new (max_bytes : Z) : BoundedBodyRewriter :=
  {| rw_max_bytes := max_bytes; allocation_hint := max_bytes; rw_expected_length := None; buffer := vec_new |}.
Definition with_expected_length (expected : option Z) (w : BoundedBodyRewriter) : BoundedBodyRewriter :=
  {| rw_max_bytes := rw_max_bytes w;
     allocation_hint := Z.min (default (rw_max_bytes w) expected) (rw_max_bytes w);
     rw_expected_length := (λ n, Z.min n (rw_max_bytes w)) <$> expected;
     buffer := buffer w |}.
Definition set_body (hint : Z) (v : Vec) (w : BoundedBodyRewriter) : BoundedBodyRewriter :=
  {| rw_max_bytes := rw_max_bytes w; allocation_hint := hint;
     rw_expected_length := rw_expected_length w; buffer := v |}.

Definition buffered_len (w : BoundedBodyRewriter) : Z := vec_len (buffer w).

Definition next_capacity (w : BoundedBodyRewriter) (additional : Z) : GatewayResult Z :=
  let? length := ok_or (opt_filter (λ n, n <=? rw_max_bytes w) (checked_add (buffered_len w) additional))
                   RequestBodyTooLarge in
  if length <=? capacity (buffer w) then Ok (capacity (buffer w))
  else
    let hint := if allocation_hint w <? length then rw_max_bytes w else allocation_hint w in
    Ok (Z.min (Z.max (saturating_mul (capacity (buffer w)) 2) length) hint).

Definition take_buffer (w : BoundedBodyRewriter) : BoundedBodyRewriter * Vec :=
  (set_body (allocation_hint w) vec_new w, buffer w).

Definition preview_with_chunk (w : BoundedBodyRewriter) (body : option string) : GatewayResult string :=
  let chunk := default "" body in
  if rw_max_bytes w <? saturating_add (buffered_len w) (len chunk) then Err RequestBodyTooLarge
  else Ok (vec_bytes (buffer w) +:+ chunk).

Section allocator.
(** The capacity got when one is asked for; [None] when there is no memory. *)
Variable alloc : Z → option Z.

Definition try_reserve_exact (v : Vec) (additional : Z) : option Vec :=
  if vec_len v + additional <=? capacity v then Some v
  else (λ c, {| vec_bytes := vec_bytes v; capacity := c |}) <$> alloc (vec_len v + additional).

Definition append_chunk (w : BoundedBodyRewriter) (body : option string) :
    BoundedBodyRewriter * GatewayResult unit :=
  match body with
  | None => (w, Ok tt)
  | Some chunk =>
      match next_capacity w (len chunk) with
      | Err e => (w, Err e)
      | Ok cap =>
          let next_len := saturating_add (buffered_len w) (len chunk) in
          if rw_max_bytes w <? next_len then (w, Err RequestBodyTooLarge)
          else
            let hint := if allocation_hint w <? next_len then rw_max_bytes w else allocation_hint w in
            let reserved :=
              if capacity (buffer w) <? next_len
              then try_reserve_exact (buffer w) (cap - buffered_len w) else Some (buffer w) in
            match reserved with
            | None => (set_body hint (buffer w) w, Err GatewayOverloaded)
            | Some v => (set_body hint (extend_from_slice v chunk) w, Ok tt)
            end
      end
  end.

(** The rewriting function may change a state of its own. *)
Definition filter_chunk {S} (s : S) (w : BoundedBodyRewriter) (body : option string) (end_of_stream : bool)
    (rewrite : S → string → S * GatewayResult string) :
    S * BoundedBodyRewriter * option string * GatewayResult BodyRewriteOutcome :=
  match append_chunk w body with
  | (w, Err e) => (s, w, body, Err e)
  | (w, Ok _) =>
      if end_of_stream then
        match rewrite s (vec_bytes (buffer w)) with
        | (s, Ok rewritten) => (s, set_body (allocation_hint w) vec_new w, Some rewritten, Ok Emitted)
        | (s, Err e) => (s, w, body, Err e)
        end
      else (s, w, Some "", Ok Suppressed)
  end.

(** ** Serialisation *)

(** The controller and the lease the request holds, if any. *)
Definition Admission : Type := BodyAdmissionState * option BodyAdmissionLease.
Definition on_lease (f : BodyAdmissionState → BodyAdmissionLease → outcome) (a : Admission) :
    Admission * GatewayResult unit :=
  match a with
  | (st, None) => ((st, None), Ok tt)
  | (st, Some l) => let '(st, l, r) := f st l in ((st, Some l), r)
  end.

(** One call of the writer: its buffer, and why it refused the bytes. *)
Definition write (maximum : Z) (too_large : GatewayError) (a : Admission) (v : Vec) (bytes : string) :
    Admission * Vec * GatewayResult unit :=
  match opt_filter (λ n, n <=? maximum) (checked_add (vec_len v) (len bytes)) with
  | None => (a, v, Err too_large)
  | Some length =>
      if length <=? capacity v then (a, extend_from_slice v bytes, Ok tt)
      else
        let cap := Z.min (Z.max (saturating_mul (capacity v) 2) length) maximum in
        match on_lease (λ st l, prepare_rewrite st l cap) a with
        | (a, Err e) => (a, v, Err e)
        | (a, Ok _) =>
            match try_reserve_exact v (cap - vec_len v) with
            | None => (a, v, Err GatewayOverloaded)
            | Some v =>
                match on_lease (λ st l, prepare_rewrite st l (capacity v)) a with
                | (a, Err e) => (a, v, Err e)
                | (a, Ok _) => (a, extend_from_slice v bytes, Ok tt)
                end
            end
        end
  end.
(** [serde_json::to_writer] writes its pieces until one is refused. *)
Fixpoint write_pieces (maximum : Z) (too_large : GatewayError) (a : Admission) (v : Vec) (pieces : list string) :
    Admission * Vec * GatewayResult unit :=
  match pieces with
  | [] => (a, v, Ok tt)
  | p :: pieces =>
      if is_empty p then write_pieces maximum too_large a v pieces
      else
        match write maximum too_large a v p with
        | (a, v, Ok _) => write_pieces maximum too_large a v pieces
        | refused => refused
        end
  end.
(** [value_ok] is false when the value itself cannot be written as JSON. *)
Definition serialize_with_admission (maximum : Z) (too_large : GatewayError) (a : Admission)
    (pieces : list string) (value_ok : bool) : Admission * GatewayResult Vec :=
  match on_lease begin_processing a with
  | (a, Err e) => (a, Err e)
  | (a, Ok _) =>
      match write_pieces maximum too_large a vec_new pieces with
      | (a, _, Err e) => (a, Err e)
      | (a, v, Ok _) => (a, if value_ok then Ok v else Err InvalidGuardrailRequest)
      end
  end.
End allocator.

(** ** The rewriter collects the body *)

Record rewriter_ok (w : BoundedBodyRewriter) : Prop := {
  ok_len : vec_len (buffer w) ≤ rw_max_bytes w;
  ok_capacity : vec_len (buffer w) ≤ capacity (buffer w);
  ok_hint : 0 ≤ allocation_hint w ≤ rw_max_bytes w;
  ok_max : rw_max_bytes w ≤ usize_max
}.

Lemma rewriter_new_ok max expected : 0 ≤ max ≤ usize_max → is_none_or (Z.leb 0) expected = true →
  rewriter_ok (with_expected_length expected (rewriter_new max)).
Proof.
  intros Hm He. unfold with_expected_length, rewriter_new.
  split; cbn [buffer allocation_hint rw_max_bytes vec_new capacity]; change (vec_len vec_new) with 0; try lia.
  destruct expected as [n|]; [apply Z.leb_le in He|]; cbn [default id].
  all: lia.
Qed.

(** The next length, when it fits. *)
Lemma next_length w n :
  rewriter_ok w → 0 ≤ n →
  opt_filter (λ m, m <=? rw_max_bytes w) (checked_add (buffered_len w) n)
  = (if buffered_len w + n <=? rw_max_bytes w then Some (buffered_len w + n) else None).
Proof.
  intros [Hl _ _ Hm] Hn. unfold checked_add. destruct (Z.leb_spec (buffered_len w + n) usize_max); cbn [opt_filter].
  - by destruct (_ <=? _).
  - destruct (Z.leb_spec (buffered_len w + n) (rw_max_bytes w)); [lia|done].
Qed.

(** What a reservation asks for holds the next length and respects the limit. *)
Lemma next_capacity_ok w n :
  rewriter_ok w → 0 ≤ n →
  match next_capacity w n with
  | Ok c => buffered_len w + n ≤ rw_max_bytes w ∧ buffered_len w + n ≤ c ∧
      (if buffered_len w + n <=? capacity (buffer w) then c = capacity (buffer w) else c ≤ rw_max_bytes w)
  | Err e => e = RequestBodyTooLarge ∧ rw_max_bytes w < buffered_len w + n
  end.
Proof.
  intros Hw Hn. unfold next_capacity. rewrite next_length by done. destruct Hw as [_ _ Hh Hm].
  destruct (Z.leb_spec (buffered_len w + n) (rw_max_bytes w)); cbn [ok_or]; [|by split].
  destruct (Z.leb_spec (buffered_len w + n) (capacity (buffer w))); [done|].
  destruct (Z.ltb_spec (allocation_hint w) (buffered_len w + n)); lia.
Qed.

Section collecting.
Variable alloc : Z → option Z.
(** The allocator gives at least what it is asked for. *)
Hypothesis alloc_enough : ∀ c c', alloc c = Some c' → c ≤ c'.

Lemma reserve_ok v n v' :
  try_reserve_exact alloc v n = Some v' → vec_bytes v' = vec_bytes v ∧ vec_len v + n ≤ capacity v'.
Proof using alloc_enough.
  unfold try_reserve_exact. destruct (Z.leb_spec (vec_len v + n) (capacity v)); [by intros [= <-]|].
  destruct (alloc _) as [c|] eqn:E; [|done]. intros [= <-]. split; [done|]. by apply alloc_enough in E.
Qed.

(** A chunk is appended whole or refused for a reason; the buffer is unchanged by a refusal. *)
Lemma append_chunk_ok w body w' r :
  rewriter_ok w → append_chunk alloc w body = (w', r) →
  rewriter_ok w' ∧ rw_max_bytes w' = rw_max_bytes w ∧
  match r with
  | Ok _ => vec_bytes (buffer w') = vec_bytes (buffer w) +:+ default "" body
  | Err e => buffer w' = buffer w ∧
      (e = RequestBodyTooLarge ∧ rw_max_bytes w < buffered_len w + len (default "" body) ∨
       e = GatewayOverloaded ∧ buffered_len w + len (default "" body) ≤ rw_max_bytes w ∧ ∃ c, alloc c = None)
  end.
Proof using alloc_enough.
  intros Hw. unfold append_chunk. destruct body as [chunk|]; cbn [default id].
  2:{ intros [= <- <-]. by rewrite append_nil_r. }
  pose proof (len_nonneg chunk) as Hn. pose proof (next_capacity_ok w (len chunk) Hw Hn) as Hc.
  destruct (next_capacity w (len chunk)) as [cap|e].
  2:{ destruct Hc as [-> Hbig]. intros [= <- <-]. split; [done|]. split; [done|]. split; [done|]. by left. }
  destruct Hc as (Hfit & Hcap & _). pose proof Hw as [Hl Hlc Hh Hm].
  assert (Hsat : saturating_add (buffered_len w) (len chunk) = buffered_len w + len chunk)
    by (unfold saturating_add, buffered_len in *; lia).
  rewrite Hsat, (proj2 (Z.ltb_ge (rw_max_bytes w) _)) by lia.
  set (hint := if allocation_hint w <? _ then _ else _).
  assert (Hhint : 0 ≤ hint ≤ rw_max_bytes w) by (subst hint; destruct (_ <? _); lia).
  set (reserved := if capacity (buffer w) <? _ then _ else _).
  assert (Hres : match reserved with
    | Some v => vec_bytes v = vec_bytes (buffer w)
    | None => ∃ c, alloc c = None end).
  { subst reserved. destruct (capacity (buffer w) <? _); [|done].
    destruct (try_reserve_exact alloc (buffer w) _) as [v|] eqn:Er; [by apply reserve_ok in Er as [? _]|].
    unfold try_reserve_exact in Er. destruct (_ <=? _); [done|]. destruct (alloc _) eqn:Ea; [done|]. eauto. }
  destruct reserved as [v|]; intros [= <- <-].
  - assert (Hv : vec_len (extend_from_slice v chunk) = buffered_len w + len chunk)
      by (unfold buffered_len, vec_len; cbn; by rewrite len_append, Hres).
    assert (Hvl : vec_len v = buffered_len w) by (unfold buffered_len, vec_len; by rewrite Hres).
    split; [|split; [done|cbn; by rewrite Hres]].
    split; cbn [set_body buffer rw_max_bytes allocation_hint]; rewrite ?Hv; try done.
    cbn [extend_from_slice capacity]. rewrite Hvl. lia.
  - split; [by split|]. split; [done|]. split; [done|]. right. done.
Qed.
End collecting.

(** The chunks of a body, the last of which ends the stream: what is sent on
    for each, and the outcome. *)
Fixpoint filter_stream {S} (alloc : Z → option Z) (s : S) (w : BoundedBodyRewriter) (chunks : list (option string))
    (rewrite : S → string → S * GatewayResult string) : list (option string) * S * GatewayResult BodyRewriteOutcome :=
  match chunks with
  | [] => ([], s, Ok Suppressed)
  | [c] => let '(s, _, out, r) := filter_chunk alloc s w c true rewrite in ([out], s, r)
  | c :: chunks =>
      match filter_chunk alloc s w c false rewrite with
      | (s, w, out, Ok _) =>
          let '(outs, s, r) := filter_stream alloc s w chunks rewrite in (out :: outs, s, r)
      | (s, _, out, Err e) => ([out], s, Err e)
      end
  end.

Lemma filter_stream_cons {S} alloc (s : S) w c d chunks rewrite :
  filter_stream alloc s w (c :: d :: chunks) rewrite
  = match filter_chunk alloc s w c false rewrite with
    | (s, w, out, Ok _) =>
        let '(outs, s, r) := filter_stream alloc s w (d :: chunks) rewrite in (out :: outs, s, r)
    | (s, _, out, Err e) => ([out], s, Err e)
    end.
Proof. done. Qed.

Definition body_text (chunks : list (option string)) : string := str_join (default "" <$> chunks).

Section streams.
Context {S : Type} (rewrite : S → string → S * GatewayResult string).
Variable alloc : Z → option Z.
(** There is memory: every request is met, with at least what it asks for. *)
Hypothesis alloc_total : ∀ c, ∃ c', alloc c = Some c' ∧ c ≤ c'.

Lemma alloc_at_least c c' : alloc c = Some c' → c ≤ c'.
Proof using alloc_total. destruct (alloc_total c) as (x & Hx & Hc). rewrite Hx. by intros [= <-]. Qed.

Lemma append_chunk_exact w body :
  rewriter_ok w →
  match append_chunk alloc w body with
  | (w', Ok _) => rewriter_ok w' ∧ rw_max_bytes w' = rw_max_bytes w ∧
      vec_bytes (buffer w') = vec_bytes (buffer w) +:+ default "" body ∧
      buffered_len w + len (default "" body) ≤ rw_max_bytes w
  | (w', Err e) => e = RequestBodyTooLarge ∧ rw_max_bytes w < buffered_len w + len (default "" body)
  end.
Proof using alloc_total.
  intros Hw. destruct (append_chunk alloc w body) as [w' r] eqn:E.
  destruct (append_chunk_ok alloc alloc_at_least _ _ _ _ Hw E) as (Hw' & Hm & Hr).
  destruct r as [[]|e].
  - repeat split; try done; try apply Hw'. destruct Hw' as [Hl _ _ _]. unfold vec_len in Hl.
    rewrite Hr, len_append, Hm in Hl. exact Hl.
  - destruct Hr as [_ [[-> Hbig]|(_ & _ & c & Hc)]]; [done|]. destruct (alloc_total c) as (x & Hx & _). congruence.
Qed.

(** The stream from a buffer that already holds [vec_bytes (buffer w)]. *)
Lemma filter_stream_from w c chunks s :
  rewriter_ok w →
  let text := vec_bytes (buffer w) +:+ body_text (c :: chunks) in
  if len text <=? rw_max_bytes w then
    match rewrite s text with
    | (s', Ok out) =>
        filter_stream alloc s w (c :: chunks) rewrite
        = (repeat (Some "") (length chunks) ++ [Some out], s', Ok Emitted)
    | (s', Err e) => ∃ outs, filter_stream alloc s w (c :: chunks) rewrite = (outs, s', Err e)
    end
  else ∃ outs, filter_stream alloc s w (c :: chunks) rewrite = (outs, s, Err RequestBodyTooLarge).
Proof using alloc_total.
  revert w c s. induction chunks as [|d chunks IH]; intros w c s Hw; cbv zeta.
  - pose proof (append_chunk_exact w c Hw) as Ha. unfold body_text. cbn [fmap list_fmap str_join filter_stream length repeat app].
    rewrite append_nil_r, len_append. fold (buffered_len w). unfold filter_chunk.
    destruct (append_chunk alloc w c) as [w' [[]|e]].
    + destruct Ha as (_ & _ & Hb & Hfit). rewrite Hb. rewrite (proj2 (Z.leb_le _ _)) by exact Hfit.
      destruct (rewrite s _) as [s' [out|e]]; [done|by eexists].
    + destruct Ha as [-> Hbig]. rewrite (proj2 (Z.leb_gt _ _)) by exact Hbig. by eexists.
  - pose proof (append_chunk_exact w c Hw) as Ha.
    change (body_text (c :: d :: chunks)) with (default "" c +:+ body_text (d :: chunks)).
    rewrite <- append_assoc, filter_stream_cons. unfold filter_chunk.
    destruct (append_chunk alloc w c) as [w' [[]|e]].
    + destruct Ha as (Hw' & Hm & Hb & Hfit). specialize (IH w' d s Hw'). cbv zeta in IH. rewrite Hb, Hm in IH.
      destruct (_ <=? _).
      * destruct (rewrite s _) as [s' [out|e]].
        -- rewrite IH. done.
        -- destruct IH as [outs ->]. by eexists.
      * destruct IH as [outs ->]. by eexists.
    + destruct Ha as [-> Hbig]. rewrite (proj2 (Z.leb_gt _ _)); [by eexists|].
      rewrite !len_append. pose proof (len_nonneg (body_text (d :: chunks))). unfold buffered_len, vec_len in Hbig. lia.
Qed.
End streams.

(** Whatever the chunks of a body and whatever length was announced, the
    rewriting function is applied exactly once, to the whole body, when the
    body fits the limit; the earlier chunks are replaced by empty ones and its
    result is sent with the last.  A body above the limit is refused, and the
    rewriting function is never called. *)
Theorem body_rewritten_once {S} alloc (rewrite : S → string → S * GatewayResult string) max expected c chunks s :
  (∀ n, ∃ n', alloc n = Some n' ∧ n ≤ n') → 0 ≤ max ≤ usize_max → is_none_or (Z.leb 0) expected = true →
  let text := body_text (c :: chunks) in
  let result := filter_stream alloc s (with_expected_length expected (rewriter_new max)) (c :: chunks) rewrite in
  if len text <=? max then
    match rewrite s text with
    | (s', Ok out) => result = (repeat (Some "") (length chunks) ++ [Some out], s', Ok Emitted)
    | (s', Err e) => ∃ outs, result = (outs, s', Err e)
    end
  else ∃ outs, result = (outs, s, Err RequestBodyTooLarge).
Proof.
  intros Ha Hm He. cbv zeta.
  exact (filter_stream_from rewrite alloc Ha _ c chunks s (rewriter_new_ok max expected Hm He)).
Qed.

Lemma body_rewritten_once_witness :
  filter_stream (λ c, Some c) tt (with_expected_length (Some 3) (rewriter_new 10)) [Some "abcd"; None; Some "efghij"]
    (λ s b, (s, Ok (b +:+ "!")))
  = ([Some ""; Some ""; Some "abcdefghij!"], tt, Ok Emitted) ∧
  ∃ outs, filter_stream (λ c, Some c) tt (with_expected_length (Some 3) (rewriter_new 10)) [Some "abcd"; Some "efghijk"]
    (λ s b, (s, Ok (b +:+ "!"))) = (outs, tt, Err RequestBodyTooLarge).
Proof.
  split.
  - apply (body_rewritten_once (λ c, Some c) (λ s b, (s, Ok (b +:+ "!"))) 10 (Some 3) (Some "abcd") [None; Some "efghij"] tt);
      [intros n; exists n; split; [done|lia]|unfold usize_max; lia|done].
  - apply (body_rewritten_once (λ c, Some c) (λ s b, (s, Ok (b +:+ "!"))) 10 (Some 3) (Some "abcd") [Some "efghijk"] tt);
      [intros n; exists n; split; [done|lia]|unfold usize_max; lia|done].
Defined.

(** ** Growth of the buffer *)

(** How often the buffer moves while chunks are appended. *)
Definition grows (w : BoundedBodyRewriter) (chunk : string) : bool := capacity (buffer w) <? buffered_len w + len chunk.
Fixpoint fill (alloc : Z → option Z) (w : BoundedBodyRewriter) (chunks : list string) :
    GatewayResult (BoundedBodyRewriter * Z) :=
  match chunks with
  | [] => Ok (w, 0)
  | c :: chunks =>
      match append_chunk alloc w (Some c) with
      | (_, Err e) => Err e
      | (w', Ok _) =>
          let? filled := fill alloc w' chunks in
          Ok (filled.1, (if grows w c then 1 else 0) + filled.2)
      end
  end.

Section growth.
Abbreviation exact := (λ c : Z, Some c).
Lemma exact_enough c c' : exact c = Some c' → c ≤ c'.
Proof. intros [= ->]. lia. Qed.

(** Growth that is not doubling: the first block, the block of the announced
    length, the block of the limit. *)
Definition growth_factor (hint max cap : Z) : Z :=
  if hint <? max then (if cap <? hint then 2 else 4) else (if cap <? max then 4 else 8).
Definition doubled (p hint max cap : Z) : Prop := cap = 0 ∧ p = 1 ∨ p ≤ growth_factor hint max cap * cap.

Lemma doubled_grow p hint max cap n :
  0 ≤ cap < n → n ≤ max → 0 ≤ hint ≤ max → max ≤ usize_max → doubled p hint max cap →
  let hint' := if hint <? n then max else hint in
  doubled (p * 2) hint' max (Z.min (Z.max (saturating_mul cap 2) n) hint').
Proof.
  intros Hc Hn Hh Hm Hd. cbv zeta. right. unfold doubled, growth_factor, saturating_mul in *.
  destruct (Z.ltb_spec hint n) as [Hhn|Hhn]; destruct (Z.ltb_spec hint max); rewrite ?Z.ltb_irrefl;
    repeat match goal with |- context [?a <? ?b] => destruct (Z.ltb_spec a b) end;
    repeat match goal with H : context [?a <? ?b] |- _ => destruct (Z.ltb_spec a b) end; lia.
Qed.
Lemma doubled_keep p hint max cap n :
  n ≤ cap → 0 ≤ hint ≤ max → 0 ≤ cap → doubled p hint max cap →
  doubled p (if hint <? n then max else hint) max cap.
Proof.
  intros Hc Hh H0 Hd. unfold doubled, growth_factor in *. destruct Hd as [?|Hd]; [by left|right].
  destruct (Z.ltb_spec hint n) as [Hhn|Hhn]; destruct (Z.ltb_spec hint max); rewrite ?Z.ltb_irrefl;
    repeat match goal with |- context [?a <? ?b] => destruct (Z.ltb_spec a b) end;
    repeat match goal with H : context [?a <? ?b] |- _ => destruct (Z.ltb_spec a b) end; lia.
Qed.

Record growth_ok (w : BoundedBodyRewriter) (r : Z) : Prop := {
  growth_rewriter : rewriter_ok w;
  growth_capacity : capacity (buffer w) ≤ rw_max_bytes w;
  growth_count : 0 ≤ r;
  growth_double : doubled (2 ^ r) (allocation_hint w) (rw_max_bytes w) (capacity (buffer w))
}.

(** What one appended chunk does to capacity and hint. *)
Lemma append_exact w c w' :
  rewriter_ok w → append_chunk exact w (Some c) = (w', Ok tt) →
  let n := buffered_len w + len c in
  let hint := if allocation_hint w <? n then rw_max_bytes w else allocation_hint w in
  n ≤ rw_max_bytes w ∧ rw_max_bytes w' = rw_max_bytes w ∧ allocation_hint w' = hint ∧
  capacity (buffer w') = (if grows w c then Z.min (Z.max (saturating_mul (capacity (buffer w)) 2) n) hint
                          else capacity (buffer w)).
Proof.
  intros Hw. cbv zeta. unfold append_chunk, grows. pose proof (next_capacity_ok w (len c) Hw (len_nonneg c)) as Hc.
  destruct (next_capacity w (len c)) as [cap|] eqn:En; [|done]. destruct Hc as (Hfit & Hcap & Hlim).
  pose proof Hw as [Hl Hlc Hh Hm].
  assert (saturating_add (buffered_len w) (len c) = buffered_len w + len c) as ->
    by (unfold saturating_add, buffered_len in *; lia).
  rewrite (proj2 (Z.ltb_ge (rw_max_bytes w) _)) by lia.
  unfold next_capacity in En. rewrite next_length in En by (done || apply len_nonneg).
  rewrite (proj2 (Z.leb_le (buffered_len w + len c) (rw_max_bytes w))) in En by lia. cbn [ok_or] in En.
  destruct (Z.ltb_spec (capacity (buffer w)) (buffered_len w + len c)) as [Hg|Hg].
  - rewrite (proj2 (Z.leb_gt _ _)) in En by lia. injection En as En.
    unfold try_reserve_exact. replace (vec_len (buffer w) + (cap - buffered_len w)) with cap by (unfold buffered_len; lia).
    rewrite (proj2 (Z.leb_gt cap _)) by lia. cbn [fmap option_fmap option_map].
    intros [= <-]. cbn [set_body rw_max_bytes allocation_hint buffer extend_from_slice capacity vec_len vec_bytes].
    split; [done|]. split; [done|]. split; [done|]. fold (vec_len (buffer w)) (buffered_len w).
    rewrite En. apply Z.max_l. unfold buffered_len, vec_len in *. cbn [vec_bytes]. lia.
  - intros [= <-]. cbn [set_body rw_max_bytes allocation_hint buffer extend_from_slice capacity].
    split; [done|]. split; [done|]. split; [done|]. apply Z.max_l. fold (buffered_len w). lia.
Qed.

Lemma growth_step w r c w' :
  growth_ok w r → append_chunk exact w (Some c) = (w', Ok tt) → growth_ok w' (r + if grows w c then 1 else 0).
Proof.
  intros [Hw Hcap Hr Hd] Ha. destruct (append_exact _ _ _ Hw Ha) as (Hn & Hmax & Hhint & Hc).
  assert (Hw' : rewriter_ok w').
  { by destruct (append_chunk_ok exact exact_enough _ _ _ _ Hw Ha). }
  pose proof Hw as [Hl Hlc Hh Hm]. pose proof (len_nonneg (vec_bytes (buffer w))) as H0. fold (vec_len (buffer w)) in H0.
  unfold grows in *. destruct (Z.ltb_spec (capacity (buffer w)) (buffered_len w + len c)) as [Hg|Hg].
  - split; [done| |lia|].
    + rewrite Hc, Hmax. destruct (allocation_hint w <? buffered_len w + len c); lia.
    + rewrite Z.pow_add_r, Z.pow_1_r, Hc, Hmax, Hhint by lia. apply doubled_grow; (done || lia).
  - split; [done|lia|lia|]. rewrite Z.add_0_r, Hc, Hmax, Hhint. apply doubled_keep; (done || lia).
Qed.

Lemma append_max alloc w body : rw_max_bytes (append_chunk alloc w body).1 = rw_max_bytes w.
Proof.
  unfold append_chunk. destruct body; [|done]. destruct (next_capacity w _); [|done].
  destruct (_ <? saturating_add _ _); [done|].
  by match goal with |- context [match ?r with Some _ => _ | None => _ end] => destruct r end.
Qed.
Lemma fill_max chunks alloc w w' n : fill alloc w chunks = Ok (w', n) → rw_max_bytes w' = rw_max_bytes w.
Proof.
  revert w n. induction chunks as [|c chunks IH]; intros w n; cbn [fill]; [by intros [= <- _]|].
  pose proof (append_max alloc w (Some c)) as Hm. destruct (append_chunk alloc w (Some c)) as [w1 [[]|]]; [|done].
  destruct (fill alloc w1 chunks) as [[w2 m]|] eqn:E; [|done]. intros [= <- _]. apply IH in E. cbn in Hm. congruence.
Qed.

Lemma fill_growth chunks w r w' n :
  growth_ok w r → fill exact w chunks = Ok (w', n) →
  growth_ok w' (r + n) ∧ 0 ≤ n ∧ vec_bytes (buffer w') = vec_bytes (buffer w) +:+ str_join chunks.
Proof.
  revert w r w' n. induction chunks as [|c chunks IH]; intros w r w' n Hw; cbn [fill str_join].
  - intros [= <- <-]. rewrite Z.add_0_r, append_nil_r. done.
  - destruct (append_chunk exact w (Some c)) as [w1 [[]|]] eqn:Ea; [|done].
    destruct (fill exact w1 chunks) as [[w2 m]|] eqn:Ef; [|done]. intros [= <- <-].
    destruct (IH _ _ _ _ (growth_step _ _ _ _ Hw Ea) Ef) as (Hg & Hm & Hb).
    destruct (append_chunk_ok exact exact_enough _ _ _ _ (growth_rewriter _ _ Hw) Ea) as (_ & _ & Hb1).
    rewrite Z.add_assoc. split; [done|]. split; [destruct (grows w c); lia|].
    rewrite Hb, Hb1. apply append_assoc.
Qed.
End growth.

(** With an allocator that gives what it is asked for, the buffer of a
    body never holds more than the limit, and however small the chunks are it
    moves at most about log2(limit) + 3 times: [2^moves] is at most eight
    times the limit. *)
Theorem buffer_growth max expected chunks w moves :
  0 < max ≤ usize_max → is_none_or (Z.leb 0) expected = true →
  fill (λ c, Some c) (with_expected_length expected (rewriter_new max)) chunks = Ok (w, moves) →
  vec_bytes (buffer w) = str_join chunks ∧ capacity (buffer w) ≤ max ∧ 0 ≤ moves ∧ 2 ^ moves ≤ 8 * max.
Proof.
  intros Hmax He Hf.
  assert (Hw : growth_ok (with_expected_length expected (rewriter_new max)) 0).
  { split; [apply rewriter_new_ok; [lia|done]|cbn; lia|done|]. left. done. }
  destruct (fill_growth _ _ _ _ _ Hw Hf) as ([Hok Hc _ Hd] & Hn & Hb). rewrite Z.add_0_l in Hd.
  assert (Hm : rw_max_bytes w = max) by (by apply fill_max in Hf).
  rewrite Hm in *. split; [done|]. split; [done|]. split; [done|].
  destruct Hd as [[_ ->]|Hd]; [lia|]. unfold growth_factor in Hd.
  pose proof (ok_capacity _ Hok). pose proof (len_nonneg (vec_bytes (buffer w))). unfold vec_len in *.
  repeat match goal with H : context [?a <? ?b] |- _ => destruct (a <? b) end; lia.
Qed.

Lemma buffer_growth_witness :
  ∃ w, fill (λ c, Some c) (with_expected_length (Some 9) (rewriter_new 37)) ["a"; "bc"; "defghi"; "j"; "k"] = Ok (w, 4) ∧
       capacity (buffer w) = 18 ∧ 2 ^ 4 ≤ 8 * 37.
Proof.
  eexists. split; [vm_compute; reflexivity|]. split; [reflexivity|].
  eapply (buffer_growth 37 (Some 9) ["a"; "bc"; "defghi"; "j"; "k"]);
    [unfold usize_max; lia|reflexivity|vm_compute; reflexivity].
Defined.

(** ** Serialised bodies are charged *)

(** The charge of a lease covers its buffered input and its rewritten output. *)
Definition charged (st : BodyAdmissionState) (l : BodyAdmissionLease) : Prop :=
  size_policy st ≠ None →
  Z.max (allocation_capacity l) (extent l) + rewrite_capacity l + REQUEST_WORKING_OVERHEAD ≤ working_bytes l.

Lemma working_charge_covers p l length cap proc charge :
  0 ≤ rewrite_capacity l → 0 ≤ length → 0 ≤ workspace_multiplier p →
  working_charge p l length cap proc = Some charge →
  Z.max cap length + rewrite_capacity l + REQUEST_WORKING_OVERHEAD ≤ charge.
Proof.
  intros Hr Hl Hm. unfold working_charge. intros H.
  destruct (if proc || compact_workspace l then _ else _) as [ws|] eqn:Ew; [|done]. cbn [mbind option_bind] in H.
  assert (0 ≤ ws).
  { destruct (proc || compact_workspace l); [|by injection Ew as <-].
    destruct (checked_mul _ _) as [b|] eqn:Eb; [|done]. cbn [mbind option_bind] in Ew. apply checked_mul_Some in Eb as [-> _].
    injection Ew as <-. destruct proc; nia. }
  destruct (checked_add ws _) as [b1|] eqn:E1; [|done]. cbn [mbind option_bind] in H. apply checked_add_Some in E1 as [-> _].
  destruct (checked_add _ (rewrite_capacity l)) as [b2|] eqn:E2; [|done]. cbn [mbind option_bind] in H.
  apply checked_add_Some in E2 as [-> _]. apply checked_add_Some in H as [-> _]. lia.
Qed.

(** A successful update leaves the lease with the charge it computed. *)
Lemma update_working_charge st p l length cap is_large proc st' l' :
  size_policy st = Some p → update_working st l length cap is_large proc = (st', l', Ok tt) →
  working_charge p l length cap proc = Some (working_bytes l') ∧ size_policy st' = Some p ∧
  rewrite_capacity l' = rewrite_capacity l ∧ allocation_capacity l' = allocation_capacity l ∧ extent l' = extent l.
Proof.
  intros Hp. unfold update_working. rewrite Hp. destruct (working_charge p l length cap proc) as [charge|]; [|done].
  cbv zeta. destruct ((charge =? _) && _) eqn:E.
  - intros [= <- <-]. apply andb_true_iff in E as [->%Z.eqb_eq _]. done.
  - destruct (working_rejected _ _ _ _ _); [done|]. by intros [= <- <-].
Qed.

Section serving.
Variables (ls : gmap nat BodyAdmissionLease) (id : nat).
Abbreviation reached st l := (reachable (st, <[id := l]> ls)).

Lemma reached_action st l a st' l' r :
  reached st l → Forall (Z.le 0) (action_args a) → run_action a st l = (st', l', r) → reached st' l'.
Proof.
  intros Hr Ha Hrun. eapply (reachable_action _ _ id) in Hr; [|apply lookup_insert_eq|done|done].
  by rewrite insert_insert_eq in Hr.
Qed.
Lemma reached_wf st l : reached st l → lease_wf st l ∧ config_wf st.
Proof.
  intros H%ledger_reachable_Inv. split; [|apply (inv_config _ H)]. apply (inv_leases _ H id). apply lookup_insert_eq.
Qed.

(** An update for the lease's own extent and capacity charges it in full. *)
Lemma own_update_charged st l0 l is_large proc st' l' :
  reached st l0 → 0 ≤ rewrite_capacity l → extent l = extent l0 →
  update_working st l (extent l) (allocation_capacity l) is_large proc = (st', l', Ok tt) → charged st' l'.
Proof.
  intros Hr Hrw He Hu. destruct (reached_wf _ _ Hr) as [(_ & _ & _ & _ & Hx & _) (_ & _ & _ & _ & Hpol)]. intros Hp.
  destruct (size_policy st) as [p|] eqn:Ep.
  - destruct (update_working_charge _ _ _ _ _ _ _ _ _ Ep Hu) as (Hc & _ & Hrw' & Ha' & He').
    rewrite Hrw', Ha', He'. apply working_charge_covers in Hc; try lia. destruct (Hpol p eq_refl) as (_ & _ & ? & _). lia.
  - unfold update_working in Hu. rewrite Ep in Hu. injection Hu as <- <-. done.
Qed.

Lemma begin_serving st l st' l' r :
  reached st l → begin_processing st l = (st', l', r) →
  reached st' l' ∧ (r = Ok tt → charged st' l' ∧ rewrite_capacity l' = rewrite_capacity l).
Proof.
  intros Hr Hb. split; [by eapply (reached_action _ _ ABegin)|]. intros ->. unfold begin_processing in Hb.
  destruct (update_working _ _ _ _ _ _) as [[st1 l1] [[]|]] eqn:Hu; [|done]. injection Hb as <- <-.
  destruct (reached_wf _ _ Hr) as [(_ & _ & _ & Hrw & _) _].
  split; [exact (own_update_charged _ _ _ _ _ _ _ Hr Hrw eq_refl Hu)|].
  by apply update_working_fields in Hu as (_ & ? & _).
Qed.
Lemma prepare_rewrite_serving st l cap st' l' r :
  reached st l → 0 ≤ cap → prepare_rewrite st l cap = (st', l', r) →
  reached st' l' ∧ (r = Ok tt → charged st' l' ∧ rewrite_capacity l' = Z.max (rewrite_capacity l) cap).
Proof.
  intros Hr Hc Hp. split; [eapply (reached_action _ _ (ARewrite cap)); [done|by repeat constructor|done]|].
  intros ->. unfold prepare_rewrite in Hp.
  destruct (update_working _ _ _ _ _ _) as [[st1 l1] [[]|]] eqn:Hu; [|done]. injection Hp as <- <-.
  split; [change (charged st1 l1); eapply own_update_charged; [exact Hr|..|exact Hu]; cbn; [lia|done]|].
  by apply update_working_fields in Hu as (_ & ? & _).
Qed.

(** What holds of the admission while a body of capacity [cap] is written. *)
Definition serving (a : Admission) (cap : Z) : Prop :=
  match a with
  | (_, None) => True
  | (st, Some l) => reached st l ∧ charged st l ∧ cap ≤ rewrite_capacity l
  end.
Definition held_by (a : Admission) : Prop :=
  match a with (_, None) => True | (st, Some l) => reached st l end.

Lemma on_rewrite_serving a cap n a' r :
  serving a cap → 0 ≤ n → on_lease (λ st l, prepare_rewrite st l n) a = (a', r) →
  held_by a' ∧ (r = Ok tt → serving a' (Z.max cap n)).
Proof.
  destruct a as [st [l|]]; cbn [on_lease serving].
  - intros (Hr & _ & Hc) Hn. destruct (prepare_rewrite st l n) as [[st' l'] r'] eqn:E. intros [= <- <-].
    destruct (prepare_rewrite_serving _ _ _ _ _ _ Hr Hn E) as [Hr' Hok]. split; [done|]. intros ->.
    destruct (Hok eq_refl) as [Hch Hrw]. cbn. rewrite Hrw. split; [done|]. split; [done|]. lia.
  - intros _ _ [= <- <-]. done.
Qed.
Lemma serving_held a cap : serving a cap → held_by a.
Proof. destruct a as [st [l|]]; [by intros (? & _)|done]. Qed.
Lemma serving_le a cap cap' : serving a cap → cap' ≤ cap → serving a cap'.
Proof. destruct a as [st [l|]]; [|done]. cbn. intros (? & ? & ?) ?. split_and!; try done. lia. Qed.

Variables (alloc : Z → option Z) (maximum : Z) (too_large : GatewayError).
Hypothesis alloc_enough : ∀ c c', alloc c = Some c' → c ≤ c'.

Lemma write_serving a v bytes a' v' r :
  serving a (capacity v) → vec_len v ≤ capacity v → write alloc maximum too_large a v bytes = (a', v', r) →
  held_by a' ∧
  (r = Ok tt → serving a' (capacity v') ∧ vec_len v' ≤ capacity v' ∧ vec_len v' ≤ maximum ∧
               vec_bytes v' = vec_bytes v +:+ bytes).
Proof using alloc_enough.
  intros Hs Hv. pose proof (len_nonneg (vec_bytes v)) as H0. pose proof (len_nonneg bytes) as Hb.
  fold (vec_len v) in H0. unfold write.
  destruct (opt_filter _ _) as [n|] eqn:Ef; [|intros [= <- <- <-]; split; [by eapply serving_held|done]].
  unfold opt_filter in Ef. destruct (checked_add _ _) as [m|] eqn:Ea; [|done]. destruct (Z.leb_spec m maximum); [|done].
  injection Ef as ->. apply checked_add_Some in Ea as [-> _].
  assert (Hlen : ∀ w, vec_bytes w = vec_bytes v → vec_len (extend_from_slice w bytes) = vec_len v + len bytes)
    by (intros w Hw; unfold vec_len; cbn; by rewrite len_append, Hw).
  destruct (Z.leb_spec (vec_len v + len bytes) (capacity v)) as [Hfit|Hfit].
  { intros [= <- <- <-]. split; [by eapply serving_held|]. intros _. rewrite Hlen by done.
    cbn [extend_from_slice capacity vec_bytes]. rewrite Z.max_l by lia. done. }
  set (cap := Z.min _ maximum). assert (Hcap : vec_len v + len bytes ≤ cap) by lia.
  destruct (on_lease _ a) as [a1 [[]|e]] eqn:E1; destruct (on_rewrite_serving _ _ cap _ _ Hs ltac:(lia) E1) as [Hh1 Hs1].
  2:{ by intros [= <- <- <-]. }
  specialize (Hs1 eq_refl). destruct (try_reserve_exact alloc v (cap - vec_len v)) as [v1|] eqn:Er.
  2:{ by intros [= <- <- <-]. }
  destruct (reserve_ok alloc alloc_enough _ _ _ Er) as [Hb1 Hc1].
  destruct (on_lease _ a1) as [a2 [[]|e]] eqn:E2; destruct (on_rewrite_serving _ _ (capacity v1) _ _ Hs1 ltac:(lia) E2) as [Hh2 Hs2].
  2:{ by intros [= <- <- <-]. }
  intros [= <- <- <-]. split; [done|]. intros _. specialize (Hs2 eq_refl). rewrite Hlen by done.
  assert (Hvl : vec_len v1 = vec_len v) by (unfold vec_len; by rewrite Hb1).
  cbn [extend_from_slice capacity vec_bytes]. rewrite Hvl, Hb1, (Z.max_l (capacity v1)) by lia.
  split; [eapply serving_le; [done|lia]|]. split; [lia|]. done.
Qed.

Lemma write_pieces_serving pieces a v a' v' r :
  serving a (capacity v) → vec_len v ≤ capacity v → vec_len v ≤ maximum →
  write_pieces alloc maximum too_large a v pieces = (a', v', r) →
  held_by a' ∧ (r = Ok tt → serving a' (capacity v') ∧ vec_len v' ≤ maximum ∧
                            vec_bytes v' = vec_bytes v +:+ str_join pieces).
Proof using alloc_enough.
  revert a v. induction pieces as [|p pieces IH]; intros a v Hs Hv Hm; cbn [write_pieces str_join].
  - intros [= <- <- <-]. rewrite append_nil_r. split; [by eapply serving_held|done].
  - destruct p as [|x p]; [by apply IH|]. cbn [is_empty].
    destruct (write alloc maximum too_large a v _) as [[a1 v1] [[]|e]] eqn:Ew;
      destruct (write_serving _ _ _ _ _ _ Hs Hv Ew) as [Hh Hok]; [|by intros [= <- <- <-]].
    destruct (Hok eq_refl) as (Hs1 & Hv1 & Hm1 & Hb1). intros H. destruct (IH _ _ Hs1 Hv1 Hm1 H) as [Hh' Hok'].
    split; [done|]. intros Hr. destruct (Hok' Hr) as (? & ? & Hb). split; [done|]. split; [done|].
    rewrite Hb, Hb1. apply append_assoc.
Qed.
End serving.

(** A body rewritten under a request's admission lease goes on being
    accounted: whatever the pieces of its text and however the allocator
    rounds, the controller stays in a state its operations can reach, so all
    its limits hold; and when serialisation succeeds the text is complete and
    within the limit, and the lease's charge covers the buffered input and the
    whole allocation of the output. *)
Theorem serialized_charged alloc maximum too_large ls id st l pieces value_ok st' l' r :
  (∀ c c', alloc c = Some c' → c ≤ c') → 0 ≤ maximum → reachable (st, <[id := l]> ls) →
  serialize_with_admission alloc maximum too_large (st, Some l) pieces value_ok = ((st', Some l'), r) →
  reachable (st', <[id := l']> ls) ∧
  (∀ v, r = Ok v → vec_bytes v = str_join pieces ∧ vec_len v ≤ maximum ∧
     (size_policy st' ≠ None →
      Z.max (allocation_capacity l') (extent l') + capacity v + REQUEST_WORKING_OVERHEAD ≤ working_bytes l')).
Proof.
  intros Ha Hm Hr. unfold serialize_with_admission. cbn [on_lease].
  destruct (begin_processing st l) as [[st1 l1] r1] eqn:Eb.
  destruct (begin_serving ls id _ _ _ _ _ Hr Eb) as [Hr1 Hok1]. destruct r1 as [[]|e]; [|by intros [= <- <- <-]].
  destruct (Hok1 eq_refl) as [Hch Hrw].
  assert (Hs : serving ls id (st1, Some l1) (capacity vec_new)).
  { split; [done|]. split; [done|]. apply (reached_wf ls id _ _) in Hr1 as [(_ & _ & _ & ? & _) _]. cbn. lia. }
  destruct (write_pieces _ _ _ _ _ _) as [[a2 v2] r2] eqn:Ew.
  destruct (write_pieces_serving ls id alloc maximum too_large Ha _ _ _ _ _ _ Hs ltac:(done) ltac:(done) Ew) as [Hh Hok].
  destruct r2 as [[]|e]; intros [= -> <-].
  - split; [done|]. intros v Hv. destruct value_ok; [|done]. injection Hv as <-.
    destruct (Hok eq_refl) as ((_ & Hch2 & Hc2) & Hl & Hb). split; [done|]. split; [done|].
    intros Hp. specialize (Hch2 Hp). lia.
  - split; [done|]. by intros v.
Qed.

Lemma serialized_charged_witness :
  ∃ st l v, serialize_with_admission (λ c, Some c) 100 RequestBodyTooLarge (sample_held, Some sample_lease)
              ["{"; "}"] true = ((st, Some l), Ok v) ∧
    vec_bytes v = "{}" ∧ capacity v + REQUEST_WORKING_OVERHEAD ≤ working_bytes l.
Proof.
  destruct (serialize_with_admission (λ c, Some c) 100 RequestBodyTooLarge (sample_held, Some sample_lease)
              ["{"; "}"] true) as [[st [l|]] [v|]] eqn:E; vm_compute in E; try discriminate E.
  exists st, l, v. split; [reflexivity|].
  destruct (serialized_charged (λ c, Some c) 100 RequestBodyTooLarge ∅ 0%nat sample_held sample_lease ["{"; "}"] true
    st l (Ok v) exact_enough ltac:(lia) sample_held_reachable) as [_ H]; [vm_compute; exact E|].
  destruct (H v eq_refl) as (Hb & _ & Hc). split; [exact Hb|].
  injection E as <- <- _. specialize (Hc ltac:(discriminate)). cbn [allocation_capacity extent] in Hc. lia.
Defined.
