(* ===== verification/StreamGuardrails.v ===== *)
(** * Guardrails on streamed responses

    Models [apply_streaming_guardrails] of
    [crates/gateway-proxy/src/pingora_plane.rs]: each chunk of a streamed
    response is joined to the text held back so far, all but the last
    characters are redacted and run through the during-call guardrails, and the
    rest is held back.  Text is its UTF-8 bytes; the guardrail executor is that
    of [Guardrails], the redaction that of [Pii]. *)

From S2P Require Import Prelude Errors Json Guardrails Pii ResponseCost.

(** ** Text *)

Fixpoint str_drop (n : nat) (s : string) : string :=
  match n, s with
  | S n, String _ s => str_drop n s
  | _, _ => s
  end.

Definition is_continuation (c : ascii) : bool := in_range 128 191 (byte_val c).

(** [std::str::from_utf8(..).is_ok()]; [need] continuation bytes are missing,
    the next of them in [lo..hi]. *)
Fixpoint utf8_from (need : nat) (lo hi : Z) (s : string) : bool :=
  match s, need with
  | EmptyString, O => true
  | EmptyString, S _ => false
  | String c s, O =>
      if byte_val c <? 128 then utf8_from O 128 191 s
      else match utf8_lead c with
           | Some (n, lo, hi) => utf8_from (Z.to_nat n) lo hi s
           | None => false
           end
  | String c s, S need => in_range lo hi (byte_val c) && utf8_from need 128 191 s
  end.
Definition utf8_valid (s : string) : bool := utf8_from O 128 191 s.

(** The indices at which characters start. *)
Fixpoint char_starts (i : nat) (s : string) : list nat :=
  match s with
  | EmptyString => []
  | String c s => if is_continuation c then char_starts (S i) s else i :: char_starts (S i) s
  end.

(** ** The step *)

Record StreamState := {
  during_plan : option GuardrailPlan;
  stream_context : option GuardrailContext;
  holdback : string;
  stream_error : option GatewayError;
  stream_events : list GuardrailExecutionEvent
}.
Definition set_holdback (h : string) (s : StreamState) : StreamState :=
  {| during_plan := during_plan s; stream_context := stream_context s; holdback := h;
     stream_error := stream_error s; stream_events := stream_events s |}.
Definition set_stream_error (e : GatewayError) (s : StreamState) : StreamState :=
  {| during_plan := during_plan s; stream_context := stream_context s; holdback := holdback s;
     stream_error := Some e; stream_events := stream_events s |}.
Definition executed (c : GuardrailContext) (events : list GuardrailExecutionEvent) (s : StreamState) : StreamState :=
  {| during_plan := during_plan s; stream_context := Some c; holdback := holdback s;
     stream_error := stream_error s; stream_events := stream_events s ++ events |}.

(** Where the text is cut: its end for the last chunk, else before its last
    65 characters. *)
Definition split_at (end_of_stream : bool) (combined : string) : nat :=
  if end_of_stream then String.length combined
  else if len combined <=? 64 then 0%nat
  else default 0%nat (rev (char_starts 0 combined) !! 64%nat).

Definition value_text (v : Value) : option string :=
  match v with JString s => Some s | _ => None end.

Section streaming.
Variable handlers : string → option (GuardrailInput → GatewayResult GuardrailResult).
Variable latency : GuardrailInput → Z.
Variable now : Z.

(** What is sent on for a stretch of text. *)
Definition release_text (s : StreamState) (text : string) : StreamState * string :=
  let redacted := (redact_pii_text text).1 in
  match during_plan s, stream_context s with
  | Some plan, Some context =>
      match execute handlers latency plan DuringCall context None (Some (JString redacted)) with
      | Ok ex =>
          (executed (ex_context ex) (execution_events_from_records (ex_context ex) (ex_records ex) now) s,
           default "" (ex_response ex ≫= value_text))
      | Err e => (set_stream_error e s, "")
      end
  | _, _ => (s, redacted)
  end.

Definition apply_streaming_guardrails (s : StreamState) (body : option string) (end_of_stream : bool) :
    StreamState * option string :=
  match body with
  | None =>
      if end_of_stream && negb (is_empty (holdback s))
      then (set_holdback "" s, Some (redact_pii_text (holdback s)).1) else (s, None)
  | Some chunk =>
      if negb (utf8_valid chunk) then (set_stream_error GuardrailUnavailable s, Some "")
      else
        let combined := holdback s +:+ chunk in
        let at_ := split_at end_of_stream combined in
        let '(s, out) := release_text (set_holdback (str_drop at_ combined) s) (str_take at_ combined) in
        (s, Some out)
  end.

(** A stream of chunks, ended by the last of them or by an empty call. *)
Fixpoint stream_chunks (s : StreamState) (chunks : list string) : StreamState * list string :=
  match chunks with
  | [] => (s, [])
  | c :: chunks =>
      let '(s, out) := apply_streaming_guardrails s (Some c) false in
      let '(s, outs) := stream_chunks s chunks in
      (s, default "" out :: outs)
  end.
Definition stream_to_end (s : StreamState) (chunks : list string) : StreamState * list string :=
  let '(s, outs) := stream_chunks s chunks in
  let '(s, out) := apply_streaming_guardrails s None true in
  (s, outs ++ match out with Some t => [t] | None => [] end).
End streaming.

(** ** Nothing is lost, repeated or reordered *)

Definition characters (s : string) : Z := Z.of_nat (length (char_starts 0 s)).

Lemma take_drop_str n s : str_take n s +:+ str_drop n s = s.
Proof. revert s. induction n as [|n IH]; intros [|c s]; [done..|]. cbn. by rewrite IH. Qed.

Lemma char_starts_shift i s : char_starts (S i) s = S <$> char_starts i s.
Proof.
  revert i. induction s as [|c s IH]; intros i; [done|]. cbn [char_starts].
  destruct (is_continuation c); rewrite IH; done.
Qed.
Lemma char_starts_le i s : (length (char_starts i s) ≤ String.length s)%nat.
Proof. revert i. induction s as [|c s IH]; intros i; [done|]. cbn. specialize (IH (S i)). destruct (is_continuation c); cbn; lia. Qed.
Lemma char_starts_ge i s : Forall (λ j, (i ≤ j)%nat) (char_starts i s).
Proof.
  revert i. induction s as [|c s IH]; intros i; [done|]. cbn.
  assert (Forall (λ j, (i ≤ j)%nat) (char_starts (S i) s)) by (eapply Forall_impl; [apply IH|intros j Hj; cbv beta in *; lia]).
  by destruct (is_continuation c); [|constructor].
Qed.

(** Cutting where the [k+1]st character from the end starts leaves [k+1]. *)
Lemma characters_cut i s pre k post :
  char_starts i s = pre ++ k :: post →
  (i ≤ k)%nat ∧ length (char_starts 0 (str_drop (k - i) s)) = S (length post).
Proof.
  revert i pre. induction s as [|c s IH]; intros i pre H; [by destruct pre|].
  assert (Hk : (i ≤ k)%nat).
  { pose proof (char_starts_ge i (String c s)) as Hf. rewrite H in Hf. apply Forall_app in Hf as [_ Hf].
    by inversion Hf. }
  split; [done|]. cbn [char_starts] in H.
  assert (Hlater : ∀ pre, char_starts (S i) s = pre ++ k :: post →
    length (char_starts 0 (str_drop (k - i) (String c s))) = S (length post)).
  { intros pre' H'. destruct (IH _ _ H') as [Hle IH']. replace (k - i)%nat with (S (k - S i)) by lia. done. }
  destruct (is_continuation c) eqn:E; [by eapply Hlater|].
  destruct pre as [|p pre]; [|injection H as _ H; by eapply Hlater].
  injection H as -> H. rewrite Nat.sub_diag. cbn [str_drop char_starts]. rewrite E. cbn [length].
  f_equal. rewrite <- H, !char_starts_shift, !length_fmap.
  clear. revert k. induction s as [|c s IH]; intros k; [done|]. cbn.
  rewrite !char_starts_shift. destruct (is_continuation c); cbn; rewrite ?length_fmap; [|f_equal]; apply IH.
Qed.

Lemma split_at_held combined : characters (str_drop (split_at false combined) combined) ≤ 65.
Proof.
  unfold split_at, characters. cbn [andb]. destruct (Z.leb_spec (len combined) 64) as [H|H].
  { pose proof (char_starts_le 0 combined). unfold len in H. cbn [str_drop]. destruct combined; lia. }
  destruct (rev (char_starts 0 combined) !! 64%nat) as [k|] eqn:E; cbn [default id].
  - apply list_elem_of_split_length in E as (l1 & l2 & Hr & Hl).
    apply (f_equal (@rev nat)) in Hr. rewrite rev_involutive, rev_app_distr in Hr. cbn [rev] in Hr.
    rewrite <- app_assoc in Hr. cbn [app] in Hr. apply characters_cut in Hr as [_ Hc].
    rewrite Nat.sub_0_r in Hc. rewrite Hc, length_rev. lia.
  - apply lookup_ge_None in E. rewrite length_rev in E. destruct combined; cbn [str_drop]; lia.
Qed.

Section segments.
Variable handlers : string → option (GuardrailInput → GatewayResult GuardrailResult).
Variable latency : GuardrailInput → Z.
Variable now : Z.
Abbreviation release := (release_text handlers latency now).
Abbreviation step := (apply_streaming_guardrails handlers latency now).

(** Stretches of text released one after the other. *)
Fixpoint release_all (s : StreamState) (segs : list string) : StreamState * list string :=
  match segs with
  | [] => (s, [])
  | t :: segs =>
      let '(s, out) := release s t in
      let '(s, outs) := release_all s segs in
      (s, out :: outs)
  end.

Lemma release_holdback h s t :
  release (set_holdback h s) t = (set_holdback h (release s t).1, (release s t).2).
Proof.
  unfold release_text. cbn [set_holdback during_plan stream_context].
  destruct (during_plan s), (stream_context s); try done. by destruct (execute _ _ _ _ _ _ _).
Qed.
Lemma set_holdback_twice h h' s : set_holdback h (set_holdback h' s) = set_holdback h s.
Proof. done. Qed.

Lemma step_segment s c :
  utf8_valid c = true →
  ∃ seg rest, holdback s +:+ c = seg +:+ rest ∧ characters rest ≤ 65 ∧
    step s (Some c) false = (set_holdback rest (release s seg).1, Some (release s seg).2).
Proof.
  intros Hv. unfold apply_streaming_guardrails. rewrite Hv. cbn [negb]. cbv zeta.
  set (combined := holdback s +:+ c).
  exists (str_take (split_at false combined) combined), (str_drop (split_at false combined) combined).
  split; [by rewrite take_drop_str|]. split; [apply split_at_held|]. by rewrite release_holdback.
Qed.

Lemma release_all_holdback h s segs :
  release_all (set_holdback h s) segs = (set_holdback h (release_all s segs).1, (release_all s segs).2).
Proof.
  revert s. induction segs as [|t segs IH]; intros s; [done|]. cbn [release_all]. rewrite release_holdback.
  destruct (release s t) as [s1 o]. cbn [fst snd]. rewrite IH. by destruct (release_all s1 segs).
Qed.

Lemma chunks_segments chunks s :
  Forall (λ c, utf8_valid c = true) chunks → characters (holdback s) ≤ 65 →
  ∃ segs rest, holdback s +:+ str_join chunks = str_join segs +:+ rest ∧ length segs = length chunks ∧
    characters rest ≤ 65 ∧
    stream_chunks handlers latency now s chunks = (set_holdback rest (release_all s segs).1, (release_all s segs).2).
Proof.
  intros Hv. revert s. induction Hv as [|c chunks Hc _ IH]; intros s Hs.
  - exists [], (holdback s). cbn. rewrite append_nil_r. split; [done|]. split; [done|]. split; [done|].
    f_equal. by destruct s.
  - destruct (step_segment s c Hc) as (seg & rest & Heq & Hr & Hstep). cbn [stream_chunks str_join]. rewrite Hstep.
    destruct (IH (set_holdback rest (release s seg).1) Hr) as (segs & tail & Heq' & Hl & Ht & ->).
    exists (seg :: segs), tail. cbn [str_join release_all length]. rewrite release_all_holdback.
    destruct (release s seg) as [s1 o]. cbn [fst snd]. destruct (release_all s1 segs) as [s2 os]. cbn [fst snd].
    split; [|by split_and!; [f_equal|..]]. rewrite <- append_assoc, Heq, !append_assoc. f_equal. exact Heq'.
Qed.
End segments.

(** A streamed response reaches the client whole: for any chunks of valid
    text there are consecutive stretches of it, one per chunk, each redacted
    and run through the during-call guardrails once and in order, whose
    outcomes are what is sent; the at most 65 characters that remain at the
    end are redacted and sent last, and nothing stays behind. *)
Theorem stream_segments handlers latency now s chunks :
  Forall (λ c, utf8_valid c = true) chunks → holdback s = "" →
  ∃ segs rest, str_join chunks = str_join segs +:+ rest ∧ length segs = length chunks ∧ characters rest ≤ 65 ∧
    stream_to_end handlers latency now s chunks
    = (set_holdback "" (release_all handlers latency now s segs).1,
       (release_all handlers latency now s segs).2
       ++ (if is_empty rest then [] else [(redact_pii_text rest).1])).
Proof.
  intros Hv Hh. destruct (chunks_segments handlers latency now chunks s Hv) as (segs & rest & Heq & Hl & Hr & Hs).
  { by rewrite Hh. }
  rewrite Hh in Heq. exists segs, rest. split; [done|]. split; [done|]. split; [done|].
  unfold stream_to_end. rewrite Hs. unfold apply_streaming_guardrails. cbn [set_holdback holdback andb].
  destruct (is_empty rest) eqn:E; cbn [negb].
  - destruct rest; [|done]. done.
  - by rewrite set_holdback_twice.
Qed.

(** ** The built-in guardrail on streams *)

Definition pii_handlers (n : string) : option (GuardrailInput → GatewayResult GuardrailResult) :=
  map_get n (guardrail_executor_for_definitions (λ _ _, Err GuardrailUnavailable) [pii_redact_definition]).
Definition empty_context : GuardrailContext :=
  {| request_id := ""; key_id := None; team_id := None; user_id := None; project_id := None; model := None;
     route := None; provider := None; pii_mappings := []; applied_guardrails := []; guardrail_results := [] |}.
Definition pii_stream : StreamState :=
  {| during_plan := Some [pii_redact_definition]; stream_context := Some empty_context; holdback := "";
     stream_error := None; stream_events := [] |}.

Lemma stream_segments_witness :
  ∃ segs rest, "mail alice@example.com now" = str_join segs +:+ rest ∧
    stream_to_end pii_handlers (λ _, 0) 0 pii_stream ["mail alice@"; "example.com now"]
    = (set_holdback "" (release_all pii_handlers (λ _, 0) 0 pii_stream segs).1,
       [""; ""; "mail [EMAIL_1] now"]).
Proof.
  destruct (stream_segments pii_handlers (λ _, 0) 0 pii_stream ["mail alice@"; "example.com now"]) as (segs & rest & Hj & _ & _ & Hs).
  - repeat constructor; vm_compute; reflexivity.
  - reflexivity.
  - exists segs, rest. split; [exact Hj|]. rewrite Hs. f_equal.
    apply (f_equal snd) in Hs. cbn [snd] in Hs. rewrite <- Hs. vm_compute. reflexivity.
Defined.

(** A number that lies across the cut is sent in the clear, in two halves,
    although redaction of the whole text removes it. *)
Theorem straddling_number_leaks :
  let chunk := "call 555-123-4567 and then nothing else but a few more words, to the very end" in
  (split_at false chunk = 12%nat ∧
   str_join (stream_to_end pii_handlers (λ _, 0) 0 pii_stream [chunk]).2 = chunk) ∧
  (redact_pii_text chunk).1 = "call [PHONE_1] and then nothing else but a few more words, to the very end".
Proof. cbv zeta. split; [split|]; vm_compute; reflexivity. Qed.

(** Text that is still held back when the stream ends without a chunk is
    never shown to the during-call guardrails, whatever they are. *)
Theorem held_text_unchecked handlers latency now s text :
  utf8_valid text = true → len text ≤ 64 → is_empty text = false → holdback s = "" →
  stream_to_end handlers latency now s [text]
  = (set_holdback "" (release_text handlers latency now s "").1,
     [(release_text handlers latency now s "").2; (redact_pii_text text).1]).
Proof.
  intros Hv Hl Hne Hh. unfold stream_to_end. cbn [stream_chunks]. unfold apply_streaming_guardrails.
  rewrite Hv, Hh. cbn [negb String.append]. cbv zeta.
  assert (split_at false text = 0%nat) as -> by (unfold split_at; by rewrite (proj2 (Z.leb_le _ _))).
  assert (str_take 0 text = "" ∧ str_drop 0 text = text) as [-> ->] by (by destruct text).
  rewrite release_holdback. cbn [set_holdback holdback andb]. by rewrite Hne.
Qed.

(** A character cut by a chunk boundary is dropped with the rest of both chunks. *)
Theorem split_character_lost :
  let first := bytes_of [99; 97; 102; 195] in
  let second := bytes_of [169; 33] in
  utf8_valid (first +:+ second) = true ∧
  (stream_to_end pii_handlers (λ _, 0) 0 pii_stream [first; second]).2 = [""; ""].
Proof. cbv zeta. split; vm_compute; reflexivity. Qed.
