(* ===== verification/RequestBody.v ===== *)
(** * Collecting request bodies

    Models the part of [request_body_filter] of
    [crates/gateway-proxy/src/pingora_plane.rs] that runs for every chunk of a
    request body until the body is complete: the checks on the bytes seen so
    far, the decision to stream the body through, and the collection of the
    body under an admission lease.  The stages that follow, on the complete
    body, are in [CompleteBody].

    It composes the rewriter of [BodyRewrite] with the controller of
    [BodyAdmission]; the theorem says that whatever is buffered is paid for. *)

From S2P Require Import Prelude Errors Routing Json GuardrailPolicy Policies Guardrails BodyAdmission BodyRewrite EndpointAccess Foundry ServiceTypes.

(** The fields of the request context that do not change between chunks. *)
Record BodyContext := {
  body_match : option RouteMatch;
  body_policy : option KeyPolicy;
  body_passthrough : bool;
  body_direct_passthrough : bool;
  body_budget_reserved : bool;
  body_content_type : option string;
  body_foundry : option FoundryBinding;
  body_pricing_rules : list ServicePricingRule;
  body_guardrail_definitions : list GuardrailDefinition;
  body_guardrail_policy : GuardrailPolicy
}.

(** The fields that do. *)
Record RequestBody := {
  guardrail_error : option GatewayError;
  body_bytes_seen : Z;
  body_prefix : string;
  request_rewriter : option BoundedBodyRewriter;
  request_body_lease : option BodyAdmissionLease
}.
Definition set_body_error (e : GatewayError) (b : RequestBody) : RequestBody :=
  {| guardrail_error := Some e; body_bytes_seen := body_bytes_seen b; body_prefix := body_prefix b;
     request_rewriter := request_rewriter b; request_body_lease := request_body_lease b |}.
Definition set_collected (w : BoundedBodyRewriter) (l : option BodyAdmissionLease) (b : RequestBody) : RequestBody :=
  {| guardrail_error := guardrail_error b; body_bytes_seen := body_bytes_seen b; body_prefix := body_prefix b;
     request_rewriter := Some w; request_body_lease := l |}.

Definition is_json_content_type (content_type : string) : bool :=
  let media_type := to_ascii_lowercase (trim (before ";" content_type)) in
  String.eqb media_type "application/json" || ends_with media_type "+json".

Definition managed_service_request_can_stream (c : BodyContext) : bool :=
  match body_policy c with
  | None => false
  | Some policy =>
      if negb (is_nil (allowed_models policy)) || negb (allow_streaming policy) || negb (allow_tools policy)
         || is_some (tpm_limit policy) || is_some (max_input_tokens_per_request policy)
         || is_some (max_output_tokens_per_request policy)
      then false
      else
        let is_service := is_some (body_match c ≫= rm_service_name) in
        let is_non_json := is_some_and (λ t, negb (is_json_content_type t)) (body_content_type c) in
        if is_some (body_foundry c) || negb is_service || negb is_non_json || negb (is_nil (body_pricing_rules c))
        then false
        else
          match resolve_guardrail_plan
                  {| plan_mode := PreCall; definitions := body_guardrail_definitions c;
                     policies := {| key_policy := body_guardrail_policy c; team_policy := None;
                                    route_policy := None; model_policy := None |};
                     client_requested_guardrails := [] |} with
          | Ok plan => is_nil plan
          | Err _ => false
          end
  end.

(** What a call does with the chunk: it forwards it, keeps it and sends an
    empty chunk instead, hands on the complete body, or fails the request. *)
Inductive filtered : Type :=
| Forwarded
| Withheld
| Complete (raw_body : string)
| Failed.

(** [i64::try_from(..).ok()]. *)
Definition i64_of_usize (n : Z) : option Z := if n <=? i64_max then Some n else None.

Section collecting.
Variable alloc : Z → option Z.
(** The wall clock and the monotonic clock. *)
Variables utc_now instant : Z.

(** The checks made as soon as a chunk arrives. *)
Definition note_chunk (c : BodyContext) (b : RequestBody) (chunk : string) : RequestBody * GatewayResult unit :=
  let b :=
    {| guardrail_error := guardrail_error b;
       body_bytes_seen := saturating_add (body_bytes_seen b) (len chunk);
       body_prefix := if len (body_prefix b) <? 65536
                      then body_prefix b +:+ str_take (Z.to_nat (Z.min (len chunk) (65536 - len (body_prefix b)))) chunk
                      else body_prefix b;
       request_rewriter := request_rewriter b; request_body_lease := request_body_lease b |} in
  if is_some_and (λ m, rm_max_body_bytes m <? body_bytes_seen b) (body_match c)
  then (set_body_error RequestBodyTooLarge b, Err RequestBodyTooLarge)
  else
    match body_policy c with
    | None => (b, Ok tt)
    | Some policy =>
        match evaluate_policy_limits policy utc_now (i64_of_usize (body_bytes_seen b)) None None None None with
        | Err e => (set_body_error e b, Err e)
        | Ok _ => (b, Ok tt)
        end
    end.

(** Drop the buffer and the lease, and record the error. *)
Definition abandon (st : BodyAdmissionState) (b : RequestBody) (w : BoundedBodyRewriter)
    (l : option BodyAdmissionLease) (e : GatewayError) : BodyAdmissionState * RequestBody * filtered :=
  (match l with Some l => drop_lease st l | None => st end,
   set_body_error e (set_collected (take_buffer w).1 None b), Failed).

(** The lease of a non-empty chunk, acquired for the first one. *)
Definition chunk_lease (st : BodyAdmissionState) (b : RequestBody) (w : BoundedBodyRewriter) :
    BodyAdmissionState * GatewayResult BodyAdmissionLease :=
  match request_body_lease b with
  | Some l => (st, Ok l)
  | None => try_acquire_sized st instant (rw_expected_length w)
  end.
(** Charge the lease for the chunk before it is buffered. *)
Definition reserve_chunk (st : BodyAdmissionState) (l : BodyAdmissionLease) (w : BoundedBodyRewriter) (chunk_len : Z) :
    BodyAdmissionState * BodyAdmissionLease * GatewayResult unit :=
  match next_capacity w chunk_len with
  | Err e => (st, l, Err e)
  | Ok cap =>
      match prepare_buffer st l (saturating_add (buffered_len w) chunk_len) cap with
      | (st, l, Err e) => (st, l, Err e)
      | (st, l, Ok _) => try_reserve st l chunk_len
      end
  end.

(** Append the chunk, settle the charge on the real capacity and, at the end
    of the stream, hand the buffer over. *)
Definition append_charged (st : BodyAdmissionState) (b : RequestBody) (w : BoundedBodyRewriter)
    (l : option BodyAdmissionLease) (body : option string) (end_of_stream : bool) :
    BodyAdmissionState * RequestBody * filtered :=
  match append_chunk alloc w body with
  | (w, Err e) => abandon st b w l e
  | (w, Ok _) =>
      match on_lease (λ st l, prepare_buffer st l (buffered_len w) (capacity (buffer w))) (st, l) with
      | (st, l, Err e) => abandon st b w l e
      | (st, l, Ok _) =>
          if negb end_of_stream then (st, set_collected w l b, Withheld)
          else
            match on_lease begin_processing (st, l) with
            | (st, l, Err e) => abandon st b w l e
            | (st, l, Ok _) => (st, set_collected (take_buffer w).1 l b, Complete (vec_bytes (take_buffer w).2))
            end
      end
  end.

(** A chunk is collected. *)
Definition collect_chunk (st : BodyAdmissionState) (b : RequestBody) (w : BoundedBodyRewriter)
    (body : option string) (end_of_stream : bool) : BodyAdmissionState * RequestBody * filtered :=
  let chunk_len := len (default "" body) in
  if 0 <? chunk_len then
    match chunk_lease st b w with
    | (st, Err e) => (st, set_body_error e b, Failed)
    | (st, Ok l) =>
        match reserve_chunk st l w chunk_len with
        | (st, l, Err e) => abandon st b w (Some l) e
        | (st, l, Ok _) =>
            if is_some_and (λ remaining, remaining =? 0) (upload_remaining st l instant)
            then abandon st b w (Some l) GatewayOverloaded
            else append_charged st b w (Some l) body end_of_stream
        end
    end
  else append_charged st b w (request_body_lease b) body end_of_stream.

(** The whole call, up to the stages on the complete body. *)
Definition request_body_filter (c : BodyContext) (st : BodyAdmissionState) (b : RequestBody)
    (body : option string) (end_of_stream : bool) : BodyAdmissionState * RequestBody * filtered :=
  if is_some (guardrail_error b) then (st, b, Failed)
  else
    match match body with Some chunk => note_chunk c b chunk | None => (b, Ok tt) end with
    | (b, Err _) => (st, b, Failed)
    | (b, Ok _) =>
        if (body_passthrough c && body_direct_passthrough c) || managed_service_request_can_stream c
           || (body_budget_reserved c && (body_bytes_seen b =? 0) && end_of_stream)
        then (st, b, Forwarded)
        else
          match request_rewriter b with
          | None => (st, b, Forwarded)
          | Some w => collect_chunk st b w body end_of_stream
          end
    end.
End collecting.

(** ** Charging the buffer *)

Section charging.
Variables (ls : gmap nat BodyAdmissionLease) (me : nat).
Abbreviation reached st l := (reachable (st, <[me := l]> ls)).

Lemma prepare_buffer_charged st l n cap st' l' r :
  reached st l → 0 ≤ n → 0 ≤ cap → prepare_buffer st l n cap = (st', l', r) →
  reached st' l' ∧
  (r = Ok tt → charged st' l' ∧ allocation_capacity l' = Z.max (allocation_capacity l) cap ∧
               reserved_bytes l' = reserved_bytes l ∧ n ≤ extent l').
Proof.
  intros Hr Hn Hc Hp.
  split; [eapply (reached_action _ _ _ _ (APrepare n cap)); [done|by repeat constructor|done]|].
  intros ->. destruct (reached_wf _ _ _ _ Hr) as [(_ & _ & Ha & Hrw & _) (_ & _ & _ & _ & Hpol)].
  unfold prepare_buffer in Hp. set (ext := Z.max n _) in Hp. set (cap' := Z.max (allocation_capacity l) cap) in Hp.
  destruct (update_working _ _ _ _ _ _) as [[st1 l1] [[]|]] eqn:Hu; [|done]. injection Hp as <- <-.
  pose proof (update_working_fields _ _ _ _ _ _ _ _ _ Hu) as (_ & Hrw1 & _ & _ & Hres).
  split; [|split; [done|split; [done|cbn; lia]]]. intros Hp. cbn [set_buffer allocation_capacity extent rewrite_capacity working_bytes].
  destruct (size_policy st) as [p|] eqn:Ep.
  - destruct (update_working_charge _ _ _ _ _ _ _ _ _ Ep Hu) as (Hch & _). rewrite Hrw1.
    apply working_charge_covers in Hch; try lia. destruct (Hpol p eq_refl) as (_ & _ & ? & _). lia.
  - unfold update_working in Hu. rewrite Ep in Hu. injection Hu as <- <-. congruence.
Qed.

Lemma try_reserve_charged st l n st' l' r :
  reached st l → charged st l → 0 ≤ n → try_reserve st l n = (st', l', r) →
  reached st' l' ∧ (r = Ok tt → charged st' l' ∧ allocation_capacity l' = allocation_capacity l ∧
                                reserved_bytes l' = reserved_bytes l + n ∧ extent l' = extent l).
Proof.
  intros Hr Hch Hn Ht.
  split; [eapply (reached_action _ _ _ _ (AReserve n)); [done|by repeat constructor|done]|].
  intros ->. eapply try_reserve_ok in Ht as (-> & -> & _); [done|by apply ledger_reachable_Inv|apply lookup_insert_eq|done].
Qed.

(** What holds of a lease that pays for a buffer of [n] bytes and capacity [cap]. *)
Definition pays (st : BodyAdmissionState) (l : option BodyAdmissionLease) (n cap : Z) : Prop :=
  match l with
  | None => reachable (st, ls) ∧ ls !! me = None ∧ n = 0 ∧ cap = 0
  | Some l => reached st l ∧ charged st l ∧ reserved_bytes l = n ∧ cap ≤ allocation_capacity l ∧ ls !! me = None
  end.
Definition released (st : BodyAdmissionState) (b : RequestBody) : Prop :=
  reachable (st, ls) ∧ request_body_lease b = None ∧ is_some (guardrail_error b) = true ∧
  is_some_and (λ w, String.eqb (vec_bytes (buffer w)) "") (request_rewriter b) = true.

Lemma abandon_released st b w l e :
  match l with Some l => reached st l | None => reachable (st, ls) end → ls !! me = None →
  ∃ st' b', abandon st b w l e = (st', b', Failed) ∧ released st' b'.
Proof.
  intros Hr Hid. eexists _, _. split; [reflexivity|]. split; [|done]. destruct l as [l|]; [|done].
  eapply (reachable_drop _ _ me) in Hr; [|apply lookup_insert_eq]. by rewrite delete_insert_id in Hr.
Qed.

Variable alloc : Z → option Z.
Hypothesis alloc_enough : ∀ c c', alloc c = Some c' → c ≤ c'.
Variables utc_now instant : Z.

(** The state before a chunk of [n] bytes is appended, its bytes reserved. *)
Definition ready (st : BodyAdmissionState) (l : option BodyAdmissionLease) (w : BoundedBodyRewriter) (n : Z) : Prop :=
  match l with
  | None => reachable (st, ls) ∧ ls !! me = None ∧ buffered_len w = 0 ∧ capacity (buffer w) = 0 ∧ n = 0
  | Some l => reached st l ∧ charged st l ∧ reserved_bytes l = buffered_len w + n ∧ ls !! me = None
  end.

(** A request that collects [text] under the limit and announcement of [w0]. *)
Record collecting (w0 : BoundedBodyRewriter) (st : BodyAdmissionState) (b : RequestBody) (text : string) : Prop := {
  col_rewriter : ∃ w, request_rewriter b = Some w ∧ rewriter_ok w ∧ rw_max_bytes w = rw_max_bytes w0 ∧
    rw_expected_length w = rw_expected_length w0 ∧ vec_bytes (buffer w) = text ∧
    pays st (request_body_lease b) (len text) (capacity (buffer w));
  col_healthy : guardrail_error b = None
}.
(** One that has collected all of [text]. *)
Definition collected (w0 : BoundedBodyRewriter) (st : BodyAdmissionState) (b : RequestBody) (text : string) : Prop :=
  len text ≤ rw_max_bytes w0 ∧ ∃ cap, len text ≤ cap ∧ pays st (request_body_lease b) (len text) cap.

Definition call_ok (w0 : BoundedBodyRewriter) (text : string) (r : BodyAdmissionState * RequestBody * filtered) : Prop :=
  match r with
  | (st, b, Withheld) => collecting w0 st b text
  | (st, b, Complete raw) => raw = text ∧ collected w0 st b text
  | (st, b, Failed) => released st b
  | (_, _, Forwarded) => False
  end.

Lemma append_expected w body : rw_expected_length (append_chunk alloc w body).1 = rw_expected_length w.
Proof.
  unfold append_chunk. destruct body; [|done]. destruct (next_capacity w _); [|done].
  destruct (_ <? saturating_add _ _); [done|].
  by match goal with |- context [match ?r with Some _ => _ | None => _ end] => destruct r end.
Qed.
(** An empty chunk leaves an empty buffer unallocated. *)
Lemma append_empty w body w' :
  buffered_len w = 0 → capacity (buffer w) = 0 → len (default "" body) = 0 →
  append_chunk alloc w body = (w', Ok tt) → capacity (buffer w') = 0.
Proof.
  intros Hl Hc Hn. unfold append_chunk. destruct body as [chunk|]; cbn [default id] in Hn; [|by intros [= <-]].
  rewrite Hn, Hl. destruct (next_capacity w 0); [|done]. change (saturating_add 0 0) with 0.
  destruct (_ <? 0); [done|]. rewrite Hc. cbn [Z.ltb Z.compare]. intros [= <-].
  cbn [set_body buffer extend_from_slice capacity]. unfold buffered_len in Hl. rewrite Hl, Hc, Hn. done.
Qed.

Lemma on_prepare_buffer st l w n st' l' r :
  ready st l w n → rewriter_ok w → 0 ≤ n →
  ∀ w', buffered_len w' = buffered_len w + n → buffered_len w' ≤ capacity (buffer w') →
  (l = None → capacity (buffer w') = 0) →
  on_lease (λ st l, prepare_buffer st l (buffered_len w') (capacity (buffer w'))) (st, l) = (st', l', r) →
  match r with
  | Ok _ => pays st' l' (buffered_len w') (capacity (buffer w'))
  | Err _ => match l' with Some l' => reached st' l' | None => reachable (st', ls) end
  end.
Proof.
  intros Hready Hw Hn w' Hlen Hcap Hnone. pose proof (len_nonneg (vec_bytes (buffer w'))) as H0.
  assert (H1 : 0 ≤ capacity (buffer w')) by (unfold buffered_len, vec_len in Hcap; lia).
  destruct l as [l|]; cbn [on_lease].
  - destruct Hready as (Hr & Hch & Hres & Hid).
    destruct (prepare_buffer st l _ _) as [[st1 l1] r1] eqn:E. intros [= <- <- <-].
    destruct (prepare_buffer_charged _ _ _ _ _ _ _ Hr H0 H1 E) as [Hr1 Hok].
    destruct r1 as [[]|e]; [|done]. destruct (Hok eq_refl) as (Hch1 & Ha & Hres1 & _).
    split; [done|]. split; [done|]. split; [lia|]. split; [lia|done].
  - destruct Hready as (Hr & Hid & Hl & Hc & ->). intros [= <- <- <-].
    split; [done|]. split; [done|]. split; [lia|auto].
Qed.

Lemma append_charged_ok w0 st b w l body eos :
  rewriter_ok w → rw_max_bytes w = rw_max_bytes w0 → rw_expected_length w = rw_expected_length w0 →
  guardrail_error b = None → ready st l w (len (default "" body)) →
  call_ok w0 (vec_bytes (buffer w) +:+ default "" body) (append_charged alloc st b w l body eos).
Proof using alloc_enough.
  intros Hw Hmax Hexp Hb Hready. unfold append_charged.
  assert (Hid : ls !! me = None) by (destruct l; cbn in Hready; tauto).
  pose proof (len_nonneg (default "" body)) as Hn. pose proof (append_expected w body) as Hexp'.
  destruct (append_chunk alloc w body) as [w1 [[]|e]] eqn:Ea;
    destruct (append_chunk_ok alloc alloc_enough _ _ _ _ Hw Ea) as (Hw1 & Hm1 & Hb1); cbn [fst] in Hexp'.
  2:{ destruct (abandon_released st b w1 l e) as (st' & b' & -> & Hrel); [|done|done].
      destruct l; cbn in Hready; tauto. }
  assert (Hlen : buffered_len w1 = buffered_len w + len (default "" body))
    by (unfold buffered_len, vec_len; by rewrite Hb1, len_append).
  assert (Hnone : l = None → capacity (buffer w1) = 0).
  { intros ->. destruct Hready as (_ & _ & ? & ? & ?). by eapply append_empty. }
  destruct (on_lease _ (st, l)) as [[st1 l1] r1] eqn:E1.
  pose proof (on_prepare_buffer _ _ _ _ _ _ _ Hready Hw Hn w1 Hlen (ok_capacity _ Hw1) Hnone E1) as Hp.
  destruct r1 as [[]|e].
  2:{ destruct (abandon_released st1 b w1 l1 e) as (st' & b' & -> & Hrel); done. }
  assert (Ht : len (vec_bytes (buffer w) +:+ default "" body) = buffered_len w1) by (by rewrite <- Hb1).
  destruct eos; cbn [negb].
  - destruct (on_lease begin_processing (st1, l1)) as [[st2 l2] r2] eqn:E2.
    assert (H2 : match r2 with
      | Ok _ => pays st2 l2 (buffered_len w1) (capacity (buffer w1))
      | Err _ => match l2 with Some l2 => reached st2 l2 | None => reachable (st2, ls) end end).
    { destruct l1 as [l1|]; cbn [on_lease] in E2.
      - destruct Hp as (Hr & Hch & Hres & Hcap & _). destruct (begin_processing st1 l1) as [[s2 x2] r'] eqn:Eb.
        injection E2 as <- <- <-. destruct (begin_serving ls me _ _ _ _ _ Hr Eb) as [Hr' Hok].
        destruct r' as [[]|]; [|done]. destruct (Hok eq_refl) as [Hch' _].
        unfold begin_processing in Eb. destruct (update_working _ _ _ _ _ _) as [[s3 x3] [[]|]] eqn:Eu; [|done].
        injection Eb as <- <-. apply update_working_fields in Eu as (Ha & _ & _ & _ & Hres').
        cbn. rewrite Ha, Hres'. done.
      - injection E2 as <- <- <-. done. }
    destruct r2 as [[]|e].
    + cbn [call_ok take_buffer snd]. split; [done|]. split; [rewrite Ht, <- Hmax, <- Hm1; apply (ok_len _ Hw1)|].
      exists (capacity (buffer w1)). rewrite Ht. split; [apply (ok_capacity _ Hw1)|done].
    + destruct (abandon_released st2 b w1 l2 e) as (st' & b' & -> & Hrel); done.
  - cbn [call_ok]. split; [|done]. exists w1. rewrite Ht. repeat split; try done; try apply Hw1; congruence.
Qed.

Lemma reserve_chunk_ok st l w n st' l' r :
  rewriter_ok w → 0 ≤ n → reached st l → reserved_bytes l = buffered_len w → ls !! me = None →
  reserve_chunk st l w n = (st', l', r) →
  reached st' l' ∧ (r = Ok tt → ready st' (Some l') w n).
Proof.
  intros Hw Hn Hr Hres Hid. unfold reserve_chunk. pose proof (next_capacity_ok w n Hw Hn) as Hc.
  pose proof (len_nonneg (vec_bytes (buffer w))) as H0. destruct Hw as [Hl _ _ Hm]. unfold buffered_len, vec_len in *.
  destruct (next_capacity w n) as [cap|e]; [|by intros [= <- <- <-]].
  destruct Hc as (Hfit & Hcap & _). set (m := saturating_add _ n).
  assert (Hm0 : 0 ≤ m) by (subst m; unfold saturating_add, usize_max; lia). assert (Hc0 : 0 ≤ cap) by lia.
  destruct (prepare_buffer st l m cap) as [[st1 l1] r1] eqn:E1.
  destruct (prepare_buffer_charged _ _ _ _ _ _ _ Hr Hm0 Hc0 E1) as [Hr1 Hok1].
  destruct r1 as [[]|e]; [|by intros [= <- <- <-]]. destruct (Hok1 eq_refl) as (Hch & _ & Hres1 & _). intros E2.
  destruct (try_reserve_charged _ _ _ _ _ _ Hr1 Hch Hn E2) as [Hr2 Hok2]. split; [done|]. intros ->.
  destruct (Hok2 eq_refl) as (Hch2 & _ & Hres2 & _). split; [done|]. split; [done|].
  split; [unfold buffered_len, vec_len; lia|done].
Qed.

Lemma collect_chunk_ok w0 st b w body eos text :
  is_none_or (Z.leb 0) (rw_expected_length w0) = true →
  collecting w0 st b text → request_rewriter b = Some w →
  call_ok w0 (text +:+ default "" body) (collect_chunk alloc instant st b w body eos).
Proof using alloc_enough.
  intros Hexp [(w' & Hw' & Hw & Hmax & He & Ht & Hp) Hb] Hrw. rewrite Hrw in Hw'. injection Hw' as <-.
  assert (Hbl : buffered_len w = len text) by (unfold buffered_len, vec_len; by rewrite Ht).
  unfold collect_chunk. rewrite <- Ht. destruct (Z.ltb_spec 0 (len (default "" body))) as [Hpos|Hzero].
  - unfold chunk_lease.
    assert (Hl : ∀ st1 r1, match request_body_lease b with Some l => (st, Ok l) | None => try_acquire_sized st instant (rw_expected_length w) end = (st1, r1) →
      match r1 with
      | Ok l => reached st1 l ∧ reserved_bytes l = buffered_len w ∧ ls !! me = None
      | Err _ => reachable (st1, ls) ∧ request_body_lease b = None ∧ text = ""
      end).
    { intros st1 r1. destruct (request_body_lease b) as [l|].
      - intros [= <- <-]. destruct Hp as (? & _ & ? & _ & ?). split; [done|]. split; [lia|done].
      - destruct Hp as (Hr & Hid & Hn0 & _). intros Ha. rewrite He in Ha. pose proof (acquire_is_steps _ _ me _ _ _ _ Hr Hid Hexp Ha) as Hs.
        destruct r1 as [l|e].
        + split; [done|]. split; [|done]. rewrite Hbl, Hn0. unfold try_acquire_sized in Ha.
          destruct (increment_bounded _ _ _ _); [|done]. destruct (prepare_buffer _ _ 0 0) as [[st2 l2] [[]|]] eqn:Ep; [|done].
          injection Ha as <- <-. unfold prepare_buffer in Ep. destruct (update_working _ _ _ _ _ _) as [[s3 x3] [[]|]] eqn:Eu; [|done].
          injection Ep as <- <-. apply update_working_fields in Eu as (_ & _ & _ & _ & Hres). exact Hres.
        + destruct Hs as [-> _]. split; [done|]. split; [done|]. destruct text; [done|]. unfold len in Hn0. cbn in Hn0. lia. }
    destruct (match request_body_lease b with Some l => (st, Ok l) | None => _ end) as [st1 [l1|e]]; specialize (Hl _ _ eq_refl).
    2:{ destruct Hl as (Hr & Hnone & Htext). cbn [call_ok]. split; [done|]. cbn. rewrite Hrw. cbn. rewrite Ht, Htext. done. }
    destruct Hl as (Hr & Hres & Hid).
    destruct (reserve_chunk st1 l1 w _) as [[st2 l2] r2] eqn:E2.
    destruct (reserve_chunk_ok _ _ _ _ _ _ _ Hw (len_nonneg _) Hr Hres Hid E2) as [Hr2 Hready].
    destruct r2 as [[]|e].
    2:{ destruct (abandon_released st2 b w (Some l2) e) as (st' & b' & -> & Hrel); done. }
    destruct (is_some_and _ _).
    { destruct (abandon_released st2 b w (Some l2) GatewayOverloaded) as (st' & b' & -> & Hrel); done. }
    apply append_charged_ok; try done. by apply Hready.
  - apply append_charged_ok; try done. pose proof (len_nonneg (default "" body)). unfold ready.
    destruct (request_body_lease b) as [l|].
    + destruct Hp as (? & ? & ? & ? & ?). split; [done|]. split; [done|]. split; [lia|done].
    + destruct Hp as (? & ? & ? & ?). split; [done|]. split; [done|]. split; [lia|]. split; [done|lia].
Qed.

Lemma note_chunk_fields c b chunk b' r :
  note_chunk utc_now c b chunk = (b', r) →
  request_rewriter b' = request_rewriter b ∧ request_body_lease b' = request_body_lease b ∧
  (r = Ok tt → guardrail_error b' = guardrail_error b).
Proof. unfold note_chunk. intros H. repeat (case_match; simplify_eq); done. Qed.

(** The bytes seen with this chunk exceed the route's limit, or the policy
    refuses them. *)
Definition over_limits (c : BodyContext) (b : RequestBody) (body : option string) : Prop :=
  ∃ chunk, body = Some chunk ∧
    let seen := saturating_add (body_bytes_seen b) (len chunk) in
    (∃ m, body_match c = Some m ∧ rm_max_body_bytes m < seen) ∨
    (∃ policy e, body_policy c = Some policy ∧ evaluate_policy_limits policy utc_now (i64_of_usize seen) None None None None = Err e).
Lemma note_chunk_limits c b chunk : is_ok (note_chunk utc_now c b chunk).2 = false ↔ over_limits c b (Some chunk).
Proof.
  unfold note_chunk, over_limits. cbn [body_bytes_seen]. set (seen := saturating_add _ _). split.
  - intros Hn. exists chunk. split; [done|]. destruct (body_match c) as [m|]; cbn in Hn.
    + destruct (_ <? _) eqn:El in Hn; [left; exists m; split; [done|]; by apply Z.ltb_lt|]. right.
      destruct (body_policy c) as [policy|]; [|done]. destruct (evaluate_policy_limits _ _ _ _ _ _ _) as [|e] eqn:Ee; [done|]. by exists policy, e.
    + right. destruct (body_policy c) as [policy|]; [|done]. destruct (evaluate_policy_limits _ _ _ _ _ _ _) as [|e] eqn:Ee; [done|].
      by exists policy, e.
  - intros (chunk' & [= <-] & [(m & -> & Hm)|(policy & e & -> & He)]).
    + cbn. fold seen in Hm. apply Z.ltb_lt in Hm. by rewrite Hm.
    + destruct (is_some_and _ _); [done|]. fold seen in He. by rewrite He.
Qed.
(** What one call of the filter does to a request that is collecting. *)
Lemma filter_call w0 c st b text body eos st' b' out :
  is_none_or (Z.leb 0) (rw_expected_length w0) = true → collecting w0 st b text →
  request_body_filter alloc utc_now instant c st b body eos = (st', b', out) →
  (call_ok w0 (text +:+ default "" body) (st', b', out) ∧ ¬ over_limits c b body) ∨
  (out = Forwarded ∨ out = Failed ∧ over_limits c b body) ∧ st' = st ∧ request_rewriter b' = request_rewriter b ∧
  request_body_lease b' = request_body_lease b.
Proof using alloc_enough.
  intros Hexp Hc. pose proof Hc as [_ Hb]. unfold request_body_filter. rewrite Hb. cbn [is_some].
  destruct (match body with Some chunk => note_chunk utc_now c b chunk | None => (b, Ok tt) end) as [b1 r1] eqn:En.
  assert (Hf : request_rewriter b1 = request_rewriter b ∧ request_body_lease b1 = request_body_lease b ∧
               (r1 = Ok tt → guardrail_error b1 = guardrail_error b)).
  { destruct body as [chunk|]; [by eapply note_chunk_fields|]. by injection En as <- <-. }
  assert (Hlim : is_ok r1 = false ↔ over_limits c b body).
  { destruct body as [chunk|]; [rewrite <- note_chunk_limits, En; done|]. injection En as <- <-. split; [done|]. by intros (? & ? & _). }
  destruct Hf as (Hrw & Hl & He). destruct r1 as [[]|e]; [|intros [= <- <- <-]; right; split; [right; split; [done|by apply Hlim]|auto]].
  destruct (_ || _); [intros [= <- <- <-]; right; auto|].
  destruct (request_rewriter b1) as [w|] eqn:Ew; [|intros [= <- <- <-]; right; rewrite Ew; auto].
  intros <-. left. split; [|by intros ?%Hlim]. apply collect_chunk_ok; [done| |done].
  destruct Hc as [(w' & Hw' & Hrest) _]. split; [|by rewrite He]. exists w'. rewrite Ew, Hrw, Hl. done.
Qed.
End charging.

(** ** Runs *)

Section runs.
Variable alloc : Z → option Z.
Variables (c : BodyContext) (me : nat).

(** Chunks of this request's body, each withheld, between steps of the other
    requests. *)
Inductive run (s : System) (b : RequestBody) : list (option string) → System → RequestBody → Prop :=
| run_start : run s b [] s b
| run_other cs s1 b1 s2 :
    run s b cs s1 b1 → step s1 s2 → s2.2 !! me = s1.2 !! me → run s b cs s2 b1
| run_chunk cs st m b1 utc_now instant body st' b2 :
    run s b cs (st, m) b1 →
    request_body_filter alloc utc_now instant c st b1 body false = (st', b2, Withheld) →
    run s b (cs ++ [body]) (st', partial_alter (λ _, request_body_lease b2) me m) b2.

Hypothesis alloc_enough : ∀ n n', alloc n = Some n' → n ≤ n'.
Variable w0 : BoundedBodyRewriter.
Hypothesis announced : is_none_or (Z.leb 0) (rw_expected_length w0) = true.

Lemma step_policy s s' : step s s' → size_policy s'.1 = size_policy s.1.
Proof.
  assert (Hu : ∀ st l n cap lg proc st' l' r,
    update_working st l n cap lg proc = (st', l', r) → size_policy st' = size_policy st).
  { intros st l n cap lg proc st' l' r. unfold update_working. intros H. repeat (case_match; simplify_eq); done. }
  intros H. destruct H as [| st ls id l a st' l' r _ _ Ha| | |]; cbn [fst].
  - done.
  - destruct a; cbn in Ha; unfold prepare_buffer, begin_processing, prepare_rewrite, retain_compact_workspace, settle_body,
      try_reserve in Ha; repeat (case_match; simplify_eq); try done;
      match goal with E : update_working _ _ _ _ _ _ = _ |- _ => by apply Hu in E end.
  - unfold drop_working. by destruct (_ <? _).
  - unfold drop_bytes. by destruct (_ <? _).
  - done.
Qed.

(** The invariant of a run, about this request's entry in the table. *)
Definition run_inv (s : System) (b : RequestBody) (text : string) : Prop :=
  reachable s ∧ s.2 !! me = request_body_lease b ∧ collecting (delete me s.2) me w0 s.1 b text.

Lemma lease_entry (m : gmap nat BodyAdmissionLease) l : m !! me = Some l → <[me := l]> (delete me m) = m.
Proof. intros H. by rewrite insert_delete_eq, insert_id. Qed.

Lemma run_inv_other s s' b text :
  run_inv s b text → step s s' → s'.2 !! me = s.2 !! me → run_inv s' b text.
Proof.
  intros (Hr & Hm & [(w & Hw & Hok & Hmax & He & Ht & Hp) Hb]) Hs Hme.
  pose proof (reachable_step _ _ Hr Hs) as Hr'. pose proof (step_policy _ _ Hs) as Hpol.
  destruct s as [st m], s' as [st' m']. cbn [fst snd] in *. split; [done|]. cbn. split; [congruence|].
  split; [|done]. exists w. repeat split; try done; try apply Hok. cbn.
  destruct (request_body_lease b) as [l|]; cbn [pays] in *.
  - destruct Hp as (_ & Hch & Hres & Hcap & _). rewrite lease_entry by congruence.
    split; [done|]. split; [unfold charged in *; by rewrite Hpol|]. split; [done|]. split; [done|]. apply lookup_delete_eq.
  - destruct Hp as (_ & _ & Hn & Hc). rewrite delete_id by congruence. split; [done|]. split; [congruence|]. done.
Qed.

Lemma entry_alter (m : gmap nat BodyAdmissionLease) o :
  partial_alter (λ _, o) me m = match o with Some l => <[me := l]> (delete me m) | None => delete me m end.
Proof. destruct o as [l|]; [by rewrite insert_delete_eq|done]. Qed.

Lemma run_inv_chunk st m b text utc_now instant body st' b' :
  run_inv (st, m) b text → request_body_filter alloc utc_now instant c st b body false = (st', b', Withheld) →
  run_inv (st', partial_alter (λ _, request_body_lease b') me m) b' (text +:+ default "" body).
Proof using alloc_enough announced.
  intros (Hr & Hm & Hc) Hf. cbn [fst snd] in *.
  destruct (filter_call _ _ _ alloc_enough _ _ _ _ _ _ _ _ _ _ _ _ announced Hc Hf) as [[Hok _]|[[?|[? _]] _]]; [|done..].
  cbn [call_ok] in Hok. split; [|cbn; split; [apply lookup_partial_alter_eq|]].
  - rewrite entry_alter. destruct Hok as [(w & _ & _ & _ & _ & _ & Hp) _]. destruct (request_body_lease b'); cbn in Hp; tauto.
  - assert (delete me (partial_alter (λ _, request_body_lease b') me m) = delete me m) as ->; [|done].
    apply map_eq. intros i. destruct (decide (i = me)) as [->|]; [by rewrite !lookup_delete_eq|].
    by rewrite !lookup_delete_ne, lookup_partial_alter_ne.
Qed.

Lemma str_join_app l k : str_join (l ++ k) = str_join l +:+ str_join k.
Proof. induction l as [|x l IH]; [done|]. cbn. by rewrite IH, append_assoc. Qed.
Lemma body_text_snoc cs body : body_text (cs ++ [body]) = body_text cs +:+ default "" body.
Proof. unfold body_text. rewrite fmap_app, str_join_app. f_equal. apply append_nil_r. Qed.

Lemma run_collects s b cs s' b' :
  run_inv s b "" → run s b cs s' b' → run_inv s' b' (body_text cs).
Proof using alloc_enough announced.
  intros Hi Hr. induction Hr as [|cs s1 b1 s2 _ IH Hs Hme|cs st m b1 utc_now instant body st' b2 _ IH Hf].
  - done.
  - by eapply run_inv_other.
  - rewrite body_text_snoc. by eapply run_inv_chunk.
Qed.
End runs.

Lemma len_zero t : len t = 0 → t = "".
Proof. destruct t; [done|]. unfold len. cbn. lia. Qed.
Lemma rewrite_nonneg s me l : reachable s → s.2 !! me = Some l → 0 ≤ rewrite_capacity l.
Proof. intros H%ledger_reachable_Inv Hl. apply (inv_leases _ H _ _ Hl). Qed.

(** A request whose body has not begun to arrive. *)
Definition fresh_body (max : Z) (expected : option Z) : RequestBody :=
  {| guardrail_error := None; body_bytes_seen := 0; body_prefix := "";
     request_rewriter := Some (with_expected_length expected (rewriter_new max)); request_body_lease := None |}.

(** C22: While a request body is being collected, in whatever chunks, whatever
    other requests do meanwhile and however the allocator rounds or fails, the
    gateway pays for it: the buffer holds exactly the bytes that arrived,
    within the route's limit; if any arrived, the request holds a lease whose
    reserved bytes are exactly those and whose working charge covers the
    buffer's allocation.  The next call hands on the complete body still paid
    for, or fails.  A call fails either because the chunk exceeds the route's
    limit or the policy's - then buffer and lease stay as they are until the
    request itself ends - or while buffering, and then it has freed both. *)
Theorem request_body_paid alloc c me max expected s cs st m b utc_now instant body eos st' b' out :
  (∀ n n', alloc n = Some n' → n ≤ n') → 0 ≤ max ≤ usize_max → is_none_or (Z.leb 0) expected = true →
  reachable s → s.2 !! me = None →
  run alloc c me s (fresh_body max expected) cs (st, m) b →
  request_body_filter alloc utc_now instant c st b body eos = (st', b', out) →
  let text := body_text cs in
  (∃ w, request_rewriter b = Some w ∧ vec_bytes (buffer w) = text ∧ len text ≤ max ∧
    m !! me = request_body_lease b ∧ reachable (st, m) ∧
    match request_body_lease b with
    | None => text = ""
    | Some l => reserved_bytes l = len text ∧
        (size_policy st ≠ None → capacity (buffer w) + REQUEST_WORKING_OVERHEAD ≤ working_bytes l)
    end) ∧
  match out with
  | Withheld => ∃ w, request_rewriter b' = Some w ∧ vec_bytes (buffer w) = text +:+ default "" body
  | Complete raw => raw = text +:+ default "" body ∧ len raw ≤ max ∧
      match request_body_lease b' with
      | None => raw = ""
      | Some l => reachable (st', <[me := l]> m) ∧ reserved_bytes l = len raw ∧
          (size_policy st' ≠ None → len raw + REQUEST_WORKING_OVERHEAD ≤ working_bytes l)
      end
  | Failed => (over_limits utc_now c b body ∧ st' = st ∧ request_rewriter b' = request_rewriter b ∧
                request_body_lease b' = request_body_lease b)
      ∨ (¬ over_limits utc_now c b body ∧ released (delete me m) st' b')
  | Forwarded => st' = st ∧ request_body_lease b' = request_body_lease b
  end.
Proof.
  intros Ha Hmax Hexp Hr Hme Hrun Hf. cbv zeta.
  set (w0 := with_expected_length expected (rewriter_new max)).
  assert (Hw0 : is_none_or (Z.leb 0) (rw_expected_length w0) = true).
  { destruct expected as [n|]; [|done]. apply Z.leb_le in Hexp. apply Z.leb_le. cbn [rewriter_new rw_max_bytes]. lia. }
  assert (Hi : run_inv me w0 s (fresh_body max expected) "").
  { destruct s as [st0 m0]. split; [done|]. split; [done|]. cbn [fst snd]. split; [|done].
    exists w0. split; [done|]. split; [by apply rewriter_new_ok|]. do 3 (split; [done|]).
    cbn [fresh_body request_body_lease pays]. cbn in Hme. rewrite delete_id by done. done. }
  destruct (run_collects alloc c me Ha w0 Hw0 _ _ _ _ _ Hi Hrun) as (Hr' & Hm & Hc). cbn [fst snd] in *.
  pose proof (filter_call _ _ _ Ha _ _ _ _ _ _ _ _ _ _ _ _ Hw0 Hc Hf) as Hcall.
  split.
  - destruct Hc as [(w & Hw & Hok & Hmx & _ & Ht & Hp) _]. exists w. split; [done|]. split; [done|].
    split; [rewrite <- Ht; pose proof (ok_len _ Hok) as Hl; by rewrite Hmx in Hl|]. split; [done|]. split; [done|].
    destruct (request_body_lease b) as [l|]; cbn in Hp.
    + destruct Hp as (_ & Hch & Hres & Hcap & _). split; [done|]. intros Hs. specialize (Hch Hs).
      pose proof (rewrite_nonneg (st, m) me l Hr' Hm). lia.
    + apply len_zero. apply Hp.
  - destruct out as [| |raw|].
    + destruct Hcall as [[[] _]|(_ & ? & _ & ?)]. done.
    + destruct Hcall as [[[(w & Hw & _ & _ & _ & Ht & _) _] _]|[[?|[? _]] _]]; [|done..]. by exists w.
    + destruct Hcall as [[[-> [Hl (cap & Hcap & Hp)]] _]|[[?|[? _]] _]]; [|done..]. split; [done|]. split; [done|].
      destruct (request_body_lease b') as [l|]; cbn in Hp; [|apply len_zero; apply Hp].
      destruct Hp as (Hr2 & Hch & Hres & Hc2 & _). rewrite insert_delete_eq in Hr2. split; [done|]. split; [done|].
      intros Hs. specialize (Hch Hs). pose proof (rewrite_nonneg _ me l Hr2 (lookup_insert_eq _ _ _)). lia.
    + destruct Hcall as [[Hrel Hn]|([?|[_ Ho]] & ? & ? & ?)]; [by right|done|by left].
Qed.

Definition plain_context : BodyContext :=
  {| body_match := None; body_policy := None; body_passthrough := false; body_direct_passthrough := false;
     body_budget_reserved := false; body_content_type := None; body_foundry := None; body_pricing_rules := [];
     body_guardrail_definitions := []; body_guardrail_policy := GuardrailPolicy_default |}.

Lemma request_body_paid_witness :
  ∃ st' b' l, request_body_filter (λ n, Some n) 0 6 plain_context sample_held (fresh_body 1000 (Some 2)) (Some "{}") true
    = (st', b', Complete "{}") ∧ request_body_lease b' = Some l ∧ reserved_bytes l = 2.
Proof.
  destruct (request_body_filter (λ n, Some n) 0 6 plain_context sample_held (fresh_body 1000 (Some 2)) (Some "{}") true)
    as [[st' b'] out] eqn:E.
  destruct (request_body_paid (λ n, Some n) plain_context 1%nat 1000 (Some 2) (sample_held, <[0%nat := sample_lease]> ∅) []
    sample_held (<[0%nat := sample_lease]> ∅) (fresh_body 1000 (Some 2)) 0 6 (Some "{}") true st' b' out)
    as [_ H]; [exact exact_enough|unfold usize_max; lia|reflexivity|exact sample_held_reachable|reflexivity|constructor|exact E|].
  vm_compute in E. destruct out as [| |raw|]; try discriminate E. destruct H as (Hraw & _ & Hl). cbn in Hraw.
  destruct (request_body_lease b') as [l|] eqn:El; [|by rewrite Hraw in Hl].
  exists st', b', l. rewrite Hraw in Hl |- *. split; [reflexivity|]. split; [exact El|]. apply Hl.
Defined.
