(* ===== verification/CompleteBody.v ===== *)
(** * Admitting complete request bodies

    Models the governance of a complete request body in
    [crates/gateway-proxy/src/pingora_plane.rs]: the analysis of the body, the
    policy that applies to it ([effective_complete_policy], one layer per model
    of a message batch), its evaluation ([check_complete_request_policy]), and
    [admit_complete_body], which counts tokens and reserves the budget before
    anything is sent to a provider.

    The control state is the interface [ControlState], as in the source, where
    it is a pair of traits; the policy database is a function.  The clock
    readings of one call are arguments.  At the end the interface is given as
    [crates/gateway-store/src/redis.rs] implements it: rate limits and budgets
    on one Redis, with doubles and the text conversions of server and client
    as a parameter. *)

From S2P Require Import Prelude Errors Routing Json GuardrailPolicy Policies OutputLimits Auth Redis Budgets BudgetLedger RateLimits BodyAdmission BodyRewrite Usage RequestBody.

(** [RateLimitStore] and [BudgetStore], on a state. *)
Class ControlState (C : Type) := {
  cs_request_rate : string → option Z → Z → C → C * GatewayResult RateLimitDecision;
  cs_token_rate : string → option Z → Z → Z → C → C * GatewayResult RateLimitDecision;
  cs_admit_budget : string → string → f64 → option f64 → option f64 → Z → C → C * GatewayResult (BudgetDecision f64);
  cs_seed_committed : string → BudgetState f64 → Z → C → C * GatewayResult unit
}.

(** ** Analysed bodies *)

Section bodies.
Context `{SerdeJson}.
(** [serde_json::to_vec] of a value. *)
Variable to_vec : Value → option string.

Definition generation_of (body : string) : option GenerationRequestAnalysis := analyze_generation_request body.
Definition body_features (body : string) : GenerationFeatures :=
  match generation_of body with Some a => ga_features a | None => GenerationFeatures_default end.
Definition with_service (name : option string) (f : GenerationFeatures) : GenerationFeatures :=
  {| feat_model := feat_model f; feat_stream := feat_stream f; feat_tools := feat_tools f;
     feat_service_name := match feat_service_name f with Some s => Some s | None => name end |}.

(** [metadata_capacity] is what the strings of the analysis have allocated. *)
Definition has_compact_metadata (body : string) (metadata_capacity : Z) : bool :=
  is_some_and (λ a, is_none (ga_client_guardrails a) && (metadata_capacity <=? 4096)) (generation_of body).

Definition batch_request_features (body : string) : GatewayResult (list GenerationFeatures) :=
  let? value := ok_or (from_slice_value body) PolicyDenied in
  let? entries := ok_or (opt_filter (λ l, negb (is_nil l)) (value_get "requests" value ≫= as_array)) PolicyDenied in
  try_map (λ entry,
    let? params := ok_or (value_get "params" entry) PolicyDenied in
    let? bytes := ok_or (to_vec params) PolicyDenied in
    let? analysis := ok_or (analyze_generation_request bytes) PolicyDenied in
    if is_none (feat_model (ga_features analysis)) then Err PolicyDenied else Ok (ga_features analysis)) entries.

(** ** Evaluation *)

Definition is_generation_route (r : Route) : bool :=
  bool_decide (r ∈ [ChatCompletions; Responses; AnthropicMessages; LiteLlmEmbeddings; LiteLlmRerank]).
Definition i32_of (n : Z) : option Z := if in_range (-2147483648) 2147483647 n then Some n else None.
Definition is_json_object (body : string) : bool := is_some_and is_object (from_slice_value body).
Definition body_tokens (body : string) : Z := estimate_generation_tokens from_slice_value body.

(** Bodies whose metadata cannot be trusted to select the policy. *)
Definition unreadable_metadata (policy : KeyPolicy) (matched : RouteMatch) (body : string) (f : GenerationFeatures) : bool :=
  let unanalysed := is_none (generation_of body) in
  let generation := is_generation_route (rm_route matched) in
  (unanalysed && is_json_object body) || (generation && unanalysed)
  || ((generation || (negb (is_empty body) && negb (bool_decide (rm_route matched = AnthropicMessageBatches))))
      && negb (is_nil (allowed_models policy)) && is_none (feat_model f)).

Definition is_batch (matched : RouteMatch) (body : string) : bool :=
  bool_decide (rm_route matched = AnthropicMessageBatches) && negb (is_empty body).

Definition check_complete_request_policy (policy : KeyPolicy) (matched : RouteMatch) (body : string)
    (f : GenerationFeatures) (now : Z) : GatewayResult unit :=
  if rm_max_body_bytes matched <? len body then Err RequestBodyTooLarge
  else if unreadable_metadata policy matched body f then Err PolicyDenied
  else
    check?
      (if is_batch matched body then
         let? features := batch_request_features body in
         try_for_each (λ f,
           if negb (is_nil (allowed_models policy)) && is_none (feat_model f) then Err PolicyDenied
           else evaluate_policy policy (rm_route matched) (rm_provider matched) f) features
       else evaluate_policy policy (rm_route matched) (rm_provider matched) f) in
    check? evaluate_policy_limits policy now (i64_of_usize (len body)) None
             (max_input_tokens_per_request policy ≫= λ _, i32_of (body_tokens body)) None
             (rm_estimated_cost_usd matched) in
    enforce_output_token_limit policy (rm_route matched) body.

(** ** The policy of a body *)

(** A [BTreeMap<Option<String>, EffectivePolicy>], in key order. *)
Definition model_ltb (a b : option string) : bool :=
  match a, b with
  | None, Some _ => true
  | Some a, Some b => String.ltb a b
  | _, None => false
  end.
Definition model_get (m : option string) (l : list (option string * EffectivePolicy)) : option EffectivePolicy :=
  snd <$> List.find (λ e, bool_decide (e.1 = m)) l.
Fixpoint model_insert (m : option string) (e : EffectivePolicy) (l : list (option string * EffectivePolicy)) :
    list (option string * EffectivePolicy) :=
  match l with
  | [] => [(m, e)]
  | x :: l => if model_ltb m x.1 then (m, e) :: x :: l else x :: model_insert m e l
  end.

Definition clear_models (p : KeyPolicy) : KeyPolicy :=
  {| deny := deny p; allowed_routes := allowed_routes p; allowed_models := [];
     allowed_providers := allowed_providers p; allowed_services := allowed_services p; rpm_limit := rpm_limit p;
     tpm_limit := tpm_limit p; daily_budget_usd := daily_budget_usd p; monthly_budget_usd := monthly_budget_usd p;
     allow_streaming := allow_streaming p; allow_tools := allow_tools p;
     max_requests_per_day := max_requests_per_day p; max_tokens_per_day := max_tokens_per_day p;
     max_cost_per_request := max_cost_per_request p;
     max_input_tokens_per_request := max_input_tokens_per_request p;
     max_output_tokens_per_request := max_output_tokens_per_request p; allowed_hours_utc := allowed_hours_utc p;
     unused_key_auto_disable_after_days := unused_key_auto_disable_after_days p;
     max_request_body_bytes := max_request_body_bytes p; max_response_body_bytes := max_response_body_bytes p;
     max_stream_duration_seconds := max_stream_duration_seconds p; max_sse_event_bytes := max_sse_event_bytes p;
     max_tool_call_count := max_tool_call_count p; max_tool_schema_bytes := max_tool_schema_bytes p;
     policy_version := policy_version p |}.

(** [effective_policy_for_context] for the key, by model. *)
Variable policy_for : option string → GatewayResult EffectivePolicy.

(** The policies of the models of a batch, and the models that were looked up. *)
Fixpoint batch_policies (matched : RouteMatch) (features : list GenerationFeatures)
    (models : list (option string * EffectivePolicy)) :
    list (option string) * GatewayResult (list (option string * EffectivePolicy)) :=
  match features with
  | [] => ([], Ok models)
  | f :: features =>
      let continue (lookups : list (option string)) models (eff : EffectivePolicy) :=
        match evaluate_policy (eff_policy eff) (rm_route matched) (rm_provider matched) f with
        | Err e => (lookups, Err e)
        | Ok _ => let '(more, r) := batch_policies matched features models in (lookups ++ more, r)
        end in
      match model_get (feat_model f) models with
      | Some eff => continue [] models eff
      | None =>
          match policy_for (feat_model f) with
          | Err e => ([feat_model f], Err e)
          | Ok eff => continue [feat_model f] (model_insert (feat_model f) eff models) eff
          end
      end
  end.

Definition key_layer (k : AuthenticatedKey) (base : EffectivePolicy) : PolicyLayer :=
  {| layer_kind := LayerKey; layer_scope_id := Some (Auth.key_id k); layer_policy := eff_policy base;
     layer_guardrail_policy := eff_guardrail_policy base; layer_policy_version := policy_version (eff_policy base) |}.
Definition model_layer (e : option string * EffectivePolicy) : PolicyLayer :=
  {| layer_kind := LayerModel; layer_scope_id := e.1; layer_policy := clear_models (eff_policy e.2);
     layer_guardrail_policy := eff_guardrail_policy e.2; layer_policy_version := policy_version (eff_policy e.2) |}.

Definition effective_complete_policy (k : AuthenticatedKey) (matched : RouteMatch) (body : string) :
    list (option string) * GatewayResult EffectivePolicy :=
  let model := generation_of body ≫= λ a, feat_model (ga_features a) in
  match policy_for model with
  | Err e => ([model], Err e)
  | Ok base =>
      if negb (is_batch matched body) then ([model], Ok base)
      else
        match batch_request_features body with
        | Err e => ([model], Err e)
        | Ok features =>
            let '(lookups, r) := batch_policies matched features [] in
            (model :: lookups,
             let? models := r in
             resolve_effective_policy (key_layer k base :: map model_layer models))
        end
  end.
End bodies.

(** ** Batches *)

Lemma model_get_Some m l e : model_get m l = Some e → (m, e) ∈ l.
Proof.
  unfold model_get. destruct (List.find _ l) as [[m' e']|] eqn:E; [|done]. intros [= <-].
  apply List.find_some in E as [Hin Hm]. apply bool_decide_eq_true in Hm. cbn in Hm. subst.
  by apply list_elem_of_In.
Qed.
Lemma model_get_None m l : model_get m l = None → m ∉ l.*1.
Proof.
  unfold model_get. destruct (List.find _ l) as [e|] eqn:E; [done|]. intros _ Hin.
  apply list_elem_of_fmap in Hin as ([m' e] & -> & Hin). apply list_elem_of_In in Hin.
  apply (List.find_none _ _ E) in Hin. cbn in Hin. by rewrite bool_decide_true in Hin.
Qed.
Lemma elem_of_model_insert m e l x : x ∈ model_insert m e l ↔ x = (m, e) ∨ x ∈ l.
Proof.
  induction l as [|y l IH]; cbn [model_insert]; [rewrite list_elem_of_singleton, elem_of_nil; tauto|].
  destruct (model_ltb m y.1); rewrite !elem_of_cons, ?IH; tauto.
Qed.

Section batches.
Context `{SerdeJson}.
Variable to_vec : Value → option string.
Variable policy_for : option string → GatewayResult EffectivePolicy.
Variable matched : RouteMatch.
Abbreviation policies := (batch_policies policy_for matched).

(** What the loop over a batch's entries establishes. *)
Lemma batch_policies_ok features models lookups models' :
  Forall (λ e, policy_for e.1 = Ok e.2) models →
  policies features models = (lookups, Ok models') →
  Forall (λ e, policy_for e.1 = Ok e.2) models' ∧ models ⊆ models' ∧
  Forall (λ f, ∃ eff, (feat_model f, eff) ∈ models' ∧
            evaluate_policy (eff_policy eff) (rm_route matched) (rm_provider matched) f = Ok tt) features ∧
  NoDup lookups ∧ (∀ m, m ∈ lookups → (m ∉ models.*1) ∧ m ∈ (feat_model <$> features)) ∧
  (∀ m, m ∈ models'.*1 ↔ m ∈ models.*1 ∨ m ∈ lookups).
Proof.
  revert models lookups. induction features as [|f features IH]; intros models lookups Hm; cbn [batch_policies].
  { intros [= <- <-]. split; [done|]. split; [done|]. split; [done|]. split; [apply NoDup_nil_2|].
    split; [by intros m ?%not_elem_of_nil|]. intros m. rewrite elem_of_nil. tauto. }
  destruct (model_get (feat_model f) models) as [eff|] eqn:Eg.
  - destruct (evaluate_policy _ _ _ f) as [[]|] eqn:Ee; [|done].
    destruct (policies features models) as [more r] eqn:Er. intros [= <- ->].
    destruct (IH _ _ Hm Er) as (Hm' & Hsub & Hf & Hnd & Hl & Hk). split; [done|]. split; [done|].
    split; [constructor; [|done]; exists eff; split; [by apply Hsub, model_get_Some|done]|].
    split; [done|]. split; [|done]. intros m Hin. destruct (Hl m Hin) as [? ?]. split; [done|]. by right.
  - destruct (policy_for (feat_model f)) as [eff|] eqn:Ep; [|done].
    destruct (evaluate_policy _ _ _ f) as [[]|] eqn:Ee; [|done].
    destruct (policies features _) as [more r] eqn:Er. intros [= <- ->].
    assert (Hm1 : Forall (λ e, policy_for e.1 = Ok e.2) (model_insert (feat_model f) eff models)).
    { apply Forall_forall. intros x [->|Hx]%elem_of_model_insert; [done|]. by apply (proj1 (Forall_forall _ _) Hm). }
    assert (Hk1 : ∀ m, m ∈ (model_insert (feat_model f) eff models).*1 ↔ m = feat_model f ∨ m ∈ models.*1).
    { intros m. rewrite !list_elem_of_fmap. setoid_rewrite elem_of_model_insert. split.
      - intros (x & -> & [->|Hx]); [by left|right; eauto].
      - intros [->|(x & -> & Hx)]; [by exists (feat_model f, eff); auto|eauto]. }
    destruct (IH _ _ Hm1 Er) as (Hm' & Hsub & Hf & Hnd & Hl & Hk).
    split; [done|]. split; [intros x Hx; apply Hsub, elem_of_model_insert; by right|].
    split; [constructor; [exists eff; split; [apply Hsub, elem_of_model_insert; by left|done]|done]|].
    cbn [app]. split; [constructor; [|done]; intros Hin; apply Hl in Hin as [Hin _]; apply Hin, Hk1; by left|].
    split.
    + intros m [->|Hin]%elem_of_cons; [split; [by apply model_get_None|by left]|].
      destruct (Hl m Hin) as [Hno Hyes]. split; [intros Hc; apply Hno, Hk1; by right|by right].
    + intros m. rewrite Hk, Hk1, elem_of_cons. tauto.
Qed.

Lemma tighter_clear e p : tighter e (clear_models p) ↔ tighter e p.
Proof. unfold tighter, int_caps, money_caps. rewrite !Forall_cons, !Forall_nil. reflexivity. Qed.

(** A message batch is governed by the policies of all its models: when a
    policy is found for it, every entry passed the policy of its own model,
    which is looked up once per model of the batch, and the policy that then
    governs the whole batch has no cap looser than any of theirs. *)
Theorem batch_policy_sound k body lookups eff :
  effective_complete_policy to_vec policy_for k matched body = (lookups, Ok eff) → is_batch matched body = true →
  ∃ features base ms, batch_request_features to_vec body = Ok features ∧
    lookups = base :: ms ∧ NoDup ms ∧ (∀ m, m ∈ ms ↔ m ∈ (feat_model <$> features)) ∧
    Forall (λ f, ∃ p, policy_for (feat_model f) = Ok p ∧
      evaluate_policy (eff_policy p) (rm_route matched) (rm_provider matched) f = Ok tt ∧
      tighter (eff_policy eff) (eff_policy p)) features.
Proof.
  unfold effective_complete_policy. intros He Hb. rewrite Hb in He. cbn [negb] in He.
  set (base := generation_of body ≫= _) in He. destruct (policy_for base) as [bp|]; [|done].
  destruct (batch_request_features to_vec body) as [features|]; [|done].
  destruct (policies features []) as [ms r] eqn:Ep. destruct r as [models|]; [|done].
  assert (Hres : resolve_effective_policy (key_layer k bp :: map model_layer models) = Ok eff) by exact (f_equal snd He).
  apply (f_equal fst) in He. cbn [fst] in He. subst lookups.
  destruct (batch_policies_ok _ _ _ _ (Forall_nil_2 _) Ep) as (Hpol & _ & Hf & Hnd & Hl & Hk).
  exists features, base, ms. split; [done|]. split; [done|]. split; [done|]. split.
  { intros m. split; [intros Hin; apply (Hl m Hin)|]. intros (f & -> & Hin)%list_elem_of_fmap.
    destruct (proj1 (Forall_forall _ _) Hf f Hin) as (p & Hp & _).
    assert (feat_model f ∈ models.*1) as [?|?]%Hk by (apply list_elem_of_fmap; by exists (feat_model f, p)); [|done].
    by apply not_elem_of_nil in H0. }
  apply Forall_forall. intros f Hin. destruct (proj1 (Forall_forall _ _) Hf f Hin) as (p & Hp & Hev). exists p.
  split; [exact (proj1 (Forall_forall _ _) Hpol _ Hp)|]. split; [done|].
  apply resolve_effective_policy_fold in Hres as [-> _].
  destruct (merge_layers_tighter (layer_policy (key_layer k bp)) (map model_layer models)) as [_ Ht].
  assert (Hin' : model_layer (feat_model f, p) ∈ map model_layer models)
    by (change (map model_layer models) with (model_layer <$> models); by apply list_elem_of_fmap_2).
  apply tighter_clear. exact (proj1 (Forall_forall _ _) Ht _ Hin').
Qed.
End batches.

(** ** Admission *)

Record CompleteContext := {
  cc_key : option AuthenticatedKey;
  cc_route : option Route;
  cc_match : option RouteMatch;
  cc_fallback_count : Z;
  cc_reservation_id : string;
  cc_request_rate_count : option Z;
  (* no Foundry binding, pricing rule, pre-call plan or guardrail context *)
  cc_plain_metadata : bool;
  cc_policy : option KeyPolicy;
  cc_budget_reserved : bool;
  cc_budget_reserved_at : option Z;
  cc_is_streaming : bool;
  cc_guardrail_error : option GatewayError
}.
Definition cc_set_policy (p : KeyPolicy) (c : CompleteContext) : CompleteContext :=
  {| cc_key := cc_key c; cc_route := cc_route c; cc_match := cc_match c; cc_fallback_count := cc_fallback_count c;
     cc_reservation_id := cc_reservation_id c; cc_request_rate_count := cc_request_rate_count c;
     cc_plain_metadata := cc_plain_metadata c; cc_policy := Some p; cc_budget_reserved := cc_budget_reserved c;
     cc_budget_reserved_at := cc_budget_reserved_at c; cc_is_streaming := cc_is_streaming c;
     cc_guardrail_error := cc_guardrail_error c |}.
Definition cc_reserve (at_ : Z) (stream : bool) (c : CompleteContext) : CompleteContext :=
  {| cc_key := cc_key c; cc_route := cc_route c; cc_match := cc_match c; cc_fallback_count := cc_fallback_count c;
     cc_reservation_id := cc_reservation_id c; cc_request_rate_count := cc_request_rate_count c;
     cc_plain_metadata := cc_plain_metadata c; cc_policy := cc_policy c; cc_budget_reserved := true;
     cc_budget_reserved_at := Some at_; cc_is_streaming := stream; cc_guardrail_error := cc_guardrail_error c |}.
Definition cc_fail (e : GatewayError) (c : CompleteContext) : CompleteContext :=
  {| cc_key := cc_key c; cc_route := cc_route c; cc_match := cc_match c; cc_fallback_count := cc_fallback_count c;
     cc_reservation_id := cc_reservation_id c; cc_request_rate_count := cc_request_rate_count c;
     cc_plain_metadata := cc_plain_metadata c; cc_policy := cc_policy c; cc_budget_reserved := cc_budget_reserved c;
     cc_budget_reserved_at := cc_budget_reserved_at c; cc_is_streaming := cc_is_streaming c;
     cc_guardrail_error := Some e |}.

(** A request that fell back is sent to LiteLLM. *)
Definition effective_match (c : CompleteContext) (m : RouteMatch) : RouteMatch :=
  if 0 <? cc_fallback_count c
  then {| rm_route := rm_route m; rm_backend := rm_backend m; rm_provider := LiteLlm;
          rm_service_name := rm_service_name m; rm_timeout_ms := rm_timeout_ms m;
          rm_max_body_bytes := rm_max_body_bytes m; rm_max_response_body_bytes := rm_max_response_body_bytes m;
          rm_estimated_cost_usd := rm_estimated_cost_usd m |}
  else m.

Section admission.
Context {C : Type} `{ControlState C} `{SerdeJson}.
Variable to_vec : Value → option string.
(** The policy of the request's key by model, and its committed spend. *)
Variable policy_for : option string → GatewayResult EffectivePolicy.
Variable committed_spend : GatewayResult (BudgetState f64).
(** The clock when the policy is checked, when tokens are counted and when
    the budget is reserved. *)
Variables now_check now_tokens now_reserve : Z.
Variable metadata_capacity : Z.

(** A period without counters is seeded from the durable ledger, once. *)
Definition admit_request_budget (key_id reservation_id : string) (amount : f64) (policy : KeyPolicy) (now : Z) (c : C) :
    C * GatewayResult (BudgetDecision f64) :=
  let ask := cs_admit_budget key_id reservation_id amount (daily_budget_usd policy) (monthly_budget_usd policy) now in
  match ask c with
  | (c, Err ControlStateUnavailable) =>
      match committed_spend with
      | Err e => (c, Err e)
      | Ok committed =>
          match cs_seed_committed key_id committed now c with
          | (c, Err e) => (c, Err e)
          | (c, Ok _) => ask c
          end
      end
  | decided => decided
  end.

Definition retain_request_metadata_workspace (ctx : CompleteContext) (body : string) (a : Admission) :
    Admission * GatewayResult unit :=
  if cc_plain_metadata ctx && negb (bool_decide (cc_route ctx = Some AnthropicMessageBatches))
     && has_compact_metadata body metadata_capacity
  then on_lease retain_compact_workspace a else (a, Ok tt).

(** Too many requests of the minute, under the limit of the body's policy. *)
Definition rate_exceeded (ctx : CompleteContext) (policy : KeyPolicy) : bool :=
  is_some_and (λ limit, (limit <=? 0) || (limit <? default 0 (cc_request_rate_count ctx))) (rpm_limit policy).

(** Tokens are counted and the budget reserved, under the policy found. *)
Definition spend (ctx : CompleteContext) (k : AuthenticatedKey) (matched : RouteMatch) (policy : KeyPolicy)
    (body : string) (a : Admission) (c : C) : Admission * C * GatewayResult unit :=
  let tokens := if is_some (tpm_limit policy) then body_tokens body else 0 in
  match retain_request_metadata_workspace ctx body a with
  | (a, Err e) => (a, c, Err e)
  | (a, Ok _) =>
      match cs_token_rate (Auth.key_id k) (tpm_limit policy) tokens now_tokens c with
      | (c, Err e) => (a, c, Err e)
      | (c, Ok (RateExceeded _ retry)) => (a, c, Err (TokenRateLimitExceeded retry))
      | (c, Ok (RateAllowed _)) =>
          match admit_request_budget (Auth.key_id k) (cc_reservation_id ctx)
                  (default (f64_of_Z 0) (rm_estimated_cost_usd matched)) policy now_reserve c with
          | (c, Err e) => (a, c, Err e)
          | (c, Ok (BudgetExceeded _)) => (a, c, Err Errors.BudgetExceeded)
          | (c, Ok (BudgetAllowed _)) => (a, c, Ok tt)
          end
      end
  end.

(** The body of [admit_complete_body], up to its error path. *)
Definition govern (ctx : CompleteContext) (body : string) (a : Admission) (c : C) :
    Admission * C * GatewayResult CompleteContext :=
  match on_lease (λ st l, try_reserve st l (saturating_sub (len body) (reserved_bytes l))) a with
  | (a, Err e) => (a, c, Err e)
  | (a, Ok _) =>
      match cc_key ctx, cc_match ctx with
      | None, _ => (a, c, Err MissingAuthorization)
      | _, None => (a, c, Err UnsupportedRoute)
      | Some k, Some m =>
          let matched := effective_match ctx m in
          let features := with_service (rm_service_name matched) (body_features body) in
          match (effective_complete_policy to_vec policy_for k matched body).2 with
          | Err e => (a, c, Err e)
          | Ok effective =>
              let policy := eff_policy effective in
              match on_lease begin_processing a with
              | (a, Err e) => (a, c, Err e)
              | (a, Ok _) =>
                  match check_complete_request_policy to_vec policy matched body features now_check with
                  | Err e => (a, c, Err e)
                  | Ok _ =>
                      if cc_budget_reserved ctx then (a, c, Ok (cc_set_policy policy ctx))
                      else if rate_exceeded ctx policy then (a, c, Err (RateLimitExceeded None))
                      else
                        match spend ctx k matched policy body a c with
                        | (a, c, Err e) => (a, c, Err e)
                        | (a, c, Ok _) =>
                            (a, c, Ok (cc_set_policy policy (cc_reserve now_reserve (feat_stream features) ctx)))
                        end
                  end
              end
          end
      end
  end.

(** The outcome: the context, and the body that is sent on when it is [Ok]. *)
Definition admit_complete_body (ctx : CompleteContext) (body : string) (a : Admission) (c : C) :
    Admission * C * CompleteContext * GatewayResult string :=
  match govern ctx body a c with
  | (a, c, Ok ctx) => (a, c, ctx, Ok body)
  | (a, c, Err e) => (a, c, cc_fail e ctx, Err e)
  end.
End admission.

Section admitted.
Context {C : Type} `{ControlState C} `{SerdeJson}.
Variable to_vec : Value → option string.
Variable policy_for : option string → GatewayResult EffectivePolicy.
Variable committed_spend : GatewayResult (BudgetState f64).
Variables now_check now_tokens now_reserve : Z.
Variable metadata_capacity : Z.
Abbreviation admit_budget := (admit_request_budget committed_spend).
Abbreviation admission := (admit_complete_body to_vec policy_for committed_spend now_check now_tokens now_reserve metadata_capacity).

(** The control state of a call that granted nothing: it was not touched, or
    tokens were counted, or the budget was asked for and refused. *)
Inductive ungranted (ctx : CompleteContext) : C → C → Prop :=
| ungranted_untouched c : ungranted ctx c c
| ungranted_tokens k limit tokens c c' r :
    cs_token_rate k limit tokens now_tokens c = (c', r) →
    (∀ n, r ≠ Ok (RateAllowed n)) → ungranted ctx c c'
| ungranted_budget k limit tokens amount policy n c c1 c' r :
    cs_token_rate k limit tokens now_tokens c = (c1, Ok (RateAllowed n)) →
    admit_budget k (cc_reservation_id ctx) amount policy now_reserve c1 = (c', r) →
    (∀ st, r ≠ Ok (BudgetAllowed st)) → ungranted ctx c c'.

(** What lets a body pass: its policy admits it and caps its output, and,
    unless an earlier attempt reserved the budget, its tokens fit the minute
    and its whole estimated cost was reserved within the policy's budgets. *)
Record governed (ctx ctx' : CompleteContext) (body : string) (c c' : C) : Prop := {
  gov_reserved : cc_budget_reserved ctx' = true;
  gov_policy : ∃ k m eff, cc_key ctx = Some k ∧ cc_match ctx = Some m ∧ cc_policy ctx' = Some (eff_policy eff) ∧
    let matched := effective_match ctx m in
    let f := with_service (rm_service_name matched) (body_features body) in
    let p := eff_policy eff in
    (effective_complete_policy to_vec policy_for k matched body).2 = Ok eff ∧
    len body ≤ rm_max_body_bytes matched ∧
    (if is_batch matched body
     then ∃ fs, batch_request_features to_vec body = Ok fs ∧
       Forall (λ f, evaluate_policy p (rm_route matched) (rm_provider matched) f = Ok tt) fs
     else evaluate_policy p (rm_route matched) (rm_provider matched) f = Ok tt) ∧
    evaluate_policy_limits p now_check (i64_of_usize (len body)) None
      (max_input_tokens_per_request p ≫= λ _, i32_of (body_tokens body)) None (rm_estimated_cost_usd matched) = Ok tt ∧
    enforce_output_token_limit p (rm_route matched) body = Ok tt ∧
    (if cc_budget_reserved ctx then c' = c
     else ∃ n c1 st,
       cs_token_rate (Auth.key_id k) (tpm_limit p) (if is_some (tpm_limit p) then body_tokens body else 0) now_tokens c
       = (c1, Ok (RateAllowed n)) ∧
       admit_budget (Auth.key_id k) (cc_reservation_id ctx) (default (f64_of_Z 0) (rm_estimated_cost_usd matched))
         p now_reserve c1 = (c', Ok (BudgetAllowed st)))
}.

Lemma check_complete_ok policy matched body f :
  check_complete_request_policy to_vec policy matched body f now_check = Ok tt →
  len body ≤ rm_max_body_bytes matched ∧
  (if is_batch matched body
   then ∃ fs, batch_request_features to_vec body = Ok fs ∧
     Forall (λ f, evaluate_policy policy (rm_route matched) (rm_provider matched) f = Ok tt) fs
   else evaluate_policy policy (rm_route matched) (rm_provider matched) f = Ok tt) ∧
  evaluate_policy_limits policy now_check (i64_of_usize (len body)) None
    (max_input_tokens_per_request policy ≫= λ _, i32_of (body_tokens body)) None (rm_estimated_cost_usd matched) = Ok tt ∧
  enforce_output_token_limit policy (rm_route matched) body = Ok tt.
Proof.
  unfold check_complete_request_policy. rewrite !guard_ok, !check_ok. intros (Hl & _ & He & Hlim & Ho).
  apply Z.ltb_ge in Hl. split; [done|]. split; [|done]. destruct (is_batch matched body); [|done].
  destruct (batch_request_features to_vec body) as [fs|]; [|done]. exists fs. split; [done|].
  apply try_for_each_ok in He. eapply Forall_impl; [exact He|]. intros x Hx. cbv beta in Hx. by apply guard_ok in Hx as [_ ?].
Qed.

Lemma spend_ok ctx k matched policy body a c a' c' r :
  spend committed_spend now_tokens now_reserve metadata_capacity ctx k matched policy body a c = (a', c', r) →
  match r with
  | Ok _ => ∃ n c1 st,
      cs_token_rate (Auth.key_id k) (tpm_limit policy) (if is_some (tpm_limit policy) then body_tokens body else 0) now_tokens c
      = (c1, Ok (RateAllowed n)) ∧
      admit_budget (Auth.key_id k) (cc_reservation_id ctx) (default (f64_of_Z 0) (rm_estimated_cost_usd matched))
        policy now_reserve c1 = (c', Ok (BudgetAllowed st))
  | Err _ => ungranted ctx c c'
  end.
Proof.
  unfold spend. cbv zeta. destruct (retain_request_metadata_workspace _ _ _ _) as [a1 [[]|]];
    [|intros [= <- <- <-]; constructor].
  destruct (cs_token_rate _ _ _ _ _) as [c1 [[n|n retry]|e]] eqn:Et;
    [|intros [= <- <- <-]; by eapply ungranted_tokens..].
  destruct (admit_budget _ _ _ _ _ c1) as [c2 [[st|st]|e]] eqn:Eb; intros [= <- <- <-];
    [by eauto|by eapply ungranted_budget..].
Qed.

(** C14: Nothing is sent to a provider ungoverned: a complete body that passes
    admission was accepted by the policy that applies to it (every entry of a
    batch by itself), fits its size, token and cost limits and the cap on its
    output, and its whole estimated cost was reserved within the budgets,
    after its tokens were counted within the minute's limit; it is then sent
    unchanged.  A body that is refused is not sent, and no reservation has
    been granted for it. *)
Theorem complete_body_governed ctx body a c a' c' ctx' r :
  admission ctx body a c = (a', c', ctx', r) →
  match r with
  | Ok sent => sent = body ∧ governed ctx ctx' body c c'
  | Err e => ungranted ctx c c' ∧ cc_guardrail_error ctx' = Some e ∧ cc_budget_reserved ctx' = cc_budget_reserved ctx
  end.
Proof.
  unfold admit_complete_body. destruct (govern _ _ _ _ _ _ _ ctx body a c) as [[a1 c1] [ctx1|e]] eqn:Eg; intros [= <- <- <- <-].
  - split; [done|]. unfold govern in Eg. destruct (on_lease _ a) as [a2 [[]|]]; [|done].
    destruct (cc_key ctx) as [k|] eqn:Ek; [|done]. destruct (cc_match ctx) as [m|] eqn:Em; [|done]. cbv zeta in Eg.
    destruct ((effective_complete_policy _ _ _ _ _).2) as [eff|] eqn:Ee; [|done].
    destruct (on_lease begin_processing a2) as [a3 [[]|]]; [|done].
    destruct (check_complete_request_policy _ _ _ _ _ _) as [[]|] eqn:Ec; [|done].
    destruct (check_complete_ok _ _ _ _ Ec) as (Hl & Hp & Hlim & Ho).
    destruct (cc_budget_reserved ctx) eqn:Er.
    + injection Eg as <- <- <-. split; [done|]. exists k, m, eff. rewrite Er. done.
    + destruct (rate_exceeded _ _); [done|].
      destruct (spend _ _ _ _ _ _ _ _ _ _ _) as [[a4 c4] [[]|]] eqn:Es; [|done]. injection Eg as <- <- <-.
      apply spend_ok in Es. split; [done|]. exists k, m, eff. rewrite Er. done.
  - split; [|done]. unfold govern in Eg. destruct (on_lease _ a) as [a2 [[]|]]; [|injection Eg as <- <- <-; constructor].
    destruct (cc_key ctx) as [k|], (cc_match ctx) as [m|]; try (injection Eg as <- <- <-; constructor).
    cbv zeta in Eg. destruct ((effective_complete_policy _ _ _ _ _).2) as [eff|]; [|injection Eg as <- <- <-; constructor].
    destruct (on_lease begin_processing a2) as [a3 [[]|]]; [|injection Eg as <- <- <-; constructor].
    destruct (check_complete_request_policy _ _ _ _ _ _) as [[]|]; [|injection Eg as <- <- <-; constructor].
    destruct (cc_budget_reserved ctx); [done|]. destruct (rate_exceeded _ _); [injection Eg as <- <- <-; constructor|].
    destruct (spend _ _ _ _ _ _ _ _ _ _ _) as [[a4 c4] [[]|]] eqn:Es; [done|]. injection Eg as <- <- <-.
    by apply spend_ok in Es.
Qed.
End admitted.

(** ** A concrete batch and a concrete request *)

Definition batch_body : Value :=
  JObject [("requests", JArray [JObject [("params", JString "small")]; JObject [("params", JString "large")];
                                JObject [("params", JString "small")]])].
Definition probe_of (model : string) : GenerationRequestProbe :=
  {| gp_model := Some model; gp_stream := false; gp_tools := None; gp_functions := None; gp_function_call := None;
     gp_tool_choice := None; gp_service := None; gp_service_name := None; gp_guardrails := None |}.
#[local] Instance batch_serde : SerdeJson :=
  {| from_slice_value := λ s, if String.eqb s "batch" then Some batch_body else Some (JObject [("model", JString s)]);
     from_slice_maximum_probe := λ _, None;
     from_slice_batch := λ _, None;
     from_slice_extra_body := λ _, Some None;
     from_slice_generation_probe := λ s, if String.eqb s "batch" then None else Some (probe_of s) |}.
Definition text_of (v : Value) : option string := match v with JString s => Some s | _ => None end.
Definition open_policy : EffectivePolicy :=
  {| eff_policy := neutral_layer 1; eff_guardrail_policy := GuardrailPolicy_default; applied_layers := [] |}.
Definition batch_match : RouteMatch :=
  {| rm_route := AnthropicMessageBatches; rm_backend := BackendLiteLlm; rm_provider := LiteLlm; rm_service_name := None;
     rm_timeout_ms := 1000; rm_max_body_bytes := 1000; rm_max_response_body_bytes := 1000; rm_estimated_cost_usd := None |}.
Definition sample_key : AuthenticatedKey := {| Auth.key_id := "k"; Auth.project_id := None; key_prefix := "p" |}.

Lemma batch_policy_sound_witness :
  ∃ eff, effective_complete_policy text_of (λ _, Ok open_policy) sample_key batch_match "batch"
         = ([None; Some "small"; Some "large"], Ok eff) ∧ tighter (eff_policy eff) (neutral_layer 1).
Proof.
  destruct (effective_complete_policy text_of (λ _, Ok open_policy) sample_key batch_match "batch") as [lookups [eff|]] eqn:E;
    [|vm_compute in E; discriminate E].
  exists eff. split; [vm_compute in E; injection E as <- _; reflexivity|].
  destruct (batch_policy_sound text_of (λ _, Ok open_policy) batch_match sample_key "batch" lookups eff E eq_refl)
    as (fs & base & ms & Hf & _ & _ & _ & Hall). vm_compute in Hf. injection Hf as <-.
  inversion Hall as [|f l (p & Hp & _ & Ht) _]. injection Hp as <-. exact Ht.
Defined.

(** A control state that grants everything and remembers what it was asked. *)
Inductive asked : Type := AskedTokens (tokens : Z) | AskedBudget (reservation : string).
#[local] Instance granting_control : ControlState (list asked) :=
  {| cs_request_rate := λ _ _ _ c, (c, Ok (RateAllowed 1));
     cs_token_rate := λ _ _ tokens _ c, (c ++ [AskedTokens tokens], Ok (RateAllowed tokens));
     cs_admit_budget := λ _ rid _ _ _ _ c, (c ++ [AskedBudget rid], Ok (BudgetAllowed (Build_BudgetState (f64_of_Z 0) (f64_of_Z 0))));
     cs_seed_committed := λ _ _ _ c, (c, Ok tt) |}.
Definition chat_context : CompleteContext :=
  {| cc_key := Some sample_key; cc_route := Some ChatCompletions;
     cc_match := Some {| rm_route := ChatCompletions; rm_backend := BackendLiteLlm; rm_provider := LiteLlm;
       rm_service_name := None; rm_timeout_ms := 1000; rm_max_body_bytes := 1000; rm_max_response_body_bytes := 1000;
       rm_estimated_cost_usd := None |};
     cc_fallback_count := 0; cc_reservation_id := "r"; cc_request_rate_count := Some 1; cc_plain_metadata := true;
     cc_policy := None; cc_budget_reserved := false; cc_budget_reserved_at := None; cc_is_streaming := false;
     cc_guardrail_error := None |}.

Lemma complete_body_governed_witness :
  ∃ a c ctx, admit_complete_body text_of (λ _, Ok open_policy) (Err ControlStateUnavailable) 0 1 2 10 chat_context "small"
      (sample_held, Some sample_lease) [] = (a, c, ctx, Ok "small") ∧
    c = [AskedTokens 0; AskedBudget "r"] ∧ cc_budget_reserved ctx = true.
Proof.
  destruct (admit_complete_body text_of (λ _, Ok open_policy) (Err ControlStateUnavailable) 0 1 2 10 chat_context "small"
      (sample_held, Some sample_lease) []) as [[[a c] ctx] r] eqn:E.
  pose proof (complete_body_governed text_of (λ _, Ok open_policy) (Err ControlStateUnavailable) 0 1 2 10 _ _ _ _ _ _ _ _ E) as H.
  destruct r as [sent|]; [|exfalso; vm_compute in E; discriminate E]. destruct H as [-> [Hr _]].
  exists a, c, ctx. split; [reflexivity|]. split; [|exact Hr].
  apply (f_equal (λ x, x.1.1.2)) in E. vm_compute in E. symmetry. exact E.
Defined.

(** ** The Redis control state *)

Section redis_control.
Context `{LuaNum f64}.
Variables format_day format_month format_minute : Z → string.
Variable int_number : string → option Z.
Variable int_text : Z → string.
Variable ttl_reply : Z → Store → string → Z.
(** The server's clock at an operation and at the [TTL] that may follow, and
    the accounting epoch this replica has read. *)
Variables t t' : Z.
Variable epoch : string.

Definition redis_control : ControlState Store :=
  {| cs_request_rate := check_request_rate_limit format_minute int_number int_text ttl_reply t t';
     cs_token_rate := check_token_rate_limit format_minute int_number int_text ttl_reply t t';
     cs_admit_budget := Budgets.admit_budget format_day format_month t epoch;
     cs_seed_committed := seed_committed_budget format_day format_month t epoch |}.
#[local] Existing Instance redis_control.

(** C40: Losing Redis cannot rearm a replica: while the accounting epoch in the
    store is not the one the replica read (the store was emptied, or recovered
    under a new epoch), asking for a budget is refused and changes nothing,
    whatever spend the durable ledger would seed it with. *)
Theorem lost_accounting_not_rearmed committed key_id rid amount policy now s :
  read t s BUDGET_EPOCH_KEY ≠ Some epoch →
  ∃ e, @admit_request_budget Store redis_control committed key_id rid amount policy now s = (s, Err e).
Proof.
  intros Hne. unfold admit_request_budget. cbn [cs_admit_budget redis_control].
  assert (Ha : Budgets.admit_budget format_day format_month t epoch key_id rid amount
    (daily_budget_usd policy) (monthly_budget_usd policy) now s = (s, Err ControlStateUnavailable)).
  { unfold Budgets.admit_budget. destruct (_ || _); [done|]. by apply invoke_epoch. }
  rewrite Ha. destruct committed as [st|e]; [|by exists e].
  cbn [cs_seed_committed redis_control]. unfold seed_committed_budget, seed_budget_counters.
  destruct (_ || _); [by eexists|]. unfold seed_script. rewrite invoke_epoch by done. by eexists.
Qed.
End redis_control.

Definition no_numbers : LuaNum f64 :=
  f64_num (f64_of_Z 0) (λ _, None) (λ _, "0") (λ _, "0") (λ _, "0") (λ _, None) (λ _ _, None).

Lemma lost_accounting_not_rearmed_witness :
  ∃ e, @admit_request_budget Store (@redis_control no_numbers (λ _, "d") (λ _, "m") (λ _, "n") (λ _, None) (λ _, "0") (λ _ _ _, 0) 0 0 "old")
         (Ok (Build_BudgetState (f64_of_Z 1) (f64_of_Z 1))) "k" "r" (f64_of_Z 1) (neutral_layer 1) 0 ∅ = (∅, Err e).
Proof.
  apply (@lost_accounting_not_rearmed no_numbers (λ _, "d") (λ _, "m") (λ _, "n") (λ _, None) (λ _, "0") (λ _ _ _, 0) 0 0 "old").
  intros Hr. discriminate Hr.
Defined.
