(* ===== verification/Headers.v ===== *)
(** * HTTP messages

    The header maps and URIs of the [http] and [pingora_http] crates, as the
    proxy uses them: an interface with the documented laws of lookup, insertion
    and removal, and an association list that satisfies it.  The helpers of
    [crates/gateway-proxy/src/pingora_plane.rs] and
    [crates/gateway-proxy/src/websocket.rs] that read request headers. *)

From S2P Require Import Prelude Errors.

(** [HeaderMap]: [insert_header] fails on a name or value that is not legal. *)
Class HeaderMap (H : Type) := {
  get_all : string → H → list string;
  insert_header : string → string → H → option H;
  remove_header : string → H → H;
  to_str : string → option string
}.

(** Names are compared without case; an insertion replaces every earlier value
    of the name, a removal takes them all; [to_str] is the identity on the
    values it accepts. *)
Class HeaderLaws (H : Type) `{HeaderMap H} := {
  get_all_remove n n' h :
    get_all n (remove_header n' h) = if eq_ignore_ascii_case n n' then [] else get_all n h;
  get_all_insert n n' v h h' :
    insert_header n' v h = Some h' →
    get_all n h' = if eq_ignore_ascii_case n n' then [v] else get_all n h;
  to_str_same v t : to_str v = Some t → t = v
}.

(** What the code reads of a parsed [http::Uri]. *)
Record Uri := {
  uri_path : string;
  uri_query : option string;
  uri_path_and_query : option string
}.

Record RequestHeader (H : Type) := {
  rq_method : string;
  rq_http_11 : bool;
  rq_uri : Uri;
  rq_headers : H
}.
#[global] Arguments rq_method {H}.
#[global] Arguments rq_http_11 {H}.
#[global] Arguments rq_uri {H}.
#[global] Arguments rq_headers {H}.
#[global] Arguments Build_RequestHeader {H}.

Definition set_headers {H} (h : H) (r : RequestHeader H) : RequestHeader H :=
  {| rq_method := rq_method r; rq_http_11 := rq_http_11 r; rq_uri := rq_uri r; rq_headers := h |}.
Definition set_uri {H} (u : Uri) (r : RequestHeader H) : RequestHeader H :=
  {| rq_method := rq_method r; rq_http_11 := rq_http_11 r; rq_uri := u; rq_headers := rq_headers r |}.

Section reading.
Context {H : Type} `{HeaderMap H}.

Definition contains_key (name : string) (h : H) : bool := negb (is_nil (get_all name h)).
Definition header_count (name : string) (h : H) : Z := Z.of_nat (length (get_all name h)).
Definition header_value (h : H) (name : string) : option string := head (get_all name h) ≫= to_str.
Definition remove_headers (names : list string) (h : H) : H := foldl (λ h n, remove_header n h) h names.

Definition upgrade_requested (h : H) : bool :=
  contains_key "upgrade" h || contains_key "sec-websocket-key" h.

(** [STANDARD.decode], of the base64 crate. *)
Variable base64_decode : string → option string.

Definition upgrade_listed (value : string) : bool :=
  is_some_and (λ v, existsb (λ part, eq_ignore_ascii_case (trim part) "upgrade") (split_on "," v)) (to_str value).

Definition valid_handshake (r : RequestHeader H) : bool :=
  let h := rq_headers r in
  String.eqb (rq_method r) "GET"
  && rq_http_11 r
  && forallb (λ name, header_count name h <=? 1)
       ["upgrade"; "sec-websocket-key"; "sec-websocket-version"; "authorization"]
  && is_some_and (λ v, eq_ignore_ascii_case v "websocket") (header_value h "upgrade")
  && existsb upgrade_listed (get_all "connection" h)
  && bool_decide (header_value h "sec-websocket-version" = Some "13")
  && is_some_and (λ v, len v =? 16) (header_value h "sec-websocket-key" ≫= base64_decode)
  && negb (contains_key "transfer-encoding" h)
  && forallb (String.eqb "0") (get_all "content-length" h).
End reading.

(** ** Credentials of a request *)

Definition litellm_bearer_credential (authorization : option string) : GatewayResult string :=
  let? authorization := ok_or authorization MissingAuthorization in
  let? token := ok_or (strip_prefix "Bearer " authorization) MalformedAuthorization in
  let token := trim token in
  if is_empty token || contains_whitespace token || negb (all_bytes is_ascii token) then Err MalformedAuthorization
  else Ok token.

Definition authorization_has_relayna_key (authorization : option string) : bool :=
  is_some_and (λ token, starts_with (trim token) "rk_live_") (authorization ≫= strip_prefix "Bearer ").

Definition require_unverified_bearer (authorization : option string) : GatewayResult unit :=
  let? authorization := ok_or authorization MissingEntraAuthorization in
  let? token := ok_or (strip_prefix "Bearer " authorization) MalformedEntraAuthorization in
  if is_empty (trim token) then Err MalformedEntraAuthorization else Ok tt.

Definition is_valid_traceparent (value : string) : bool :=
  match split_on "-" value with
  | [a; b; c; d] =>
      (len a =? 2) && (len b =? 32) && (len c =? 16) && (len d =? 2)
      && forallb (all_bytes is_ascii_hexdigit) [a; b; c; d]
  | _ => false
  end.

Definition trace_id_from_traceparent (value : string) : option string :=
  match split_on "-" value with
  | _version :: trace_id :: _ =>
      if (len trace_id =? 32) && all_bytes is_ascii_hexdigit trace_id then Some (to_ascii_lowercase trace_id) else None
  | _ => None
  end.

Definition request_public_origin {H} `{HeaderMap H} (h : H) : option string :=
  (match header_value h "x-forwarded-host" with Some v => Some v | None => header_value h "host" end) ≫= λ host,
  let host := trim host in
  if is_empty host || contains_whitespace host then None
  else
    let proto := trim (default "http" (header_value h "x-forwarded-proto")) in
    if String.eqb proto "http" || String.eqb proto "https" then Some (proto +:+ "://" +:+ host) else None.

(** ** Reasoning *)

Lemma same_name_comm a b : eq_ignore_ascii_case a b = eq_ignore_ascii_case b a.
Proof. apply String.eqb_sym. Qed.
Lemma same_name_iff a b : eq_ignore_ascii_case a b = true ↔ to_ascii_lowercase a = to_ascii_lowercase b.
Proof. apply String.eqb_eq. Qed.

Section laws.
Context {H : Type} `{HL : HeaderLaws H}.

Lemma get_all_removes n names h :
  get_all n (remove_headers names h) = if existsb (eq_ignore_ascii_case n) names then [] else get_all n h.
Proof using HL.
  revert h. induction names as [|a names IH]; intros h; [done|]. cbn [existsb].
  change (remove_headers (a :: names) h) with (remove_headers names (remove_header a h)). rewrite IH, get_all_remove.
  by destruct (eq_ignore_ascii_case n a), (existsb _ names).
Qed.
Lemma header_value_get_all h n v : header_value h n = Some v → ∃ rest, get_all n h = v :: rest.
Proof using HL.
  unfold header_value. destruct (get_all n h) as [|x rest]; [done|]. cbn. intros ->%to_str_same. by eexists.
Qed.
Lemma header_value_absent h n : get_all n h = [] → header_value h n = None.
Proof. unfold header_value. by intros ->. Qed.
End laws.

(** ** An association list is a header map *)

Module HeaderList.
Section header_list.
Variables name_ok value_ok : string → bool.

Definition lookup (n : string) (h : list (string * string)) : list string :=
  snd <$> List.filter (λ p, eq_ignore_ascii_case n p.1) h.
Definition without (n : string) (h : list (string * string)) : list (string * string) :=
  List.filter (λ p, negb (eq_ignore_ascii_case n p.1)) h.
Definition put (n v : string) (h : list (string * string)) : option (list (string * string)) :=
  if name_ok n && value_ok v then Some ((n, v) :: without n h) else None.

#[local] Instance header_list : HeaderMap (list (string * string)) :=
  {| get_all := lookup; insert_header := put; remove_header := without;
     to_str := λ v, if value_ok v then Some v else None |}.

Lemma lookup_without n n' h : lookup n (without n' h) = if eq_ignore_ascii_case n n' then [] else lookup n h.
Proof.
  unfold lookup, without. induction h as [|[a v] h IH]; cbn [List.filter fst]; [by destruct (eq_ignore_ascii_case n n')|].
  destruct (eq_ignore_ascii_case n n') eqn:E.
  - destruct (eq_ignore_ascii_case n' a) eqn:E'; cbn [negb]; [done|]. cbn [List.filter fst].
    destruct (eq_ignore_ascii_case n a) eqn:Ea; [|done]. apply same_name_iff in E, Ea.
    rewrite E in Ea. apply same_name_iff in Ea. congruence.
  - destruct (eq_ignore_ascii_case n' a) eqn:E'; cbn [negb List.filter fst].
    + destruct (eq_ignore_ascii_case n a) eqn:Ea; [|done]. apply same_name_iff in E', Ea.
      rewrite <- E' in Ea. apply same_name_iff in Ea. congruence.
    + destruct (eq_ignore_ascii_case n a); cbn; by rewrite <- IH.
Qed.
Lemma header_list_laws : HeaderLaws (list (string * string)).
Proof.
  split.
  - exact lookup_without.
  - intros n n' v h h'. cbn. unfold put. destruct (_ && _); [|done]. intros [= <-].
    unfold lookup. cbn [List.filter fst]. fold (lookup n (without n' h)). destruct (eq_ignore_ascii_case n n') eqn:E.
    + cbn. f_equal. change (lookup n (without n' h) = []). by rewrite lookup_without, E.
    + change (lookup n (without n' h) = lookup n h). by rewrite lookup_without, E.
  - intros v t. cbn. destruct (value_ok v); congruence.
Qed.
End header_list.
End HeaderList.
