(* ===== verification/ProviderConfigs.v ===== *)
(** * Provider configurations

    Models [crates/gateway-core/src/provider_configs.rs]: the records of the
    provider connections, their names in the database and the checks a
    configuration passes before it is stored.  The URL parser and the grammar
    of header names are parameters; the store traits are interfaces. *)

From S2P Require Import Prelude Errors Routing Json GuardrailPolicy Foundry.

Inductive ProviderConfigKind : Type := KindLiteLlm | KindInternalService | KindAzureFoundry.
#[global] Instance ProviderConfigKind_eq_dec : EqDecision ProviderConfigKind.
Proof. solve_decision. Defined.
Inductive CredentialHeaderMode : Type := AuthorizationBearer | CustomHeader.
#[global] Instance CredentialHeaderMode_eq_dec : EqDecision CredentialHeaderMode.
Proof. solve_decision. Defined.
Inductive CredentialHeaderValueFormat : Type := RawValue | BearerValue.
#[global] Instance CredentialHeaderValueFormat_eq_dec : EqDecision CredentialHeaderValueFormat.
Proof. solve_decision. Defined.

Record ProviderConfigCreateRequest := {
  pc_foundry : option FoundryIdentity;
  pc_provider : ProviderConfigKind;
  pc_name : string;
  pc_base_url : string;
  pc_enabled : bool;
  pc_credential : option string;
  pc_header_mode : CredentialHeaderMode;
  pc_header_name : option string;
  pc_header_format : CredentialHeaderValueFormat
}.
Record ProviderConfigPatchRequest := {
  pq_foundry : option FoundryIdentity;
  pq_name : option string;
  pq_base_url : option string;
  pq_enabled : option bool;
  pq_credential : option (option string);
  pq_header_mode : option CredentialHeaderMode;
  pq_header_name : option (option string);
  pq_header_format : option CredentialHeaderValueFormat
}.
Record ProviderRuntimeConfig := {
  lc_provider : Provider;
  lc_base_url : string;
  lc_credential : option string;
  lc_header_mode : CredentialHeaderMode;
  lc_header_name : option string;
  lc_header_format : CredentialHeaderValueFormat
}.
Inductive LiteLlmCredentialMappingScope : Type := KeyScope | ProjectScope.
Record LiteLlmCredentialMappingRuntime := {
  mapping_scope : LiteLlmCredentialMappingScope;
  mapping_credential : string
}.

Definition provider_config_kind_str (k : ProviderConfigKind) : string :=
  match k with
  | KindLiteLlm => "litellm"
  | KindInternalService => "internal-service"
  | KindAzureFoundry => "azure-foundry"
  end.
Definition parse_provider_config_kind (value : string) : GatewayResult ProviderConfigKind :=
  if String.eqb value "litellm" then Ok KindLiteLlm
  else if String.eqb value "internal-service" then Ok KindInternalService
  else if String.eqb value "azure-foundry" then Ok KindAzureFoundry
  else Err InvalidProviderConfigPayload.
Definition credential_header_mode_str (m : CredentialHeaderMode) : string :=
  match m with AuthorizationBearer => "authorization_bearer" | CustomHeader => "custom_header" end.
Definition parse_credential_header_mode (value : string) : GatewayResult CredentialHeaderMode :=
  if String.eqb value "authorization_bearer" then Ok AuthorizationBearer
  else if String.eqb value "custom_header" then Ok CustomHeader
  else Err InvalidProviderConfigPayload.
Definition credential_header_value_format_str (f : CredentialHeaderValueFormat) : string :=
  match f with RawValue => "raw" | BearerValue => "bearer" end.
Definition parse_credential_header_value_format (value : string) : GatewayResult CredentialHeaderValueFormat :=
  if String.eqb value "raw" then Ok RawValue
  else if String.eqb value "bearer" then Ok BearerValue
  else Err InvalidProviderConfigPayload.
Definition credential_mapping_scope_str (s : LiteLlmCredentialMappingScope) : string :=
  match s with KeyScope => "key" | ProjectScope => "project" end.
Definition parse_credential_mapping_scope (value : string) : GatewayResult LiteLlmCredentialMappingScope :=
  if String.eqb value "key" then Ok KeyScope
  else if String.eqb value "project" then Ok ProjectScope
  else Err InvalidProviderConfigPayload.

Definition validate_name (name : string) : GatewayResult unit :=
  let trimmed := trim name in
  if is_empty trimmed || (120 <? len trimmed) then Err InvalidProviderConfigPayload else Ok tt.
Definition validate_optional_secret (secret : option string) : GatewayResult unit :=
  if is_some_and (λ v, is_empty (trim v)) secret then Err InvalidProviderConfigPayload else Ok tt.

Definition BLOCKED_CREDENTIAL_HEADERS : list string :=
  ["host"; "content-length"; "authorization"; "proxy-authorization"; "x-relayna-key"; "x-aih-api-key"; "x-api-key";
   "x-relayna-worker-token"; "x-apigee-entra-identity"; "x-apigee-entra-signature"].

Section validation.
Variable url_parse : string → option Url.
(** [HeaderName::from_bytes(..).is_ok()]. *)
Variable header_name_ok : string → bool.

Definition validate_base_url (base_url : string) : GatewayResult unit :=
  let? url := ok_or (url_parse base_url) InvalidProviderConfigPayload in
  if (String.eqb (url_scheme url) "http" || String.eqb (url_scheme url) "https") && is_some (url_host_str url)
  then Ok tt else Err InvalidProviderConfigPayload.

Definition validate_litellm_credential_header_name (header : string) : GatewayResult unit :=
  let header := trim header in
  if is_empty header || negb (header_name_ok header) then Err InvalidProviderConfigPayload
  else
    let normalized := to_ascii_lowercase header in
    if str_mem normalized BLOCKED_CREDENTIAL_HEADERS || starts_with normalized "x-relayna-"
    then Err InvalidProviderConfigPayload
    else Ok tt.

Definition validate_header_settings (mode : CredentialHeaderMode) (header : option string) : GatewayResult unit :=
  match mode with
  | AuthorizationBearer => Ok tt
  | CustomHeader =>
      let? header := ok_or header InvalidProviderConfigPayload in
      validate_litellm_credential_header_name header
  end.

Definition validate_foundry_config (kind : ProviderConfigKind) (foundry : option FoundryIdentity)
    (endpoint : string) (secret_present : bool) : GatewayResult unit :=
  match kind, foundry with
  | KindAzureFoundry, Some identity => identity_validate url_parse identity endpoint secret_present
  | KindAzureFoundry, None | _, Some _ => Err InvalidFoundryConfiguration
  | _, None => Ok tt
  end.

(** Foundry connections carry a bearer token. *)
Definition foundry_header_mode (kind : ProviderConfigKind) (mode : CredentialHeaderMode) : GatewayResult unit :=
  if bool_decide (kind = KindAzureFoundry) && negb (bool_decide (mode = AuthorizationBearer))
  then Err InvalidFoundryConfiguration else Ok tt.

Definition create_validate (r : ProviderConfigCreateRequest) : GatewayResult unit :=
  check? validate_foundry_config (pc_provider r) (pc_foundry r) (pc_base_url r) (is_some (pc_credential r)) in
  check? foundry_header_mode (pc_provider r) (pc_header_mode r) in
  check? validate_name (pc_name r) in
  check? validate_base_url (pc_base_url r) in
  check? validate_optional_secret (pc_credential r) in
  check? validate_header_settings (pc_header_mode r) (pc_header_name r) in
  Ok tt.

Definition patch_validate (p : ProviderConfigPatchRequest) : GatewayResult unit :=
  check? (match pq_name p with Some n => validate_name n | None => Ok tt end) in
  check? (match pq_base_url p with Some u => validate_base_url u | None => Ok tt end) in
  check? (match pq_credential p with Some c => validate_optional_secret c | None => Ok tt end) in
  check? (match pq_header_name p with
          | Some (Some n) => validate_litellm_credential_header_name n | _ => Ok tt end) in
  if bool_decide (pq_header_mode p = Some CustomHeader) && bool_decide (pq_header_name p = Some None)
  then Err InvalidProviderConfigPayload
  else Ok tt.

Definition response_validate_header_settings (kind : ProviderConfigKind) (mode : CredentialHeaderMode)
    (header : option string) : GatewayResult unit :=
  check? foundry_header_mode kind mode in
  validate_header_settings mode header.

(** ** Names *)

Lemma kind_roundtrip k : parse_provider_config_kind (provider_config_kind_str k) = Ok k.
Proof. by destruct k. Qed.
Lemma header_mode_roundtrip m : parse_credential_header_mode (credential_header_mode_str m) = Ok m.
Proof. by destruct m. Qed.
Lemma value_format_roundtrip f : parse_credential_header_value_format (credential_header_value_format_str f) = Ok f.
Proof. by destruct f. Qed.
Lemma mapping_scope_roundtrip s : parse_credential_mapping_scope (credential_mapping_scope_str s) = Ok s.
Proof. by destruct s. Qed.

(** ** A credential header is never one the gateway needs for itself *)

Lemma credential_header_name_ok n :
  validate_litellm_credential_header_name n = Ok tt →
  header_name_ok (trim n) = true ∧ (to_ascii_lowercase (trim n) ∉ BLOCKED_CREDENTIAL_HEADERS) ∧
  starts_with (to_ascii_lowercase (trim n)) "x-relayna-" = false.
Proof.
  unfold validate_litellm_credential_header_name. cbv zeta. rewrite !guard_ok.
  intros ((_ & ?%negb_false_iff)%orb_false_iff & (Hb & ?)%orb_false_iff & _). split_and!; [done| |done].
  intros Hin. apply str_mem_iff in Hin. congruence.
Qed.
Lemma header_settings_ok mode n :
  validate_header_settings mode n = Ok tt → mode = CustomHeader →
  ∃ h, n = Some h ∧ validate_litellm_credential_header_name h = Ok tt.
Proof. intros H ->. cbn in H. destruct n as [h|]; [|done]. by exists h. Qed.
Lemma created_config_header r :
  create_validate r = Ok tt → validate_header_settings (pc_header_mode r) (pc_header_name r) = Ok tt.
Proof. unfold create_validate. rewrite !check_ok. naive_solver. Qed.
End validation.
