(* ===== verification/Upstream.v ===== *)
(** * Upstream connections and their credentials

    Models [PingoraUpstreamConfig] of
    [crates/gateway-proxy/src/pingora_plane.rs], the preparation of the
    authority and the credential of an upstream request
    ([prepare_upstream_authority_and_credentials]), and the rewriting of
    targets and redirects.  The URL and URI parsers are parameters. *)

From S2P Require Import Prelude Errors Routing Json GuardrailPolicy EndpointAccess Foundry ProviderConfigs ServiceTypes ServicePricing Headers.

Record PingoraUpstreamConfig := {
  host : string;
  port : Z;
  tls : bool;
  sni : string;
  service_key : string;
  credential_header_mode : CredentialHeaderMode;
  credential_header_name : option string;
  credential_header_value_format : CredentialHeaderValueFormat
}.
Definition set_service_key (k : string) (u : PingoraUpstreamConfig) : PingoraUpstreamConfig :=
  {| host := host u; port := port u; tls := tls u; sni := sni u; service_key := k;
     credential_header_mode := credential_header_mode u; credential_header_name := credential_header_name u;
     credential_header_value_format := credential_header_value_format u |}.

Definition with_litellm_credential_header (mode : CredentialHeaderMode) (header_name : option string)
    (value_format : CredentialHeaderValueFormat) (u : PingoraUpstreamConfig) : GatewayResult PingoraUpstreamConfig :=
  if bool_decide (mode = CustomHeader) && is_none header_name then Err InvalidConfiguration
  else
    Ok {| host := host u; port := port u; tls := tls u; sni := sni u; service_key := service_key u;
          credential_header_mode := mode; credential_header_name := trim <$> header_name;
          credential_header_value_format := value_format |}.

Definition host_header_value (u : PingoraUpstreamConfig) : string :=
  let host := if contains_str (host u) ":" && negb (starts_with (host u) "[") then "[" +:+ host u +:+ "]" else host u in
  if (tls u && (port u =? 443)) || (negb (tls u) && (port u =? 80)) then host else host +:+ ":" +:+ decimal (port u).

Definition custom_header_credential_value (u : PingoraUpstreamConfig) : string :=
  match credential_header_value_format u with
  | RawValue => service_key u
  | BearerValue => "Bearer " +:+ service_key u
  end.

Section upstreams.
Variable url_parse : string → option Url.
Variable method_parses : string → bool.

Definition from_base_url (base_url service_key : string) : GatewayResult PingoraUpstreamConfig :=
  let? url := ok_or (url_parse base_url) InvalidConfiguration in
  let? host := ok_or (url_host_str url) InvalidConfiguration in
  let? port := ok_or (url_port_or_known_default url) InvalidConfiguration in
  Ok {| host := host; port := port; tls := String.eqb (url_scheme url) "https"; sni := host;
        service_key := service_key; credential_header_mode := AuthorizationBearer;
        credential_header_name := None; credential_header_value_format := RawValue |}.
End upstreams.

(** ** Targets *)

Definition direct_openai_path_and_query (path_and_query : string) : string :=
  match strip_prefix "/providers/openai" path_and_query with
  | None => path_and_query
  | Some rest =>
      if is_empty rest then "/"
      else if starts_with rest "/" || starts_with rest "?" then rest
      else "/" +:+ rest
  end.

Definition is_ui_target (s : string) : bool := String.eqb s "/ui" || starts_with s "/ui/" || starts_with s "/ui?".

Section targets.
(** [str::parse::<Uri>] and [Uri::builder().path_and_query(..).build()]. *)
Variable parse_uri : string → option Uri.
Variable build_uri : string → option Uri.

Definition trusted_ingress_location (location public_origin : string) : option string :=
  if is_ui_target location then Some (public_origin +:+ location)
  else
    parse_uri location ≫= λ uri,
    uri_path_and_query uri ≫= λ target,
    if is_ui_target target then Some (public_origin +:+ target) else None.

(** A rewriting that fails aborts the request ([None]). *)
Definition rewrite_direct_openai_uri {H} (r : RequestHeader H) : option (RequestHeader H) :=
  match uri_path_and_query (rq_uri r) with
  | None => Some r
  | Some pq => (λ u, set_uri u r) <$> build_uri (direct_openai_path_and_query pq)
  end.

Definition rewrite_service_wildcard_uri {H} (service_name : string) (pattern : option string) (r : RequestHeader H) :
    option (RequestHeader H) :=
  match uri_path_and_query (rq_uri r) with
  | None => Some r
  | Some pq =>
      match (match pattern ≫= route_pattern_wildcard_suffix pq with
             | Some suffix => Some suffix
             | None => service_wildcard_suffix pq service_name
             end) with
      | None => Some r
      | Some rewritten => (λ u, set_uri u r) <$> build_uri rewritten
      end
  end.
End targets.

(** ** Authority and credentials *)

Definition ADMISSION_CONTEXT_HEADER : string := "x-relayna-admission-context".

(** Headers of the client that are never forwarded, whatever the upstream. *)
Definition STRIPPED_BEFORE : list string :=
  [ADMISSION_CONTEXT_HEADER; "authorization"; "host"; "x-apigee-entra-identity"; "x-apigee-entra-signature";
   "proxy-authorization"; "cookie"].
Definition STRIPPED_AFTER : list string :=
  ["x-relayna-key"; "x-aih-api-key"; "x-api-key"; "x-litellm-api-key"; "x-litellm-key"; "x-relayna-worker-token"].
Definition stripped (u : PingoraUpstreamConfig) (relayna_key_header : option string) : list string :=
  STRIPPED_BEFORE ++ option_list relayna_key_header ++ STRIPPED_AFTER ++ option_list (credential_header_name u).

(** The header that carries the upstream's credential, with its value. *)
Definition upstream_credential (u : PingoraUpstreamConfig) : option (string * string) :=
  match credential_header_mode u with
  | AuthorizationBearer => Some ("authorization", "Bearer " +:+ service_key u)
  | CustomHeader => (λ n, (n, custom_header_credential_value u)) <$> credential_header_name u
  end.

Section credentials.
Context {H : Type} `{HeaderMap H}.

Definition prepare_upstream_authority_and_credentials (u : PingoraUpstreamConfig)
    (relayna_key_header : option string) (h : H) : option H :=
  let h := remove_headers STRIPPED_BEFORE h in
  let h := match relayna_key_header with Some n => remove_header n h | None => h end in
  let h := remove_headers STRIPPED_AFTER h in
  let h := match credential_header_name u with Some n => remove_header n h | None => h end in
  insert_header "host" (host_header_value u) h ≫= λ h,
  match credential_header_mode u with
  | AuthorizationBearer => insert_header "authorization" ("Bearer " +:+ service_key u) h
  | CustomHeader =>
      credential_header_name u ≫= λ n, insert_header n (custom_header_credential_value u) h
  end.
End credentials.

Section prepared.
Context {H : Type} `{HL : HeaderLaws H}.

Lemma stripped_once u relayna h :
  (let h := remove_headers STRIPPED_BEFORE h in
   let h := match relayna with Some n => remove_header n h | None => h end in
   let h := remove_headers STRIPPED_AFTER h in
   match credential_header_name u with Some n => remove_header n h | None => h end)
  = remove_headers (stripped u relayna) h.
Proof. unfold stripped, remove_headers. rewrite !foldl_app. by destruct relayna, (credential_header_name u). Qed.

(** After the preparation every header the client could have used to present
    or forge a credential is gone, the authority is the upstream's, and the
    only credential is the upstream's own. *)
Lemma prepared_headers u relayna h h' n :
  prepare_upstream_authority_and_credentials u relayna h = Some h' →
  ∃ cn cv, upstream_credential u = Some (cn, cv) ∧
  get_all n h' =
    if eq_ignore_ascii_case n cn then [cv]
    else if eq_ignore_ascii_case n "host" then [host_header_value u]
    else if existsb (eq_ignore_ascii_case n) (stripped u relayna) then [] else get_all n h.
Proof using HL.
  unfold prepare_upstream_authority_and_credentials. cbv zeta. rewrite stripped_once.
  destruct (insert_header "host" _ _) as [h1|] eqn:E1; [|done]. cbn [mbind option_bind]. intros E2.
  assert (∃ cn cv, upstream_credential u = Some (cn, cv) ∧ insert_header cn cv h1 = Some h') as (cn & cv & Hc & E).
  { unfold upstream_credential. destruct (credential_header_mode u); [by eauto|].
    destruct (credential_header_name u); [|done]. cbn in E2 |- *. eauto. }
  exists cn, cv. split; [done|].
  by rewrite (get_all_insert _ _ _ _ _ E), (get_all_insert _ _ _ _ _ E1), get_all_removes.
Qed.
End prepared.
