(* ===== verification/ProxyContext.v ===== *)
(** * The request context of the proxy

    Models [PingoraContext] and [new_ctx] of
    [crates/gateway-proxy/src/pingora_plane.rs], without the fields that only
    feed telemetry (traffic rows, timing probes).  The fields that pricing
    uses are the [PricingContext] of [UsageCost], those that change while the
    body arrives the [RequestBody] of [RequestBody], those of the response and
    of a socket the two records below. *)

From S2P Require Import Prelude SocketFrames ConnectionLimits StreamGuardrails Errors Routing Json GuardrailPolicy Policies Guardrails BodyAdmission BodyRewrite EndpointAccess Foundry ServiceTypes ServicePricing ResponseCost UsageCost RequestBody Auth ProviderConfigs Headers Upstream.

Record FoundryRuntimeConfig := {
  frc_id : string;
  frc_base_url : string;
  frc_identity : FoundryIdentity;
  frc_secret : option string;
  frc_revision : Z
}.

(** [FoundryUsage], the token counts read off an event stream. *)
Record FoundryUsage := {
  fu_line : string;
  fu_overflow : bool;
  fu_tokens : option Z * option Z * option Z
}.
Definition FoundryUsage_default : FoundryUsage := {| fu_line := ""; fu_overflow := false; fu_tokens := (None, None, None) |}.

(** The fields of the response. *)
Record ResponseState := {
  response_rewriter : option BoundedBodyRewriter;
  response_body_lease : option BodyAdmissionLease;
  response_bytes_seen : Z;
  foundry_usage : FoundryUsage;
  post_guardrail_plan : option GuardrailPlan;
  during_guardrail_plan : option GuardrailPlan;
  guardrail_context : option GuardrailContext;
  guardrail_events : list GuardrailExecutionEvent;
  guardrail_stream_holdback : string;
  service_version : option string
}.
Definition ResponseState_default : ResponseState :=
  {| response_rewriter := None; response_body_lease := None; response_bytes_seen := 0;
     foundry_usage := FoundryUsage_default; post_guardrail_plan := None; during_guardrail_plan := None;
     guardrail_context := None; guardrail_events := []; guardrail_stream_holdback := ""; service_version := None |}.

Definition response_eta (r : ResponseState) : ResponseState :=
  Build_ResponseState (response_rewriter r) (response_body_lease r) (response_bytes_seen r) (foundry_usage r)
    (post_guardrail_plan r) (during_guardrail_plan r) (guardrail_context r) (guardrail_events r)
    (guardrail_stream_holdback r) (service_version r).
Definition set_response_rewriter (v : option BoundedBodyRewriter) (r : ResponseState) : ResponseState :=
  ltac:(replace_field response_eta r (response_rewriter r) v).
Definition set_response_lease (v : option BodyAdmissionLease) (r : ResponseState) : ResponseState :=
  ltac:(replace_field response_eta r (response_body_lease r) v).
Definition set_bytes_seen (v : Z) (r : ResponseState) : ResponseState :=
  ltac:(replace_field response_eta r (response_bytes_seen r) v).
Definition set_foundry_usage (v : FoundryUsage) (r : ResponseState) : ResponseState :=
  ltac:(replace_field response_eta r (foundry_usage r) v).
Definition set_service_version (v : option string) (r : ResponseState) : ResponseState :=
  ltac:(replace_field response_eta r (service_version r) v).

(** The fields of a socket session. *)
Record SocketState := {
  socket_upgraded : bool;
  socket_lease : option (string * string);
  socket_request_frames : option FrameLimit;
  socket_response_frames : option FrameLimit
}.
Definition SocketState_default : SocketState :=
  {| socket_upgraded := false; socket_lease := None; socket_request_frames := None; socket_response_frames := None |}.

Record PingoraContext := {
  px_pricing : PricingContext;
  px_body : RequestBody;
  px_request_id : string;
  px_reservation_id : string;
  px_route : option Route;
  px_key : option AuthenticatedKey;
  px_entra_identity : option EntraIdentityContext;
  px_relayna_key_header : string;
  px_request_content_type : option string;
  px_policy : option KeyPolicy;
  px_is_streaming : bool;
  px_budget_reserved : bool;
  px_budget_reserved_at : option Z;
  px_request_rate_count : option Z;
  px_task_id : option string;
  px_run_id : option string;
  px_traceparent : option string;
  px_public_origin : option string;
  px_fallback_count : Z;
  px_terminal_usage_recorded : bool;
  px_terminal_status_code : option Z;
  px_foundry : option (FoundryBinding * FoundryRuntimeConfig);
  px_service_upstream : option PingoraUpstreamConfig;
  px_service_route_pattern : option string;
  px_litellm_upstream : option PingoraUpstreamConfig;
  px_trusted_ingress_passthrough : bool;
  px_direct_litellm_passthrough : bool;
  px_guardrail_definitions : list GuardrailDefinition;
  px_guardrail_policy : GuardrailPolicy;
  px_pre_guardrail_plan : option GuardrailPlan;
  px_rewritten_request_len : option Z;
  px_admission_token : option string;
  px_socket_expires_at : Z;
  px_trace_id : option string;
  px_response : ResponseState;
  px_socket_state : SocketState
}.

Definition px_eta (c : PingoraContext) : PingoraContext :=
  Build_PingoraContext (px_pricing c) (px_body c) (px_request_id c) (px_reservation_id c) (px_route c) (px_key c)
    (px_entra_identity c) (px_relayna_key_header c) (px_request_content_type c) (px_policy c) (px_is_streaming c)
    (px_budget_reserved c) (px_budget_reserved_at c) (px_request_rate_count c) (px_task_id c) (px_run_id c)
    (px_traceparent c) (px_public_origin c) (px_fallback_count c) (px_terminal_usage_recorded c)
    (px_terminal_status_code c) (px_foundry c) (px_service_upstream c) (px_service_route_pattern c)
    (px_litellm_upstream c) (px_trusted_ingress_passthrough c) (px_direct_litellm_passthrough c)
    (px_guardrail_definitions c) (px_guardrail_policy c) (px_pre_guardrail_plan c) (px_rewritten_request_len c)
    (px_admission_token c) (px_socket_expires_at c) (px_trace_id c) (px_response c) (px_socket_state c).
Definition pricing_eta (p : PricingContext) : PricingContext :=
  Build_PricingContext (route_match p) (ctx_access p) (socket p) (litellm_passthrough p) (service_cost_mode p)
    (service_estimated_cost_usd p) (service_pricing_rules p) (http_method p) (endpoint_path p) (endpoint_template p)
    (resolved_endpoint_cost p) (resolved_service_cost p) (response_cost_observer p) (response_body_prefix p).

(** Assignments to the fields. *)
Definition set_pricing (v : PricingContext) (c : PingoraContext) : PingoraContext :=
  ltac:(replace_field px_eta c (px_pricing c) v).
Definition set_body (v : RequestBody) (c : PingoraContext) : PingoraContext :=
  ltac:(replace_field px_eta c (px_body c) v).
Definition set_route (v : Route) (c : PingoraContext) : PingoraContext :=
  ltac:(replace_field px_eta c (px_route c) (Some v)).
Definition set_key (v : AuthenticatedKey) (c : PingoraContext) : PingoraContext :=
  ltac:(replace_field px_eta c (px_key c) (Some v)).
Definition set_identity (v : EntraIdentityContext) (c : PingoraContext) : PingoraContext :=
  ltac:(replace_field px_eta c (px_entra_identity c) (Some v)).
Definition set_key_header (v : string) (c : PingoraContext) : PingoraContext :=
  ltac:(replace_field px_eta c (px_relayna_key_header c) v).
Definition set_content_type (v : option string) (c : PingoraContext) : PingoraContext :=
  ltac:(replace_field px_eta c (px_request_content_type c) v).
Definition set_policy (v : KeyPolicy) (c : PingoraContext) : PingoraContext :=
  ltac:(replace_field px_eta c (px_policy c) (Some v)).
Definition set_streaming (v : bool) (c : PingoraContext) : PingoraContext :=
  ltac:(replace_field px_eta c (px_is_streaming c) v).
Definition set_reserved (v : bool) (c : PingoraContext) : PingoraContext :=
  ltac:(replace_field px_eta c (px_budget_reserved c) v).
Definition set_reserved_at (v : option Z) (c : PingoraContext) : PingoraContext :=
  ltac:(replace_field px_eta c (px_budget_reserved_at c) v).
Definition set_rate_count (v : Z) (c : PingoraContext) : PingoraContext :=
  ltac:(replace_field px_eta c (px_request_rate_count c) (Some v)).
Definition set_task_id (v : option string) (c : PingoraContext) : PingoraContext :=
  ltac:(replace_field px_eta c (px_task_id c) v).
Definition set_run_id (v : option string) (c : PingoraContext) : PingoraContext :=
  ltac:(replace_field px_eta c (px_run_id c) v).
Definition set_traceparent (v : option string) (c : PingoraContext) : PingoraContext :=
  ltac:(replace_field px_eta c (px_traceparent c) v).
Definition set_public_origin (v : option string) (c : PingoraContext) : PingoraContext :=
  ltac:(replace_field px_eta c (px_public_origin c) v).
Definition set_fallback_count (v : Z) (c : PingoraContext) : PingoraContext :=
  ltac:(replace_field px_eta c (px_fallback_count c) v).
Definition set_usage_recorded (c : PingoraContext) : PingoraContext :=
  ltac:(replace_field px_eta c (px_terminal_usage_recorded c) true).
Definition set_terminal_status (v : Z) (c : PingoraContext) : PingoraContext :=
  ltac:(replace_field px_eta c (px_terminal_status_code c) (Some v)).
Definition set_foundry (v : FoundryBinding * FoundryRuntimeConfig) (c : PingoraContext) : PingoraContext :=
  ltac:(replace_field px_eta c (px_foundry c) (Some v)).
Definition set_service_upstream (v : PingoraUpstreamConfig) (c : PingoraContext) : PingoraContext :=
  ltac:(replace_field px_eta c (px_service_upstream c) (Some v)).
Definition set_service_route_pattern (v : string) (c : PingoraContext) : PingoraContext :=
  ltac:(replace_field px_eta c (px_service_route_pattern c) (Some v)).
Definition set_litellm_upstream (v : PingoraUpstreamConfig) (c : PingoraContext) : PingoraContext :=
  ltac:(replace_field px_eta c (px_litellm_upstream c) (Some v)).
Definition set_trusted_ingress (c : PingoraContext) : PingoraContext :=
  ltac:(replace_field px_eta c (px_trusted_ingress_passthrough c) true).
Definition set_direct_passthrough (c : PingoraContext) : PingoraContext :=
  ltac:(replace_field px_eta c (px_direct_litellm_passthrough c) true).
Definition set_definitions (v : list GuardrailDefinition) (c : PingoraContext) : PingoraContext :=
  ltac:(replace_field px_eta c (px_guardrail_definitions c) v).
Definition set_guardrail_policy (v : GuardrailPolicy) (c : PingoraContext) : PingoraContext :=
  ltac:(replace_field px_eta c (px_guardrail_policy c) v).
Definition set_socket_expiry (v : Z) (c : PingoraContext) : PingoraContext :=
  ltac:(replace_field px_eta c (px_socket_expires_at c) v).
Definition set_rewritten_len (v : option Z) (c : PingoraContext) : PingoraContext :=
  ltac:(replace_field px_eta c (px_rewritten_request_len c) v).
Definition set_pre_plan (v : option GuardrailPlan) (c : PingoraContext) : PingoraContext :=
  ltac:(replace_field px_eta c (px_pre_guardrail_plan c) v).
Definition set_admission_token (v : option string) (c : PingoraContext) : PingoraContext :=
  ltac:(replace_field px_eta c (px_admission_token c) v).
Definition set_trace_id (v : option string) (c : PingoraContext) : PingoraContext :=
  ltac:(replace_field px_eta c (px_trace_id c) v).
Definition set_response (v : ResponseState) (c : PingoraContext) : PingoraContext :=
  ltac:(replace_field px_eta c (px_response c) v).
Definition set_socket_state (v : SocketState) (c : PingoraContext) : PingoraContext :=
  ltac:(replace_field px_eta c (px_socket_state c) v).

Definition set_match (v : RouteMatch) (c : PingoraContext) : PingoraContext :=
  set_pricing ltac:(replace_field pricing_eta (px_pricing c) (route_match (px_pricing c)) (Some v)) c.
Definition set_access (v : EndpointAccess) (c : PingoraContext) : PingoraContext :=
  set_pricing ltac:(replace_field pricing_eta (px_pricing c) (ctx_access (px_pricing c)) v) c.
Definition set_socket (c : PingoraContext) : PingoraContext :=
  set_pricing ltac:(replace_field pricing_eta (px_pricing c) (socket (px_pricing c)) true) c.
Definition set_passthrough (c : PingoraContext) : PingoraContext :=
  set_pricing ltac:(replace_field pricing_eta (px_pricing c) (litellm_passthrough (px_pricing c)) true) c.
Definition set_guardrail_error (e : GatewayError) (c : PingoraContext) : PingoraContext :=
  set_body (set_body_error e (px_body c)) c.

(** Fields of the nested records, under the names of the source. *)
Definition px_match (c : PingoraContext) : option RouteMatch := route_match (px_pricing c).
Definition px_access (c : PingoraContext) : EndpointAccess := ctx_access (px_pricing c).
Definition px_socket (c : PingoraContext) : bool := socket (px_pricing c).
Definition px_passthrough (c : PingoraContext) : bool := litellm_passthrough (px_pricing c).
Definition px_guardrail_error (c : PingoraContext) : option GatewayError := guardrail_error (px_body c).
Definition px_body_context (c : PingoraContext) : BodyContext :=
  {| body_match := px_match c; body_policy := px_policy c; body_passthrough := px_passthrough c;
     body_direct_passthrough := px_direct_litellm_passthrough c; body_budget_reserved := px_budget_reserved c;
     body_content_type := px_request_content_type c; body_foundry := fst <$> px_foundry c;
     body_pricing_rules := service_pricing_rules (px_pricing c);
     body_guardrail_definitions := px_guardrail_definitions c; body_guardrail_policy := px_guardrail_policy c |}.

Definition EndpointAccess_default : EndpointAccess :=
  {| authentication_profiles := None; skip_entra := false; entra := None; accessa := None; websocket := None;
     user_token_forwarding := None |}.

(** [uuid::Uuid::new_v4] supplies the two identifiers. *)
Definition new_ctx (key_header request_id reservation_id : string) : PingoraContext :=
  {| px_pricing :=
       {| route_match := None; ctx_access := EndpointAccess_default; socket := false; litellm_passthrough := false;
          service_cost_mode := None; service_estimated_cost_usd := None; service_pricing_rules := [];
          http_method := None; endpoint_path := None; endpoint_template := None; resolved_endpoint_cost := None;
          resolved_service_cost := None; response_cost_observer := observer_default; response_body_prefix := "" |};
     px_body :=
       {| guardrail_error := None; body_bytes_seen := 0; body_prefix := ""; request_rewriter := None;
          request_body_lease := None |};
     px_request_id := request_id; px_reservation_id := reservation_id; px_route := None; px_key := None;
     px_entra_identity := None; px_relayna_key_header := key_header; px_request_content_type := None;
     px_policy := None; px_is_streaming := false; px_budget_reserved := false; px_budget_reserved_at := None;
     px_request_rate_count := None; px_task_id := None; px_run_id := None; px_traceparent := None;
     px_public_origin := None; px_fallback_count := 0; px_terminal_usage_recorded := false;
     px_terminal_status_code := None; px_foundry := None; px_service_upstream := None;
     px_service_route_pattern := None; px_litellm_upstream := None; px_trusted_ingress_passthrough := false;
     px_direct_litellm_passthrough := false; px_guardrail_definitions := [];
     px_guardrail_policy := GuardrailPolicy_default; px_pre_guardrail_plan := None; px_rewritten_request_len := None;
     px_admission_token := None; px_socket_expires_at := 0; px_trace_id := None;
     px_response := ResponseState_default; px_socket_state := SocketState_default |}.

(** ** Which upstream *)

Definition provider_for_usage (c : PingoraContext) : Provider :=
  if 0 <? px_fallback_count c then LiteLlm
  else match px_match c with Some m => rm_provider m | None => LiteLlm end.

(** The upstreams of the process configuration ([PingoraLiteLlmConfig]). *)
Record Upstreams := { up_litellm : PingoraUpstreamConfig; up_direct_openai : option PingoraUpstreamConfig }.

Definition upstream_for (u : Upstreams) (c : PingoraContext) : option PingoraUpstreamConfig :=
  match px_match c with
  | None => Some (up_litellm u)
  | Some _ =>
      match provider_for_usage c with
      | LiteLlm => Some (default (up_litellm u) (px_litellm_upstream c))
      | OpenAiCompatible => up_direct_openai u
      | InternalService => px_service_upstream c
      end
  end.

Definition activate_provider_fallback (u : Upstreams) (c : PingoraContext) : PingoraContext * bool :=
  if px_socket c || is_some (accessa (px_access c)) then (c, false)
  else
    match px_match c with
    | None => (c, false)
    | Some m =>
        if negb (bool_decide (rm_provider m = OpenAiCompatible)) || (0 <? px_fallback_count c)
           || is_none (up_direct_openai u)
        then (c, false)
        else (set_fallback_count 1 c, true)
    end.
