(* ===== verification/UpstreamRequest.v ===== *)
(** * The request sent upstream

    Models [upstream_request_filter] and [forwarded_user_token] of
    [crates/gateway-proxy/src/pingora_plane.rs] and
    [crates/gateway-proxy/src/accessa_runtime.rs], with
    [prepare_rewritten_request_headers] of
    [crates/gateway-proxy/src/body_rewrite.rs]: which headers and which target
    an upstream sees.  A run of [remove_header] and [insert_header] calls is a
    list of edits; the first insertion that fails aborts the request. *)

From S2P Require Import Prelude Errors Routing Json GuardrailPolicy Policies Guardrails EndpointAccess Foundry ServiceTypes ServicePricing ResponseCost UsageCost RequestBody Auth ProviderConfigs Headers Upstream ProxyContext.

#[global] Instance EntraIdentitySource_eq_dec : EqDecision EntraIdentitySource.
Proof. solve_decision. Defined.

(** ** Edits *)

Inductive edit : Type := Put (name value : string) | Drop (name : string).
Definition edit_name (e : edit) : string := match e with Put n _ | Drop n => n end.
Definition edit_values (e : edit) : list string := match e with Put _ v => [v] | Drop _ => [] end.
Definition when {A} (b : bool) (l : list A) : list A := if b then l else [].
(** The edits for an optional value. *)
Definition put_some (name : string) (v : option string) : list edit := option_list (Put name <$> v).

Fixpoint apply_edits {H} `{HeaderMap H} (l : list edit) (h : H) : option H :=
  match l with
  | [] => Some h
  | Put n v :: l => insert_header n v h ≫= apply_edits l
  | Drop n :: l => apply_edits l (remove_header n h)
  end.

(** The last edit of a name decides. *)
Fixpoint last_edit (n : string) (l : list edit) : option edit :=
  match l with
  | [] => None
  | e :: l => match last_edit n l with
              | Some e' => Some e'
              | None => if eq_ignore_ascii_case n (edit_name e) then Some e else None
              end
  end.

(** ** The filter *)

Definition join_comma (l : list string) : string := String.concat "," l.

(** The identity headers an Accessa channel trusts. *)
Definition CALLER_HEADERS : list string :=
  ["x-caller-oid"; "x-caller-upn"; "x-caller-groups"; "x-caller-tenant"; "x-route-app"; "x-route-channel";
   ADMISSION_CONTEXT_HEADER].
Definition FOUNDRY_DROPPED : list string :=
  ["api-key"; "cookie"; "openai-organization"; "openai-project"; "foundry-features"; "x-ms-client-principal";
   "x-ms-authorization-auxiliary"].

Section filter.
Context {H : Type} `{HeaderMap H}.
Variable header_name_ok : string → bool.
Variable url_parse : string → option Url.
Variable parse_uri build_uri : string → option Uri.

Definition forwarded_user_token (h : H) (access : EndpointAccess) (identity : option EntraIdentityContext)
    (relayna_key_header : string) : GatewayResult (option string) :=
  match user_token_forwarding access with
  | None => Ok None
  | Some config =>
      check? forwarding_validate header_name_ok config in
      if is_none (accessa access) || eq_ignore_ascii_case (header config) relayna_key_header
      then Err InvalidConfiguration
      else if negb (forwarding_enabled config) then Ok None
      else if is_none_or (λ i, negb (bool_decide (identity_source i = Jwt))) identity
              || negb (header_count "authorization" h =? 1)
      then Err InvalidEntraToken
      else
        match trim <$> (header_value h "authorization" ≫= strip_prefix "Bearer ") with
        | Some token => if is_empty token then Err MissingEntraAuthorization else Ok (Some token)
        | None => Err MissingEntraAuthorization
        end
  end.

Definition prepare_rewritten_request_headers (rewritten_len : Z) (h : H) : H :=
  let h := remove_headers ["Content-Length"; "Transfer-Encoding"] h in
  default h (insert_header "Content-Length" (decimal rewritten_len) h).

(** The value of the forwarding header, [None] when the request is aborted. *)
Definition user_token (client : H) (c : PingoraContext) : option (option string) :=
  match user_token_forwarding (px_access c) with
  | None => Some None
  | Some _ =>
      match forwarded_user_token client (px_access c) (px_entra_identity c) (px_relayna_key_header c) with
      | Ok token => Some token
      | Err _ => None
      end
  end.

(** Accessa: caller identity, route and admission context, after the token. *)
Definition caller_edits (c : PingoraContext) (b : AccessaBinding) (identity : EntraIdentityContext) : list edit :=
  [Put "x-caller-oid" (default "" (object_id identity)); Put "x-caller-tenant" (tenant_id identity)]
  ++ put_some "x-caller-upn" (email identity)
  ++ [Put "x-caller-groups" (join_comma (groups identity)); Put "x-route-channel" (channel b)]
  ++ put_some "x-route-app" (app b)
  ++ [Put "x-request-id" (px_request_id c)]
  ++ put_some ADMISSION_CONTEXT_HEADER (px_admission_token c).
Definition accessa_edits (c : PingoraContext) (b : AccessaBinding) (identity : EntraIdentityContext)
    (token : option string) : list edit :=
  (match user_token_forwarding (px_access c) with
   | Some config => Drop (header config) :: put_some (header config) token
   | None => []
   end)
  ++ (Drop <$> CALLER_HEADERS)
  ++ when (is_none_or (λ f, negb (forwarding_enabled f) || negb (eq_ignore_ascii_case (header f) "x-access-token"))
             (user_token_forwarding (px_access c))) [Drop "x-access-token"]
  ++ caller_edits c b identity.

(** [None] when an Accessa request carries no identity (the source panics) or
    its token cannot be forwarded. *)
Definition channel_edits (client : H) (c : PingoraContext) : option (list edit) :=
  match accessa (px_access c) with
  | None => Some []
  | Some b =>
      user_token client c ≫= λ token,
      (λ identity, accessa_edits c b identity token) <$> px_entra_identity c
  end.

(** A price may still come from the response: it must stay readable. *)
Definition may_pass_cost_through (p : PricingContext) : bool :=
  is_some_and (λ r, bool_decide (rc_cost_mode r = CostPassthrough)) (resolved_service_cost p)
  || existsb (λ r, bool_decide (rule_cost_mode r = CostPassthrough)) (service_pricing_rules p).

(** Everything up to the rewriting of the target. *)
Definition credential_edits (c : PingoraContext) (u : PingoraUpstreamConfig) : list edit :=
  when (px_socket c && px_direct_litellm_passthrough c) [Put "authorization" ("Bearer " +:+ service_key u)]
  ++ when (px_socket c) [Drop "sec-websocket-extensions"]
  ++ when (may_pass_cost_through (px_pricing c)) [Put "accept-encoding" "identity"].

(** The headers that identify the request to the upstream. *)
Definition gateway_edits (c : PingoraContext) : list edit :=
  when (is_some (px_foundry c)) (Drop <$> FOUNDRY_DROPPED)
  ++ [Put "x-relayna-request-id" (px_request_id c)]
  ++ put_some "traceparent" (px_traceparent c)
  ++ put_some "x-relayna-key-id" (key_id <$> px_key c)
  ++ put_some "x-relayna-project-id" (px_key c ≫= Auth.project_id)
  ++ put_some "x-relayna-task-id" (px_task_id c)
  ++ put_some "x-relayna-run-id" (px_run_id c)
  ++ put_some "x-relayna-service" (px_match c ≫= rm_service_name).

Definition foundry_edits (c : PingoraContext) : list edit :=
  when (is_some (px_foundry c))
    [Drop "content-length"; Put "transfer-encoding" "chunked"; Put "content-type" "application/json"].

(** The target: direct providers, service wildcards, Foundry projects. *)
Definition rewrite_target (c : PingoraContext) (r : RequestHeader H) : option (RequestHeader H) :=
  (if is_some_and (λ m, bool_decide (rm_provider m = OpenAiCompatible)) (px_match c)
   then rewrite_direct_openai_uri build_uri r else Some r) ≫= λ r,
  (match px_match c with
   | Some m =>
       if bool_decide (rm_route m = ServiceWildcard) && is_none (accessa (px_access c)) && is_none (px_foundry c)
       then match rm_service_name m with
            | Some name => rewrite_service_wildcard_uri build_uri name (px_service_route_pattern c) r
            | None => Some r
            end
       else Some r
   | None => Some r
   end) ≫= λ r,
  match px_foundry c with
  | None => Some r
  | Some (_, config) =>
      match project_url url_parse (frc_base_url config) with
      | Err _ => None
      | Ok url =>
          (λ u, set_uri u r) <$> parse_uri (trim_end_matches "/" (url_path url) +:+ "/openai/v1/responses")
      end
  end.

Definition is_rewritten (c : PingoraContext) : bool :=
  is_some (px_foundry c) || is_some_and (λ plan, negb (is_nil plan)) (px_pre_guardrail_plan c).

Definition upstream_request_filter (ups : Upstreams) (client : H) (c : PingoraContext) (r : RequestHeader H) :
    option (RequestHeader H) :=
  let u := default (up_litellm ups) (upstream_for ups c) in
  let h := if px_socket c && px_direct_litellm_passthrough c then remove_header "api-key" (rq_headers r)
           else rq_headers r in
  prepare_upstream_authority_and_credentials u (Some (px_relayna_key_header c)) h ≫= λ h,
  channel_edits client c ≫= λ channel,
  apply_edits (credential_edits c u ++ channel) h ≫= λ h,
  rewrite_target c r ≫= λ r,
  apply_edits (gateway_edits c) h ≫= λ h,
  let h := match px_rewritten_request_len c with
           | Some n => if is_rewritten c then prepare_rewritten_request_headers n h else h
           | None => h
           end in
  (λ h, set_headers h r) <$> apply_edits (foundry_edits c) h.
End filter.

(** ** Reasoning about edits *)

Definition touches (n : string) (l : list edit) : bool := existsb (λ e, eq_ignore_ascii_case n (edit_name e)) l.

Lemma last_edit_touches n l : is_some (last_edit n l) = touches n l.
Proof.
  induction l as [|e l IH]; [done|]. cbn [last_edit touches existsb]. fold (touches n l). rewrite <- IH.
  destruct (last_edit n l); cbn; [by rewrite orb_true_r|]. by destruct (eq_ignore_ascii_case n (edit_name e)).
Qed.
Lemma last_edit_none n l : touches n l = false → last_edit n l = None.
Proof. rewrite <- last_edit_touches. by destruct (last_edit n l). Qed.
Lemma last_edit_app n a b :
  last_edit n (a ++ b) = match last_edit n b with Some e => Some e | None => last_edit n a end.
Proof.
  induction a as [|e a IH]; [cbn; by destruct (last_edit n b)|]. change ((e :: a) ++ b) with (e :: (a ++ b)).
  cbn [last_edit]. rewrite IH. by destruct (last_edit n b).
Qed.
Lemma touches_app n a b : touches n (a ++ b) = touches n a || touches n b.
Proof. apply existsb_app. Qed.
Lemma touches_when n b l : touches n (when b l) = b && touches n l.
Proof. by destruct b. Qed.
Lemma touches_put_some n m v : touches n (put_some m v) = is_some v && eq_ignore_ascii_case n m.
Proof. destruct v; cbn; [apply orb_false_r|done]. Qed.
Lemma last_when n b l : last_edit n (when b l) = if b then last_edit n l else None.
Proof. by destruct b. Qed.
Lemma last_put_some n m v : last_edit n (put_some m v) = if eq_ignore_ascii_case n m then Put m <$> v else None.
Proof. destruct v; cbn; by destruct (eq_ignore_ascii_case n m). Qed.
Lemma touches_drops n names : touches n (Drop <$> names) = existsb (eq_ignore_ascii_case n) names.
Proof. induction names as [|a names IH]; [done|]. cbn [fmap list_fmap touches existsb edit_name]. by f_equal. Qed.

Section edits.
Context {H : Type} `{HL : HeaderLaws H}.

Lemma edited_values l h h' n :
  apply_edits l h = Some h' →
  get_all n h' = match last_edit n l with Some e => edit_values e | None => get_all n h end.
Proof using HL.
  revert h. induction l as [|[m v|m] l IH]; intros h; cbn [apply_edits last_edit edit_name].
  - by intros [= <-].
  - destruct (insert_header m v h) as [h1|] eqn:E; [|done]. cbn [mbind option_bind]. intros ->%IH.
    destruct (last_edit n l); [done|]. rewrite (get_all_insert _ _ _ _ _ E). by destruct (eq_ignore_ascii_case n m).
  - intros ->%IH. destruct (last_edit n l); [done|]. rewrite get_all_remove. by destruct (eq_ignore_ascii_case n m).
Qed.
Lemma untouched_values l h h' n : apply_edits l h = Some h' → touches n l = false → get_all n h' = get_all n h.
Proof using HL. intros E%(edited_values _ _ _ n) Ht%last_edit_none. by rewrite E, Ht. Qed.

Lemma rewritten_values k h n :
  existsb (eq_ignore_ascii_case n) ["Content-Length"; "Transfer-Encoding"] = false →
  get_all n (prepare_rewritten_request_headers k h) = get_all n h.
Proof using HL.
  intros Hn. unfold prepare_rewritten_request_headers. cbv zeta.
  destruct (insert_header _ _ _) as [h1|] eqn:E; cbn [default from_option].
  - rewrite (get_all_insert _ _ _ _ _ E), get_all_removes, Hn. cbn [existsb] in Hn.
    apply orb_false_iff in Hn as [Hn _]. by rewrite Hn.
  - by rewrite get_all_removes, Hn.
Qed.
End edits.

(** ** What the upstream sees *)

Definition bearer_mode (u : PingoraUpstreamConfig) : bool := bool_decide (credential_header_mode u = AuthorizationBearer).

(** The header name of a stored credential was validated and trimmed. *)
Definition credential_valid (header_name_ok : string → bool) (u : PingoraUpstreamConfig) : Prop :=
  match credential_header_name u with
  | Some n => ∃ raw, n = trim raw ∧ validate_litellm_credential_header_name header_name_ok raw = Ok tt
  | None => True
  end.

Lemma valid_credential_free ok u n :
  credential_valid ok u → existsb (String.eqb (to_ascii_lowercase n)) BLOCKED_CREDENTIAL_HEADERS = true →
  existsb (eq_ignore_ascii_case n) (option_list (credential_header_name u)) = false.
Proof.
  unfold credential_valid. destruct (credential_header_name u) as [m|]; [|done].
  intros (raw & -> & (_ & Hm & _)%credential_header_name_ok) Hn. cbn. rewrite orb_false_r.
  destruct (eq_ignore_ascii_case n (trim raw)) eqn:E; [|done]. apply same_name_iff in E. rewrite E in Hn.
  exfalso. apply Hm. by apply existsb_eqb_iff.
Qed.

(** A name the forwarding header can never have. *)
Definition reserved_name (n : string) : bool :=
  str_mem (to_ascii_lowercase n) FORBIDDEN_HEADERS || existsb (starts_with (to_ascii_lowercase n)) FORBIDDEN_HEADER_PREFIXES.

Lemma forwarding_name_free ok f n :
  forwarding_validate ok f = Ok tt → reserved_name n = true → eq_ignore_ascii_case n (header f) = false.
Proof.
  unfold forwarding_validate, reserved_name. cbv zeta. rewrite guard_ok. intros [Hf _] Hn.
  destruct (eq_ignore_ascii_case n (header f)) eqn:E; [|done]. apply same_name_iff in E. rewrite E in Hn. bool_prop.
  apply orb_true_iff in Hn as [?|?]; congruence.
Qed.

Section sees.
Context {H : Type} `{HL : HeaderLaws H}.
Variable header_name_ok : string → bool.
Variable url_parse : string → option Url.
Variable parse_uri build_uri : string → option Uri.
Variable ups : Upstreams.
Variable client : H.
Variable c : PingoraContext.
Variables r r' : RequestHeader H.
Hypothesis Hfilter : upstream_request_filter header_name_ok url_parse parse_uri build_uri ups client c r = Some r'.

#[local] Abbreviation u := (default (up_litellm ups) (upstream_for ups c)).

Definition chosen_channel : list edit := default [] (channel_edits header_name_ok client c).
(** Every header the gateway sets itself. *)
Definition gateway_puts : list edit :=
  Put "host" (host_header_value u) :: ((λ p, Put p.1 p.2) <$> option_list (upstream_credential u))
  ++ credential_edits c u ++ chosen_channel ++ gateway_edits c
  ++ put_some "Content-Length" (decimal <$> px_rewritten_request_len c) ++ foundry_edits c.

Lemma filter_inv :
  ∃ h0 h1 h2 h3,
    (∀ n, get_all n h0 = get_all n (rq_headers r) ∨ get_all n h0 = []) ∧
    prepare_upstream_authority_and_credentials u (Some (px_relayna_key_header c)) h0 = Some h1 ∧
    channel_edits header_name_ok client c = Some chosen_channel ∧
    apply_edits (credential_edits c u ++ chosen_channel) h1 = Some h2 ∧
    apply_edits (gateway_edits c) h2 = Some h3 ∧
    apply_edits (foundry_edits c) (match px_rewritten_request_len c with
           | Some n => if is_rewritten c then prepare_rewritten_request_headers n h3 else h3
           | None => h3
           end) = Some (rq_headers r').
Proof using Hfilter HL.
  revert Hfilter. unfold upstream_request_filter, chosen_channel. cbv zeta.
  set (h0 := if _ && _ then remove_header "api-key" (rq_headers r) else rq_headers r).
  destruct (prepare_upstream_authority_and_credentials u _ h0) as [h1|] eqn:E1; [|done].
  destruct (channel_edits header_name_ok client c) as [ch|]; [|done]. cbn [mbind option_bind default from_option].
  destruct (apply_edits (_ ++ ch) h1) as [h2|] eqn:E2; [|done]. cbn [mbind option_bind].
  destruct (rewrite_target _ _ _ c r) as [r1|]; [|done]. cbn [mbind option_bind].
  destruct (apply_edits (gateway_edits c) h2) as [h3|] eqn:E3; [|done]. cbn [mbind option_bind].
  set (h4 := match px_rewritten_request_len c with Some _ => _ | None => _ end).
  destruct (apply_edits (foundry_edits c) h4) as [h5|] eqn:E5; [|done]. intros [= <-].
  exists h0, h1, h2, h3. split_and!; try done. intros n. unfold h0. destruct (_ && _); [|by left].
  rewrite get_all_remove. destruct (eq_ignore_ascii_case n "api-key"); [by right|by left].
Qed.

Lemma edited_source l h h' n v :
  apply_edits l h = Some h' → v ∈ get_all n h' →
  (∃ m, eq_ignore_ascii_case n m = true ∧ Put m v ∈ l) ∨ v ∈ get_all n h.
Proof using HL.
  intros E. rewrite (edited_values _ _ _ n E). clear E. induction l as [|e l IH]; [by right|].
  cbn [last_edit]. destruct (last_edit n l) as [e'|].
  - intros Hv. destruct (IH Hv) as [(m & ? & ?)|?]; [left; exists m; split; [done|by right]|by right].
  - destruct (eq_ignore_ascii_case n (edit_name e)) eqn:E; [|by right].
    destruct e as [m w|m]; cbn; [|by intros ?%elem_of_nil]. intros ->%list_elem_of_singleton.
    left. exists m. split; [done|left].
Qed.

Lemma kept_source names h n v : v ∈ get_all n (remove_headers names h) → v ∈ get_all n h.
Proof using HL. rewrite get_all_removes. case_match; [by intros ?%elem_of_nil|done]. Qed.

Lemma gateway_puts_iff e :
  e ∈ gateway_puts ↔
    e = Put "host" (host_header_value u) ∨ (e ∈ ((λ p, Put p.1 p.2) <$> option_list (upstream_credential u))) ∨
    (e ∈ credential_edits c u) ∨ (e ∈ chosen_channel) ∨ (e ∈ gateway_edits c) ∨
    (e ∈ put_some "Content-Length" (decimal <$> px_rewritten_request_len c)) ∨ (e ∈ foundry_edits c).
Proof. unfold gateway_puts. by rewrite elem_of_cons, !elem_of_app. Qed.

(** A value was set by the filter. *)
Definition from_filter (n v : string) : Prop := ∃ m, eq_ignore_ascii_case n m = true ∧ Put m v ∈ gateway_puts.

Lemma from_rewritten h n v :
  v ∈ get_all n (match px_rewritten_request_len c with
                 | Some k => if is_rewritten c then prepare_rewritten_request_headers k h else h
                 | None => h
                 end) → from_filter n v ∨ v ∈ get_all n h.
Proof using HL.
  destruct (px_rewritten_request_len c) as [k|] eqn:Ek; [|by right]. destruct (is_rewritten c); [|by right].
  unfold prepare_rewritten_request_headers. cbv zeta.
  destruct (insert_header _ _ _) as [h6|] eqn:E6; cbn [default from_option]; [|intros Hv; right; by apply kept_source in Hv].
  rewrite (get_all_insert _ _ _ _ _ E6). destruct (eq_ignore_ascii_case n "Content-Length") eqn:E.
  - intros ->%list_elem_of_singleton. left. eexists. split; [done|]. apply gateway_puts_iff. rewrite Ek. cbn.
    do 5 right. left. left.
  - intros Hv. right. by apply kept_source in Hv.
Qed.
Lemma values_from_filter n v :
  existsb (eq_ignore_ascii_case n) (stripped u (Some (px_relayna_key_header c))) = true →
  v ∈ get_all n (rq_headers r') → from_filter n v.
Proof using Hfilter HL.
  intros Hn Hv. destruct filter_inv as (h0 & h1 & h2 & h3 & _ & E1 & _ & E2 & E3 & E5).
  destruct (edited_source _ _ _ _ _ E5 Hv) as [(m & ? & ?)|[?|H3]%from_rewritten]; [|done|].
  { exists m. split; [done|]. apply gateway_puts_iff. tauto. }
  destruct (edited_source _ _ _ _ _ E3 H3) as [(m & ? & ?)|H2].
  { exists m. split; [done|]. apply gateway_puts_iff. tauto. }
  destruct (edited_source _ _ _ _ _ E2 H2) as [(m & ? & ?%elem_of_app)|H1].
  { exists m. split; [done|]. apply gateway_puts_iff. tauto. }
  destruct (prepared_headers _ _ _ _ n E1) as (cn & cv & Hc & Hg). rewrite Hg, Hn in H1.
  destruct (eq_ignore_ascii_case n cn) eqn:Ec.
  { apply list_elem_of_singleton in H1 as ->. exists cn. split; [done|]. apply gateway_puts_iff. rewrite Hc. cbn.
    right. left. left. }
  destruct (eq_ignore_ascii_case n "host") eqn:Eh; [|by apply elem_of_nil in H1].
  apply list_elem_of_singleton in H1 as ->. exists "host". split; [done|]. apply gateway_puts_iff. by left.
Qed.

(** Headers that the gateway fills from the context of the request. *)
Definition context_puts : list edit :=
  (match accessa (px_access c), px_entra_identity c with Some b, Some i => caller_edits c b i | _, _ => [] end)
  ++ when (may_pass_cost_through (px_pricing c)) [Put "accept-encoding" "identity"]
  ++ gateway_edits c ++ put_some "Content-Length" (decimal <$> px_rewritten_request_len c) ++ foundry_edits c.
(** Where a value the upstream sees comes from.  The selected key is the one
    configured for the upstream, except in direct LiteLLM passthrough, where
    the request filter selects the LiteLLM key that the caller presented. *)
Inductive value_source (n v : string) : Prop :=
| UpstreamAuthority : eq_ignore_ascii_case n "host" = true → v = host_header_value u → value_source n v
| SelectedKey m : upstream_credential u = Some (m, v) → eq_ignore_ascii_case n m = true → value_source n v
| SocketPassthroughKey : px_socket c = true → px_direct_litellm_passthrough c = true →
    eq_ignore_ascii_case n "authorization" = true → v = "Bearer " +:+ service_key u → value_source n v
| ForwardedUserToken f i : is_some (accessa (px_access c)) = true → user_token_forwarding (px_access c) = Some f →
    forwarding_enabled f = true → eq_ignore_ascii_case n (header f) = true → px_entra_identity c = Some i → identity_source i = Jwt →
    header_count "authorization" client = 1 → trim <$> (header_value client "authorization" ≫= strip_prefix "Bearer ") = Some v →
    value_source n v
| FromContext m : eq_ignore_ascii_case n m = true → Put m v ∈ context_puts → value_source n v.
Lemma user_token_source n v f token : user_token header_name_ok client c = Some token → is_some (accessa (px_access c)) = true →
  user_token_forwarding (px_access c) = Some f → eq_ignore_ascii_case n (header f) = true → token = Some v → value_source n v.
Proof.
  intros Ht Ha Hf Hn ->. unfold user_token, forwarded_user_token in Ht. rewrite Hf in Ht.
  destruct (forwarding_validate header_name_ok f) as [[]|]; [|done]. destruct (_ || _) eqn:Ec; [done|].
  destruct (forwarding_enabled f) eqn:Ee; [|done]. cbn [negb] in Ht. destruct (_ || _) eqn:Ei in Ht; [done|].
  destruct (trim <$> _) as [t|] eqn:Et in Ht; [|done]. destruct (is_empty t); [done|]. injection Ht as ->.
  apply orb_false_iff in Ei as [Hi Hc]. destruct (px_entra_identity c) as [i|] eqn:Hx; [|done]. cbn in Hi.
  apply negb_false_iff, bool_decide_eq_true in Hi. apply negb_false_iff, Z.eqb_eq in Hc.
  by apply (ForwardedUserToken n v f i).
Qed.
Lemma channel_source n v m : Put m v ∈ chosen_channel → eq_ignore_ascii_case n m = true → value_source n v.
Proof.
  unfold chosen_channel, channel_edits. destruct (accessa (px_access c)) as [b|] eqn:Ha; [|by intros ?%elem_of_nil].
  destruct (user_token header_name_ok client c) as [token|] eqn:Et; [|by intros ?%elem_of_nil].
  destruct (px_entra_identity c) as [i|] eqn:Hi; [|by intros ?%elem_of_nil]. cbn [mbind option_bind fmap option_fmap option_map default from_option id].
  intros [Hin|[Hin|[Hin|Hin]%elem_of_app]%elem_of_app]%elem_of_app Hn.
  - destruct (user_token_forwarding (px_access c)) as [f|] eqn:Hf; [|by apply elem_of_nil in Hin].
    apply elem_of_cons in Hin as [?|Hin]; [done|]. destruct token as [t|]; [|by apply elem_of_nil in Hin].
    apply list_elem_of_singleton in Hin. injection Hin as -> ->. eapply user_token_source; try done. by rewrite Ha.
  - apply list_elem_of_fmap in Hin as (? & ? & _). done.
  - unfold when in Hin. case_match; [by apply list_elem_of_singleton in Hin|by apply elem_of_nil in Hin].
  - apply (FromContext n v m); [done|]. unfold context_puts. rewrite Ha, Hi. apply elem_of_app. by left.
Qed.
Lemma filter_source n v : from_filter n v → value_source n v.
Proof.
  intros (m & Hn & [E|[Hc|[Hc|[Hc|Hc]]]]%gateway_puts_iff).
  - injection E as -> ->. by apply UpstreamAuthority.
  - apply list_elem_of_fmap in Hc as ([m' v'] & E & Hc). injection E as -> ->.
    destruct (upstream_credential u) as [[m2 v2]|] eqn:Eu; [|by apply elem_of_nil in Hc].
    apply list_elem_of_singleton in Hc. injection Hc as -> ->. by apply (SelectedKey _ _ m2).
  - unfold credential_edits, when in Hc. rewrite !elem_of_app in Hc. destruct Hc as [Hc|[Hc|Hc]]; case_match eqn:Hb; try by apply elem_of_nil in Hc.
    + apply list_elem_of_singleton in Hc. injection Hc as -> ->. apply andb_true_iff in Hb as [? ?]. by apply SocketPassthroughKey.
    + by apply list_elem_of_singleton in Hc.
    + apply (FromContext n v m); [done|]. unfold context_puts. rewrite Hb, !elem_of_app. auto.
  - by eapply channel_source.
  - apply (FromContext n v m); [done|]. unfold context_puts. rewrite !elem_of_app. tauto.
Qed.

(** Which names the later edits touch. *)
Lemma gateway_untouched n :
  existsb (eq_ignore_ascii_case n) FOUNDRY_DROPPED = false →
  existsb (eq_ignore_ascii_case n) ["x-relayna-request-id"; "traceparent"; "x-relayna-key-id"; "x-relayna-project-id";
    "x-relayna-task-id"; "x-relayna-run-id"; "x-relayna-service"] = false →
  touches n (gateway_edits c) = false.
Proof.
  intros Hf Hg. unfold gateway_edits. rewrite !touches_app, touches_when, touches_drops, !touches_put_some, Hf.
  cbn [existsb] in Hg. bool_prop. cbn [touches existsb edit_name].
  repeat match goal with H : eq_ignore_ascii_case n _ = false |- _ => rewrite H; clear H end.
  by rewrite !andb_false_r.
Qed.
Lemma foundry_untouched n :
  existsb (eq_ignore_ascii_case n) ["content-length"; "transfer-encoding"; "content-type"] = false →
  touches n (foundry_edits c) = false.
Proof.
  intros Hn. unfold foundry_edits. rewrite touches_when. cbn [touches existsb edit_name].
  cbn [existsb] in Hn. by rewrite Hn, andb_false_r.
Qed.
(** A channel's own headers, and the header of the forwarded token. *)
Lemma channel_untouched n :
  channel_edits header_name_ok client c = Some chosen_channel →
  existsb (eq_ignore_ascii_case n) ("x-access-token" :: "x-request-id" :: CALLER_HEADERS) = false →
  reserved_name n = true → touches n chosen_channel = false.
Proof.
  unfold channel_edits. destruct (accessa (px_access c)) as [b|]; [|by intros [= <-]].
  destruct (user_token header_name_ok client c) as [token|] eqn:Et; [|done].
  destruct (px_entra_identity c) as [i|]; [|done]. cbn [mbind option_bind fmap option_fmap option_map].
  intros [= <-] Hn Hr. unfold accessa_edits, caller_edits.
  rewrite !touches_app, touches_when, touches_drops, !touches_put_some.
  cbn [touches existsb edit_name CALLER_HEADERS] in Hn |- *. bool_prop.
  repeat match goal with H : eq_ignore_ascii_case n _ = false |- _ => rewrite H; clear H end.
  rewrite !andb_false_r, !orb_false_r. unfold user_token, forwarded_user_token in Et.
  destruct (user_token_forwarding (px_access c)) as [f|]; [|done].
  destruct (forwarding_validate header_name_ok f) as [[]|] eqn:Ef; [|done].
  pose proof (forwarding_name_free _ _ _ Ef Hr) as Hh.
  change (Drop (header f) :: put_some (header f) token) with ([Drop (header f)] ++ put_some (header f) token).
  rewrite touches_app, touches_put_some. cbn [touches existsb edit_name]. by rewrite Hh, andb_false_r.
Qed.

(** A name that only the preparation and the socket rule set. *)
Lemma settled_values n :
  existsb (eq_ignore_ascii_case n) FOUNDRY_DROPPED = false →
  existsb (eq_ignore_ascii_case n) ["x-relayna-request-id"; "traceparent"; "x-relayna-key-id"; "x-relayna-project-id";
    "x-relayna-task-id"; "x-relayna-run-id"; "x-relayna-service"] = false →
  existsb (eq_ignore_ascii_case n) ["content-length"; "transfer-encoding"; "content-type"] = false →
  existsb (eq_ignore_ascii_case n) ("x-access-token" :: "x-request-id" :: CALLER_HEADERS) = false →
  reserved_name n = true →
  ∃ h0 h1, prepare_upstream_authority_and_credentials u (Some (px_relayna_key_header c)) h0 = Some h1 ∧
    get_all n (rq_headers r') =
      match last_edit n (credential_edits c u) with Some e => edit_values e | None => get_all n h1 end.
Proof using Hfilter HL.
  intros Hd Hg Hf Hc Hr. destruct filter_inv as (h0 & h1 & h2 & h3 & _ & E1 & Ec & E2 & E3 & E5).
  exists h0, h1. split; [done|]. rewrite (untouched_values _ _ _ _ E5) by (by apply foundry_untouched).
  transitivity (get_all n h3).
  { destruct (px_rewritten_request_len c); [|done]. destruct (is_rewritten c); [|done]. apply rewritten_values.
    cbn [existsb] in Hf |- *. change (eq_ignore_ascii_case n "Content-Length") with (eq_ignore_ascii_case n "content-length").
    change (eq_ignore_ascii_case n "Transfer-Encoding") with (eq_ignore_ascii_case n "transfer-encoding").
    apply orb_false_iff in Hf as [-> [-> _]%orb_false_iff]. done. }
  rewrite (untouched_values _ _ _ _ E3) by (by apply gateway_untouched).
  rewrite (edited_values _ _ _ n E2), last_edit_app.
  by rewrite (last_edit_none _ _ (channel_untouched n Ec Hc Hr)).
Qed.

(** A name that only a channel sets. *)
Lemma channel_values n b :
  accessa (px_access c) = Some b → px_foundry c = None →
  existsb (eq_ignore_ascii_case n) ["x-relayna-request-id"; "traceparent"; "x-relayna-key-id"; "x-relayna-project-id";
    "x-relayna-task-id"; "x-relayna-run-id"; "x-relayna-service"] = false →
  existsb (eq_ignore_ascii_case n) ["content-length"; "transfer-encoding"] = false →
  ∃ i token h, px_entra_identity c = Some i ∧ user_token header_name_ok client c = Some token ∧
    get_all n (rq_headers r') =
      match last_edit n (accessa_edits c b i token) with Some e => edit_values e | None => get_all n h end.
Proof using Hfilter HL.
  intros Ha Hnf Hg Hl. destruct filter_inv as (h0 & h1 & h2 & h3 & _ & E1 & Ec & E2 & E3 & E5).
  unfold channel_edits in Ec. rewrite Ha in Ec.
  destruct (user_token header_name_ok client c) as [token|]; [|done].
  destruct (px_entra_identity c) as [i|]; [|done]. cbn [mbind option_bind fmap option_fmap option_map] in Ec.
  injection Ec as Ec. unfold foundry_edits in E5. rewrite Hnf in E5. injection E5 as E5. rewrite <- E5.
  assert (∃ h, apply_edits (credential_edits c u) h1 = Some h ∧ apply_edits chosen_channel h = Some h2) as (h & _ & E2').
  { clear -E2. revert h1 E2. generalize chosen_channel as l. intros l. induction (credential_edits c u) as [|[m v|m] a IH]; intros h1 E.
    - by exists h1.
    - cbn in E |- *. destruct (insert_header m v h1) as [x|]; [|done]. by apply IH.
    - by apply IH. }
  exists i, token, h. split_and!; [done..|]. transitivity (get_all n h3).
  { destruct (px_rewritten_request_len c); [|done]. destruct (is_rewritten c); [|done]. by apply rewritten_values. }
  rewrite (untouched_values _ _ _ _ E3), (edited_values _ _ _ n E2'), Ec; [done|].
  unfold gateway_edits. rewrite Hnf. cbn [is_some when app].
  cbn [existsb] in Hg. bool_prop. rewrite !touches_app, !touches_put_some. cbn [touches existsb edit_name].
  repeat match goal with H : eq_ignore_ascii_case n _ = false |- _ => rewrite H; clear H end.
  by rewrite !andb_false_r.
Qed.
End sees.


Lemma caller_names n :
  existsb (String.eqb n) CALLER_HEADERS = true →
  existsb (eq_ignore_ascii_case n) ["x-relayna-request-id"; "traceparent"; "x-relayna-key-id"; "x-relayna-project-id";
    "x-relayna-task-id"; "x-relayna-run-id"; "x-relayna-service"] = false ∧
  existsb (eq_ignore_ascii_case n) ["content-length"; "transfer-encoding"] = false ∧
  eq_ignore_ascii_case n "x-access-token" = false ∧ last_edit n (Drop <$> CALLER_HEADERS) = Some (Drop n).
Proof.
  intros Hn. apply existsb_eqb_iff in Hn. revert n Hn. apply Forall_forall. repeat constructor.
Qed.
Lemma caller_values c b i token n rest :
  existsb (String.eqb n) CALLER_HEADERS = true →
  match last_edit n (accessa_edits c b i token) with Some e => edit_values e | None => rest end
  = match last_edit n (caller_edits c b i) with Some e => edit_values e | None => [] end.
Proof.
  intros (_ & _ & Ha & Hd)%caller_names. unfold accessa_edits. rewrite !last_edit_app, Hd, last_when.
  cbn [last_edit edit_name]. rewrite Ha. destruct (last_edit n (caller_edits c b i)); [done|].
  by destruct (is_none_or _ _).
Qed.

(** A token that is sent was asked for, under a header that is free. *)
Lemma forwarded_token_ok {H} `{HeaderMap H} ok (client : H) access i kh f token :
  user_token_forwarding access = Some f → forwarded_user_token ok client access i kh = Ok token →
  forwarding_validate ok f = Ok tt ∧ (forwarding_enabled f = false → token = None).
Proof.
  unfold forwarded_user_token. intros ->. rewrite check_ok. intros [Hf H1]. split; [done|].
  rewrite guard_ok in H1. destruct H1 as [_ H1]. intros E. rewrite E in H1. cbn in H1. congruence.
Qed.
Lemma forwarding_last c b i f token :
  user_token_forwarding (px_access c) = Some f →
  (∃ ok, forwarding_validate ok f = Ok tt) ∧ (forwarding_enabled f = false → token = None) →
  existsb (eq_ignore_ascii_case (header f)) ["x-relayna-request-id"; "traceparent"; "x-relayna-key-id";
    "x-relayna-project-id"; "x-relayna-task-id"; "x-relayna-run-id"; "x-relayna-service"] = false ∧
  existsb (eq_ignore_ascii_case (header f)) ["content-length"; "transfer-encoding"] = false ∧
  ∃ e, last_edit (header f) (accessa_edits c b i token) = Some e ∧ edit_values e = option_list token.
Proof.
  intros Hu [[ok Hf] Hd].
  assert (Hfree : ∀ n, reserved_name n = true → eq_ignore_ascii_case (header f) n = false).
  { intros n Hn. rewrite same_name_comm. by eapply forwarding_name_free. }
  split_and!; [cbn [existsb]; by rewrite !Hfree by done..|].
  assert (Hc : last_edit (header f) (caller_edits c b i) = None).
  { apply last_edit_none. unfold caller_edits. rewrite !touches_app, !touches_put_some. cbn [touches existsb edit_name].
    by rewrite !Hfree, !andb_false_r by done. }
  assert (Hdrop : last_edit (header f) (Drop <$> CALLER_HEADERS) = None).
  { apply last_edit_none. rewrite touches_drops. cbn [existsb CALLER_HEADERS]. by rewrite !Hfree by done. }
  unfold accessa_edits. rewrite Hu, !last_edit_app, Hc, Hdrop, last_when. cbn [is_none_or last_edit edit_name].
  assert (Hs : eq_ignore_ascii_case (header f) (header f) = true) by by apply same_name_iff.
  rewrite last_put_some, Hs.
  destruct (forwarding_enabled f); [|rewrite Hd by done]; cbn [negb orb];
    destruct (eq_ignore_ascii_case (header f) "x-access-token"), token; cbn; rewrite ?Hs; by eexists.
Qed.

(** C17: The identity an Accessa channel is told about is the verified one and
    nothing else: object id, tenant, name, groups, application, channel and
    admission context are those of the request, however many of these headers
    the client supplied; the forwarded token is the one the request was
    verified with, and without forwarding the client's copy is removed. *)
Theorem caller_identity_exact {H} `{HL : HeaderLaws H} name_ok url_parse parse_uri build_uri ups (client : H) c r r' b :
  upstream_request_filter name_ok url_parse parse_uri build_uri ups client c r = Some r' →
  accessa (px_access c) = Some b → px_foundry c = None →
  ∃ i, px_entra_identity c = Some i ∧
    get_all "x-caller-oid" (rq_headers r') = [default "" (object_id i)] ∧
    get_all "x-caller-tenant" (rq_headers r') = [tenant_id i] ∧
    get_all "x-caller-upn" (rq_headers r') = option_list (email i) ∧
    get_all "x-caller-groups" (rq_headers r') = [join_comma (groups i)] ∧
    get_all "x-route-channel" (rq_headers r') = [channel b] ∧
    get_all "x-route-app" (rq_headers r') = option_list (app b) ∧
    get_all ADMISSION_CONTEXT_HEADER (rq_headers r') = option_list (px_admission_token c) ∧
    (∀ f, user_token_forwarding (px_access c) = Some f →
       ∃ token, forwarded_user_token name_ok client (px_access c) (Some i) (px_relayna_key_header c) = Ok token ∧
         get_all (header f) (rq_headers r') = option_list token).
Proof.
  intros Hf Ha Hn. pose proof (λ n, channel_values _ _ _ _ _ _ _ _ _ Hf n b Ha Hn) as Hc.
  destruct (Hc "x-caller-oid") as (i & token & _ & Hi & Ht & _); [done..|]. exists i. split; [done|].
  assert (Hv : ∀ n, existsb (String.eqb n) CALLER_HEADERS = true →
    get_all n (rq_headers r') = match last_edit n (caller_edits c b i) with Some e => edit_values e | None => [] end).
  { intros n Hin. destruct (caller_names n Hin) as (H1 & H2 & _).
    destruct (Hc n H1 H2) as (i' & t' & h & Hi' & Ht' & ->). simplify_eq. by apply caller_values. }
  unfold caller_edits in Hv. setoid_rewrite last_edit_app in Hv.
  split_and!; [rewrite Hv by done; rewrite ?last_edit_app, ?last_put_some; cbn [last_edit edit_name]..|].
  1-7: try done.
  - by destruct (email i).
  - by destruct (app b).
  - by destruct (px_admission_token c).
  - intros f Hff. unfold user_token in Ht. rewrite Hff, Hi in Ht.
    destruct (forwarded_user_token _ _ _ _ _) as [t|] eqn:Et; [|done]. injection Ht as ->. exists token. split; [done|].
    destruct (forwarded_token_ok _ _ _ _ _ _ _ Hff Et) as [Hok Hoff].
    destruct (forwarding_last c b i f token Hff) as (H1 & H2 & e & He & Hval); [by eauto|].
    destruct (Hc (header f) H1 H2) as (i' & t' & h & Hi' & Ht' & ->). unfold user_token in Ht'.
    rewrite Hff, Hi, Et in Ht'. simplify_eq. by rewrite He.
Qed.

(** ** Concrete requests *)

Module Samples.
#[export] Instance headers : HeaderMap (list (string * string)) := HeaderList.header_list (λ _, true) (λ _, true).
#[export] Instance headers_laws : HeaderLaws (list (string * string)) := HeaderList.header_list_laws (λ _, true) (λ _, true).

Definition litellm : PingoraUpstreamConfig :=
  {| host := "litellm"; port := 4000; tls := false; sni := "litellm"; service_key := "sk-upstream";
     credential_header_mode := CustomHeader; credential_header_name := Some "x-litellm-key";
     credential_header_value_format := RawValue |}.
Definition upstreams : Upstreams := {| up_litellm := litellm; up_direct_openai := None |}.
Definition any_uri (s : string) : option Uri :=
  Some {| uri_path := before "?" s; uri_query := None; uri_path_and_query := Some s |}.
Definition client_headers : list (string * string) :=
  [("Authorization", "Bearer rk_live_client"); ("X-Relayna-Key", "rk_live_client"); ("Cookie", "session");
   ("X-Litellm-Key", "forged"); ("X-Relayna-Project-Id", "another-project"); ("X-Relayna-Task-Id", "another-task");
   ("X-Caller-Oid", "forged"); ("X-Access-Token", "forged"); ("Accept", "application/json")].
Definition request : RequestHeader (list (string * string)) :=
  {| rq_method := "POST"; rq_http_11 := true; rq_headers := client_headers;
     rq_uri := {| uri_path := "/v1/chat/completions"; uri_query := None;
                  uri_path_and_query := Some "/v1/chat/completions" |} |}.
Definition caller : AuthenticatedKey := {| key_id := "key-1"; Auth.project_id := None; key_prefix := "rk_live_client" |}.
Definition context : PingoraContext :=
  set_key caller (set_match (route_match_litellm ChatCompletions) (new_ctx "x-relayna-key" "req-1" "res-1")).

Definition identity : EntraIdentityContext :=
  {| audiences := ["api://gateway"]; EndpointAccess.expires_at := None; tenant_id := "tenant"; subject := None;
     object_id := Some "oid-1"; app_id := None; authorized_party := None; email := Some "a@b.c";
     display_name := None; nonce := None; scopes := []; roles := []; groups := ["g1"; "g2"]; token_version := "2.0";
     identity_source := Jwt |}.
Definition binding : AccessaBinding :=
  {| app := Some "hr"; channel := "teams"; accessa_idle_timeout_ms := 1000; accessa_max_connections := 10;
     accessa_max_connections_per_key := 2; accessa_max_frame_bytes := 65536 |}.
Definition channel_access : EndpointAccess :=
  {| authentication_profiles := None; skip_entra := false; entra := None; accessa := Some binding; websocket := None;
     user_token_forwarding := Some {| forwarding_enabled := true; header := "x-access-token" |} |}.
Definition channel_context : PingoraContext :=
  set_access channel_access (set_identity identity (set_service_upstream litellm
    (set_match (route_match_service ServiceWildcard "teams") (new_ctx "x-relayna-key" "req-1" "res-1")))).

Definition sent (c : PingoraContext) : option (RequestHeader (list (string * string))) :=
  upstream_request_filter (λ _, true) (λ _, None) any_uri any_uri upstreams client_headers c request.
End Samples.
#[local] Existing Instances Samples.headers Samples.headers_laws.


Lemma caller_identity_exact_witness :
  ∃ r' i, Samples.sent Samples.channel_context = Some r' ∧ px_entra_identity Samples.channel_context = Some i ∧
    get_all "x-caller-oid" (rq_headers r') = [default "" (object_id i)].
Proof.
  destruct (Samples.sent Samples.channel_context) as [r'|] eqn:E; [|vm_compute in E; discriminate E].
  destruct (caller_identity_exact _ _ _ _ _ _ _ _ _ Samples.binding E eq_refl eq_refl) as (i & Hi & Ho & _).
  by exists r', i.
Defined.

(** The identity headers of the gateway itself are only overwritten, never
    removed: where the gateway has no value, the client's reaches the
    upstream as if the gateway vouched for it. *)
Theorem client_project_forwarded :
  ∃ r', Samples.sent Samples.context = Some r' ∧
    get_all "x-relayna-key-id" (rq_headers r') = ["key-1"] ∧
    get_all "x-relayna-project-id" (rq_headers r') = ["another-project"] ∧
    get_all "x-relayna-task-id" (rq_headers r') = ["another-task"].
Proof.
  destruct (Samples.sent Samples.context) as [r'|] eqn:E; vm_compute in E; [|discriminate E].
  exists r'. injection E as <-. by repeat split.
Qed.
