(* ===== verification/Entra.v ===== *)
(** * Entra tokens

    Models [crates/gateway-core/src/entra.rs]: the verification of a JWT
    against the keys of the tenant's discovery document, the cache of those
    keys and the throttling of its refreshes, the checks on the claims, and
    the identities signed by Apigee.  The JWT library (header decoding, RSA
    signature verification), HMAC, base64 and the JSON reader are parameters,
    and so is what the identity provider answers; instants and dates are in
    nanoseconds.  [None] is a panic of the date arithmetic. *)

From S2P Require Import Prelude Errors Json GuardrailPolicy EndpointAccess.

Definition JWKS_REFRESH_COOLDOWN : Z := 30 * nanos_per_sec.
Definition ENTRA_DEFAULT_RELAYNA_KEY_HEADER : string := "X-Relayna-Key".

Record EntraAuthConfig := {
  ec_tenant_id : string;
  ec_audience : string;
  ec_issuer : string;
  ec_oidc_discovery_url : string;
  ec_required_scope : option string;
  ec_required_role : option string;
  ec_allowed_groups : list string;
  ec_accepted_algorithms : list string;
  ec_relayna_key_header : string;
  ec_jwks_cache_ttl_seconds : Z;
  ec_clock_skew_seconds : Z
}.
#[global] Instance EntraAuthConfig_eq_dec : EqDecision EntraAuthConfig.
Proof. solve_decision. Defined.

Record ApigeeTrustedHeaderConfig := {
  ac_secret : string;
  ac_required_scope : option string;
  ac_required_role : option string;
  ac_allowed_groups : list string
}.
#[global] Instance ApigeeTrustedHeaderConfig_eq_dec : EqDecision ApigeeTrustedHeaderConfig.
Proof. solve_decision. Defined.

(** [jsonwebtoken::Algorithm], those the gateway names and the others. *)
Inductive Algorithm : Type := RS256 | RS384 | RS512 | OtherAlgorithm.
#[global] Instance Algorithm_eq_dec : EqDecision Algorithm.
Proof. solve_decision. Defined.

Record JsonWebKey := {
  kid : option string;
  kty : string;
  alg : option string;
  modulus : string;
  exponent : string
}.
Record CachedJwks := { jwks : list JsonWebKey; jwks_expires_at : Z }.

Record EntraClaims := {
  iss : string;
  aud : Value;
  exp : Z;
  nbf : option Z;
  iat : option Z;
  tid : string;
  ver : string;
  sub : option string;
  oid : option string;
  appid : option string;
  azp : option string;
  preferred_username : option string;
  claims_email : option string;
  claims_name : option string;
  claims_nonce : option string;
  scp : option string;
  claims_roles : option (list string);
  claims_groups : option (list string);
  hasgroups : option bool;
  claim_names : option Value
}.

Definition has_group_overage (c : EntraClaims) : bool :=
  default false (hasgroups c) || is_some (claim_names c ≫= value_get "groups").

Definition header_algorithm_name (a : Algorithm) : string :=
  match a with RS256 => "RS256" | RS384 => "RS384" | RS512 => "RS512" | OtherAlgorithm => "unsupported" end.
Definition algorithm_to_jsonwebtoken (a : string) : option Algorithm :=
  if String.eqb a "RS256" then Some RS256
  else if String.eqb a "RS384" then Some RS384
  else if String.eqb a "RS512" then Some RS512
  else None.

Definition audience_contains (audience : Value) (expected : string) : bool :=
  match audience with
  | JString v => String.eqb v expected
  | JArray l => existsb (λ v, bool_decide (as_str v = Some expected)) l
  | _ => false
  end.
Definition audience_list (audience : Value) : list string :=
  match audience with
  | JString v => [v]
  | JArray l => omap as_str l
  | _ => []
  end.

(** [str::split_whitespace]. *)
Fixpoint split_whitespace_fuel (n : nat) (word s : string) : list string :=
  match n with
  | O => []
  | S n =>
      match strip_whitespace_char s with
      | Some rest => (if is_empty word then [] else [word]) ++ split_whitespace_fuel n "" rest
      | None =>
          match s with
          | EmptyString => if is_empty word then [] else [word]
          | String c s => split_whitespace_fuel n (word +:+ String c "") s
          end
      end
  end.
Definition split_whitespace (s : string) : list string := split_whitespace_fuel (S (String.length s)) "" s.
Definition split_scopes (scopes : option string) : list string :=
  List.filter (λ s, negb (is_empty s)) (split_whitespace (default "" scopes)).

Definition validate_entra_authorization_detailed (required_scope required_role : option string)
    (allowed_groups scopes roles groups : list string) : result string unit :=
  if is_some_and (λ s, negb (str_mem s scopes)) required_scope then Err "required_scope_missing"
  else if is_some_and (λ r, negb (str_mem r roles)) required_role then Err "required_role_missing"
  else if negb (is_nil allowed_groups) && negb (existsb (λ a, existsb (λ g, String.eqb g a) groups) allowed_groups)
  then Err "allowed_group_missing"
  else Ok tt.

Definition apigee_validate (c : ApigeeTrustedHeaderConfig) : GatewayResult unit :=
  if is_empty (trim (ac_secret c)) then Err InvalidConfiguration else Ok tt.

(** [constant_time_eq]: bytes are compared without an early exit. *)
Fixpoint xor_fold (a b : string) (acc : Z) : Z :=
  match a, b with
  | String x a, String y b => xor_fold a b (Z.lor acc (Z.lxor (byte_val x) (byte_val y)))
  | _, _ => acc
  end.
Definition constant_time_eq (left right : string) : bool :=
  if negb (len left =? len right) then false else xor_fold left right 0 =? 0.

Section config.
Variable header_name_ok : string → bool.

Definition validate_relayna_key_header_name (header : string) : GatewayResult unit :=
  if is_empty (trim header) || negb (header_name_ok (trim header)) then Err InvalidConfiguration else Ok tt.

Definition entra_validate (c : EntraAuthConfig) : GatewayResult unit :=
  if is_empty (trim (ec_tenant_id c)) || is_empty (trim (ec_audience c)) || is_empty (trim (ec_issuer c))
     || is_empty (trim (ec_oidc_discovery_url c))
  then Err InvalidConfiguration
  else if is_nil (ec_accepted_algorithms c)
          || existsb (λ a, is_none (algorithm_to_jsonwebtoken a)) (ec_accepted_algorithms c)
  then Err InvalidConfiguration
  else validate_relayna_key_header_name (ec_relayna_key_header c).
End config.

(** ** Claims *)

Section dates.
(** The range of [chrono::DateTime], in seconds. *)
Variables date_min date_max : Z.

Definition timestamp_to_datetime (t : Z) : option Z :=
  if in_range date_min date_max t then Some (t * nanos_per_sec) else None.
(** [ChronoDuration::seconds] panics beyond its range. *)
Definition chrono_seconds (s : Z) : option Z :=
  if in_range (- (i64_max / 1000)) (i64_max / 1000) s then Some (s * nanos_per_sec) else None.
(** [DateTime + TimeDelta] panics when it leaves the range of dates. *)
Definition date_add (d delta : Z) : option Z :=
  if in_range (date_min * nanos_per_sec) (date_max * nanos_per_sec + nanos_per_sec - 1) (d + delta)
  then Some (d + delta) else None.

(** [d.is_none_or(|d| d + skew <= now)]; [None] is a panic. *)
Definition expired (exp skew now : Z) : option bool :=
  match timestamp_to_datetime exp with
  | None => Some true
  | Some d => (λ d, d <=? now) <$> date_add d skew
  end.
(** [t.and_then(..).is_some_and(|d| d - skew > now)]. *)
Definition in_future (t : option Z) (skew now : Z) : option bool :=
  match t ≫= timestamp_to_datetime with
  | None => Some false
  | Some d => (λ d, now <? d) <$> date_add d (- skew)
  end.

Definition seconds_of (now : Z) : Z := now / nanos_per_sec.
Definition saturating_sub_i64 (a b : Z) : Z := Z.max (- (i64_max + 1)) (Z.min i64_max (a - b)).

Definition identity_of (c : EntraClaims) : EntraIdentityContext :=
  {| audiences := audience_list (aud c); expires_at := Some (exp c); tenant_id := tid c; subject := sub c;
     object_id := oid c; app_id := appid c; authorized_party := azp c;
     email := match preferred_username c with Some e => Some e | None => claims_email c end;
     display_name := claims_name c; nonce := claims_nonce c; scopes := split_scopes (scp c);
     roles := default [] (claims_roles c); groups := default [] (claims_groups c); token_version := ver c;
     identity_source := Jwt |}.

(** The checks in time. *)
Definition check_times (cfg : EntraAuthConfig) (c : EntraClaims) (now : Z) : option (GatewayResult unit) :=
  skew ← chrono_seconds (ec_clock_skew_seconds cfg);
  gone ← expired (exp c) skew now;
  if (gone : bool) then Some (Err ExpiredEntraToken)
  else
    early ← in_future (nbf c) skew now;
    if (early : bool) then Some (Err InvalidEntraToken)
    else
      future ← in_future (iat c) skew now;
      if (future : bool) then Some (Err InvalidEntraToken) else Some (Ok tt).

Definition check_version (c : EntraClaims) : GatewayResult unit :=
  if negb (String.eqb (ver c) "1.0") && negb (String.eqb (ver c) "2.0") then Err InvalidEntraToken
  else if has_group_overage c then Err InsufficientEntraAuthorization
  else Ok tt.

Definition check_authorization (cfg : EntraAuthConfig) (endpoint : option EndpointEntraPolicy)
    (identity : EntraIdentityContext) (now : Z) : GatewayResult unit :=
  match endpoint with
  | None =>
      match validate_entra_authorization_detailed (ec_required_scope cfg) (ec_required_role cfg)
              (ec_allowed_groups cfg) (scopes identity) (roles identity) (groups identity) with
      | Ok _ => Ok tt
      | Err _ => Err InsufficientEntraAuthorization
      end
  | Some policy => authorize policy identity (saturating_sub_i64 (seconds_of now) (ec_clock_skew_seconds cfg))
  end.

Definition validate_claims_for_endpoint (cfg : EntraAuthConfig) (c : EntraClaims) (now : Z)
    (endpoint : option EndpointEntraPolicy) : option (GatewayResult EntraIdentityContext) :=
  if negb (String.eqb (iss c) (ec_issuer cfg)) then Some (Err InvalidEntraIssuer)
  else if negb (String.eqb (tid c) (ec_tenant_id cfg)) then Some (Err InvalidEntraIssuer)
  else if negb (audience_contains (aud c) (match endpoint with Some p => audience p | None => ec_audience cfg end))
  then Some (Err InvalidEntraAudience)
  else
    times ← check_times cfg c now;
    Some (check? times in
          check? check_version c in
          check? check_authorization cfg endpoint (identity_of c) now in
          Ok (identity_of c)).
End dates.

(** ** Keys *)

Record Verifier := { cache : option CachedJwks; refresh_attempt : option Z }.
Definition Verifier_new : Verifier := {| cache := None; refresh_attempt := None |}.

(** What the identity provider answers: the issuer and key URL of the
    discovery document, and the keys behind a URL; [None] for a failed
    exchange, a bad status or an unreadable document. *)
Record Oidc := {
  discovered : option (string * string);
  fetched : string → option (list JsonWebKey)
}.

Definition cached_key (st : Verifier) (id : string) (instant : Z) : option JsonWebKey :=
  match cache st with
  | Some c => if instant <? jwks_expires_at c
              then List.find (λ k, bool_decide (kid k = Some id)) (jwks c) else None
  | None => None
  end.

Definition refresh_keys (cfg : EntraAuthConfig) (o : Oidc) (started done_at : Z) (st : Verifier) :
    Verifier * GatewayResult unit :=
  if is_some_and (λ last, started - last <? JWKS_REFRESH_COOLDOWN) (refresh_attempt st) then (st, Ok tt)
  else
    let st := {| cache := cache st; refresh_attempt := Some started |} in
    match discovered o with
    | None => (st, Err InvalidEntraToken)
    | Some (issuer, uri) =>
        if negb (String.eqb issuer (ec_issuer cfg)) then (st, Err InvalidEntraIssuer)
        else
          match fetched o uri with
          | None => (st, Err InvalidEntraToken)
          | Some keys =>
              ({| cache := Some {| jwks := keys;
                                   jwks_expires_at := done_at + Z.max (ec_jwks_cache_ttl_seconds cfg * nanos_per_sec)
                                                                      JWKS_REFRESH_COOLDOWN |};
                  refresh_attempt := refresh_attempt st |}, Ok tt)
          end
    end.

(** ** Verification *)

Section verification.
Variables date_min date_max : Z.
(** [decode_header]: the key id and the algorithm. *)
Variable decode_header : string → option (option string * Algorithm).
(** [DecodingKey::from_rsa_components(..).is_ok()]. *)
Variable rsa_components_ok : string → string → bool.
(** [decode] with the checks on claims switched off: the signature is valid
    under the key and the algorithm, and the claims have the right shape. *)
Variable decode : string → string → string → Algorithm → option EntraClaims.

(** The readings of the clock: key lookup, refresh begun, refresh done, second lookup. *)
Record Clock := { first_at : Z; refresh_at : Z; refreshed_at : Z; second_at : Z }.

Definition find_key (cfg : EntraAuthConfig) (o : Oidc) (t : Clock) (id : string) (st : Verifier) :
    Verifier * GatewayResult JsonWebKey :=
  match cached_key st id (first_at t) with
  | Some k => (st, Ok k)
  | None =>
      match refresh_keys cfg o (refresh_at t) (refreshed_at t) st with
      | (st, Err e) => (st, Err e)
      | (st, Ok _) => (st, ok_or (cached_key st id (second_at t)) InvalidEntraToken)
      end
  end.

Definition verified_claims (algorithm : Algorithm) (token : string) (k : JsonWebKey) : GatewayResult EntraClaims :=
  if negb (String.eqb (kty k) "RSA") then Err InvalidEntraToken
  else if is_some_and (λ a, negb (String.eqb a (header_algorithm_name algorithm))) (alg k) then Err InvalidEntraToken
  else if negb (rsa_components_ok (modulus k) (exponent k)) then Err InvalidEntraToken
  else ok_or (decode token (modulus k) (exponent k) algorithm) InvalidEntraToken.

Definition verify_token_for_endpoint (cfg : EntraAuthConfig) (o : Oidc) (t : Clock) (token : string) (now : Z)
    (endpoint : option EndpointEntraPolicy) (st : Verifier) :
    Verifier * option (GatewayResult EntraIdentityContext) :=
  if is_empty token then (st, Some (Err MalformedEntraAuthorization))
  else
    match decode_header token with
    | None => (st, Some (Err MalformedEntraAuthorization))
    | Some (None, _) => (st, Some (Err InvalidEntraToken))
    | Some (Some id, a) =>
        let name := header_algorithm_name a in
        if negb (existsb (λ accepted, String.eqb accepted name) (ec_accepted_algorithms cfg))
        then (st, Some (Err InvalidEntraToken))
        else
          match algorithm_to_jsonwebtoken name with
          | None => (st, Some (Err InvalidEntraToken))
          | Some algorithm =>
              match find_key cfg o t id st with
              | (st, Err e) => (st, Some (Err e))
              | (st, Ok k) =>
                  match verified_claims algorithm token k with
                  | Err e => (st, Some (Err e))
                  | Ok claims => (st, validate_claims_for_endpoint date_min date_max cfg claims now endpoint)
                  end
              end
          end
    end.

Definition verify_authorization_with_context (cfg : EntraAuthConfig) (o : Oidc) (t : Clock)
    (authorization : option string) (now : Z) (st : Verifier) : Verifier * option (GatewayResult EntraIdentityContext) :=
  match authorization with
  | None => (st, Some (Err MissingEntraAuthorization))
  | Some authorization =>
      match strip_prefix "Bearer " authorization with
      | None => (st, Some (Err MalformedEntraAuthorization))
      | Some token => verify_token_for_endpoint cfg o t (trim token) now None st
      end
  end.

(** ** Identities signed by Apigee *)

Variable hmac_base64url : string → string → string.
Variable base64url_decode : string → option string.
Variable from_slice_identity : string → option EntraIdentityContext.

Definition set_source (s : EntraIdentitySource) (i : EntraIdentityContext) : EntraIdentityContext :=
  {| audiences := audiences i; expires_at := expires_at i; tenant_id := tenant_id i; subject := subject i;
     object_id := object_id i; app_id := app_id i; authorized_party := authorized_party i; email := email i;
     display_name := display_name i; nonce := nonce i; scopes := scopes i; roles := roles i; groups := groups i;
     token_version := token_version i; identity_source := s |}.

Definition verify_apigee_trusted_identity (identity_header signature_header : option string)
    (config : ApigeeTrustedHeaderConfig) : GatewayResult EntraIdentityContext :=
  check? apigee_validate config in
  let? identity_header := ok_or identity_header UntrustedApigeeIdentity in
  let? signature_header := ok_or signature_header UntrustedApigeeIdentity in
  if negb (constant_time_eq (hmac_base64url (ac_secret config) identity_header) signature_header)
  then Err UntrustedApigeeIdentity
  else
    let? identity_json := ok_or (base64url_decode identity_header) UntrustedApigeeIdentity in
    let? identity := ok_or (from_slice_identity identity_json) UntrustedApigeeIdentity in
    let identity := set_source ApigeeTrustedHeader identity in
    match validate_entra_authorization_detailed (ac_required_scope config) (ac_required_role config)
            (ac_allowed_groups config) (scopes identity) (roles identity) (groups identity) with
    | Err _ => Err InsufficientEntraAuthorization
    | Ok _ => Ok identity
    end.

Definition sign_apigee_trusted_identity (identity_header : string) (config : ApigeeTrustedHeaderConfig) :
    GatewayResult string :=
  check? apigee_validate config in
  Ok (hmac_base64url (ac_secret config) identity_header).
End verification.

(** ** Comparison in constant time *)

Lemma xor_fold_zero a b acc : 0 ≤ acc → String.length a = String.length b →
  0 ≤ xor_fold a b acc ∧ (xor_fold a b acc = 0 ↔ acc = 0 ∧ a = b).
Proof.
  revert b acc. induction a as [|x a IH]; intros [|y b] acc Hacc Hlen; try discriminate Hlen; [cbn; tauto|].
  cbn [xor_fold]. injection Hlen as Hlen.
  assert (Hx : 0 ≤ Z.lxor (byte_val x) (byte_val y)) by (apply Z.lxor_nonneg; unfold byte_val; lia).
  destruct (IH b (Z.lor acc (Z.lxor (byte_val x) (byte_val y)))) as [H0 ->]; [by apply Z.lor_nonneg|done|].
  split; [done|]. rewrite Z.lor_eq_0_iff, Z.lxor_eq_0_iff. split.
  - intros [[? Hxy] ->]. split; [done|]. f_equal. by apply byte_val_inj.
  - intros [-> [= -> ->]]. done.
Qed.
Lemma constant_time_eq_spec a b : constant_time_eq a b = String.eqb a b.
Proof.
  unfold constant_time_eq, len. destruct (Z.eqb_spec (Z.of_nat (String.length a)) (Z.of_nat (String.length b))) as [E|E]; cbn [negb].
  - destruct (xor_fold_zero a b 0) as [_ H]; [done|lia|].
    destruct (Z.eqb_spec (xor_fold a b 0) 0) as [Hz|Hz], (String.eqb_spec a b) as [Hab|Hab]; try done; naive_solver.
  - destruct (String.eqb_spec a b) as [->|]; done.
Qed.

(** ** Runs of a verifier *)

Definition throttled (st : Verifier) (at_ : Z) : bool :=
  is_some_and (λ last, at_ - last <? JWKS_REFRESH_COOLDOWN) (refresh_attempt st).
(** Whether looking a key up asks the identity provider. *)
Definition asks (t : Clock) (id : string) (st : Verifier) : bool :=
  is_none (cached_key st id (first_at t)) && negb (throttled st (refresh_at t)).

(** The states of a verifier, with its exchanges with the provider, latest first. *)
Inductive run (cfg : EntraAuthConfig) : Verifier → list (Z * Oidc) → Prop :=
| run_new : run cfg Verifier_new []
| run_lookup st hist o t id st' r :
    run cfg st hist → Forall (λ x, x.1 ≤ refresh_at t) hist →
    find_key cfg o t id st = (st', r) →
    run cfg st' (if asks t id st then (refresh_at t, o) :: hist else hist).

(** Keys are only taken from a key set the configured issuer's discovery
    document points at. *)
Definition from_issuer (cfg : EntraAuthConfig) (hist : list (Z * Oidc)) (c : CachedJwks) : Prop :=
  ∃ o uri, (o ∈ hist.*2) ∧ discovered o = Some (ec_issuer cfg, uri) ∧ fetched o uri = Some (jwks c).

Lemma find_key_cases cfg o t id st st' r :
  find_key cfg o t id st = (st', r) →
  (asks t id st = false ∧ st' = st) ∨
  (asks t id st = true ∧ refresh_attempt st' = Some (refresh_at t) ∧
   (cache st' = cache st ∨ ∃ uri c, discovered o = Some (ec_issuer cfg, uri) ∧ fetched o uri = Some (jwks c) ∧ cache st' = Some c)).
Proof.
  unfold find_key, asks. destruct (cached_key st id (first_at t)); [intros [= <- <-]; by left|]. cbn [is_none andb].
  unfold refresh_keys. fold (throttled st (refresh_at t)). destruct (throttled st (refresh_at t)).
  - intros [= <- <-]. by left.
  - cbv zeta. destruct (discovered o) as [[issuer uri]|] eqn:Ed; [|intros [= <- <-]; right; split_and!; [done..|by left]].
    destruct (String.eqb_spec issuer (ec_issuer cfg)) as [->|]; cbn [negb]; [|intros [= <- <-]; right; split_and!; [done..|by left]].
    destruct (fetched o uri) as [keys|] eqn:Ef; [|intros [= <- <-]; right; split_and!; [done..|by left]].
    intros [= <- <-]. right. split_and!; [done..|]. right. eexists uri, {| jwks := keys; jwks_expires_at := _ |}. by split_and!.
Qed.

Lemma from_issuer_more cfg hist c e : from_issuer cfg hist c → from_issuer cfg (e :: hist) c.
Proof. intros (o & uri & Ho & H). exists o, uri. split; [by right|done]. Qed.

Lemma run_trusted cfg st hist : run cfg st hist → ∀ c, cache st = Some c → from_issuer cfg hist c.
Proof.
  induction 1 as [|st hist o t id st' r Hr IH _ Hf]; [done|]. intros c Hc.
  destruct (find_key_cases _ _ _ _ _ _ _ Hf) as [[-> ->]|(-> & _ & [E|(uri & c' & Hd & Hk & E)])]; [by apply IH|..].
  - apply from_issuer_more, IH. congruence.
  - rewrite E in Hc. injection Hc as <-. exists o, uri. split; [left|done].
Qed.

(** ** Throttling *)

(** The latest exchange is the recorded one, and exchanges are a cooldown apart. *)
Fixpoint spaced (l : list Z) : Prop :=
  match l with
  | a :: (b :: _) as rest => JWKS_REFRESH_COOLDOWN ≤ a - b ∧ spaced rest
  | _ => True
  end.
Lemma run_spaced cfg st hist : run cfg st hist → spaced hist.*1 ∧ head hist.*1 = refresh_attempt st.
Proof.
  induction 1 as [|st hist o t id st' r Hr [IHs IHh] Hle Hf]; [done|].
  destruct (find_key_cases _ _ _ _ _ _ _ Hf) as [[-> ->]|(Ha & Hat & _)]; [done|]. rewrite Ha.
  split; [|by rewrite Hat]. cbn [fmap list_fmap fst]. destruct hist as [|[a x] hist]; [done|].
  cbn [fmap list_fmap fst] in *. split; [|done]. unfold asks, throttled in Ha. rewrite <- IHh in Ha. cbn in Ha.
  apply andb_true_iff in Ha as [_ Ha%negb_true_iff]. bool_prop. lia.
Qed.
Lemma spaced_far l i j a b : spaced l → (i < j)%nat → l !! i = Some a → l !! j = Some b →
  b + Z.of_nat (j - i) * JWKS_REFRESH_COOLDOWN ≤ a.
Proof.
  revert i j a. induction l as [|x l IH]; intros i j a Hs Hij Hi Hj; [done|].
  destruct j as [|j]; [lia|]. destruct l as [|y l]; [done|]. destruct Hs as [Hxy Hs]. cbn in Hj.
  destruct i as [|i]; cbn in Hi.
  - injection Hi as <-. destruct j as [|j].
    + cbn in Hj. injection Hj as <-. cbn. lia.
    + specialize (IH O (S j) y Hs ltac:(lia) eq_refl Hj). replace (S (S j) - 0)%nat with (S (S j - 0)) by lia. lia.
  - specialize (IH i j a Hs ltac:(lia) Hi Hj). by replace (S j - S i)%nat with (j - i)%nat by lia.
Qed.

(** However many requests present unknown key ids and whatever the
    identity provider answers, it is asked at most once per thirty seconds:
    between the first and the last of [n + 1] exchanges of a verifier lie at
    least [n] cooldowns. *)
Theorem refreshes_throttled cfg st hist i j a b :
  run cfg st hist → (i < j)%nat → hist !! i = Some a → hist !! j = Some b →
  b.1 + Z.of_nat (j - i) * JWKS_REFRESH_COOLDOWN ≤ a.1.
Proof.
  intros [Hs _]%run_spaced Hij Hi Hj.
  apply (spaced_far hist.*1); [done|done|by rewrite list_lookup_fmap, Hi|by rewrite list_lookup_fmap, Hj].
Qed.

(** ** Accepted tokens *)

(** What the claims of an accepted token satisfy. *)
Record acceptable (date_min date_max : Z) (cfg : EntraAuthConfig) (endpoint : option EndpointEntraPolicy) (now : Z)
    (c : EntraClaims) : Prop := {
  acc_issuer : iss c = ec_issuer cfg;
  acc_tenant : tid c = ec_tenant_id cfg;
  acc_audience : (match endpoint with Some p => audience p | None => ec_audience cfg end) ∈ audience_list (aud c);
  acc_live : now < (exp c + ec_clock_skew_seconds cfg) * nanos_per_sec;
  acc_started : ∀ n, nbf c = Some n → date_min ≤ n ≤ date_max → (n - ec_clock_skew_seconds cfg) * nanos_per_sec ≤ now;
  acc_version : ver c ∈ ["1.0"; "2.0"];
  acc_groups : has_group_overage c = false;
  acc_authorized :
    match endpoint with
    | Some p => authorize p (identity_of c) (saturating_sub_i64 (seconds_of now) (ec_clock_skew_seconds cfg)) = Ok tt
    | None => validate_entra_authorization_detailed (ec_required_scope cfg) (ec_required_role cfg) (ec_allowed_groups cfg)
                (scopes (identity_of c)) (roles (identity_of c)) (groups (identity_of c)) = Ok tt
    end
}.

Lemma audience_contains_iff v e : audience_contains v e = true ↔ e ∈ audience_list v.
Proof.
  destruct v as [| | | |l|]; cbn; try (split; [done|by intros ?%elem_of_nil]).
  - by rewrite list_elem_of_singleton, String.eqb_eq.
  - rewrite existsb_exists, list_elem_of_omap. split.
    + intros (x & Hx%list_elem_of_In & E%bool_decide_eq_true). by exists x.
    + intros (x & Hx & E). exists x. split; [by apply list_elem_of_In|]. by apply bool_decide_eq_true.
Qed.

Lemma check_times_ok dmin dmax cfg c now :
  check_times dmin dmax cfg c now = Some (Ok tt) →
  now < (exp c + ec_clock_skew_seconds cfg) * nanos_per_sec ∧
  ∀ n, nbf c = Some n → dmin ≤ n ≤ dmax → (n - ec_clock_skew_seconds cfg) * nanos_per_sec ≤ now.
Proof.
  unfold check_times, chrono_seconds, expired, timestamp_to_datetime, date_add.
  destruct (in_range _ _ (ec_clock_skew_seconds cfg)); [|done]. cbn [mbind option_bind].
  destruct (in_range dmin dmax (exp c)); [|done]. destruct (in_range _ _ (exp c * _ + _)); [|done].
  cbn [fmap option_fmap option_map mbind option_bind].
  destruct (exp c * nanos_per_sec + _ <=? now) eqn:El; [done|]. bool_prop. intros H. split; [lia|].
  intros n Hn Hr. unfold in_future, timestamp_to_datetime, date_add in H. rewrite Hn in H. cbn [mbind option_bind] in H.
  assert (in_range dmin dmax n = true) as Hin by (unfold in_range; apply andb_true_iff; lia). rewrite Hin in H.
  destruct (in_range _ _ (n * _ + _)); [|done]. cbn [fmap option_fmap option_map mbind option_bind] in H.
  destruct (now <? _) eqn:En; [done|]. bool_prop. lia.
Qed.

Lemma claims_acceptable dmin dmax cfg c now endpoint i :
  validate_claims_for_endpoint dmin dmax cfg c now endpoint = Some (Ok i) →
  i = identity_of c ∧ acceptable dmin dmax cfg endpoint now c.
Proof.
  unfold validate_claims_for_endpoint.
  destruct (String.eqb_spec (iss c) (ec_issuer cfg)); cbn [negb]; [|done].
  destruct (String.eqb_spec (tid c) (ec_tenant_id cfg)); cbn [negb]; [|done].
  destruct (audience_contains _ _) eqn:Ea; cbn [negb]; [|done].
  destruct (check_times dmin dmax cfg c now) as [times|] eqn:Et; [|done]. cbn [mbind option_bind].
  intros [= H]. apply check_ok in H as [-> H]. apply check_ok in H as [Hver H]. apply check_ok in H as [Hauth [= <-]].
  destruct (check_times_ok _ _ _ _ _ Et) as [Hlive Hnbf]. split; [done|].
  unfold check_version in Hver. rewrite !guard_ok in Hver. destruct Hver as (Hv & Hg & _).
  split; try done.
  - by apply audience_contains_iff.
  - apply andb_false_iff in Hv as [Hv|Hv]; apply negb_false_iff in Hv; apply String.eqb_eq in Hv as ->; set_solver.
  - unfold check_authorization in Hauth. destruct endpoint as [p|]; [done|].
    destruct (validate_entra_authorization_detailed _ _ _ _ _ _) as [[]|]; done.
Qed.

Lemma cached_key_ok st id t k : cached_key st id t = Some k →
  ∃ c, cache st = Some c ∧ (k ∈ jwks c) ∧ kid k = Some id ∧ t < jwks_expires_at c.
Proof.
  unfold cached_key. destruct (cache st) as [c|]; [|done]. destruct (Z.ltb_spec t (jwks_expires_at c)); [|done].
  intros [Hin Hk%bool_decide_eq_true]%find_some. exists c. split_and!; try done. by apply list_elem_of_In.
Qed.
Lemma find_key_ok cfg o t id st st' k : find_key cfg o t id st = (st', Ok k) →
  ∃ c, cache st' = Some c ∧ (k ∈ jwks c) ∧ kid k = Some id.
Proof.
  unfold find_key. destruct (cached_key st id (first_at t)) as [k'|] eqn:E1.
  - intros [= <- <-]. destruct (cached_key_ok _ _ _ _ E1) as (c & ? & ? & ? & _). by exists c.
  - destruct (refresh_keys _ _ _ _ st) as [st1 [[]|]]; [|done]. intros [= <- H].
    destruct (cached_key st1 id (second_at t)) as [k'|] eqn:E2; [|done]. injection H as <-.
    destruct (cached_key_ok _ _ _ _ E2) as (c & ? & ? & ? & _). by exists c.
Qed.

(** C18: A token is only accepted when it carries a valid signature, under an
    allowed RSA algorithm, of a key that the discovery document of the
    configured issuer points at and that has the token's key id; and its
    claims name the issuer, the tenant and the audience of the endpoint or of
    the gateway, are in force within the clock skew, and satisfy the scopes,
    roles and groups required there.  The identity is read off these claims. *)
Theorem token_sound dmin dmax decode_header rsa_ok decode cfg o t token now endpoint st hist st' i :
  run cfg st hist →
  verify_token_for_endpoint dmin dmax decode_header rsa_ok decode cfg o t token now endpoint st = (st', Some (Ok i)) →
  ∃ id a k c claims,
    decode_header token = Some (Some id, a) ∧ (header_algorithm_name a ∈ ec_accepted_algorithms cfg) ∧ a ≠ OtherAlgorithm ∧
    cache st' = Some c ∧ (k ∈ jwks c) ∧ kid k = Some id ∧ kty k = "RSA" ∧
    from_issuer cfg (if asks t id st then (refresh_at t, o) :: hist else hist) c ∧
    decode token (modulus k) (exponent k) a = Some claims ∧
    i = identity_of claims ∧ acceptable dmin dmax cfg endpoint now claims.
Proof.
  intros Hr. unfold verify_token_for_endpoint. destruct (is_empty token); [done|].
  destruct (decode_header token) as [[[id|] a]|] eqn:Eh; [|done..]. cbv zeta.
  destruct (existsb _ (ec_accepted_algorithms cfg)) eqn:Ea; cbn [negb]; [|done].
  destruct (algorithm_to_jsonwebtoken (header_algorithm_name a)) as [a'|] eqn:Ealg; [|done].
  assert (a' = a ∧ a ≠ OtherAlgorithm) as [-> Hoth] by (destruct a; cbn in Ealg; naive_solver).
  destruct (find_key cfg o t id st) as [st1 [k|]] eqn:Ek; [|done].
  destruct (verified_claims rsa_ok decode a token k) as [claims|] eqn:Ec; [|done].
  intros [= <- H]. destruct (claims_acceptable _ _ _ _ _ _ _ H) as [-> Hacc].
  destruct (find_key_ok _ _ _ _ _ _ _ Ek) as (c & Hc & Hin & Hk). exists id, a, k, c, claims.
  unfold verified_claims in Ec. rewrite !guard_ok in Ec. destruct Ec as (Hrsa & _ & _ & Hd).
  split_and!; try done.
  - apply existsb_exists in Ea as (x & Hx%list_elem_of_In & ->%String.eqb_eq). done.
  - apply negb_false_iff, String.eqb_eq in Hrsa. done.
  - destruct (find_key_cases _ _ _ _ _ _ _ Ek) as [[-> ->]|(-> & _ & [E|(uri & c' & Hdis & Hf & E)])].
    + by eapply run_trusted.
    + apply from_issuer_more. eapply run_trusted; [done|]. by rewrite <- E.
    + rewrite E in Hc. injection Hc as <-. exists o, uri. split; [left|done].
  - by destruct (decode token _ _ a); [injection Hd as ->|].
Qed.

(** ** Apigee *)

(** An identity presented by Apigee is accepted exactly when its signature
    is the one the shared secret produces for that very header, the header
    decodes to an identity, and the identity meets the required scope, role
    and groups; it is then marked as coming from Apigee, whatever it says. *)
Theorem apigee_signed_exact hmac decode64 read h s cfg i :
  verify_apigee_trusted_identity hmac decode64 read (Some h) (Some s) cfg = Ok i ↔
  sign_apigee_trusted_identity hmac h cfg = Ok s ∧
  ∃ json i0, decode64 h = Some json ∧ read json = Some i0 ∧ i = set_source ApigeeTrustedHeader i0 ∧
    validate_entra_authorization_detailed (ac_required_scope cfg) (ac_required_role cfg) (ac_allowed_groups cfg)
      (scopes i0) (roles i0) (groups i0) = Ok tt.
Proof.
  unfold verify_apigee_trusted_identity, sign_apigee_trusted_identity. rewrite !check_ok. cbn [ok_or].
  rewrite guard_ok, negb_false_iff, constant_time_eq_spec, String.eqb_eq. split.
  - intros (Hc & -> & H). split; [done|]. destruct (decode64 h) as [json|]; [|done]. cbn [ok_or] in H.
    destruct (read json) as [i0|] eqn:Er; [|done]. cbn [ok_or set_source scopes roles groups] in H.
    destruct (validate_entra_authorization_detailed _ _ _ _ _ _) as [[]|] eqn:E; [|done]. injection H as <-.
    by exists json, i0.
  - intros ([Hc [= ->]] & json & i0 & -> & Hr & -> & Ha). split_and!; [done..|]. cbn [ok_or]. rewrite Hr.
    cbn [ok_or set_source scopes roles groups]. by rewrite Ha.
Qed.

(** ** A concrete token *)

Module Sample.
Definition cfg : EntraAuthConfig :=
  {| ec_tenant_id := "tenant"; ec_audience := "api://gateway"; ec_issuer := "https://issuer"; ec_oidc_discovery_url := "https://oidc";
     ec_required_scope := Some "invoke"; ec_required_role := None; ec_allowed_groups := [];
     ec_accepted_algorithms := ["RS256"]; ec_relayna_key_header := "x-relayna-key";
     ec_jwks_cache_ttl_seconds := 300; ec_clock_skew_seconds := 60 |}.
Definition key : JsonWebKey := {| kid := Some "k1"; kty := "RSA"; alg := Some "RS256"; modulus := "n"; exponent := "e" |}.
Definition oidc : Oidc :=
  {| discovered := Some ("https://issuer", "https://keys"); fetched := λ _, Some [key] |}.
Definition claims : EntraClaims :=
  {| iss := "https://issuer"; aud := JArray [JString "api://other"; JString "api://gateway"]; exp := 1000; nbf := Some 10; iat := None;
     tid := "tenant"; ver := "2.0"; sub := None; oid := Some "oid"; appid := None; azp := None;
     preferred_username := None; claims_email := None; claims_name := None; claims_nonce := None;
     scp := Some "read invoke"; claims_roles := None; claims_groups := None; hasgroups := None; claim_names := None |}.
Definition decode_header (s : string) : option (option string * Algorithm) := Some (Some "k1", RS256).
Definition decode (s n e : string) (a : Algorithm) : option EntraClaims :=
  if String.eqb s "signed" then Some claims else None.
Definition clock (t : Z) : Clock := {| first_at := t; refresh_at := t; refreshed_at := t; second_at := t |}.
Definition dmax : Z := 8210266876799.
Definition dmin : Z := -8334601228800.
Definition verify (token : string) (now : Z) (st : Verifier) : Verifier * option (GatewayResult EntraIdentityContext) :=
  verify_token_for_endpoint dmin dmax decode_header (λ _ _, true) decode cfg oidc (clock now) token now None st.
(** The provider is unreachable at first. *)
Definition down : Oidc := {| discovered := None; fetched := λ _, None |}.
Definition after_failure : Verifier := (find_key cfg down (clock 0) "k1" Verifier_new).1.
Definition after_refresh : Verifier := (find_key cfg oidc (clock (40 * nanos_per_sec)) "k1" after_failure).1.
End Sample.

Lemma token_sound_witness :
  ∃ claims, (Sample.verify "signed" 0 Verifier_new).2 = Some (Ok (identity_of claims)) ∧
    acceptable Sample.dmin Sample.dmax Sample.cfg None 0 claims.
Proof.
  destruct (Sample.verify "signed" 0 Verifier_new) as [st' [[i|]|]] eqn:E; [|vm_compute in E; discriminate E..].
  destruct (token_sound _ _ _ _ _ _ _ _ _ _ _ _ _ _ _ (run_new Sample.cfg) E) as (? & ? & ? & ? & claims & H).
  exists claims. destruct H as (_ & _ & _ & _ & _ & _ & _ & _ & _ & -> & Ha). split; [reflexivity|exact Ha].
Defined.

Lemma sample_verifier_run : run Sample.cfg Sample.after_refresh [(40 * nanos_per_sec, Sample.oidc); (0, Sample.down)].
Proof.
  apply (run_lookup Sample.cfg Sample.after_failure [(0, Sample.down)] Sample.oidc (Sample.clock (40 * nanos_per_sec)) "k1"
           _ (Ok Sample.key)).
  - eapply (run_lookup Sample.cfg Verifier_new [] Sample.down (Sample.clock 0) "k1" _ (Err InvalidEntraToken));
      [apply run_new|constructor|reflexivity].
  - repeat constructor. vm_compute. discriminate.
  - reflexivity.
Qed.
Lemma refreshes_throttled_witness :
  0 + Z.of_nat (1 - 0) * JWKS_REFRESH_COOLDOWN ≤ 40 * nanos_per_sec.
Proof.
  apply (refreshes_throttled _ _ _ 0%nat 1%nat (40 * nanos_per_sec, Sample.oidc) (0, Sample.down) sample_verifier_run);
    [repeat constructor|reflexivity..].
Defined.
