(* ===== verification/AuthSettings.v ===== *)
(** * Gateway authentication settings

    Models [crates/gateway-core/src/auth_settings.rs]: the stored settings and
    their patches, the settings in force (stored ones override the
    environment), and the shared runtime that requests take snapshots of.  The
    store trait and the JSON reader of patches are interfaces; the grammar of
    header names is a parameter. *)

From S2P Require Import Prelude Errors Json GuardrailPolicy EndpointAccess Entra.

Inductive GatewayAuthSettingsSource : Type := Persisted | Environment | Unset_.
Record GatewayAuthEnv := {
  env_unverified_bearer_enabled : bool;
  env_relayna_key_header : string;
  env_entra_auth : option EntraAuthConfig;
  env_apigee_trusted_header : option ApigeeTrustedHeaderConfig
}.
Definition GatewayAuthEnv_default : GatewayAuthEnv :=
  {| env_unverified_bearer_enabled := false; env_relayna_key_header := ENTRA_DEFAULT_RELAYNA_KEY_HEADER;
     env_entra_auth := None; env_apigee_trusted_header := None |}.

Record StoredGatewayAuthSettings := {
  st_unverified_bearer_enabled : bool;
  st_entra_enabled : bool;
  st_tenant_id : option string;
  st_audience : option string;
  st_issuer : option string;
  st_oidc_discovery_url : option string;
  st_required_scope : option string;
  st_required_role : option string;
  st_allowed_groups : list string;
  st_accepted_algorithms : list string;
  st_relayna_key_header : option string;
  st_jwks_cache_ttl_seconds : option Z;
  st_clock_skew_seconds : option Z;
  st_apigee_trusted_header_enabled : bool;
  st_apigee_trusted_header_secret : option string;
  st_updated_at : option Z
}.
Definition StoredGatewayAuthSettings_default : StoredGatewayAuthSettings :=
  {| st_unverified_bearer_enabled := false; st_entra_enabled := false; st_tenant_id := None; st_audience := None;
     st_issuer := None; st_oidc_discovery_url := None; st_required_scope := None; st_required_role := None;
     st_allowed_groups := []; st_accepted_algorithms := []; st_relayna_key_header := None;
     st_jwks_cache_ttl_seconds := None; st_clock_skew_seconds := None; st_apigee_trusted_header_enabled := false;
     st_apigee_trusted_header_secret := None; st_updated_at := None |}.

Record EffectiveGatewayAuthSettings := {
  ef_unverified_bearer_enabled : bool;
  ef_source : GatewayAuthSettingsSource;
  ef_relayna_key_header : string;
  ef_entra_auth : option EntraAuthConfig;
  ef_apigee_trusted_header : option ApigeeTrustedHeaderConfig;
  ef_updated_at : option Z
}.
Record GatewayAuthRuntimeConfig := {
  ar_unverified_bearer_enabled : bool;
  ar_relayna_key_header : string;
  ar_entra_auth : option EntraAuthConfig;
  ar_apigee_trusted_header : option ApigeeTrustedHeaderConfig
}.
#[global] Instance GatewayAuthRuntimeConfig_eq_dec : EqDecision GatewayAuthRuntimeConfig.
Proof. solve_decision. Defined.

Inductive AuthPatchValue : Type := Unchanged | Clear | SetTo (value : string).
Record GatewayAuthSettingsPatchRequest := {
  ap_unverified_bearer_enabled : option bool;
  ap_relayna_key_header : option string;
  ap_entra_enabled : option bool;
  ap_tenant_id : AuthPatchValue;
  ap_audience : AuthPatchValue;
  ap_issuer : AuthPatchValue;
  ap_oidc_discovery_url : AuthPatchValue;
  ap_required_scope : AuthPatchValue;
  ap_required_role : AuthPatchValue;
  ap_allowed_groups : option (list string);
  ap_accepted_algorithms : option (list string);
  ap_jwks_cache_ttl_seconds : option Z;
  ap_clock_skew_seconds : option Z;
  ap_apigee_trusted_header_enabled : option bool;
  ap_apigee_trusted_header_secret : AuthPatchValue
}.

Definition normalized_non_empty (value : option string) : option string :=
  (trim <$> value) ≫= λ v, if is_empty v then None else Some v.
Definition required_field (value : option string) : GatewayResult string :=
  ok_or (normalized_non_empty value) InvalidConfiguration.
Definition normalize_string_list (values : list string) : list string :=
  List.filter (λ v, negb (is_empty v)) (trim <$> values).
Definition apply_string_patch (target : option string) (patch : AuthPatchValue) : option string :=
  match patch with
  | Unchanged => target
  | Clear => None
  | SetTo value => normalized_non_empty (Some value)
  end.
Definition validate_unverified_bearer_mode (enabled apigee_enabled : bool) : GatewayResult unit :=
  if enabled && apigee_enabled then Err InvalidConfiguration else Ok tt.

Section settings.
Variable header_name_ok : string → bool.

Definition u64_of (n : Z) : option Z := if 0 <=? n then Some n else None.

Definition entra_config (s : StoredGatewayAuthSettings) (relayna_key_header : string) : GatewayResult EntraAuthConfig :=
  let? tenant := required_field (st_tenant_id s) in
  let? audience := required_field (st_audience s) in
  let? issuer := required_field (st_issuer s) in
  let? url := required_field (st_oidc_discovery_url s) in
  let config :=
    {| ec_tenant_id := tenant; ec_audience := audience; ec_issuer := issuer; ec_oidc_discovery_url := url;
       ec_required_scope := normalized_non_empty (st_required_scope s);
       ec_required_role := normalized_non_empty (st_required_role s); ec_allowed_groups := st_allowed_groups s;
       ec_accepted_algorithms := if is_nil (st_accepted_algorithms s) then ["RS256"] else st_accepted_algorithms s;
       ec_relayna_key_header := relayna_key_header;
       ec_jwks_cache_ttl_seconds := default 300 (st_jwks_cache_ttl_seconds s ≫= u64_of);
       ec_clock_skew_seconds := default 60 (st_clock_skew_seconds s) |} in
  check? entra_validate header_name_ok config in
  Ok config.

Definition apigee_config (s : StoredGatewayAuthSettings) : GatewayResult ApigeeTrustedHeaderConfig :=
  let? secret := required_field (st_apigee_trusted_header_secret s) in
  let config :=
    {| ac_secret := secret; ac_required_scope := normalized_non_empty (st_required_scope s);
       ac_required_role := normalized_non_empty (st_required_role s); ac_allowed_groups := st_allowed_groups s |} in
  check? apigee_validate config in
  Ok config.

Definition stored_validate (s : StoredGatewayAuthSettings) : GatewayResult unit :=
  check? validate_unverified_bearer_mode (st_unverified_bearer_enabled s) (st_apigee_trusted_header_enabled s) in
  check? (if st_entra_enabled s
          then let? _ := entra_config s (default ENTRA_DEFAULT_RELAYNA_KEY_HEADER (st_relayna_key_header s)) in Ok tt
          else Ok tt) in
  check? (if st_apigee_trusted_header_enabled s then let? _ := apigee_config s in Ok tt else Ok tt) in
  Ok tt.

(** The fields a patch overwrites, before the result is validated. *)
Definition patched (s : StoredGatewayAuthSettings) (p : GatewayAuthSettingsPatchRequest)
    (relayna_key_header : option string) (ttl : option Z) : StoredGatewayAuthSettings :=
  {| st_unverified_bearer_enabled := default (st_unverified_bearer_enabled s) (ap_unverified_bearer_enabled p);
     st_entra_enabled := default (st_entra_enabled s) (ap_entra_enabled p);
     st_tenant_id := apply_string_patch (st_tenant_id s) (ap_tenant_id p);
     st_audience := apply_string_patch (st_audience s) (ap_audience p);
     st_issuer := apply_string_patch (st_issuer s) (ap_issuer p);
     st_oidc_discovery_url := apply_string_patch (st_oidc_discovery_url s) (ap_oidc_discovery_url p);
     st_required_scope := apply_string_patch (st_required_scope s) (ap_required_scope p);
     st_required_role := apply_string_patch (st_required_role s) (ap_required_role p);
     st_allowed_groups := match ap_allowed_groups p with Some l => normalize_string_list l | None => st_allowed_groups s end;
     st_accepted_algorithms :=
       match ap_accepted_algorithms p with Some l => normalize_string_list l | None => st_accepted_algorithms s end;
     st_relayna_key_header := relayna_key_header; st_jwks_cache_ttl_seconds := ttl;
     st_clock_skew_seconds := match ap_clock_skew_seconds p with Some v => Some v | None => st_clock_skew_seconds s end;
     st_apigee_trusted_header_enabled := default (st_apigee_trusted_header_enabled s) (ap_apigee_trusted_header_enabled p);
     st_apigee_trusted_header_secret :=
       apply_string_patch (st_apigee_trusted_header_secret s) (ap_apigee_trusted_header_secret p);
     st_updated_at := st_updated_at s |}.

Definition apply_patch (s : StoredGatewayAuthSettings) (p : GatewayAuthSettingsPatchRequest) :
    GatewayResult StoredGatewayAuthSettings :=
  let? key_header :=
    match ap_relayna_key_header p with
    | None => Ok (st_relayna_key_header s)
    | Some value =>
        let value := normalized_non_empty (Some value) in
        check? (match value with Some h => validate_relayna_key_header_name header_name_ok h | None => Ok tt end) in
        Ok value
    end in
  let? ttl :=
    match ap_jwks_cache_ttl_seconds p with
    | None => Ok (st_jwks_cache_ttl_seconds s)
    | Some value => if value <=? i64_max then Ok (Some value) else Err InvalidConfiguration
    end in
  let s := patched s p key_header ttl in
  check? stored_validate s in
  Ok s.

Definition from_sources (stored : option StoredGatewayAuthSettings) (env : GatewayAuthEnv) :
    GatewayResult EffectiveGatewayAuthSettings :=
  match stored with
  | Some s =>
      check? stored_validate s in
      let header := default (env_relayna_key_header env) (normalized_non_empty (st_relayna_key_header s)) in
      let? entra_auth := if st_entra_enabled s then let? c := entra_config s header in Ok (Some c) else Ok None in
      let? apigee := if st_apigee_trusted_header_enabled s then let? c := apigee_config s in Ok (Some c) else Ok None in
      Ok {| ef_source := Persisted; ef_unverified_bearer_enabled := st_unverified_bearer_enabled s;
            ef_relayna_key_header := header; ef_entra_auth := entra_auth; ef_apigee_trusted_header := apigee;
            ef_updated_at := st_updated_at s |}
  | None =>
      check? validate_unverified_bearer_mode (env_unverified_bearer_enabled env) (is_some (env_apigee_trusted_header env)) in
      if env_unverified_bearer_enabled env || is_some (env_entra_auth env) || is_some (env_apigee_trusted_header env)
      then Ok {| ef_source := Environment; ef_unverified_bearer_enabled := env_unverified_bearer_enabled env;
                 ef_relayna_key_header := env_relayna_key_header env; ef_entra_auth := env_entra_auth env;
                 ef_apigee_trusted_header := env_apigee_trusted_header env; ef_updated_at := None |}
      else Ok {| ef_source := Unset_; ef_unverified_bearer_enabled := false;
                 ef_relayna_key_header := env_relayna_key_header env; ef_entra_auth := None;
                 ef_apigee_trusted_header := None; ef_updated_at := None |}
  end.

Definition runtime_config (e : EffectiveGatewayAuthSettings) : GatewayAuthRuntimeConfig :=
  {| ar_unverified_bearer_enabled := ef_unverified_bearer_enabled e; ar_relayna_key_header := ef_relayna_key_header e;
     ar_entra_auth := ef_entra_auth e; ar_apigee_trusted_header := ef_apigee_trusted_header e |}.

(** ** The runtime *)

(** A verifier is identified by the configuration it was built from. *)
Record GatewayAuthRuntimeState := {
  rt_config : GatewayAuthRuntimeConfig;
  rt_entra_verifier : option EntraAuthConfig
}.

Definition runtime_state_new (config : GatewayAuthRuntimeConfig) : GatewayResult GatewayAuthRuntimeState :=
  check? validate_relayna_key_header_name header_name_ok (ar_relayna_key_header config) in
  check? validate_unverified_bearer_mode (ar_unverified_bearer_enabled config) (is_some (ar_apigee_trusted_header config)) in
  let? verifier :=
    match ar_entra_auth config with
    | Some c => if negb (ar_unverified_bearer_enabled config)
                then check? entra_validate header_name_ok c in Ok (Some c) else Ok None
    | None => Ok None
    end in
  Ok {| rt_config := config; rt_entra_verifier := verifier |}.

Definition update (config : GatewayAuthRuntimeConfig) (st : GatewayAuthRuntimeState) :
    GatewayAuthRuntimeState * GatewayResult unit :=
  if negb (bool_decide (rt_config st = config)) then
    match runtime_state_new config with
    | Ok st' => (st', Ok tt)
    | Err e => (st, Err e)
    end
  else (st, Ok tt).

Definition refresh_from_store (read : GatewayResult (option StoredGatewayAuthSettings)) (env : GatewayAuthEnv)
    (st : GatewayAuthRuntimeState) : GatewayAuthRuntimeState * GatewayResult EffectiveGatewayAuthSettings :=
  match read with
  | Err e => (st, Err e)
  | Ok stored =>
      match from_sources stored env with
      | Err e => (st, Err e)
      | Ok settings =>
          match update (runtime_config settings) st with
          | (st, Ok _) => (st, Ok settings)
          | (st, Err e) => (st, Err e)
          end
      end
  end.

Definition entra_enabled (st : GatewayAuthRuntimeState) : bool :=
  is_some (rt_entra_verifier st) || is_some (ar_apigee_trusted_header (rt_config st)).
End settings.

(** ** Saved settings can be installed *)

Fixpoint apply_patches (ok : string → bool) (s : StoredGatewayAuthSettings) (ps : list GatewayAuthSettingsPatchRequest) :
    GatewayResult StoredGatewayAuthSettings :=
  match ps with
  | [] => Ok s
  | p :: ps => let? s := apply_patch ok s p in apply_patches ok s ps
  end.

(** A stored key header is trimmed and valid, and the settings were validated. *)
Record saved (ok : string → bool) (s : StoredGatewayAuthSettings) : Prop := {
  saved_valid : stored_validate ok s = Ok tt;
  saved_header h : st_relayna_key_header s = Some h →
    normalized_non_empty (Some h) = Some h ∧ validate_relayna_key_header_name ok h = Ok tt
}.

Lemma normalized_idem v h : normalized_non_empty v = Some h → normalized_non_empty (Some h) = Some h.
Proof.
  unfold normalized_non_empty. destruct v as [x|]; [|done]. cbn. destruct (is_empty (trim x)) eqn:E; [done|].
  intros [= <-]. by rewrite trim_trim, E.
Qed.

Lemma apply_patch_saved ok s p s' : saved ok s → apply_patch ok s p = Ok s' → saved ok s'.
Proof.
  intros [_ Hh]. unfold apply_patch.
  destruct (match ap_relayna_key_header p with Some _ => _ | None => _ end) as [kh|] eqn:Ek; [|done].
  destruct (match ap_jwks_cache_ttl_seconds p with Some _ => _ | None => _ end) as [ttl|]; [|done]. cbv zeta.
  rewrite check_ok. intros [Hv [= <-]]. split; [done|]. cbn [patched st_relayna_key_header]. intros h Hkh. subst kh.
  destruct (ap_relayna_key_header p) as [v|].
  - apply check_ok in Ek as [Hok [= Ek]]. rewrite Ek in Hok. split; [by eapply normalized_idem|done].
  - injection Ek as Ek. by apply Hh.
Qed.
Lemma apply_patches_saved ok ps s s' : saved ok s → apply_patches ok s ps = Ok s' → saved ok s'.
Proof.
  revert s. induction ps as [|p ps IH]; intros s Hs; cbn; [by intros [= <-]|].
  destruct (apply_patch ok s p) as [s1|] eqn:E; [|done]. apply IH. by eapply apply_patch_saved.
Qed.

(** Only the last check of an Entra configuration is about the header. *)
Lemma entra_config_header ok s h h' c :
  entra_config ok s h = Ok c → validate_relayna_key_header_name ok h' = Ok tt →
  ∃ c', entra_config ok s h' = Ok c' ∧ entra_validate ok c' = Ok tt.
Proof.
  unfold entra_config. destruct (required_field (st_tenant_id s)) as [t|]; [|done].
  destruct (required_field (st_audience s)) as [a|]; [|done]. destruct (required_field (st_issuer s)) as [i|]; [|done].
  destruct (required_field (st_oidc_discovery_url s)) as [u|]; [|done]. cbv zeta. rewrite check_ok. intros [Hv _] Hh.
  unfold entra_validate in Hv. rewrite !guard_ok in Hv. destruct Hv as (H1 & H2 & _).
  eexists. match goal with |- (check? ?v in _) = _ ∧ _ => assert (v = Ok tt) as Hok end.
  { unfold entra_validate. cbn in H1, H2 |- *. by rewrite H1, H2. }
  rewrite Hok. done.
Qed.

(** Settings saved through any sequence of accepted patches can always be
    installed, given a valid fallback header name in the environment: they
    override the environment, a JWT verifier runs exactly when Entra is
    enabled and unverified bearers are not, and identities signed by Apigee
    are trusted exactly when that is enabled, never beside unverified
    bearers. *)
Theorem saved_settings_install ok ps s env :
  apply_patches ok StoredGatewayAuthSettings_default ps = Ok s →
  validate_relayna_key_header_name ok (env_relayna_key_header env) = Ok tt →
  ∃ eff st, from_sources ok (Some s) env = Ok eff ∧ runtime_state_new ok (runtime_config eff) = Ok st ∧
    ef_source eff = Persisted ∧
    ar_relayna_key_header (rt_config st) = default (env_relayna_key_header env) (st_relayna_key_header s) ∧
    is_some (rt_entra_verifier st) = st_entra_enabled s && negb (st_unverified_bearer_enabled s) ∧
    is_some (ar_apigee_trusted_header (rt_config st)) = st_apigee_trusted_header_enabled s ∧
    st_unverified_bearer_enabled s && entra_enabled st = false.
Proof.
  intros Hs Henv. assert (saved ok s) as [Hv Hh] by (eapply apply_patches_saved; [|done]; by split).
  set (header := default (env_relayna_key_header env) (st_relayna_key_header s)).
  assert (Hnorm : default (env_relayna_key_header env) (normalized_non_empty (st_relayna_key_header s)) = header).
  { unfold header. destruct (st_relayna_key_header s) as [h|]; [|done]. by rewrite (proj1 (Hh h eq_refl)). }
  assert (Hok : validate_relayna_key_header_name ok header = Ok tt).
  { unfold header. destruct (st_relayna_key_header s) as [h|]; [by apply Hh|done]. }
  pose proof Hv as Hv'. unfold stored_validate in Hv. rewrite !check_ok in Hv. destruct Hv as (Hmode & He & Ha & _).
  unfold from_sources. rewrite Hv'. cbv zeta. rewrite Hnorm.
  assert (∃ e, (if st_entra_enabled s then let? c := entra_config ok s header in Ok (Some c) else Ok None) = Ok e ∧
    is_some e = st_entra_enabled s ∧ ∀ c, e = Some c → entra_validate ok c = Ok tt) as (e & -> & Hes & Hev).
  { destruct (st_entra_enabled s); [|by exists None].
    destruct (entra_config ok s (default _ _)) as [c|] eqn:Ec; [|done].
    destruct (entra_config_header _ _ _ _ _ Ec Hok) as (c' & -> & Hc'). exists (Some c'). split_and!; [done..|congruence]. }
  assert (∃ a, (if st_apigee_trusted_header_enabled s then let? c := apigee_config s in Ok (Some c) else Ok None) = Ok a ∧
    is_some a = st_apigee_trusted_header_enabled s) as (a & -> & Has).
  { destruct (st_apigee_trusted_header_enabled s); [|by exists None].
    destruct (apigee_config s) as [c|]; [by exists (Some c)|done]. }
  set (eff := {| ef_source := Persisted; ef_unverified_bearer_enabled := st_unverified_bearer_enabled s;
                 ef_relayna_key_header := header; ef_entra_auth := e; ef_apigee_trusted_header := a;
                 ef_updated_at := st_updated_at s |}).
  exists eff, {| rt_config := runtime_config eff;
                 rt_entra_verifier := if st_unverified_bearer_enabled s then None else e |}.
  split; [done|]. unfold runtime_state_new, eff.
  cbn [runtime_config ar_relayna_key_header ar_unverified_bearer_enabled ar_apigee_trusted_header ar_entra_auth
       ef_unverified_bearer_enabled ef_relayna_key_header ef_entra_auth ef_apigee_trusted_header].
  rewrite Hok, Has, Hmode. split_and!; try done.
  - destruct e as [c|]; [|by destruct (st_unverified_bearer_enabled s)].
    destruct (st_unverified_bearer_enabled s); cbn [negb]; [done|]. by rewrite (Hev c eq_refl).
  - cbn. rewrite <- Hes. by destruct (st_unverified_bearer_enabled s), e.
  - unfold entra_enabled. cbn. rewrite Has. unfold validate_unverified_bearer_mode in Hmode.
    by destruct (st_unverified_bearer_enabled s), (st_apigee_trusted_header_enabled s).
Qed.

(** A concrete sequence of patches. *)
Definition no_change : GatewayAuthSettingsPatchRequest :=
  {| ap_unverified_bearer_enabled := None; ap_relayna_key_header := None; ap_entra_enabled := None;
     ap_tenant_id := Unchanged; ap_audience := Unchanged; ap_issuer := Unchanged; ap_oidc_discovery_url := Unchanged;
     ap_required_scope := Unchanged; ap_required_role := Unchanged; ap_allowed_groups := None;
     ap_accepted_algorithms := None; ap_jwks_cache_ttl_seconds := None; ap_clock_skew_seconds := None;
     ap_apigee_trusted_header_enabled := None; ap_apigee_trusted_header_secret := Unchanged |}.
Definition enable_entra : GatewayAuthSettingsPatchRequest :=
  {| ap_unverified_bearer_enabled := None; ap_relayna_key_header := Some " x-key "; ap_entra_enabled := Some true;
     ap_tenant_id := SetTo "tenant"; ap_audience := SetTo "api://gateway"; ap_issuer := SetTo "https://issuer";
     ap_oidc_discovery_url := SetTo "https://oidc"; ap_required_scope := Unchanged; ap_required_role := Unchanged;
     ap_allowed_groups := None; ap_accepted_algorithms := None; ap_jwks_cache_ttl_seconds := None;
     ap_clock_skew_seconds := Some i64_max; ap_apigee_trusted_header_enabled := None;
     ap_apigee_trusted_header_secret := Unchanged |}.

Lemma saved_settings_install_witness :
  ∃ s eff st, apply_patches (λ _, true) StoredGatewayAuthSettings_default [enable_entra; no_change] = Ok s ∧
    from_sources (λ _, true) (Some s) GatewayAuthEnv_default = Ok eff ∧
    runtime_state_new (λ _, true) (runtime_config eff) = Ok st ∧ is_some (rt_entra_verifier st) = true.
Proof.
  destruct (apply_patches (λ _, true) StoredGatewayAuthSettings_default [enable_entra; no_change]) as [s|] eqn:E;
    [|vm_compute in E; discriminate E].
  destruct (saved_settings_install (λ _, true) _ s GatewayAuthEnv_default E eq_refl) as (eff & st & H1 & H2 & _ & _ & H3 & _).
  exists s, eff, st. split; [reflexivity|]. split; [exact H1|]. split; [exact H2|]. rewrite H3.
  vm_compute in E. injection E as <-. reflexivity.
Defined.

(** The clock skew is stored without a bound: with a skew beyond the range of
    durations every token of the configured issuer, tenant and audience makes
    the verification panic. *)
Theorem unbounded_skew_panics :
  ∃ s c, apply_patches (λ _, true) StoredGatewayAuthSettings_default [enable_entra] = Ok s ∧
    entra_config (λ _, true) s "x-key" = Ok c ∧
    ∀ dmin dmax claims now, iss claims = ec_issuer c → tid claims = ec_tenant_id c →
      audience_contains (aud claims) (ec_audience c) = true →
      validate_claims_for_endpoint dmin dmax c claims now None = None.
Proof.
  eexists _, _. split; [vm_compute; reflexivity|]. split; [vm_compute; reflexivity|].
  intros dmin dmax claims now Hi Ht Ha. unfold validate_claims_for_endpoint. rewrite Hi, Ht, !String.eqb_refl, Ha.
  reflexivity.
Qed.
