(* ===== verification/Stages.v ===== *)
(** * Stages of a request

    The effect of the proxy's callbacks: a stage reads and writes a state and
    either continues with a value or stops, keeping what it has written.  With
    it a calculus of postconditions, one for stages that continue and one for
    stages that stop. *)

From S2P Require Import Prelude.

Definition stage (S E A : Type) : Type := S → S * result E A.

Section stages.
Context {S E : Type}.
Definition sret {A} (a : A) : stage S E A := λ s, (s, Ok a).
Definition sbind {A B} (m : stage S E A) (k : A → stage S E B) : stage S E B :=
  λ s, match m s with (s, Ok a) => k a s | (s, Err e) => (s, Err e) end.
Definition throw {A} (e : E) : stage S E A := λ s, (s, Err e).
Definition modify (f : S → S) : stage S E unit := λ s, (f s, Ok tt).
Definition get {A} (f : S → A) : stage S E A := λ s, (s, Ok (f s)).
(** The result of a pure computation. *)
Definition lift_with {E' A} (f : E' → E) (r : result E' A) : stage S E A :=
  λ s, match r with Ok a => (s, Ok a) | Err e => (s, Err (f e)) end.
(** A stage whose outcome the caller inspects. *)
Definition attempt {A} (m : stage S E A) : stage S E (result E A) := λ s, let '(s, r) := m s in (s, Ok r).
End stages.

Declare Scope stage_scope.
Delimit Scope stage_scope with stage.
Notation "'do' x '<-' m ';' k" := (sbind m (λ x, k%stage)) (at level 10, x name, m at level 100, k at level 200) : stage_scope.
Notation "m ';;' k" := (sbind m (λ _, k%stage)) (at level 100, k at level 200, right associativity) : stage_scope.

(** ** Postconditions *)

(** [Q] of the value and state of a stage that continues, [X] of the reason
    and state of one that stops. *)
Definition post {S E A} (m : stage S E A) (Q : A → S → Prop) (X : E → S → Prop) (s : S) : Prop :=
  match m s with (s', Ok a) => Q a s' | (s', Err e) => X e s' end.

Section posts.
Context {S E : Type}.
Implicit Types (X : E → S → Prop) (s : S).

Lemma post_ret {A} (a : A) (Q : A → S → Prop) X s : post (sret a) Q X s ↔ Q a s.
Proof. done. Qed.
Lemma post_bind {A B} (m : stage S E A) (k : A → stage S E B) Q X s :
  post (sbind m k) Q X s ↔ post m (λ a, post (k a) Q X) X s.
Proof. unfold post, sbind. by destruct (m s) as [s' [a|e]]. Qed.
Lemma post_throw {A} e (Q : A → S → Prop) X s : post (throw e) Q X s ↔ X e s.
Proof. done. Qed.
Lemma post_modify f Q X s : post (modify f) Q X s ↔ Q tt (f s).
Proof. done. Qed.
Lemma post_get {A} (f : S → A) Q X s : post (get f) Q X s ↔ Q (f s) s.
Proof. done. Qed.
Lemma post_lift {E' A} (f : E' → E) (r : result E' A) Q X s :
  post (lift_with f r) Q X s ↔ (∀ a, r = Ok a → Q a s) ∧ (∀ e, r = Err e → X (f e) s).
Proof. unfold post, lift_with. destruct r; naive_solver. Qed.
Lemma post_attempt {A} (m : stage S E A) Q X s :
  post (attempt m) Q X s ↔ post m (λ a, Q (Ok a)) (λ e, Q (Err e)) s.
Proof. unfold post, attempt. by destruct (m s) as [s' [a|e]]. Qed.
Lemma post_if {A} (b : bool) (m1 m2 : stage S E A) Q X s :
  post (if b then m1 else m2) Q X s ↔ (b = true → post m1 Q X s) ∧ (b = false → post m2 Q X s).
Proof. destruct b; naive_solver. Qed.
Lemma post_mono {A} (m : stage S E A) (Q Q' : A → S → Prop) X X' s :
  post m Q X s → (∀ a s', Q a s' → Q' a s') → (∀ e s', X e s' → X' e s') → post m Q' X' s.
Proof. unfold post. destruct (m s) as [s' [a|e]]; auto. Qed.
Lemma post_run {A} (m : stage S E A) Q X s s' r :
  post m Q X s → m s = (s', r) → match r with Ok a => Q a s' | Err e => X e s' end.
Proof. unfold post. intros H Hm. by rewrite Hm in H. Qed.
End posts.
Create Rewrite HintDb post.
#[export] Hint Rewrite @post_ret @post_bind @post_throw @post_modify @post_get @post_attempt : post.
Ltac post := repeat (cbv beta; progress autorewrite with post).

(** ** What a stage preserves *)

(** From [P] the stage continues with [P] or stops with [X]. *)
Definition stays {S E A} (P X : S → Prop) (m : stage S E A) : Prop := ∀ s, P s → post m (λ _, P) (λ _, X) s.
Abbreviation preserves P := (stays P P).

Section stays.
Context {S E : Type} (P X : S → Prop).
Lemma stays_ret {A} (a : A) : stays (E := E) P X (sret a).
Proof. by intros s. Qed.
Lemma stays_bind {A B} (m : stage S E A) (k : A → stage S E B) :
  stays P X m → (∀ a, stays P X (k a)) → stays P X (sbind m k).
Proof. intros Hm Hk s Hs. rewrite post_bind. eapply post_mono; [by apply Hm| |done]. intros a s' Hs'. by apply Hk. Qed.
Lemma stays_throw {A} (e : E) : (∀ s, P s → X s) → stays (A := A) P X (throw e).
Proof. intros HX s Hs. by apply HX. Qed.
Lemma stays_modify f : (∀ s, P s → P (f s)) → stays (E := E) P X (modify f).
Proof. intros Hf s. apply Hf. Qed.
Lemma stays_get {A} (f : S → A) : stays (E := E) P X (get f).
Proof. by intros s. Qed.
Lemma stays_lift {E' A} (f : E' → E) (r : result E' A) : (∀ s, P s → X s) → stays P X (lift_with f r).
Proof. intros HX s Hs. rewrite post_lift. auto. Qed.
Lemma stays_attempt {A} (m : stage S E A) : preserves P m → stays P X (attempt m).
Proof. intros Hm s Hs. rewrite post_attempt. by apply Hm. Qed.
Lemma stays_stop {A} (m : stage S E A) (X' : S → Prop) : stays P X' m → (∀ s, X' s → X s) → stays P X m.
Proof. intros Hm HX s Hs. eapply post_mono; [by apply Hm|done|]. intros e s'. apply HX. Qed.
Lemma stays_then {A B} (m : stage S E A) (k : A → stage S E B) (Q : B → S → Prop) s :
  stays P X m → P s → (∀ a s', P s' → post (k a) Q (λ _, X) s') → post (sbind m k) Q (λ _, X) s.
Proof. intros Hm Hs Hk. rewrite post_bind. eapply post_mono; [by apply Hm|exact Hk|done]. Qed.
End stays.
Create HintDb stays.
#[export] Hint Resolve stays_ret stays_get : stays.
#[export] Hint Extern 0 (stays _ _ (throw _)) => (by apply stays_throw) : stays.
#[export] Hint Extern 0 (stays _ _ (lift_with _ _)) => (by apply stays_lift) : stays.
#[export] Hint Extern 0 (stays _ _ (modify _)) => (by apply stays_modify) : stays.
(** Follows the structure of a stage down to its assignments. *)
Ltac stays :=
  repeat (cbv beta zeta; match goal with
    | |- stays _ _ (sbind _ _) => apply stays_bind; [|intros ?]
    | |- stays _ _ (attempt _) => apply stays_attempt
    | |- stays _ _ (match ?x with _ => _ end) => destruct x
    | |- stays _ _ _ => solve [auto with stays]
    end).
