(* ===== verification/RequestFilter.v ===== *)
(** * Admission of a request to the proxy

    Models [request_filter] of [crates/gateway-proxy/src/pingora_plane.rs],
    with the helpers it calls there and in
    [crates/gateway-proxy/src/accessa_runtime.rs]: which route a request
    takes, who is calling, and which upstream it may use.  A stage either
    continues with a value, answers the client with an error, aborts the
    connection, or leaves the filter with the request admitted; the context
    keeps what was written so far.

    Every read of a setting is a separate question to the store (settings may
    change between two reads), so the lookups are indexed by the place of the
    read.  The outcome of verifying a JWT is a parameter ([Entra]), like the
    observations of key authentication ([Auth]). *)

From S2P Require Import Prelude Errors Routing RouteSettings Json GuardrailPolicy Policies Guardrails BodyAdmission BodyRewrite AuthAdmission EndpointAccess Foundry ServiceTypes ServicePricing ResponseCost UsageCost RequestBody Auth ProviderConfigs Headers Upstream ProxyContext UpstreamRequest Entra AuthSettings Stages.

(** ** Stages *)

Inductive stop : Type :=
| Respond (e : GatewayError)
| AbortConnection
| Leave
| Delegate.

Abbreviation stage := (Stages.stage PingoraContext stop).
Definition respond {A} (e : GatewayError) : stage A := throw (Respond e).
Definition leave {A} : stage A := throw Leave.
(** An error of a lookup is answered to the client. *)
Definition lift {A} (r : GatewayResult A) : stage A := lift_with Respond r.
Definition require (b : bool) (e : GatewayError) : stage unit := if b then sret tt else respond e.

#[local] Open Scope stage_scope.

(** ** Lookups *)

(** The places of [request_filter] that read settings. *)
Inductive reading : Type :=
| AtRouting | AtMode | AtLimits | AtAlias | AtBearer | AtIngress | AtDirect | AtConfiguration | AtExposure.

Record Lookups := {
  service_for_route : string → string → GatewayResult (option ServiceRegistration);
  passthrough_settings : reading → GatewayResult LiteLlmPassthroughSettings;
  route_identity : Route → GatewayResult EndpointAccess;
  service_registration : reading → string → GatewayResult (option ServiceRegistration);
  openai_route_mode : reading → Route → GatewayResult OpenAiRouteMode;
  anthropic_route_mode : reading → Route → GatewayResult OpenAiRouteMode;
  openai_route_limits : Route → GatewayResult LiteLlmRouteLimits;
  anthropic_route_limits : Route → GatewayResult LiteLlmRouteLimits;
  openai_route_enabled : Route → GatewayResult bool;
  anthropic_route_enabled : Route → GatewayResult bool;
  foundry_config : reading → string → GatewayResult (option FoundryRuntimeConfig);
  active_litellm_config : GatewayResult (option ProviderRuntimeConfig);
  credential_mapping : string → option string → GatewayResult (option LiteLlmCredentialMappingRuntime);
  list_guardrail_definitions : GatewayResult (list GuardrailDefinition)
}.

Definition route_mode (l : Lookups) (at_ : reading) (r : Route) : GatewayResult OpenAiRouteMode :=
  if is_anthropic_route r then anthropic_route_mode l at_ r else openai_route_mode l at_ r.
Definition route_enabled (l : Lookups) (r : Route) : GatewayResult bool :=
  if is_anthropic_route r then anthropic_route_enabled l r else openai_route_enabled l r.
Definition ensure_litellm_canonical_route_enabled (l : Lookups) (r : Route) : GatewayResult unit :=
  let? on := route_enabled l r in
  if (on : bool) then Ok tt else Err DisabledRoute.

(** ** Helpers *)

Definition ADMISSION_PREFIX : string := "/internal/accessa/admissions/".

(** [u64::try_from] and [usize::try_from] on an [i64]. *)
Definition unsigned (n : Z) : option Z := if 0 <=? n then Some n else None.
Definition set_limits (timeout body response : Z) (m : RouteMatch) : RouteMatch :=
  {| rm_route := rm_route m; rm_backend := rm_backend m; rm_provider := rm_provider m;
     rm_service_name := rm_service_name m; rm_timeout_ms := timeout; rm_max_body_bytes := body;
     rm_max_response_body_bytes := response; rm_estimated_cost_usd := rm_estimated_cost_usd m |}.

Definition apply_litellm_limits_to_match (m : RouteMatch) (l : LiteLlmRouteLimits) : GatewayResult RouteMatch :=
  let? timeout := ok_or (unsigned (limits_timeout_ms l)) InvalidConfiguration in
  let? body := ok_or (unsigned (limits_max_request_body_bytes l)) InvalidConfiguration in
  let? response := ok_or (unsigned (limits_max_response_body_bytes l)) InvalidConfiguration in
  Ok (set_limits timeout body response m).

Definition apply_litellm_route_limits (l : Lookups) (m : RouteMatch) : GatewayResult RouteMatch :=
  let? limits := if is_anthropic_route (rm_route m) then anthropic_route_limits l (rm_route m)
                 else openai_route_limits l (rm_route m) in
  apply_litellm_limits_to_match m limits.

Definition apply_litellm_passthrough_limits (l : Lookups) (m : RouteMatch) : GatewayResult RouteMatch :=
  let? s := passthrough_settings l AtLimits in
  apply_litellm_limits_to_match m
    {| limits_timeout_ms := ps_timeout_ms s; limits_max_request_body_bytes := ps_max_request_body_bytes s;
       limits_max_response_body_bytes := ps_max_response_body_bytes s |}.

Definition apply_service_registration_runtime_limits (m : RouteMatch) (timeout_ms max_body_bytes : Z) :
    stage RouteMatch :=
  match unsigned timeout_ms, unsigned max_body_bytes with
  | Some timeout, Some body => sret (set_limits timeout body usize_max m)
  | _, _ => λ c, (c, Err AbortConnection)
  end.

Definition should_check_service_routes (path : string) : bool :=
  negb (starts_with path "/v1/") && negb (starts_with path "/providers/openai/").

Definition service_route_match_for_persisted_registration (method path service_name : string) : RouteMatch :=
  if String.eqb method POST && String.eqb path "/embeddings" then route_match_service Embeddings service_name
  else
    match resolve_match method path with
    | Ok matched =>
        if bool_decide (rm_provider matched = InternalService) then route_match_service (rm_route matched) service_name
        else route_match_service ServiceWildcard service_name
    | Err _ => route_match_service ServiceWildcard service_name
    end.

Definition governed_batch_lifecycle_denied (method path : string) : bool :=
  (String.eqb path "/v1/messages/batches" && negb (String.eqb method POST))
  || starts_with path "/v1/messages/batches/".

Definition sensitive_litellm_passthrough_authorized (exposure : option LiteLlmSensitiveRouteExposure)
    (identity : option EntraIdentityContext) : bool :=
  match exposure with
  | Some Disabled => false
  | Some OperatorOnly => is_some identity
  | Some ExplicitlyExposed | Some TrustedIngress | None => true
  end.

Definition passthrough_match : RouteMatch :=
  {| rm_route := LiteLlmPassthrough; rm_backend := BackendLiteLlm; rm_provider := LiteLlm; rm_service_name := None;
     rm_timeout_ms := 120000; rm_max_body_bytes := 1048576; rm_max_response_body_bytes := 1048576;
     rm_estimated_cost_usd := None |}.

(** [constant_time_eq] of the proxy: the lengths are compared too, and the
    shorter text is padded with zeros. *)
Definition byte_or_zero (s : string) (i : nat) : Z := match String.get i s with Some c => byte_val c | None => 0 end.
Definition constant_time_eq (actual expected : string) : bool :=
  foldl (λ diff i, Z.lor diff (Z.lxor (byte_or_zero actual i) (byte_or_zero expected i)))
    (Z.lxor (len actual) (len expected)) (seq 0 (Nat.max (String.length actual) (String.length expected))) =? 0.

(** [str::parse::<usize>]. *)
Definition parse_usize (s : string) : option Z :=
  let digits := default s (strip_prefix "+" s) in
  if is_empty digits || negb (all_bytes is_ascii_digit digits) then None
  else
    let n := digits_value digits 0 in
    if n <=? usize_max then Some n else None.

(** ** The filter *)

Section filter.
Context {H : Type} `{HeaderMap H}.
(** Of the libraries. *)
Variable header_name_ok : string → bool.
Variable url_parse : string → option Url.
Variable value_to_string : Value → string.
Variable sha256_hex : string → string.
Variable to_lowercase : string → string.
Variable has_control : string → bool.
Variable base64_decode : string → option string.
Variable key_hmac : string → string → option VerificationCache.Proof_.
Variable key_secret : option string.
Variable hmac_base64url : string → string → string.
Variable base64url_decode : string → option string.
Variable from_slice_identity : string → option EntraIdentityContext.
(** Of the process and of this request. *)
Variable l : Lookups.
Variable ups : Upstreams.
Variable worker_token : option string.
Variable auth : GatewayAuthRuntimeState.
Variable env : Auth.Env.
(** The clock, for identities and for the key. *)
Variables now key_now : Z.
Variable verify_jwt : string → option EndpointEntraPolicy → GatewayResult EntraIdentityContext.
Variable r : RequestHeader H.

#[local] Abbreviation h := (rq_headers r).
#[local] Abbreviation path := (uri_path (rq_uri r)).
#[local] Abbreviation method := (rq_method r).
#[local] Abbreviation key_header := (ar_relayna_key_header (rt_config auth)).

Definition trusted_worker : bool :=
  match worker_token with
  | None => false
  | Some expected => is_some_and (λ actual, constant_time_eq actual expected) (header_value h "x-relayna-worker-token")
  end.

(** *** Upstreams *)

Definition service_upstream_from_registration (s : ServiceRegistration) : GatewayResult PingoraUpstreamConfig :=
  check? ensure_routable url_parse s in
  from_base_url url_parse (default "" (upstream_base_url s)) (default "" (credential_secret s)).

Definition foundry_upstream (at_ : reading) (s : ServiceRegistration) (b : FoundryBinding) :
    GatewayResult (FoundryRuntimeConfig * PingoraUpstreamConfig) :=
  check? ensure_routable url_parse s in
  check? validate_path method path (uri_query (rq_uri r)) (service_route_pattern s) in
  let? found := foundry_config l at_ (provider_id b) in
  let? config := ok_or found InvalidFoundryConfiguration in
  check? identity_validate url_parse (frc_identity config) (frc_base_url config) (is_some (frc_secret config)) in
  let? upstream := from_base_url url_parse (frc_base_url config) "" in
  Ok (config, upstream).

Definition service_upstream (at_ : reading) (s : ServiceRegistration) : stage PingoraUpstreamConfig :=
  match foundry s with
  | Some b =>
      do found <- lift (foundry_upstream at_ s b);
      modify (set_foundry (b, found.1)) ;; sret found.2
  | None => lift (service_upstream_from_registration s)
  end.

(** What is taken over from a registration. *)
Definition use_registration (s : ServiceRegistration) (upstream : PingoraUpstreamConfig) (m : RouteMatch) :
    stage RouteMatch :=
  do m <- apply_service_registration_runtime_limits m (timeout_ms s) (max_body_bytes s);
  modify (λ c, set_pricing (configure_service_pricing_context value_to_string sha256_hex (px_pricing c) s method path) c) ;;
  modify (set_service_route_pattern (service_route_pattern s)) ;;
  modify (set_service_upstream upstream) ;;
  sret (set_match_cost (estimated_cost_usd s) m).

Definition configure_litellm_upstream_for_credential (key : option AuthenticatedKey) (passthrough : option string) :
    stage unit :=
  do config <- lift (active_litellm_config l);
  do mapped <- lift (match key with
                     | Some k => let? m := credential_mapping l (key_id k) (Auth.project_id k) in Ok (mapping_credential <$> m)
                     | None => Ok None
                     end);
  let selected :=
    match passthrough with
    | Some credential => credential
    | None =>
        match mapped with
        | Some credential => credential
        | None => default (service_key (up_litellm ups)) (config ≫= lc_credential)
        end
    end in
  require (negb (is_empty (trim selected))) InvalidConfiguration ;;
  match config with
  | Some config =>
      do u <- lift (let? u := from_base_url url_parse (lc_base_url config) selected in
                    with_litellm_credential_header (lc_header_mode config) (lc_header_name config) (lc_header_format config) u);
      modify (set_litellm_upstream u)
  | None =>
      if is_some mapped || is_some passthrough
      then modify (set_litellm_upstream (set_service_key selected (up_litellm ups)))
      else sret tt
  end.

(** *** Routing *)

Definition is_bearer_mode (s : LiteLlmPassthroughSettings) : bool :=
  match ps_authentication_mode s with LitellmBearer => true | Gateway => false end.

Definition resolve_unregistered (upgrade : bool) : stage RouteMatch :=
  let route_method := if upgrade && String.eqb method GET && (String.eqb path "/responses" || String.eqb path "/v1/responses")
                      then POST else method in
  match resolve_match route_method path with
  | Ok matched => sret matched
  | Err error =>
      do s <- lift (passthrough_settings l AtRouting);
      if denies_path s path then respond PolicyDenied
      else if allows s method path || trusted_ingress_passthrough_path_allowed s method path
      then modify set_passthrough ;; sret passthrough_match
      else respond (if is_bearer_mode s then PolicyDenied else error)
  end.

Definition resolve_route (upgrade : bool) : stage RouteMatch :=
  do persisted <- (if should_check_service_routes path then lift (service_for_route l method path) else sret None);
  match persisted with
  | Some s =>
      modify (set_access (access s)) ;;
      do u <- service_upstream AtRouting s;
      use_registration s u (service_route_match_for_persisted_registration method path (name s))
  | None => resolve_unregistered upgrade
  end.

(** The identity policy of the route, which a service alias cannot escape. *)
Definition resolve_access (m : RouteMatch) : stage unit :=
  do upstream <- get px_service_upstream;
  if is_some upstream then sret tt
  else
    do a <- lift (route_identity l (rm_route m));
    modify (set_access a) ;;
    match rm_service_name m with
    | None => sret tt
    | Some service =>
        do found <- lift (service_registration l AtAlias service);
        match found with
        | Some s => modify (set_access (access s)) ;; require (is_none (accessa (access s))) UnsupportedRoute
        | None => sret tt
        end
    end.

Definition resolve_limits (m : RouteMatch) : stage RouteMatch :=
  if is_litellm_canonical_route (rm_route m) then
    do mode <- lift (route_mode l AtMode (rm_route m));
    (match mode with
     | DirectLiteLlmPassthrough =>
         do s <- lift (passthrough_settings l AtMode);
         require (negb (denies_path s path)) PolicyDenied
     | ManagedByGateway => sret tt
     end) ;;
    lift (apply_litellm_route_limits l m)
  else if bool_decide (rm_route m = LiteLlmPassthrough) then lift (apply_litellm_passthrough_limits l m)
  else sret m.

(** WebSocket upgrades are only for channels and for configured endpoints. *)
Definition socket_admitted (m : RouteMatch) (c : PingoraContext) : bool :=
  let accessa_socket := is_some_and (λ b, bool_decide (run_path b = Some path)) (accessa (px_access c)) in
  let general := is_some (websocket (px_access c)) && is_none (accessa (px_access c)) && is_none (px_foundry c)
                 && ((bool_decide (rm_provider m = InternalService) && is_some (rm_service_name m))
                     || bool_decide (rm_route m = LiteLlmPassthrough) || bool_decide (rm_route m = Responses)) in
  (accessa_socket || general) && valid_handshake base64_decode r
  && negb (accessa_socket && contains_key "sec-websocket-extensions" h).

Definition check_socket (upgrade : bool) (m : RouteMatch) : stage unit :=
  if upgrade then
    do ok <- get (socket_admitted m);
    require ok UnsupportedRoute ;; modify set_socket
  else sret tt.

(** Everything the context learns before authentication. *)
Definition prepare_request (m : RouteMatch) : stage RouteMatch :=
  do a <- get px_access;
  let m := if is_some (accessa a) then set_match_cost None m else m in
  modify (λ c, set_body
    {| guardrail_error := guardrail_error (px_body c); body_bytes_seen := body_bytes_seen (px_body c);
       body_prefix := body_prefix (px_body c);
       request_rewriter := Some (with_expected_length (header_value h "content-length" ≫= parse_usize)
                                   (rewriter_new (rm_max_body_bytes m)));
       request_body_lease := request_body_lease (px_body c) |} c) ;;
  modify (λ c, set_response (set_response_rewriter (Some (rewriter_new (rm_max_response_body_bytes m))) (px_response c)) c) ;;
  let traceparent := header_value h "traceparent" ≫= λ v, if is_valid_traceparent v then Some v else None in
  modify (set_traceparent traceparent) ;;
  modify (set_trace_id (traceparent ≫= trace_id_from_traceparent)) ;;
  modify (set_public_origin (request_public_origin h)) ;;
  (if trusted_worker
   then modify (λ c, set_run_id (header_value h "x-relayna-run-id") (set_task_id (header_value h "x-relayna-task-id") c))
   else sret tt) ;;
  modify (set_key_header key_header) ;;
  sret m.

(** *** Identities *)

Definition apigee_headers_present : bool :=
  is_some (header_value h "x-apigee-entra-identity") || is_some (header_value h "x-apigee-entra-signature").
Definition verify_apigee (config : ApigeeTrustedHeaderConfig) : GatewayResult EntraIdentityContext :=
  verify_apigee_trusted_identity hmac_base64url base64url_decode from_slice_identity
    (header_value h "x-apigee-entra-identity") (header_value h "x-apigee-entra-signature") config.

(** The gateway-wide policy. *)
Definition verify_entra_request : GatewayResult EntraIdentityContext :=
  match (if apigee_headers_present then ar_apigee_trusted_header (rt_config auth) else None) with
  | Some config => verify_apigee config
  | None =>
      if is_none (rt_entra_verifier auth) then Err MissingEntraAuthorization
      else
        let? authorization := ok_or (header_value h "authorization") MissingEntraAuthorization in
        let? token := ok_or (strip_prefix "Bearer " authorization) MalformedEntraAuthorization in
        verify_jwt (trim token) None
  end.

(** The policy of one endpoint, which replaces the gateway's requirements. *)
Definition verify_endpoint_identity (policy : EndpointEntraPolicy) : GatewayResult EntraIdentityContext :=
  if apigee_headers_present then
    if negb (allow_apigee policy) then Err UntrustedApigeeIdentity
    else
      let? config := ok_or (ar_apigee_trusted_header (rt_config auth)) UntrustedApigeeIdentity in
      let? identity := verify_apigee {| ac_secret := ac_secret config; ac_required_scope := None;
                                        ac_required_role := None; ac_allowed_groups := [] |} in
      if is_none_or (λ c, negb (String.eqb (ec_tenant_id c) (tenant_id identity))) (ar_entra_auth (rt_config auth))
      then Err InvalidEntraIssuer
      else check? authorize policy identity (seconds_of now) in Ok identity
  else
    let? authorization := ok_or (header_value h "authorization") MissingEntraAuthorization in
    let? token := ok_or (strip_prefix "Bearer " authorization) MalformedEntraAuthorization in
    if is_none (rt_entra_verifier auth) then Err InvalidConfiguration
    else verify_jwt (trim token) (Some policy).

Definition authenticate_raw_key (raw : option string) : GatewayResult AuthenticatedKey :=
  Auth.authenticate_raw_key key_hmac key_secret env raw key_now.
Definition authenticate_authorization (authorization : option string) : GatewayResult AuthenticatedKey :=
  Auth.authenticate_authorization key_hmac key_secret env authorization key_now.

(** *** Callers with their own upstream credential *)

Definition has_other_credentials : bool :=
  (1 <? header_count "authorization" h) || contains_key key_header h || contains_key "x-apigee-entra-identity" h
  || contains_key "x-apigee-entra-signature" h.

(** The credential of the caller becomes the upstream's. *)
Definition use_caller_credential (credential : GatewayResult string) : stage unit :=
  do credential <- lift credential;
  configure_litellm_upstream_for_credential None (Some credential).

(** Passthrough in bearer mode: the caller is authenticated by the upstream. *)
Definition bearer_passthrough (m : RouteMatch) : stage unit :=
  do c <- get id;
  if bool_decide (rm_route m = LiteLlmPassthrough) && px_passthrough c then
    do s <- lift (passthrough_settings l AtBearer);
    if is_bearer_mode s then
      require (allows s method path && negb (bool_decide (sensitive_exposure_for_path s path = Some OperatorOnly)))
        PolicyDenied ;;
      require (is_none (authentication_profiles (px_access c)) && is_none (entra (px_access c))
               && (skip_entra (px_access c)
                   || negb (entra_enabled auth || ar_unverified_bearer_enabled (rt_config auth))))
        LiteLlmAuthenticationConflict ;;
      use_caller_credential
        (if has_other_credentials then Err MalformedAuthorization
         else litellm_bearer_credential (header_value h "authorization")) ;;
      modify set_direct_passthrough ;; modify (set_match m) ;; leave
    else sret tt
  else sret tt.

(** Profiles: the key is authenticated first and selects the policy. *)
Definition authenticate_profile : stage (option AuthenticatedKey * option EndpointEntraPolicy) :=
  do a <- get px_access;
  match authentication_profiles a with
  | None => sret (None, entra a)
  | Some profiles =>
      lift (profiles_validate to_lowercase has_control profiles (is_some (accessa a))) ;;
      let dedicated := header_value h key_header in
      let authorization := header_value h "authorization" in
      do key <- lift (if (1 <? header_count "authorization" h) || (1 <? header_count key_header h)
                         || (is_some dedicated && authorization_has_relayna_key authorization)
                      then Err MalformedAuthorization
                      else if is_some dedicated then authenticate_raw_key dedicated
                      else authenticate_authorization authorization);
      modify (set_key key) ;;
      do profile <- lift (select profiles (key_id key));
      require (is_some (profile_entra profile)
               || negb ((is_some dedicated && is_some authorization) || apigee_headers_present)) MalformedAuthorization ;;
      sret (Some key, profile_entra profile)
  end.

Definition authenticate_endpoint (policy : option EndpointEntraPolicy) : stage unit :=
  (match policy with
   | None => sret tt
   | Some p =>
       do identity <- lift (verify_endpoint_identity p);
       modify (set_identity identity)
   end) ;;
  do c <- get id;
  do _token <- lift (forwarded_user_token header_name_ok h (px_access c) (px_entra_identity c) (px_relayna_key_header c));
  sret tt.

(** Paths that a trusted ingress protects. *)
Definition trusted_ingress (m : RouteMatch) : stage unit :=
  do c <- get id;
  if is_none (authentication_profiles (px_access c)) && negb (px_socket c) && px_passthrough c
     && bool_decide (rm_route m = LiteLlmPassthrough) then
    do s <- lift (passthrough_settings l AtIngress);
    if trusted_ingress_passthrough_path_allowed s method path then
      configure_litellm_upstream_for_credential None None ;;
      modify set_trusted_ingress ;; modify (set_match m) ;; leave
    else sret tt
  else sret tt.

(** Canonical routes in direct mode, for callers without a Relayna key. *)
Definition direct_passthrough (m : RouteMatch) : stage unit :=
  if is_litellm_canonical_route (rm_route m) then
    do mode <- lift (route_mode l AtDirect (rm_route m));
    do c <- get id;
    let authorization := header_value h "authorization" in
    if bool_decide (mode = DirectLiteLlmPassthrough)
       && is_none (authentication_profiles (px_access c)) && is_none (entra (px_access c))
       && negb (authorization_has_relayna_key authorization)
       && (negb (skip_entra (px_access c)) || is_none (header_value h key_header)) then
      lift (ensure_litellm_canonical_route_enabled l (rm_route m)) ;;
      use_caller_credential
        (if px_socket c && has_other_credentials then Err MalformedAuthorization
         else litellm_bearer_credential authorization) ;;
      modify set_passthrough ;; modify set_direct_passthrough ;; modify (set_match m) ;; leave
    else sret tt
  else sret tt.

(** *** Relayna keys *)

Definition authenticate_key (profile_key : option AuthenticatedKey) : stage AuthenticatedKey :=
  do a <- get px_access;
  let dedicated := header_value h key_header in
  let authorization := header_value h "authorization" in
  match profile_key with
  | Some key => sret key
  | None =>
      if is_some (entra a) then lift (authenticate_raw_key dedicated)
      else if skip_entra a then
        lift (if is_some dedicated then authenticate_raw_key dedicated else authenticate_authorization authorization)
      else if ar_unverified_bearer_enabled (rt_config auth) then
        lift (check? require_unverified_bearer authorization in authenticate_raw_key dedicated)
      else if entra_enabled auth then
        do identity <- lift verify_entra_request;
        modify (set_identity identity) ;;
        lift (authenticate_raw_key dedicated)
      else lift (authenticate_authorization authorization)
  end.

(** A service that was named rather than routed to. *)
Definition configure_service (m : RouteMatch) (service : string) : stage RouteMatch :=
  do found <- lift (service_registration l AtConfiguration service);
  do s <- lift (ok_or found MissingService);
  require (existsb (λ a, eq_ignore_ascii_case a method) (allowed_methods s)) UnsupportedRoute ;;
  do u <- service_upstream AtConfiguration s;
  use_registration s u m.

Definition configure_passthrough (m : RouteMatch) : stage unit :=
  (if is_litellm_canonical_route (rm_route m) then
     do mode <- lift (route_mode l AtConfiguration (rm_route m));
     match mode with DirectLiteLlmPassthrough => modify set_passthrough | ManagedByGateway => sret tt end
   else sret tt) ;;
  do c <- get id;
  if px_passthrough c && bool_decide (rm_route m = LiteLlmPassthrough) then
    do s <- lift (passthrough_settings l AtExposure);
    require (sensitive_litellm_passthrough_authorized (sensitive_exposure_for_path s path) (px_entra_identity c))
      InsufficientEntraAuthorization
  else sret tt.

(** The end of the filter, for an authenticated key. *)
Definition configure_request (key : AuthenticatedKey) (m : RouteMatch) : stage unit :=
  if governed_batch_lifecycle_denied method path then modify (set_key key) ;; respond PolicyDenied
  else
    modify (set_key key) ;;
    do definitions <- lift (list_guardrail_definitions l);
    modify (set_definitions definitions) ;;
    do upstream <- get px_service_upstream;
    do m <- match rm_service_name m with
            | Some service =>
                if is_some upstream then modify (set_match m) ;; leave
                else configure_service m service
            | None => sret m
            end;
    configure_passthrough m ;;
    (if bool_decide (rm_provider m = LiteLlm) then configure_litellm_upstream_for_credential (Some key) None
     else sret tt) ;;
    modify (set_match m) ;; leave.

(** *** The whole filter *)

(** The outcome of the request slots and of reading the authentication settings. *)
Variable admitted : GatewayResult unit.

Definition identify (m : RouteMatch) : stage unit :=
  bearer_passthrough m ;;
  do selected <- authenticate_profile;
  authenticate_endpoint selected.2 ;;
  trusted_ingress m ;;
  direct_passthrough m ;;
  do socket <- get px_socket;
  require (negb (socket && bool_decide (rm_provider m = LiteLlm))) UnsupportedRoute ;;
  do key <- authenticate_key selected.1;
  configure_request key m.

Definition request_stages : stage unit :=
  lift admitted ;;
  lift (validate_credential_headers (λ n, get_all n h) to_str key_header) ;;
  if starts_with path ADMISSION_PREFIX then λ c, (c, Err Delegate)
  else
    let upgrade := upgrade_requested h in
    modify (set_content_type (header_value h "content-type")) ;;
    do m <- resolve_route upgrade;
    resolve_access m ;;
    do m <- resolve_limits m;
    modify (set_route (rm_route m)) ;;
    check_socket upgrade m ;;
    do m <- prepare_request m;
    identify m.

(** What becomes of the request: the filter is left with it admitted, the
    client is answered, the connection is dropped, or the Accessa admission
    handler takes over. *)
Definition request_filter (c : PingoraContext) : PingoraContext * stop :=
  match request_stages c with
  | (c, Ok _) => (c, Leave)
  | (c, Err s) => (c, s)
  end.
End filter.

(** ** Weakest preconditions of stages *)

(** [Q] after a stage that goes on, [L] when it leaves with the request
    admitted; nothing is claimed of refused requests. *)
Definition on_leave (L : PingoraContext → Prop) (s : stop) (c : PingoraContext) : Prop :=
  match s with Leave => L c | _ => True end.
Definition wp {A} (m : stage A) (Q : A → PingoraContext → Prop) (L : PingoraContext → Prop) : PingoraContext → Prop :=
  post m Q (on_leave L).

Section wps.
Implicit Types (L : PingoraContext → Prop) (c : PingoraContext).
Lemma wp_ret {A} (a : A) Q L c : wp (sret a) Q L c ↔ Q a c.
Proof. done. Qed.
Lemma wp_bind {A B} (m : stage A) (k : A → stage B) Q L c :
  wp (sbind m k) Q L c ↔ wp m (λ a, wp (k a) Q L) L c.
Proof. apply post_bind. Qed.
Lemma wp_respond {A} e (Q : A → _) L c : wp (respond e) Q L c ↔ True.
Proof. done. Qed.
Lemma wp_leave {A} (Q : A → _) L c : wp leave Q L c ↔ L c.
Proof. done. Qed.
Lemma wp_modify f Q L c : wp (modify f) Q L c ↔ Q tt (f c).
Proof. done. Qed.
Lemma wp_get {A} (f : _ → A) Q L c : wp (get f) Q L c ↔ Q (f c) c.
Proof. done. Qed.
Lemma wp_lift {A} (r : GatewayResult A) Q L c : wp (lift r) Q L c ↔ ∀ a, r = Ok a → Q a c.
Proof. unfold wp, lift. rewrite post_lift. naive_solver. Qed.
Lemma wp_require b e Q L c : wp (require b e) Q L c ↔ (b = true → Q tt c).
Proof. destruct b; cbn; naive_solver. Qed.
Lemma wp_if {A} (b : bool) (m1 m2 : stage A) Q L c :
  wp (if b then m1 else m2) Q L c ↔ (b = true → wp m1 Q L c) ∧ (b = false → wp m2 Q L c).
Proof. apply post_if. Qed.
Lemma wp_mono {A} (m : stage A) (Q Q' : A → _ → Prop) (L L' : _ → Prop) c :
  wp m Q L c → (∀ a c', Q a c' → Q' a c') → (∀ c', L c' → L' c') → wp m Q' L' c.
Proof. intros H HQ HL. eapply post_mono; [exact H|exact HQ|]. intros [] c'; cbn; auto. Qed.
End wps.
Create Rewrite HintDb wp.
#[export] Hint Rewrite @wp_ret @wp_bind @wp_respond @wp_leave @wp_modify @wp_get @wp_lift @wp_require : wp.
Ltac wp := autorewrite with wp.
