(* ===== verification/RequestIdentity.v ===== *)
(** * Who a request admitted to the proxy belongs to

    The safety theorem of [RequestFilter]: a request that the filter lets
    through was authenticated by a Relayna key, comes with an upstream
    credential of its own, or is for a path that a trusted ingress protects;
    and the Entra policy of its endpoint was enforced. *)

From S2P Require Import Prelude Errors Routing RouteSettings Json GuardrailPolicy Policies Guardrails BodyAdmission BodyRewrite AuthAdmission EndpointAccess Foundry ServiceTypes ServicePricing ResponseCost UsageCost RequestBody Auth ProviderConfigs Headers Upstream ProxyContext UpstreamRequest Entra AuthSettings Stages RequestFilter.

(** The fields that say who is calling. *)
Definition who (c : PingoraContext) :=
  (px_key c, px_entra_identity c, px_access c, px_socket c, px_trusted_ingress_passthrough c, px_direct_litellm_passthrough c).
Definition same_caller (c c' : PingoraContext) : Prop := who c' = who c.
(** Nobody has been identified yet. *)
Definition unidentified (c : PingoraContext) : Prop :=
  px_key c = None ∧ px_entra_identity c = None ∧ px_trusted_ingress_passthrough c = false ∧
  px_direct_litellm_passthrough c = false.

Section identity.
Context {H : Type} `{HeaderMap H}.
Variable header_name_ok : string → bool.
Variable url_parse : string → option Url.
Variable value_to_string : Value → string.
Variable sha256_hex : string → string.
Variable to_lowercase : string → string.
Variable has_control : string → bool.
Variable base64_decode : string → option string.
Variable key_hmac : string → string → option VerificationCache.Proof_.
Variable key_secret : option string.
Variable hmac_base64url : string → string → string.
Variable base64url_decode : string → option string.
Variable from_slice_identity : string → option EntraIdentityContext.
Variable l : Lookups.
Variable ups : Upstreams.
Variable worker_token : option string.
Variable auth : GatewayAuthRuntimeState.
Variable env : Auth.Env.
Variables now key_now : Z.
Variable verify_jwt : string → option EndpointEntraPolicy → GatewayResult EntraIdentityContext.
Variable r : RequestHeader H.
Variable admitted : GatewayResult unit.

#[local] Abbreviation h := (rq_headers r).
#[local] Abbreviation path := (uri_path (rq_uri r)).
#[local] Abbreviation method := (rq_method r).
#[local] Abbreviation key_header := (ar_relayna_key_header (rt_config auth)).
#[local] Abbreviation endpoint_identity :=
  (verify_endpoint_identity hmac_base64url base64url_decode from_slice_identity auth now verify_jwt r).
#[local] Abbreviation gateway_identity :=
  (verify_entra_request hmac_base64url base64url_decode from_slice_identity auth verify_jwt r).

(** ** What admission means *)

(** The key is the one the request presents, in its own header or as a bearer. *)
Definition presented (k : AuthenticatedKey) : Prop :=
  authenticate_raw_key key_hmac key_secret env key_now (header_value h key_header) = Ok k ∨
  authenticate_authorization key_hmac key_secret env key_now (header_value h "authorization") = Ok k.

(** The identity that a policy asks for was verified. *)
Definition endpoint_enforced (c : PingoraContext) (policy : option EndpointEntraPolicy) : Prop :=
  ∀ p, policy = Some p → ∃ i, px_entra_identity c = Some i ∧ endpoint_identity p = Ok i.

(** Without a policy of its own an endpoint falls under the gateway's. *)
Definition gateway_enforced (c : PingoraContext) : Prop :=
  authentication_profiles (px_access c) = None → entra (px_access c) = None → skip_entra (px_access c) = false →
  ar_unverified_bearer_enabled (rt_config auth) = false → entra_enabled auth = true →
  ∃ i, px_entra_identity c = Some i ∧ gateway_identity = Ok i.

Definition by_key (c : PingoraContext) : Prop :=
  ∃ k policy, px_key c = Some k ∧ px_trusted_ingress_passthrough c = false ∧ px_direct_litellm_passthrough c = false ∧
    presented k ∧ governed_batch_lifecycle_denied method path = false ∧
    identity_for_key (px_access c) (key_id k) = Ok policy ∧ endpoint_enforced c policy ∧ gateway_enforced c.

Definition by_ingress (c : PingoraContext) : Prop :=
  px_key c = None ∧ px_trusted_ingress_passthrough c = true ∧ px_socket c = false ∧
  authentication_profiles (px_access c) = None ∧ endpoint_enforced c (entra (px_access c)) ∧
  ∃ s, passthrough_settings l AtIngress = Ok s ∧ trusted_ingress_passthrough_path_allowed s method path = true.

Definition by_own_credential (c : PingoraContext) : Prop :=
  px_key c = None ∧ px_trusted_ingress_passthrough c = false ∧ px_direct_litellm_passthrough c = true ∧
  authentication_profiles (px_access c) = None ∧ entra (px_access c) = None ∧
  ∃ credential u, litellm_bearer_credential (header_value h "authorization") = Ok credential ∧
    px_litellm_upstream c = Some u ∧ service_key u = credential ∧
    ∃ m, px_match c = Some m ∧
      ((rm_route m = LiteLlmPassthrough ∧ ∃ s, passthrough_settings l AtBearer = Ok s ∧ allows s method path = true ∧
          sensitive_exposure_for_path s path ≠ Some OperatorOnly) ∨
       (route_mode l AtDirect (rm_route m) = Ok DirectLiteLlmPassthrough ∧ route_enabled l (rm_route m) = Ok true)).

Definition identified (c : PingoraContext) : Prop := by_key c ∨ by_ingress c ∨ by_own_credential c.

(** ** Stages that do not identify anybody *)

#[local] Ltac steps :=
  repeat (cbv beta zeta; first [progress wp | rewrite wp_if; split | intro]).

Lemma same_caller_refl c : same_caller c c.
Proof. done. Qed.
Lemma same_caller_trans c1 c2 c3 : same_caller c1 c2 → same_caller c2 c3 → same_caller c1 c3.
Proof. unfold same_caller. congruence. Qed.

Lemma from_base_url_service_key base credential u :
  from_base_url url_parse base credential = Ok u → service_key u = credential.
Proof.
  unfold from_base_url. destruct (url_parse _) as [url|]; [|done]. cbn [ok_or].
  destruct (url_host_str url); [|done]. cbn [ok_or]. destruct (url_port_or_known_default url); [|done].
  cbn [ok_or]. by intros [= <-].
Qed.
Lemma credential_header_service_key mode name format u u' :
  with_litellm_credential_header mode name format u = Ok u' → service_key u' = service_key u.
Proof. unfold with_litellm_credential_header. repeat case_match; by intros [= <-]. Qed.

Lemma litellm_upstream_wp key passthrough c L :
  wp (configure_litellm_upstream_for_credential url_parse l ups key passthrough)
    (λ _ c', same_caller c c' ∧ px_match c' = px_match c ∧
       ∀ credential, passthrough = Some credential → ∃ u, px_litellm_upstream c' = Some u ∧ service_key u = credential) L c.
Proof.
  unfold configure_litellm_upstream_for_credential. wp. intros config _. wp. intros mapped _. cbv zeta. wp. intros _.
  destruct config as [config|].
  - wp. intros u Hu. wp. split_and!; [done..|]. intros credential ->. exists u. split; [done|].
    destruct (from_base_url url_parse (lc_base_url config) credential) as [u0|] eqn:E0; [|done].
    rewrite (credential_header_service_key _ _ _ _ _ Hu). exact (from_base_url_service_key _ _ _ E0).
  - rewrite wp_if. split.
    + intros _. wp. split_and!; [done..|]. intros credential ->. by eexists.
    + intros [_ E]%orb_false_iff. wp. split_and!; [done..|]. intros credential ->. done.
Qed.

Lemma service_upstream_wp at_ s c L :
  wp (service_upstream url_parse l r at_ s) (λ _ c', same_caller c c') L c.
Proof. unfold service_upstream. destruct (foundry s); steps; done. Qed.
Lemma use_registration_wp s u m c L :
  wp (use_registration value_to_string sha256_hex r s u m) (λ _ c', same_caller c c') L c.
Proof.
  unfold use_registration, apply_service_registration_runtime_limits. wp.
  destruct (unsigned _); [|done]. destruct (unsigned _); [|done]. wp. done.
Qed.
Lemma configure_passthrough_wp m c L :
  wp (configure_passthrough l r m) (λ _ c', same_caller c c') L c.
Proof.
  unfold configure_passthrough. steps; [|done..].
  match goal with |- wp (match ?mode with _ => _ end) _ _ _ => destruct mode end; steps; done.
Qed.

Lemma unidentified_same c c' : same_caller c c' → unidentified c → unidentified c'.
Proof. unfold same_caller, who, unidentified. intros [= -> -> _ _ -> ->]. done. Qed.

Lemma resolve_route_wp upgrade c L :
  unidentified c →
  wp (resolve_route url_parse value_to_string sha256_hex l r upgrade) (λ _, unidentified) L c.
Proof.
  intros U. unfold resolve_route, resolve_unregistered. wp.
  eapply (wp_mono _ (λ _, unidentified) _ L L); [by steps| |done]. intros [s|] c1 U1.
  - wp. eapply wp_mono; [apply service_upstream_wp| |done]. intros u c2 E2.
    eapply wp_mono; [apply use_registration_wp| |done]. intros m c3 E3.
    apply (unidentified_same c2 _ E3), (unidentified_same (set_access (access s) c1) _ E2), U1.
  - cbv zeta. destruct (resolve_match _ _); steps; done.
Qed.

Lemma resolve_access_wp m c L : unidentified c → wp (resolve_access l m) (λ _, unidentified) L c.
Proof.
  intros U. unfold resolve_access. steps; [done|].
  match goal with |- wp (match ?x with _ => _ end) _ _ _ => destruct x end; steps; [|done].
  match goal with |- wp (match ?x with _ => _ end) _ _ _ => destruct x end; steps; done.
Qed.
Lemma resolve_limits_wp m c L : unidentified c → wp (resolve_limits l r m) (λ _, unidentified) L c.
Proof.
  intros U. unfold resolve_limits. steps; [|done..].
  match goal with |- wp (match ?x with _ => _ end) _ _ _ => destruct x end; steps; done.
Qed.
Lemma check_socket_wp upgrade m c L : unidentified c → wp (check_socket base64_decode r upgrade m) (λ _, unidentified) L c.
Proof. intros U. unfold check_socket. steps; done. Qed.
Lemma prepare_request_wp m c L :
  unidentified c → wp (prepare_request worker_token auth r m) (λ _, unidentified) L c.
Proof. intros U. unfold prepare_request. steps; done. Qed.

(** ** Stages that identify the caller *)

(** A request with a key that may go on, before the key is stored. *)
Definition admissible (k : AuthenticatedKey) (c : PingoraContext) : Prop :=
  px_trusted_ingress_passthrough c = false ∧ px_direct_litellm_passthrough c = false ∧ presented k ∧
  ∃ policy, identity_for_key (px_access c) (key_id k) = Ok policy ∧ endpoint_enforced c policy ∧ gateway_enforced c.
(** What the profile says of the key and of the policy. *)
Definition profiled (key : option AuthenticatedKey) (policy : option EndpointEntraPolicy) (c : PingoraContext) : Prop :=
  px_trusted_ingress_passthrough c = false ∧ px_direct_litellm_passthrough c = false ∧
  match key with
  | Some k => presented k ∧ identity_for_key (px_access c) (key_id k) = Ok policy ∧ is_some (authentication_profiles (px_access c)) = true
  | None => px_key c = None ∧ authentication_profiles (px_access c) = None ∧ policy = entra (px_access c)
  end.

Lemma authenticate_profile_wp c L :
  unidentified c →
  wp (authenticate_profile to_lowercase has_control key_hmac key_secret auth env key_now r)
    (λ s c', profiled s.1 s.2 c') L c.
Proof.
  intros (Hk & Hi & Ht & Hd). unfold authenticate_profile. wp.
  destruct (authentication_profiles (px_access c)) as [profiles|] eqn:Ep; [|wp; done].
  wp. intros _ _. cbv zeta. wp. intros k Hkey. wp. intros p Hp. wp. intros _. wp.
  split; [done|]. split; [done|]. split; [|split].
  - unfold presented. destruct (_ || _ || _); [done|]. destruct (is_some _); [by left|by right].
  - unfold identity_for_key. change (px_access (set_key k c)) with (px_access c). by rewrite Ep, Hp.
  - change (px_access (set_key k c)) with (px_access c). by rewrite Ep.
Qed.

Lemma authenticate_endpoint_wp key policy c L :
  profiled key policy c →
  wp (authenticate_endpoint header_name_ok hmac_base64url base64url_decode from_slice_identity auth now verify_jwt r policy)
    (λ _ c', profiled key policy c' ∧ endpoint_enforced c' policy) L c.
Proof.
  intros P. unfold authenticate_endpoint. destruct policy as [p|].
  - wp. intros i Hi. wp. intros ? _. wp. split; [done|]. intros ? [= <-]. by exists i.
  - wp. intros ? _. wp. split; [done|]. intros ? [=].
Qed.

Lemma bearer_passthrough_wp m c :
  unidentified c →
  wp (bearer_passthrough url_parse l ups auth r m) (λ _, unidentified) by_own_credential c.
Proof.
  intros U. unfold bearer_passthrough, use_caller_credential. wp. rewrite wp_if. split; [|by wp].
  intros [Hm%bool_decide_eq_true _]%andb_true_iff. wp. intros s Hs. rewrite wp_if. split; [|by wp].
  intros _. wp. intros [Ha Hx]%andb_true_iff. wp. intros Hp. wp. intros credential Hc.
  eapply wp_mono; [apply litellm_upstream_wp| |done]. intros _ c' (Hw & _ & Hu). wp.
  destruct (Hu _ eq_refl) as (u & Eu & Ek). destruct U as (Uk & Ui & Ut & Ud).
  injection Hw as W1 W2 W3 W4 W5 W6. cbn [px_key px_access id] in *.
  apply andb_true_iff in Hp as [[Hp1 Hp2]%andb_true_iff _].
  destruct has_other_credentials; [done|].
  split_and!; [exact (eq_trans W1 Uk)|exact (eq_trans W5 Ut)|done|..].
  - change (authentication_profiles (px_access c') = None). rewrite W3. by destruct (authentication_profiles _).
  - change (entra (px_access c') = None). rewrite W3. by destruct (entra _).
  - exists credential, u. split_and!; [done..|]. exists m. split; [done|]. left. split; [done|].
    exists s. split_and!; [done..|]. intros E. by rewrite E in Hx.
Qed.

Lemma trusted_ingress_wp m key policy c :
  profiled key policy c → endpoint_enforced c policy →
  wp (trusted_ingress url_parse l ups r m) (λ _ c', c' = c) by_ingress c.
Proof.
  intros (Pt & Pd & P) E. unfold trusted_ingress. wp. rewrite wp_if. split; [|by wp].
  intros [[[Hp Hs]%andb_true_iff _]%andb_true_iff _]%andb_true_iff. cbn [id] in *.
  wp. intros s Hset. rewrite wp_if. split; [|by wp]. intros Ha. wp.
  eapply wp_mono; [apply litellm_upstream_wp| |done]. intros _ c' (Hw & _ & _). wp.
  injection Hw as W1 W2 W3 W4 W5 W6.
  assert (authentication_profiles (px_access c) = None) as Hn by (by destruct (authentication_profiles _)).
  destruct key as [k|]; [destruct P as (_ & _ & P); by rewrite Hn in P|]. destruct P as (Pk & _ & ->).
  split_and!; [exact (eq_trans W1 Pk)|done|..].
  - change (px_socket c' = false). rewrite W4. by apply negb_true_iff in Hs.
  - change (authentication_profiles (px_access c') = None). by rewrite W3.
  - intros p. change (entra (px_access c') = Some p → ∃ i, px_entra_identity c' = Some i ∧ endpoint_identity p = Ok i).
    rewrite W3, W2. apply E.
  - by exists s.
Qed.

Lemma direct_passthrough_wp m key policy c :
  profiled key policy c →
  wp (direct_passthrough url_parse l ups auth r m) (λ _ c', c' = c) by_own_credential c.
Proof.
  intros (Pt & Pd & P). unfold direct_passthrough, use_caller_credential, ensure_litellm_canonical_route_enabled.
  rewrite wp_if. split; [|by wp]. intros _. wp. intros mode Hmode. cbv zeta. wp. rewrite wp_if. split; [|by wp].
  intros [[[[Hm%bool_decide_eq_true Hp]%andb_true_iff He]%andb_true_iff _]%andb_true_iff _]%andb_true_iff. subst mode.
  cbn [id] in *. wp. intros [] Hon. wp. intros credential Hc.
  eapply wp_mono; [apply litellm_upstream_wp| |done]. intros _ c' (Hw & _ & Hu). wp.
  destruct (Hu _ eq_refl) as (u & Eu & Ek). injection Hw as W1 W2 W3 W4 W5 W6.
  assert (authentication_profiles (px_access c) = None) as Hn by (by destruct (authentication_profiles _)).
  destruct key as [k|]; [destruct P as (_ & _ & P); by rewrite Hn in P|]. destruct P as (Pk & _ & ->).
  split_and!; [exact (eq_trans W1 Pk)|exact (eq_trans W5 Pt)|done|..].
  - change (authentication_profiles (px_access c') = None). by rewrite W3.
  - change (entra (px_access c') = None). rewrite W3. by destruct (entra _).
  - exists credential, u. split_and!; [by destruct (_ && _)|done..|]. exists m. split; [done|]. right. split; [done|].
    destruct (route_enabled l (rm_route m)) as [[]|]; done.
Qed.

Lemma authenticate_key_wp key policy c L :
  profiled key policy c → endpoint_enforced c policy →
  wp (authenticate_key key_hmac key_secret hmac_base64url base64url_decode from_slice_identity auth env key_now
        verify_jwt r key) admissible L c.
Proof.
  intros (Pt & Pd & P) E. unfold authenticate_key. wp. cbv zeta. destruct key as [k|].
  { wp. destruct P as (Pr & Pi & Pp). split_and!; [done..|]. exists policy. split_and!; [done..|].
    intros Hn. by rewrite Hn in Pp. }
  destruct P as (Pk & Pn & ->).
  assert (∀ k, identity_for_key (px_access c) (key_id k) = Ok (entra (px_access c))) as Hi.
  { intros k. unfold identity_for_key. by rewrite Pn. }
  assert (∀ k, presented k → gateway_enforced c → admissible k c) as Hok by (intros; unfold admissible; split_and!; eauto).
  repeat (rewrite wp_if; split; intros ?); wp.
  - intros k Hk. apply Hok; [by left|]. intros _ He. match goal with H : is_some _ = true |- _ => by rewrite He in H end.
  - intros k Hk. apply Hok; [destruct (is_some (header_value h key_header)); [by left|by right]|]. intros _ _ ?. congruence.
  - intros k Hk. destruct (require_unverified_bearer _); [|done]. apply Hok; [by left|]. intros _ _ _ ?. congruence.
  - intros i Hv. wp. intros k Hk. split_and!; [done..|by left|]. exists (entra (px_access c)).
    split_and!; [apply Hi| |by intros _ _ _ _ _; exists i].
    destruct (entra (px_access c)); [done|]. intros ? [=].
  - intros k Hk. apply Hok; [by right|]. intros _ _ _ _ ?. congruence.
Qed.

Lemma by_key_same c c' : same_caller c c' → by_key c → by_key c'.
Proof.
  unfold same_caller, who, by_key, endpoint_enforced, gateway_enforced. intros [= -> -> -> _ -> ->]. done.
Qed.

Lemma configure_request_wp k m c Q :
  admissible k c →
  wp (configure_request url_parse value_to_string sha256_hex l ups r k m) Q by_key c.
Proof.
  intros (At & Ad & Ap & policy & Ai & Ae & Ag). unfold configure_request. rewrite wp_if. split; [done|].
  intros Hl. wp. intros definitions _. wp.
  assert (by_key (set_definitions definitions (set_key k c))) as B.
  { exists k, policy. split_and!; done. }
  assert (∀ m' c', same_caller (set_definitions definitions (set_key k c)) c' → by_key (set_match m' c')) as B'.
  { intros m' c' S. by apply (by_key_same _ (set_match m' c') S). }
  assert (∀ m' c', same_caller (set_definitions definitions (set_key k c)) c' →
    wp (configure_passthrough l r m' ;;
        (if bool_decide (rm_provider m' = LiteLlm) then configure_litellm_upstream_for_credential url_parse l ups (Some k) None
         else sret tt) ;;
        modify (set_match m') ;; leave)%stage Q by_key c') as Rest.
  { intros m' c' S. wp. eapply wp_mono; [apply configure_passthrough_wp| |done]. intros ? c1 S1.
    wp. rewrite wp_if. split; intros _; wp.
    - eapply wp_mono; [apply litellm_upstream_wp| |done]. intros _ c2 (S2 & _). wp.
      apply B', (same_caller_trans _ _ _ (same_caller_trans _ _ _ S S1) S2).
    - apply B', (same_caller_trans _ _ _ S S1). }
  destruct (rm_service_name m) as [service|]; [|rewrite wp_ret; by apply Rest].
  rewrite wp_if. split; intros _; [wp; by apply B'|].
  unfold configure_service. wp. intros found _. wp. intros s _. wp. intros _. wp.
  eapply wp_mono; [apply service_upstream_wp| |done]. intros u c1 S1.
  eapply wp_mono; [apply use_registration_wp| |done]. intros m' c2 S2.
  apply Rest, (same_caller_trans _ _ _ S1 S2).
Qed.

#[local] Abbreviation filter :=
  (request_filter header_name_ok url_parse value_to_string sha256_hex to_lowercase has_control base64_decode key_hmac
     key_secret hmac_base64url base64url_decode from_slice_identity l ups worker_token auth env now key_now verify_jwt
     r admitted).

(** C1: A request that the proxy's request filter lets through, whatever the
    stores answer at each read, belongs to somebody.  Either it presented a
    Relayna key that authenticates, is not a batch life-cycle call, satisfies
    the Entra policy that its endpoint (or the key's profile) asks for, and
    otherwise the gateway-wide Entra policy where one applies; or its path is
    protected by a trusted ingress, it is not a socket, and the endpoint's own
    Entra policy was enforced; or it comes with a bearer credential of its own
    that replaces the gateway's upstream credential, on a passthrough path
    that is allowed and not reserved to operators or on an enabled canonical
    route in direct mode, and its endpoint has no identity policy. *)
Theorem admitted_request_identified key_header request_id reservation_id c' :
  filter (new_ctx key_header request_id reservation_id) = (c', Leave) → identified c'.
Proof.
  set (c0 := new_ctx _ _ _). assert (unidentified c0) as U by done. revert U. generalize c0. clear c0. intros c U F.
  enough (wp (request_stages header_name_ok url_parse value_to_string sha256_hex to_lowercase has_control base64_decode
     key_hmac key_secret hmac_base64url base64url_decode from_slice_identity l ups worker_token auth env now key_now
     verify_jwt r admitted) (λ _ _, False) identified c) as W.
  { unfold request_filter in F. unfold wp, post in W. destruct (request_stages _ _ _ _ _ _ _ _ _ _ _ _ _ _ _ _ _ _ _ _ _ _ _)
      as [c1 [|[]]]; simplify_eq; done. }
  clear F. unfold request_stages. wp. intros _ _. wp. intros _ _. rewrite wp_if. split; [done|]. intros _. cbv zeta. wp.
  eapply wp_mono; [by apply resolve_route_wp| |done]. intros m c1 U1. wp.
  eapply wp_mono; [by apply resolve_access_wp| |done]. intros ? c2 U2. wp.
  eapply wp_mono; [by apply resolve_limits_wp| |done]. intros m2 c3 U3. wp.
  eapply wp_mono; [by apply check_socket_wp| |done]. intros ? c4 U4. wp.
  eapply wp_mono; [by apply prepare_request_wp| |done]. intros m5 c5 U5. unfold identify. wp.
  eapply wp_mono; [by apply bearer_passthrough_wp| |by right; right]. intros ? c6 U6. wp.
  eapply wp_mono; [by apply authenticate_profile_wp| |done]. intros [key policy] c7 P7. wp.
  eapply wp_mono; [by apply (authenticate_endpoint_wp key)| |done]. intros _ c8 [P8 E8]. wp.
  eapply wp_mono; [by eapply trusted_ingress_wp| |by right; left]. intros _ c9 ->. wp.
  eapply wp_mono; [by eapply direct_passthrough_wp| |by right; right]. intros _ c10 ->. wp. intros _. wp.
  eapply wp_mono; [by eapply authenticate_key_wp| |done]. intros k c11 A.
  eapply wp_mono; [by apply (configure_request_wp k m5 c11 (λ _ _, False))|done|by left].
Qed.
End identity.

(** ** A chat completion with a Relayna key *)

#[local] Existing Instances Samples.headers Samples.headers_laws.
Module Chat.
Definition lookups : Lookups :=
  {| service_for_route := λ _ _, Ok None; passthrough_settings := λ _, Ok (default_with_updated_at 0);
     route_identity := λ _, Ok EndpointAccess_default; service_registration := λ _ _, Ok None;
     openai_route_mode := λ _ _, Ok ManagedByGateway; anthropic_route_mode := λ _ _, Ok ManagedByGateway;
     openai_route_limits := λ _, Ok LiteLlmRouteLimits_default; anthropic_route_limits := λ _, Ok LiteLlmRouteLimits_default;
     openai_route_enabled := λ _, Ok true; anthropic_route_enabled := λ _, Ok true;
     foundry_config := λ _ _, Ok None; active_litellm_config := Ok None; credential_mapping := λ _ _, Ok None;
     list_guardrail_definitions := Ok [] |}.
Definition auth : GatewayAuthRuntimeState :=
  {| rt_config := {| ar_unverified_bearer_enabled := false; ar_relayna_key_header := "x-relayna-key";
                     ar_entra_auth := None; ar_apigee_trusted_header := None |};
     rt_entra_verifier := None |}.
Definition request (headers : list (string * string)) : RequestHeader (list (string * string)) :=
  {| rq_method := "POST"; rq_http_11 := true; rq_headers := headers; rq_uri := rq_uri Samples.request |}.
Definition filter (headers : list (string * string)) : PingoraContext * stop :=
  request_filter (H := list (string * string)) (λ _, true) (λ _, None) (λ _, "") (λ _, "") to_ascii_lowercase (λ _, false) (λ _, None) Auth.sample_hmac
    (Some "k") (λ _ _, "") (λ _, None) (λ _, None) lookups Samples.upstreams None auth Auth.sample_env 10 10
    (λ _ _, Err InvalidEntraToken) (request headers) (Ok tt) (new_ctx "x-relayna-key" "req-1" "res-1").
Definition headers : list (string * string) := [("Authorization", String.append "Bearer " Auth.sample_secret)].
Lemma chat_leaves : snd (filter headers) = Leave.
Proof. vm_compute. reflexivity. Qed.
Lemma chat_keyed : is_some (px_key (fst (filter headers))) = true.
Proof. vm_compute. reflexivity. Qed.
Lemma chat_run : filter headers = (fst (filter headers), Leave).
Proof. rewrite <- chat_leaves. apply surjective_pairing. Qed.
End Chat.

Lemma admitted_request_identified_witness :
  by_key Auth.sample_hmac (Some "k") (λ _ _, "") (λ _, None) (λ _, None) Chat.auth Auth.sample_env 10 10
    (λ _ _, Err InvalidEntraToken) (Chat.request Chat.headers) (fst (Chat.filter Chat.headers)).
Proof.
  pose proof Chat.chat_keyed as K. pose proof Chat.chat_run as E. revert K E. generalize (fst (Chat.filter Chat.headers)).
  unfold Chat.filter. intros c K E.
  destruct (admitted_request_identified _ _ _ _ _ _ _ _ _ _ _ _ _ _ _ _ _ _ _ _ _ _ _ _ _ _ E) as [B|[B|B]];
    [exact B|..]; destruct B as [B _]; by rewrite B in K.
Defined.
