(* ===== verification/Settlement.v ===== *)
(** * What a request writes, and its settlement

    The state that the callbacks of [crates/gateway-proxy/src/pingora_plane.rs]
    share for one request: its context, the control state ([RateLimitStore],
    [BudgetStore] and [AccessaStore] of the source, behind interfaces), the
    table of streaming connections and the usage events handed to the store,
    with [UsageEvent] of [crates/gateway-core/src/usage.rs].  Then the end of a
    request: [record_terminal_usage], for requests the gateway refuses after
    authentication, and [logging], which runs once for every request and
    settles its budget.  Clocks, latencies and the failure code of the
    diagnostics are arguments; timing and traffic rows are left out. *)

From S2P Require Import Prelude SocketFrames ConnectionLimits Errors Routing Json GuardrailPolicy Policies Guardrails Budgets RateLimits BodyAdmission BodyRewrite EndpointAccess Foundry ServiceTypes ServicePricing ResponseCost Usage UsageCost RequestBody CompleteBody Auth ProviderConfigs Headers Upstream ProxyContext Stages.
(** ** The stores *)

(** The operations of [BudgetStore] that do not admit. *)
Class BudgetSettlement (C : Type) := {
  bs_reconcile : string → string → f64 → Z → C → C * GatewayResult unit;
  bs_add_spend : string → f64 → Z → C → C * GatewayResult unit;
  bs_release : string → string → C → C * GatewayResult unit;
  bs_check : string → option f64 → option f64 → Z → C → C * GatewayResult (BudgetDecision f64)
}.
(** [AccessaStore]: [put] answers whether it wrote. *)
Class AccessaStore (C : Type) := {
  as_get : string → C → C * GatewayResult (option string);
  as_put : string → string → Z → bool → C → C * GatewayResult bool;
  as_delete : string → C → C * GatewayResult unit
}.

(** ** Usage events *)

Record UsageEvent := {
  ue_request_id : string;
  ue_key_id : string;
  ue_project_id : option string;
  ue_route : Route;
  ue_model : option string;
  ue_provider : Provider;
  ue_status : UsageStatus;
  ue_status_code : Z;
  ue_latency_ms : Z;
  ue_tokens : option Z * option Z * option Z;
  ue_cost : UsageRecord;
  ue_service_name : option string;
  ue_service_version : option string;
  ue_endpoint_template : option string;
  ue_task_id : option string;
  ue_run_id : option string;
  ue_trace_id : option string;
  ue_fallback_count : Z;
  ue_created_at : Z
}.

(** ** The state *)

Record Flow (C : Type) := {
  fl_ctx : PingoraContext;
  fl_control : C;
  fl_connections : counts;
  fl_usage : list UsageEvent
}.
Arguments fl_ctx {C} _.
Arguments fl_control {C} _.
Arguments fl_connections {C} _.
Arguments fl_usage {C} _.

Section flow.
Context {C : Type}.
Implicit Types f : Flow C.

Definition with_ctx (c : PingoraContext) (f : Flow C) : Flow C :=
  {| fl_ctx := c; fl_control := fl_control f; fl_connections := fl_connections f; fl_usage := fl_usage f |}.
Definition with_control (s : C) (f : Flow C) : Flow C :=
  {| fl_ctx := fl_ctx f; fl_control := s; fl_connections := fl_connections f; fl_usage := fl_usage f |}.
Definition with_connections (m : counts) (f : Flow C) : Flow C :=
  {| fl_ctx := fl_ctx f; fl_control := fl_control f; fl_connections := m; fl_usage := fl_usage f |}.
Definition with_event (e : UsageEvent) (f : Flow C) : Flow C :=
  {| fl_ctx := fl_ctx f; fl_control := fl_control f; fl_connections := fl_connections f; fl_usage := fl_usage f ++ [e] |}.

(** A callback's stage: it stops with the error that is answered. *)
Definition callback (A : Type) : Type := stage (Flow C) GatewayError A.
Definition on_ctx (g : PingoraContext → PingoraContext) : callback unit := modify (λ f, with_ctx (g (fl_ctx f)) f).
Definition ctx {A} (g : PingoraContext → A) : callback A := get (λ f, g (fl_ctx f)).
(** An operation of the control state, its error propagated or inspected. *)
Definition control {A} (op : C → C * GatewayResult A) : callback A :=
  λ f, let '(s, r) := op (fl_control f) in (with_control s f, r).
Definition answer {A} (r : GatewayResult A) : callback A := lift_with id r.
Definition ensure (b : bool) (e : GatewayError) : callback unit := if b then sret tt else throw e.
(** [insert_usage_event]: a failure or a timeout of the store is only counted. *)
Definition insert_usage_event (e : UsageEvent) : callback unit := modify (with_event e).
(** [respond_error]: the error is answered and its status kept. *)
Definition answered {A} (m : callback A) : callback A :=
  sbind (attempt m) (λ r,
    match r with
    | Ok a => sret a
    | Err e => sbind (on_ctx (set_terminal_status (status_code e))) (λ _, throw e)
    end).

Lemma post_on_ctx g Q X f : post (on_ctx g) Q X f ↔ Q tt (with_ctx (g (fl_ctx f)) f).
Proof. done. Qed.
Lemma post_ctx {A} (g : _ → A) Q X f : post (ctx g) Q X f ↔ Q (g (fl_ctx f)) f.
Proof. done. Qed.
Lemma ok_or_Ok {A} (o : option A) (e : GatewayError) a : ok_or o e = Ok a ↔ o = Some a.
Proof. destruct o; cbn; naive_solver. Qed.
Lemma post_answer {A} (r : GatewayResult A) Q X f :
  post (answer r) Q X f ↔ (∀ a, r = Ok a → Q a f) ∧ (∀ e, r = Err e → X e f).
Proof. apply post_lift. Qed.
Lemma post_ensure b e Q X f : post (ensure b e) Q X f ↔ (b = true → Q tt f) ∧ (b = false → X e f).
Proof. destruct b; cbn; naive_solver. Qed.
Lemma post_control {A} (op : C → C * GatewayResult A) Q X f :
  post (control op) Q X f ↔
  ∀ s r, op (fl_control f) = (s, r) → match r with Ok a => Q a (with_control s f) | Err e => X e (with_control s f) end.
Proof.
  unfold post, control. destruct (op _) as [s [a|e]]; (split; [by intros H ? ? [= <- <-]|]);
    intros H; exact (H _ _ eq_refl).
Qed.
Lemma post_event e Q X f : post (insert_usage_event e) Q X f ↔ Q tt (with_event e f).
Proof. done. Qed.
End flow.
#[export] Hint Rewrite @post_on_ctx @post_ctx @post_event : post.

(** ** A control state that grants everything *)

Module Tame.
Definition store : Type := gmap string string.
Definition nothing_spent : BudgetState f64 := Build_BudgetState (f64_of_Z 0) (f64_of_Z 0).
#[export] Instance tame_control : ControlState store :=
  {| cs_request_rate := λ _ _ _ c, (c, Ok (RateAllowed 1));
     cs_token_rate := λ _ _ tokens _ c, (c, Ok (RateAllowed tokens));
     cs_admit_budget := λ _ rid _ _ _ _ c, (c, Ok (BudgetAllowed nothing_spent));
     cs_seed_committed := λ _ _ _ c, (c, Ok tt) |}.
#[export] Instance tame_settlement : BudgetSettlement store :=
  {| bs_reconcile := λ _ _ _ _ c, (c, Ok tt);
     bs_add_spend := λ _ _ _ c, (c, Ok tt);
     bs_release := λ _ _ c, (c, Ok tt);
     bs_check := λ _ _ _ _ c, (c, Ok (BudgetAllowed nothing_spent)) |}.
#[export] Instance tame_accessa : AccessaStore store :=
  {| as_get := λ k c, (c, Ok (c !! k));
     as_put := λ k v _ nx c, if nx && is_some (c !! k) then (c, Ok false) else (<[k := v]> c, Ok true);
     as_delete := λ k c, (delete k c, Ok tt) |}.
Definition flow (c : PingoraContext) (s : store) : Flow store :=
  {| fl_ctx := c; fl_control := s; fl_connections := ∅; fl_usage := [] |}.
End Tame.

#[local] Open Scope stage_scope.

(** [update_routing_diagnostics]. *)
Definition routing_mode (c : PingoraContext) : option string :=
  if px_passthrough c then Some "litellm_passthrough"
  else if is_some (px_match c) then Some "managed_by_gateway" else None.

Section settlement.
Context {C : Type} `{BudgetSettlement C} `{AccessaStore C}.
Variable from_slice : string → option Value.
Variable pointer : Value → string → option Value.
(** [session_store_key]: [Err] for a token that is not a UUID. *)
Variable session_store_key : string → GatewayResult string.

Definition response_usage_tokens (c : PingoraContext) : option Z * option Z * option Z :=
  if is_some (px_foundry c) && px_is_streaming c then fu_tokens (foundry_usage (px_response c))
  else extract_usage_tokens from_slice pointer (response_body_prefix (px_pricing c)).

(** [UsageEvent::new] with the [with_*] methods that both callers chain. *)
Definition usage_event (c : PingoraContext) (key : AuthenticatedKey) (route : Route) (status_code latency_ms : Z)
    (tokens : option Z * option Z * option Z) (cost : UsageRecord) (failure_code : option string) (created_at : Z) : UsageEvent :=
  {| ue_request_id := px_request_id c; ue_key_id := Auth.key_id key; ue_project_id := Auth.project_id key;
     ue_route := route; ue_model := extract_model from_slice (body_prefix (px_body c));
     ue_provider := provider_for_usage c; ue_status := usage_status status_code failure_code;
     ue_status_code := status_code; ue_latency_ms := latency_ms;
     ue_tokens := let '(input, output, total) := tokens in (input, output, total_or_sum input output total);
     ue_cost := cost; ue_service_name := px_match c ≫= rm_service_name;
     ue_service_version := service_version (px_response c); ue_endpoint_template := endpoint_template (px_pricing c);
     ue_task_id := px_task_id c; ue_run_id := px_run_id c; ue_trace_id := px_trace_id c;
     ue_fallback_count := Z.max 0 (px_fallback_count c); ue_created_at := created_at |}.

(** A request refused after its key was authenticated. *)
Definition record_terminal_usage (key : AuthenticatedKey) (route : Route) (error : GatewayError)
    (latency_ms : Z) (failure_code : option string) (now : Z) : callback (C := C) unit :=
  on_ctx (set_terminal_status (status_code error)) ;;
  do c <- ctx id;
  if px_terminal_usage_recorded c then sret tt
  else
    insert_usage_event (usage_event c key route (status_code error) latency_ms (None, None, None)
      (UsageCost.record_terminal_usage from_slice pointer (px_pricing c) (routing_mode c)) failure_code now) ;;
    (if px_budget_reserved c
     then attempt (control (bs_release (Auth.key_id key) (px_reservation_id c))) ;; sret tt else sret tt) ;;
    on_ctx set_usage_recorded.

(** The budget of a request that is over: its reservation is reconciled with
    the cost or released; a cost that was not reserved is added. *)
Definition settle (c : PingoraContext) (key : AuthenticatedKey) (cost : option f64) (now : Z) : callback (C := C) unit :=
  match cost with
  | Some amount =>
      if px_budget_reserved c
      then attempt (control (bs_reconcile (Auth.key_id key) (px_reservation_id c) amount now)) ;; sret tt
      else attempt (control (bs_add_spend (Auth.key_id key) amount now)) ;; sret tt
  | None =>
      if px_budget_reserved c
      then attempt (control (bs_release (Auth.key_id key) (px_reservation_id c))) ;; sret tt else sret tt
  end.

Definition logged_status (written terminal : option Z) (failed : bool) : Z :=
  match written with
  | Some s => s
  | None => match terminal with Some s => s | None => if failed then 502 else 500 end
  end.

Definition log_usage (written : option Z) (failed : bool) (latency_ms : Z) (failure_code : option string)
    (created_at now : Z) : callback (C := C) unit :=
  do c <- ctx id;
  match px_route c, px_key c with
  | Some route, Some key =>
      if px_terminal_usage_recorded c then sret tt
      else
        let cost := logged_usage from_slice pointer (px_pricing c) (px_budget_reserved c)
                      (is_some (px_guardrail_error c)) (routing_mode c) in
        let tokens := if px_passthrough c then (None, None, None) else response_usage_tokens c in
        on_ctx set_usage_recorded ;;
        settle c key (ur_cost cost) now ;;
        insert_usage_event (usage_event c key route (logged_status written (px_terminal_status_code c) failed)
          latency_ms tokens cost failure_code (default created_at (px_budget_reserved_at c)))
  | _, _ => sret tt
  end.

(** The connection lease and the admission token of a session are given back
    before the usage is recorded. *)
Definition release_session : callback (C := C) unit :=
  do c <- ctx id;
  (match socket_lease (px_socket_state c) with
   | Some lease =>
       modify (λ f, with_connections (default (fl_connections f) (ConnectionLimits.drop_lease (fl_connections f) lease)) f) ;;
       on_ctx (λ c, set_socket_state {| socket_upgraded := socket_upgraded (px_socket_state c); socket_lease := None;
                                        socket_request_frames := socket_request_frames (px_socket_state c);
                                        socket_response_frames := socket_response_frames (px_socket_state c) |} c)
   | None => sret tt
   end) ;;
  match px_admission_token c with
  | None => sret tt
  | Some token =>
      on_ctx (set_admission_token None) ;;
      match session_store_key token with
      | Ok key => attempt (control (as_delete key)) ;; sret tt
      | Err _ => sret tt
      end
  end.

Definition logging (written : option Z) (failed : bool) (latency_ms : Z) (failure_code : option string)
    (created_at now : Z) : callback (C := C) unit :=
  release_session ;; log_usage written failed latency_ms failure_code created_at now.
End settlement.
