(* ===== verification/SocketAdmission.v ===== *)
(** * Admission of socket sessions

    Models [admit_websocket] of [crates/gateway-proxy/src/websocket.rs]: a
    general WebSocket session is admitted once, at its handshake, with its
    policy, its rate and budget, a connection lease and an expiry; messages
    are then only counted and bounded ([SocketFrames]). *)

From S2P Require Import Prelude SocketFrames ConnectionLimits Errors Routing Json GuardrailPolicy Policies Guardrails Budgets RateLimits BodyAdmission BodyRewrite EndpointAccess Foundry ServiceTypes ServicePricing ResponseCost Usage UsageCost RequestBody CompleteBody Auth ProviderConfigs Headers Upstream ProxyContext Entra Stages Settlement.
#[local] Open Scope stage_scope.

(** What the sessions of a service or of a direct route count for. *)
Definition set_session (lease : string * string) (max_frame : Z) (s : SocketState) : SocketState :=
  {| socket_upgraded := socket_upgraded s; socket_lease := Some lease;
     socket_request_frames := Some (frame_limit_new max_frame true);
     socket_response_frames := Some (frame_limit_new max_frame false) |}.

(** A connection lease for the session. *)
Definition acquire_connection {C} (scope identity : string) (route_max key_max : Z) : callback (C := C) (string * string) :=
  do m <- get fl_connections;
  do granted <- answer (acquire m scope identity route_max key_max);
  modify (with_connections granted.1) ;; sret granted.2.

Definition no_guardrails (definitions : list GuardrailDefinition) (policy : GuardrailPolicy) (mode : GuardrailMode) :
    GatewayResult unit :=
  let? plan := resolve_guardrail_plan
    {| plan_mode := mode; Guardrails.definitions := definitions;
       policies := {| key_policy := policy; team_policy := None; route_policy := None; model_policy := None |};
       client_requested_guardrails := [] |} in
  if negb (is_nil plan) then Err GuardrailUnavailable else Ok tt.

Definition min_opt (n : Z) (o : option Z) : Z := match o with Some m => Z.min n m | None => n end.

Section sockets.
Context {C : Type} `{ControlState C}.
(** The settings and stores as they answer this request. *)
Variable route_enabled : Route → GatewayResult bool.
Variable policy_for : GatewayResult EffectivePolicy.
Variable find_by_prefix : string → GatewayResult (option StoredVirtualKey).
Variable committed_spend : GatewayResult (BudgetState f64).
(** The UUID made of the first half of the SHA-256 digest of a credential. *)
Variable credential_uuid : string → string.
Variable now : Z.

(** A caller with an upstream credential of its own. *)
Definition admit_direct (route : RouteMatch) : callback (C := C) (string * string) :=
  do enabled <- answer (route_enabled (rm_route route));
  ensure enabled DisabledRoute ;;
  do u <- ctx px_litellm_upstream;
  do u <- answer (ok_or u InvalidConfiguration);
  sret ("litellm:" +:+ route_as_str (rm_route route), credential_uuid (service_key u)).

Definition service_features (service : string) : GenerationFeatures :=
  {| feat_model := None; feat_stream := true; feat_tools := false; feat_service_name := Some service |}.

(** A caller with a Relayna key: its scope, and until when it may stay. *)
Definition admit_service (route : RouteMatch) (expires_at : Z) : callback (C := C) ((string * string) * Z) :=
  ensure (bool_decide (rm_provider route = InternalService)) UnsupportedRoute ;;
  do key <- ctx px_key;
  do key <- answer (ok_or key MissingAuthorization);
  do service <- answer (ok_or (rm_service_name route) MissingService);
  do effective <- answer policy_for;
  let policy := eff_policy effective in
  answer (evaluate_policy policy (rm_route route) (rm_provider route) (service_features service)) ;;
  answer (evaluate_policy_limits policy now None None None None (Some (f64_of_Z 0))) ;;
  do definitions <- ctx px_guardrail_definitions;
  answer (try_for_each (no_guardrails definitions (eff_guardrail_policy effective)) [PreCall; PostCall; DuringCall]) ;;
  do identity <- ctx px_entra_identity;
  do stored <- answer (find_by_prefix (key_prefix key));
  let expires_at := min_opt expires_at (Z.add (seconds_of now) <$> max_stream_duration_seconds policy) in
  let expires_at := min_opt expires_at (identity ≫= EndpointAccess.expires_at) in
  let expires_at := min_opt expires_at (seconds_of <$> (stored ≫= Auth.expires_at)) in
  do decision <- control (cs_request_rate (Auth.key_id key) (rpm_limit policy) now);
  (match decision with
   | RateAllowed count => on_ctx (set_rate_count count)
   | RateExceeded _ retry => throw (RateLimitExceeded retry)
   end) ;;
  do rid <- ctx px_reservation_id;
  do budget <- control (admit_request_budget committed_spend (Auth.key_id key) rid (f64_of_Z 0) policy now);
  (match budget with
   | BudgetAllowed _ => on_ctx (λ c, set_reserved_at (Some now) (set_reserved true c))
   | BudgetExceeded _ => throw Errors.BudgetExceeded
   end) ;;
  on_ctx (set_policy policy) ;;
  sret (("service:" +:+ service, Auth.key_id key), expires_at).

Definition admit_websocket : callback (C := C) unit :=
  do c <- ctx id;
  do settings <- answer (ok_or (websocket (px_access c)) UnsupportedRoute);
  answer (websocket_validate settings) ;;
  do route <- answer (ok_or (px_match c) UnsupportedRoute);
  let expires_at := seconds_of now + max_session_duration_seconds settings in
  do who <- (if px_direct_litellm_passthrough c
             then do who <- admit_direct route; sret (who, expires_at)
             else admit_service route expires_at);
  ensure (negb (who.2 <=? seconds_of now)) PolicyDenied ;;
  do lease <- acquire_connection who.1.1 who.1.2 (max_connections settings) (max_connections_per_key settings);
  on_ctx (λ c, set_socket_state (set_session lease (max_frame_bytes settings) (px_socket_state c)) c) ;;
  on_ctx (set_socket_expiry who.2) ;;
  on_ctx (set_streaming true).

(** ** Admitted sessions *)

(** What a session under a Relayna key was checked for, with its expiry. *)
Record governed_session (f : Flow C) (route : RouteMatch) (e : string * string) (t : Z) : Prop := {
  gs_key : ∃ key service eff, px_key (fl_ctx f) = Some key ∧ rm_provider route = InternalService ∧
    rm_service_name route = Some service ∧ e = ("service:" +:+ service, Auth.key_id key) ∧ policy_for = Ok eff ∧
    evaluate_policy (eff_policy eff) (rm_route route) (rm_provider route) (service_features service) = Ok tt ∧
    Forall (λ mode, no_guardrails (px_guardrail_definitions (fl_ctx f)) (eff_guardrail_policy eff) mode = Ok tt)
      [PreCall; PostCall; DuringCall] ∧
    (∀ seconds, max_stream_duration_seconds (eff_policy eff) = Some seconds → t ≤ seconds_of now + seconds) ∧
    (∀ i expiry, px_entra_identity (fl_ctx f) = Some i → EndpointAccess.expires_at i = Some expiry → t ≤ expiry) ∧
    (∃ stored, find_by_prefix (key_prefix key) = Ok stored ∧
       ∀ k expiry, stored = Some k → Auth.expires_at k = Some expiry → t ≤ seconds_of expiry) ∧
    ∃ s1 s2 st n, cs_request_rate (Auth.key_id key) (rpm_limit (eff_policy eff)) now (fl_control f) = (s1, Ok (RateAllowed n)) ∧
      admit_request_budget committed_spend (Auth.key_id key) (px_reservation_id (fl_ctx f)) (f64_of_Z 0) (eff_policy eff) now s1
      = (s2, Ok (BudgetAllowed st))
}.

Lemma min_opt_le n o : min_opt n o ≤ n ∧ ∀ m, o = Some m → min_opt n o ≤ m.
Proof. destruct o; cbn; split; intros; simplify_eq; lia. Qed.

Lemma admit_service_post route expires_at f :
  post (admit_service route expires_at)
    (λ who f', governed_session f route who.1 who.2 ∧ who.2 ≤ expires_at ∧ fl_connections f' = fl_connections f ∧
       px_budget_reserved (fl_ctx f') = true ∧ px_access (fl_ctx f') = px_access (fl_ctx f)) (λ _ _, True) f.
Proof.
  unfold admit_service. post. rewrite post_ensure. split; [|done]. intros Hp%bool_decide_eq_true. post.
  rewrite post_answer. split; [|done]. intros key Hk. post. rewrite post_answer. split; [|done]. intros service Hs. post.
  rewrite post_answer. split; [|done]. intros eff Heff. cbv zeta. post. rewrite post_answer. split; [|done]. intros [] Hev. post.
  rewrite post_answer. split; [|done]. intros [] Hlim. post. rewrite post_answer. split; [|done]. intros [] Hg. post.
  rewrite post_answer. split; [|done]. intros stored Hst. post. rewrite post_control.
  intros s1 [[n|n retry]|e] E1; [|done..]. post. rewrite post_control. cbn [fl_control with_ctx with_control fl_ctx].
  intros s2 [[st|st]|e] E2; [|done..]. post. cbn [fst snd fl_connections with_ctx with_control].
  set (t1 := min_opt expires_at _). set (t2 := min_opt t1 _). set (t3 := min_opt t2 _).
  destruct (min_opt_le expires_at (Z.add (seconds_of now) <$> max_stream_duration_seconds (eff_policy eff))) as [H1 H1'].
  destruct (min_opt_le t1 (px_entra_identity (fl_ctx f) ≫= EndpointAccess.expires_at)) as [H2 H2'].
  destruct (min_opt_le t2 (seconds_of <$> (stored ≫= Auth.expires_at))) as [H3 H3'].
  fold t1 in H1, H1'. fold t2 in H2, H2'. fold t3 in H3, H3'.
  apply ok_or_Ok in Hk, Hs.
  split; [|split; [lia|done]]. constructor. exists key, service, eff. split_and!; try done.
  - by apply try_for_each_ok in Hg.
  - intros seconds Hm. rewrite Hm in H1'. specialize (H1' _ eq_refl). lia.
  - intros i expiry Hi Hx. rewrite Hi in H2'. cbn in H2'. specialize (H2' _ Hx). lia.
  - exists stored. split; [done|]. intros k expiry -> Hx. cbn in H3'. rewrite Hx in H3'. specialize (H3' _ eq_refl). lia.
  - by exists s1, s2, st, n.
Qed.

(** An admitted socket session has a lease counted within the limits of
    the endpoint, scanners for both directions with the endpoint's frame limit
    and an expiry in the future that the endpoint's maximal duration bounds.
    Under a Relayna key its policy admitted it, no guardrail that could not
    inspect it applies, a request of the minute and a budget were granted, and
    the session ends no later than the policy's streaming limit, the verified
    identity and the key itself. *)
Theorem socket_session_bounded f f' :
  admit_websocket f = (f', Ok tt) →
  ∃ settings route e, websocket (px_access (fl_ctx f)) = Some settings ∧ websocket_validate settings = Ok tt ∧
    px_match (fl_ctx f) = Some route ∧
    acquire (fl_connections f) e.1 e.2 (max_connections settings) (max_connections_per_key settings) = Ok (fl_connections f', e) ∧
    px_socket_state (fl_ctx f') = set_session e (max_frame_bytes settings) (px_socket_state (fl_ctx f')) ∧
    seconds_of now < px_socket_expires_at (fl_ctx f') ≤ seconds_of now + max_session_duration_seconds settings ∧
    (px_direct_litellm_passthrough (fl_ctx f) = false →
       governed_session f route e (px_socket_expires_at (fl_ctx f')) ∧ px_budget_reserved (fl_ctx f') = true).
Proof.
  intros E. pose (Q := λ (_ : unit) (f' : Flow C), ∃ settings route e, websocket (px_access (fl_ctx f)) = Some settings ∧
    websocket_validate settings = Ok tt ∧ px_match (fl_ctx f) = Some route ∧
    acquire (fl_connections f) e.1 e.2 (max_connections settings) (max_connections_per_key settings) = Ok (fl_connections f', e) ∧
    px_socket_state (fl_ctx f') = set_session e (max_frame_bytes settings) (px_socket_state (fl_ctx f')) ∧
    seconds_of now < px_socket_expires_at (fl_ctx f') ≤ seconds_of now + max_session_duration_seconds settings ∧
    (px_direct_litellm_passthrough (fl_ctx f) = false →
       governed_session f route e (px_socket_expires_at (fl_ctx f')) ∧ px_budget_reserved (fl_ctx f') = true)).
  enough (post admit_websocket Q (λ _ _, True) f) as P by exact (post_run _ _ _ _ _ _ P E). clear E f'.
  unfold admit_websocket. post. rewrite post_answer. split; [|done]. intros settings Hset. post.
  rewrite post_answer. split; [|done]. intros [] Hval. post. rewrite post_answer. split; [|done]. intros route Hroute.
  cbv zeta. post. apply post_mono with (λ who f', fl_connections f' = fl_connections f ∧
      who.2 ≤ seconds_of now + max_session_duration_seconds settings ∧
      (px_direct_litellm_passthrough (fl_ctx f) = false → governed_session f route who.1 who.2 ∧
         px_budget_reserved (fl_ctx f') = true)) (λ _ _, True); [| |done].
  - rewrite post_if. split; intros Hd.
    + unfold admit_direct. post. rewrite post_answer. split; [|done]. intros on _. post. rewrite post_ensure.
      split; [|done]. intros _. post. rewrite post_answer. split; [|done]. intros u _. post. split_and!; [done|cbn; lia|].
      cbn [id] in Hd. congruence.
    + eapply post_mono; [apply admit_service_post| |done]. intros who f1 (Hg & Hle & Hc & Hr & _). done.
  - intros [[scope id_] t] f1 (Hc & Hle & Hg). cbn [fst snd] in *. post. rewrite post_ensure. split; [|done].
    intros Hnow%negb_true_iff%Z.leb_gt. unfold acquire_connection. post. rewrite post_answer. split; [|done].
    intros [m e] Ha. post. cbn [fst snd]. rewrite Hc in Ha. exists settings, route, e.
    assert (e = (scope, id_)) as -> by (unfold acquire in Ha; destruct (_ || _); [done|by injection Ha as _ <-]).
    apply ok_or_Ok in Hset, Hroute. cbn [id] in Hset, Hroute. split_and!; done.
Qed.
End sockets.

(** ** A session of a registered service *)

#[local] Existing Instances Tame.tame_control.
Module Session.
Definition endpoint : EndpointAccess :=
  {| authentication_profiles := None; skip_entra := true; entra := None; accessa := None;
     websocket := Some WebSocketSettings_default; user_token_forwarding := None |}.
Definition handshake : Flow Tame.store :=
  Tame.flow (set_access endpoint (set_key {| Auth.key_id := "k"; Auth.project_id := None; key_prefix := "p" |}
    (set_match (route_match_service ServiceWildcard "live") (new_ctx "x-relayna-key" "req-1" "res-1")))) ∅.
Definition policy : EffectivePolicy :=
  {| eff_policy := neutral_layer 1; eff_guardrail_policy := GuardrailPolicy_default; applied_layers := [] |}.
Definition opened : Flow Tame.store * GatewayResult unit :=
  admit_websocket (λ _, Ok true) (Ok policy) (λ _, Ok None) (Ok Tame.nothing_spent) (λ _, "") 5000000 handshake.
Lemma opened_ok : opened = (opened.1, Ok tt).
Proof. vm_compute. reflexivity. Qed.
End Session.

Lemma socket_session_bounded_witness :
  seconds_of 5000000 < px_socket_expires_at (fl_ctx Session.opened.1) ≤ seconds_of 5000000 + 3600.
Proof.
  pose proof Session.opened_ok as E. revert E. unfold Session.opened at 1. generalize (Session.opened.1). intros f' E.
  destruct (socket_session_bounded _ _ _ _ _ _ _ _ E) as (settings & route & e & Hs & _ & _ & _ & _ & Ht & _).
  injection Hs as <-. exact Ht.
Defined.
