(* ===== verification/AccessaRuntime.v ===== *)
(** * Accessa sessions and turns

    Models [crates/gateway-core/src/accessa.rs] and the admission of
    connections and turns in [crates/gateway-proxy/src/accessa_runtime.rs].  A
    connection leaves a snapshot of what it was admitted with in the shared
    store, under a fresh token; each turn presents the token and is checked
    again against the current key, endpoint and policy, and charged to the
    rate limit once.  JSON and UUIDs are parameters; the diagnostics of the
    authentication profile that the snapshot carries are left out. *)

From S2P Require Import Prelude SocketFrames ConnectionLimits Errors Routing Json GuardrailPolicy Policies Guardrails Budgets RateLimits BodyAdmission BodyRewrite EndpointAccess Foundry ServiceTypes ServicePricing ResponseCost Usage UsageCost RequestBody CompleteBody Auth ProviderConfigs Headers Upstream ProxyContext Entra Stages Settlement RequestFilter SocketAdmission.
#[local] Open Scope stage_scope.

#[global] Instance EndpointEntraPolicy_eq_dec : EqDecision EndpointEntraPolicy.
Proof. solve_decision. Defined.
#[global] Instance ProfileAuthentication_eq_dec : EqDecision ProfileAuthentication.
Proof. solve_decision. Defined.
#[global] Instance AuthenticationProfile_eq_dec : EqDecision AuthenticationProfile.
Proof. solve_decision. Defined.
#[global] Instance ProfileBinding_eq_dec : EqDecision ProfileBinding.
Proof. solve_decision. Defined.
#[global] Instance AuthenticationProfiles_eq_dec : EqDecision AuthenticationProfiles.
Proof. solve_decision. Defined.
#[global] Instance AccessaBinding_eq_dec : EqDecision AccessaBinding.
Proof. solve_decision. Defined.
#[global] Instance WebSocketSettings_eq_dec : EqDecision WebSocketSettings.
Proof. solve_decision. Defined.
#[global] Instance UserTokenForwarding_eq_dec : EqDecision UserTokenForwarding.
Proof. solve_decision. Defined.
#[global] Instance EndpointAccess_eq_dec : EqDecision EndpointAccess.
Proof. solve_decision. Defined.

Record AccessaSession := {
  se_key_id : string;
  se_key_prefix : string;
  se_service_name : string;
  se_identity : EntraIdentityContext;
  se_access : EndpointAccess;
  se_expires_at : Z
}.

Definition session_of (key : AuthenticatedKey) (service : string) (identity : EntraIdentityContext)
    (a : EndpointAccess) (expires_at : Z) : AccessaSession :=
  {| se_key_id := Auth.key_id key; se_key_prefix := key_prefix key; se_service_name := service;
     se_identity := identity; se_access := a; se_expires_at := expires_at |}.

(** The end of [admit_turn] as the sequence of operations it makes on the
    store, so that calls for one turn can be interleaved. *)
Inductive charging : Type :=
| Putting
| Rating
| Accepting
| Withdrawing (e : GatewayError)
| Reading
| Charged (r : GatewayResult unit).

Section accessa.
Context {C : Type} `{ControlState C} `{BudgetSettlement C} `{AccessaStore C}.
(** [Uuid::parse_str] with its canonical text, and SHA-256 in hexadecimal. *)
Variable parse_uuid : string → option string.
Variable sha256_hex : string → string.
(** [serde_json] on a session. *)
Variable session_text : AccessaSession → option string.
Variable session_of_text : string → option AccessaSession.
(** The database as it answers this request. *)
Variable policy_for : AuthenticatedKey → GatewayResult EffectivePolicy.
Variable committed_spend : GatewayResult (BudgetState f64).
Variable find_by_prefix : string → GatewayResult (option StoredVirtualKey).
Variable service_registration : string → GatewayResult (option ServiceRegistration).
(** The clock when the policy, the rate, the budget and the expiry are looked at. *)
Variables now_policy now_rate now_budget now : Z.

Definition session_store_key (token : string) : GatewayResult string :=
  check? ok_or (parse_uuid token) InvalidVirtualKey in
  Ok ("accessa:session:" +:+ sha256_hex token).

(** An empty allowlist does not grant Accessa access. *)
Definition accessa_policy (key : AuthenticatedKey) (service : string) (stream : bool) : GatewayResult KeyPolicy :=
  let? effective := policy_for key in
  let policy := eff_policy effective in
  if negb (existsb (String.eqb service) (allowed_services policy)) then Err PolicyDenied
  else
    check? evaluate_policy policy ServiceWildcard InternalService
             {| feat_model := None; feat_stream := stream; feat_tools := false; feat_service_name := Some service |} in
    check? evaluate_policy_limits policy now_policy None None None None None in
    Ok policy.

Definition accessa_budget (key : AuthenticatedKey) (policy : KeyPolicy) : callback (C := C) unit :=
  let ask := control (bs_check (Auth.key_id key) (daily_budget_usd policy) (monthly_budget_usd policy) now_budget) in
  do first <- attempt ask;
  do decision <- (match first with
                  | Err ControlStateUnavailable =>
                      do committed <- answer committed_spend;
                      control (cs_seed_committed (Auth.key_id key) committed now_budget) ;;
                      ask
                  | r => answer r
                  end);
  match decision with
  | BudgetAllowed _ => sret tt
  | BudgetExceeded _ => throw Errors.BudgetExceeded
  end.

Definition rate_verdict (d : RateLimitDecision) : GatewayResult unit :=
  match d with RateAllowed _ => Ok tt | RateExceeded _ retry => Err (RateLimitExceeded retry) end.
Definition accessa_rate (key : AuthenticatedKey) (policy : KeyPolicy) : callback (C := C) unit :=
  do d <- control (cs_request_rate (Auth.key_id key) (rpm_limit policy) now_rate);
  answer (rate_verdict d).

(** ** Connections *)

(** [token] is the fresh UUID. *)
Definition open_session (key : AuthenticatedKey) (service : string) (identity : EntraIdentityContext) (token : string) :
    callback (C := C) unit :=
  do a <- ctx px_access;
  do expiry <- answer (ok_or (EndpointAccess.expires_at identity) ExpiredEntraToken);
  let expires_at := Z.min expiry (seconds_of now + 3600) in
  ensure (negb (expires_at <=? seconds_of now)) ExpiredEntraToken ;;
  do value <- answer (ok_or (session_text (session_of key service identity a expires_at)) InvalidConfiguration);
  do stored <- answer (session_store_key token);
  do _written <- control (as_put stored value (expires_at - seconds_of now) false);
  on_ctx (set_admission_token (Some token)) ;;
  on_ctx (set_socket_expiry expires_at).

Definition admit_accessa_connection (key : AuthenticatedKey) (token : string) : callback (C := C) unit :=
  do c <- ctx id;
  do service <- answer (ok_or (px_match c ≫= rm_service_name) MissingService);
  do identity <- answer (ok_or (px_entra_identity c) MissingEntraAuthorization);
  ensure (negb (is_none_or is_empty (object_id identity))) InsufficientEntraAuthorization ;;
  do policy <- answer (accessa_policy key service (px_socket c));
  accessa_rate key policy ;;
  accessa_budget key policy ;;
  on_ctx (set_policy policy) ;;
  do binding <- answer (ok_or (accessa (px_access c)) InvalidConfiguration);
  (if px_socket c then
     do lease <- acquire_connection service (Auth.key_id key) (accessa_max_connections binding)
                   (accessa_max_connections_per_key binding);
     on_ctx (λ c, set_socket_state (set_session lease (accessa_max_frame_bytes binding) (px_socket_state c)) c) ;;
     on_ctx (set_streaming true)
   else sret tt) ;;
  if is_some (app binding) then open_session key service identity token else sret tt.

(** ** Turns *)

(** One operation on the store. *)
Definition charge_step (key : AuthenticatedKey) (policy : KeyPolicy) (turn_key : string) (ttl : Z) (p : charging) (s : C) :
    C * charging :=
  match p with
  | Putting =>
      match as_put turn_key "pending" ttl true s with
      | (s, Ok true) => (s, Rating)
      | (s, Ok false) => (s, Reading)
      | (s, Err e) => (s, Charged (Err e))
      end
  | Rating =>
      match cs_request_rate (Auth.key_id key) (rpm_limit policy) now_rate s with
      | (s, Ok d) => match rate_verdict d with Ok _ => (s, Accepting) | Err e => (s, Withdrawing e) end
      | (s, Err e) => (s, Withdrawing e)
      end
  | Withdrawing e =>
      match as_delete turn_key s with
      | (s, Ok _) => (s, Charged (Err e))
      | (s, Err e) => (s, Charged (Err e))
      end
  | Accepting =>
      match as_put turn_key "accepted" ttl false s with
      | (s, Ok _) => (s, Charged (Ok tt))
      | (s, Err e) => (s, Charged (Err e))
      end
  | Reading =>
      match as_get turn_key s with
      | (s, Ok v) => (s, Charged (if bool_decide (v = Some "accepted") then Ok tt else Err (RateLimitExceeded (Some 1))))
      | (s, Err e) => (s, Charged (Err e))
      end
  | Charged r => (s, Charged r)
  end.
(** At most three operations are made. *)
Definition charge_turn (key : AuthenticatedKey) (policy : KeyPolicy) (turn_key : string) (ttl : Z) : callback (C := C) unit :=
  control (λ s,
    let step := charge_step key policy turn_key ttl in
    let '(s, p) := step Putting s in
    let '(s, p) := step p s in
    let '(s, p) := step p s in
    (s, match p with Charged r => r | _ => Err ControlStateUnavailable end)).

(** The key of the session as it is stored now. *)
Definition live_key (session : AccessaSession) : GatewayResult AuthenticatedKey :=
  let? found := find_by_prefix (se_key_prefix session) in
  let? stored := ok_or found InvalidVirtualKey in
  if negb (String.eqb (stored_id stored) (se_key_id session)) then Err InvalidVirtualKey
  else if disabled stored then Err DisabledVirtualKey
  else if is_some (revoked_at stored) then Err RevokedVirtualKey
  else if is_some_and (λ expiry, expiry <=? now) (Auth.expires_at stored) then Err ExpiredVirtualKey
  else Ok {| Auth.key_id := stored_id stored; Auth.project_id := stored_project_id stored;
             key_prefix := stored_key_prefix stored |}.

(** The endpoint is still the one the session was opened for, and admits it. *)
Definition same_endpoint (session : AccessaSession) : GatewayResult unit :=
  let? found := service_registration (se_service_name session) in
  let? registration := ok_or found MissingService in
  if negb (enabled registration) then Err DisabledService
  else if negb (bool_decide (access registration = se_access session))
          || is_none_or (λ b, is_none (app b)) (accessa (access registration))
  then Err PolicyDenied
  else
    let? policy := identity_for_key (se_access session) (se_key_id session) in
    let? policy := ok_or policy InvalidConfiguration in
    authorize policy (se_identity session) (seconds_of now).

(** What the context learns of a turn. *)
Definition note_turn (key : AuthenticatedKey) (session : AccessaSession) (turn : string) (c : PingoraContext) : PingoraContext :=
  let path := ADMISSION_PREFIX +:+ turn in
  set_run_id (Some turn) (set_access (se_access session)
    (set_match (route_match_service ServiceWildcard (se_service_name session))
      (set_route ServiceWildcard (set_key key (set_pricing
        {| route_match := route_match (px_pricing c); ctx_access := ctx_access (px_pricing c); socket := socket (px_pricing c);
           litellm_passthrough := litellm_passthrough (px_pricing c); service_cost_mode := service_cost_mode (px_pricing c);
           service_estimated_cost_usd := service_estimated_cost_usd (px_pricing c);
           service_pricing_rules := service_pricing_rules (px_pricing c);
           http_method := Some "POST"; endpoint_path := Some path;
           endpoint_template := Some (ADMISSION_PREFIX +:+ "{turn_id}");
           resolved_endpoint_cost := resolved_endpoint_cost (px_pricing c);
           resolved_service_cost := resolved_service_cost (px_pricing c);
           response_cost_observer := response_cost_observer (px_pricing c);
           response_body_prefix := response_body_prefix (px_pricing c) |} c))))).

Definition opt_text (o : option string) : Value := match o with Some s => JString s | None => JNull end.
Definition turn_reply (turn : string) (key : AuthenticatedKey) (session : AccessaSession) : Value :=
  JObject [("admission_id", JString turn); ("key_id", JString (Auth.key_id key)); ("service", JString (se_service_name session));
           ("caller_oid", opt_text (object_id (se_identity session)));
           ("app", opt_text (accessa (se_access session) ≫= app));
           ("channel", opt_text (channel <$> accessa (se_access session))); ("charged", JBool false)].

Context {HM : Type} `{HeaderMap HM}.
Definition turn_request (r : RequestHeader HM) : GatewayResult (string * string) :=
  if negb (String.eqb (rq_method r) POST) || contains_key "transfer-encoding" (rq_headers r)
     || is_some_and (λ v, negb (String.eqb v "0")) (header_value (rq_headers r) "content-length")
  then Err InvalidServicePayload
  else
    let? turn := ok_or (strip_prefix ADMISSION_PREFIX (uri_path (rq_uri r)) ≫= parse_uuid) InvalidServicePayload in
    let? token := ok_or (header_value (rq_headers r) ADMISSION_CONTEXT_HEADER) MissingAuthorization in
    Ok (turn, token).

Definition admit_turn (r : RequestHeader HM) : callback (C := C) Value :=
  do request <- answer (turn_request r);
  let '(turn, token) := request in
  do session_key <- answer (session_store_key token);
  do value <- control (as_get session_key);
  do value <- answer (ok_or value InvalidVirtualKey);
  do session <- answer (ok_or (session_of_text value) ControlStateUnavailable);
  ensure (negb (se_expires_at session <=? seconds_of now)) ExpiredEntraToken ;;
  do key <- answer (live_key session);
  on_ctx (note_turn key session turn) ;;
  answer (same_endpoint session) ;;
  do policy <- answer (accessa_policy key (se_service_name session) true);
  accessa_budget key policy ;;
  charge_turn key policy (session_key +:+ ":turn:" +:+ turn) (se_expires_at session - seconds_of now) ;;
  sret (turn_reply turn key session).

(** The reply is the body of a 200 response. *)
Definition handle_accessa_admission (r : RequestHeader HM) : callback (C := C) Value := answered (admit_turn r).
End accessa.
