(* ===== verification/AccessaTurns.v ===== *)
(** * Turns of an Accessa session

    The theorems of [AccessaRuntime]: an admitted turn was checked against the
    current key, endpoint and policy, and a turn is charged once, whatever
    calls for it run at the same time. *)

From S2P Require Import Prelude SocketFrames ConnectionLimits Errors Routing Json GuardrailPolicy Policies Guardrails Budgets RateLimits BodyAdmission BodyRewrite EndpointAccess Foundry ServiceTypes ServicePricing ResponseCost Usage UsageCost RequestBody CompleteBody Auth ProviderConfigs Headers Upstream ProxyContext UpstreamRequest Entra Stages Settlement RequestFilter SocketAdmission AccessaRuntime.

(** ** The store *)

(** What [AccessaStore] promises while nothing expires: a write that fails
    may have happened, and the rate limiter keeps its counters elsewhere. *)
Class AccessaStoreLaws (C : Type) `{ControlState C} `{AccessaStore C} := {
  as_view : C → gmap string string;
  as_get_view k s s' r : as_get k s = (s', r) → as_view s' = as_view s ∧ ∀ v, r = Ok v → v = as_view s !! k;
  as_put_view k v ttl nx s s' r : as_put k v ttl nx s = (s', r) →
    match r with
    | Ok true => (nx = true → as_view s !! k = None) ∧ as_view s' = <[k := v]> (as_view s)
    | Ok false => nx = true ∧ is_Some (as_view s !! k) ∧ as_view s' = as_view s
    | Err _ => as_view s' = as_view s ∨ ((nx = true → as_view s !! k = None) ∧ as_view s' = <[k := v]> (as_view s))
    end;
  as_delete_view k s s' r : as_delete k s = (s', r) →
    as_view s' = delete k (as_view s) ∨ (is_ok r = false ∧ as_view s' = as_view s);
  as_rate_view k limit now s s' r : cs_request_rate k limit now s = (s', r) → as_view s' = as_view s
}.

(** ** Calls for one turn *)

Section turns.
Context {C : Type} `{HC : ControlState C} `{HA : AccessaStore C} `{HL : !AccessaStoreLaws C}.
Variable now_rate : Z.
Variable turn_key : string.

Record Turns := {
  ts_store : C;
  ts_calls : gmap nat charging;
  ts_allowed : Z;
  ts_rated : list (nat * bool)
}.
(** The rate limiter granted the call a request. *)
Definition granted (p p' : charging) : Z := match p, p' with Rating, Accepting => 1 | _, _ => 0 end.
(** The rate limiter was asked for the call, and what came of it: it counts a
    request whether it grants it, refuses it or its answer is lost. *)
Definition asked (i : nat) (p p' : charging) : list (nat * bool) :=
  match p with Rating => [(i, match p' with Accepting => true | _ => false end)] | _ => [] end.

Inductive turn_step : Turns → Turns → Prop :=
| step_arrive w i : ts_calls w !! i = None →
    turn_step w {| ts_store := ts_store w; ts_calls := <[i := Putting]> (ts_calls w); ts_allowed := ts_allowed w;
                  ts_rated := ts_rated w |}
| step_charge w i p key policy ttl s' p' :
    ts_calls w !! i = Some p → charge_step now_rate key policy turn_key ttl p (ts_store w) = (s', p') →
    turn_step w {| ts_store := s'; ts_calls := <[i := p']> (ts_calls w); ts_allowed := ts_allowed w + granted p p';
                  ts_rated := ts_rated w ++ asked i p p' |}
| step_others w s' : as_view s' !! turn_key = as_view (ts_store w) !! turn_key →
    turn_step w {| ts_store := s'; ts_calls := ts_calls w; ts_allowed := ts_allowed w; ts_rated := ts_rated w |}.

Definition working (p : charging) : bool :=
  match p with Rating | Accepting | Withdrawing _ => true | _ => false end.

(** The call that may write, if there is one, with what the turn's entry says. *)
Record turn_inv (w : Turns) : Prop := {
  ti_entry : as_view (ts_store w) !! turn_key ∈ [None; Some "pending"; Some "accepted"];
  ti_count : 0 ≤ ts_allowed w ≤ 1;
  ti_absent : as_view (ts_store w) !! turn_key = None → ts_allowed w = 0;
  ti_accepted : as_view (ts_store w) !! turn_key = Some "accepted" → ts_allowed w = 1;
  ti_working : ∀ i p, ts_calls w !! i = Some p → working p = true →
    as_view (ts_store w) !! turn_key = Some "pending" ∧
    ts_allowed w = (match p with Accepting => 1 | _ => 0 end) ∧
    ∀ j q, ts_calls w !! j = Some q → working q = true → j = i;
  ti_charged : ∀ i, ts_calls w !! i = Some (Charged (Ok tt)) → ts_allowed w = 1
}.

Abbreviation entry_of w := (as_view (ts_store w) !! turn_key).
Abbreviation moved w s' i p' n l := {| ts_store := s'; ts_calls := <[i := p']> (ts_calls w); ts_allowed := n; ts_rated := l |}.
Abbreviation fresh s := {| ts_store := s; ts_calls := ∅; ts_allowed := 0; ts_rated := [] |}.

Lemma turn_inv_start s : as_view s !! turn_key = None → turn_inv (fresh s).
Proof. intros Hs. constructor; cbn; rewrite ?Hs; try done; left. Qed.

(** A call that does not write the entry. *)
Lemma idle_step w s' i p' l :
  turn_inv w → as_view s' !! turn_key = entry_of w → working p' = false →
  (p' = Charged (Ok tt) → ts_allowed w = 1) → turn_inv (moved w s' i p' (ts_allowed w) l).
Proof.
  intros I Hv Hp Hc. destruct I as [I1 I2 I3 I4 I5 I6]. constructor; cbn; rewrite ?Hv; try done.
  - intros j q Hj Hq. apply lookup_insert_Some in Hj as [[<- <-]|[Hne Hj]]; [congruence|].
    destruct (I5 _ _ Hj Hq) as (? & ? & Hu). split_and!; [done..|]. intros k r Hk Hr.
    apply lookup_insert_Some in Hk as [[<- <-]|[_ Hk]]; [congruence|eauto].
  - intros j Hj. apply lookup_insert_Some in Hj as [[_ ?]|[_ Hj]]; eauto.
Qed.

(** The call that holds the entry, or takes it while nobody holds it. *)
Lemma owner_step w s' i p' n l :
  turn_inv w → (∀ j q, ts_calls w !! j = Some q → working q = true → j = i) →
  (as_view s' !! turn_key ∈ [None; Some "pending"; Some "accepted"]) → ts_allowed w ≤ n ≤ 1 →
  (as_view s' !! turn_key = None → n = 0) → (as_view s' !! turn_key = Some "accepted" → n = 1) →
  (working p' = true → as_view s' !! turn_key = Some "pending" ∧ n = match p' with Accepting => 1 | _ => 0 end) →
  (p' = Charged (Ok tt) → n = 1) → turn_inv (moved w s' i p' n l).
Proof.
  intros I Ho Hv Hn H0 H1 Hw Hc. destruct I as [_ I2 _ _ _ I6]. constructor; cbn; try done; [lia|..].
  - intros j q Hj Hq. assert (j = i) as ->.
    { apply lookup_insert_Some in Hj as [[<- _]|[_ Hj]]; eauto. }
    rewrite lookup_insert_eq in Hj. injection Hj as <-. destruct (Hw Hq). split_and!; [done..|].
    intros k r Hk Hr. apply lookup_insert_Some in Hk as [[<- _]|[_ Hk]]; eauto.
  - intros j Hj. apply lookup_insert_Some in Hj as [[_ ?]|[_ Hj]]; [auto|]. specialize (I6 _ Hj). lia.
Qed.

Lemma turn_inv_charge w i p key policy ttl s' p' l :
  turn_inv w → ts_calls w !! i = Some p → charge_step now_rate key policy turn_key ttl p (ts_store w) = (s', p') →
  turn_inv (moved w s' i p' (ts_allowed w + granted p p') l).
Proof using HL.
  intros I Hi Hs. pose proof I as [I1 I2 I3 I4 I5 I6]. destruct p; cbn [charge_step granted] in *.
  - destruct (as_put _ _ _ _ _) as [s1 r] eqn:Ep. apply as_put_view in Ep.
    assert (Hfree : entry_of w = None → ∀ j q, ts_calls w !! j = Some q → working q = true → j = i).
    { intros Hn j q Hj Hq. destruct (I5 _ _ Hj Hq). congruence. }
    assert (Htake : ∀ p', entry_of w = None → as_view s1 = <[turn_key:="pending"]> (as_view (ts_store w)) →
      p' ≠ Accepting → p' ≠ Charged (Ok tt) → turn_inv (moved w s1 i p' (ts_allowed w + 0) l)).
    { intros q Hn Hv Ha Hc. rewrite Z.add_0_r. pose proof (I3 Hn) as Hz. apply owner_step; rewrite ?Hv, ?lookup_insert_eq; try done; [by apply Hfree|right; left|lia|].
      intros _. split; [done|]. destruct q; try done; lia. }
    destruct r as [[]|e]; injection Hs as <- <-.
    + destruct Ep as [Hn Hv]. by apply Htake; [apply Hn|..].
    + destruct Ep as (_ & _ & Hv). rewrite Z.add_0_r. apply idle_step; [done|by rewrite Hv|done..].
    + destruct Ep as [Hv|[Hn Hv]]; [rewrite Z.add_0_r; apply idle_step; [done|by rewrite Hv|done..]|].
      by apply Htake; [apply Hn|..].
  - destruct (I5 _ _ Hi eq_refl) as (Hv & Hz & Hu).
    assert (Hgo : ∀ s1 q n, as_view s1 = as_view (ts_store w) → working q = true → n = match q with Accepting => 1 | _ => 0 end →
      turn_inv (moved w s1 i q n l)).
    { intros s1 q n Hs1 Hq ->. apply owner_step; rewrite ?Hs1; try done; [destruct q; lia|congruence|congruence|intros ->; done]. }
    destruct (cs_request_rate _ _ _ _) as [s1 [d|e]] eqn:Er; apply as_rate_view in Er.
    + destruct (rate_verdict d) as [[]|e]; injection Hs as <- <-; apply Hgo; rewrite ?Hz; done.
    + injection Hs as <- <-. apply Hgo; rewrite ?Hz; done.
  - destruct (I5 _ _ Hi eq_refl) as (Hv & Hz & Hu). rewrite Hz.
    destruct (as_put _ _ _ _ _) as [s1 r] eqn:Ep. apply as_put_view in Ep.
    assert (Hgo : ∀ r', as_view s1 !! turn_key ∈ [Some "pending"; Some "accepted"] → turn_inv (moved w s1 i (Charged r') 1 l)).
    { intros r' Hin. apply owner_step; try done; [by right|rewrite Hz; lia|].
      intros Hn. rewrite Hn in Hin. set_solver. }
    replace (1 + _) with 1 by (destruct p'; done).
    assert (Hin : as_view s1 !! turn_key ∈ [Some "pending"; Some "accepted"]).
    { destruct r as [[]|e]; [destruct Ep as [_ ->]|destruct Ep as (? & _); done|destruct Ep as [->|[_ ->]]];
        rewrite ?lookup_insert_eq, ?Hv; set_solver. }
    destruct r; injection Hs as <- <-; by apply Hgo.
  - destruct (I5 _ _ Hi eq_refl) as (Hv & Hz & Hu). rewrite Z.add_0_r.
    destruct (as_delete _ _) as [s1 r] eqn:Ed. apply as_delete_view in Ed.
    assert (Hgo : ∀ e', turn_inv (moved w s1 i (Charged (Err e')) (ts_allowed w) l)).
    { intros e'. assert (Hin : as_view s1 !! turn_key ∈ [None; Some "pending"])
        by (destruct Ed as [->|[_ ->]]; rewrite ?lookup_delete_eq, ?Hv; set_solver).
      apply owner_step; try done; [set_solver|rewrite Hz; lia|]. intros Ha. rewrite Ha in Hin. set_solver. }
    destruct r; injection Hs as <- <-; apply Hgo.
  - destruct (as_get _ _) as [s1 r] eqn:Eg. apply as_get_view in Eg as [Hv Hr]. rewrite Z.add_0_r.
    destruct r as [v|e]; injection Hs as <- <-; apply idle_step; rewrite ?Hv; try done.
    rewrite (Hr v eq_refl). case_bool_decide as Ha; [auto|done].
  - injection Hs as <- <-. rewrite Z.add_0_r. apply idle_step; try done. intros Hc. rewrite Hc in Hi. eauto.
Qed.

Lemma turn_inv_step w w' : turn_inv w → turn_step w w' → turn_inv w'.
Proof using HL.
  intros I Hstep. destruct Hstep as [w0 i Hi|w0 i p key policy ttl s' p' Hi Hs|w0 s' Hv].
  - by apply idle_step.
  - by eapply turn_inv_charge.
  - destruct I as [I1 I2 I3 I4 I5 I6]. constructor; cbn; rewrite ?Hv; done.
Qed.

(** A call that was rated is past it. *)
Definition past_rating (p : charging) : bool := match p with Accepting | Withdrawing _ | Charged _ => true | _ => false end.
Definition not_granted (e : nat * bool) : Prop := e.2 = false.
Record rated_inv (w : Turns) : Prop := {
  ri_once : NoDup (ts_rated w).*1;
  ri_past : ∀ i b, (i, b) ∈ ts_rated w → ∃ p, ts_calls w !! i = Some p ∧ past_rating p = true;
  ri_refused : ts_allowed w = 0 → Forall not_granted (ts_rated w);
  ri_granted : ts_allowed w = 1 → ∃ refused i, ts_rated w = refused ++ [(i, true)] ∧ Forall not_granted refused
}.
Lemma past_step key policy ttl p s s' p' : charge_step now_rate key policy turn_key ttl p s = (s', p') →
  past_rating p = true → past_rating p' = true.
Proof.
  destruct p; try done; cbn [charge_step]; [destruct (as_put _ _ _ _ _) as [? []]|destruct (as_delete _ _) as [? []]|]; by intros [= <- <-].
Qed.
Lemma rating_step key policy ttl s s' p' : charge_step now_rate key policy turn_key ttl Rating s = (s', p') →
  past_rating p' = true ∧ granted Rating p' = if (match p' with Accepting => true | _ => false end) then 1 else 0.
Proof.
  cbn [charge_step]. destruct (cs_request_rate _ _ _ _) as [s1 [d|e]]; [destruct (rate_verdict d)|]; by intros [= <- <-].
Qed.
Lemma rated_inv_charge w i p key policy ttl s' p' : turn_inv w → rated_inv w → ts_calls w !! i = Some p →
  charge_step now_rate key policy turn_key ttl p (ts_store w) = (s', p') →
  rated_inv (moved w s' i p' (ts_allowed w + granted p p') (ts_rated w ++ asked i p p')).
Proof.
  intros I [R1 R2 R3 R4] Hi Hs.
  assert (∀ j b, (j, b) ∈ ts_rated w → ∃ q, <[i := p']> (ts_calls w) !! j = Some q ∧ past_rating q = true) as Hkeep.
  { intros j b Hj. destruct (R2 j b Hj) as (q & Hq & Hp). destruct (decide (j = i)) as [->|Hne].
    - exists p'. rewrite lookup_insert_eq. split; [done|]. rewrite Hi in Hq. injection Hq as ->. by eapply past_step.
    - exists q. by rewrite lookup_insert_ne. }
  assert (p = Rating ∨ p ≠ Rating) as [->|Hp] by (destruct p; auto).
  - destruct (rating_step _ _ _ _ _ _ Hs) as [Hpast Hg]. destruct (ti_working _ I _ _ Hi eq_refl) as (_ & Hz & _).
    assert (i ∉ (ts_rated w).*1) as Hnew.
    { intros ([j b] & Heq & Hj)%list_elem_of_fmap. cbn in Heq. subst j. destruct (R2 _ _ Hj) as (q & Hq & Hq'). rewrite Hi in Hq. by injection Hq as <-. }
    cbn [asked]. rewrite Hg, Hz. constructor; cbn.
    + rewrite fmap_app. apply NoDup_app. split_and!; [done| |by apply NoDup_singleton]. intros x Hx ->%list_elem_of_singleton. done.
    + intros j b [Hj|[= -> ->]%list_elem_of_singleton]%elem_of_app; [by eapply Hkeep|]. exists p'. by rewrite lookup_insert_eq.
    + intros H0. apply Forall_app. split; [by apply R3|]. repeat constructor. by destruct p'.
    + intros H1. exists (ts_rated w), i. split; [by destruct p'|by apply R3].
  - assert (asked i p p' = []) as -> by by destruct p. assert (granted p p' = 0) as -> by by destruct p.
    rewrite app_nil_r, Z.add_0_r. constructor; cbn; done.
Qed.
Lemma turn_invs_step w w' : turn_inv w ∧ rated_inv w → turn_step w w' → turn_inv w' ∧ rated_inv w'.
Proof using HL.
  intros [I R] Hstep. split; [by eapply turn_inv_step|].
  destruct Hstep as [w0 i Hi|w0 i p key policy ttl s' p' Hi Hs|w0 s' Hv]; [|by apply rated_inv_charge with key policy ttl|].
  - destruct R as [R1 R2 R3 R4]. constructor; cbn; try done. intros j b Hj. destruct (R2 j b Hj) as (q & Hq & Hp). exists q.
    rewrite lookup_insert_ne; [done|]. intros ->. congruence.
  - by destruct R as [R1 R2 R3 R4].
Qed.

(** C19: Whatever calls for one turn arrive and however their operations on the
    shared store interleave, fail or are lost, as long as the turn's entry does
    not expire, the rate limiter grants the turn at most one request, is not
    asked again for the turn once it did, and is asked at most once by each call;
    a call that is admitted is admitted on the strength of that one grant. Calls
    that the limiter refuses, or whose answer is lost, are counted by it all the
    same: they are the entries of the history without a grant. *)
Theorem turn_charged_once s w :
  as_view s !! turn_key = None → rtc turn_step (fresh s) w →
  NoDup (ts_rated w).*1 ∧
  (∀ before i afterwards, ts_rated w = before ++ (i, true) :: afterwards → afterwards = [] ∧ Forall not_granted before) ∧
  ∀ i, ts_calls w !! i = Some (Charged (Ok tt)) → ∃ refused j, ts_rated w = refused ++ [(j, true)].
Proof using HL.
  intros Hs Hr. assert (turn_inv w ∧ rated_inv w) as [[_ I2 _ _ _ I6] [R1 _ R3 R4]].
  { assert (turn_inv (fresh s) ∧ rated_inv (fresh s)) as I.
    { split; [by apply turn_inv_start|]. constructor; cbn; try done; [constructor|by intros i b ?%not_elem_of_nil]. }
    revert I. induction Hr as [|x y z Hxy _ IH]; [done|]. intros I. apply IH. by eapply turn_invs_step. }
  split; [done|]. split.
  - intros before i afterwards Hw. assert (ts_allowed w = 0 ∨ ts_allowed w = 1) as [Hz|Hz] by lia.
    + specialize (R3 Hz). rewrite Hw in R3. apply Forall_app in R3 as [_ [? _]%Forall_cons]. done.
    + destruct (R4 Hz) as (refused & j & Hj & Hf). rewrite Hw in Hj. destruct afterwards as [|e afterwards] using rev_ind.
      * apply app_inj_tail in Hj as [-> _]. done.
      * rewrite app_comm_cons, app_assoc in Hj. apply app_inj_tail in Hj as [<- _].
        apply Forall_app in Hf as [_ [? _]%Forall_cons]. done.
  - intros i Hi. destruct (R4 (I6 i Hi)) as (refused & j & Hj & _). eauto.
Qed.
End turns.

(** ** Admitted turns *)

Section admitted.
Context {C : Type} `{HC : ControlState C} `{HB : BudgetSettlement C} `{HA : AccessaStore C}.
Variable parse_uuid : string → option string.
Variable sha256_hex : string → string.
Variable session_of_text : string → option AccessaSession.
Variable policy_for : AuthenticatedKey → GatewayResult EffectivePolicy.
Variable committed_spend : GatewayResult (BudgetState f64).
Variable find_by_prefix : string → GatewayResult (option StoredVirtualKey).
Variable service_registration : string → GatewayResult (option ServiceRegistration).
Variables now_policy now_rate now_budget now : Z.
Context {HM : Type} `{HeaderMap HM}.
Abbreviation turn_admission :=
  (admit_turn parse_uuid sha256_hex session_of_text policy_for committed_spend find_by_prefix service_registration
     now_policy now_rate now_budget now).

(** The session's key is alive. *)
Record key_alive (session : AccessaSession) (key : AuthenticatedKey) : Prop := {
  ka_stored : ∃ stored, find_by_prefix (se_key_prefix session) = Ok (Some stored) ∧ stored_id stored = se_key_id session ∧
    disabled stored = false ∧ revoked_at stored = None ∧ (∀ expiry, Auth.expires_at stored = Some expiry → now < expiry) ∧
    key = {| Auth.key_id := stored_id stored; Auth.project_id := stored_project_id stored; key_prefix := stored_key_prefix stored |}
}.
(** Its endpoint is the one the session was opened for and still admits the identity. *)
Record endpoint_current (session : AccessaSession) : Prop := {
  ec_registered : ∃ registration p, service_registration (se_service_name session) = Ok (Some registration) ∧
    enabled registration = true ∧ access registration = se_access session ∧
    identity_for_key (se_access session) (se_key_id session) = Ok (Some p) ∧
    authorize p (se_identity session) (seconds_of now) = Ok tt
}.

Lemma live_key_ok session key : live_key find_by_prefix now session = Ok key → key_alive session key.
Proof.
  unfold live_key. destruct (find_by_prefix _) as [[stored|]|] eqn:E; [|done..]. cbn [ok_or].
  rewrite !guard_ok. intros (Hid%negb_false_iff%String.eqb_eq & Hd & Hr & He & [= <-]). constructor. exists stored.
  split_and!; try done; [by destruct (revoked_at stored)|]. intros expiry Hx. rewrite Hx in He. cbn in He.
  by apply Z.leb_gt in He.
Qed.
Lemma same_endpoint_ok session : same_endpoint service_registration now session = Ok tt → endpoint_current session.
Proof.
  unfold same_endpoint. destruct (service_registration _) as [[reg|]|] eqn:E; [|done..]. cbn [ok_or].
  rewrite !guard_ok. intros (Hen%negb_false_iff & [Ha%negb_false_iff%bool_decide_eq_true _]%orb_false_iff & Hp).
  destruct (identity_for_key _ _) as [[p|]|] eqn:Ei; [|done..]. constructor. by exists reg, p.
Qed.
(** The policy in force admits streamed requests to the service now: it names
    the service - an empty list does not grant it -, does not deny, and allows
    service routes, internal services, streaming and this hour. *)
Record turn_policy (key : AuthenticatedKey) (service : string) (policy : KeyPolicy) : Prop := {
  tp_effective : ∃ eff, policy_for key = Ok eff ∧ policy = eff_policy eff;
  tp_service : service ∈ allowed_services policy;
  tp_not_denied : deny policy = false;
  tp_route : allows_item (allowed_routes policy) ServiceWildcard;
  tp_provider : allows_item (allowed_providers policy) InternalService;
  tp_streaming : allow_streaming policy = true;
  tp_hour : allows_item (allowed_hours_utc policy) (hour now_policy)
}.
Lemma accessa_policy_ok key service policy :
  accessa_policy policy_for now_policy key service true = Ok policy → turn_policy key service policy.
Proof.
  unfold accessa_policy. destruct (policy_for key) as [eff|] eqn:E; [|done]. rewrite guard_ok, !check_ok.
  intros (Hs%negb_false_iff & (Hd & Hr & Hp & _ & _ & Hst & _)%evaluate_policy_ok & (Hh & _)%evaluate_policy_limits_ok & [= <-]).
  constructor; try done; [by exists eff| |by apply Hst].
  apply existsb_exists in Hs as (x & Hx%list_elem_of_In & ->%String.eqb_eq). done.
Qed.

(** The budget was found to be enough, and the context is untouched. *)
Definition budget_granted (key : AuthenticatedKey) (policy : KeyPolicy) : Prop :=
  ∃ s s' st, bs_check (C := C) (Auth.key_id key) (daily_budget_usd policy) (monthly_budget_usd policy) now_budget s = (s', Ok (BudgetAllowed st)).
Lemma accessa_budget_ok key policy (f : Flow C) :
  post (accessa_budget committed_spend now_budget key policy) (λ _ (f' : Flow C), fl_ctx f' = fl_ctx f ∧ budget_granted key policy)
    (λ _ (f' : Flow C), fl_ctx f' = fl_ctx f) f.
Proof.
  pose (K := λ f' : Flow C, fl_ctx f' = fl_ctx f).
  assert (Hdone : ∀ s s1 r (f1 : Flow C), bs_check (C := C) (Auth.key_id key) (daily_budget_usd policy) (monthly_budget_usd policy) now_budget s = (s1, r) →
    K f1 → post (answer r)
    (λ d : BudgetDecision f64, post (match d with BudgetAllowed _ => sret tt | BudgetExceeded _ => throw Errors.BudgetExceeded end)
      (λ _ f', K f' ∧ budget_granted key policy) (λ _, K)) (λ _, K) f1).
  { intros s s1 r1 f1 Hc Hf1. rewrite post_answer. split; [|done]. intros [st|st] ->; [|done]. split; [done|]. by exists s, s1, st. }
  unfold accessa_budget. post. rewrite post_control. intros s r Hr.
  destruct r as [d|e]; post; [by eapply Hdone|]. destruct e; post; try (by eapply Hdone).
  post. rewrite post_answer. split; [|done]. intros committed _. post. rewrite post_control. intros s1 [[]|e] _; [|done].
  post. rewrite post_control. intros s2 [[st|st]|e] Hr2; try done. split; [done|]. by exists s1, s2, st.
Qed.

(** C20: A turn is only admitted for a session that is stored under its token
    and not over, whose key is the stored one and alive, whose endpoint is
    registered, enabled, unchanged and still admits the verified identity, and
    whose effective policy names the service, does not deny, and allows service
    routes, internal services, streaming and the hour; the key's budget was found
    to be enough and the turn was charged or had been; the answer names that key
    and that identity. *)
Theorem turn_admitted_sound r f f' reply :
  turn_admission r f = (f', Ok reply) →
  ∃ turn token stored_at text session key policy,
    turn_request parse_uuid r = Ok (turn, token) ∧ session_store_key parse_uuid sha256_hex token = Ok stored_at ∧
    (as_get stored_at (fl_control f)).2 = Ok (Some text) ∧ session_of_text text = Some session ∧
    seconds_of now < se_expires_at session ∧ key_alive session key ∧ endpoint_current session ∧
    turn_policy key (se_service_name session) policy ∧ budget_granted key policy ∧
    (∃ f1, charge_turn now_rate key policy (stored_at +:+ ":turn:" +:+ turn) (se_expires_at session - seconds_of now) f1 = (f', Ok tt)) ∧
    reply = turn_reply turn key session ∧ fl_ctx f' = note_turn key session turn (fl_ctx f).
Proof.
  intros E. pose (Q := λ reply (f' : Flow C), ∃ turn token stored_at text session key policy,
    turn_request parse_uuid r = Ok (turn, token) ∧ session_store_key parse_uuid sha256_hex token = Ok stored_at ∧
    (as_get stored_at (fl_control f)).2 = Ok (Some text) ∧ session_of_text text = Some session ∧
    seconds_of now < se_expires_at session ∧ key_alive session key ∧ endpoint_current session ∧
    turn_policy key (se_service_name session) policy ∧ budget_granted key policy ∧
    (∃ f1, charge_turn now_rate key policy (stored_at +:+ ":turn:" +:+ turn) (se_expires_at session - seconds_of now) f1 = (f', Ok tt)) ∧
    reply = turn_reply turn key session ∧ fl_ctx f' = note_turn key session turn (fl_ctx f)).
  enough (post (turn_admission r) Q (λ _ _, True) f) as P by exact (post_run _ _ _ _ _ _ P E). clear E f' reply.
  unfold admit_turn. post. rewrite post_answer. split; [|done]. intros [turn token] Hreq. post.
  rewrite post_answer. split; [|done]. intros stored_at Hk. post. rewrite post_control. intros s1 [v|] Hget; [|done].
  post. rewrite post_answer. split; [|done]. intros text Htext%ok_or_Ok. subst v. post.
  rewrite post_answer. split; [|done]. intros session Hs%ok_or_Ok. post. rewrite post_ensure. split; [|done].
  intros Hexp%negb_true_iff%Z.leb_gt. post. rewrite post_answer. split; [|done]. intros key Hkey. post.
  rewrite post_answer. split; [|done]. intros [] Hend. post. rewrite post_answer. split; [|done]. intros policy Hpol. post.
  eapply post_mono; [apply accessa_budget_ok| |done]. intros [] f2 [Hf2 Hb]. cbv beta in Hf2.
  post. unfold post at 1. destruct (charge_turn _ _ _ _ _ f2) as [f3 [[]|]] eqn:Hch; [|done]. post.
  assert (fl_ctx f3 = fl_ctx f2) as Hf3 by (unfold charge_turn, control in Hch; by repeat case_match; simplify_eq).
  exists turn, token, stored_at, text, session, key, policy.
  split_and!; try done; [by rewrite Hget|by apply live_key_ok|by apply same_endpoint_ok|by apply accessa_policy_ok|by exists f2|].
  by rewrite Hf3, Hf2.
Qed.
End admitted.

(** ** Two calls for one turn, and a turn of an open session *)

#[local] Existing Instances Tame.tame_control Tame.tame_settlement Tame.tame_accessa Samples.headers.

#[export] Instance tame_laws : AccessaStoreLaws Tame.store.
Proof.
  refine {| as_view := λ s, s |};
    cbn [as_get as_put as_delete cs_request_rate Tame.tame_accessa Tame.tame_control].
  - intros k s s' r [= <- <-]. split; [done|]. by intros v [= <-].
  - intros k v ttl nx s s' r.
    destruct nx; cbn [andb]; [|by intros [= <- <-]].
    destruct ((s : gmap string string) !! k) as [x|] eqn:E; unfold Tame.store in *; rewrite ?E; cbn; by intros [= <- <-].
  - intros k s s' r [= <- <-]. by left.
  - by intros ? ? ? ? ? ? [= <- <-].
Defined.

Module Turn.
Definition policy : EffectivePolicy :=
  {| eff_policy := {| deny := false; allowed_routes := []; allowed_models := []; allowed_providers := [];
       allowed_services := ["hr"]; rpm_limit := Some 1; tpm_limit := None; daily_budget_usd := None; monthly_budget_usd := None;
       allow_streaming := true; allow_tools := true; max_requests_per_day := None; max_tokens_per_day := None;
       max_cost_per_request := None; max_input_tokens_per_request := None; max_output_tokens_per_request := None;
       allowed_hours_utc := []; unused_key_auto_disable_after_days := None; max_request_body_bytes := None;
       max_response_body_bytes := None; max_stream_duration_seconds := None; max_sse_event_bytes := None;
       max_tool_call_count := None; max_tool_schema_bytes := None; policy_version := 1 |};
     eff_guardrail_policy := GuardrailPolicy_default; applied_layers := [] |}.
Definition identity : EntraIdentityContext :=
  {| audiences := ["api://reports"]; EndpointAccess.expires_at := Some 1000; tenant_id := "tenant"; subject := None;
     object_id := Some "oid-1"; app_id := None; authorized_party := None; email := None; display_name := None;
     nonce := None; scopes := ["read"]; roles := []; groups := []; token_version := "2.0"; identity_source := Jwt |}.
Definition endpoint : EndpointAccess :=
  {| authentication_profiles := None; skip_entra := false; entra := Some reports_policy; accessa := Some Samples.binding;
     websocket := None; user_token_forwarding := None |}.
Definition registration : ServiceRegistration :=
  {| foundry := None; access := endpoint; name := "hr"; ServiceTypes.project_id := None; studio_service_id := None;
     service_route_pattern := "/app/hr/channel/teams/v1/*"; upstream_base_url := Some "https://hr.internal";
     health_check_path := None; health_check_method := "GET"; enabled := true; allowed_methods := ["POST"];
     timeout_ms := 60000; max_body_bytes := 2097152; cost_mode := CostFixed; estimated_cost_usd := None;
     pricing_rules := []; openapi_source_path := None; openapi_schema_hash := None; openapi_synced_at := None;
     openapi_endpoints := []; endpoint_pricing_rules := []; credential_secret := Some "secret"; fallback_services := [];
     source := SourceGateway; sync_status := SyncLocal; last_synced_at := None; disabled_at := None; created_at := 0; ServiceTypes.updated_at := 0 |}.
Definition key : AuthenticatedKey :=
  {| Auth.key_id := "0123456789abcdef"; Auth.project_id := None; key_prefix := "rk_live_01234567" |}.
Definition session : AccessaSession := session_of key "hr" identity endpoint 900.
Definition request : RequestHeader (list (string * string)) :=
  {| rq_method := "POST"; rq_http_11 := true; rq_headers := [(ADMISSION_CONTEXT_HEADER, "token-1")];
     rq_uri := {| uri_path := ADMISSION_PREFIX +:+ "turn-1"; uri_query := None; uri_path_and_query := None |} |}.
Definition before : Flow Tame.store :=
  Tame.flow (new_ctx "x-relayna-key" "req-1" "res-1") {["accessa:session:token-1" := "session"]}.
Definition admitted : Flow Tame.store * GatewayResult Value :=
  admit_turn Some id (λ _, Some session) (λ _, Ok policy) (Ok Tame.nothing_spent) (λ _, Ok (Some Auth.sample_stored))
    (λ _, Ok (Some registration)) 500 500 500 500 request before.
Lemma admitted_ok : admitted = (admitted.1, Ok (turn_reply "turn-1" key session)).
Proof. vm_compute. reflexivity. Qed.

(** The first call takes the turn; the second finds it pending and is refused. *)
Definition move (i : nat) (w : Turns (C := Tame.store)) : Turns :=
  match ts_calls w !! i with
  | Some p => let '(s, p') := charge_step 500 key (eff_policy policy) "t" 400 p (ts_store w) in
              {| ts_store := s; ts_calls := <[i := p']> (ts_calls w); ts_allowed := ts_allowed w + granted p p';
                 ts_rated := ts_rated w ++ asked i p p' |}
  | None => {| ts_store := ts_store w; ts_calls := <[i := Putting]> (ts_calls w); ts_allowed := ts_allowed w;
                  ts_rated := ts_rated w |}
  end.
Lemma move_step i w : turn_step 500 "t" w (move i w).
Proof.
  unfold move. destruct (ts_calls w !! i) as [p|] eqn:E; [|by constructor].
  destruct (charge_step _ _ _ _ _ _ _) as [s p'] eqn:E'. by econstructor.
Qed.
Definition raced : Turns := foldr move {| ts_store := ∅; ts_calls := ∅; ts_allowed := 0; ts_rated := [] |} [1; 2; 1; 2; 2; 1; 1; 2; 1]%nat.
End Turn.

Lemma turn_charged_once_witness :
  ts_calls Turn.raced !! 1%nat = Some (Charged (Ok tt)) ∧
  ts_calls Turn.raced !! 2%nat = Some (Charged (Err (RateLimitExceeded (Some 1)))) ∧
  ∃ refused j, ts_rated Turn.raced = refused ++ [(j, true)].
Proof.
  assert (H1 : ts_calls Turn.raced !! 1%nat = Some (Charged (Ok tt))) by (vm_compute; reflexivity).
  split; [exact H1|]. split; [vm_compute; reflexivity|].
  refine (proj2 (proj2 (turn_charged_once 500 "t" ∅ Turn.raced _ _)) 1%nat H1); [reflexivity|].
  unfold Turn.raced. generalize ([1; 2; 1; 2; 2; 1; 1; 2; 1]%nat). intros l.
  induction l as [|i l IH]; [constructor|]. eapply rtc_r; [exact IH|apply Turn.move_step].
Defined.

Lemma turn_admitted_sound_witness :
  key_alive (λ _, Ok (Some Auth.sample_stored)) 500 Turn.session Turn.key.
Proof.
  pose proof Turn.admitted_ok as E. revert E. unfold Turn.admitted at 1. generalize (Turn.admitted.1). intros f' E.
  destruct (turn_admitted_sound _ _ _ _ _ _ _ _ _ _ _ _ _ _ _ E)
    as (turn & token & at_ & text & session & key & policy & _ & _ & _ & Hs & _ & Hk & _ & _ & _ & _ & Hr & _).
  injection Hs as <-. destruct Hk as [(stored & Hf & Hi & Hd & Hv & He & ->)]. constructor. exists stored.
  split_and!; try done. by injection Hf as <-.
Defined.
