(* ===== verification/UpstreamAdmission.v ===== *)
(** * Admission before a request is forwarded

    Models [proxy_upstream_filter] of
    [crates/gateway-proxy/src/pingora_plane.rs], the last callback before an
    upstream is chosen: it decides whether a request is forwarded, under which
    policy, and reserves what can be reserved without the body.  A request that
    is refused is answered with the error the stage stops with.  The stores
    are parameters that answer this request; the Foundry token, with its
    timeout, is one too ([FoundryRuntime] models where it comes from). *)

From S2P Require Import Prelude SocketFrames ConnectionLimits Errors Routing RouteSettings Json GuardrailPolicy Policies OutputLimits Guardrails Budgets RateLimits BodyAdmission BodyRewrite EndpointAccess Foundry ServiceTypes ServicePricing ResponseCost Usage UsageCost RequestBody CompleteBody Auth ProviderConfigs Headers Upstream ProxyContext Entra Stages RequestFilter Settlement SocketAdmission AccessaRuntime.
#[local] Open Scope stage_scope.

Definition bypass_gateway_governance_for_passthrough (route : Route) (passthrough : bool) : bool :=
  passthrough && bool_decide (route = LiteLlmPassthrough).

Definition set_upstream_key (token : string) (c : PingoraContext) : PingoraContext :=
  match px_service_upstream c with
  | None => c
  | Some u =>
      set_service_upstream
        {| host := host u; port := port u; tls := tls u; sni := sni u; service_key := token;
           credential_header_mode := credential_header_mode u; credential_header_name := credential_header_name u;
           credential_header_value_format := credential_header_value_format u |} c
  end.

(** [i32::MAX] requests a minute: counted, never refused. *)
Definition i32_limit : Z := 2147483647.

Section forwarding.
Context {C : Type} `{ControlState C} `{BudgetSettlement C} `{AccessaStore C} `{SerdeJson}.
Variable pointer : Value → string → option Value.
Variable value_to_string : Value → string.
Variable sha256_hex : string → string.
Variable to_vec : Value → option string.
Variable ups : Upstreams.
Variable l : Lookups.
(** [effective_policy_for_context] of the key on the route, by model. *)
Variable policy_for : AuthenticatedKey → Route → option string → GatewayResult EffectivePolicy.
Variable committed_spend : GatewayResult (BudgetState f64).
Variable foundry_token : FoundryRuntimeConfig → GatewayResult string.
(** The admission of sessions: [admit_websocket] and [admit_accessa_connection]. *)
Variable socket_admission : callback (C := C) unit.
Variable accessa_admission : AuthenticatedKey → callback (C := C) unit.
(** [Session::is_body_empty], the latency so far, and the clocks. *)
Variable body_empty : bool.
Variables latency_ms now now_error : Z.
Variable failure_code : GatewayError → option string.

Section request.
Variable key : AuthenticatedKey.
Variable route : Route.

(** The error is recorded as the outcome of the request. *)
Definition refuse {A} (e : GatewayError) : callback (C := C) A :=
  record_terminal_usage from_slice_value pointer key route e latency_ms (failure_code e) now ;; throw e.
Definition checked {A} (r : GatewayResult A) : callback (C := C) A :=
  match r with Ok a => sret a | Err e => refuse e end.
(** An operation of the control state whose failure is recorded. *)
Definition checked_control {A} (op : C → C * GatewayResult A) : callback (C := C) A :=
  do r <- attempt (control op); checked r.

(** Wildcard routes of LiteLLM are delegated unless an output cap applies. *)
Definition delegate : callback (C := C) unit :=
  checked (let? effective := policy_for key route None in enforce_output_token_limit (eff_policy effective) route "").

(** Whether the budget can be reserved before the body is known. *)
Definition early (c : PingoraContext) : bool := body_empty || managed_service_request_can_stream (px_body_context c).

Definition govern_policy (matched : RouteMatch) : callback (C := C) (KeyPolicy * Z) :=
  do c <- ctx id;
  let prefix := body_prefix (px_body c) in
  let features := with_service (rm_service_name matched) (extract_generation_features prefix) in
  on_ctx (set_streaming (feat_stream features)) ;;
  do effective <- checked (policy_for key route (feat_model features));
  let policy := eff_policy effective in
  on_ctx (set_guardrail_policy (eff_guardrail_policy effective)) ;;
  checked (evaluate_policy policy route (rm_provider matched) features) ;;
  let tokens := if is_some (max_input_tokens_per_request policy) || is_some (tpm_limit policy)
                then estimate_generation_tokens from_slice_value prefix else 0 in
  do at_once <- ctx early;
  checked (evaluate_policy_limits policy now (i64_of_usize (body_bytes_seen (px_body c))) None (i32_of tokens) None
             (if at_once : bool then rm_estimated_cost_usd matched else None)) ;;
  (if body_empty then checked (check_complete_request_policy to_vec policy matched "" features now) else sret tt) ;;
  on_ctx (set_policy policy) ;;
  sret (policy, tokens).

(** One request of the minute, before forwarding. *)
Definition count_request (policy : KeyPolicy) : callback (C := C) unit :=
  do counted <- ctx px_request_rate_count;
  if is_some counted then sret tt
  else
    do at_once <- ctx early;
    let limit := match rpm_limit policy with Some n => Some n | None => if at_once : bool then None else Some i32_limit end in
    do decision <- checked_control (cs_request_rate (Auth.key_id key) limit now);
    match decision with
    | RateAllowed count => on_ctx (set_rate_count count)
    | RateExceeded _ retry => refuse (RateLimitExceeded retry)
    end.

Definition count_tokens (policy : KeyPolicy) (tokens : Z) : callback (C := C) unit :=
  do at_once <- ctx early;
  if at_once : bool then
    do decision <- checked_control (cs_token_rate (Auth.key_id key) (tpm_limit policy) tokens now);
    match decision with
    | RateAllowed _ => sret tt
    | RateExceeded _ retry => refuse (TokenRateLimitExceeded retry)
    end
  else sret tt.

Definition reserve_budget (matched : RouteMatch) (policy : KeyPolicy) : callback (C := C) unit :=
  do at_once <- ctx early;
  do c <- ctx id;
  do budget <- (if at_once : bool
     then checked_control (admit_request_budget committed_spend (Auth.key_id key) (px_reservation_id c)
            (default (f64_of_Z 0) (rm_estimated_cost_usd matched)) policy now)
     else sret (BudgetAllowed (Build_BudgetState (f64_of_Z 0) (f64_of_Z 0))));
  match budget with
  | BudgetExceeded _ => refuse Errors.BudgetExceeded
  | BudgetAllowed _ =>
      on_ctx (λ c, set_reserved_at (if at_once : bool then Some now else None) (set_reserved at_once c))
  end.

Definition use_foundry_token : callback (C := C) unit :=
  do c <- ctx id;
  match px_foundry c with
  | None => sret tt
  | Some (_, config) => do token <- checked (foundry_token config); on_ctx (set_upstream_key token)
  end.

Definition govern_request (matched : RouteMatch) : callback (C := C) unit :=
  do governed <- govern_policy matched;
  let '(policy, tokens) := governed in
  count_request policy ;; count_tokens policy tokens ;; reserve_budget matched policy ;; use_foundry_token.
End request.

(** A request under a Relayna key. *)
Definition forward_keyed (matched : RouteMatch) : callback (C := C) unit :=
  let route := rm_route matched in
  do c <- ctx id;
  do key <- answer (ok_or (px_key c) MissingAuthorization);
  (match px_guardrail_error c with
   | Some e => record_terminal_usage from_slice_value pointer key route e latency_ms (failure_code e) now_error ;; throw e
   | None => sret tt
   end) ;;
  if is_some (accessa (px_access c)) then accessa_admission key
  else
    on_ctx (λ c, set_pricing (prepare_service_cost_for_ctx (px_pricing c)) c) ;;
    (if body_empty
     then on_ctx (λ c, set_pricing (resolve_service_cost_for_ctx pointer value_to_string sha256_hex (px_pricing c) None) c)
     else sret tt) ;;
    do matched <- ctx (λ c, default matched (px_match c));
    checked key route (ensure_litellm_canonical_route_enabled l route) ;;
    if is_none (authentication_profiles (px_access c))
       && bypass_gateway_governance_for_passthrough route (px_passthrough c)
    then delegate key route
    else govern_request key route matched.

Definition proxy_upstream_filter : callback (C := C) unit :=
  answered (
    do c <- ctx id;
    do matched <- answer (ok_or (px_match c) UnsupportedRoute);
    ensure (is_some (upstream_for ups c)) InvalidConfiguration ;;
    if px_socket c && is_none (accessa (px_access c)) then socket_admission
    else if px_trusted_ingress_passthrough c then sret tt
    else if px_direct_litellm_passthrough c && is_litellm_canonical_route (rm_route matched)
    then answer (ensure_litellm_canonical_route_enabled l (rm_route matched))
    else if px_direct_litellm_passthrough c then sret tt
    else forward_keyed matched).

(** ** Forwarded requests *)

Lemma post_refused {A B} (m : callback (C := C) B) e (Q : A → Flow C → Prop) f :
  post (m ;; throw e) Q (λ _ _, True) f.
Proof. unfold post, sbind. by destruct (m f) as [f' [b|e']]. Qed.
Lemma post_checked {A} key route (r : GatewayResult A) Q f :
  (∀ a, r = Ok a → Q a f) → post (checked key route r) Q (λ _ _, True) f.
Proof. destruct r as [a|e]; [|intros _; apply post_refused]. intros HQ. by apply HQ. Qed.
Lemma post_checked_control {A} key route (op : C → C * GatewayResult A) Q f :
  (∀ s a, op (fl_control f) = (s, Ok a) → Q a (with_control s f)) →
  post (checked_control key route op) Q (λ _ _, True) f.
Proof.
  intros HQ. unfold checked_control. post. rewrite post_control. intros s [a|e] E; apply post_checked; [|done].
  intros b [= <-]. by apply HQ.
Qed.

(** How a request is paid for on its way from one state to another. *)
Record paid (key : AuthenticatedKey) (matched : RouteMatch) (policy : KeyPolicy) (tokens : Z) (f f' : Flow C) : Prop := {
  pd_counted : is_Some (px_request_rate_count (fl_ctx f'));
  pd_reserved : px_budget_reserved (fl_ctx f') = early (fl_ctx f');
  pd_spent : ∃ s1 s2,
    (if is_some (px_request_rate_count (fl_ctx f)) then s1 = fl_control f
     else ∃ limit n, cs_request_rate (Auth.key_id key) limit now (fl_control f) = (s1, Ok (RateAllowed n)) ∧
            px_request_rate_count (fl_ctx f') = Some n ∧ (∀ rpm, rpm_limit policy = Some rpm → limit = Some rpm)) ∧
    (if early (fl_ctx f')
     then (∃ n, cs_token_rate (Auth.key_id key) (tpm_limit policy) tokens now s1 = (s2, Ok (RateAllowed n))) ∧
          ∃ st, admit_request_budget committed_spend (Auth.key_id key) (px_reservation_id (fl_ctx f))
            (default (f64_of_Z 0) (rm_estimated_cost_usd matched)) policy now s2 = (fl_control f', Ok (BudgetAllowed st))
     else s2 = s1 ∧ fl_control f' = s2)
}.

Lemma early_upstream_key token c : early (set_upstream_key token c) = early c.
Proof. unfold set_upstream_key. by destruct (px_service_upstream c). Qed.

Lemma use_foundry_token_post key route f :
  post (use_foundry_token key route)
    (λ _ f', f' = f ∨ ∃ token, f' = with_ctx (set_upstream_key token (fl_ctx f)) f) (λ _ _, True) f.
Proof.
  unfold use_foundry_token. post. destruct (px_foundry (id (fl_ctx f))) as [[b config]|]; [|by left].
  post. apply post_checked. intros token _. post. right. by exists token.
Qed.

Lemma paid_post key route matched policy tokens f :
  post (count_request key route policy ;; count_tokens key route policy tokens ;; reserve_budget key route matched policy ;;
        use_foundry_token key route)
    (λ _ f', paid key matched policy tokens f f' ∧ px_policy (fl_ctx f') = px_policy (fl_ctx f)) (λ _ _, True) f.
Proof.
  pose (counted := λ f1 : Flow C, is_Some (px_request_rate_count (fl_ctx f1)) ∧ early (fl_ctx f1) = early (fl_ctx f) ∧
    px_reservation_id (fl_ctx f1) = px_reservation_id (fl_ctx f) ∧ px_policy (fl_ctx f1) = px_policy (fl_ctx f) ∧
    (if is_some (px_request_rate_count (fl_ctx f)) then fl_control f1 = fl_control f
     else ∃ limit n, cs_request_rate (Auth.key_id key) limit now (fl_control f) = (fl_control f1, Ok (RateAllowed n)) ∧
            px_request_rate_count (fl_ctx f1) = Some n ∧ (∀ rpm, rpm_limit policy = Some rpm → limit = Some rpm))).
  post. apply post_mono with (λ _, counted) (λ _ _, True); [| |done].
  { unfold count_request. post. unfold counted. destruct (px_request_rate_count (fl_ctx f)) as [n|] eqn:En; [by post|].
    cbn [is_some]. post. post. cbv zeta. post. apply post_checked_control. intros s [n|n r] E; [|apply post_refused].
    post. split_and!; try done. eexists _, n. split_and!; [done..|]. by intros rpm ->. }
  intros [] f1 (Hn & He & Hr & Hp & Hc). unfold count_tokens. post. rewrite He.
  unfold reserve_budget.
  assert (Hend : ∀ s2 s3, (if early (fl_ctx f)
     then (∃ n, cs_token_rate (Auth.key_id key) (tpm_limit policy) tokens now (fl_control f1) = (s2, Ok (RateAllowed n))) ∧
          ∃ st, admit_request_budget committed_spend (Auth.key_id key) (px_reservation_id (fl_ctx f))
            (default (f64_of_Z 0) (rm_estimated_cost_usd matched)) policy now s2 = (s3, Ok (BudgetAllowed st))
     else s2 = fl_control f1 ∧ s3 = s2) →
     post (use_foundry_token key route) (λ _ f', paid key matched policy tokens f f' ∧ px_policy (fl_ctx f') = px_policy (fl_ctx f))
       (λ _ _, True) (with_ctx (set_reserved_at (if early (fl_ctx f) then Some now else None)
                        (set_reserved (early (fl_ctx f)) (fl_ctx f1))) (with_control s3 f1))).
  { intros s2 s3 Hs. eapply post_mono; [apply use_foundry_token_post| |done]. intros ? f' Hf'.
    set (f2 := with_ctx _ _) in Hf'. assert (early (fl_ctx f2) = early (fl_ctx f)) as He2 by exact He.
    assert (early (fl_ctx f') = early (fl_ctx f) ∧ fl_control f' = s3 ∧ px_policy (fl_ctx f') = px_policy (fl_ctx f) ∧
      px_budget_reserved (fl_ctx f') = early (fl_ctx f) ∧
      px_request_rate_count (fl_ctx f') = px_request_rate_count (fl_ctx f1)) as (He' & Hc' & Hp' & Hb' & Hn').
    { destruct Hf' as [->|[token ->]]; [by split_and!|]. cbn [fl_ctx with_ctx fl_control]. rewrite early_upstream_key.
      split_and!; try done; unfold set_upstream_key; by destruct (px_service_upstream (fl_ctx f2)). }
    split; [|done]. constructor; rewrite ?He', ?Hn'; try done. exists (fl_control f1), s2. split; [|by rewrite Hc'].
    destruct (is_some (px_request_rate_count (fl_ctx f))); done. }
  destruct (early (fl_ctx f)) eqn:E; [|].
  - post. apply post_checked_control. intros s2 [n|n r] Et; [|apply post_refused]. post.
    cbn [fl_ctx with_control]. rewrite He. post. apply post_checked_control.
    intros s3 [st|st] Eb; [|apply post_refused]. post. eapply Hend. split; [by exists n|]. exists st. by rewrite <- Hr.
  - post. rewrite He. post. specialize (Hend (fl_control f1) (fl_control f1)).
    destruct f1. by apply Hend.
Qed.

(** What was looked at before a request is paid for. *)
Record admissible_request (key : AuthenticatedKey) (matched : RouteMatch) (c : PingoraContext) (eff : EffectivePolicy) (tokens : Z) :
    Prop := {
  ar_policy : let features := with_service (rm_service_name matched) (extract_generation_features (body_prefix (px_body c))) in
    policy_for key (rm_route matched) (feat_model features) = Ok eff ∧
    evaluate_policy (eff_policy eff) (rm_route matched) (rm_provider matched) features = Ok tt ∧
    (body_empty = true → check_complete_request_policy to_vec (eff_policy eff) matched "" features now = Ok tt);
  ar_limits : evaluate_policy_limits (eff_policy eff) now (i64_of_usize (body_bytes_seen (px_body c))) None (i32_of tokens) None
    (if body_empty then rm_estimated_cost_usd matched else None) = Ok tt;
  ar_tokens : (is_Some (max_input_tokens_per_request (eff_policy eff)) ∨ is_Some (tpm_limit (eff_policy eff)) →
      tokens = estimate_generation_tokens from_slice_value (body_prefix (px_body c))) ∧
    (max_input_tokens_per_request (eff_policy eff) = None → tpm_limit (eff_policy eff) = None → tokens = 0)
}.
Lemma tokens_needed (a b : option Z) (n : Z) :
  (is_Some a ∨ is_Some b → (if is_some a || is_some b then n else 0) = n) ∧
  (a = None → b = None → (if is_some a || is_some b then n else 0) = 0).
Proof. destruct a, b; cbn; split; try done. by intros [[? [=]]|[? [=]]]. Qed.

Lemma govern_policy_post key matched f :
  px_policy (fl_ctx f) = None →
  post (govern_policy key (rm_route matched) matched)
    (λ pt f', ∃ eff, pt.1 = eff_policy eff ∧ admissible_request key matched (fl_ctx f) eff pt.2 ∧
       fl_ctx f' = set_policy (eff_policy eff) (set_guardrail_policy (eff_guardrail_policy eff) (set_streaming
         (feat_stream (extract_generation_features (body_prefix (px_body (fl_ctx f))))) (fl_ctx f))) ∧
       fl_control f' = fl_control f) (λ (_ : GatewayError) (_ : Flow C), True) f.
Proof.
  intros Hn. unfold govern_policy. post. cbv zeta. post. apply post_checked. intros eff He. post. apply post_checked.
  intros [] Hev. post. apply post_checked.
  intros [] Hlim. unfold early in Hlim. cbn [fl_ctx with_ctx] in Hlim.
  assert (managed_service_request_can_stream (px_body_context (set_guardrail_policy (eff_guardrail_policy eff)
    (set_streaming (feat_stream (with_service (rm_service_name matched)
       (extract_generation_features (body_prefix (px_body (id (fl_ctx f))))))) (fl_ctx f)))) = false) as Hs.
  { unfold managed_service_request_can_stream, px_body_context. cbn. by rewrite Hn. }
  rewrite Hs, orb_false_r in Hlim. cbn [id] in *.
  assert (post (if body_empty then checked key (rm_route matched) (check_complete_request_policy to_vec (eff_policy eff) matched ""
      (with_service (rm_service_name matched) (extract_generation_features (body_prefix (px_body (fl_ctx f))))) now) else sret tt)
    (λ (_ : unit) (f' : Flow C), (body_empty = true → check_complete_request_policy to_vec (eff_policy eff) matched ""
      (with_service (rm_service_name matched) (extract_generation_features (body_prefix (px_body (fl_ctx f))))) now = Ok tt) ∧
      f' = with_ctx (set_guardrail_policy (eff_guardrail_policy eff) (set_streaming
         (feat_stream (extract_generation_features (body_prefix (px_body (fl_ctx f))))) (fl_ctx f))) f) (λ (_ : GatewayError) (_ : Flow C), True)
    (with_ctx (set_guardrail_policy (eff_guardrail_policy eff) (set_streaming
         (feat_stream (extract_generation_features (body_prefix (px_body (fl_ctx f))))) (fl_ctx f))) f)) as P.
  { destruct body_empty; [apply post_checked; by intros []|by post]. }
  post. eapply post_mono; [exact P| |done]. intros ? f' [Hc ->]. post. exists eff.
  split_and!; [done|constructor; [done..|apply tokens_needed]|done..].
Qed.

(** The price that is known before the body. *)
Definition priced (p : PricingContext) : PricingContext :=
  let p := prepare_service_cost_for_ctx p in
  if body_empty then resolve_service_cost_for_ctx pointer value_to_string sha256_hex p None else p.
Lemma prepare_route p m : route_match p = Some m →
  ∃ m', route_match (prepare_service_cost_for_ctx p) = Some m' ∧ rm_route m' = rm_route m.
Proof.
  intros Hm. unfold prepare_service_cost_for_ctx. rewrite Hm. destruct (negb _); [by exists m|].
  destruct (free_endpoint p); by eexists.
Qed.
Lemma priced_route p m : route_match p = Some m → ∃ m', route_match (priced p) = Some m' ∧ rm_route m' = rm_route m.
Proof.
  intros Hm. unfold priced. destruct (prepare_route _ _ Hm) as (m1 & Hm1 & R1). destruct body_empty; [|by exists m1].
  unfold resolve_service_cost_for_ctx. rewrite Hm1. destruct (negb _); [by exists m1|]. destruct (free_endpoint _); by eexists.
Qed.

(** A request that the gateway answers for: under a Relayna key, not a session
    and not delegated to LiteLLM's own governance. *)
Record managed (c : PingoraContext) : Prop := {
  mg_socket : px_socket c = false;
  mg_accessa : accessa (px_access c) = None;
  mg_trusted : px_trusted_ingress_passthrough c = false;
  mg_direct : px_direct_litellm_passthrough c = false;
  mg_route : ∀ m, px_match c = Some m → px_passthrough c = true → rm_route m = LiteLlmPassthrough →
    authentication_profiles (px_access c) ≠ None;
  mg_fresh : px_policy c = None
}.

End forwarding.

(** ** A service request without a body *)

#[local] Existing Instances Tame.tame_control Tame.tame_settlement Tame.tame_accessa.
Module Empty.
Definition upstream : PingoraUpstreamConfig :=
  {| host := "ocr"; port := 443; tls := true; sni := "ocr"; service_key := "sk-upstream";
     credential_header_mode := CustomHeader; credential_header_name := Some "x-service-key";
     credential_header_value_format := RawValue |}.
Definition lookups : Lookups :=
  {| service_for_route := λ _ _, Ok None; passthrough_settings := λ _, Ok (default_with_updated_at 0);
     route_identity := λ _, Ok EndpointAccess_default; service_registration := λ _ _, Ok None;
     openai_route_mode := λ _ _, Ok ManagedByGateway; anthropic_route_mode := λ _ _, Ok ManagedByGateway;
     openai_route_limits := λ _, Ok LiteLlmRouteLimits_default; anthropic_route_limits := λ _, Ok LiteLlmRouteLimits_default;
     openai_route_enabled := λ _, Ok true; anthropic_route_enabled := λ _, Ok true;
     foundry_config := λ _ _, Ok None; active_litellm_config := Ok None; credential_mapping := λ _ _, Ok None;
     list_guardrail_definitions := Ok [] |}.
Definition no_json : SerdeJson :=
  {| from_slice_value := λ _, None; from_slice_maximum_probe := λ _, None; from_slice_batch := λ _, None;
     from_slice_extra_body := λ _, None; from_slice_generation_probe := λ _, None |}.
Definition before : Flow Tame.store :=
  Tame.flow (set_service_upstream upstream (set_key {| Auth.key_id := "k"; Auth.project_id := None; key_prefix := "p" |}
    (set_match (route_match_service ServiceWildcard "ocr") (new_ctx "x-relayna-key" "req-1" "res-1")))) ∅.
Definition policy : EffectivePolicy :=
  {| eff_policy := neutral_layer 1; eff_guardrail_policy := GuardrailPolicy_default; applied_layers := [] |}.
Definition forwarded : Flow Tame.store * GatewayResult unit :=
  proxy_upstream_filter (H2 := no_json) (λ _ _, None) (λ _, "") (λ _, "") (λ _, None) {| up_litellm := upstream; up_direct_openai := None |}
    lookups (λ _ _ _, Ok policy) (Ok Tame.nothing_spent) (λ _, Err UpstreamTimeout) (throw UnsupportedRoute)
    (λ _, throw UnsupportedRoute) true 1 10 10 (λ _, None) before.
Lemma forwarded_ok : forwarded = (forwarded.1, Ok tt).
Proof. vm_compute. reflexivity. Qed.
Lemma before_managed : managed (fl_ctx before).
Proof. by constructor. Qed.
End Empty.

