(* ===== verification/RequestLife.v ===== *)
(** * The life of a request

    The callbacks of [crates/gateway-proxy/src/pingora_plane.rs] in the order
    in which the proxy framework calls them for one request: the request
    filter, [proxy_upstream_filter], the callbacks while the request is
    proxied (among them [admit_complete_body], which reserves what could not
    be reserved before the body), and [logging], once, at the end.  Every call
    to the budget store is remembered, and the theorem compares that ledger
    with the usage event that is recorded. *)

From S2P Require Import Prelude SocketFrames ConnectionLimits Errors Routing RouteSettings Json GuardrailPolicy Policies OutputLimits Guardrails Budgets RateLimits BodyAdmission BodyRewrite EndpointAccess Foundry ServiceTypes ServicePricing ResponseCost Usage UsageCost RequestBody CompleteBody Auth ProviderConfigs Headers Upstream ProxyContext UpstreamRequest Entra AuthSettings Stages RequestFilter RequestIdentity Settlement SocketAdmission AccessaRuntime UpstreamAdmission.
#[local] Open Scope stage_scope.

(** ** The request filter reserves and records nothing *)

Definition unreserved (c : PingoraContext) : Prop :=
  px_budget_reserved c = false ∧ px_terminal_usage_recorded c = false ∧ px_policy c = None.
Definition unrouted (c : PingoraContext) : Prop := unreserved c ∧ px_match c = None.
Definition routed (c : PingoraContext) : Prop := unreserved c ∧ is_some (px_route c) = true.

Section filter.
Context {HM : Type} `{HeaderMap HM}.
Variables (header_name_ok : string → bool) (url_parse : string → option Url) (value_to_string : Value → string)
  (sha256_hex to_lowercase : string → string) (has_control : string → bool) (base64_decode : string → option string)
  (key_hmac : string → string → option VerificationCache.Proof_) (key_secret : option string)
  (hmac_base64url : string → string → string) (base64url_decode : string → option string)
  (from_slice_identity : string → option EntraIdentityContext) (l : Lookups) (ups : Upstreams)
  (worker_token : option string) (auth : GatewayAuthRuntimeState) (env : Auth.Env) (now key_now : Z)
  (verify_jwt : string → option EndpointEntraPolicy → GatewayResult EntraIdentityContext) (r : RequestHeader HM)
  (admitted : GatewayResult unit).

Ltac stages := unfold lift, require, respond, leave; stays; try by intros ? ?.

Definition fresh (c : PingoraContext) : Prop := unreserved c ∧ (is_some (px_match c) = true → is_some (px_route c) = true).
Lemma unrouted_fresh c : unrouted c → fresh c.
Proof. intros [Hu Hm]. split; [done|]. by rewrite Hm. Qed.
Lemma routed_fresh c : routed c → fresh c.
Proof. by intros [Hu Hr]. Qed.

(** A stage that keeps requests unrouted, and what follows it. *)
Lemma fresh_bind {A B} (m : RequestFilter.stage A) (k : A → RequestFilter.stage B) c :
  preserves unrouted m → unrouted c → (∀ a c', unrouted c' → post (k a) (λ _, fresh) (λ _, fresh) c') →
  post (sbind m k) (λ _, fresh) (λ _, fresh) c.
Proof.
  intros Hm Hc Hk. rewrite post_bind. eapply post_mono; [by apply Hm| |intros ? ? ?; by apply unrouted_fresh].
  auto.
Qed.
Lemma routed_post {A} (m : RequestFilter.stage A) c : preserves routed m → routed c → post m (λ _, fresh) (λ _, fresh) c.
Proof.
  intros Hm Hc. eapply post_mono; [by apply Hm|..]; intros ? ? ?; by apply routed_fresh.
Qed.

Lemma identify_routed m : preserves routed
  (identify header_name_ok url_parse value_to_string sha256_hex to_lowercase has_control key_hmac key_secret hmac_base64url base64url_decode from_slice_identity
     l ups auth env now key_now verify_jwt r m).
Proof.
  unfold identify, bearer_passthrough, authenticate_profile, authenticate_endpoint, trusted_ingress, direct_passthrough,
    authenticate_key, configure_request, configure_service, configure_passthrough, use_caller_credential,
    configure_litellm_upstream_for_credential, service_upstream, use_registration, apply_service_registration_runtime_limits.
  stages.
Qed.

Lemma request_filter_fresh key_header request_id reservation_id :
  fresh (request_filter header_name_ok url_parse value_to_string sha256_hex to_lowercase has_control base64_decode key_hmac
     key_secret hmac_base64url base64url_decode from_slice_identity l ups worker_token auth env now key_now verify_jwt
     r admitted (new_ctx key_header request_id reservation_id)).1.
Proof.
  set (c0 := new_ctx _ _ _). assert (unrouted c0) as U by done. revert U. generalize c0. clear c0. intros c U.
  unfold request_filter.
  enough (post (request_stages header_name_ok url_parse value_to_string sha256_hex to_lowercase has_control base64_decode
     key_hmac key_secret hmac_base64url base64url_decode from_slice_identity l ups worker_token auth env now key_now
     verify_jwt r admitted) (λ _, fresh) (λ _, fresh) c) as P.
  { unfold post in P. by destruct (request_stages _ _ _ _ _ _ _ _ _ _ _ _ _ _ _ _ _ _ _ _ _ _ _) as [c1 []]. }
  unfold request_stages. apply fresh_bind; [stages|done|]. intros _ c1 U1. apply fresh_bind; [stages|done|]. intros _ c2 U2.
  rewrite post_if. split; [intros _; by apply unrouted_fresh|]. intros _. cbv zeta.
  apply fresh_bind; [stages|done|]. intros _ c3 U3. apply fresh_bind; [|done|].
  { unfold resolve_route, resolve_unregistered, service_upstream, use_registration, apply_service_registration_runtime_limits. stages. }
  intros m c4 U4. apply fresh_bind; [unfold resolve_access; stages|done|]. intros _ c5 U5.
  apply fresh_bind; [unfold resolve_limits; stages|done|]. intros m' c6 [U6 _]. rewrite post_bind, post_modify.
  apply routed_post; [|done]. apply stays_bind; [unfold check_socket; stages|]. intros _.
  apply stays_bind; [unfold prepare_request; stages|]. intros m''. apply identify_routed.
Qed.
End filter.

(** ** The ledger of a request *)

Inductive ledger_entry : Type :=
| Granted (key reservation : string) (amount : f64)
| Reconciled (key reservation : string) (amount : f64)
| Released (key reservation : string)
| Added (key : string) (amount : f64).

(** A control state with the budget calls this request has made. *)
Record Ledgered (C : Type) := { lg_state : C; lg_log : list ledger_entry }.
Arguments lg_state {C} _.
Arguments lg_log {C} _.

Definition noted {C A} (op : C → C * GatewayResult A) (entry : GatewayResult A → list ledger_entry) (s : Ledgered C) :
    Ledgered C * GatewayResult A :=
  let '(c, r) := op (lg_state s) in ({| lg_state := c; lg_log := lg_log s ++ entry r |}, r).
Definition nothing {A} (r : GatewayResult A) : list ledger_entry := [].

#[export] Instance ledgered_control `{ControlState C} : ControlState (Ledgered C) :=
  {| cs_request_rate := λ k limit now, noted (cs_request_rate k limit now) nothing;
     cs_token_rate := λ k limit tokens now, noted (cs_token_rate k limit tokens now) nothing;
     cs_admit_budget := λ k rid amount d m now, noted (cs_admit_budget k rid amount d m now)
       (λ r, match r with Ok (BudgetAllowed _) => [Granted k rid amount] | _ => [] end);
     cs_seed_committed := λ k st now, noted (cs_seed_committed k st now) nothing |}.
#[export] Instance ledgered_settlement `{BudgetSettlement C} : BudgetSettlement (Ledgered C) :=
  {| bs_reconcile := λ k rid amount now, noted (bs_reconcile k rid amount now) (λ _, [Reconciled k rid amount]);
     bs_add_spend := λ k amount now, noted (bs_add_spend k amount now) (λ _, [Added k amount]);
     bs_release := λ k rid, noted (bs_release k rid) (λ _, [Released k rid]);
     bs_check := λ k d m now, noted (bs_check k d m now) nothing |}.
#[export] Instance ledgered_accessa `{AccessaStore C} : AccessaStore (Ledgered C) :=
  {| as_get := λ k, noted (as_get k) nothing;
     as_put := λ k v ttl nx, noted (as_put k v ttl nx) nothing;
     as_delete := λ k, noted (as_delete k) nothing |}.

(** Nothing is reserved, recorded or spent. *)
Record unpaid {C} (f : Flow (Ledgered C)) : Prop := {
  up_recorded : px_terminal_usage_recorded (fl_ctx f) = false;
  up_events : fl_usage f = [];
  up_routed : is_some (px_match (fl_ctx f)) = true → is_some (px_route (fl_ctx f)) = true;
  up_reserved : px_budget_reserved (fl_ctx f) = false;
  up_log : lg_log (fl_control f) = []
}.
(** A reservation of the key is held for the request. *)
Record held {C} (k : AuthenticatedKey) (f : Flow (Ledgered C)) : Prop := {
  hd_recorded : px_terminal_usage_recorded (fl_ctx f) = false;
  hd_events : fl_usage f = [];
  hd_routed : is_some (px_route (fl_ctx f)) = true;
  hd_reserved : px_budget_reserved (fl_ctx f) = true;
  hd_key : px_key (fl_ctx f) = Some k;
  hd_log : ∃ amount, lg_log (fl_control f) = [Granted (Auth.key_id k) (px_reservation_id (fl_ctx f)) amount]
}.
Definition pending {C} (f : Flow (Ledgered C)) : Prop := unpaid f ∨ ∃ k, held k f.
Definition unpaid_of {C} (k : AuthenticatedKey) (f : Flow (Ledgered C)) : Prop := unpaid f ∧ px_key (fl_ctx f) = Some k.

(** The one entry that closes a request's account, given the recorded cost. *)
Definition closing (k : AuthenticatedKey) (rid : string) (reserved : bool) (cost : option f64) : list ledger_entry :=
  match reserved, cost with
  | true, Some x => [Reconciled (Auth.key_id k) rid x]
  | true, None => [Released (Auth.key_id k) rid]
  | false, Some x => [Added (Auth.key_id k) x]
  | false, None => []
  end.
(** One usage event was recorded, and the ledger closed with its cost. *)
Definition settled {C} (f : Flow (Ledgered C)) : Prop :=
  ∃ k ev amount, px_key (fl_ctx f) = Some k ∧ px_terminal_usage_recorded (fl_ctx f) = true ∧
    fl_usage f = [ev] ∧ ue_key_id ev = Auth.key_id k ∧ ue_request_id ev = px_request_id (fl_ctx f) ∧
    lg_log (fl_control f) =
      (if px_budget_reserved (fl_ctx f) then [Granted (Auth.key_id k) (px_reservation_id (fl_ctx f)) amount] else []) ++
      closing k (px_reservation_id (fl_ctx f)) (px_budget_reserved (fl_ctx f)) (ur_cost (ue_cost ev)).

Section steps.
Context {C : Type} `{ControlState C} `{BudgetSettlement C} `{AccessaStore C}.
Implicit Types f : Flow (Ledgered C).

(** An operation that the ledger does not notice. *)
Definition quiet {A} (op : Ledgered C → Ledgered C * GatewayResult A) : Prop := ∀ s, lg_log (op s).1 = lg_log s.
Lemma quiet_noted {A} (op : C → C * GatewayResult A) : quiet (noted op nothing).
Proof. intros s. unfold noted. destruct (op _) as [c r]. apply app_nil_r. Qed.

(** Predicates that only look at the account. *)
Definition accounts f :=
  (px_terminal_usage_recorded (fl_ctx f), fl_usage f, is_some (px_match (fl_ctx f)), px_route (fl_ctx f),
   px_budget_reserved (fl_ctx f), px_key (fl_ctx f), px_reservation_id (fl_ctx f), lg_log (fl_control f),
   px_request_id (fl_ctx f)).
Class AccountOnly (P : Flow (Ledgered C) → Prop) := account_only : ∀ f f', accounts f' = accounts f → P f → P f'.
#[global] Instance unpaid_account : AccountOnly unpaid.
Proof. intros f f' [= E1 E2 E3 E4 E5 E6 E7 E8 E9] []. by constructor; rewrite ?E1, ?E2, ?E3, ?E4, ?E5, ?E8. Qed.
#[global] Instance unpaid_of_account k : AccountOnly (unpaid_of k).
Proof. intros f f' E [U K]. split; [by eapply unpaid_account|]. by injection E as _ _ _ _ _ -> _ _ _. Qed.
#[global] Instance held_account k : AccountOnly (held k).
Proof.
  intros f f' [= E1 E2 E3 E4 E5 E6 E7 E8 E9] []. by constructor; rewrite ?E1, ?E2, ?E4, ?E5, ?E6, ?E7, ?E8.
Qed.
#[global] Instance pending_account : AccountOnly pending.
Proof. intros f f' E [U|[k Hk]]; [left; by eapply unpaid_account|right; exists k; by eapply held_account]. Qed.

#[global] Instance settled_account : AccountOnly settled.
Proof.
  intros f f' [= E1 E2 E3 E4 E5 E6 E7 E8 E9] (k & ev & amount & Hs). exists k, ev, amount. by rewrite E1, E2, E5, E6, E7, E8, E9.
Qed.

Lemma stays_assign P X g `{!AccountOnly P} : (∀ f, accounts (g f) = accounts f) → stays (E := GatewayError) P X (modify g).
Proof. intros Hg. apply stays_modify. intros f. by apply account_only. Qed.
Lemma stays_control {A} P (op : Ledgered C → Ledgered C * GatewayResult A) `{!AccountOnly P} : quiet op → preserves P (control op).
Proof.
  intros Hq f Hf. rewrite post_control. intros s r E. specialize (Hq (fl_control f)). rewrite E in Hq.
  destruct r; apply (account_only f); try done; unfold accounts; cbn; by rewrite <- Hq.
Qed.
Lemma with_control_same f s : lg_log s = lg_log (fl_control f) → accounts (with_control s f) = accounts f.
Proof. intros Hs. unfold accounts. cbn. by rewrite Hs. Qed.

Hint Resolve quiet_noted : stays.
Hint Extern 0 (stays _ _ (modify _)) => (apply stays_assign; [apply _|by intros ?]) : stays.
Hint Extern 0 (stays _ _ (control _)) => (apply stays_control; [apply _|apply quiet_noted]) : stays.

(** A budget that is granted is the only thing that asking for it leaves. *)
Lemma budget_log committed k rid amount policy now (s s' : Ledgered C) r :
  admit_request_budget committed k rid amount policy now s = (s', r) →
  lg_log s' = lg_log s ++ match r with Ok (BudgetAllowed _) => [Granted k rid amount] | _ => [] end.
Proof.
  unfold admit_request_budget. cbn [cs_admit_budget cs_seed_committed ledgered_control]. unfold noted.
  destruct (cs_admit_budget _ _ _ _ _ _ _) as [c1 [[]|e]] eqn:E1; cbn; [by intros [= <- <-]..|].
  destruct e; try by intros [= <- <-]. destruct committed as [st|e]; [|by intros [= <- <-]].
  destruct (cs_seed_committed _ _ _ _) as [c2 [[]|e]]; [|intros [= <- <-]; cbn; by rewrite !app_nil_r].
  cbn. destruct (cs_admit_budget _ _ _ _ _ _ c2) as [c3 [[]|e]]; intros [= <- <-]; cbn; by rewrite !app_nil_r.
Qed.
Lemma held_reserve k amount at_ f s :
  unpaid_of k f → is_some (px_route (fl_ctx f)) = true →
  lg_log s = [Granted (Auth.key_id k) (px_reservation_id (fl_ctx f)) amount] →
  held k (with_ctx (set_reserved_at at_ (set_reserved true (fl_ctx f))) (with_control s f)).
Proof. intros [[U1 U2 U3 U4 U5] Uk] Hr Hs. constructor; cbn; try done. by exists amount. Qed.

(** What every stage that may reserve needs of the store. *)
Lemma reserving_post committed k amount policy now f :
  unpaid_of k f →
  post (control (admit_request_budget committed (Auth.key_id k) (px_reservation_id (fl_ctx f)) amount policy now))
    (λ d f', ∃ s, f' = with_control s f ∧ match d with
       | BudgetAllowed _ => lg_log s = [Granted (Auth.key_id k) (px_reservation_id (fl_ctx f)) amount]
       | BudgetExceeded _ => unpaid_of k f' end)
    (λ _ f', ∃ s, f' = with_control s f ∧ unpaid_of k f') f.
Proof.
  intros U. rewrite post_control. intros s r E. apply budget_log in E. rewrite (up_log _ (proj1 U)) in E. cbn in E.
  assert (lg_log s = [] → unpaid_of k (with_control s f)) as Hu.
  { intros Hs. apply (account_only f); [|done]. apply with_control_same. by rewrite Hs, (up_log _ (proj1 U)). }
  destruct r as [[]|]; exists s; split; auto.
Qed.

Section recording.
Variable from_slice : string → option Value.
Variable pointer : Value → string → option Value.
Variable session_store_key : string → GatewayResult string.

Lemma terminal_settles k route e latency_ms failure_code now f :
  unpaid_of k f ∨ held k f →
  post (record_terminal_usage from_slice pointer k route e latency_ms failure_code now) (λ _, settled) (λ _ _, False) f.
Proof.
  intros U. assert (px_terminal_usage_recorded (fl_ctx f) = false ∧ fl_usage f = [] ∧ px_key (fl_ctx f) = Some k) as (Hr & He & Hk).
  { destruct U as [[[] ?]|[]]; done. }
  unfold Settlement.record_terminal_usage. post. cbn [id fl_ctx with_ctx px_terminal_usage_recorded set_terminal_status].
  change (px_terminal_usage_recorded (set_terminal_status ?x ?c)) with (px_terminal_usage_recorded c). rewrite Hr. post.
  change (px_budget_reserved (set_terminal_status ?x ?c)) with (px_budget_reserved c).
  destruct U as [[[_ _ _ Hb Hl] _]|[_ _ _ Hb _ [amount Hl]]]; rewrite Hb; post.
  - eexists k, _, (f64_of_Z 0). cbn. rewrite He, Hl, Hb. by split_and!.
  - rewrite post_control. intros s r E. cbn [bs_release ledgered_settlement fl_control] in E. unfold noted in E.
    destruct (bs_release _ _ _) as [c1 r1]. injection E as <- <-.
    assert (∀ c, settled (with_ctx (set_usage_recorded (set_terminal_status (status_code e) (fl_ctx f)))
      (with_control {| lg_state := c; lg_log := lg_log (fl_control f) ++ [Released (Auth.key_id k) (px_reservation_id (fl_ctx f))] |}
        (with_event (usage_event from_slice (set_terminal_status (status_code e) (fl_ctx f)) k route (status_code e) latency_ms
           (None, None, None) (UsageCost.record_terminal_usage from_slice pointer (px_pricing (fl_ctx f))
              (routing_mode (fl_ctx f))) failure_code now) f)))) as Hs.
    { intros c. eexists k, _, amount. cbn. rewrite He, Hl, Hb. by split_and!. }
    destruct r1; post; apply Hs.
Qed.

(** What [log_usage] leaves: a settled account, or none to settle. *)
Definition closed (f : Flow (Ledgered C)) : Prop :=
  settled f ∨ (unpaid f ∧ (px_key (fl_ctx f) = None ∨ px_route (fl_ctx f) = None)).

Lemma settle_post c k cost now f :
  fl_ctx f = set_usage_recorded c →
  post (settle c k cost now)
    (λ _ f', fl_ctx f' = fl_ctx f ∧ fl_usage f' = fl_usage f ∧
       lg_log (fl_control f') = lg_log (fl_control f) ++ closing k (px_reservation_id c) (px_budget_reserved c) cost)
    (λ _ _, False) f.
Proof.
  intros Hc. unfold settle, closing. destruct cost as [x|], (px_budget_reserved c); post;
    try (rewrite post_control; intros s r E; cbn in E; unfold noted in E;
         match type of E with (let '(_, _) := ?op in _) = _ => destruct op as [c1 []] end; injection E as <- <-; by post).
  by rewrite app_nil_r.
Qed.

Lemma log_closes written failed latency_ms failure_code created_at now f :
  pending f →
  post (log_usage from_slice pointer written failed latency_ms failure_code created_at now) (λ _, closed) (λ _ _, False) f.
Proof.
  intros U. assert (px_terminal_usage_recorded (fl_ctx f) = false ∧ fl_usage f = []) as (Hr & He).
  { destruct U as [[]|[k []]]; done. }
  unfold log_usage. post. cbn [id]. destruct (px_route (fl_ctx f)) as [route|] eqn:Ero.
  2: { post. right. destruct U as [U|[k [? ? Hro]]]; [|by rewrite Ero in Hro]. split; [done|by right]. }
  destruct (px_key (fl_ctx f)) as [k|] eqn:Ek.
  2: { post. right. destruct U as [U|[k []]]; [|congruence]. split; [done|by left]. }
  rewrite Hr. cbv zeta. post. set (cost := logged_usage _ _ _ _ _ _).
  eapply post_mono; [by apply settle_post| |done]. intros [] f1 (Hc & Hu & Hl). post. left.
  cbn [fl_control with_ctx fl_usage] in Hl, Hu. cbn [fl_ctx with_ctx] in Hc.
  assert (∃ amount, lg_log (fl_control f) = if px_budget_reserved (fl_ctx f)
    then [Granted (Auth.key_id k) (px_reservation_id (fl_ctx f)) amount] else []) as [amount Hlog].
  { destruct U as [[? ? ? -> ->]|[k' [? ? ? -> Hk' [amount ->]]]]; [by exists (f64_of_Z 0)|].
    exists amount. by simplify_eq. }
  eexists k, _, amount. unfold with_event. cbn [fl_ctx fl_usage fl_control]. rewrite Hc, Hu, Hl, He, Hlog.
  cbn [app ue_cost usage_event ue_key_id ue_request_id]. by split_and!.
Qed.
End recording.

(** ** Sessions *)

Lemma release_session_stays session_store_key P X `{!AccountOnly P} : stays P X (release_session session_store_key).
Proof. unfold release_session, on_ctx, ctx. stays. Qed.

(** The key is known, and where a usage event belongs. *)
Definition ready (k : AuthenticatedKey) (f : Flow (Ledgered C)) : Prop :=
  unpaid_of k f ∧ is_some (px_route (fl_ctx f)) = true.
#[global] Instance ready_account k : AccountOnly (ready k).
Proof. intros f f' E [U R]. split; [by eapply unpaid_of_account|]. by injection E as _ _ _ -> _ _ _ _ _. Qed.
Lemma ready_pending k f : ready k f → pending f.
Proof. intros [[U _] _]. by left. Qed.
Definition routable (f : Flow (Ledgered C)) : Prop := unpaid f ∧ is_some (px_route (fl_ctx f)) = true.
#[global] Instance routable_account : AccountOnly routable.
Proof. intros f f' E [U R]. split; [by eapply unpaid_account|]. by injection E as _ _ _ -> _ _ _ _ _. Qed.
Lemma routable_pending f : routable f → pending f.
Proof. intros [U _]. by left. Qed.
Lemma unpaid_pending f : unpaid f → pending f.
Proof. by left. Qed.

Ltac flow := unfold answer, ensure, ctx, on_ctx; stays.
(** One stage that keeps [P], where [L] says that stopping with [P] is fine. *)
Ltac step P L := apply (stays_then P); [apply (stays_stop P _ _ P); [flow|apply L]|done|].

(** *** Socket sessions *)
Section sockets.
Variables (route_enabled : Route → GatewayResult bool) (policy_for : GatewayResult EffectivePolicy)
  (find_by_prefix : string → GatewayResult (option StoredVirtualKey)) (committed_spend : GatewayResult (BudgetState f64))
  (credential_uuid : string → string) (now : Z).

Lemma acquire_connection_stays P scope identity a b `{!AccountOnly P} :
  preserves P (acquire_connection (C := Ledgered C) scope identity a b).
Proof. unfold acquire_connection. flow. Qed.

Lemma admit_service_pending route expires_at f :
  routable f → post (admit_service policy_for find_by_prefix committed_spend now route expires_at) (λ _, pending) (λ _, pending) f.
Proof.
  intros R. unfold admit_service. step routable routable_pending.
  intros _ f0 R0. post. rewrite post_answer. split; [|intros; by apply routable_pending]. intros k Hk%ok_or_Ok.
  assert (ready k f0) as R1 by (by destruct R0).
  step (ready k) (ready_pending k). intros service f1 R2.
  step (ready k) (ready_pending k). intros eff f2 R3. cbv zeta.
  do 8 (step (ready k) (ready_pending k); intros ? ? ?).
  match goal with Hr : ready k ?f |- post _ _ _ ?f => rename f into f3, Hr into R4 end.
  post. destruct R4 as [R4 R5]. eapply post_mono; [by apply reserving_post| |intros ? f4 (? & _ & U); left; apply U].
  intros [st|st] f4 (s & -> & Hs); post; [|left; apply Hs]. right. exists k.
  refine (account_only _ _ _ (held_reserve k _ (Some now) f3 s R4 R5 Hs)). reflexivity.
Qed.

Lemma admit_websocket_pending f :
  routable f →
  post (admit_websocket route_enabled policy_for find_by_prefix committed_spend credential_uuid now) (λ _, pending) (λ _, pending) f.
Proof.
  intros R. unfold admit_websocket.
  do 4 (step routable routable_pending; intros ? ? ?). cbv zeta.
  match goal with Hr : routable ?f |- post _ _ _ ?f => rename f into f1, Hr into R1 end.
  assert (direct : ∀ m t, preserves pending (do who <- admit_direct (C := Ledgered C) route_enabled credential_uuid m; sret (who, t : Z))).
  { intros m t. unfold admit_direct. flow. }
  assert (Hrest : ∀ who : string * string * Z, preserves (pending (C := C)) (
    ensure (negb (who.2 <=? seconds_of now)) PolicyDenied ;;
    do lease <- acquire_connection who.1.1 who.1.2 (max_connections a0) (max_connections_per_key a0);
    on_ctx (λ c, set_socket_state (set_session lease (max_frame_bytes a0) (px_socket_state c)) c) ;;
    on_ctx (set_socket_expiry who.2) ;;
    on_ctx (set_streaming true))).
  { intros who. unfold acquire_connection. flow. }
  rewrite post_bind. apply post_mono with (λ _, pending) (λ _, pending); [|intros who f'; apply Hrest|done].
  destruct (px_direct_litellm_passthrough a); [|by apply admit_service_pending].
  apply routable_pending in R1. by apply direct.
Qed.
End sockets.

(** *** Accessa connections and turns *)
Section accessa.
Variables (parse_uuid : string → option string) (sha256_hex : string → string)
  (session_text : AccessaSession → option string) (session_of_text : string → option AccessaSession)
  (policy_for : AuthenticatedKey → GatewayResult EffectivePolicy) (committed_spend : GatewayResult (BudgetState f64))
  (find_by_prefix : string → GatewayResult (option StoredVirtualKey))
  (service_registration : string → GatewayResult (option ServiceRegistration)) (now_policy now_rate now_budget now : Z).

Lemma accessa_budget_stays key policy : preserves unpaid (accessa_budget (C := Ledgered C) committed_spend now_budget key policy).
Proof. unfold accessa_budget. flow. Qed.
Lemma admit_accessa_connection_stays key token : preserves unpaid
  (admit_accessa_connection (C := Ledgered C) parse_uuid sha256_hex session_text policy_for committed_spend
     now_policy now_rate now_budget now key token).
Proof.
  unfold admit_accessa_connection, accessa_rate, acquire_connection, open_session. pose proof accessa_budget_stays.
  flow.
Qed.

Lemma quiet_charge_step key policy turn_key ttl p s :
  lg_log (charge_step (C := Ledgered C) now_rate key policy turn_key ttl p s).1 = lg_log s.
Proof.
  unfold charge_step. destruct p; try done;
    cbn [as_put as_get as_delete cs_request_rate ledgered_control ledgered_accessa]; unfold noted, nothing.
  - destruct (as_put _ _ _ _ _) as [c [[]|]]; apply app_nil_r.
  - destruct (cs_request_rate _ _ _ _) as [c [d|]]; [destruct (rate_verdict d)|]; apply app_nil_r.
  - destruct (as_put _ _ _ _ _) as [c []]; apply app_nil_r.
  - destruct (as_delete _ _) as [c []]; apply app_nil_r.
  - destruct (as_get _ _) as [c []]; apply app_nil_r.
Qed.
Lemma charge_turn_stays key policy turn_key ttl : preserves unpaid (charge_turn (C := Ledgered C) now_rate key policy turn_key ttl).
Proof.
  apply stays_control; [apply _|]. intros s. cbv zeta.
  pose proof (quiet_charge_step key policy turn_key ttl) as Q.
  destruct (charge_step _ _ _ _ _ _ s) as [s1 p1] eqn:E1. destruct (charge_step _ _ _ _ _ _ s1) as [s2 p2] eqn:E2.
  destruct (charge_step _ _ _ _ _ _ s2) as [s3 p3] eqn:E3. cbn [fst].
  pose proof (Q Putting s) as Q1. pose proof (Q p1 s1) as Q2. pose proof (Q p2 s2) as Q3.
  rewrite E1 in Q1. rewrite E2 in Q2. rewrite E3 in Q3. cbn in Q1, Q2, Q3. congruence.
Qed.
Lemma admit_turn_stays {HM} `{HeaderMap HM} (r : RequestHeader HM) : preserves unpaid
  (admit_turn (C := Ledgered C) parse_uuid sha256_hex session_of_text policy_for committed_spend find_by_prefix
     service_registration now_policy now_rate now_budget now r).
Proof.
  pose proof accessa_budget_stays. pose proof charge_turn_stays.
  assert (∀ k session turn, preserves unpaid (modify (S := Flow (Ledgered C)) (E := GatewayError)
    (λ f, with_ctx (note_turn k session turn (fl_ctx f)) f))).
  { intros k session turn. apply stays_modify. intros f []. by constructor. }
  unfold admit_turn. flow.
Qed.
Lemma handle_turn_stays {HM} `{HeaderMap HM} (r : RequestHeader HM) : preserves unpaid
  (handle_accessa_admission (C := Ledgered C) parse_uuid sha256_hex session_of_text policy_for committed_spend find_by_prefix
     service_registration now_policy now_rate now_budget now r).
Proof. pose proof (admit_turn_stays (HM := HM)). unfold handle_accessa_admission, answered. flow. Qed.
End accessa.

(** *** Requests under a key *)

Section forwarding.
Context `{SerdeJson}.
Variables (pointer : Value → string → option Value) (value_to_string : Value → string) (sha256_hex : string → string)
  (to_vec : Value → option string) (ups : Upstreams) (l : Lookups)
  (policy_for : AuthenticatedKey → Route → option string → GatewayResult EffectivePolicy)
  (committed_spend : GatewayResult (BudgetState f64)) (foundry_token : FoundryRuntimeConfig → GatewayResult string)
  (body_empty : bool) (latency_ms now now_error : Z) (failure_code : GatewayError → option string).

Definition paying (k : AuthenticatedKey) (f : Flow (Ledgered C)) : Prop := ready k f ∨ held k f.
#[global] Instance paying_account k : AccountOnly (paying k).
Proof. intros f f' E [R|R]; [left; by eapply ready_account|right; by eapply held_account]. Qed.

Lemma refuse_settles {A} k route e (Q : A → _) f :
  paying k f → post (refuse pointer latency_ms now failure_code k route e) Q (λ _, settled) f.
Proof.
  intros P. unfold refuse. rewrite post_bind. eapply post_mono; [apply terminal_settles| |done].
  - destruct P as [[R _]|R]; [by left|by right].
  - by intros [] f' Hs.
Qed.
Lemma refuse_stays {A} k route e P : (∀ f, P f → paying k f) →
  stays P settled (refuse (A := A) pointer latency_ms now failure_code k route e).
Proof. intros HP f Hf. by apply refuse_settles, HP. Qed.
Lemma checked_stays {A} k route (r : GatewayResult A) P : (∀ f, P f → paying k f) →
  stays P settled (checked pointer latency_ms now failure_code k route r).
Proof. intros HP. destruct r; [apply stays_ret|by apply refuse_stays]. Qed.
Lemma checked_control_stays {A} k route (op : _ → _ * GatewayResult A) P `{!AccountOnly P} : (∀ f, P f → paying k f) → quiet op →
  stays P settled (checked_control pointer latency_ms now failure_code k route op).
Proof.
  intros HP Hq. apply stays_bind; [apply stays_attempt; by apply stays_control|]. intros r. by apply checked_stays.
Qed.
Lemma ready_paying k f : ready k f → paying k f.
Proof. by left. Qed.
Hint Extern 0 (stays (ready _) settled (refuse _ _ _ _ _ _ _)) => (apply refuse_stays, ready_paying) : stays.
Hint Extern 0 (stays (ready _) settled (checked _ _ _ _ _ _ _)) => (apply checked_stays, ready_paying) : stays.
Hint Extern 0 (stays (ready _) settled (checked_control _ _ _ _ _ _ _)) =>
  (apply checked_control_stays; [apply _|apply ready_paying|apply quiet_noted]) : stays.

Lemma govern_policy_stays k route matched : stays (ready k) settled
  (govern_policy (C := Ledgered C) pointer to_vec policy_for body_empty latency_ms now failure_code k route matched).
Proof. unfold govern_policy. flow. Qed.
Lemma count_request_stays k route policy : stays (ready k) settled
  (count_request (C := Ledgered C) pointer body_empty latency_ms now failure_code k route policy).
Proof. unfold count_request. flow. Qed.
Lemma count_tokens_stays k route policy tokens : stays (ready k) settled
  (count_tokens (C := Ledgered C) pointer body_empty latency_ms now failure_code k route policy tokens).
Proof. unfold count_tokens. flow. Qed.
Lemma use_foundry_token_stays k route : stays (paying k) settled
  (use_foundry_token (C := Ledgered C) pointer foundry_token latency_ms now failure_code k route).
Proof.
  unfold use_foundry_token, ctx. apply stays_bind; [stays|]. intros c. destruct (px_foundry c) as [[]|]; [|stays].
  apply stays_bind; [by apply checked_stays|]. intros token. apply stays_assign; [apply _|].
  intros w. unfold set_upstream_key. by destruct (px_service_upstream (fl_ctx w)).
Qed.
Lemma reserve_budget_pays k route matched policy f :
  ready k f →
  post (reserve_budget (C := Ledgered C) pointer committed_spend body_empty latency_ms now failure_code k route matched policy)
    (λ _, paying k) (λ _, settled) f.
Proof.
  intros R. unfold reserve_budget. post. cbn [id]. destruct (early body_empty (fl_ctx f)).
  - unfold checked_control. post. destruct R as [R1 R2]. eapply post_mono; [by apply reserving_post|..].
    + intros d f1 (s & -> & Hd). post. destruct d; post.
      * right. by apply (held_reserve k _ (Some now) f s R1 R2 Hd).
      * apply refuse_settles. left. split; [apply Hd|done].
    + intros e f1 (s & -> & U). post. apply refuse_settles. by left.
  - post. left. destruct R as [[[] ?] ?]. split; [split; [by constructor|done]|done].
Qed.

Lemma govern_request_pays k route matched f :
  ready k f →
  post (govern_request (C := Ledgered C) pointer to_vec policy_for committed_spend foundry_token body_empty latency_ms now
          failure_code k route matched) (λ _, pending) (λ _, settled) f.
Proof.
  intros R. unfold govern_request. apply (stays_then (ready k)); [apply govern_policy_stays|done|].
  intros [policy tokens] f1 R1. apply (stays_then (ready k)); [apply count_request_stays|done|]. intros ? f2 R2.
  apply (stays_then (ready k)); [apply count_tokens_stays|done|]. intros ? f3 R3. rewrite post_bind.
  eapply post_mono; [by apply reserve_budget_pays| |done]. intros ? f4 P.
  eapply post_mono; [by apply (use_foundry_token_stays k)| |done].
  intros ? f5 [[[U _] _]|P5]; [by left|right; by exists k].
Qed.

(** Pricing a request keeps its route. *)
Lemma prepare_some p : is_some (route_match (prepare_service_cost_for_ctx p)) = is_some (route_match p).
Proof.
  unfold prepare_service_cost_for_ctx. destruct (route_match p) eqn:E; [|by rewrite E].
  destruct (negb _); [by rewrite E|]. by destruct (free_endpoint p).
Qed.
Lemma resolve_some p v : is_some (route_match (resolve_service_cost_for_ctx pointer value_to_string sha256_hex p v)) = is_some (route_match p).
Proof.
  unfold resolve_service_cost_for_ctx. destruct (route_match p) eqn:E; [|by rewrite E].
  destruct (negb _); [by rewrite E|]. by destruct (free_endpoint p).
Qed.
Lemma price_stays P X g `{!AccountOnly P} : (∀ p, is_some (route_match (g p)) = is_some (route_match p)) →
  stays P X (modify (E := GatewayError) (λ f, with_ctx (set_pricing (g (px_pricing (fl_ctx f))) (fl_ctx f)) f)).
Proof. intros Hg. apply stays_assign; [apply _|]. intros f. unfold accounts, px_match. cbn. by rewrite Hg. Qed.

Variable socket_admission : callback (C := Ledgered C) unit.
Variable accessa_admission : AuthenticatedKey → callback (C := Ledgered C) unit.
Hypothesis socket_pending : ∀ f, routable f → post socket_admission (λ _, pending) (λ _, pending) f.
Hypothesis accessa_pending : ∀ k, preserves unpaid (accessa_admission k).

(** An answer leaves the account as it is or settled. *)
Definition stopped (f : Flow (Ledgered C)) : Prop := pending f ∨ settled f.

Lemma forward_keyed_pays matched f :
  routable f →
  post (forward_keyed pointer value_to_string sha256_hex to_vec l policy_for committed_spend foundry_token accessa_admission
          body_empty latency_ms now now_error failure_code matched) (λ _, pending) (λ _, stopped) f.
Proof using accessa_pending.
  intros R. unfold forward_keyed. cbv zeta. post. rewrite post_answer. split; [|intros ? _; left; by apply routable_pending].
  intros k Hk%ok_or_Ok. cbn [id] in *. assert (ready k f) as R1 by (by destruct R). post.
  destruct (px_guardrail_error (fl_ctx f)) as [e|].
  { post. eapply post_mono; [apply terminal_settles; left; by destruct R1| |done]. intros ? ? ?. post. by right. }
  post. destruct (is_some (accessa (px_access (fl_ctx f)))).
  { eapply post_mono; [apply accessa_pending, R|..]; intros; [by left|left; by left]. }
  assert (∀ m (X : Flow (Ledgered C) → Prop), (∀ f, settled f → X f) → stays (ready k) X (checked (A := unit) pointer latency_ms now failure_code k m
    (ensure_litellm_canonical_route_enabled l m))) as Hen.
  { intros m X HX. eapply stays_stop; [apply checked_stays, ready_paying|done]. }
  unfold on_ctx.
  apply (stays_then (ready k)); [apply price_stays; [apply _|apply prepare_some]|done|]. intros ? f1 R2.
  apply (stays_then (ready k)); [|done|].
  { destruct body_empty; [|stays].
    apply (price_stays _ _ (λ p, resolve_service_cost_for_ctx pointer value_to_string sha256_hex p None)).
    intros p. apply resolve_some. }
  intros ? f2 R3. rewrite post_bind, post_ctx. apply (stays_then (ready k)); [apply Hen; by right|done|]. intros ? f3 R4.
  destruct (_ && _).
  - eapply post_mono; [by apply (checked_stays k _ _ (ready k) (ready_paying k))|..]; intros ? ? ?; [by apply (ready_pending k)|by right].
  - eapply post_mono; [by apply govern_request_pays|done|]. by right.
Qed.

Lemma forward_pays f :
  unpaid f →
  post (proxy_upstream_filter pointer value_to_string sha256_hex to_vec ups l policy_for committed_spend foundry_token
          socket_admission accessa_admission body_empty latency_ms now now_error failure_code)
    (λ _, pending) (λ _, stopped) f.
Proof using socket_pending accessa_pending.
  intros U. unfold proxy_upstream_filter, answered. rewrite post_bind, post_attempt. post.
  assert (Hstop : ∀ (e : GatewayError) f, stopped f → post (A := unit) (on_ctx (set_terminal_status (status_code e)) ;; throw e)
    (λ _, pending) (λ _, stopped) f).
  { intros e f1 S. post. destruct S as [S|S]; [left; by apply (account_only f1)|by right]. }
  rewrite post_answer. cbn [id]. split; [|intros e _; apply Hstop; left; by left]. intros m Hm%ok_or_Ok.
  assert (routable f) as R by (split; [done|apply U; by rewrite Hm]).
  post. rewrite post_ensure. split; [intros _|intros _; apply Hstop; left; by left].
  assert (Hok : ∀ m : callback (C := Ledgered C) unit, post m (λ _, pending) (λ _, stopped) f →
    post m (λ a : unit, post (E := GatewayError) (sret a) (λ _, pending) (λ _, stopped))
      (λ e, post (A := unit) (on_ctx (set_terminal_status (status_code e)) ;; throw e) (λ _, pending) (λ _, stopped)) f).
  { intros m' Hm'. eapply post_mono; [exact Hm'|done|]. intros e f1. apply Hstop. }
  apply Hok. destruct (_ && is_none _).
  { eapply post_mono; [by apply socket_pending|done|]. by left. }
  assert (pending f) as P by by left. destruct (px_trusted_ingress_passthrough _); [by post|].
  destruct (_ && is_litellm_canonical_route _).
  { rewrite post_answer. split; [done|]. by left. }
  destruct (px_direct_litellm_passthrough _); [by post|]. by apply forward_keyed_pays.
Qed.
End forwarding.

(** *** The complete body *)

Section bodies.
Context `{SerdeJson}.
Variables (to_vec : Value → option string) (policy_for : option string → GatewayResult EffectivePolicy)
  (committed_spend : GatewayResult (BudgetState f64)) (now_check now_tokens now_reserve metadata_capacity : Z).

Lemma spend_log c k m policy body a (s : Ledgered C) a' s' r :
  spend committed_spend now_tokens now_reserve metadata_capacity c k m policy body a s = (a', s', r) →
  match r with
  | Ok _ => ∃ amount, lg_log s' = lg_log s ++ [Granted (Auth.key_id k) (cc_reservation_id c) amount]
  | Err _ => lg_log s' = lg_log s
  end.
Proof.
  unfold spend. destruct (retain_request_metadata_workspace _ _ _ a) as [a1 [[]|e]]; [|by intros [= _ <- <-]].
  pose proof (quiet_noted (cs_token_rate (Auth.key_id k) (tpm_limit policy)
    (if is_some (tpm_limit policy) then body_tokens body else 0) now_tokens) s) as Q.
  cbn [cs_token_rate ledgered_control]. destruct (noted _ _ s) as [s1 [[n|n r0]|e]]; cbn [fst] in Q; [|by intros [= _ <- <-]..].
  destruct (admit_request_budget _ _ _ _ _ _ s1) as [s2 d] eqn:E. apply budget_log in E.
  destruct d as [[]|]; intros [= _ <- <-]; rewrite E, Q, ?app_nil_r; [by eexists|done..].
Qed.

Lemma govern_log c body a (s : Ledgered C) a' s' r :
  govern to_vec policy_for committed_spend now_check now_tokens now_reserve metadata_capacity c body a s = (a', s', r) →
  match r with
  | Ok c' => cc_budget_reserved c' = true ∧ ∃ k amount, cc_key c = Some k ∧ is_some (cc_match c) = true ∧
      lg_log s' = lg_log s ++ if cc_budget_reserved c then [] else [Granted (Auth.key_id k) (cc_reservation_id c) amount]
  | Err _ => lg_log s' = lg_log s
  end.
Proof.
  unfold govern. destruct (on_lease _ a) as [a1 [[]|]]; [|by intros [= _ <- <-]].
  destruct (cc_key c) as [k|]; [|by intros [= _ <- <-]]. destruct (cc_match c) as [m|]; [|by intros [= _ <- <-]].
  cbv zeta. destruct ((effective_complete_policy _ _ _ _ _).2) as [eff|]; [|by intros [= _ <- <-]].
  destruct (on_lease begin_processing a1) as [a2 [[]|]]; [|by intros [= _ <- <-]].
  destruct (check_complete_request_policy _ _ _ _ _ _) as [[]|]; [|by intros [= _ <- <-]].
  destruct (cc_budget_reserved c) eqn:Er.
  { intros [= _ <- <-]. split; [done|]. exists k, (f64_of_Z 0). by rewrite app_nil_r. }
  destruct (rate_exceeded _ _); [by intros [= _ <- <-]|].
  destruct (spend _ _ _ _ _ _ _ _ _ _ s) as [[a3 s3] [[]|]] eqn:Es; apply spend_log in Es; intros [= _ <- <-]; [|done].
  destruct Es as [amount Es]. split; [done|]. by exists k, amount.
Qed.

(** What [admit_complete_body] reads of the context, and what it writes. *)
Definition complete_context (c : PingoraContext) : CompleteContext :=
  {| cc_key := px_key c; cc_route := px_route c; cc_match := px_match c; cc_fallback_count := px_fallback_count c;
     cc_reservation_id := px_reservation_id c; cc_request_rate_count := px_request_rate_count c;
     cc_plain_metadata := is_none (px_foundry c) && is_nil (service_pricing_rules (px_pricing c))
       && is_none (px_pre_guardrail_plan c) && is_none (guardrail_context (px_response c));
     cc_policy := px_policy c; cc_budget_reserved := px_budget_reserved c; cc_budget_reserved_at := px_budget_reserved_at c;
     cc_is_streaming := px_is_streaming c; cc_guardrail_error := px_guardrail_error c |}.
Definition after_complete (cc : CompleteContext) (lease : option BodyAdmissionLease) (c : PingoraContext) : PingoraContext :=
  let b := px_body c in
  let c := set_body {| guardrail_error := cc_guardrail_error cc; body_bytes_seen := body_bytes_seen b; body_prefix := body_prefix b;
                       request_rewriter := request_rewriter b; request_body_lease := lease |} c in
  let c := match cc_policy cc with Some p => set_policy p c | None => c end in
  set_streaming (cc_is_streaming cc) (set_reserved_at (cc_budget_reserved_at cc) (set_reserved (cc_budget_reserved cc) c)).

(** The call, on the state of the request and of the body admission. *)
Definition admit_body (body : string) (st : BodyAdmissionState) (f : Flow (Ledgered C)) :
    BodyAdmissionState * Flow (Ledgered C) * GatewayResult string :=
  let '(a, s, cc, r) := admit_complete_body to_vec policy_for committed_spend now_check now_tokens now_reserve metadata_capacity
    (complete_context (fl_ctx f)) body (st, request_body_lease (px_body (fl_ctx f))) (fl_control f) in
  let c := after_complete cc a.2 (fl_ctx f) in
  let c := match r with Ok _ => c | Err e => set_terminal_status (status_code e) c end in
  (a.1, with_control s (with_ctx c f), r).

Lemma admit_body_pending body st f : pending f → pending (admit_body body st f).1.2.
Proof.
  intros P. unfold admit_body, admit_complete_body.
  destruct (govern _ _ _ _ _ _ _ _ _ _ _) as [[a s] [cc|e]] eqn:Eg; apply govern_log in Eg; cbn [fst snd].
  - destruct Eg as (Hr & k & amount & Hk & Hm & Hl). cbn in Hk, Hm, Hl. unfold after_complete. rewrite Hr.
    right. exists k. destruct P as [U|[k' Hd]].
    + destruct U as [U1 U2 U3 U4 U5]. rewrite U4, U5 in Hl. assert (is_some (px_route (fl_ctx f)) = true) by auto.
      constructor; destruct (cc_policy cc); cbn; try done; by exists amount.
    + destruct Hd as [D1 D2 D3 D4 D5 [amount' D6]]. rewrite D4, app_nil_r in Hl. simplify_eq.
      constructor; destruct (cc_policy cc); cbn; try done; exists amount'; by rewrite Hl.
  - apply (account_only f); [|done]. unfold after_complete, accounts. cbn. rewrite Eg. by destruct (px_policy (fl_ctx f)).
Qed.
End bodies.

(** *** The end *)

Lemma logging_closes from_slice pointer session_store_key written failed latency_ms failure_code created_at now f :
  stopped f →
  post (logging from_slice pointer session_store_key written failed latency_ms failure_code created_at now)
    (λ _, closed) (λ _ _, False) f.
Proof.
  unfold logging. intros [P|P]; rewrite post_bind.
  - eapply post_mono; [by apply (release_session_stays session_store_key pending (λ _, False))| |done]. intros ? f1 P1.
    eapply post_mono; [by apply log_closes|done|done].
  - eapply post_mono; [by apply (release_session_stays session_store_key settled (λ _, False))| |done]. intros ? f1 P1.
    assert (px_terminal_usage_recorded (fl_ctx f1) = true) as Hr by by destruct P1 as (? & ? & ? & _ & ? & _).
    unfold log_usage. post. cbn [id]. rewrite Hr. destruct (px_route (fl_ctx f1)), (px_key (fl_ctx f1)); by left.
Qed.
End steps.

(** ** The order of the callbacks *)

(** What answers one request: the libraries, the process and its stores. *)
Record World := {
  wd_serde : SerdeJson;
  wd_pointer : Value → string → option Value;
  wd_value_to_string : Value → string;
  wd_sha256_hex : string → string;
  wd_to_vec : Value → option string;
  wd_parse_uuid : string → option string;
  wd_session_text : AccessaSession → option string;
  wd_session_of_text : string → option AccessaSession;
  wd_credential_uuid : string → string;
  wd_fresh_uuid : string;
  wd_ups : Upstreams;
  wd_lookups : Lookups;
  wd_policy : AuthenticatedKey → Route → option string → GatewayResult EffectivePolicy;
  wd_accessa_policy : AuthenticatedKey → GatewayResult EffectivePolicy;
  wd_socket_policy : GatewayResult EffectivePolicy;
  wd_find_by_prefix : string → GatewayResult (option StoredVirtualKey);
  wd_registration : string → GatewayResult (option ServiceRegistration);
  wd_committed : GatewayResult (BudgetState f64);
  wd_foundry_token : FoundryRuntimeConfig → GatewayResult string;
  wd_failure_code : GatewayError → option string;
  wd_body_empty : bool;
  wd_latency : Z;
  wd_clock : nat → Z
}.

Inductive phase : Type := Arrived | Proxying | Ending | Logged.

Section life.
Context {C : Type} `{ControlState C} `{BudgetSettlement C} `{AccessaStore C}.

Definition forwarding (w : World) : callback (C := Ledgered C) unit :=
  let t := wd_clock w in
  proxy_upstream_filter (H2 := wd_serde w) (wd_pointer w) (wd_value_to_string w) (wd_sha256_hex w) (wd_to_vec w) (wd_ups w)
    (wd_lookups w) (wd_policy w) (wd_committed w) (wd_foundry_token w)
    (admit_websocket (route_enabled (wd_lookups w)) (wd_socket_policy w) (wd_find_by_prefix w) (wd_committed w)
       (wd_credential_uuid w) (t 0%nat))
    (λ key, admit_accessa_connection (wd_parse_uuid w) (wd_sha256_hex w) (wd_session_text w) (wd_accessa_policy w)
       (wd_committed w) (t 1%nat) (t 2%nat) (t 3%nat) (t 4%nat) key (wd_fresh_uuid w))
    (wd_body_empty w) (wd_latency w) (t 5%nat) (t 6%nat) (wd_failure_code w).

Inductive life_step : phase * Flow (Ledgered C) → phase * Flow (Ledgered C) → Prop :=
(** The request filter has answered, or the client is gone. *)
| life_answered f : life_step (Arrived, f) (Ending, f)
| life_turn {HM} `{HeaderMap HM} (w : World) (r : RequestHeader HM) f f' a :
    let t := wd_clock w in
    handle_accessa_admission (wd_parse_uuid w) (wd_sha256_hex w) (wd_session_of_text w) (wd_accessa_policy w) (wd_committed w)
      (wd_find_by_prefix w) (wd_registration w) (t 1%nat) (t 2%nat) (t 3%nat) (t 4%nat) r f = (f', a) →
    life_step (Arrived, f) (Ending, f')
| life_forwarded w f f' : forwarding w f = (f', Ok tt) → life_step (Arrived, f) (Proxying, f')
| life_refused w f f' e : forwarding w f = (f', Err e) → life_step (Arrived, f) (Ending, f')
(** A complete body; an error ends the request, later. *)
| life_body (w : World) policy capacity body st st' f f' r :
    let t := wd_clock w in
    admit_body (H2 := wd_serde w) (wd_to_vec w) policy (wd_committed w) (t 1%nat) (t 2%nat) (t 3%nat) capacity body st f = (st', f', r) →
    life_step (Proxying, f) (Proxying, f')
(** The callbacks that leave the account alone, and other requests. *)
| life_other p f f' : p ≠ Logged → accounts f' = accounts f → life_step (p, f) (p, f')
| life_ended f : life_step (Proxying, f) (Ending, f)
| life_logged (w : World) from_slice session_store_key written failed latency failure_code created_at now f f' r :
    logging from_slice (wd_pointer w) session_store_key written failed latency failure_code created_at now f = (f', r) →
    life_step (Ending, f) (Logged, f').

Definition life_inv (s : phase * Flow (Ledgered C)) : Prop :=
  match s.1 with
  | Arrived => unpaid s.2
  | Proxying => pending s.2
  | Ending => stopped s.2
  | Logged => closed s.2
  end.

Lemma forwarding_pays w f : unpaid f → post (forwarding w) (λ _, pending) (λ _, stopped) f.
Proof.
  intros U. unfold forwarding. cbv zeta. apply forward_pays; [|intros k; apply admit_accessa_connection_stays|done].
  intros f1 R. by apply admit_websocket_pending.
Qed.

Lemma life_inv_step s s' : life_inv s → life_step s s' → life_inv s'.
Proof.
  intros I Hs. destruct Hs as [f|HM ? w r f f' a t E|w f f' E|w f f' e E|w policy cap body st st' f f' r t E|p f f' Hp E|f
    |w fs key written failed lat code at_ now f f' r E]; unfold life_inv in *; cbn [fst snd] in *.
  - left. by left.
  - left. left. assert (post (handle_accessa_admission (C := Ledgered C) (wd_parse_uuid w) (wd_sha256_hex w) (wd_session_of_text w) (wd_accessa_policy w)
      (wd_committed w) (wd_find_by_prefix w) (wd_registration w) (t 1%nat) (t 2%nat) (t 3%nat) (t 4%nat) r)
      (λ _, unpaid) (λ _, unpaid) f) as P by by apply handle_turn_stays.
    apply (post_run _ _ _ _ _ _ P) in E. by destruct a.
  - exact (post_run _ _ _ _ _ _ (forwarding_pays w f I) E).
  - exact (post_run _ _ _ _ _ _ (forwarding_pays w f I) E).
  - apply (f_equal (λ x, x.1.2)) in E. cbn in E. subst f'. by apply admit_body_pending.
  - destruct p; try done; [by apply (account_only f)..|]. destruct I as [I|I]; [left|right]; by apply (account_only f).
  - by left.
  - assert (post (logging fs (wd_pointer w) key written failed lat code at_ now) (λ _, closed) (λ _ _, False) f) as P
      by by apply logging_closes.
    apply (post_run _ _ _ _ _ _ P) in E. by destruct r.
Qed.
Lemma life_inv_reach s s' : life_inv s → rtc life_step s s' → life_inv s'.
Proof. intros I Hr. revert I. induction Hr as [|x y z Hxy _ IH]; [done|]. intros I. by eapply IH, life_inv_step. Qed.
End life.

(** ** Every request is settled once *)

Section settled_once.
Context {C : Type} `{ControlState C} `{BudgetSettlement C} `{AccessaStore C} {HM : Type} `{HeaderMap HM}.
Variables (header_name_ok : string → bool) (url_parse : string → option Url) (value_to_string : Value → string)
  (sha256_hex to_lowercase : string → string) (has_control : string → bool) (base64_decode : string → option string)
  (key_hmac : string → string → option VerificationCache.Proof_) (key_secret : option string)
  (hmac_base64url : string → string → string) (base64url_decode : string → option string)
  (from_slice_identity : string → option EntraIdentityContext) (l : Lookups) (ups : Upstreams)
  (worker_token : option string) (auth : GatewayAuthRuntimeState) (env : Auth.Env) (now key_now : Z)
  (verify_jwt : string → option EndpointEntraPolicy → GatewayResult EntraIdentityContext) (r : RequestHeader HM)
  (admitted : GatewayResult unit) (key_header request_id reservation_id : string).

(** A request as the request filter leaves it. *)
Definition arrival (s : C) (connections : counts) : Flow (Ledgered C) :=
  {| fl_ctx := (request_filter header_name_ok url_parse value_to_string sha256_hex to_lowercase has_control base64_decode
       key_hmac key_secret hmac_base64url base64url_decode from_slice_identity l ups worker_token auth env now key_now
       verify_jwt r admitted (new_ctx key_header request_id reservation_id)).1;
     fl_control := {| lg_state := s; lg_log := [] |}; fl_connections := connections; fl_usage := [] |}.

(** C3: Whatever the request filter decides, whatever the stores answer and
    however the callbacks of a request follow each other, a request that has
    been logged has closed its account: it asked for at most one reservation
    that was granted, recorded exactly one usage event under its key, and then
    made exactly one settling call, which agrees with the event: a reservation
    is reconciled with the recorded cost or, without one, released, and a cost
    that was not reserved is added once.  Only a request without a key or a
    route records nothing, and it has reserved nothing. *)
Theorem settled_once s connections f :
  rtc life_step (Arrived, arrival s connections) (Logged, f) →
  settled f ∨
  (fl_usage f = [] ∧ lg_log (fl_control f) = [] ∧ px_budget_reserved (fl_ctx f) = false ∧
   (px_key (fl_ctx f) = None ∨ px_route (fl_ctx f) = None)).
Proof.
  intros Hr. apply life_inv_reach in Hr.
  - destruct Hr as [S|[[] K]]; [by left|by right].
  - unfold life_inv, arrival. cbn [fst snd].
    destruct (request_filter_fresh header_name_ok url_parse value_to_string sha256_hex to_lowercase has_control base64_decode
      key_hmac key_secret hmac_base64url base64url_decode from_slice_identity l ups worker_token auth env now key_now verify_jwt
      r admitted key_header request_id reservation_id) as [(U1 & U2 & U3) U4].
    by constructor.
Qed.
End settled_once.

(** ** A chat completion from arrival to its settlement *)

#[local] Existing Instances Tame.tame_control Tame.tame_settlement Tame.tame_accessa Samples.headers.
Module Chatting.
Definition probe : GenerationRequestProbe :=
  {| gp_model := Some "small"; gp_stream := false; gp_tools := None; gp_functions := None; gp_function_call := None;
     gp_tool_choice := None; gp_service := None; gp_service_name := None; gp_guardrails := None |}.
Definition serde : SerdeJson :=
  {| from_slice_value := λ _, Some (JObject [("model", JString "small")]); from_slice_maximum_probe := λ _, None;
     from_slice_batch := λ _, None; from_slice_extra_body := λ _, Some None; from_slice_generation_probe := λ _, Some probe |}.
Definition world : World :=
  {| wd_serde := serde; wd_pointer := λ _ _, None; wd_value_to_string := λ _, ""; wd_sha256_hex := λ _, "";
     wd_to_vec := λ _, None; wd_parse_uuid := Some; wd_session_text := λ _, None; wd_session_of_text := λ _, None;
     wd_credential_uuid := λ _, ""; wd_fresh_uuid := ""; wd_ups := Samples.upstreams; wd_lookups := Chat.lookups;
     wd_policy := λ _ _ _, Ok Empty.policy; wd_accessa_policy := λ _, Ok Empty.policy; wd_socket_policy := Ok Empty.policy;
     wd_find_by_prefix := λ _, Ok None; wd_registration := λ _, Ok None; wd_committed := Ok Tame.nothing_spent;
     wd_foundry_token := λ _, Err UpstreamTimeout; wd_failure_code := λ _, None; wd_body_empty := false; wd_latency := 1;
     wd_clock := λ _, 10 |}.
Definition arrived : Flow (Ledgered Tame.store) :=
  arrival (HM := list (string * string)) (λ _, true) (λ _, None) (λ _, "") (λ _, "") to_ascii_lowercase (λ _, false) (λ _, None)
    Auth.sample_hmac (Some "k") (λ _ _, "") (λ _, None) (λ _, None) Chat.lookups Samples.upstreams None Chat.auth Auth.sample_env
    10 10 (λ _ _, Err InvalidEntraToken) (Chat.request Chat.headers) (Ok tt) "x-relayna-key" "req-1" "res-1" ∅ ∅.
Definition proxied := forwarding world arrived.
Definition bodied := admit_body (H2 := serde) (λ _, None) (λ _, Ok Empty.policy) (Ok Tame.nothing_spent) 10 10 10 10 "small"
  BodyAdmission.sample_state proxied.1.
Definition ended := logging (λ _, None) (λ _ _, None) Ok (Some 200) false 5 None 10 20 bodied.1.2.
Lemma proxied_ok : proxied.2 = Ok tt.
Proof. vm_compute. reflexivity. Qed.
Lemma ended_events : length (fl_usage ended.1) = 1%nat.
Proof. vm_compute. reflexivity. Qed.
Lemma forwarded_step w f x : x = forwarding (C := Tame.store) w f → x.2 = Ok tt → life_step (Arrived, f) (Proxying, x.1).
Proof. destruct x as [f' a]. cbn. intros Hx ->. by eapply life_forwarded. Qed.
Lemma body_step (w : World) policy capacity body st f x :
  x = admit_body (H2 := wd_serde w) (wd_to_vec w) policy (wd_committed w) (wd_clock w 1%nat) (wd_clock w 2%nat) (wd_clock w 3%nat)
        capacity body st f → life_step (C := Tame.store) (Proxying, f) (Proxying, x.1.2).
Proof. destruct x as [[st' f'] a]. cbn. intros Hx. by eapply life_body. Qed.
Lemma logged_step (w : World) fs key written failed lat code at_ now f x :
  x = logging fs (wd_pointer w) key written failed lat code at_ now f → life_step (C := Tame.store) (Ending, f) (Logged, x.1).
Proof. destruct x as [f' a]. cbn. intros Hx. by eapply life_logged. Qed.
Lemma proxied_eq : proxied = forwarding world arrived.
Proof. unfold proxied. reflexivity. Qed.
Lemma bodied_eq : bodied = admit_body (H2 := wd_serde world) (wd_to_vec world) (λ _, Ok Empty.policy) (wd_committed world)
  (wd_clock world 1%nat) (wd_clock world 2%nat) (wd_clock world 3%nat) 10 "small" BodyAdmission.sample_state proxied.1.
Proof. unfold bodied. cbn [wd_serde wd_to_vec wd_committed wd_clock world]. reflexivity. Qed.
Lemma ended_eq : ended = logging (λ _, None) (wd_pointer world) Ok (Some 200) false 5 None 10 20 bodied.1.2.
Proof. unfold ended. cbn [wd_pointer world]. reflexivity. Qed.
Lemma life : rtc life_step (Arrived, arrived) (Logged, ended.1).
Proof.
  apply (rtc_l _ _ _ _ (forwarded_step _ _ _ proxied_eq proxied_ok)), (rtc_l _ _ _ _ (body_step _ _ _ _ _ _ _ bodied_eq)),
    (rtc_l _ _ _ _ (life_ended _)), rtc_once. exact (logged_step _ _ _ _ _ _ _ _ _ _ _ ended_eq).
Qed.
End Chatting.

Lemma settled_once_witness : settled Chatting.ended.1.
Proof.
  pose proof Chatting.life as R. pose proof Chatting.ended_events as E. revert R E. generalize (Chatting.ended.1).
  unfold Chatting.arrived. intros f R E.
  destruct (settled_once _ _ _ _ _ _ _ _ _ _ _ _ _ _ _ _ _ _ _ _ _ _ _ _ _ _ _ _ R) as [S|(He & _)]; [exact S|].
  rewrite He in E. discriminate E.
Defined.
