(* ===== verification/FoundryTokens.v ===== *)
(** * Foundry: credentials and token counts

    Models of [crates/gateway-proxy/src/foundry.rs] [FoundryUsage::feed] - the
    response is forwarded as it arrives, and its lines are looked at for the
    token counts, one byte at a time and at most 65536 bytes of a line - and
    [FoundryTokenCache], the acquisition and validation of access tokens and
    the connection check.  The HTTP exchange and the projected token file are
    parameters; the messages of the diagnostics, which are constants per code,
    are left out. *)

From S2P Require Import Prelude SocketFrames ConnectionLimits StreamGuardrails Errors Routing Json GuardrailPolicy Policies Guardrails BodyAdmission BodyRewrite EndpointAccess Foundry ServiceTypes ServicePricing ResponseCost UsageCost RequestBody Auth ProviderConfigs Headers Upstream ProxyContext UpstreamRequest Entra AuthSettings Stages RequestFilter Usage.
Definition newline : ascii := "010"%char.
Definition LINE_LIMIT : Z := 65536.

Section usage.
Variable from_slice : string → option Value.
Variable pointer : Value → string → option Value.

(** The counts of one line, if it is a data line that has them. *)
Definition usage_count (usage : Value) (name : string) : option Z :=
  opt_filter (λ n, 0 <=? n) (value_get name usage ≫= as_i64).
Definition line_usage (line : string) : option (option Z * option Z * option Z) :=
  data ← strip_prefix "data:" line;
  value ← from_slice data;
  usage ← pointer value "/response/usage";
  Some (usage_count usage "input_tokens", usage_count usage "output_tokens", usage_count usage "total_tokens").

Definition feed_byte (u : FoundryUsage) (c : ascii) : FoundryUsage :=
  if Ascii.eqb c newline then
    {| fu_line := ""; fu_overflow := false;
       fu_tokens := if fu_overflow u then fu_tokens u else default (fu_tokens u) (line_usage (fu_line u)) |}
  else if len (fu_line u) <? LINE_LIMIT then
    {| fu_line := fu_line u +:+ String c ""; fu_overflow := fu_overflow u; fu_tokens := fu_tokens u |}
  else {| fu_line := fu_line u; fu_overflow := true; fu_tokens := fu_tokens u |}.
Fixpoint feed (u : FoundryUsage) (bytes : string) : FoundryUsage :=
  match bytes with
  | EmptyString => u
  | String c bytes => feed (feed_byte u c) bytes
  end.

(** ** The counts are those of the last line that has them *)

Definition account (tokens : option Z * option Z * option Z) (line : string) : option Z * option Z * option Z :=
  if len line <=? LINE_LIMIT then default tokens (line_usage line) else tokens.
(** The lines of a text that are complete. *)
Definition complete_lines (text : string) : list string := removelast (split_on newline text).

(** What the observer knows after the text of the line [p]. *)
Record observed (u : FoundryUsage) (tokens : option Z * option Z * option Z) (p : string) : Prop := {
  ob_line : fu_line u = str_take (Z.to_nat LINE_LIMIT) p;
  ob_overflow : fu_overflow u = (LINE_LIMIT <? len p);
  ob_tokens : fu_tokens u = tokens
}.

Lemma str_take_all n s : (String.length s ≤ n)%nat → str_take n s = s.
Proof.
  revert n. induction s as [|c s IH]; intros n Hn; [by destruct n|].
  destruct n as [|n]; cbn in Hn; [lia|]. cbn. f_equal. apply IH. lia.
Qed.
Lemma str_take_more n s t : (n ≤ String.length s)%nat → str_take n (s +:+ t) = str_take n s.
Proof.
  revert n. induction s as [|c s IH]; intros n Hn; [cbn in Hn; by destruct n; [destruct t|lia]|].
  destruct n as [|n]; [done|]. cbn in *. f_equal. apply IH. lia.
Qed.
Lemma str_take_length n s : String.length (str_take n s) = (n `min` String.length s)%nat.
Proof. revert n. induction s as [|c s IH]; intros [|n]; cbn; [done..|]. by rewrite IH. Qed.

Lemma observed_byte u tokens p c :
  observed u tokens p →
  if Ascii.eqb c newline then observed (feed_byte u c) (account tokens p) ""
  else observed (feed_byte u c) tokens (p +:+ String c "").
Proof.
  intros [Hl Ho Ht]. unfold feed_byte. destruct (Ascii.eqb c newline).
  - constructor; [done..|]. cbn. rewrite Ho, Ht. unfold account. destruct (Z.leb_spec (len p) LINE_LIMIT) as [Hp|Hp].
    + destruct (Z.ltb_spec LINE_LIMIT (len p)); [lia|]. rewrite Hl, str_take_all; [done|]. unfold len in Hp. lia.
    + by destruct (Z.ltb_spec LINE_LIMIT (len p)); [|lia].
  - assert (len (fu_line u) = Z.min LINE_LIMIT (len p)) as Hn.
    { rewrite Hl. unfold len. rewrite str_take_length. unfold LINE_LIMIT. lia. }
    rewrite Hn. destruct (Z.ltb_spec (Z.min LINE_LIMIT (len p)) LINE_LIMIT) as [Hp|Hp]; constructor; cbn [fu_line fu_overflow fu_tokens]; try done.
    + rewrite Hl, !str_take_all; [done|..]; rewrite ?length_append; unfold len in Hp; cbn; lia.
    + rewrite Ho, len_append. change (len (String c "")) with 1. destruct (Z.ltb_spec LINE_LIMIT (len p)), (Z.ltb_spec LINE_LIMIT (len p + 1)); lia || done.
    + rewrite Hl, str_take_more; [done|]. unfold len in Hp. lia.
    + rewrite len_append. change (len (String c "")) with 1. destruct (Z.ltb_spec LINE_LIMIT (len p + 1)); lia || done.
Qed.

(** Lines that begin with [p]. *)
Definition lines_after (p text : string) : list string :=
  match split_on newline text with [] => [] | l :: ls => (p +:+ l) :: ls end.
Lemma split_on_cons text : ∃ l ls, split_on newline text = l :: ls.
Proof.
  induction text as [|c text (l & ls & IH)]; [by eexists _, _|]. cbn [split_on]. rewrite IH. destruct (Ascii.eqb newline c); by eexists _, _.
Qed.
Lemma lines_after_byte p c text :
  lines_after p (String c text) =
    if Ascii.eqb c newline then p :: lines_after "" text else lines_after (p +:+ String c "") text.
Proof.
  unfold lines_after. cbn [split_on]. destruct (split_on_cons text) as (l & ls & ->). rewrite Ascii.eqb_sym.
  destruct (Ascii.eqb c newline); [by rewrite append_nil_r|]. f_equal. by rewrite append_assoc.
Qed.
Lemma lines_after_cons p text : ∃ l ls, lines_after p text = l :: ls.
Proof. unfold lines_after. destruct (split_on_cons text) as (l & ls & ->). by eexists _, _. Qed.

Lemma feed_lines text u tokens p :
  observed u tokens p → fu_tokens (feed u text) = foldl account tokens (removelast (lines_after p text)).
Proof.
  revert u tokens p. induction text as [|c text IH]; intros u tokens p O.
  { unfold lines_after. cbn. apply O. }
  pose proof (observed_byte u tokens p c O) as O'. cbn [feed]. rewrite lines_after_byte.
  destruct (Ascii.eqb c newline); [|by apply IH]. rewrite (IH _ _ _ O'). destruct (lines_after_cons "" text) as (l & ls & ->). done.
Qed.
Lemma usage_feed_app u a b : feed u (a +:+ b) = feed (feed u a) b.
Proof. revert u. induction a as [|c a IH]; intros u; cbn; [done|]. apply IH. Qed.
Lemma feed_chunks u chunks : foldl feed u chunks = feed u (str_join chunks).
Proof. revert u. induction chunks as [|c chunks IH]; intros u; cbn; [done|]. by rewrite IH, usage_feed_app. Qed.

(** However the response is cut into chunks, the recorded token counts are
    those of its last complete data line of at most 65536 bytes that carries
    usage, and none when there is no such line. *)
Theorem foundry_usage_exact chunks :
  fu_tokens (foldl feed FoundryUsage_default chunks) = foldl account (None, None, None) (complete_lines (str_join chunks)).
Proof.
  rewrite feed_chunks. rewrite (feed_lines _ _ (None, None, None) ""); [|done].
  unfold lines_after, complete_lines. by destruct (split_on_cons (str_join chunks)) as (l & ls & ->).
Qed.

(** The observer holds at most one bounded line. *)
Lemma feed_bounded text u : len (fu_line u) ≤ LINE_LIMIT → len (fu_line (feed u text)) ≤ LINE_LIMIT.
Proof.
  revert u. induction text as [|c text IH]; intros u Hu; [done|]. cbn. apply IH. unfold feed_byte.
  destruct (Ascii.eqb c newline); [done|]. destruct (Z.ltb_spec (len (fu_line u)) LINE_LIMIT); [|done].
  cbn [fu_line]. rewrite len_append. change (len (String c "")) with 1. lia.
Qed.
End usage.

(** ** Acquisition *)

Inductive IdentityFailure : Type :=
| FConfiguration
| FWorkloadMissing
| FWorkloadUnreadable
| FWorkloadInvalid
| FRejected (status : Z)
| FNetwork
| FTimeout
| FTokenResponse.

(** A [GET] of the metadata service or a form that is posted. *)
Record TokenRequest := { tr_get : bool; tr_endpoint : string; tr_fields : list (string * string) }.
(** The outcome of an exchange: no response, or a status with the chunks of
    the body, [None] for a chunk that could not be read. *)
Inductive Exchange : Type :=
| NoResponse (timeout : bool)
| Response (status : Z) (chunks : list (option string)).

(** What the process finds in its environment; [read_file] reads at most
    65537 bytes of text. *)
Record Deployment := {
  mock_endpoint : option string;
  federated_file : option string;
  read_file : string → option string
}.

Definition RESPONSE_LIMIT : Z := 65536.
Fixpoint read_bounded (bytes : string) (chunks : list (option string)) : option string :=
  match chunks with
  | [] => Some bytes
  | None :: _ => None
  | Some chunk :: chunks => if RESPONSE_LIMIT <? len bytes + len chunk then None else read_bounded (bytes +:+ chunk) chunks
  end.

(** [u8::is_ascii_whitespace] or [u8::is_ascii_control]. *)
Definition blank_or_control (c : ascii) : bool := (byte_val c <=? 32) || (byte_val c =? 127).
Definition usable_token (token : string) : bool := negb (is_empty token) && all_bytes (λ c, negb (blank_or_control c)) token.

Definition token_of_value (value : Value) : option (string * Z) :=
  token ← value_get "access_token" value ≫= as_str;
  if negb (usable_token token) then None
  else if negb (is_some_and (λ t, eq_ignore_ascii_case t "Bearer") (value_get "token_type" value ≫= as_str)) then None
  else
    lifetime ← (v ← value_get "expires_in" value;
                match as_u64 v with Some n => Some n | None => as_str v ≫= parse_usize end);
    if (lifetime =? 0) || (86400 <? lifetime) then None else Some (token, lifetime).

Section acquisition.
Variable url_parse : string → option Url.
Variable from_slice : string → option Value.
Variable deployment : Deployment.
(** [reqwest] with redirects off. *)
Variable send : TokenRequest → Exchange.

Definition LOOPBACK : string := "http://127.0.0.1:".
Definition token_endpoint (config : FoundryRuntimeConfig) (tenant : string) : GatewayResult string :=
  match (if starts_with (frc_base_url config) LOOPBACK then mock_endpoint deployment else None) with
  | Some endpoint =>
      let? url := ok_or (url_parse endpoint) InvalidFoundryConfiguration in
      if negb (String.eqb (url_scheme url) "http") || negb (bool_decide (url_host_str url = Some "127.0.0.1"))
         || negb (is_empty (url_username url)) || is_some (url_password url)
      then Err InvalidFoundryConfiguration else Ok endpoint
  | None =>
      Ok (if bool_decide (method (frc_identity config) = ManagedIdentity)
          then "http://169.254.169.254/metadata/identity/oauth2/token"
          else "https://login.microsoftonline.com/" +:+ tenant +:+ "/oauth2/v2.0/token")
  end.
Definition map_err {A} (r : GatewayResult A) : result IdentityFailure A :=
  match r with Ok a => Ok a | Err _ => Err FConfiguration end.

Definition NIL_UUID : string := "00000000-0000-0000-0000-000000000000".
(** What proves the identity of the gateway. *)
Definition credential_fields (config : FoundryRuntimeConfig) : result IdentityFailure (list (string * string)) :=
  if bool_decide (method (frc_identity config) = ClientSecret) then
    let? secret := ok_or (frc_secret config) FTokenResponse in Ok [("client_secret", secret)]
  else
    let? path := ok_or (federated_file deployment) FWorkloadMissing in
    let? assertion := ok_or (read_file deployment path) FWorkloadUnreadable in
    if is_empty (trim assertion) || (65536 <? len assertion) then Err FWorkloadInvalid
    else Ok [("client_assertion_type", "urn:ietf:params:oauth:client-assertion-type:jwt-bearer");
             ("client_assertion", trim assertion)].

Definition token_request (config : FoundryRuntimeConfig) : result IdentityFailure TokenRequest :=
  let i := frc_identity config in
  if bool_decide (method i = ManagedIdentity) then
    let? endpoint := map_err (token_endpoint config NIL_UUID) in
    Ok {| tr_get := true; tr_endpoint := endpoint;
          tr_fields := [("api-version", "2018-02-01"); ("resource", "https://ai.azure.com")]
                       ++ option_list (pair "client_id" <$> identity_client_id i) |}
  else
    let? tenant := ok_or (identity_tenant_id i) FTokenResponse in
    let? endpoint := map_err (token_endpoint config tenant) in
    let? client := ok_or (identity_client_id i) FTokenResponse in
    let? credential := credential_fields config in
    Ok {| tr_get := false; tr_endpoint := endpoint;
          tr_fields := [("grant_type", "client_credentials"); ("client_id", client);
                        ("scope", "https://ai.azure.com/.default")] ++ credential |}.

Definition acquire_token_checked (config : FoundryRuntimeConfig) : result IdentityFailure (string * Z) :=
  check? map_err (identity_validate url_parse (frc_identity config) (frc_base_url config) (is_some (frc_secret config))) in
  let? request := token_request config in
  match send request with
  | NoResponse timeout => Err (if (timeout : bool) then FTimeout else FNetwork)
  | Response status chunks =>
      if negb (in_range 200 299 status) then Err (FRejected status)
      else ok_or ((read_bounded "" chunks ≫= from_slice) ≫= token_of_value) FTokenResponse
  end.
Definition acquire_token (config : FoundryRuntimeConfig) : GatewayResult (string * Z) :=
  match acquire_token_checked config with Ok t => Ok t | Err _ => Err FoundryCredentialUnavailable end.

(** ** The connection check *)

Record FoundryCheckStep := { ck_status : string; ck_code : string; ck_http_status : option Z }.
Definition step (e : IdentityFailure) : FoundryCheckStep :=
  let '(code, status) :=
    match e with
    | FConfiguration => ("identity_configuration", None)
    | FWorkloadMissing => ("workload_token_missing", None)
    | FWorkloadUnreadable => ("workload_token_unreadable", None)
    | FWorkloadInvalid => ("workload_token_invalid", None)
    | FRejected status => ("identity_rejected", Some status)
    | FNetwork => ("identity_network", None)
    | FTimeout => ("identity_timeout", None)
    | FTokenResponse => ("identity_response_invalid", None)
    end in
  {| ck_status := "failed"; ck_code := code; ck_http_status := status |}.

(** The request for one agent, with the token. *)
Variable send_project : string → Exchange.
Definition project_verdict (status : Z) : string * string :=
  if status =? 401 then ("failed", "project_unauthorized")
  else if status =? 403 then ("inconclusive", "project_read_forbidden")
  else if status =? 404 then ("failed", "project_not_found")
  else if status =? 429 then ("inconclusive", "project_throttled")
  else if in_range 500 599 status then ("inconclusive", "project_unavailable")
  else if in_range 300 399 status then ("failed", "project_redirect")
  else ("failed", "project_rejected").
Definition check_project (token : string) : FoundryCheckStep :=
  match send_project token with
  | NoResponse timeout =>
      {| ck_status := "failed"; ck_code := if (timeout : bool) then "project_timeout" else "project_network"; ck_http_status := None |}
  | Response status chunks =>
      let '(state, code) :=
        if status =? 200 then
          if is_some_and (λ v, is_some (value_get "data" v ≫= as_array)) (read_bounded "" chunks ≫= from_slice)
          then ("passed", "project_read_verified") else ("failed", "project_response_invalid")
        else project_verdict status in
      {| ck_status := state; ck_code := code; ck_http_status := Some status |}
  end.
Definition verify_foundry_connection (config : FoundryRuntimeConfig) : FoundryCheckStep * FoundryCheckStep :=
  match acquire_token_checked config with
  | Err e => (step e, {| ck_status := "skipped"; ck_code := "identity_required"; ck_http_status := None |})
  | Ok (token, _) =>
      ({| ck_status := "passed"; ck_code := "token_acquired"; ck_http_status := None |}, check_project token)
  end.
End acquisition.

(** ** The cache *)

Record CachedToken := { ct_revision : Z; ct_token : string; ct_refresh_at : Z }.

(** Where a call of [token] is: before its first look, before it shares the
    provider's lock, waiting for the lock, holding it before the second look,
    exchanging with Azure, storing what it got, and done.  A call that shares
    a lock keeps it alive. *)
Inductive progress : Type :=
| Looking
| Joining
| Waiting (lock : nat)
| Checking (lock : nat)
| Acquiring (lock : nat)
| Storing (lock : nat) (token : string) (lifetime : Z)
| Returned (r : GatewayResult string).
Definition shares (p : progress) : option nat :=
  match p with Waiting k | Checking k | Acquiring k | Storing k _ _ => Some k | _ => None end.
Definition guards (p : progress) : option nat :=
  match p with Checking k | Acquiring k | Storing k _ _ => Some k | _ => None end.

(** [tc_issued] remembers what Azure issued: provider, revision, token, lifetime. *)
Record TokenCache := {
  tc_entries : gmap string CachedToken;
  tc_refreshes : gmap string nat;
  tc_next_lock : nat;
  tc_calls : gmap nat (FoundryRuntimeConfig * progress);
  tc_clock : Z;
  tc_issued : list (string * Z * string * Z)
}.
Definition cache_empty : TokenCache :=
  {| tc_entries := ∅; tc_refreshes := ∅; tc_next_lock := 0; tc_calls := ∅; tc_clock := 0; tc_issued := [] |}.

Definition any_call (P : progress → bool) (s : TokenCache) : bool :=
  existsb (λ kv : nat * (FoundryRuntimeConfig * progress), P kv.2.2) (map_to_list (tc_calls s)).
(** [Weak::strong_count] is positive. *)
Definition alive (s : TokenCache) (k : nat) : bool := any_call (λ p, bool_decide (shares p = Some k)) s.
Definition locked (s : TokenCache) (k : nat) : bool := any_call (λ p, bool_decide (guards p = Some k)) s.

Definition cached_token (entries : gmap string CachedToken) (config : FoundryRuntimeConfig) (now : Z) : option string :=
  cached ← entries !! frc_id config;
  if (ct_revision cached =? frc_revision config) && (now <? ct_refresh_at cached) then Some (ct_token cached) else None.

Definition refresh_after (lifetime : Z) : Z := saturating_sub lifetime (Z.max 1 (Z.min 60 (lifetime / 10))).
Definition CACHE_LIMIT : Z := 256.
(** What is stored for a fresh token, and what its caller is given. *)
Definition store_token (entries : gmap string CachedToken) (config : FoundryRuntimeConfig) (token : string) (lifetime now : Z) :
    gmap string CachedToken * string :=
  let newer := is_some_and (λ c, frc_revision config <? ct_revision c) (entries !! frc_id config) in
  if newer then (entries, token)
  else
    match cached_token entries config now with
    | Some cached => (entries, cached)
    | None =>
        let live := filter (λ kv : string * CachedToken, now < ct_refresh_at kv.2) entries in
        let live := if CACHE_LIMIT <=? Z.of_nat (size live) then ∅ else live in
        (<[frc_id config := {| ct_revision := frc_revision config; ct_token := token;
                               ct_refresh_at := now + nanos_per_sec * refresh_after lifetime |}]> live, token)
    end.

Definition set_call (i : nat) (config : FoundryRuntimeConfig) (p : progress) (s : TokenCache) : TokenCache :=
  {| tc_entries := tc_entries s; tc_refreshes := tc_refreshes s; tc_next_lock := tc_next_lock s;
     tc_calls := <[i := (config, p)]> (tc_calls s); tc_clock := tc_clock s; tc_issued := tc_issued s |}.
Definition set_entries (e : gmap string CachedToken) (s : TokenCache) : TokenCache :=
  {| tc_entries := e; tc_refreshes := tc_refreshes s; tc_next_lock := tc_next_lock s; tc_calls := tc_calls s;
     tc_clock := tc_clock s; tc_issued := tc_issued s |}.
Definition set_refreshes (m : gmap string nat) (next : nat) (s : TokenCache) : TokenCache :=
  {| tc_entries := tc_entries s; tc_refreshes := m; tc_next_lock := next; tc_calls := tc_calls s;
     tc_clock := tc_clock s; tc_issued := tc_issued s |}.
Definition issue (x : string * Z * string * Z) (s : TokenCache) : TokenCache :=
  {| tc_entries := tc_entries s; tc_refreshes := tc_refreshes s; tc_next_lock := tc_next_lock s; tc_calls := tc_calls s;
     tc_clock := tc_clock s; tc_issued := x :: tc_issued s |}.
Definition tick (now : Z) (s : TokenCache) : TokenCache :=
  {| tc_entries := tc_entries s; tc_refreshes := tc_refreshes s; tc_next_lock := tc_next_lock s; tc_calls := tc_calls s;
     tc_clock := now; tc_issued := tc_issued s |}.

Section cache.
Variable url_parse : string → option Url.
(** What an acquisition for a configuration gives. *)
Variable acquire : FoundryRuntimeConfig → GatewayResult (string * Z).

(** The next step of call [i], [None] when it is blocked or over. *)
Definition advance (i : nat) (s : TokenCache) : option TokenCache :=
  let now := tc_clock s in
  '(config, p) ← tc_calls s !! i;
  match p with
  | Looking =>
      Some (set_call i config
        match identity_validate url_parse (frc_identity config) (frc_base_url config) (is_some (frc_secret config)) with
        | Err e => Returned (Err e)
        | Ok _ => match cached_token (tc_entries s) config now with Some t => Returned (Ok t) | None => Joining end
        end s)
  | Joining =>
      let live := filter (λ kv : string * nat, alive s kv.2 = true) (tc_refreshes s) in
      match live !! frc_id config with
      | Some k => Some (set_call i config (Waiting k) (set_refreshes live (tc_next_lock s) s))
      | None =>
          let k := tc_next_lock s in
          Some (set_call i config (Waiting k) (set_refreshes (<[frc_id config := k]> live) (S k) s))
      end
  | Waiting k => if locked s k then None else Some (set_call i config (Checking k) s)
  | Checking k =>
      Some (set_call i config
        match cached_token (tc_entries s) config now with Some t => Returned (Ok t) | None => Acquiring k end s)
  | Acquiring k =>
      match acquire config with
      | Err e => Some (set_call i config (Returned (Err e)) s)
      | Ok (token, lifetime) =>
          Some (set_call i config (Storing k token lifetime)
                  (issue (frc_id config, frc_revision config, token, lifetime) s))
      end
  | Storing k token lifetime =>
      let '(entries, token) := store_token (tc_entries s) config token lifetime now in
      Some (set_call i config (Returned (Ok token)) (set_entries entries s))
  | Returned _ => None
  end.
End cache.

Definition drop_call (i : nat) (s : TokenCache) : TokenCache :=
  {| tc_entries := tc_entries s; tc_refreshes := tc_refreshes s; tc_next_lock := tc_next_lock s;
     tc_calls := delete i (tc_calls s); tc_clock := tc_clock s; tc_issued := tc_issued s |}.

Section running.
Variable url_parse : string → option Url.
Variable from_slice : string → option Value.

(** Calls arrive, move on one operation at a time with whatever the network
    answers, and are dropped when their request times out. *)
Inductive cache_step : TokenCache → TokenCache → Prop :=
| step_call i config s : tc_calls s !! i = None → cache_step s (set_call i config Looking s)
| step_advance i deployment send s s' :
    advance url_parse (acquire_token url_parse from_slice deployment send) i s = Some s' → cache_step s s'
| step_drop i s : cache_step s (drop_call i s)
| step_tick now s : tc_clock s ≤ now → cache_step s (tick now s).

(** ** One exchange per provider *)

Lemma any_call_true P s :
  any_call P s = true ↔ ∃ i config p, tc_calls s !! i = Some (config, p) ∧ P p = true.
Proof.
  unfold any_call. rewrite existsb_exists. setoid_rewrite <- list_elem_of_In. split.
  - intros ([i [config p]] & Hi%elem_of_map_to_list & HP). by exists i, config, p.
  - intros (i & config & p & Hi%elem_of_map_to_list & HP). by exists (i, (config, p)).
Qed.

Record locks_inv (s : TokenCache) : Prop := {
  li_shared i config p k : tc_calls s !! i = Some (config, p) → shares p = Some k → tc_refreshes s !! frc_id config = Some k;
  li_fresh id k : tc_refreshes s !! id = Some k → (k < tc_next_lock s)%nat;
  li_guard i j ci cj p q k : tc_calls s !! i = Some (ci, p) → tc_calls s !! j = Some (cj, q) →
    guards p = Some k → guards q = Some k → i = j
}.
Lemma locks_same s s' :
  tc_calls s' = tc_calls s → tc_refreshes s' = tc_refreshes s → tc_next_lock s' = tc_next_lock s → locks_inv s → locks_inv s'.
Proof. intros E1 E2 E3 [I1 I2 I3]. constructor; rewrite ?E1, ?E2, ?E3; done. Qed.
Lemma locks_set i config p s :
  locks_inv s → (∀ k, shares p = Some k → tc_refreshes s !! frc_id config = Some k) →
  (∀ k j cj q, guards p = Some k → tc_calls s !! j = Some (cj, q) → guards q = Some k → i = j) →
  locks_inv (set_call i config p s).
Proof.
  intros [I1 I2 I3] Hs Hg. constructor; cbn [set_call tc_calls tc_refreshes tc_next_lock].
  - intros j cj q k Hj Hk. apply lookup_insert_Some in Hj as [[<- [= <- <-]]|[_ Hj]]; eauto.
  - exact I2.
  - intros j l cj cl q q' k Hj Hl Hq Hq'. apply lookup_insert_Some in Hj as [[<- [= <- <-]]|[Nj Hj]];
      apply lookup_insert_Some in Hl as [[<- [= <- <-]]|[Nl Hl]]; [done|by eapply Hg|symmetry; by eapply Hg|by eapply I3].
Qed.
(** A call that keeps its lock or lets it go. *)
Lemma locks_keep i config p q s :
  locks_inv s → tc_calls s !! i = Some (config, p) → (∀ k, shares q = Some k → shares p = Some k) →
  (∀ k, guards q = Some k → guards p = Some k) → locks_inv (set_call i config q s).
Proof.
  intros I Hi Hs Hg. apply locks_set; [done|..].
  - intros k Hk. eapply li_shared; eauto.
  - intros k j cj q' Hk Hj Hq'. eapply li_guard; eauto.
Qed.
Lemma locks_join i config s :
  locks_inv s → tc_calls s !! i = Some (config, Joining) →
  let live := filter (λ kv : string * nat, alive s kv.2 = true) (tc_refreshes s) in
  match live !! frc_id config with
  | Some k => locks_inv (set_call i config (Waiting k) (set_refreshes live (tc_next_lock s) s))
  | None => locks_inv (set_call i config (Waiting (tc_next_lock s))
      (set_refreshes (<[frc_id config := tc_next_lock s]> live) (S (tc_next_lock s)) s))
  end.
Proof.
  intros I Hi live.
  assert (Hlive : ∀ j cj q k, tc_calls s !! j = Some (cj, q) → shares q = Some k → live !! frc_id cj = Some k).
  { intros j cj q k Hj Hk. apply map_lookup_filter_Some. split; [by eapply li_shared|]. cbn. apply any_call_true.
    exists j, cj, q. split; [done|]. by apply bool_decide_eq_true. }
  assert (Hsub : ∀ id k, live !! id = Some k → tc_refreshes s !! id = Some k).
  { by intros id k [Hk _]%map_lookup_filter_Some. }
  destruct (live !! frc_id config) as [k|] eqn:E.
  - apply locks_set; cbn [shares guards]; [|by intros k' [= <-]|done]. constructor; cbn.
    + exact Hlive.
    + intros id k' Hk. eapply li_fresh; eauto.
    + apply I.
  - apply locks_set; cbn [shares guards]; [|intros k' [= <-]; cbn; by rewrite lookup_insert_eq|done]. constructor; cbn.
    + intros j cj q k Hj Hk. pose proof (Hlive _ _ _ _ Hj Hk) as Hl. rewrite lookup_insert_ne; [done|]. congruence.
    + intros id k Hk. apply lookup_insert_Some in Hk as [[_ <-]|[_ Hk]]; [lia|].
      apply Hsub, (li_fresh _ I) in Hk. lia.
    + apply I.
Qed.

Lemma locks_step s s' : locks_inv s → cache_step s s' → locks_inv s'.
Proof.
  intros I Hs. destruct Hs as [i config s Hn|i deployment send s s' E|i s|now s Hn].
  - by apply locks_set.
  - unfold advance in E. destruct (tc_calls s !! i) as [[config p]|] eqn:Hi; [|done]. cbn [mbind option_bind] in E.
    assert (Hset : ∀ q, (∀ k, shares q = Some k → shares p = Some k) → (∀ k, guards q = Some k → guards p = Some k) →
      locks_inv (set_call i config q s)) by (intros; by eapply locks_keep).
    destruct p as [| |k|k|k|k token lifetime|r].
    + injection E as <-. destruct (identity_validate _ _ _ _) as [[]|]; [destruct (cached_token _ _ _)|]; by apply Hset.
    + pose proof (locks_join i config s I Hi) as J. cbv zeta in J, E.
      destruct (filter _ _ !! frc_id config); injection E as <-; exact J.
    + destruct (locked s k) eqn:L; [done|]. injection E as <-. apply locks_set; [done|..]; cbn [shares guards].
      * intros k' [= <-]. by eapply li_shared.
      * intros k' j cj q [= <-] Hj Hq. exfalso. apply not_true_iff_false in L. apply L, any_call_true.
        exists j, cj, q. split; [done|]. by apply bool_decide_eq_true.
    + injection E as <-. destruct (cached_token _ _ _); by apply Hset.
    + destruct (acquire_token _ _ _ _ _) as [[token lifetime]|e]; injection E as <-; [|by apply Hset].
      apply (locks_same (set_call i config (Storing k token lifetime) s)); [done..|]. by apply Hset.
    + destruct (store_token _ _ _ _ _) as [entries token']. injection E as <-.
      apply (locks_same (set_call i config (Returned (Ok token')) s)); [done..|]. by apply Hset.
    + done.
  - destruct I as [I1 I2 I3]. constructor; cbn; [|done|].
    + intros j cj q k [_ Hj]%lookup_delete_Some. by eapply I1.
    + intros j l cj cl q q' k [_ Hj]%lookup_delete_Some [_ Hl]%lookup_delete_Some. by eapply I3.
  - by apply (locks_same s).
Qed.

(** ** What is cached and returned was issued *)

Definition issued_for (config : FoundryRuntimeConfig) (token : string) (s : TokenCache) : Prop :=
  ∃ lifetime, (frc_id config, frc_revision config, token, lifetime) ∈ tc_issued s.
Record values_inv (s : TokenCache) : Prop := {
  vi_entries id c : tc_entries s !! id = Some c → ∃ lifetime, (id, ct_revision c, ct_token c, lifetime) ∈ tc_issued s;
  vi_size : Z.of_nat (size (tc_entries s)) ≤ CACHE_LIMIT;
  vi_usable id rev token lifetime : (id, rev, token, lifetime) ∈ tc_issued s → usable_token token = true ∧ lifetime ≠ 0 ∧ lifetime ≤ 86400;
  vi_storing i config k token lifetime : tc_calls s !! i = Some (config, Storing k token lifetime) → issued_for config token s;
  vi_returned i config token : tc_calls s !! i = Some (config, Returned (Ok token)) → issued_for config token s
}.

(** The token that a phase of a call is about. *)
Definition token_in (p : progress) : option string :=
  match p with Storing _ t _ | Returned (Ok t) => Some t | _ => None end.
Lemma values_set i config p s :
  values_inv s → (∀ t, token_in p = Some t → issued_for config t s) → values_inv (set_call i config p s).
Proof.
  intros [V1 V2 V3 V4 V5] Hp. constructor; cbn; try done.
  - intros j cj k token lifetime Hj. apply lookup_insert_Some in Hj as [[_ [= <- ->]]|[_ Hj]]; [by apply Hp|by eapply V4].
  - intros j cj token Hj. apply lookup_insert_Some in Hj as [[_ [= <- ->]]|[_ Hj]]; [by apply Hp|by eapply V5].
Qed.
Lemma cached_issued s config now t : values_inv s → cached_token (tc_entries s) config now = Some t → issued_for config t s.
Proof.
  intros V. unfold cached_token. destruct (_ !! _) as [c|] eqn:E; [|done]. cbn.
  destruct (Z.eqb_spec (ct_revision c) (frc_revision config)) as [Hr|]; [|done]. cbn.
  destruct (_ <? _); [|done]. intros [= <-]. destruct (vi_entries _ V _ _ E) as [lifetime Hin]. exists lifetime. by rewrite <- Hr.
Qed.

Lemma size_insert_lt (m : gmap string CachedToken) k v :
  Z.of_nat (size m) < CACHE_LIMIT → Z.of_nat (size (<[k := v]> m)) ≤ CACHE_LIMIT.
Proof. intros Hm. rewrite map_size_insert. destruct (m !! k); cbn [id]; unfold CACHE_LIMIT in *; lia. Qed.
Lemma stored_entries s config token lifetime now entries t :
  values_inv s → issued_for config token s → store_token (tc_entries s) config token lifetime now = (entries, t) →
  values_inv (set_entries entries s) ∧ issued_for config t s.
Proof.
  intros V Hi. unfold store_token. cbv zeta. destruct (is_some_and _ _).
  { intros [= <- <-]. split; [|done]. by destruct V. }
  destruct (cached_token _ _ _) as [c|] eqn:Ec.
  { intros [= <- <-]. split; [by destruct V|by eapply cached_issued]. }
  intros [= <- <-]. split; [|done]. set (live := filter _ _).
  assert (Hlive : ∀ id c, (if CACHE_LIMIT <=? Z.of_nat (size live) then ∅ else live) !! id = Some c → tc_entries s !! id = Some c).
  { intros id c. destruct (_ <=? _); [by rewrite lookup_empty|]. by intros [? _]%map_lookup_filter_Some. }
  assert (Hsize : Z.of_nat (size (if CACHE_LIMIT <=? Z.of_nat (size live) then ∅ else live)) < CACHE_LIMIT).
  { destruct (Z.leb_spec CACHE_LIMIT (Z.of_nat (size live))); [|done]. rewrite map_size_empty. unfold CACHE_LIMIT. lia. }
  destruct V as [V1 V2 V3 V4 V5]. constructor; cbn [set_entries tc_entries tc_issued tc_calls]; try done.
  - intros id c Hc. apply lookup_insert_Some in Hc as [[<- <-]|[_ Hc]]; [exact Hi|by eapply V1, Hlive].
  - by apply size_insert_lt.
Qed.

Lemma acquired_usable deployment send config token lifetime :
  acquire_token url_parse from_slice deployment send config = Ok (token, lifetime) →
  usable_token token = true ∧ lifetime ≠ 0 ∧ lifetime ≤ 86400.
Proof.
  unfold acquire_token, acquire_token_checked. destruct (map_err _) as [[]|]; [|done].
  destruct (token_request _ _ _) as [request|]; [|done]. destruct (send request) as [|status chunks]; [done|].
  destruct (negb _); [done|]. destruct (read_bounded "" chunks ≫= from_slice) as [v|]; [|done]. cbn [mbind option_bind].
  unfold token_of_value. destruct (value_get "access_token" v ≫= as_str) as [t|]; [|done]. cbn [mbind option_bind].
  destruct (usable_token t) eqn:U; [|done]. cbn [negb]. destruct (negb _); [done|].
  destruct (value_get "expires_in" v ≫= _) as [n|] eqn:En; [|done]. cbn [mbind option_bind].
  destruct (n =? 0) eqn:E0; [done|]. destruct (86400 <? n) eqn:E1; [done|]. cbn. intros [= <- <-].
  split; [done|]. apply Z.eqb_neq in E0. by apply Z.ltb_ge in E1.
Qed.

Lemma values_step s s' : values_inv s → cache_step s s' → values_inv s'.
Proof.
  intros V Hs. destruct Hs as [i config s Hn|i deployment send s s' E|i s|now s Hn].
  - by apply values_set.
  - unfold advance in E. destruct (tc_calls s !! i) as [[config p]|] eqn:Hi; [|done]. cbn [mbind option_bind] in E.
    assert (Hcached : ∀ t, cached_token (tc_entries s) config (tc_clock s) = Some t → issued_for config t s)
      by (intros; by eapply cached_issued).
    destruct p as [| |k|k|k|k token lifetime|r].
    + injection E as <-. apply values_set; [done|]. intros t.
      destruct (identity_validate _ _ _ _) as [[]|]; [destruct (cached_token _ _ _)|]; cbn; try done. intros [= <-]. by apply Hcached.
    + cbv zeta in E. destruct (filter _ _ !! frc_id config); injection E as <-; (apply values_set; [by destruct V|done]).
    + destruct (locked s k); [done|]. injection E as <-. by apply values_set.
    + injection E as <-. apply values_set; [done|]. intros t. destruct (cached_token _ _ _); cbn; [|done].
      intros [= <-]. by apply Hcached.
    + destruct (acquire_token _ _ _ _ _) as [[token lifetime]|e] eqn:Ea; injection E as <-; [|by apply values_set].
      apply acquired_usable in Ea. apply values_set.
      * destruct V as [V1 V2 V3 V4 V5]. constructor; cbn; try done.
        -- intros id c [lt Hc]%V1. exists lt. by right.
        -- intros id rev t lt [[= -> -> -> ->]|Hin]%elem_of_cons; [done|by eapply V3].
        -- intros j cj k' t lt [lt' Hj]%V4. exists lt'. by right.
        -- intros j cj t [lt' Hj]%V5. exists lt'. by right.
      * intros t [= <-]. exists lifetime. by left.
    + destruct (store_token _ _ _ _ _) as [entries token'] eqn:Es. injection E as <-.
      destruct (stored_entries _ _ _ _ _ _ _ V (vi_storing _ V _ _ _ _ _ Hi) Es) as [V' Ht].
      apply values_set; [done|]. by intros t [= <-].
    + done.
  - destruct V as [V1 V2 V3 V4 V5]. constructor; cbn; try done.
    + intros j cj k t lt [_ Hj]%lookup_delete_Some. by eapply V4.
    + intros j cj t [_ Hj]%lookup_delete_Some. by eapply V5.
  - by destruct V.
Qed.

(** ** Revisions only grow *)

Lemma store_revision entries config token lifetime now entries' t id c c' :
  store_token entries config token lifetime now = (entries', t) → entries !! id = Some c → entries' !! id = Some c' →
  ct_revision c ≤ ct_revision c'.
Proof.
  unfold store_token. cbv zeta. destruct (is_some_and _ _) eqn:Hn; [intros [= <- _]; intros; by simplify_eq|].
  destruct (cached_token _ _ _); [intros [= <- _]; intros; by simplify_eq|]. intros [= <- _] Hc Hc'.
  apply lookup_insert_Some in Hc' as [[<- <-]|[_ Hc']].
  - rewrite Hc in Hn. cbn in Hn. by apply Z.ltb_ge in Hn.
  - destruct (_ <=? _); [by rewrite lookup_empty in Hc'|]. apply map_lookup_filter_Some in Hc' as [Hc' _]. by simplify_eq.
Qed.
Lemma revisions_step s s' id c c' :
  cache_step s s' → tc_entries s !! id = Some c → tc_entries s' !! id = Some c' → ct_revision c ≤ ct_revision c'.
Proof.
  intros Hs Hc Hc'. destruct Hs as [i config s Hn|i deployment send s s' E|i s|now s Hn]; try (cbn in Hc'; by simplify_eq).
  unfold advance in E. destruct (tc_calls s !! i) as [[config p]|] eqn:Hi; [|done]. cbn [mbind option_bind] in E.
  destruct p; try (injection E as <-; cbn in Hc'; by simplify_eq); [..|done].
  - cbv zeta in E. destruct (filter _ _ !! frc_id config); injection E as <-; cbn in Hc'; by simplify_eq.
  - destruct (locked s lock); [done|]. injection E as <-. cbn in Hc'. by simplify_eq.
  - destruct (acquire_token _ _ _ _ _) as [[]|]; injection E as <-; cbn in Hc'; by simplify_eq.
  - destruct (store_token _ _ _ _ _) as [entries t] eqn:Es. injection E as <-. cbn in Hc'. by eapply store_revision.
Qed.

(** C30: However calls for tokens interleave, fail or are dropped, at most one
    of them exchanges with Azure for a provider at any time, the cache holds at
    most 256 tokens, a call is only ever given a token that Azure issued for
    its own provider and revision and that is fit for a header, and a cached
    token is never replaced by one of an older revision. *)
Theorem foundry_tokens_sound s :
  rtc cache_step cache_empty s →
  (∀ i j ci cj ki kj, tc_calls s !! i = Some (ci, Acquiring ki) → tc_calls s !! j = Some (cj, Acquiring kj) →
     frc_id ci = frc_id cj → i = j) ∧
  Z.of_nat (size (tc_entries s)) ≤ CACHE_LIMIT ∧
  (∀ i config token, tc_calls s !! i = Some (config, Returned (Ok token)) → usable_token token = true ∧ issued_for config token s) ∧
  (∀ s' id c c', cache_step s s' → tc_entries s !! id = Some c → tc_entries s' !! id = Some c' → ct_revision c ≤ ct_revision c').
Proof.
  intros Hr. assert (locks_inv s ∧ values_inv s) as [I V].
  { assert (locks_inv cache_empty ∧ values_inv cache_empty) as H0.
    { split; constructor; cbn; try done; try (intros; set_solver). }
    revert H0. induction Hr as [|x y z Hxy _ IH]; [done|]. intros [I V]. apply IH. split; [by eapply locks_step|by eapply values_step]. }
  split_and!.
  - intros i j ci cj ki kj Hi Hj Hid. assert (ki = kj) as ->.
    { pose proof (li_shared _ I _ _ _ ki Hi eq_refl). pose proof (li_shared _ I _ _ _ kj Hj eq_refl). congruence. }
    by eapply (li_guard _ I).
  - apply V.
  - intros i config token Hi. pose proof (vi_returned _ V _ _ _ Hi) as [lifetime Hin]. split; [by eapply vi_usable|by exists lifetime].
  - intros. by eapply revisions_step.
Qed.

(** Credentials are only sent to Azure, or to a loopback mock of a loopback project. *)
Theorem credentials_confined deployment config request :
  token_request url_parse deployment config = Ok request →
  tr_endpoint request = "http://169.254.169.254/metadata/identity/oauth2/token" ∨
  (∃ tenant, identity_tenant_id (frc_identity config) = Some tenant ∧
     tr_endpoint request = "https://login.microsoftonline.com/" +:+ tenant +:+ "/oauth2/v2.0/token") ∨
  (starts_with (frc_base_url config) LOOPBACK = true ∧
   ∃ url, url_parse (tr_endpoint request) = Some url ∧ url_scheme url = "http" ∧ url_host_str url = Some "127.0.0.1" ∧
     url_username url = "" ∧ url_password url = None).
Proof.
  assert (Hep : ∀ tenant e, map_err (token_endpoint url_parse deployment config tenant) = Ok e →
    (method (frc_identity config) = ManagedIdentity ∧ e = "http://169.254.169.254/metadata/identity/oauth2/token") ∨
    (method (frc_identity config) ≠ ManagedIdentity ∧
     e = "https://login.microsoftonline.com/" +:+ tenant +:+ "/oauth2/v2.0/token") ∨
    (starts_with (frc_base_url config) LOOPBACK = true ∧ ∃ url, url_parse e = Some url ∧ url_scheme url = "http" ∧
       url_host_str url = Some "127.0.0.1" ∧ url_username url = "" ∧ url_password url = None)).
  { intros tenant e. unfold token_endpoint.
    destruct (starts_with (frc_base_url config) LOOPBACK) eqn:L; [destruct (mock_endpoint deployment) as [m|]|].
    - destruct (url_parse m) as [url|] eqn:Eu; [|done]. cbn [ok_or].
      destruct (String.eqb_spec (url_scheme url) "http") as [Hs|]; [|done]. cbn [negb orb].
      case_bool_decide as Hh; [|done]. cbn [negb orb]. destruct (url_username url) eqn:Un; [|done]. cbn.
      destruct (url_password url) eqn:Up; [done|]. intros [= <-]. right. right. split; [done|]. by exists url.
    - case_bool_decide; intros [= <-]; auto.
    - case_bool_decide; intros [= <-]; auto. }
  unfold token_request. case_bool_decide as Hm.
  - destruct (map_err _) as [e|] eqn:E; [|done]. apply Hep in E. intros [= <-]. cbn [tr_endpoint].
    destruct E as [[_ ->]|[[Hn _]|E]]; [by left|done|by right; right].
  - destruct (identity_tenant_id (frc_identity config)) as [tenant|]; [|done]. cbn [ok_or].
    destruct (map_err _) as [e|] eqn:E; [|done]. apply Hep in E. destruct (identity_client_id _); [|done]. cbn [ok_or].
    destruct (credential_fields _ _) as [fields|]; [|done]. intros [= <-]. cbn [tr_endpoint].
    destruct E as [[Hn _]|[[_ ->]|E]]; [done|right; left; by exists tenant|by right; right].
Qed.
End running.

(** ** Two calls for one provider *)

Module Race.
Definition config : FoundryRuntimeConfig :=
  {| frc_id := "p1"; frc_base_url := "https://res.services.ai.azure.com/api/projects/demo";
     frc_identity := {| method := ManagedIdentity; identity_tenant_id := None; identity_client_id := None |};
     frc_secret := None; frc_revision := 3 |}.
Definition url_parse (s : string) : option Url :=
  Some {| url_scheme := "https"; url_host_str := Some "res.services.ai.azure.com"; url_port_or_known_default := Some 443;
          url_path := "/api/projects/demo"; url_username := ""; url_password := None; url_query := None; url_fragment := None |}.
Definition deployment : Deployment := {| mock_endpoint := None; federated_file := None; read_file := λ _, None |}.
Definition reply : Value :=
  JObject [("access_token", JString "tok"); ("expires_in", JNumber (PosInt 3600)); ("token_type", JString "bearer")].
Definition from_slice (_ : string) : option Value := Some reply.
Definition send (_ : TokenRequest) : Exchange := Response 200 [Some "{}"].
Definition move (i : nat) (s : TokenCache) : TokenCache :=
  match tc_calls s !! i with
  | None => set_call i config Looking s
  | Some _ => default s (advance url_parse (acquire_token url_parse from_slice deployment send) i s)
  end.
(** The first call exchanges while the second waits and then finds the token. *)
Definition raced : TokenCache := foldr move cache_empty [2; 2; 1; 1; 2; 1; 1; 2; 1; 2; 1; 2; 1]%nat.
Lemma token_move_step i s : move i s = s ∨ cache_step url_parse from_slice s (move i s).
Proof.
  unfold move. destruct (tc_calls s !! i) eqn:E; [|right; by constructor].
  destruct (advance _ _ _ _) eqn:Ea; [right|by left]. by eapply step_advance.
Qed.
Lemma raced_reached l : rtc (cache_step url_parse from_slice) cache_empty (foldr move cache_empty l).
Proof.
  induction l as [|i l IH]; cbn; [constructor|]. destruct (token_move_step i (foldr move cache_empty l)) as [->|S]; [done|by eapply rtc_r].
Qed.
Lemma raced_rtc : rtc (cache_step url_parse from_slice) cache_empty raced.
Proof. unfold raced. apply raced_reached. Qed.
Lemma raced_second : tc_calls raced !! 2%nat = Some (config, Returned (Ok "tok")).
Proof. vm_compute. reflexivity. Qed.
Lemma raced_once : length (tc_issued raced) = 1%nat.
Proof. vm_compute. reflexivity. Qed.
End Race.

Lemma foundry_tokens_sound_witness :
  tc_calls Race.raced !! 2%nat = Some (Race.config, Returned (Ok "tok")) ∧ length (tc_issued Race.raced) = 1%nat ∧
  usable_token "tok" = true.
Proof.
  pose proof Race.raced_rtc as R. pose proof Race.raced_second as R2. pose proof Race.raced_once as R1. revert R R2 R1.
  generalize Race.raced. intros s R R2 R1. destruct (foundry_tokens_sound _ _ s R) as (_ & _ & T & _).
  split; [exact R2|]. split; [exact R1|]. exact (proj1 (T _ _ _ R2)).
Defined.
