(* ===== verification/ResponseHeaders.v ===== *)
(** * Response headers, failures and retries

    Models the callbacks of [crates/gateway-proxy/src/pingora_plane.rs] that
    see the upstream's response header ([upstream_response_filter],
    [response_filter]) and its failures ([fail_to_connect],
    [error_while_proxy], [fail_to_proxy]), with
    [prepare_rewritten_response_headers] of
    [crates/gateway-proxy/src/body_rewrite.rs].  Diagnostics are left out. *)

From S2P Require Import Prelude SocketFrames ConnectionLimits StreamGuardrails Errors Routing Json GuardrailPolicy Policies Guardrails BodyAdmission BodyRewrite EndpointAccess Foundry ServiceTypes ServicePricing ResponseCost UsageCost RequestBody Auth ProviderConfigs Headers Upstream ProxyContext UpstreamRequest Entra AuthSettings Stages RequestFilter.

(** ** Failures of the framework *)

Inductive ErrorSource : Type := FromUpstream | FromDownstream | FromInternal | Unset.
Inductive ErrorType : Type :=
| ConnectTimedout
| TLSHandshakeTimedout
| ReadTimedout
| WriteTimedout
| ReadError
| WriteError
| ConnectionClosed
| InvalidHTTPHeader
| InternalError
| HTTPStatus (code : Z)
| OtherError.
Inductive RetryType : Type := Decided (retry : bool) | ReusedOnly.
Record PingoraError := { esource : ErrorSource; etype : ErrorType; retry : RetryType }.
Definition set_retry (b : bool) (e : PingoraError) : PingoraError :=
  {| esource := esource e; etype := etype e; retry := Decided b |}.
Definition decide_reuse (reused : bool) (e : PingoraError) : PingoraError :=
  match retry e with ReusedOnly => set_retry reused e | Decided _ => e end.

Definition is_retry_safe_proxy_error (e : PingoraError) : bool :=
  match esource e, etype e with FromUpstream, (ReadTimedout | WriteTimedout) => true | _, _ => false end.
Definition is_upstream_timeout_error (e : PingoraError) : bool :=
  match esource e, etype e with
  | FromUpstream, (ConnectTimedout | TLSHandshakeTimedout | ReadTimedout | WriteTimedout) => true
  | _, _ => false
  end.
Definition default_proxy_failure_status (e : PingoraError) : Z :=
  match etype e with
  | HTTPStatus code => code
  | t =>
      match esource e with
      | FromUpstream => 502
      | FromDownstream => match t with WriteError | ReadError | ConnectionClosed => 0 | _ => 400 end
      | FromInternal | Unset => 500
      end
  end.

Section failures.
Variable ups : Upstreams.

Definition fail_to_connect (e : PingoraError) (c : PingoraContext) : PingoraContext * PingoraError :=
  let '(c, fallback) := activate_provider_fallback ups c in (c, set_retry fallback e).

(** [reusable]: the connection was reused and the request can be sent again. *)
Definition error_while_proxy (reusable : bool) (e : PingoraError) (c : PingoraContext) : PingoraContext * PingoraError :=
  if px_socket c then (c, set_retry false e)
  else
    let e := decide_reuse reusable e in
    if is_retry_safe_proxy_error e then
      let '(c, fallback) := activate_provider_fallback ups c in
      (c, if (fallback : bool) then set_retry true e else e)
    else (c, e).

(** What the client is told: a gateway error, or the status of a failed proxy
    with the error of its body; nothing when a response was begun. *)
Inductive failure_answer : Type := AnswerError (e : GatewayError) | AnswerStatus (status : Z) (e : GatewayError) | NoAnswer.
Definition fail_to_proxy (written : bool) (e : PingoraError) (c : PingoraContext) : PingoraContext * Z * failure_answer :=
  let answer a := if written then NoAnswer else a in
  match px_guardrail_error c with
  | Some g => (set_terminal_status (status_code g) c, status_code g, answer (AnswerError g))
  | None =>
      if is_upstream_timeout_error e then
        (if written then c else set_terminal_status (status_code UpstreamTimeout) c, status_code UpstreamTimeout,
         answer (AnswerError UpstreamTimeout))
      else
        let code := default_proxy_failure_status e in
        (set_terminal_status code c, code,
         if 0 <? code
         then answer (AnswerStatus code (match esource e with FromUpstream => UpstreamConnection | _ => InvalidConfiguration end))
         else NoAnswer)
  end.
End failures.

(** ** Response headers *)

Definition version_byte (c : ascii) : bool :=
  is_ascii_alphanumeric c || Ascii.eqb c "." || Ascii.eqb c "_" || Ascii.eqb c "+" || Ascii.eqb c "-".
Definition validated_service_version (value : string) : option string :=
  match value with
  | EmptyString => None
  | String c rest =>
      if (64 <? len value) || negb (is_ascii_alphanumeric c) || negb (all_bytes version_byte rest) then None else Some value
  end.

Definition plan_applies (plan : option GuardrailPlan) : bool := is_some_and (λ p, negb (is_nil p)) plan.
Definition push_once (names : list string) (n : string) : list string := if existsb (String.eqb n) names then names else names ++ [n].
Definition applied_guardrails_header (c : PingoraContext) : string :=
  let r := px_response c in
  let plans : list (list GuardrailDefinition) := option_list (px_pre_guardrail_plan c) ++ option_list (post_guardrail_plan r) ++ option_list (during_guardrail_plan r) in
  String.concat "," (foldl push_once [] (map Guardrails.name (concat plans))).

Record ResponseHeader (H : Type) := { rs_status : Z; rs_headers : H }.
Arguments rs_status {H}.
Arguments rs_headers {H}.

(** What the response stages share: the body admission and the context. *)
Record Reply := { ry_admission : BodyAdmissionState; ry_ctx : PingoraContext }.
Definition on_reply (g : PingoraContext → PingoraContext) (y : Reply) : Reply :=
  {| ry_admission := ry_admission y; ry_ctx := g (ry_ctx y) |}.
Definition set_admission (st : BodyAdmissionState) (y : Reply) : Reply := {| ry_admission := st; ry_ctx := ry_ctx y |}.

Section headers.
Context {H : Type} `{HeaderMap H}.
Variable parse_uri : string → option Uri.
Variable ups : Upstreams.

Definition capture_service_version (h : H) (c : PingoraContext) : PingoraContext :=
  if is_none (px_match c ≫= rm_service_name) then c
  else set_response (set_service_version (header_value h "x-relayna-service-version" ≫= validated_service_version) (px_response c)) c.

Definition set_upgraded (b : bool) (c : PingoraContext) : PingoraContext :=
  set_socket_state {| socket_upgraded := b; socket_lease := socket_lease (px_socket_state c);
                      socket_request_frames := socket_request_frames (px_socket_state c);
                      socket_response_frames := socket_response_frames (px_socket_state c) |} c.
Definition reset_observer (c : PingoraContext) : PingoraContext :=
  set_pricing ltac:(replace_field pricing_eta (px_pricing c) (response_cost_observer (px_pricing c)) observer_default) c.

Definition upstream_response_filter (r : ResponseHeader H) (c : PingoraContext) : PingoraContext * result PingoraError unit :=
  if (rs_status r =? 101) && (negb (px_socket c) || contains_key "sec-websocket-extensions" (rs_headers r))
  then (c, Err {| esource := FromUpstream; etype := InvalidHTTPHeader; retry := Decided false |})
  else
    let c := set_upgraded (px_socket c && (rs_status r =? 101)) (reset_observer c) in
    let '(c, fallback) := if negb (px_socket c) && is_retry_safe_status (rs_status r) then activate_provider_fallback ups c else (c, false) in
    if (fallback : bool) then (c, Err {| esource := FromUpstream; etype := HTTPStatus (rs_status r); retry := Decided true |})
    else (capture_service_version (rs_headers r) c, Ok tt).

Definition prepare_rewritten_response_headers (use_http1_chunked : bool) (h : H) : H :=
  let h := remove_headers ["Content-Length"; "Transfer-Encoding"] h in
  if use_http1_chunked then default h (insert_header "Transfer-Encoding" "Chunked" h) else h.

Definition content_length (h : H) : option Z := header_value h "content-length" ≫= parse_usize.
Definition response_buffer_reservation_bytes (h : H) (unknown : Z) : Z := default unknown (content_length h).

Definition rewrite_trusted_ingress_location (c : PingoraContext) (h : H) : option H :=
  match (origin ← px_public_origin c; location ← header_value h "location"; trusted_ingress_location parse_uri location origin) with
  | None => Some h
  | Some rewritten => insert_header "location" rewritten (remove_header "location" h)
  end.

(** The headers that are replaced and removed before anything else. *)
Definition response_edits (c : PingoraContext) : list edit :=
  [Put "x-request-id" (px_request_id c); Put "x-relayna-request-id" (px_request_id c); Drop "alt-svc"; Drop ADMISSION_CONTEXT_HEADER]
  ++ when (is_some (accessa (px_access c)))
       (Drop "x-access-token" :: option_list ((λ f, Drop (header f)) <$> user_token_forwarding (px_access c))).

(** A lease for the response that post-call guardrails will buffer. *)
Definition response_lease (instant : Z) (h : H) (y : Reply) : Reply * GatewayResult unit :=
  match try_acquire_sized (ry_admission y) instant (content_length h) with
  | (st, Err e) => (set_admission st y, Err e)
  | (st, Ok l) =>
      match try_reserve st l (response_buffer_reservation_bytes h (max_bytes st)) with
      | (st, l, Err e) => (set_admission (drop_lease st l) y, Err e)
      | (st, l, Ok _) => (on_reply (λ c, set_response (set_response_lease (Some l) (px_response c)) c) (set_admission st y), Ok tt)
      end
  end.

(** [None]: the response is aborted. *)
Definition response_filter (instant : Z) (http2 : bool) (r : ResponseHeader H) (y : Reply) : Reply * option (ResponseHeader H) :=
  let c := ry_ctx y in
  let post := plan_applies (post_guardrail_plan (px_response c)) in
  let during := plan_applies (during_guardrail_plan (px_response c)) in
  match (h ← apply_edits (response_edits c) (rs_headers r);
         if px_trusted_ingress_passthrough c then rewrite_trusted_ingress_location c h else Some h) with
  | None => (y, None)
  | Some h =>
      match (if post && is_none (response_body_lease (px_response c)) then response_lease instant h y else (y, Ok tt)) with
      | (y, Err e) => (on_reply (set_guardrail_error e) y, None)
      | (y, Ok _) =>
          match (if post || during then insert_header "x-relayna-applied-guardrails" (applied_guardrails_header c) h else Some h) with
          | None => (y, None)
          | Some h =>
              let h := if post then prepare_rewritten_response_headers (negb http2) h else h in
              (y, Some {| rs_status := rs_status r; rs_headers := h |})
          end
      end
  end.
End headers.

(** ** What the client sees *)

Section sent.
Context {H : Type} `{HM : HeaderMap H} `{HL : !HeaderLaws H}.
Variable parse_uri : string → option Uri.
Variables (instant : Z) (http2 : bool).

(** Names that nothing after the first edits touches. *)
Definition settled_name (n : string) : bool :=
  negb (existsb (eq_ignore_ascii_case n) ["location"; "x-relayna-applied-guardrails"; "Content-Length"; "Transfer-Encoding"]).

Lemma location_values c h h' n :
  rewrite_trusted_ingress_location parse_uri c h = Some h' → eq_ignore_ascii_case n "location" = false → get_all n h' = get_all n h.
Proof using HL.
  unfold rewrite_trusted_ingress_location. intros E Hn. destruct (px_public_origin c ≫= _) as [v|]; [|by injection E as <-].
  by rewrite (get_all_insert _ _ _ _ _ E), get_all_remove, Hn.
Qed.
Lemma rewritten_response_values chunked h n :
  existsb (eq_ignore_ascii_case n) ["Content-Length"; "Transfer-Encoding"] = false →
  get_all n (prepare_rewritten_response_headers chunked h) = get_all n h.
Proof using HL.
  intros Hn. unfold prepare_rewritten_response_headers. cbv zeta. destruct chunked; [|by rewrite get_all_removes, Hn].
  destruct (insert_header _ _ _) as [h1|] eqn:E; cbn [default from_option]; [|by rewrite get_all_removes, Hn].
  rewrite (get_all_insert _ _ _ _ _ E), get_all_removes, Hn. cbn [existsb] in Hn.
  apply orb_false_iff in Hn as [_ [Hn _]%orb_false_iff]. by rewrite Hn.
Qed.
Lemma rewritten_response_length chunked h : get_all "content-length" (prepare_rewritten_response_headers chunked h) = [].
Proof using HL.
  unfold prepare_rewritten_response_headers. cbv zeta. destruct chunked; [|by rewrite get_all_removes].
  destruct (insert_header _ _ _) as [h1|] eqn:E; cbn [default from_option]; [|by rewrite get_all_removes].
  by rewrite (get_all_insert _ _ _ _ _ E), get_all_removes.
Qed.

(** What the filter leaves of a name that only the first edits touch. *)
Lemma response_values r y y' r' n :
  response_filter parse_uri instant http2 r y = (y', Some r') → settled_name n = true →
  get_all n (rs_headers r') =
    match last_edit n (response_edits (ry_ctx y)) with Some e => edit_values e | None => get_all n (rs_headers r) end.
Proof using HL.
  unfold response_filter, settled_name. cbv zeta. intros E Hn%negb_true_iff. cbn [existsb] in Hn.
  apply orb_false_iff in Hn as [N1 [N2 [N3 [N4 _]%orb_false_iff]%orb_false_iff]%orb_false_iff].
  assert (existsb (eq_ignore_ascii_case n) ["Content-Length"; "Transfer-Encoding"] = false) as N34 by (cbn; by rewrite N3, N4).
  destruct (apply_edits _ _) as [h1|] eqn:E1; [|done]. cbn [mbind option_bind] in E.
  rewrite <- (edited_values _ _ _ n E1).
  destruct (if px_trusted_ingress_passthrough _ then _ else _) as [h2|] eqn:E2; [|done].
  assert (get_all n h2 = get_all n h1) as <-.
  { destruct (px_trusted_ingress_passthrough _); [by eapply location_values|by injection E2 as <-]. }
  destruct (if _ && _ then _ else _) as [y1 [[]|]]; [|done].
  destruct (if _ || _ then _ else _) as [h3|] eqn:E3; [|done]. injection E as <- <-. cbn [rs_headers].
  assert (get_all n h3 = get_all n h2) as <-.
  { destruct (_ || _); [by rewrite (get_all_insert _ _ _ _ _ E3), N2|by injection E3 as <-]. }
  destruct (plan_applies _); [by apply rewritten_response_values|done].
Qed.

(** The edits of the session headers drop what they touch. *)
Definition session_drops (c : PingoraContext) : list edit :=
  when (is_some (accessa (px_access c)))
    (Drop "x-access-token" :: option_list ((λ f, Drop (header f)) <$> user_token_forwarding (px_access c))).
Lemma last_edit_in n es e : last_edit n es = Some e → e ∈ es.
Proof.
  induction es as [|d es IH]; cbn [last_edit]; [done|]. destruct (last_edit n es) as [e'|].
  - intros E. apply elem_of_cons. right. by apply IH.
  - destruct (eq_ignore_ascii_case _ _); [|done]. intros [= ->]. apply elem_of_cons. by left.
Qed.
Lemma session_drops_values c n e : last_edit n (session_drops c) = Some e → edit_values e = [].
Proof.
  intros Hin%last_edit_in. unfold session_drops, when in Hin. destruct (is_some _); [|by apply elem_of_nil in Hin].
  apply elem_of_cons in Hin as [->|Hin]; [done|]. destruct (user_token_forwarding _); cbn in Hin; [|by apply elem_of_nil in Hin].
  apply list_elem_of_singleton in Hin as ->. done.
Qed.
Lemma session_drops_free ok c n :
  (∀ f, user_token_forwarding (px_access c) = Some f → forwarding_validate ok f = Ok tt) → reserved_name n = true →
  eq_ignore_ascii_case n "x-access-token" = false → last_edit n (session_drops c) = None.
Proof.
  intros Hv Hn Ht. apply last_edit_none. unfold session_drops. rewrite touches_when. destruct (is_some _); [|done].
  unfold touches. cbn [existsb edit_name andb]. rewrite Ht. destruct (user_token_forwarding _) as [f|] eqn:E; [|done].
  cbn. rewrite (forwarding_name_free ok f n (Hv f eq_refl) Hn). done.
Qed.

(** Whatever an upstream answers, the response that is sent on carries the
    gateway's request id once under both names, no alternative service, no
    admission context of a session and, behind an Accessa endpoint, no access
    token, under the usual name or the configured one; a response that
    post-call guardrails may change has no length. *)
Theorem response_headers_clean ok r y y' r' :
  response_filter parse_uri instant http2 r y = (y', Some r') →
  (∀ f, user_token_forwarding (px_access (ry_ctx y)) = Some f → forwarding_validate ok f = Ok tt) →
  get_all "x-request-id" (rs_headers r') = [px_request_id (ry_ctx y)] ∧
  get_all "x-relayna-request-id" (rs_headers r') = [px_request_id (ry_ctx y)] ∧
  get_all "alt-svc" (rs_headers r') = [] ∧ get_all ADMISSION_CONTEXT_HEADER (rs_headers r') = [] ∧
  (is_some (accessa (px_access (ry_ctx y))) = true → get_all "x-access-token" (rs_headers r') = [] ∧
     ∀ f, user_token_forwarding (px_access (ry_ctx y)) = Some f → get_all (header f) (rs_headers r') = []) ∧
  (plan_applies (post_guardrail_plan (px_response (ry_ctx y))) = true → get_all "content-length" (rs_headers r') = []).
Proof using HL.
  intros E Hv. set (c := ry_ctx y) in *.
  assert (Hput : ∀ n, reserved_name n = true → eq_ignore_ascii_case n "x-access-token" = false →
    settled_name n = true → get_all n (rs_headers r') = match last_edit n (firstn 4 (response_edits c)) with
      Some e => edit_values e | None => get_all n (rs_headers r) end).
  { intros n H1 H2 H3. rewrite (response_values _ _ _ _ _ E H3).
    change (response_edits (ry_ctx y)) with (firstn 4 (response_edits c) ++ session_drops c).
    rewrite last_edit_app, (session_drops_free ok c n Hv H1 H2). done. }
  assert (Hdrop : ∀ n e, settled_name n = true → last_edit n (session_drops c) = Some e → get_all n (rs_headers r') = []).
  { intros n e H3 He. rewrite (response_values _ _ _ _ _ E H3).
    change (response_edits (ry_ctx y)) with (firstn 4 (response_edits c) ++ session_drops c).
    rewrite last_edit_app, He. by eapply session_drops_values. }
  split_and!.
  - by rewrite Hput.
  - by rewrite Hput.
  - rewrite (response_values _ _ _ _ _ E) by done.
    change (response_edits (ry_ctx y)) with (firstn 4 (response_edits c) ++ session_drops c). rewrite last_edit_app.
    destruct (last_edit "alt-svc" (session_drops c)) eqn:Ed; [by eapply session_drops_values|done].
  - by rewrite Hput.
  - intros Ha. split.
    + destruct (last_edit "x-access-token" (session_drops c)) eqn:Ed; [by eapply Hdrop|].
      exfalso. unfold session_drops in Ed. rewrite last_when, Ha in Ed. cbn [last_edit edit_name] in Ed.
      by destruct (last_edit _ (option_list _)).
    + intros f Hf. destruct (last_edit (header f) (session_drops c)) eqn:Ed.
      * eapply Hdrop; [|done]. unfold settled_name. apply negb_true_iff, not_true_iff_false. intros Hx.
        apply existsb_exists in Hx as (n & Hn & Hx). rewrite same_name_comm in Hx.
        assert (reserved_name n = true) as Hr by (repeat destruct Hn as [<-|Hn]; done).
        rewrite (forwarding_name_free ok f n (Hv f Hf) Hr) in Hx. done.
      * exfalso. assert (touches (header f) (session_drops c) = true) as Hx.
        { unfold session_drops. rewrite touches_when, Ha, Hf. apply existsb_exists. exists (Drop (header f)).
          split; [by right; left|by apply same_name_iff]. }
        rewrite <- last_edit_touches, Ed in Hx. done.
  - intros Hp. unfold response_filter in E. cbv zeta in E. fold c in E. rewrite Hp in E.
    destruct (apply_edits _ _ ≫= _) as [h2|]; [|done]. destruct (if _ && _ then _ else _) as [y1 [[]|]]; [|done].
    destruct (if _ || _ then _ else _) as [h3|]; [|done]. injection E as _ <-. apply rewritten_response_length.
Qed.
End sent.

Module ReplySample.
Import Samples.
Definition reply : Reply := {| ry_admission := BodyAdmission.sample_state; ry_ctx := channel_context |}.
Definition upstream_answer : ResponseHeader (list (string * string)) :=
  {| rs_status := 200;
     rs_headers := [("X-Request-Id", "theirs"); ("Alt-Svc", "h3"); ("X-Access-Token", "secret");
                    ("X-Relayna-Request-Id", "theirs"); ("Content-Type", "application/json")] |}.
Lemma forwarding_valid f :
  user_token_forwarding (px_access (ry_ctx reply)) = Some f → forwarding_validate (λ _, true) f = Ok tt.
Proof. by intros [= <-]. Qed.
Lemma answered : ∃ y' r', response_filter any_uri 0 false upstream_answer reply = (y', Some r').
Proof. eexists _, _. vm_compute. reflexivity. Qed.
Lemma request_named : px_request_id (ry_ctx reply) = "req-1".
Proof. reflexivity. Qed.
Lemma behind_accessa : is_some (accessa (px_access (ry_ctx reply))) = true.
Proof. reflexivity. Qed.
End ReplySample.
#[local] Existing Instances Samples.headers Samples.headers_laws.

Lemma response_headers_clean_witness :
  ∃ y' r', response_filter Samples.any_uri 0 false ReplySample.upstream_answer ReplySample.reply = (y', Some r') ∧
    get_all "x-request-id" (rs_headers r') = ["req-1"] ∧
    get_all "alt-svc" (rs_headers r') = [] ∧ get_all "x-access-token" (rs_headers r') = [].
Proof.
  destruct ReplySample.answered as (y' & r' & E). exists y', r'.
  destruct (response_headers_clean _ _ _ (λ _, true) _ _ _ _ E ReplySample.forwarding_valid) as (H1 & _ & H3 & _ & H5 & _).
  rewrite ReplySample.request_named in H1. destruct (H5 ReplySample.behind_accessa) as [H6 _]. by split_and!.
Defined.
