(* ===== verification/ResponseBody.v ===== *)
(** * Response bodies

    Models the callbacks of [crates/gateway-proxy/src/pingora_plane.rs] that
    see the body of a response chunk by chunk:
    [upstream_response_body_filter], which feeds the cost observer, and
    [response_body_filter] with [apply_streaming_guardrails],
    [apply_post_call_guardrails] and [observe_response_body_chunk].  A call
    reads the clock up to five times; JSON, the pieces in which it is written,
    the allocator and the guardrail providers are parameters.  Traffic rows and
    timing probes are left out. *)

From S2P Require Import Prelude SocketFrames ConnectionLimits StreamGuardrails Errors Routing Json GuardrailPolicy Policies Guardrails Pii BodyAdmission BodyRewrite EndpointAccess Foundry ServiceTypes ServicePricing ResponseCost Usage UsageCost RequestBody CompleteBody Auth ProviderConfigs Headers Upstream ProxyContext UpstreamRequest Entra AuthSettings Stages RequestFilter Settlement FoundryTokens ResponseHeaders.
#[local] Open Scope stage_scope.

(** ** The upstream's bytes *)

(** The observer sees what the upstream sent, before any guardrail. *)
Definition upstream_response_body_filter (serde_number parse_f64 : string → option f64)
    (serde_string : string → option string) (body : option string) (end_of_stream : bool) (c : PingoraContext) :
    option PingoraContext :=
  if px_socket c then Some c
  else
    o ← match body with
        | Some bytes => ResponseCost.feed serde_number parse_f64 serde_string (response_cost_observer (px_pricing c)) bytes
        | None => Some (response_cost_observer (px_pricing c))
        end;
    let o := if end_of_stream then ResponseCost.finish serde_number parse_f64 o else o in
    Some (set_pricing ltac:(replace_field pricing_eta (px_pricing c) (response_cost_observer (px_pricing c)) o) c).

(** ** The stages of a call *)

(** The clock: whole seconds for a session, instants for the others. *)
Record clocks := { at_session : Z; at_during : Z; at_post : Z; at_bytes : Z; at_usage : Z }.

Section calls.
Variable from_slice : string → option Value.
Variable pointer : Value → string → option Value.
(** What [serde_json::to_writer] writes of a value. *)
Variable pieces : Value → list string.
Variable alloc : Z → option Z.
Variable send : HttpGuardrailConfig → HttpGuardrailProviderRequest → GatewayResult HttpGuardrailProviderResponse.
Variable latency : GuardrailInput → Z.

Definition response_stage (A : Type) : Type := Stages.stage Reply GatewayError A.
Definition reply_ctx {A} (g : PingoraContext → A) : response_stage A := get (λ y, g (ry_ctx y)).
Definition on_response (g : ResponseState → ResponseState) : response_stage unit :=
  modify (on_reply (λ c, set_response (g (px_response c)) c)).

Definition handlers_of (c : PingoraContext) (n : string) : option (GuardrailInput → GatewayResult GuardrailResult) :=
  map_get n (guardrail_executor_for_definitions send (px_guardrail_definitions c)).

(** *** Guardrails on the stream *)

Definition stream_state (c : PingoraContext) : StreamState :=
  {| during_plan := during_guardrail_plan (px_response c); stream_context := guardrail_context (px_response c);
     holdback := guardrail_stream_holdback (px_response c); stream_error := px_guardrail_error c;
     stream_events := guardrail_events (px_response c) |}.
Definition put_stream (s : StreamState) (c : PingoraContext) : PingoraContext :=
  let r := px_response c in
  let b := px_body c in
  set_body {| guardrail_error := stream_error s; body_bytes_seen := body_bytes_seen b; body_prefix := body_prefix b;
              request_rewriter := request_rewriter b; request_body_lease := request_body_lease b |}
    (set_response
       {| response_rewriter := response_rewriter r; response_body_lease := response_body_lease r;
          response_bytes_seen := response_bytes_seen r; foundry_usage := foundry_usage r;
          post_guardrail_plan := post_guardrail_plan r; during_guardrail_plan := during_plan s;
          guardrail_context := stream_context s; guardrail_events := stream_events s;
          guardrail_stream_holdback := holdback s; service_version := service_version r |} c).
Definition during_call (now : Z) (body : option string) (end_of_stream : bool) : response_stage (option string) :=
  λ y,
    let c := ry_ctx y in
    if plan_applies (during_guardrail_plan (px_response c)) then
      let '(s, out) := apply_streaming_guardrails (handlers_of c) latency now (stream_state c) body end_of_stream in
      (on_reply (put_stream s) y, Ok out)
    else (y, Ok body).

(** *** The lease of the buffered response *)

Definition with_response_lease (f : BodyAdmissionState → BodyAdmissionLease → outcome) : response_stage unit :=
  λ y,
    match response_body_lease (px_response (ry_ctx y)) with
    | None => (y, Ok tt)
    | Some l =>
        let '(st, l, r) := f (ry_admission y) l in
        (on_reply (λ c, set_response (set_response_lease (Some l) (px_response c)) c) (set_admission st y), r)
    end.
(** The buffer and the lease are given back. *)
Definition drop_response (y : Reply) : Reply :=
  let r := px_response (ry_ctx y) in
  {| ry_admission := match response_body_lease r with Some l => drop_lease (ry_admission y) l | None => ry_admission y end;
     ry_ctx := set_response (set_response_lease None (set_response_rewriter ((λ w, (take_buffer w).1) <$> response_rewriter r) r))
                 (ry_ctx y) |}.
Definition or_drop (m : response_stage unit) : response_stage unit :=
  do r <- attempt m;
  match r with Ok _ => sret tt | Err e => modify drop_response ;; throw e end.

Definition reserve_response (w : option BoundedBodyRewriter) (chunk_len : Z) (st : BodyAdmissionState)
    (l : BodyAdmissionLease) : outcome :=
  let required := saturating_add (from_option buffered_len 0 w) chunk_len in
  let additional := saturating_sub required (reserved_bytes l) in
  match (match w with None => Ok required | Some w => next_capacity w chunk_len end) with
  | Err e => (st, l, Err e)
  | Ok cap =>
      match prepare_buffer st l required cap with
      | (st, l, Ok _) => try_reserve st l additional
      | refused => refused
      end
  end.
Definition reserve_post (body : option string) : response_stage unit :=
  do r <- reply_ctx px_response;
  let chunk_len := len (default "" body) in
  if plan_applies (post_guardrail_plan r) && (0 <? chunk_len)
  then or_drop (with_response_lease (reserve_response (response_rewriter r) chunk_len)) else sret tt.

(** The charge after the call: what the buffer keeps or the body has. *)
Definition settle_response (w : option BoundedBodyRewriter) (body : option string) (end_of_stream : bool)
    (st : BodyAdmissionState) (l : BodyAdmissionLease) : outcome :=
  let retained := from_option (λ w, capacity (buffer w)) 0 w in
  let length := Z.max (len (default "" body)) (from_option buffered_len 0 w) in
  match (if end_of_stream then (st, l, Ok tt) else prepare_buffer st l length (Z.max retained length)) with
  | (st, l, Ok _) => try_reserve st l (saturating_sub length (reserved_bytes l))
  | refused => refused
  end.

(** *** Guardrails on the whole response *)

(** The rewriting function, on the lease and the events of the call. *)
Definition post_call_rewrite (now : Z) (c : PingoraContext) (plan : GuardrailPlan) (end_of_stream : bool)
    (s : Admission * list GuardrailExecutionEvent) (raw_body : string) :
    (Admission * list GuardrailExecutionEvent) * GatewayResult string :=
  if negb end_of_stream then (s, Ok raw_body)
  else
    match from_slice raw_body, guardrail_context (px_response c) with
    | Some response, Some context =>
        match execute (handlers_of c) latency plan PostCall context None (Some response) with
        | Err e => (s, Err e)
        | Ok ex =>
            let events := s.2 ++ execution_events_from_records (ex_context ex) (ex_records ex) now in
            match serialize_with_admission alloc
                    (match px_match c with Some m => rm_max_response_body_bytes m | None => usize_max end)
                    ResponseBodyTooLarge s.1 (pieces (default JNull (ex_response ex))) true with
            | (a, Ok v) => ((a, events), Ok (vec_bytes v))
            | (a, Err e) => ((a, events), Err e)
            end
        end
    | _, _ => (s, Ok raw_body)
    end.

Definition apply_post_call_guardrails (now : Z) (body : option string) (end_of_stream : bool) : response_stage (option string) :=
  λ y,
    let c := ry_ctx y in
    let r := px_response c in
    match post_guardrail_plan r, response_rewriter r with
    | Some plan, Some w =>
        if is_nil plan then (y, Ok body)
        else
          let '(st, l, events, w, body, outcome) :=
            filter_chunk alloc (ry_admission y, response_body_lease r, []) w body end_of_stream
              (post_call_rewrite now c plan end_of_stream) in
          let r :=
            {| response_rewriter := Some w; response_body_lease := l; response_bytes_seen := response_bytes_seen r;
               foundry_usage := foundry_usage r; post_guardrail_plan := post_guardrail_plan r;
               during_guardrail_plan := during_guardrail_plan r; guardrail_context := guardrail_context r;
               guardrail_events := match outcome with Ok _ => guardrail_events r ++ events | Err _ => guardrail_events r end;
               guardrail_stream_holdback := guardrail_stream_holdback r; service_version := service_version r |} in
          ({| ry_admission := st; ry_ctx := set_response r c |}, match outcome with Ok _ => Ok body | Err e => Err e end)
    | _, _ => (y, Ok body)
    end.

(** *** Limits and observation *)

Definition observe_response_body_chunk (body : string) (c : PingoraContext) : PingoraContext :=
  let c := if is_some (px_foundry c) && px_is_streaming c
           then set_response (set_foundry_usage (FoundryTokens.feed from_slice pointer (foundry_usage (px_response c)) body) (px_response c)) c
           else c in
  let p := px_pricing c in
  let prefix := response_body_prefix p in
  if len prefix <? 65536
  then set_pricing ltac:(replace_field pricing_eta p (response_body_prefix p)
         (prefix +:+ str_take (Z.to_nat (Z.min (len body) (65536 - len prefix))) body)) c
  else c.

Definition byte_limits (now : Z) (c : PingoraContext) : GatewayResult unit :=
  let seen := response_bytes_seen (px_response c) in
  if is_some_and (λ m, rm_max_response_body_bytes m <? seen) (px_match c) then Err ResponseBodyTooLarge
  else
    match px_policy c with
    | None => Ok tt
    | Some policy => evaluate_policy_limits policy now None (i64_of_usize seen) None None None
    end.
Definition usage_limits (now : Z) (c : PingoraContext) : GatewayResult unit :=
  match px_policy c with
  | None => Ok tt
  | Some policy =>
      let '(_, output, _) := response_usage_tokens from_slice pointer c in
      evaluate_policy_limits policy now None None None (output ≫= i32_of)
        (uc_estimated_cost_usd (resolved_usage_cost from_slice pointer (px_pricing c)))
  end.
(** What is sent is counted, checked and observed. *)
Definition account_body (t : clocks) (body : string) (end_of_stream : bool) : response_stage unit :=
  on_response (λ r, set_bytes_seen (saturating_add (response_bytes_seen r) (len body)) r) ;;
  do c <- reply_ctx id;
  lift_with id (byte_limits (at_bytes t) c) ;;
  modify (on_reply (observe_response_body_chunk body)) ;;
  do c <- reply_ctx id;
  if end_of_stream then lift_with id (usage_limits (at_usage t) c) else sret tt.

Definition http_response_body (t : clocks) (body : option string) (end_of_stream : bool) : response_stage (option string) :=
  do body <- during_call (at_during t) body end_of_stream;
  reserve_post body ;;
  (if end_of_stream then or_drop (with_response_lease begin_processing) else sret tt) ;;
  do body <- apply_post_call_guardrails (at_post t) body end_of_stream;
  do r <- reply_ctx px_response;
  or_drop (with_response_lease (settle_response (response_rewriter r) body end_of_stream)) ;;
  match body with Some bytes => account_body t bytes end_of_stream | None => sret tt end ;;
  sret body.

(** ** The callback *)

(** [None] for the outcome: the connection is aborted. *)
Definition socket_response_body (now : Z) (body : option string) (c : PingoraContext) : PingoraContext * option (option string) :=
  let s := px_socket_state c in
  if negb (socket_upgraded s) then (c, Some body)
  else
    match socket_response_frames s with
    | None => (c, Some body)
    | Some frames =>
        if px_socket_expires_at c <=? now then (c, None)
        else
          match SocketFrames.feed frames (String.list_ascii_of_string (default "" body)) with
          | Some (Ok frames) =>
              (set_socket_state {| socket_upgraded := socket_upgraded s; socket_lease := socket_lease s;
                                   socket_request_frames := socket_request_frames s; socket_response_frames := Some frames |} c,
               Some body)
          | _ => (c, None)
          end
    end.
Definition response_body_filter (t : clocks) (body : option string) (end_of_stream : bool) (y : Reply) :
    Reply * option (option string) :=
  if px_socket (ry_ctx y) then
    let '(c, out) := socket_response_body (at_session t) body (ry_ctx y) in (on_reply (λ _, c) y, out)
  else
    match http_response_body t body end_of_stream y with
    | (y, Ok body) => (y, Some body)
    | (y, Err e) => (on_reply (set_guardrail_error e) y, None)
    end.

(** The calls of a response, as long as none aborts it: what was sent. *)
Fixpoint run_response (calls : list (clocks * option string * bool)) (y : Reply) : Reply * list string * bool :=
  match calls with
  | [] => (y, [], true)
  | (t, body, eos) :: calls =>
      match response_body_filter t body eos y with
      | (y, None) => (y, [], false)
      | (y, Some out) => let '(y, outs, complete) := run_response calls y in (y, default "" out :: outs, complete)
      end
  end.

(** ** The client never gets more than the limits *)

(** What the stages before the count leave alone. *)
Definition limits_of (y : Reply) : option RouteMatch * option KeyPolicy * bool * Z :=
  (px_match (ry_ctx y), px_policy (ry_ctx y), px_socket (ry_ctx y), response_bytes_seen (px_response (ry_ctx y))).
Definition keeps {A} (m : response_stage A) : Prop := ∀ v, preserves (λ y, limits_of y = v) m.

Lemma keeps_during now body eos : keeps (during_call now body eos).
Proof.
  intros v y Hy. unfold post, during_call. destruct (plan_applies _); [|done].
  by destruct (apply_streaming_guardrails _ _ _ _ _ _).
Qed.
Lemma keeps_lease f : keeps (with_response_lease f).
Proof.
  intros v y Hy. unfold post, with_response_lease. destruct (response_body_lease _) as [l|]; [|done].
  by destruct (f _ _) as [[st l'] [[]|]].
Qed.
Lemma keeps_or_drop m : keeps m → keeps (or_drop m).
Proof. intros Hm v. unfold or_drop. stays. Qed.
Lemma keeps_reserve body : keeps (reserve_post body).
Proof. intros v. unfold reserve_post, reply_ctx. stays. apply keeps_or_drop, keeps_lease. Qed.
Lemma keeps_post_call now body eos : keeps (apply_post_call_guardrails now body eos).
Proof.
  intros v y Hy. unfold post, apply_post_call_guardrails.
  destruct (post_guardrail_plan _) as [plan|]; [|done]. destruct (response_rewriter _) as [w|]; [|done].
  destruct (is_nil plan); [done|]. by destruct (filter_chunk _ _ _ _ _ _) as [[[[[st l] events] w'] body'] [[]|e]].
Qed.

(** A call that sends a body has checked its running total. *)
Definition counted (y : Reply) (out : option string) (y' : Reply) : Prop :=
  match out with
  | None => limits_of y' = limits_of y
  | Some bytes =>
      let '(m, p, s, seen) := limits_of y in
      limits_of y' = (m, p, s, saturating_add seen (len bytes)) ∧ ∃ now, byte_limits now (ry_ctx y') = Ok tt
  end.
Lemma byte_limits_facts now c c' :
  (px_match c, px_policy c, response_bytes_seen (px_response c)) = (px_match c', px_policy c', response_bytes_seen (px_response c')) →
  byte_limits now c = byte_limits now c'.
Proof. unfold byte_limits. by intros [= -> -> ->]. Qed.
Lemma observe_keeps body c :
  let c' := observe_response_body_chunk body c in
  (px_match c', px_policy c', px_socket c', response_bytes_seen (px_response c')) =
  (px_match c, px_policy c, px_socket c, response_bytes_seen (px_response c)).
Proof. unfold observe_response_body_chunk. by destruct (is_some _ && _); cbn; destruct (_ <? 65536). Qed.
Lemma account_counts t bytes eos y :
  post (account_body t bytes eos) (λ _ y', counted y (Some bytes) y') (λ _ y', px_socket (ry_ctx y') = px_socket (ry_ctx y)) y.
Proof.
  unfold account_body, on_response, reply_ctx. post. unfold id at 2. rewrite post_lift. split; [|done].
  intros [] Hl. post. set (y1 := on_reply _ y) in *. set (y2 := on_reply _ y1).
  assert (limits_of y2 = limits_of y1) as E12 by apply observe_keeps.
  assert (counted y (Some bytes) y2) as Hc.
  { split; [rewrite E12; done|]. exists (at_bytes t). rewrite <- Hl. unfold id. apply byte_limits_facts.
    exact (f_equal (λ v, (v.1.1.1, v.1.1.2, v.2)) E12). }
  destruct eos; [|done]. rewrite post_lift. split; [done|]. intros e _. exact (f_equal (λ v, v.1.2) E12).
Qed.
Lemma http_counts t body eos y :
  post (http_response_body t body eos) (counted y) (λ _ y', px_socket (ry_ctx y') = px_socket (ry_ctx y)) y.
Proof.
  unfold http_response_body.
  assert (Hx : ∀ y', limits_of y' = limits_of y → px_socket (ry_ctx y') = px_socket (ry_ctx y))
    by (intros y' E; exact (f_equal (λ v, v.1.2) E)).
  assert (Hstop : ∀ {A} (m : response_stage A), keeps m →
    stays (λ y', limits_of y' = limits_of y) (λ y', px_socket (ry_ctx y') = px_socket (ry_ctx y)) m)
    by (intros A m Hm; eapply stays_stop; [apply Hm|exact Hx]).
  eapply stays_then; [apply Hstop, keeps_during|done|]. intros b1 y1 H1.
  eapply stays_then; [apply Hstop, keeps_reserve|done|]. intros _ y2 H2.
  eapply stays_then; [apply Hstop; destruct eos; [apply keeps_or_drop, keeps_lease|intros v y' Hy'; exact Hy']|done|]. intros _ y3 H3.
  eapply stays_then; [apply Hstop, keeps_post_call|done|]. intros b4 y4 H4.
  unfold reply_ctx. rewrite post_bind, post_get. eapply stays_then; [apply Hstop, keeps_or_drop, keeps_lease|done|]. intros _ y5 H5.
  destruct b4 as [bytes|]; [|done]. rewrite post_bind.
  eapply post_mono; [apply account_counts| |].
  - intros ? y6 Hc. rewrite post_ret. unfold counted in *. by rewrite H5 in Hc.
  - intros e y6 ->. by apply Hx.
Qed.

Definition total_len (outs : list string) : Z := foldr (λ s n, len s + n) 0 outs.
Definition within_limits (y : Reply) (n : Z) : Prop :=
  (∀ m, px_match (ry_ctx y) = Some m → Z.min usize_max n ≤ rm_max_response_body_bytes m) ∧
  (∀ p limit, px_policy (ry_ctx y) = Some p → max_response_body_bytes p = Some limit → n ≤ i64_max → n ≤ limit).
Lemma byte_limits_within now y n :
  byte_limits now (ry_ctx y) = Ok tt → response_bytes_seen (px_response (ry_ctx y)) = Z.min usize_max n → within_limits y n.
Proof.
  unfold byte_limits. cbv zeta. intros Hl Hs. rewrite Hs in Hl. split.
  - intros m Hm. rewrite Hm in Hl. cbn [is_some_and] in Hl. by destruct (Z.ltb_spec (rm_max_response_body_bytes m) (Z.min usize_max n)).
  - intros p limit Hp Hm Hn. destruct (is_some_and _ _); [done|]. rewrite Hp in Hl. unfold evaluate_policy_limits in Hl.
    rewrite Hm in Hl. assert (i64_of_usize (Z.min usize_max n) = Some n) as Hi.
    { unfold i64_of_usize, usize_max, i64_max in *. rewrite Z.min_r by lia. destruct (Z.leb_spec n (2 ^ 63 - 1)); [done|lia]. }
    rewrite Hi in Hl. destruct (not_listed _ _); [done|]. cbn [exceeds] in Hl. by destruct (Z.ltb_spec limit n).
Qed.
Lemma run_counts calls y y' outs complete acc :
  px_socket (ry_ctx y) = false → response_bytes_seen (px_response (ry_ctx y)) = Z.min usize_max acc → 0 ≤ acc →
  run_response calls y = (y', outs, complete) → total_len outs = 0 ∨ within_limits y (acc + total_len outs).
Proof.
  revert y y' outs complete acc. induction calls as [|[[t body] eos] calls IH]; intros y y' outs complete acc Hs Hseen Ha; cbn [run_response].
  { intros [= _ <- _]. by left. }
  unfold response_body_filter. rewrite Hs. pose proof (http_counts t body eos y) as Hc. unfold post in Hc.
  destruct (http_response_body t body eos y) as [y1 [out|e]]; [|intros [= _ <- _]; by left].
  destruct (run_response calls y1) as [[y2 outs'] complete'] eqn:E. intros [= _ <- _].
  cbn [total_len foldr]. change (foldr _ 0 outs') with (total_len outs'). unfold counted, limits_of in Hc.
  destruct out as [bytes|]; cbn [default id].
  - destruct Hc as [[= Hm Hp Hs1 Hseen1] [now Hl]]. pose proof (len_nonneg bytes).
    assert (response_bytes_seen (px_response (ry_ctx y1)) = Z.min usize_max (acc + len bytes)) as Hseen'
      by (rewrite Hseen1, Hseen; unfold saturating_add; lia).
    right. destruct (IH y1 y2 outs' complete' (acc + len bytes) ltac:(congruence) Hseen' ltac:(lia) E) as [H0|Hw].
    + pose proof (byte_limits_within _ _ _ Hl Hseen') as Hw. unfold within_limits in *. rewrite Hm, Hp in Hw.
      by rewrite H0, Z.add_0_r.
    + unfold within_limits in *. rewrite Hm, Hp in Hw. by rewrite Z.add_assoc.
  - injection Hc as Hm Hp Hs1 Hseen1. change (len "") with 0. rewrite Z.add_0_l.
    destruct (IH y1 y2 outs' complete' acc ltac:(congruence) ltac:(congruence) Ha E) as [H0|Hw]; [by left|]. right.
    unfold within_limits in *. by rewrite Hm, Hp in Hw.
Qed.

(** However the chunks of a response arrive and whatever guardrails make
    of them, what is sent on is at most what the route allows and at most what
    the key's policy allows. *)
Theorem response_bounded calls y y' outs complete :
  px_socket (ry_ctx y) = false → response_bytes_seen (px_response (ry_ctx y)) = 0 →
  run_response calls y = (y', outs, complete) →
  total_len outs = 0 ∨
  (∀ m, px_match (ry_ctx y) = Some m → Z.min usize_max (total_len outs) ≤ rm_max_response_body_bytes m) ∧
  (∀ p limit, px_policy (ry_ctx y) = Some p → max_response_body_bytes p = Some limit →
     total_len outs ≤ i64_max → total_len outs ≤ limit).
Proof. intros Hs H0 E. exact (run_counts calls y y' outs complete 0 Hs H0 (Z.le_refl 0) E). Qed.

(** ** Post-call guardrails see the whole response *)

Lemma write_bytes max e a v b a' v' : write alloc max e a v b = (a', v', Ok tt) → vec_bytes v' = vec_bytes v +:+ b.
Proof.
  unfold write. destruct (opt_filter _ _) as [n|]; [|done]. destruct (n <=? _); [by intros [= _ <-]|].
  destruct (on_lease _ a) as [a1 [[]|]]; [|done].
  destruct (try_reserve_exact _ _ _) as [v1|] eqn:E; [|done].
  destruct (on_lease _ a1) as [a2 [[]|]]; [|done]. intros [= _ <-]. cbn [vec_bytes extend_from_slice]. f_equal.
  unfold try_reserve_exact in E. destruct (_ <=? _); [by injection E as <-|]. by destruct (alloc _); [injection E as <-|].
Qed.
Lemma write_pieces_bytes max e ps a v a' v' :
  write_pieces alloc max e a v ps = (a', v', Ok tt) → vec_bytes v' = vec_bytes v +:+ str_join ps.
Proof.
  revert a v. induction ps as [|p ps IH]; intros a v; cbn [write_pieces str_join].
  - intros [= _ <-]. by rewrite append_nil_r.
  - destruct p as [|x p]; [apply IH|]. cbn [is_empty].
    destruct (write _ _ _ _ _ _) as [[a1 v1] [[]|]] eqn:E; [|done]. intros ->%IH.
    rewrite (write_bytes _ _ _ _ _ _ _ E). apply append_assoc.
Qed.
Lemma serialized_bytes max e a ps a' v :
  serialize_with_admission alloc max e a ps true = (a', Ok v) → vec_bytes v = str_join ps.
Proof.
  unfold serialize_with_admission. destruct (on_lease _ a) as [a1 [[]|]]; [|done].
  destruct (write_pieces _ _ _ _ _ _) as [[a2 v2] [[]|]] eqn:E; [|done]. intros [= _ <-].
  by rewrite (write_pieces_bytes _ _ _ _ _ _ _ E).
Qed.

(** What is made of a whole response: a JSON body is what the guardrails of the
    plan answer for it; the guardrails do not run on a body that is not JSON, or
    without their context, and it is left as it is. *)
Inductive judged (c : PingoraContext) (text out : string) : Prop :=
| Executed response context ex : from_slice text = Some response → guardrail_context (px_response c) = Some context →
    execute (handlers_of c) latency (default [] (post_guardrail_plan (px_response c))) PostCall context None (Some response) = Ok ex →
    out = str_join (pieces (default JNull (ex_response ex))) → judged c text out
| NotJson : from_slice text = None → out = text → judged c text out
| NoContext : guardrail_context (px_response c) = None → out = text → judged c text out.
Lemma rewrite_judged now c plan s text s' out :
  post_guardrail_plan (px_response c) = Some plan →
  post_call_rewrite now c plan true s text = (s', Ok out) → judged c text out.
Proof.
  intros Hp. unfold post_call_rewrite. cbn [negb].
  destruct (from_slice text) as [v|] eqn:Ev; [|intros [= _ <-]; by apply NotJson].
  destruct (guardrail_context _) as [g|] eqn:Eg; [|intros [= _ <-]; by apply NoContext].
  destruct (execute _ _ _ _ _ _ _) as [ex|] eqn:Ex; [|done].
  destruct (serialize_with_admission _ _ _ _ _ _) as [a [v'|]] eqn:E; [|done]. intros [= _ <-].
  apply (Executed _ _ _ v g ex); [done..| |by eapply serialized_bytes]. by rewrite Hp.
Qed.
Lemma judged_same c c' text out : handlers_of c' = handlers_of c → guardrail_context (px_response c') = guardrail_context (px_response c) →
  post_guardrail_plan (px_response c') = post_guardrail_plan (px_response c) → judged c' text out → judged c text out.
Proof.
  intros Eh Eg Ep [response context ex E1 E2 E3 E4|E1 E2|E1 E2]; [|by apply NotJson|apply NoContext; [by rewrite <- Eg|done]].
  apply (Executed _ _ _ response context ex); [done| | |done]; by rewrite <- ?Eg, <- ?Eh, <- ?Ep.
Qed.

(** The response so far is in the buffer; the rest of what the guardrails
    read is that of [c0]. *)
Record withheld (c0 : PingoraContext) (text : string) (y : Reply) : Prop := {
  wh_plan : post_guardrail_plan (px_response (ry_ctx y)) = post_guardrail_plan (px_response c0);
  wh_during : during_guardrail_plan (px_response (ry_ctx y)) = None;
  wh_context : guardrail_context (px_response (ry_ctx y)) = guardrail_context (px_response c0);
  wh_definitions : px_guardrail_definitions (ry_ctx y) = px_guardrail_definitions c0;
  wh_socket : px_socket (ry_ctx y) = false;
  wh_buffer : ∃ w, response_rewriter (px_response (ry_ctx y)) = Some w ∧ rewriter_ok w ∧ vec_bytes (buffer w) = text
}.

Section withholding.
Hypothesis alloc_enough : ∀ c c', alloc c = Some c' → c ≤ c'.
Variables (c0 : PingoraContext) (plan : GuardrailPlan).
Hypothesis planned : post_guardrail_plan (px_response c0) = Some plan.
Hypothesis guarded : is_nil plan = false.
Abbreviation held text := (stays (withheld c0 text) (λ _, True)).

Lemma withheld_lease text f : held text (with_response_lease f).
Proof.
  intros y Hy. unfold post, with_response_lease. destruct (response_body_lease _) as [l|]; [|done].
  destruct (f _ _) as [[st l'] [[]|]]; [|done]. by destruct Hy; split.
Qed.
Lemma withheld_or_drop text m : held text m → held text (or_drop m).
Proof.
  intros Hm y Hy. unfold or_drop. rewrite post_bind, post_attempt. eapply post_mono; [by apply Hm| |].
  - intros a y' Hy'. by rewrite post_ret.
  - intros e y' _. by rewrite post_bind.
Qed.
Lemma withheld_reserve text body : held text (reserve_post body).
Proof. unfold reserve_post, reply_ctx. stays. apply withheld_or_drop, withheld_lease. Qed.
Lemma withheld_account text t bytes eos : held text (account_body t bytes eos).
Proof.
  unfold account_body, on_response, reply_ctx. stays.
  - apply stays_modify. intros y Hy. by destruct Hy; split.
  - apply stays_modify. intros y Hy. unfold on_reply, observe_response_body_chunk.
    destruct (is_some _ && _); cbn; destruct (_ <? 65536); by destruct Hy; split.
Qed.
Lemma handlers_same c : px_guardrail_definitions c = px_guardrail_definitions c0 → handlers_of c = handlers_of c0.
Proof. unfold handlers_of. by intros ->. Qed.

(** Before the end the chunk is kept; at the end the whole response is judged. *)
Definition released_by (eos : bool) (text : string) (out : option string) : Prop :=
  ∃ o, out = Some o ∧ if eos then judged c0 text o else o = "".
Lemma post_call_withholds text now body eos y :
  withheld c0 text y →
  post (apply_post_call_guardrails now body eos)
    (λ out y', released_by eos (text +:+ default "" body) out ∧ (eos = false → withheld c0 (text +:+ default "" body) y'))
    (λ _ _, True) y.
Proof using alloc_enough planned guarded.
  intros [Hp Hd Hg Hdef Hs (w & Hw & Hok & Hb)]. unfold post, apply_post_call_guardrails, filter_chunk.
  rewrite Hp, planned, Hw, guarded.
  destruct (append_chunk alloc w body) as [w1 [[]|e]] eqn:Ea; [|done].
  destruct (append_chunk_ok alloc alloc_enough _ _ _ _ Hok Ea) as (Hok1 & _ & Hb1). rewrite Hb in Hb1.
  destruct eos; cbv beta iota.
  - destruct (post_call_rewrite _ _ _ _ _ _) as [[[st l] ev] [out|e]] eqn:Er; [|done]. split; [|done]. exists out. split; [done|].
    rewrite Hb1 in Er. apply rewrite_judged in Er; [|congruence]. revert Er. apply judged_same; [by apply handlers_same|done..].
  - split; [by exists ""|]. intros _. split; try done. by exists w1.
Qed.
Lemma http_withholds text t body eos y :
  withheld c0 text y →
  post (http_response_body t body eos)
    (λ out y', released_by eos (text +:+ default "" body) out ∧ (eos = false → withheld c0 (text +:+ default "" body) y'))
    (λ _ _, True) y.
Proof using alloc_enough planned guarded.
  intros Hy. unfold http_response_body. rewrite post_bind.
  assert (during_call (at_during t) body eos y = (y, Ok body)) as Ed by (unfold during_call; by rewrite (wh_during _ _ _ Hy)).
  unfold post at 1. rewrite Ed.
  eapply (stays_then (withheld c0 text)); [apply withheld_reserve|done|]. intros _ y2 H2.
  eapply (stays_then (withheld c0 text)); [destruct eos; [apply withheld_or_drop, withheld_lease|by intros y']|done|]. intros _ y3 H3.
  rewrite post_bind. eapply post_mono; [by apply post_call_withholds| |done]. intros out y4 [Hout Hy4].
  unfold reply_ctx. rewrite post_bind, post_get, post_bind.
  destruct eos.
  - unfold post at 1. destruct (or_drop _ y4) as [y5 [[]|]]; [|done].
    destruct Hout as (o & -> & Ho). rewrite post_bind. unfold post at 1. destruct (account_body _ _ _ _) as [? [[]|]]; [|done].
    rewrite post_ret. split; [by exists o|done].
  - eapply post_mono; [apply (withheld_or_drop _ _ (withheld_lease _ _) y4 (Hy4 eq_refl))| |done]. intros ? y5 H5.
    destruct Hout as (o & -> & ->). eapply (stays_then (withheld c0 _)); [apply withheld_account|exact H5|]. intros ? y6 H6.
    rewrite post_ret. split; [by exists ""|done].
Qed.

(** The calls of a response: the last one, if it comes, ends it. *)
Fixpoint calls_of (chunks : list (clocks * option string)) (last : option (clocks * option string)) : list (clocks * option string * bool) :=
  match chunks with
  | [] => match last with Some last => [(last, true)] | None => [] end
  | c :: chunks => (c, false) :: calls_of chunks last
  end.
(** What the client got: nothing but empty chunks, and at the end of a response
    that was not aborted what was made of all of it. *)
Definition delivered_as (c : PingoraContext) (text : string) (chunks : list (clocks * option string)) (last : option (clocks * option string))
    (outs : list string) (complete : bool) : Prop :=
  match last, complete with
  | Some last, true => ∃ out, outs = repeat "" (length chunks) ++ [out] ∧ judged c (text +:+ body_text (map snd chunks ++ [last.2])) out
  | _, _ => Forall (eq "") outs
  end.
Lemma run_withholds chunks last text y y' outs complete :
  withheld c0 text y → run_response (calls_of chunks last) y = (y', outs, complete) →
  delivered_as c0 text chunks last outs complete.
Proof using alloc_enough planned guarded.
  revert text y outs. induction chunks as [|[t body] chunks IH]; intros text y outs Hy; cbn [calls_of].
  - destruct last as [[tl bl]|]; [|by intros [= _ <- <-]; constructor]. cbn [run_response]. unfold response_body_filter. rewrite (wh_socket _ _ _ Hy).
    pose proof (http_withholds text tl bl true y Hy) as Hp. unfold post in Hp.
    destruct (http_response_body _ _ _ _) as [y1 [out|e]]; [|by intros [= _ <- <-]; constructor]. destruct Hp as [(o & -> & Ho) _].
    intros [= _ <- <-]. exists o. split; [done|]. change (body_text (map snd [] ++ [(tl, bl).2])) with (default "" bl +:+ ""). by rewrite append_nil_r.
  - cbn [run_response]. unfold response_body_filter. rewrite (wh_socket _ _ _ Hy).
    pose proof (http_withholds text t body false y Hy) as Hp. unfold post in Hp.
    destruct (http_response_body _ _ _ _) as [y1 [out|e]]; [|intros [= _ <- <-]; destruct last; constructor].
    destruct Hp as [(o & -> & ->) Hy1]. destruct (run_response _ y1) as [[y2 outs'] done_] eqn:E. intros [= -> <- <-].
    specialize (IH _ _ _ (Hy1 eq_refl) E). unfold delivered_as in *. destruct last as [last|], done_; try (by constructor).
    destruct IH as (out & -> & Ho). exists out. split; [done|]. rewrite append_assoc in Ho. exact Ho.
Qed.
End withholding.

(** C21: A response that post-call guardrails guard, on a route without
    guardrails on the stream itself, is withheld until its last chunk: until
    then, and whenever the response is aborted, by a limit, by a guardrail that
    rejects it or by the upstream, the client gets nothing but empty chunks; at
    the end it gets, in one piece, what the guardrails of the plan made of the
    whole response the upstream sent. A response that is not JSON, or that has no
    guardrail context, is withheld in the same way but delivered as it is: no
    guardrail runs on it. *)
Theorem guarded_response_withheld plan w chunks last y y' outs complete :
  (∀ c c', alloc c = Some c' → c ≤ c') →
  px_socket (ry_ctx y) = false → during_guardrail_plan (px_response (ry_ctx y)) = None →
  post_guardrail_plan (px_response (ry_ctx y)) = Some plan → is_nil plan = false →
  response_rewriter (px_response (ry_ctx y)) = Some w → rewriter_ok w → vec_bytes (buffer w) = "" →
  run_response (calls_of chunks last) y = (y', outs, complete) →
  delivered_as (ry_ctx y) "" chunks last outs complete.
Proof.
  intros Ha Hs Hd Hp Hn Hw Hok Hb E. eapply (run_withholds Ha (ry_ctx y) plan Hp Hn chunks last "" y y' outs); [|exact E].
  split; try done. by exists w.
Qed.
End calls.

(** ** A guarded response *)

Module GuardedReply.
Definition clock : clocks := {| at_session := 0; at_during := 0; at_post := 0; at_bytes := 0; at_usage := 0 |}.
(** A JSON reader that knows one text, and a writer for it. *)
Definition read (s : string) : option Value := if String.eqb s "[mail a@b.co]" then Some (JString "mail a@b.co") else None.
Definition no_pointer (_ : Value) (_ : string) : option Value := None.
Definition put_pieces (v : Value) : list string := match v with JString s => ["["; s; "]"] | _ => ["null"] end.
Definition no_provider (_ : HttpGuardrailConfig) (_ : HttpGuardrailProviderRequest) : GatewayResult HttpGuardrailProviderResponse :=
  Err GuardrailUnavailable.
Definition plan : GuardrailPlan := [pii_redact_definition].
Definition rewriter : BoundedBodyRewriter := rewriter_new 1000.
Definition context : PingoraContext :=
  set_response
    {| response_rewriter := Some rewriter; response_body_lease := None; response_bytes_seen := 0;
       foundry_usage := FoundryUsage_default; post_guardrail_plan := Some plan; during_guardrail_plan := None;
       guardrail_context := Some StreamGuardrails.empty_context; guardrail_events := []; guardrail_stream_holdback := "";
       service_version := None |}
    (set_definitions plan Samples.context).
Definition reply : Reply := {| ry_admission := BodyAdmission.sample_state; ry_ctx := context |}.
Definition chunks : list (clocks * option string) := [(clock, Some "[mail "); (clock, None)].
Definition final : clocks * option string := (clock, Some "a@b.co]").
Definition deliver : list (clocks * option string * bool) → Reply → Reply * list string * bool :=
  run_response read no_pointer put_pieces (λ n, Some n) no_provider (λ _, 0).
Lemma delivered : ∃ y', run_response read no_pointer put_pieces (λ n, Some n) no_provider (λ _, 0) (calls_of chunks (Some final)) reply = (y', [""; ""; "[mail [EMAIL_1]]"], true).
Proof. eexists. vm_compute. reflexivity. Qed.
Lemma exact_alloc c c' : Some c = Some c' → c ≤ c'.
Proof. intros [= ->]. lia. Qed.
Lemma rewriter_fresh : rewriter_ok rewriter.
Proof. apply (rewriter_new_ok 1000 None); [unfold usize_max; lia|done]. Qed.
Lemma guarded :
  px_socket (ry_ctx reply) = false ∧ during_guardrail_plan (px_response (ry_ctx reply)) = None ∧
  post_guardrail_plan (px_response (ry_ctx reply)) = Some plan ∧ is_nil plan = false ∧
  response_rewriter (px_response (ry_ctx reply)) = Some rewriter ∧ vec_bytes (buffer rewriter) = "".
Proof. done. Qed.
(** A route that allows ten bytes. *)
Definition small : Reply :=
  {| ry_admission := BodyAdmission.sample_state;
     ry_ctx := set_match {| rm_route := ChatCompletions; rm_backend := BackendLiteLlm; rm_provider := LiteLlm; rm_estimated_cost_usd := None;
                            rm_timeout_ms := 1000; rm_max_body_bytes := 10; rm_max_response_body_bytes := 10;
                            rm_service_name := None |} (new_ctx "x-relayna-key" "req-1" "res-1") |}.
Definition stream : list (clocks * option string * bool) := [(clock, Some "sixsix", false); (clock, Some "sixsix", false)].
Lemma cut : ∃ y', run_response read no_pointer put_pieces (λ n, Some n) no_provider (λ _, 0) stream small = (y', ["sixsix"], false).
Proof. eexists. vm_compute. reflexivity. Qed.
Lemma plain : px_socket (ry_ctx small) = false ∧ response_bytes_seen (px_response (ry_ctx small)) = 0.
Proof. done. Qed.
Lemma six : total_len ["sixsix"] = 6.
Proof. reflexivity. Qed.
End GuardedReply.

Lemma response_bounded_witness :
  ∃ m, px_match (ry_ctx GuardedReply.small) = Some m ∧ Z.min usize_max 6 ≤ rm_max_response_body_bytes m.
Proof.
  destruct GuardedReply.cut as [y' E]. destruct GuardedReply.plain as [H1 H2]. eexists. split; [reflexivity|].
  destruct (response_bounded GuardedReply.read GuardedReply.no_pointer GuardedReply.put_pieces (λ n, Some n)
    GuardedReply.no_provider (λ _, 0) GuardedReply.stream GuardedReply.small y' ["sixsix"] false H1 H2 E) as [H0|[Hm _]];
    rewrite GuardedReply.six in *; [discriminate H0|]. apply Hm. reflexivity.
Defined.

Lemma guarded_response_withheld_witness :
  delivered_as GuardedReply.read GuardedReply.put_pieces GuardedReply.no_provider (λ _, 0) (ry_ctx GuardedReply.reply) ""
    GuardedReply.chunks (Some GuardedReply.final) [""; ""; "[mail [EMAIL_1]]"] true.
Proof.
  destruct GuardedReply.delivered as [y' E]. destruct GuardedReply.guarded as (H1 & H2 & H3 & H4 & H5 & H6).
  exact (guarded_response_withheld GuardedReply.read GuardedReply.no_pointer GuardedReply.put_pieces (λ n, Some n)
    GuardedReply.no_provider (λ _, 0) GuardedReply.plan GuardedReply.rewriter GuardedReply.chunks (Some GuardedReply.final)
    GuardedReply.reply y' _ _ GuardedReply.exact_alloc H1 H2 H3 H4 H5 GuardedReply.rewriter_fresh H6 E).
Defined.

(** A response that is not JSON reaches the client as it is, although the plan
    of the route redacts it. *)
Theorem text_response_unguarded :
  let '(y', outs, complete) := GuardedReply.deliver [(GuardedReply.clock, Some "mail a@b.co", true)] GuardedReply.reply in
  outs = ["mail a@b.co"] ∧ complete = true.
Proof. vm_compute. done. Qed.
(** A guarded response above the limit is refused by the buffer, as if the
    client's request had been too large. *)
Definition oversized : Reply :=
  {| ry_admission := BodyAdmission.sample_state;
     ry_ctx := set_response (set_response_rewriter (Some (rewriter_new 10)) (px_response GuardedReply.context)) GuardedReply.context |}.
Theorem oversized_response_blames_request :
  let '(y', outs, complete) := GuardedReply.deliver [(GuardedReply.clock, Some "twelve bytes", true)] oversized in
  outs = [] ∧ complete = false ∧ px_guardrail_error (ry_ctx y') = Some RequestBodyTooLarge.
Proof. vm_compute. done. Qed.
