(* ===== verification/Access.v ===== *)
(** * Who may administer and watch the gateway

    Models [crates/gateway-core/src/access.rs] (portal members, their
    memberships, managed identities, login transactions and sessions, and the
    policy that names the first administrators) and
    [crates/gateway-core/src/operators.rs] (operator tokens, their scopes and
    audit events).  [to_lowercase] is the Unicode mapping of Rust; Argon2 is a
    parameter. *)

From S2P Require Import Prelude Errors Routing Json GuardrailPolicy AuthAdmission VerificationCache VerificationFlight Auth EndpointAccess.

(** ** The first administrators *)

Definition PORTAL_ROLE_ADMIN : string := "admin".
Definition OWNER_WORKLOAD_ROLE : string := "gateway.monitor.read".

Record PortalAdminBootstrapPolicy := {
  bp_tenant_id : string;
  bp_emails : list string;
  bp_object_ids : list string
}.

Section bootstrap.
Variable to_lowercase : string → string.

(** [trim().to_lowercase()], without the empty ones. *)
Definition normalized (values : list string) : list string :=
  filter (λ v, is_empty v = false) ((λ v, to_lowercase (trim v)) <$> values).
Definition bootstrap_new (tenant : string) (emails object_ids : list string) : GatewayResult PortalAdminBootstrapPolicy :=
  let tenant := to_lowercase (trim tenant) in
  let emails := normalized emails in
  let object_ids := normalized object_ids in
  if is_empty tenant || negb (Bool.eqb (is_nil emails) (is_nil object_ids)) then Err InvalidConfiguration
  else Ok {| bp_tenant_id := tenant; bp_emails := emails; bp_object_ids := object_ids |}.

Definition authorizes (p : PortalAdminBootstrapPolicy) (i : EntraIdentityContext) : bool :=
  eq_ignore_ascii_case (trim (tenant_id i)) (bp_tenant_id p)
  && is_some_and (λ v, str_mem (to_lowercase (trim v)) (bp_object_ids p)) (object_id i)
  && is_some_and (λ v, str_mem (to_lowercase (trim v)) (bp_emails p)) (email i).

Record PortalMemberLogin := {
  ml_tenant_id : string;
  ml_object_id : string;
  ml_email : option string;
  ml_display_name : option string;
  bootstrap_admin : bool
}.
Definition non_empty_trim (v : option string) : option string := opt_filter (λ v, negb (is_empty v)) (trim <$> v).
Definition from_identity (i : EntraIdentityContext) (p : PortalAdminBootstrapPolicy) : GatewayResult PortalMemberLogin :=
  let? object := ok_or (non_empty_trim (match object_id i with Some v => Some v | None => subject i end)) InvalidEntraToken in
  if is_empty (trim (tenant_id i)) then Err InvalidEntraToken
  else Ok {| ml_tenant_id := trim (tenant_id i); ml_object_id := object; ml_email := non_empty_trim (email i);
             ml_display_name := non_empty_trim (display_name i); bootstrap_admin := authorizes p i |}.
End bootstrap.

(** ** Members *)

Inductive MemberStatus : Type := MemberPending | MemberActive | MemberBlocked.
#[global] Instance MemberStatus_eq_dec : EqDecision MemberStatus.
Proof. solve_decision. Defined.
Definition member_status_as_str (s : MemberStatus) : string :=
  match s with MemberPending => "pending" | MemberActive => "active" | MemberBlocked => "blocked" end.
Definition member_status_parse (value : string) : GatewayResult MemberStatus :=
  if String.eqb value "pending" then Ok MemberPending
  else if String.eqb value "active" then Ok MemberActive
  else if String.eqb value "blocked" then Ok MemberBlocked else Err InvalidAccessPayload.

Inductive ServiceMemberRole : Type := RoleOwner | RoleViewer.
#[global] Instance ServiceMemberRole_eq_dec : EqDecision ServiceMemberRole.
Proof. solve_decision. Defined.
Definition member_role_as_str (r : ServiceMemberRole) : string := match r with RoleOwner => "owner" | RoleViewer => "viewer" end.
Definition member_role_parse (value : string) : GatewayResult ServiceMemberRole :=
  if String.eqb value "owner" then Ok RoleOwner else if String.eqb value "viewer" then Ok RoleViewer else Err InvalidAccessPayload.

Record PortalMember := {
  pm_id : string;
  pm_tenant_id : string;
  pm_object_id : string;
  pm_email : option string;
  pm_display_name : option string;
  pm_status : MemberStatus;
  pm_roles : list string;
  pm_last_sign_in_at : option Z;
  pm_created_at : Z;
  pm_updated_at : Z
}.
Definition is_active (m : PortalMember) : bool := bool_decide (pm_status m = MemberActive).
Definition is_admin (m : PortalMember) : bool := is_active m && str_mem PORTAL_ROLE_ADMIN (pm_roles m).

Record MemberPatchRequest := { mp_status : option MemberStatus; mp_admin : option bool }.
Record ServiceMembership := { sm_member_id : string; sm_service_name : string; sm_role : ServiceMemberRole }.
Record ProjectMembership := { pj_member_id : string; pj_project_id : string; pj_role : ServiceMemberRole }.
Record ManagedIdentityCreateRequest := {
  mi_tenant_id : string;
  mi_client_id : string;
  mi_object_id : option string;
  mi_display_name : string;
  mi_service_name : string;
  mi_required_role : string;
  mi_enabled : bool
}.
Record ManagedIdentityPatchRequest := {
  mip_display_name : option string;
  mip_object_id : option (option string);
  mip_service_name : option string;
  mip_required_role : option string;
  mip_enabled : option bool
}.
Record ManagedIdentityProjectCreateRequest := {
  mj_tenant_id : string;
  mj_client_id : string;
  mj_object_id : option string;
  mj_display_name : string;
  mj_project_id : string;
  mj_required_role : string;
  mj_enabled : bool
}.
Record ManagedIdentityProjectPatchRequest := {
  mjp_display_name : option string;
  mjp_object_id : option (option string);
  mjp_project_id : option string;
  mjp_required_role : option string;
  mjp_enabled : option bool
}.

(** ** Logins and sessions *)

Record OidcLoginTransaction := {
  lt_state_hash : string;
  lt_binding_hash : string;
  lt_nonce : string;
  lt_pkce_verifier : string;
  lt_return_to : string;
  lt_expires_at : Z
}.
Record NewPortalSession := {
  ns_session_hash : string;
  ns_member_id : string;
  ns_csrf_hash : string;
  ns_expires_at : Z
}.
Record StoredPortalSession := {
  ss_session_hash : string;
  ss_member : PortalMember;
  ss_csrf_hash : string;
  ss_expires_at : Z;
  ss_last_seen_at : Z
}.

(** ** Operators *)

Definition OPERATOR_TOKEN_PREFIX : string := "op_live_".
Definition OPERATOR_SCOPE_ALL : string := "*".
Definition SCOPE_KEYS_CREATE : string := "keys:create".
Definition SCOPE_KEYS_DISABLE : string := "keys:disable".
Definition SCOPE_POLICIES_UPDATE : string := "policies:update".
Definition SCOPE_GUARDRAILS_UPDATE : string := "guardrails:update".
Definition SCOPE_USAGE_READ : string := "usage:read".
Definition SCOPE_USAGE_EXPORT : string := "usage:export".
Definition SCOPE_PROVIDERS_UPDATE : string := "providers:update".
Definition SCOPE_SERVICES_UPDATE : string := "services:update".
Definition SCOPE_SETTINGS_UPDATE : string := "settings:update".
Definition SCOPE_OPERATORS_MANAGE : string := "operators:manage".
Definition SCOPE_AUDIT_READ : string := "audit:read".

Record StoredOperatorToken := {
  ot_id : string;
  ot_token_prefix : string;
  ot_token_hash : string;
  ot_roles : list string;
  ot_scopes : list string;
  ot_disabled : bool;
  ot_revoked_at : option Z
}.
Record OperatorAuthorization := {
  oa_token_id : string;
  oa_member_id : option string;
  oa_token_prefix : string;
  oa_roles : list string;
  oa_scopes : list string
}.
Definition has_scope (a : OperatorAuthorization) (required : string) : bool :=
  existsb (λ s, String.eqb s OPERATOR_SCOPE_ALL || String.eqb s required) (oa_scopes a).
Definition default_operator_scopes : list string := [OPERATOR_SCOPE_ALL].

Record AuditEventCreate := {
  ae_actor_token_id : option string;
  ae_actor_member_id : option string;
  ae_action : string;
  ae_target_type : string;
  ae_target_id : option string;
  ae_before : option Value;
  ae_after : option Value;
  ae_request_id : string;
  ae_ip : option string;
  ae_user_agent : option string
}.

Definition operator_token_prefix (raw : string) : GatewayResult string :=
  check? validate_key_text raw in
  if negb (starts_with raw OPERATOR_TOKEN_PREFIX) || (len raw <=? LOOKUP_PREFIX_LEN) then Err MalformedAuthorization
  else Ok (String.substring 0 (Z.to_nat LOOKUP_PREFIX_LEN) raw).

Section tokens.
Variable Hash : Type.
Variable parse_hash : string → option Hash.
Variable verify_password : string → Hash → bool.

(** [e], [w]: how the verification pool treated the job; [panicked]: it did not
    return. *)
Definition verify_stored_operator_token (e : entered) (w : waited) (panicked : bool) (raw : string) (t : StoredOperatorToken) :
    GatewayResult OperatorAuthorization :=
  if ot_disabled t || is_some (ot_revoked_at t) then Err DisabledOperatorToken
  else
    match verify_in_background e w
            (if panicked then None else Some (verify_secret Hash parse_hash verify_password raw (ot_token_hash t))) with
    | Err AuthenticationOverloaded => Err AuthenticationOverloaded
    | Err _ => Err InvalidOperatorToken
    | Ok _ => Ok {| oa_token_id := ot_id t; oa_member_id := None; oa_token_prefix := ot_token_prefix t;
                    oa_roles := ot_roles t; oa_scopes := ot_scopes t |}
    end.
End tokens.

(** ** Properties *)

Section bootstrapped.
Variable to_lowercase : string → string.

(** A login that makes its member an administrator names the policy's tenant,
    one of its object ids and one of its addresses, and the policy was given
    at least one of each: a deployment that names nobody bootstraps nobody. *)
Theorem bootstrap_needs_both tenant emails oids p i login :
  bootstrap_new to_lowercase tenant emails oids = Ok p → from_identity to_lowercase i p = Ok login → bootstrap_admin login = true →
  (∃ e v, email i = Some v ∧ e ∈ emails ∧ to_lowercase (trim v) = to_lowercase (trim e)) ∧
  (∃ o v, object_id i = Some v ∧ o ∈ oids ∧ to_lowercase (trim v) = to_lowercase (trim o)).
Proof.
  unfold bootstrap_new, from_identity. destruct (is_empty _ || _); [done|]. intros [= <-].
  destruct (ok_or _ _); [|done]. destruct (is_empty _); [done|]. intros [= <-]. cbn [bootstrap_admin].
  unfold authorizes. cbn [bp_tenant_id bp_emails bp_object_ids]. rewrite !andb_true_iff. intros [[_ Ho] He].
  assert (Hin : ∀ v l, str_mem (to_lowercase (trim v)) (normalized to_lowercase l) = true →
    ∃ e, e ∈ l ∧ to_lowercase (trim v) = to_lowercase (trim e)).
  { intros v l Hm. unfold str_mem in Hm. apply existsb_exists in Hm as (x & Hx & E%String.eqb_eq). subst x.
    apply list_elem_of_In, list_elem_of_filter in Hx as [_ Hx]. apply list_elem_of_fmap in Hx as (e & E & He'). by exists e. }
  destruct (email i) as [v|], (object_id i) as [o|]; try done. cbn [is_some_and] in *.
  destruct (Hin _ _ He) as (e & ? & ?), (Hin _ _ Ho) as (x & ? & ?). split; [by exists e, v|by exists x, o].
Qed.
End bootstrapped.

Lemma member_status_roundtrip s : member_status_parse (member_status_as_str s) = Ok s.
Proof. by destruct s. Qed.
Lemma member_role_roundtrip r : member_role_parse (member_role_as_str r) = Ok r.
Proof. by destruct r. Qed.

(** An operator token is only accepted while it is neither disabled nor
    revoked and when its hash verifies the text presented; the scopes granted
    are those stored with it. *)
Theorem operator_token_sound Hash (parse_hash : string → option Hash) verify_password e w panicked raw t a :
  verify_stored_operator_token Hash parse_hash verify_password e w panicked raw t = Ok a →
  ot_disabled t = false ∧ ot_revoked_at t = None ∧
  (∃ h, parse_hash (ot_token_hash t) = Some h ∧ verify_password raw h = true) ∧ oa_scopes a = ot_scopes t ∧ oa_token_id a = ot_id t.
Proof.
  unfold verify_stored_operator_token, verify_secret. destruct (ot_disabled t); [done|]. destruct (ot_revoked_at t); [done|].
  cbn [orb is_some]. destruct (verify_in_background e w _) as [[]|er] eqn:E; [|by destruct er]. intros [= <-].
  split; [done|]. split; [done|]. split; [|done]. unfold verify_in_background in E.
  destruct panicked; [by destruct e, w|].
  destruct (parse_hash _) as [h|]; [|by destruct e, w]. exists h. split; [done|].
  cbn [ok_or] in E. destruct (verify_password raw h); [done|]. by destruct e, w.
Qed.
