(* ===== verification/KeyAdmin.v ===== *)
(** * Requests of the admin API

    Models the request types and their pure functions:
    [crates/gateway-core/src/admin.rs] (virtual keys, presets, policy patches,
    key material), [crates/gateway-core/src/projects.rs],
    [crates/gateway-core/src/studio_settings.rs], [RouteIdentitySetting] of
    [crates/gateway-core/src/endpoint_access.rs], and of
    [crates/gateway-api/src/app.rs] the scopes a key patch needs and the policy
    patch of a simulation.  Argon2, URL parsing and [char::is_control] are
    parameters. *)

From S2P Require Import Prelude SocketFrames StreamGuardrails Errors Routing Json GuardrailPolicy Policies Guardrails AuthAdmission VerificationCache VerificationFlight Auth EndpointAccess Access.

(** ** Virtual keys *)

Inductive AdminKeyOwnerType : Type := OwnerProject | OwnerIndividual.
Inductive KeyPreset : Type := Developer | ProductionWorker | ReadOnlyService | ExternalPartner | TemporaryDebugging.

Record KeyPolicyPatch := {
  kp_deny : option bool;
  kp_allowed_routes : option (list string);
  kp_allowed_models : option (list string);
  kp_allowed_providers : option (list string);
  kp_allowed_services : option (list string);
  kp_rpm_limit : option (option Z);
  kp_tpm_limit : option (option Z);
  kp_daily_budget_usd : option (option f64);
  kp_monthly_budget_usd : option (option f64);
  kp_allow_streaming : option bool;
  kp_allow_tools : option bool;
  kp_max_requests_per_day : option (option Z);
  kp_max_tokens_per_day : option (option Z);
  kp_max_cost_per_request : option (option f64);
  kp_max_input_tokens_per_request : option (option Z);
  kp_max_output_tokens_per_request : option (option Z);
  kp_allowed_hours_utc : option (list Z);
  kp_unused_key_auto_disable_after_days : option (option Z);
  kp_max_request_body_bytes : option (option Z);
  kp_max_response_body_bytes : option (option Z);
  kp_max_stream_duration_seconds : option (option Z);
  kp_max_sse_event_bytes : option (option Z);
  kp_max_tool_call_count : option (option Z);
  kp_max_tool_schema_bytes : option (option Z)
}.
Record AdminKeyCreate := {
  kc_name : option string;
  kc_owner_type : AdminKeyOwnerType;
  kc_project_id : option string;
  kc_service_names : list string;
  kc_preset : option KeyPreset;
  kc_expires_at : option Z;
  kc_rotation_due_at : option Z;
  kc_policy : KeyPolicyPatch;
  kc_guardrail_policy : GuardrailPolicy
}.
Record AdminKeyPatch := {
  ak_name : option (option string);
  ak_owner_type : option AdminKeyOwnerType;
  ak_project_id : option (option string);
  ak_service_names : option (list string);
  ak_expires_at : option (option Z);
  ak_rotation_due_at : option (option Z);
  ak_disabled : option bool;
  ak_policy : option KeyPolicyPatch;
  ak_guardrail_policy : option GuardrailPolicyPatch
}.
Record AdminPolicyLayerUpsert := {
  lu_kind : PolicyLayerKind;
  lu_scope_id : option string;
  lu_policy : KeyPolicyPatch;
  lu_guardrail_policy : GuardrailPolicyPatch
}.

(** The scopes of [operators.rs] that a patch of a key asks for. *)
Definition key_patch_required_scopes (p : AdminKeyPatch) : list string :=
  let scopes := if is_some (ak_disabled p) then [SCOPE_KEYS_DISABLE] else [] in
  let scopes :=
    if is_some (ak_name p) || is_some (ak_owner_type p) || is_some (ak_project_id p) || is_some (ak_service_names p)
       || is_some (ak_expires_at p) || is_some (ak_rotation_due_at p) || is_some (ak_policy p) || is_some (ak_guardrail_policy p)
    then scopes ++ [SCOPE_POLICIES_UPDATE] else scopes in
  if is_nil scopes then [SCOPE_POLICIES_UPDATE] else scopes.

(** What every preset assigns; the fields it does not name are kept. *)
Definition with_preset (p : KeyPolicy) (routes : list Route) (providers : list Provider) (streaming tools : bool)
    (rpm tpm : option Z) (daily : option f64) (request_bytes response_bytes : option Z) (cost : option f64)
    (unused_days : option Z) : KeyPolicy :=
  {| deny := deny p; allowed_routes := routes; allowed_models := allowed_models p; allowed_providers := providers;
     allowed_services := allowed_services p; rpm_limit := rpm; tpm_limit := tpm; daily_budget_usd := daily;
     monthly_budget_usd := monthly_budget_usd p; allow_streaming := streaming; allow_tools := tools;
     max_requests_per_day := max_requests_per_day p; max_tokens_per_day := max_tokens_per_day p;
     max_cost_per_request := cost; max_input_tokens_per_request := max_input_tokens_per_request p;
     max_output_tokens_per_request := max_output_tokens_per_request p; allowed_hours_utc := allowed_hours_utc p;
     unused_key_auto_disable_after_days := unused_days; max_request_body_bytes := request_bytes;
     max_response_body_bytes := response_bytes; max_stream_duration_seconds := max_stream_duration_seconds p;
     max_sse_event_bytes := max_sse_event_bytes p; max_tool_call_count := max_tool_call_count p;
     max_tool_schema_bytes := max_tool_schema_bytes p; policy_version := policy_version p |}.
Definition apply_preset (k : KeyPreset) (p : KeyPolicy) : KeyPolicy :=
  let usd n := Some (f64_of_Z n) in
  match k with
  | Developer =>
      with_preset p (allowed_routes p) (allowed_providers p) true true (Some 60) (Some 30000) (usd 10)
        (Some 1048576) (Some 2097152) (max_cost_per_request p) (unused_key_auto_disable_after_days p)
  | ProductionWorker =>
      with_preset p (allowed_routes p) (allowed_providers p) true false (Some 600) (Some 300000) (usd 100)
        (Some 1048576) (Some 4194304) (max_cost_per_request p) (unused_key_auto_disable_after_days p)
  | ReadOnlyService =>
      with_preset p [Summary; Embeddings] [InternalService] false false (Some 120) (tpm_limit p) (usd 5)
        (Some 524288) (Some 1048576) (max_cost_per_request p) (unused_key_auto_disable_after_days p)
  | ExternalPartner =>
      with_preset p (allowed_routes p) (allowed_providers p) false false (Some 30) (Some 10000) (usd 3)
        (Some 262144) (Some 524288) (Some (f64_div (f64_of_Z 1) (f64_of_Z 4))) (unused_key_auto_disable_after_days p)
  | TemporaryDebugging =>
      with_preset p (allowed_routes p) (allowed_providers p) true false (Some 20) (Some 5000) (usd 1)
        (Some 131072) (Some 262144) (max_cost_per_request p) (Some 7)
  end.

Definition normalize_key_name (has_control : string → bool) (name : option string) : GatewayResult (option string) :=
  match name with
  | None => Ok None
  | Some name =>
      if has_control name then Err InvalidKeyPayload
      else
        let name := trim name in
        if 120 <? characters name then Err InvalidKeyPayload else Ok (if is_empty name then None else Some name)
  end.

Record VirtualKeyMaterial := { vk_raw_key : string; vk_key_prefix : string; vk_key_hash : string }.
(** [hash_password]: Argon2 with a fresh salt. *)
Definition key_material_from_raw (hash_password : string → option string) (raw : string) : GatewayResult VirtualKeyMaterial :=
  check? validate_key_text raw in
  if negb (starts_with raw RELAYNA_KEY_PREFIX) || (len raw <=? LOOKUP_PREFIX_LEN) then Err MalformedAuthorization
  else
    let? hash := ok_or (hash_password raw) InvalidConfiguration in
    Ok {| vk_raw_key := raw; vk_key_prefix := String.substring 0 (Z.to_nat LOOKUP_PREFIX_LEN) raw; vk_key_hash := hash |}.

(** ** Projects *)

Record ProjectCreateRequest := { pc_name : string }.
Record ProjectPatchRequest := { pp_name : option string; pp_service_names : option (list string) }.
Definition validate_project_name (name : string) : GatewayResult unit :=
  if is_empty (trim name) || (120 <? len (trim name)) then Err InvalidProjectPayload else Ok tt.
Definition project_create_validate (r : ProjectCreateRequest) : GatewayResult unit := validate_project_name (pc_name r).
Definition project_patch_validate (p : ProjectPatchRequest) : GatewayResult unit :=
  match pp_name p with Some name => validate_project_name name | None => Ok tt end.

(** ** The connection to Studio *)

Inductive StudioConnectionSource : Type := StudioPersisted | StudioEnvironment | StudioUnset.
Inductive PatchValue : Type := PatchUnchanged | PatchClear | PatchSet (value : string).
Record StudioConnectionEnv := { se_base_url : option string; se_token : option string }.
Record StoredStudioConnection := {
  sc_base_url : option string;
  sc_bearer_token_secret : option string;
  sc_updated_at : option Z
}.
Record EffectiveStudioConnection := {
  ec_base_url : option string;
  ec_token : option string;
  ec_source : StudioConnectionSource;
  ec_updated_at : option Z
}.
Record StudioConnectionResponse := {
  sr_conn_base_url : option string;
  token_configured : bool;
  sr_conn_source : StudioConnectionSource;
  sr_conn_updated_at : option Z
}.
Record StudioConnectionPatchRequest := { sp_base_url : PatchValue; sp_token : PatchValue }.

Definition normalized_non_empty (v : option string) : option string := non_empty_trim v.
Definition studio_from_sources (stored : option StoredStudioConnection) (env : StudioConnectionEnv) : EffectiveStudioConnection :=
  match stored ≫= (λ s, (λ url, (s, url)) <$> normalized_non_empty (sc_base_url s)) with
  | Some (s, url) =>
      {| ec_base_url := Some url; ec_token := normalized_non_empty (sc_bearer_token_secret s);
         ec_source := StudioPersisted; ec_updated_at := sc_updated_at s |}
  | None =>
      match normalized_non_empty (se_base_url env) with
      | Some url => {| ec_base_url := Some url; ec_token := normalized_non_empty (se_token env);
                       ec_source := StudioEnvironment; ec_updated_at := None |}
      | None => {| ec_base_url := None; ec_token := None; ec_source := StudioUnset; ec_updated_at := None |}
      end
  end.
Definition studio_response (c : EffectiveStudioConnection) : StudioConnectionResponse :=
  {| sr_conn_base_url := ec_base_url c; token_configured := is_some (ec_token c); sr_conn_source := ec_source c;
     sr_conn_updated_at := ec_updated_at c |}.

Section studio.
(** The scheme and host of a parsed URL. *)
Variable url_parse : string → option (string * option string).
Definition validate_base_url (base_url : string) : GatewayResult unit :=
  match url_parse base_url with
  | Some (scheme, host) =>
      if (String.eqb scheme "http" || String.eqb scheme "https") && is_some host then Ok tt else Err InvalidStudioConnectionPayload
  | None => Err InvalidStudioConnectionPayload
  end.
Definition validate_secret (secret : string) : GatewayResult unit :=
  if is_empty (trim secret) then Err InvalidStudioConnectionPayload else Ok tt.
Definition studio_patch_validate (p : StudioConnectionPatchRequest) : GatewayResult unit :=
  check? match sp_base_url p with PatchSet v => validate_base_url v | _ => Ok tt end in
  match sp_token p with PatchSet v => validate_secret v | _ => Ok tt end.
End studio.

(** ** Identities of the built-in routes *)

Record RouteIdentitySetting := { ri_route : string; ri_access : EndpointAccess }.
Definition IDENTITY_ROUTES : list Route :=
  [ChatCompletions; Responses; LiteLlmEmbeddings; LiteLlmRerank; AnthropicMessages; AnthropicMessagesCountTokens;
   AnthropicMessageBatches; AnthropicMessageBatch; AnthropicMessageBatchResults; AnthropicMessageBatchCancel;
   AnthropicModels; DirectOpenAi; LiteLlmPassthrough; Summary; Translation; Ocr; ServiceWildcard].
Definition route_identity_validate (to_lowercase : string → string) (has_control header_name_ok : string → bool)
    (s : RouteIdentitySetting) : GatewayResult unit :=
  if negb (existsb (λ r, String.eqb (route_as_str r) (ri_route s)) IDENTITY_ROUTES)
     || is_some (accessa (ri_access s))
     || (is_some (websocket (ri_access s)) && negb (String.eqb (ri_route s) "/litellm/*" || String.eqb (ri_route s) "/v1/responses"))
  then Err InvalidServicePayload
  else endpoint_validate to_lowercase has_control header_name_ok (ri_access s) (ri_route s).

(** ** Simulated policies *)

Definition parse_simulation_provider (value : string) : GatewayResult Provider :=
  if String.eqb value "litellm" then Ok LiteLlm
  else if String.eqb value "openai-compatible" then Ok OpenAiCompatible
  else if String.eqb value "internal-service" then Ok InternalService else Err PolicyDenied.
Definition simulation_routes : list (string * Route) :=
  [("/v1/chat/completions", ChatCompletions); ("/v1/responses", Responses); ("/v1/embeddings", LiteLlmEmbeddings);
   ("/v1/rerank", LiteLlmRerank); ("/v1/messages", AnthropicMessages); ("/v1/messages/count_tokens", AnthropicMessagesCountTokens);
   ("/v1/messages/batches", AnthropicMessageBatches); ("/v1/messages/batches/*", AnthropicMessageBatch);
   ("/v1/messages/batches/*/results", AnthropicMessageBatchResults); ("/v1/messages/batches/*/cancel", AnthropicMessageBatchCancel);
   ("/v1/models", AnthropicModels); ("/providers/openai/*", DirectOpenAi); ("/summary", Summary); ("/translation", Translation);
   ("/ocr", Ocr); ("/embeddings", Embeddings); ("/services/*", ServiceWildcard)].
Definition parse_simulation_route (value : string) : GatewayResult Route :=
  ok_or (snd <$> List.find (λ kv, String.eqb kv.1 value) simulation_routes) PolicyDenied.

Definition apply_simulation_policy_patch (p : KeyPolicy) (q : KeyPolicyPatch) : GatewayResult KeyPolicy :=
  let? routes := match kp_allowed_routes q with Some l => try_map parse_simulation_route l | None => Ok (allowed_routes p) end in
  let? providers := match kp_allowed_providers q with Some l => try_map parse_simulation_provider l | None => Ok (allowed_providers p) end in
  if is_some_and (existsb (λ h, negb (in_range 0 23 h))) (kp_allowed_hours_utc q) then Err PolicyDenied
  else Ok
    {| deny := default (deny p) (kp_deny q); allowed_routes := routes;
       allowed_models := default (allowed_models p) (kp_allowed_models q); allowed_providers := providers;
       allowed_services := default (allowed_services p) (kp_allowed_services q);
       rpm_limit := default (rpm_limit p) (kp_rpm_limit q); tpm_limit := default (tpm_limit p) (kp_tpm_limit q);
       daily_budget_usd := default (daily_budget_usd p) (kp_daily_budget_usd q);
       monthly_budget_usd := default (monthly_budget_usd p) (kp_monthly_budget_usd q);
       allow_streaming := default (allow_streaming p) (kp_allow_streaming q);
       allow_tools := default (allow_tools p) (kp_allow_tools q);
       max_requests_per_day := default (max_requests_per_day p) (kp_max_requests_per_day q);
       max_tokens_per_day := default (max_tokens_per_day p) (kp_max_tokens_per_day q);
       max_cost_per_request := default (max_cost_per_request p) (kp_max_cost_per_request q);
       max_input_tokens_per_request := default (max_input_tokens_per_request p) (kp_max_input_tokens_per_request q);
       max_output_tokens_per_request := default (max_output_tokens_per_request p) (kp_max_output_tokens_per_request q);
       allowed_hours_utc := default (allowed_hours_utc p) (kp_allowed_hours_utc q);
       unused_key_auto_disable_after_days :=
         default (unused_key_auto_disable_after_days p) (kp_unused_key_auto_disable_after_days q);
       max_request_body_bytes := default (max_request_body_bytes p) (kp_max_request_body_bytes q);
       max_response_body_bytes := default (max_response_body_bytes p) (kp_max_response_body_bytes q);
       max_stream_duration_seconds := default (max_stream_duration_seconds p) (kp_max_stream_duration_seconds q);
       max_sse_event_bytes := default (max_sse_event_bytes p) (kp_max_sse_event_bytes q);
       max_tool_call_count := default (max_tool_call_count p) (kp_max_tool_call_count q);
       max_tool_schema_bytes := default (max_tool_schema_bytes p) (kp_max_tool_schema_bytes q);
       policy_version := policy_version p |}.

Definition policy_simulation_warnings (p : KeyPolicy) (route : Route) (provider : Provider) (f : GenerationFeatures)
    (layers : Z) : list string :=
  (if deny p then
     [if 1 <? layers
      then "Effective policy is denied after merging inherited layers; check for disjoint route, provider, model, service, or hour intersections."
      else "Effective policy is explicitly denied."] else [])
  ++ (if not_listed (allowed_routes p) route
      then ["Effective route allowlist excludes " +:+ route_as_str route +:+ "; inherited route allowlists intersect restrictively."] else [])
  ++ (if not_listed (allowed_providers p) provider
      then ["Effective provider allowlist excludes " +:+ provider_as_str provider +:+ "; inherited provider allowlists intersect restrictively."] else [])
  ++ match feat_model f with
     | Some m => if not_listed (allowed_models p) m
                 then ["Effective model allowlist excludes " +:+ m +:+ "; inherited model allowlists intersect restrictively."] else []
     | None => []
     end
  ++ match feat_service_name f with
     | Some s => if not_listed (allowed_services p) s
                 then ["Effective service allowlist excludes " +:+ s +:+ "; inherited service allowlists intersect restrictively."] else []
     | None => []
     end.

(** ** Properties *)

(** The simulator reads every route name the gateway prints, but for that of
    the LiteLLM passthrough, which it refuses. *)
Theorem simulated_route_names r :
  parse_simulation_route (route_as_str r) = if bool_decide (r = LiteLlmPassthrough) then Err PolicyDenied else Ok r.
Proof. by destruct r. Qed.

(** Every change that a key patch makes needs its scope. *)
Lemma patch_scopes_cover p :
  (is_some (ak_disabled p) = true → SCOPE_KEYS_DISABLE ∈ key_patch_required_scopes p) ∧
  (is_some (ak_disabled p) = false → key_patch_required_scopes p = [SCOPE_POLICIES_UPDATE]) ∧
  (is_some (ak_policy p) = true ∨ is_some (ak_service_names p) = true ∨ is_some (ak_expires_at p) = true →
   SCOPE_POLICIES_UPDATE ∈ key_patch_required_scopes p).
Proof.
  unfold key_patch_required_scopes. set (b := _ || is_some (ak_guardrail_policy p)).
  assert (Hb : b = false → ¬ (is_some (ak_policy p) = true ∨ is_some (ak_service_names p) = true ∨ is_some (ak_expires_at p) = true)).
  { unfold b. rewrite !orb_false_iff. intros H. destruct_and!. naive_solver congruence. }
  destruct (is_some (ak_disabled p)), b; cbn [is_nil app]; split_and!; try done; intros H; try set_solver;
    exfalso; by apply Hb.
Qed.
