(* ===== verification/ProviderSelection.v ===== *)
(** * Provider selection

    Models [crates/gateway-core/src/provider_intelligence.rs]: which candidate
    providers are rejected and why, how a routing strategy selects among the
    others, retries and the circuit breaker.  The store trait and its
    forwarding to shared stores are the questions of [AdminStore]. *)

From S2P Require Import Prelude Errors Routing.
From Stdlib Require Import SpecFloat.

Inductive RoutingStrategy : Type :=
  Priority | Weighted | LeastLatency | LeastCost | HealthAware | BudgetAware | RegionAffinity | CapabilityAware.
#[global] Instance RoutingStrategy_eq_dec : EqDecision RoutingStrategy.
Proof. solve_decision. Defined.
Inductive CircuitBreakerState : Type := CircuitClosed | CircuitOpen | CircuitHalfOpen.
#[global] Instance CircuitBreakerState_eq_dec : EqDecision CircuitBreakerState.
Proof. solve_decision. Defined.
Inductive ProviderHealthStatus : Type := Healthy | Degraded | Unhealthy | UnknownHealth.
#[global] Instance ProviderHealthStatus_eq_dec : EqDecision ProviderHealthStatus.
Proof. solve_decision. Defined.

Record ProviderCandidate := {
  pc_name : string;
  pc_provider : Provider;
  pc_priority : Z;
  pc_weight : Z;
  pc_enabled : bool;
  pc_health_status : ProviderHealthStatus;
  pc_circuit_state : CircuitBreakerState;
  pc_average_latency_ms : option Z;
  pc_estimated_cost_usd : option f64;
  pc_remaining_budget_usd : option f64;
  pc_regions : list string;
  pc_capabilities : list string;
  pc_cooldown_until : option Z
}.
Record RoutingDecisionRequest := {
  rd_strategy : RoutingStrategy;
  rd_route : Route;
  rd_preferred_region : option string;
  rd_required_capabilities : list string;
  rd_estimated_cost_usd : option f64;
  rd_request_hash : option Z;
  rd_now : Z
}.
Record ProviderRejection := { rj_provider : string; rj_reason : string }.
Record ProviderSelection := {
  selected : ProviderCandidate;
  sel_strategy : RoutingStrategy;
  considered : list string;
  rejected : list ProviderRejection
}.
Record FallbackPolicy := {
  retry_status_codes : list Z;
  max_attempts : Z;
  cooldown_seconds : Z;
  retry_timeouts : bool;
  provider_failover : bool
}.
Definition FallbackPolicy_default : FallbackPolicy :=
  {| retry_status_codes := [429; 500; 502; 503; 504]; max_attempts := 2; cooldown_seconds := 30; retry_timeouts := true;
     provider_failover := true |}.
Definition allows_status_retry (p : FallbackPolicy) (status_code attempt : Z) : bool :=
  (attempt <? max_attempts p) && existsb (Z.eqb status_code) (retry_status_codes p).
Definition allows_timeout_retry (p : FallbackPolicy) (attempt : Z) : bool := (attempt <? max_attempts p) && retry_timeouts p.

(** ** Stored provider health and debug records *)

Record ProviderHealthState := {
  hs_name : string;
  hs_provider : Provider;
  hs_status : ProviderHealthStatus;
  hs_circuit_state : CircuitBreakerState;
  hs_active_check_ok : option bool;
  hs_passive_success_count : Z;
  hs_passive_failure_count : Z;
  hs_consecutive_failures : Z;
  hs_average_latency_ms : option Z;
  hs_last_error_code : option string;
  hs_cooldown_until : option Z;
  hs_checked_at : option Z;
  hs_updated_at : Z
}.
Record ProviderHealthCheckTarget := {
  ht_name : string;
  ht_provider : Provider;
  ht_base_url : option string;
  ht_health_check_path : option string;
  ht_health_check_method : string;
  ht_credential : option string
}.

(** ** Selection *)

Definition missing_capability (req : RoutingDecisionRequest) (c : ProviderCandidate) : option string :=
  (λ required, "missing_capability:" +:+ required) <$>
    List.find (λ required, negb (existsb (String.eqb required) (pc_capabilities c))) (rd_required_capabilities req).
Definition over_budget (req : RoutingDecisionRequest) (c : ProviderCandidate) : bool :=
  match rd_estimated_cost_usd req, pc_remaining_budget_usd c with
  | Some required, Some remaining => f64_ltb remaining required
  | _, _ => false
  end.
Definition rejection_reason (req : RoutingDecisionRequest) (c : ProviderCandidate) : option string :=
  if negb (pc_enabled c) then Some "disabled"
  else if bool_decide (pc_circuit_state c = CircuitOpen) && is_none_or (λ cooldown, rd_now req <? cooldown) (pc_cooldown_until c)
  then Some "circuit_open"
  else if bool_decide (pc_health_status c = Unhealthy) then Some "unhealthy"
  else if over_budget req c then Some "budget_exhausted"
  else if is_some_and (λ region, bool_decide (rd_strategy req = RegionAffinity) && negb (existsb (String.eqb region) (pc_regions c)))
            (rd_preferred_region req)
  then Some "region_mismatch"
  else missing_capability req c.

Definition weight_of (c : ProviderCandidate) : Z := Z.max (pc_weight c) 1.
Definition total_weight (cs : list ProviderCandidate) : Z := foldr (λ c n, weight_of c + n) 0 cs.
Fixpoint pick_slot (cs : list ProviderCandidate) (slot : Z) : option ProviderCandidate :=
  match cs with
  | [] => None
  | c :: cs => if slot <? weight_of c then Some c else pick_slot cs (slot - weight_of c)
  end.
Definition weighted_pick (cs : list ProviderCandidate) (request_hash : Z) : option ProviderCandidate :=
  match pick_slot cs (request_hash mod total_weight cs) with
  | Some c => Some c
  | None => head cs
  end.

Definition compare_priority (l r : ProviderCandidate) : comparison := pc_priority l ?= pc_priority r.
Definition compare_latency_then_priority (l r : ProviderCandidate) : comparison :=
  then_with (default i64_max (pc_average_latency_ms l) ?= default i64_max (pc_average_latency_ms r)) (compare_priority l r).
Definition cost_of (c : ProviderCandidate) : f64 := default (S754_infinity false) (pc_estimated_cost_usd c).
Definition compare_cost_then_priority (l r : ProviderCandidate) : comparison :=
  then_with (default Eq (partial_cmp (cost_of l) (cost_of r))) (compare_priority l r).
Definition is_eligible (req : RoutingDecisionRequest) (c : ProviderCandidate) : bool := is_none (rejection_reason req c).
Definition rejections (req : RoutingDecisionRequest) (cs : list ProviderCandidate) : list ProviderRejection :=
  omap (λ c, (λ reason, {| rj_provider := pc_name c; rj_reason := reason |}) <$> rejection_reason req c) cs.
Definition pick (req : RoutingDecisionRequest) (eligible : list ProviderCandidate) : option ProviderCandidate :=
  match rd_strategy req with
  | Priority => min_by compare_priority eligible
  | Weighted => weighted_pick eligible (default 0 (rd_request_hash req))
  | LeastLatency | HealthAware => min_by compare_latency_then_priority eligible
  | LeastCost | BudgetAware => min_by compare_cost_then_priority eligible
  | RegionAffinity | CapabilityAware => min_by compare_priority eligible
  end.
Definition select_provider (req : RoutingDecisionRequest) (candidates : list ProviderCandidate) : GatewayResult ProviderSelection :=
  match pick req (List.filter (is_eligible req) candidates) with
  | None => Err PolicyDenied
  | Some c => Ok {| selected := c; sel_strategy := rd_strategy req; considered := map pc_name candidates;
                    rejected := rejections req candidates |}
  end.

(** ** The circuit breaker *)

(** 32-bit addition; a build that checks it stops instead of wrapping. *)
Definition i32_add (a b : Z) : Z := (a + b + 2 ^ 31) mod 2 ^ 32 - 2 ^ 31.
Definition circuit_state_after_passive_result (previous : CircuitBreakerState) (consecutive_failures : Z) (success : bool)
    (failure_threshold : Z) : CircuitBreakerState :=
  if success then CircuitClosed
  else match previous with
       | CircuitOpen | CircuitHalfOpen => CircuitOpen
       | CircuitClosed => if failure_threshold <=? i32_add consecutive_failures 1 then CircuitOpen else CircuitClosed
       end.

(** ** Weights *)

Lemma total_weight_ge cs : 0 ≤ total_weight cs.
Proof.
  induction cs as [|c cs IH]; [done|]. cbn [total_weight foldr]. fold (total_weight cs). unfold weight_of. lia.
Qed.
Lemma pick_slot_spec cs slot : 0 ≤ slot < total_weight cs →
  ∃ pre c post, cs = pre ++ c :: post ∧ pick_slot cs slot = Some c ∧ total_weight pre ≤ slot < total_weight pre + weight_of c.
Proof.
  revert slot. induction cs as [|c cs IH]; intros slot Hs; [cbn in Hs; lia|]; cbn [total_weight foldr pick_slot] in Hs |- *; fold (total_weight cs) in Hs. destruct (Z.ltb_spec slot (weight_of c)).
  { exists [], c, cs. cbn. repeat split; lia. }
  destruct (IH (slot - weight_of c) ltac:(lia)) as (pre & d & post & -> & Hd & Hr). exists (c :: pre), d, post. split; [done|].
  split; [done|]. cbn [total_weight foldr]. fold (total_weight pre). lia.
Qed.
Lemma weighted_pick_spec cs hash : cs ≠ [] →
  ∃ pre c post, cs = pre ++ c :: post ∧ weighted_pick cs hash = Some c ∧
    total_weight pre ≤ hash mod total_weight cs < total_weight pre + weight_of c.
Proof.
  intros Hne. assert (0 < total_weight cs).
  { destruct cs as [|c cs]; [done|]. cbn [total_weight foldr]. fold (total_weight cs). pose proof (total_weight_ge cs).
    unfold weight_of. lia. }
  destruct (pick_slot_spec cs (hash mod total_weight cs)) as (pre & c & post & E & Hp & Hr); [by apply Z.mod_pos_bound|].
  exists pre, c, post. split; [done|]. split; [|done]. unfold weighted_pick. by rewrite Hp.
Qed.

(** ** The selection is the best eligible candidate *)

(** How a strategy compares candidates; [Weighted] draws instead. *)
Definition strategy_order (s : RoutingStrategy) : ProviderCandidate → ProviderCandidate → comparison :=
  match s with
  | LeastLatency | HealthAware => compare_latency_then_priority
  | LeastCost | BudgetAware => compare_cost_then_priority
  | _ => compare_priority
  end.
Definition best_choice (req : RoutingDecisionRequest) (pre : list ProviderCandidate) (c : ProviderCandidate)
    (post : list ProviderCandidate) : Prop :=
  match rd_strategy req with
  | Weighted => total_weight pre ≤ default 0 (rd_request_hash req) mod total_weight (pre ++ c :: post) < total_weight pre + weight_of c
  | s => (∀ d, d ∈ pre → strategy_order s c d = Lt) ∧ (∀ d, d ∈ post → strategy_order s c d ≠ Gt)
  end.
Definition priced (c : ProviderCandidate) : Prop := f64_is_nan (cost_of c) = false.

Lemma strategy_total s : total_cmp priced (strategy_order s).
Proof.
  pose proof (total_Z priced pc_priority) as Hp.
  destruct s; cbn; try exact Hp; (apply total_then; [|exact Hp]);
    first [apply (total_Z priced (λ c, default i64_max (pc_average_latency_ms c)))|apply (total_f64 cost_of)].
Qed.
Lemma pick_best req cs : (∀ c, c ∈ cs → priced c) → cs ≠ [] →
  ∃ pre c post, cs = pre ++ c :: post ∧ pick req cs = Some c ∧ best_choice req pre c post.
Proof.
  intros Hp Hne. unfold best_choice.
  destruct (decide (rd_strategy req = Weighted)) as [E|E].
  { unfold pick. rewrite E. destruct (weighted_pick_spec cs (default 0 (rd_request_hash req)) Hne) as (pre & c & post & Hs & Hk & Hr).
    exists pre, c, post. by rewrite <- Hs. }
  destruct cs as [|x cs]; [done|].
  destruct (foldl_min priced _ x cs (strategy_total (rd_strategy req))) as (m & pre & post & Hm & Hs & Hb); [apply Hp; by left|
    intros; apply Hp; by right|]. exists pre, m, post. split; [done|]. unfold pick.
  destruct (rd_strategy req); try done; (split; [by rewrite <- Hm|done]).
Qed.

(** a provider is refused only when every candidate is rejected; otherwise the
    selection is an eligible candidate that the strategy prefers, the first of
    equals, or for the weighted strategy the one whose share of the weights
    the request's slot falls into; and the selection lists every candidate and
    the reason for each rejection. *)
Theorem select_provider_best req candidates (Hcost : ∀ c, c ∈ candidates → priced c) :
  match select_provider req candidates with
  | Err e => e = PolicyDenied ∧ ∀ c, c ∈ candidates → rejection_reason req c ≠ None
  | Ok s => ∃ pre post, List.filter (is_eligible req) candidates = pre ++ selected s :: post ∧ best_choice req pre (selected s) post ∧
      considered s = map pc_name candidates ∧
      ∀ name reason, {| rj_provider := name; rj_reason := reason |} ∈ rejected s ↔
        ∃ c, c ∈ candidates ∧ pc_name c = name ∧ rejection_reason req c = Some reason
  end.
Proof.
  assert (∀ c, c ∈ List.filter (is_eligible req) candidates ↔ c ∈ candidates ∧ is_eligible req c = true) as Hf.
  { intros c. rewrite !list_elem_of_In. apply filter_In. }
  unfold select_provider. destruct (decide (List.filter (is_eligible req) candidates = [])) as [E|E].
  - assert (pick req [] = None) as Hn by (unfold pick; by destruct (rd_strategy req)). rewrite E, Hn. split; [done|].
    intros c Hc Hr. assert (c ∈ List.filter (is_eligible req) candidates) as Hin by (apply Hf; unfold is_eligible; by rewrite Hr).
    rewrite E in Hin. by apply elem_of_nil in Hin.
  - destruct (pick_best req _ (λ c Hc, Hcost c (proj1 (proj1 (Hf c) Hc))) E) as (pre & c & post & Hs & -> & Hb). cbn.
    exists pre, post. do 3 (split; [done|]). intros name reason. unfold rejections. rewrite list_elem_of_omap. split.
    + intros (c' & Hc' & Hr). apply fmap_Some in Hr as (r & Hr & Heq). injection Heq as -> ->. eauto.
    + intros (c' & Hc' & <- & Hr). exists c'. split; [done|]. by rewrite Hr.
Qed.

Module SelectionSample.
Definition candidate (name : string) (priority weight : Z) (enabled : bool) (latency : option Z) : ProviderCandidate :=
  {| pc_name := name; pc_provider := LiteLlm; pc_priority := priority; pc_weight := weight; pc_enabled := enabled;
     pc_health_status := Healthy; pc_circuit_state := CircuitClosed; pc_average_latency_ms := latency; pc_estimated_cost_usd := None;
     pc_remaining_budget_usd := None; pc_regions := []; pc_capabilities := ["chat"]; pc_cooldown_until := None |}.
Definition request (s : RoutingStrategy) (hash : Z) : RoutingDecisionRequest :=
  {| rd_strategy := s; rd_route := ChatCompletions; rd_preferred_region := None; rd_required_capabilities := ["chat"];
     rd_estimated_cost_usd := None; rd_request_hash := Some hash; rd_now := 0 |}.
Definition candidates : list ProviderCandidate :=
  [candidate "off" 1 1 false (Some 5); candidate "slow" 10 1 true (Some 90); candidate "fast" 20 3 true (Some 40)].
Lemma candidates_priced c : c ∈ candidates → priced c.
Proof. revert c. apply Forall_forall. repeat constructor. Qed.
Lemma chosen : (∃ s, select_provider (request LeastLatency 0) candidates = Ok s ∧ pc_name (selected s) = "fast") ∧
  (∃ s, select_provider (request Weighted 4) candidates = Ok s ∧ pc_name (selected s) = "slow").
Proof. split; by eexists. Qed.
End SelectionSample.
Lemma select_provider_best_witness :
  match select_provider (SelectionSample.request LeastLatency 0) SelectionSample.candidates with
  | Err e => e = PolicyDenied ∧ ∀ c, c ∈ SelectionSample.candidates → rejection_reason (SelectionSample.request LeastLatency 0) c ≠ None
  | Ok s => ∃ pre post, List.filter (is_eligible (SelectionSample.request LeastLatency 0)) SelectionSample.candidates
        = pre ++ selected s :: post ∧ best_choice (SelectionSample.request LeastLatency 0) pre (selected s) post ∧
      considered s = map pc_name SelectionSample.candidates ∧
      ∀ name reason, {| rj_provider := name; rj_reason := reason |} ∈ rejected s ↔
        ∃ c, c ∈ SelectionSample.candidates ∧ pc_name c = name ∧
          rejection_reason (SelectionSample.request LeastLatency 0) c = Some reason
  end.
Proof. exact (select_provider_best (SelectionSample.request LeastLatency 0) SelectionSample.candidates SelectionSample.candidates_priced). Defined.
