(* ===== verification/OpenApi.v ===== *)
(** * Service OpenAPI documents

    Models [fetch_service_openapi] and [parse_service_openapi] of
    [crates/gateway-api/src/app.rs]: the document that a service publishes is
    read up to a bound and turned into the list of its endpoints, with what was
    added and removed since the last time.  The URL and JSON parsers, SHA-256
    and the tests of control characters and methods are parameters; what the
    upstream answers is an argument. *)

From S2P Require Import Prelude Errors Routing Json Policies Guardrails EndpointAccess Foundry ServiceTypes ServicePricing TrafficRequest.
From stdpp Require Import sorting.
#[local] Open Scope Z_scope.

Definition SERVICE_OPENAPI_MAX_BYTES : Z := 1024 * 1024.
Record ServiceOpenApiPreview := {
  op_source_path : string;
  op_schema_hash : string;
  op_title : option string;
  op_version : option string;
  op_endpoints : list ServiceOpenApiEndpoint;
  op_added : list ServiceOpenApiEndpoint;
  op_removed : list ServiceOpenApiEndpoint
}.
Record ServiceOpenApiSyncRequest := { os_source_path : string; os_expected_schema_hash : string }.
(** What the upstream answers: a failure, or a status, headers and the chunks
    of its body, of which reading may fail. *)
Inductive HttpDocument : Type :=
| GetFailed
| GetAnswered (status : Z) (content_type : option string) (content_length : option Z) (chunks : list (option string)).

Definition OPENAPI_METHODS : list string := ["get"; "post"; "put"; "patch"; "delete"; "head"; "options"].
Definition contains_openapi_endpoint (endpoints : list ServiceOpenApiEndpoint) (target : ServiceOpenApiEndpoint) : bool :=
  existsb (λ e, eq_ignore_ascii_case (endpoint_method e) (endpoint_method target)
                && String.eqb (endpoint_path_template e) (endpoint_path_template target)) endpoints.
Definition compare_endpoints (l r : ServiceOpenApiEndpoint) : comparison :=
  then_with (String.compare (endpoint_path_template l) (endpoint_path_template r))
    (String.compare (endpoint_method l) (endpoint_method r)).
Definition operation_endpoint (path method : string) (operation : JMap) : ServiceOpenApiEndpoint :=
  {| endpoint_method := to_ascii_uppercase method; endpoint_path_template := path;
     endpoint_operation_id := map_get "operationId" operation ≫= as_str;
     summary := map_get "summary" operation ≫= as_str; relayna_default := is_relayna_default_endpoint path |}.
Definition path_endpoint (path : string) (item : JMap) (endpoints : list ServiceOpenApiEndpoint) (method : string) :
    GatewayResult (list ServiceOpenApiEndpoint) :=
  match map_get method item with
  | None => Ok endpoints
  | Some operation =>
      let? operation := ok_or (as_object operation) InvalidServiceOpenApi in
      Ok (endpoints ++ [operation_endpoint path method operation])
  end.
Definition path_endpoints (endpoints : list ServiceOpenApiEndpoint) (entry : string * Value) :
    GatewayResult (list ServiceOpenApiEndpoint) :=
  let? item := ok_or (as_object entry.2) InvalidServiceOpenApi in
  try_fold (path_endpoint entry.1 item) endpoints OPENAPI_METHODS.

Section documents.
Variable url_parse : string → option Url.
Variable method_parses : string → bool.
Variable has_control : string → bool.
Variable from_slice : string → option Value.
(** [format!("sha256:{:x}", Sha256::digest(..))]. *)
Variable schema_hash : string → string.

Definition parse_service_openapi (service : ServiceResponse) (source_path document : string) : GatewayResult ServiceOpenApiPreview :=
  let? value := ok_or (from_slice document) InvalidServiceOpenApi in
  if negb (is_some_and (λ v, starts_with v "3.") (value_get "openapi" value ≫= as_str)) then Err InvalidServiceOpenApi
  else
    let? paths := ok_or (value_get "paths" value ≫= as_object) InvalidServiceOpenApi in
    let? found := try_fold path_endpoints [] paths in
    let endpoints := sort_by compare_endpoints found in
    check? match validate_openapi_endpoints method_parses endpoints with Ok _ => Ok tt | Err _ => Err InvalidServiceOpenApi end in
    let previous := sr_openapi_endpoints service in
    Ok {| op_source_path := source_path; op_schema_hash := schema_hash document;
          op_title := take_chars 256 <$> ((value_get "info" value ≫= value_get "title") ≫= as_str);
          op_version := take_chars 64 <$> ((value_get "info" value ≫= value_get "version") ≫= as_str);
          op_endpoints := endpoints;
          op_added := List.filter (λ e, negb (contains_openapi_endpoint previous e)) endpoints;
          op_removed := List.filter (λ e, negb (contains_openapi_endpoint endpoints e)) previous |}.

(** The chunks, up to the bound. *)
Fixpoint read_document (chunks : list (option string)) (document : string) : GatewayResult string :=
  match chunks with
  | [] => Ok document
  | None :: _ => Err ServiceOpenApiUnavailable
  | Some chunk :: chunks =>
      if SERVICE_OPENAPI_MAX_BYTES <? saturating_add (len document) (len chunk) then Err InvalidServiceOpenApi
      else read_document chunks (document +:+ chunk)
  end.
(** The upstream that is asked. *)
Definition openapi_upstream (service : ServiceResponse) (source_path : string) : GatewayResult string :=
  check? validate_openapi_source_path has_control source_path in
  let? upstream := ok_or (sr_upstream_base_url service) IncompleteService in
  let? url := ok_or (url_parse upstream) InvalidServiceUpstream in
  if negb (is_empty (url_username url)) || is_some (url_password url) then Err InvalidServiceUpstream else Ok upstream.
Definition openapi_answer (service : ServiceResponse) (source_path : string) (answer : HttpDocument) : GatewayResult ServiceOpenApiPreview :=
  match answer with
  | GetFailed => Err ServiceOpenApiUnavailable
  | GetAnswered status content_type content_length chunks =>
      if negb (in_range 200 299 status) then Err ServiceOpenApiUnavailable
      else if negb (contains_str (to_ascii_lowercase (default "" content_type)) "json") then Err InvalidServiceOpenApi
      else if is_some_and (λ n, SERVICE_OPENAPI_MAX_BYTES <? n) content_length then Err InvalidServiceOpenApi
      else let? document := read_document chunks "" in parse_service_openapi service source_path document
  end.

(** ** What is read *)

Lemma read_document_bound chunks doc doc' : len doc ≤ SERVICE_OPENAPI_MAX_BYTES → read_document chunks doc = Ok doc' →
  len doc' ≤ SERVICE_OPENAPI_MAX_BYTES ∧ ∃ parts, chunks = Some <$> parts ∧ doc' = foldl String.append doc parts.
Proof.
  revert doc. induction chunks as [|[chunk|] chunks IH]; intros doc Hd; cbn; [|case_match eqn:E; [done|]|done].
  - intros [= <-]. split; [done|]. by exists [].
  - intros Hr. apply Z.ltb_ge in E. unfold saturating_add in E. destruct (IH (doc +:+ chunk)) as [Hb (parts & -> & ->)]; [|done|].
    + rewrite len_append. unfold SERVICE_OPENAPI_MAX_BYTES, usize_max in *. lia.
    + split; [done|]. by exists (chunk :: parts).
Qed.

(** The endpoints of a path item, and of all of them. *)
Definition described (paths : JMap) (e : ServiceOpenApiEndpoint) : Prop :=
  ∃ path item method operation, (path, JObject item) ∈ paths ∧ method ∈ OPENAPI_METHODS ∧
    map_get method item = Some (JObject operation) ∧ e = operation_endpoint path method operation.
Lemma path_endpoint_fold path item methods acc es :
  try_fold (path_endpoint path item) acc methods = Ok es →
  ∀ e, e ∈ es ↔ e ∈ acc ∨ ∃ method operation, method ∈ methods ∧ map_get method item = Some (JObject operation) ∧
    e = operation_endpoint path method operation.
Proof.
  revert acc. induction methods as [|m methods IH]; intros acc; cbn.
  { intros [= <-] e. split; [by left|]. intros [H|(m & o & Hm & _)]; [done|]. by apply elem_of_nil in Hm. }
  destruct (path_endpoint path item acc m) as [acc'|] eqn:E; [|done]. intros Hf e. rewrite (IH _ Hf).
  unfold path_endpoint in E. destruct (map_get m item) as [op|] eqn:Em.
  - destruct op; cbn in E; try done. injection E as <-. rewrite elem_of_app, list_elem_of_singleton. split.
    + intros [[H| ->]|(m' & o & Hm & Hg & ->)]; [by left|right; exists m, members; repeat split; [by left|done]|].
      right. exists m', o. repeat split; [by right|done].
    + intros [H|(m' & o & Hm & Hg & ->)]; [by left; left|]. apply elem_of_cons in Hm as [->|Hm].
      * left. right. congruence.
      * right. eauto.
  - injection E as <-. split.
    + intros [H|(m' & o & Hm & Hg & ->)]; [by left|]. right. exists m', o. repeat split; [by right|done].
    + intros [H|(m' & o & Hm & Hg & ->)]; [by left|]. apply elem_of_cons in Hm as [->|Hm]; [congruence|]. right. eauto.
Qed.
Lemma path_endpoints_fold paths acc es :
  try_fold path_endpoints acc paths = Ok es → ∀ e, e ∈ es ↔ e ∈ acc ∨ described paths e.
Proof.
  revert acc. induction paths as [|[path v] paths IH]; intros acc; cbn [try_fold].
  { intros [= <-] e. split; [by left|]. intros [H|(p & i & m & o & Hp & _)]; [done|]. by apply elem_of_nil in Hp. }
  destruct (path_endpoints acc (path, v)) as [acc'|] eqn:E; [|done]. intros Hf e. rewrite (IH _ Hf).
  unfold path_endpoints in E. destruct v as [| | | | |item]; try done. cbn [as_object ok_or fst snd] in E. pose proof (path_endpoint_fold _ _ _ _ _ E) as Hp.
  rewrite Hp. split.
  - intros [[H|(m & o & Hm & Hg & ->)]|(p & i & m & o & Hin & Hm & Hg & ->)]; [by left| |].
    + right. exists path, item, m, o. repeat split; try done. by left.
    + right. exists p, i, m, o. repeat split; try done. by right.
  - intros [H|(p & i & m & o & Hin & Hm & Hg & ->)]; [by left; left|]. apply elem_of_cons in Hin as [Hin|Hin].
    + injection Hin as -> ->. left. right. eauto.
    + right. exists p, i, m, o. repeat split; done.
Qed.
Lemma compare_endpoints_total : total_cmp (λ _, True) compare_endpoints.
Proof.
  apply (total_then _ (λ l r, String.compare (endpoint_path_template l) (endpoint_path_template r))
    (λ l r, String.compare (endpoint_method l) (endpoint_method r))); apply total_string.
Qed.

Lemma parse_preview service path document p :
  parse_service_openapi service path document = Ok p →
  ∃ value paths, from_slice document = Some value ∧ value_get "paths" value ≫= as_object = Some paths ∧
    op_schema_hash p = schema_hash document ∧ op_source_path p = path ∧
    (∀ e, e ∈ op_endpoints p ↔ described paths e) ∧ StronglySorted (λ a b, compare_endpoints a b ≠ Gt) (op_endpoints p) ∧
    validate_openapi_endpoints method_parses (op_endpoints p) = Ok tt ∧
    op_added p = List.filter (λ e, negb (contains_openapi_endpoint (sr_openapi_endpoints service) e)) (op_endpoints p) ∧
    op_removed p = List.filter (λ e, negb (contains_openapi_endpoint (op_endpoints p) e)) (sr_openapi_endpoints service).
Proof.
  unfold parse_service_openapi. destruct (from_slice document) as [value|] eqn:Ev; [|done]. cbn [ok_or]. case_match; [done|].
  destruct (value_get "paths" value ≫= as_object) as [paths|] eqn:Ep; [|done]. cbn [ok_or].
  destruct (try_fold path_endpoints [] paths) as [es|] eqn:Ee; [|done].
  destruct (validate_openapi_endpoints method_parses (sort_by compare_endpoints es)) as [[]|] eqn:Hv; [|done]. intros [= <-]. cbn.
  exists value, paths. do 4 (split; [done|]). split; [|split; [apply sort_by_sorted, compare_endpoints_total|done]].
  intros e. rewrite (sort_by_perm compare_endpoints es). rewrite (path_endpoints_fold _ _ _ Ee).
  split; [intros [H0|H0]; [by apply elem_of_nil in H0|done]|by right].
Qed.

(** a preview is of a document of at most a mebibyte that the upstream served
    whole, and is identified by that document's hash; it lists exactly the
    operations the document describes, in order, each of them once; the added
    endpoints are those not known before and the removed ones those no longer
    described. *)
Theorem openapi_preview_exact service path answer p (Hp : openapi_answer service path answer = Ok p) :
  ∃ document value paths, len document ≤ SERVICE_OPENAPI_MAX_BYTES ∧
    (∃ status ct cl parts, answer = GetAnswered status ct cl (Some <$> parts) ∧ document = foldl String.append "" parts) ∧
    from_slice document = Some value ∧ value_get "paths" value ≫= as_object = Some paths ∧ op_schema_hash p = schema_hash document ∧
    (∀ e, e ∈ op_endpoints p ↔ described paths e) ∧ StronglySorted (λ a b, compare_endpoints a b ≠ Gt) (op_endpoints p) ∧
    NoDup ((λ e, endpoint_identity e) <$> op_endpoints p) ∧
    (∀ e, e ∈ op_added p ↔ e ∈ op_endpoints p ∧ contains_openapi_endpoint (sr_openapi_endpoints service) e = false) ∧
    (∀ e, e ∈ op_removed p ↔ e ∈ sr_openapi_endpoints service ∧ contains_openapi_endpoint (op_endpoints p) e = false).
Proof.
  unfold openapi_answer in Hp. destruct answer as [|status ct cl chunks]; [done|]. do 3 (case_match; [done|]).
  destruct (read_document chunks "") as [document|] eqn:Ed; [|done].
  destruct (read_document_bound chunks "" document) as [Hb (parts & -> & Hdoc)]; [by vm_compute|done|].
  destruct (parse_preview _ _ _ _ Hp) as (value & paths & Hv & Hps & Hh & _ & He & Hs & Hval & Ha & Hr).
  exists document, value, paths. split; [done|]. split; [by eexists _, _, _, parts|]. do 5 (split; [done|]).
  split; [by eapply validated_endpoints_distinct|]. rewrite Ha, Hr.
  split; intros e; rewrite !list_elem_of_In, filter_In, negb_true_iff; done.
Qed.
End documents.

Module OpenApiSample.
Definition document_json : Value :=
  JObject [("openapi", JString "3.1.0");
           ("paths", JObject [("/b", JObject [("post", JObject [("operationId", JString "createB")]); ("get", JObject [])]);
                              ("/a", JObject [("get", JObject [])])])].
Definition reader (s : string) : option Value := if String.eqb s "{document}" then Some document_json else None.
Definition answer : HttpDocument := GetAnswered 200 (Some "application/json") None [Some "{docu"; Some "ment}"].
Definition service : ServiceResponse :=
  {| historical_usage_repricing := None; sr_foundry := None; sr_access := {| authentication_profiles := None; skip_entra := false; entra := None; accessa := None;
       websocket := None; user_token_forwarding := None |}; sr_name := "billing";
     sr_project_id := None; sr_studio_service_id := None; sr_route_pattern := "/services/billing/*"; sr_upstream_base_url := Some "https://b";
     sr_health_check_path := None; sr_health_check_method := "GET"; sr_enabled := true; sr_allowed_methods := ["GET"];
     credential_configured := false; sr_timeout_ms := 1000; sr_max_body_bytes := 1000; sr_cost_mode := CostNone;
     sr_estimated_cost_usd := None; sr_pricing_rules := []; sr_openapi_source_path := None; sr_openapi_schema_hash := None;
     sr_openapi_synced_at := None; sr_openapi_endpoints := [operation_endpoint "/a" "get" []]; sr_endpoint_pricing_rules := [];
     sr_fallback_services := []; sr_source := SourceGateway; sr_sync_status := SyncLocal; sr_last_synced_at := None; sr_disabled_at := None;
     sr_created_at := 0; sr_updated_at := 0; sr_missing_runtime_fields := [] |}.
Lemma previewed : ∃ p, openapi_answer (λ _, true) reader id service "/openapi.json" answer = Ok p ∧
  (λ e, (endpoint_method e, endpoint_path_template e)) <$> op_endpoints p = [("GET", "/a"); ("GET", "/b"); ("POST", "/b")] ∧
  length (op_added p) = 2%nat ∧ op_removed p = [].
Proof. eexists. split; [vm_compute; reflexivity|done]. Qed.
End OpenApiSample.
Lemma openapi_preview_exact_witness :
  ∃ p document value paths, len document ≤ SERVICE_OPENAPI_MAX_BYTES ∧
    (∃ status ct cl parts, OpenApiSample.answer = GetAnswered status ct cl (Some <$> parts) ∧ document = foldl String.append "" parts) ∧
    OpenApiSample.reader document = Some value ∧ value_get "paths" value ≫= as_object = Some paths ∧ op_schema_hash p = document ∧
    (∀ e, e ∈ op_endpoints p ↔ described paths e).
Proof.
  destruct OpenApiSample.previewed as (p & Hp & _). exists p.
  destruct (openapi_preview_exact (λ _, true) OpenApiSample.reader id _ _ _ p Hp) as (document & value & paths & H). exists document, value, paths.
  naive_solver.
Defined.
