(* ===== verification/UsageCsv.v ===== *)
(** * Usage exports as CSV

    Models [csv_escape] and [usage_export_csv_body] of
    [crates/gateway-api/src/app.rs] with the exported rows of
    [crates/gateway-core/src/observability.rs].  A reader of comma-separated
    values, written from RFC 4180, says what a spreadsheet makes of the text.
    The texts of floats and of times are parameters. *)

From S2P Require Import Prelude.

Definition dquote : ascii := "034".
Definition newline : ascii := "010".
Definition carriage_return : ascii := "013".
Definition tab : ascii := "009".
Definition quote : ascii := "039".
Definition comma : ascii := "044".

Record UsageExportRow := {
  ur_request_id : string;
  ur_key_id : string;
  ur_project_id : option string;
  ur_route : string;
  ur_model : option string;
  ur_provider : string;
  ur_status : string;
  ur_status_code : Z;
  ur_latency_ms : Z;
  ur_input_tokens : Z;
  ur_output_tokens : Z;
  ur_total_tokens : Z;
  ur_estimated_cost_usd : option f64;
  ur_cost_source : option string;
  ur_cost_mode : option string;
  ur_pricing_rule_name : option string;
  ur_service_name : option string;
  ur_service_version : option string;
  ur_http_method : option string;
  ur_endpoint_path : option string;
  ur_endpoint_template : option string;
  ur_task_id : option string;
  ur_run_id : option string;
  ur_trace_id : option string;
  ur_fallback_count : Z;
  ur_guardrail_action_count : Z;
  ur_created_at : Z
}.

Definition signed_decimal (n : Z) : string := if n <? 0 then "-" +:+ decimal (- n) else decimal n.

(** ** One field *)

Definition formula_start (c : ascii) : bool :=
  Ascii.eqb c "=" || Ascii.eqb c "+" || Ascii.eqb c "-" || Ascii.eqb c "@" || Ascii.eqb c tab.
Definition guard_formula (value : string) : string :=
  match value with
  | String c _ => if formula_start c then String quote value else value
  | EmptyString => value
  end.
Fixpoint double_quotes (s : string) : string :=
  match s with
  | EmptyString => EmptyString
  | String c s => if Ascii.eqb c dquote then String c (String c (double_quotes s)) else String c (double_quotes s)
  end.
Definition csv_escape (value : string) : string :=
  let value := guard_formula value in
  if contains_byte comma value || contains_byte dquote value || contains_byte newline value || contains_byte carriage_return value
  then String dquote (double_quotes value +:+ String dquote "") else value.

(** ** Rows *)

Fixpoint join_commas (fields : list string) : string :=
  match fields with
  | [] => ""
  | [f] => f
  | f :: fields => f +:+ String comma (join_commas fields)
  end.
Definition csv_header : list string :=
  ["request_id"; "key_id"; "project_id"; "route"; "model"; "provider"; "status"; "status_code"; "latency_ms"; "input_tokens";
   "output_tokens"; "total_tokens"; "estimated_cost_usd"; "service_name"; "task_id"; "run_id"; "trace_id"; "fallback_count";
   "guardrail_action_count"; "created_at"; "cost_source"; "cost_mode"; "pricing_rule_name"; "http_method"; "endpoint_path";
   "endpoint_template"; "service_version"].

Section rows.
Variable f64_text : f64 → string.
Variable to_rfc3339 : Z → string.

Definition csv_fields (r : UsageExportRow) : list string :=
  [ur_request_id r; ur_key_id r; default "" (ur_project_id r); ur_route r; default "" (ur_model r); ur_provider r; ur_status r;
   signed_decimal (ur_status_code r); signed_decimal (ur_latency_ms r); signed_decimal (ur_input_tokens r);
   signed_decimal (ur_output_tokens r); signed_decimal (ur_total_tokens r); default "" (f64_text <$> ur_estimated_cost_usd r);
   default "" (ur_service_name r); default "" (ur_task_id r); default "" (ur_run_id r); default "" (ur_trace_id r);
   signed_decimal (ur_fallback_count r); signed_decimal (ur_guardrail_action_count r); to_rfc3339 (ur_created_at r);
   default "" (ur_cost_source r); default "" (ur_cost_mode r); default "" (ur_pricing_rule_name r); default "" (ur_http_method r);
   default "" (ur_endpoint_path r); default "" (ur_endpoint_template r); default "" (ur_service_version r)].
Definition csv_line (fields : list string) : string := join_commas fields +:+ String newline "".
Definition usage_export_csv_body (rows : list UsageExportRow) : string :=
  foldl (λ csv r, csv +:+ csv_line (map csv_escape (csv_fields r))) (csv_line csv_header) rows.
End rows.

(** ** Reading the text *)

Inductive csv_state : Type := FieldStart | Unquoted | Quoted | QuoteSeen.
(** Field, row and rest; a text ends with the end of a row. *)
Fixpoint read_csv (st : csv_state) (field : string) (row : list string) (s : string) : option (list (list string)) :=
  match s with
  | EmptyString => match st, row with FieldStart, [] => Some [] | _, _ => None end
  | String c s =>
      match st with
      | Quoted => if Ascii.eqb c dquote then read_csv QuoteSeen field row s else read_csv Quoted (field +:+ String c "") row s
      | _ =>
          if Ascii.eqb c comma then read_csv FieldStart "" (row ++ [field]) s
          else if Ascii.eqb c newline then cons (row ++ [field]) <$> read_csv FieldStart "" [] s
          else match st with
               | FieldStart => if Ascii.eqb c dquote then read_csv Quoted "" row s else read_csv Unquoted (String c "") row s
               | Unquoted => if Ascii.eqb c dquote then None else read_csv Unquoted (field +:+ String c "") row s
               | _ => if Ascii.eqb c dquote then read_csv Quoted (field +:+ String dquote "") row s else None
               end
      end
  end.

(** ** Lemmas *)

(** What ends a field. *)
Definition field_end (field : string) (row : list string) (c : ascii) (s : string) : option (list (list string)) :=
  if Ascii.eqb c comma then read_csv FieldStart "" (row ++ [field]) s
  else cons (row ++ [field]) <$> read_csv FieldStart "" [] s.
Definition plain (s : string) : bool := all_bytes (λ c, negb (Ascii.eqb c comma || Ascii.eqb c dquote || Ascii.eqb c newline)) s.

Lemma read_unquoted u field row s : plain u = true →
  read_csv Unquoted field row (u +:+ s) = read_csv Unquoted (field +:+ u) row s.
Proof.
  revert field. induction u as [|c u IH]; intros field Hu; cbn [String.append]; [by rewrite append_nil_r|].
  apply andb_prop in Hu as [Hc Hu]. rewrite !negb_orb in Hc. apply andb_prop in Hc as [Hc Hn]. apply andb_prop in Hc as [Hc Hd].
  apply negb_true_iff in Hc, Hd, Hn. cbn [read_csv]. rewrite Hc, Hn, Hd, IH by done. by rewrite append_assoc.
Qed.
Lemma read_quoted u field row s :
  read_csv Quoted field row (double_quotes u +:+ s) = read_csv Quoted (field +:+ u) row s.
Proof.
  revert field. induction u as [|c u IH]; intros field; cbn [double_quotes String.append]; [by rewrite append_nil_r|].
  destruct (Ascii.eqb_spec c dquote) as [->|Hc]; cbn [String.append read_csv].
  - cbn. rewrite IH. by rewrite append_assoc.
  - apply Ascii.eqb_neq in Hc. rewrite Hc, IH. by rewrite append_assoc.
Qed.
Lemma read_plain u row c s : plain u = true → c = comma ∨ c = newline →
  read_csv FieldStart "" row (u +:+ String c s) = field_end u row c s.
Proof.
  intros Hu Hc. destruct u as [|d u]; cbn [String.append].
  { destruct Hc as [-> | ->]; done. }
  pose proof Hu as Hu'. apply andb_prop in Hu as [Hd Hu]. rewrite !negb_orb in Hd. apply andb_prop in Hd as [Hd Hn].
  apply andb_prop in Hd as [Hd Hq]. apply negb_true_iff in Hd, Hq, Hn. cbn [read_csv]. rewrite Hd, Hn, Hq, read_unquoted by done.
  destruct Hc as [-> | ->]; done.
Qed.
Lemma contains_none c s : contains_byte c s = false ↔ all_bytes (λ d, negb (Ascii.eqb d c)) s = true.
Proof.
  induction s as [|d s IH]; [done|]. rewrite contains_byte_cons. cbn [all_bytes]. rewrite Ascii.eqb_sym.
  destruct (Ascii.eqb d c); cbn; [split; intros ?; discriminate|apply IH].
Qed.
Lemma all_bytes_and f g s : all_bytes f s = true → all_bytes g s = true → all_bytes (λ c, f c && g c) s = true.
Proof.
  induction s as [|c s IH]; [done|]. cbn. intros [-> Hf]%andb_prop [-> Hg]%andb_prop. by rewrite IH.
Qed.
Lemma all_bytes_ext f g s : (∀ c, f c = g c) → all_bytes f s = all_bytes g s.
Proof. intros E. induction s as [|c s IH]; [done|]. cbn. by rewrite E, IH. Qed.

(** Whatever a field holds, it is read back as written. *)
Lemma read_escaped v row c s : c = comma ∨ c = newline →
  read_csv FieldStart "" row (csv_escape v +:+ String c s) = field_end (guard_formula v) row c s.
Proof.
  intros Hc. unfold csv_escape. cbv zeta. destruct (_ || _) eqn:E.
  - cbn [String.append read_csv]. change (Ascii.eqb dquote comma) with false. change (Ascii.eqb dquote newline) with false.
    change (Ascii.eqb dquote dquote) with true. cbv iota. rewrite append_assoc, read_quoted. cbn [String.append read_csv].
    change (Ascii.eqb dquote dquote) with true. cbv iota. destruct Hc as [-> | ->]; done.
  - apply orb_false_iff in E as [E _]. apply orb_false_iff in E as [E Hn]. apply orb_false_iff in E as [Hk Hq].
    apply contains_none in Hk, Hq, Hn. apply read_plain; [|done]. unfold plain.
    rewrite (all_bytes_ext _ (λ d, (negb (Ascii.eqb d comma) && negb (Ascii.eqb d dquote)) && negb (Ascii.eqb d newline))).
    + by repeat apply all_bytes_and.
    + intros d. by rewrite !negb_orb.
Qed.
Lemma read_line (enc : string → string) (dec : string → string) fields row s :
  (∀ f row c s, f ∈ fields → c = comma ∨ c = newline →
    read_csv FieldStart "" row (enc f +:+ String c s) = field_end (dec f) row c s) →
  fields ≠ [] →
  read_csv FieldStart "" row (csv_line (map enc fields) +:+ s) = cons (row ++ map dec fields) <$> read_csv FieldStart "" [] s.
Proof.
  intros He Hne. unfold csv_line. rewrite append_assoc. cbn [String.append]. revert row He Hne.
  induction fields as [|f fields IH]; intros row He Hne; [done|]. destruct fields as [|g fields].
  - cbn [map join_commas]. rewrite He by (try (by right); constructor). done.
  - cbn [map] in IH |- *. cbn [join_commas]. rewrite !append_assoc. cbn [String.append]. rewrite He by (try (by left); constructor).
    unfold field_end. change (Ascii.eqb comma comma) with true. cbv iota. rewrite IH; [|..|done].
    + by rewrite <- app_assoc.
    + intros f' row' c' s' Hf. apply He. by right.
Qed.
Lemma plain_cell (f : string) row c s : f ∈ csv_header → c = comma ∨ c = newline →
  read_csv FieldStart "" row (f +:+ String c s) = field_end f row c s.
Proof.
  intros Hf. apply read_plain. revert f Hf. apply Forall_forall. repeat constructor.
Qed.
Lemma foldl_append_string {A} (f : A → string) l acc : foldl (λ csv r, csv +:+ f r) acc l = acc +:+ foldr (λ r s, f r +:+ s) "" l.
Proof.
  revert acc. induction l as [|a l IH]; intros acc; cbn; [by rewrite append_nil_r|]. rewrite IH. by rewrite append_assoc.
Qed.

(** whatever the recorded requests contain - commas, quotes, line breaks - a
    reader of comma-separated values gets the header and one row per request,
    each with that request's fields, where only a quote mark is put before a
    field that a spreadsheet would take for a formula; and so no cell it reads
    starts a formula. *)
Theorem csv_export_faithful f64_text to_rfc3339 (rows : list UsageExportRow) :
  read_csv FieldStart "" [] (usage_export_csv_body f64_text to_rfc3339 rows)
  = Some (csv_header :: map (λ r, map guard_formula (csv_fields f64_text to_rfc3339 r)) rows) ∧
  ∀ row cell c rest, row ∈ csv_header :: map (λ r, map guard_formula (csv_fields f64_text to_rfc3339 r)) rows → cell ∈ row →
    cell = String c rest → formula_start c = false.
Proof.
  split.
  - unfold usage_export_csv_body. rewrite foldl_append_string.
    rewrite <- (map_id csv_header) at 1. rewrite (read_line id id csv_header); [|by intros; apply plain_cell|done].
    rewrite map_id. cbn [app].
    assert (read_csv FieldStart "" [] (foldr (λ r s, csv_line (map csv_escape (csv_fields f64_text to_rfc3339 r)) +:+ s) "" rows)
      = Some (map (λ r, map guard_formula (csv_fields f64_text to_rfc3339 r)) rows)) as ->; [|done].
    induction rows as [|r rows IH]; [done|]. cbn [foldr].
    rewrite (read_line csv_escape guard_formula); [by rewrite IH|intros; by apply read_escaped|done].
  - intros row cell c rest Hrow Hcell ->. apply elem_of_cons in Hrow as [->|Hrow].
    + revert Hcell. assert (Forall (λ f, match f with String c _ => formula_start c = false | _ => True end) csv_header) as Hh
        by repeat constructor. intros Hc. rewrite Forall_forall in Hh. exact (Hh _ Hc).
    + apply list_elem_of_fmap in Hrow as (r & -> & _). apply list_elem_of_fmap in Hcell as (v & Hv & _).
      destruct v as [|d v]; [done|]. cbn in Hv. destruct (formula_start d) eqn:Ed.
      * by injection Hv as -> ->.
      * by injection Hv as -> ->.
Qed.
