(* ===== verification/AdminStore.v ===== *)
(** * What the admin API asks

    The questions that the handlers of [crates/gateway-api/src/app.rs] ask of
    the stores ([GatewayData] and the store traits of
    [crates/gateway-core/src]), of the identity provider and of the clock.  A
    row is what the handlers use of a stored record: its identifier or name
    and its JSON form. *)

From S2P Require Import Prelude SocketFrames StreamGuardrails Errors Routing RouteSettings Json GuardrailPolicy Policies Guardrails AuthAdmission VerificationCache VerificationFlight Auth EndpointAccess Foundry ServiceTypes ProviderConfigs Entra AuthSettings TrafficRequest ProxyContext ProviderSelection OpenApi UsageCsv Access KeyAdmin.

(** ** Programs that ask

    The handlers decide, ask the stores and other services, and decide again on
    what they are told.  A program is the tree of its questions; running it
    against a world, which may answer each question as it likes, gives its
    result and the trace of questions and answers.  With it a logic of what a
    program asks and when. *)

Module Programs.
Section programs.
Context {action : Type} {answer : action → Type}.

Inductive prog (A : Type) : Type :=
| Ret (a : A)
| Ask (op : action) (k : answer op → prog A).
#[global] Arguments Ret {A}.
#[global] Arguments Ask {A}.

Definition event : Type := {op : action & answer op}.
(** What the world answers may depend on everything that was asked before. *)
Definition world : Type := list event → ∀ op : action, answer op.

Fixpoint pbind {A B} (p : prog A) (f : A → prog B) : prog B :=
  match p with
  | Ret a => f a
  | Ask op k => Ask op (λ x, pbind (k x) f)
  end.
Definition ask (op : action) : prog (answer op) := Ask op Ret.

Fixpoint run {A} (w : world) (p : prog A) (t : list event) : A * list event :=
  match p with
  | Ret a => (a, t)
  | Ask op k => let x := w t op in run w (k x) (t ++ [existT op x])
  end.

Lemma run_bind {A B} w (p : prog A) (f : A → prog B) t :
  run w (pbind p f) t = let '(a, t') := run w p t in run w (f a) t'.
Proof. revert t. induction p as [a|op k IH]; intros t; cbn; [done|]. apply IH. Qed.

(** Every question [op] is asked after a trace [t] with [P t op], whatever was
    answered, and the result and the final trace satisfy [Q]. *)
Fixpoint ensures {A} (P : list event → action → Prop) (p : prog A) (Q : A → list event → Prop) (t : list event) : Prop :=
  match p with
  | Ret a => Q a t
  | Ask op k => P t op ∧ ∀ x, ensures P (k x) Q (t ++ [existT op x])
  end.

Lemma ensures_mono {A} P (p : prog A) (Q Q' : A → list event → Prop) t :
  ensures P p Q t → (∀ a t', Q a t' → Q' a t') → ensures P p Q' t.
Proof. intros H HQ. revert t H. induction p as [a|op k IH]; intros t; cbn; [apply HQ|]. intros [HP Hk]. split; [done|]. auto. Qed.
Lemma ensures_bind {A B} P (p : prog A) (f : A → prog B) Q t :
  ensures P (pbind p f) Q t ↔ ensures P p (λ a, ensures P (f a) Q) t.
Proof.
  revert t. induction p as [a|op k IH]; intros t; cbn; [done|]. split; (intros [HP Hk]; split; [done|]); intros x; by apply IH.
Qed.

(** In a run: the trace grows, each question was allowed when it was asked,
    and the result is as promised. *)
Lemma ensures_run {A} P (p : prog A) Q t w :
  ensures P p Q t →
  let '(a, t') := run w p t in
  Q a t' ∧ ∃ asked, t' = t ++ asked ∧ ∀ i op x, asked !! i = Some (existT op x) → P (t ++ take i asked) op.
Proof.
  revert t. induction p as [a|op k IH]; intros t; cbn.
  { intros HQ. split; [done|]. exists []. rewrite app_nil_r. split; [done|]. intros i op x Hi. by rewrite lookup_nil in Hi. }
  intros [HP Hk]. specialize (IH (w t op) _ (Hk (w t op))). destruct (run w (k (w t op)) _) as [a t'].
  destruct IH as [HQ (asked & -> & Ha)]. split; [done|]. exists (existT op (w t op) :: asked).
  split; [by rewrite <- app_assoc|]. intros [|i] op' x Hi.
  - apply (inj Some), (f_equal (λ e : event, projT1 e)) in Hi. cbn in Hi. subst op'. cbn. by rewrite app_nil_r.
  - cbn [take]. cbn in Hi. specialize (Ha i op' x Hi). by rewrite <- app_assoc in Ha.
Qed.

(** Each answer in a trace is the world's. *)
Lemma run_answers {A} (p : prog A) (t : list event) (w : world) i (e : event) : (length t ≤ i)%nat → (run w p t).2 !! i = Some e →
  e = existT (projT1 e) (w (take i (run w p t).2) (projT1 e)).
Proof.
  revert t. induction p as [a|op k IH]; intros t Hi; cbn.
  { intros He. apply lookup_lt_Some in He. lia. }
  destruct (decide (length t = i)%nat) as [<-|Hne].
  - assert (∃ asked, (run w (k (w t op)) (t ++ [existT op (w t op)])).2 = (t ++ [existT op (w t op)]) ++ asked) as [asked ->].
    { pose proof (ensures_run (λ _ _, True) (k (w t op)) (λ _ _, True) (t ++ [existT op (w t op)]) w) as He.
      destruct (run w _ _) as [a t']. destruct He as (_ & asked & -> & _); [|by exists asked]. clear. generalize (t ++ [existT op (w t op)]).
      induction (k (w t op)) as [a|op' k' IH']; intros u; cbn; auto. }
    rewrite <- app_assoc, lookup_app_r, Nat.sub_diag, take_app_length by lia. by intros [= <-].
  - intros He. apply IH; [|done]. rewrite length_app. cbn. lia.
Qed.
End programs.
#[global] Arguments prog {action} answer A.
#[global] Arguments event {action} answer.
#[global] Arguments world {action} answer.

Declare Scope prog_scope.
Delimit Scope prog_scope with prog.
Notation "'let!' x ':=' m 'in' k" := (pbind m (λ x, k%prog)) (at level 10, x name, m at level 100, k at level 200) : prog_scope.
End Programs.
Export Programs.

(** ** Questions *)

Record Row := { row_id : string; row_json : option Value }.

(** ** Requests that only the stores look into *)

Record GuardrailAdminCreateRequest := {
  gc_name : string;
  gc_description : string;
  gc_endpoint_url : string;
  gc_modes : list GuardrailMode;
  gc_default_on : bool;
  gc_failure_policy : GuardrailFailurePolicy;
  gc_timeout_ms : option Z;
  gc_bearer_token : option string;
  gc_config_schema : Value;
  gc_runtime_config : Value;
  gc_enabled : bool
}.
Record GuardrailAdminPatchRequest := {
  gp_description : option string;
  gp_endpoint_url : option string;
  gp_modes : option (list GuardrailMode);
  gp_default_on : option bool;
  gp_failure_policy : option GuardrailFailurePolicy;
  gp_timeout_ms : option Z;
  gp_bearer_token : option (option string);
  gp_config_schema : option Value;
  gp_runtime_config : option Value;
  gp_enabled : option bool
}.
Record LiteLlmCredentialMappingUpsertRequest := {
  lm_scope : LiteLlmCredentialMappingScope;
  lm_target_id : string;
  lm_enabled : bool;
  lm_credential : option string
}.
Record UsageQuery := {
  uq_from : option Z;
  uq_to : option Z;
  uq_project_id : option string;
  uq_key_id : option string;
  uq_route : option string;
  uq_provider : option string;
  uq_service : option string;
  uq_request_id : option string;
  uq_method : option string;
  uq_endpoint : option string;
  uq_task_id : option string;
  uq_run_id : option string;
  uq_model : option string;
  uq_status : option string;
  uq_status_code : option Z;
  uq_trace_id : option string;
  uq_min_cost_usd : option f64;
  uq_interval : option string;
  uq_limit : option Z;
  uq_offset : option Z;
  uq_cursor : option string;
  uq_stream : option bool;
  uq_timeseries_limit : option Z;
  uq_timeseries_offset : option Z;
  uq_service_timeseries_limit : option Z;
  uq_service_timeseries_offset : option Z;
  uq_breakdown_limit : option Z;
  uq_breakdown_offset : option Z;
  uq_sort_by : option string;
  uq_sort_order : option string
}.
Inductive UsageBreakdownDimension : Type := ByKey | ByProject | ByModel | ByProvider | ByService | ByTask | ByEndpoint.
Inductive UsageSectionKind : Type :=
  SectionProjects | SectionKeys | SectionServices | SectionProjectKeyServices | SectionEndpoints | SectionProviders | SectionModels
  | SectionTasks | SectionTimeseries | SectionServiceTimeseries | SectionUnusedKeys.
Inductive RouteFamily : Type := OpenAiRoutes | AnthropicRoutes.
Inductive KeyLifecycleAction : Type := LifecycleRevoke | LifecycleDisable | LifecycleEnable.
(** The difference between an import and the registered services. *)
Record ServiceImportValidationIssue := { is_service_name : string; is_field : string; is_message : string }.
Record ServiceImportDiff := {
  di_added : list string;
  di_changed : list string;
  di_removed : list string;
  di_invalid : list ServiceImportValidationIssue
}.

(** ** Changes *)

Inductive mutation : Type :=
| PatchMember (member_id : string) (patch : MemberPatchRequest)
| UpsertServiceMembership (member_id service_name : string) (role : ServiceMemberRole)
| DeleteServiceMembership (member_id service_name : string)
| UpsertProjectMembership (member_id project_id : string) (role : ServiceMemberRole)
| DeleteProjectMembership (member_id project_id : string)
| CreateManagedIdentity (request : ManagedIdentityCreateRequest)
| PatchManagedIdentity (identity_id : string) (patch : ManagedIdentityPatchRequest)
| DeleteManagedIdentity (identity_id : string)
| CreateManagedIdentityProject (request : ManagedIdentityProjectCreateRequest)
| PatchManagedIdentityProject (identity_id : string) (patch : ManagedIdentityProjectPatchRequest)
| DeleteManagedIdentityProject (identity_id : string)
| CreateHttpGuardrail (request : GuardrailAdminCreateRequest)
| PatchAdminGuardrail (name : string) (request : GuardrailAdminPatchRequest)
| DeleteAdminGuardrail (name : string)
| CreateAdminKey (request : AdminKeyCreate) (material : VirtualKeyMaterial)
| PatchAdminKey (key_id : string) (patch : AdminKeyPatch)
| KeyLifecycle (key_id : string) (action : KeyLifecycleAction)
| UpsertPolicyLayer (request : AdminPolicyLayerUpsert)
| DeletePolicyLayer (layer_id : string)
| CreateProject (request : ProjectCreateRequest)
| PatchProject (project_id : string) (patch : ProjectPatchRequest)
| DeleteProject (project_id : string)
| RotateOperatorToken (current_raw_token : string) (new_raw_token : string) (now : Z)
| CreateProviderConfig (request : ProviderConfigCreateRequest)
| PatchProviderConfig (provider_id : string) (patch : ProviderConfigPatchRequest)
| DeleteProviderConfig (provider_id : string)
| SetProviderConfigEnabled (provider_id : string) (enabled : bool)
| UpsertLiteLlmCredentialMapping (request : LiteLlmCredentialMappingUpsertRequest)
| DeleteLiteLlmCredentialMapping (mapping_id : string)
| SetLiteLlmCredentialMappingEnabled (mapping_id : string) (enabled : bool)
| PatchLiteLlmPassthroughSettings (patch : LiteLlmPassthroughSettingsPatchRequest)
| SetRouteIdentity (setting : RouteIdentitySetting)
| SetRouteEnabled (family : RouteFamily) (route_id : string) (enabled : bool)
| SetRouteMode (family : RouteFamily) (route_id : string) (mode : OpenAiRouteMode)
| PatchRouteConfig (family : RouteFamily) (route_id : string) (request : OpenAiRouteConfigPatchRequest)
| CreateService (request : ServiceCreateRequest)
| PatchService (service_name : string) (patch : ServicePatchRequest)
| DeleteService (service_name : string)
| SetServiceEnabled (service_name : string) (enabled : bool)
| ImportStudioService (request : StudioServiceImportRequest)
| SyncStudioService (request : StudioServiceImportRequest)
| PatchStudioConnectionSettings (patch : StudioConnectionPatchRequest)
| PatchGatewayAuthSettings (patch : GatewayAuthSettingsPatchRequest)
| UpsertProviderHealthState (state : ProviderHealthState)
| ActivateServiceRegistryImport (source : string) (diff : ServiceImportDiff) (services : list StudioServiceImportRequest) (rollback_of : option Z).

(** What a change answers: a record, a record if there was one, whether there
    was one, or nothing. *)
Inductive shape : Type := One | Maybe | Flag | Done.
Definition shape_of (m : mutation) : shape :=
  match m with
  | PatchMember _ _ | PatchManagedIdentity _ _ | PatchManagedIdentityProject _ _ | PatchAdminKey _ _ | KeyLifecycle _ _
  | PatchProject _ _ | PatchProviderConfig _ _ | SetProviderConfigEnabled _ _ | SetLiteLlmCredentialMappingEnabled _ _
  | SetRouteEnabled _ _ _ | SetRouteMode _ _ _ | PatchRouteConfig _ _ _ | PatchService _ _ | SetServiceEnabled _ _ => Maybe
  | DeleteServiceMembership _ _ | DeleteProjectMembership _ _ | DeleteManagedIdentity _ | DeleteManagedIdentityProject _
  | DeletePolicyLayer _ | DeleteProject _ | DeleteProviderConfig _ | DeleteLiteLlmCredentialMapping _ | DeleteService _ => Flag
  | DeleteAdminGuardrail _ | PatchStudioConnectionSettings _ | PatchGatewayAuthSettings _ => Done
  | _ => One
  end.
Definition outcome_type (s : shape) : Type :=
  match s with One => Row | Maybe => option Row | Flag => bool | Done => unit end.

(** ** Reads *)

Inductive row_read : Type :=
| GetMember (member_id : string)
| GetAdminKey (key_id : string)
| GetProject (project_id : string)
| GetProviderConfig (provider_id : string)
| KeyUsageSummary (key_id : string)
| ServiceSyncStatusOf (service_name : string).
(** Reads whose result is only sent on. *)
Inductive value_read : Type :=
| ListManagedIdentities
| ListManagedIdentityProjects
| ListAdminGuardrailDefinitions
| GuardrailExecutionEvents (query : Value)
| GuardrailExecutionSummary (query : Value)
| ListAuditEvents (query : Value)
| ListPolicyLayers
| ListAdminKeys
| ProjectUsageSummary (project_id : string)
| ListProjects
| ListProviderConfigs
| ListLiteLlmCredentialMappings
| GetLiteLlmPassthroughSettings
| ListRouteIdentities
| ListRouteSettings (family : RouteFamily)
| TrafficHistory (query : TrafficQuery)
| UsageSummaryOf (query : UsageQuery)
| UsageDashboard (query : UsageQuery)
| UsageSection (query : UsageQuery) (section : UsageSectionKind)
| UsageTimeseries (query : UsageQuery)
| UsageBreakdownOf (query : UsageQuery) (dimension : UsageBreakdownDimension)
| UsageFilterValues (query : UsageQuery) (field : string) (q : option string)
| UnusedKeys (query : UsageQuery)
| UsageStatusCodes (query : UsageQuery)
| UsageVersionTransitions (query : UsageQuery)
| ProviderHealth (query : UsageQuery)
| ListProviderHealthStates
| ListServiceRegistrySnapshots.

(** A stored version of the registered services; they are kept as JSON, which
    may no longer be read. *)
Record ServiceRegistrySnapshot := { sn_diff : ServiceImportDiff; sn_services : option (list StudioServiceImportRequest) }.
Record UsageExport := { ex_summary : option Value; ex_rows : list UsageExportRow }.
Record UsageEventsPage := {
  pg_rows : list UsageExportRow;
  pg_limit : Z;
  pg_offset : Z;
  pg_has_more : bool;
  pg_next_cursor : option string;
  pg_snapshot_cursor : option string
}.
(** An export that is sent page by page. *)
Record UsageExportStream := {
  es_query : UsageQuery;
  es_page : option UsageEventsPage;
  es_prefix : option string;
  es_csv : bool;
  es_emitted_rows : bool;
  es_done : bool;
  es_finished : bool
}.
(** What an upstream answers a health check. *)
Inductive HealthAnswer : Type := HealthStatus (status : Z) | HealthTimeout | HealthFailure.
Record HealthProbe := { hp_answer : HealthAnswer; hp_elapsed_ms : Z }.
(** A pool of permits: analytics (4), exports (2), live viewers (32). *)
Inductive permits : Type := AnalyticsPermits | ExportPermits | ViewerPermits.
Record WorkloadBinding := { wb_id : string; wb_required_role : string }.

Inductive action : Type :=
| UtcNow
| RandomOpaqueToken
| VerifyOperatorToken (raw : string) (now : Z)
| ResolvePortalSession (session_hash : string) (now : Z)
| VerifyOwnerToken (authorization : option string) (now : Z)
| AuthenticateKey (authorization : string) (now : Z)
| Mutate (m : mutation)
| RecordAudit (event : AuditEventCreate)
| ReadRow (r : row_read)
| ReadValue (r : value_read)
| ReadMembers
| ReadServiceMemberships (member_id : string)
| ReadProjectMemberships (member_id : string)
| MemberServiceRole (member_id service_name : string)
| MemberProjectRole (member_id project_id : string)
| WorkloadServiceBinding (tenant client : string) (object : option string) (service_name : string) (roles : list string)
| WorkloadProjectBinding (tenant client : string) (object : option string) (project_id : string) (roles : list string)
| ReadService (service_name : string)
| ReadAllServices
| ReadStudioConnection
| ReadGatewayAuthSettings
| ReadGuardrailDefinitions
| ReadGuardrailPolicy (key_id : string)
| ReadEffectivePolicy (key_id : string) (team_id : option string) (route : Route) (model : option string)
| ReadUsageEvents (query : UsageQuery)
| ReadUsageExport (query : UsageQuery)
| ReadUsageExportPage (query : UsageQuery)
| TryAcquire (pool : permits)
| TimedOut (seconds : Z)
| ReadDebugBundle (request_id : string)
| ReadFoundryConfig (provider_id : string)
| ReadHealthTargets
| ReadRegistrySnapshot (version : Z)
| GenerateKeyMaterial
| GenerateOperatorToken
| AuthKeyHeader
| UpdateAuthRuntime (config : GatewayAuthRuntimeConfig)
| CheckFoundryConnection (config : FoundryRuntimeConfig)
| GetDocument (base_url path : string)
| FetchStudioServices (base_url : string) (token : option string)
| ProbeHealth (head : bool) (base_url : string) (path : option string) (credential : option string)
| BuildHealthClient
| CreateLoginTransaction (transaction : OidcLoginTransaction)
| ConsumeLoginTransaction (state_hash binding_hash : string) (now : Z)
| AuthorizationUrl (state nonce pkce_challenge : string)
| ExchangeCode (code pkce_verifier : string) (now : Z)
| UpsertOidcMember (identity : EntraIdentityContext) (policy : PortalAdminBootstrapPolicy) (now : Z)
| CreatePortalSession (session : NewPortalSession)
| DeletePortalSession (session_hash : string)
| EndSessionUrl.

Definition answer (op : action) : Type :=
  match op with
  | UtcNow => Z
  | RandomOpaqueToken => string
  | VerifyOperatorToken _ _ => GatewayResult OperatorAuthorization
  | ResolvePortalSession _ _ => GatewayResult (option StoredPortalSession)
  | VerifyOwnerToken _ _ => GatewayResult EntraIdentityContext
  | AuthenticateKey _ _ => GatewayResult AuthenticatedKey
  | Mutate m => GatewayResult (outcome_type (shape_of m))
  | RecordAudit _ => GatewayResult unit
  | ReadRow _ => GatewayResult (option Row)
  | ReadValue _ => GatewayResult (option Value)
  | ReadMembers => GatewayResult (list PortalMember)
  | ReadServiceMemberships _ => GatewayResult (list ServiceMembership)
  | ReadProjectMemberships _ => GatewayResult (list ProjectMembership)
  | MemberServiceRole _ _ | MemberProjectRole _ _ => GatewayResult (option ServiceMemberRole)
  | WorkloadServiceBinding _ _ _ _ _ | WorkloadProjectBinding _ _ _ _ _ => GatewayResult (option WorkloadBinding)
  | ReadService _ => GatewayResult (option ServiceResponse)
  | ReadAllServices => GatewayResult (list ServiceResponse)
  | ReadStudioConnection => GatewayResult (option StoredStudioConnection)
  | ReadGatewayAuthSettings => GatewayResult (option StoredGatewayAuthSettings)
  | ReadGuardrailDefinitions => GatewayResult (list GuardrailDefinition)
  | ReadGuardrailPolicy _ => GatewayResult GuardrailPolicy
  | ReadEffectivePolicy _ _ _ _ => GatewayResult EffectivePolicy
  | ReadUsageEvents _ | ReadUsageExportPage _ => GatewayResult UsageEventsPage
  | ReadUsageExport _ => GatewayResult UsageExport
  | TryAcquire _ | TimedOut _ | BuildHealthClient => bool
  | ReadDebugBundle _ => GatewayResult (option DebugBundle)
  | ReadFoundryConfig _ => GatewayResult (option FoundryRuntimeConfig)
  | ReadHealthTargets => GatewayResult (list ProviderHealthCheckTarget)
  | ReadRegistrySnapshot _ => GatewayResult (option ServiceRegistrySnapshot)
  | GenerateKeyMaterial => GatewayResult VirtualKeyMaterial
  | GenerateOperatorToken => GatewayResult string
  | AuthKeyHeader => GatewayResult string
  | UpdateAuthRuntime _ => GatewayResult unit
  | CheckFoundryConnection _ => (Value * Value)%type
  | GetDocument _ _ => HttpDocument
  | FetchStudioServices _ _ => GatewayResult (list Value)
  | ProbeHealth _ _ _ _ => HealthProbe
  | CreateLoginTransaction _ => GatewayResult unit
  | ConsumeLoginTransaction _ _ _ => GatewayResult (option OidcLoginTransaction)
  | AuthorizationUrl _ _ _ => GatewayResult string
  | ExchangeCode _ _ _ => GatewayResult EntraIdentityContext
  | UpsertOidcMember _ _ _ => GatewayResult PortalMember
  | CreatePortalSession _ => GatewayResult unit
  | DeletePortalSession _ => GatewayResult bool
  | EndSessionUrl => GatewayResult string
  end.
Abbreviation handler := (prog answer).
Abbreviation history := (list (event answer)).
Abbreviation ask := (@Programs.ask action answer).
