(* ===== verification/AdminAuth.v ===== *)
(** * Authorization in the admin API

    Models the authorization helpers of [crates/gateway-api/src/app.rs]:
    operator tokens and portal sessions with their CSRF token
    ([require_admin_scopes]), owners of services and projects
    ([require_owner_service_access], [require_owner_project_access]), the
    cookies, [error_response] and [record_admin_audit]; and [token_hash],
    [constant_time_eq] and [safe_return_to] of
    [crates/gateway-api/src/portal.rs].  Debug events are left out. *)

From S2P Require Import Prelude SocketFrames StreamGuardrails Errors Routing RouteSettings Json GuardrailPolicy Policies Guardrails AuthAdmission VerificationCache VerificationFlight Auth EndpointAccess Foundry ServiceTypes ProviderConfigs Headers Entra AuthSettings TrafficRequest ProxyContext ProviderSelection OpenApi UsageCsv Access KeyAdmin AdminStore.
#[local] Open Scope prog_scope.

(** ** Responses *)

Inductive ResponseContent : Type :=
| NoBody
| JsonBody (value : option Value)
| ErrorJson (body : ErrorBody)
| TextBody (text : string)
| ExportBody (stream : UsageExportStream)
| TrafficBody (cursor : option string) (query : TrafficQuery).
Record Response := { rp_status : Z; rp_headers : list (string * string); rp_body : ResponseContent }.
Definition json_response (v : option Value) : Response := {| rp_status := 200; rp_headers := []; rp_body := JsonBody v |}.
Definition status_response (status : Z) : Response := {| rp_status := status; rp_headers := []; rp_body := NoBody |}.
Definition NOT_FOUND : Response := status_response 404.
Definition NO_CONTENT : Response := status_response 204.
Definition created_response (v : option Value) : Response := {| rp_status := 201; rp_headers := []; rp_body := JsonBody v |}.
Definition with_response_header (name value : string) (r : Response) : Response :=
  {| rp_status := rp_status r; rp_headers := rp_headers r ++ [(name, value)]; rp_body := rp_body r |}.
Definition no_store (value : string) (r : Response) : Response := with_response_header "cache-control" value r.

(** ** Tokens *)

Fixpoint byte_difference (acc : Z) (l r : string) : Z :=
  match l, r with
  | String a l, String b r => byte_difference (Z.lor acc (Z.lxor (byte_val a) (byte_val b))) l r
  | _, _ => acc
  end.
Definition constant_time_eq (l r : string) : bool :=
  if negb (len l =? len r) then false else byte_difference 0 l r =? 0.

Definition safe_return_to (value : option string) : string :=
  default "/admin-ui" (opt_filter (λ v, starts_with v "/admin-ui" && negb (starts_with v "//")) value).

Definition PORTAL_SESSION_COOKIE : string := "relayna_portal_session".
Definition PORTAL_CSRF_COOKIE : string := "relayna_portal_csrf".
Definition PORTAL_LOGIN_COOKIE : string := "relayna_portal_login".

Section requests.
Context {H : Type} `{HeaderMap H}.
(** SHA-256, encoded for URLs. *)
Variable token_hash : string → string.

Definition request_id_from_headers (h : H) : string := default "unknown" (header_value h "x-request-id").
Definition error_response (h : H) (e : GatewayError) : Response :=
  let b := body e (request_id_from_headers h) in
  {| rp_status := status_code e;
     rp_headers := match env_retry_after_seconds (error b) with Some s => [("retry-after", decimal s)] | None => [] end;
     rp_body := ErrorJson b |}.

(** The first cookie of the name that has a value. *)
Definition named_cookie (name cookie : string) : option string :=
  match split_once "=" (trim cookie) with
  | Some (n, v) => if String.eqb n name && negb (is_empty v) then Some v else None
  | None => None
  end.
Fixpoint find_cookie (name : string) (cookies : list string) : option string :=
  match cookies with
  | [] => None
  | c :: cookies => match named_cookie name c with Some v => Some v | None => find_cookie name cookies end
  end.
Definition cookie_value (h : H) (name : string) : option string :=
  header_value h "cookie" ≫= λ cookies, find_cookie name (split_on ";" cookies).

Definition bearer_token (h : H) : GatewayResult string :=
  check? validate_credential_headers (λ n, get_all n h) to_str "x-relayna-key" in
  let? authorization := ok_or (header_value h "authorization") MissingAuthorization in
  ok_or (opt_filter (λ t, negb (is_empty t)) (trim <$> strip_prefix "Bearer " authorization)) MalformedAuthorization.

Definition forwarded_for (h : H) : option string :=
  let raw := match get_all "x-forwarded-for" h with v :: _ => Some v | [] => head (get_all "x-real-ip" h) end in
  opt_filter (λ v, negb (is_empty v)) ((λ v, trim (before "," v)) <$> (raw ≫= to_str)).

(** ** Early returns *)

Definition or_return {A} (m : handler (Prelude.result Response A)) (k : A → handler Response) : handler Response :=
  let! r := m in match r with Ok a => k a | Err response => Ret response end.
Definition or_error {A} (h : H) (m : handler (GatewayResult A)) (k : A → handler Response) : handler Response :=
  let! r := m in match r with Ok a => k a | Err e => Ret (error_response h e) end.
Definition fails {A} (h : H) (e : GatewayError) : handler (Prelude.result Response A) := Ret (Err (error_response h e)).

(** ** Sessions *)

Definition csrf_matches (h : H) (s : StoredPortalSession) : bool :=
  is_some_and (λ csrf, constant_time_eq (ss_csrf_hash s) (token_hash csrf))
    (opt_filter (λ v, negb (is_empty v)) (header_value h "x-csrf-token")).
Definition require_portal_session (h : H) (require_csrf : bool) : handler (Prelude.result Response StoredPortalSession) :=
  match cookie_value h PORTAL_SESSION_COOKIE with
  | None => fails h InvalidPortalSession
  | Some raw_session =>
      let! now := ask UtcNow in
      let! found := ask (ResolvePortalSession (token_hash raw_session) now) in
      match found with
      | Err e => fails h e
      | Ok None => fails h InvalidPortalSession
      | Ok (Some session) =>
          if require_csrf && negb (csrf_matches h session) then fails h InvalidCsrfToken else Ret (Ok session)
      end
  end.
Definition require_active_portal_session (h : H) : handler (Prelude.result Response StoredPortalSession) :=
  let! r := require_portal_session h false in
  match r with
  | Err response => Ret (Err response)
  | Ok session =>
      match pm_status (ss_member session) with
      | MemberActive => Ret (Ok session)
      | MemberPending => fails h PendingPortalMember
      | MemberBlocked => fails h BlockedPortalMember
      end
  end.

(** ** Administrators *)

Definition session_actor (s : StoredPortalSession) : OperatorAuthorization :=
  let m := ss_member s in
  {| oa_token_id := pm_id m; oa_member_id := Some (pm_id m); oa_token_prefix := default "entra-member" (pm_email m);
     oa_roles := pm_roles m; oa_scopes := default_operator_scopes |}.
Definition require_admin_scopes (h : H) (required : list string) : handler (Prelude.result Response OperatorAuthorization) :=
  if contains_key "authorization" h then
    match bearer_token h with
    | Err e => fails h e
    | Ok token =>
        let! now := ask UtcNow in
        let! verified := ask (VerifyOperatorToken token now) in
        match verified with
        | Err e => fails h e
        | Ok authorization =>
            if forallb (has_scope authorization) required then Ret (Ok authorization) else fails h InsufficientOperatorScope
        end
    end
  else
    let! r := require_portal_session h true in
    match r with
    | Err response => Ret (Err response)
    | Ok session =>
        match pm_status (ss_member session) with
        | MemberPending => fails h PendingPortalMember
        | MemberBlocked => fails h BlockedPortalMember
        | MemberActive =>
            if negb (is_admin (ss_member session)) then fails h InsufficientPortalAccess
            else Ret (Ok (session_actor session))
        end
    end.
Definition require_admin_scope (h : H) (required : string) : handler (Prelude.result Response OperatorAuthorization) :=
  require_admin_scopes h [required].
Definition require_admin (h : H) : handler (Prelude.result Response OperatorAuthorization) := require_admin_scope h SCOPE_OPERATORS_MANAGE.

(** ** Owners *)

Definition client_id_of (i : EntraIdentityContext) : option string :=
  match app_id i with Some v => Some v | None => authorized_party i end.
(** The two accesses differ in what they look up. *)
Definition require_owner_access (owner_verifier : bool) (h : H) (role_of : string → action)
    (as_role : ∀ m, answer (role_of m) → GatewayResult (option ServiceMemberRole))
    (binding_of : string → string → option string → list string → action)
    (as_binding : ∀ t c o r, answer (binding_of t c o r) → GatewayResult (option WorkloadBinding)) :
    handler (Prelude.result Response ServiceMemberRole) :=
  if is_some (cookie_value h PORTAL_SESSION_COOKIE) then
    let! r := require_active_portal_session h in
    match r with
    | Err response => Ret (Err response)
    | Ok session =>
        let! found := ask (role_of (pm_id (ss_member session))) in
        match as_role _ found with
        | Ok (Some role) => Ret (Ok role)
        | Ok None => fails h InsufficientPortalAccess
        | Err e => fails h e
        end
    end
  else if negb owner_verifier then fails h MissingEntraAuthorization
  else
    let! now := ask UtcNow in
    let! verified := ask (VerifyOwnerToken (header_value h "authorization") now) in
    match verified with
    | Err e => fails h e
    | Ok identity =>
        match client_id_of identity with
        | None => fails h InvalidEntraToken
        | Some client =>
            let! found := ask (binding_of (tenant_id identity) client (object_id identity) (roles identity)) in
            match as_binding _ _ _ _ found with
            | Ok (Some _) => Ret (Ok RoleViewer)
            | Ok None => fails h InsufficientPortalAccess
            | Err e => fails h e
            end
        end
    end.
Definition require_owner_service_access (owner_verifier : bool) (h : H) (service_name : string) :
    handler (Prelude.result Response ServiceMemberRole) :=
  require_owner_access owner_verifier h (λ m, MemberServiceRole m service_name) (λ _ r, r)
    (λ t c o r, WorkloadServiceBinding t c o service_name r) (λ _ _ _ _ r, r).
Definition require_owner_project_access (owner_verifier : bool) (h : H) (project_id : string) :
    handler (Prelude.result Response ServiceMemberRole) :=
  require_owner_access owner_verifier h (λ m, MemberProjectRole m project_id) (λ _ r, r)
    (λ t c o r, WorkloadProjectBinding t c o project_id r) (λ _ _ _ _ r, r).

(** ** Audit *)

Definition audit_event (h : H) (actor : OperatorAuthorization) (action target_type : string) (target_id : option string)
    (before after : option Value) : AuditEventCreate :=
  {| ae_actor_token_id := if is_none (oa_member_id actor) then Some (oa_token_id actor) else None;
     ae_actor_member_id := oa_member_id actor; ae_action := action; ae_target_type := target_type; ae_target_id := target_id;
     ae_before := before; ae_after := after; ae_request_id := request_id_from_headers h; ae_ip := forwarded_for h;
     ae_user_agent := header_value h "user-agent" |}.
(** The response of a change once it is recorded. *)
Definition record_admin_audit (h : H) (actor : OperatorAuthorization) (action target_type : string) (target_id : option string)
    (before after : option Value) (response : Response) : handler Response :=
  or_error h (ask (RecordAudit (audit_event h actor action target_type target_id before after))) (λ _, Ret response).
End requests.

(** ** The comparison is equality *)

Lemma lxor_bytes a b : 0 ≤ Z.lxor (byte_val a) (byte_val b).
Proof. apply Z.lxor_nonneg. unfold byte_val. lia. Qed.
Lemma byte_difference_acc l r acc : 0 ≤ acc → byte_difference acc l r = 0 → acc = 0.
Proof.
  revert r acc. induction l as [|a l IH]; intros [|b r] acc Ha; cbn; try done. intros E.
  apply IH in E; [by apply Z.lor_eq_0_iff in E as [-> _]|]. apply Z.lor_nonneg. split; [done|]. apply lxor_bytes.
Qed.
Lemma byte_difference_eq l r : len l = len r → byte_difference 0 l r = 0 → l = r.
Proof.
  revert r. induction l as [|a l IH]; intros [|b r] Hl; cbn; try done. intros E.
  pose proof (byte_difference_acc _ _ _ (lxor_bytes a b) E) as Hx.
  apply Z.lxor_eq in Hx. rewrite Hx, Z.lxor_nilpotent in E. f_equal; [by apply byte_val_inj|]. apply IH; [|done].
  unfold len in *. cbn in Hl. lia.
Qed.
Theorem constant_time_eq_exact l r : constant_time_eq l r = String.eqb l r.
Proof.
  unfold constant_time_eq. destruct (Z.eqb_spec (len l) (len r)) as [Hl|Hl]; cbn [negb].
  - destruct (String.eqb_spec l r) as [->|Hn].
    + assert (byte_difference 0 r r = 0) as ->; [|done]. clear. induction r as [|a r IH]; [done|]. cbn.
      by rewrite Z.lxor_nilpotent.
    + destruct (Z.eqb_spec (byte_difference 0 l r) 0) as [E|]; [|done]. by apply byte_difference_eq in E.
  - symmetry. apply String.eqb_neq. by intros ->.
Qed.
