(* ===== verification/AdminApi.v ===== *)
(** * Handlers of the admin API

    Models the handlers of [crates/gateway-api/src/app.rs] under
    [/admin-ui/admin] for members, managed identities, guardrails, keys,
    policies, projects and the operator token: each is the program of its
    questions, with the scopes it requires, its early returns and its audit
    events.  The JSON forms of stored records are parameters. *)

From S2P Require Import Prelude SocketFrames StreamGuardrails Errors Routing RouteSettings Json GuardrailPolicy Policies OutputLimits Guardrails AuthAdmission VerificationCache VerificationFlight Auth EndpointAccess Foundry ServiceTypes ServicePricing ProviderConfigs Headers Entra AuthSettings TrafficRequest ProxyContext ProviderSelection OpenApi UsageCsv Access KeyAdmin AdminStore AdminAuth.
#[local] Open Scope prog_scope.

(** [serde_json::to_value] of the records that the handlers build on. *)
Class ApiJson := {
  member_json : PortalMember → option Value;
  service_membership_json : ServiceMembership → option Value;
  project_membership_json : ProjectMembership → option Value;
  service_json : ServiceResponse → option Value;
  studio_json : StudioConnectionResponse → option Value;
  diff_json : ServiceImportDiff → option Value;
  layer_trace_json : PolicyLayerTrace → option Value;
  openapi_json : ServiceOpenApiPreview → option Value;
  auth_settings_json : EffectiveGatewayAuthSettings → option Value;
  usage_row_json : UsageExportRow → option Value;
  bundle_json : DebugBundle → option Value;
  identity_method_json : FoundryIdentityMethod → Value;
  time_json : Z → Value;
  f64_json : f64 → Value;
  (** [serde_json::to_string] and the text of floats and times. *)
  value_text : Value → string;
  f64_text : f64 → string;
  to_rfc3339 : Z → string
}.

(** Objects and arrays of serialised parts. *)
Fixpoint all_json (vs : list (option Value)) : option (list Value) :=
  match vs with
  | [] => Some []
  | v :: vs => v ← v; vs ← all_json vs; Some (v :: vs)
  end.
Definition array_json (vs : list (option Value)) : option Value := JArray <$> all_json vs.
Definition object_json (fields : list (string * option Value)) : option Value :=
  (λ vs, JObject (zip (map fst fields) vs)) <$> all_json (map snd fields).

Section handlers.
Context {H : Type} `{HeaderMap H} `{ApiJson}.
Variable token_hash : string → string.
Implicit Types h : H.

Abbreviation require_admin_scope := (require_admin_scope token_hash).
Abbreviation require_admin_scopes := (require_admin_scopes token_hash).
Abbreviation require_admin := (require_admin token_hash).

(** ** Shapes that many handlers share *)

Definition admin_query {A} (h : H) (scope : string) (query : handler (GatewayResult A)) (json : A → option Value) : handler Response :=
  or_return (require_admin_scope h scope) (λ _, or_error h query (λ v, Ret (json_response (json v)))).
Definition admin_mutation (h : H) (scope action target_type : string) (mutation : handler (GatewayResult Row)) : handler Response :=
  or_return (require_admin_scope h scope) (λ actor,
    or_error h mutation (λ row,
      record_admin_audit h actor action target_type (Some (row_id row)) None (row_json row) (json_response (row_json row)))).
Definition read_value (r : value_read) : handler (GatewayResult (option Value)) := ask (ReadValue r).
(** A record that may be missing. *)
Definition show_row (h : H) (r : row_read) : handler Response :=
  or_return (require_admin h) (λ _,
    or_error h (ask (ReadRow r)) (λ row, Ret match row with Some row => json_response (row_json row) | None => NOT_FOUND end)).
Definition show_value (h : H) (r : value_read) : handler Response :=
  or_return (require_admin h) (λ _, or_error h (read_value r) (λ v, Ret (json_response v))).
(** What follows a change that found its record, or deleted it. *)
Definition found (h : H) (m : handler (GatewayResult (option Row))) (k : Row → handler Response) : handler Response :=
  or_error h m (λ row, match row with Some row => k row | None => Ret NOT_FOUND end).
Definition deleted (h : H) (m : handler (GatewayResult bool)) (k : handler Response) : handler Response :=
  or_error h m (λ gone, if gone then k else Ret NOT_FOUND).

(** ** Members and managed identities *)

Fixpoint member_bodies (h : H) (members : list PortalMember) (done : list (option Value)) : handler Response :=
  match members with
  | [] => Ret (json_response (array_json done))
  | m :: members =>
      or_error h (ask (ReadServiceMemberships (pm_id m))) (λ services,
      or_error h (ask (ReadProjectMemberships (pm_id m))) (λ projects,
        member_bodies h members (done ++
          [object_json [("member", member_json m); ("service_memberships", array_json (map service_membership_json services));
                        ("project_memberships", array_json (map project_membership_json projects))]])))
  end.
Definition admin_members h : handler Response :=
  or_return (require_admin_scope h SCOPE_OPERATORS_MANAGE) (λ _,
    or_error h (ask ReadMembers) (λ members, member_bodies h members [])).
Definition admin_patch_member (member_id : string) h (patch : MemberPatchRequest) : handler Response :=
  or_return (require_admin_scope h SCOPE_OPERATORS_MANAGE) (λ actor,
  or_error h (ask (ReadRow (GetMember member_id))) (λ before,
  found h (ask (Mutate (PatchMember member_id patch))) (λ member,
    record_admin_audit h actor "members:update" "portal_member" (Some member_id) (before ≫= row_json) (row_json member)
      (json_response (row_json member))))).
Definition admin_upsert_service_membership (member_id service_name : string) h (role : ServiceMemberRole) : handler Response :=
  or_return (require_admin_scope h SCOPE_OPERATORS_MANAGE) (λ actor,
  or_error h (ask (Mutate (UpsertServiceMembership member_id service_name role))) (λ membership,
    record_admin_audit h actor "memberships:upsert" "service_membership" (Some (member_id +:+ ":" +:+ service_name)) None
      (row_json membership) (json_response (row_json membership)))).
Definition admin_delete_service_membership (member_id service_name : string) h : handler Response :=
  or_return (require_admin_scope h SCOPE_OPERATORS_MANAGE) (λ actor,
  deleted h (ask (Mutate (DeleteServiceMembership member_id service_name)))
    (record_admin_audit h actor "memberships:delete" "service_membership" (Some (member_id +:+ ":" +:+ service_name)) None None NO_CONTENT)).
Definition admin_upsert_project_membership (member_id project_id : string) h (role : ServiceMemberRole) : handler Response :=
  or_return (require_admin_scope h SCOPE_OPERATORS_MANAGE) (λ actor,
  or_error h (ask (Mutate (UpsertProjectMembership member_id project_id role))) (λ membership,
    record_admin_audit h actor "memberships:upsert" "project_membership" (Some (member_id +:+ ":" +:+ project_id)) None
      (row_json membership) (json_response (row_json membership)))).
Definition admin_delete_project_membership (member_id project_id : string) h : handler Response :=
  or_return (require_admin_scope h SCOPE_OPERATORS_MANAGE) (λ actor,
  deleted h (ask (Mutate (DeleteProjectMembership member_id project_id)))
    (record_admin_audit h actor "memberships:delete" "project_membership" (Some (member_id +:+ ":" +:+ project_id)) None None NO_CONTENT)).
Definition admin_managed_identities h : handler Response :=
  admin_query h SCOPE_OPERATORS_MANAGE (read_value ListManagedIdentities) id.
Definition admin_create_managed_identity h (request : ManagedIdentityCreateRequest) : handler Response :=
  or_return (require_admin_scope h SCOPE_OPERATORS_MANAGE) (λ actor,
  or_error h (ask (Mutate (CreateManagedIdentity request))) (λ identity,
    record_admin_audit h actor "managed_identities:create" "managed_identity_binding" (Some (row_id identity)) None
      (row_json identity) (created_response (row_json identity)))).
Definition admin_patch_managed_identity (identity_id : string) h (patch : ManagedIdentityPatchRequest) : handler Response :=
  or_return (require_admin_scope h SCOPE_OPERATORS_MANAGE) (λ actor,
  found h (ask (Mutate (PatchManagedIdentity identity_id patch))) (λ identity,
    record_admin_audit h actor "managed_identities:update" "managed_identity_binding" (Some identity_id) None
      (row_json identity) (json_response (row_json identity)))).
Definition admin_delete_managed_identity (identity_id : string) h : handler Response :=
  or_return (require_admin_scope h SCOPE_OPERATORS_MANAGE) (λ actor,
  deleted h (ask (Mutate (DeleteManagedIdentity identity_id)))
    (record_admin_audit h actor "managed_identities:delete" "managed_identity_binding" (Some identity_id) None None NO_CONTENT)).
Definition admin_managed_identity_projects h : handler Response :=
  admin_query h SCOPE_OPERATORS_MANAGE (read_value ListManagedIdentityProjects) id.
Definition admin_create_managed_identity_project h (request : ManagedIdentityProjectCreateRequest) : handler Response :=
  or_return (require_admin_scope h SCOPE_OPERATORS_MANAGE) (λ actor,
  or_error h (ask (Mutate (CreateManagedIdentityProject request))) (λ identity,
    record_admin_audit h actor "managed_identity_projects:create" "managed_identity_project_binding" (Some (row_id identity)) None
      (row_json identity) (created_response (row_json identity)))).
Definition admin_patch_managed_identity_project (identity_id : string) h (patch : ManagedIdentityProjectPatchRequest) : handler Response :=
  or_return (require_admin_scope h SCOPE_OPERATORS_MANAGE) (λ actor,
  found h (ask (Mutate (PatchManagedIdentityProject identity_id patch))) (λ identity,
    record_admin_audit h actor "managed_identity_projects:update" "managed_identity_project_binding" (Some identity_id) None
      (row_json identity) (json_response (row_json identity)))).
Definition admin_delete_managed_identity_project (identity_id : string) h : handler Response :=
  or_return (require_admin_scope h SCOPE_OPERATORS_MANAGE) (λ actor,
  deleted h (ask (Mutate (DeleteManagedIdentityProject identity_id)))
    (record_admin_audit h actor "managed_identity_projects:delete" "managed_identity_project_binding" (Some identity_id) None None NO_CONTENT)).

(** ** Guardrails and the audit trail *)

Definition admin_guardrails h : handler Response :=
  or_return (require_admin h) (λ _, or_error h (read_value ListAdminGuardrailDefinitions) (λ v, Ret (json_response (object_json [("guardrails", v)])))).
Definition admin_guardrail_executions h (query : Value) : handler Response :=
  or_return (require_admin h) (λ _, or_error h (read_value (GuardrailExecutionEvents query)) (λ v, Ret (json_response (object_json [("executions", v)])))).
Definition admin_guardrail_summary h (query : Value) : handler Response :=
  or_return (require_admin h) (λ _, or_error h (read_value (GuardrailExecutionSummary query)) (λ v, Ret (json_response (object_json [("summary", v)])))).
Definition list_audit_events h (query : Value) : handler Response := admin_query h SCOPE_AUDIT_READ (read_value (ListAuditEvents query)) id.
Definition create_admin_guardrail h (request : GuardrailAdminCreateRequest) : handler Response :=
  or_return (require_admin_scope h SCOPE_GUARDRAILS_UPDATE) (λ actor,
  or_error h (ask (Mutate (CreateHttpGuardrail request))) (λ guardrail,
    record_admin_audit h actor "guardrails:create" "guardrail" (Some (row_id guardrail)) None (row_json guardrail)
      (json_response (row_json guardrail)))).
Definition patch_admin_guardrail h (name : string) (request : GuardrailAdminPatchRequest) : handler Response :=
  or_return (require_admin_scope h SCOPE_GUARDRAILS_UPDATE) (λ actor,
  or_error h (ask (Mutate (PatchAdminGuardrail name request))) (λ guardrail,
    record_admin_audit h actor "guardrails:update" "guardrail" (Some (row_id guardrail)) None (row_json guardrail)
      (json_response (row_json guardrail)))).
Definition delete_admin_guardrail h (name : string) : handler Response :=
  or_return (require_admin_scope h SCOPE_GUARDRAILS_UPDATE) (λ actor,
  or_error h (ask (Mutate (DeleteAdminGuardrail name))) (λ _,
    record_admin_audit h actor "guardrails:delete" "guardrail" (Some name) None None NO_CONTENT)).

(** ** Keys and policies *)

Definition create_key h (request : AdminKeyCreate) : handler Response :=
  or_return (require_admin_scope h SCOPE_KEYS_CREATE) (λ actor,
  or_error h (ask GenerateKeyMaterial) (λ material,
  or_error h (ask (Mutate (CreateAdminKey request material))) (λ key,
    record_admin_audit h actor "keys:create" "key" (Some (row_id key)) None (row_json key)
      (json_response (object_json [("key", row_json key); ("raw_key", Some (JString (vk_raw_key material)))]))))).
Definition list_keys h : handler Response := show_value h ListAdminKeys.
Definition get_key h (key_id : string) : handler Response := show_row h (GetAdminKey key_id).
Definition patch_key h (key_id : string) (patch : AdminKeyPatch) : handler Response :=
  or_return (require_admin_scopes h (key_patch_required_scopes patch)) (λ actor,
  or_error h (ask (ReadRow (GetAdminKey key_id))) (λ before,
  found h (ask (Mutate (PatchAdminKey key_id patch))) (λ key,
    record_admin_audit h actor "keys:update" "key" (Some (row_id key)) (before ≫= row_json) (row_json key)
      (json_response (row_json key))))).
Definition mutate_key_lifecycle h (key_id : string) (action : KeyLifecycleAction) : handler Response :=
  or_return (require_admin_scope h SCOPE_KEYS_DISABLE) (λ actor,
  or_error h (ask (ReadRow (GetAdminKey key_id))) (λ before,
  found h (ask (Mutate (KeyLifecycle key_id action))) (λ key,
    record_admin_audit h actor
      (match action with LifecycleRevoke => "keys:revoke" | LifecycleDisable => "keys:disable" | LifecycleEnable => "keys:enable" end)
      "key" (Some (row_id key)) (before ≫= row_json) (row_json key) (json_response (row_json key))))).
Definition revoke_key h (key_id : string) : handler Response := mutate_key_lifecycle h key_id LifecycleRevoke.
Definition disable_key h (key_id : string) : handler Response := mutate_key_lifecycle h key_id LifecycleDisable.
Definition enable_key h (key_id : string) : handler Response := mutate_key_lifecycle h key_id LifecycleEnable.
Definition key_usage h (key_id : string) : handler Response := show_row h (KeyUsageSummary key_id).
Definition project_usage h (project_id : string) : handler Response := show_value h (ProjectUsageSummary project_id).
Definition list_policy_layers h : handler Response := admin_query h SCOPE_POLICIES_UPDATE (read_value ListPolicyLayers) id.
Definition upsert_policy_layer h (request : AdminPolicyLayerUpsert) : handler Response :=
  or_return (require_admin_scope h SCOPE_POLICIES_UPDATE) (λ actor,
  or_error h (ask (Mutate (UpsertPolicyLayer request))) (λ layer,
    record_admin_audit h actor "policies:upsert-layer" "policy_layer" (Some (row_id layer)) None (row_json layer)
      (json_response (row_json layer)))).
Definition delete_policy_layer h (layer_id : string) : handler Response :=
  or_return (require_admin_scope h SCOPE_POLICIES_UPDATE) (λ actor,
  deleted h (ask (Mutate (DeletePolicyLayer layer_id)))
    (record_admin_audit h actor "policies:delete-layer" "policy_layer" (Some layer_id) None None NO_CONTENT)).

(** ** Projects and the operator token *)

Definition create_project h (request : ProjectCreateRequest) : handler Response :=
  admin_mutation h SCOPE_SETTINGS_UPDATE "projects:create" "project" (ask (Mutate (CreateProject request))).
Definition list_projects h : handler Response := admin_query h SCOPE_USAGE_READ (read_value ListProjects) id.
Definition get_project h (project_id : string) : handler Response := show_row h (GetProject project_id).
Definition patch_project h (project_id : string) (patch : ProjectPatchRequest) : handler Response :=
  or_return (require_admin_scope h SCOPE_SETTINGS_UPDATE) (λ actor,
  or_error h (ask (ReadRow (GetProject project_id))) (λ before,
  found h (ask (Mutate (PatchProject project_id patch))) (λ project,
    record_admin_audit h actor "projects:update" "project" (Some (row_id project)) (before ≫= row_json) (row_json project)
      (json_response (row_json project))))).
Definition delete_project h (project_id : string) : handler Response :=
  or_return (require_admin_scope h SCOPE_SETTINGS_UPDATE) (λ actor,
  or_error h (ask (ReadRow (GetProject project_id))) (λ before,
  deleted h (ask (Mutate (DeleteProject project_id)))
    (record_admin_audit h actor "projects:delete" "project" (Some project_id) (before ≫= row_json) None NO_CONTENT))).
Definition rotate_operator_token h : handler Response :=
  match bearer_token h with
  | Err e => Ret (error_response h e)
  | Ok current =>
      or_return (require_admin_scope h SCOPE_OPERATORS_MANAGE) (λ actor,
      or_error h (ask GenerateOperatorToken) (λ raw,
      let! now := ask UtcNow in
      or_error h (ask (Mutate (RotateOperatorToken current raw now))) (λ token,
        record_admin_audit h actor "operators:rotate" "operator_token" (Some (row_id token)) None (row_json token)
          (json_response (object_json [("token", row_json token); ("raw_token", Some (JString raw))])))))
  end.
End handlers.
