(* ===== verification/AdminConfig.v ===== *)
(** * Handlers for providers, routes, services and settings

    Models the handlers of [crates/gateway-api/src/app.rs] for provider
    configurations, LiteLLM credentials, built-in routes, services with their
    OpenAPI documents, the Studio connection and the gateway's authentication
    settings.  Parsers of URLs and JSON, SHA-256, the tests of payloads that
    need Unicode and the environment's settings are parameters. *)

From S2P Require Import Prelude SocketFrames StreamGuardrails Errors Routing RouteSettings Json GuardrailPolicy Policies OutputLimits Guardrails AuthAdmission VerificationCache VerificationFlight Auth EndpointAccess Foundry ServiceTypes ServicePricing ProviderConfigs Headers Entra AuthSettings TrafficRequest ProxyContext ProviderSelection OpenApi UsageCsv Access KeyAdmin AdminStore AdminAuth AdminApi.
#[local] Open Scope prog_scope.

Definition pi (n : Z) : Value := JNumber (PosInt n).
Definition ServicePatchRequest_default : ServicePatchRequest :=
  {| pr_foundry := None; pr_access := None; pr_project_id := None; pr_studio_service_id := None; pr_route_pattern := None;
     pr_upstream_base_url := None; pr_health_check_path := None; pr_health_check_method := None; pr_enabled := None;
     pr_allowed_methods := None; pr_credential := None; pr_timeout_ms := None; pr_max_body_bytes := None; pr_cost_mode := None;
     pr_estimated_cost_usd := None; pr_pricing_rules := None; pr_openapi_source_path := None; pr_openapi_schema_hash := None;
     pr_openapi_synced_at := None; pr_openapi_endpoints := None; pr_endpoint_pricing_rules := None; pr_fallback_services := None;
     pr_sync_status := None; reprice_existing_usage := false |}.
(** [ServicePatchRequest { openapi_*, endpoint_pricing_rules, ..default() }]. *)
Definition openapi_patch (preview : ServiceOpenApiPreview) (synced_at : Z) (rules : list ServiceEndpointPricingRule) : ServicePatchRequest :=
  {| pr_foundry := None; pr_access := None; pr_project_id := None; pr_studio_service_id := None; pr_route_pattern := None;
     pr_upstream_base_url := None; pr_health_check_path := None; pr_health_check_method := None; pr_enabled := None;
     pr_allowed_methods := None; pr_credential := None; pr_timeout_ms := None; pr_max_body_bytes := None; pr_cost_mode := None;
     pr_estimated_cost_usd := None; pr_pricing_rules := None; pr_openapi_source_path := Some (Some (op_source_path preview));
     pr_openapi_schema_hash := Some (Some (op_schema_hash preview)); pr_openapi_synced_at := Some (Some synced_at);
     pr_openapi_endpoints := Some (op_endpoints preview); pr_endpoint_pricing_rules := Some rules; pr_fallback_services := None;
     pr_sync_status := None; reprice_existing_usage := false |}.

Section handlers.
Context {H : Type} `{HeaderMap H} `{ApiJson}.
Variable token_hash : string → string.
Variable studio_env : StudioConnectionEnv.
Variable auth_env : GatewayAuthEnv.
Variable instance_id : string.
Variable url_parse : string → option Url.
Variable method_parses : string → bool.
Variable has_control : string → bool.
Variable header_name_ok : string → bool.
Variable to_lowercase : string → string.
Variable from_slice : string → option Value.
Variable schema_hash : string → string.
Implicit Types h : H.

Abbreviation require_admin_scope := (require_admin_scope token_hash).
Abbreviation require_admin := (require_admin token_hash).
Abbreviation admin_query := (admin_query token_hash).
Abbreviation admin_mutation := (admin_mutation token_hash).
Abbreviation show_row := (show_row token_hash).

(** ** Providers *)

Definition create_provider h (request : ProviderConfigCreateRequest) : handler Response :=
  admin_mutation h SCOPE_PROVIDERS_UPDATE "providers:create" "provider" (ask (Mutate (CreateProviderConfig request))).
Definition foundry_connection_not_found : Response :=
  {| rp_status := 404; rp_headers := [];
     rp_body := JsonBody (Some (JObject [("error", JObject [("code", JString "foundry_connection_not_found");
       ("message", JString "This saved Azure Foundry connection no longer exists or is another provider type. Refresh Providers and select an Azure Foundry connection.")])])) |}.
Definition verify_foundry_provider h (provider_id : string) : handler Response :=
  or_return (require_admin_scope h SCOPE_PROVIDERS_UPDATE) (λ actor,
  or_error h (ask (ReadFoundryConfig provider_id)) (λ config,
    match config with
    | None => Ret foundry_connection_not_found
    | Some config =>
        let! check := ask (CheckFoundryConnection config) in
        let! now := ask UtcNow in
        let result := JObject [("provider_id", JString provider_id); ("configuration_revision", pi (frc_revision config));
          ("checked_at", time_json now); ("instance_id", JString instance_id);
          ("identity_method", identity_method_json (method (frc_identity config))); ("identity", check.1); ("project", check.2)] in
        record_admin_audit h actor "providers:verify_connection" "provider" (Some provider_id) None (Some result)
          (no_store "no-store" (json_response (Some result)))
    end)).
Definition list_providers h : handler Response := admin_query h SCOPE_USAGE_READ (read_value ListProviderConfigs) id.
Definition upsert_litellm_credential_mapping h (request : LiteLlmCredentialMappingUpsertRequest) : handler Response :=
  admin_mutation h SCOPE_PROVIDERS_UPDATE "litellm_credentials:upsert" "litellm_credential_mapping"
    (ask (Mutate (UpsertLiteLlmCredentialMapping request))).
Definition list_litellm_credential_mappings h : handler Response :=
  admin_query h SCOPE_USAGE_READ (read_value ListLiteLlmCredentialMappings) id.
Definition get_litellm_passthrough_settings h : handler Response :=
  admin_query h SCOPE_USAGE_READ (read_value GetLiteLlmPassthroughSettings) id.
Definition patch_litellm_passthrough_settings h (patch : LiteLlmPassthroughSettingsPatchRequest) : handler Response :=
  or_return (require_admin_scope h SCOPE_PROVIDERS_UPDATE) (λ actor,
  or_error h (read_value GetLiteLlmPassthroughSettings) (λ before,
  or_error h (ask (Mutate (PatchLiteLlmPassthroughSettings patch))) (λ settings,
    record_admin_audit h actor "providers:litellm_passthrough_update" "litellm_passthrough_settings" (Some "singleton") before
      (row_json settings) (json_response (row_json settings))))).
Definition delete_litellm_credential_mapping h (mapping_id : string) : handler Response :=
  or_return (require_admin_scope h SCOPE_PROVIDERS_UPDATE) (λ actor,
  deleted h (ask (Mutate (DeleteLiteLlmCredentialMapping mapping_id)))
    (record_admin_audit h actor "litellm_credentials:delete" "litellm_credential_mapping" (Some mapping_id) None None NO_CONTENT)).
Definition mutate_litellm_credential_mapping_enabled h (mapping_id : string) (enabled : bool) : handler Response :=
  admin_mutation h SCOPE_PROVIDERS_UPDATE (if enabled then "litellm_credentials:enable" else "litellm_credentials:disable")
    "litellm_credential_mapping"
    (let! r := ask (Mutate (SetLiteLlmCredentialMappingEnabled mapping_id enabled)) in
     Ret (let? row := r in ok_or row MissingProviderConfig)).
Definition disable_litellm_credential_mapping h (mapping_id : string) : handler Response :=
  mutate_litellm_credential_mapping_enabled h mapping_id false.
Definition enable_litellm_credential_mapping h (mapping_id : string) : handler Response :=
  mutate_litellm_credential_mapping_enabled h mapping_id true.
Definition get_provider h (provider_id : string) : handler Response := show_row h (GetProviderConfig provider_id).
Definition patch_provider h (provider_id : string) (patch : ProviderConfigPatchRequest) : handler Response :=
  or_return (require_admin_scope h SCOPE_PROVIDERS_UPDATE) (λ actor,
  or_error h (ask (ReadRow (GetProviderConfig provider_id))) (λ before,
  found h (ask (Mutate (PatchProviderConfig provider_id patch))) (λ provider,
    record_admin_audit h actor "providers:update" "provider" (Some (row_id provider)) (before ≫= row_json) (row_json provider)
      (json_response (row_json provider))))).
Definition delete_provider h (provider_id : string) : handler Response :=
  or_return (require_admin_scope h SCOPE_PROVIDERS_UPDATE) (λ actor,
  or_error h (ask (ReadRow (GetProviderConfig provider_id))) (λ before,
  deleted h (ask (Mutate (DeleteProviderConfig provider_id)))
    (record_admin_audit h actor "providers:delete" "provider" (Some provider_id) (before ≫= row_json) None NO_CONTENT))).
Definition mutate_provider_enabled h (provider_id : string) (enabled : bool) : handler Response :=
  or_return (require_admin_scope h SCOPE_PROVIDERS_UPDATE) (λ actor,
  or_error h (ask (ReadRow (GetProviderConfig provider_id))) (λ before,
  found h (ask (Mutate (SetProviderConfigEnabled provider_id enabled))) (λ provider,
    record_admin_audit h actor (if enabled then "providers:enable" else "providers:disable") "provider" (Some (row_id provider))
      (before ≫= row_json) (row_json provider) (json_response (row_json provider))))).
Definition disable_provider h (provider_id : string) : handler Response := mutate_provider_enabled h provider_id false.
Definition enable_provider h (provider_id : string) : handler Response := mutate_provider_enabled h provider_id true.

(** ** Built-in routes *)

Definition list_route_identities h : handler Response :=
  or_return (require_admin_scope h SCOPE_USAGE_READ) (λ _,
    or_error h (read_value ListRouteIdentities) (λ v, Ret (json_response v))).
Definition set_route_identity h (setting : RouteIdentitySetting) : handler Response :=
  or_return (require_admin_scope h SCOPE_POLICIES_UPDATE) (λ actor,
  match route_identity_validate to_lowercase has_control header_name_ok setting with
  | Err e => Ret (error_response h e)
  | Ok _ =>
      or_error h (ask (Mutate (SetRouteIdentity setting))) (λ setting,
        record_admin_audit h actor "policies:route_identity_update" "route_identity" (Some (row_id setting)) None
          (row_json setting) (json_response (row_json setting)))
  end).
Definition list_openai_routes h : handler Response := admin_query h SCOPE_USAGE_READ (read_value (ListRouteSettings OpenAiRoutes)) id.
Definition list_anthropic_routes h : handler Response := admin_query h SCOPE_USAGE_READ (read_value (ListRouteSettings AnthropicRoutes)) id.
(** The handlers of the two families differ in the table and the target type. *)
Definition route_target (f : RouteFamily) : string := match f with OpenAiRoutes => "openai_route" | AnthropicRoutes => "anthropic_route" end.
Definition mutate_route (f : RouteFamily) h (route_id action : string) (m : handler (GatewayResult (option Row))) : handler Response :=
  or_return (require_admin_scope h SCOPE_POLICIES_UPDATE) (λ actor,
  found h m (λ setting,
    record_admin_audit h actor action (route_target f) (Some route_id) None (row_json setting) (json_response (row_json setting)))).
Definition mutate_route_enabled (f : RouteFamily) h (route_id : string) (enabled : bool) : handler Response :=
  mutate_route f h route_id (if enabled then "policies:route_enable" else "policies:route_disable")
    (ask (Mutate (SetRouteEnabled f route_id enabled))).
Definition patch_route_mode (f : RouteFamily) h (route_id : string) (mode : OpenAiRouteMode) : handler Response :=
  mutate_route f h route_id "policies:route_mode_update" (ask (Mutate (SetRouteMode f route_id mode))).
Definition patch_route_config (f : RouteFamily) h (route_id : string) (request : OpenAiRouteConfigPatchRequest) : handler Response :=
  mutate_route f h route_id "policies:route_config_update" (ask (Mutate (PatchRouteConfig f route_id request))).

Definition mutate_openai_route_enabled h (route_id : string) (enabled : bool) : handler Response := mutate_route_enabled OpenAiRoutes h route_id enabled.
Definition disable_openai_route h (route_id : string) : handler Response := mutate_openai_route_enabled h route_id false.
Definition enable_openai_route h (route_id : string) : handler Response := mutate_openai_route_enabled h route_id true.
Definition patch_openai_route_mode h (route_id : string) (mode : OpenAiRouteMode) : handler Response := patch_route_mode OpenAiRoutes h route_id mode.
Definition patch_openai_route_config h (route_id : string) (request : OpenAiRouteConfigPatchRequest) : handler Response :=
  patch_route_config OpenAiRoutes h route_id request.
Definition mutate_anthropic_route_enabled h (route_id : string) (enabled : bool) : handler Response := mutate_route_enabled AnthropicRoutes h route_id enabled.
Definition disable_anthropic_route h (route_id : string) : handler Response := mutate_anthropic_route_enabled h route_id false.
Definition enable_anthropic_route h (route_id : string) : handler Response := mutate_anthropic_route_enabled h route_id true.
Definition patch_anthropic_route_mode h (route_id : string) (mode : OpenAiRouteMode) : handler Response := patch_route_mode AnthropicRoutes h route_id mode.
Definition patch_anthropic_route_config h (route_id : string) (request : OpenAiRouteConfigPatchRequest) : handler Response :=
  patch_route_config AnthropicRoutes h route_id request.

(** ** Services *)

Definition validate_forwarding_key_header (access : EndpointAccess) : handler (GatewayResult unit) :=
  match user_token_forwarding access with
  | None => Ret (Ok tt)
  | Some forwarding =>
      let! snapshot := ask AuthKeyHeader in
      Ret (let? key_header := snapshot in
           if eq_ignore_ascii_case (EndpointAccess.header forwarding) key_header then Err InvalidServicePayload else Ok tt)
  end.
Definition create_service h (request : ServiceCreateRequest) : handler Response :=
  admin_mutation h SCOPE_SERVICES_UPDATE "services:create" "service"
    (let! valid := validate_forwarding_key_header (cr_access request) in
     match valid with
     | Err e => Ret (Err e)
     | Ok _ => ask (Mutate (CreateService request))
     end).
Definition list_services h : handler Response := admin_query h SCOPE_USAGE_READ (ask ReadAllServices) (λ l, array_json (map service_json l)).
Definition get_service h (service_name : string) : handler Response :=
  or_return (require_admin h) (λ _,
    or_error h (ask (ReadService service_name)) (λ s, Ret match s with Some s => json_response (service_json s) | None => NOT_FOUND end)).
Definition fetch_service_openapi (service : ServiceResponse) (source_path : string) : handler (GatewayResult ServiceOpenApiPreview) :=
  match openapi_upstream url_parse has_control service source_path with
  | Err e => Ret (Err e)
  | Ok upstream =>
      let! answer := ask (GetDocument upstream source_path) in
      Ret (openapi_answer method_parses from_slice schema_hash service source_path answer)
  end.
Definition preview_service_openapi h (service_name source_path : string) : handler Response :=
  or_return (require_admin_scope h SCOPE_SERVICES_UPDATE) (λ _,
  or_error h (ask (ReadService service_name)) (λ service,
    match service with
    | None => Ret NOT_FOUND
    | Some service => or_error h (fetch_service_openapi service source_path) (λ preview, Ret (json_response (openapi_json preview)))
    end)).
Definition sync_service_openapi h (service_name : string) (request : ServiceOpenApiSyncRequest) : handler Response :=
  or_return (require_admin_scope h SCOPE_SERVICES_UPDATE) (λ actor,
  or_error h (ask (ReadService service_name)) (λ service,
    match service with
    | None => Ret NOT_FOUND
    | Some before =>
        or_error h (fetch_service_openapi before (os_source_path request)) (λ preview,
          if negb (String.eqb (op_schema_hash preview) (os_expected_schema_hash request))
          then Ret (error_response h ServiceOpenApiChanged)
          else
            let rules := merge_endpoint_pricing_rules (op_endpoints preview) (sr_endpoint_pricing_rules before) (sr_cost_mode before)
                           (sr_estimated_cost_usd before) in
            let! now := ask UtcNow in
            found h (ask (Mutate (PatchService service_name (openapi_patch preview now rules)))) (λ service,
              record_admin_audit h actor "services:openapi_sync" "service" (Some (row_id service)) (service_json before)
                (row_json service) (json_response (row_json service))))
    end)).
Definition patch_service h (service_name : string) (patch : ServicePatchRequest) : handler Response :=
  or_return (require_admin_scope h SCOPE_SERVICES_UPDATE) (λ actor,
  or_error h (match pr_access patch with Some access => validate_forwarding_key_header access | None => Ret (Ok tt) end) (λ _,
  or_error h (ask (ReadService service_name)) (λ before,
  found h (ask (Mutate (PatchService service_name patch))) (λ service,
    record_admin_audit h actor (if reprice_existing_usage patch then "services:reprice" else "services:update") "service"
      (Some (row_id service)) (before ≫= service_json) (row_json service) (json_response (row_json service)))))).
Definition delete_service h (service_name : string) : handler Response :=
  or_return (require_admin_scope h SCOPE_SERVICES_UPDATE) (λ actor,
  or_error h (ask (ReadService service_name)) (λ before,
  deleted h (ask (Mutate (DeleteService service_name)))
    (record_admin_audit h actor "services:delete" "service" (Some service_name) (before ≫= service_json) None NO_CONTENT))).
Definition mutate_service_enabled h (service_name : string) (enabled : bool) : handler Response :=
  or_return (require_admin_scope h SCOPE_SERVICES_UPDATE) (λ actor,
  or_error h (ask (ReadService service_name)) (λ before,
  found h (ask (Mutate (SetServiceEnabled service_name enabled))) (λ service,
    record_admin_audit h actor (if enabled then "services:enable" else "services:disable") "service" (Some (row_id service))
      (before ≫= service_json) (row_json service) (json_response (row_json service))))).
Definition disable_service h (service_name : string) : handler Response := mutate_service_enabled h service_name false.
Definition enable_service h (service_name : string) : handler Response := mutate_service_enabled h service_name true.
Definition import_service h (request : StudioServiceImportRequest) : handler Response :=
  admin_mutation h SCOPE_SERVICES_UPDATE "services:import" "service" (ask (Mutate (ImportStudioService request))).
Definition sync_service h (request : StudioServiceImportRequest) : handler Response :=
  admin_mutation h SCOPE_SERVICES_UPDATE "services:sync" "service" (ask (Mutate (SyncStudioService request))).
Definition service_sync_status h (service_name : string) : handler Response := show_row h (ServiceSyncStatusOf service_name).

(** ** The Studio connection *)

Definition effective_studio_connection : handler (GatewayResult EffectiveStudioConnection) :=
  let! stored := ask ReadStudioConnection in
  Ret (let? stored := stored in Ok (studio_from_sources stored studio_env)).
Definition get_studio_connection h : handler Response :=
  or_return (require_admin h) (λ _,
    or_error h effective_studio_connection (λ c, Ret (json_response (studio_json (studio_response c))))).
Definition patch_studio_connection h (patch : StudioConnectionPatchRequest) : handler Response :=
  or_return (require_admin_scope h SCOPE_SETTINGS_UPDATE) (λ actor,
  or_error h (let! before := effective_studio_connection in
              Ret match before with
                  | Ok c => Ok (Some (studio_response c))
                  | Err InvalidConfiguration => Ok None
                  | Err e => Err e
                  end) (λ before,
  or_error h (ask (Mutate (PatchStudioConnectionSettings patch))) (λ _,
  or_error h effective_studio_connection (λ c,
    let after := studio_json (studio_response c) in
    record_admin_audit h actor "settings:studio_connection_update" "studio_connection" (Some "singleton") (before ≫= studio_json)
      after (json_response after))))).
(** [StudioCatalogClient::new] and [services], as one question. *)
Definition studio_catalog : handler (GatewayResult (list Value)) :=
  let! connection := effective_studio_connection in
  match connection with
  | Err e => Ret (Err e)
  | Ok c =>
      match ec_base_url c with
      | None => Ret (Err InvalidConfiguration)
      | Some base_url => ask (FetchStudioServices (trim_end_matches "/" (trim base_url)) (ec_token c))
      end
  end.
Definition test_studio_connection h : handler Response :=
  or_return (require_admin h) (λ _,
    or_error h studio_catalog (λ services,
      Ret (json_response (Some (JObject [("ok", JBool true); ("service_count", pi (Z.of_nat (length services)))]))))).
Definition studio_services h : handler Response :=
  or_return (require_admin h) (λ _, or_error h studio_catalog (λ services, Ret (json_response (Some (JArray services))))).

(** ** Authentication settings *)

Definition effective_gateway_auth_settings : handler (GatewayResult EffectiveGatewayAuthSettings) :=
  let! stored := ask ReadGatewayAuthSettings in
  Ret (let? stored := stored in from_sources header_name_ok stored auth_env).
(** [SharedGatewayAuthRuntime::refresh_from_store]; the runtime is shared. *)
Definition refresh_auth_runtime : handler (GatewayResult EffectiveGatewayAuthSettings) :=
  let! settings := effective_gateway_auth_settings in
  match settings with
  | Err e => Ret (Err e)
  | Ok settings =>
      let! updated := ask (UpdateAuthRuntime (runtime_config settings)) in
      Ret (let? _ := updated in Ok settings)
  end.
Definition get_gateway_auth_settings h : handler Response :=
  or_return (require_admin h) (λ _,
    or_error h effective_gateway_auth_settings (λ s, Ret (json_response (auth_settings_json s)))).
(** Whether a service forwards user tokens in the header that selects a key. *)
Definition forwards_in (key_header : string) (s : ServiceResponse) : bool :=
  is_some_and (λ f, eq_ignore_ascii_case (EndpointAccess.header f) key_header) (user_token_forwarding (sr_access s)).
Definition key_header_free (patch : GatewayAuthSettingsPatchRequest) : handler (GatewayResult unit) :=
  match ap_relayna_key_header patch with
  | None => Ret (Ok tt)
  | Some key_header =>
      let key_header := if is_empty (trim key_header) then env_relayna_key_header auth_env else trim key_header in
      let! services := ask ReadAllServices in
      Ret (let? services := services in if existsb (forwards_in key_header) services then Err InvalidConfiguration else Ok tt)
  end.
Definition patch_gateway_auth_settings h (patch : GatewayAuthSettingsPatchRequest) : handler Response :=
  or_return (require_admin_scope h SCOPE_SETTINGS_UPDATE) (λ actor,
  or_error h (key_header_free patch) (λ _,
  or_error h effective_gateway_auth_settings (λ before,
  or_error h (ask (Mutate (PatchGatewayAuthSettings patch))) (λ _,
  or_error h refresh_auth_runtime (λ settings,
    record_admin_audit h actor "settings:gateway_auth_update" "gateway_auth_settings" (Some "singleton") (auth_settings_json before)
      (auth_settings_json settings) (json_response (auth_settings_json settings))))))).
End handlers.
