(* ===== verification/AdminUsage.v ===== *)
(** * Handlers for usage, traffic, provider health, imports and simulation

    Models the handlers of [crates/gateway-api/src/app.rs] for the traffic and
    usage reads, the exports, the provider health checks, the debug bundles,
    service imports with [service_import_diff], [simulate_policy],
    [list_guardrails] and [test_guardrails].  A live traffic stream is its
    start; its batches are those of the traffic monitor.  The stream of
    [usage_export_stream] is compared with the export that is sent whole.
    What guardrail services answer and the JSON forms of definitions and
    records are parameters. *)

From S2P Require Import Prelude SocketFrames StreamGuardrails Errors Routing RouteSettings Json GuardrailPolicy Policies OutputLimits Guardrails AuthAdmission VerificationCache VerificationFlight Auth EndpointAccess Foundry ServiceTypes ServicePricing ProviderConfigs Headers Entra AuthSettings TrafficRequest ProxyContext ProviderSelection OpenApi UsageCsv Access KeyAdmin AdminStore AdminAuth AdminApi AdminConfig Pii.
#[local] Open Scope prog_scope.

Definition attachment (filename : string) : string :=
  "attachment; filename=" +:+ String dquote (filename +:+ String dquote "").
Definition int_json (n : Z) : Value := JNumber (if 0 <=? n then PosInt n else NegInt n).
Definition opt_json {A} (f : A → Value) (o : option A) : Value := match o with Some a => f a | None => JNull end.
Definition strings_json (l : list string) : Value := JArray (map JString l).

(** ** Queries *)

(** A query with other bounds, order and cursor. *)
Definition page_query (q : UsageQuery) (limit offset : option Z) (cursor : option string) (sort_by sort_order : option string) : UsageQuery :=
  {| uq_from := uq_from q; uq_to := uq_to q; uq_project_id := uq_project_id q; uq_key_id := uq_key_id q; uq_route := uq_route q;
     uq_provider := uq_provider q; uq_service := uq_service q; uq_request_id := uq_request_id q; uq_method := uq_method q;
     uq_endpoint := uq_endpoint q; uq_task_id := uq_task_id q; uq_run_id := uq_run_id q; uq_model := uq_model q;
     uq_status := uq_status q; uq_status_code := uq_status_code q; uq_trace_id := uq_trace_id q; uq_min_cost_usd := uq_min_cost_usd q;
     uq_interval := uq_interval q; uq_limit := limit; uq_offset := offset; uq_cursor := cursor; uq_stream := uq_stream q;
     uq_timeseries_limit := uq_timeseries_limit q; uq_timeseries_offset := uq_timeseries_offset q;
     uq_service_timeseries_limit := uq_service_timeseries_limit q; uq_service_timeseries_offset := uq_service_timeseries_offset q;
     uq_breakdown_limit := uq_breakdown_limit q; uq_breakdown_offset := uq_breakdown_offset q; uq_sort_by := sort_by;
     uq_sort_order := sort_order |}.
(** A query narrowed to a project, service, task or status. *)
Definition scoped_query (q : UsageQuery) (project service task status : option string) : UsageQuery :=
  {| uq_from := uq_from q; uq_to := uq_to q; uq_project_id := project; uq_key_id := uq_key_id q; uq_route := uq_route q;
     uq_provider := uq_provider q; uq_service := service; uq_request_id := uq_request_id q; uq_method := uq_method q;
     uq_endpoint := uq_endpoint q; uq_task_id := task; uq_run_id := uq_run_id q; uq_model := uq_model q;
     uq_status := status; uq_status_code := uq_status_code q; uq_trace_id := uq_trace_id q; uq_min_cost_usd := uq_min_cost_usd q;
     uq_interval := uq_interval q; uq_limit := uq_limit q; uq_offset := uq_offset q; uq_cursor := uq_cursor q; uq_stream := uq_stream q;
     uq_timeseries_limit := uq_timeseries_limit q; uq_timeseries_offset := uq_timeseries_offset q;
     uq_service_timeseries_limit := uq_service_timeseries_limit q; uq_service_timeseries_offset := uq_service_timeseries_offset q;
     uq_breakdown_limit := uq_breakdown_limit q; uq_breakdown_offset := uq_breakdown_offset q; uq_sort_by := uq_sort_by q;
     uq_sort_order := uq_sort_order q |}.

(** ** Imports *)

Section imports.
Variable url_parse : string → option Url.
Variable import_valid : StudioServiceImportRequest → bool.

Definition service_import_validation_issues (r : StudioServiceImportRequest) : list ServiceImportValidationIssue :=
  (if import_valid r then []
   else [{| is_service_name := im_name r; is_field := "request"; is_message := "service import payload is invalid" |}])
  ++ match im_upstream_base_url r with
     | None => []
     | Some base_url =>
         if is_some_and (λ u, (String.eqb (url_scheme u) "http" || String.eqb (url_scheme u) "https") && is_some (url_host_str u)) (url_parse base_url)
         then []
         else [{| is_service_name := im_name r; is_field := "upstream_base_url"; is_message := "upstream URL must be absolute http or https" |}]
     end.
(** The names of a [BTreeSet], in order. *)
Fixpoint set_insert (k : string) (l : list string) : list string :=
  match l with
  | [] => [k]
  | x :: l => match String.compare k x with Eq => x :: l | Lt => k :: x :: l | Gt => x :: set_insert k l end
  end.
Definition name_set (names : list string) : list string := foldl (λ s n, set_insert n s) [] names.
Definition import_target (r : StudioServiceImportRequest) (s : ServiceResponse) : bool :=
  String.eqb (sr_name s) (im_name r) || bool_decide (sr_studio_service_id s = Some (im_studio_service_id r)).
Definition import_changes (r : StudioServiceImportRequest) (s : ServiceResponse) : bool :=
  is_some_and (λ p, negb (String.eqb p (sr_route_pattern s))) (im_route_pattern r)
  || negb (bool_decide (im_upstream_base_url r = sr_upstream_base_url s))
  || negb (bool_decide (im_allowed_methods r = sr_allowed_methods s)).
Definition service_import_diff (existing : list ServiceResponse) (requested : list StudioServiceImportRequest) : ServiceImportDiff :=
  let requested_names := name_set (map im_name requested) in
  let existing_names := name_set (map sr_name existing) in
  {| di_added := List.filter (λ n, negb (existsb (String.eqb n) existing_names)) requested_names;
     di_changed := omap (λ r, (λ _, im_name r) <$> opt_filter (import_changes r) (List.find (import_target r) existing)) requested;
     di_removed := map sr_name (List.filter (λ s, negb (existsb (String.eqb (sr_name s)) requested_names))
                     (List.filter (λ s, match sr_source s with SourceStudio => true | SourceGateway => false end) existing));
     di_invalid := flat_map service_import_validation_issues requested |}.
End imports.

(** ** Provider health *)

Record ActiveHealthCheck := { hc_ok : bool; hc_latency_ms : option Z; hc_error_code : option string; hc_checked_at : Z }.
Definition provider_health_state_from_check (name : string) (provider : Provider) (c : ActiveHealthCheck) (now : Z) : ProviderHealthState :=
  {| hs_name := name; hs_provider := provider; hs_status := if hc_ok c then Healthy else Unhealthy;
     hs_circuit_state := if hc_ok c then CircuitClosed else CircuitOpen; hs_active_check_ok := Some (hc_ok c);
     hs_passive_success_count := if hc_ok c then 1 else 0; hs_passive_failure_count := if hc_ok c then 0 else 1;
     hs_consecutive_failures := if hc_ok c then 0 else 1; hs_average_latency_ms := hc_latency_ms c;
     hs_last_error_code := hc_error_code c; hs_cooldown_until := None; hs_checked_at := Some (hc_checked_at c); hs_updated_at := now |}.
Definition health_result (name : string) (probe : HealthProbe) (checked_at : Z) : ActiveHealthCheck :=
  {| hc_ok := match hp_answer probe with HealthStatus s => in_range 200 299 s | _ => false end;
     hc_latency_ms := Some (Z.min i64_max (hp_elapsed_ms probe));
     hc_error_code := match hp_answer probe with
                      | HealthStatus s => if in_range 200 299 s then None else Some ("http_" +:+ decimal s)
                      | HealthTimeout => Some "timeout"
                      | HealthFailure => Some ("health_check_failed:" +:+ name)
                      end;
     hc_checked_at := checked_at |}.

Section handlers.
Context {H : Type} `{HeaderMap H} `{ApiJson} `{SerdeJson}.
Variable token_hash : string → string.
Variable url_parse : string → option Url.
Variable method_parses : string → bool.
Variable import_valid : StudioServiceImportRequest → bool.
Implicit Types h : H.

Abbreviation require_admin_scope := (require_admin_scope token_hash).
Abbreviation admin_query := (admin_query token_hash).
Abbreviation csv_body := (usage_export_csv_body f64_text to_rfc3339).

(** ** Traffic *)

Definition private_no_store : Response → Response := no_store "private, no-store".
Definition traffic_live h (query : TrafficQuery) : handler Response :=
  or_return (require_admin_scope h SCOPE_USAGE_READ) (λ _,
  match query_validate query with
  | Err e => Ret (error_response h e)
  | Ok _ =>
      let! permit := (ask (TryAcquire ViewerPermits) : handler bool) in
      if negb permit then Ret (error_response h GatewayOverloaded)
      else
        let cursor := opt_filter (λ v, len v <=? 192) (header_value h "last-event-id") in
        Ret (with_response_header "x-accel-buffering" "no"
              (private_no_store {| rp_status := 200; rp_headers := []; rp_body := TrafficBody cursor query |}))
  end).
Definition traffic_history h (query : TrafficQuery) : handler Response :=
  or_return (require_admin_scope h SCOPE_USAGE_READ) (λ _,
  match query_validate query with
  | Err e => Ret (error_response h e)
  | Ok _ => or_error h (read_value (TrafficHistory query)) (λ v, Ret (private_no_store (json_response v)))
  end).

(** ** Usage *)

Definition usage_analytics {A} (query : handler (GatewayResult A)) : handler (GatewayResult A) :=
  let! permit := (ask (TryAcquire AnalyticsPermits) : handler bool) in
  if negb permit then Ret (Err GatewayOverloaded)
  else let! r := query in let! late := (ask (TimedOut 20) : handler bool) in Ret (if late then Err StoreUnavailable else r).
Definition usage_read_query {A} h (query : handler (GatewayResult A)) (json : A → option Value) : handler Response :=
  or_return (require_admin_scope h SCOPE_USAGE_READ) (λ _,
    or_error h (usage_analytics query) (λ v, Ret (no_store "no-store" (json_response (json v))))).
Definition usage_section h (section : UsageSectionKind) (query : UsageQuery) : handler Response :=
  usage_read_query h (read_value (UsageSection query section)) id.
Definition usage_summary h (query : UsageQuery) : handler Response := usage_read_query h (read_value (UsageSummaryOf query)) id.
Definition usage_dashboard h (query : UsageQuery) : handler Response := usage_read_query h (read_value (UsageDashboard query)) id.
Definition usage_timeseries h (query : UsageQuery) : handler Response := usage_read_query h (read_value (UsageTimeseries query)) id.
Definition usage_breakdown h (query : UsageQuery) (dimension : UsageBreakdownDimension) : handler Response :=
  usage_read_query h (read_value (UsageBreakdownOf query dimension)) id.
Definition usage_by_key h (query : UsageQuery) : handler Response := usage_breakdown h query ByKey.
Definition usage_by_project h (query : UsageQuery) : handler Response := usage_breakdown h query ByProject.
Definition usage_by_model h (query : UsageQuery) : handler Response := usage_breakdown h query ByModel.
Definition usage_by_provider h (query : UsageQuery) : handler Response := usage_breakdown h query ByProvider.
Definition usage_by_service h (query : UsageQuery) : handler Response := usage_breakdown h query ByService.
Definition usage_by_task h (query : UsageQuery) : handler Response := usage_breakdown h query ByTask.
Definition rows_json (rows : list UsageExportRow) : option Value := array_json (map usage_row_json rows).
Definition page_json (p : UsageEventsPage) : option Value :=
  object_json ([("rows", rows_json (pg_rows p)); ("limit", Some (int_json (pg_limit p))); ("offset", Some (int_json (pg_offset p)));
                ("has_more", Some (JBool (pg_has_more p)))]
    ++ match pg_next_cursor p with Some c => [("next_cursor", Some (JString c))] | None => [] end
    ++ match pg_snapshot_cursor p with Some c => [("snapshot_cursor", Some (JString c))] | None => [] end).
Definition usage_events h (query : UsageQuery) : handler Response := usage_read_query h (ask (ReadUsageEvents query)) page_json.
Definition usage_filter_values h (query : UsageQuery) (field : string) (q : option string) : handler Response :=
  usage_read_query h (read_value (UsageFilterValues query field q)) id.
Definition usage_unused_keys h (query : UsageQuery) : handler Response := usage_read_query h (read_value (UnusedKeys query)) id.
Definition task_usage h (task_id : string) (query : UsageQuery) : handler Response :=
  usage_read_query h (read_value (UsageSummaryOf (scoped_query query (uq_project_id query) (uq_service query) (Some task_id) (uq_status query)))) id.
Definition export_json (e : UsageExport) : option Value := object_json [("summary", ex_summary e); ("rows", rows_json (ex_rows e))].
Definition export_headers (csv : bool) : list (string * string) :=
  if csv then [("content-type", "text/csv; charset=utf-8"); ("content-disposition", attachment "relayna-usage.csv")]
  else [("content-type", "application/json"); ("content-disposition", attachment "relayna-usage.json")].

(** An export of a bounded period, from its start, in order. *)
Definition export_query (query : UsageQuery) : UsageQuery :=
  page_query query (Some 1000) (Some 0) (Some "start") (Some "created_at") (Some "asc").
Definition json_prefix (summary : option Value) : string :=
  "{" +:+ String dquote ("summary" +:+ String dquote (":" +:+ default "" (value_text <$> summary) +:+ "," +:+
    String dquote ("rows" +:+ String dquote ":["))).
Definition export_started (query : UsageQuery) (csv : bool) (summary : option Value) (first_page : UsageEventsPage) : UsageExportStream :=
  {| es_query := query; es_page := Some first_page; es_prefix := Some (if csv then csv_body [] else json_prefix summary); es_csv := csv;
     es_emitted_rows := false; es_done := false; es_finished := false |}.
Definition usage_export_stream h (query : UsageQuery) (csv : bool) : handler Response :=
  or_return (require_admin_scope h SCOPE_USAGE_EXPORT) (λ _,
  if is_none_or (λ '(from, to), to <=? from) (zip_opt (uq_from query) (uq_to query)) || is_some (uq_cursor query)
     || is_some_and (λ o, negb (o =? 0)) (uq_offset query)
  then Ret (error_response h InvalidUsageQuery)
  else
    let! permit := (ask (TryAcquire ExportPermits) : handler bool) in
    if negb permit then Ret (error_response h GatewayOverloaded)
    else
      let query := export_query query in
      or_error h (usage_analytics (ask (ReadUsageExportPage query))) (λ first_page,
      let summary_query := page_query query (uq_limit query) (uq_offset query) (pg_snapshot_cursor first_page) (uq_sort_by query) (uq_sort_order query) in
      or_error h (usage_analytics (read_value (UsageSummaryOf summary_query))) (λ summary,
        Ret {| rp_status := 200; rp_headers := export_headers csv ++ [("cache-control", "no-store")];
               rp_body := ExportBody (export_started query csv summary first_page) |}))).

(** The texts of rows, separated by commas. *)
Definition rows_text (rows : list UsageExportRow) : option string :=
  (λ vs, join_commas (map value_text vs)) <$> all_json (map usage_row_json rows).
(** The chunk of a page, and whether rows were sent before or in it. *)
Definition export_chunk (s : UsageExportStream) (p : UsageEventsPage) : option (string * bool) :=
  if es_csv s then Some (default "" (snd <$> split_once newline (csv_body (pg_rows p))), es_emitted_rows s)
  else
    text ← rows_text (pg_rows p);
    Some ((if es_emitted_rows s && negb (is_nil (pg_rows p)) then String comma "" else "") +:+ text,
          es_emitted_rows s || negb (is_nil (pg_rows p))).
Definition continued (s : UsageExportStream) (p : UsageEventsPage) (emitted : bool) : UsageExportStream :=
  let q := es_query s in
  {| es_query := page_query q (uq_limit q)
       (Some (if is_some (pg_next_cursor p) then 0 else default 0 (uq_offset q) + Z.of_nat (length (pg_rows p))))
       (pg_next_cursor p) (uq_sort_by q) (uq_sort_order q);
     es_page := None; es_prefix := None; es_csv := es_csv s; es_emitted_rows := emitted; es_done := negb (pg_has_more p);
     es_finished := es_finished s |}.
Definition without_prefix (s : UsageExportStream) : UsageExportStream :=
  {| es_query := es_query s; es_page := es_page s; es_prefix := None; es_csv := es_csv s; es_emitted_rows := es_emitted_rows s;
     es_done := es_done s; es_finished := es_finished s |}.
Definition finish (s : UsageExportStream) : UsageExportStream :=
  {| es_query := es_query s; es_page := es_page s; es_prefix := es_prefix s; es_csv := es_csv s; es_emitted_rows := es_emitted_rows s;
     es_done := es_done s; es_finished := true |}.
(** A step of the stream: its end, or a chunk and the next state; an error
    breaks the response off. *)
Definition export_page (s : UsageExportStream) (p : UsageEventsPage) : Prelude.result unit (option (string * UsageExportStream)) :=
  match export_chunk s p with
  | None => Err tt
  | Some (chunk, emitted) => Ok (Some (chunk, continued s p emitted))
  end.
Definition export_next (s : UsageExportStream) : handler (Prelude.result unit (option (string * UsageExportStream))) :=
  match es_prefix s with
  | Some prefix => Ret (Ok (Some (prefix, without_prefix s)))
  | None =>
      if es_finished s then Ret (Ok None)
      else if es_done s then Ret (Ok (if es_csv s then None else Some ("]}", finish s)))
      else
        match es_page s with
        | Some page => Ret (export_page s page)
        | None =>
            let! r := usage_analytics (ask (ReadUsageExportPage (es_query s))) in
            Ret match r with Ok page => export_page s page | Err _ => Err tt end
        end
  end.

Definition usage_export_json h (query : UsageQuery) : handler Response :=
  if default false (uq_stream query) then usage_export_stream h query false
  else
    or_return (require_admin_scope h SCOPE_USAGE_EXPORT) (λ _,
      or_error h (usage_analytics (ask (ReadUsageExport query))) (λ e,
        Ret {| rp_status := 200; rp_headers := export_headers false; rp_body := JsonBody (export_json e) |})).
Definition usage_export_csv h (query : UsageQuery) : handler Response :=
  if default false (uq_stream query) then usage_export_stream h query true
  else
    or_return (require_admin_scope h SCOPE_USAGE_EXPORT) (λ _,
      or_error h (usage_analytics (ask (ReadUsageExport query))) (λ e,
        Ret {| rp_status := 200; rp_headers := export_headers true; rp_body := TextBody (csv_body (ex_rows e)) |})).

(** ** Provider health and debug bundles *)

Definition provider_health h (query : UsageQuery) : handler Response := admin_query h SCOPE_USAGE_READ (read_value (ProviderHealth query)) id.
Definition provider_health_state h : handler Response := admin_query h SCOPE_USAGE_READ (read_value ListProviderHealthStates) id.
Definition upsert_provider_health_state h (state : ProviderHealthState) : handler Response :=
  admin_query h SCOPE_PROVIDERS_UPDATE (ask (Mutate (UpsertProviderHealthState state))) row_json.
Definition active_health_check (t : ProviderHealthCheckTarget) : handler ActiveHealthCheck :=
  let! checked_at := ask UtcNow in
  match ht_base_url t with
  | None => Ret {| hc_ok := false; hc_latency_ms := None; hc_error_code := Some "missing_upstream_url"; hc_checked_at := checked_at |}
  | Some base_url =>
      if is_none (url_parse base_url)
      then Ret {| hc_ok := false; hc_latency_ms := None; hc_error_code := Some "invalid_upstream_url"; hc_checked_at := checked_at |}
      else
        let! probe := ask (ProbeHealth (eq_ignore_ascii_case (ht_health_check_method t) "HEAD") base_url
          (opt_filter (λ v, negb (is_empty (trim v))) (ht_health_check_path t))
          (opt_filter (λ v, negb (is_empty (trim v))) (ht_credential t))) in
        Ret (health_result (ht_name t) probe checked_at)
  end.
Fixpoint check_targets (targets : list ProviderHealthCheckTarget) (results : list (option Value)) : handler (GatewayResult (option Value)) :=
  match targets with
  | [] => Ret (Ok (object_json [("results", array_json results)]))
  | t :: targets =>
      let! checked := active_health_check t in
      let! now := ask UtcNow in
      let! stored := ask (Mutate (UpsertProviderHealthState (provider_health_state_from_check (ht_name t) (ht_provider t) checked now))) in
      match stored with
      | Err e => Ret (Err e)
      | Ok row => check_targets targets (results ++ [row_json row])
      end
  end.
Definition run_provider_health_checks h : handler Response :=
  admin_query h SCOPE_PROVIDERS_UPDATE
    (let! targets := ask ReadHealthTargets in
     match targets with
     | Err e => Ret (Err e)
     | Ok targets =>
         let! built := (ask BuildHealthClient : handler bool) in
         if negb built then Ret (Err InvalidConfiguration) else check_targets targets []
     end) id.
Definition get_debug_bundle h (request_id : string) : handler Response :=
  or_return (require_admin_scope h SCOPE_USAGE_READ) (λ _,
    or_error h (ask (ReadDebugBundle request_id)) (λ b,
      Ret match b with Some b => json_response (bundle_json b) | None => error_response h MissingDebugBundle end)).

(** ** Imports of services *)

Definition import_diff : list ServiceResponse → list StudioServiceImportRequest → ServiceImportDiff :=
  service_import_diff url_parse import_valid.
Definition preview_service_import h (services : list StudioServiceImportRequest) : handler Response :=
  admin_query h SCOPE_SERVICES_UPDATE
    (let! existing := ask ReadAllServices in Ret (let? existing := existing in Ok (import_diff existing services)))
    (λ d, object_json [("diff", diff_json d)]).
Definition activate_service_import h (source : option string) (services : list StudioServiceImportRequest) : handler Response :=
  admin_query h SCOPE_SERVICES_UPDATE
    (let! existing := ask ReadAllServices in
     match existing with
     | Err e => Ret (Err e)
     | Ok existing =>
         let diff := import_diff existing services in
         if negb (is_nil (di_invalid diff)) then Ret (Err InvalidServicePayload)
         else ask (Mutate (ActivateServiceRegistryImport (default "admin-api" source) diff services None))
     end) row_json.
Definition service_import_versions h : handler Response := admin_query h SCOPE_SERVICES_UPDATE (read_value ListServiceRegistrySnapshots) id.
Definition rollback_service_import h (version : Z) : handler Response :=
  admin_query h SCOPE_SERVICES_UPDATE
    (let! snapshot := ask (ReadRegistrySnapshot version) in
     match snapshot with
     | Err e => Ret (Err e)
     | Ok None => Ret (Err MissingService)
     | Ok (Some snapshot) =>
         match sn_services snapshot with
         | None => Ret (Err InvalidServicePayload)
         | Some services => ask (Mutate (ActivateServiceRegistryImport "rollback" (sn_diff snapshot) services (Some version)))
         end
     end) row_json.

End handlers.

#[local] Open Scope prog_scope.

(** ** Texts that add up *)

Lemma join_commas_cons f l : join_commas (f :: l) = f +:+ (if is_nil l then "" else String comma (join_commas l)).
Proof. destruct l as [|g l]; cbn; [by rewrite append_nil_r|done]. Qed.
Lemma join_commas_app l l' : join_commas (l ++ l') = join_commas l +:+ (if negb (is_nil l) && negb (is_nil l') then String comma "" else "") +:+ join_commas l'.
Proof.
  induction l as [|f l IH]; [done|]. change ((f :: l) ++ l') with (f :: (l ++ l')). rewrite !join_commas_cons, append_assoc. f_equal.
  destruct l as [|g l]; cbn [is_nil app negb andb] in *.
  - destruct l' as [|g l']; done.
  - change ((g :: l) ++ l') with (g :: (l ++ l')) in *. cbn [String.append is_nil]. by rewrite IH.
Qed.
Lemma all_json_app l l' vs : all_json (l ++ l') = Some vs → ∃ vs1 vs2, all_json l = Some vs1 ∧ all_json l' = Some vs2 ∧ vs = vs1 ++ vs2.
Proof.
  revert vs. induction l as [|v l IH]; intros vs; cbn [app all_json]; [by exists [], vs|].
  destruct v as [v|]; [|done]. cbn. destruct (all_json (l ++ l')) as [ws|] eqn:E; [|done]. intros [= <-].
  destruct (IH ws eq_refl) as (vs1 & vs2 & -> & -> & ->). by exists (v :: vs1), vs2.
Qed.
Lemma all_json_nil {A} (f : A → option Value) l vs : all_json (map f l) = Some vs → is_nil vs = is_nil l.
Proof.
  destruct l as [|a l]; cbn; [by intros [= <-]|]. destruct (f a); [|done]. cbn. destruct (all_json _); [|done]. by intros [= <-].
Qed.

Section streams.
Context `{ApiJson}.
Abbreviation csv_body := (usage_export_csv_body f64_text to_rfc3339).
Definition csv_lines (rows : list UsageExportRow) : string :=
  foldr (λ r s, csv_line (map csv_escape (csv_fields f64_text to_rfc3339 r)) +:+ s) "" rows.
Lemma csv_body_lines rows : csv_body rows = csv_line csv_header +:+ csv_lines rows.
Proof. unfold usage_export_csv_body. apply foldl_append_string. Qed.
Lemma csv_lines_app l l' : csv_lines (l ++ l') = csv_lines l +:+ csv_lines l'.
Proof.
  induction l as [|r l IH]; [done|]. change ((r :: l) ++ l') with (r :: (l ++ l')). unfold csv_lines in *. cbn [foldr].
  by rewrite IH, append_assoc.
Qed.
Lemma split_first_line a b : contains_byte newline a = false → split_once newline (a +:+ String newline b) = Some (a, b).
Proof.
  induction a as [|c a IH]; cbn [String.append split_once]; [done|]. rewrite contains_byte_cons. intros [Hc Ha]%orb_false_iff.
  rewrite Hc. by rewrite IH.
Qed.
Lemma csv_chunk rows : default "" (snd <$> split_once newline (csv_body rows)) = csv_lines rows.
Proof. rewrite csv_body_lines. unfold csv_line. rewrite append_assoc. cbn [String.append]. by rewrite split_first_line. Qed.

(** The response body, as the client gets it. *)
Fixpoint drain (fuel : nat) (s : UsageExportStream) : handler (option string) :=
  match fuel with
  | O => Ret None
  | S fuel =>
      let! next := export_next s in
      match next with
      | Err _ => Ret None
      | Ok None => Ret (Some "")
      | Ok (Some (chunk, s)) => let! rest := drain fuel s in Ret ((λ r, chunk +:+ r) <$> rest)
      end
  end.

(** A store that has the pages, and permits that are free. *)
Definition pages_served (t : history) : nat :=
  length (List.filter (λ e : event answer, match projT1 e with ReadUsageExportPage _ => true | _ => false end) t).
Definition serving (pages : list UsageEventsPage) (other : world answer) : world answer := λ t op,
  match op as o return answer o with
  | TryAcquire _ => true
  | TimedOut _ => false
  | ReadUsageExportPage _ => match nth_error pages (pages_served t) with Some p => Ok p | None => Err StoreUnavailable end
  | op => other t op
  end.
Definition page_rows (pages : list UsageEventsPage) : list UsageExportRow := flat_map pg_rows pages.
(** What is sent once the pages that are left have been read. *)
Definition tail_text (csv emitted : bool) (pages : list UsageEventsPage) (vs : list Value) : string :=
  if csv then csv_lines (page_rows pages)
  else (if emitted && negb (is_nil vs) then String comma "" else "") +:+ join_commas (map value_text vs) +:+ "]}".
Lemma pages_served_snoc t e : pages_served (t ++ [e]) = (pages_served t + match projT1 e with ReadUsageExportPage _ => 1 | _ => 0 end)%nat.
Proof. unfold pages_served. rewrite List.filter_app, length_app. f_equal. destruct e as [[] x]; done. Qed.

Definition running (s : UsageExportStream) (csv emitted is_done : bool) : Prop :=
  es_prefix s = None ∧ es_page s = None ∧ es_finished s = false ∧ es_csv s = csv ∧ es_emitted_rows s = emitted ∧ es_done s = is_done.
Lemma tail_step csv emitted p pages vs : all_json (map usage_row_json (page_rows (p :: pages))) = Some vs →
  ∀ s, es_csv s = csv → es_emitted_rows s = emitted →
  ∃ chunk emitted' vs', export_chunk s p = Some (chunk, emitted') ∧ all_json (map usage_row_json (page_rows pages)) = Some vs' ∧
    chunk +:+ tail_text csv emitted' pages vs' = tail_text csv emitted (p :: pages) vs.
Proof.
  intros Hvs s Hc He. unfold page_rows in Hvs. cbn [flat_map] in Hvs. fold (page_rows pages) in Hvs. rewrite map_app in Hvs.
  destruct (all_json_app _ _ _ Hvs) as (vs1 & vs2 & H1 & H2 & ->). unfold export_chunk. rewrite Hc, He. destruct csv.
  - eexists _, _, vs2. split; [reflexivity|]. split; [done|]. rewrite csv_chunk. cbn [tail_text]. unfold page_rows. cbn [flat_map].
    by rewrite csv_lines_app.
  - unfold rows_text. rewrite H1. cbn. eexists _, _, vs2. split; [reflexivity|]. split; [done|].
    rewrite map_app, join_commas_app, <- (all_json_nil _ _ _ H1), !append_assoc. destruct vs1 as [|v vs1]; cbn.
    + by rewrite orb_false_r, andb_false_r.
    + rewrite orb_true_r, !andb_true_r. cbn. by destruct vs2.
Qed.
Lemma served_page ps other q t p : nth_error ps (pages_served t) = Some p →
  ∃ t', run (serving ps other) (usage_analytics (ask (ReadUsageExportPage q))) t = (Ok p, t') ∧ pages_served t' = S (pages_served t).
Proof.
  intros Hp. unfold usage_analytics. cbn [pbind Programs.ask run serving negb].
  rewrite pages_served_snoc. cbn [projT1]. rewrite Nat.add_0_r, Hp. eexists. split; [reflexivity|].
  rewrite !pages_served_snoc. cbn. lia.
Qed.
Lemma drop_next {A} n (l : list A) x l' : drop n l = x :: l' → drop (S n) l = l'.
Proof.
  intros Hd. assert (l !! n = Some x) as Hx by (rewrite <- (Nat.add_0_r n), <- lookup_drop, Hd; done).
  rewrite (drop_S _ _ _ Hx) in Hd. by injection Hd.
Qed.
Lemma drain_tail ps other pages : ∀ fuel s t csv emitted vs,
  (length pages + 2 ≤ fuel)%nat → running s csv emitted (is_nil pages) → drop (pages_served t) ps = pages →
  Forall (λ p, pg_has_more p = true) (take (pred (length pages)) pages) → (∀ p, last pages = Some p → pg_has_more p = false) →
  all_json (map usage_row_json (page_rows pages)) = Some vs →
  ∃ t', run (serving ps other) (drain fuel s) t = (Some (tail_text csv emitted pages vs), t').
Proof.
  induction pages as [|p pages IH]; intros fuel s t csv emitted vs Hf (Hpre & Hpg & Hfin & Hc & He & Hd) Hdrop Hmore Hlast Hvs.
  - destruct fuel as [|[|fuel]]; cbn in Hf; try lia. cbn in Hvs. injection Hvs as <-. cbn [drain]. rewrite run_bind.
    unfold export_next at 1. rewrite Hpre, Hfin, Hd, Hc. cbn [is_nil run]. destruct csv; [by eexists|]. rewrite run_bind. cbn [drain].
    rewrite run_bind. unfold export_next, finish. cbn. rewrite Hpre. cbn. eexists. by destruct emitted.
  - destruct fuel as [|fuel]; cbn in Hf; [lia|]. cbn [drain]. rewrite run_bind. unfold export_next. rewrite Hpre, Hfin, Hd, Hpg. cbn [is_nil].
    assert (nth_error ps (pages_served t) = Some p) as Hp.
    { rewrite <- (Nat.add_0_r (pages_served t)), <- nth_error_skipn. change skipn with (@drop UsageEventsPage). by rewrite Hdrop. }
    destruct (served_page ps other (es_query s) t p Hp) as (t1 & Hr & Ht1). rewrite run_bind, Hr. cbn [run].
    destruct (tail_step csv emitted p pages vs Hvs s Hc He) as (chunk & emitted' & vs' & Hch & Hvs' & Htext).
    unfold export_page. rewrite Hch, run_bind. cbn [run].
    destruct (IH fuel (continued s p emitted') t1 csv emitted' vs') as (t2 & Hrun); [lia|..|done|].
    + unfold running, continued. cbn. repeat split; try done. destruct pages as [|p' pages]; cbn in *.
      * by rewrite (Hlast p eq_refl).
      * by rewrite (Forall_inv Hmore).
    + rewrite Ht1. apply drop_next in Hdrop. done.
    + destruct pages as [|p' pages]; cbn in *; [constructor|]. by apply Forall_inv_tail in Hmore.
    + intros p' Hp'. apply Hlast. destruct pages; done.
    + rewrite Hrun. cbn. rewrite Htext. by eexists.
Qed.

(** The export in one piece. *)
Definition whole_export (csv : bool) (summary : option Value) (rows : list UsageExportRow) (vs : list Value) : string :=
  if csv then csv_body rows else json_prefix summary +:+ join_commas (map value_text vs) +:+ "]}".

(** however the store cuts the rows of an export into pages - all of which but
    the last say that there is more - the streamed response ends, and its chunks
    add up to the CSV text of all rows in order, or to one JSON document with the
    summary and all rows, separated by single commas. *)
Theorem export_stream_whole csv query summary first rest other vs
    (Hmore : Forall (λ p, pg_has_more p = true) (take (length rest) (first :: rest)))
    (Hlast : ∀ p, last (first :: rest) = Some p → pg_has_more p = false)
    (Hrows : all_json (map usage_row_json (page_rows (first :: rest))) = Some vs) :
  ∃ t, run (serving rest other) (drain (length rest + 4) (export_started query csv summary first)) []
    = (Some (whole_export csv summary (page_rows (first :: rest)) vs), t).
Proof.
  replace (length rest + 4)%nat with (S (S (length rest + 2))) by lia. cbn [drain]. rewrite run_bind. unfold export_next at 1, export_started.
  cbn [es_prefix run]. rewrite run_bind. cbn [drain]. rewrite run_bind.
  unfold export_next, without_prefix. cbn [es_prefix es_finished es_done es_page run].
  match goal with |- context [export_page ?s0 first] => set (s := s0) end.
  destruct (tail_step csv false first rest vs Hrows s eq_refl eq_refl) as (chunk & emitted & vs' & Hch & Hvs' & Htext).
  unfold export_page. rewrite Hch, run_bind.
  destruct (drain_tail rest other rest (length rest + 2) (continued s first emitted) [] csv emitted vs') as (t & Hrun); [lia|..|done|].
  - unfold running, continued. cbn. repeat split. destruct rest as [|p rest]; cbn in *.
    + by rewrite (Hlast first eq_refl).
    + by rewrite (Forall_inv Hmore).
  - done.
  - destruct rest as [|p rest]; cbn in *; [constructor|]. by apply Forall_inv_tail in Hmore.
  - intros p Hp. apply Hlast. by destruct rest.
  - rewrite Hrun. cbn [run fmap option_fmap option_map]. exists t. f_equal. f_equal. rewrite Htext. unfold whole_export, tail_text.
    destruct csv; [|done]. rewrite !csv_body_lines. cbn [csv_lines foldr]. by rewrite append_assoc.
Qed.
End streams.

Module StreamSample.
#[local] Instance json : ApiJson :=
  {| member_json := λ _, None; service_membership_json := λ _, None; project_membership_json := λ _, None; service_json := λ _, None;
     studio_json := λ _, None; diff_json := λ _, None; layer_trace_json := λ _, None; openapi_json := λ _, None;
     auth_settings_json := λ _, None; usage_row_json := λ r, Some (JString (ur_request_id r)); bundle_json := λ _, None;
     identity_method_json := λ _, JNull; time_json := λ _, JNull; f64_json := λ _, JNull;
     value_text := λ v, match v with JString s => s | _ => "null" end; f64_text := λ _, "0"; to_rfc3339 := λ _, "now" |}.
(** Stores that answer nothing. *)
Definition unavailable : world answer := λ _ op,
  match op as o return answer o with
  | UtcNow => 0
  | RandomOpaqueToken => ""
  | TryAcquire _ | TimedOut _ | BuildHealthClient => false
  | CheckFoundryConnection _ => (JNull, JNull)
  | GetDocument _ _ => GetFailed
  | ProbeHealth _ _ _ _ => {| hp_answer := HealthTimeout; hp_elapsed_ms := 0 |}
  | _ => Err StoreUnavailable
  end.
Definition row (id : string) : UsageExportRow :=
  {| ur_request_id := id; ur_key_id := "k"; ur_project_id := None; ur_route := "/v1/responses"; ur_model := None; ur_provider := "litellm";
     ur_status := "success"; ur_status_code := 200; ur_latency_ms := 5; ur_input_tokens := 1; ur_output_tokens := 2; ur_total_tokens := 3;
     ur_estimated_cost_usd := None; ur_cost_source := None; ur_cost_mode := None; ur_pricing_rule_name := None; ur_service_name := None;
     ur_service_version := None; ur_http_method := None; ur_endpoint_path := None; ur_endpoint_template := None; ur_task_id := None;
     ur_run_id := None; ur_trace_id := None; ur_fallback_count := 0; ur_guardrail_action_count := 0; ur_created_at := 0 |}.
Definition page (ids : list string) (has_more : bool) : UsageEventsPage :=
  {| pg_rows := map row ids; pg_limit := 1000; pg_offset := 0; pg_has_more := has_more; pg_next_cursor := Some "c"; pg_snapshot_cursor := None |}.
Definition query : UsageQuery :=
  {| uq_from := Some 0; uq_to := Some 1; uq_project_id := None; uq_key_id := None; uq_route := None; uq_provider := None; uq_service := None;
     uq_request_id := None; uq_method := None; uq_endpoint := None; uq_task_id := None; uq_run_id := None; uq_model := None;
     uq_status := None; uq_status_code := None; uq_trace_id := None; uq_min_cost_usd := None; uq_interval := None; uq_limit := None;
     uq_offset := None; uq_cursor := None; uq_stream := Some true; uq_timeseries_limit := None; uq_timeseries_offset := None;
     uq_service_timeseries_limit := None; uq_service_timeseries_offset := None; uq_breakdown_limit := None; uq_breakdown_offset := None;
     uq_sort_by := None; uq_sort_order := None |}.
Definition pages : list UsageEventsPage := [page [] true; page ["b"; "c"] true; page ["d"] false].
End StreamSample.
Lemma export_stream_whole_witness :
  let json := StreamSample.json in
  ∃ t, run (serving StreamSample.pages StreamSample.unavailable)
         (drain 7 (export_started (export_query StreamSample.query) false (Some (JString "s")) (StreamSample.page ["a"] true))) []
    = (Some (json_prefix (Some (JString "s")) +:+ "a,b,c,d]}"), t).
Proof.
  refine (export_stream_whole (H := StreamSample.json) false (export_query StreamSample.query) (Some (JString "s"))
    (StreamSample.page ["a"] true) StreamSample.pages StreamSample.unavailable
    (map JString ["a"; "b"; "c"; "d"]) _ _ _).
  - repeat constructor.
  - intros p [= <-]. reflexivity.
  - reflexivity.
Defined.

#[local] Open Scope prog_scope.

Record PolicySimulationRequest := {
  si_key_id : option string;
  si_team_id : option string;
  si_path : string;
  si_method : string;
  si_provider : option string;
  si_service_name : option string;
  si_body : option Value;
  si_request_body_bytes : option Z;
  si_response_body_bytes : option Z;
  si_estimated_cost_usd : option f64;
  si_preset : option KeyPreset;
  si_policy : option KeyPolicyPatch;
  si_guardrail_policy : option GuardrailPolicyPatch
}.
Record PolicySimulationDecision := { allowed : bool; error_code : option string; message : string }.
Record GuardrailTestRequest := { gt_guardrails : list string; gt_mode : GuardrailMode; gt_input : Value }.

Definition or_some {A} (a b : option A) : option A := match a with Some _ => a | None => b end.
Definition with_service (f : GenerationFeatures) (s : option string) : GenerationFeatures :=
  {| feat_model := feat_model f; feat_stream := feat_stream f; feat_tools := feat_tools f; feat_service_name := s |}.
Definition key_policies (p : GuardrailPolicy) : GuardrailPolicySet :=
  {| key_policy := p; team_policy := None; route_policy := None; model_policy := None |}.
(** The first refusal: by the policy, by its limits, by the guardrails. *)
Definition simulation_error (policy : KeyPolicy) (route : Route) (provider : Provider) (features : GenerationFeatures) (now : Z)
    (request_bytes response_bytes : option Z) (cost : option f64) (plan : GatewayResult GuardrailPlan) : option GatewayError :=
  match (check? evaluate_policy policy route provider features in
         evaluate_policy_limits policy now request_bytes response_bytes None None cost) with
  | Err e => Some e
  | Ok _ => match plan with Err e => Some e | Ok _ => None end
  end.
Definition decision_of (e : option GatewayError) : PolicySimulationDecision :=
  match e with
  | Some e => {| allowed := false; error_code := Some (code e); message := public_message e |}
  | None => {| allowed := true; error_code := None; message := "Request would be allowed by configured policy." |}
  end.

Class GuardrailJson := {
  definition_json : GuardrailDefinition → option Value;
  record_json : GuardrailExecutionRecord → option Value
}.

Section handlers.
Context {H : Type} `{HeaderMap H} `{ApiJson} `{SerdeJson} `{GuardrailJson}.
Variable token_hash : string → string.
Variable method_parses : string → bool.
(** What a guardrail service answers and the time a guardrail takes. *)
Variable send : HttpGuardrailConfig → HttpGuardrailProviderRequest → GatewayResult HttpGuardrailProviderResponse.
Variable latency : GuardrailInput → Z.
Implicit Types h : H.

Abbreviation require_admin_scope := (require_admin_scope token_hash).

Definition decision_json (d : PolicySimulationDecision) : Value :=
  JObject [("allowed", JBool (allowed d)); ("error_code", opt_json JString (error_code d)); ("message", JString (message d))].
Definition simulation_json (r : PolicySimulationRequest) (route : Route) (provider : Provider) (features : GenerationFeatures)
    (policy : KeyPolicy) (layers : list PolicyLayerTrace) (plan : GatewayResult GuardrailPlan) (d : PolicySimulationDecision) : option Value :=
  object_json
    [("auth", Some (JObject [("key_id", opt_json JString (si_key_id r));
        ("source", JString (if is_some (si_key_id r) then "stored_key" else "default_policy"))]));
     ("route_match", Some (JObject [("route", JString (route_as_str route)); ("provider", JString (provider_as_str provider));
        ("service_name", opt_json JString (feat_service_name features))]));
     ("policy_merge", object_json [("policy_version", Some (int_json (policy_version policy))); ("deny", Some (JBool (deny policy)));
        ("allowed_routes", Some (strings_json (map route_as_str (allowed_routes policy))));
        ("allowed_models", Some (strings_json (allowed_models policy)));
        ("allowed_providers", Some (strings_json (map provider_as_str (allowed_providers policy))));
        ("allowed_services", Some (strings_json (allowed_services policy)));
        ("applied_layers", array_json (map layer_trace_json layers))]);
     ("warnings", Some (strings_json (policy_simulation_warnings policy route provider features (Z.of_nat (length layers)))));
     ("guardrail_plan", Some (strings_json (match plan with Ok p => map Guardrails.name p | Err _ => [] end)));
     ("rate_limit_projection", Some (JObject [("rpm_limit", opt_json int_json (rpm_limit policy));
        ("tpm_limit", opt_json int_json (tpm_limit policy)); ("max_requests_per_day", opt_json int_json (max_requests_per_day policy));
        ("max_tokens_per_day", opt_json int_json (max_tokens_per_day policy))]));
     ("budget_projection", Some (JObject [("daily_budget_usd", opt_json f64_json (daily_budget_usd policy));
        ("monthly_budget_usd", opt_json f64_json (monthly_budget_usd policy));
        ("max_cost_per_request", opt_json f64_json (max_cost_per_request policy))]));
     ("final_decision", Some (decision_json d))].

(** The policy that applies before the request's own changes. *)
Definition simulated_policy (r : PolicySimulationRequest) (route : Route) (model : option string) : handler (GatewayResult EffectivePolicy) :=
  match si_key_id r with
  | Some key_id => ask (ReadEffectivePolicy key_id (si_team_id r) route model)
  | None =>
      Ret (Ok {| eff_policy := match si_preset r with Some preset => apply_preset preset KeyPolicy_default | None => KeyPolicy_default end;
                 eff_guardrail_policy := GuardrailPolicy_default; applied_layers := [] |})
  end.
Definition simulate_policy h (r : PolicySimulationRequest) : handler Response :=
  or_return (require_admin_scope h SCOPE_POLICIES_UPDATE) (λ actor,
  if negb (method_parses (si_method r)) then Ret (error_response h UnsupportedRoute)
  else
  match resolve_match (si_method r) (si_path r),
        (match si_provider r with Some v => (let? p := parse_simulation_provider v in Ok (Some p)) | None => Ok None end) with
  | Err e, _ => Ret (error_response h e)
  | Ok _, Err e => Ret (error_response h e)
  | Ok route_match, Ok chosen =>
      let provider := default (rm_provider route_match) chosen in
      let body := default "" (value_text <$> si_body r) in
      let extracted := extract_generation_features body in
      let features := with_service extracted
        (or_some (feat_service_name extracted) (or_some (si_service_name r) (rm_service_name route_match))) in
      or_error h (simulated_policy r (rm_route route_match) (feat_model features)) (λ effective,
      or_error h (Ret match si_policy r with
                      | Some patch => apply_simulation_policy_patch (eff_policy effective) patch
                      | None => Ok (eff_policy effective)
                      end) (λ policy,
      or_error h (Ret match si_guardrail_policy r with
                      | Some patch => guardrail_policy_patch_apply patch (eff_guardrail_policy effective)
                      | None => Ok (eff_guardrail_policy effective)
                      end) (λ guardrail_policy,
      or_error h (ask ReadGuardrailDefinitions) (λ defs,
      let plan := resolve_guardrail_plan {| plan_mode := PreCall; definitions := defs; policies := key_policies guardrail_policy;
                                            client_requested_guardrails := [] |} in
      let! now := ask UtcNow in
      let d := decision_of (simulation_error policy (rm_route route_match) provider features now
                 (or_some (si_request_body_bytes r) (Some (len body))) (si_response_body_bytes r) (si_estimated_cost_usd r) plan) in
      let json := simulation_json r (rm_route route_match) provider features policy (applied_layers effective) plan d in
      record_admin_audit h actor "policies:simulate" "policy" (si_key_id r) None json (json_response json)))))
  end).

(** ** Guardrails of a key *)

Definition require_virtual_key h : handler (GatewayResult AuthenticatedKey) :=
  match bearer_token h with
  | Err e => Ret (Err e)
  | Ok token => let! now := ask UtcNow in ask (AuthenticateKey ("Bearer " +:+ token) now)
  end.
Definition visible_guardrail (p : GuardrailPolicy) (d : GuardrailDefinition) : bool :=
  (default_on d || str_mem (Guardrails.name d) (mandatory_guardrails p) || str_mem (Guardrails.name d) (optional_guardrails p))
  && negb (str_mem (Guardrails.name d) (forbidden_guardrails p)).
Definition list_guardrails h : handler Response :=
  or_error h (require_virtual_key h) (λ key,
  or_error h (ask ReadGuardrailDefinitions) (λ defs,
  or_error h (ask (ReadGuardrailPolicy (Auth.key_id key))) (λ policy,
    Ret (json_response (object_json
      [("guardrails", array_json (map definition_json (List.filter (visible_guardrail policy) defs)))]))))).
Definition test_context h (key : AuthenticatedKey) : GuardrailContext :=
  {| request_id := request_id_from_headers h; Guardrails.key_id := Some (Auth.key_id key); team_id := None; user_id := None;
     Guardrails.project_id := Auth.project_id key; model := None; route := None; provider := None; pii_mappings := []; applied_guardrails := [];
     guardrail_results := [] |}.
Definition test_guardrails h (r : GuardrailTestRequest) : handler Response :=
  or_error h (require_virtual_key h) (λ key,
  if bool_decide (gt_mode r = DuringCall) then Ret (error_response h InvalidGuardrailRequest)
  else
    or_error h (ask ReadGuardrailDefinitions) (λ defs,
    or_error h (ask (ReadGuardrailPolicy (Auth.key_id key))) (λ policy,
    or_error h (Ret (resolve_guardrail_plan {| plan_mode := gt_mode r; definitions := defs; policies := key_policies policy;
                                               client_requested_guardrails := gt_guardrails r |})) (λ plan,
    let pre := bool_decide (gt_mode r = PreCall) in
    let post := bool_decide (gt_mode r = PostCall) in
    or_error h (Ret (execute (λ n, map_get n (guardrail_executor_for_definitions send defs)) latency plan (gt_mode r) (test_context h key)
                       (if pre then Some (gt_input r) else None) (if post then Some (gt_input r) else None))) (λ execution,
      let input := default (gt_input r) (if pre then ex_request execution else ex_response execution) in
      Ret (json_response (object_json
        [("input", Some input); ("applied_guardrails", Some (strings_json (applied_guardrails (ex_context execution))));
         ("results", array_json (map record_json (ex_records execution)))]))))))).
End handlers.
