(* ===== verification/OwnerApi.v ===== *)
(** * The owner API

    Models the handlers under [/owner/v1] of [crates/gateway-api/src/app.rs]:
    what the owners and viewers of a service or project, and the workloads bound
    to it, may read.  Every read of a request names the service or project of
    its path and follows the answer that grants access to it. *)

From S2P Require Import Prelude SocketFrames StreamGuardrails Errors Routing RouteSettings Json GuardrailPolicy Policies OutputLimits Guardrails AuthAdmission VerificationCache VerificationFlight Auth EndpointAccess Foundry ServiceTypes ServicePricing ProviderConfigs Headers Entra AuthSettings TrafficRequest ProxyContext ProviderSelection OpenApi UsageCsv Access KeyAdmin AdminStore AdminAuth AdminApi AdminConfig AdminUsage.
#[local] Open Scope prog_scope.

(** A service by name or a project by identifier. *)
Inductive OwnerScope : Type := OwnService (service_name : string) | OwnProject (project_id : string).
(** The requests on one scope; [OwnerShow] is the resource itself. *)
Inductive OwnerRead : Type :=
| OwnerShow
| OwnerDashboard (query : UsageQuery)
| OwnerEvents (query : UsageQuery)
| OwnerErrors (query : UsageQuery)
| OwnerLogs (query : UsageQuery)
| OwnerRequestDetails (request_id : string)
| OwnerEndpoints (query : UsageQuery)
| OwnerExportJson (query : UsageQuery)
| OwnerExportCsv (query : UsageQuery).
Inductive OwnerRequest : Type := OwnerServices | OwnerProjects | OwnerOf (scope : OwnerScope) (read : OwnerRead).

(** [query.service = Some(..)] or [query.project_id = Some(..)]. *)
Definition in_scope (s : OwnerScope) (q : UsageQuery) : UsageQuery :=
  match s with
  | OwnService name => scoped_query q (uq_project_id q) (Some name) (uq_task_id q) (uq_status q)
  | OwnProject id => scoped_query q (Some id) (uq_service q) (uq_task_id q) (uq_status q)
  end.
Definition failures_only (q : UsageQuery) : UsageQuery :=
  scoped_query q (uq_project_id q) (uq_service q) (uq_task_id q) (Some "failure").
Definition UsageQuery_default : UsageQuery :=
  {| uq_from := None; uq_to := None; uq_project_id := None; uq_key_id := None; uq_route := None; uq_provider := None; uq_service := None;
     uq_request_id := None; uq_method := None; uq_endpoint := None; uq_task_id := None; uq_run_id := None; uq_model := None;
     uq_status := None; uq_status_code := None; uq_trace_id := None; uq_min_cost_usd := None; uq_interval := None; uq_limit := None;
     uq_offset := None; uq_cursor := None; uq_stream := None; uq_timeseries_limit := None; uq_timeseries_offset := None;
     uq_service_timeseries_limit := None; uq_service_timeseries_offset := None; uq_breakdown_limit := None; uq_breakdown_offset := None;
     uq_sort_by := None; uq_sort_order := None |}.
Definition request_query (s : OwnerScope) (request_id : string) : UsageQuery :=
  {| uq_from := None; uq_to := None; uq_project_id := match s with OwnProject id => Some id | _ => None end; uq_key_id := None;
     uq_route := None; uq_provider := None; uq_service := match s with OwnService n => Some n | _ => None end;
     uq_request_id := Some request_id; uq_method := None; uq_endpoint := None; uq_task_id := None; uq_run_id := None; uq_model := None;
     uq_status := None; uq_status_code := None; uq_trace_id := None; uq_min_cost_usd := None; uq_interval := None; uq_limit := Some 1;
     uq_offset := None; uq_cursor := None; uq_stream := None; uq_timeseries_limit := None; uq_timeseries_offset := None;
     uq_service_timeseries_limit := None; uq_service_timeseries_offset := None; uq_breakdown_limit := None; uq_breakdown_offset := None;
     uq_sort_by := None; uq_sort_order := None |}.
Definition bundle_in (s : OwnerScope) (b : DebugBundle) : bool :=
  match s with
  | OwnService name => bool_decide (db_service_name b = Some name)
  | OwnProject id => bool_decide (db_project_id b = Some id)
  end.

Section handlers.
Context {H : Type} `{HeaderMap H} `{ApiJson}.
Variable token_hash : string → string.
Variable owner_verifier : bool.
(** [HeaderValue::from_str(..).is_ok()]. *)
Variable header_value_ok : string → bool.
Implicit Types h : H.

Definition require_owner_scope h (s : OwnerScope) : handler (Prelude.result Response ServiceMemberRole) :=
  match s with
  | OwnService name => require_owner_service_access token_hash owner_verifier h name
  | OwnProject id => require_owner_project_access token_hash owner_verifier h id
  end.
Definition role_json (r : ServiceMemberRole) : option Value := Some (JString (member_role_as_str r)).

(** ** The resources of a member *)

Fixpoint owned_services h (memberships : list ServiceMembership) (services : list (option Value)) : handler Response :=
  match memberships with
  | [] => Ret (json_response (array_json services))
  | m :: memberships =>
      or_error h (ask (ReadService (sm_service_name m))) (λ s,
        owned_services h memberships
          (services ++ match s with
                       | Some s => if sr_enabled s then [object_json [("service", service_json s); ("role", role_json (sm_role m))]] else []
                       | None => []
                       end))
  end.
Definition owner_services h : handler Response :=
  or_return (require_active_portal_session token_hash h) (λ session,
    or_error h (ask (ReadServiceMemberships (pm_id (ss_member session)))) (λ memberships, owned_services h memberships [])).
Fixpoint owned_projects h (memberships : list ProjectMembership) (projects : list (option Value)) : handler Response :=
  match memberships with
  | [] => Ret (json_response (array_json projects))
  | m :: memberships =>
      or_error h (ask (ReadRow (GetProject (pj_project_id m)))) (λ p,
        owned_projects h memberships
          (projects ++ match p with
                       | Some p => [object_json [("project", row_json p); ("role", role_json (pj_role m))]]
                       | None => []
                       end))
  end.
Definition owner_projects h : handler Response :=
  or_return (require_active_portal_session token_hash h) (λ session,
    or_error h (ask (ReadProjectMemberships (pm_id (ss_member session)))) (λ memberships, owned_projects h memberships [])).

(** ** One resource *)

Definition owner_service h (service_name : string) : handler Response :=
  or_return (require_owner_scope h (OwnService service_name)) (λ role,
    or_error h (ask (ReadService service_name)) (λ s,
      Ret match s with
          | Some s => if sr_enabled s then json_response (object_json [("service", service_json s); ("role", role_json role)]) else NOT_FOUND
          | None => NOT_FOUND
          end)).
Definition owner_project h (project_id : string) : handler Response :=
  or_return (require_owner_scope h (OwnProject project_id)) (λ role,
    or_error h (ask (ReadRow (GetProject project_id))) (λ p,
      Ret match p with
          | Some p => json_response (object_json [("project", row_json p); ("role", role_json role)])
          | None => NOT_FOUND
          end)).

(** Reads one after the other; the first error ends the request. *)
Fixpoint read_values h (reads : list (string * value_read)) (fields : list (string * option Value)) : handler Response :=
  match reads with
  | [] => Ret (json_response (object_json fields))
  | (name, r) :: reads => or_error h (read_value r) (λ v, read_values h reads (fields ++ [(name, v)]))
  end.
Definition scope_field (s : OwnerScope) : string * option Value :=
  match s with OwnService n => ("service_name", Some (JString n)) | OwnProject id => ("project_id", Some (JString id)) end.
Definition owner_dashboard h (s : OwnerScope) (query : UsageQuery) : handler Response :=
  or_return (require_owner_scope h s) (λ role,
    let query := in_scope s query in
    read_values h
      ([("summary", UsageSummaryOf query); ("timeseries", UsageTimeseries query)]
       ++ match s with OwnService _ => [] | OwnProject _ => [("services", UsageBreakdownOf query ByService)] end
       ++ [("endpoints", UsageBreakdownOf query ByEndpoint); ("providers", UsageBreakdownOf query ByProvider);
           ("models", UsageBreakdownOf query ByModel); ("status_codes", UsageStatusCodes query);
           ("version_markers", UsageVersionTransitions query)])
      [scope_field s; ("role", role_json role)]).
Definition owner_page h (s : OwnerScope) (query : UsageQuery) : handler Response :=
  or_return (require_owner_scope h s) (λ _, or_error h (ask (ReadUsageEvents query)) (λ p, Ret (json_response (page_json p)))).
Definition owner_events h (s : OwnerScope) (query : UsageQuery) : handler Response := owner_page h s (in_scope s query).
Definition owner_errors h (s : OwnerScope) (query : UsageQuery) : handler Response := owner_page h s (failures_only (in_scope s query)).
Definition owner_logs h (s : OwnerScope) (query : UsageQuery) : handler Response := owner_events h s query.
Definition owner_request_details h (s : OwnerScope) (request_id : string) : handler Response :=
  or_return (require_owner_scope h s) (λ _,
  or_error h (ask (ReadUsageEvents (request_query s request_id))) (λ events,
    match pg_rows events with
    | [] => Ret (error_response h MissingUsageEvent)
    | request :: _ =>
        or_error h (ask (ReadDebugBundle request_id)) (λ b,
          Ret (json_response (object_json
            [("request", usage_row_json request);
             ("debug_bundle", match opt_filter (bundle_in s) b with Some b => bundle_json b | None => Some JNull end)])))
    end)).
Definition owner_endpoints h (s : OwnerScope) (query : UsageQuery) : handler Response :=
  or_return (require_owner_scope h s) (λ _,
    or_error h (read_value (UsageBreakdownOf (in_scope s query) ByEndpoint)) (λ v, Ret (json_response v))).
Definition export_name (s : OwnerScope) (extension : string) : string :=
  let name := attachment (match s with
                          | OwnService n => "relayna-" +:+ n +:+ "-usage." +:+ extension
                          | OwnProject id => "relayna-project-" +:+ id +:+ "-usage." +:+ extension
                          end) in
  if header_value_ok name then name else "attachment".
Definition owner_export_json h (s : OwnerScope) (query : UsageQuery) : handler Response :=
  or_return (require_owner_scope h s) (λ _,
    or_error h (ask (ReadUsageExport (in_scope s query))) (λ e,
      Ret (with_response_header "content-disposition" (export_name s "json") (json_response (export_json e))))).
Definition owner_export_csv h (s : OwnerScope) (query : UsageQuery) : handler Response :=
  or_return (require_owner_scope h s) (λ _,
    or_error h (ask (ReadUsageExport (in_scope s query))) (λ e,
      Ret {| rp_status := 200; rp_headers := [("content-type", "text/csv; charset=utf-8"); ("content-disposition", export_name s "csv")];
             rp_body := TextBody (usage_export_csv_body f64_text to_rfc3339 (ex_rows e)) |})).

(** The handlers of services and of projects. *)
Definition owner_service_dashboard h (service_name : string) (query : UsageQuery) : handler Response := owner_dashboard h (OwnService service_name) query.
Definition owner_service_events h (service_name : string) (query : UsageQuery) : handler Response := owner_events h (OwnService service_name) query.
Definition owner_service_errors h (service_name : string) (query : UsageQuery) : handler Response := owner_errors h (OwnService service_name) query.
Definition owner_service_logs h (service_name : string) (query : UsageQuery) : handler Response := owner_logs h (OwnService service_name) query.
Definition owner_service_endpoints h (service_name : string) (query : UsageQuery) : handler Response := owner_endpoints h (OwnService service_name) query.
Definition owner_service_export_json h (service_name : string) (query : UsageQuery) : handler Response := owner_export_json h (OwnService service_name) query.
Definition owner_service_export_csv h (service_name : string) (query : UsageQuery) : handler Response := owner_export_csv h (OwnService service_name) query.
Definition owner_service_request_details h (service_name request_id : string) : handler Response :=
  owner_request_details h (OwnService service_name) request_id.
Definition owner_project_dashboard h (project_id : string) (query : UsageQuery) : handler Response := owner_dashboard h (OwnProject project_id) query.
Definition owner_project_events h (project_id : string) (query : UsageQuery) : handler Response := owner_events h (OwnProject project_id) query.
Definition owner_project_errors h (project_id : string) (query : UsageQuery) : handler Response := owner_errors h (OwnProject project_id) query.
Definition owner_project_logs h (project_id : string) (query : UsageQuery) : handler Response := owner_logs h (OwnProject project_id) query.
Definition owner_project_endpoints h (project_id : string) (query : UsageQuery) : handler Response := owner_endpoints h (OwnProject project_id) query.
Definition owner_project_export_json h (project_id : string) (query : UsageQuery) : handler Response := owner_export_json h (OwnProject project_id) query.
Definition owner_project_export_csv h (project_id : string) (query : UsageQuery) : handler Response := owner_export_csv h (OwnProject project_id) query.
Definition owner_project_request_details h (project_id request_id : string) : handler Response :=
  owner_request_details h (OwnProject project_id) request_id.

(** ** The routes under [/owner/v1] *)

Definition owner_dispatch h (r : OwnerRequest) : handler Response :=
  match r with
  | OwnerServices => owner_services h
  | OwnerProjects => owner_projects h
  | OwnerOf (OwnService n) r =>
      match r with
      | OwnerShow => owner_service h n
      | OwnerDashboard q => owner_service_dashboard h n q
      | OwnerEvents q => owner_service_events h n q
      | OwnerErrors q => owner_service_errors h n q
      | OwnerLogs q => owner_service_logs h n q
      | OwnerRequestDetails id => owner_service_request_details h n id
      | OwnerEndpoints q => owner_service_endpoints h n q
      | OwnerExportJson q => owner_service_export_json h n q
      | OwnerExportCsv q => owner_service_export_csv h n q
      end
  | OwnerOf (OwnProject p) r =>
      match r with
      | OwnerShow => owner_project h p
      | OwnerDashboard q => owner_project_dashboard h p q
      | OwnerEvents q => owner_project_events h p q
      | OwnerErrors q => owner_project_errors h p q
      | OwnerLogs q => owner_project_logs h p q
      | OwnerRequestDetails id => owner_project_request_details h p id
      | OwnerEndpoints q => owner_project_endpoints h p q
      | OwnerExportJson q => owner_project_export_json h p q
      | OwnerExportCsv q => owner_project_export_csv h p q
      end
  end.
End handlers.

(** ** Reads stay in the scope that was granted *)

Section scoped.
Context {H : Type} `{HeaderMap H} `{ApiJson}.
Variable token_hash : string → string.
Variable owner_verifier : bool.
Variable header_value_ok : string → bool.
Variable h : H.
Implicit Types t : history.

(** The request's cookie names an active member's session. *)
Definition session_of t (session : StoredPortalSession) : Prop :=
  ∃ raw now, cookie_value h PORTAL_SESSION_COOKIE = Some raw ∧ pm_status (ss_member session) = MemberActive ∧
    existT (ResolvePortalSession (token_hash raw) now) (Ok (Some session)) ∈ t.
Definition identity_of t (identity : EntraIdentityContext) (client : string) : Prop :=
  ∃ now, cookie_value h PORTAL_SESSION_COOKIE = None ∧ client_id_of identity = Some client ∧
    existT (VerifyOwnerToken (header_value h "authorization") now) (Ok identity) ∈ t.
(** The member has a role in the scope, or the workload is bound to it. *)
Definition granted t (s : OwnerScope) : Prop :=
  match s with
  | OwnService n =>
      (∃ session role, session_of t session ∧ existT (MemberServiceRole (pm_id (ss_member session)) n) (Ok (Some role)) ∈ t)
      ∨ ∃ i c b, identity_of t i c ∧ existT (WorkloadServiceBinding (tenant_id i) c (object_id i) n (roles i)) (Ok (Some b)) ∈ t
  | OwnProject p =>
      (∃ session role, session_of t session ∧ existT (MemberProjectRole (pm_id (ss_member session)) p) (Ok (Some role)) ∈ t)
      ∨ ∃ i c b, identity_of t i c ∧ existT (WorkloadProjectBinding (tenant_id i) c (object_id i) p (roles i)) (Ok (Some b)) ∈ t
  end.
(** The scope is one of the memberships of the session's member. *)
Definition listed t (s : OwnerScope) : Prop :=
  ∃ session, session_of t session ∧
    match s with
    | OwnService n => ∃ ms m, existT (ReadServiceMemberships (pm_id (ss_member session))) (Ok ms) ∈ t ∧ m ∈ ms ∧ sm_service_name m = n
    | OwnProject p => ∃ ms m, existT (ReadProjectMemberships (pm_id (ss_member session))) (Ok ms) ∈ t ∧ m ∈ ms ∧ pj_project_id m = p
    end.
Definition query_within (s : OwnerScope) (q : UsageQuery) : Prop :=
  match s with OwnService n => uq_service q = Some n | OwnProject p => uq_project_id q = Some p end.
Definition usage_query (op : action) : option UsageQuery :=
  match op with
  | ReadUsageEvents q | ReadUsageExport q => Some q
  | ReadValue r =>
      match r with
      | UsageSummaryOf q | UsageTimeseries q | UsageBreakdownOf q _ | UsageStatusCodes q | UsageVersionTransitions q => Some q
      | _ => None
      end
  | _ => None
  end.
(** What a request may ask after a trace. *)
Definition owner_may (r : OwnerRequest) t (op : action) : Prop :=
  match op with
  | UtcNow | ResolvePortalSession _ _ | VerifyOwnerToken _ _ | MemberServiceRole _ _ | MemberProjectRole _ _
  | WorkloadServiceBinding _ _ _ _ _ | WorkloadProjectBinding _ _ _ _ _ => True
  | ReadServiceMemberships m => r = OwnerServices ∧ ∃ session, session_of t session ∧ m = pm_id (ss_member session)
  | ReadProjectMemberships m => r = OwnerProjects ∧ ∃ session, session_of t session ∧ m = pm_id (ss_member session)
  | ReadService n => match r with OwnerServices => listed t (OwnService n) | OwnerOf s _ => s = OwnService n ∧ granted t s | _ => False end
  | ReadRow (GetProject p) => match r with OwnerProjects => listed t (OwnProject p) | OwnerOf s _ => s = OwnProject p ∧ granted t s | _ => False end
  | ReadDebugBundle id => ∃ s, r = OwnerOf s (OwnerRequestDetails id) ∧ granted t s
  | _ => ∃ s read q, r = OwnerOf s read ∧ usage_query op = Some q ∧ granted t s ∧ query_within s q
  end.

Lemma session_grows t e session : session_of t session → session_of (t ++ e) session.
Proof. intros (raw & now & Hc & Hs & Hin). exists raw, now. rewrite elem_of_app. auto. Qed.
Lemma granted_grows t e s : granted t s → granted (t ++ e) s.
Proof.
  destruct s; (intros [(session & role & Hs & Hr)|(i & c & b & (now & Hc & Hi & Hv) & Hb)];
    [left; exists session, role; split; [by apply session_grows|]; apply elem_of_app; by left|
     right; exists i, c, b; split; [exists now; rewrite elem_of_app; auto|apply elem_of_app; by left]]).
Qed.
Lemma listed_grows t e s : listed t s → listed (t ++ e) s.
Proof.
  intros (session & Hs & Hm). exists session. split; [by apply session_grows|].
  destruct s; destruct Hm as (ms & m & Hin & Hm); exists ms, m; rewrite elem_of_app; auto.
Qed.

Lemma active_session_ensures r t :
  ensures (owner_may r) (require_active_portal_session token_hash h) (λ x t', ∀ session, x = Ok session → session_of t' session) t.
Proof.
  unfold require_active_portal_session, require_portal_session, fails.
  destruct (cookie_value h PORTAL_SESSION_COOKIE) as [raw|] eqn:Hc; [|done]. cbn. split; [done|]. intros now. split; [done|].
  intros [[session|]|e]; cbn; try done. destruct (pm_status (ss_member session)) eqn:Hs; cbn; try done.
  intros session' [= <-]. exists raw, now. split; [done|]. split; [done|]. apply elem_of_app. right. by left.
Qed.
Lemma owner_access_ensures r t s :
  ensures (owner_may r) (require_owner_scope token_hash owner_verifier h s) (λ x t', ∀ role, x = Ok role → granted t' s) t.
Proof.
  destruct s as [n|p]; cbn [require_owner_scope]; unfold require_owner_service_access, require_owner_project_access, require_owner_access.
  all: destruct (cookie_value h PORTAL_SESSION_COOKIE) as [raw|] eqn:Hc; cbn [is_some].
  1, 3: apply ensures_bind; eapply ensures_mono; [apply active_session_ensures|]; intros [session|resp] t' Hs; [|done];
    cbn; (split; [done|]); intros [[role|]|e]; cbn; try done; intros role' _; left; exists session, role;
    (split; [by apply session_grows, Hs|]); apply elem_of_app; right; by left.
  all: destruct owner_verifier; cbn; [|done]; (split; [done|]); intros now; (split; [done|]); intros [i|e]; cbn; [|done];
    destruct (client_id_of i) as [c|] eqn:Hi; cbn; [|done]; (split; [done|]); intros [[b|]|e]; cbn; try done; intros role _; right;
    exists i, c, b; split; [exists now; repeat split; try done; rewrite !elem_of_app; left; right; by left|
      rewrite !elem_of_app; right; by left].
Qed.

Abbreviation fine r p t := (ensures (owner_may r) p (λ _ _, True) t).
Lemma after_access r s (k : ServiceMemberRole → handler Response) t :
  (∀ role t', granted t' s → fine r (k role) t') → fine r (or_return (require_owner_scope token_hash owner_verifier h s) k) t.
Proof.
  intros Hk. unfold or_return. apply ensures_bind. eapply ensures_mono; [apply owner_access_ensures|].
  intros [role|resp] t' Hg; cbn; [|done]. by apply Hk, Hg with role.
Qed.
Lemma in_scope_within s q : query_within s (in_scope s q).
Proof. by destruct s. Qed.
Lemma errors_within s q : query_within s (failures_only (in_scope s q)).
Proof. by destruct s. Qed.
Lemma request_within s id : query_within s (request_query s id).
Proof. by destruct s. Qed.
Lemma read_values_fine s read reads fields t : granted t s →
  (∀ name r, (name, r) ∈ reads → ∃ q, usage_query (ReadValue r) = Some q ∧ query_within s q) →
  fine (OwnerOf s read) (read_values h reads fields) t.
Proof.
  revert fields t. induction reads as [|[name r] reads IH]; intros fields t Hg Hq; cbn [read_values]; [done|].
  destruct (Hq name r ltac:(by left)) as (q & Hu & Hw). unfold or_error, read_value. cbn [pbind Programs.ask ensures]. split.
  - destruct r; try done; exists s, read, q; done.
  - intros [v|e]; cbn; [|done]. apply IH; [by apply granted_grows|]. intros n r' Hin. apply Hq with n. by right.
Qed.
Lemma owned_services_fine session ms done_ t : session_of t session →
  (∀ m, m ∈ ms → listed t (OwnService (sm_service_name m))) →
  fine OwnerServices (owned_services h ms done_) t.
Proof.
  revert done_ t. induction ms as [|m ms IH]; intros done_ t Hs Hm; cbn [owned_services]; [done|].
  unfold or_error. cbn [pbind Programs.ask ensures]. split; [apply Hm; by left|]. intros [s|e]; cbn; [|done].
  apply IH; [by apply session_grows|]. intros m' Hin. apply listed_grows, Hm. by right.
Qed.
Lemma owned_projects_fine session ms done_ t : session_of t session →
  (∀ m, m ∈ ms → listed t (OwnProject (pj_project_id m))) →
  fine OwnerProjects (owned_projects h ms done_) t.
Proof.
  revert done_ t. induction ms as [|m ms IH]; intros done_ t Hs Hm; cbn [owned_projects]; [done|].
  unfold or_error. cbn [pbind Programs.ask ensures]. split; [apply Hm; by left|]. intros [s|e]; cbn; [|done].
  apply IH; [by apply session_grows|]. intros m' Hin. apply listed_grows, Hm. by right.
Qed.
Lemma owner_lists_fine t : fine OwnerServices (owner_services token_hash h) t ∧ fine OwnerProjects (owner_projects token_hash h) t.
Proof.
  split; unfold owner_services, owner_projects, or_return; apply ensures_bind; (eapply ensures_mono; [apply active_session_ensures|]);
    (intros [session|resp] t' Hs; [|done]); specialize (Hs session eq_refl); unfold or_error; cbn [pbind Programs.ask ensures];
    (split; [split; [done|by exists session]|]); (intros [ms|e]; cbn; [|done]).
  - apply owned_services_fine with session; [by apply session_grows|]. intros m Hm. exists session. split; [by apply session_grows|].
    exists ms, m. repeat split; try done. apply elem_of_app. right. by left.
  - apply owned_projects_fine with session; [by apply session_grows|]. intros m Hm. exists session. split; [by apply session_grows|].
    exists ms, m. repeat split; try done. apply elem_of_app. right. by left.
Qed.
Lemma owner_page_fine s read q t : query_within s q → fine (OwnerOf s read) (owner_page token_hash owner_verifier h s q) t.
Proof.
  intros Hq. apply after_access. intros role t' Hg. cbn. split; [exists s, read, q; done|]. intros [p|e]; done.
Qed.
Lemma owner_read_fine s read t :
  fine (OwnerOf s read)
    match read with
    | OwnerShow => match s with OwnService n => owner_service token_hash owner_verifier h n | OwnProject id => owner_project token_hash owner_verifier h id end
    | OwnerDashboard q => owner_dashboard token_hash owner_verifier h s q
    | OwnerEvents q | OwnerLogs q => owner_events token_hash owner_verifier h s q
    | OwnerErrors q => owner_errors token_hash owner_verifier h s q
    | OwnerRequestDetails id => owner_request_details token_hash owner_verifier h s id
    | OwnerEndpoints q => owner_endpoints token_hash owner_verifier h s q
    | OwnerExportJson q => owner_export_json token_hash owner_verifier header_value_ok h s q
    | OwnerExportCsv q => owner_export_csv token_hash owner_verifier header_value_ok h s q
    end t.
Proof.
  destruct read.
  - destruct s; apply after_access; intros role t' Hg; cbn; (split; [done|]); (intros [[x|]|e]; cbn; try done).
  - apply after_access. intros role t' Hg. apply read_values_fine; [done|]. intros name r Hin. exists (in_scope s query).
    split; [|apply in_scope_within]. destruct s; cbn in Hin; set_solver.
  - apply owner_page_fine, in_scope_within.
  - apply owner_page_fine, errors_within.
  - apply owner_page_fine, in_scope_within.
  - apply after_access. intros role t' Hg. unfold or_error. cbn [pbind Programs.ask ensures].
    split; [exists s, (OwnerRequestDetails request_id), (request_query s request_id); auto using request_within|].
    intros [events|e]; cbn; [|done]. destruct (pg_rows events); cbn; [done|]. split; [exists s; split; [done|by apply granted_grows]|].
    intros [b|e]; done.
  - apply after_access. intros role t' Hg. cbn. split; [|by intros [v|e]].
    exists s, (OwnerEndpoints query), (in_scope s query). auto using in_scope_within.
  - apply after_access. intros role t' Hg. cbn. split; [|by intros [v|e]].
    exists s, (OwnerExportJson query), (in_scope s query). auto using in_scope_within.
  - apply after_access. intros role t' Hg. cbn. split; [|by intros [v|e]].
    exists s, (OwnerExportCsv query), (in_scope s query). auto using in_scope_within.
Qed.
Lemma owner_fine r t : fine r (owner_dispatch token_hash owner_verifier header_value_ok h r) t.
Proof.
  destruct r as [| |[n|p] read]; [apply owner_lists_fine|apply owner_lists_fine|..].
  - pose proof (owner_read_fine (OwnService n) read t) as Hf. destruct read; exact Hf.
  - pose proof (owner_read_fine (OwnProject p) read t) as Hf. destruct read; exact Hf.
Qed.

(** The bundle carries the service or the project of the path. *)
Definition owned_bundle (s : OwnerScope) (b : DebugBundle) : Prop :=
  match s with OwnService n => db_service_name b = Some n | OwnProject p => db_project_id b = Some p end.
(** The response that details a request: its first usage row within the scope,
    with a debug bundle or without one. *)
Definition details_of (s : OwnerScope) (id : string) t (bundle : option DebugBundle) (resp : Response) : Prop :=
  ∃ page row rest, existT (ReadUsageEvents (request_query s id)) (Ok page) ∈ t ∧ pg_rows page = row :: rest ∧
    resp = json_response (object_json
      [("request", usage_row_json row); ("debug_bundle", match bundle with Some b => bundle_json b | None => Some JNull end)]).
(** A bundle that was read is shown exactly if it belongs to the scope. *)
Definition bundle_shown (r : OwnerRequest) (resp : Response) t : Prop :=
  ∀ s id b, r = OwnerOf s (OwnerRequestDetails id) → existT (ReadDebugBundle id) (Ok (Some b)) ∈ t →
    (owned_bundle s b → details_of s id t (Some b) resp) ∧ (¬ owned_bundle s b → details_of s id t None resp).
Definition no_bundle t : Prop := ∀ id x, existT (ReadDebugBundle id) x ∉ t.
Lemma no_bundle_snoc t op x : no_bundle t → (∀ id, op ≠ ReadDebugBundle id) → no_bundle (t ++ [existT op x]).
Proof.
  intros Ht Hop id y [Hin|Heq%list_elem_of_singleton]%elem_of_app; [by apply (Ht id y)|].
  apply (Hop id). by apply (f_equal (λ e, projT1 e)) in Heq.
Qed.
Lemma access_no_bundle s t : no_bundle t →
  ensures (λ _ _, True) (require_owner_scope token_hash owner_verifier h s) (λ _ t', no_bundle t') t.
Proof.
  intros Ht. destruct s as [n|p]; cbn [require_owner_scope];
    unfold require_owner_service_access, require_owner_project_access, require_owner_access, require_active_portal_session,
      require_portal_session, fails.
  all: repeat (cbn; match goal with
    | |- no_bundle (_ ++ _) => apply no_bundle_snoc
    | |- no_bundle _ => assumption
    | |- True ∧ _ => split; [exact I|intros ?]
    | |- ∀ _, _ => intros ?; discriminate
    | |- context [match ?x with _ => _ end] => destruct x
    end).
Qed.
Lemma bundle_in_spec s b : bundle_in s b = true ↔ owned_bundle s b.
Proof. destruct s; apply bool_decide_eq_true. Qed.
Lemma details_shown s id :
  ensures (λ _ _, True) (owner_request_details token_hash owner_verifier h s id) (bundle_shown (OwnerOf s (OwnerRequestDetails id))) [].
Proof.
  assert (∀ t resp, no_bundle t → bundle_shown (OwnerOf s (OwnerRequestDetails id)) resp t) as Hnone.
  { intros t resp Ht s' id' b _ Hin. by apply Ht in Hin. }
  unfold owner_request_details, or_return. apply ensures_bind. eapply ensures_mono.
  { apply access_no_bundle. intros id' x. apply not_elem_of_nil. }
  intros [role|resp] t Ht; cbn; [|by apply Hnone]. split; [done|]. intros [page|e]; cbn; [|by apply Hnone, no_bundle_snoc].
  destruct (pg_rows page) as [|row rest] eqn:Hp; cbn; [by apply Hnone, no_bundle_snoc|]. split; [done|].
  intros [b|e]; cbn; intros s' id' b' [= <- <-] Hin; rewrite !elem_of_app, !list_elem_of_singleton in Hin;
    destruct Hin as [[Hin|Hin]|Hin]; [by apply Ht in Hin|done| |by apply Ht in Hin|done|].
  - assert (Some b' = b) as <-.
    { apply (f_equal (λ e : event answer, match e with existT op x => match op as o return answer o → option DebugBundle with
        | ReadDebugBundle _ => λ x, match x with Ok b => b | Err _ => None end | _ => λ _, None end x end)) in Hin. exact Hin. }
    assert (∀ shown, opt_filter (bundle_in s) (Some b') = shown → details_of s id
      ((t ++ [existT (ReadUsageEvents (request_query s id)) (Ok page)]) ++ [existT (ReadDebugBundle id) (Ok (Some b'))]) shown
      (json_response (object_json [("request", usage_row_json row);
         ("debug_bundle", match opt_filter (bundle_in s) (Some b') with Some b => bundle_json b | None => Some JNull end)]))) as Hd.
    { intros shown <-. exists page, row, rest. rewrite !elem_of_app, !list_elem_of_singleton. auto. }
    split; intros Ho; apply Hd; cbn; [by rewrite (proj2 (bundle_in_spec s b') Ho)|].
    rewrite <- bundle_in_spec in Ho. by destruct (bundle_in s b').
  - exfalso. apply (f_equal (λ e : event answer, match e with existT op x => match op as o return answer o → bool with
      | ReadDebugBundle _ => λ x, is_ok x | _ => λ _, true end x end)) in Hin. discriminate Hin.
Qed.
Lemma bundle_shown_run (w : world answer) r :
  let '(resp, t) := run w (owner_dispatch token_hash owner_verifier header_value_ok h r) [] in bundle_shown r resp t.
Proof.
  destruct r as [| |s []]; try by (destruct (run w _ []); intros s' id' b').
  destruct s as [n|p].
  all: match goal with |- context [OwnerOf ?s (OwnerRequestDetails ?id)] =>
    pose proof (ensures_run _ _ _ [] w (details_shown s id)) as Hr end.
  all: cbn [owner_dispatch]; unfold owner_service_request_details, owner_project_request_details.
  all: destruct (run w _ []) as [resp t]; apply Hr.
Qed.

(** C6: whatever the stores and the identity provider answer, an owner's request
    reads a service, a project, its usage or a debug bundle only after they
    answered that the caller - the member of an active session, or a workload
    whose token was verified - has a role in the service or project of the
    path, every usage query names that service or project, and the lists of
    services and projects follow the member's own memberships. Debug bundles are
    looked up by request only: the bundle that was read is in the response
    exactly if it carries the service or project of the path, and is otherwise
    replaced by null beside the usage row of that scope. *)
Theorem owner_reads_scoped (w : world answer) r :
  let '(resp, t) := run w (owner_dispatch token_hash owner_verifier header_value_ok h r) [] in
  (∀ i op x, t !! i = Some (existT op x) → owner_may r (take i t) op) ∧ bundle_shown r resp t.
Proof.
  pose proof (ensures_run _ _ _ [] w (owner_fine r [])) as Hr. pose proof (bundle_shown_run w r) as Hb.
  destruct (run w _ []) as [resp t]. split; [|done]. destruct Hr as (_ & asked & -> & Ha). cbn [app] in *. exact Ha.
Qed.
End scoped.
