(* ===== verification/PortalLogin.v ===== *)
(** * Signing in to the portal

    Models the handlers under [/admin-ui/auth] of
    [crates/gateway-api/src/app.rs] - starting a login, the identity provider's
    callback, the session and the logout - with their cookies, and
    [PortalOidcConfig] of [crates/gateway-api/src/portal.rs].  SHA-256, the
    PKCE challenge, the URL parser and the grammar of header values are
    parameters; random tokens, the identity provider and the stores are
    questions.  Debug events are left out. *)

From S2P Require Import Prelude SocketFrames StreamGuardrails Errors Routing RouteSettings Json GuardrailPolicy Policies OutputLimits Guardrails AuthAdmission VerificationCache VerificationFlight Auth EndpointAccess Foundry ServiceTypes ServicePricing ProviderConfigs Headers Entra AuthSettings TrafficRequest ProxyContext ProviderSelection OpenApi UsageCsv Access KeyAdmin AdminStore AdminAuth AdminApi AdminConfig.
#[local] Open Scope prog_scope.

(** ** Configuration *)

Record PortalOidcConfig := {
  oc_tenant_id : string;
  oc_client_id : string;
  oc_private_key_path : string;
  oc_certificate_path : string;
  oc_admin_emails : list string;
  oc_admin_object_ids : list string;
  oc_issuer : string;
  oc_discovery_url : string;
  oc_redirect_uri : string;
  oc_post_logout_redirect_uri : string;
  oc_session_ttl_seconds : Z;
  oc_login_ttl_seconds : Z;
  oc_cookie_secure : bool
}.
Section config.
Variable to_lowercase : string → string.
Variable url_parse : string → option Url.
Definition has_exact_path (value expected_path : string) : bool :=
  is_some_and (λ u, String.eqb (url_path u) expected_path && is_none (url_query u) && is_none (url_fragment u)) (url_parse value).
Definition oidc_config_validate (c : PortalOidcConfig) : GatewayResult unit :=
  if existsb (λ v, is_empty (trim v))
       [oc_tenant_id c; oc_client_id c; oc_private_key_path c; oc_certificate_path c; oc_issuer c; oc_discovery_url c;
        oc_redirect_uri c; oc_post_logout_redirect_uri c]
     || (oc_session_ttl_seconds c <=? 0) || (oc_login_ttl_seconds c <=? 0)
     || is_none (url_parse (oc_issuer c)) || is_none (url_parse (oc_discovery_url c))
     || negb (has_exact_path (oc_redirect_uri c) "/admin-ui/auth/callback")
     || negb (has_exact_path (oc_post_logout_redirect_uri c) "/admin-ui")
  then Err InvalidConfiguration
  else let? _ := bootstrap_new to_lowercase (oc_tenant_id c) (oc_admin_emails c) (oc_admin_object_ids c) in Ok tt.
End config.

Record PortalLoginQuery := { lq_return_to : option string }.
Record PortalCallbackQuery := { cq_code : option string; cq_state : option string; cq_error : option string }.

(** ** Cookies *)

Definition secure_attribute (secure : bool) : string := if secure then "; Secure" else "".
Definition session_cookie (raw_session : string) (max_age : Z) (secure : bool) : string :=
  PORTAL_SESSION_COOKIE +:+ "=" +:+ raw_session +:+ "; HttpOnly; SameSite=Lax; Path=/; Max-Age=" +:+ signed_decimal max_age
    +:+ secure_attribute secure.
Definition csrf_cookie (raw_csrf : string) (max_age : Z) (secure : bool) : string :=
  PORTAL_CSRF_COOKIE +:+ "=" +:+ raw_csrf +:+ "; SameSite=Lax; Path=/; Max-Age=" +:+ signed_decimal max_age +:+ secure_attribute secure.
Definition login_cookie (raw_binding : string) (max_age : Z) (secure : bool) : string :=
  PORTAL_LOGIN_COOKIE +:+ "=" +:+ raw_binding +:+ "; HttpOnly; SameSite=Lax; Path=/admin-ui/auth; Max-Age=" +:+ signed_decimal max_age
    +:+ secure_attribute secure.

Section portal.
Context {H : Type} `{HeaderMap H} `{ApiJson}.
Variable token_hash : string → string.
Variable pkce_challenge : string → string.
Variable header_value_ok : string → bool.
(** The configured sign-in, if there is one. *)
Variable portal_oidc : option (PortalOidcConfig * PortalAdminBootstrapPolicy).
Implicit Types h : H.

(** [headers.append(SET_COOKIE, ..)] of valid values. *)
Definition append_cookie (cookie : string) (r : Response) : Response :=
  if header_value_ok cookie then with_response_header "set-cookie" cookie r else r.
Definition append_portal_cookies (raw_session raw_csrf : string) (max_age : Z) (secure : bool) (r : Response) : GatewayResult Response :=
  let session := session_cookie raw_session max_age secure in
  let csrf := csrf_cookie raw_csrf max_age secure in
  if header_value_ok session && header_value_ok csrf
  then Ok (with_response_header "set-cookie" csrf (with_response_header "set-cookie" session r)) else Err InvalidConfiguration.
Definition append_portal_login_cookie (raw_binding : string) (max_age : Z) (secure : bool) (r : Response) : GatewayResult Response :=
  let cookie := login_cookie raw_binding max_age secure in
  if header_value_ok cookie then Ok (with_response_header "set-cookie" cookie r) else Err InvalidConfiguration.
Definition clear_portal_login_cookie (secure : bool) (r : Response) : Response := append_cookie (login_cookie "" 0 secure) r.
Definition clear_portal_cookies (secure : bool) (r : Response) : Response :=
  append_cookie (csrf_cookie "" 0 secure) (append_cookie (session_cookie "" 0 secure) r).
(** [Redirect::temporary] and [Redirect::to]. *)
Definition redirect (status : Z) (location : string) : Response :=
  if header_value_ok location then {| rp_status := status; rp_headers := [("location", location)]; rp_body := NoBody |}
  else {| rp_status := 500; rp_headers := []; rp_body := TextBody "failed to parse header value" |}.

(** ** Handlers *)

Definition portal_auth_config : Response :=
  json_response (Some (JObject [("enabled", JBool (is_some portal_oidc)); ("login_url", JString "/admin-ui/auth/login");
                                ("break_glass_available", JBool true)])).
Definition portal_auth_login h (query : PortalLoginQuery) : handler Response :=
  match portal_oidc with
  | None => Ret (error_response h OidcUnavailable)
  | Some (config, _) =>
      let! raw_state := ask RandomOpaqueToken in
      let! raw_binding := ask RandomOpaqueToken in
      let! nonce := ask RandomOpaqueToken in
      let! verifier := ask RandomOpaqueToken in
      or_error h (ask (AuthorizationUrl raw_state nonce (pkce_challenge verifier))) (λ url,
      let! now := ask UtcNow in
      or_error h (ask (CreateLoginTransaction
          {| lt_state_hash := token_hash raw_state; lt_binding_hash := token_hash raw_binding; lt_nonce := nonce;
             lt_pkce_verifier := verifier; lt_return_to := safe_return_to (lq_return_to query);
             lt_expires_at := now + oc_login_ttl_seconds config * nanos_per_sec |})) (λ _,
      or_error h (Ret (append_portal_login_cookie raw_binding (oc_login_ttl_seconds config) (oc_cookie_secure config) (redirect 307 url)))
        (λ response, Ret response)))
  end.
Definition portal_auth_callback h (query : PortalCallbackQuery) : handler Response :=
  match portal_oidc with
  | None => Ret (error_response h OidcUnavailable)
  | Some (config, policy) =>
      if is_some (cq_error query) then Ret (error_response h InvalidOidcTransaction)
      else
      match cq_code query, cq_state query, cookie_value h PORTAL_LOGIN_COOKIE with
      | Some code, Some raw_state, Some raw_binding =>
          let! now := ask UtcNow in
          or_error h (ask (ConsumeLoginTransaction (token_hash raw_state) (token_hash raw_binding) now)) (λ found,
          match found with
          | None => Ret (error_response h InvalidOidcTransaction)
          | Some transaction =>
              let! now := ask UtcNow in
              or_error h (ask (ExchangeCode code (lt_pkce_verifier transaction) now)) (λ identity,
              if negb (bool_decide (nonce identity = Some (lt_nonce transaction))) then Ret (error_response h InvalidOidcTransaction)
              else
                let! now := ask UtcNow in
                or_error h (ask (UpsertOidcMember identity policy now)) (λ member,
                let! raw_session := ask RandomOpaqueToken in
                let! raw_csrf := ask RandomOpaqueToken in
                let! now := ask UtcNow in
                or_error h (ask (CreatePortalSession
                    {| ns_session_hash := token_hash raw_session; ns_member_id := pm_id member; ns_csrf_hash := token_hash raw_csrf;
                       ns_expires_at := now + oc_session_ttl_seconds config * nanos_per_sec |})) (λ _,
                or_error h (Ret (append_portal_cookies raw_session raw_csrf (oc_session_ttl_seconds config) (oc_cookie_secure config)
                                   (redirect 303 (lt_return_to transaction)))) (λ response,
                  Ret (clear_portal_login_cookie (oc_cookie_secure config) response)))))
          end)
      | _, _, _ => Ret (error_response h InvalidOidcTransaction)
      end
  end.
Definition session_body (authenticated : bool) (member : option (option Value)) (services projects : list (option Value))
    (csrf : option string) : option Value :=
  object_json ([("authenticated", Some (JBool authenticated))]
    ++ match member with Some m => [("member", m)] | None => [] end
    ++ [("service_memberships", array_json services); ("project_memberships", array_json projects)]
    ++ match csrf with Some c => [("csrf_token", Some (JString c))] | None => [] end).
Definition portal_auth_session h : handler Response :=
  match cookie_value h PORTAL_SESSION_COOKIE with
  | None => Ret (json_response (session_body false None [] [] None))
  | Some raw_session =>
      match cookie_value h PORTAL_CSRF_COOKIE with
      | None => Ret (error_response h InvalidPortalSession)
      | Some raw_csrf =>
          let! now := ask UtcNow in
          or_error h (ask (ResolvePortalSession (token_hash raw_session) now)) (λ found,
          match found with
          | None => Ret (error_response h InvalidPortalSession)
          | Some session =>
              if negb (constant_time_eq (ss_csrf_hash session) (token_hash raw_csrf)) then Ret (error_response h InvalidPortalSession)
              else
                let id := pm_id (ss_member session) in
                or_error h (ask (ReadServiceMemberships id)) (λ services,
                or_error h (ask (ReadProjectMemberships id)) (λ projects,
                  Ret (json_response (session_body true (Some (member_json (ss_member session))) (map service_membership_json services)
                        (map project_membership_json projects) (Some raw_csrf)))))
          end)
      end
  end.
Definition portal_auth_logout h : handler Response :=
  or_return (require_portal_session token_hash h true) (λ session,
  or_error h (ask (DeletePortalSession (ss_session_hash session))) (λ _,
  let! url := match portal_oidc with
              | Some (config, _) => let! url := ask EndSessionUrl in
                                    Ret (oc_cookie_secure config, match url with Ok url => Some url | Err _ => None end)
              | None => Ret (true, None)
              end in
  Ret (clear_portal_login_cookie url.1 (clear_portal_cookies url.1
        (json_response (Some (JObject [("logout_url", match url.2 with Some u => JString u | None => JNull end)]))))))).
End portal.

(** ** A session follows the login it belongs to *)

(** Finds an event in the trace. *)
Ltac in_trace :=
  solve [repeat first [assumption | apply elem_of_app; right; apply list_elem_of_singleton; reflexivity | apply elem_of_app; left]].
(** Runs a program to its next question. *)
Ltac next_question := unfold or_error, or_return, fails; cbn [pbind Programs.ask ensures].

Section login.
Context {H : Type} `{HeaderMap H}.
Variable token_hash : string → string.
Variable header_value_ok : string → bool.
Variable config : PortalOidcConfig.
Variable policy : PortalAdminBootstrapPolicy.
Variable h : H.
Variable query : PortalCallbackQuery.
Implicit Types t : history.

(** The transaction of the request's state and browser was consumed, its code
    exchanged with its verifier, the identity carries its nonce, and the member
    is that identity's. *)
Definition logged_in t (transaction : OidcLoginTransaction) (member : PortalMember) : Prop :=
  ∃ code raw_state raw_binding now now' now'' identity,
    cq_error query = None ∧ cq_code query = Some code ∧ cq_state query = Some raw_state ∧
    cookie_value h PORTAL_LOGIN_COOKIE = Some raw_binding ∧
    existT (ConsumeLoginTransaction (token_hash raw_state) (token_hash raw_binding) now) (Ok (Some transaction)) ∈ t ∧
    existT (ExchangeCode code (lt_pkce_verifier transaction) now') (Ok identity) ∈ t ∧
    nonce identity = Some (lt_nonce transaction) ∧
    existT (UpsertOidcMember identity policy now'') (Ok member) ∈ t.
Definition new_session raw_session raw_csrf (member : PortalMember) (now : Z) : NewPortalSession :=
  {| ns_session_hash := token_hash raw_session; ns_member_id := pm_id member; ns_csrf_hash := token_hash raw_csrf;
     ns_expires_at := now + oc_session_ttl_seconds config * nanos_per_sec |}.
(** What the callback may ask after a trace: the member is upserted and the
    session created only when the login went through. *)
Definition callback_may t (op : action) : Prop :=
  match op with
  | UtcNow | RandomOpaqueToken | ConsumeLoginTransaction _ _ _ => True
  | ExchangeCode _ verifier _ => ∃ s b now transaction,
      existT (ConsumeLoginTransaction s b now) (Ok (Some transaction)) ∈ t ∧ verifier = lt_pkce_verifier transaction
  | UpsertOidcMember identity p _ => p = policy ∧ ∃ code verifier now, existT (ExchangeCode code verifier now) (Ok identity) ∈ t
  | CreatePortalSession s => ∃ transaction member raw_session raw_csrf now, logged_in t transaction member ∧
      s = new_session raw_session raw_csrf member now ∧ existT RandomOpaqueToken raw_session ∈ t ∧
      existT RandomOpaqueToken raw_csrf ∈ t
  | _ => False
  end.
(** A response that sets a session cookie. *)
Definition session_issued t (r : Response) : Prop :=
  ∀ v, ("set-cookie", v) ∈ rp_headers r → starts_with v (PORTAL_SESSION_COOKIE +:+ "=") = true →
  ∃ transaction member raw_session raw_csrf now, logged_in t transaction member ∧
    existT (CreatePortalSession (new_session raw_session raw_csrf member now)) (Ok tt) ∈ t ∧
    v = session_cookie raw_session (oc_session_ttl_seconds config) (oc_cookie_secure config) ∧
    ∀ location, ("location", location) ∈ rp_headers r → location = lt_return_to transaction.

Lemma error_sets_no_cookie t e : session_issued t (error_response h e).
Proof.
  intros v Hv. unfold error_response in Hv. cbv zeta in Hv. cbn [rp_headers] in Hv. destruct (env_retry_after_seconds _).
  - apply list_elem_of_singleton in Hv. discriminate Hv.
  - by apply elem_of_nil in Hv.
Qed.
Lemma append_headers name value r p : p ∈ rp_headers (with_response_header name value r) ↔ p ∈ rp_headers r ∨ p = (name, value).
Proof. unfold with_response_header. cbn. rewrite elem_of_app, list_elem_of_singleton. done. Qed.
Lemma not_session_cookie v rest : v = PORTAL_CSRF_COOKIE +:+ rest ∨ v = PORTAL_LOGIN_COOKIE +:+ rest →
  starts_with v (PORTAL_SESSION_COOKIE +:+ "=") = true → False.
Proof. by intros [-> | ->]. Qed.

Lemma response_issued t transaction member raw_session raw_csrf now response :
  logged_in t transaction member → existT (CreatePortalSession (new_session raw_session raw_csrf member now)) (Ok tt) ∈ t →
  append_portal_cookies header_value_ok raw_session raw_csrf (oc_session_ttl_seconds config) (oc_cookie_secure config)
    (redirect header_value_ok 303 (lt_return_to transaction)) = Ok response →
  session_issued t (clear_portal_login_cookie header_value_ok (oc_cookie_secure config) response).
Proof.
  intros Hl Hc. unfold append_portal_cookies. cbv zeta. case_match; [|done]. intros [= <-] v Hv Hs.
  assert (∀ p, p ∈ rp_headers (redirect header_value_ok 303 (lt_return_to transaction)) → p = ("location", lt_return_to transaction)) as Hr.
  { intros p. unfold redirect. case_match; cbn; [apply list_elem_of_singleton|]. intros Hp. by apply elem_of_nil in Hp. }
  assert (∀ p, p ∈ rp_headers (clear_portal_login_cookie header_value_ok (oc_cookie_secure config)
      (with_response_header "set-cookie" (csrf_cookie raw_csrf (oc_session_ttl_seconds config) (oc_cookie_secure config))
        (with_response_header "set-cookie" (session_cookie raw_session (oc_session_ttl_seconds config) (oc_cookie_secure config))
          (redirect header_value_ok 303 (lt_return_to transaction))))) →
      p = ("location", lt_return_to transaction) ∨
      p = ("set-cookie", session_cookie raw_session (oc_session_ttl_seconds config) (oc_cookie_secure config)) ∨
      p = ("set-cookie", csrf_cookie raw_csrf (oc_session_ttl_seconds config) (oc_cookie_secure config)) ∨
      p = ("set-cookie", login_cookie "" 0 (oc_cookie_secure config))) as Hp.
  { intros p. unfold clear_portal_login_cookie, append_cookie. case_match; rewrite !append_headers; naive_solver. }
  exists transaction, member, raw_session, raw_csrf, now. split; [done|]. split; [done|].
  split; [|intros l [[= ->]|[?|[?|?]]]%Hp; done].
  apply Hp in Hv as [?|[[= ->]|[[= ->]|[= ->]]]]; [done|done| |]; exfalso;
    (eapply not_session_cookie; [|exact Hs]); [left|right]; reflexivity.
Qed.

Lemma callback_fine :
  ensures callback_may (portal_auth_callback token_hash header_value_ok (Some (config, policy)) h query) (λ r t, session_issued t r) [].
Proof.
  unfold portal_auth_callback. destruct (cq_error query) eqn:He; cbn [is_some]; [apply error_sets_no_cookie|].
  destruct (cq_code query) as [code|] eqn:Hc; [|apply error_sets_no_cookie].
  destruct (cq_state query) as [raw_state|] eqn:Hst; [|apply error_sets_no_cookie].
  destruct (cookie_value h PORTAL_LOGIN_COOKIE) as [raw_binding|] eqn:Hb; [|apply error_sets_no_cookie].
  next_question. split; [done|]. intros now. split; [done|]. intros [[transaction|]|e]; cbn [pbind ensures]; try apply error_sets_no_cookie.
  split; [done|]. intros now'. split; [by exists (token_hash raw_state), (token_hash raw_binding), now, transaction; split; [in_trace|]|].
  intros [identity|e]; cbn [pbind ensures]; [|apply error_sets_no_cookie].
  case_bool_decide as Hn; cbn [negb]; [|apply error_sets_no_cookie]. cbn [pbind ensures].
  split; [done|]. intros now''. split; [split; [done|]; eexists _, _, _; in_trace|].
  intros [member|e]; cbn [pbind ensures]; [|apply error_sets_no_cookie].
  split; [done|]. intros raw_session. split; [done|]. intros raw_csrf. split; [done|]. intros now3.
  match goal with |- callback_may ?u _ ∧ _ => set (t := u) end.
  assert (logged_in t transaction member) as Hl.
  { exists code, raw_state, raw_binding, now, now', now'', identity. do 4 (split; [done|]). split; [unfold t; in_trace|].
    split; [unfold t; in_trace|]. split; [done|unfold t; in_trace]. }
  split; [exists transaction, member, raw_session, raw_csrf, now3; split; [done|]; split; [done|]; split; unfold t; in_trace|].
  intros [[]|e]; cbn [pbind ensures]; [|apply error_sets_no_cookie].
  destruct (append_portal_cookies _ _ _ _ _ _) as [response|e] eqn:Ea; [|apply error_sets_no_cookie].
  eapply response_issued; [|in_trace|exact Ea]. destruct Hl as (c & rs & rb & n & n' & n'' & i & Hl).
  exists c, rs, rb, n, n', n'', i. rewrite !elem_of_app. naive_solver.
Qed.

(** C7: whatever the stores and the identity provider answer, a portal session is
    created only for the member of an identity that carries the nonce of a
    login transaction which this browser's state and cookie consumed and whose
    verifier redeemed the code; the session's tokens are fresh and stored only
    as hashes; and a response sets a session cookie only for such a session and
    redirects to the place that transaction recorded. *)
Theorem login_bound (w : world answer) :
  let '(r, t) := run w (portal_auth_callback token_hash header_value_ok (Some (config, policy)) h query) [] in
  session_issued t r ∧ ∀ i op x, t !! i = Some (existT op x) → callback_may (take i t) op.
Proof.
  pose proof (ensures_run _ _ _ [] w callback_fine) as Hr. destruct (run w _ []) as [resp t].
  destruct Hr as (Hq & asked & -> & Ha). cbn [app] in *. split; [exact Hq|exact Ha].
Qed.
End login.

(** Where a login returns to is a path of the portal. *)
Lemma return_stays_local v : starts_with (safe_return_to v) "/admin-ui" = true ∧ starts_with (safe_return_to v) "//" = false.
Proof.
  unfold safe_return_to, opt_filter. destruct v as [v|]; [|done]. destruct (_ && _) eqn:E; [|done].
  apply andb_prop in E as [E1 E2]. apply negb_true_iff in E2. done.
Qed.
