(* ===== verification/AdminRouter.v ===== *)
(** * The admin router

    The routes of [router_with_state_and_admission] in
    [crates/gateway-api/src/app.rs] under [/admin-ui/admin], as decoded requests
    and the handler each one reaches.  Status pages, the LiteLLM user interface,
    cluster traffic and LiteLLM spend are not modelled. *)

From S2P Require Import Prelude SocketFrames StreamGuardrails Errors Routing RouteSettings Json GuardrailPolicy Policies OutputLimits Guardrails Pii AuthAdmission VerificationCache VerificationFlight Auth EndpointAccess Foundry ServiceTypes ServicePricing ProviderConfigs Headers Entra AuthSettings TrafficRequest ProxyContext ProviderSelection OpenApi UsageCsv Access KeyAdmin AdminStore AdminAuth AdminApi AdminConfig AdminUsage.

Inductive AdminRequest : Type :=
| GetMembers
| PatchMemberRequest (member_id : string) (patch : MemberPatchRequest)
| PutServiceMembership (member_id service_name : string) (role : ServiceMemberRole)
| RemoveServiceMembership (member_id service_name : string)
| PutProjectMembership (member_id project_id : string) (role : ServiceMemberRole)
| RemoveProjectMembership (member_id project_id : string)
| GetManagedIdentities
| PostManagedIdentity (request : ManagedIdentityCreateRequest)
| PatchManagedIdentityRequest (identity_id : string) (patch : ManagedIdentityPatchRequest)
| RemoveManagedIdentity (identity_id : string)
| GetManagedIdentityProjects
| PostManagedIdentityProject (request : ManagedIdentityProjectCreateRequest)
| PatchManagedIdentityProjectRequest (identity_id : string) (patch : ManagedIdentityProjectPatchRequest)
| RemoveManagedIdentityProject (identity_id : string)
| GetGuardrails
| PostGuardrail (request : GuardrailAdminCreateRequest)
| PatchGuardrail (name : string) (request : GuardrailAdminPatchRequest)
| RemoveGuardrail (name : string)
| GetGuardrailExecutions (query : Value)
| GetGuardrailSummary (query : Value)
| GetAuditEvents (query : Value)
| PostSimulation (request : PolicySimulationRequest)
| GetPolicyLayers
| PostPolicyLayer (request : AdminPolicyLayerUpsert)
| RemovePolicyLayer (layer_id : string)
| PostKey (request : AdminKeyCreate)
| GetKeys
| GetKey (key_id : string)
| PatchKey (key_id : string) (patch : AdminKeyPatch)
| PostKeyLifecycle (key_id : string) (action : KeyLifecycleAction)
| GetKeyUsage (key_id : string)
| PostProject (request : ProjectCreateRequest)
| GetProjects
| GetProjectRequest (project_id : string)
| PatchProjectRequest (project_id : string) (patch : ProjectPatchRequest)
| RemoveProject (project_id : string)
| GetProjectUsage (project_id : string)
| PostRotateOperatorToken
| PostProvider (request : ProviderConfigCreateRequest)
| GetProviders
| PostLiteLlmCredential (request : LiteLlmCredentialMappingUpsertRequest)
| GetLiteLlmCredentials
| RemoveLiteLlmCredential (mapping_id : string)
| PostLiteLlmCredentialEnabled (mapping_id : string) (enabled : bool)
| GetLiteLlmPassthrough
| PatchLiteLlmPassthrough (patch : LiteLlmPassthroughSettingsPatchRequest)
| GetProvider (provider_id : string)
| PatchProvider (provider_id : string) (patch : ProviderConfigPatchRequest)
| RemoveProvider (provider_id : string)
| PostVerifyFoundry (provider_id : string)
| PostProviderEnabled (provider_id : string) (enabled : bool)
| GetRouteIdentities
| PutRouteIdentity (setting : RouteIdentitySetting)
| GetRoutes (family : RouteFamily)
| PostRouteEnabled (family : RouteFamily) (route_id : string) (enabled : bool)
| PatchRouteModeRequest (family : RouteFamily) (route_id : string) (mode : OpenAiRouteMode)
| PatchRouteConfigRequest (family : RouteFamily) (route_id : string) (request : OpenAiRouteConfigPatchRequest)
| PostService (request : ServiceCreateRequest)
| GetServices
| GetStudioConnection
| PatchStudioConnection (patch : StudioConnectionPatchRequest)
| GetAuthSettings
| PatchAuthSettings (patch : GatewayAuthSettingsPatchRequest)
| PostStudioTest
| GetStudioServices
| PostServiceImport (request : StudioServiceImportRequest)
| PostServiceSync (request : StudioServiceImportRequest)
| GetServiceRequest (service_name : string)
| PatchServiceRequest (service_name : string) (patch : ServicePatchRequest)
| RemoveService (service_name : string)
| PostServiceEnabled (service_name : string) (enabled : bool)
| GetServiceSyncStatus (service_name : string)
| PostOpenApiPreview (service_name source_path : string)
| PostOpenApiSync (service_name : string) (request : ServiceOpenApiSyncRequest)
| GetTrafficLive (query : TrafficQuery)
| GetTrafficHistory (query : TrafficQuery)
| GetUsageSummary (query : UsageQuery)
| GetUsageDashboard (query : UsageQuery)
| GetUsageSection (section : UsageSectionKind) (query : UsageQuery)
| GetUsageTimeseries (query : UsageQuery)
| GetUsageByKey (query : UsageQuery)
| GetUsageByProject (query : UsageQuery)
| GetUsageByModel (query : UsageQuery)
| GetUsageByProvider (query : UsageQuery)
| GetUsageByService (query : UsageQuery)
| GetUsageByTask (query : UsageQuery)
| GetUsageEvents (query : UsageQuery)
| GetUsageFilterValues (query : UsageQuery) (field : string) (q : option string)
| GetUnusedKeys (query : UsageQuery)
| GetUsageExport (csv : bool) (query : UsageQuery)
| GetTaskUsage (task_id : string) (query : UsageQuery)
| GetProviderHealth (query : UsageQuery)
| GetProviderHealthStates
| PostProviderHealthState (state : ProviderHealthState)
| PostProviderHealthChecks
| GetDebugBundle (request_id : string)
| PostImportPreview (services : list StudioServiceImportRequest)
| PostImportActivate (source : option string) (services : list StudioServiceImportRequest)
| GetImportVersions
| PostImportRollback (version : Z).

Section router.
Context {H : Type} `{HeaderMap H} `{ApiJson} `{SerdeJson} `{GuardrailJson}.
Variable token_hash : string → string.
Variable studio_env : StudioConnectionEnv.
Variable auth_env : GatewayAuthEnv.
Variable instance_id : string.
Variable url_parse : string → option Url.
Variable method_parses : string → bool.
Variable has_control : string → bool.
Variable header_name_ok : string → bool.
Variable to_lowercase : string → string.
Variable from_slice : string → option Value.
Variable schema_hash : string → string.
Variable import_valid : StudioServiceImportRequest → bool.

Definition dispatch (h : H) (r : AdminRequest) : handler Response :=
  match r with
  | GetMembers => admin_members token_hash h
  | PatchMemberRequest id patch => admin_patch_member token_hash id h patch
  | PutServiceMembership id name role => admin_upsert_service_membership token_hash id name h role
  | RemoveServiceMembership id name => admin_delete_service_membership token_hash id name h
  | PutProjectMembership id p role => admin_upsert_project_membership token_hash id p h role
  | RemoveProjectMembership id p => admin_delete_project_membership token_hash id p h
  | GetManagedIdentities => admin_managed_identities token_hash h
  | PostManagedIdentity r => admin_create_managed_identity token_hash h r
  | PatchManagedIdentityRequest id patch => admin_patch_managed_identity token_hash id h patch
  | RemoveManagedIdentity id => admin_delete_managed_identity token_hash id h
  | GetManagedIdentityProjects => admin_managed_identity_projects token_hash h
  | PostManagedIdentityProject r => admin_create_managed_identity_project token_hash h r
  | PatchManagedIdentityProjectRequest id patch => admin_patch_managed_identity_project token_hash id h patch
  | RemoveManagedIdentityProject id => admin_delete_managed_identity_project token_hash id h
  | GetGuardrails => admin_guardrails token_hash h
  | PostGuardrail r => create_admin_guardrail token_hash h r
  | PatchGuardrail name r => patch_admin_guardrail token_hash h name r
  | RemoveGuardrail name => delete_admin_guardrail token_hash h name
  | GetGuardrailExecutions q => admin_guardrail_executions token_hash h q
  | GetGuardrailSummary q => admin_guardrail_summary token_hash h q
  | GetAuditEvents q => list_audit_events token_hash h q
  | PostSimulation r => simulate_policy token_hash method_parses h r
  | GetPolicyLayers => list_policy_layers token_hash h
  | PostPolicyLayer r => upsert_policy_layer token_hash h r
  | RemovePolicyLayer id => delete_policy_layer token_hash h id
  | PostKey r => create_key token_hash h r
  | GetKeys => list_keys token_hash h
  | GetKey id => get_key token_hash h id
  | PatchKey id patch => patch_key token_hash h id patch
  | PostKeyLifecycle id action =>
      match action with
      | LifecycleRevoke => revoke_key token_hash h id
      | LifecycleDisable => disable_key token_hash h id
      | LifecycleEnable => enable_key token_hash h id
      end
  | GetKeyUsage id => key_usage token_hash h id
  | PostProject r => create_project token_hash h r
  | GetProjects => list_projects token_hash h
  | GetProjectRequest id => get_project token_hash h id
  | PatchProjectRequest id patch => patch_project token_hash h id patch
  | RemoveProject id => delete_project token_hash h id
  | GetProjectUsage id => project_usage token_hash h id
  | PostRotateOperatorToken => rotate_operator_token token_hash h
  | PostProvider r => create_provider token_hash h r
  | GetProviders => list_providers token_hash h
  | PostLiteLlmCredential r => upsert_litellm_credential_mapping token_hash h r
  | GetLiteLlmCredentials => list_litellm_credential_mappings token_hash h
  | RemoveLiteLlmCredential id => delete_litellm_credential_mapping token_hash h id
  | PostLiteLlmCredentialEnabled id enabled =>
      if enabled then enable_litellm_credential_mapping token_hash h id else disable_litellm_credential_mapping token_hash h id
  | GetLiteLlmPassthrough => get_litellm_passthrough_settings token_hash h
  | PatchLiteLlmPassthrough patch => patch_litellm_passthrough_settings token_hash h patch
  | GetProvider id => get_provider token_hash h id
  | PatchProvider id patch => patch_provider token_hash h id patch
  | RemoveProvider id => delete_provider token_hash h id
  | PostVerifyFoundry id => verify_foundry_provider token_hash instance_id h id
  | PostProviderEnabled id enabled => if enabled then enable_provider token_hash h id else disable_provider token_hash h id
  | GetRouteIdentities => list_route_identities token_hash h
  | PutRouteIdentity s => set_route_identity token_hash has_control header_name_ok to_lowercase h s
  | GetRoutes OpenAiRoutes => list_openai_routes token_hash h
  | GetRoutes AnthropicRoutes => list_anthropic_routes token_hash h
  | PostRouteEnabled OpenAiRoutes id enabled =>
      if enabled then enable_openai_route token_hash h id else disable_openai_route token_hash h id
  | PostRouteEnabled AnthropicRoutes id enabled =>
      if enabled then enable_anthropic_route token_hash h id else disable_anthropic_route token_hash h id
  | PatchRouteModeRequest OpenAiRoutes id mode => patch_openai_route_mode token_hash h id mode
  | PatchRouteModeRequest AnthropicRoutes id mode => patch_anthropic_route_mode token_hash h id mode
  | PatchRouteConfigRequest OpenAiRoutes id r => patch_openai_route_config token_hash h id r
  | PatchRouteConfigRequest AnthropicRoutes id r => patch_anthropic_route_config token_hash h id r
  | PostService r => create_service token_hash h r
  | GetServices => list_services token_hash h
  | GetStudioConnection => get_studio_connection token_hash studio_env h
  | PatchStudioConnection patch => patch_studio_connection token_hash studio_env h patch
  | GetAuthSettings => get_gateway_auth_settings token_hash auth_env header_name_ok h
  | PatchAuthSettings patch => patch_gateway_auth_settings token_hash auth_env header_name_ok h patch
  | PostStudioTest => test_studio_connection token_hash studio_env h
  | GetStudioServices => studio_services token_hash studio_env h
  | PostServiceImport r => import_service token_hash h r
  | PostServiceSync r => sync_service token_hash h r
  | GetServiceRequest name => get_service token_hash h name
  | PatchServiceRequest name patch => patch_service token_hash h name patch
  | RemoveService name => delete_service token_hash h name
  | PostServiceEnabled name enabled => if enabled then enable_service token_hash h name else disable_service token_hash h name
  | GetServiceSyncStatus name => service_sync_status token_hash h name
  | PostOpenApiPreview name path =>
      preview_service_openapi token_hash url_parse method_parses has_control from_slice schema_hash h name path
  | PostOpenApiSync name r => sync_service_openapi token_hash url_parse method_parses has_control from_slice schema_hash h name r
  | GetTrafficLive q => traffic_live token_hash h q
  | GetTrafficHistory q => traffic_history token_hash h q
  | GetUsageSummary q => usage_summary token_hash h q
  | GetUsageDashboard q => usage_dashboard token_hash h q
  | GetUsageSection s q => usage_section token_hash h s q
  | GetUsageTimeseries q => usage_timeseries token_hash h q
  | GetUsageByKey q => usage_by_key token_hash h q
  | GetUsageByProject q => usage_by_project token_hash h q
  | GetUsageByModel q => usage_by_model token_hash h q
  | GetUsageByProvider q => usage_by_provider token_hash h q
  | GetUsageByService q => usage_by_service token_hash h q
  | GetUsageByTask q => usage_by_task token_hash h q
  | GetUsageEvents q => usage_events token_hash h q
  | GetUsageFilterValues q field v => usage_filter_values token_hash h q field v
  | GetUnusedKeys q => usage_unused_keys token_hash h q
  | GetUsageExport csv q => if csv then usage_export_csv token_hash h q else usage_export_json token_hash h q
  | GetTaskUsage id q => task_usage token_hash h id q
  | GetProviderHealth q => provider_health token_hash h q
  | GetProviderHealthStates => provider_health_state token_hash h
  | PostProviderHealthState s => upsert_provider_health_state token_hash h s
  | PostProviderHealthChecks => run_provider_health_checks token_hash url_parse h
  | GetDebugBundle id => get_debug_bundle token_hash h id
  | PostImportPreview services => preview_service_import token_hash url_parse import_valid h services
  | PostImportActivate source services => activate_service_import token_hash url_parse import_valid h source services
  | GetImportVersions => service_import_versions token_hash h
  | PostImportRollback version => rollback_service_import token_hash h version
  end.
End router.
