(* ===== verification/AdminAudit.v ===== *)
(** * Every admin request is authorized, and changes are audited

    For every request that the router of [AdminRouter] knows and whatever the
    stores and services answer: nothing but the authentication itself is asked
    before an operator token with the request's scopes, or an administrator's
    session with its CSRF token, was accepted; each change needs its own scope;
    and a successful response means that every change was recorded as an audit
    event that names its actor - except for the changes that the code does not
    record, which are named here. *)

From S2P Require Import Prelude SocketFrames StreamGuardrails Errors Routing RouteSettings Json GuardrailPolicy Policies OutputLimits Guardrails Pii AuthAdmission VerificationCache VerificationFlight Auth EndpointAccess Foundry ServiceTypes ServicePricing ProviderConfigs Headers Entra AuthSettings TrafficRequest ProxyContext ProviderSelection OpenApi UsageCsv Access KeyAdmin AdminStore AdminAuth AdminApi AdminConfig AdminUsage AdminRouter.
#[local] Open Scope prog_scope.

(** ** What changes need *)

(** The scopes that a change requires. *)
Definition mutation_scopes (m : mutation) : list string :=
  match m with
  | PatchMember _ _ | UpsertServiceMembership _ _ _ | DeleteServiceMembership _ _ | UpsertProjectMembership _ _ _
  | DeleteProjectMembership _ _ | CreateManagedIdentity _ | PatchManagedIdentity _ _ | DeleteManagedIdentity _
  | CreateManagedIdentityProject _ | PatchManagedIdentityProject _ _ | DeleteManagedIdentityProject _
  | RotateOperatorToken _ _ _ => [SCOPE_OPERATORS_MANAGE]
  | CreateHttpGuardrail _ | PatchAdminGuardrail _ _ | DeleteAdminGuardrail _ => [SCOPE_GUARDRAILS_UPDATE]
  | CreateAdminKey _ _ => [SCOPE_KEYS_CREATE]
  | PatchAdminKey _ p => key_patch_required_scopes p
  | KeyLifecycle _ _ => [SCOPE_KEYS_DISABLE]
  | UpsertPolicyLayer _ | DeletePolicyLayer _ | SetRouteIdentity _ | SetRouteEnabled _ _ _ | SetRouteMode _ _ _
  | PatchRouteConfig _ _ _ => [SCOPE_POLICIES_UPDATE]
  | CreateProject _ | PatchProject _ _ | DeleteProject _ | PatchStudioConnectionSettings _ | PatchGatewayAuthSettings _ =>
      [SCOPE_SETTINGS_UPDATE]
  | CreateProviderConfig _ | PatchProviderConfig _ _ | DeleteProviderConfig _ | SetProviderConfigEnabled _ _
  | UpsertLiteLlmCredentialMapping _ | DeleteLiteLlmCredentialMapping _ | SetLiteLlmCredentialMappingEnabled _ _
  | PatchLiteLlmPassthroughSettings _ | UpsertProviderHealthState _ => [SCOPE_PROVIDERS_UPDATE]
  | CreateService _ | PatchService _ _ | DeleteService _ | SetServiceEnabled _ _ | ImportStudioService _ | SyncStudioService _
  | ActivateServiceRegistryImport _ _ _ _ => [SCOPE_SERVICES_UPDATE]
  end.
(** The changes for which the handlers record nothing: the activation and
    rollback of service imports, and provider health. *)
Definition unrecorded_change (m : mutation) : bool :=
  match m with UpsertProviderHealthState _ | ActivateServiceRegistryImport _ _ _ _ => true | _ => false end.
(** The kind of record a change is audited under. *)
Definition audit_kind (m : mutation) : string :=
  match m with
  | PatchMember _ _ => "portal_member"
  | UpsertServiceMembership _ _ _ | DeleteServiceMembership _ _ => "service_membership"
  | UpsertProjectMembership _ _ _ | DeleteProjectMembership _ _ => "project_membership"
  | CreateManagedIdentity _ | PatchManagedIdentity _ _ | DeleteManagedIdentity _ => "managed_identity_binding"
  | CreateManagedIdentityProject _ | PatchManagedIdentityProject _ _ | DeleteManagedIdentityProject _ =>
      "managed_identity_project_binding"
  | CreateHttpGuardrail _ | PatchAdminGuardrail _ _ | DeleteAdminGuardrail _ => "guardrail"
  | CreateAdminKey _ _ | PatchAdminKey _ _ | KeyLifecycle _ _ => "key"
  | UpsertPolicyLayer _ | DeletePolicyLayer _ => "policy_layer"
  | CreateProject _ | PatchProject _ _ | DeleteProject _ => "project"
  | RotateOperatorToken _ _ _ => "operator_token"
  | CreateProviderConfig _ | PatchProviderConfig _ _ | DeleteProviderConfig _ | SetProviderConfigEnabled _ _
  | UpsertProviderHealthState _ => "provider"
  | UpsertLiteLlmCredentialMapping _ | DeleteLiteLlmCredentialMapping _ | SetLiteLlmCredentialMappingEnabled _ _ =>
      "litellm_credential_mapping"
  | PatchLiteLlmPassthroughSettings _ => "litellm_passthrough_settings"
  | SetRouteIdentity _ => "route_identity"
  | SetRouteEnabled f _ _ | SetRouteMode f _ _ | PatchRouteConfig f _ _ => route_target f
  | CreateService _ | PatchService _ _ | DeleteService _ | SetServiceEnabled _ _ | ImportStudioService _ | SyncStudioService _
  | ActivateServiceRegistryImport _ _ _ _ => "service"
  | PatchStudioConnectionSettings _ => "studio_connection"
  | PatchGatewayAuthSettings _ => "gateway_auth_settings"
  end.
Definition audited_as (m : mutation) : option string := if unrecorded_change m then None else Some (audit_kind m).
(** Whether the answer says that something changed. *)
Definition changed (s : shape) : GatewayResult (outcome_type s) → bool :=
  match s with
  | One | Done => λ r, is_ok r
  | Maybe => λ r, match r with Ok (Some _) => true | _ => false end
  | Flag => λ r, match r with Ok b => b | Err _ => false end
  end.
Definition owes (e : event answer) : option string :=
  match e with
  | existT op x =>
      match op as o return answer o → option string with
      | Mutate m => λ x, if changed (shape_of m) x then audited_as m else None
      | _ => λ _, None
      end x
  end.
Definition settles (e : event answer) : option string :=
  match e with
  | existT op x =>
      match op as o return answer o → option string with
      | RecordAudit ev => λ x, if is_ok x then Some (ae_target_type ev) else None
      | _ => λ _, None
      end x
  end.
(** The kinds of the changes that were made and not yet recorded. *)
Definition owed_after (u : list string) (e : event answer) : list string :=
  match settles e with
  | Some kind => List.filter (λ k, negb (String.eqb k kind)) u
  | None => match owes e with Some kind => kind :: u | None => u end
  end.
Definition unaudited (t : history) : list string := foldl owed_after [] t.
Lemma unaudited_snoc t e : unaudited (t ++ [e]) = owed_after (unaudited t) e.
Proof. unfold unaudited. by rewrite foldl_app. Qed.
(** A kind that is no longer owed was settled after it was owed. *)
Lemma owed_until_settled u t kind : kind ∈ u → foldl owed_after u t = [] → ∃ i e, t !! i = Some e ∧ settles e = Some kind.
Proof.
  revert u. induction t as [|e t IH]; intros u Hk Hu; cbn in Hu; [subst; by apply not_elem_of_nil in Hk|].
  destruct (settles e) as [kind'|] eqn:He.
  - destruct (decide (kind = kind')) as [->|Hne]; [by exists 0%nat, e|].
    unfold owed_after in Hu at 2. rewrite He in Hu. apply IH in Hu as (i & e' & Hi & Hs); [by exists (S i), e'|].
    apply list_elem_of_In, filter_In. split; [by apply list_elem_of_In|]. by apply negb_true_iff, String.eqb_neq.
  - apply IH in Hu as (i & e' & Hi & Hs); [by exists (S i), e'|]. unfold owed_after. rewrite He. destruct (owes e); set_solver.
Qed.
Lemma settled_later u t i e kind : foldl owed_after u t = [] → t !! i = Some e → settles e = None → owes e = Some kind →
  ∃ j e', (i < j)%nat ∧ t !! j = Some e' ∧ settles e' = Some kind.
Proof.
  revert u i. induction t as [|e0 t IH]; intros u [|i] Hu Hi Hs Ho; simplify_eq/=.
  - destruct (owed_until_settled (owed_after u e) t kind) as (j & e' & Hj & Hk); [|done|exists (S j), e'; split_and!; auto with lia].
    unfold owed_after. rewrite Hs, Ho. left.
  - destruct (IH _ i Hu Hi Hs Ho) as (j & e' & Hj & Hl & Hk). exists (S j), e'. split_and!; auto with lia.
Qed.

(** The trace ends in questions that owe nothing. *)
Ltac quiet := cbn [pbind ensures]; rewrite ?unaudited_snoc; done.

Section authorization.
Context {H : Type} `{HeaderMap H}.
Variable token_hash : string → string.
Variable h : H.
Implicit Types t : history.

(** The actor: an operator whose token has the scopes, or the active
    administrator of a session whose CSRF token the request carries. *)
Definition authorized (required : list string) t (actor : OperatorAuthorization) : Prop :=
  (∃ token now, contains_key "authorization" h = true ∧ bearer_token h = Ok token ∧
     existT (VerifyOperatorToken token now) (Ok actor) ∈ t ∧ forallb (has_scope actor) required = true)
  ∨ ∃ raw now session, contains_key "authorization" h = false ∧ cookie_value h PORTAL_SESSION_COOKIE = Some raw ∧
     existT (ResolvePortalSession (token_hash raw) now) (Ok (Some session)) ∈ t ∧ csrf_matches token_hash h session = true ∧
     pm_status (ss_member session) = MemberActive ∧ is_admin (ss_member session) = true ∧ actor = session_actor session.
(** An audit event names its actor and the request. *)
Definition names_actor (ev : AuditEventCreate) (actor : OperatorAuthorization) : Prop :=
  ae_actor_member_id ev = oa_member_id actor ∧
  ae_actor_token_id ev = (if is_none (oa_member_id actor) then Some (oa_token_id actor) else None) ∧
  ae_request_id ev = request_id_from_headers h.
(** What a request that requires scopes may ask after a trace. *)
Definition admin_may (required : list string) t (op : action) : Prop :=
  match op with
  | UtcNow | VerifyOperatorToken _ _ | ResolvePortalSession _ _ => True
  | Mutate m => mutation_scopes m = required ∧ ∃ actor, authorized required t actor
  | RecordAudit ev => ∃ actor, authorized required t actor ∧ names_actor ev actor
  | _ => ∃ actor, authorized required t actor
  end.
(** A successful response leaves nothing unrecorded. *)
Definition settled (r : Response) t : Prop := rp_status r < 300 → unaudited t = [].
Abbreviation fine required p t := (ensures (admin_may required) p settled t).

Lemma authorized_grows required t e actor : authorized required t actor → authorized required (t ++ e) actor.
Proof.
  intros [(token & now & Ha & Hb & Hv & Hs)|(raw & now & session & Ha & Hc & Hr & Hm)];
    [left; exists token, now|right; exists raw, now, session]; rewrite elem_of_app; naive_solver.
Qed.
(** Authentication owes no audit event. *)
Lemma require_ok required t : unaudited t = [] →
  ensures (admin_may required) (require_admin_scopes token_hash h required)
    (λ r t', unaudited t' = [] ∧ match r with Ok actor => authorized required t' actor | Err resp => 400 ≤ rp_status resp end) t.
Proof.
  intros Hu. assert (∀ e, 400 ≤ rp_status (error_response h e)) as He by (by intros []). unfold require_admin_scopes, fails.
  destruct (contains_key "authorization" h) eqn:Ha.
  - destruct (bearer_token h) as [token|e] eqn:Hb; [|by split]. cbn [pbind Programs.ask ensures]. split; [done|]. intros now.
    split; [done|]. intros [actor|e]; [|quiet]. destruct (forallb _ _) eqn:Hs; cbn [ensures].
    + rewrite !unaudited_snoc. split; [done|]. left. exists token, now. rewrite elem_of_app, list_elem_of_singleton. auto.
    + quiet.
  - unfold require_portal_session. destruct (cookie_value h PORTAL_SESSION_COOKIE) as [raw|] eqn:Hc; [|by split].
    cbn [pbind Programs.ask ensures]. split; [done|]. intros now. split; [done|]. unfold fails.
    intros [[session|]|e]; [|quiet|quiet]. cbn [andb].
    destruct (csrf_matches token_hash h session) eqn:Hm; cbn [negb pbind ensures]; [|quiet].
    destruct (pm_status (ss_member session)) eqn:Hp; cbn [ensures]; try quiet.
    destruct (is_admin (ss_member session)) eqn:Had; cbn [negb ensures]; rewrite ?unaudited_snoc; [|quiet]. split; [done|].
    right. exists raw, now, session. rewrite elem_of_app, list_elem_of_singleton. naive_solver.
Qed.
Lemma error_settled t e : settled (error_response h e) t.
Proof. unfold settled. assert (400 ≤ rp_status (error_response h e)) by (by destruct e). lia. Qed.
Lemma after_scopes required (k : OperatorAuthorization → handler Response) t : unaudited t = [] →
  (∀ actor t', authorized required t' actor → unaudited t' = [] → fine required (k actor) t') →
  fine required (or_return (require_admin_scopes token_hash h required) k) t.
Proof.
  intros Hu Hk. unfold or_return. apply ensures_bind. eapply ensures_mono; [by apply require_ok|].
  intros [actor|resp] t' [Hu' Hr]; cbn [ensures]; [by apply Hk|]. unfold settled. lia.
Qed.
(** The response of a change is sent once its event is recorded. *)
Lemma audit_settles required actor act kind target before after response t : authorized required t actor →
  List.filter (λ k, negb (String.eqb k kind)) (unaudited t) = [] →
  fine required (record_admin_audit h actor act kind target before after response) t.
Proof.
  intros Ha Hu. unfold record_admin_audit, or_error. cbn [pbind Programs.ask ensures]. split; [by exists actor|].
  intros [[]|e]; cbn [ensures]; [|apply error_settled]. intros _. rewrite unaudited_snoc. exact Hu.
Qed.
End authorization.

(** ** Requests *)

(** The scopes that a request requires. *)
Definition request_scopes (r : AdminRequest) : list string :=
  match r with
  | PatchKey _ p => key_patch_required_scopes p
  | GetMembers | PatchMemberRequest _ _ | PutServiceMembership _ _ _ | RemoveServiceMembership _ _ | PutProjectMembership _ _ _
  | RemoveProjectMembership _ _ | GetManagedIdentities | PostManagedIdentity _ | PatchManagedIdentityRequest _ _
  | RemoveManagedIdentity _ | GetManagedIdentityProjects | PostManagedIdentityProject _ | PatchManagedIdentityProjectRequest _ _
  | RemoveManagedIdentityProject _ | GetGuardrails | GetGuardrailExecutions _ | GetGuardrailSummary _ | GetKeys | GetKey _
  | GetKeyUsage _ | GetProjectRequest _ | GetProjectUsage _ | PostRotateOperatorToken | GetProvider _ | GetStudioConnection
  | GetAuthSettings | PostStudioTest | GetStudioServices | GetServiceRequest _ | GetServiceSyncStatus _ => [SCOPE_OPERATORS_MANAGE]
  | PostGuardrail _ | PatchGuardrail _ _ | RemoveGuardrail _ => [SCOPE_GUARDRAILS_UPDATE]
  | GetAuditEvents _ => [SCOPE_AUDIT_READ]
  | PostSimulation _ | GetPolicyLayers | PostPolicyLayer _ | RemovePolicyLayer _ | PutRouteIdentity _ | PostRouteEnabled _ _ _
  | PatchRouteModeRequest _ _ _ | PatchRouteConfigRequest _ _ _ => [SCOPE_POLICIES_UPDATE]
  | PostKey _ => [SCOPE_KEYS_CREATE]
  | PostKeyLifecycle _ _ => [SCOPE_KEYS_DISABLE]
  | PostProject _ | PatchProjectRequest _ _ | RemoveProject _ | PatchStudioConnection _ | PatchAuthSettings _ => [SCOPE_SETTINGS_UPDATE]
  | GetProjects | GetProviders | GetLiteLlmCredentials | GetLiteLlmPassthrough | GetRouteIdentities | GetRoutes _ | GetServices
  | GetTrafficLive _ | GetTrafficHistory _ | GetUsageSummary _ | GetUsageDashboard _ | GetUsageSection _ _
  | GetUsageTimeseries _ | GetUsageByKey _ | GetUsageByProject _ | GetUsageByModel _ | GetUsageByProvider _
  | GetUsageByService _ | GetUsageByTask _ | GetUsageEvents _ | GetUsageFilterValues _ _ _ | GetUnusedKeys _ | GetTaskUsage _ _
  | GetProviderHealth _ | GetProviderHealthStates | GetDebugBundle _ => [SCOPE_USAGE_READ]
  | GetUsageExport _ _ => [SCOPE_USAGE_EXPORT]
  | PostProvider _ | PostLiteLlmCredential _ | RemoveLiteLlmCredential _ | PostLiteLlmCredentialEnabled _ _
  | PatchLiteLlmPassthrough _ | PatchProvider _ _ | RemoveProvider _ | PostVerifyFoundry _ | PostProviderEnabled _ _
  | PostProviderHealthState _ | PostProviderHealthChecks => [SCOPE_PROVIDERS_UPDATE]
  | PostService _ | PostServiceImport _ | PostServiceSync _ | PatchServiceRequest _ _ | RemoveService _ | PostServiceEnabled _ _
  | PostOpenApiPreview _ _ | PostOpenApiSync _ _ | PostImportPreview _ | PostImportActivate _ _ | GetImportVersions
  | PostImportRollback _ => [SCOPE_SERVICES_UPDATE]
  end.

Create HintDb admin.
#[local] Hint Unfold
  admin_query admin_mutation read_value show_row show_value found deleted admin_members admin_patch_member
  admin_upsert_service_membership admin_delete_service_membership admin_upsert_project_membership
  admin_delete_project_membership admin_managed_identities admin_create_managed_identity admin_patch_managed_identity
  admin_delete_managed_identity admin_managed_identity_projects admin_create_managed_identity_project
  admin_patch_managed_identity_project admin_delete_managed_identity_project admin_guardrails admin_guardrail_executions
  admin_guardrail_summary list_audit_events create_admin_guardrail patch_admin_guardrail delete_admin_guardrail create_key
  list_keys get_key patch_key mutate_key_lifecycle revoke_key disable_key enable_key key_usage project_usage
  list_policy_layers upsert_policy_layer delete_policy_layer create_project list_projects get_project patch_project
  delete_project rotate_operator_token create_provider verify_foundry_provider list_providers
  upsert_litellm_credential_mapping list_litellm_credential_mappings get_litellm_passthrough_settings
  patch_litellm_passthrough_settings delete_litellm_credential_mapping mutate_litellm_credential_mapping_enabled
  disable_litellm_credential_mapping enable_litellm_credential_mapping get_provider patch_provider delete_provider
  mutate_provider_enabled disable_provider enable_provider list_route_identities set_route_identity list_openai_routes
  list_anthropic_routes mutate_route mutate_route_enabled patch_route_mode patch_route_config mutate_openai_route_enabled
  disable_openai_route enable_openai_route patch_openai_route_mode patch_openai_route_config mutate_anthropic_route_enabled
  disable_anthropic_route enable_anthropic_route patch_anthropic_route_mode patch_anthropic_route_config validate_forwarding_key_header
  create_service list_services get_service fetch_service_openapi preview_service_openapi sync_service_openapi patch_service
  delete_service mutate_service_enabled disable_service enable_service import_service sync_service service_sync_status
  effective_studio_connection get_studio_connection patch_studio_connection studio_catalog test_studio_connection
  studio_services effective_gateway_auth_settings refresh_auth_runtime get_gateway_auth_settings key_header_free
  patch_gateway_auth_settings traffic_live traffic_history usage_analytics usage_read_query usage_section usage_summary
  usage_dashboard usage_timeseries usage_breakdown usage_by_key usage_by_project usage_by_model usage_by_provider
  usage_by_service usage_by_task usage_events usage_filter_values usage_unused_keys task_usage usage_export_stream
  usage_export_json usage_export_csv provider_health provider_health_state upsert_provider_health_state active_health_check
  run_provider_health_checks get_debug_bundle preview_service_import activate_service_import service_import_versions
  rollback_service_import simulated_policy simulate_policy : admin.

(** The actor stays authorized while the trace grows. *)
Ltac still_authorized :=
  match goal with Ha : authorized _ _ _ _ _ |- _ => repeat apply authorized_grows; exact Ha end.
(** A question of a handler whose actor is known. *)
Ltac may_ask :=
  lazymatch goal with
  | |- admin_may _ _ _ _ (Mutate _) => split; [reflexivity|eexists; still_authorized]
  | |- admin_may _ _ _ _ (RecordAudit _) => eexists; split; [still_authorized|done]
  | |- _ => first [exact I | eexists; still_authorized]
  end.
(** The unrecorded changes of the trace. *)
Ltac owed_now := rewrite ?unaudited_snoc; match goal with Hu : unaudited _ = [] |- _ => rewrite Hu end; reflexivity.
Ltac head_case p :=
  lazymatch p with
  | pbind ?q _ => head_case q
  | match ?x with _ => _ end => lazymatch x with match _ with _ => _ end => head_case x | _ => destruct x end
  end.
(** Follows a handler through its questions. *)
Ltac walk :=
  repeat (unfold or_error, ok_or; cbn [pbind Programs.ask ensures id];
    lazymatch goal with
    | |- admin_may _ _ _ _ _ ∧ _ => split; [may_ask|intros ?]
    | |- settled (error_response _ _) _ => apply error_settled
    | |- settled _ _ => intros Hlow; first [owed_now | exfalso; cbn in Hlow; lia]
    | |- ensures _ (record_admin_audit _ _ _ _ _ _ _ _) _ _ => eapply audit_settles; [still_authorized|owed_now]
    | |- ensures _ (or_return _ _) _ _ => apply after_scopes; [assumption|intros ? ? ? ?]
    | |- ensures _ ?p _ _ => head_case p
    end).

Section requests.
Context {H : Type} `{HeaderMap H} `{ApiJson} `{SerdeJson} `{GuardrailJson}.
Variable token_hash : string → string.
Variable studio_env : StudioConnectionEnv.
Variable auth_env : GatewayAuthEnv.
Variable instance_id : string.
Variable url_parse : string → option Url.
Variable method_parses : string → bool.
Variable has_control : string → bool.
Variable header_name_ok : string → bool.
Variable to_lowercase : string → string.
Variable from_slice : string → option Value.
Variable schema_hash : string → string.
Variable import_valid : StudioServiceImportRequest → bool.
Variable h : H.

Abbreviation fine required p t := (ensures (admin_may token_hash h required) p settled t).
Abbreviation dispatch := (dispatch token_hash studio_env auth_env instance_id url_parse method_parses has_control header_name_ok
  to_lowercase from_slice schema_hash import_valid h).

Lemma member_bodies_fine required actor members done_ t : authorized token_hash h required t actor → unaudited t = [] →
  fine required (member_bodies h members done_) t.
Proof.
  revert done_ t. induction members as [|m members IH]; intros done_ t Ha Hu; cbn [member_bodies].
  - walk.
  - unfold or_error. cbn [pbind Programs.ask ensures]. split; [may_ask|]. intros [services|e]; cbn [pbind Programs.ask ensures]; [|apply error_settled].
    split; [may_ask|]. intros [projects|e]; [|apply error_settled]. apply IH; [still_authorized|owed_now].
Qed.

Lemma check_targets_fine actor targets done_ t : authorized token_hash h [SCOPE_PROVIDERS_UPDATE] t actor → unaudited t = [] →
  ensures (admin_may token_hash h [SCOPE_PROVIDERS_UPDATE]) (check_targets url_parse targets done_) (λ _ t', unaudited t' = []) t.
Proof.
  revert done_ t. induction targets as [|g targets IH]; intros done_ t Ha Hu; cbn [check_targets]; [done|].
  apply ensures_bind. unfold active_health_check. cbn [pbind Programs.ask ensures]. split; [exact I|]. intros now.
  assert (∀ c t', authorized token_hash h [SCOPE_PROVIDERS_UPDATE] t' actor → unaudited t' = [] →
    ensures (admin_may token_hash h [SCOPE_PROVIDERS_UPDATE])
      (let! now := ask UtcNow in
       let! stored := ask (Mutate (UpsertProviderHealthState (provider_health_state_from_check (ht_name g) (ht_provider g) c now))) in
       match stored with Err e => Ret (Err e) | Ok row => check_targets url_parse targets (done_ ++ [row_json row]) end)
      (λ _ t'', unaudited t'' = []) t') as Hstore.
  { intros c t' Ha' Hu'. cbn [pbind Programs.ask ensures]. split; [exact I|]. intros now'. split; [may_ask|].
    intros [row|e]; cbn [ensures]; [apply IH; [still_authorized|]|]; owed_now. }
  destruct (ht_base_url g); [destruct (is_none _)|]; cbn [pbind Programs.ask ensures].
  - apply Hstore; [still_authorized|owed_now].
  - split; [may_ask|]. intros probe. apply Hstore; [still_authorized|owed_now].
  - apply Hstore; [still_authorized|owed_now].
Qed.

(** Every request of the router. *)
Lemma admin_fine r t : unaudited t = [] → fine (request_scopes r) (dispatch r) t.
Proof.
  intros Hu. destruct r; cbn [AdminRouter.dispatch request_scopes]; autounfold with admin.
  all: try match goal with f : RouteFamily |- _ => destruct f end.
  all: walk.
  - eapply member_bodies_fine; [still_authorized|owed_now].
  - apply ensures_bind. eapply ensures_mono; [eapply check_targets_fine; [still_authorized|owed_now]|]. intros [v|e] t'' Hu''; walk.
Qed.

(** C4: whatever the stores and services answer, an admin request asks them
    anything - reads, changes, calls to providers - only after it was accepted
    that the caller is an operator whose bearer token has every scope the
    request requires, or the active administrator of a portal session whose
    CSRF token the request carries and which sent no other credential; every
    change needs exactly the request's scopes, and every audit event names that
    caller. *)
Theorem admin_requests_authorized (w : world answer) r :
  let '(_, t) := run w (dispatch r) [] in
  ∀ i op x, t !! i = Some (existT op x) → admin_may token_hash h (request_scopes r) (take i t) op.
Proof.
  pose proof (ensures_run _ _ _ [] w (admin_fine r [] eq_refl)) as Hr. destruct (run w _ []) as [resp t].
  destruct Hr as (_ & asked & -> & Ha). cbn [app] in *. exact Ha.
Qed.

(** ** Changes that are not recorded *)

Definition unrecorded_request (r : AdminRequest) : bool :=
  match r with
  | PostImportActivate _ _ | PostImportRollback _ | PostProviderHealthState _ | PostProviderHealthChecks => true
  | _ => false
  end.
(** Follows a handler that records nothing. *)
Ltac walk_silent :=
  repeat (unfold or_error, ok_or, or_return; cbn [pbind Programs.ask ensures];
    lazymatch goal with
    | |- True => exact I
    | |- _ ∧ _ => split; [exact I|intros ?]
    | |- ensures _ ?p _ _ => head_case p
    end).
Definition records_nothing (t : history) (op : action) : Prop := match op with RecordAudit _ => False | _ => True end.
Lemma require_silent scopes (k : OperatorAuthorization → handler Response) t :
  (∀ actor t', ensures records_nothing (k actor) (λ _ _, True) t') →
  ensures records_nothing (or_return (require_admin_scopes token_hash h scopes) k) (λ _ _, True) t.
Proof.
  intros Hk. unfold or_return, require_admin_scopes, require_portal_session, fails. apply ensures_bind.
  eapply (ensures_mono _ _ (λ _ _, True)); [|intros [actor|resp] t' _; [apply Hk|exact I]]. walk_silent.
Qed.
Lemma check_targets_silent targets done_ t : ensures records_nothing (check_targets url_parse targets done_) (λ _ _, True) t.
Proof.
  revert done_ t. induction targets as [|g targets IH]; intros done_ t; cbn [check_targets]; [done|].
  apply ensures_bind. unfold active_health_check. walk_silent; apply IH.
Qed.
Lemma unrecorded_silent r : unrecorded_request r = true → ensures records_nothing (dispatch r) (λ _ _, True) [].
Proof.
  intros Hr. destruct r; try done; cbn [AdminRouter.dispatch]; autounfold with admin; apply require_silent; intros actor t'; walk_silent.
  apply ensures_bind. eapply ensures_mono; [apply check_targets_silent|]. intros [v|e] t'' _; exact I.
Qed.
Lemma unrecorded_trace (w : world answer) r ev x : unrecorded_request r = true →
  existT (RecordAudit ev) x ∉ snd (run w (dispatch r) []).
Proof.
  intros Hr Hin. pose proof (ensures_run _ _ _ [] w (unrecorded_silent r Hr)) as Hrun. destruct (run w _ []) as [resp t].
  destruct Hrun as (_ & asked & -> & Ha). apply list_elem_of_lookup in Hin as [i Hi]. exact (Ha i _ _ Hi).
Qed.
(** activating or rolling back an import of services, and storing provider
    health, by hand or by the checks, records no audit event, whatever the
    stores answer, although they change the services that requests are routed
    to. *)
Theorem import_activation_unrecorded (w : world answer) r (Hr : unrecorded_request r = true) :
  let '(_, t) := run w (dispatch r) [] in ∀ ev x, existT (RecordAudit ev) x ∉ t.
Proof. pose proof (λ ev x, unrecorded_trace w r ev x Hr) as Ht. by destruct (run w _ []). Qed.

(** C5: a successful response to an admin request means that every change the
    stores made for it - of members, memberships, identities, guardrails, keys,
    policies, projects, tokens, provider configurations, credentials, routes,
    services or settings - was recorded afterwards, in an audit event of its kind
    that the store accepted, except the activation or rollback of a service
    import and provider health states; the requests for those are exactly four
    and record no audit event at all. *)
Theorem admin_changes_audited (w : world answer) r :
  let '(resp, t) := run w (dispatch r) [] in
  (rp_status resp < 300 → ∀ i m x, t !! i = Some (existT (Mutate m) x) → changed (shape_of m) x = true →
   unrecorded_change m = false →
   ∃ j ev, (i < j)%nat ∧ t !! j = Some (existT (RecordAudit ev) (Ok tt)) ∧ ae_target_type ev = audit_kind m)
  ∧ (unrecorded_request r = true → ∀ ev x, existT (RecordAudit ev) x ∉ t).
Proof.
  pose proof (ensures_run _ _ _ [] w (admin_fine r [] eq_refl)) as Hr. pose proof (unrecorded_trace w r) as Hn.
  destruct (run w _ []) as [resp t]. destruct Hr as (Hs & _). split; [|intros Hu ev x; by apply Hn].
  intros Hok i m x Hi Hc Hm. destruct (settled_later [] t i _ (audit_kind m) (Hs Hok) Hi) as (j & [op y] & Hj & Hl & Hk); [done| |].
  - cbn. rewrite Hc. unfold audited_as. by rewrite Hm.
  - destruct op; try done. cbn in Hk. destruct y as [[]|e]; [|done]. injection Hk as Hk. eauto.
Qed.
End requests.

(** ** A run *)

Module AdminSample.
Import Headers.HeaderList.
#[local] Existing Instance header_list.
#[local] Instance headers : HeaderMap (list (string * string)) := header_list (λ _, true) (λ _, true).
#[local] Instance serde : SerdeJson :=
  {| from_slice_value := λ _, None; from_slice_maximum_probe := λ _, None; from_slice_batch := λ _, None;
     from_slice_extra_body := λ _, None; from_slice_generation_probe := λ _, None |}.
#[local] Instance guardrail_json : GuardrailJson := {| definition_json := λ _, None; record_json := λ _, None |}.
#[local] Instance json : ApiJson :=
  {| member_json := λ _, None; service_membership_json := λ _, None; project_membership_json := λ _, None; service_json := λ _, None;
     studio_json := λ _, None; diff_json := λ _, None; layer_trace_json := λ _, None; openapi_json := λ _, None;
     auth_settings_json := λ _, None; usage_row_json := λ _, None; bundle_json := λ _, None; identity_method_json := λ _, JNull;
     time_json := λ _, JNull; f64_json := λ _, JNull; value_text := λ _, ""; f64_text := λ _, ""; to_rfc3339 := λ _, "" |}.

Definition operator (scopes : list string) : OperatorAuthorization :=
  {| oa_token_id := "op-1"; oa_member_id := None; oa_token_prefix := "op"; oa_roles := ["admin"]; oa_scopes := scopes |}.
Definition row : Row := {| row_id := "row-1"; row_json := None |}.
(** Stores that accept every change an operator with the scopes makes. *)
Definition accept (m : mutation) : GatewayResult (outcome_type (shape_of m)) :=
  match shape_of m as s return GatewayResult (outcome_type s) with
  | One => Ok row
  | Maybe => Ok (Some row)
  | Flag => Ok true
  | Done => Ok tt
  end.
Definition stores (scopes : list string) : world answer := λ _ op,
  match op as o return answer o with
  | UtcNow => 0
  | RandomOpaqueToken => ""
  | VerifyOperatorToken _ _ => Ok (operator scopes)
  | Mutate m => accept m
  | RecordAudit _ => Ok tt
  | ReadAllServices => Ok []
  | ReadRow _ => Ok None
  | TryAcquire _ | TimedOut _ | BuildHealthClient => false
  | CheckFoundryConnection _ => (JNull, JNull)
  | GetDocument _ _ => GetFailed
  | ProbeHealth _ _ _ _ => {| hp_answer := HealthTimeout; hp_elapsed_ms := 0 |}
  | _ => Err StoreUnavailable
  end.
Definition request (r : AdminRequest) (scopes : list string) : Response * history :=
  run (stores scopes)
    (dispatch (H := list (string * string)) id {| se_base_url := None; se_token := None |} GatewayAuthEnv_default "instance" (λ _, None)
       (λ _, true) (λ _, false) (λ _, true) id (λ _, None) id (λ _, true) [("authorization", "Bearer token")] r) [].
Definition asked (t : history) : list action := map (λ e, projT1 e) t.

(** Changes by an operator with the scope, and without it. *)
Example revoke_audited :
  let '(resp, t) := request (PostKeyLifecycle "key-1" LifecycleRevoke) [SCOPE_KEYS_DISABLE] in
  rp_status resp = 200 ∧ length t = 5%nat ∧ unaudited (take 4 t) = ["key"] ∧ unaudited t = [].
Proof. vm_compute. done. Qed.
Example import_activated :
  let '(resp, t) := request (PostImportActivate None []) [SCOPE_SERVICES_UPDATE] in
  rp_status resp = 200 ∧ asked t = [UtcNow; VerifyOperatorToken "token" 0; ReadAllServices;
    Mutate (ActivateServiceRegistryImport "admin-api" {| di_added := []; di_changed := []; di_removed := []; di_invalid := [] |} [] None)].
Proof. vm_compute. done. Qed.
Example layer_removed :
  let '(resp, t) := request (RemovePolicyLayer "layer-1") [SCOPE_POLICIES_UPDATE] in
  rp_status resp = 204 ∧ length t = 4%nat ∧ unaudited (take 3 t) = ["policy_layer"] ∧ unaudited t = [].
Proof. vm_compute. done. Qed.
Example layer_refused :
  let '(resp, t) := request (RemovePolicyLayer "layer-1") [SCOPE_USAGE_READ] in rp_status resp = 403 ∧ length t = 2%nat.
Proof. vm_compute. done. Qed.
End AdminSample.
Lemma import_activation_unrecorded_witness :
  unrecorded_request (PostImportActivate None []) = true ∧
  let '(_, t) := AdminSample.request (PostImportActivate None []) [SCOPE_SERVICES_UPDATE] in ∀ ev x, existT (RecordAudit ev) x ∉ t.
Proof. split; [reflexivity|]. by apply import_activation_unrecorded. Defined.
