(* ===== verification/UsageStore.v ===== *)
(** * The usage ledger and its pages

    Models the reads of recorded usage in
    [crates/gateway-store/src/postgres.rs]: the filters of a usage query, the
    cursor of a traversal with its text, and a page of rows.  The table is a
    map from the identifiers of its rows; a cost is a [numeric(20,8)], an
    integer of units of [10^-8]; NULL is [None], and a comparison with it is not
    true.  The collation of the database, the visibility of a transaction in a
    snapshot, the texts of times and identifiers and the JSON reader and writer
    are parameters. *)

From S2P Require Import Prelude Errors Routing Json EndpointAccess Foundry ServiceTypes Usage TrafficRequest TrafficMonitor UsageCsv AdminStore AdminUsage OwnerApi.

(** ** Rows *)

Record LedgerRow := {
  lr_request_id : string;
  lr_key_id : string;
  lr_project_id : option string;
  lr_route : string;
  lr_model : option string;
  lr_provider : string;
  lr_status : string;
  lr_status_code : Z;
  lr_latency_ms : Z;
  lr_input_tokens : option Z;
  lr_output_tokens : option Z;
  lr_total_tokens : option Z;
  lr_estimated_cost : option Z;
  lr_budget_estimated_cost : option Z;
  lr_cost_source : option string;
  lr_cost_mode : option string;
  lr_pricing_rule_name : option string;
  lr_pricing_rule_fingerprint : option string;
  lr_service_name : option string;
  lr_service_version : option string;
  lr_http_method : option string;
  lr_endpoint_path : option string;
  lr_endpoint_template : option string;
  lr_task_id : option string;
  lr_run_id : option string;
  lr_trace_id : option string;
  lr_fallback_count : Z;
  lr_created_at : Z;
  lr_diagnostics : Value;
  lr_ingestion_xid : option Z
}.
(** The columns of [guardrail_execution_events] that pages count by. *)
Record GuardrailRow := {
  gr_request_id : string;
  gr_key_id : option string;
  gr_project_id : option string;
  gr_ingestion_xid : option Z
}.
Record Ledger := { events : gmap string LedgerRow; guardrail_events : list GuardrailRow }.

(** ** Cursors *)

(** The snapshot of a traversal, its direction and the last row seen. *)
Record UsageCursor := {
  cu_snapshot : string;
  cu_descending : bool;
  cu_after : option (Z * string * string)
}.
(** [value["key"]]: null where there is no such member. *)
Definition member_or_null (k : string) (v : Value) : Value := default JNull (value_get k v).
Definition CURSOR_TEXT_MAX : Z := 65536.
(** The running transactions of a snapshot: within its bounds, ascending. *)
Fixpoint running_ok (xmin xmax : Z) (previous : option Z) (xids : list string) : bool :=
  match xids with
  | [] => true
  | xid :: xids =>
      match parse_u64 xid with
      | None => false
      | Some xid =>
          negb ((xid <? xmin) || (xmax <=? xid) || is_some_and (λ last, xid <=? last) previous)
          && running_ok xmin xmax (Some xid) xids
      end
  end.
Definition snapshot_ok (snapshot : string) : bool :=
  match split_on ":" snapshot with
  | [xmin; xmax; running] =>
      match parse_u64 xmin, parse_u64 xmax with
      | Some xmin, Some xmax =>
          (xmin <=? xmax) && (is_empty running || running_ok xmin xmax None (split_on "," running))
      | _, _ => false
      end
  | _ => false
  end.

Definition usage_sort_desc (sort_order : option string) : bool := negb (bool_decide (sort_order = Some "asc")).
Definition usage_event_sort_column (sort_by : option string) : string :=
  match sort_by with
  | Some s =>
      if String.eqb s "cost" then "u.estimated_cost"
      else if String.eqb s "latency" then "u.latency_ms"
      else if String.eqb s "tokens" then "u.total_tokens"
      else if String.eqb s "status_code" then "u.status_code"
      else "u.created_at"
  | None => "u.created_at"
  end.

Section store.
Variable collate : string → string → comparison.
Variable visible_in_snapshot : string → Z → bool.
Variable numeric_to_f64 : Z → f64.
Variable to_string : Value → string.
Variable from_str : string → option Value.
Variable time_text : Z → string.
Variable time_parse : string → option Z.
Variable uuid_parse : string → option string.

Definition cursor_decode (value : string) : GatewayResult UsageCursor :=
  if CURSOR_TEXT_MAX <? len value then Err InvalidUsageQuery
  else
    ok_or (value ← from_str value;
           v ← as_u64 (member_or_null "v" value);
           if negb (v =? 1) then None
           else
             snapshot ← as_str (member_or_null "snapshot" value);
             if negb (snapshot_ok snapshot) then None
             else
               let after := member_or_null "after" value in
               after ← match after with
                       | JNull => Some None
                       | _ =>
                           at_time ← as_str (member_or_null "at" after) ≫= time_parse;
                           request_id ← as_str (member_or_null "request_id" after);
                           id ← as_str (member_or_null "id" after) ≫= uuid_parse;
                           Some (Some (at_time, request_id, id))
                       end;
               descending ← as_bool (member_or_null "descending" value);
               Some {| cu_snapshot := snapshot; cu_descending := descending; cu_after := after |}) InvalidUsageQuery.
(** Members in the order [serde_json::Map] keeps them. *)
Definition cursor_value (c : UsageCursor) : Value :=
  JObject
    [("after", match cu_after c with
               | None => JNull
               | Some (at_time, request_id, id) =>
                   JObject [("at", JString (time_text at_time)); ("id", JString id); ("request_id", JString request_id)]
               end);
     ("descending", JBool (cu_descending c)); ("snapshot", JString (cu_snapshot c)); ("v", JNumber (PosInt 1))].
Definition cursor_encode (c : UsageCursor) : string := to_string (cursor_value c).

(** ** Filters *)

Definition column_is (wanted : option string) (column : option string) : bool :=
  is_none_or (λ w, bool_decide (column = Some w)) wanted.
Definition COALESCE {A} (a b : option A) : option A := match a with Some _ => a | None => b end.
(** [estimated_cost >= min_cost_usd]: the one filter on a price. *)
Definition costs_enough (q : UsageQuery) (r : LedgerRow) : bool :=
  is_none_or (λ cost, is_some_and (λ c, f64_geb (numeric_to_f64 c) (f64_max cost (f64_of_Z 0))) (lr_estimated_cost r))
    (uq_min_cost_usd q).
Definition usage_filters (q : UsageQuery) (r : LedgerRow) : bool :=
  is_none_or (λ from, from <=? lr_created_at r) (uq_from q)
  && is_none_or (λ to, lr_created_at r <? to) (uq_to q)
  && column_is (uq_project_id q) (lr_project_id r)
  && column_is (uq_key_id q) (Some (lr_key_id r))
  && column_is (uq_route q) (Some (lr_route r))
  && column_is (uq_provider q) (Some (lr_provider r))
  && column_is (uq_service q) (lr_service_name r)
  && column_is (uq_request_id q) (Some (lr_request_id r))
  && column_is (to_ascii_uppercase <$> uq_method q) (lr_http_method r)
  && column_is (uq_endpoint q) (COALESCE (lr_endpoint_template r) (lr_endpoint_path r))
  && column_is (uq_task_id q) (lr_task_id r)
  && column_is (uq_run_id q) (lr_run_id r)
  && column_is (uq_model q) (lr_model r)
  && column_is (uq_status q) (Some (lr_status r))
  && is_none_or (λ code, lr_status_code r =? code) (uq_status_code q)
  && column_is (uq_trace_id q) (lr_trace_id r)
  && costs_enough q r.

(** [append_usage_snapshot]. *)
Definition in_snapshot (snapshot : string) (xid : option Z) : bool := is_none_or (visible_in_snapshot snapshot) xid.

(** ** Order *)

Definition chronological (descending : bool) (a b : string * LedgerRow) : comparison :=
  then_with (let o := lr_created_at a.2 ?= lr_created_at b.2 in if descending then CompOpp o else o)
    (then_with (collate (lr_request_id a.2) (lr_request_id b.2)) (String.compare a.1 b.1)).
(** NULL sorts after every value. *)
Definition compare_null (a b : option Z) : comparison :=
  match a, b with
  | Some a, Some b => a ?= b
  | Some _, None => Lt
  | None, Some _ => Gt
  | None, None => Eq
  end.
Definition sort_value (column : string) (r : LedgerRow) : option Z :=
  if String.eqb column "u.estimated_cost" then lr_estimated_cost r
  else if String.eqb column "u.latency_ms" then Some (lr_latency_ms r)
  else if String.eqb column "u.total_tokens" then lr_total_tokens r
  else if String.eqb column "u.status_code" then Some (lr_status_code r)
  else Some (lr_created_at r).
Definition by_column (column : string) (descending : bool) (a b : string * LedgerRow) : comparison :=
  then_with (let o := compare_null (sort_value column a.2) (sort_value column b.2) in if descending then CompOpp o else o)
    (then_with (collate (lr_request_id a.2) (lr_request_id b.2)) (String.compare a.1 b.1)).
(** The rows after the last one seen. *)
Definition after_cursor (descending : bool) (after : Z * string * string) (r : string * LedgerRow) : bool :=
  let '(at_time, request_id, id) := after in
  let later := then_with (collate (lr_request_id r.2) request_id) (String.compare r.1 id) in
  if descending
  then (lr_created_at r.2 <=? at_time)
       && ((lr_created_at r.2 <? at_time) || ((lr_created_at r.2 =? at_time) && match later with Gt => true | _ => false end))
  else match then_with (lr_created_at r.2 ?= at_time) later with Gt => true | _ => false end.

(** ** Pages *)

Definition page_selected (q : UsageQuery) (descending : bool) (cursor : option UsageCursor) (r : string * LedgerRow) : bool :=
  usage_filters q r.2
  && is_none_or (λ c, in_snapshot (cu_snapshot c) (lr_ingestion_xid r.2)
                      && is_none_or (λ after, after_cursor descending after r) (cu_after c)) cursor.
Definition page_order (q : UsageQuery) (export descending : bool) : string * LedgerRow → string * LedgerRow → comparison :=
  if export then chronological false else by_column (usage_event_sort_column (uq_sort_by q)) descending.
Definition usage_rows_page_query (l : Ledger) (q : UsageQuery) (export : bool) (cursor : option UsageCursor) (limit offset : Z) :
    list (string * LedgerRow) :=
  let descending := negb export && usage_sort_desc (uq_sort_order q) in
  take (Z.to_nat (limit + 1)) (drop (Z.to_nat offset)
    (sort_by (page_order q export descending) (List.filter (page_selected q descending cursor) (map_to_list (events l))))).
Definition guardrail_action_count (l : Ledger) (cursor : option UsageCursor) (r : LedgerRow) : Z :=
  Z.of_nat (length (List.filter (λ g,
    String.eqb (gr_request_id g) (lr_request_id r) && bool_decide (gr_key_id g = Some (lr_key_id r))
    && bool_decide (gr_project_id g = lr_project_id r)
    && is_none_or (λ c, in_snapshot (cu_snapshot c) (gr_ingestion_xid g)) cursor) (guardrail_events l))).
Definition export_row (l : Ledger) (cursor : option UsageCursor) (r : LedgerRow) : UsageExportRow :=
  {| ur_request_id := lr_request_id r; ur_key_id := lr_key_id r; ur_project_id := lr_project_id r; ur_route := lr_route r;
     ur_model := lr_model r; ur_provider := lr_provider r; ur_status := lr_status r; ur_status_code := lr_status_code r;
     ur_latency_ms := lr_latency_ms r; ur_input_tokens := default 0 (lr_input_tokens r);
     ur_output_tokens := default 0 (lr_output_tokens r); ur_total_tokens := default 0 (lr_total_tokens r);
     ur_estimated_cost_usd := numeric_to_f64 <$> lr_estimated_cost r; ur_cost_source := lr_cost_source r;
     ur_cost_mode := lr_cost_mode r; ur_pricing_rule_name := lr_pricing_rule_name r; ur_service_name := lr_service_name r;
     ur_service_version := lr_service_version r; ur_http_method := lr_http_method r; ur_endpoint_path := lr_endpoint_path r;
     ur_endpoint_template := lr_endpoint_template r; ur_task_id := lr_task_id r; ur_run_id := lr_run_id r;
     ur_trace_id := lr_trace_id r; ur_fallback_count := lr_fallback_count r;
     ur_guardrail_action_count := guardrail_action_count l cursor r; ur_created_at := lr_created_at r |}.
Definition clamp (lo hi v : Z) : Z := Z.max lo (Z.min hi v).
Definition page_limit (export : bool) (limit : option Z) : Z :=
  if export then clamp 1 10000 (default 1000 limit) else clamp 1 500 (default 50 limit).
Definition chronological_only (q : UsageQuery) (export : bool) : bool :=
  export || String.eqb (usage_event_sort_column (uq_sort_by q)) "u.created_at".
(** The cursor a query asks for; [current_snapshot] is [pg_current_snapshot()::text]. *)
Definition page_cursor (current_snapshot : string) (q : UsageQuery) (export descending : bool) : GatewayResult (option UsageCursor) :=
  match uq_cursor q with
  | None => Ok None
  | Some value =>
      if String.eqb value "start" then
        if negb (chronological_only q export) then Err InvalidUsageQuery
        else Ok (Some {| cu_snapshot := current_snapshot; cu_descending := descending; cu_after := None |})
      else
        let? cursor := cursor_decode value in
        if negb (Bool.eqb (cu_descending cursor) descending) || negb (chronological_only q export) then Err InvalidUsageQuery
        else Ok (Some cursor)
  end.
Definition cursor_at (c : UsageCursor) (after : option (Z * string * string)) : UsageCursor :=
  {| cu_snapshot := cu_snapshot c; cu_descending := cu_descending c; cu_after := after |}.
Definition event_key (r : string * LedgerRow) : Z * string * string := (lr_created_at r.2, lr_request_id r.2, r.1).
Definition usage_rows_page (l : Ledger) (current_snapshot : string) (q : UsageQuery) (export : bool) : GatewayResult UsageEventsPage :=
  let limit := page_limit export (uq_limit q) in
  let offset := Z.max 0 (default 0 (uq_offset q)) in
  let descending := negb export && usage_sort_desc (uq_sort_order q) in
  let? cursor := page_cursor current_snapshot q export descending in
  if is_some cursor && negb (offset =? 0) then Err InvalidUsageQuery
  else
    let rows := usage_rows_page_query l q export cursor limit offset in
    let has_more := limit <? Z.of_nat (length rows) in
    let rows := take (Z.to_nat limit) rows in
    Ok {| pg_rows := map (λ r, export_row l cursor r.2) rows; pg_limit := limit; pg_offset := offset; pg_has_more := has_more;
          pg_next_cursor := if has_more then (c ← cursor; r ← last rows; Some (cursor_encode (cursor_at c (Some (event_key r))))) else None;
          pg_snapshot_cursor := (λ c, cursor_encode (cursor_at c None)) <$> cursor |}.
Definition usage_events (l : Ledger) (current_snapshot : string) (q : UsageQuery) : GatewayResult UsageEventsPage :=
  usage_rows_page l current_snapshot q false.
Definition usage_export_page (l : Ledger) (current_snapshot : string) (q : UsageQuery) : GatewayResult UsageEventsPage :=
  usage_rows_page l current_snapshot q true.

(** ** Writes *)

(** The columns that a new price changes. *)
Definition priced_row (cost : option Z) (mode : string) (source : string) (rule fingerprint : option string) (r : LedgerRow) : LedgerRow :=
  {| lr_request_id := lr_request_id r; lr_key_id := lr_key_id r; lr_project_id := lr_project_id r; lr_route := lr_route r;
     lr_model := lr_model r; lr_provider := lr_provider r; lr_status := lr_status r; lr_status_code := lr_status_code r;
     lr_latency_ms := lr_latency_ms r; lr_input_tokens := lr_input_tokens r; lr_output_tokens := lr_output_tokens r;
     lr_total_tokens := lr_total_tokens r; lr_estimated_cost := cost;
     lr_budget_estimated_cost := COALESCE (COALESCE (lr_budget_estimated_cost r) (lr_estimated_cost r)) (Some 0);
     lr_cost_source := Some source; lr_cost_mode := Some mode; lr_pricing_rule_name := rule; lr_pricing_rule_fingerprint := fingerprint;
     lr_service_name := lr_service_name r; lr_service_version := lr_service_version r; lr_http_method := lr_http_method r;
     lr_endpoint_path := lr_endpoint_path r; lr_endpoint_template := lr_endpoint_template r; lr_task_id := lr_task_id r;
     lr_run_id := lr_run_id r; lr_trace_id := lr_trace_id r; lr_fallback_count := lr_fallback_count r;
     lr_created_at := lr_created_at r; lr_diagnostics := lr_diagnostics r; lr_ingestion_xid := lr_ingestion_xid r |}.
Definition insert_event (id : string) (r : LedgerRow) (l : Ledger) : Ledger :=
  {| events := <[id := r]> (events l); guardrail_events := guardrail_events l |}.
Definition insert_guardrail_event (g : GuardrailRow) (l : Ledger) : Ledger :=
  {| events := events l; guardrail_events := guardrail_events l ++ [g] |}.

(** What may happen to the ledger after a snapshot was taken: transactions
    that the snapshot does not see record requests and guardrail actions, and
    recorded requests get new prices. *)
Inductive ledger_step (snapshot : string) (l : Ledger) : Ledger → Prop :=
| records id r : events l !! id = None → in_snapshot snapshot (lr_ingestion_xid r) = false → ledger_step snapshot l (insert_event id r l)
| reprices id r cost mode source rule fingerprint :
    events l !! id = Some r → ledger_step snapshot l (insert_event id (priced_row cost mode source rule fingerprint r) l)
| guards g : in_snapshot snapshot (gr_ingestion_xid g) = false → ledger_step snapshot l (insert_guardrail_event g l).
End store.

(** ** Comparisons of rows *)

Lemma total_opp {A} (P : A → Prop) c : total_cmp P c → total_cmp P (λ a b, CompOpp (c a b)).
Proof.
  intros [F T]. split.
  - intros a b Ha Hb. by rewrite (F a b).
  - intros x y z Hx Hy Hz H1 H2. rewrite <- (F x y) in H1 by done. rewrite <- (F y z) in H2 by done. rewrite <- (F x z) by done. by apply (T z y x).
Qed.
Lemma total_on {A B} (f : B → A) c : total_cmp (λ _ : A, True) c → total_cmp (λ _ : B, True) (λ a b, c (f a) (f b)).
Proof. intros [F T]. split; intros; [by apply F|by eapply T]. Qed.

Section order.
Variable collate : string → string → comparison.
Hypothesis collate_total : total_cmp (λ _ : string, True) collate.
Hypothesis collate_eq : ∀ a b, collate a b = Eq → a = b.

Lemma chronological_total d : total_cmp (λ _, True) (chronological collate d).
Proof using collate_total.
  unfold chronological. apply total_then.
  - destruct d; [apply (total_opp _ (λ a b : string * LedgerRow, lr_created_at a.2 ?= lr_created_at b.2))|]; apply total_Z.
  - apply total_then; [by apply (total_on (λ r : string * LedgerRow, lr_request_id r.2))|apply total_string].
Qed.
Lemma chronological_eq d a b : chronological collate d a b = Eq → event_key a = event_key b.
Proof using collate_eq.
  unfold chronological, then_with, event_key. intros E.
  destruct (lr_created_at a.2 ?= lr_created_at b.2) eqn:E1; [|by destruct d..].
  apply Z.compare_eq in E1. replace (if d then CompOpp Eq else Eq) with Eq in E by by destruct d.
  destruct (collate _ _) eqn:E2; [|done..]. apply collate_eq in E2. apply String.compare_eq_iff in E. by rewrite E1, E2, E.
Qed.
(** The rows after the cursor of a row are those sorted after it. *)
Lemma after_cursor_spec d r s : after_cursor collate d (event_key r) s = true ↔ chronological collate d r s = Lt.
Proof using collate_total.
  assert (chronological collate d r s = Lt ↔ chronological collate d s r = Gt) as ->.
  { rewrite (cmp_flip _ _ (chronological_total d) r s I I). by destruct (chronological collate d r s). }
  unfold after_cursor, chronological, event_key, then_with. destruct d.
  - rewrite andb_true_iff, orb_true_iff, andb_true_iff, Z.leb_le, Z.ltb_lt, Z.eqb_eq.
    destruct (Z.compare_spec (lr_created_at s.2) (lr_created_at r.2)); cbn [CompOpp].
    + split; [intros [_ [?|[_ E]]]; [lia|]|intros E; split; [lia|right; split; [done|]]]; by repeat case_match.
    + split; [done|]. intros _. split; [lia|by left].
    + split; [|done]. intros [? _]. lia.
  - destruct (lr_created_at s.2 ?= lr_created_at r.2); [|done..]. by repeat case_match.
Qed.
Lemma chronological_order q (export : bool) : chronological_only q export = true →
  page_order collate q export (negb export && usage_sort_desc (uq_sort_order q))
  = chronological collate (negb export && usage_sort_desc (uq_sort_order q)).
Proof. unfold page_order, chronological_only. destruct export; [done|]. intros E%String.eqb_eq. cbn. by rewrite E. Qed.
End order.

(** ** Traversals *)

Lemma page_limit_positive export limit : 1 ≤ page_limit export limit.
Proof. unfold page_limit, clamp. destruct export; lia. Qed.

(** A row without what a new price changes. *)
Definition settled (r : LedgerRow) : LedgerRow :=
  {| lr_request_id := lr_request_id r; lr_key_id := lr_key_id r; lr_project_id := lr_project_id r; lr_route := lr_route r;
     lr_model := lr_model r; lr_provider := lr_provider r; lr_status := lr_status r; lr_status_code := lr_status_code r;
     lr_latency_ms := lr_latency_ms r; lr_input_tokens := lr_input_tokens r; lr_output_tokens := lr_output_tokens r;
     lr_total_tokens := lr_total_tokens r; lr_estimated_cost := None; lr_budget_estimated_cost := None; lr_cost_source := None;
     lr_cost_mode := None; lr_pricing_rule_name := None; lr_pricing_rule_fingerprint := None; lr_service_name := lr_service_name r;
     lr_service_version := lr_service_version r; lr_http_method := lr_http_method r; lr_endpoint_path := lr_endpoint_path r;
     lr_endpoint_template := lr_endpoint_template r; lr_task_id := lr_task_id r; lr_run_id := lr_run_id r; lr_trace_id := lr_trace_id r;
     lr_fallback_count := lr_fallback_count r; lr_created_at := lr_created_at r; lr_diagnostics := lr_diagnostics r; lr_ingestion_xid := lr_ingestion_xid r |}.
Definition settled_export (u : UsageExportRow) : UsageExportRow :=
  {| ur_request_id := ur_request_id u; ur_key_id := ur_key_id u; ur_project_id := ur_project_id u; ur_route := ur_route u;
     ur_model := ur_model u; ur_provider := ur_provider u; ur_status := ur_status u; ur_status_code := ur_status_code u;
     ur_latency_ms := ur_latency_ms u; ur_input_tokens := ur_input_tokens u; ur_output_tokens := ur_output_tokens u;
     ur_total_tokens := ur_total_tokens u; ur_estimated_cost_usd := None; ur_cost_source := None; ur_cost_mode := None;
     ur_pricing_rule_name := None; ur_service_name := ur_service_name u; ur_service_version := ur_service_version u;
     ur_http_method := ur_http_method u; ur_endpoint_path := ur_endpoint_path u; ur_endpoint_template := ur_endpoint_template u;
     ur_task_id := ur_task_id u; ur_run_id := ur_run_id u; ur_trace_id := ur_trace_id u; ur_fallback_count := ur_fallback_count u;
     ur_guardrail_action_count := ur_guardrail_action_count u; ur_created_at := ur_created_at u |}.
Definition shape (r : string * LedgerRow) : string * LedgerRow := (r.1, settled r.2).

Section traversal.
Variable collate : string → string → comparison.
Variable visible_in_snapshot : string → Z → bool.
Variable numeric_to_f64 : Z → f64.
Variable to_string : Value → string.
Variable from_str : string → option Value.
Variable time_text : Z → string.
Variable time_parse : string → option Z.
Variable uuid_parse : string → option string.
Variable snapshot : string.
Variable export : bool.
Abbreviation page := (usage_rows_page collate visible_in_snapshot numeric_to_f64 to_string from_str time_text time_parse uuid_parse).
Abbreviation in_snapshot := (in_snapshot visible_in_snapshot snapshot).
Abbreviation encode := (cursor_encode to_string time_text).
Abbreviation row_of := (export_row visible_in_snapshot numeric_to_f64).

(** What a traversal is to see: the rows of the query that the snapshot sees,
    in order. *)
Definition seen_by (q : UsageQuery) (r : string * LedgerRow) : bool := usage_filters numeric_to_f64 q r.2 && in_snapshot (lr_ingestion_xid r.2).
Definition seen (q : UsageQuery) (descending : bool) (l : Ledger) : list (string * LedgerRow) :=
  sort_by (chronological collate descending) (List.filter (seen_by q) (map_to_list (events l))).
Definition with_cursor (q : UsageQuery) (c : string) : UsageQuery :=
  page_query q (uq_limit q) (uq_offset q) (Some c) (uq_sort_by q) (uq_sort_order q).
(** Follows the cursors from page to page; the ledger of each page is what it
    has become by then. *)
Fixpoint traverse (fuel n : nat) (ledger : nat → Ledger) (current : nat → string) (q : UsageQuery) : option (list UsageEventsPage) :=
  match fuel with
  | O => None
  | S fuel =>
      match page (ledger n) (current n) q export with
      | Err _ => None
      | Ok p => match pg_next_cursor p with
                | None => Some [p]
                | Some c => cons p <$> traverse fuel (S n) ledger current (with_cursor q c)
                end
      end
  end.

(** What the evolution of a ledger keeps. *)
Record grows (l l' : Ledger) : Prop := {
  rows_kept id r : events l !! id = Some r → ∃ r', events l' !! id = Some r' ∧ settled r' = settled r;
  rows_new id r : events l' !! id = Some r → events l !! id = None → in_snapshot (lr_ingestion_xid r) = false;
  guards_kept : List.filter (λ g, in_snapshot (gr_ingestion_xid g)) (guardrail_events l') =
                List.filter (λ g, in_snapshot (gr_ingestion_xid g)) (guardrail_events l)
}.
Lemma grows_refl l : grows l l.
Proof. split; [eauto| |done]. congruence. Qed.
Lemma settled_xid r r' : settled r = settled r' → lr_ingestion_xid r = lr_ingestion_xid r'.
Proof. intros [= ]. done. Qed.
Lemma grows_trans l1 l2 l3 : grows l1 l2 → grows l2 l3 → grows l1 l3.
Proof.
  intros [K1 N1 G1] [K2 N2 G2]. split; [| |congruence].
  - intros id r Hr. destruct (K1 id r Hr) as (r2 & H2 & E2). destruct (K2 id r2 H2) as (r3 & H3 & E3). exists r3. by rewrite E3, E2.
  - intros id r Hr Hn. destruct (events l2 !! id) as [r2|] eqn:E; [|by eapply N2].
    destruct (K2 id r2 E) as (r3 & H3 & E3). rewrite Hr in H3. injection H3 as <-. rewrite (settled_xid _ _ E3). by eapply N1.
Qed.
Lemma step_grows l l' : ledger_step visible_in_snapshot snapshot l l' → grows l l'.
Proof.
  intros [id r Hn Hx|id r cost mode source rule fp Hr|g Hg]; split; cbn; try done.
  - intros i x Hi. exists x. rewrite lookup_insert_ne; [done|congruence].
  - intros i x Hi Hni. destruct (decide (id = i)) as [<-|Hne]; [by rewrite lookup_insert_eq in Hi; simplify_eq|].
    rewrite lookup_insert_ne in Hi by done. congruence.
  - intros i x Hi. destruct (decide (id = i)) as [<-|Hne].
    + rewrite Hr in Hi. injection Hi as <-. eexists. by rewrite lookup_insert_eq.
    + exists x. by rewrite lookup_insert_ne.
  - intros i x Hi Hni. destruct (decide (id = i)) as [<-|Hne]; [congruence|]. rewrite lookup_insert_ne in Hi by done. congruence.
  - eauto.
  - congruence.
  - rewrite List.filter_app. cbn. by rewrite Hg, app_nil_r.
Qed.
Lemma evolves_grows l l' : rtc (ledger_step visible_in_snapshot snapshot) l l' → grows l l'.
Proof. induction 1 as [l|l1 l2 l3 H1 _ IH]; [apply grows_refl|]. eapply grows_trans; [by apply step_grows|done]. Qed.

Hypothesis collate_total : total_cmp (λ _ : string, True) collate.
Hypothesis collate_eq : ∀ a b, collate a b = Eq → a = b.

(** Sorted rows with distinct identifiers are determined by what they are. *)
Lemma sorted_unique d (l1 l2 : list (string * LedgerRow)) :
  NoDup l1.*1 → StronglySorted (λ a b, chronological collate d a b ≠ Gt) l1 → StronglySorted (λ a b, chronological collate d a b ≠ Gt) l2 →
  l1 ≡ₚ l2 → l1 = l2.
Proof using collate_total collate_eq.
  intros Hnd H1 H2 Hp. apply (StronglySorted_unique_strong (λ a b, chronological collate d a b ≠ Gt)); [|done..].
  intros a b Ha Hb Hab Hba. rewrite <- Hp in Hb. assert (chronological collate d a b = Eq) as E.
  { rewrite (cmp_flip _ _ (chronological_total collate collate_total d) a b I I) in Hba. by destruct (chronological collate d a b). }
  apply (chronological_eq _ collate_eq) in E. destruct a as [i x], b as [j y]. unfold event_key in E. cbn in E.
  assert (i = j) as -> by congruence. f_equal.
  apply list_elem_of_lookup in Ha as [m Ha], Hb as [n Hb].
  assert (m = n) as ->; [|congruence].
  apply (NoDup_lookup l1.*1 m n j); [done|by rewrite list_lookup_fmap, Ha|by rewrite list_lookup_fmap, Hb].
Qed.
Lemma chronological_shape d a b : chronological collate d (shape a) (shape b) = chronological collate d a b.
Proof. done. Qed.
Lemma seen_sorted q d l : StronglySorted (λ a b, chronological collate d a b ≠ Gt) (seen q d l).
Proof using collate_total. apply sort_by_sorted, (chronological_total _ collate_total). Qed.
Lemma seen_elem q d l i r : (i, r) ∈ seen q d l ↔ events l !! i = Some r ∧ seen_by q (i, r) = true.
Proof.
  unfold seen. rewrite sort_by_perm, list_elem_of_In, filter_In, <- list_elem_of_In, elem_of_map_to_list. done.
Qed.
Lemma NoDup_fst_filter {A} (p : string * A → bool) l : NoDup l.*1 → NoDup (List.filter p l).*1.
Proof.
  induction l as [|[i x] l IH]; cbn; [done|]. intros [Hi Hl]%NoDup_cons. destruct (p (i, x)); cbn; [|auto].
  apply NoDup_cons. split; [|auto]. rewrite list_elem_of_fmap. intros ([j y] & -> & Hy). apply list_elem_of_In, filter_In in Hy as [Hy _].
  apply Hi, list_elem_of_fmap. exists (j, y). split; [done|by apply list_elem_of_In].
Qed.
Lemma seen_nodup q d l : NoDup (seen q d l).*1.
Proof. unfold seen. rewrite sort_by_perm. apply NoDup_fst_filter, NoDup_fst_map_to_list. Qed.
Lemma seen_by_settled q i r r' : costs_enough numeric_to_f64 q r = costs_enough numeric_to_f64 q r' → settled r = settled r' →
  seen_by q (i, r) = seen_by q (i, r').
Proof.
  intros Hc E. unfold seen_by, usage_filters. cbn [fst snd]. rewrite Hc.
  assert (∀ f : LedgerRow → bool, (∀ x, f x = f (settled x)) → f r = f r') as Hf by (intros f Hx; by rewrite (Hx r), (Hx r'), E).
  rewrite (Hf (λ x, in_snapshot (lr_ingestion_xid x))) by done. do 2 f_equal.
  exact (Hf (λ x, is_none_or (λ from, from <=? lr_created_at x) (uq_from q) && is_none_or (λ to, lr_created_at x <? to) (uq_to q)
    && column_is (uq_project_id q) (lr_project_id x) && column_is (uq_key_id q) (Some (lr_key_id x))
    && column_is (uq_route q) (Some (lr_route x)) && column_is (uq_provider q) (Some (lr_provider x))
    && column_is (uq_service q) (lr_service_name x) && column_is (uq_request_id q) (Some (lr_request_id x))
    && column_is (to_ascii_uppercase <$> uq_method q) (lr_http_method x)
    && column_is (uq_endpoint q) (COALESCE (lr_endpoint_template x) (lr_endpoint_path x)) && column_is (uq_task_id q) (lr_task_id x)
    && column_is (uq_run_id q) (lr_run_id x) && column_is (uq_model q) (lr_model x) && column_is (uq_status q) (Some (lr_status x))
    && is_none_or (λ code, lr_status_code x =? code) (uq_status_code q) && column_is (uq_trace_id q) (lr_trace_id x)) (λ x, eq_refl)).
Qed.
(** Repricing moves no row across the bound on costs. *)
Definition costs_kept (q : UsageQuery) (l l' : Ledger) : Prop :=
  ∀ id r r', events l !! id = Some r → events l' !! id = Some r' → costs_enough numeric_to_f64 q r' = costs_enough numeric_to_f64 q r.
(** A snapshot keeps seeing the same rows. *)
Lemma seen_grows q d l l' : costs_kept q l l' → grows l l' → map shape (seen q d l') = map shape (seen q d l).
Proof using collate_total collate_eq.
  intros Hc Hg. assert (∀ l, NoDup (map shape (seen q d l)).*1) as Hnd.
  { intros l0. change (NoDup ((shape <$> seen q d l0).*1)). rewrite <- list_fmap_compose. apply seen_nodup. }
  apply (sorted_unique d); [apply Hnd|..].
  1, 2: apply (StronglySorted_fmap shape (λ a b, chronological collate d a b ≠ Gt)); [by intros|apply seen_sorted].
  apply NoDup_Permutation; [eapply NoDup_fmap_1, Hnd..|]. intros [i r].
  change (map shape) with (fmap (M := list) shape). rewrite !list_elem_of_fmap. split.
  - intros ([j x] & [= -> ->] & Hx). apply seen_elem in Hx as [Hx Hs].
    destruct (events l !! j) as [y|] eqn:E.
    + destruct (rows_kept _ _ Hg j y E) as (x' & Hx' & Es). rewrite Hx in Hx'. injection Hx' as <-.
      exists (j, y). unfold shape. cbn. rewrite Es. split; [done|]. apply seen_elem. split; [done|].
      rewrite <- (seen_by_settled q j x y); [done|by apply (Hc j)|done].
    + unfold seen_by in Hs. cbn in Hs. rewrite (rows_new _ _ Hg j x) in Hs by done. by rewrite andb_false_r in Hs.
  - intros ([j x] & [= -> ->] & Hx). apply seen_elem in Hx as [Hx Hs].
    destruct (rows_kept _ _ Hg j x Hx) as (y & Hy & Es). exists (j, y). unfold shape. cbn. rewrite Es. split; [done|].
    apply seen_elem. split; [done|]. rewrite (seen_by_settled q j y x); [done|by apply (Hc j)|done].
Qed.

Lemma StronglySorted_list_filter {A} (R : relation A) p l : StronglySorted R l → StronglySorted R (List.filter p l).
Proof.
  induction 1 as [|x l Hl IH Hx]; cbn; [constructor|]. destruct (p x); [|done]. constructor; [done|].
  apply Forall_forall. intros y Hy. apply list_elem_of_In, filter_In in Hy as [Hy _]. rewrite Forall_forall in Hx.
  by apply Hx, list_elem_of_In.
Qed.
(** The rows after one of a sorted list are the rest of the list. *)
Lemma filter_after d V i r :
  NoDup V.*1 → StronglySorted (λ a b, chronological collate d a b ≠ Gt) V → V !! i = Some r →
  List.filter (after_cursor collate d (event_key r)) V = drop (S i) V.
Proof using collate_total collate_eq.
  intros Hnd Hs. revert i. induction Hs as [|x V Hs IH Hx]; intros i; [done|]. apply NoDup_cons in Hnd as [Hni Hnd].
  rewrite Forall_forall in Hx. assert (∀ a b, chronological collate d b a = CompOpp (chronological collate d a b)) as Hf.
  { intros. by apply (cmp_flip _ _ (chronological_total collate collate_total d)). }
  destruct i as [|i]; cbn [lookup list_lookup drop List.filter].
  - intros [= <-]. destruct (after_cursor collate d (event_key x) x) eqn:E.
    { apply (after_cursor_spec _ collate_total) in E. specialize (Hf x x). by rewrite E in Hf. }
    transitivity (List.filter (λ _, true) V); [|by apply List.filter_true]. apply filter_ext_in. intros y Hy%list_elem_of_In.
    apply (after_cursor_spec _ collate_total). destruct (chronological collate d x y) eqn:E'; [|done|by apply Hx in Hy].
    apply (chronological_eq _ collate_eq) in E'. destruct Hni. apply list_elem_of_fmap. exists y. split; [|done].
    unfold event_key in E'. congruence.
  - intros Hr. destruct (after_cursor collate d (event_key r) x) eqn:E; [|by apply IH].
    apply (after_cursor_spec _ collate_total) in E. specialize (Hx r ltac:(by eapply list_elem_of_lookup_2)).
    specialize (Hf r x). rewrite E in Hf. by rewrite Hf in Hx.
Qed.

Variable q : UsageQuery.
Definition direction : bool := negb export && usage_sort_desc (uq_sort_order q).
Abbreviation seen_in := (seen q direction).
Hypothesis chronological_query : chronological_only q export = true.

Lemma page_rows l c : cu_snapshot c = snapshot →
  sort_by (page_order collate q export direction)
    (List.filter (page_selected collate visible_in_snapshot numeric_to_f64 q direction (Some c)) (map_to_list (events l)))
  = List.filter (λ r, is_none_or (λ a, after_cursor collate direction a r) (cu_after c)) (seen_in l).
Proof using collate_total collate_eq chronological_query.
  intros Hs. assert (page_order collate q export direction = chronological collate direction) as ->.
  { by apply chronological_order. }
  apply (sorted_unique direction).
  - rewrite sort_by_perm. apply NoDup_fst_filter, NoDup_fst_map_to_list.
  - apply sort_by_sorted, (chronological_total _ collate_total).
  - apply StronglySorted_list_filter, seen_sorted.
  - apply NoDup_Permutation.
    + rewrite sort_by_perm. eapply NoDup_fmap_1, NoDup_fst_filter, NoDup_fst_map_to_list.
    + eapply NoDup_fmap_1, NoDup_fst_filter, seen_nodup.
    + intros [i r]. rewrite sort_by_perm, !list_elem_of_In, !filter_In, <- !list_elem_of_In, seen_elem, elem_of_map_to_list.
      unfold page_selected, seen_by. cbn [is_none_or snd]. rewrite Hs, !andb_true_iff. split; [intros (? & ? & ? & ?)|intros ((? & ? & ?) & ?)]; repeat split; assumption.
Qed.

(** The cursor in front of the row at [k]. *)
Definition cursor_before (V : list (string * LedgerRow)) (k : nat) : UsageCursor :=
  {| cu_snapshot := snapshot; cu_descending := direction;
     cu_after := match k with O => None | S i => event_key <$> V !! i end |}.
Lemma rows_from l k : (k ≤ length (seen_in l))%nat →
  sort_by (page_order collate q export direction)
    (List.filter (page_selected collate visible_in_snapshot numeric_to_f64 q direction (Some (cursor_before (seen_in l) k)))
       (map_to_list (events l))) = drop k (seen_in l).
Proof using collate_total collate_eq chronological_query.
  intros Hk. rewrite page_rows by done. destruct k as [|i]; cbn [cursor_before cu_after].
  - cbn [is_none_or]. by rewrite drop_0, List.filter_true.
  - destruct (lookup_lt_is_Some_2 (seen_in l) i) as [r Hr]; [lia|]. rewrite Hr. cbn [fmap option_fmap option_map is_none_or].
    apply filter_after; [apply seen_nodup|apply seen_sorted|done].
Qed.

Abbreviation limit := (page_limit export (uq_limit q)).
Hypothesis offset_zero : default 0 (uq_offset q) ≤ 0.
Hypothesis snapshot_text : snapshot_ok snapshot = true.
Definition cursor_of (after : Z * string * string) : UsageCursor :=
  {| cu_snapshot := snapshot; cu_descending := direction; cu_after := Some after |}.

(** The text of a cursor is read back: the JSON, the time and the identifier
    in it, and it is not too long. *)
Record travels (after : Z * string * string) : Prop := {
  text_read : from_str (encode (cursor_of after)) = Some (cursor_value time_text (cursor_of after));
  text_object : starts_with (encode (cursor_of after)) "{" = true;
  text_fits : len (encode (cursor_of after)) ≤ CURSOR_TEXT_MAX;
  time_read : time_parse (time_text after.1.1) = Some after.1.1;
  identifier_read : uuid_parse after.2 = Some after.2
}.
Lemma usage_cursor_roundtrip after : travels after →
  cursor_decode from_str time_parse uuid_parse (encode (cursor_of after)) = Ok (cursor_of after).
Proof using snapshot_text.
  intros [Hj _ Hl Ht Hu]. unfold cursor_decode. rewrite (proj2 (Z.ltb_ge _ _) Hl), Hj. destruct after as [[t r] i].
  cbn -[snapshot_ok] in *. rewrite snapshot_text. cbn. rewrite Ht. cbn. by rewrite Hu.
Qed.

(** A page that starts in front of the row at [k]. *)
Lemma page_at l current c k : (k ≤ length (seen_in l))%nat →
  page_cursor from_str time_parse uuid_parse current (with_cursor q c) export direction = Ok (Some (cursor_before (seen_in l) k)) →
  ∃ p, page l current (with_cursor q c) export = Ok p ∧
    pg_rows p = map (λ r, row_of l (Some (cursor_before (seen_in l) k)) r.2) (take (Z.to_nat limit) (drop k (seen_in l))) ∧
    pg_has_more p = bool_decide (k + Z.to_nat limit < length (seen_in l))%nat ∧
    pg_next_cursor p = if bool_decide (k + Z.to_nat limit < length (seen_in l))%nat
                       then Some (encode (cursor_before (seen_in l) (k + Z.to_nat limit))) else None.
Proof using collate_total collate_eq chronological_query offset_zero.
  intros Hk Hc. pose proof (page_limit_positive export (uq_limit q)) as Hl. unfold usage_rows_page. cbn zeta.
  change (uq_limit (with_cursor q c)) with (uq_limit q). change (uq_offset (with_cursor q c)) with (uq_offset q).
  change (uq_sort_order (with_cursor q c)) with (uq_sort_order q). fold direction. rewrite Hc.
  replace (Z.max 0 (default 0 (uq_offset q))) with 0 by lia. cbn [is_some andb Z.eqb negb].
  unfold usage_rows_page_query. cbn zeta. change (uq_sort_order (with_cursor q c)) with (uq_sort_order q). fold direction.
  change (page_order collate (with_cursor q c) export direction) with (page_order collate q export direction).
  change (page_selected collate visible_in_snapshot numeric_to_f64 (with_cursor q c) direction) with
    (page_selected collate visible_in_snapshot numeric_to_f64 q direction).
  rewrite rows_from by done. rewrite drop_0. set (V := seen_in l) in *.
  assert ((limit <? Z.of_nat (length (take (Z.to_nat (limit + 1)) (drop k V)))) = bool_decide (k + Z.to_nat limit < length V)%nat) as Hm.
  { rewrite length_take, length_drop. case_bool_decide; [apply Z.ltb_lt|apply Z.ltb_ge]; lia. }
  rewrite Hm. rewrite take_take, Nat.min_l by lia.
  eexists. split; [done|]. cbn [pg_rows pg_has_more pg_next_cursor]. do 2 (split; [done|]). case_bool_decide as Hlt; [|done].
  cbn [mbind option_bind]. rewrite last_lookup, length_take, length_drop.
  rewrite Nat.min_l by lia. rewrite lookup_take_lt by lia. rewrite lookup_drop.
  destruct (lookup_lt_is_Some_2 V (k + pred (Z.to_nat limit))) as [r Hr]; [lia|]. rewrite Hr. cbn [mbind option_bind].
  do 3 f_equal. unfold cursor_at, cursor_before. cbn [cu_snapshot cu_descending]. f_equal.
  replace (k + Z.to_nat limit)%nat with (S (k + pred (Z.to_nat limit))) by lia. cbn. by rewrite Hr.
Qed.

Lemma filter_andb {A} (p p' : A → bool) l : List.filter (λ x, p x && p' x) l = List.filter p (List.filter p' l).
Proof. induction l as [|x l IH]; cbn; [done|]. destruct (p x) eqn:E, (p' x); cbn; rewrite ?E, ?IH; done. Qed.
Lemma export_settled l l' c c' r r' : grows l l' → cu_snapshot c = snapshot → cu_snapshot c' = snapshot → settled r' = settled r →
  settled_export (row_of l' (Some c') r') = settled_export (row_of l (Some c) r).
Proof.
  intros Hg Hc Hc' E. assert (guardrail_action_count visible_in_snapshot l' (Some c') r' = guardrail_action_count visible_in_snapshot l (Some c) r) as Hn.
  { unfold guardrail_action_count. cbn [is_none_or]. rewrite Hc, Hc'. rewrite !filter_andb, (guards_kept _ _ Hg).
    pose proof (f_equal lr_request_id E) as E1. pose proof (f_equal lr_key_id E) as E2. pose proof (f_equal lr_project_id E) as E3.
    cbn in E1, E2, E3. by rewrite E1, E2, E3. }
  unfold export_row, settled_export. cbn. rewrite Hn. clear Hn. injection E. intros. f_equal; congruence.
Qed.
Lemma cursor_shape V V' k : map shape V' = map shape V → cursor_before V' k = cursor_before V k.
Proof.
  intros E. unfold cursor_before. f_equal. destruct k as [|i]; [done|].
  assert (∀ l : list (string * LedgerRow), event_key <$> l !! i = event_key <$> map shape l !! i) as Hl.
  { intros l. change (map shape l) with (shape <$> l). rewrite list_lookup_fmap. by destruct (l !! i). }
  by rewrite Hl, E, <- Hl.
Qed.

Variable ledger : nat → Ledger.
Variable current : nat → string.
Hypothesis evolves : ∀ n, rtc (ledger_step visible_in_snapshot snapshot) (ledger n) (ledger (S n)).
Hypothesis bound_kept : ∀ n, costs_kept q (ledger 0) (ledger n).
Hypothesis cursors_travel : ∀ id r, events (ledger 0) !! id = Some r → travels (event_key (id, r)).
Abbreviation V := (seen_in (ledger 0)).
Abbreviation start := (cursor_before V 0).
Definition expected (r : string * LedgerRow) : UsageExportRow := settled_export (row_of (ledger 0) (Some start) r.2).

Lemma ledger_grows n : grows (ledger 0) (ledger n).
Proof using evolves.
  induction n as [|n IH]; [apply grows_refl|]. eapply grows_trans; [exact IH|]. by apply evolves_grows.
Qed.
Lemma rows_expected n k c m : cu_snapshot c = snapshot →
  map settled_export (map (λ r, row_of (ledger n) (Some c) r.2) (take m (drop k (seen_in (ledger n))))) = map expected (take m (drop k V)).
Proof using collate_total collate_eq evolves bound_kept.
  intros Hc. pose proof (seen_grows q direction _ _ (bound_kept n) (ledger_grows n)) as E.
  apply (f_equal (λ l, take m (drop k l))) in E. change (map shape) with (fmap (M := list) shape) in E.
  rewrite <- !fmap_drop, <- !fmap_take in E. rewrite map_map. revert E.
  generalize (take m (drop k (seen_in (ledger n)))) (take m (drop k V)). intros l. induction l as [|x l IH]; intros [|y l'] E; cbn in *; try done.
  apply (inj2 cons) in E as [Ex El]. f_equal; [|by apply IH]. apply export_settled; [apply ledger_grows|done..|exact (f_equal snd Ex)].
Qed.
Lemma next_cursor_decodes n k : (0 < k ≤ length V)%nat →
  page_cursor from_str time_parse uuid_parse (current n) (with_cursor q (encode (cursor_before V k))) export direction
  = Ok (Some (cursor_before V k)).
Proof using snapshot_text cursors_travel chronological_query.
  intros Hk. destruct k as [|i]; [lia|]. destruct (lookup_lt_is_Some_2 V i) as [[id r] Hr]; [lia|].
  pose proof (list_elem_of_lookup_2 _ _ _ Hr) as [He _]%seen_elem.
  assert (cursor_before V (S i) = cursor_of (event_key (id, r))) as Hc by (unfold cursor_before; by rewrite Hr).
  rewrite Hc. pose proof (cursors_travel id r He) as Ht. pose proof (usage_cursor_roundtrip _ Ht) as Hd.
  unfold page_cursor. cbn [uq_cursor with_cursor page_query].
  destruct (String.eqb_spec (encode (cursor_of (event_key (id, r)))) "start") as [E|_].
  - pose proof (text_object _ Ht) as Ho. by rewrite E in Ho.
  - rewrite Hd. change (chronological_only (with_cursor q (encode (cursor_of (event_key (id, r))))) export) with (chronological_only q export).
    rewrite chronological_query. cbn [cu_descending cursor_of]. by rewrite eqb_reflx.
Qed.
Lemma traverse_from fuel n k c : (k ≤ length V)%nat → (length V - k < fuel)%nat →
  page_cursor from_str time_parse uuid_parse (current n) (with_cursor q c) export direction = Ok (Some (cursor_before V k)) →
  ∃ pages final, traverse fuel n ledger current (with_cursor q c) = Some (pages ++ [final]) ∧
    map settled_export ((pages ++ [final]) ≫= pg_rows) = map expected (drop k V) ∧
    (∀ p, p ∈ pages → pg_has_more p = true) ∧ pg_has_more final = false ∧
    ∀ p, p ∈ pages ++ [final] → Z.of_nat (length (pg_rows p)) ≤ limit.
Proof using collate_total collate_eq chronological_query offset_zero evolves bound_kept snapshot_text cursors_travel.
  pose proof (page_limit_positive export (uq_limit q)) as Hl.
  revert n k c. induction fuel as [|fuel IH]; intros n k c Hk Hf Hc; [lia|].
  pose proof (seen_grows q direction _ _ (bound_kept n) (ledger_grows n)) as Eg.
  assert (length (seen_in (ledger n)) = length V) as El by (apply (f_equal length) in Eg; by rewrite !length_map in Eg).
  destruct (page_at (ledger n) (current n) c k) as (p & Hp & Hr & Hm & Hn); [lia|by rewrite (cursor_shape _ _ k Eg)|].
  rewrite El, (cursor_shape _ _ _ Eg) in *.
  assert (map settled_export (pg_rows p) = map expected (take (Z.to_nat limit) (drop k V))) as He.
  { rewrite Hr, rows_expected; done. }
  assert (Z.of_nat (length (pg_rows p)) ≤ limit) as Hlen.
  { rewrite Hr, length_map, length_take. lia. }
  cbn [traverse]. rewrite Hp, Hn. case_bool_decide as Hlt.
  - destruct (IH (S n) (k + Z.to_nat limit)%nat (encode (cursor_before V (k + Z.to_nat limit)))) as (pages & final & Ht & Hrows & H1 & H2 & H3);
      [lia..|apply next_cursor_decodes; lia|]. exists (p :: pages), final.
    set (e := encode _) in *. change (with_cursor (with_cursor q c) e) with (with_cursor q e). rewrite Ht. split; [done|].
    split; [|split; [|split; [done|]]].
    + change ((p :: pages) ++ [final]) with (p :: (pages ++ [final])). rewrite bind_cons, map_app, He. etrans; [apply f_equal; exact Hrows|]. rewrite <- map_app. f_equal. rewrite <- drop_drop, take_drop. done.
    + intros p' [->|Hp']%elem_of_cons; [done|by apply H1].
    + intros p' [->|Hp']%elem_of_cons; [done|by apply H3].
  - exists [], p. split; [done|]. cbn. rewrite app_nil_r, He. rewrite take_ge by (rewrite length_drop; lia).
    split; [done|]. split; [by intros p' ?%elem_of_nil|]. split; [done|]. by intros p' ->%list_elem_of_singleton.
Qed.

(** C34: whoever records requests and guardrail actions or changes prices in the
    meantime, following the cursors of a usage query ends after at most one
    page more than there are rows, never skips or repeats a row, and returns
    exactly the rows of the query that the snapshot of the first page saw, in
    order, as they were but for their prices, in pages within the limit of
    which all but the last say that there is more. A query that asks for a
    minimum cost is covered as long as no new price moves a row of the snapshot
    across it: the filter reads the price of the moment. *)
Theorem usage_traversal_complete (Hstart : current 0 = snapshot) :
  ∃ pages final, traverse (S (length V)) 0 ledger current (with_cursor q "start") = Some (pages ++ [final]) ∧
    map settled_export ((pages ++ [final]) ≫= pg_rows) = map expected V ∧
    (∀ p, p ∈ pages → pg_has_more p = true) ∧ pg_has_more final = false ∧
    ∀ p, p ∈ pages ++ [final] → Z.of_nat (length (pg_rows p)) ≤ limit.
Proof using collate_total collate_eq chronological_query offset_zero evolves bound_kept snapshot_text cursors_travel.
  apply (traverse_from (S (length V)) 0 0); [lia..|]. unfold page_cursor. cbn [uq_cursor with_cursor page_query String.eqb Ascii.eqb].
  change (chronological_only (with_cursor q "start") export) with (chronological_only q export).
  rewrite chronological_query. cbn. by rewrite Hstart.
Qed.
End traversal.

(** ** An export during which an older request is recorded *)

Module LedgerSample.
Definition row (request : string) (created_at xid : Z) : LedgerRow :=
  {| lr_request_id := request; lr_key_id := "k"; lr_project_id := None; lr_route := "/v1/responses"; lr_model := None;
     lr_provider := "litellm"; lr_status := "success"; lr_status_code := 200; lr_latency_ms := 5; lr_input_tokens := Some 1;
     lr_output_tokens := None; lr_total_tokens := Some 1; lr_estimated_cost := None; lr_budget_estimated_cost := None;
     lr_cost_source := None; lr_cost_mode := None; lr_pricing_rule_name := None; lr_pricing_rule_fingerprint := None;
     lr_service_name := None; lr_service_version := None; lr_http_method := None; lr_endpoint_path := None;
     lr_endpoint_template := None; lr_task_id := None; lr_run_id := None; lr_trace_id := None; lr_fallback_count := 0;
     lr_created_at := created_at; lr_diagnostics := JObject []; lr_ingestion_xid := Some xid |}.
Definition before : Ledger := {| events := {["a" := row "r2" 10 3; "b" := row "r1" 11 4]}; guardrail_events := [] |}.
Definition during : Ledger := insert_event "c" (row "r0" 9 7) before.
Definition visible (_ : string) (xid : Z) : bool := xid <? 5.
Definition query : UsageQuery := page_query UsageQuery_default (Some 1) None None None (Some "asc").
Definition ledger (n : nat) : Ledger := match n with O => before | S _ => during end.
(** A writer that puts down which row a cursor is at, and its reader. *)
Definition to_string (v : Value) : string :=
  "{" +:+ default "" ((value_get "after" v ≫= value_get "id") ≫= as_str).
Definition cursor (r : string * LedgerRow) : UsageCursor := cursor_of "5:5:" true query (event_key r).
Definition from_str (t : string) : option Value :=
  if String.eqb t "{a" then Some (cursor_value decimal (cursor ("a", row "r2" 10 3)))
  else if String.eqb t "{b" then Some (cursor_value decimal (cursor ("b", row "r1" 11 4))) else None.
Lemma rows_travel id r : events before !! id = Some r →
  travels to_string from_str decimal parse_u64 Some "5:5:" true query (event_key (id, r)).
Proof.
  cbn [events before]. intros Hr. apply lookup_insert_Some in Hr as [[<- <-]|[_ Hr]]; [by split; vm_compute|].
  apply lookup_singleton_Some in Hr as [<- <-]. by split; vm_compute.
Qed.
Lemma ledger_evolves n : rtc (ledger_step visible "5:5:") (ledger n) (ledger (S n)).
Proof. destruct n as [|n]; [|apply rtc_refl]. apply rtc_once. by apply records. Qed.
Lemma sample_rows : map (λ r, r.1) (seen String.compare visible f64_of_Z "5:5:" query false before) = ["a"; "b"].
Proof. vm_compute. reflexivity. Qed.
End LedgerSample.

Lemma usage_traversal_complete_witness :
  ∃ pages final, traverse String.compare LedgerSample.visible f64_of_Z LedgerSample.to_string LedgerSample.from_str decimal parse_u64 Some
      true 3 0 LedgerSample.ledger (λ _, "5:5:") (with_cursor LedgerSample.query "start") = Some (pages ++ [final]) ∧
    map settled_export ((pages ++ [final]) ≫= pg_rows)
    = map (expected String.compare LedgerSample.visible f64_of_Z "5:5:" true LedgerSample.query LedgerSample.ledger)
        (seen String.compare LedgerSample.visible f64_of_Z "5:5:" LedgerSample.query (direction true LedgerSample.query) LedgerSample.before) ∧
    (∀ p, p ∈ pages → pg_has_more p = true) ∧ pg_has_more final = false ∧ ∀ p, p ∈ pages ++ [final] → Z.of_nat (length (pg_rows p)) ≤ 1.
Proof.
  apply (usage_traversal_complete String.compare LedgerSample.visible f64_of_Z LedgerSample.to_string LedgerSample.from_str decimal parse_u64
    Some "5:5:" true (total_string _ id) String.compare_eq_iff LedgerSample.query eq_refl).
  - reflexivity.
  - reflexivity.
  - exact LedgerSample.ledger_evolves.
  - intros n id r r' _ _. reflexivity.
  - exact LedgerSample.rows_travel.
  - reflexivity.
Defined.
