(* ===== verification/PortalStore.v ===== *)
(** * Members, memberships, logins and sessions in the database

    Models [PortalAccessStore] of [crates/gateway-store/src/postgres.rs] over
    the tables of the portal: what each statement reads and writes, and what
    their constraints refuse.  A row keeps its texts as stored and is decoded
    as the [_from_row] functions do; [now()] of the database and a new
    identifier are arguments of the statements that use them.  Of services and
    projects, whose tables belong to other stores, a service's [enabled] and
    the existence of a project are read.  The collation of names is a
    parameter. *)

From S2P Require Import Prelude SocketFrames StreamGuardrails Errors Routing RouteSettings Json GuardrailPolicy Policies OutputLimits Guardrails Pii AuthAdmission VerificationCache VerificationFlight Auth EndpointAccess Foundry ServiceTypes ServicePricing ProviderConfigs Headers Entra AuthSettings TrafficRequest ProxyContext ProviderSelection OpenApi UsageCsv Access KeyAdmin AdminStore AdminAuth AdminApi AdminConfig AdminUsage OwnerApi PortalLogin AdminRouter AdminAudit.

(** ** Rows *)

Record MemberRow := {
  mr_tenant_id : string;
  mr_object_id : string;
  mr_email : option string;
  mr_display_name : option string;
  mr_status : string;
  mr_roles : list string;
  mr_last_sign_in_at : option Z;
  mr_created_at : Z;
  mr_updated_at : Z
}.
Record MembershipRow := { ms_role : string; ms_created_at : Z; ms_updated_at : Z }.
(** [managed_identity_bindings] and [managed_identity_project_bindings], whose
    target is a service or a project. *)
Record IdentityRow := {
  ir_tenant_id : string;
  ir_client_id : string;
  ir_object_id : option string;
  ir_display_name : string;
  ir_target : string;
  ir_required_role : string;
  ir_enabled : bool;
  ir_created_at : Z;
  ir_updated_at : Z
}.
Record SessionRow := { se_member_id : string; se_csrf_hash : string; se_expires_at : Z; se_last_seen_at : Z }.
Record PortalDb := {
  portal_members : gmap string MemberRow;
  service_memberships : gmap (string * string) MembershipRow;
  project_memberships : gmap (string * string) MembershipRow;
  managed_identity_bindings : gmap string IdentityRow;
  managed_identity_project_bindings : gmap string IdentityRow;
  oidc_login_transactions : gmap string OidcLoginTransaction;
  portal_sessions : gmap string SessionRow;
  (* what is read of the services and projects *)
  registered_services : gmap string bool;
  registered_projects : gset string
}.
Definition set_members m (d : PortalDb) : PortalDb :=
  {| portal_members := m; service_memberships := service_memberships d; project_memberships := project_memberships d;
     managed_identity_bindings := managed_identity_bindings d; managed_identity_project_bindings := managed_identity_project_bindings d;
     oidc_login_transactions := oidc_login_transactions d; portal_sessions := portal_sessions d;
     registered_services := registered_services d; registered_projects := registered_projects d |}.
Definition set_memberships s p (d : PortalDb) : PortalDb :=
  {| portal_members := portal_members d; service_memberships := s; project_memberships := p;
     managed_identity_bindings := managed_identity_bindings d; managed_identity_project_bindings := managed_identity_project_bindings d;
     oidc_login_transactions := oidc_login_transactions d; portal_sessions := portal_sessions d;
     registered_services := registered_services d; registered_projects := registered_projects d |}.
Definition set_identities s p (d : PortalDb) : PortalDb :=
  {| portal_members := portal_members d; service_memberships := service_memberships d; project_memberships := project_memberships d;
     managed_identity_bindings := s; managed_identity_project_bindings := p;
     oidc_login_transactions := oidc_login_transactions d; portal_sessions := portal_sessions d;
     registered_services := registered_services d; registered_projects := registered_projects d |}.
Definition set_logins t (d : PortalDb) : PortalDb :=
  {| portal_members := portal_members d; service_memberships := service_memberships d; project_memberships := project_memberships d;
     managed_identity_bindings := managed_identity_bindings d; managed_identity_project_bindings := managed_identity_project_bindings d;
     oidc_login_transactions := t; portal_sessions := portal_sessions d;
     registered_services := registered_services d; registered_projects := registered_projects d |}.
Definition set_sessions s (d : PortalDb) : PortalDb :=
  {| portal_members := portal_members d; service_memberships := service_memberships d; project_memberships := project_memberships d;
     managed_identity_bindings := managed_identity_bindings d; managed_identity_project_bindings := managed_identity_project_bindings d;
     oidc_login_transactions := oidc_login_transactions d; portal_sessions := s;
     registered_services := registered_services d; registered_projects := registered_projects d |}.

(** [btrim(v) <> ''], which takes off spaces only. *)
Definition btrim_nonempty (v : string) : bool := negb (all_bytes (Ascii.eqb " ") v).
Definition array_remove (roles : list string) (role : string) : list string := List.filter (λ r, negb (String.eqb r role)) roles.
Definition array_append (roles : list string) (role : string) : list string := roles ++ [role].

(** ** Decoding *)

(** A row that does not decode is an error of the driver. *)
Definition portal_member_from_row (id : string) (r : MemberRow) : GatewayResult PortalMember :=
  match member_status_parse (mr_status r) with
  | Err _ => Err StoreUnavailable
  | Ok status =>
      Ok {| pm_id := id; pm_tenant_id := mr_tenant_id r; pm_object_id := mr_object_id r; pm_email := mr_email r;
            pm_display_name := mr_display_name r; pm_status := status; pm_roles := mr_roles r;
            pm_last_sign_in_at := mr_last_sign_in_at r; pm_created_at := mr_created_at r; pm_updated_at := mr_updated_at r |}
  end.
Definition service_membership_from_row (k : string * string) (r : MembershipRow) : GatewayResult ServiceMembership :=
  match member_role_parse (ms_role r) with
  | Err _ => Err StoreUnavailable
  | Ok role => Ok {| sm_member_id := k.1; sm_service_name := k.2; sm_role := role |}
  end.
Definition project_membership_from_row (k : string * string) (r : MembershipRow) : GatewayResult ProjectMembership :=
  match member_role_parse (ms_role r) with
  | Err _ => Err StoreUnavailable
  | Ok role => Ok {| pj_member_id := k.1; pj_project_id := k.2; pj_role := role |}
  end.
(** [ManagedIdentityBinding] and [ManagedIdentityProjectBinding]: the row with
    its identifier. *)
Record ManagedIdentityBinding := { mb_id : string; mb_row : IdentityRow }.
Definition managed_identity_from_row (id : string) (r : IdentityRow) : ManagedIdentityBinding := {| mb_id := id; mb_row := r |}.

Section store.
Variable to_lowercase : string → string.
Variable collate : string → string → comparison.

(** ** Members *)

Definition find_member (tenant object : string) (d : PortalDb) : option (string * MemberRow) :=
  List.find (λ kr, String.eqb (mr_tenant_id kr.2) tenant && String.eqb (mr_object_id kr.2) object) (map_to_list (portal_members d)).
Definition new_member (login : PortalMemberLogin) (now dbnow : Z) : MemberRow :=
  {| mr_tenant_id := ml_tenant_id login; mr_object_id := ml_object_id login; mr_email := ml_email login;
     mr_display_name := ml_display_name login; mr_status := if bootstrap_admin login then "active" else "pending";
     mr_roles := if bootstrap_admin login then [PORTAL_ROLE_ADMIN] else []; mr_last_sign_in_at := Some now;
     mr_created_at := dbnow; mr_updated_at := dbnow |}.
Definition signed_in (login : PortalMemberLogin) (now dbnow : Z) (r : MemberRow) : MemberRow :=
  let promoted := bootstrap_admin login && String.eqb (mr_status r) "pending" in
  {| mr_tenant_id := mr_tenant_id r; mr_object_id := mr_object_id r;
     mr_email := match ml_email login with Some v => Some v | None => mr_email r end;
     mr_display_name := match ml_display_name login with Some v => Some v | None => mr_display_name r end;
     mr_status := if promoted then "active" else mr_status r;
     mr_roles := if promoted then array_append (array_remove (mr_roles r) PORTAL_ROLE_ADMIN) PORTAL_ROLE_ADMIN else mr_roles r;
     mr_last_sign_in_at := Some now; mr_created_at := mr_created_at r; mr_updated_at := dbnow |}.
Definition upsert_oidc_member (new_id : string) (dbnow : Z) (i : EntraIdentityContext) (policy : PortalAdminBootstrapPolicy) (now : Z)
    (d : PortalDb) : PortalDb * GatewayResult PortalMember :=
  match from_identity to_lowercase i policy with
  | Err e => (d, Err e)
  | Ok login =>
      match find_member (ml_tenant_id login) (ml_object_id login) d with
      | Some (id, r) =>
          let r := signed_in login now dbnow r in
          (set_members (<[id := r]> (portal_members d)) d, portal_member_from_row id r)
      | None =>
          if is_some (portal_members d !! new_id) || negb (btrim_nonempty (ml_tenant_id login) && btrim_nonempty (ml_object_id login))
          then (d, Err StoreUnavailable)
          else
            let r := new_member login now dbnow in
            (set_members (<[new_id := r]> (portal_members d)) d, portal_member_from_row new_id r)
      end
  end.
Definition list_members (d : PortalDb) : GatewayResult (list PortalMember) :=
  try_map (λ kr, portal_member_from_row kr.1 kr.2)
    (sort_by (λ a b, then_with (mr_created_at b.2 ?= mr_created_at a.2) (String.compare a.1 b.1)) (map_to_list (portal_members d))).
Definition get_member (member_id : string) (d : PortalDb) : GatewayResult (option PortalMember) :=
  match portal_members d !! member_id with
  | None => Ok None
  | Some r => let? m := portal_member_from_row member_id r in Ok (Some m)
  end.
Definition patched_member (patch : MemberPatchRequest) (dbnow : Z) (r : MemberRow) : MemberRow :=
  {| mr_tenant_id := mr_tenant_id r; mr_object_id := mr_object_id r; mr_email := mr_email r; mr_display_name := mr_display_name r;
     mr_status := default (mr_status r) (member_status_as_str <$> mp_status patch);
     mr_roles := match mp_admin patch with
                 | None => mr_roles r
                 | Some true => array_append (array_remove (mr_roles r) PORTAL_ROLE_ADMIN) PORTAL_ROLE_ADMIN
                 | Some false => array_remove (mr_roles r) PORTAL_ROLE_ADMIN
                 end;
     mr_last_sign_in_at := mr_last_sign_in_at r; mr_created_at := mr_created_at r; mr_updated_at := dbnow |}.
Definition patch_member (dbnow : Z) (member_id : string) (patch : MemberPatchRequest) (d : PortalDb) :
    PortalDb * GatewayResult (option PortalMember) :=
  match portal_members d !! member_id with
  | None => (d, Ok None)
  | Some r =>
      let r := patched_member patch dbnow r in
      (set_members (<[member_id := r]> (portal_members d)) d, let? m := portal_member_from_row member_id r in Ok (Some m))
  end.

(** ** Memberships *)

Definition list_service_memberships (member_id : string) (d : PortalDb) : GatewayResult (list ServiceMembership) :=
  try_map (λ kr, service_membership_from_row kr.1 kr.2)
    (sort_by (λ a b, collate a.1.2 b.1.2)
       (List.filter (λ kr, String.eqb kr.1.1 member_id) (map_to_list (service_memberships d)))).
Definition list_project_memberships (member_id : string) (d : PortalDb) : GatewayResult (list ProjectMembership) :=
  try_map (λ kr, project_membership_from_row kr.1 kr.2)
    (sort_by (λ a b, String.compare a.1.2 b.1.2)
       (List.filter (λ kr, String.eqb kr.1.1 member_id) (map_to_list (project_memberships d)))).
(** The row an upsert leaves. *)
Definition membership_set (role : ServiceMemberRole) (dbnow : Z) (old : option MembershipRow) : MembershipRow :=
  {| ms_role := member_role_as_str role; ms_created_at := match old with Some r => ms_created_at r | None => dbnow end;
     ms_updated_at := dbnow |}.
Definition upsert_service_membership (dbnow : Z) (member_id service_name : string) (role : ServiceMemberRole) (d : PortalDb) :
    PortalDb * GatewayResult ServiceMembership :=
  if is_empty (trim service_name) then (d, Err InvalidAccessPayload)
  else
    let k := (member_id, trim service_name) in
    let r := membership_set role dbnow (service_memberships d !! k) in
    if is_none (portal_members d !! member_id) || is_none (registered_services d !! trim service_name)
    then (d, Err InvalidAccessPayload)
    else (set_memberships (<[k := r]> (service_memberships d)) (project_memberships d) d, service_membership_from_row k r).
Definition delete_service_membership (member_id service_name : string) (d : PortalDb) : PortalDb * GatewayResult bool :=
  (set_memberships (delete (member_id, service_name) (service_memberships d)) (project_memberships d) d,
   Ok (is_some (service_memberships d !! (member_id, service_name)))).
Definition upsert_project_membership (dbnow : Z) (member_id project_id : string) (role : ServiceMemberRole) (d : PortalDb) :
    PortalDb * GatewayResult ProjectMembership :=
  let k := (member_id, project_id) in
  let r := membership_set role dbnow (project_memberships d !! k) in
  if is_none (portal_members d !! member_id) || negb (bool_decide (project_id ∈ registered_projects d))
  then (d, Err InvalidAccessPayload)
  else (set_memberships (service_memberships d) (<[k := r]> (project_memberships d)) d, project_membership_from_row k r).
Definition delete_project_membership (member_id project_id : string) (d : PortalDb) : PortalDb * GatewayResult bool :=
  (set_memberships (service_memberships d) (delete (member_id, project_id) (project_memberships d)) d,
   Ok (is_some (project_memberships d !! (member_id, project_id)))).
Definition is_active_row (d : PortalDb) (member_id : string) : bool :=
  is_some_and (λ m, String.eqb (mr_status m) "active") (portal_members d !! member_id).
Definition member_service_role (member_id service_name : string) (d : PortalDb) : GatewayResult (option ServiceMemberRole) :=
  match service_memberships d !! (member_id, service_name) with
  | Some r =>
      if is_active_row d member_id && default false (registered_services d !! service_name)
      then let? role := member_role_parse (ms_role r) in Ok (Some role) else Ok None
  | None => Ok None
  end.
Definition member_project_role (member_id project_id : string) (d : PortalDb) : GatewayResult (option ServiceMemberRole) :=
  match project_memberships d !! (member_id, project_id) with
  | Some r =>
      if is_active_row d member_id && bool_decide (project_id ∈ registered_projects d)
      then let? role := member_role_parse (ms_role r) in Ok (Some role) else Ok None
  | None => Ok None
  end.

(** ** Workload identities *)

Definition validate_managed_identity_fields (tenant_id client_id display_name service_name required_role : string) : GatewayResult unit :=
  if existsb (λ v, is_empty (trim v)) [tenant_id; client_id; display_name; service_name; required_role]
  then Err InvalidAccessPayload else Ok tt.
Definition validate_managed_identity_project_fields (tenant_id client_id display_name required_role : string) : GatewayResult unit :=
  if existsb (λ v, is_empty (trim v)) [tenant_id; client_id; display_name; required_role] then Err InvalidAccessPayload else Ok tt.
Definition same_binding (a b : IdentityRow) : bool :=
  String.eqb (ir_tenant_id a) (ir_tenant_id b) && String.eqb (ir_client_id a) (ir_client_id b) && String.eqb (ir_target a) (ir_target b).
(** [managed_identity_binding_unique]: no other row names the same tenant,
    client and target. *)
Definition binding_taken (id : string) (r : IdentityRow) (t : gmap string IdentityRow) : bool :=
  existsb (λ kr, negb (String.eqb kr.1 id) && same_binding kr.2 r) (map_to_list t).
Definition list_bindings (t : gmap string IdentityRow) : list ManagedIdentityBinding :=
  map (λ kr, managed_identity_from_row kr.1 kr.2)
    (sort_by (λ a b, then_with (collate (ir_display_name a.2) (ir_display_name b.2)) (String.compare a.1 b.1)) (map_to_list t)).
Definition list_managed_identities (d : PortalDb) : GatewayResult (list ManagedIdentityBinding) := Ok (list_bindings (managed_identity_bindings d)).
Definition list_managed_identity_projects (d : PortalDb) : GatewayResult (list ManagedIdentityBinding) :=
  Ok (list_bindings (managed_identity_project_bindings d)).
(** An insert: a taken identifier is an error of its own, a taken binding or a
    missing target is refused. *)
Definition insert_binding (id : string) (r : IdentityRow) (target_exists : bool) (t : gmap string IdentityRow) :
    GatewayResult (gmap string IdentityRow) :=
  if is_some (t !! id) then Err StoreUnavailable
  else if binding_taken id r t || negb target_exists then Err InvalidAccessPayload else Ok (<[id := r]> t).
Definition create_managed_identity (new_id : string) (dbnow : Z) (q : ManagedIdentityCreateRequest) (d : PortalDb) :
    PortalDb * GatewayResult ManagedIdentityBinding :=
  match validate_managed_identity_fields (mi_tenant_id q) (mi_client_id q) (mi_display_name q) (mi_service_name q) (mi_required_role q) with
  | Err e => (d, Err e)
  | Ok _ =>
      let r := {| ir_tenant_id := trim (mi_tenant_id q); ir_client_id := trim (mi_client_id q); ir_object_id := non_empty_trim (mi_object_id q);
                  ir_display_name := trim (mi_display_name q); ir_target := trim (mi_service_name q);
                  ir_required_role := trim (mi_required_role q); ir_enabled := mi_enabled q; ir_created_at := dbnow; ir_updated_at := dbnow |} in
      match insert_binding new_id r (is_some (registered_services d !! ir_target r)) (managed_identity_bindings d) with
      | Err e => (d, Err e)
      | Ok t => (set_identities t (managed_identity_project_bindings d) d, Ok (managed_identity_from_row new_id r))
      end
  end.
Definition create_managed_identity_project (new_id : string) (dbnow : Z) (q : ManagedIdentityProjectCreateRequest) (d : PortalDb) :
    PortalDb * GatewayResult ManagedIdentityBinding :=
  match validate_managed_identity_project_fields (mj_tenant_id q) (mj_client_id q) (mj_display_name q) (mj_required_role q) with
  | Err e => (d, Err e)
  | Ok _ =>
      let r := {| ir_tenant_id := trim (mj_tenant_id q); ir_client_id := trim (mj_client_id q); ir_object_id := non_empty_trim (mj_object_id q);
                  ir_display_name := trim (mj_display_name q); ir_target := mj_project_id q;
                  ir_required_role := trim (mj_required_role q); ir_enabled := mj_enabled q; ir_created_at := dbnow; ir_updated_at := dbnow |} in
      match insert_binding new_id r (bool_decide (ir_target r ∈ registered_projects d)) (managed_identity_project_bindings d) with
      | Err e => (d, Err e)
      | Ok t => (set_identities (managed_identity_bindings d) t d, Ok (managed_identity_from_row new_id r))
      end
  end.
Definition blank (v : option string) : bool := is_some_and (λ v, is_empty (trim v)) v.
Definition patched_binding (display_name : option string) (object_id : option (option string)) (target required_role : option string)
    (enabled : option bool) (dbnow : Z) (r : IdentityRow) : IdentityRow :=
  {| ir_tenant_id := ir_tenant_id r; ir_client_id := ir_client_id r;
     ir_object_id := match object_id with Some v => non_empty_trim v | None => ir_object_id r end;
     ir_display_name := default (ir_display_name r) (trim <$> display_name); ir_target := default (ir_target r) target;
     ir_required_role := default (ir_required_role r) (trim <$> required_role); ir_enabled := default (ir_enabled r) enabled;
     ir_created_at := ir_created_at r; ir_updated_at := dbnow |}.
(** An update of a row: it may not take the binding of another, and its target
    must exist. *)
Definition update_binding (id : string) (f : IdentityRow → IdentityRow) (target_exists : string → bool) (t : gmap string IdentityRow) :
    GatewayResult (option (IdentityRow * gmap string IdentityRow)) :=
  match t !! id with
  | None => Ok None
  | Some r => let r := f r in
              if binding_taken id r t || negb (target_exists (ir_target r)) then Err InvalidAccessPayload else Ok (Some (r, <[id := r]> t))
  end.
Definition patch_managed_identity (dbnow : Z) (identity_id : string) (p : ManagedIdentityPatchRequest) (d : PortalDb) :
    PortalDb * GatewayResult (option ManagedIdentityBinding) :=
  if blank (mip_display_name p) || blank (mip_service_name p) || blank (mip_required_role p) then (d, Err InvalidAccessPayload)
  else
    match update_binding identity_id
            (patched_binding (mip_display_name p) (mip_object_id p) (trim <$> mip_service_name p) (mip_required_role p) (mip_enabled p) dbnow)
            (λ s, is_some (registered_services d !! s)) (managed_identity_bindings d) with
    | Err e => (d, Err e)
    | Ok None => (d, Ok None)
    | Ok (Some (r, t)) => (set_identities t (managed_identity_project_bindings d) d, Ok (Some (managed_identity_from_row identity_id r)))
    end.
Definition patch_managed_identity_project (dbnow : Z) (identity_id : string) (p : ManagedIdentityProjectPatchRequest) (d : PortalDb) :
    PortalDb * GatewayResult (option ManagedIdentityBinding) :=
  if blank (mjp_display_name p) || blank (mjp_required_role p) then (d, Err InvalidAccessPayload)
  else
    match update_binding identity_id
            (patched_binding (mjp_display_name p) (mjp_object_id p) (mjp_project_id p) (mjp_required_role p) (mjp_enabled p) dbnow)
            (λ s, bool_decide (s ∈ registered_projects d)) (managed_identity_project_bindings d) with
    | Err e => (d, Err e)
    | Ok None => (d, Ok None)
    | Ok (Some (r, t)) => (set_identities (managed_identity_bindings d) t d, Ok (Some (managed_identity_from_row identity_id r)))
    end.
Definition delete_managed_identity (identity_id : string) (d : PortalDb) : PortalDb * GatewayResult bool :=
  (set_identities (delete identity_id (managed_identity_bindings d)) (managed_identity_project_bindings d) d,
   Ok (is_some (managed_identity_bindings d !! identity_id))).
Definition delete_managed_identity_project (identity_id : string) (d : PortalDb) : PortalDb * GatewayResult bool :=
  (set_identities (managed_identity_bindings d) (delete identity_id (managed_identity_project_bindings d)) d,
   Ok (is_some (managed_identity_project_bindings d !! identity_id))).
(** The rows of a workload for a target: the [WHERE] clause of the lookups. *)
Definition binding_matches (tenant client : string) (object : option string) (target : string) (r : IdentityRow) : bool :=
  String.eqb (ir_tenant_id r) tenant && String.eqb (ir_client_id r) client && String.eqb (ir_target r) target && ir_enabled r
  && is_none_or (λ o, bool_decide (object = Some o)) (ir_object_id r).
Definition find_binding (tenant client : string) (object : option string) (target : string) (roles : list string) (t : gmap string IdentityRow) :
    option ManagedIdentityBinding :=
  opt_filter (λ b, existsb (String.eqb (ir_required_role (mb_row b))) roles)
    ((λ kr, managed_identity_from_row kr.1 kr.2) <$> List.find (λ kr, binding_matches tenant client object target kr.2) (map_to_list t)).
Definition workload_service_binding (tenant client : string) (object : option string) (service_name : string) (roles : list string)
    (d : PortalDb) : GatewayResult (option ManagedIdentityBinding) :=
  Ok (if default false (registered_services d !! service_name)
      then find_binding tenant client object service_name roles (managed_identity_bindings d) else None).
Definition workload_project_binding (tenant client : string) (object : option string) (project_id : string) (roles : list string)
    (d : PortalDb) : GatewayResult (option ManagedIdentityBinding) :=
  Ok (if bool_decide (project_id ∈ registered_projects d)
      then find_binding tenant client object project_id roles (managed_identity_project_bindings d) else None).

(** ** Logins *)

Definition create_oidc_login_transaction (dbnow : Z) (t : OidcLoginTransaction) (d : PortalDb) : PortalDb * GatewayResult unit :=
  let live := filter (λ kt, (dbnow < lt_expires_at kt.2)%Z) (oidc_login_transactions d) in
  if is_some (live !! lt_state_hash t)
     || negb (btrim_nonempty (lt_state_hash t) && btrim_nonempty (lt_binding_hash t) && btrim_nonempty (lt_nonce t)
              && btrim_nonempty (lt_pkce_verifier t) && starts_with (lt_return_to t) "/admin-ui")
  then (d, Err StoreUnavailable)
  else (set_logins (<[lt_state_hash t := t]> live) d, Ok tt).
Definition consume_oidc_login_transaction (state_hash binding_hash : string) (now : Z) (d : PortalDb) :
    PortalDb * GatewayResult (option OidcLoginTransaction) :=
  match oidc_login_transactions d !! state_hash with
  | Some t =>
      if String.eqb (lt_binding_hash t) binding_hash && (now <? lt_expires_at t)
      then (set_logins (delete state_hash (oidc_login_transactions d)) d, Ok (Some t)) else (d, Ok None)
  | None => (d, Ok None)
  end.

(** ** Sessions *)

Definition create_portal_session (dbnow : Z) (s : NewPortalSession) (d : PortalDb) : PortalDb * GatewayResult unit :=
  let live := filter (λ kr, (dbnow < se_expires_at kr.2)%Z) (portal_sessions d) in
  if is_some (live !! ns_session_hash s) || is_none (portal_members d !! ns_member_id s)
     || negb (btrim_nonempty (ns_session_hash s) && btrim_nonempty (ns_csrf_hash s))
  then (d, Err StoreUnavailable)
  else
    (set_sessions (<[ns_session_hash s := {| se_member_id := ns_member_id s; se_csrf_hash := ns_csrf_hash s;
                                              se_expires_at := ns_expires_at s; se_last_seen_at := dbnow |}]> live) d, Ok tt).
Definition resolve_portal_session (session_hash : string) (now : Z) (d : PortalDb) : PortalDb * GatewayResult (option StoredPortalSession) :=
  match portal_sessions d !! session_hash with
  | Some s =>
      match portal_members d !! se_member_id s with
      | Some r =>
          if now <? se_expires_at s then
            let s := {| se_member_id := se_member_id s; se_csrf_hash := se_csrf_hash s; se_expires_at := se_expires_at s; se_last_seen_at := now |} in
            (set_sessions (<[session_hash := s]> (portal_sessions d)) d,
             let? member := portal_member_from_row (se_member_id s) r in
             Ok (Some {| ss_session_hash := session_hash; ss_member := member; ss_csrf_hash := se_csrf_hash s;
                         ss_expires_at := se_expires_at s; ss_last_seen_at := now |}))
          else (d, Ok None)
      | None => (d, Ok None)
      end
  | None => (d, Ok None)
  end.
Definition delete_portal_session (session_hash : string) (d : PortalDb) : PortalDb * GatewayResult bool :=
  (set_sessions (delete session_hash (portal_sessions d)) d, Ok (is_some (portal_sessions d !! session_hash))).
End store.

(** ** The tables over time *)

(** The calls that change the tables, with the database's clock and new
    identifiers; and what happens to services and projects, whose removal
    takes the rows that refer to them along. *)
Inductive PortalOp : Type :=
| SignIn (new_id : string) (dbnow : Z) (i : EntraIdentityContext) (policy : PortalAdminBootstrapPolicy) (now : Z)
| PatchMemberOp (dbnow : Z) (member_id : string) (patch : MemberPatchRequest)
| PutServiceRole (dbnow : Z) (member_id service_name : string) (role : ServiceMemberRole)
| DropServiceRole (member_id service_name : string)
| PutProjectRole (dbnow : Z) (member_id project_id : string) (role : ServiceMemberRole)
| DropProjectRole (member_id project_id : string)
| CreateIdentity (new_id : string) (dbnow : Z) (q : ManagedIdentityCreateRequest)
| CreateIdentityProject (new_id : string) (dbnow : Z) (q : ManagedIdentityProjectCreateRequest)
| PatchIdentity (dbnow : Z) (identity_id : string) (p : ManagedIdentityPatchRequest)
| PatchIdentityProject (dbnow : Z) (identity_id : string) (p : ManagedIdentityProjectPatchRequest)
| DropIdentity (identity_id : string)
| DropIdentityProject (identity_id : string)
| StartLogin (dbnow : Z) (t : OidcLoginTransaction)
| ConsumeLogin (state_hash binding_hash : string) (now : Z)
| StartSession (dbnow : Z) (s : NewPortalSession)
| ResolveSession (session_hash : string) (now : Z)
| EndSession (session_hash : string)
| ServiceSet (name : string) (enabled : bool)
| ServiceRemoved (name : string)
| ProjectAdded (project_id : string)
| ProjectRemoved (project_id : string).

(** [ON DELETE CASCADE]. *)
Definition service_removed (name : string) (d : PortalDb) : PortalDb :=
  {| portal_members := portal_members d; service_memberships := filter (λ kr, kr.1.2 ≠ name) (service_memberships d);
     project_memberships := project_memberships d;
     managed_identity_bindings := filter (λ kr, ir_target kr.2 ≠ name) (managed_identity_bindings d);
     managed_identity_project_bindings := managed_identity_project_bindings d; oidc_login_transactions := oidc_login_transactions d;
     portal_sessions := portal_sessions d; registered_services := delete name (registered_services d);
     registered_projects := registered_projects d |}.
Definition project_removed (id : string) (d : PortalDb) : PortalDb :=
  {| portal_members := portal_members d; service_memberships := service_memberships d;
     project_memberships := filter (λ kr, kr.1.2 ≠ id) (project_memberships d); managed_identity_bindings := managed_identity_bindings d;
     managed_identity_project_bindings := filter (λ kr, ir_target kr.2 ≠ id) (managed_identity_project_bindings d);
     oidc_login_transactions := oidc_login_transactions d; portal_sessions := portal_sessions d;
     registered_services := registered_services d; registered_projects := registered_projects d ∖ {[id]} |}.
Definition with_targets s p (d : PortalDb) : PortalDb :=
  {| portal_members := portal_members d; service_memberships := service_memberships d; project_memberships := project_memberships d;
     managed_identity_bindings := managed_identity_bindings d; managed_identity_project_bindings := managed_identity_project_bindings d;
     oidc_login_transactions := oidc_login_transactions d; portal_sessions := portal_sessions d;
     registered_services := s; registered_projects := p |}.

Section histories.
Variable to_lowercase : string → string.

Definition portal_after (d : PortalDb) (op : PortalOp) : PortalDb :=
  match op with
  | SignIn id dbnow i policy now => (upsert_oidc_member to_lowercase id dbnow i policy now d).1
  | PatchMemberOp dbnow id patch => (patch_member dbnow id patch d).1
  | PutServiceRole dbnow m s role => (upsert_service_membership dbnow m s role d).1
  | DropServiceRole m s => (delete_service_membership m s d).1
  | PutProjectRole dbnow m p role => (upsert_project_membership dbnow m p role d).1
  | DropProjectRole m p => (delete_project_membership m p d).1
  | CreateIdentity id dbnow q => (create_managed_identity id dbnow q d).1
  | CreateIdentityProject id dbnow q => (create_managed_identity_project id dbnow q d).1
  | PatchIdentity dbnow id p => (patch_managed_identity dbnow id p d).1
  | PatchIdentityProject dbnow id p => (patch_managed_identity_project dbnow id p d).1
  | DropIdentity id => (delete_managed_identity id d).1
  | DropIdentityProject id => (delete_managed_identity_project id d).1
  | StartLogin dbnow t => (create_oidc_login_transaction dbnow t d).1
  | ConsumeLogin st b now => (consume_oidc_login_transaction st b now d).1
  | StartSession dbnow s => (create_portal_session dbnow s d).1
  | ResolveSession h now => (resolve_portal_session h now d).1
  | EndSession h => (delete_portal_session h d).1
  | ServiceSet name enabled => with_targets (<[name := enabled]> (registered_services d)) (registered_projects d) d
  | ServiceRemoved name => service_removed name d
  | ProjectAdded id => with_targets (registered_services d) ({[id]} ∪ registered_projects d) d
  | ProjectRemoved id => project_removed id d
  end.
Abbreviation after ops d := (foldl portal_after d ops).

(** *** What the tables always satisfy *)

Definition row_refers (d : PortalDb) (exists_ : string → Prop) (k : string * string) (r : MembershipRow) : Prop :=
  is_Some (portal_members d !! k.1) ∧ exists_ k.2 ∧ is_ok (member_role_parse (ms_role r)) = true.
Definition binding_ok (exists_ : string → Prop) (t : gmap string IdentityRow) : Prop :=
  (∀ id r, t !! id = Some r → exists_ (ir_target r)) ∧
  ∀ id id' r r', t !! id = Some r → t !! id' = Some r' → same_binding r r' = true → id = id'.
Record portal_wf (d : PortalDb) : Prop := {
  members_decode id r : portal_members d !! id = Some r → is_ok (member_status_parse (mr_status r)) = true;
  members_unique id id' r r' : portal_members d !! id = Some r → portal_members d !! id' = Some r' →
    mr_tenant_id r = mr_tenant_id r' → mr_object_id r = mr_object_id r' → id = id';
  service_roles k r : service_memberships d !! k = Some r → row_refers d (λ s, is_Some (registered_services d !! s)) k r;
  project_roles k r : project_memberships d !! k = Some r → row_refers d (λ p, p ∈ registered_projects d) k r;
  service_bindings : binding_ok (λ s, is_Some (registered_services d !! s)) (managed_identity_bindings d);
  project_bindings : binding_ok (λ p, p ∈ registered_projects d) (managed_identity_project_bindings d);
  logins_local k t : oidc_login_transactions d !! k = Some t → lt_state_hash t = k ∧ starts_with (lt_return_to t) "/admin-ui" = true;
  sessions_refer h s : portal_sessions d !! h = Some s → is_Some (portal_members d !! se_member_id s)
}.

Lemma wf_members m d : portal_wf d → (∀ id, is_Some (portal_members d !! id) → is_Some (m !! id)) →
  (∀ id r, m !! id = Some r → is_ok (member_status_parse (mr_status r)) = true) →
  (∀ id id' r r', m !! id = Some r → m !! id' = Some r' → mr_tenant_id r = mr_tenant_id r' → mr_object_id r = mr_object_id r' → id = id') →
  portal_wf (set_members m d).
Proof.
  intros [M U S P SB PB L E] Hd Hm Hu. split; cbn; [exact Hm|exact Hu|..|exact SB|exact PB|exact L|].
  - intros k r Hk. destruct (S k r Hk) as (? & ? & ?). split; cbn; auto.
  - intros k r Hk. destruct (P k r Hk) as (? & ? & ?). split; cbn; auto.
  - intros h s Hs. by eapply Hd, E.
Qed.
Lemma wf_member_update id r r' d : portal_wf d → portal_members d !! id = Some r → mr_tenant_id r' = mr_tenant_id r →
  mr_object_id r' = mr_object_id r → is_ok (member_status_parse (mr_status r')) = true → portal_wf (set_members (<[id := r']> (portal_members d)) d).
Proof.
  intros Hw Hr Ht Ho Hs. apply wf_members; [done|..].
  - intros i Hi. destruct (decide (id = i)) as [<-|]; [rewrite lookup_insert_eq; eauto|by rewrite lookup_insert_ne].
  - intros i x [[<- <-]|[_ Hx]]%lookup_insert_Some; [done|by eapply members_decode].
  - intros i j x y Hx Hy E1 E2. apply lookup_insert_Some in Hx as [[<- <-]|[? Hx]], Hy as [[<- <-]|[? Hy]]; [done|..|by eapply members_unique].
    + eapply (members_unique _ Hw); [exact Hr|exact Hy|congruence..].
    + symmetry. eapply (members_unique _ Hw); [exact Hr|exact Hx|congruence..].
Qed.
Lemma wf_memberships s p d : portal_wf d →
  (∀ k r, s !! k = Some r → row_refers d (λ x, is_Some (registered_services d !! x)) k r) →
  (∀ k r, p !! k = Some r → row_refers d (λ x, x ∈ registered_projects d) k r) → portal_wf (set_memberships s p d).
Proof. intros [M U S P SB PB L E] Hs Hp. split; cbn; [exact M|exact U|exact Hs|exact Hp|exact SB|exact PB|exact L|exact E]. Qed.
Lemma wf_identities s p d : portal_wf d → binding_ok (λ x, is_Some (registered_services d !! x)) s →
  binding_ok (λ x, x ∈ registered_projects d) p → portal_wf (set_identities s p d).
Proof. intros [M U S P SB PB L E] Hs Hp. split; cbn; [exact M|exact U|exact S|exact P|exact Hs|exact Hp|exact L|exact E]. Qed.
Lemma wf_logins t d : portal_wf d →
  (∀ k x, t !! k = Some x → lt_state_hash x = k ∧ starts_with (lt_return_to x) "/admin-ui" = true) → portal_wf (set_logins t d).
Proof. intros [M U S P SB PB L E] Ht. split; cbn; [exact M|exact U|exact S|exact P|exact SB|exact PB|exact Ht|exact E]. Qed.
Lemma wf_sessions t d : portal_wf d → (∀ h s, t !! h = Some s → is_Some (portal_members d !! se_member_id s)) → portal_wf (set_sessions t d).
Proof. intros [M U S P SB PB L E] Ht. split; cbn; [exact M|exact U|exact S|exact P|exact SB|exact PB|exact L|exact Ht]. Qed.

Lemma find_member_Some tenant object d id r : find_member tenant object d = Some (id, r) →
  portal_members d !! id = Some r ∧ mr_tenant_id r = tenant ∧ mr_object_id r = object.
Proof.
  intros Hf. apply find_some in Hf as [Hi E]. apply andb_true_iff in E as [E1%String.eqb_eq E2%String.eqb_eq].
  split; [|done]. by apply elem_of_map_to_list, list_elem_of_In.
Qed.
Lemma find_member_None tenant object d id r : find_member tenant object d = None → portal_members d !! id = Some r →
  mr_tenant_id r = tenant → mr_object_id r = object → False.
Proof.
  intros Hf Hr <- <-. assert (In (id, r) (map_to_list (portal_members d))) as Hi by by apply list_elem_of_In, elem_of_map_to_list.
  apply (find_none _ _ Hf) in Hi. cbn in Hi. by rewrite !String.eqb_refl in Hi.
Qed.
Lemma binding_taken_false id r t : binding_taken id r t = false → ∀ id' r', t !! id' = Some r' → same_binding r' r = true → id' = id.
Proof.
  intros Ht id' r' Hr Hs. destruct (decide (id' = id)) as [|Hne]; [done|]. exfalso. apply not_true_iff_false in Ht. apply Ht, existsb_exists.
  exists (id', r'). split; [by apply list_elem_of_In, elem_of_map_to_list|]. cbn. rewrite Hs. by rewrite (proj2 (String.eqb_neq _ _) Hne).
Qed.
Lemma same_binding_sym a b : same_binding a b = same_binding b a.
Proof. unfold same_binding. by rewrite (String.eqb_sym (ir_tenant_id a)), (String.eqb_sym (ir_client_id a)), (String.eqb_sym (ir_target a)). Qed.
(** A table stays in order when a row is written that no other one equals. *)
Lemma binding_insert ex id r t : binding_ok ex t → ex (ir_target r) → binding_taken id r t = false → binding_ok ex (<[id := r]> t).
Proof.
  intros [Ht Hu] Hr Hf. split.
  - intros i x [[<- <-]|[_ Hx]]%lookup_insert_Some; [done|by eapply Ht].
  - intros i j x y Hx Hy Hs. apply lookup_insert_Some in Hx as [[<- <-]|[? Hx]], Hy as [[<- <-]|[? Hy]]; [done|..|by eapply Hu].
    + symmetry. apply (binding_taken_false _ _ _ Hf j y Hy). by rewrite same_binding_sym.
    + by apply (binding_taken_false _ _ _ Hf i x Hx).
Qed.
Lemma binding_subset ex ex' (t t' : gmap string IdentityRow) : binding_ok ex t → t' ⊆ t → (∀ id r, t' !! id = Some r → ex (ir_target r) → ex' (ir_target r)) →
  binding_ok ex' t'.
Proof.
  intros [Ht Hu] Hs He. pose proof (λ i x, lookup_weaken t' t i x) as Hw. split.
  - intros i x Hx. eapply He; [done|]. eapply Ht. by apply Hw in Hx.
  - intros i j x y Hx Hy. eapply Hu; eauto.
Qed.

Lemma decoded_status (b : bool) : is_ok (member_status_parse (if b then "active" else "pending")) = true.
Proof. by destruct b. Qed.
Lemma sign_in_wf new_id dbnow i policy now d : portal_wf d → portal_wf (upsert_oidc_member to_lowercase new_id dbnow i policy now d).1.
Proof.
  intros Hw. unfold upsert_oidc_member. destruct (from_identity _ _ _) as [login|]; [|done].
  destruct (find_member _ _ d) as [[id r]|] eqn:Hf.
  - apply find_member_Some in Hf as (Hr & _ & _). cbn. eapply wf_member_update; [done|exact Hr|done..|]. cbn.
    destruct (_ && _); [done|by eapply members_decode].
  - destruct (_ || _) eqn:Hn; [done|]. apply orb_false_iff in Hn as [Hn _]. cbn.
    assert (portal_members d !! new_id = None) as Hfresh by by destruct (portal_members d !! new_id).
    apply wf_members; [done|..].
    + intros j [x Hx]. rewrite lookup_insert_ne; [eauto|congruence].
    + intros j x [[<- <-]|[_ Hx]]%lookup_insert_Some; [apply decoded_status|by eapply members_decode].
    + intros j k x y Hx Hy E1 E2. apply lookup_insert_Some in Hx as [[<- <-]|[? Hx]], Hy as [[<- <-]|[? Hy]]; [done|..|by eapply members_unique].
      * exfalso. by eapply (find_member_None _ _ _ k y Hf Hy).
      * exfalso. by eapply (find_member_None _ _ _ j x Hf Hx).
Qed.
Lemma membership_role role dbnow old : is_ok (member_role_parse (ms_role (membership_set role dbnow old))) = true.
Proof. by destruct role. Qed.
Lemma insert_binding_wf ex id r b t t' : binding_ok ex t → (b = true → ex (ir_target r)) → insert_binding id r b t = Ok t' → binding_ok ex t'.
Proof.
  intros Ht Hb. unfold insert_binding. destruct (is_some _); [done|]. destruct (binding_taken id r t) eqn:E; [done|]. destruct b; [|done].
  intros [= <-]. apply binding_insert; auto.
Qed.
Lemma update_binding_wf ex id f b t r t' : binding_ok ex t → (∀ x, b x = true → ex x) → update_binding id f b t = Ok (Some (r, t')) → binding_ok ex t'.
Proof.
  intros Ht Hb. unfold update_binding. destruct (t !! id) as [x|]; [|done]. destruct (binding_taken _ _ _) eqn:E; [done|].
  destruct (b (ir_target (f x))) eqn:Eb; [|done]. intros [= <- <-]. apply binding_insert; auto.
Qed.
Lemma some_is {A} (o : option A) : Prelude.is_some o = true → is_Some o.
Proof. destruct o; [eauto|done]. Qed.

Lemma patch_member_wf dbnow id patch d : portal_wf d → portal_wf (patch_member dbnow id patch d).1.
Proof.
  intros Hw. unfold patch_member. destruct (portal_members d !! id) as [r|] eqn:Hr; [|done]. cbn. eapply wf_member_update; [done|exact Hr|done..|].
  cbn. destruct (mp_status patch) as [st|]; [by destruct st|by eapply members_decode].
Qed.
Lemma put_service_role_wf dbnow m s role d : portal_wf d → portal_wf (upsert_service_membership dbnow m s role d).1.
Proof.
  intros Hw. unfold upsert_service_membership. destruct (is_empty _); [done|]. destruct (_ || _) eqn:Hn; [done|]. cbn.
  apply orb_false_iff in Hn as [H1%negb_false_iff%some_is H2%negb_false_iff%some_is]. apply wf_memberships; [done|..|by apply project_roles].
  intros k r [[<- <-]|[_ Hk]]%lookup_insert_Some; [|by eapply service_roles]. split; [done|]. split; [done|]. apply membership_role.
Qed.
Lemma drop_service_role_wf m s d : portal_wf d → portal_wf (delete_service_membership m s d).1.
Proof. intros Hw. apply wf_memberships; [done|..|by apply project_roles]. intros k r [_ Hk]%lookup_delete_Some. by eapply service_roles. Qed.
Lemma put_project_role_wf dbnow m p role d : portal_wf d → portal_wf (upsert_project_membership dbnow m p role d).1.
Proof.
  intros Hw. unfold upsert_project_membership. destruct (_ || _) eqn:Hn; [done|]. cbn.
  apply orb_false_iff in Hn as [H1%negb_false_iff%some_is H2%negb_false_iff%bool_decide_eq_true]. apply wf_memberships; [done|by apply service_roles|].
  intros k r [[<- <-]|[_ Hk]]%lookup_insert_Some; [|by eapply project_roles]. split; [done|]. split; [done|]. apply membership_role.
Qed.
Lemma drop_project_role_wf m p d : portal_wf d → portal_wf (delete_project_membership m p d).1.
Proof. intros Hw. apply wf_memberships; [done|by apply service_roles|]. intros k r [_ Hk]%lookup_delete_Some. by eapply project_roles. Qed.
Lemma create_identity_wf id dbnow q d : portal_wf d → portal_wf (create_managed_identity id dbnow q d).1.
Proof.
  intros Hw. unfold create_managed_identity. destruct (validate_managed_identity_fields _ _ _ _ _); [|done]. cbn.
  destruct (insert_binding _ _ _ _) as [t|] eqn:E; [|done]. apply wf_identities; [done|..|by apply project_bindings].
  eapply insert_binding_wf; [by apply service_bindings|apply some_is|exact E].
Qed.
Lemma create_identity_project_wf id dbnow q d : portal_wf d → portal_wf (create_managed_identity_project id dbnow q d).1.
Proof.
  intros Hw. unfold create_managed_identity_project. destruct (validate_managed_identity_project_fields _ _ _ _); [|done]. cbn.
  destruct (insert_binding _ _ _ _) as [t|] eqn:E; [|done]. apply wf_identities; [done|by apply service_bindings|].
  eapply insert_binding_wf; [by apply project_bindings|apply bool_decide_eq_true|exact E].
Qed.
Lemma patch_identity_wf dbnow id p d : portal_wf d → portal_wf (patch_managed_identity dbnow id p d).1.
Proof.
  intros Hw. unfold patch_managed_identity. destruct (_ || _); [done|]. destruct (update_binding _ _ _ _) as [[[r t]|]|] eqn:E; [|done..]. cbn.
  apply wf_identities; [done|..|by apply project_bindings]. eapply update_binding_wf; [by apply service_bindings| |exact E]. intros x. apply some_is.
Qed.
Lemma patch_identity_project_wf dbnow id p d : portal_wf d → portal_wf (patch_managed_identity_project dbnow id p d).1.
Proof.
  intros Hw. unfold patch_managed_identity_project. destruct (_ || _); [done|]. destruct (update_binding _ _ _ _) as [[[r t]|]|] eqn:E; [|done..]. cbn.
  apply wf_identities; [done|by apply service_bindings|]. eapply update_binding_wf; [by apply project_bindings| |exact E].
  intros x. apply bool_decide_eq_true.
Qed.
Lemma drop_identity_wf id d : portal_wf d → portal_wf (delete_managed_identity id d).1.
Proof.
  intros Hw. apply wf_identities; [done|..|by apply project_bindings].
  eapply binding_subset; [by apply service_bindings|apply delete_subseteq|done].
Qed.
Lemma drop_identity_project_wf id d : portal_wf d → portal_wf (delete_managed_identity_project id d).1.
Proof.
  intros Hw. apply wf_identities; [done|by apply service_bindings|].
  eapply binding_subset; [by apply project_bindings|apply delete_subseteq|done].
Qed.
Lemma start_login_wf dbnow t d : portal_wf d → portal_wf (create_oidc_login_transaction dbnow t d).1.
Proof.
  intros Hw. unfold create_oidc_login_transaction. destruct (_ || _) eqn:Hn; [done|]. cbn. apply orb_false_iff in Hn as [_ Hn%negb_false_iff].
  apply andb_true_iff in Hn as [_ Hn]. apply wf_logins; [done|]. intros k x [[<- <-]|[_ Hx]]%lookup_insert_Some; [done|].
  apply map_lookup_filter_Some in Hx as [Hx _]. by eapply logins_local.
Qed.
Lemma consume_login_wf st b now d : portal_wf d → portal_wf (consume_oidc_login_transaction st b now d).1.
Proof.
  intros Hw. unfold consume_oidc_login_transaction. destruct (_ !! _); [|done]. destruct (_ && _); [|done]. cbn. apply wf_logins; [done|].
  intros k x [_ Hx]%lookup_delete_Some. by eapply logins_local.
Qed.
Lemma start_session_wf dbnow s d : portal_wf d → portal_wf (create_portal_session dbnow s d).1.
Proof.
  intros Hw. unfold create_portal_session. destruct (_ || _) eqn:Hn; [done|]. cbn.
  apply orb_false_iff in Hn as [[_ Hn%negb_false_iff%some_is]%orb_false_iff _]. apply wf_sessions; [done|].
  intros h x [[<- <-]|[_ Hx]]%lookup_insert_Some; [done|]. apply map_lookup_filter_Some in Hx as [Hx _]. by eapply sessions_refer.
Qed.
Lemma resolve_session_wf h now d : portal_wf d → portal_wf (resolve_portal_session h now d).1.
Proof.
  intros Hw. unfold resolve_portal_session. destruct (portal_sessions d !! h) as [s0|] eqn:Hs; [|done].
  destruct (portal_members d !! se_member_id s0) as [r|] eqn:Hr; [|done]. destruct (_ <? _); [|done]. cbn. apply wf_sessions; [done|].
  intros i x [[<- <-]|[_ Hx]]%lookup_insert_Some; [cbn; eauto|by eapply sessions_refer].
Qed.
Lemma end_session_wf h d : portal_wf d → portal_wf (delete_portal_session h d).1.
Proof. intros Hw. apply wf_sessions; [done|]. intros i x [_ Hx]%lookup_delete_Some. by eapply sessions_refer. Qed.
(** New services and projects leave every reference in place. *)
Lemma targets_wf s p d : portal_wf d → (∀ n, is_Some (registered_services d !! n) → is_Some (s !! n)) →
  registered_projects d ⊆ p → portal_wf (with_targets s p d).
Proof.
  intros [M U S P SB PB L E] Hs Hp. split; cbn; [exact M|exact U|..|exact L|exact E].
  - intros k r Hk. destruct (S k r Hk) as (? & ? & ?). repeat split; cbn; auto.
  - intros k r Hk. destruct (P k r Hk) as (? & ? & ?). repeat split; cbn; auto.
  - eapply binding_subset; [exact SB|done|]. cbn. auto.
  - eapply binding_subset; [exact PB|done|]. cbn. auto.
Qed.
Lemma service_removed_wf n d : portal_wf d → portal_wf (service_removed n d).
Proof.
  intros [M U S P SB PB L E]. split; cbn; [exact M|exact U|..|exact PB|exact L|exact E].
  - intros k r [Hk Hn]%map_lookup_filter_Some. destruct (S k r Hk) as (? & ? & ?). cbn in Hn.
    repeat split; cbn; [done| |done]. by rewrite lookup_delete_ne.
  - intros k r Hk. by apply P.
  - eapply binding_subset; [exact SB|apply map_filter_subseteq|]. intros i r [_ Hn]%map_lookup_filter_Some Hx. cbn in *.
    by rewrite lookup_delete_ne.
Qed.
Lemma project_removed_wf n d : portal_wf d → portal_wf (project_removed n d).
Proof.
  intros [M U S P SB PB L E]. split; cbn; [exact M|exact U|..|exact SB| |exact L|exact E].
  - intros k r Hk. by apply S.
  - intros k r [Hk Hn]%map_lookup_filter_Some. destruct (P k r Hk) as (? & ? & ?). cbn in Hn. repeat split; cbn; [done| |done]. by apply elem_of_difference; rewrite elem_of_singleton.
  - eapply binding_subset; [exact PB|apply map_filter_subseteq|]. intros i r [_ Hn]%map_lookup_filter_Some Hx. cbn in *.
    by apply elem_of_difference; rewrite elem_of_singleton.
Qed.
Create HintDb portal.
Hint Resolve sign_in_wf patch_member_wf put_service_role_wf drop_service_role_wf put_project_role_wf drop_project_role_wf create_identity_wf
  create_identity_project_wf patch_identity_wf patch_identity_project_wf drop_identity_wf drop_identity_project_wf start_login_wf
  consume_login_wf start_session_wf resolve_session_wf end_session_wf service_removed_wf project_removed_wf : portal.
Lemma portal_step_wf op d : portal_wf d → portal_wf (portal_after d op).
Proof.
  intros Hw. destruct op; cbn [portal_after]; auto with portal.
  - apply targets_wf; [done| |done]. intros n Hn. destruct (decide (name = n)) as [<-|]; [rewrite lookup_insert_eq; eauto|by rewrite lookup_insert_ne].
  - apply targets_wf; [done|done|apply union_subseteq_r].
Qed.
Definition empty_portal : PortalDb := {| portal_members := ∅; service_memberships := ∅; project_memberships := ∅; managed_identity_bindings := ∅;
  managed_identity_project_bindings := ∅; oidc_login_transactions := ∅; portal_sessions := ∅; registered_services := ∅; registered_projects := ∅ |}.
Lemma empty_portal_wf : portal_wf empty_portal.
Proof. split; try (by intros; cbn in *; simplify_map_eq); split; cbn; intros; simplify_map_eq. Qed.

(** What every call but some keeps is kept by any history without those. *)
Lemma after_keeps (K : PortalDb → Prop) (excluded : PortalOp → bool) :
  (∀ op d, excluded op = false → K d → K (portal_after d op)) →
  ∀ ops d, forallb (λ op, negb (excluded op)) ops = true → K d → K (after ops d).
Proof.
  intros Hk ops. induction ops as [|op ops IH]; intros d Ho Hd; [done|]. cbn in Ho. apply andb_true_iff in Ho as [H1%negb_true_iff Ho].
  apply (IH (portal_after d op) Ho). by apply Hk.
Qed.

(** *** Which calls write which tables *)

Definition writes_members (op : PortalOp) : bool := match op with SignIn _ _ _ _ _ | PatchMemberOp _ _ _ => true | _ => false end.
Definition writes_logins (op : PortalOp) : bool := match op with StartLogin _ _ | ConsumeLogin _ _ _ => true | _ => false end.
Definition writes_sessions (op : PortalOp) : bool :=
  match op with StartSession _ _ | ResolveSession _ _ | EndSession _ => true | _ => false end.
Lemma portal_frame op d :
  (writes_members op = false → portal_members (portal_after d op) = portal_members d) ∧
  (writes_logins op = false → oidc_login_transactions (portal_after d op) = oidc_login_transactions d) ∧
  (writes_sessions op = false → portal_sessions (portal_after d op) = portal_sessions d).
Proof.
  destruct op; cbn [portal_after]; try done.
  - unfold upsert_oidc_member. destruct (from_identity _ _ _); [|done]. destruct (find_member _ _ _) as [[]|]; [done|]. by destruct (_ || _).
  - unfold patch_member. by destruct (portal_members d !! member_id).
  - unfold upsert_service_membership. destruct (is_empty _); [done|]. by destruct (_ || _).
  - unfold upsert_project_membership. by destruct (_ || _).
  - unfold create_managed_identity. destruct (validate_managed_identity_fields _ _ _ _ _); [|done]. cbn. by destruct (insert_binding _ _ _ _).
  - unfold create_managed_identity_project. destruct (validate_managed_identity_project_fields _ _ _ _); [|done]. cbn. by destruct (insert_binding _ _ _ _).
  - unfold patch_managed_identity. destruct (_ || _); [done|]. by destruct (update_binding _ _ _ _) as [[[]|]|].
  - unfold patch_managed_identity_project. destruct (_ || _); [done|]. by destruct (update_binding _ _ _ _) as [[[]|]|].
  - unfold create_oidc_login_transaction. by destruct (_ || _).
  - unfold consume_oidc_login_transaction. destruct (_ !! state_hash); [|done]. by destruct (_ && _).
  - unfold create_portal_session. by destruct (_ || _).
  - unfold resolve_portal_session. destruct (_ !! session_hash); [|done]. destruct (_ !! se_member_id _); [|done]. by destruct (_ <? _).
Qed.

(** *** Logins are used once *)

Definition starts_login (st : string) (op : PortalOp) : bool :=
  match op with StartLogin _ t => String.eqb (lt_state_hash t) st | _ => false end.
Lemma no_login_kept op st d : starts_login st op = false → oidc_login_transactions d !! st = None →
  oidc_login_transactions (portal_after d op) !! st = None.
Proof.
  intros Hs Hn. destruct (writes_logins op) eqn:Hw; [|by rewrite (proj1 (proj2 (portal_frame op d)))]. destruct op; try done; cbn in *.
  - unfold create_oidc_login_transaction. destruct (_ || _); [done|]. cbn in *. apply String.eqb_neq in Hs.
    rewrite lookup_insert_ne by done. apply map_lookup_filter_None. by left.
  - unfold consume_oidc_login_transaction. destruct (_ !! state_hash); [|done]. destruct (_ && _); [|done]. cbn.
    destruct (decide (state_hash = st)) as [->|]; [apply lookup_delete_eq|by rewrite lookup_delete_ne].
Qed.
Lemma no_login_after ops st d : forallb (λ op, negb (starts_login st op)) ops = true → oidc_login_transactions d !! st = None →
  oidc_login_transactions (after ops d) !! st = None.
Proof. apply (after_keeps (λ d, oidc_login_transactions d !! st = None)). intros op d'. apply no_login_kept. Qed.
Lemma consumed_absent st b now d t : (consume_oidc_login_transaction st b now d).2 = Ok (Some t) →
  oidc_login_transactions d !! st = Some t ∧ lt_binding_hash t = b ∧ now < lt_expires_at t ∧
  oidc_login_transactions (consume_oidc_login_transaction st b now d).1 !! st = None.
Proof.
  unfold consume_oidc_login_transaction. destruct (_ !! st) as [x|] eqn:Hx; [|done]. destruct (_ && _) eqn:Hc; [|done]. cbn. intros [= <-].
  apply andb_true_iff in Hc as [E1%String.eqb_eq E2%Z.ltb_lt]. split; [done|]. split; [done|]. split; [done|apply lookup_delete_eq].
Qed.

(** *** Members keep their status until an administrator changes it *)

Definition sets_status (id : string) (op : PortalOp) : bool :=
  match op with PatchMemberOp _ m patch => String.eqb m id && Prelude.is_some (mp_status patch) | _ => false end.
Definition member_blocked (d : PortalDb) (id : string) : Prop := ∃ r, portal_members d !! id = Some r ∧ mr_status r = "blocked".
Lemma signed_in_blocked login now dbnow r : mr_status r = "blocked" → mr_status (signed_in login now dbnow r) = "blocked".
Proof. intros Hr. cbn. rewrite Hr. by destruct (bootstrap_admin login). Qed.
Lemma blocked_kept op id d : sets_status id op = false → member_blocked d id → member_blocked (portal_after d op) id.
Proof.
  intros Hs (r & Hr & Hb). destruct (writes_members op) eqn:Hw; [|exists r; by rewrite (proj1 (portal_frame op d))].
  destruct op; try done; cbn in *.
  - unfold upsert_oidc_member. destruct (from_identity _ _ _) as [login|]; [|by exists r].
    destruct (find_member _ _ _) as [[j x]|] eqn:Hf.
    + apply find_member_Some in Hf as (Hx & _ & _). destruct (decide (j = id)) as [->|Hne].
      * rewrite Hx in Hr. injection Hr as <-. eexists. split; [apply lookup_insert_eq|by apply signed_in_blocked].
      * exists r. split; [by cbn; rewrite lookup_insert_ne|done].
    + destruct (_ || _) eqn:Hn; [by exists r|]. exists r. split; [|done]. cbn. rewrite lookup_insert_ne; [done|].
      intros ->. rewrite Hr in Hn. done.
  - unfold patch_member. destruct (portal_members d !! member_id) as [x|] eqn:Hx; [|by exists r].
    destruct (decide (member_id = id)) as [->|Hne].
    + rewrite Hx in Hr. injection Hr as <-. eexists. split; [apply lookup_insert_eq|]. rewrite String.eqb_refl in Hs. cbn in *.
      by destruct (mp_status patch).
    + exists r. split; [by cbn; rewrite lookup_insert_ne|done].
Qed.
Lemma blocked_after ops id d : forallb (λ op, negb (sets_status id op)) ops = true → member_blocked d id → member_blocked (after ops d) id.
Proof. apply (after_keeps (λ d, member_blocked d id)). intros op d'. apply blocked_kept. Qed.
End histories.

(** ** What holds of every history *)

(** from empty tables, whatever is called, in whatever order, and whichever
    services and projects come and go: every stored member, role and login can
    be read back, no two members have the same identity, memberships and
    bindings refer to members, services and projects that exist, no two
    bindings are for the same workload and target, sessions belong to members,
    and a login returns to the portal; so that listing the members or a
    member's memberships never fails. *)
Theorem portal_tables_wf to_lowercase collate ops :
  let d := foldl (portal_after to_lowercase) empty_portal ops in
  portal_wf d ∧ is_ok (list_members d) = true ∧
  ∀ id, is_ok (list_service_memberships collate id d) = true ∧ is_ok (list_project_memberships id d) = true.
Proof.
  intros d. assert (portal_wf d) as Hw.
  { apply (after_keeps to_lowercase portal_wf (λ _, false)); [intros op x _; apply portal_step_wf| |apply empty_portal_wf].
    by apply forallb_forall. }
  split; [done|]. split.
  - apply try_map_total. intros [id r] Hin. rewrite sort_by_perm in Hin. apply elem_of_map_to_list in Hin. unfold portal_member_from_row.
    pose proof (members_decode _ Hw _ _ Hin). by destruct (member_status_parse _).
  - intros id. split; (apply try_map_total; intros [k r] Hin; rewrite sort_by_perm in Hin; apply list_elem_of_In, filter_In in Hin as [Hin _];
      apply list_elem_of_In, elem_of_map_to_list in Hin).
    + unfold service_membership_from_row. destruct (service_roles _ Hw _ _ Hin) as (_ & _ & ?). by destruct (member_role_parse _).
    + unfold project_membership_from_row. destruct (project_roles _ Hw _ _ Hin) as (_ & _ & ?). by destruct (member_role_parse _).
Qed.

(** C11: a login that was taken up is the one started with that state, in the
    browser that holds its binding and before it expired; and whatever is
    called afterwards, it is not taken up again, by whichever browser and at
    whatever time, unless a login of the same state is started anew. *)
Theorem login_transaction_single_use to_lowercase st b now d t ops b' now'
    (Ht : (consume_oidc_login_transaction st b now d).2 = Ok (Some t))
    (Ho : forallb (λ op, negb (starts_login st op)) ops = true) :
  oidc_login_transactions d !! st = Some t ∧ lt_binding_hash t = b ∧ now < lt_expires_at t ∧
  (consume_oidc_login_transaction st b' now'
     (foldl (portal_after to_lowercase) (consume_oidc_login_transaction st b now d).1 ops)).2 = Ok None.
Proof.
  apply consumed_absent in Ht as (Hd & Hb & Hn & Ha). split; [done|]. split; [done|]. split; [done|].
  apply (no_login_after to_lowercase _ _ _ Ho) in Ha. unfold consume_oidc_login_transaction at 1. by rewrite Ha.
Qed.

(** ** Blocked members *)

Section lockout.
Context {H : Type} `{HeaderMap H} `{ApiJson} `{SerdeJson} `{GuardrailJson}.
Variable token_hash : string → string.
Variable studio_env : StudioConnectionEnv.
Variable auth_env : GatewayAuthEnv.
Variable instance_id : string.
Variable url_parse : string → option Url.
Variable method_parses : string → bool.
Variable has_control : string → bool.
Variable header_name_ok header_value_ok : string → bool.
Variable to_lowercase : string → string.
Variable from_slice : string → option Value.
Variable schema_hash : string → string.
Variable import_valid : StudioServiceImportRequest → bool.
Variable owner_verifier : bool.
Variable portal_oidc : option (PortalOidcConfig * PortalAdminBootstrapPolicy).
Variable h : H.

Abbreviation dispatch := (dispatch token_hash studio_env auth_env instance_id url_parse method_parses has_control header_name_ok
  to_lowercase from_slice schema_hash import_valid h).
Abbreviation owner_dispatch := (owner_dispatch token_hash owner_verifier header_value_ok h).

Definition starts_session (hash : string) (op : PortalOp) : bool :=
  match op with StartSession _ s => String.eqb (ns_session_hash s) hash | _ => false end.
(** The row of a session, if there is one, is the member's. *)
Definition session_belongs (hash id : string) (d : PortalDb) : Prop :=
  ∀ s, portal_sessions d !! hash = Some s → se_member_id s = id.
Lemma session_kept op hash id d : starts_session hash op = false → session_belongs hash id d →
  session_belongs hash id (portal_after to_lowercase d op).
Proof.
  intros Hs Hb. destruct (writes_sessions op) eqn:Hw; [|unfold session_belongs; by rewrite (proj2 (proj2 (portal_frame to_lowercase op d)))].
  destruct op; try done; cbn [portal_after].
  - unfold create_portal_session. destruct (_ || _); [done|]. cbn in *. apply String.eqb_neq in Hs. intros x. cbn. rewrite lookup_insert_ne by done.
    intros [Hx _]%map_lookup_filter_Some. by apply Hb.
  - unfold resolve_portal_session. destruct (_ !! session_hash) as [x|] eqn:Hx; [|done]. destruct (_ !! se_member_id _); [|done].
    destruct (_ <? _); [|done]. intros y. cbn. intros [[<- <-]|[_ Hy]]%lookup_insert_Some; [by apply Hb in Hx|by apply Hb].
  - intros y. cbn. intros [_ Hy]%lookup_delete_Some. by apply Hb.
Qed.

(** The sessions are resolved by the database, which goes through any history
    that leaves the member's status alone and starts no other session of the
    same token. *)
Definition resolves_against (hash id : string) (d : PortalDb) (w : world answer) : Prop :=
  ∀ t, ∃ ops, forallb (λ op, negb (sets_status id op || starts_session hash op)) ops = true ∧
    ∀ now, w t (ResolvePortalSession hash now) = (resolve_portal_session hash now (foldl (portal_after to_lowercase) d ops)).2.
(** What a request may ask to find out who its caller is. *)
Definition identifies (op : action) : bool :=
  match op with
  | UtcNow | VerifyOperatorToken _ _ | ResolvePortalSession _ _ | VerifyOwnerToken _ _ | MemberServiceRole _ _ | MemberProjectRole _ _
  | WorkloadServiceBinding _ _ _ _ _ | WorkloadProjectBinding _ _ _ _ _ => true
  | _ => false
  end.
(** The answer about a session of the token. *)
Definition told (hash : string) (e : event answer) : option (GatewayResult (option StoredPortalSession)) :=
  match e with
  | existT op x =>
      match op as o return answer o → option (GatewayResult (option StoredPortalSession)) with
      | ResolvePortalSession hash' _ => λ x, if String.eqb hash' hash then Some x else None
      | _ => λ _, None
      end x
  end.

(** What the member of a session may still do: read the list of its own
    memberships, and end the session. *)
Definition own_session (hash id : string) (op : action) : Prop :=
  match op with
  | ReadServiceMemberships m | ReadProjectMemberships m => m = id
  | DeletePortalSession hash' => hash' = hash
  | EndSessionUrl => True
  | _ => identifies op = true
  end.
Definition blocked_as (hash id : string) (session : StoredPortalSession) : Prop :=
  pm_status (ss_member session) = MemberBlocked ∧ pm_id (ss_member session) = id ∧ ss_session_hash session = hash.

Lemma blocked_session hash id d now session : member_blocked d id → session_belongs hash id d →
  (resolve_portal_session hash now d).2 = Ok (Some session) → blocked_as hash id session.
Proof.
  intros (r & Hr & Hst) Hb. unfold resolve_portal_session. destruct (_ !! hash) as [x|] eqn:Hx; [|done]. rewrite (Hb x Hx), Hr.
  destruct (_ <? _); [|done]. cbn. unfold portal_member_from_row. rewrite Hst. cbn. intros [= <-]. by repeat split.
Qed.
Lemma told_blocked hash id d w A (p : handler A) now session : member_blocked d id → session_belongs hash id d → resolves_against hash id d w →
  existT (ResolvePortalSession hash now) (Ok (Some session)) ∈ (run w p []).2 → blocked_as hash id session.
Proof.
  intros Hm Hb Hw [i Hi]%list_elem_of_lookup. pose proof (run_answers p [] w i _ (Nat.le_0_l _) Hi) as He.
  apply (f_equal (told hash)) in He. cbn in He. rewrite String.eqb_refl in He. destruct (Hw (take i (run w p []).2)) as (ops & Ho & Hr).
  rewrite Hr in He. injection He as He. symmetry in He. revert He. apply blocked_session.
  - apply blocked_after; [|done]. apply forallb_forall. intros op Hin. apply (proj1 (forallb_forall _ _) Ho) in Hin.
    by apply negb_true_iff, orb_false_iff in Hin as [-> _].
  - revert Hb. apply (after_keeps to_lowercase (session_belongs hash id) (starts_session hash)); [intros op d' ? ?; by apply session_kept|].
    apply forallb_forall. intros op Hin. apply (proj1 (forallb_forall _ _) Ho) in Hin. by apply negb_true_iff, orb_false_iff in Hin as [_ ->].
Qed.
(** The session routes ask about the session they resolved. *)
Definition session_may (hash : string) (t : history) (op : action) : Prop :=
  identifies op = true ∨
  ∃ now session, existT (ResolvePortalSession hash now) (Ok (Some session)) ∈ t ∧
    own_session (ss_session_hash session) (pm_id (ss_member session)) op.
Lemma session_route_may raw t : cookie_value h PORTAL_SESSION_COOKIE = Some raw →
  ensures (session_may (token_hash raw)) (portal_auth_session token_hash h) (λ _ _, True) t.
Proof.
  intros Hc. unfold portal_auth_session, or_error. rewrite Hc. destruct (cookie_value h PORTAL_CSRF_COOKIE); [|done].
  cbn [pbind Programs.ask ensures]. split; [by left|]. intros now. split; [by left|]. intros [[session|]|e]; cbn [pbind ensures]; try done.
  destruct (negb _); [done|]. cbn [pbind Programs.ask ensures]. split; [right; exists now, session; split; [in_trace|done]|].
  intros [services|e]; cbn [pbind ensures]; [|done]. split; [right; exists now, session; split; [in_trace|done]|]. by intros [projects|e].
Qed.
Lemma logout_route_may raw t : cookie_value h PORTAL_SESSION_COOKIE = Some raw →
  ensures (session_may (token_hash raw)) (portal_auth_logout token_hash header_value_ok portal_oidc h) (λ _ _, True) t.
Proof.
  intros Hc. unfold portal_auth_logout, or_return, require_portal_session, or_error, fails. rewrite Hc. cbn [pbind Programs.ask ensures].
  split; [by left|]. intros now. split; [by left|]. intros [[session|]|e]; cbn [pbind ensures]; try done.
  destruct (_ && _); [done|]. cbn [pbind Programs.ask ensures]. split; [right; exists now, session; split; [in_trace|done]|].
  intros [x|e]; cbn [pbind ensures]; [|done]. destruct portal_oidc as [[config policy]|]; cbn [pbind Programs.ask ensures]; [|done].
  split; [right; exists now, session; split; [in_trace|done]|]. done.
Qed.
Lemma session_route_own raw id d w (p : handler Response) : member_blocked d id → session_belongs (token_hash raw) id d →
  resolves_against (token_hash raw) id d w → ensures (session_may (token_hash raw)) p (λ _ _, True) [] →
  Forall (λ e, own_session (token_hash raw) id (projT1 e)) (run w p []).2.
Proof.
  intros Hm Hb Hw Hp. apply Forall_lookup. intros i [op x] Hi. cbn. pose proof (ensures_run _ _ _ [] w Hp) as Hr.
  assert (session_may (token_hash raw) (take i (run w p []).2) op) as Hs.
  { destruct (run w p []) as [resp t]. destruct Hr as (_ & asked & -> & Ha). cbn [app] in *. by apply (Ha i op x). }
  destruct Hs as [Hs|(now & session & Hin & Hs)]; [destruct op; try exact Hs; discriminate Hs|].
  apply elem_of_take in Hin as (j & Hj & _). apply list_elem_of_lookup_2, (told_blocked _ _ _ _ _ _ _ _ Hm Hb Hw) in Hj.
  destruct Hj as (_ & <- & <-). exact Hs.
Qed.
Lemma authorized_session required t actor : contains_key "authorization" h = false → authorized token_hash h required t actor →
  ∃ session, session_of token_hash h t session.
Proof.
  intros Hn [(token & now & Ha & _)|(raw & now & session & _ & Hc & Hin & _ & Hp & _)]; [congruence|]. exists session, raw, now. auto.
Qed.
Lemma granted_session raw t s : cookie_value h PORTAL_SESSION_COOKIE = Some raw → granted token_hash h t s →
  ∃ session, session_of token_hash h t session.
Proof.
  intros Hc Hg. destruct s; destruct Hg as [(session & role & Hs & _)|(i & c & b & (now & Hn & _) & _)]; (congruence || eauto).
Qed.
(** Everything else is asked for an active session only. *)
Lemma admin_identifies required t op : contains_key "authorization" h = false → admin_may token_hash h required t op →
  identifies op = true ∨ ∃ session, session_of token_hash h t session.
Proof.
  intros Hn Hm. destruct op; cbn in Hm |- *; auto; right;
    (destruct Hm as [_ (actor & Ha)] || destruct Hm as (actor & Ha & _) || destruct Hm as (actor & Ha)); by eapply authorized_session.
Qed.
Lemma owner_identifies raw r t op : cookie_value h PORTAL_SESSION_COOKIE = Some raw → owner_may token_hash h r t op →
  identifies op = true ∨ ∃ session, session_of token_hash h t session.
Proof.
  intros Hc Hm. destruct op; cbn in Hm |- *; auto; right.
  all: try (destruct Hm as (s & read & q & _ & _ & Hg & _); by eapply granted_session).
  all: try (match goal with r : OwnerRequest, x : row_read |- _ => destruct x; try (destruct Hm as (s & read & q & _ & _ & Hg & _); by eapply granted_session) end).
  all: try (destruct Hm as [_ (session & Hs & _)]; by eexists).
  all: try (destruct r; [..|destruct Hm as [-> Hg]; by eapply granted_session]; try done; destruct Hm as (session & Hs & _); by eexists).
  destruct Hm as (s & _ & Hg). by eapply granted_session.
Qed.
Lemma blocked_never_active raw id d w A (p : handler A) i session :
  cookie_value h PORTAL_SESSION_COOKIE = Some raw → member_blocked d id → session_belongs (token_hash raw) id d →
  resolves_against (token_hash raw) id d w → session_of token_hash h (take i (run w p []).2) session → False.
Proof.
  intros Hc Hm Hb Hw (raw' & now & Hc' & Ha & Hin). rewrite Hc in Hc'. injection Hc' as <-. apply elem_of_take in Hin as (j & Hj & _).
  apply list_elem_of_lookup_2 in Hj. apply (told_blocked _ _ _ _ _ _ _ _ Hm Hb Hw) in Hj as [Hj _]. congruence.
Qed.

(** C10: once a member is blocked, and for as long as no administrator changes
    the status, whatever else happens to the tables meanwhile - signing in
    again included - a request that carries one of the member's session tokens
    gets no further than finding out who calls: an admin request without an
    [Authorization] header changes nothing and reads nothing else, and so does an
    owner's request whatever else it carries. Of the portal's own session
    routes, [/admin-ui/auth/session] still reads that member's own memberships,
    and signing out still deletes that session and asks for the sign-out address;
    neither asks anything else. *)
Theorem blocked_member_locked_out (w : world answer) raw id d
    (Hc : cookie_value h PORTAL_SESSION_COOKIE = Some raw)
    (Hm : member_blocked d id)
    (Hb : session_belongs (token_hash raw) id d)
    (Hw : resolves_against (token_hash raw) id d w) :
  ((∀ r, contains_key "authorization" h = false → Forall (λ e, identifies (projT1 e) = true) (run w (dispatch r) []).2) ∧
   ∀ r, Forall (λ e, identifies (projT1 e) = true) (run w (owner_dispatch r) []).2) ∧
  Forall (λ e, own_session (token_hash raw) id (projT1 e)) (run w (portal_auth_session token_hash h) []).2 ∧
  Forall (λ e, own_session (token_hash raw) id (projT1 e)) (run w (portal_auth_logout token_hash header_value_ok portal_oidc h) []).2.
Proof.
  split; [|split; apply (session_route_own raw id d w); auto using session_route_may, logout_route_may].
  split; [intros r Hn|intros r]; apply Forall_lookup; intros i [op x] Hi; cbn.
  - pose proof (ensures_run _ _ _ [] w (admin_fine token_hash studio_env auth_env instance_id url_parse method_parses has_control
      header_name_ok to_lowercase from_slice schema_hash import_valid h r [] eq_refl)) as Hr.
    pose proof (blocked_never_active raw id d w _ (dispatch r) i) as Ha. destruct (run w _ []) as [resp t].
    destruct Hr as (_ & asked & -> & Hq). cbn [app] in *. apply Hq, admin_identifies in Hi as [?|[session Hs]]; [done| |done].
    destruct (Ha session); done.
  - pose proof (ensures_run _ _ _ [] w (owner_fine token_hash owner_verifier header_value_ok h r [])) as Hr.
    pose proof (blocked_never_active raw id d w _ (owner_dispatch r) i) as Ha. destruct (run w _ []) as [resp t].
    destruct Hr as (_ & asked & -> & Hq). cbn [app] in *. eapply Hq, owner_identifies in Hi as [?|[session Hs]]; [done| |done].
    destruct (Ha session); done.
Qed.
End lockout.

(** ** A history *)

Module PortalSample.
Import Headers.HeaderList.
#[local] Existing Instance header_list.
#[local] Instance headers : HeaderMap (list (string * string)) := header_list (λ _, true) (λ _, true).
#[local] Instance serde : SerdeJson :=
  {| from_slice_value := λ _, None; from_slice_maximum_probe := λ _, None; from_slice_batch := λ _, None;
     from_slice_extra_body := λ _, None; from_slice_generation_probe := λ _, None |}.
#[local] Instance guardrail_json : GuardrailJson := {| definition_json := λ _, None; record_json := λ _, None |}.
#[local] Instance json : ApiJson :=
  {| member_json := λ _, None; service_membership_json := λ _, None; project_membership_json := λ _, None; service_json := λ _, None;
     studio_json := λ _, None; diff_json := λ _, None; layer_trace_json := λ _, None; openapi_json := λ _, None;
     auth_settings_json := λ _, None; usage_row_json := λ _, None; bundle_json := λ _, None; identity_method_json := λ _, JNull;
     time_json := λ _, JNull; f64_json := λ _, JNull; value_text := λ _, ""; f64_text := λ _, ""; to_rfc3339 := λ _, "" |}.

Definition ada : EntraIdentityContext :=
  {| audiences := []; expires_at := None; tenant_id := "tenant"; subject := None; object_id := Some "ada"; app_id := None;
     authorized_party := None; email := Some "ada@example.com"; display_name := None; nonce := None; scopes := []; roles := []; groups := [];
     token_version := "2.0"; identity_source := Jwt |}.
Definition bootstrap : PortalAdminBootstrapPolicy := {| bp_tenant_id := "tenant"; bp_emails := ["ada@example.com"]; bp_object_ids := ["ada"] |}.
Definition sign_in : PortalOp := SignIn "m-1" 10 ada bootstrap 10.
Definition with_session : list PortalOp :=
  [sign_in; StartSession 10 {| ns_session_hash := "cookie"; ns_member_id := "m-1"; ns_csrf_hash := "csrf"; ns_expires_at := 100 |}].
Definition block : PortalOp := PatchMemberOp 20 "m-1" {| mp_status := Some MemberBlocked; mp_admin := None |}.
Definition db (ops : list PortalOp) : PortalDb := foldl (portal_after id) empty_portal ops.
(** The database after the history and one more sign-in; nothing else answers. *)
Definition stores (ops : list PortalOp) : world answer := λ _ op,
  match op as o return answer o with
  | UtcNow => 30
  | RandomOpaqueToken => ""
  | ResolvePortalSession hash now => (resolve_portal_session hash now (foldl (portal_after id) (db ops) [sign_in])).2
  | TryAcquire _ | TimedOut _ | BuildHealthClient => false
  | CheckFoundryConnection _ => (JNull, JNull)
  | GetDocument _ _ => GetFailed
  | ProbeHealth _ _ _ _ => {| hp_answer := HealthTimeout; hp_elapsed_ms := 0 |}
  | Mutate m => AdminAudit.AdminSample.accept m
  | _ => Err StoreUnavailable
  end.
Definition request_headers : list (string * string) := [("cookie", "relayna_portal_session=cookie"); ("x-csrf-token", "csrf")].
Definition request (ops : list PortalOp) (r : AdminRequest) : Response * history :=
  run (stores ops)
    (dispatch (H := list (string * string)) id {| se_base_url := None; se_token := None |} GatewayAuthEnv_default "instance" (λ _, None)
       (λ _, true) (λ _, false) (λ _, true) id (λ _, None) id (λ _, true) request_headers r) [].

Definition login : OidcLoginTransaction :=
  {| lt_state_hash := "state"; lt_binding_hash := "binding"; lt_nonce := "nonce"; lt_pkce_verifier := "verifier";
     lt_return_to := "/admin-ui"; lt_expires_at := 100 |}.
Definition with_login : PortalDb := db (with_session ++ [StartLogin 20 login]).
(** The administrator's session, before and after the member is blocked. *)
Example active_session_changes :
  let '(resp, t) := request with_session (PostKeyLifecycle "key-1" LifecycleRevoke) in
  Exists (λ e, identifies (projT1 e) = false) t.
Proof. vm_compute. repeat (apply Exists_cons; first [by left|right]). Qed.
Example blocked_session_refused :
  let '(resp, t) := request (with_session ++ [block]) (PostKeyLifecycle "key-1" LifecycleRevoke) in
  rp_status resp = 403 ∧ AdminAudit.AdminSample.asked t = [UtcNow; ResolvePortalSession "cookie" 30].
Proof. by vm_compute. Qed.
Lemma stores_resolve : resolves_against id "cookie" "m-1" (db (with_session ++ [block])) (stores (with_session ++ [block])).
Proof. intros t. exists [sign_in]. done. Qed.
Lemma ada_blocked : member_blocked (db (with_session ++ [block])) "m-1".
Proof. eexists. split; [vm_compute; reflexivity|done]. Qed.
Lemma ada_session : session_belongs "cookie" "m-1" (db (with_session ++ [block])).
Proof. intros s Hs. vm_compute in Hs. by injection Hs as <-. Qed.
End PortalSample.

Lemma login_transaction_single_use_witness :
  (consume_oidc_login_transaction "state" "binding" 50 PortalSample.with_login).2 = Ok (Some PortalSample.login) ∧
  (consume_oidc_login_transaction "state" "binding" 51
     (foldl (portal_after id) (consume_oidc_login_transaction "state" "binding" 50 PortalSample.with_login).1 PortalSample.with_session)).2 = Ok None.
Proof.
  split; [vm_compute; reflexivity|].
  by apply (login_transaction_single_use id "state" "binding" 50 PortalSample.with_login PortalSample.login PortalSample.with_session); vm_compute.
Defined.
Lemma blocked_member_locked_out_witness :
  member_blocked (PortalSample.db (PortalSample.with_session ++ [PortalSample.block])) "m-1" ∧
  ∀ r, Forall (λ e, identifies (projT1 e) = true) (PortalSample.request (PortalSample.with_session ++ [PortalSample.block]) r).2.
Proof.
  split; [apply PortalSample.ada_blocked|]. intros r.
  refine (proj1 (proj1 (blocked_member_locked_out (H0 := PortalSample.headers) id _ _ _ _ _ _ _ (λ _, true) id _ _ _ false None
    PortalSample.request_headers (PortalSample.stores _) "cookie" "m-1" _ _ PortalSample.ada_blocked PortalSample.ada_session
    PortalSample.stores_resolve)) r _); reflexivity.
Defined.
