(* ===== verification/KeyStore.v ===== *)
(** * Keys, projects and policies in the database

    Models [AdminProjectStore], [AdminKeyStore], [VirtualKeyLookup],
    [PolicyLookup] and [AdminPolicyLayerStore] of
    [crates/gateway-store/src/postgres.rs] over their tables, with the
    constraints and the trigger that refuse a statement.  A call is one step;
    the statements of a transaction are kept or dropped together.  [now()] and
    new identifiers are arguments; texts carry no NUL, which the database
    refuses.  Of services the route pattern, the project and the keys bound to
    authentication profiles are read, of usage what the daily caps count.  The
    collation, [char::is_control], the start of the session's day and the
    subtraction of days are parameters. *)

From S2P Require Import Prelude SocketFrames StreamGuardrails Errors Routing Json GuardrailPolicy Policies Guardrails AuthAdmission VerificationCache VerificationFlight Auth EndpointAccess Foundry ServiceTypes Access KeyAdmin.

(** ** Rows *)

Record ProjectRow := { pw_name : string; pw_created_at : Z; pw_updated_at : Z }.
Record KeyRow := {
  kr_owner_type : string;
  kr_project_id : option string;
  kr_key_prefix : string;
  kr_key_hash : string;
  kr_name : option string;
  kr_disabled : bool;
  kr_revoked_at : option Z;
  kr_expires_at : option Z;
  kr_rotation_due_at : option Z;
  kr_last_used_at : option Z;
  kr_created_at : Z;
  kr_updated_at : Z
}.
(** [key_policies]: routes and providers are texts. *)
Record PolicyRow := {
  pr_deny : bool;
  pr_allowed_routes : list string;
  pr_allowed_providers : list string;
  pr_allowed_models : list string;
  pr_allowed_services : list string;
  pr_rpm_limit : option Z;
  pr_tpm_limit : option Z;
  pr_daily_budget_usd : option f64;
  pr_monthly_budget_usd : option f64;
  pr_allow_streaming : bool;
  pr_allow_tools : bool;
  pr_max_requests_per_day : option Z;
  pr_max_tokens_per_day : option Z;
  pr_max_cost_per_request : option f64;
  pr_max_input_tokens_per_request : option Z;
  pr_max_output_tokens_per_request : option Z;
  pr_allowed_hours_utc : list Z;
  pr_unused_key_auto_disable_after_days : option Z;
  pr_max_request_body_bytes : option Z;
  pr_max_response_body_bytes : option Z;
  pr_max_stream_duration_seconds : option Z;
  pr_max_sse_event_bytes : option Z;
  pr_max_tool_call_count : option Z;
  pr_max_tool_schema_bytes : option Z;
  pr_policy_version : Z
}.
(** [policy_layers], with the values of its JSON columns. *)
Record LayerRow := {
  ly_kind : string;
  ly_scope_id : option string;
  ly_policy : KeyPolicy;
  ly_guardrail_policy : GuardrailPolicy;
  ly_policy_version : Z
}.
(** What is read of a service and of a usage event. *)
Record Registration := { rg_route_pattern : string; rg_project_id : option string; rg_bound_keys : list string }.
Record DailyUse := { du_key_id : string; du_created_at : Z; du_total_tokens : option Z }.
Record KeysDb := {
  projects : gmap string ProjectRow;
  api_keys : gmap string KeyRow;
  key_policies : gmap string PolicyRow;
  key_guardrail_policies : gmap string GuardrailPolicy;
  project_service_links : gset (string * string);
  key_service_links : gset (string * string);
  policy_layers : gmap string LayerRow;
  service_registrations : gmap string Registration;
  guardrail_definitions : gset string;
  usage : list DailyUse
}.
Definition set_projects p (d : KeysDb) : KeysDb :=
  {| projects := p; api_keys := api_keys d; key_policies := key_policies d; key_guardrail_policies := key_guardrail_policies d; project_service_links
     := project_service_links d; key_service_links := key_service_links d; policy_layers := policy_layers d; service_registrations :=
     service_registrations d; guardrail_definitions := guardrail_definitions d; usage := usage d |}.
Definition set_keys k (d : KeysDb) : KeysDb :=
  {| projects := projects d; api_keys := k; key_policies := key_policies d; key_guardrail_policies := key_guardrail_policies d; project_service_links
     := project_service_links d; key_service_links := key_service_links d; policy_layers := policy_layers d; service_registrations :=
     service_registrations d; guardrail_definitions := guardrail_definitions d; usage := usage d |}.
Definition set_policies p (d : KeysDb) : KeysDb :=
  {| projects := projects d; api_keys := api_keys d; key_policies := p; key_guardrail_policies := key_guardrail_policies d; project_service_links :=
     project_service_links d; key_service_links := key_service_links d; policy_layers := policy_layers d; service_registrations :=
     service_registrations d; guardrail_definitions := guardrail_definitions d; usage := usage d |}.
Definition set_key_guardrails g (d : KeysDb) : KeysDb :=
  {| projects := projects d; api_keys := api_keys d; key_policies := key_policies d; key_guardrail_policies := g; project_service_links :=
     project_service_links d; key_service_links := key_service_links d; policy_layers := policy_layers d; service_registrations :=
     service_registrations d; guardrail_definitions := guardrail_definitions d; usage := usage d |}.
Definition set_links p k (d : KeysDb) : KeysDb :=
  {| projects := projects d; api_keys := api_keys d; key_policies := key_policies d; key_guardrail_policies := key_guardrail_policies d;
     project_service_links := p; key_service_links := k; policy_layers := policy_layers d; service_registrations := service_registrations d;
     guardrail_definitions := guardrail_definitions d; usage := usage d |}.
Definition set_layers l (d : KeysDb) : KeysDb :=
  {| projects := projects d; api_keys := api_keys d; key_policies := key_policies d; key_guardrail_policies := key_guardrail_policies d;
     project_service_links := project_service_links d; key_service_links := key_service_links d; policy_layers := l; service_registrations :=
     service_registrations d; guardrail_definitions := guardrail_definitions d; usage := usage d |}.

(** ** Names *)

Definition route_strings (routes : list Route) : list string := map route_as_str routes.
Definition provider_strings (providers : list Provider) : list string := map provider_as_str providers.
Definition route_table : list (string * Route) :=
  [("/v1/chat/completions", ChatCompletions); ("/v1/responses", Responses); ("/v1/embeddings", LiteLlmEmbeddings);
   ("/v1/rerank", LiteLlmRerank); ("/litellm/*", LiteLlmPassthrough); ("/v1/messages", AnthropicMessages);
   ("/v1/messages/count_tokens", AnthropicMessagesCountTokens); ("/v1/messages/batches", AnthropicMessageBatches);
   ("/v1/messages/batches/*", AnthropicMessageBatch); ("/v1/messages/batches/*/results", AnthropicMessageBatchResults);
   ("/v1/messages/batches/*/cancel", AnthropicMessageBatchCancel); ("/v1/models", AnthropicModels);
   ("/providers/openai/*", DirectOpenAi); ("/summary", Summary); ("/translation", Translation); ("/ocr", Ocr);
   ("/embeddings", Embeddings); ("/services/*", ServiceWildcard)].
Definition parse_route (value : string) : GatewayResult Route :=
  ok_or (snd <$> List.find (λ kv, String.eqb kv.1 value) route_table) PolicyDenied.
Definition parse_routes (values : list string) : GatewayResult (list Route) := try_map parse_route values.
Definition parse_provider (value : string) : GatewayResult Provider :=
  if String.eqb value "litellm" then Ok LiteLlm
  else if String.eqb value "openai-compatible" then Ok OpenAiCompatible
  else if String.eqb value "internal-service" then Ok InternalService else Err PolicyDenied.
Definition parse_providers (values : list string) : GatewayResult (list Provider) := try_map parse_provider values.
Definition key_owner_type_str (o : AdminKeyOwnerType) : string := match o with OwnerProject => "project" | OwnerIndividual => "individual" end.
Definition parse_key_owner_type (value : string) : GatewayResult AdminKeyOwnerType :=
  if String.eqb value "project" then Ok OwnerProject
  else if String.eqb value "individual" then Ok OwnerIndividual else Err StoreUnavailable.
Definition parse_policy_layer_kind (value : string) : GatewayResult PolicyLayerKind :=
  if String.eqb value "global" then Ok LayerGlobal
  else if String.eqb value "project" then Ok LayerProject
  else if String.eqb value "team" then Ok LayerTeam
  else if String.eqb value "key" then Ok LayerKey
  else if String.eqb value "route" then Ok LayerRoute
  else if String.eqb value "model" then Ok LayerModel else Err StoreUnavailable.
Definition normalize_policy_layer_scope (kind : PolicyLayerKind) (scope_id : option string) : GatewayResult (option string) :=
  match kind with
  | LayerGlobal => Ok None
  | _ => let? scope := ok_or (non_empty_trim scope_id) PolicyDenied in Ok (Some scope)
  end.
Definition validate_key_owner (owner_type : AdminKeyOwnerType) (project_id : option string) : GatewayResult unit :=
  match owner_type, project_id with
  | OwnerProject, Some _ | OwnerIndividual, None => Ok tt
  | _, _ => Err InvalidProjectPayload
  end.
Definition service_route_policy_route (route_pattern : string) : string :=
  if String.eqb route_pattern "/summary" then "/summary"
  else if String.eqb route_pattern "/translation" then "/translation"
  else if String.eqb route_pattern "/ocr" then "/ocr"
  else if String.eqb route_pattern "/embeddings" then "/embeddings" else "/services/*".

(** ** Policies as rows *)

Definition apply_policy_patch (p : KeyPolicy) (q : KeyPolicyPatch) : GatewayResult KeyPolicy :=
  let? routes := match kp_allowed_routes q with Some l => parse_routes l | None => Ok (allowed_routes p) end in
  let? providers := match kp_allowed_providers q with Some l => parse_providers l | None => Ok (allowed_providers p) end in
  if is_some_and (existsb (λ h, negb (in_range 0 23 h))) (kp_allowed_hours_utc q) then Err PolicyDenied
  else Ok
    {| allowed_routes := routes;
       allowed_providers := providers;
       deny := default (deny p) (kp_deny q);
       allowed_models := default (allowed_models p) (kp_allowed_models q);
       allowed_services := default (allowed_services p) (kp_allowed_services q);
       rpm_limit := default (rpm_limit p) (kp_rpm_limit q);
       tpm_limit := default (tpm_limit p) (kp_tpm_limit q);
       daily_budget_usd := default (daily_budget_usd p) (kp_daily_budget_usd q);
       monthly_budget_usd := default (monthly_budget_usd p) (kp_monthly_budget_usd q);
       allow_streaming := default (allow_streaming p) (kp_allow_streaming q);
       allow_tools := default (allow_tools p) (kp_allow_tools q);
       max_requests_per_day := default (max_requests_per_day p) (kp_max_requests_per_day q);
       max_tokens_per_day := default (max_tokens_per_day p) (kp_max_tokens_per_day q);
       max_cost_per_request := default (max_cost_per_request p) (kp_max_cost_per_request q);
       max_input_tokens_per_request := default (max_input_tokens_per_request p) (kp_max_input_tokens_per_request q);
       max_output_tokens_per_request := default (max_output_tokens_per_request p) (kp_max_output_tokens_per_request q);
       allowed_hours_utc := default (allowed_hours_utc p) (kp_allowed_hours_utc q);
       unused_key_auto_disable_after_days := default (unused_key_auto_disable_after_days p) (kp_unused_key_auto_disable_after_days q);
       max_request_body_bytes := default (max_request_body_bytes p) (kp_max_request_body_bytes q);
       max_response_body_bytes := default (max_response_body_bytes p) (kp_max_response_body_bytes q);
       max_stream_duration_seconds := default (max_stream_duration_seconds p) (kp_max_stream_duration_seconds q);
       max_sse_event_bytes := default (max_sse_event_bytes p) (kp_max_sse_event_bytes q);
       max_tool_call_count := default (max_tool_call_count p) (kp_max_tool_call_count q);
       max_tool_schema_bytes := default (max_tool_schema_bytes p) (kp_max_tool_schema_bytes q);
       policy_version := policy_version p |}.
Definition policy_row (p : KeyPolicy) (version : Z) : PolicyRow :=
  {| pr_allowed_routes := route_strings (allowed_routes p); pr_allowed_providers := provider_strings (allowed_providers p);
     pr_deny := deny p;
     pr_allowed_models := allowed_models p;
     pr_allowed_services := allowed_services p;
     pr_rpm_limit := rpm_limit p;
     pr_tpm_limit := tpm_limit p;
     pr_daily_budget_usd := daily_budget_usd p;
     pr_monthly_budget_usd := monthly_budget_usd p;
     pr_allow_streaming := allow_streaming p;
     pr_allow_tools := allow_tools p;
     pr_max_requests_per_day := max_requests_per_day p;
     pr_max_tokens_per_day := max_tokens_per_day p;
     pr_max_cost_per_request := max_cost_per_request p;
     pr_max_input_tokens_per_request := max_input_tokens_per_request p;
     pr_max_output_tokens_per_request := max_output_tokens_per_request p;
     pr_allowed_hours_utc := allowed_hours_utc p;
     pr_unused_key_auto_disable_after_days := unused_key_auto_disable_after_days p;
     pr_max_request_body_bytes := max_request_body_bytes p;
     pr_max_response_body_bytes := max_response_body_bytes p;
     pr_max_stream_duration_seconds := max_stream_duration_seconds p;
     pr_max_sse_event_bytes := max_sse_event_bytes p;
     pr_max_tool_call_count := max_tool_call_count p;
     pr_max_tool_schema_bytes := max_tool_schema_bytes p;
     pr_policy_version := version |}.
(** What [COALESCE] puts in place of a missing row. *)
Definition default_row : PolicyRow :=
  {| pr_deny := false; pr_allowed_routes := ["/v1/chat/completions"; "/v1/responses"]; pr_allowed_providers := ["litellm"];
     pr_allowed_models := []; pr_allowed_services := []; pr_rpm_limit := None; pr_tpm_limit := None; pr_daily_budget_usd := None; pr_monthly_budget_usd := None; pr_allow_streaming := false; pr_allow_tools := false; pr_max_requests_per_day := None; pr_max_tokens_per_day := None; pr_max_cost_per_request := None; pr_max_input_tokens_per_request := None; pr_max_output_tokens_per_request := None; pr_allowed_hours_utc := []; pr_unused_key_auto_disable_after_days := None; pr_max_request_body_bytes := None; pr_max_response_body_bytes := None; pr_max_stream_duration_seconds := None; pr_max_sse_event_bytes := None; pr_max_tool_call_count := None; pr_max_tool_schema_bytes := None;
     pr_policy_version := 1 |}.
(** The policy of a row, whose routes and services may have been derived. *)
Definition policy_of_row (r : PolicyRow) (routes services : list string) : GatewayResult KeyPolicy :=
  let? routes := parse_routes routes in
  let? providers := parse_providers (pr_allowed_providers r) in
  Ok {| allowed_routes := routes; allowed_providers := providers; allowed_services := services;
        deny := pr_deny r;
        allowed_models := pr_allowed_models r;
        rpm_limit := pr_rpm_limit r;
        tpm_limit := pr_tpm_limit r;
        daily_budget_usd := pr_daily_budget_usd r;
        monthly_budget_usd := pr_monthly_budget_usd r;
        allow_streaming := pr_allow_streaming r;
        allow_tools := pr_allow_tools r;
        max_requests_per_day := pr_max_requests_per_day r;
        max_tokens_per_day := pr_max_tokens_per_day r;
        max_cost_per_request := pr_max_cost_per_request r;
        max_input_tokens_per_request := pr_max_input_tokens_per_request r;
        max_output_tokens_per_request := pr_max_output_tokens_per_request r;
        allowed_hours_utc := pr_allowed_hours_utc r;
        unused_key_auto_disable_after_days := pr_unused_key_auto_disable_after_days r;
        max_request_body_bytes := pr_max_request_body_bytes r;
        max_response_body_bytes := pr_max_response_body_bytes r;
        max_stream_duration_seconds := pr_max_stream_duration_seconds r;
        max_sse_event_bytes := pr_max_sse_event_bytes r;
        max_tool_call_count := pr_max_tool_call_count r;
        max_tool_schema_bytes := pr_max_tool_schema_bytes r;
        policy_version := pr_policy_version r |}.

Section store.
Variable has_control : string → bool.
Variable collate : string → string → comparison.
(** [date_trunc('day', now())] and [now() - make_interval(days => n)]. *)
Variable day_start : Z → Z.
Variable days_before : Z → Z → Z.

(** A transaction: dropped on an error, otherwise answered from what it left. *)
Definition in_tx {A} (d : KeysDb) (r : GatewayResult KeysDb) (k : KeysDb → GatewayResult A) : KeysDb * GatewayResult A :=
  match r with Err e => (d, Err e) | Ok d' => (d', k d') end.
Definition linked (links : gset (string * string)) (id : string) : list string :=
  sort_by collate (map snd (List.filter (λ l, String.eqb l.1 id) (elements links))).

(** ** Guardrails *)

Definition referenced_guardrail_policy_names (p : GuardrailPolicy) : gset string :=
  list_to_set (mandatory_guardrails p ++ optional_guardrails p ++ forbidden_guardrails p ++ map fst (guardrail_config_overrides p)).
Definition validate_guardrail_policy_catalog (p : GuardrailPolicy) (d : KeysDb) : GatewayResult unit :=
  check? guardrail_policy_validate p in
  let names := referenced_guardrail_policy_names p in
  if decide (names = ∅) then Ok tt
  else if (Z.of_nat (size (names ∩ guardrail_definitions d)) =? Z.of_nat (size names)) then Ok tt else Err InvalidGuardrailRequest.
Definition guardrail_policy_for_key (key_id : string) (d : KeysDb) : GatewayResult GuardrailPolicy :=
  Ok (default GuardrailPolicy_default (key_guardrail_policies d !! key_id)).
Definition upsert_guardrail_policy_in_tx (key_id : string) (p : GuardrailPolicy) (d : KeysDb) : GatewayResult KeysDb :=
  check? guardrail_policy_validate p in
  if is_none (api_keys d !! key_id) then Err StoreUnavailable
  else Ok (set_key_guardrails (<[key_id := p]> (key_guardrail_policies d)) d).
Definition upsert_guardrail_policy_for_key (key_id : string) (p : GuardrailPolicy) (d : KeysDb) : KeysDb * GatewayResult unit :=
  in_tx d (upsert_guardrail_policy_in_tx key_id p d) (λ _, Ok tt).

(** ** Key policies *)

Definition upsert_policy_in_tx (key_id : string) (p : KeyPolicy) (d : KeysDb) : GatewayResult KeysDb :=
  if is_none (api_keys d !! key_id) then Err StoreUnavailable
  else
    match key_policies d !! key_id with
    | None => Ok (set_policies (<[key_id := policy_row p (Z.max 1 (policy_version p))]> (key_policies d)) d)
    | Some r =>
        if pr_policy_version r =? i64_max then Err StoreUnavailable
        else Ok (set_policies (<[key_id := policy_row p (pr_policy_version r + 1)]> (key_policies d)) d)
    end.
Definition stored_policy_for_key (key_id : string) (d : KeysDb) : GatewayResult KeyPolicy :=
  match api_keys d !! key_id with
  | None => Ok KeyPolicy_default
  | Some _ => let r := default default_row (key_policies d !! key_id) in policy_of_row r (pr_allowed_routes r) (pr_allowed_services r)
  end.

(** ** Links *)

Definition link_services (id : string) (registered : gmap string Registration) (names : list string) (links : gset (string * string)) :
    GatewayResult (gset (string * string)) :=
  try_fold (λ links name,
    check? validate_service_name name in
    if is_none (registered !! name) then Err MissingService else Ok ({[(id, name)]} ∪ links)) links names.
Definition unlinked (id : string) (links : gset (string * string)) : gset (string * string) := filter (λ l, l.1 ≠ id) links.
Definition replace_project_service_links (project_id : string) (names : list string) (d : KeysDb) : GatewayResult KeysDb :=
  let? links := link_services project_id (service_registrations d) names (unlinked project_id (project_service_links d)) in
  Ok (set_links links (key_service_links d) d).
Definition replace_key_service_links_in_tx (key_id : string) (names : list string) (d : KeysDb) : GatewayResult KeysDb :=
  let? links := link_services key_id (service_registrations d) names (unlinked key_id (key_service_links d)) in
  Ok (set_links (project_service_links d) links d).

(** ** Projects *)

Record ProjectResponse := { po_id : string; po_row : ProjectRow; po_service_names : list string }.
Definition project_response (d : KeysDb) (id : string) (r : ProjectRow) : ProjectResponse :=
  {| po_id := id; po_row := r; po_service_names := linked (project_service_links d) id |}.
Definition name_taken (id name : string) (d : KeysDb) : bool :=
  existsb (λ kr, negb (String.eqb kr.1 id) && String.eqb (pw_name kr.2) name) (map_to_list (projects d)).
Definition create_project (new_id : string) (dbnow : Z) (q : ProjectCreateRequest) (d : KeysDb) : KeysDb * GatewayResult ProjectResponse :=
  match project_create_validate q with
  | Err e => (d, Err e)
  | Ok _ =>
      let r := {| pw_name := trim (pc_name q); pw_created_at := dbnow; pw_updated_at := dbnow |} in
      (* also the identifier is a unique key *)
      if is_some (projects d !! new_id) || name_taken new_id (pw_name r) d then (d, Err DuplicateProject)
      else (set_projects (<[new_id := r]> (projects d)) d, Ok {| po_id := new_id; po_row := r; po_service_names := [] |})
  end.
Definition list_projects (d : KeysDb) : GatewayResult (list ProjectResponse) :=
  Ok (map (λ kr, project_response d kr.1 kr.2) (sort_by (λ a b, collate (pw_name a.2) (pw_name b.2)) (map_to_list (projects d)))).
Definition get_project (project_id : string) (d : KeysDb) : GatewayResult (option ProjectResponse) :=
  Ok (project_response d project_id <$> projects d !! project_id).
Definition patch_project (dbnow : Z) (project_id : string) (p : ProjectPatchRequest) (d : KeysDb) :
    KeysDb * GatewayResult (option ProjectResponse) :=
  match project_patch_validate p, projects d !! project_id with
  | Err e, _ => (d, Err e)
  | Ok _, None => (d, Ok None)
  | Ok _, Some r =>
      let renamed :=
        match pp_name p with
        | None => Ok d
        | Some name =>
            if name_taken project_id (trim name) d then Err DuplicateProject
            else Ok (set_projects (<[project_id := {| pw_name := trim name; pw_created_at := pw_created_at r; pw_updated_at := dbnow |}]>
                                     (projects d)) d)
        end in
      match renamed with
      | Err e => (d, Err e)
      | Ok d =>
          match pp_service_names p with
          | None => (d, get_project project_id d)
          | Some names => in_tx d (replace_project_service_links project_id names d) (get_project project_id)
          end
      end
  end.
Definition delete_project (project_id : string) (d : KeysDb) : KeysDb * GatewayResult bool :=
  if existsb (λ kr, bool_decide (kr_project_id kr.2 = Some project_id)) (map_to_list (api_keys d))
     || existsb (λ kr, bool_decide (rg_project_id kr.2 = Some project_id)) (map_to_list (service_registrations d))
  then (d, if is_some (projects d !! project_id) then Err ProjectInUse else Ok false)
  else (set_links (unlinked project_id (project_service_links d)) (key_service_links d) (set_projects (delete project_id (projects d)) d),
        Ok (is_some (projects d !! project_id))).

(** ** Keys *)

(** [AdminKeyResponse]: the row without its hash. *)
Record AdminKeyResponse := {
  kx_id : string;
  kx_owner_type : AdminKeyOwnerType;
  kx_row : KeyRow;
  kx_service_names : list string;
  kx_policy : PolicyRow;
  kx_guardrail_policy : GuardrailPolicy
}.
Definition admin_key_response_from_row (d : KeysDb) (id : string) (r : KeyRow) : GatewayResult AdminKeyResponse :=
  let? owner_type := parse_key_owner_type (kr_owner_type r) in
  Ok {| kx_id := id; kx_owner_type := owner_type; kx_row := r; kx_service_names := linked (key_service_links d) id;
        kx_policy := default default_row (key_policies d !! id);
        kx_guardrail_policy := default GuardrailPolicy_default (key_guardrail_policies d !! id) |}.
Definition response_for_key (key_id : string) (d : KeysDb) : GatewayResult (option AdminKeyResponse) :=
  match api_keys d !! key_id with
  | None => Ok None
  | Some r => let? response := admin_key_response_from_row d key_id r in Ok (Some response)
  end.
Definition get_admin_key (key_id : string) (d : KeysDb) : GatewayResult (option AdminKeyResponse) := response_for_key key_id d.
Definition list_admin_keys (d : KeysDb) : GatewayResult (list AdminKeyResponse) :=
  try_map (λ kr, admin_key_response_from_row d kr.1 kr.2)
    (sort_by (λ a b, then_with (kr_created_at b.2 ?= kr_created_at a.2) (String.compare b.1 a.1)) (map_to_list (api_keys d))).
Definition prefix_taken (id prefix : string) (d : KeysDb) : bool :=
  existsb (λ kr, negb (String.eqb kr.1 id) && String.eqb (kr_key_prefix kr.2) prefix) (map_to_list (api_keys d)).
(** [api_keys_owner_project_check]. *)
Definition owner_project_ok (r : KeyRow) : bool :=
  (String.eqb (kr_owner_type r) "project" && is_some (kr_project_id r))
  || (String.eqb (kr_owner_type r) "individual" && is_none (kr_project_id r)).
Definition project_known (project_id : option string) (d : KeysDb) : bool := is_none_or (λ p, is_some (projects d !! p)) project_id.
Definition insert_key (id : string) (r : KeyRow) (d : KeysDb) : GatewayResult KeysDb :=
  if negb (owner_project_ok r) || is_some (api_keys d !! id) || prefix_taken id (kr_key_prefix r) d then Err StoreUnavailable
  else if negb (project_known (kr_project_id r) d) then Err MissingProject
  else Ok (set_keys (<[id := r]> (api_keys d)) d).
Definition create_admin_key (new_id : string) (dbnow : Z) (q : AdminKeyCreate) (m : VirtualKeyMaterial) (d : KeysDb) :
    KeysDb * GatewayResult AdminKeyResponse :=
  in_tx d
    (let? name := normalize_key_name has_control (kc_name q) in
     check? validate_key_owner (kc_owner_type q) (kc_project_id q) in
     let base_policy := default KeyPolicy_default ((λ preset, apply_preset preset KeyPolicy_default) <$> kc_preset q) in
     let? policy := apply_policy_patch base_policy (kc_policy q) in
     check? validate_guardrail_policy_catalog (kc_guardrail_policy q) d in
     let? d := insert_key new_id
       {| kr_owner_type := key_owner_type_str (kc_owner_type q); kr_project_id := kc_project_id q; kr_key_prefix := vk_key_prefix m;
          kr_key_hash := vk_key_hash m; kr_name := name; kr_disabled := false; kr_revoked_at := None; kr_expires_at := kc_expires_at q;
          kr_rotation_due_at := kc_rotation_due_at q; kr_last_used_at := None; kr_created_at := dbnow; kr_updated_at := dbnow |} d in
     let? d := upsert_policy_in_tx new_id policy d in
     let? d := upsert_guardrail_policy_in_tx new_id (kc_guardrail_policy q) d in
     replace_key_service_links_in_tx new_id (kc_service_names q) d)
    (λ d, let? response := response_for_key new_id d in ok_or response StoreUnavailable).
Definition revoked (r : KeyRow) : bool := is_some (kr_revoked_at r).
(** [guard_key_authentication_profile_project]: a service of another project
    assigns an authentication profile to the key. *)
Definition profile_conflict (key_id : string) (old new : option string) (d : KeysDb) : bool :=
  negb (bool_decide (old = new))
  && existsb (λ kr, is_some (rg_project_id kr.2) && negb (bool_decide (rg_project_id kr.2 = new)) && str_mem key_id (rg_bound_keys kr.2))
       (map_to_list (service_registrations d)).
Definition patched_key (p : AdminKeyPatch) (name : option string) (dbnow : Z) (r : KeyRow) : KeyRow :=
  {| kr_owner_type := default (kr_owner_type r) (key_owner_type_str <$> ak_owner_type p);
     kr_project_id := default (kr_project_id r) (ak_project_id p);
     kr_key_prefix := kr_key_prefix r; kr_key_hash := kr_key_hash r;
     kr_name := if is_some (ak_name p) then name else kr_name r;
     kr_disabled := default (kr_disabled r) (ak_disabled p); kr_revoked_at := kr_revoked_at r;
     kr_expires_at := default (kr_expires_at r) (ak_expires_at p);
     kr_rotation_due_at := default (kr_rotation_due_at r) (ak_rotation_due_at p); kr_last_used_at := kr_last_used_at r;
     kr_created_at := kr_created_at r; kr_updated_at := dbnow |}.
Definition update_key (key_id : string) (r new : KeyRow) (d : KeysDb) : GatewayResult KeysDb :=
  if profile_conflict key_id (kr_project_id r) (kr_project_id new) d then Err KeyProfileProjectConflict
  else if negb (owner_project_ok new) then Err StoreUnavailable
  else if negb (project_known (kr_project_id new) d) then Err MissingProject
  else Ok (set_keys (<[key_id := new]> (api_keys d)) d).
Definition if_some {A} (o : option A) (f : A → KeysDb → GatewayResult KeysDb) (d : KeysDb) : GatewayResult KeysDb :=
  match o with Some a => f a d | None => Ok d end.
(** What a patch checks before its transaction: [None] if there is no key to
    check the owner of. *)
Definition patch_checks (key_id : string) (p : AdminKeyPatch) (d : KeysDb) :
    GatewayResult (option (option string * option KeyPolicy * option GuardrailPolicy)) :=
  let? name := normalize_key_name has_control (ak_name p ≫= id) in
  let? known :=
    if is_some (ak_owner_type p) || is_some (ak_project_id p) then
      let? current := response_for_key key_id d in
      match current with
      | None => Ok false
      | Some c =>
          check? validate_key_owner (default (kx_owner_type c) (ak_owner_type p)) (default (kr_project_id (kx_row c)) (ak_project_id p)) in
          Ok true
      end
    else Ok true in
  if negb known then Ok None
  else
    let? policy :=
      match ak_policy p with
      | None => Ok None
      | Some q => let? current := stored_policy_for_key key_id d in let? policy := apply_policy_patch current q in Ok (Some policy)
      end in
    let? guardrails :=
      match ak_guardrail_policy p with
      | None => Ok None
      | Some q =>
          let? current := guardrail_policy_for_key key_id d in
          let? policy := guardrail_policy_patch_apply q current in
          check? validate_guardrail_policy_catalog policy d in
          Ok (Some policy)
      end in
    Ok (Some (name, policy, guardrails)).
Definition patch_admin_key (dbnow : Z) (key_id : string) (p : AdminKeyPatch) (d : KeysDb) : KeysDb * GatewayResult (option AdminKeyResponse) :=
  match patch_checks key_id p d with
  | Err e => (d, Err e)
  | Ok None => (d, Ok None)
  | Ok (Some (name, policy, guardrails)) =>
      match api_keys d !! key_id with
      | Some r =>
          if revoked r then (d, response_for_key key_id d)
          else
            in_tx d
              (let? d := update_key key_id r (patched_key p name dbnow r) d in
               let? d := if_some policy (upsert_policy_in_tx key_id) d in
               let? d := if_some guardrails (upsert_guardrail_policy_in_tx key_id) d in
               if_some (ak_service_names p) (replace_key_service_links_in_tx key_id) d)
              (response_for_key key_id)
      | None => (d, response_for_key key_id d)
      end
  end.
(** The three changes of a key's life, which leave a revoked key alone. *)
Definition key_state (disabled : bool) (revoked_at : option Z) (dbnow : Z) (r : KeyRow) : KeyRow :=
  {| kr_owner_type := kr_owner_type r; kr_project_id := kr_project_id r; kr_key_prefix := kr_key_prefix r; kr_key_hash := kr_key_hash r;
     kr_name := kr_name r; kr_disabled := disabled; kr_revoked_at := revoked_at; kr_expires_at := kr_expires_at r;
     kr_rotation_due_at := kr_rotation_due_at r; kr_last_used_at := kr_last_used_at r; kr_created_at := kr_created_at r;
     kr_updated_at := dbnow |}.
Definition update_live_key (key_id : string) (f : KeyRow → KeyRow) (d : KeysDb) : KeysDb :=
  match api_keys d !! key_id with
  | Some r => if revoked r then d else set_keys (<[key_id := f r]> (api_keys d)) d
  | None => d
  end.
Definition revoke_admin_key (dbnow : Z) (key_id : string) (d : KeysDb) : KeysDb * GatewayResult (option AdminKeyResponse) :=
  let d := update_live_key key_id (key_state true (Some dbnow) dbnow) d in (d, response_for_key key_id d).
Definition disable_admin_key (dbnow : Z) (key_id : string) (d : KeysDb) : KeysDb * GatewayResult (option AdminKeyResponse) :=
  let d := update_live_key key_id (key_state true None dbnow) d in (d, response_for_key key_id d).
Definition enable_admin_key (dbnow : Z) (key_id : string) (d : KeysDb) : KeysDb * GatewayResult (option AdminKeyResponse) :=
  let d := update_live_key key_id (key_state false None dbnow) d in (d, response_for_key key_id d).

(** ** Lookups of keys *)

Definition stored_key (id : string) (r : KeyRow) : StoredVirtualKey :=
  {| stored_id := id; stored_project_id := kr_project_id r; stored_key_prefix := kr_key_prefix r; key_hash := kr_key_hash r;
     disabled := kr_disabled r; Auth.revoked_at := kr_revoked_at r; Auth.expires_at := kr_expires_at r |}.
(** The policy disables a key that was not used for so many days. *)
Definition unused (dbnow : Z) (policy : option PolicyRow) (r : KeyRow) : bool :=
  is_some_and (λ days, default (kr_created_at r) (kr_last_used_at r) <=? days_before dbnow days)
    (policy ≫= pr_unused_key_auto_disable_after_days).
Definition find_key (prefix : string) (d : KeysDb) : option (string * KeyRow) :=
  List.find (λ kr, String.eqb (kr_key_prefix kr.2) prefix) (map_to_list (api_keys d)).
Definition find_by_prefix (dbnow : Z) (prefix : string) (d : KeysDb) : KeysDb * GatewayResult (option StoredVirtualKey) :=
  match find_key prefix d with
  | None => (d, Ok None)
  | Some (id, r) =>
      if negb (kr_disabled r) && negb (revoked r) && unused dbnow (key_policies d !! id) r then
        let r := key_state true (kr_revoked_at r) dbnow r in
        (set_keys (<[id := r]> (api_keys d)) d, Ok (Some (stored_key id r)))
      else (d, Ok (Some (stored_key id r)))
  end.
Definition used_key (used_at dbnow : Z) (r : KeyRow) : KeyRow :=
  {| kr_owner_type := kr_owner_type r; kr_project_id := kr_project_id r; kr_key_prefix := kr_key_prefix r; kr_key_hash := kr_key_hash r;
     kr_name := kr_name r; kr_disabled := kr_disabled r; kr_revoked_at := kr_revoked_at r; kr_expires_at := kr_expires_at r;
     kr_rotation_due_at := kr_rotation_due_at r; kr_last_used_at := Some used_at; kr_created_at := kr_created_at r; kr_updated_at := dbnow |}.
Definition mark_key_used (dbnow : Z) (key_id : string) (used_at : Z) (d : KeysDb) : KeysDb * GatewayResult unit :=
  (update_live_key key_id (used_key used_at dbnow) d, Ok tt).

(** ** Policy layers *)

Definition layer_rank (kind : string) : Z :=
  if String.eqb kind "global" then 1 else if String.eqb kind "project" then 2 else if String.eqb kind "team" then 3
  else if String.eqb kind "route" then 5 else if String.eqb kind "model" then 6 else 99.
(** The rows that apply: a comparison with NULL is not true. *)
Definition layer_applies (project_id team_id route model : option string) (r : LayerRow) : bool :=
  let scoped kind wanted := String.eqb (ly_kind r) kind && is_some wanted && bool_decide (ly_scope_id r = wanted) in
  (String.eqb (ly_kind r) "global" && is_none (ly_scope_id r))
  || scoped "project" project_id || scoped "team" team_id || scoped "route" route || scoped "model" model.
Definition layer_of_row (r : LayerRow) : GatewayResult PolicyLayer :=
  let? kind := parse_policy_layer_kind (ly_kind r) in
  Ok {| layer_kind := kind; layer_scope_id := ly_scope_id r; layer_policy := ly_policy r; layer_guardrail_policy := ly_guardrail_policy r;
        layer_policy_version := ly_policy_version r |}.
Definition with_version (version : Z) (p : KeyPolicy) : KeyPolicy :=
  {| deny := deny p; allowed_routes := allowed_routes p; allowed_models := allowed_models p; allowed_providers := allowed_providers p;
     allowed_services := allowed_services p; rpm_limit := rpm_limit p; tpm_limit := tpm_limit p; daily_budget_usd := daily_budget_usd p;
     monthly_budget_usd := monthly_budget_usd p; allow_streaming := allow_streaming p; allow_tools := allow_tools p;
     max_requests_per_day := max_requests_per_day p; max_tokens_per_day := max_tokens_per_day p;
     max_cost_per_request := max_cost_per_request p; max_input_tokens_per_request := max_input_tokens_per_request p;
     max_output_tokens_per_request := max_output_tokens_per_request p; allowed_hours_utc := allowed_hours_utc p;
     unused_key_auto_disable_after_days := unused_key_auto_disable_after_days p; max_request_body_bytes := max_request_body_bytes p;
     max_response_body_bytes := max_response_body_bytes p; max_stream_duration_seconds := max_stream_duration_seconds p;
     max_sse_event_bytes := max_sse_event_bytes p; max_tool_call_count := max_tool_call_count p;
     max_tool_schema_bytes := max_tool_schema_bytes p; policy_version := version |}.
Definition fallback_layer (version : Z) : PolicyLayer :=
  {| layer_kind := LayerGlobal; layer_scope_id := None; layer_policy := with_version version KeyPolicy_default;
     layer_guardrail_policy := GuardrailPolicy_default; layer_policy_version := version |}.
Definition policy_layers_for_context (project_id team_id : option string) (route : option Route) (model : option string)
    (fallback_policy : KeyPolicy) (d : KeysDb) : GatewayResult (list PolicyLayer) :=
  let? rows := try_map (λ kr, layer_of_row kr.2)
    (sort_by (λ a b, layer_rank (ly_kind a.2) ?= layer_rank (ly_kind b.2))
       (List.filter (λ kr, layer_applies project_id team_id (route_as_str <$> route) model kr.2) (map_to_list (policy_layers d)))) in
  Ok (if is_nil rows then [fallback_layer (policy_version fallback_policy)] else rows).
Definition find_layer (kind : string) (scope_id : option string) (d : KeysDb) : option (string * LayerRow) :=
  List.find (λ kr, String.eqb (ly_kind kr.2) kind && bool_decide (ly_scope_id kr.2 = scope_id)) (map_to_list (policy_layers d)).
(** [i64] addition. *)
Definition next_version (v : Z) : Z := (v + 1 + 2 ^ 63) mod 2 ^ 64 - 2 ^ 63.
Record LayerResponse := { lx_id : string; lx_kind : PolicyLayerKind; lx_row : LayerRow }.
Definition policy_layer_response_from_row (id : string) (r : LayerRow) : GatewayResult LayerResponse :=
  let? kind := parse_policy_layer_kind (ly_kind r) in Ok {| lx_id := id; lx_kind := kind; lx_row := r |}.
Definition listing_rank (kind : string) : Z := if String.eqb kind "key" then 4 else layer_rank kind.
Definition list_policy_layers (d : KeysDb) : GatewayResult (list LayerResponse) :=
  try_map (λ kr, policy_layer_response_from_row kr.1 kr.2)
    (sort_by (λ a b, then_with (listing_rank (ly_kind a.2) ?= listing_rank (ly_kind b.2))
                       match ly_scope_id a.2, ly_scope_id b.2 with
                       | None, None => Eq | None, Some _ => Lt | Some _, None => Gt | Some x, Some y => collate x y
                       end) (map_to_list (policy_layers d))).
Definition upsert_policy_layer (new_id : string) (q : AdminPolicyLayerUpsert) (d : KeysDb) : KeysDb * GatewayResult LayerResponse :=
  let written :=
    let? scope_id := normalize_policy_layer_scope (lu_kind q) (lu_scope_id q) in
    let kind := layer_kind_as_str (lu_kind q) in
    let '(id, base_policy, base_guardrails, version) :=
      match find_layer kind scope_id d with
      | Some (id, r) => (id, ly_policy r, ly_guardrail_policy r, next_version (ly_policy_version r))
      | None => (new_id, neutral_layer 1, GuardrailPolicy_default, 1)
      end in
    let? policy := apply_policy_patch base_policy (lu_policy q) in
    let policy := with_version version policy in
    let? guardrails := guardrail_policy_patch_apply (lu_guardrail_policy q) base_guardrails in
    check? validate_guardrail_policy_catalog guardrails d in
    (* on a conflict of identifiers the row keeps its kind and scope *)
    let r := match policy_layers d !! id with
             | Some r => {| ly_kind := ly_kind r; ly_scope_id := ly_scope_id r; ly_policy := policy; ly_guardrail_policy := guardrails;
                            ly_policy_version := version |}
             | None => {| ly_kind := kind; ly_scope_id := scope_id; ly_policy := policy; ly_guardrail_policy := guardrails;
                          ly_policy_version := version |}
             end in
    Ok (id, r) in
  match written with
  | Err e => (d, Err e)
  | Ok (id, r) => (set_layers (<[id := r]> (policy_layers d)) d, policy_layer_response_from_row id r)
  end.
Definition delete_policy_layer (layer_id : string) (d : KeysDb) : KeysDb * GatewayResult bool :=
  (set_layers (delete layer_id (policy_layers d)) d, Ok (is_some (policy_layers d !! layer_id))).

(** ** The policy of a request *)

Definition used_today (dbnow : Z) (key_id : string) (d : KeysDb) : list DailyUse :=
  List.filter (λ u, String.eqb (du_key_id u) key_id && (day_start dbnow <=? du_created_at u)) (usage d).
Definition daily_requests (dbnow : Z) (key_id : string) (d : KeysDb) : Z := Z.of_nat (length (used_today dbnow key_id d)).
Definition daily_tokens (dbnow : Z) (key_id : string) (d : KeysDb) : Z :=
  foldr (λ u s, default 0 (du_total_tokens u) + s) 0 (used_today dbnow key_id d).
Definition denied (p : KeyPolicy) : KeyPolicy :=
  {| deny := true; allowed_routes := allowed_routes p; allowed_models := allowed_models p; allowed_providers := allowed_providers p;
     allowed_services := allowed_services p; rpm_limit := rpm_limit p; tpm_limit := tpm_limit p; daily_budget_usd := daily_budget_usd p;
     monthly_budget_usd := monthly_budget_usd p; allow_streaming := allow_streaming p; allow_tools := allow_tools p;
     max_requests_per_day := max_requests_per_day p; max_tokens_per_day := max_tokens_per_day p;
     max_cost_per_request := max_cost_per_request p; max_input_tokens_per_request := max_input_tokens_per_request p;
     max_output_tokens_per_request := max_output_tokens_per_request p; allowed_hours_utc := allowed_hours_utc p;
     unused_key_auto_disable_after_days := unused_key_auto_disable_after_days p; max_request_body_bytes := max_request_body_bytes p;
     max_response_body_bytes := max_response_body_bytes p; max_stream_duration_seconds := max_stream_duration_seconds p;
     max_sse_event_bytes := max_sse_event_bytes p; max_tool_call_count := max_tool_call_count p;
     max_tool_schema_bytes := max_tool_schema_bytes p; policy_version := policy_version p |}.
Definition apply_daily_cap_denials (dbnow : Z) (key_id : string) (p : KeyPolicy) (d : KeysDb) : GatewayResult KeyPolicy :=
  if is_none (max_requests_per_day p) && is_none (max_tokens_per_day p) then Ok p
  else
    let requests := daily_requests dbnow key_id d in
    let tokens := daily_tokens dbnow key_id d in
    (* the sum is cast to a bigint *)
    if negb (in_range (- 2 ^ 63) i64_max tokens) then Err ControlStateUnavailable
    else if is_some_and (λ limit, limit <=? requests) (max_requests_per_day p)
            || is_some_and (λ limit, limit <=? tokens) (max_tokens_per_day p)
    then Ok (denied p) else Ok p.

(** The services of the key's project or of the key itself, if it has any
    linked, and the routes that reach them. *)
Definition derived_services (key_id : string) (k : KeyRow) (r : PolicyRow) (d : KeysDb) : list string :=
  let project_services := match kr_project_id k with Some p => linked (project_service_links d) p | None => [] end in
  let key_services := linked (key_service_links d) key_id in
  if String.eqb (kr_owner_type k) "project" && negb (is_nil project_services) then project_services
  else if String.eqb (kr_owner_type k) "individual" && negb (is_nil key_services) then key_services
  else pr_allowed_services r.
Definition add_route (routes : list string) (pattern : string) : list string :=
  let route := service_route_policy_route pattern in
  if str_mem route routes then routes else routes ++ [route].
Definition derived_routes (r : PolicyRow) (services : list string) (d : KeysDb) : list string :=
  if is_nil services then pr_allowed_routes r
  else foldl (λ routes kr, add_route routes (rg_route_pattern kr.2)) (pr_allowed_routes r)
         (List.filter (λ kr, str_mem kr.1 services) (map_to_list (service_registrations d))).
Definition key_policy (key_id : string) (k : KeyRow) (d : KeysDb) : GatewayResult KeyPolicy :=
  let r := default default_row (key_policies d !! key_id) in
  let services := derived_services key_id k r d in
  policy_of_row r (derived_routes r services d) services.
Definition key_layer (key_id : string) (p : KeyPolicy) (g : GuardrailPolicy) (version : Z) : PolicyLayer :=
  {| layer_kind := LayerKey; layer_scope_id := Some key_id; layer_policy := p; layer_guardrail_policy := g; layer_policy_version := version |}.
Definition load_policy_context (dbnow : Z) (key_id : string) (context_project_id team_id : option string) (route : option Route)
    (model : option string) (d : KeysDb) : GatewayResult (option (EffectivePolicy * option string)) :=
  match api_keys d !! key_id with
  | None => Ok None
  | Some k =>
      let project_id := match context_project_id with Some p => Some p | None => kr_project_id k end in
      let? policy := key_policy key_id k d in
      let? layers := policy_layers_for_context project_id team_id route model policy d in
      let? guardrails := guardrail_policy_for_key key_id d in
      let? effective := resolve_effective_policy (layers ++ [key_layer key_id policy guardrails (policy_version policy)]) in
      let? capped := apply_daily_cap_denials dbnow key_id (eff_policy effective) d in
      Ok (Some ({| eff_policy := capped; eff_guardrail_policy := eff_guardrail_policy effective;
                   applied_layers := applied_layers effective |}, project_id))
  end.
Definition with_trace_version (version : Z) (t : PolicyLayerTrace) : PolicyLayerTrace :=
  {| trace_kind := trace_kind t; trace_scope_id := trace_scope_id t; trace_policy_version := version |}.
Fixpoint map_last {A} (f : A → A) (l : list A) : list A :=
  match l with [] => [] | [x] => [f x] | x :: l => x :: map_last f l end.
Definition effective_policy_for_context (dbnow : Z) (key_id : string) (project_id team_id : option string) (route : option Route)
    (model : option string) (d : KeysDb) : GatewayResult EffectivePolicy :=
  let? loaded := load_policy_context dbnow key_id project_id team_id route model d in
  let by_context policy :=
    let version := policy_version policy in
    let? layers := policy_layers_for_context project_id team_id route model (neutral_layer version) d in
    let? guardrails := guardrail_policy_for_key key_id d in
    let? effective := resolve_effective_policy (layers ++ [key_layer key_id (neutral_layer version) guardrails version]) in
    Ok {| eff_policy := policy; eff_guardrail_policy := eff_guardrail_policy effective; applied_layers := applied_layers effective |} in
  match loaded with
  | Some (effective, resolved) =>
      if bool_decide (project_id = resolved)
      then Ok {| eff_policy := eff_policy effective; eff_guardrail_policy := eff_guardrail_policy effective;
                 applied_layers := map_last (with_trace_version (policy_version (eff_policy effective))) (applied_layers effective) |}
      else by_context (eff_policy effective)
  | None => by_context KeyPolicy_default
  end.
Definition policy_for_context (dbnow : Z) (key_id : string) (context_project_id team_id : option string) (route : option Route)
    (model : option string) (d : KeysDb) : GatewayResult KeyPolicy :=
  let? loaded := load_policy_context dbnow key_id context_project_id team_id route model d in
  Ok (default KeyPolicy_default ((λ e, eff_policy e.1) <$> loaded)).
Definition policy_for_key (dbnow : Z) (key_id : string) (d : KeysDb) : GatewayResult KeyPolicy :=
  policy_for_context dbnow key_id None None None None d.
End store.

(** ** Texts that were written are read back *)

Lemma parse_route_of r : parse_route (route_as_str r) = Ok r.
Proof. by destruct r. Qed.
Lemma parse_provider_of p : parse_provider (provider_as_str p) = Ok p.
Proof. by destruct p. Qed.
Lemma parse_routes_of l : parse_routes (route_strings l) = Ok l.
Proof. apply try_map_ok, Forall2_fmap_l, Forall_Forall2_diag, Forall_true. exact parse_route_of. Qed.
Lemma parse_providers_of l : parse_providers (provider_strings l) = Ok l.
Proof. apply try_map_ok, Forall2_fmap_l, Forall_Forall2_diag, Forall_true. exact parse_provider_of. Qed.
Lemma service_route_parses pattern : is_ok (parse_route (service_route_policy_route pattern)) = true.
Proof. unfold service_route_policy_route. by repeat (destruct (String.eqb _ _); [done|]). Qed.
Lemma policy_of_written p v : policy_of_row (policy_row p v) (pr_allowed_routes (policy_row p v)) (pr_allowed_services (policy_row p v)) =
  Ok (with_version v p).
Proof. unfold policy_of_row. cbn. rewrite parse_routes_of, parse_providers_of. done. Qed.

(** ** The tables over time *)

Inductive KeyOp : Type :=
| CreateProject (new_id : string) (dbnow : Z) (q : ProjectCreateRequest)
| PatchProject (dbnow : Z) (project_id : string) (p : ProjectPatchRequest)
| DeleteProject (project_id : string)
| CreateKey (new_id : string) (dbnow : Z) (q : AdminKeyCreate) (m : VirtualKeyMaterial)
| PatchKey (dbnow : Z) (key_id : string) (p : AdminKeyPatch)
| RevokeKey (dbnow : Z) (key_id : string)
| DisableKey (dbnow : Z) (key_id : string)
| EnableKey (dbnow : Z) (key_id : string)
| LookupKey (dbnow : Z) (prefix : string)
| UseKey (dbnow : Z) (key_id : string) (used_at : Z)
| PutKeyGuardrails (key_id : string) (p : GuardrailPolicy)
| PutLayer (new_id : string) (q : AdminPolicyLayerUpsert)
| DropLayer (layer_id : string)
| ServiceRegistered (name : string) (g : Registration)
| ServiceDropped (name : string)
| GuardrailsDefined (names : gset string)
| Used (u : DailyUse).
(** A service is registered for a project that exists; dropping it takes its
    links along. *)
Definition register_service (name : string) (g : Registration) (d : KeysDb) : KeysDb :=
  if project_known (rg_project_id g) d then
    {| projects := projects d; api_keys := api_keys d; key_policies := key_policies d; key_guardrail_policies := key_guardrail_policies d;
       project_service_links := project_service_links d; key_service_links := key_service_links d; policy_layers := policy_layers d;
       service_registrations := <[name := g]> (service_registrations d); guardrail_definitions := guardrail_definitions d; usage := usage d |}
  else d.
Definition drop_service (name : string) (d : KeysDb) : KeysDb :=
  {| projects := projects d; api_keys := api_keys d; key_policies := key_policies d; key_guardrail_policies := key_guardrail_policies d;
     project_service_links := filter (λ l, l.2 ≠ name) (project_service_links d);
     key_service_links := filter (λ l, l.2 ≠ name) (key_service_links d); policy_layers := policy_layers d;
     service_registrations := delete name (service_registrations d); guardrail_definitions := guardrail_definitions d; usage := usage d |}.
Definition set_others names us (d : KeysDb) : KeysDb :=
  {| projects := projects d; api_keys := api_keys d; key_policies := key_policies d; key_guardrail_policies := key_guardrail_policies d;
     project_service_links := project_service_links d; key_service_links := key_service_links d; policy_layers := policy_layers d;
     service_registrations := service_registrations d; guardrail_definitions := names; usage := us |}.
Definition empty_keys : KeysDb :=
  {| projects := ∅; api_keys := ∅; key_policies := ∅; key_guardrail_policies := ∅; project_service_links := ∅; key_service_links := ∅;
     policy_layers := ∅; service_registrations := ∅; guardrail_definitions := ∅; usage := [] |}.

Section histories.
Variable has_control : string → bool.
Variable collate : string → string → comparison.
Variable day_start : Z → Z.
Variable days_before : Z → Z → Z.

Definition keys_after (d : KeysDb) (op : KeyOp) : KeysDb :=
  match op with
  | CreateProject id dbnow q => (create_project id dbnow q d).1
  | PatchProject dbnow id p => (patch_project collate dbnow id p d).1
  | DeleteProject id => (delete_project id d).1
  | CreateKey id dbnow q m => (create_admin_key has_control collate id dbnow q m d).1
  | PatchKey dbnow id p => (patch_admin_key has_control collate dbnow id p d).1
  | RevokeKey dbnow id => (revoke_admin_key collate dbnow id d).1
  | DisableKey dbnow id => (disable_admin_key collate dbnow id d).1
  | EnableKey dbnow id => (enable_admin_key collate dbnow id d).1
  | LookupKey dbnow prefix => (find_by_prefix days_before dbnow prefix d).1
  | UseKey dbnow id used_at => (mark_key_used dbnow id used_at d).1
  | PutKeyGuardrails id p => (upsert_guardrail_policy_for_key id p d).1
  | PutLayer id q => (upsert_policy_layer id q d).1
  | DropLayer id => (delete_policy_layer id d).1
  | ServiceRegistered name g => register_service name g d
  | ServiceDropped name => drop_service name d
  | GuardrailsDefined names => set_others names (usage d) d
  | Used u => set_others (guardrail_definitions d) (u :: usage d) d
  end.
Abbreviation after ops d := (foldl keys_after d ops).

(** *** What the tables always satisfy *)

Definition row_ok (r : PolicyRow) : Prop :=
  is_ok (parse_routes (pr_allowed_routes r)) = true ∧ is_ok (parse_providers (pr_allowed_providers r)) = true ∧
  Forall (λ h, 0 ≤ h ≤ 23) (pr_allowed_hours_utc r).
Definition layer_ok (r : LayerRow) : Prop := is_ok (parse_policy_layer_kind (ly_kind r)) = true ∧ hours_valid (ly_policy r).
Definition links_ok {A B} (ids : gmap string A) (services : gmap string B) (links : gset (string * string)) : Prop :=
  ∀ l, l ∈ links → is_Some (ids !! l.1) ∧ is_Some (services !! l.2).
Definition of_known_project (d : KeysDb) (p : option string) : Prop := project_known p d = true.
Record keys_wf (d : KeysDb) : Prop := {
  keys_ok id r : api_keys d !! id = Some r → owner_project_ok r = true ∧ of_known_project d (kr_project_id r);
  prefixes_unique id id' r r' : api_keys d !! id = Some r → api_keys d !! id' = Some r' → kr_key_prefix r = kr_key_prefix r' → id = id';
  policies_ok id r : key_policies d !! id = Some r → row_ok r ∧ is_Some (api_keys d !! id);
  guardrails_ok id g : key_guardrail_policies d !! id = Some g → guardrail_policy_validate g = Ok tt ∧ is_Some (api_keys d !! id);
  project_names_unique id id' r r' : projects d !! id = Some r → projects d !! id' = Some r' → pw_name r = pw_name r' → id = id';
  project_links_ok : links_ok (projects d) (service_registrations d) (project_service_links d);
  key_links_ok : links_ok (api_keys d) (service_registrations d) (key_service_links d);
  layers_ok id r : policy_layers d !! id = Some r → layer_ok r;
  layers_unique id id' r r' : policy_layers d !! id = Some r → policy_layers d !! id' = Some r' → ly_kind r = ly_kind r' →
    ly_scope_id r = ly_scope_id r' → id = id';
  services_ok n g : service_registrations d !! n = Some g → of_known_project d (rg_project_id g)
}.

Lemma owner_parses r : owner_project_ok r = true → is_ok (parse_key_owner_type (kr_owner_type r)) = true.
Proof.
  unfold owner_project_ok, parse_key_owner_type. intros [Ho|Ho]%orb_true_iff; apply andb_true_iff in Ho as [-> _]; [done|].
  by destruct (String.eqb _ "project").
Qed.
(** A map whose entries are told apart by what [f] gives them stays so when an
    entry is written that shares it with none. *)
Lemma unique_insert {A B} (f : A → B) (m : gmap string A) id a :
  (∀ i j x y, m !! i = Some x → m !! j = Some y → f x = f y → i = j) →
  (∀ j y, m !! j = Some y → f y = f a → j = id) →
  ∀ i j x y, <[id := a]> m !! i = Some x → <[id := a]> m !! j = Some y → f x = f y → i = j.
Proof.
  intros Hm Ha i j x y Hx Hy E. apply lookup_insert_Some in Hx as [[<- <-]|[? Hx]], Hy as [[<- <-]|[? Hy]]; [done|..|by eapply Hm].
  - symmetry. by eapply Ha.
  - by eapply Ha.
Qed.
Lemma is_Some_insert {A} (m : gmap string A) id a j : is_Some (m !! j) → is_Some (<[id := a]> m !! j).
Proof. intros Hj. destruct (decide (id = j)) as [<-|]; [rewrite lookup_insert_eq; eauto|by rewrite lookup_insert_ne]. Qed.
Lemma taken_false {A} (f : A → string) (m : gmap string A) id v :
  existsb (λ kr, negb (String.eqb kr.1 id) && String.eqb (f kr.2) v) (map_to_list m) = false →
  ∀ j y, m !! j = Some y → f y = v → j = id.
Proof.
  intros Ht j y Hy <-. destruct (decide (j = id)) as [|Hne]; [done|]. exfalso. apply not_true_iff_false in Ht. apply Ht, existsb_exists.
  exists (j, y). split; [by apply list_elem_of_In, elem_of_map_to_list|]. cbn. by rewrite String.eqb_refl, (proj2 (String.eqb_neq _ _) Hne).
Qed.
Lemma known_weaken (d d' : KeysDb) p : (∀ i, is_Some (projects d !! i) → is_Some (projects d' !! i)) → of_known_project d p → of_known_project d' p.
Proof.
  unfold of_known_project, project_known, is_none_or. destruct p as [p|]; [|done]. intros Hp Hk. cbn in *.
  destruct (projects d !! p) eqn:E; [|done]. by destruct (Hp p ltac:(eauto)) as [? ->].
Qed.

(** One table at a time. *)
Lemma wf_keys k d : keys_wf d → (∀ id, is_Some (api_keys d !! id) → is_Some (k !! id)) →
  (∀ id r, k !! id = Some r → owner_project_ok r = true ∧ of_known_project d (kr_project_id r)) →
  (∀ id id' r r', k !! id = Some r → k !! id' = Some r' → kr_key_prefix r = kr_key_prefix r' → id = id') → keys_wf (set_keys k d).
Proof.
  intros [K U P G N PL KL L LU S] Hd Hk Hu. split; cbn; [exact Hk|exact Hu|..|exact N|exact PL| |exact L|exact LU|exact S].
  - intros id r Hr. destruct (P id r Hr). auto.
  - intros id g Hg. destruct (G id g Hg). auto.
  - intros l Hl. destruct (KL l Hl). auto.
Qed.
Lemma wf_key_update id r r' d : keys_wf d → api_keys d !! id = Some r → kr_key_prefix r' = kr_key_prefix r → owner_project_ok r' = true →
  of_known_project d (kr_project_id r') → keys_wf (set_keys (<[id := r']> (api_keys d)) d).
Proof.
  intros Hw Hr Hp Ho Hk. apply wf_keys; [done|intros j; apply is_Some_insert|..].
  - intros j x [[<- <-]|[_ Hx]]%lookup_insert_Some; [done|by eapply keys_ok].
  - apply unique_insert; [by apply prefixes_unique|]. intros j y Hy E. eapply (prefixes_unique _ Hw); [exact Hy|exact Hr|congruence].
Qed.
Lemma wf_key_insert id r d d' : keys_wf d → insert_key id r d = Ok d' → keys_wf d' ∧ api_keys d' !! id = Some r.
Proof.
  intros Hw. unfold insert_key. destruct (_ || _) eqn:Hn; [done|]. destruct (negb (project_known _ _)) eqn:Hk; [done|]. intros [= <-].
  apply orb_false_iff in Hn as [[Ho%negb_false_iff Hi]%orb_false_iff Hp]. apply negb_false_iff in Hk. split; [|apply lookup_insert_eq].
  apply wf_keys; [done|intros j; apply is_Some_insert|..].
  - intros j x [[<- <-]|[_ Hx]]%lookup_insert_Some; [done|by eapply keys_ok].
  - apply unique_insert; [by apply prefixes_unique|]. by apply (taken_false kr_key_prefix).
Qed.
Lemma wf_policies p d : keys_wf d → (∀ id r, p !! id = Some r → row_ok r ∧ is_Some (api_keys d !! id)) → keys_wf (set_policies p d).
Proof. intros [K U P G N PL KL L LU S] Hp. split; cbn; [exact K|exact U|exact Hp|exact G|exact N|exact PL|exact KL|exact L|exact LU|exact S]. Qed.
Lemma wf_guardrails g d : keys_wf d → (∀ id x, g !! id = Some x → guardrail_policy_validate x = Ok tt ∧ is_Some (api_keys d !! id)) →
  keys_wf (set_key_guardrails g d).
Proof. intros [K U P G N PL KL L LU S] Hg. split; cbn; [exact K|exact U|exact P|exact Hg|exact N|exact PL|exact KL|exact L|exact LU|exact S]. Qed.
Lemma wf_links p k d : keys_wf d → links_ok (projects d) (service_registrations d) p → links_ok (api_keys d) (service_registrations d) k →
  keys_wf (set_links p k d).
Proof. intros [K U P G N PL KL L LU S] Hp Hk. split; cbn; [exact K|exact U|exact P|exact G|exact N|exact Hp|exact Hk|exact L|exact LU|exact S]. Qed.
Lemma wf_layers l d : keys_wf d → (∀ id r, l !! id = Some r → layer_ok r) →
  (∀ id id' r r', l !! id = Some r → l !! id' = Some r' → ly_kind r = ly_kind r' → ly_scope_id r = ly_scope_id r' → id = id') →
  keys_wf (set_layers l d).
Proof. intros [K U P G N PL KL L LU S] Hl Hu. split; cbn; [exact K|exact U|exact P|exact G|exact N|exact PL|exact KL|exact Hl|exact Hu|exact S]. Qed.
Lemma wf_projects p d : keys_wf d → (∀ id, is_Some (projects d !! id) → is_Some (p !! id)) →
  (∀ id id' r r', p !! id = Some r → p !! id' = Some r' → pw_name r = pw_name r' → id = id') → keys_wf (set_projects p d).
Proof.
  intros [K U P G N PL KL L LU S] Hd Hu. split; cbn; [|exact U|exact P|exact G|exact Hu| |exact KL|exact L|exact LU|].
  - intros id r Hr. destruct (K id r Hr) as [Ho Hk]. split; [done|]. by eapply known_weaken.
  - intros l Hl. destruct (PL l Hl). auto.
  - intros n g Hg. by eapply known_weaken, S.
Qed.

(** Policies that are written can be read. *)
Lemma written_row_ok p v : hours_valid p → row_ok (policy_row p v).
Proof. intros Hp. unfold row_ok. cbn. by rewrite parse_routes_of, parse_providers_of. Qed.
Lemma patched_hours p q p' : hours_valid p → apply_policy_patch p q = Ok p' → hours_valid p'.
Proof.
  intros Hp. unfold apply_policy_patch. destruct (match kp_allowed_routes q with Some l => parse_routes l | None => Ok (allowed_routes p) end) as [routes|]; [|done].
  destruct (match kp_allowed_providers q with Some l => parse_providers l | None => Ok (allowed_providers p) end) as [providers|]; [|done].
  destruct (is_some_and _ _) eqn:Hh; [done|].
  intros [= <-]. unfold hours_valid. cbn. destruct (kp_allowed_hours_utc q) as [l|]; [|exact Hp]. cbn in *.
  apply Forall_forall. intros h Hin. destruct (in_range 0 23 h) eqn:E; [by apply in_range_iff|]. exfalso.
  apply not_true_iff_false in Hh. apply Hh, existsb_exists. exists h. split; [by apply list_elem_of_In|]. by rewrite E.
Qed.
Lemma base_hours o : hours_valid (default KeyPolicy_default ((λ preset, apply_preset preset KeyPolicy_default) <$> o)).
Proof. destruct o as [[]|]; constructor. Qed.
Lemma default_row_ok : row_ok default_row.
Proof. repeat split. constructor. Qed.
Lemma stored_row_ok id d : keys_wf d → row_ok (default default_row (key_policies d !! id)).
Proof. intros Hw. destruct (key_policies d !! id) as [r|] eqn:E; [by apply (policies_ok _ Hw) in E as [? _]|apply default_row_ok]. Qed.
Lemma row_hours r routes services p : Forall (λ h, 0 ≤ h ≤ 23) (pr_allowed_hours_utc r) → policy_of_row r routes services = Ok p → hours_valid p.
Proof.
  intros Hr. unfold policy_of_row. destruct (parse_routes routes); [|done]. cbn. destruct (parse_providers _); [|done]. cbn. by intros [= <-].
Qed.
Lemma stored_hours id d p : keys_wf d → stored_policy_for_key id d = Ok p → hours_valid p.
Proof.
  intros Hw. unfold stored_policy_for_key. destruct (api_keys d !! id); [|intros [= <-]; constructor].
  apply row_hours. by apply stored_row_ok.
Qed.
Lemma upsert_policy_wf id p d d' : keys_wf d → hours_valid p → upsert_policy_in_tx id p d = Ok d' → keys_wf d' ∧ api_keys d' = api_keys d.
Proof.
  intros Hw Hp. unfold upsert_policy_in_tx. destruct (api_keys d !! id) as [k|] eqn:Hk; [|done]. cbn.
  assert (∀ v, keys_wf (set_policies (<[id := policy_row p v]> (key_policies d)) d)) as Hs.
  { intros v. apply wf_policies; [done|]. intros j r [[<- <-]|[_ Hr]]%lookup_insert_Some; [|by eapply policies_ok].
    split; [by apply written_row_ok|eauto]. }
  destruct (key_policies d !! id) as [r|]; [destruct (_ =? _); [done|]|]; intros [= <-]; auto.
Qed.
Lemma upsert_guardrails_wf id p d d' : keys_wf d → upsert_guardrail_policy_in_tx id p d = Ok d' → keys_wf d' ∧ api_keys d' = api_keys d.
Proof.
  intros Hw. unfold upsert_guardrail_policy_in_tx. destruct (guardrail_policy_validate p) as [[]|] eqn:Hv; [|done]. cbn.
  destruct (api_keys d !! id) as [k|] eqn:Hk; [|done]. cbn. intros [= <-]. split; [|done]. apply wf_guardrails; [done|].
  intros j g [[<- <-]|[_ Hg]]%lookup_insert_Some; [eauto|by eapply guardrails_ok].
Qed.
Lemma link_services_ok {A} (ids : gmap string A) id registered names links links' : is_Some (ids !! id) → links_ok ids registered links →
  link_services id registered names links = Ok links' → links_ok ids registered links'.
Proof.
  intros Hi. unfold link_services. revert links. induction names as [|n names IH]; intros links Hl; cbn; [by intros [= <-]|].
  destruct (validate_service_name n); [|done]. cbn. destruct (registered !! n) eqn:Hn; [|done]. cbn. apply IH.
  intros l [->%elem_of_singleton|?]%elem_of_union; cbn; [split; [done|eauto]|by apply Hl].
Qed.
Lemma unlinked_ok {A B} (ids : gmap string A) (services : gmap string B) id links : links_ok ids services links → links_ok ids services (unlinked id links).
Proof. intros Hl l [_ Hin]%elem_of_filter. by apply Hl. Qed.
Lemma replace_key_links_wf id names d d' : keys_wf d → is_Some (api_keys d !! id) → replace_key_service_links_in_tx id names d = Ok d' → keys_wf d'.
Proof.
  intros Hw Hi. unfold replace_key_service_links_in_tx. destruct (link_services _ _ _ _) as [links|] eqn:E; [|done]. cbn. intros [= <-].
  apply wf_links; [done|by apply project_links_ok|]. eapply link_services_ok; [exact Hi| |exact E]. by apply unlinked_ok, key_links_ok.
Qed.
Lemma replace_project_links_wf id names d d' : keys_wf d → is_Some (projects d !! id) → replace_project_service_links id names d = Ok d' → keys_wf d'.
Proof.
  intros Hw Hi. unfold replace_project_service_links. destruct (link_services _ _ _ _) as [links|] eqn:E; [|done]. cbn. intros [= <-].
  apply wf_links; [done| |by apply key_links_ok]. eapply link_services_ok; [exact Hi| |exact E]. by apply unlinked_ok, project_links_ok.
Qed.
Lemma create_project_wf id dbnow q d : keys_wf d → keys_wf (create_project id dbnow q d).1.
Proof.
  intros Hw. unfold create_project. destruct (project_create_validate q); [|done]. destruct (_ || _) eqn:Hn; [done|].
  apply orb_false_iff in Hn as [_ Hn]. apply wf_projects; [done|intros j; apply is_Some_insert|].
  apply unique_insert; [by apply project_names_unique|]. by apply (taken_false pw_name).
Qed.
Lemma patch_project_wf dbnow id p d : keys_wf d → keys_wf (patch_project collate dbnow id p d).1.
Proof.
  intros Hw. unfold patch_project. destruct (project_patch_validate p); [|done]. destruct (projects d !! id) as [r|] eqn:Hr; [|done].
  assert (∀ d1, keys_wf d1 → is_Some (projects d1 !! id) →
    keys_wf (match pp_service_names p with None => (d1, get_project collate id d1)
      | Some names => in_tx d1 (replace_project_service_links id names d1) (get_project collate id) end).1) as Hlinks.
  { intros d1 Hw1 Hi. destruct (pp_service_names p) as [names|]; [|done]. unfold in_tx.
    destruct (replace_project_service_links id names d1) eqn:E; [|done]. by eapply replace_project_links_wf. }
  destruct (pp_name p) as [name|]; [|apply Hlinks; [done|eauto]]. destruct (name_taken _ _ _) eqn:Hn; [done|].
  apply Hlinks; [|cbn; rewrite lookup_insert_eq; eauto]. apply wf_projects; [done|intros j; apply is_Some_insert|].
  apply unique_insert; [by apply project_names_unique|]. by apply (taken_false pw_name).
Qed.
Lemma unreferenced {A} (f : A → option string) (m : gmap string A) p :
  existsb (λ kr, bool_decide (f kr.2 = Some p)) (map_to_list m) = false → ∀ id a, m !! id = Some a → f a ≠ Some p.
Proof.
  intros He id a Ha E. apply not_true_iff_false in He. apply He, existsb_exists. exists (id, a).
  split; [by apply list_elem_of_In, elem_of_map_to_list|]. by apply bool_decide_eq_true.
Qed.
Lemma known_delete p d o : o ≠ Some p → of_known_project d o → of_known_project (set_projects (delete p (projects d)) d) o.
Proof.
  unfold of_known_project, project_known. destruct o as [q|]; [|done]. cbn. intros Hne Hk. rewrite lookup_delete_ne; [done|congruence].
Qed.
Lemma delete_project_wf id d : keys_wf d → keys_wf (delete_project id d).1.
Proof.
  intros [K U P G N PL KL L LU S]. unfold delete_project. destruct (_ || _) eqn:Hn; [done|]. apply orb_false_iff in Hn as [Hk Hs].
  pose proof (unreferenced _ _ _ Hk) as Hk'. pose proof (unreferenced _ _ _ Hs) as Hs'. clear Hk Hs.
  split; cbn; [|exact U|exact P|exact G|..|exact KL|exact L|exact LU|].
  - intros i r Hr. destruct (K i r Hr). split; [done|]. apply known_delete; eauto.
  - intros i j x y [_ Hx]%lookup_delete_Some [_ Hy]%lookup_delete_Some. eauto.
  - intros l [Hl Hin]%elem_of_filter. destruct (PL l Hin). rewrite lookup_delete_ne by congruence. done.
  - intros n g Hg. apply known_delete; eauto.
Qed.
Lemma create_key_wf id dbnow q m d : keys_wf d → keys_wf (create_admin_key has_control collate id dbnow q m d).1.
Proof.
  intros Hw. unfold create_admin_key, in_tx. destruct (normalize_key_name _ _) as [name|]; [|done].
  destruct (validate_key_owner _ _); [|done]. destruct (apply_policy_patch _ _) as [p|] eqn:Hp; [|done].
  destruct (validate_guardrail_policy_catalog _ _); [|done]. apply patched_hours in Hp; [|apply base_hours].
  destruct (insert_key _ _ _) as [d1|] eqn:E1; [|done]. apply wf_key_insert in E1 as [H1 Hi]; [|done].
  destruct (upsert_policy_in_tx _ _ _) as [d2|] eqn:E2; [|done]. apply upsert_policy_wf in E2 as [H2 E2]; [|done..].
  destruct (upsert_guardrail_policy_in_tx _ _ _) as [d3|] eqn:E3; [|done]. apply upsert_guardrails_wf in E3 as [H3 E3]; [|done].
  destruct (replace_key_service_links_in_tx _ _ _) as [d4|] eqn:E4; [|done]. eapply replace_key_links_wf; [exact H3| |exact E4].
  rewrite E3, E2, Hi. eauto.
Qed.
Lemma update_key_wf id r r' d d' : keys_wf d → api_keys d !! id = Some r → kr_key_prefix r' = kr_key_prefix r →
  update_key id r r' d = Ok d' → keys_wf d' ∧ api_keys d' = <[id := r']> (api_keys d).
Proof.
  intros Hw Hr Hp. unfold update_key. destruct (profile_conflict _ _ _ _); [done|]. destruct (negb (owner_project_ok r')) eqn:Ho; [done|].
  destruct (negb (project_known _ _)) eqn:Hk; [done|]. intros [= <-]. apply negb_false_iff in Ho, Hk. split; [|done].
  by eapply wf_key_update.
Qed.
Lemma patch_checks_hours id p d name policy guardrails : keys_wf d →
  patch_checks has_control collate id p d = Ok (Some (name, Some policy, guardrails)) → hours_valid policy.
Proof.
  intros Hw. unfold patch_checks. destruct (normalize_key_name _ _); [|done].
  destruct (if is_some (ak_owner_type p) || is_some (ak_project_id p) then _ else _) as [[]|]; [|done..].
  destruct (ak_policy p) as [q|].
  - destruct (stored_policy_for_key id d) as [c|] eqn:Hc; [|done]. destruct (apply_policy_patch c q) as [p'|] eqn:Hp; [|done].
    destruct (match ak_guardrail_policy p with Some _ => _ | None => _ end); [|done]. cbn. intros [= _ <- _].
    eapply patched_hours; [|exact Hp]. by eapply stored_hours.
  - destruct (match ak_guardrail_policy p with Some _ => _ | None => _ end); done.
Qed.
Lemma patch_key_wf dbnow id p d : keys_wf d → keys_wf (patch_admin_key has_control collate dbnow id p d).1.
Proof.
  intros Hw. unfold patch_admin_key. destruct (patch_checks _ _ _ _ _) as [[[[name policy] guardrails]|]|] eqn:Hc; [|done..].
  destruct (api_keys d !! id) as [r|] eqn:Hr; [|done]. destruct (revoked r); [done|]. unfold in_tx.
  destruct (update_key _ _ _ _) as [d1|] eqn:E1; [|done]. eapply update_key_wf in E1 as [H1 E1]; [|done..].
  assert (is_Some (api_keys d1 !! id)) as Hi by (rewrite E1, lookup_insert_eq; eauto).
  destruct (if_some policy _ d1) as [d2|] eqn:E2; [|done].
  assert (keys_wf d2 ∧ api_keys d2 = api_keys d1) as [H2 E2'].
  { destruct policy as [q|]; cbn in E2; [|by injection E2 as <-]. eapply upsert_policy_wf; [done| |exact E2]. exact (patch_checks_hours _ _ _ _ _ _ Hw Hc). }
  destruct (if_some guardrails _ d2) as [d3|] eqn:E3; [|done].
  assert (keys_wf d3 ∧ api_keys d3 = api_keys d2) as [H3 E3'].
  { destruct guardrails as [g|]; cbn in E3; [by eapply upsert_guardrails_wf|by injection E3 as <-]. }
  destruct (if_some (ak_service_names p) _ d3) as [d4|] eqn:E4; [|done]. cbn.
  destruct (ak_service_names p) as [names|]; cbn in E4; [|by injection E4 as <-]. eapply replace_key_links_wf; [exact H3| |exact E4].
  by rewrite E3', E2'.
Qed.
Lemma live_key_wf id f d : keys_wf d →
  (∀ r, kr_key_prefix (f r) = kr_key_prefix r ∧ kr_owner_type (f r) = kr_owner_type r ∧ kr_project_id (f r) = kr_project_id r) →
  keys_wf (update_live_key id f d).
Proof.
  intros Hw Hf. unfold update_live_key. destruct (api_keys d !! id) as [r|] eqn:Hr; [|done]. destruct (revoked r); [done|].
  destruct (Hf r) as (Hp & Ho & Hj). destruct (keys_ok _ Hw _ _ Hr) as [Hok Hk]. eapply wf_key_update; [done|exact Hr|done|..].
  - unfold owner_project_ok. by rewrite Ho, Hj.
  - by rewrite Hj.
Qed.
Lemma find_key_Some prefix d id r : find_key prefix d = Some (id, r) → api_keys d !! id = Some r ∧ kr_key_prefix r = prefix.
Proof. intros Hf. apply find_some in Hf as [Hi E%String.eqb_eq]. split; [by apply elem_of_map_to_list, list_elem_of_In|done]. Qed.
Lemma lookup_wf dbnow prefix d : keys_wf d → keys_wf (find_by_prefix days_before dbnow prefix d).1.
Proof.
  intros Hw. unfold find_by_prefix. destruct (find_key prefix d) as [[id r]|] eqn:Hf; [|done]. destruct (_ && _); [|done].
  apply find_key_Some in Hf as [Hr _]. destruct (keys_ok _ Hw _ _ Hr). eapply wf_key_update; [done|exact Hr|done..].
Qed.
Lemma put_guardrails_wf id p d : keys_wf d → keys_wf (upsert_guardrail_policy_for_key id p d).1.
Proof.
  intros Hw. unfold upsert_guardrail_policy_for_key, in_tx. destruct (upsert_guardrail_policy_in_tx id p d) eqn:E; [|done].
  by apply upsert_guardrails_wf in E as [? _].
Qed.
Lemma find_layer_Some kind scope d id r : find_layer kind scope d = Some (id, r) →
  policy_layers d !! id = Some r ∧ ly_kind r = kind ∧ ly_scope_id r = scope.
Proof.
  intros Hf. apply find_some in Hf as [Hi E]. apply andb_true_iff in E as [E1%String.eqb_eq E2%bool_decide_eq_true].
  split; [by apply elem_of_map_to_list, list_elem_of_In|done].
Qed.
Lemma find_layer_None kind scope d id r : find_layer kind scope d = None → policy_layers d !! id = Some r → ly_kind r = kind →
  ly_scope_id r = scope → False.
Proof.
  intros Hf Hr <- <-. assert (In (id, r) (map_to_list (policy_layers d))) as Hi by by apply list_elem_of_In, elem_of_map_to_list.
  apply (find_none _ _ Hf) in Hi. cbn in Hi. by rewrite String.eqb_refl, bool_decide_eq_true_2 in Hi.
Qed.
Lemma kind_parses k : is_ok (parse_policy_layer_kind (layer_kind_as_str k)) = true.
Proof. by destruct k. Qed.
(** A layer is written over the one of its kind and scope, or beside all. *)
Lemma layer_written_wf id r d : keys_wf d → layer_ok r →
  (∀ j y, policy_layers d !! j = Some y → ly_kind y = ly_kind r → ly_scope_id y = ly_scope_id r → j = id) →
  keys_wf (set_layers (<[id := r]> (policy_layers d)) d).
Proof.
  intros Hw Hr Hu. apply wf_layers; [done|..].
  - intros j x [[<- <-]|[_ Hx]]%lookup_insert_Some; [done|by eapply layers_ok].
  - intros i j x y Hx Hy E1 E2. apply (unique_insert (λ r, (ly_kind r, ly_scope_id r)) (policy_layers d) id r) with x y; [..|exact Hx|exact Hy|congruence].
    + intros i' j' x' y' Hx' Hy' [= E1' E2']. by eapply (layers_unique _ Hw).
    + intros j' y' Hy' [= E1' E2']. by eapply Hu.
Qed.
Lemma put_layer_wf new_id q d : keys_wf d → keys_wf (upsert_policy_layer new_id q d).1.
Proof.
  intros Hw. unfold upsert_policy_layer. destruct (normalize_policy_layer_scope _ _) as [scope|]; [|done].
  destruct (find_layer (layer_kind_as_str (lu_kind q)) scope d) as [[id r]|] eqn:Hf.
  - apply find_layer_Some in Hf as (Hr & Hk & Hs). destruct (apply_policy_patch _ _) as [p|] eqn:Hp; [|done].
    destruct (guardrail_policy_patch_apply _ _) as [g|]; [|done]. destruct (validate_guardrail_policy_catalog g d); [|done].
    destruct (layers_ok _ Hw _ _ Hr) as [Hok Hh]. rewrite Hr. apply layer_written_wf; [done|..].
    + split; [done|]. cbn. apply patched_hours in Hp; [exact Hp|done].
    + intros j y Hy E1 E2. by eapply (layers_unique _ Hw).
  - destruct (apply_policy_patch _ _) as [p|] eqn:Hp; [|done]. apply patched_hours in Hp; [|constructor].
    destruct (guardrail_policy_patch_apply _ _) as [g|]; [|done]. destruct (validate_guardrail_policy_catalog g d); [|done].
    destruct (policy_layers d !! new_id) as [r|] eqn:Hr; apply layer_written_wf; [done|..].
    + destruct (layers_ok _ Hw _ _ Hr) as [Hok _]. by split.
    + intros j y Hy E1 E2. by eapply (layers_unique _ Hw).
    + done.
    + split; [apply kind_parses|exact Hp].
    + intros j y Hy E1 E2. exfalso. by eapply find_layer_None.
Qed.
Lemma drop_layer_wf id d : keys_wf d → keys_wf (delete_policy_layer id d).1.
Proof.
  intros Hw. apply wf_layers; [done|..].
  - intros j x [_ Hx]%lookup_delete_Some. by eapply layers_ok.
  - intros i j x y [_ Hx]%lookup_delete_Some [_ Hy]%lookup_delete_Some. by eapply layers_unique.
Qed.
Lemma register_service_wf n g d : keys_wf d → keys_wf (register_service n g d).
Proof.
  intros [K U P G N PL KL L LU S]. unfold register_service. destruct (project_known _ d) eqn:Hk; [|done].
  split; cbn; [exact K|exact U|exact P|exact G|exact N|..|exact L|exact LU|].
  - intros l Hl. destruct (PL l Hl). split; [done|by apply is_Some_insert].
  - intros l Hl. destruct (KL l Hl). split; [done|by apply is_Some_insert].
  - intros m x [[<- <-]|[_ Hx]]%lookup_insert_Some; [done|by eapply S].
Qed.
Lemma drop_service_wf n d : keys_wf d → keys_wf (drop_service n d).
Proof.
  intros [K U P G N PL KL L LU S]. split; cbn; [exact K|exact U|exact P|exact G|exact N|..|exact L|exact LU|].
  - intros l [Hn Hl]%elem_of_filter. destruct (PL l Hl). split; [done|]. by rewrite lookup_delete_ne.
  - intros l [Hn Hl]%elem_of_filter. destruct (KL l Hl). split; [done|]. by rewrite lookup_delete_ne.
  - intros m x [_ Hx]%lookup_delete_Some. by eapply S.
Qed.
Lemma others_wf names us d : keys_wf d → keys_wf (set_others names us d).
Proof. intros [K U P G N PL KL L LU S]. split; cbn; [exact K|exact U|exact P|exact G|exact N|exact PL|exact KL|exact L|exact LU|exact S]. Qed.
Create HintDb keys.
Hint Resolve create_project_wf patch_project_wf delete_project_wf create_key_wf patch_key_wf lookup_wf put_guardrails_wf put_layer_wf
  drop_layer_wf register_service_wf drop_service_wf others_wf : keys.
Lemma keys_step_wf op d : keys_wf d → keys_wf (keys_after d op).
Proof.
  intros Hw. destruct op; cbn [keys_after]; auto with keys; apply live_key_wf; done.
Qed.
Lemma empty_keys_wf : keys_wf empty_keys.
Proof. split; try (by intros; cbn in *; simplify_map_eq); intros l Hl; set_solver. Qed.
Lemma keys_history_wf ops d : keys_wf d → keys_wf (after ops d).
Proof. revert d. induction ops as [|op ops IH]; intros d Hw; [done|]. apply IH. by apply keys_step_wf. Qed.

(** *** Policies can be loaded, and bind *)

Lemma parse_routes_total l : is_ok (parse_routes l) = true ↔ Forall (λ v, is_ok (parse_route v) = true) l.
Proof.
  split; intros Hl.
  - destruct (parse_routes l) as [k|] eqn:E; [|done]. apply try_map_ok in E. clear Hl.
    induction E as [|v r l k Hv _ IH]; constructor; [by rewrite Hv|done].
  - apply try_map_total. by apply Forall_forall.
Qed.
Lemma derived_routes_ok r services d : row_ok r → is_ok (parse_routes (derived_routes r services d)) = true.
Proof.
  intros (Hr & _ & _). unfold derived_routes. destruct (is_nil services); [done|]. revert Hr. generalize (pr_allowed_routes r).
  induction (List.filter _ _) as [|[n g] l IH]; intros routes Hr; [done|]. cbn. apply IH. unfold add_route.
  destruct (str_mem _ _); [done|]. apply parse_routes_total, Forall_app. split; [by apply parse_routes_total|].
  constructor; [apply service_route_parses|constructor].
Qed.
Lemma key_policy_loads id k d : keys_wf d → ∃ p, key_policy collate id k d = Ok p ∧ hours_valid p.
Proof.
  intros Hw. pose proof (stored_row_ok id d Hw) as Hr. unfold key_policy. set (r := default default_row _) in *.
  set (s := derived_services _ _ _ _ _). pose proof (derived_routes_ok r s d Hr) as Hd. destruct Hr as (_ & Hp & Hh).
  unfold policy_of_row. destruct (parse_routes _) as [routes|]; [|done]. destruct (parse_providers _) as [providers|]; [|done].
  cbn. by eexists.
Qed.
Lemma context_layers project team route model fallback d : keys_wf d → ∃ layers,
  policy_layers_for_context project team route model fallback d = Ok layers ∧ layers ≠ [] ∧ Forall (λ l, hours_valid (layer_policy l)) layers ∧
  (∀ id r, policy_layers d !! id = Some r → layer_applies project team (route_as_str <$> route) model r = true →
     ∃ l, l ∈ layers ∧ layer_policy l = ly_policy r) ∧
  ((∀ id r, policy_layers d !! id = Some r → layer_applies project team (route_as_str <$> route) model r = false) →
     layers = [fallback_layer (policy_version fallback)]).
Proof.
  intros Hw. unfold policy_layers_for_context. set (rows := sort_by _ _).
  assert (∀ kr, kr ∈ rows ↔ policy_layers d !! kr.1 = Some kr.2 ∧ layer_applies project team (route_as_str <$> route) model kr.2 = true) as Hrows.
  { intros [i r]. unfold rows. rewrite sort_by_perm, list_elem_of_In, filter_In, <- list_elem_of_In, elem_of_map_to_list. done. }
  clearbody rows. destruct (try_map _ rows) as [layers|e] eqn:E.
  - cbn. apply try_map_ok in E. assert (Forall (λ l, hours_valid (layer_policy l)) layers ∧
      (∀ kr, kr ∈ rows → ∃ l, l ∈ layers ∧ layer_policy l = ly_policy kr.2)) as [Hh Hin].
    { assert (∀ kr, kr ∈ rows → hours_valid (ly_policy kr.2)) as Hv by (intros kr [Hr _]%Hrows; by apply (layers_ok _ Hw) in Hr as [_ ?]).
      clear Hrows. induction E as [|kr l rows layers Hl _ IH]; [split; [done|]; by intros kr ?%not_elem_of_nil|].
      destruct IH as [Hf Hi]; [intros x Hx; apply Hv; by right|]. specialize (Hv kr ltac:(by left)).
      unfold layer_of_row in Hl. destruct (parse_policy_layer_kind _); [|done]. injection Hl as <-. split; [by constructor|].
      intros x [->|Hx]%elem_of_cons; [eexists; split; [by left|done]|]. destruct (Hi x Hx) as (l & ? & ?). exists l. split; [by right|done]. }
    exists (if is_nil layers then [fallback_layer (policy_version fallback)] else layers). split; [done|]. destruct layers as [|l layers].
    + split; [done|]. split; [repeat constructor|]. split; [|done]. intros i r Hr Ha.
      destruct (Hin (i, r)) as (l & Hl & _); [by apply Hrows|]. by apply not_elem_of_nil in Hl.
    + cbn. split; [done|]. split; [done|]. split; [intros i r Hr Ha; by destruct (Hin (i, r)) as (x & ? & ?); [apply Hrows|eauto]|].
      intros Hn. exfalso. inversion E as [|kr ? rows' ? ? ?]; subst. destruct (proj1 (Hrows kr) ltac:(by left)) as [Hr Ha].
      by rewrite (Hn _ _ Hr) in Ha.
  - exfalso. assert (is_ok (try_map (λ kr : string * LayerRow, layer_of_row kr.2) rows) = true) as Hok; [|by rewrite E in Hok].
    apply try_map_total. intros kr [Hr _]%Hrows. apply (layers_ok _ Hw) in Hr as [Hk _]. unfold layer_of_row. by destruct (parse_policy_layer_kind _).
Qed.
Lemma denied_admits_nothing p r : ¬ admits (denied p) r.
Proof. intros [He _]. apply evaluate_policy_ok in He as [? _]. done. Qed.
(** A policy that still admits after the daily caps has not reached them. *)
Lemma capped_admits dbnow key p d p' r : apply_daily_cap_denials day_start dbnow key p d = Ok p' → admits p' r →
  admits p r ∧ exceeds (Some (daily_requests day_start dbnow key d + 1)) (max_requests_per_day p) = false ∧
  exceeds (Some (daily_tokens day_start dbnow key d + 1)) (max_tokens_per_day p) = false.
Proof.
  unfold apply_daily_cap_denials. destruct (is_none _ && is_none _) eqn:Hn.
  - intros [= <-] Ha. split; [done|]. by destruct (max_requests_per_day p), (max_tokens_per_day p).
  - destruct (negb _); [done|]. destruct (_ || _) eqn:Hc; intros [= <-] Ha; [by apply denied_admits_nothing in Ha|]. split; [done|].
    apply orb_false_iff in Hc as [H1 H2]. unfold exceeds. destruct (max_requests_per_day p), (max_tokens_per_day p); cbn in *; lia.
Qed.
Lemma tighter_caps e p v : tighter e p →
  (exceeds (Some v) (max_requests_per_day e) = false → exceeds (Some v) (max_requests_per_day p) = false) ∧
  (exceeds (Some v) (max_tokens_per_day e) = false → exceeds (Some v) (max_tokens_per_day p) = false).
Proof.
  intros [Ht _]. split; intros He; apply not_true_iff_false; intros Hp.
  - pose proof (proj1 (Forall_forall _ _) Ht max_requests_per_day ltac:(do 2 right; left) v Hp) as Hx. congruence.
  - pose proof (proj1 (Forall_forall _ _) Ht max_tokens_per_day ltac:(do 3 right; left) v Hp) as Hx. congruence.
Qed.
(** The stored layers that are for a request: the global one, and the ones
    whose scope is its project, team, route or model. *)
Inductive addressed (project team : option string) (route : option Route) (model : option string) : string → option string → Prop :=
| AddressedAll : addressed project team route model "global" None
| AddressedProject p : project = Some p → addressed project team route model "project" (Some p)
| AddressedTeam t : team = Some t → addressed project team route model "team" (Some t)
| AddressedRoute r : route = Some r → addressed project team route model "route" (Some (route_as_str r))
| AddressedModel m : model = Some m → addressed project team route model "model" (Some m).
Lemma layer_applies_addressed project team route model r :
  layer_applies project team (route_as_str <$> route) model r = true ↔ addressed project team route model (ly_kind r) (ly_scope_id r).
Proof.
  unfold layer_applies. rewrite !orb_true_iff, !andb_true_iff, !String.eqb_eq, !bool_decide_eq_true. split.
  - intros [[[[[-> Hs]|[[-> Hw] ->]]|[[-> Hw] ->]]|[[-> Hw] ->]]|[[-> Hw] ->]];
      [destruct (ly_scope_id r); [done|apply AddressedAll]|destruct project|destruct team|destruct route|destruct model]; try done.
    + by apply AddressedProject.
    + by apply AddressedTeam.
    + by apply AddressedRoute.
    + by apply AddressedModel.
  - intros Ha. inversion Ha; subst; cbn; auto 10.
Qed.
(** The policies a request of the key is subject to: its own, with the
    services it may reach, and those of the layers that are for the request;
    its project is the context's, or else the key's. *)
Definition governs (d : KeysDb) (key_id : string) (context team : option string) (route : option Route) (model : option string)
    (p : KeyPolicy) : Prop :=
  ∃ k, api_keys d !! key_id = Some k ∧
    (key_policy collate key_id k d = Ok p ∨
     ∃ id r, policy_layers d !! id = Some r ∧
       addressed (match context with Some c => Some c | None => kr_project_id k end) team route model (ly_kind r) (ly_scope_id r) ∧
       p = ly_policy r).
Definition within_caps (dbnow : Z) (key_id : string) (d : KeysDb) (p : KeyPolicy) : Prop :=
  exceeds (Some (daily_requests day_start dbnow key_id d + 1)) (max_requests_per_day p) = false ∧
  exceeds (Some (daily_tokens day_start dbnow key_id d + 1)) (max_tokens_per_day p) = false.
(** What is loaded was resolved from layers that hold the key's policy and the
    ones that apply, or the fallback. *)
Lemma loaded_layers d dbnow key_id context team route model eff project : keys_wf d →
  load_policy_context collate day_start dbnow key_id context team route model d = Ok (Some (eff, project)) →
  ∃ layers resolved, layers ≠ [] ∧ Forall (λ l, hours_valid (layer_policy l)) layers ∧ resolve_effective_policy layers = Ok resolved ∧
    apply_daily_cap_denials day_start dbnow key_id (eff_policy resolved) d = Ok (eff_policy eff) ∧
    (∀ p, governs d key_id context team route model p → ∃ l, l ∈ layers ∧ layer_policy l = p) ∧
    ((∀ id r, policy_layers d !! id = Some r → layer_applies project team (route_as_str <$> route) model r = false) →
     ∃ v, fallback_layer v ∈ layers).
Proof.
  intros Hw. unfold load_policy_context. destruct (api_keys d !! key_id) as [k|] eqn:Hk; [|done].
  destruct (key_policy_loads key_id k d Hw) as (p & Hp & Hh). rewrite Hp.
  set (proj := match context with Some _ => _ | None => _ end).
  destruct (context_layers proj team route model p d Hw) as (layers & Hl & Hne & Hv & Hin & Hfall). rewrite Hl.
  unfold guardrail_policy_for_key. destruct (resolve_effective_policy _) as [resolved|] eqn:Hr; [|done]. destruct (apply_daily_cap_denials _ _ _ _ _) as [capped|] eqn:Hc; [|done].
  intros [= <- <-]. eexists _, resolved. split; [|split; [|split; [exact Hr|split; [exact Hc|split]]]].
  - by destruct layers.
  - apply Forall_app. split; [done|]. by constructor.
  - intros q (k' & Hk' & Hq). rewrite Hk in Hk'. injection Hk' as <-. destruct Hq as [Hq|(i & r & Hi & Ha & ->)].
    + rewrite Hp in Hq. injection Hq as <-. eexists. split; [apply elem_of_app; right; by left|done].
    + apply layer_applies_addressed in Ha. destruct (Hin i r Hi Ha) as (l & ? & ?). exists l. split; [apply elem_of_app; by left|done].
  - intros Hn. rewrite (Hfall Hn). eexists. by left.
Qed.
Lemma layers_bind d dbnow key_id eff r l layers resolved : admits (eff_policy eff) r →
  layers ≠ [] → Forall (λ l, hours_valid (layer_policy l)) layers → resolve_effective_policy layers = Ok resolved →
  apply_daily_cap_denials day_start dbnow key_id (eff_policy resolved) d = Ok (eff_policy eff) → l ∈ layers →
  admits (layer_policy l) r ∧ within_caps dbnow key_id d (layer_policy l).
Proof.
  intros Ha Hne Hh Hr Hc Hl. destruct (capped_admits _ _ _ _ _ _ Hc Ha) as (Had & H1 & H2). destruct layers as [|first rest]; [done|].
  apply resolve_effective_policy_fold in Hr as [E _]. rewrite E in *. apply Forall_cons in Hh as [_ Hh].
  destruct (merge_layers_sound _ _ _ Hh Had) as [Hf Hrest]. destruct (merge_layers_tighter (layer_policy first) rest) as [Tf Trest].
  apply elem_of_cons in Hl as [->|Hl].
  - split; [done|]. split; by eapply tighter_caps.
  - split; [exact (proj1 (Forall_forall _ _) Hrest l Hl)|]. pose proof (proj1 (Forall_forall _ _) Trest l Hl) as T. cbn in T.
    split; by eapply tighter_caps.
Qed.

(** *** Revoked keys *)

Lemma upsert_policy_keys id p d d' : upsert_policy_in_tx id p d = Ok d' → api_keys d' = api_keys d.
Proof.
  unfold upsert_policy_in_tx. destruct (is_none _); [done|]. destruct (key_policies d !! id); [destruct (_ =? _); [done|]|]; by intros [= <-].
Qed.
Lemma upsert_guardrails_keys id p d d' : upsert_guardrail_policy_in_tx id p d = Ok d' → api_keys d' = api_keys d.
Proof. unfold upsert_guardrail_policy_in_tx. destruct (guardrail_policy_validate p); [|done]. cbn. destruct (is_none _); [done|]. by intros [= <-]. Qed.
Lemma replace_key_links_keys id names d d' : replace_key_service_links_in_tx id names d = Ok d' → api_keys d' = api_keys d.
Proof. unfold replace_key_service_links_in_tx. destruct (link_services _ _ _ _); [|done]. by intros [= <-]. Qed.
Lemma if_some_keys {A} (o : option A) f d d' : (∀ a x x', f a x = Ok x' → api_keys x' = api_keys x) → if_some o f d = Ok d' → api_keys d' = api_keys d.
Proof. intros Hf. destruct o; cbn; [apply Hf|by intros [= <-]]. Qed.
Lemma create_key_keys id dbnow q m d i r : api_keys d !! i = Some r → api_keys (create_admin_key has_control collate id dbnow q m d).1 !! i = Some r.
Proof.
  intros Hr. unfold create_admin_key, in_tx. destruct (normalize_key_name _ _); [|done]. destruct (validate_key_owner _ _); [|done].
  destruct (apply_policy_patch _ _); [|done]. destruct (validate_guardrail_policy_catalog _ _); [|done].
  destruct (insert_key _ _ _) as [d1|] eqn:E1; [|done]. destruct (upsert_policy_in_tx _ _ _) as [d2|] eqn:E2; [|done].
  destruct (upsert_guardrail_policy_in_tx _ _ _) as [d3|] eqn:E3; [|done]. destruct (replace_key_service_links_in_tx _ _ _) as [d4|] eqn:E4; [|done].
  cbn. rewrite (replace_key_links_keys _ _ _ _ E4), (upsert_guardrails_keys _ _ _ _ E3), (upsert_policy_keys _ _ _ _ E2).
  unfold insert_key in E1. destruct (_ || _) eqn:Hn in E1; [done|]. destruct (negb (project_known _ _)); [done|]. injection E1 as <-. cbn.
  apply orb_false_iff in Hn as [[_ Hi]%orb_false_iff _]. rewrite lookup_insert_ne; [done|]. intros ->. by rewrite Hr in Hi.
Qed.
Lemma patch_key_keys dbnow id p d i r : api_keys d !! i = Some r → revoked r = true →
  api_keys (patch_admin_key has_control collate dbnow id p d).1 !! i = Some r.
Proof.
  intros Hr Hv. unfold patch_admin_key. destruct (patch_checks _ _ _ _ _) as [[[[name policy] guardrails]|]|]; [|done..].
  destruct (api_keys d !! id) as [x|] eqn:Hx; [|done]. destruct (revoked x) eqn:Hxr; [done|]. unfold in_tx.
  destruct (update_key _ _ _ _) as [d1|] eqn:E1; [|done]. destruct (if_some policy _ d1) as [d2|] eqn:E2; [|done].
  destruct (if_some guardrails _ d2) as [d3|] eqn:E3; [|done]. destruct (if_some (ak_service_names p) _ d3) as [d4|] eqn:E4; [|done]. cbn.
  rewrite (if_some_keys _ _ _ _ (replace_key_links_keys id) E4), (if_some_keys _ _ _ _ (upsert_guardrails_keys id) E3),
    (if_some_keys _ _ _ _ (upsert_policy_keys id) E2).
  unfold update_key in E1. destruct (profile_conflict _ _ _ _); [done|]. destruct (negb _) in E1; [done|]. destruct (negb _) in E1; [done|].
  injection E1 as <-. cbn. rewrite lookup_insert_ne; [done|]. intros ->. congruence.
Qed.
Lemma live_key_keys id f d i r : api_keys d !! i = Some r → revoked r = true → api_keys (update_live_key id f d) !! i = Some r.
Proof.
  intros Hr Hv. unfold update_live_key. destruct (api_keys d !! id) as [x|] eqn:Hx; [|done]. destruct (revoked x) eqn:Hxr; [done|].
  cbn. rewrite lookup_insert_ne; [done|]. intros ->. congruence.
Qed.
Lemma lookup_keys dbnow prefix d i r : api_keys d !! i = Some r → revoked r = true → api_keys (find_by_prefix days_before dbnow prefix d).1 !! i = Some r.
Proof.
  intros Hr Hv. unfold find_by_prefix. destruct (find_key prefix d) as [[id x]|] eqn:Hf; [|done]. destruct (_ && _) eqn:Hc; [|done].
  apply find_key_Some in Hf as [Hx _]. apply andb_true_iff in Hc as [[_ Hc%negb_true_iff]%andb_true_iff _]. cbn.
  rewrite lookup_insert_ne; [done|]. intros ->. congruence.
Qed.
Lemma patch_project_keys dbnow id p d : api_keys (patch_project collate dbnow id p d).1 = api_keys d.
Proof.
  unfold patch_project. destruct (project_patch_validate p); [|done]. destruct (projects d !! id) as [r|]; [|done].
  assert (∀ d1, api_keys (match pp_service_names p with None => (d1, get_project collate id d1)
      | Some names => in_tx d1 (replace_project_service_links id names d1) (get_project collate id) end).1 = api_keys d1) as Hlinks.
  { intros d1. destruct (pp_service_names p) as [names|]; [|done]. unfold in_tx, replace_project_service_links. by destruct (link_services _ _ _ _). }
  destruct (pp_name p) as [name|]; [destruct (name_taken _ _ _); [done|]|]; (etrans; [apply Hlinks|done]).
Qed.
Lemma revoked_kept op d i r : api_keys d !! i = Some r → revoked r = true → api_keys (keys_after d op) !! i = Some r.
Proof.
  intros Hr Hv. destruct op; cbn [keys_after]; auto using create_key_keys, patch_key_keys, live_key_keys, lookup_keys.
  - unfold create_project. destruct (project_create_validate q); [|done]. by destruct (_ || _).
  - by rewrite patch_project_keys.
  - unfold delete_project. by destruct (_ || _).
  - by apply live_key_keys.
  - by apply live_key_keys.
  - by apply live_key_keys.
  - by apply live_key_keys.
  - unfold upsert_guardrail_policy_for_key, in_tx. destruct (upsert_guardrail_policy_in_tx key_id p d) eqn:E; [|done]. cbn.
    by rewrite (upsert_guardrails_keys _ _ _ _ E).
  - unfold upsert_policy_layer. destruct (normalize_policy_layer_scope _ _); [|done].
    destruct (find_layer _ _ _) as [[]|]; destruct (apply_policy_patch _ _); try done; destruct (guardrail_policy_patch_apply _ _); try done;
      by destruct (validate_guardrail_policy_catalog _ _).
  - unfold register_service. by destruct (project_known _ d).
Qed.
Lemma revoked_after ops d i r : api_keys d !! i = Some r → revoked r = true → api_keys (after ops d) !! i = Some r.
Proof. revert d. induction ops as [|op ops IH]; intros d Hr Hv; [done|]. apply IH; [by apply revoked_kept|done]. Qed.
Lemma find_key_of d id r : keys_wf d → api_keys d !! id = Some r → find_key (kr_key_prefix r) d = Some (id, r).
Proof.
  intros Hw Hr. destruct (find_key _ d) as [[j x]|] eqn:Hf.
  - apply find_key_Some in Hf as [Hx E]. pose proof (prefixes_unique _ Hw _ _ _ _ Hx Hr E) as ->. congruence.
  - exfalso. assert (In (id, r) (map_to_list (api_keys d))) as Hi by by apply list_elem_of_In, elem_of_map_to_list.
    apply (find_none _ _ Hf) in Hi. cbn in Hi. by rewrite String.eqb_refl in Hi.
Qed.
End histories.

(** ** Properties *)

(** C32: in tables that only these calls wrote, whatever their order, every key
    and policy can be read: names, roles, routes and hours are valid, prefixes
    and names are unique, keys, links and services refer to projects, keys and
    services that exist; so that listing the keys and layers and loading the
    policy of a key never fail on what is stored. *)
Theorem key_tables_wf has_control collate days_before ops :
  let d := foldl (keys_after has_control collate days_before) empty_keys ops in
  keys_wf d ∧ is_ok (list_admin_keys collate d) = true ∧ is_ok (list_policy_layers collate d) = true ∧
  ∀ id k, api_keys d !! id = Some k → is_ok (stored_policy_for_key id d) = true ∧ is_ok (key_policy collate id k d) = true.
Proof.
  intros d. assert (keys_wf d) as Hw by apply keys_history_wf, empty_keys_wf. split; [done|]. split; [|split].
  - apply try_map_total. intros [id r] Hin. rewrite sort_by_perm in Hin. apply elem_of_map_to_list in Hin.
    destruct (keys_ok _ Hw _ _ Hin) as [Ho%owner_parses _]. unfold admin_key_response_from_row. by destruct (parse_key_owner_type _).
  - apply try_map_total. intros [id r] Hin. rewrite sort_by_perm in Hin. apply elem_of_map_to_list in Hin.
    destruct (layers_ok _ Hw _ _ Hin) as [Hk _]. unfold policy_layer_response_from_row. by destruct (parse_policy_layer_kind _).
  - intros id k Hk. split; [|by destruct (key_policy_loads collate id k d Hw) as (p & -> & _)].
    unfold stored_policy_for_key. rewrite Hk. destruct (stored_row_ok id d Hw) as (Hr & Hp & _). unfold policy_of_row.
    destruct (parse_routes _); [|done]. by destruct (parse_providers _).
Qed.

(** C9: a request that the policy loaded for a key admits is admitted by the
    key's own policy, with the services it may reach, and by every stored layer
    that is global or whose scope is the request's project (the context's, or
    else the key's), team, route or model, and stays within the daily caps on
    requests and tokens of each of them; whatever was called before. Stored
    layers of kind [key] are not among them: the code never selects them. *)
Theorem loaded_policy_binding has_control collate day_start days_before ops dbnow key_id context team route model eff project r p
    (d := foldl (keys_after has_control collate days_before) empty_keys ops)
    (Hl : load_policy_context collate day_start dbnow key_id context team route model d = Ok (Some (eff, project)))
    (Ha : admits (eff_policy eff) r)
    (Hp : governs collate d key_id context team route model p) :
  admits p r ∧ within_caps day_start dbnow key_id d p.
Proof.
  assert (keys_wf d) as Hw by apply keys_history_wf, empty_keys_wf.
  destruct (loaded_layers _ _ _ _ _ _ _ _ _ _ _ Hw Hl) as (layers & resolved & Hne & Hh & Hr & Hc & Hin & _).
  destruct (Hin p Hp) as (l & Hli & <-). by eapply layers_bind.
Qed.

(** C8: a revoked key stays as it was, whatever is called afterwards - patches,
    enabling, uses and lookups included - and the row its prefix finds is
    refused as revoked, at any time. *)
Theorem revoked_key_refused has_control collate days_before before afterwards id r at_time now dbnow
    (d := foldl (keys_after has_control collate days_before) empty_keys before)
    (d' := foldl (keys_after has_control collate days_before) d afterwards)
    (Hr : api_keys d !! id = Some r)
    (Hv : kr_revoked_at r = Some at_time) :
  api_keys d' !! id = Some r ∧
  (find_by_prefix days_before dbnow (kr_key_prefix r) d').2 = Ok (Some (stored_key id r)) ∧
  validate_key_state (stored_key id r) now = Err RevokedVirtualKey.
Proof.
  assert (revoked r = true) as Hrv by (unfold revoked; by rewrite Hv).
  pose proof (revoked_after has_control collate days_before afterwards d id r Hr Hrv) as Hr'.
  assert (keys_wf d') as Hw by apply keys_history_wf, keys_history_wf, empty_keys_wf. split; [done|]. split.
  - unfold find_by_prefix. rewrite (find_key_of _ _ _ Hw Hr'), Hrv. by rewrite andb_false_r.
  - unfold validate_key_state. cbn. by rewrite Hv.
Qed.

(** a policy that was stored is read back as it was, with the next version;
    its routes and providers survive being stored as texts. *)
Theorem stored_policy_roundtrip id p d d' (Hu : upsert_policy_in_tx id p d = Ok d') :
  stored_policy_for_key id d' =
  Ok (with_version (match key_policies d !! id with Some r => pr_policy_version r + 1 | None => Z.max 1 (policy_version p) end) p).
Proof.
  unfold upsert_policy_in_tx in Hu. destruct (api_keys d !! id) as [k|] eqn:Hk; [|done]. cbn in Hu. unfold stored_policy_for_key.
  destruct (key_policies d !! id) as [r|]; [destruct (_ =? _); [done|]|]; injection Hu as <-; cbn; rewrite Hk, lookup_insert_eq; cbn [default];
    apply policy_of_written.
Qed.

(** ** Where the code falls short *)

(** Without a layer that applies, every key is held to the default policy: no
    streaming, no tools, and only the two OpenAI routes of LiteLLM, whatever its
    own policy allows. *)
Theorem no_layer_narrows_keys has_control collate day_start days_before ops dbnow key_id context team route model eff project r
    (d := foldl (keys_after has_control collate days_before) empty_keys ops)
    (Hn : ∀ id x, policy_layers d !! id = Some x → layer_applies project team (route_as_str <$> route) model x = false)
    (Hl : load_policy_context collate day_start dbnow key_id context team route model d = Ok (Some (eff, project)))
    (Ha : admits (eff_policy eff) r) :
  feat_stream (req_features r) = false ∧ feat_tools (req_features r) = false ∧ req_route r ∈ [ChatCompletions; Responses] ∧
  req_provider r = LiteLlm.
Proof.
  assert (keys_wf d) as Hw by apply keys_history_wf, empty_keys_wf.
  destruct (loaded_layers _ _ _ _ _ _ _ _ _ _ _ Hw Hl) as (layers & resolved & Hne & Hh & Hr & Hc & _ & Hf). destruct (Hf Hn) as [v Hin].
  destruct (layers_bind day_start d dbnow key_id eff r _ layers resolved Ha Hne Hh Hr Hc Hin) as [[He _] _].
  apply evaluate_policy_ok in He as (_ & Hroute & Hprov & _ & _ & Hs & Ht). cbn in *.
  split; [by destruct (feat_stream _); [specialize (Hs eq_refl)|]|]. split; [by destruct (feat_tools _); [specialize (Ht eq_refl)|]|].
  unfold allows_item in Hroute, Hprov. split; [by destruct Hroute|]. destruct Hprov as [|Hprov]; [done|]. set_solver.
Qed.
(** A layer of kind [key] is stored but never applies. *)
Theorem key_layers_never_apply project team route model r : ly_kind r = "key" → layer_applies project team route model r = false.
Proof. intros Hk. unfold layer_applies. by rewrite Hk. Qed.
(** Enabling a key that was disabled for disuse does not let it in: the next
    lookup disables it again. *)
Theorem enabled_unused_key_disabled has_control collate days_before before dbnow later now id r days
    (d := foldl (keys_after has_control collate days_before) empty_keys before)
    (Hr : api_keys d !! id = Some r) (Hv : kr_revoked_at r = None)
    (Hp : (key_policies d !! id) ≫= pr_unused_key_auto_disable_after_days = Some days)
    (Hu : default (kr_created_at r) (kr_last_used_at r) ≤ days_before later days) :
  ∃ k, (find_by_prefix days_before later (kr_key_prefix r) (enable_admin_key collate dbnow id d).1).2 = Ok (Some k) ∧
    validate_key_state k now = Err DisabledVirtualKey.
Proof.
  assert (revoked r = false) as Hrv by (unfold revoked; by rewrite Hv).
  assert (keys_wf (enable_admin_key collate dbnow id d).1) as Hw
    by (apply live_key_wf; [apply keys_history_wf, empty_keys_wf|done]).
  assert (api_keys (enable_admin_key collate dbnow id d).1 !! id = Some (key_state false None dbnow r)) as He.
  { cbn. unfold update_live_key. rewrite Hr, Hrv. apply lookup_insert_eq. }
  pose proof (find_key_of _ _ _ Hw He) as Hf. cbn [kr_key_prefix key_state] in Hf. unfold find_by_prefix. rewrite Hf.
  assert (key_policies (enable_admin_key collate dbnow id d).1 = key_policies d) as -> by (cbn; unfold update_live_key; by rewrite Hr, Hrv).
  unfold unused. rewrite Hp. cbn. apply Z.leb_le in Hu. rewrite Hu. eexists. split; [done|]. done.
Qed.

(** ** A history *)

Module KeySample.
Definition no_patch : KeyPolicyPatch :=
  {| kp_deny := None; kp_allowed_routes := None; kp_allowed_models := None; kp_allowed_providers := None; kp_allowed_services := None;
     kp_rpm_limit := None; kp_tpm_limit := None; kp_daily_budget_usd := None; kp_monthly_budget_usd := None; kp_allow_streaming := Some true;
     kp_allow_tools := None; kp_max_requests_per_day := None; kp_max_tokens_per_day := None; kp_max_cost_per_request := None;
     kp_max_input_tokens_per_request := None; kp_max_output_tokens_per_request := None; kp_allowed_hours_utc := None;
     kp_unused_key_auto_disable_after_days := None; kp_max_request_body_bytes := None; kp_max_response_body_bytes := None;
     kp_max_stream_duration_seconds := None; kp_max_sse_event_bytes := None; kp_max_tool_call_count := None; kp_max_tool_schema_bytes := None |}.
Definition new_key : AdminKeyCreate :=
  {| kc_name := Some "worker"; kc_owner_type := OwnerProject; kc_project_id := Some "p-1"; kc_service_names := [];
     kc_preset := Some TemporaryDebugging; kc_expires_at := None; kc_rotation_due_at := None; kc_policy := no_patch;
     kc_guardrail_policy := GuardrailPolicy_default |}.
Definition key : VirtualKeyMaterial := {| vk_raw_key := "rk_live_01234567890"; vk_key_prefix := "rk_live_01234567"; vk_key_hash := "hash" |}.
Definition days (now n : Z) : Z := now - n * 86400.
Definition with_key : list KeyOp := [CreateProject "p-1" 1 {| pc_name := "payments" |}; CreateKey "k-1" 2 new_key key].
Definition global_layer : KeyOp :=
  PutLayer "l-1" {| lu_kind := LayerGlobal; lu_scope_id := None; lu_policy := no_patch;
                    lu_guardrail_policy := {| patch_mandatory := None; patch_optional := None; patch_forbidden := None; patch_overrides := None |} |}.
Definition db (ops : list KeyOp) : KeysDb := foldl (keys_after (λ _, false) String.compare days) empty_keys ops.
Definition loaded (ops : list KeyOp) : option EffectivePolicy :=
  match load_policy_context String.compare (λ now, now) 10 "k-1" None None (Some ChatCompletions) None (db ops) with
  | Ok (Some (eff, _)) => Some eff
  | _ => None
  end.
Definition request (stream : bool) : Request :=
  {| req_route := ChatCompletions; req_provider := LiteLlm;
     req_features := {| feat_model := Some "gpt-4o"; feat_stream := stream; feat_tools := false; feat_service_name := None |};
     req_now := 0; req_body_bytes := Some 10; req_response_bytes := None; req_input_tokens := None; req_output_tokens := None; req_cost := None |}.
Definition admitted (ops : list KeyOp) (stream : bool) : bool :=
  is_some_and (λ eff, let r := request stream in
    is_ok (evaluate_policy (eff_policy eff) (req_route r) (req_provider r) (req_features r))) (loaded ops).

(** A key that may stream streams with a neutral global layer, and not without
    any layer. *)
Example streams_with_layer : admitted (with_key ++ [global_layer]) true = true.
Proof. by vm_compute. Qed.
Example without_layer_no_stream : admitted with_key true = false ∧ admitted with_key false = true.
Proof. by vm_compute. Qed.
(** Disabled after a week without use, enabled, and disabled by the next lookup. *)
Example enabled_in_vain :
  match find_by_prefix days 700000 "rk_live_01234567" (db (with_key ++ [LookupKey 650000 "rk_live_01234567"; EnableKey 660000 "k-1"])) with
  | (_, Ok (Some k)) => disabled k = true
  | _ => False
  end.
Proof. by vm_compute. Qed.
Definition eff : EffectivePolicy :=
  default {| eff_policy := KeyPolicy_default; eff_guardrail_policy := GuardrailPolicy_default; applied_layers := [] |}
    (loaded (with_key ++ [global_layer])).
Definition own_policy : KeyPolicy :=
  match api_keys (db (with_key ++ [global_layer])) !! "k-1" with
  | Some k => match key_policy String.compare "k-1" k (db (with_key ++ [global_layer])) with Ok p => p | Err _ => KeyPolicy_default end
  | None => KeyPolicy_default
  end.
Lemma loads : load_policy_context String.compare (λ now, now) 10 "k-1" None None (Some ChatCompletions) None (db (with_key ++ [global_layer]))
  = Ok (Some (eff, Some "p-1")).
Proof. vm_compute. reflexivity. Qed.
Lemma admits_stream : admits (eff_policy eff) (request true).
Proof. split; vm_compute; reflexivity. Qed.
Definition layer_policy : KeyPolicy :=
  match policy_layers (db (with_key ++ [global_layer])) !! "l-1" with Some r => ly_policy r | None => KeyPolicy_default end.
Lemma layer_governs : governs String.compare (db (with_key ++ [global_layer])) "k-1" None None (Some ChatCompletions) None layer_policy.
Proof.
  destruct (api_keys (db (with_key ++ [global_layer])) !! "k-1") as [k|] eqn:Hk; [|vm_compute in Hk; discriminate Hk].
  destruct (policy_layers (db (with_key ++ [global_layer])) !! "l-1") as [r|] eqn:Hr; [|vm_compute in Hr; discriminate Hr].
  exists k. split; [done|]. right. exists "l-1", r. split; [done|]. split; [|unfold layer_policy; by rewrite Hr].
  vm_compute in Hr. injection Hr as <-. apply AddressedAll.
Qed.
Lemma own_governs : governs String.compare (db (with_key ++ [global_layer])) "k-1" None None (Some ChatCompletions) None own_policy.
Proof. eexists. split; [vm_compute; reflexivity|]. left. vm_compute. reflexivity. Qed.
Definition revoked_row : KeyRow := default
  {| kr_owner_type := ""; kr_project_id := None; kr_key_prefix := ""; kr_key_hash := ""; kr_name := None; kr_disabled := false;
     kr_revoked_at := None; kr_expires_at := None; kr_rotation_due_at := None; kr_last_used_at := None; kr_created_at := 0; kr_updated_at := 0 |}
  (api_keys (db (with_key ++ [RevokeKey 5 "k-1"])) !! "k-1").
End KeySample.

Lemma loaded_policy_binding_witness :
  admits (eff_policy KeySample.eff) (KeySample.request true) ∧ admits KeySample.own_policy (KeySample.request true) ∧
  admits KeySample.layer_policy (KeySample.request true).
Proof.
  split; [apply KeySample.admits_stream|].
  pose (use p := loaded_policy_binding (λ _, false) String.compare (λ now, now) KeySample.days (KeySample.with_key ++ [KeySample.global_layer])
    10 "k-1" None None (Some ChatCompletions) None _ _ _ p KeySample.loads KeySample.admits_stream).
  split; [exact (proj1 (use _ KeySample.own_governs))|exact (proj1 (use _ KeySample.layer_governs))].
Defined.
Lemma revoked_key_refused_witness :
  kr_revoked_at KeySample.revoked_row = Some 5 ∧
  (find_by_prefix KeySample.days 9 "rk_live_01234567"
     (foldl (keys_after (λ _, false) String.compare KeySample.days) (KeySample.db (KeySample.with_key ++ [RevokeKey 5 "k-1"])) [EnableKey 6 "k-1"])).2
  = Ok (Some (stored_key "k-1" KeySample.revoked_row)).
Proof.
  split; [vm_compute; reflexivity|].
  refine (proj1 (proj2 (revoked_key_refused (λ _, false) String.compare KeySample.days (KeySample.with_key ++ [RevokeKey 5 "k-1"])
    [EnableKey 6 "k-1"] "k-1" KeySample.revoked_row 5 0 9 _ _))); vm_compute; reflexivity.
Defined.
Lemma no_layer_narrows_keys_witness : feat_stream (req_features (KeySample.request false)) = false.
Proof.
  refine (proj1 (no_layer_narrows_keys (λ _, false) String.compare (λ now, now) KeySample.days KeySample.with_key 10 "k-1" None None
    (Some ChatCompletions) None
    (default {| eff_policy := KeyPolicy_default; eff_guardrail_policy := GuardrailPolicy_default; applied_layers := [] |}
      (KeySample.loaded KeySample.with_key)) (Some "p-1") (KeySample.request false) _ _ _)).
  - intros id x Hx. vm_compute in Hx. done.
  - vm_compute. reflexivity.
  - split; vm_compute; reflexivity.
Defined.
