(* ===== verification/OperatorStore.v ===== *)
(** * Operator tokens in the database

    Models [OperatorTokenStore] of [crates/gateway-store/src/postgres.rs] over
    the table of operator tokens with its unique indexes.  A call reads,
    verifies and writes in separate statements: each takes the table as it
    finds it, so that the steps of concurrent calls may fall in any order.
    Password hashing is a parameter, as is how the pools treat a call. *)

From S2P Require Import Prelude Errors AuthAdmission VerificationCache VerificationFlight Auth Access.

Record OperatorTokenMaterial := { om_raw_token : string; om_token_prefix : string; om_token_hash : string }.
Record TokenRow := {
  tr_token_prefix : string;
  tr_token_hash : string;
  tr_roles : list string;
  tr_scopes : list string;
  tr_disabled : bool;
  tr_revoked_at : option Z;
  tr_last_used_at : option Z;
  tr_created_at : Z;
  tr_updated_at : Z
}.
Abbreviation TokenDb := (gmap string TokenRow).
#[global] Instance StoredOperatorToken_eq_dec : EqDecision StoredOperatorToken.
Proof. solve_decision. Defined.

Definition stored_operator_token_from_row (id : string) (r : TokenRow) : StoredOperatorToken :=
  {| ot_id := id; ot_token_prefix := tr_token_prefix r; ot_token_hash := tr_token_hash r; ot_roles := tr_roles r; ot_scopes := tr_scopes r;
     ot_disabled := tr_disabled r; ot_revoked_at := tr_revoked_at r |}.
Record OperatorTokenResponse := { ox_id : string; ox_row : TokenRow }.
Definition active (r : TokenRow) : bool := negb (tr_disabled r) && is_none (tr_revoked_at r).
Definition has_active_operator_token (d : TokenDb) : bool := existsb (λ kr, active kr.2) (map_to_list d).
Definition find_token (prefix : string) (d : TokenDb) : option (string * TokenRow) :=
  List.find (λ kr, String.eqb (tr_token_prefix kr.2) prefix) (map_to_list d).
Definition stored_operator_token_by_prefix (prefix : string) (d : TokenDb) : option StoredOperatorToken :=
  (λ kr, stored_operator_token_from_row kr.1 kr.2) <$> find_token prefix d.

(** The unique indexes an insert of an active token can violate, in the order
    in which they are checked. *)
Inductive TokenConflict : Type := IdTaken | PrefixTaken | OneActive.
Definition insert_token (id : string) (r : TokenRow) (d : TokenDb) : TokenConflict + TokenDb :=
  if is_some (d !! id) then inl IdTaken
  else if is_some (find_token (tr_token_prefix r) d) then inl PrefixTaken
  else if has_active_operator_token d then inl OneActive
  else inr (<[id := r]> d).
Definition new_token (m : OperatorTokenMaterial) (roles scopes : list string) (dbnow : Z) : TokenRow :=
  {| tr_token_prefix := om_token_prefix m; tr_token_hash := om_token_hash m; tr_roles := roles; tr_scopes := scopes; tr_disabled := false;
     tr_revoked_at := None; tr_last_used_at := None; tr_created_at := dbnow; tr_updated_at := dbnow |}.
(** [saw_active]: what the statement's own check found, before a concurrent one
    committed; [d']: the table when the collision is looked into. *)
Definition bootstrap_operator_token (saw_active : bool) (new_id : string) (dbnow : Z) (m : OperatorTokenMaterial) (d' d : TokenDb) :
    TokenDb * GatewayResult (option OperatorTokenResponse) :=
  if saw_active then (d, Ok None)
  else
    let r := new_token m ["owner"] ["*"] dbnow in
    match insert_token new_id r d with
    | inr t => (t, Ok (Some {| ox_id := new_id; ox_row := r |}))
    | inl OneActive => (d, Ok None)
    | inl PrefixTaken => (d, if has_active_operator_token d' then Ok None else Err StoreUnavailable)
    | inl IdTaken => (d, Err StoreUnavailable)
    end.

Section tokens.
Variable Hash : Type.
Variable parse_hash : string → option Hash.
Variable verify_password : string → Hash → bool.
Abbreviation verify_stored := (verify_stored_operator_token Hash parse_hash verify_password).

(** A token that verifies and is still stored as it was read: [d1] and [d2] are
    the table at the two reads. *)
Definition verified_token (slot : bool) (e : entered) (w : waited) (panicked : bool) (raw : string) (d1 d2 : TokenDb) :
    GatewayResult (StoredOperatorToken * OperatorAuthorization) :=
  let? prefix := operator_token_prefix raw in
  if negb slot then Err AuthenticationOverloaded
  else
    let? stored := ok_or (stored_operator_token_by_prefix prefix d1) InvalidOperatorToken in
    let? authorization := verify_stored e w panicked raw stored in
    if bool_decide (stored_operator_token_by_prefix prefix d2 = Some stored) then Ok (stored, authorization) else Err InvalidOperatorToken.
Definition touched (now dbnow : Z) (r : TokenRow) : TokenRow :=
  {| tr_token_prefix := tr_token_prefix r; tr_token_hash := tr_token_hash r; tr_roles := tr_roles r; tr_scopes := tr_scopes r;
     tr_disabled := tr_disabled r; tr_revoked_at := tr_revoked_at r; tr_last_used_at := Some now; tr_created_at := tr_created_at r;
     tr_updated_at := dbnow |}.
Definition verify_operator_token (slot : bool) (e : entered) (w : waited) (panicked : bool) (raw : string) (now dbnow : Z) (d1 d2 d : TokenDb) :
    TokenDb * GatewayResult OperatorAuthorization :=
  match verified_token slot e w panicked raw d1 d2 with
  | Err er => (d, Err er)
  | Ok (stored, authorization) => (alter (touched now dbnow) (ot_id stored) d, Ok authorization)
  end.
Definition retired (now dbnow : Z) (r : TokenRow) : TokenRow :=
  {| tr_token_prefix := tr_token_prefix r; tr_token_hash := tr_token_hash r; tr_roles := tr_roles r; tr_scopes := tr_scopes r;
     tr_disabled := true; tr_revoked_at := Some now; tr_last_used_at := tr_last_used_at r; tr_created_at := tr_created_at r;
     tr_updated_at := dbnow |}.
Definition rotate_operator_token (slot : bool) (e : entered) (w : waited) (panicked : bool) (raw : string) (m : OperatorTokenMaterial)
    (new_id : string) (now dbnow : Z) (d1 d2 d : TokenDb) : TokenDb * GatewayResult OperatorTokenResponse :=
  match verified_token slot e w panicked raw d1 d2 with
  | Err er => (d, Err er)
  | Ok (stored, _) =>
      let r := new_token m (ot_roles stored) (ot_scopes stored) dbnow in
      match insert_token new_id r (alter (retired now dbnow) (ot_id stored) d) with
      | inr t => (t, Ok {| ox_id := new_id; ox_row := r |})
      | inl _ => (d, Err StoreUnavailable)
      end
  end.

(** ** The table over time *)

Inductive TokenOp : Type :=
| Bootstrap (saw_active : bool) (new_id : string) (dbnow : Z) (m : OperatorTokenMaterial) (d' : TokenDb)
| Verify (slot : bool) (e : entered) (w : waited) (panicked : bool) (raw : string) (now dbnow : Z) (d1 d2 : TokenDb)
| Rotate (slot : bool) (e : entered) (w : waited) (panicked : bool) (raw : string) (m : OperatorTokenMaterial) (new_id : string)
    (now dbnow : Z) (d1 d2 : TokenDb).
Definition tokens_after (d : TokenDb) (op : TokenOp) : TokenDb :=
  match op with
  | Bootstrap saw id dbnow m d' => (bootstrap_operator_token saw id dbnow m d' d).1
  | Verify slot e w panicked raw now dbnow d1 d2 => (verify_operator_token slot e w panicked raw now dbnow d1 d2 d).1
  | Rotate slot e w panicked raw m id now dbnow d1 d2 => (rotate_operator_token slot e w panicked raw m id now dbnow d1 d2 d).1
  end.

Record tokens_wf (d : TokenDb) : Prop := {
  one_active i j r s : d !! i = Some r → d !! j = Some s → active r = true → active s = true → i = j;
  token_prefixes i j r s : d !! i = Some r → d !! j = Some s → tr_token_prefix r = tr_token_prefix s → i = j
}.
Lemma find_token_Some prefix d id r : find_token prefix d = Some (id, r) → d !! id = Some r ∧ tr_token_prefix r = prefix.
Proof. intros Hf. apply find_some in Hf as [Hi E%String.eqb_eq]. split; [by apply elem_of_map_to_list, list_elem_of_In|done]. Qed.
Lemma find_token_None prefix d id r : find_token prefix d = None → d !! id = Some r → tr_token_prefix r ≠ prefix.
Proof.
  intros Hf Hr <-. assert (In (id, r) (map_to_list d)) as Hi by by apply list_elem_of_In, elem_of_map_to_list.
  apply (find_none _ _ Hf) in Hi. cbn in Hi. by rewrite String.eqb_refl in Hi.
Qed.
Lemma no_active d id r : has_active_operator_token d = false → d !! id = Some r → active r = false.
Proof.
  intros Hn Hr. apply not_true_iff_false. intros Ha. apply not_true_iff_false in Hn. apply Hn, existsb_exists. exists (id, r).
  split; [by apply list_elem_of_In, elem_of_map_to_list|done].
Qed.
Lemma insert_token_wf id r d t : tokens_wf d → insert_token id r d = inr t → tokens_wf t ∧ t = <[id := r]> d ∧ d !! id = None ∧
  (∀ j s, d !! j = Some s → active s = false).
Proof.
  intros [O P]. unfold insert_token. destruct (d !! id) eqn:Hi; [done|]. cbn. destruct (find_token _ d) eqn:Hf; [done|]. cbn.
  destruct (has_active_operator_token d) eqn:Ha; [done|]. intros [= <-]. split; [|split; [done|split; [done|]]].
  - split; intros i j x y Hx Hy; apply lookup_insert_Some in Hx as [[<- <-]|[? Hx]], Hy as [[<- <-]|[? Hy]]; try done.
    + intros _ Hb. by rewrite (no_active _ _ _ Ha Hy) in Hb.
    + intros Hb. by rewrite (no_active _ _ _ Ha Hx) in Hb.
    + by eapply O.
    + intros E. by destruct (find_token_None _ _ _ _ Hf Hy).
    + intros E. by destruct (find_token_None _ _ _ _ Hf Hx).
    + by eapply P.
  - intros j s Hs. by eapply no_active.
Qed.
(** Rows may be rewritten when no token becomes active or changes its prefix. *)
Lemma alter_token_wf f id (d : TokenDb) : tokens_wf d → (∀ r, tr_token_prefix (f r) = tr_token_prefix r ∧ (active (f r) = true → active r = true)) →
  tokens_wf (alter f id d).
Proof.
  intros [O P] Hf. assert (∀ i x, alter f id d !! i = Some x → ∃ y, d !! i = Some y ∧ tr_token_prefix x = tr_token_prefix y ∧
    (active x = true → active y = true)) as Hx.
  { intros i x Hi. destruct (decide (id = i)) as [<-|Hne].
    - rewrite lookup_alter_eq in Hi. destruct (d !! id) as [y|]; [|done]. injection Hi as <-. destruct (Hf y). eauto.
    - rewrite lookup_alter_ne in Hi by done. eauto. }
  split; intros i j x y (x' & Hi & E1 & A1)%Hx (y' & Hj & E2 & A2)%Hx.
  - intros Ha Hb. eapply O; eauto.
  - intros E. eapply P; [exact Hi|exact Hj|congruence].
Qed.
Lemma tokens_step_wf op d : tokens_wf d → tokens_wf (tokens_after d op).
Proof.
  intros Hw. destruct op; cbn [tokens_after].
  - unfold bootstrap_operator_token. destruct saw_active; [done|]. destruct (insert_token _ _ d) as [[]|t] eqn:E; try done.
    by apply insert_token_wf in E as [? _].
  - unfold verify_operator_token. destruct (verified_token _ _ _ _ _ _ _) as [[stored a]|]; [|done]. by apply alter_token_wf.
  - unfold rotate_operator_token. destruct (verified_token _ _ _ _ _ _ _) as [[stored a]|]; [|done].
    destruct (insert_token _ _ _) as [|t] eqn:E; [done|]. apply insert_token_wf in E as [? _]; [done|]. by apply alter_token_wf.
Qed.
Lemma tokens_history_wf ops d : tokens_wf d → tokens_wf (foldl tokens_after d ops).
Proof. revert d. induction ops as [|op ops IH]; intros d Hw; [done|]. apply IH. by apply tokens_step_wf. Qed.
Lemma empty_tokens_wf : tokens_wf ∅.
Proof. split; intros; simplify_map_eq. Qed.

(** *** Tokens stay, and do not become active again *)

Definition outlives (r r' : TokenRow) : Prop := tr_token_prefix r' = tr_token_prefix r ∧ (active r' = true → active r = true).
#[local] Instance outlives_preorder : PreOrder outlives.
Proof. split; [by intros r|]. intros r s t [E1 A1] [E2 A2]. split; [congruence|auto]. Qed.
Lemma alter_outlives f id (d : TokenDb) i r : (∀ x, outlives x (f x)) → d !! i = Some r → ∃ r', alter f id d !! i = Some r' ∧ outlives r r'.
Proof.
  intros Hf Hr. destruct (decide (id = i)) as [<-|Hne].
  - rewrite lookup_alter_eq, Hr. eexists. split; [done|apply Hf].
  - rewrite lookup_alter_ne by done. by exists r.
Qed.
Lemma insert_token_outlives id x d t i r : insert_token id x d = inr t → d !! i = Some r → t !! i = Some r.
Proof.
  unfold insert_token. destruct (d !! id) eqn:Hi; [done|]. cbn. destruct (find_token _ d); [done|]. cbn.
  destruct (has_active_operator_token d); [done|]. intros [= <-] Hr. rewrite lookup_insert_ne; [done|congruence].
Qed.
Lemma token_kept op (d : TokenDb) i r : d !! i = Some r → ∃ r', tokens_after d op !! i = Some r' ∧ outlives r r'.
Proof.
  intros Hr. assert (∃ r', d !! i = Some r' ∧ outlives r r') as Hsame by by exists r. destruct op; cbn [tokens_after].
  - unfold bootstrap_operator_token. destruct saw_active; [done|]. destruct (insert_token _ _ d) as [[]|t] eqn:E; try done.
    exists r. split; [by eapply insert_token_outlives|done].
  - unfold verify_operator_token. destruct (verified_token _ _ _ _ _ _ _) as [[stored a]|]; [|done]. by apply alter_outlives.
  - unfold rotate_operator_token. destruct (verified_token _ _ _ _ _ _ _) as [[stored a]|]; [|done].
    destruct (insert_token _ _ _) as [|t] eqn:E; [done|].
    destruct (alter_outlives (retired now dbnow) (ot_id stored) d i r) as (r' & Hr' & Ho); [by intros x|done|].
    exists r'. split; [by eapply insert_token_outlives|done].
Qed.
Lemma token_kept_after ops (d : TokenDb) i r : d !! i = Some r → ∃ r', foldl tokens_after d ops !! i = Some r' ∧ outlives r r'.
Proof.
  revert d r. induction ops as [|op ops IH]; intros d r Hr; [by exists r|]. destruct (token_kept op d i r Hr) as (r1 & H1 & O1).
  destruct (IH _ _ H1) as (r2 & H2 & O2). exists r2. split; [done|by etrans].
Qed.
Lemma stored_token_Some prefix d stored : stored_operator_token_by_prefix prefix d = Some stored →
  ∃ r, d !! ot_id stored = Some r ∧ tr_token_prefix r = prefix ∧ stored = stored_operator_token_from_row (ot_id stored) r.
Proof.
  unfold stored_operator_token_by_prefix. destruct (find_token prefix d) as [[id r]|] eqn:Hf; [|done]. intros [= <-].
  apply find_token_Some in Hf as [Hr Hp]. by exists r.
Qed.
(** A prefix whose row is not active verifies for nobody. *)
Lemma inactive_refused slot e w panicked raw prefix d1 d2 id r : tokens_wf d1 → operator_token_prefix raw = Ok prefix → d1 !! id = Some r →
  tr_token_prefix r = prefix → active r = false → is_ok (verified_token slot e w panicked raw d1 d2) = false.
Proof.
  intros Hw Hp Hr E Ha. unfold verified_token. rewrite Hp. destruct slot; [|done]. cbn.
  destruct (stored_operator_token_by_prefix prefix d1) as [stored|] eqn:Hs; [|done]. cbn.
  apply stored_token_Some in Hs as (r' & Hr' & E' & ->). cbn in *.
  pose proof (token_prefixes _ Hw _ _ _ _ Hr' Hr ltac:(congruence)) as Hid. rewrite Hid, Hr in Hr'. injection Hr' as <-.
  unfold verify_stored_operator_token. cbn. unfold active in Ha.
  destruct (tr_disabled r), (tr_revoked_at r); done.
Qed.
End tokens.

(** ** Properties *)

Section rotation.
Variable Hash : Type.
Variable parse_hash : string → option Hash.
Variable verify_password : string → Hash → bool.
Abbreviation after ops d := (foldl (tokens_after Hash parse_hash verify_password) d ops).

(** C12: when a token is rotated, however other calls run between its reads and
    its transaction, the new token is the only active one, it has the scopes of
    the old one, and the old one is refused from then on, whatever is called
    afterwards and however its verification is interleaved. *)
Theorem rotated_token_refused ops0 ops1 ops2 slot e w panicked raw m new_id now dbnow resp
    (d1 := after ops0 (∅ : TokenDb)) (d2 := after ops1 d1) (d := after ops2 d2)
    (d' := (rotate_operator_token Hash parse_hash verify_password slot e w panicked raw m new_id now dbnow d1 d2 d).1)
    (Hr : (rotate_operator_token Hash parse_hash verify_password slot e w panicked raw m new_id now dbnow d1 d2 d).2 = Ok resp) :
  (∀ id r, d' !! id = Some r → active r = true ↔ id = new_id) ∧
  (∃ prefix stored, operator_token_prefix raw = Ok prefix ∧ stored_operator_token_by_prefix prefix d1 = Some stored ∧
     d' !! new_id = Some (new_token m (ot_roles stored) (ot_scopes stored) dbnow)) ∧
  ∀ later slot' e' w' panicked' now' dbnow' d2' d3',
    is_ok (verify_operator_token Hash parse_hash verify_password slot' e' w' panicked' raw now' dbnow' (after later d') d2' d3').2 = false.
Proof.
  assert (tokens_wf d) as Hw by apply tokens_history_wf, tokens_history_wf, tokens_history_wf, empty_tokens_wf.
  subst d'. unfold rotate_operator_token in *. destruct (verified_token _ _ _ slot e w panicked raw d1 d2) as [[stored a]|] eqn:Hv; [|done].
  destruct (insert_token new_id _ _) as [|t] eqn:Hi; [done|]. cbn in Hr |- *. injection Hr as <-.
  assert (∃ prefix, operator_token_prefix raw = Ok prefix ∧ stored_operator_token_by_prefix prefix d1 = Some stored) as (prefix & Hp & Hs).
  { unfold verified_token in Hv. destruct (operator_token_prefix raw) as [prefix|]; [|done]. destruct slot; [|done]. cbn in Hv.
    destruct (stored_operator_token_by_prefix prefix d1) as [x|] eqn:Hx; [|done]. cbn in Hv. destruct (verify_stored_operator_token _ _ _ _ _ _ _ _); [|done].
    cbn in Hv. destruct (bool_decide _); [|done]. injection Hv as -> ->. by exists prefix. }
  apply stored_token_Some in Hs as Hs'. destruct Hs' as (r0 & Hr0 & Hpre & _).
  destruct (token_kept_after Hash parse_hash verify_password ops1 d1 _ _ Hr0) as (r1 & Hr1 & O1).
  destruct (token_kept_after Hash parse_hash verify_password ops2 d2 _ _ Hr1) as (r2 & Hr2 & O2). change (d !! ot_id stored = Some r2) in Hr2.
  apply insert_token_wf in Hi as (Hwt & -> & Hnone & Hin); [|by apply alter_token_wf].
  split; [|split].
  - intros id r [[<- <-]|[Hne Hx]]%lookup_insert_Some; [done|]. rewrite (Hin id r Hx). split; [done|congruence].
  - exists prefix, stored. split; [done|]. split; [done|apply lookup_insert_eq].
  - intros later slot' e' w' panicked' now' dbnow' d2' d3'. unfold verify_operator_token.
    assert (<[new_id := new_token m (ot_roles stored) (ot_scopes stored) dbnow]> (alter (retired now dbnow) (ot_id stored) d) !! ot_id stored
      = Some (retired now dbnow r2)) as Hret.
    { rewrite lookup_insert_ne; [by rewrite lookup_alter_eq, Hr2|]. intros ->. by rewrite lookup_alter_eq, Hr2 in Hnone. }
    destruct (token_kept_after Hash parse_hash verify_password later _ _ _ Hret) as (r3 & Hr3 & E3 & A3).
    assert (is_ok (verified_token Hash parse_hash verify_password slot' e' w' panicked' raw
      (after later (<[new_id := new_token m (ot_roles stored) (ot_scopes stored) dbnow]> (alter (retired now dbnow) (ot_id stored) d))) d2') = false) as Hno.
    { eapply inactive_refused; [by apply tokens_history_wf|exact Hp|exact Hr3|destruct O1, O2; cbn in E3; congruence|].
      apply not_true_iff_false. intros Ha. by apply A3 in Ha. }
    by destruct (verified_token _ _ _ slot' _ _ _ _ _ _) as [[]|].
Qed.
End rotation.

Module OperatorSample.
Definition first_token : string := "op_live_0123456789abcdef".
Definition material (raw : string) : OperatorTokenMaterial :=
  {| om_raw_token := raw; om_token_prefix := String.substring 0 (Z.to_nat LOOKUP_PREFIX_LEN) raw; om_token_hash := raw |}.
Definition bootstrapped : list TokenOp := [Bootstrap false "t-1" 0 (material first_token) ∅].
Definition db : TokenDb := foldl (tokens_after string Some String.eqb) ∅ bootstrapped.
Definition rotation : TokenDb * GatewayResult OperatorTokenResponse :=
  rotate_operator_token string Some String.eqb true Granted Woken false first_token (material "op_live_fedcba9876543210") "t-2" 5 5 db db db.
Example rotation_succeeds : is_ok rotation.2 = true.
Proof. by vm_compute. Qed.
End OperatorSample.
Lemma rotated_token_refused_witness :
  let d' := OperatorSample.rotation.1 in
  is_ok OperatorSample.rotation.2 = true ∧
  is_ok (verify_operator_token string Some String.eqb true Granted Woken false OperatorSample.first_token 6 6 d' d' d').2 = false.
Proof.
  split; [vm_compute; reflexivity|].
  exact (proj2 (proj2 (rotated_token_refused string Some String.eqb OperatorSample.bootstrapped [] [] true Granted Woken false
    OperatorSample.first_token (OperatorSample.material "op_live_fedcba9876543210") "t-2" 5 5 _ eq_refl)) [] true Granted Woken false 6 6 _ _).
Defined.
