(* ===== verification/ServiceStore.v ===== *)
(** * Services in the database

    Models [AdminServiceStore], [ServiceRegistryLookup], [ServiceRouteLookup]
    and the activation of service imports of
    [crates/gateway-store/src/postgres.rs], with the repricing of recorded
    usage, over the table of services: its keys, its checks, what it refers to
    and what refers to it, and the trigger that guards the revision of
    authentication profiles.  A call is one step; the statements of a
    transaction are kept or dropped together.  [now()] and the number of a new
    snapshot are arguments; a JSON column is the value written to it.  Costs of
    usage are [numeric(20,8)], integers of units of [10^-8]; their conversions,
    the collation and the parameters of the validators are parameters. *)

From S2P Require Import Prelude Errors Routing Json GuardrailPolicy SocketFrames StreamGuardrails Usage TrafficRequest TrafficMonitor UsageCsv AdminStore AdminUsage OwnerApi UsageStore EndpointAccess Foundry ServiceTypes ServicePricing.

#[global] Instance EndpointEntraPolicy_eq_dec : EqDecision EndpointEntraPolicy.
Proof. solve_decision. Defined.
#[global] Instance ProfileAuthentication_eq_dec : EqDecision ProfileAuthentication.
Proof. solve_decision. Defined.
#[global] Instance AuthenticationProfile_eq_dec : EqDecision AuthenticationProfile.
Proof. solve_decision. Defined.
#[global] Instance ProfileBinding_eq_dec : EqDecision ProfileBinding.
Proof. solve_decision. Defined.
#[global] Instance AuthenticationProfiles_eq_dec : EqDecision AuthenticationProfiles.
Proof. solve_decision. Defined.
#[global] Instance WebSocketSettings_eq_dec : EqDecision WebSocketSettings.
Proof. solve_decision. Defined.
#[global] Instance UserTokenForwarding_eq_dec : EqDecision UserTokenForwarding.
Proof. solve_decision. Defined.
#[global] Instance AccessaBinding_eq_dec : EqDecision AccessaBinding.
Proof. solve_decision. Defined.
#[global] Instance EndpointAccess_eq_dec : EqDecision EndpointAccess.
Proof. solve_decision. Defined.

(** ** Rows *)

(** A row of [service_registrations]: modes and states are texts. *)
Record ServiceRow := {
  sw_foundry : option FoundryBinding;
  sw_access : EndpointAccess;
  sw_name : string;
  sw_project_id : option string;
  sw_studio_service_id : option string;
  sw_route_pattern : string;
  sw_upstream_base_url : option string;
  sw_health_check_path : option string;
  sw_health_check_method : string;
  sw_enabled : bool;
  sw_allowed_methods : list string;
  sw_timeout_ms : Z;
  sw_max_body_bytes : Z;
  sw_cost_mode : string;
  sw_estimated_cost_usd : option f64;
  sw_pricing_rules : list ServicePricingRule;
  sw_openapi_source_path : option string;
  sw_openapi_schema_hash : option string;
  sw_openapi_synced_at : option Z;
  sw_openapi_endpoints : list ServiceOpenApiEndpoint;
  sw_endpoint_pricing_rules : list ServiceEndpointPricingRule;
  sw_credential_secret : option string;
  sw_fallback_services : list string;
  sw_source : string;
  sw_sync_status : string;
  sw_last_synced_at : option Z;
  sw_disabled_at : option Z;
  sw_created_at : Z;
  sw_updated_at : Z
}.

Definition service_cost_mode_str (m : ServiceCostMode) : string :=
  match m with CostFixed => "fixed" | CostPassthrough => "passthrough" | CostNone => "none" end.
Definition parse_service_cost_mode (value : string) : option ServiceCostMode :=
  if String.eqb value "fixed" then Some CostFixed
  else if String.eqb value "passthrough" then Some CostPassthrough
  else if String.eqb value "none" then Some CostNone else None.
Definition service_source_str (s : ServiceSource) : string := match s with SourceGateway => "gateway" | SourceStudio => "studio" end.
Definition parse_service_source (value : string) : option ServiceSource :=
  if String.eqb value "gateway" then Some SourceGateway else if String.eqb value "studio" then Some SourceStudio else None.
Definition service_sync_status_str (s : ServiceSyncStatus) : string :=
  match s with
  | SyncLocal => "local" | SyncSynced => "synced" | SyncIncomplete => "incomplete" | SyncStale => "stale" | SyncFailed => "failed"
  end.
Definition parse_service_sync_status (value : string) : option ServiceSyncStatus :=
  if String.eqb value "local" then Some SyncLocal
  else if String.eqb value "synced" then Some SyncSynced
  else if String.eqb value "incomplete" then Some SyncIncomplete
  else if String.eqb value "stale" then Some SyncStale
  else if String.eqb value "failed" then Some SyncFailed else None.
Definition service_sync_status_for_runtime (upstream_base_url credential : option string) (complete_status : ServiceSyncStatus) :
    ServiceSyncStatus :=
  if is_some_and (λ v, negb (is_empty v)) upstream_base_url && is_some_and (λ v, negb (is_empty v)) credential
  then complete_status else SyncIncomplete.

Definition service_registration_from_row (r : ServiceRow) : option ServiceRegistration :=
  mode ← parse_service_cost_mode (sw_cost_mode r);
  src ← parse_service_source (sw_source r);
  status ← parse_service_sync_status (sw_sync_status r);
  Some
    {| foundry := sw_foundry r; access := sw_access r; name := sw_name r; project_id := sw_project_id r;
       studio_service_id := sw_studio_service_id r; service_route_pattern := sw_route_pattern r;
       upstream_base_url := sw_upstream_base_url r; health_check_path := sw_health_check_path r;
       health_check_method := sw_health_check_method r; enabled := sw_enabled r; allowed_methods := sw_allowed_methods r;
       timeout_ms := sw_timeout_ms r; max_body_bytes := sw_max_body_bytes r; cost_mode := mode;
       estimated_cost_usd := sw_estimated_cost_usd r; pricing_rules := sw_pricing_rules r;
       openapi_source_path := sw_openapi_source_path r; openapi_schema_hash := sw_openapi_schema_hash r;
       openapi_synced_at := sw_openapi_synced_at r; openapi_endpoints := sw_openapi_endpoints r;
       endpoint_pricing_rules := sw_endpoint_pricing_rules r; credential_secret := sw_credential_secret r;
       fallback_services := sw_fallback_services r; source := src; sync_status := status; last_synced_at := sw_last_synced_at r;
       disabled_at := sw_disabled_at r; created_at := sw_created_at r; updated_at := sw_updated_at r |}.
(** The columns that hold a registration. *)
Definition service_row (s : ServiceRegistration) : ServiceRow :=
  {| sw_foundry := foundry s; sw_access := access s; sw_name := name s; sw_project_id := project_id s;
     sw_studio_service_id := studio_service_id s; sw_route_pattern := service_route_pattern s;
     sw_upstream_base_url := upstream_base_url s; sw_health_check_path := health_check_path s;
     sw_health_check_method := health_check_method s; sw_enabled := enabled s; sw_allowed_methods := allowed_methods s;
     sw_timeout_ms := timeout_ms s; sw_max_body_bytes := max_body_bytes s; sw_cost_mode := service_cost_mode_str (cost_mode s);
     sw_estimated_cost_usd := estimated_cost_usd s; sw_pricing_rules := pricing_rules s;
     sw_openapi_source_path := openapi_source_path s; sw_openapi_schema_hash := openapi_schema_hash s;
     sw_openapi_synced_at := openapi_synced_at s; sw_openapi_endpoints := openapi_endpoints s;
     sw_endpoint_pricing_rules := endpoint_pricing_rules s; sw_credential_secret := credential_secret s;
     sw_fallback_services := fallback_services s; sw_source := service_source_str (source s);
     sw_sync_status := service_sync_status_str (sync_status s); sw_last_synced_at := last_synced_at s; sw_disabled_at := disabled_at s;
     sw_created_at := created_at s; sw_updated_at := updated_at s |}.
Definition with_access (a : EndpointAccess) (r : ServiceRow) : ServiceRow :=
  {| sw_foundry := sw_foundry r; sw_access := a; sw_name := sw_name r; sw_project_id := sw_project_id r;
     sw_studio_service_id := sw_studio_service_id r; sw_route_pattern := sw_route_pattern r;
     sw_upstream_base_url := sw_upstream_base_url r; sw_health_check_path := sw_health_check_path r;
     sw_health_check_method := sw_health_check_method r; sw_enabled := sw_enabled r; sw_allowed_methods := sw_allowed_methods r;
     sw_timeout_ms := sw_timeout_ms r; sw_max_body_bytes := sw_max_body_bytes r; sw_cost_mode := sw_cost_mode r;
     sw_estimated_cost_usd := sw_estimated_cost_usd r; sw_pricing_rules := sw_pricing_rules r;
     sw_openapi_source_path := sw_openapi_source_path r; sw_openapi_schema_hash := sw_openapi_schema_hash r;
     sw_openapi_synced_at := sw_openapi_synced_at r; sw_openapi_endpoints := sw_openapi_endpoints r;
     sw_endpoint_pricing_rules := sw_endpoint_pricing_rules r; sw_credential_secret := sw_credential_secret r;
     sw_fallback_services := sw_fallback_services r; sw_source := sw_source r; sw_sync_status := sw_sync_status r;
     sw_last_synced_at := sw_last_synced_at r; sw_disabled_at := sw_disabled_at r; sw_created_at := sw_created_at r;
     sw_updated_at := sw_updated_at r |}.
Definition with_enabled (dbnow : Z) (e : bool) (r : ServiceRow) : ServiceRow :=
  {| sw_foundry := sw_foundry r; sw_access := sw_access r; sw_name := sw_name r; sw_project_id := sw_project_id r;
     sw_studio_service_id := sw_studio_service_id r; sw_route_pattern := sw_route_pattern r;
     sw_upstream_base_url := sw_upstream_base_url r; sw_health_check_path := sw_health_check_path r;
     sw_health_check_method := sw_health_check_method r; sw_enabled := e; sw_allowed_methods := sw_allowed_methods r;
     sw_timeout_ms := sw_timeout_ms r; sw_max_body_bytes := sw_max_body_bytes r; sw_cost_mode := sw_cost_mode r;
     sw_estimated_cost_usd := sw_estimated_cost_usd r; sw_pricing_rules := sw_pricing_rules r;
     sw_openapi_source_path := sw_openapi_source_path r; sw_openapi_schema_hash := sw_openapi_schema_hash r;
     sw_openapi_synced_at := sw_openapi_synced_at r; sw_openapi_endpoints := sw_openapi_endpoints r;
     sw_endpoint_pricing_rules := sw_endpoint_pricing_rules r; sw_credential_secret := sw_credential_secret r;
     sw_fallback_services := sw_fallback_services r; sw_source := sw_source r; sw_sync_status := sw_sync_status r;
     sw_last_synced_at := sw_last_synced_at r; sw_disabled_at := (if e then None else COALESCE (sw_disabled_at r) (Some dbnow));
     sw_created_at := sw_created_at r; sw_updated_at := dbnow |}.

(** ** Repricing recorded usage *)

Record TrafficRow := { tw_key_id : option string; tw_request_id : string; tw_service : option string; tw_record : Value }.
Record UsageTables := { ut_events : gmap string LedgerRow; ut_traffic : gmap string TrafficRow }.
Record UsageChange := {
  uh_id : string;
  uh_cost : option f64;
  uh_mode : string;
  uh_source : string;
  uh_rule_name : option string;
  uh_fingerprint : option string;
  uh_traffic_id : option string
}.
Definition REPRICE_PAGE : nat := 1000.
(** Equality of optional floats: no NaN is equal to anything. *)
Definition f64_same (a b : option f64) : bool :=
  match a, b with Some a, Some b => f64_leb a b && f64_leb b a | None, None => true | _, _ => false end.

Section repricing.
Variable value_to_string : Value → string.
Variable sha256_hex : string → string.
Variable method_parses : string → bool.
Variable numeric_to_f64 : Z → f64.
(** A price as it is stored, and the number JSON writes for a stored cost. *)
Variable f64_to_numeric : f64 → Z.
Variable numeric_number : Z → Number.
Variable uuid_parse : string → option string.
Variables before after : ServiceRegistration.

Definition new_cost_source (c : ResolvedServiceCost) : string :=
  match rc_cost_mode c with
  | CostNone => "none"
  | _ => if is_some (rc_rule_name c) then "service_pricing_rule_fixed" else "service_default_fixed"
  end.
Definition priced_already (r : LedgerRow) (c : ResolvedServiceCost) : bool :=
  f64_same (numeric_to_f64 <$> lr_estimated_cost r) (rc_estimated_cost_usd c)
  && bool_decide (lr_cost_mode r = Some (service_cost_mode_str (rc_cost_mode c)))
  && bool_decide (lr_cost_source r = Some (new_cost_source c))
  && bool_decide (lr_pricing_rule_name r = rc_rule_name c)
  && bool_decide (lr_pricing_rule_fingerprint r = rc_fingerprint c).
(** One recorded request: its change, if its price is another one now. *)
Definition reprice_row (row : string * LedgerRow) : option UsageChange :=
  let '(id, r) := row in
  let text key := value_get key (lr_diagnostics r) ≫= as_str in
  let resolved :=
    if is_some_and (λ m, str_mem m ["fixed"; "none"]) (lr_cost_mode r)
    then reprice_recorded_service_cost value_to_string sha256_hex method_parses before after (lr_cost_source r) (lr_pricing_rule_name r)
           (lr_http_method r) (lr_endpoint_path r) (lr_pricing_rule_fingerprint r)
    else None in
  match opt_filter (λ _, negb (bool_decide (text "routing_mode" = Some "litellm_passthrough"))) resolved with
  | None => None
  | Some c =>
      if priced_already r c then None
      else Some {| uh_id := id; uh_cost := rc_estimated_cost_usd c; uh_mode := service_cost_mode_str (rc_cost_mode c);
                   uh_source := new_cost_source c; uh_rule_name := rc_rule_name c; uh_fingerprint := rc_fingerprint c;
                   uh_traffic_id := text "traffic_id" ≫= uuid_parse |}
  end.

Definition changed_row (c : UsageChange) (r : LedgerRow) : LedgerRow :=
  priced_row (f64_to_numeric <$> uh_cost c) (uh_mode c) (uh_source c) (uh_rule_name c) (uh_fingerprint c) r.
(** The usage that a traffic record shows, with the new cost merged into it. *)
Definition shown_usage (c : UsageChange) (usage : JMap) : JMap :=
  map_insert "estimated_cost_usd" (from_option (λ z, JNumber (numeric_number z)) JNull (f64_to_numeric <$> uh_cost c))
    (map_insert "cost_source" (JString (uh_source c)) (map_insert "pricing_rule_name" (opt_json (uh_rule_name c)) usage)).
Definition changed_record (c : UsageChange) (record : Value) : Value :=
  match record, value_get "usage" record with
  | JObject m, Some (JObject usage) => JObject (map_insert "usage" (JObject (shown_usage c usage)) m)
  | _, _ => record
  end.
(** The traffic record of the request that the change is about. *)
Definition shows (c : UsageChange) (r : LedgerRow) (t : TrafficRow) : bool :=
  bool_decide (tw_key_id t = Some (lr_key_id r)) && String.eqb (tw_request_id t) (lr_request_id r)
  && bool_decide (tw_service t = Some (name after)).
(** The changes of a page are applied in order; where two events name the same
    traffic record, the statement leaves open which of the two it writes. *)
Definition apply_change (t : UsageTables) (c : UsageChange) : UsageTables :=
  {| ut_events := alter (changed_row c) (uh_id c) (ut_events t);
     ut_traffic :=
       match ut_events t !! uh_id c, uh_traffic_id c with
       | Some r, Some tid =>
           alter (λ w, if shows c r w
                       then {| tw_key_id := tw_key_id w; tw_request_id := tw_request_id w; tw_service := tw_service w;
                               tw_record := changed_record c (tw_record w) |}
                       else w) tid (ut_traffic t)
       | _, _ => ut_traffic t
       end |}.

Definition past (cursor : option string) (row : string * LedgerRow) : bool := is_none_or (λ c, key_ltb c row.1) cursor.
(** The requests of the service after the cursor, in the order of their identifiers. *)
Definition service_events (cursor : option string) (events : gmap string LedgerRow) : list (string * LedgerRow) :=
  sort_by (λ a b, String.compare a.1 b.1)
    (List.filter (λ row, bool_decide (lr_service_name row.2 = Some (name after)) && past cursor row) (map_to_list events)).
Definition counted (rows : list (string * LedgerRow)) (changes : list UsageChange) (s : HistoricalUsageRepricing) : HistoricalUsageRepricing :=
  {| updated_requests := updated_requests s + Z.of_nat (length changes);
     unchanged_requests := unchanged_requests s + Z.of_nat (length rows - length changes) |}.
Fixpoint reprice_pages (fuel : nat) (cursor : option string) (s : HistoricalUsageRepricing) (t : UsageTables) :
    option (HistoricalUsageRepricing * UsageTables) :=
  match fuel with
  | O => None
  | S fuel =>
      let rows := take REPRICE_PAGE (service_events cursor (ut_events t)) in
      if is_nil rows then Some (s, t)
      else
        let changes := omap reprice_row rows in
        reprice_pages fuel (fst <$> last rows) (counted rows changes s) (foldl apply_change t changes)
  end.
(** Every page has a row, so that the loop ends within the number of rows. *)
Definition reprice_service_usage_in_tx (t : UsageTables) : option (HistoricalUsageRepricing * UsageTables) :=
  reprice_pages (S (size (ut_events t))) None {| updated_requests := 0; unchanged_requests := 0 |} t.
End repricing.

(** ** The table *)

Record SnapshotRow := {
  sp_source : string;
  sp_diff : ServiceImportDiff;
  sp_services : list StudioServiceImportRequest;
  sp_activated_at : option Z;
  sp_rolled_back_from_version : option Z;
  sp_created_at : Z
}.
(** The services; the services that links, memberships and workload bindings
    name; of projects, keys and providers what the table refers to; usage; and
    the snapshots of imports. *)
Record ServicesDb := {
  sd_services : gmap string ServiceRow;
  sd_references : gset string;
  sd_projects : gset string;
  sd_keys : gmap string (option string);
  sd_providers : gmap string string;
  sd_usage : UsageTables;
  sd_snapshots : gmap Z SnapshotRow
}.
Definition set_services x (d : ServicesDb) : ServicesDb :=
  {| sd_services := x; sd_references := sd_references d; sd_projects := sd_projects d; sd_keys := sd_keys d;
     sd_providers := sd_providers d; sd_usage := sd_usage d; sd_snapshots := sd_snapshots d |}.
Definition set_usage x (d : ServicesDb) : ServicesDb :=
  {| sd_services := sd_services d; sd_references := sd_references d; sd_projects := sd_projects d; sd_keys := sd_keys d;
     sd_providers := sd_providers d; sd_usage := x; sd_snapshots := sd_snapshots d |}.
Definition set_snapshots x (d : ServicesDb) : ServicesDb :=
  {| sd_services := sd_services d; sd_references := sd_references d; sd_projects := sd_projects d; sd_keys := sd_keys d;
     sd_providers := sd_providers d; sd_usage := sd_usage d; sd_snapshots := x |}.

(** What refuses a statement. *)
Inductive SqlError : Type := RevisionConflict | InvalidBinding | CheckViolation | UniqueViolation | ForeignKeyViolation.
Definition profile_write_error (e : SqlError) : GatewayError :=
  match e with
  | RevisionConflict => AuthenticationProfileConflict
  | InvalidBinding => InvalidServicePayload
  | _ => StoreUnavailable
  end.
Definition service_write_error (e : SqlError) : GatewayError :=
  match e with
  | RevisionConflict | InvalidBinding => profile_write_error e
  | UniqueViolation => DuplicateService
  | ForeignKeyViolation => MissingProject
  | CheckViolation => StoreUnavailable
  end.
Definition import_write_error (e : SqlError) : GatewayError :=
  match e with UniqueViolation => DuplicateService | ForeignKeyViolation => MissingProject | _ => StoreUnavailable end.

Definition profiles_of (r : ServiceRow) : option AuthenticationProfiles := authentication_profiles (sw_access r).
(** [jsonb_set(access, '{authentication_profiles,revision}', ..)]. *)
Definition at_revision (n : Z) (a : EndpointAccess) : EndpointAccess :=
  {| authentication_profiles :=
       (λ ps, {| revision := n; profiles := profiles ps; bindings := bindings ps |}) <$> authentication_profiles a;
     skip_entra := skip_entra a; entra := entra a; accessa := accessa a; websocket := websocket a;
     user_token_forwarding := user_token_forwarding a |}.
Definition binding_ok (d : ServicesDb) (project : option string) (b : ProfileBinding) : result SqlError unit :=
  match sd_keys d !! bound_key b with
  | None => Err InvalidBinding
  | Some owner => if is_some project && negb (bool_decide (owner = project)) then Err InvalidBinding else Ok tt
  end.
(** The trigger before a row is inserted or updated. *)
Definition guard_authentication_profile_revision (d : ServicesDb) (old : option ServiceRow) (r : ServiceRow) : result SqlError ServiceRow :=
  let previous := old ≫= profiles_of in
  let expected := from_option revision 0 previous in
  match profiles_of r with
  | None => if is_some previous then Err RevisionConflict else Ok r
  | Some ps =>
      if negb (revision ps =? expected) then Err RevisionConflict
      else
        check? try_for_each (binding_ok d (sw_project_id r)) (bindings ps) in
        if is_some_and (λ o, bool_decide (sw_access o = sw_access r)) old then Ok r
        else Ok (with_access (at_revision (expected + 1) (sw_access r)) r)
  end.
(** The checks of the table; a length counts characters. *)
Definition char_count (s : string) : Z := Z.of_nat (length (char_starts 0 s)).
Definition checks_ok (r : ServiceRow) : bool :=
  service_name_ok (sw_name r)
  && is_some (parse_service_source (sw_source r)) && is_some (parse_service_sync_status (sw_sync_status r))
  && is_some (parse_service_cost_mode (sw_cost_mode r)) && (0 <? sw_timeout_ms r) && (0 <? sw_max_body_bytes r)
  && is_none_or (λ p, starts_with p "/" && negb (contains_str p "//")) (sw_health_check_path r)
  && str_mem (sw_health_check_method r) ["GET"; "HEAD"]
  && is_none_or (λ p, in_range 1 512 (char_count p) && starts_with p "/" && negb (starts_with p "//") && negb (contains_str p "//")
                      && negb (contains_byte "?" p) && negb (contains_byte "#" p) && negb (contains_byte "\" p)) (sw_openapi_source_path r).
Definition refers_ok (d : ServicesDb) (r : ServiceRow) : bool :=
  is_none_or (λ p, bool_decide (p ∈ sd_projects d)) (sw_project_id r)
  && is_none_or (λ b, is_some (sd_providers d !! provider_id b)) (sw_foundry r).
Definition studio_holder (d : ServicesDb) (id : string) : option (string * ServiceRow) :=
  List.find (λ kr, bool_decide (sw_studio_service_id kr.2 = Some id)) (map_to_list (sd_services d)).
Definition insert_service (r : ServiceRow) (d : ServicesDb) : result SqlError ServicesDb :=
  let? x := guard_authentication_profile_revision d None r in
  if negb (checks_ok x) then Err CheckViolation
  else if is_some (sd_services d !! sw_name x) || is_some (sw_studio_service_id x ≫= studio_holder d) then Err UniqueViolation
  else if negb (refers_ok d x) then Err ForeignKeyViolation
  else Ok (set_services (<[sw_name x := x]> (sd_services d)) d).
Definition update_service (old r : ServiceRow) (d : ServicesDb) : result SqlError ServicesDb :=
  let? x := guard_authentication_profile_revision d (Some old) r in
  let renamed := negb (String.eqb (sw_name x) (sw_name old)) in
  if negb (checks_ok x) then Err CheckViolation
  else if renamed && is_some (sd_services d !! sw_name x)
          || is_some_and (λ h, negb (String.eqb h.1 (sw_name old))) (sw_studio_service_id x ≫= studio_holder d)
  then Err UniqueViolation
  else if negb (refers_ok d x) || renamed && bool_decide (sw_name old ∈ sd_references d) then Err ForeignKeyViolation
  else Ok (set_services (<[sw_name x := x]> (delete (sw_name old) (sd_services d))) d).

Section store.
Variable url_parse : string → option Url.
Variable method_parses : string → bool.
Variable f64_to_string : f64 → string.
Variable has_control : string → bool.
Variable to_lowercase : string → string.
Variable header_name_ok : string → bool.
Variable collate : string → string → comparison.
Variable value_to_string : Value → string.
Variable sha256_hex : string → string.
Variable numeric_to_f64 : Z → f64.
Variable f64_to_numeric : f64 → Z.
Variable numeric_number : Z → Number.
Variable uuid_parse : string → option string.
Abbreviation access_validate := (endpoint_validate to_lowercase has_control header_name_ok).
Abbreviation reprice_usage := (reprice_service_usage_in_tx value_to_string sha256_hex method_parses numeric_to_f64 f64_to_numeric numeric_number uuid_parse).

(** ** Reads *)

Definition service_registration (n : string) (d : ServicesDb) : GatewayResult (option ServiceRegistration) :=
  check? validate_service_name n in
  match sd_services d !! n with
  | None => Ok None
  | Some r => let? s := ok_or (service_registration_from_row r) StoreUnavailable in Ok (Some s)
  end.
Definition get_service (n : string) (d : ServicesDb) : GatewayResult (option ServiceResponse) :=
  let? s := service_registration n d in Ok (to_response <$> s).
Definition list_services (d : ServicesDb) : GatewayResult (list ServiceResponse) :=
  let rows := sort_by (λ a b, collate a.1 b.1) (map_to_list (sd_services d)) in
  let? l := ok_or (mapM (λ kr, service_registration_from_row kr.2) rows) StoreUnavailable in Ok (map to_response l).
Record ServiceSyncStatusResponse := {
  yr_name : string;
  yr_source : ServiceSource;
  yr_sync_status : ServiceSyncStatus;
  yr_last_synced_at : option Z;
  yr_missing_runtime_fields : list string
}.
Definition sync_status_response (s : ServiceRegistration) : ServiceSyncStatusResponse :=
  {| yr_name := name s; yr_source := source s; yr_sync_status := sync_status s; yr_last_synced_at := last_synced_at s;
     yr_missing_runtime_fields := missing_runtime_fields s |}.
Definition service_sync_status (n : string) (d : ServicesDb) : GatewayResult (option ServiceSyncStatusResponse) :=
  let? s := service_registration n d in Ok (sync_status_response <$> s).

Definition route_pattern_matches (pattern path : string) : bool :=
  match strip_suffix "/*" pattern with
  | Some prefix => String.eqb path prefix || is_some_and (λ suffix, starts_with suffix "/") (strip_prefix prefix path)
  | None => String.eqb path pattern
  end.
Definition serves (method path : string) (s : ServiceRegistration) : bool :=
  route_pattern_matches (service_route_pattern s) path && existsb (λ allowed, eq_ignore_ascii_case allowed method) (allowed_methods s).
(** [ORDER BY length(route_pattern) DESC]; rows of the same length come in any
    order, here that of the map. *)
Definition by_route_length (a b : ServiceRow) : comparison := char_count (sw_route_pattern b) ?= char_count (sw_route_pattern a).
Definition service_registration_for_route (method path : string) (d : ServicesDb) : GatewayResult (option ServiceRegistration) :=
  let rows := sort_by by_route_length (map snd (map_to_list (sd_services d))) in
  let? services := ok_or (mapM service_registration_from_row rows) StoreUnavailable in
  Ok (List.find (serves method path) services).

(** ** Writes *)

Definition created_status (q : ServiceCreateRequest) : ServiceSyncStatus :=
  if is_some (cr_studio_service_id q) then service_sync_status_for_runtime (cr_upstream_base_url q) (cr_credential q) SyncSynced
  else SyncLocal.
Definition created_row (dbnow : Z) (q : ServiceCreateRequest) : ServiceRow :=
  {| sw_foundry := cr_foundry q; sw_access := cr_access q; sw_name := cr_name q; sw_project_id := cr_project_id q;
     sw_studio_service_id := cr_studio_service_id q; sw_route_pattern := route_or_default (cr_route_pattern q) (cr_name q);
     sw_upstream_base_url := cr_upstream_base_url q; sw_health_check_path := cr_health_check_path q;
     sw_health_check_method := cr_health_check_method q; sw_enabled := cr_enabled q; sw_allowed_methods := cr_allowed_methods q;
     sw_timeout_ms := cr_timeout_ms q; sw_max_body_bytes := cr_max_body_bytes q;
     sw_cost_mode := service_cost_mode_str (cr_cost_mode q); sw_estimated_cost_usd := cr_estimated_cost_usd q;
     sw_pricing_rules := cr_pricing_rules q; sw_openapi_source_path := cr_openapi_source_path q; sw_openapi_schema_hash := None;
     sw_openapi_synced_at := None; sw_openapi_endpoints := cr_openapi_endpoints q;
     sw_endpoint_pricing_rules := cr_endpoint_pricing_rules q; sw_credential_secret := cr_credential q;
     sw_fallback_services := cr_fallback_services q; sw_source := (if is_some (cr_studio_service_id q) then "studio" else "gateway");
     sw_sync_status := service_sync_status_str (created_status q);
     sw_last_synced_at := (if is_some (cr_studio_service_id q) then Some dbnow else None);
     sw_disabled_at := (if cr_enabled q then None else Some dbnow); sw_created_at := dbnow; sw_updated_at := dbnow |}.
Definition foundry_provider_ok (d : ServicesDb) (b : option FoundryBinding) : bool :=
  is_none_or (λ b, bool_decide (sd_providers d !! provider_id b = Some "azure-foundry")) b.
(** The answer is read back after the write. *)
Definition written (n : string) (d : ServicesDb) : GatewayResult ServiceResponse :=
  let? s := get_service n d in ok_or s StoreUnavailable.
Definition create_service (dbnow : Z) (q : ServiceCreateRequest) (d : ServicesDb) : ServicesDb * GatewayResult ServiceResponse :=
  match create_validate url_parse method_parses f64_to_string has_control to_lowercase header_name_ok q with
  | Err e => (d, Err e)
  | Ok _ =>
      if negb (foundry_provider_ok d (cr_foundry q)) then (d, Err InvalidFoundryConfiguration)
      else match insert_service (created_row dbnow q) d with
           | Err e => (d, Err (service_write_error e))
           | Ok d' => (d', written (cr_name q) d')
           end
  end.

Definition patched_source (p : ServicePatchRequest) (s : ServiceRegistration) : ServiceSource :=
  match pr_studio_service_id p with
  | Some id => if is_some id then SourceStudio else SourceGateway
  | None => source s
  end.
Definition patched_status (src : ServiceSource) (upstream credential : option string) (p : ServicePatchRequest) : ServiceSyncStatus :=
  default (match src with
           | SourceStudio => service_sync_status_for_runtime upstream credential SyncSynced
           | SourceGateway => SyncLocal
           end) (pr_sync_status p).
Definition patched_service (p : ServicePatchRequest) (s : ServiceRegistration) : ServiceRegistration :=
  let src := patched_source p s in
  let upstream := default (upstream_base_url s) (pr_upstream_base_url p) in
  let credential := default (credential_secret s) (pr_credential p) in
  {| foundry := default (foundry s) (pr_foundry p); access := default (access s) (pr_access p); name := name s;
     project_id := default (project_id s) (pr_project_id p);
     studio_service_id := default (studio_service_id s) (pr_studio_service_id p);
     service_route_pattern := default (service_route_pattern s) (pr_route_pattern p); upstream_base_url := upstream;
     health_check_path := default (health_check_path s) (pr_health_check_path p);
     health_check_method := default (health_check_method s) (pr_health_check_method p); enabled := default (enabled s) (pr_enabled p);
     allowed_methods := default (allowed_methods s) (pr_allowed_methods p); timeout_ms := default (timeout_ms s) (pr_timeout_ms p);
     max_body_bytes := default (max_body_bytes s) (pr_max_body_bytes p); cost_mode := default (cost_mode s) (pr_cost_mode p);
     estimated_cost_usd := default (estimated_cost_usd s) (pr_estimated_cost_usd p);
     pricing_rules := default (pricing_rules s) (pr_pricing_rules p);
     openapi_source_path := default (openapi_source_path s) (pr_openapi_source_path p);
     openapi_schema_hash := default (openapi_schema_hash s) (pr_openapi_schema_hash p);
     openapi_synced_at := default (openapi_synced_at s) (pr_openapi_synced_at p);
     openapi_endpoints := default (openapi_endpoints s) (pr_openapi_endpoints p);
     endpoint_pricing_rules := default (endpoint_pricing_rules s) (pr_endpoint_pricing_rules p); credential_secret := credential;
     fallback_services := default (fallback_services s) (pr_fallback_services p); source := src;
     sync_status := patched_status src upstream credential p; last_synced_at := last_synced_at s;
     disabled_at := (if is_some (pr_enabled p) then None else disabled_at s); created_at := created_at s; updated_at := updated_at s |}.
Definition patched_checks (d : ServicesDb) (s : ServiceRegistration) : GatewayResult unit :=
  check? access_validate (access s) (service_route_pattern s) in
  check? validate_cost f64_to_string (cost_mode s) (estimated_cost_usd s) in
  check? validate_pricing_rules f64_to_string (pricing_rules s) in
  check? validate_openapi_configuration method_parses f64_to_string has_control s in
  check? validate_foundry s in
  if negb (foundry_provider_ok d (foundry s)) then Err InvalidFoundryConfiguration else Ok tt.
Definition updated_row (dbnow : Z) (s : ServiceRegistration) (r : ServiceRow) : ServiceRow :=
  {| sw_foundry := foundry s; sw_access := access s; sw_name := sw_name r; sw_project_id := project_id s;
     sw_studio_service_id := studio_service_id s; sw_route_pattern := service_route_pattern s;
     sw_upstream_base_url := upstream_base_url s; sw_health_check_path := health_check_path s;
     sw_health_check_method := health_check_method s; sw_enabled := enabled s; sw_allowed_methods := allowed_methods s;
     sw_timeout_ms := timeout_ms s; sw_max_body_bytes := max_body_bytes s; sw_cost_mode := service_cost_mode_str (cost_mode s);
     sw_estimated_cost_usd := estimated_cost_usd s; sw_pricing_rules := pricing_rules s;
     sw_openapi_source_path := openapi_source_path s; sw_openapi_schema_hash := openapi_schema_hash s;
     sw_openapi_synced_at := openapi_synced_at s; sw_openapi_endpoints := openapi_endpoints s;
     sw_endpoint_pricing_rules := endpoint_pricing_rules s; sw_credential_secret := credential_secret s;
     sw_fallback_services := fallback_services s; sw_source := service_source_str (source s);
     sw_sync_status := service_sync_status_str (sync_status s); sw_last_synced_at := sw_last_synced_at r;
     sw_disabled_at := (if enabled s then None else COALESCE (sw_disabled_at r) (Some dbnow)); sw_created_at := sw_created_at r;
     sw_updated_at := dbnow |}.
Definition with_repricing (h : HistoricalUsageRepricing) (x : ServiceResponse) : ServiceResponse :=
  {| historical_usage_repricing := Some h; sr_foundry := sr_foundry x; sr_access := sr_access x; sr_name := sr_name x;
     sr_project_id := sr_project_id x; sr_studio_service_id := sr_studio_service_id x; sr_route_pattern := sr_route_pattern x;
     sr_upstream_base_url := sr_upstream_base_url x; sr_health_check_path := sr_health_check_path x;
     sr_health_check_method := sr_health_check_method x; sr_enabled := sr_enabled x; sr_allowed_methods := sr_allowed_methods x;
     credential_configured := credential_configured x; sr_timeout_ms := sr_timeout_ms x; sr_max_body_bytes := sr_max_body_bytes x;
     sr_cost_mode := sr_cost_mode x; sr_estimated_cost_usd := sr_estimated_cost_usd x; sr_pricing_rules := sr_pricing_rules x;
     sr_openapi_source_path := sr_openapi_source_path x; sr_openapi_schema_hash := sr_openapi_schema_hash x;
     sr_openapi_synced_at := sr_openapi_synced_at x; sr_openapi_endpoints := sr_openapi_endpoints x;
     sr_endpoint_pricing_rules := sr_endpoint_pricing_rules x; sr_fallback_services := sr_fallback_services x;
     sr_source := sr_source x; sr_sync_status := sr_sync_status x; sr_last_synced_at := sr_last_synced_at x;
     sr_disabled_at := sr_disabled_at x; sr_created_at := sr_created_at x; sr_updated_at := sr_updated_at x;
     sr_missing_runtime_fields := sr_missing_runtime_fields x |}.
Definition reprice_if (wanted : bool) (before after : ServiceRegistration) (x : ServiceResponse) (d : ServicesDb) :
    GatewayResult (ServicesDb * ServiceResponse) :=
  if wanted then
    match reprice_usage before after (sd_usage d) with
    | None => Err StoreUnavailable
    | Some (h, t) => Ok (set_usage t d, with_repricing h x)
    end
  else Ok (d, x).
Definition patch_in_tx (dbnow : Z) (p : ServicePatchRequest) (r : ServiceRow) (d : ServicesDb) : GatewayResult (ServicesDb * ServiceResponse) :=
  let? before := ok_or (service_registration_from_row r) StoreUnavailable in
  let s := patched_service p before in
  check? patched_checks d s in
  match update_service r (updated_row dbnow s r) d with
  | Err e => Err (service_write_error e)
  | Ok d' =>
      let? saved := ok_or (sd_services d' !! sw_name r ≫= service_registration_from_row) StoreUnavailable in
      reprice_if (reprice_existing_usage p) before s (to_response saved) d'
  end.
Definition patch_service (dbnow : Z) (n : string) (p : ServicePatchRequest) (d : ServicesDb) : ServicesDb * GatewayResult (option ServiceResponse) :=
  match (check? validate_service_name n in patch_validate url_parse method_parses f64_to_string has_control p) with
  | Err e => (d, Err e)
  | Ok _ =>
      match sd_services d !! n with
      | None => (d, Ok None)
      | Some r => match patch_in_tx dbnow p r d with
                  | Err e => (d, Err e)
                  | Ok (d', x) => (d', Ok (Some x))
                  end
      end
  end.
(** What refers to a service goes with it. *)
Definition delete_service (n : string) (d : ServicesDb) : ServicesDb * GatewayResult bool :=
  match validate_service_name n with
  | Err e => (d, Err e)
  | Ok _ =>
      if is_none (sd_services d !! n) then (d, Ok false)
      else
        ({| sd_services := delete n (sd_services d); sd_references := sd_references d ∖ {[n]}; sd_projects := sd_projects d;
            sd_keys := sd_keys d; sd_providers := sd_providers d; sd_usage := sd_usage d; sd_snapshots := sd_snapshots d |}, Ok true)
  end.
Definition set_service_enabled (dbnow : Z) (n : string) (e : bool) (d : ServicesDb) : ServicesDb * GatewayResult (option ServiceResponse) :=
  match validate_service_name n with
  | Err er => (d, Err er)
  | Ok _ =>
      match sd_services d !! n with
      | None => (d, Ok None)
      | Some r => match update_service r (with_enabled dbnow e r) d with
                  | Err _ => (d, Err StoreUnavailable)
                  | Ok d' => (d', get_service n d')
                  end
      end
  end.

(** *** Imports *)

Definition no_access : EndpointAccess :=
  {| authentication_profiles := None; skip_entra := false; entra := None; accessa := None; websocket := None; user_token_forwarding := None |}.
(** The row that an import proposes; the other columns have their defaults. *)
Definition imported_row (dbnow : Z) (q : StudioServiceImportRequest) : ServiceRow :=
  let pricing := im_default_pricing q in
  {| sw_foundry := None; sw_access := no_access; sw_name := im_name q; sw_project_id := im_project_id q;
     sw_studio_service_id := Some (im_studio_service_id q); sw_route_pattern := route_or_default (im_route_pattern q) (im_name q);
     sw_upstream_base_url := im_upstream_base_url q; sw_health_check_path := im_health_check_path q;
     sw_health_check_method := im_health_check_method q; sw_enabled := false; sw_allowed_methods := im_allowed_methods q;
     sw_timeout_ms := DEFAULT_TIMEOUT_MS; sw_max_body_bytes := DEFAULT_MAX_BODY_BYTES;
     sw_cost_mode := service_cost_mode_str (from_option st_cost_mode CostNone pricing);
     sw_estimated_cost_usd := pricing ≫= st_estimated_cost_usd; sw_pricing_rules := from_option st_pricing_rules [] pricing;
     sw_openapi_source_path := None; sw_openapi_schema_hash := None; sw_openapi_synced_at := None; sw_openapi_endpoints := [];
     sw_endpoint_pricing_rules := []; sw_credential_secret := None; sw_fallback_services := []; sw_source := "studio";
     sw_sync_status := "incomplete"; sw_last_synced_at := Some dbnow; sw_disabled_at := None; sw_created_at := dbnow;
     sw_updated_at := dbnow |}.
(** What a repeated import changes of the row [r] that is there. *)
Definition synced_row (dbnow : Z) (x r : ServiceRow) : ServiceRow :=
  {| sw_foundry := sw_foundry r; sw_access := sw_access r; sw_name := sw_name x; sw_project_id := sw_project_id r;
     sw_studio_service_id := sw_studio_service_id x; sw_route_pattern := sw_route_pattern r;
     sw_upstream_base_url := sw_upstream_base_url r;
     sw_health_check_path := COALESCE (sw_health_check_path r) (sw_health_check_path x);
     sw_health_check_method := (if is_none (sw_health_check_path r) && is_some (sw_health_check_path x) then sw_health_check_method x else sw_health_check_method r);
     sw_enabled := sw_enabled r; sw_allowed_methods := sw_allowed_methods r; sw_timeout_ms := sw_timeout_ms r;
     sw_max_body_bytes := sw_max_body_bytes r; sw_cost_mode := sw_cost_mode r; sw_estimated_cost_usd := sw_estimated_cost_usd r;
     sw_pricing_rules := sw_pricing_rules x; sw_openapi_source_path := sw_openapi_source_path r;
     sw_openapi_schema_hash := sw_openapi_schema_hash r; sw_openapi_synced_at := sw_openapi_synced_at r;
     sw_openapi_endpoints := sw_openapi_endpoints r; sw_endpoint_pricing_rules := sw_endpoint_pricing_rules r;
     sw_credential_secret := sw_credential_secret r; sw_fallback_services := sw_fallback_services r; sw_source := "studio";
     sw_sync_status := (if is_none (sw_upstream_base_url r) || is_none (sw_credential_secret r) then "incomplete" else "synced");
     sw_last_synced_at := Some dbnow; sw_disabled_at := sw_disabled_at r; sw_created_at := sw_created_at r; sw_updated_at := dbnow |}.
(** The trigger and the checks see the proposed row first. *)
Definition upsert_row (dbnow : Z) (q : StudioServiceImportRequest) (d : ServicesDb) : result SqlError ServicesDb :=
  let? x := guard_authentication_profile_revision d None (imported_row dbnow q) in
  if negb (checks_ok x) then Err CheckViolation
  else match studio_holder d (im_studio_service_id q) with
       | Some (_, r) => update_service r (synced_row dbnow x r) d
       | None => insert_service (imported_row dbnow q) d
       end.
Definition upsert_studio_service (dbnow : Z) (q : StudioServiceImportRequest) (d : ServicesDb) : ServicesDb * GatewayResult ServiceResponse :=
  match import_validate url_parse method_parses f64_to_string q with
  | Err e => (d, Err e)
  | Ok _ => match upsert_row dbnow q d with
            | Err e => (d, Err (import_write_error e))
            | Ok d' => (d', written (im_name q) d')
            end
  end.
Definition import_studio_service := upsert_studio_service.
Definition sync_studio_service := upsert_studio_service.
Definition upsert_studio_service_in_tx (dbnow : Z) (q : StudioServiceImportRequest) (d : ServicesDb) :
    GatewayResult (ServicesDb * ServiceResponse) :=
  check? import_validate url_parse method_parses f64_to_string q in
  match upsert_row dbnow q d with
  | Err e => Err (import_write_error e)
  | Ok d' =>
      let? s := ok_or (studio_holder d' (im_studio_service_id q) ≫= λ h, service_registration_from_row h.2) StoreUnavailable in
      Ok (d', to_response s)
  end.
Definition activate_one (dbnow : Z) (acc : ServicesDb * list ServiceResponse) (q : StudioServiceImportRequest) :
    GatewayResult (ServicesDb * list ServiceResponse) :=
  let? x := upsert_studio_service_in_tx dbnow q acc.1 in Ok (x.1, acc.2 ++ [x.2]).
Definition activate_all (dbnow : Z) (services : list StudioServiceImportRequest) (d : ServicesDb) : GatewayResult (ServicesDb * list ServiceResponse) :=
  try_fold (activate_one dbnow) (d, []) services.
(** [version] is the next number of the sequence. *)
Definition activate_service_registry_import (dbnow version : Z) (src : string) (diff : ServiceImportDiff)
    (services : list StudioServiceImportRequest) (rolled_back_from : option Z) (d : ServicesDb) :
    ServicesDb * GatewayResult (Z * SnapshotRow * list ServiceResponse) :=
  match activate_all dbnow services d with
  | Err e => (d, Err e)
  | Ok (d', activated) =>
      if is_some (sd_snapshots d' !! version) then (d, Err StoreUnavailable)
      else
        let snapshot := {| sp_source := src; sp_diff := diff; sp_services := services; sp_activated_at := Some dbnow;
                           sp_rolled_back_from_version := rolled_back_from; sp_created_at := dbnow |} in
        (set_snapshots (<[version := snapshot]> (sd_snapshots d')) d', Ok (version, snapshot, activated))
  end.
Definition insert_service_registry_snapshot (version : Z) (snapshot : SnapshotRow) (d : ServicesDb) : ServicesDb * GatewayResult (Z * SnapshotRow) :=
  if is_some (sd_snapshots d !! version) then (d, Err StoreUnavailable)
  else (set_snapshots (<[version := snapshot]> (sd_snapshots d)) d, Ok (version, snapshot)).
Definition list_service_registry_snapshots (d : ServicesDb) : GatewayResult (list (Z * SnapshotRow)) :=
  Ok (sort_by (λ a b, b.1 ?= a.1) (map_to_list (sd_snapshots d))).
Definition service_registry_snapshot (version : Z) (d : ServicesDb) : GatewayResult (option (Z * SnapshotRow)) :=
  Ok ((λ s, (version, s)) <$> sd_snapshots d !! version).

(** ** The table over time *)

Definition with_parts (refs projects : gset string) (keys : gmap string (option string)) (providers : gmap string string) (d : ServicesDb) : ServicesDb :=
  {| sd_services := sd_services d; sd_references := refs; sd_projects := projects; sd_keys := keys; sd_providers := providers;
     sd_usage := sd_usage d; sd_snapshots := sd_snapshots d |}.
Definition some_service (p : ServiceRow → bool) (d : ServicesDb) : bool := existsb (λ kr, p kr.2) (map_to_list (sd_services d)).
(** A key bound by a profile of a service that belongs to another project than
    the one the key is to move to. *)
Definition holds_key (k : string) (project : option string) (r : ServiceRow) : bool :=
  is_some (sw_project_id r) && negb (bool_decide (sw_project_id r = project))
  && is_some_and (λ ps, existsb (λ b, String.eqb (bound_key b) k) (bindings ps)) (profiles_of r).
Inductive ServiceOp : Type :=
| Creates (dbnow : Z) (q : ServiceCreateRequest)
| Patches (dbnow : Z) (n : string) (p : ServicePatchRequest)
| Deletes (n : string)
| Enables (dbnow : Z) (n : string) (e : bool)
| Imports (dbnow : Z) (q : StudioServiceImportRequest)
| Activates (dbnow version : Z) (src : string) (diff : ServiceImportDiff) (services : list StudioServiceImportRequest) (rolled_back_from : option Z)
| Archives (version : Z) (snapshot : SnapshotRow)
| NamesService (n : string)
| AddsProject (p : string)
| DropsProject (p : string)
| AddsKey (k : string) (project : option string)
| MovesKey (k : string) (project : option string)
| AddsProvider (id kind : string)
| DropsProvider (id : string)
| RecordsUsage (t : UsageTables).
(** The other tables change as their foreign keys and triggers let them. *)
Definition services_after (d : ServicesDb) (op : ServiceOp) : ServicesDb :=
  match op with
  | Creates dbnow q => (create_service dbnow q d).1
  | Patches dbnow n p => (patch_service dbnow n p d).1
  | Deletes n => (delete_service n d).1
  | Enables dbnow n e => (set_service_enabled dbnow n e d).1
  | Imports dbnow q => (upsert_studio_service dbnow q d).1
  | Activates dbnow version src diff services rb => (activate_service_registry_import dbnow version src diff services rb d).1
  | Archives version snapshot => (insert_service_registry_snapshot version snapshot d).1
  | NamesService n =>
      if is_none (sd_services d !! n) then d else with_parts ({[n]} ∪ sd_references d) (sd_projects d) (sd_keys d) (sd_providers d) d
  | AddsProject p => with_parts (sd_references d) ({[p]} ∪ sd_projects d) (sd_keys d) (sd_providers d) d
  | DropsProject p =>
      if some_service (λ r, bool_decide (sw_project_id r = Some p)) d then d
      else with_parts (sd_references d) (sd_projects d ∖ {[p]}) (sd_keys d) (sd_providers d) d
  | AddsKey k project =>
      if is_some (sd_keys d !! k) then d else with_parts (sd_references d) (sd_projects d) (<[k := project]> (sd_keys d)) (sd_providers d) d
  | MovesKey k project =>
      if is_none (sd_keys d !! k) || some_service (holds_key k project) d then d
      else with_parts (sd_references d) (sd_projects d) (<[k := project]> (sd_keys d)) (sd_providers d) d
  | AddsProvider id kind =>
      if is_some (sd_providers d !! id) then d
      else with_parts (sd_references d) (sd_projects d) (sd_keys d) (<[id := kind]> (sd_providers d)) d
  | DropsProvider id =>
      if some_service (λ r, is_some_and (λ b, String.eqb (provider_id b) id) (sw_foundry r)) d then d
      else with_parts (sd_references d) (sd_projects d) (sd_keys d) (delete id (sd_providers d)) d
  | RecordsUsage t => set_usage t d
  end.
Definition no_services : ServicesDb :=
  {| sd_services := ∅; sd_references := ∅; sd_projects := ∅; sd_keys := ∅; sd_providers := ∅;
     sd_usage := {| ut_events := ∅; ut_traffic := ∅ |}; sd_snapshots := ∅ |}.

(** *** What is stored is valid *)

(** A row can be read back and passes the validators again; of the
    authentication profiles all but the revision. *)
Record row_valid (r : ServiceRow) : Prop := {
  rv_name : service_name_ok (sw_name r) = true;
  rv_route : validate_route_pattern (sw_route_pattern r) = Ok tt;
  rv_access : access_validate (at_revision 0 (sw_access r)) (sw_route_pattern r) = Ok tt;
  rv_upstream : validate_optional_upstream url_parse (sw_upstream_base_url r) = Ok tt;
  rv_health_path : validate_optional_health_check_path (sw_health_check_path r) = Ok tt;
  rv_health_method : validate_health_check_method method_parses (sw_health_check_method r) = Ok tt;
  rv_methods : validate_allowed_methods method_parses (sw_allowed_methods r) = Ok tt;
  rv_limits : validate_runtime_limits (sw_timeout_ms r) (sw_max_body_bytes r) = Ok tt;
  rv_cost : ∃ mode, parse_service_cost_mode (sw_cost_mode r) = Some mode ∧ validate_cost f64_to_string mode (sw_estimated_cost_usd r) = Ok tt;
  rv_rules : validate_pricing_rules f64_to_string (sw_pricing_rules r) = Ok tt;
  rv_openapi_path : validate_optional_openapi_source_path has_control (sw_openapi_source_path r) = Ok tt;
  rv_endpoints : validate_openapi_endpoints method_parses (sw_openapi_endpoints r) = Ok tt;
  rv_endpoint_rules : validate_endpoint_pricing_rules method_parses f64_to_string (sw_endpoint_pricing_rules r) = Ok tt;
  rv_fallbacks : validate_fallback_services (sw_fallback_services r) = Ok tt;
  rv_secret : validate_optional_secret (sw_credential_secret r) = Ok tt;
  rv_foundry : validate_foundry_service (sw_foundry r) (sw_route_pattern r) (sw_allowed_methods r) (sw_upstream_base_url r)
                 (sw_credential_secret r) (sw_fallback_services r) (sw_access r) = Ok tt;
  rv_not_both : is_some (sw_foundry r) && is_some (sw_studio_service_id r) = false;
  rv_source : parse_service_source (sw_source r) = Some (if is_some (sw_studio_service_id r) then SourceStudio else SourceGateway);
  rv_status : is_Some (parse_service_sync_status (sw_sync_status r))
}.
Definition bindings_ok (d : ServicesDb) (r : ServiceRow) : Prop :=
  ∀ ps, profiles_of r = Some ps → try_for_each (binding_ok d (sw_project_id r)) (bindings ps) = Ok tt.
Record services_wf (d : ServicesDb) : Prop := {
  wf_keyed n r : sd_services d !! n = Some r → sw_name r = n;
  wf_valid n r : sd_services d !! n = Some r → row_valid r;
  wf_studio n m r r' id : sd_services d !! n = Some r → sd_services d !! m = Some r' → sw_studio_service_id r = Some id →
    sw_studio_service_id r' = Some id → n = m;
  wf_refers n r : sd_services d !! n = Some r → refers_ok d r = true;
  wf_provider n r : sd_services d !! n = Some r → foundry_provider_ok d (sw_foundry r) = true;
  wf_bindings n r : sd_services d !! n = Some r → bindings_ok d r;
  wf_references n : n ∈ sd_references d → is_Some (sd_services d !! n)
}.

Lemma cost_mode_roundtrip m : parse_service_cost_mode (service_cost_mode_str m) = Some m.
Proof. by destruct m. Qed.
Lemma source_roundtrip s : parse_service_source (service_source_str s) = Some s.
Proof. by destruct s. Qed.
Lemma sync_status_roundtrip s : parse_service_sync_status (service_sync_status_str s) = Some s.
Proof. by destruct s. Qed.
Lemma service_row_roundtrip s : service_registration_from_row (service_row s) = Some s.
Proof.
  unfold service_registration_from_row. cbn. rewrite cost_mode_roundtrip, source_roundtrip, sync_status_roundtrip. by destruct s.
Qed.
Lemma at_revision_twice n m a : at_revision n (at_revision m a) = at_revision n a.
Proof. unfold at_revision. cbn. by destruct (authentication_profiles a). Qed.
(** Only a revision that cannot be raised is refused. *)
Lemma access_any_revision a pattern : access_validate a pattern = Ok tt → access_validate (at_revision 0 a) pattern = Ok tt.
Proof.
  unfold endpoint_validate, accessa_invalid, at_revision. cbn. destruct (authentication_profiles a) as [ps|]; [|done]. cbn.
  rewrite !check_ok, !guard_ok, !check_ok. intros (H1 & H2 & (Hp & H3 & _) & H4 & H5 & H6). split_and!; try done.
  unfold profiles_validate in *. cbn in *. apply guard_ok in Hp as [E Hp]. rewrite !orb_false_iff in E.
  destruct E as [[[-> ->] ->] _]. exact Hp.
Qed.
Lemma revised_row_valid n r : row_valid r → row_valid (with_access (at_revision n (sw_access r)) r).
Proof. intros []. split; cbn; try done. by rewrite at_revision_twice. Qed.

Lemma guard_result d old r x : guard_authentication_profile_revision d old r = Ok x →
  (x = r ∨ x = with_access (at_revision (from_option revision 0 (old ≫= profiles_of) + 1) (sw_access r)) r) ∧
  (∀ ps, profiles_of r = Some ps → try_for_each (binding_ok d (sw_project_id r)) (bindings ps) = Ok tt).
Proof.
  unfold guard_authentication_profile_revision. destruct (profiles_of r) as [ps|].
  - rewrite guard_ok, check_ok. intros (_ & Hb & Hx). split; [|by intros ? [= <-]].
    destruct (is_some_and _ old); injection Hx as <-; auto.
  - destruct (is_some _); [done|]. intros [= <-]. split; [by left|done].
Qed.
(** What the trigger lets through is the row it was given, up to the revision. *)
Lemma guard_row d old r x : guard_authentication_profile_revision d old r = Ok x →
  sw_name x = sw_name r ∧ sw_project_id x = sw_project_id r ∧ sw_studio_service_id x = sw_studio_service_id r ∧ sw_foundry x = sw_foundry r ∧
  (row_valid r → row_valid x) ∧ bindings_ok d x.
Proof.
  intros [[->| ->] Hb]%guard_result; [done|]. cbn. split_and!; try done; [apply revised_row_valid|].
  intros ps. unfold profiles_of. cbn. destruct (authentication_profiles (sw_access r)) eqn:E; [|done]. intros [= <-]. cbn. by apply Hb.
Qed.
Lemma studio_holder_Some d id n r : studio_holder d id = Some (n, r) → sd_services d !! n = Some r ∧ sw_studio_service_id r = Some id.
Proof. intros [Hi E%bool_decide_eq_true]%find_some. split; [by apply elem_of_map_to_list, list_elem_of_In|done]. Qed.
Lemma studio_holder_None d id n r : studio_holder d id = None → sd_services d !! n = Some r → sw_studio_service_id r ≠ Some id.
Proof.
  intros Hf Hr E. assert (In (n, r) (map_to_list (sd_services d))) as Hi by by apply list_elem_of_In, elem_of_map_to_list.
  apply (find_none _ _ Hf) in Hi. cbn in Hi. by rewrite bool_decide_eq_true_2 in Hi.
Qed.
(** The holder of a studio identifier is the only row with it. *)
Lemma studio_holder_unique d id n r : services_wf d → sd_services d !! n = Some r → sw_studio_service_id r = Some id →
  studio_holder d id = Some (n, r).
Proof.
  intros Hw Hr E. destruct (studio_holder d id) as [[m s]|] eqn:Hh; [|by destruct (studio_holder_None _ _ _ _ Hh Hr)].
  apply studio_holder_Some in Hh as [Hs Es]. pose proof (wf_studio _ Hw _ _ _ _ _ Hs Hr Es E) as ->. by rewrite Hs in Hr; simplify_eq.
Qed.

(** One row is written, in place of the row [old] or of none. *)
Lemma written_wf d (m : gmap string ServiceRow) x :
  services_wf d → row_valid x → bindings_ok d x → refers_ok d x = true → foundry_provider_ok d (sw_foundry x) = true →
  (∀ n r, m !! n = Some r → n ≠ sw_name x → sd_services d !! n = Some r) →
  (∀ n r id, m !! n = Some r → n ≠ sw_name x → sw_studio_service_id x = Some id → sw_studio_service_id r ≠ Some id) →
  (∀ n, n ∈ sd_references d → n = sw_name x ∨ is_Some (m !! n)) →
  services_wf (set_services (<[sw_name x := x]> m) d).
Proof.
  intros Hw Hx Hb Hr Hp Hm Hs Href.
  split; cbn [set_services sd_services sd_references].
  - intros n r [[<- <-]|[Hne H]]%lookup_insert_Some; [done|]. by eapply (wf_keyed _ Hw), Hm.
  - intros n r [[_ <-]|[Hne H]]%lookup_insert_Some; [done|]. by eapply (wf_valid _ Hw), Hm.
  - intros n n' r r' id [[<- <-]|[Hne H]]%lookup_insert_Some [[<- <-]|[Hne' H']]%lookup_insert_Some E E'; [done|..].
    + by destruct (Hs _ _ _ H' (not_eq_sym Hne') E).
    + by destruct (Hs _ _ _ H (not_eq_sym Hne) E').
    + eapply (wf_studio _ Hw); [by apply Hm|by apply Hm|done..].
  - intros n r [[_ <-]|[Hne H]]%lookup_insert_Some; [done|]. by eapply (wf_refers _ Hw), Hm.
  - intros n r [[_ <-]|[Hne H]]%lookup_insert_Some; [done|]. by eapply (wf_provider _ Hw), Hm.
  - intros n r [[_ <-]|[Hne H]]%lookup_insert_Some; [done|]. by eapply (wf_bindings _ Hw), Hm.
  - intros n Hn. destruct (decide (n = sw_name x)) as [->|Hne]; [by rewrite lookup_insert_eq|]. rewrite lookup_insert_ne by done.
    by destruct (Href n Hn).
Qed.
Lemma insert_service_wf d r d' : services_wf d → row_valid r → foundry_provider_ok d (sw_foundry r) = true → insert_service r d = Ok d' → services_wf d'.
Proof.
  intros Hw Hr Hp. unfold insert_service. destruct (guard_authentication_profile_revision d None r) as [x|] eqn:Hg; [|done].
  apply guard_row in Hg as (En & Ep & Es & Ef & Hx & Hb). rewrite !guard_ok. intros (_ & Hu & Hf & [= <-]).
  apply orb_false_iff in Hu as [Hn Hh]. apply negb_false_iff in Hf.
  assert (sd_services d !! sw_name x = None) as Hnone by by destruct (sd_services d !! sw_name x).
  apply written_wf; auto; [by rewrite Ef|..].
  - intros n y id Hy Hne E Ey. rewrite E in Hh. cbn in Hh. destruct (studio_holder d id) eqn:Hs; [done|].
    by destruct (studio_holder_None _ _ _ _ Hs Hy).
  - intros n Hn'. right. by apply (wf_references _ Hw).
Qed.
Lemma update_service_wf d old r d' : services_wf d → sd_services d !! sw_name old = Some old → row_valid r →
  foundry_provider_ok d (sw_foundry r) = true → update_service old r d = Ok d' → services_wf d'.
Proof.
  intros Hw Ho Hr Hp. unfold update_service. destruct (guard_authentication_profile_revision d (Some old) r) as [x|] eqn:Hg; [|done].
  apply guard_row in Hg as (En & Ep & Es & Ef & Hx & Hb). rewrite !guard_ok. intros (_ & Hu & Hf & [= <-]).
  apply orb_false_iff in Hu as [Hn Hh], Hf as [Hf Href]. apply negb_false_iff in Hf.
  apply written_wf; auto; [by rewrite Ef|..].
  - intros n y Hy Hne. by apply lookup_delete_Some in Hy as [_ Hy].
  - intros n y id Hy Hne E Ey. apply lookup_delete_Some in Hy as [Hny Hy]. rewrite E in Hh. cbn in Hh.
    rewrite (studio_holder_unique _ _ _ _ Hw Hy Ey) in Hh. cbn in Hh. by destruct (String.eqb_spec n (sw_name old)).
  - intros n Hn'. destruct (wf_references _ Hw n Hn') as [y Hy]. destruct (decide (n = sw_name old)) as [->|Hne].
    + left. apply andb_false_iff in Href as [Hren|Href]; [by destruct (String.eqb_spec (sw_name x) (sw_name old))|by apply bool_decide_eq_false in Href].
    + right. by rewrite lookup_delete_ne.
Qed.

Lemma created_row_valid dbnow q :
  create_validate url_parse method_parses f64_to_string has_control to_lowercase header_name_ok q = Ok tt → row_valid (created_row dbnow q).
Proof.
  unfold create_validate. rewrite guard_ok, !check_ok.
  intros (Hst & Hname & Hf & Hroute & Hacc & Hup & Hhp & Hhm & Hmeth & Hlim & Hcost & Hrules & Hsrc & Hoa & Hep & Hfb & Hsec & _).
  split; cbn; try done.
  - by apply validate_service_name_ok.
  - by apply access_any_revision.
  - exists (cr_cost_mode q). by rewrite cost_mode_roundtrip.
  - by destruct (cr_studio_service_id q).
  - rewrite sync_status_roundtrip. by eexists.
Qed.
Lemma enabled_row_valid dbnow e r : row_valid r → row_valid (with_enabled dbnow e r).
Proof. by intros []. Qed.
Lemma default_pricing_ok pricing :
  if_present pricing (validate_default_pricing f64_to_string) = Ok tt →
  validate_cost f64_to_string (from_option st_cost_mode CostNone pricing) (pricing ≫= st_estimated_cost_usd) = Ok tt ∧
  validate_pricing_rules f64_to_string (from_option st_pricing_rules [] pricing) = Ok tt.
Proof. destruct pricing; cbn; [|done]. unfold validate_default_pricing. by rewrite check_ok. Qed.
Lemma not_slash c s p : name_or_dash c = true → starts_with (String c s) (String "/" p) = false.
Proof.
  intros Hc. unfold starts_with. cbn [strip_prefix]. destruct (Ascii.eqb_spec "/" c) as [<-|]; [discriminate Hc|done].
Qed.
Lemma no_slash_pair s : all_bytes name_or_dash s = true → contains_str (s +:+ "/*") "//" = false.
Proof.
  induction s as [|c s IH]; [done|]. cbn [all_bytes]. intros H. bool_prop. change (String c s +:+ "/*") with (String c (s +:+ "/*")).
  cbn [contains_str]. by rewrite IH, not_slash.
Qed.
Lemma default_route_ok n : service_name_ok n = true → validate_route_pattern (route_or_default None n) = Ok tt.
Proof.
  intros Hn. unfold route_or_default, default_route_pattern. repeat (destruct (String.eqb n _); [done|]). cbn [default].
  unfold service_name_ok in Hn. bool_prop. destruct n as [|c n]; [done|].
  assert (contains_str (String c n +:+ "/*") "//" = false) as Hc by by apply no_slash_pair.
  assert (starts_with (String c n +:+ "/*") "/" = false) as Hs by (apply not_slash; cbn [all_bytes] in *; by bool_prop).
  unfold validate_route_pattern.
  replace (contains_str ("/services/" +:+ String c n +:+ "/*") "//") with (starts_with (String c n +:+ "/*") "/" || contains_str (String c n +:+ "/*") "//").
  { by rewrite Hc, Hs. }
  generalize (String c n +:+ "/*"). intros t. by destruct t.
Qed.
Lemma no_access_valid pattern : access_validate no_access pattern = Ok tt.
Proof. done. Qed.
Lemma imported_row_valid dbnow q : import_validate url_parse method_parses f64_to_string q = Ok tt → row_valid (imported_row dbnow q).
Proof.
  unfold import_validate. rewrite check_ok, guard_ok, !check_ok.
  intros (Hname%validate_service_name_ok & _ & Hroute & Hup & Hhp & Hhm & Hmeth & Hpr & _). apply default_pricing_ok in Hpr as [Hcost Hrules].
  split; cbn; try done.
  - destruct (im_route_pattern q); [done|]. by apply default_route_ok.
  - eexists. by rewrite cost_mode_roundtrip.
Qed.
Lemma synced_row_valid dbnow x r : row_valid x → row_valid r → is_some (sw_studio_service_id x) = true → sw_foundry r = None →
  row_valid (synced_row dbnow x r).
Proof.
  intros [] [] Es Ef. split; cbn; try done.
  - by destruct (sw_health_check_path r).
  - by destruct (is_none _ && _).
  - by rewrite Ef.
  - by rewrite Es.
  - destruct (is_none _ || _); by eexists.
Qed.

(** A field that a patch may replace is valid when it was and the patch's is. *)
Lemma if_present_default {A} (f : A → GatewayResult unit) (o : option A) a : if_present o f = Ok tt → f a = Ok tt → f (default a o) = Ok tt.
Proof. by destruct o. Qed.
Lemma limits_ok t m : validate_runtime_limits t m = Ok tt ↔ in_range 1 600000 t = true ∧ in_range 1 104857600 m = true.
Proof. unfold validate_runtime_limits. destruct (in_range 1 600000 t), (in_range 1 104857600 m); split; try done; by intros []. Qed.
Lemma patched_limits p t m :
  if_present (pr_timeout_ms p) (λ t, validate_runtime_limits t (default 1 (pr_max_body_bytes p))) = Ok tt →
  if_present (pr_max_body_bytes p) (λ m, validate_runtime_limits (default 1 (pr_timeout_ms p)) m) = Ok tt →
  validate_runtime_limits t m = Ok tt → validate_runtime_limits (default t (pr_timeout_ms p)) (default m (pr_max_body_bytes p)) = Ok tt.
Proof. destruct (pr_timeout_ms p), (pr_max_body_bytes p); cbn; rewrite !limits_ok; intros; repeat match goal with H : _ ∧ _ |- _ => destruct H end; done. Qed.
Lemma patched_row_valid dbnow p d r s : row_valid r → service_registration_from_row r = Some s →
  patch_validate url_parse method_parses f64_to_string has_control p = Ok tt → patched_checks d (patched_service p s) = Ok tt →
  row_valid (updated_row dbnow (patched_service p s) r) ∧ foundry_provider_ok d (foundry (patched_service p s)) = true.
Proof.
  intros [] Hs. unfold service_registration_from_row in Hs. destruct rv_cost0 as (mode & Em & _). rewrite Em, rv_source0 in Hs. cbn in Hs.
  destruct (parse_service_sync_status (sw_sync_status r)) as [status|]; [|done]. cbn in Hs. injection Hs as <-.
  unfold patch_validate. rewrite guard_ok, !check_ok.
  intros (_ & Hroute & Hup & Hhp & Hhm & Hmeth & Ht & Hm & _ & _ & _ & _ & _ & Hfb & Hsec & _).
  unfold patched_checks. rewrite !check_ok, guard_ok. intros (Hacc & Hcost & Hrules & Ho & Hf & Hp & _).
  unfold validate_openapi_configuration in Ho. rewrite !check_ok in Ho. destruct Ho as (Hpath & Hend & Hep).
  unfold validate_foundry in Hf. rewrite guard_ok, check_ok in Hf. destruct Hf as (Hboth & Hf & _). apply negb_false_iff in Hp.
  split; [|done]. split; cbn in *; try done; try by apply if_present_default.
  - by apply access_any_revision.
  - by apply patched_limits.
  - eexists. by rewrite cost_mode_roundtrip.
  - rewrite source_roundtrip. unfold patched_source. cbn. by destruct (pr_studio_service_id p) as [[]|].
  - rewrite sync_status_roundtrip. by eexists.
Qed.
Lemma valid_decodes r : row_valid r → ∃ s, service_registration_from_row r = Some s ∧ name s = sw_name r ∧ access s = sw_access r.
Proof.
  intros []. unfold service_registration_from_row. destruct rv_cost0 as (mode & -> & _), rv_status0 as [status ->]. rewrite rv_source0.
  by eexists.
Qed.

(** *** Every call keeps the table so *)

Lemma same_services_wf d d' : services_wf d → sd_services d' = sd_services d → sd_references d' = sd_references d →
  sd_projects d' = sd_projects d → sd_keys d' = sd_keys d → sd_providers d' = sd_providers d → services_wf d'.
Proof.
  destruct d, d'. cbn. intros [K V S F P B R] -> -> -> -> ->. by split.
Qed.
Lemma patch_in_tx_wf dbnow p r d d' x : services_wf d → sd_services d !! sw_name r = Some r →
  patch_validate url_parse method_parses f64_to_string has_control p = Ok tt → patch_in_tx dbnow p r d = Ok (d', x) → services_wf d'.
Proof.
  intros Hw Hr Hp. unfold patch_in_tx. destruct (service_registration_from_row r) as [s|] eqn:Hs; [|done]. cbn [ok_or]. rewrite check_ok.
  intros [Hc Hu]. destruct (patched_row_valid dbnow p d r s) as [Hv Hf]; [by eapply wf_valid|done..|].
  destruct (update_service _ _ d) as [d1|] eqn:Hd; [|done]. apply update_service_wf in Hd; [|done..].
  destruct (ok_or _ _) as [saved|]; [|done]. unfold reprice_if in Hu. destruct (reprice_existing_usage p).
  - destruct (reprice_service_usage_in_tx _ _ _ _ _ _ _ _ _ _) as [[h t]|]; [|done]. injection Hu as <- <-. by eapply same_services_wf.
  - by injection Hu as <- <-.
Qed.
Lemma upsert_row_wf dbnow q d d' : services_wf d → import_validate url_parse method_parses f64_to_string q = Ok tt →
  upsert_row dbnow q d = Ok d' → services_wf d'.
Proof.
  intros Hw Hq%(imported_row_valid dbnow). unfold upsert_row.
  destruct (guard_authentication_profile_revision d None (imported_row dbnow q)) as [x|] eqn:Hg; [|done].
  assert (x = imported_row dbnow q) as -> by by (cbn in Hg; injection Hg as <-).
  rewrite guard_ok. intros [_ Hu]. destruct (studio_holder d (im_studio_service_id q)) as [[n r]|] eqn:Hh.
  - apply studio_holder_Some in Hh as [Hr Es]. pose proof (wf_keyed _ Hw _ _ Hr) as En. subst n. pose proof (wf_valid _ Hw _ _ Hr) as Hv.
    assert (sw_foundry r = None) as Ef.
    { pose proof (rv_not_both _ Hv) as Hb. rewrite Es in Hb. by destruct (sw_foundry r). }
    eapply update_service_wf in Hu; [done|done|done|by apply synced_row_valid|]. cbn. by rewrite Ef.
  - by eapply insert_service_wf in Hu.
Qed.
Lemma upsert_in_tx_wf dbnow q d x : services_wf d → upsert_studio_service_in_tx dbnow q d = Ok x → services_wf x.1.
Proof.
  intros Hw. unfold upsert_studio_service_in_tx. rewrite check_ok. intros [Hv Hu]. destruct (upsert_row dbnow q d) as [d'|] eqn:Hd; [|done].
  destruct (ok_or _ _); [|done]. injection Hu as <-. by eapply upsert_row_wf.
Qed.
Lemma activate_all_wf dbnow services d x : services_wf d → activate_all dbnow services d = Ok x → services_wf x.1.
Proof.
  unfold activate_all. generalize (@nil ServiceResponse). revert d. induction services as [|q services IH]; intros d l Hw; cbn [try_fold].
  - by intros [= <-].
  - unfold activate_one at 1. cbn [fst snd]. destruct (upsert_studio_service_in_tx dbnow q d) as [[d1 y]|] eqn:Hq; [|done].
    apply IH. by apply (upsert_in_tx_wf dbnow q d (d1, y)).
Qed.
Lemma some_service_false p d n r : some_service p d = false → sd_services d !! n = Some r → p r = false.
Proof.
  unfold some_service. rewrite existsb_false_iff. intros Hf Hr. apply (Hf (n, r)). by apply elem_of_map_to_list.
Qed.
(** The tables around it may change as long as what a service refers to stays. *)
Lemma with_parts_wf d refs projects keys providers : services_wf d →
  (∀ n, n ∈ refs → n ∈ sd_references d ∨ is_Some (sd_services d !! n)) →
  (∀ n r p, sd_services d !! n = Some r → sw_project_id r = Some p → p ∈ sd_projects d → p ∈ projects) →
  (∀ n r b kind, sd_services d !! n = Some r → sw_foundry r = Some b → sd_providers d !! provider_id b = Some kind → providers !! provider_id b = Some kind) →
  (∀ n r ps b, sd_services d !! n = Some r → profiles_of r = Some ps → b ∈ bindings ps → binding_ok d (sw_project_id r) b = Ok tt →
     binding_ok (with_parts refs projects keys providers d) (sw_project_id r) b = Ok tt) →
  services_wf (with_parts refs projects keys providers d).
Proof.
  intros Hw Hrefs Hproj Hprov Hkeys.
  assert (∀ n r, sd_services d !! n = Some r → foundry_provider_ok (with_parts refs projects keys providers d) (sw_foundry r) = true) as Hf.
  { intros n r Hr. pose proof (wf_provider _ Hw _ _ Hr) as H. unfold foundry_provider_ok in *. destruct (sw_foundry r) as [b|] eqn:Eb; [|done].
    cbn in *. apply bool_decide_eq_true in H. apply bool_decide_eq_true. by eapply Hprov. }
  split; cbn [with_parts sd_services sd_references].
  - apply (wf_keyed _ Hw).
  - apply (wf_valid _ Hw).
  - apply (wf_studio _ Hw).
  - intros n r Hr. pose proof (wf_refers _ Hw _ _ Hr) as H. specialize (Hf n r Hr). unfold refers_ok, foundry_provider_ok in *. cbn in *.
    apply andb_true_iff in H as [Hp _]. apply andb_true_iff. split.
    + destruct (sw_project_id r) as [p|] eqn:Ep; [|done]. cbn in *. apply bool_decide_eq_true in Hp. apply bool_decide_eq_true. by eapply Hproj.
    + destruct (sw_foundry r) as [b|]; [|done]. cbn in *. apply bool_decide_eq_true in Hf. by rewrite Hf.
  - done.
  - intros n r Hr ps Hps. pose proof (wf_bindings _ Hw _ _ Hr ps Hps) as H. rewrite try_for_each_ok, Forall_forall in H |- *.
    intros b Hb. eapply Hkeys; eauto.
  - intros n Hn. destruct (Hrefs n Hn) as [H|H]; [by apply (wf_references _ Hw)|done].
Qed.
Lemma delete_service_wf d n : services_wf d → services_wf (delete_service n d).1.
Proof.
  intros Hw. unfold delete_service. destruct (validate_service_name n); [|done]. destruct (is_none _); [done|]. cbn.
  split; cbn [sd_services sd_references].
  - intros m r [_ H]%lookup_delete_Some. by apply (wf_keyed _ Hw).
  - intros m r [_ H]%lookup_delete_Some. by eapply (wf_valid _ Hw).
  - intros m m' r r' id [_ H]%lookup_delete_Some [_ H']%lookup_delete_Some. by apply (wf_studio _ Hw).
  - intros m r [_ H]%lookup_delete_Some. apply (wf_refers _ Hw _ _ H).
  - intros m r [_ H]%lookup_delete_Some. apply (wf_provider _ Hw _ _ H).
  - intros m r [_ H]%lookup_delete_Some. apply (wf_bindings _ Hw _ _ H).
  - intros m [Hm Hne]%elem_of_difference. rewrite lookup_delete_ne by (intros ->; by apply Hne, elem_of_singleton). by apply (wf_references _ Hw).
Qed.
Lemma moved_key_ok d n r ps b k project refs projects providers : services_wf d → some_service (holds_key k project) d = false →
  sd_services d !! n = Some r → profiles_of r = Some ps → b ∈ bindings ps → binding_ok d (sw_project_id r) b = Ok tt →
  binding_ok (with_parts refs projects (<[k := project]> (sd_keys d)) providers d) (sw_project_id r) b = Ok tt.
Proof.
  intros Hw Hk Hr Hps Hb Ho. unfold binding_ok in *. cbn [with_parts sd_keys]. destruct (decide (k = bound_key b)) as [->|Hne].
  - rewrite lookup_insert_eq. pose proof (some_service_false _ _ _ _ Hk Hr) as H. unfold holds_key in H. rewrite Hps in H. cbn in H.
    assert (existsb (λ b0, String.eqb (bound_key b0) (bound_key b)) (bindings ps) = true) as E.
    { apply existsb_true_iff. exists b. split; [done|apply String.eqb_refl]. }
    rewrite E, andb_true_r in H. destruct (sw_project_id r) as [p|]; [|done]. cbn in *. apply negb_false_iff, bool_decide_eq_true in H. rewrite <- H.
    by rewrite bool_decide_eq_true_2.
  - by rewrite lookup_insert_ne.
Qed.
Lemma services_step_wf op d : services_wf d → services_wf (services_after d op).
Proof.
  intros Hw. destruct op; cbn [services_after].
  - unfold create_service. destruct (create_validate _ _ _ _ _ _ q) as [[]|] eqn:Hq; [|done]. destruct (foundry_provider_ok d (cr_foundry q)) eqn:Hp; [|done]. cbn.
    destruct (insert_service _ d) as [d'|] eqn:Hd; [|done]. eapply insert_service_wf in Hd; [done|done|by apply created_row_valid|done].
  - unfold patch_service. destruct (check? validate_service_name n in _) as [[]|] eqn:Hp; [|done]. apply check_ok in Hp as [_ Hp].
    destruct (sd_services d !! n) as [r|] eqn:Hr; [|done]. pose proof (wf_keyed _ Hw _ _ Hr) as <-.
    destruct (patch_in_tx dbnow p r d) as [[d' x]|] eqn:Hd; [|done]. by eapply patch_in_tx_wf in Hd.
  - by apply delete_service_wf.
  - unfold set_service_enabled. destruct (validate_service_name n); [|done]. destruct (sd_services d !! n) as [r|] eqn:Hr; [|done].
    pose proof (wf_keyed _ Hw _ _ Hr) as <-. destruct (update_service _ _ d) as [d'|] eqn:Hd; [|done].
    eapply update_service_wf in Hd; [done|done|done|by eapply enabled_row_valid, wf_valid|by apply (wf_provider _ Hw _ _ Hr)].
  - unfold upsert_studio_service. destruct (import_validate _ _ _ q) as [[]|] eqn:Hq; [|done]. destruct (upsert_row dbnow q d) as [d'|] eqn:Hd; [|done].
    by eapply upsert_row_wf in Hd.
  - unfold activate_service_registry_import. destruct (activate_all dbnow services d) as [[d' l]|] eqn:Ha; [|done].
    apply activate_all_wf in Ha; [|done]. destruct (is_some _); [done|]. by eapply same_services_wf.
  - unfold insert_service_registry_snapshot. destruct (is_some _); [done|]. by eapply same_services_wf.
  - destruct (sd_services d !! n) as [r|] eqn:Hr; [|done]. cbn. apply with_parts_wf; eauto. intros m [->%elem_of_singleton|Hm]%elem_of_union; [right|by left].
    by rewrite Hr.
  - apply with_parts_wf; eauto. intros n r p0 _ _ Hp. by apply elem_of_union_r.
  - destruct (some_service _ d) eqn:Hs; [done|]. apply with_parts_wf; eauto. intros n r q Hr Eq Hq. apply elem_of_difference. split; [done|].
    intros ->%elem_of_singleton. apply (some_service_false _ _ _ _ Hs) in Hr. by rewrite bool_decide_eq_true_2 in Hr.
  - destruct (sd_keys d !! k) eqn:Hk; [done|]. cbn. apply with_parts_wf; eauto. intros n r ps b _ _ _ Ho. unfold binding_ok in *. cbn.
    rewrite lookup_insert_ne; [done|]. intros ->. by rewrite Hk in Ho.
  - destruct (is_none _); [done|]. cbn. destruct (some_service _ d) eqn:Hs; [done|]. apply with_parts_wf; eauto. intros. by eapply moved_key_ok.
  - destruct (sd_providers d !! id) eqn:Hi; [done|]. cbn. apply with_parts_wf; eauto. intros n r b kind' _ _ Hb. rewrite lookup_insert_ne; [done|congruence].
  - destruct (some_service _ d) eqn:Hs; [done|]. apply with_parts_wf; eauto. intros n r b kind Hr Eb Hb. rewrite lookup_delete_ne; [done|]. intros ->.
    apply (some_service_false _ _ _ _ Hs) in Hr. cbn in Hr. rewrite Eb in Hr. cbn in Hr. by rewrite String.eqb_refl in Hr.
  - by eapply same_services_wf.
Qed.
Lemma services_history_wf ops d : services_wf d → services_wf (foldl services_after d ops).
Proof. revert d. induction ops as [|op ops IH]; intros d Hw; [done|]. apply IH. by apply services_step_wf. Qed.
Lemma no_services_wf : services_wf no_services.
Proof. split; intros *; cbn; rewrite ?lookup_empty; done. Qed.

(** *** Revisions *)

Definition rev_of (r : ServiceRow) : Z := from_option revision 0 (profiles_of r).
(** What happens to a row while its service is there: profiles are not dropped,
    and a change of theirs raises the revision. *)
Record advances (r r' : ServiceRow) : Prop := {
  adv_kept : is_Some (profiles_of r) → is_Some (profiles_of r');
  adv_rev : rev_of r ≤ rev_of r';
  adv_same : rev_of r' = rev_of r → profiles_of r' = profiles_of r
}.
#[local] Instance advances_preorder : PreOrder advances.
Proof.
  split; [by intros r; split|]. intros r s t [K1 R1 S1] [K2 R2 S2]. split; [auto|lia|]. intros E. rewrite S2 by lia. apply S1. lia.
Qed.
Lemma guard_advances d old r x : guard_authentication_profile_revision d (Some old) r = Ok x → advances old x.
Proof.
  unfold guard_authentication_profile_revision. cbn [mbind option_bind]. unfold rev_of. destruct (profiles_of r) as [ps|] eqn:Er.
  - rewrite guard_ok, check_ok. intros (Hr & _ & Hx). apply negb_false_iff, Z.eqb_eq in Hr. cbn [is_some_and] in Hx. fold (rev_of old) in Hr, Hx.
    destruct (bool_decide (sw_access old = sw_access r)) eqn:Ea; injection Hx as <-.
    + apply bool_decide_eq_true in Ea. assert (profiles_of r = profiles_of old) as E by (unfold profiles_of; by rewrite Ea).
      split; unfold rev_of; by rewrite E.
    + assert (rev_of (with_access (at_revision (rev_of old + 1) (sw_access r)) r) = rev_of old + 1) as E.
      { unfold rev_of at 1. unfold profiles_of in Er |- *. cbn. by rewrite Er. }
      split; [|rewrite E; lia..]. intros _. unfold profiles_of in Er |- *. cbn. rewrite Er. by eexists.
  - destruct (profiles_of old) eqn:Eo; [done|]. intros [= <-]. split; unfold rev_of; by rewrite Er, Eo.
Qed.
Lemma update_advances d old r d' n y : services_wf d → sd_services d !! sw_name old = Some old → update_service old r d = Ok d' →
  sd_services d !! n = Some y → (n = sw_name old → sw_name r = n) →
  ∃ y', sd_services d' !! n = Some y' ∧ advances y y' ∧ (n ≠ sw_name old → y' = y) ∧ (n = sw_name old → sw_studio_service_id y' = sw_studio_service_id r).
Proof.
  intros Hw Ho. unfold update_service. destruct (guard_authentication_profile_revision d (Some old) r) as [x|] eqn:Hg; [|done].
  pose proof (guard_advances _ _ _ _ Hg) as Ha. apply guard_row in Hg as (En & _ & Es & _). rewrite !guard_ok. intros (_ & Hu & _ & [= <-]) Hy Hn.
  cbn [set_services sd_services]. destruct (decide (n = sw_name old)) as [E|Hne].
  - rewrite <- E in Ho. rewrite Ho in Hy. injection Hy as <-. exists x. rewrite En, (Hn E), lookup_insert_eq. done.
  - exists y. split; [|by split].
    rewrite lookup_insert_ne, lookup_delete_ne by congruence || (apply orb_false_iff in Hu as [Hu _]; intros Ex; rewrite Ex, Hy in Hu;
      destruct (String.eqb_spec n (sw_name old)); done). done.
Qed.
Lemma insert_keeps d r d' n y : insert_service r d = Ok d' → sd_services d !! n = Some y → sd_services d' !! n = Some y.
Proof.
  unfold insert_service. destruct (guard_authentication_profile_revision d None r) as [x|]; [|done]. rewrite !guard_ok. intros (_ & Hu & _ & [= <-]) Hy.
  cbn. rewrite lookup_insert_ne; [done|]. intros E. apply orb_false_iff in Hu as [Hu _]. by rewrite E, Hy in Hu.
Qed.
(** An import does not rename the service. *)
Definition import_keeps (n : string) (y : ServiceRow) (q : StudioServiceImportRequest) : bool :=
  negb (bool_decide (sw_studio_service_id y = Some (im_studio_service_id q))) || String.eqb (im_name q) n.
Lemma upsert_advances dbnow q d d' n y : services_wf d → upsert_row dbnow q d = Ok d' → sd_services d !! n = Some y → import_keeps n y q = true →
  ∃ y', sd_services d' !! n = Some y' ∧ advances y y' ∧ sw_studio_service_id y' = sw_studio_service_id y.
Proof.
  intros Hw. unfold upsert_row. destruct (guard_authentication_profile_revision d None _) as [x|] eqn:Hg; [|done].
  apply guard_row in Hg as (En & _ & Es & _). cbn in En, Es. rewrite guard_ok. intros [_ Hu] Hy Hk.
  destruct (studio_holder d (im_studio_service_id q)) as [[m r]|] eqn:Hh; [|exists y; split; [by eapply insert_keeps|done]].
  apply studio_holder_Some in Hh as [Hr Er]. pose proof (wf_keyed _ Hw _ _ Hr) as Em. subst m.
  eapply update_advances in Hu as (y' & Hy' & Ha & Hne & Heq); [|done|done|exact Hy|].
  - exists y'. split; [done|]. split; [done|]. destruct (decide (n = sw_name r)) as [E|Hn]; [|by rewrite Hne].
    rewrite Heq by done. cbn. rewrite E, Hr in Hy. injection Hy as <-. by rewrite Es, Er.
  - intros ->. rewrite Hr in Hy. injection Hy as <-. unfold import_keeps in Hk. rewrite bool_decide_eq_true_2 in Hk by done. cbn in Hk.
    apply String.eqb_eq in Hk. cbn. by rewrite En.
Qed.
(** The service [n] is not deleted, and no import renames it. *)
Definition keeps (n : string) (d : ServicesDb) (op : ServiceOp) : bool :=
  match op with
  | Deletes m => negb (String.eqb m n)
  | Imports _ q => is_none_or (λ y, import_keeps n y q) (sd_services d !! n)
  | Activates _ _ _ _ qs _ => is_none_or (λ y, forallb (import_keeps n y) qs) (sd_services d !! n)
  | _ => true
  end.
Fixpoint kept (n : string) (d : ServicesDb) (ops : list ServiceOp) : bool :=
  match ops with
  | [] => true
  | op :: ops => keeps n d op && kept n (services_after d op) ops
  end.
Lemma activate_advances dbnow qs d x n y : services_wf d → activate_all dbnow qs d = Ok x → sd_services d !! n = Some y →
  forallb (import_keeps n y) qs = true → ∃ y', sd_services x.1 !! n = Some y' ∧ advances y y'.
Proof.
  unfold activate_all. generalize (@nil ServiceResponse). revert d y. induction qs as [|q qs IH]; intros d y l Hw; cbn [try_fold].
  - intros [= <-] Hy _. by exists y.
  - unfold activate_one at 1. cbn [fst snd]. destruct (upsert_studio_service_in_tx dbnow q d) as [[d1 z]|] eqn:Hq; [|done].
    intros Hx Hy. cbn [forallb]. rewrite andb_true_iff. intros [Hk Hks]. pose proof (upsert_in_tx_wf _ _ _ _ Hw Hq) as Hw1. cbn in Hw1.
    unfold upsert_studio_service_in_tx in Hq. apply check_ok in Hq as [_ Hq]. destruct (upsert_row dbnow q d) as [d2|] eqn:Hu; [|done].
    destruct (ok_or _ _); [|done]. injection Hq as -> _. destruct (upsert_advances _ _ _ _ _ _ Hw Hu Hy Hk) as (y1 & Hy1 & A1 & E1).
    destruct (IH d1 y1 _ Hw1 Hx Hy1) as (y2 & Hy2 & A2).
    + rewrite forallb_forall in Hks |- *. intros q' Hq'. specialize (Hks q' Hq'). unfold import_keeps in *. by rewrite E1.
    + exists y2. split; [done|by etrans].
Qed.
Lemma patch_advances dbnow p r d d' x n y : services_wf d → sd_services d !! sw_name r = Some r → patch_in_tx dbnow p r d = Ok (d', x) →
  sd_services d !! n = Some y → ∃ y', sd_services d' !! n = Some y' ∧ advances y y'.
Proof.
  intros Hw Hr Hp Hy. unfold patch_in_tx in Hp. destruct (ok_or _ _) as [before|]; [|done]. apply check_ok in Hp as [_ Hp].
  destruct (update_service _ _ d) as [d1|] eqn:Hd; [|done]. eapply update_advances in Hd as (y' & Hy' & Ha & _); [|done|done|exact Hy|done].
  exists y'. split; [|done]. destruct (ok_or _ _); [|done]. unfold reprice_if in Hp. destruct (reprice_existing_usage p).
  - destruct (reprice_service_usage_in_tx _ _ _ _ _ _ _ _ _ _) as [[h t]|]; [|done]. by injection Hp as <- <-.
  - by injection Hp as <- <-.
Qed.
Lemma step_advances op d n y : services_wf d → sd_services d !! n = Some y → keeps n d op = true →
  ∃ y', sd_services (services_after d op) !! n = Some y' ∧ advances y y'.
Proof.
  intros Hw Hy Hk. assert (∃ y', sd_services d !! n = Some y' ∧ advances y y') as Hsame by by exists y.
  destruct op; cbn [services_after]; try done; try (repeat case_match; done).
  - unfold create_service. destruct (create_validate _ _ _ _ _ _ q); [|done]. destruct (negb _); [done|].
    destruct (insert_service _ d) as [d'|] eqn:Hd; [|done]. exists y. split; [by eapply insert_keeps|done].
  - unfold patch_service. destruct (check? validate_service_name n0 in _); [|done]. destruct (sd_services d !! n0) as [r|] eqn:Hr; [|done].
    pose proof (wf_keyed _ Hw _ _ Hr) as <-. destruct (patch_in_tx dbnow p r d) as [[d' x]|] eqn:Hd; [|done]. by eapply patch_advances in Hd.
  - unfold delete_service. destruct (validate_service_name n0); [|done]. destruct (is_none _); [done|]. cbn in Hk |- *.
    rewrite lookup_delete_ne; [done|]. intros ->. by rewrite String.eqb_refl in Hk.
  - unfold set_service_enabled. destruct (validate_service_name n0); [|done]. destruct (sd_services d !! n0) as [r|] eqn:Hr; [|done].
    pose proof (wf_keyed _ Hw _ _ Hr) as <-. destruct (update_service _ _ d) as [d'|] eqn:Hd; [|done].
    eapply update_advances in Hd as (y' & Hy' & Ha & _); [|done|done|exact Hy|done]. by exists y'.
  - unfold upsert_studio_service. destruct (import_validate _ _ _ q); [|done]. destruct (upsert_row dbnow q d) as [d'|] eqn:Hd; [|done].
    cbn in Hk. rewrite Hy in Hk. eapply upsert_advances in Hd as (y' & Hy' & Ha & _); [|done..]. by exists y'.
  - unfold activate_service_registry_import. destruct (activate_all dbnow services d) as [[d' l]|] eqn:Ha; [|done].
    cbn in Hk. rewrite Hy in Hk. destruct (activate_advances _ _ _ _ _ _ Hw Ha Hy Hk) as (y' & Hy' & Hadv). destruct (is_some _); [done|]. by exists y'.
  - unfold insert_service_registry_snapshot. by destruct (is_some _).
Qed.
Lemma history_advances ops d n y : services_wf d → sd_services d !! n = Some y → kept n d ops = true →
  ∃ y', sd_services (foldl services_after d ops) !! n = Some y' ∧ advances y y'.
Proof.
  revert d y. induction ops as [|op ops IH]; intros d y Hw Hy; [by exists y|]. cbn. rewrite andb_true_iff. intros [Hk Hks].
  destruct (step_advances op d n y Hw Hy Hk) as (y1 & Hy1 & A1). destruct (IH _ y1 (services_step_wf op d Hw) Hy1 Hks) as (y2 & Hy2 & A2).
  exists y2. split; [done|by etrans].
Qed.
(** A patch built on another revision than the stored one changes nothing. *)
Lemma stale_patch_refused dbnow n p a r d : sd_services d !! n = Some r → pr_access p = Some a →
  from_option revision 0 (authentication_profiles a) ≠ rev_of r ∨ (authentication_profiles a = None ∧ is_Some (profiles_of r)) →
  (patch_service dbnow n p d).1 = d ∧ is_ok (patch_service dbnow n p d).2 = false.
Proof.
  intros Hr Ha Hs. unfold patch_service. destruct (check? validate_service_name n in _); [|done]. rewrite Hr.
  assert (∀ dd x, patch_in_tx dbnow p r d ≠ Ok (dd, x)) as Hno.
  { intros dd x. unfold patch_in_tx. destruct (ok_or _ _) as [before|]; [|done]. rewrite check_ok. intros [_ H].
    unfold update_service, guard_authentication_profile_revision in H. cbn [mbind option_bind] in H. unfold profiles_of at 1 in H. cbn in H.
    rewrite Ha in H. cbn in H. fold (rev_of r) in H. destruct (authentication_profiles a) as [ps|].
    - destruct Hs as [Hs|[Hs _]]; [|done]. cbn in Hs. rewrite (proj2 (Z.eqb_neq _ _) Hs) in H. done.
    - assert (is_Some (profiles_of r)) as [ps E]; [|by rewrite E in H]. destruct Hs as [Hs|[_ Hs]]; [|done]. unfold rev_of in Hs.
      destruct (profiles_of r); [by eexists|done]. }
  destruct (patch_in_tx dbnow p r d) as [[dd x]|] eqn:E; [by destruct (Hno dd x)|done].
Qed.
End store.

(** ** Repricing in pages is repricing in one pass *)

Section one_pass.
Variable value_to_string : Value → string.
Variable sha256_hex : string → string.
Variable method_parses : string → bool.
Variable numeric_to_f64 : Z → f64.
Variable f64_to_numeric : f64 → Z.
Variable numeric_number : Z → Number.
Variable uuid_parse : string → option string.
Variables before after : ServiceRegistration.
Abbreviation row := (reprice_row value_to_string sha256_hex method_parses numeric_to_f64 uuid_parse before after).
Abbreviation apply := (apply_change f64_to_numeric numeric_number after).
Abbreviation rows_of := (service_events after).
Abbreviation pages := (reprice_pages value_to_string sha256_hex method_parses numeric_to_f64 f64_to_numeric numeric_number uuid_parse before after).
Abbreviation id_le := (λ a b : string * LedgerRow, String.compare a.1 b.1 ≠ Gt).

Lemma id_sorted_unique (l1 l2 : list (string * LedgerRow)) : NoDup l1.*1 → StronglySorted id_le l1 → StronglySorted id_le l2 → l1 ≡ₚ l2 → l1 = l2.
Proof.
  intros Hnd H1 H2 Hp. apply (StronglySorted_unique_strong id_le); [|done..]. intros [i x] [j y] Ha Hb Hab Hba. rewrite <- Hp in Hb. cbn in Hab, Hba.
  assert (i = j) as ->.
  { apply String.compare_eq_iff. rewrite String.compare_antisym in Hba. by destruct (String.compare i j). }
  f_equal. apply list_elem_of_lookup in Ha as [m Ha], Hb as [n Hb]. assert (m = n) as ->; [|congruence].
  apply (NoDup_lookup l1.*1 m n j); [done|by rewrite list_lookup_fmap, Ha|by rewrite list_lookup_fmap, Hb].
Qed.
Lemma rows_sorted cursor ev : StronglySorted id_le (rows_of cursor ev).
Proof. apply sort_by_sorted, total_string. Qed.
Lemma rows_nodup cursor ev : NoDup (rows_of cursor ev).*1.
Proof. unfold service_events. rewrite sort_by_perm. apply NoDup_fst_filter, NoDup_fst_map_to_list. Qed.
Lemma rows_elem cursor ev i r : (i, r) ∈ rows_of cursor ev ↔ ev !! i = Some r ∧ lr_service_name r = Some (name after) ∧ past cursor (i, r) = true.
Proof.
  unfold service_events. rewrite sort_by_perm, list_elem_of_In, filter_In, <- list_elem_of_In, elem_of_map_to_list. cbn.
  by rewrite andb_true_iff, bool_decide_eq_true.
Qed.
Lemma key_ltb_trans a b c : key_ltb a b = true → key_ltb b c = true → key_ltb a c = true.
Proof.
  unfold key_ltb. intros H1 H2. destruct (String.compare a c) eqn:E; [|done|].
  - apply String.compare_eq_iff in E as ->. rewrite String.compare_antisym in H1. by destruct (String.compare b c).
  - destruct (string_compare_trans a b c); [by intros X; rewrite X in H1|by intros X; rewrite X in H2|done].
Qed.
Lemma key_ltb_irrefl a : key_ltb a a = false.
Proof. unfold key_ltb. pose proof (String.compare_antisym a a) as E. by destruct (String.compare a a). Qed.
(** The last row of a page separates it from the rows that follow. *)
Lemma page_boundary A B i x : NoDup ((A ++ [(i, x)]) ++ B).*1 → StronglySorted id_le ((A ++ [(i, x)]) ++ B) →
  (∀ j y, (j, y) ∈ A ++ [(i, x)] → key_ltb i j = false) ∧ (∀ j y, (j, y) ∈ B → key_ltb i j = true).
Proof.
  intros Hnd (HAB & HA & HB)%StronglySorted_app. split; intros j y Hj.
  - apply elem_of_app in Hj as [Hj|Hj]; [|by apply list_elem_of_singleton in Hj as [= -> ->]; apply key_ltb_irrefl].
    assert (id_le (j, y) (i, x)) as Hle by
      (apply (StronglySorted_app_1_elem_of id_le A [(i, x)]); [exact HA|done|by apply list_elem_of_singleton]).
    cbn in Hle. unfold key_ltb. rewrite String.compare_antisym. by destruct (String.compare j i).
  - assert ((i, x) ∈ A ++ [(i, x)]) as Hi by by apply elem_of_app; right; apply list_elem_of_singleton.
    pose proof (HAB _ _ Hi Hj) as Hle. cbn in Hle. unfold key_ltb. destruct (String.compare i j) eqn:E; [|done|done].
    apply String.compare_eq_iff in E. subst j. rewrite fmap_app in Hnd. apply NoDup_app in Hnd as (_ & Hd & _).
    destruct (Hd i); apply list_elem_of_fmap; [by exists (i, x)|by exists (i, y)].
Qed.
(** After a page the rows left are those that follow its last one, whatever
    happened to the rows of the page. *)
Lemma rows_left cursor ev ev' A B i x : rows_of cursor ev = A ++ B → last A = Some (i, x) → (∀ j, j ∉ A.*1 → ev' !! j = ev !! j) →
  rows_of (Some i) ev' = B.
Proof.
  intros HV Hlast Hev. apply last_Some in Hlast as [A' ->].
  pose proof (rows_nodup cursor ev) as Hnd. pose proof (rows_sorted cursor ev) as Hs. rewrite HV in Hnd, Hs.
  destruct (page_boundary _ _ _ _ Hnd Hs) as [HleA HltB]. rewrite fmap_app in Hnd. apply NoDup_app in Hnd as (_ & Hdis & HndB).
  apply StronglySorted_app in Hs as (_ & _ & HsB).
  assert (∀ j y, (j, y) ∈ (A' ++ [(i, x)]) ++ B ↔ ev !! j = Some y ∧ lr_service_name y = Some (name after) ∧ past cursor (j, y) = true) as HVe
    by (intros; by rewrite <- HV, rows_elem).
  apply id_sorted_unique; [apply rows_nodup|apply rows_sorted|done|].
  apply NoDup_Permutation; [eapply NoDup_fmap_1, rows_nodup|by eapply NoDup_fmap_1|]. intros [j y]. rewrite rows_elem. split.
  - intros (Hy & Hsvc & Hp). cbn in Hp. rewrite Hev in Hy.
    2: { intros ([j' y'] & -> & Hj)%list_elem_of_fmap. apply HleA in Hj. cbn in Hp. by rewrite Hj in Hp. }
    assert ((i, x) ∈ (A' ++ [(i, x)]) ++ B) as Hi by by apply elem_of_app; left; apply elem_of_app; right; apply list_elem_of_singleton.
    apply HVe in Hi as (_ & _ & Hi). assert ((j, y) ∈ (A' ++ [(i, x)]) ++ B) as [Hj|Hj]%elem_of_app; [|by rewrite (HleA _ _ Hj) in Hp|done].
    apply HVe. split; [done|]. split; [done|]. destruct cursor as [c|]; [|done]. cbn in *. by eapply key_ltb_trans.
  - intros Hj. assert ((j, y) ∈ (A' ++ [(i, x)]) ++ B) as (Hy & Hsvc & _)%HVe by by apply elem_of_app; right.
    split; [|split; [done|by apply (HltB j y)]]. rewrite Hev; [done|]. intros Hin. apply (Hdis j Hin), list_elem_of_fmap. by exists (j, y).
Qed.

Lemma row_id i r c : row (i, r) = Some c → uh_id c = i.
Proof. unfold reprice_row. destruct (opt_filter _ _); [|done]. destruct (priced_already _ _ _); [done|]. by intros [= <-]. Qed.
Lemma changes_ids (l : list (string * LedgerRow)) c : c ∈ omap row l → uh_id c ∈ l.*1.
Proof. intros ([i r] & Hl & Hc)%list_elem_of_omap. apply row_id in Hc as ->. apply list_elem_of_fmap. by exists (i, r). Qed.
Lemma apply_other t c j : j ≠ uh_id c → ut_events (apply t c) !! j = ut_events t !! j.
Proof. intros Hj. cbn. by rewrite lookup_alter_ne. Qed.
Lemma applied_other cs t j : (∀ c, c ∈ cs → uh_id c ≠ j) → ut_events (foldl apply t cs) !! j = ut_events t !! j.
Proof.
  revert t. induction cs as [|c cs IH]; intros t Hj; [done|]. cbn [foldl]. rewrite IH by (intros; apply Hj; by right).
  apply apply_other, not_eq_sym, Hj. by left.
Qed.
Lemma length_changes (l : list (string * LedgerRow)) : (length (omap row l) ≤ length l)%nat.
Proof. induction l as [|a l IH]; cbn; [done|]. destruct (row a); cbn; lia. Qed.
Lemma counted_app A B s : counted (A ++ B) (omap row (A ++ B)) s = counted B (omap row B) (counted A (omap row A) s).
Proof.
  unfold counted. cbn. rewrite omap_app, !length_app. pose proof (length_changes A). pose proof (length_changes B). f_equal; lia.
Qed.
Lemma pages_one_pass fuel cursor s t V : rows_of cursor (ut_events t) = V → (length V < fuel)%nat →
  pages fuel cursor s t = Some (counted V (omap row V) s, foldl apply t (omap row V)).
Proof.
  revert cursor s t V. induction fuel as [|fuel IH]; intros cursor s t V HV Hf; [lia|]. cbn [reprice_pages]. rewrite HV.
  destruct V as [|v V]; [cbn; unfold counted; cbn; rewrite !Z.add_0_r; by destruct s|].
  assert (take REPRICE_PAGE (v :: V) ≠ []) as Hne by done. revert Hne. pose proof (take_drop REPRICE_PAGE (v :: V)) as E. revert HV Hf E.
  generalize (v :: V) (take REPRICE_PAGE (v :: V)) (drop REPRICE_PAGE (v :: V)). intros W A B HV Hf <- Hne.
  destruct (last A) as [[i x]|] eqn:Hl; [|by apply last_None in Hl]. replace (is_nil A) with false by by destruct A.
  cbn [fmap option_fmap option_map fst]. rewrite (IH (Some i) _ _ B).
  - by rewrite counted_app, omap_app, foldl_app.
  - eapply rows_left; [exact HV|exact Hl|]. intros j Hj. apply applied_other. intros c Hc%changes_ids E. by rewrite E in Hc.
  - rewrite length_app in Hf. destruct A; [done|]. cbn in Hf. lia.
Qed.
(** *** Row by row *)

Definition repriced_event (id : string) (r : LedgerRow) : LedgerRow :=
  if bool_decide (lr_service_name r = Some (name after)) then from_option (λ c, changed_row f64_to_numeric c r) r (row (id, r)) else r.
Lemma applied_row (l : list (string * LedgerRow)) t j r : NoDup l.*1 → (∀ i x, (i, x) ∈ l → ut_events t !! i = Some x) → (j, r) ∈ l →
  ut_events (foldl apply t (omap row l)) !! j = Some (from_option (λ c, changed_row f64_to_numeric c r) r (row (j, r))).
Proof.
  revert t. induction l as [|[i x] l IH]; intros t Hnd Hl Hj; [by apply not_elem_of_nil in Hj|]. cbn in Hnd. apply NoDup_cons in Hnd as [Hi Hnd].
  assert (∀ t', (∀ k y, (k, y) ∈ l → ut_events t' !! k = ut_events t !! k) → ∀ k y, (k, y) ∈ l → ut_events t' !! k = Some y) as Hrest.
  { intros t' Ht' k y Hk. rewrite (Ht' k y Hk). apply Hl. by right. }
  assert (∀ k y, (k, y) ∈ l → k ≠ i) as Hki.
  { intros k y Hk ->. apply Hi, list_elem_of_fmap. by exists (i, y). }
  pose proof (Hl i x (list_elem_of_here _ _)) as Hx.
  apply elem_of_cons in Hj as [[= -> ->]|Hj]; cbn [omap list_omap].
  - assert (∀ c, c ∈ omap row l → uh_id c ≠ i) as Hno by (intros c Hc%changes_ids E; by rewrite E in Hc).
    destruct (row (i, x)) as [c|] eqn:Ec; cbn [foldl from_option]; rewrite (applied_other _ _ _ Hno); [|done].
    cbn. by rewrite (row_id _ _ _ Ec), lookup_alter_eq, Hx.
  - destruct (row (i, x)) as [c|] eqn:Ec; cbn [foldl]; apply IH; try done; apply Hrest; [|done].
    intros k y Hk. apply apply_other. rewrite (row_id _ _ _ Ec). by apply (Hki k y).
Qed.
Lemma repriced_row t id : ut_events (foldl apply t (omap row (rows_of None (ut_events t)))) !! id = repriced_event id <$> ut_events t !! id.
Proof.
  destruct (ut_events t !! id) as [r|] eqn:Hr.
  - cbn. unfold repriced_event. case_bool_decide as Hs.
    + apply applied_row; [apply rows_nodup|by intros i x [? _]%rows_elem|by apply rows_elem].
    + rewrite applied_other; [done|]. intros c Hc%changes_ids E. subst id. apply list_elem_of_fmap in Hc as ([i x] & E & Hc).
      cbn in E. rewrite E in Hr. apply rows_elem in Hc as (Hx & Hs' & _). congruence.
  - cbn. rewrite applied_other; [done|]. intros c Hc%changes_ids E. subst id. apply list_elem_of_fmap in Hc as ([i x] & E & Hc).
    cbn in E. rewrite E in Hr. apply rows_elem in Hc as (Hx & _). congruence.
Qed.
(** What a budget counts of a request. *)
Definition budgeted (r : LedgerRow) : option Z := COALESCE (COALESCE (lr_budget_estimated_cost r) (lr_estimated_cost r)) (Some 0).
Lemma budgeted_kept id r : budgeted (repriced_event id r) = budgeted r.
Proof.
  unfold repriced_event. destruct (bool_decide _); [|done]. destruct (row (id, r)) as [c|]; [|done]. cbn. unfold budgeted. cbn.
  by destruct (lr_budget_estimated_cost r), (lr_estimated_cost r).
Qed.
(** C25: repricing a service page by page ends, and does what one pass over its
    recorded requests does: each request of the service whose price is another
    one now gets it, every other request stays as it was, the counts are exact,
    and no request counts otherwise against a budget. *)
Theorem repricing_exact t :
  let rows := rows_of None (ut_events t) in
  let changes := omap row rows in
  ∃ t', reprice_service_usage_in_tx value_to_string sha256_hex method_parses numeric_to_f64 f64_to_numeric numeric_number uuid_parse before after t
        = Some ({| updated_requests := Z.of_nat (length changes); unchanged_requests := Z.of_nat (length rows) - Z.of_nat (length changes) |}, t') ∧
    t' = foldl apply t changes ∧
    (∀ id, ut_events t' !! id = repriced_event id <$> ut_events t !! id) ∧
    (∀ id r, ut_events t' !! id = Some r → budgeted <$> ut_events t !! id = Some (budgeted r)).
Proof.
  intros rows changes. exists (foldl apply t changes). split; [|split; [done|split]].
  - unfold reprice_service_usage_in_tx. rewrite (pages_one_pass _ _ _ _ rows eq_refl).
    + unfold counted. cbn. pose proof (length_changes rows). fold changes in H |- *. do 3 f_equal. lia.
    + subst rows. unfold service_events. rewrite sort_by_perm, <- length_map_to_list. apply Nat.lt_succ_r, filter_length_le.
  - intros id. apply repriced_row.
  - intros id r. unfold changes, rows. rewrite repriced_row. destruct (ut_events t !! id); [|done]. intros [= <-]. cbn. by rewrite budgeted_kept.
Qed.
End one_pass.

(** ** Properties *)

Section properties.
Variable url_parse : string → option Url.
Variable method_parses : string → bool.
Variable f64_to_string : f64 → string.
Variable has_control : string → bool.
Variable to_lowercase : string → string.
Variable header_name_ok : string → bool.
Variable collate : string → string → comparison.
Variable value_to_string : Value → string.
Variable sha256_hex : string → string.
Variable numeric_to_f64 : Z → f64.
Variable f64_to_numeric : f64 → Z.
Variable numeric_number : Z → Number.
Variable uuid_parse : string → option string.
Abbreviation after ops d :=
  (foldl (services_after url_parse method_parses f64_to_string has_control to_lowercase header_name_ok value_to_string sha256_hex
            numeric_to_f64 f64_to_numeric numeric_number uuid_parse) d ops).
Abbreviation kept := (kept url_parse method_parses f64_to_string has_control to_lowercase header_name_ok value_to_string sha256_hex
            numeric_to_f64 f64_to_numeric numeric_number uuid_parse).
Abbreviation wf := (services_wf url_parse method_parses f64_to_string has_control to_lowercase header_name_ok).
Abbreviation patch := (patch_service url_parse method_parses f64_to_string has_control to_lowercase header_name_ok value_to_string sha256_hex
            numeric_to_f64 f64_to_numeric numeric_number uuid_parse).

Lemma decode_all {A} (f : A → option ServiceRegistration) l : (∀ a, a ∈ l → is_Some (f a)) → is_Some (mapM f l).
Proof.
  induction l as [|a l IH]; intros Hl; [by eexists|]. destruct (Hl a) as [s Hs]; [by left|]. destruct IH as [k Hk]; [intros; apply Hl; by right|].
  exists (s :: k). cbn. by rewrite Hs, Hk.
Qed.
Lemma stored_decodes d n r : wf d → sd_services d !! n = Some r → is_Some (service_registration_from_row r).
Proof. intros Hw Hr. destruct (valid_decodes url_parse method_parses f64_to_string has_control to_lowercase header_name_ok r) as (s & Hs & _); [by eapply wf_valid|]. by exists s. Qed.
(** C36: whatever is called on an empty database, every stored service can be
    read back and passes the validators again, no two services share a studio
    identifier, what a service refers to exists - its project, its Foundry
    provider and the keys its profiles bind, in the same project - and the list
    of services and the route lookup answer. *)
Theorem service_table_wf ops method path :
  let d := after ops no_services in
  wf d ∧ is_ok (list_services collate d) = true ∧ is_ok (service_registration_for_route method path d) = true.
Proof.
  intros d. assert (wf d) as Hw by apply services_history_wf, no_services_wf. split; [done|].
  unfold list_services, service_registration_for_route. split.
  - destruct (decode_all (λ kr : string * ServiceRow, service_registration_from_row kr.2) (sort_by (λ a b, collate a.1 b.1) (map_to_list (sd_services d))))
      as [k Hk]; [|by rewrite Hk]. intros [n r]. rewrite sort_by_perm, elem_of_map_to_list. by apply stored_decodes.
  - destruct (decode_all service_registration_from_row (sort_by by_route_length (map snd (map_to_list (sd_services d))))) as [k Hk]; [|by rewrite Hk].
    intros r. change (map snd) with (fmap (M := list) (A := string * ServiceRow) snd). rewrite sort_by_perm. intros ([n r'] & -> & Hr)%list_elem_of_fmap.
    apply elem_of_map_to_list in Hr. by eapply stored_decodes.
Qed.

(** C13: authentication profiles, once a service has them, stay until it is
    deleted; and a change built on profiles that have been replaced since they
    were read is refused and changes nothing, however other calls intervened. *)
Theorem stale_profiles_refused ops0 ops n r0 r1 dbnow p a
    (d0 := after ops0 no_services) (d1 := after ops d0)
    (H0 : sd_services d0 !! n = Some r0) (Hk : kept n d0 ops = true) (H1 : sd_services d1 !! n = Some r1) (Ha : pr_access p = Some a) :
  (is_Some (profiles_of r0) → is_Some (profiles_of r1)) ∧
  (profiles_of r1 ≠ profiles_of r0 → from_option revision 0 (authentication_profiles a) = rev_of r0 →
   (patch dbnow n p d1).1 = d1 ∧ is_ok (patch dbnow n p d1).2 = false) ∧
  (authentication_profiles a = None → is_Some (profiles_of r1) → (patch dbnow n p d1).1 = d1 ∧ is_ok (patch dbnow n p d1).2 = false).
Proof.
  assert (wf d0) as Hw by apply services_history_wf, no_services_wf.
  destruct (history_advances _ _ _ _ _ _ _ _ _ _ _ _ ops d0 n r0 Hw H0 Hk) as (r & Hr & [K R S]). change (sd_services d1 !! n = Some r) in Hr.
  rewrite H1 in Hr. injection Hr as <-. split; [done|]. split.
  - intros Hne E. eapply stale_patch_refused; [exact H1|exact Ha|]. left. rewrite E. intros E'. by apply Hne, S.
  - intros E Hs. eapply stale_patch_refused; [exact H1|exact Ha|by right].
Qed.

(** The first that passes of a sorted list is the least that passes. *)
Lemma find_least {A} (R : relation A) (p : A → bool) l x : StronglySorted R l → x ∈ l → p x = true →
  ∃ b, List.find p l = Some b ∧ p b = true ∧ b ∈ l ∧ (x = b ∨ R b x).
Proof.
  induction 1 as [|a l Hl IH Ha]; [by intros ?%not_elem_of_nil|]. rewrite Forall_forall in Ha. intros Hx Hp. cbn. destruct (p a) eqn:E.
  - exists a. split; [done|]. split; [done|]. split; [by left|]. apply elem_of_cons in Hx as [->|Hx]; [by left|right; auto].
  - apply elem_of_cons in Hx as [->|Hx]; [congruence|]. destruct (IH Hx Hp) as (b & Hf & Hb & Hin & Hr). exists b. split; [done|]. split; [done|]. split; [by right|done].
Qed.
Lemma decoded_route r s : service_registration_from_row r = Some s → service_route_pattern s = sw_route_pattern r.
Proof.
  unfold service_registration_from_row. destruct (parse_service_cost_mode _), (parse_service_source _), (parse_service_sync_status _); try done.
  by intros [= <-].
Qed.
Lemma by_route_length_total : total_cmp (λ _, True) by_route_length.
Proof.
  split.
  - intros. unfold by_route_length. apply Z.compare_antisym.
  - unfold by_route_length. intros a b c _ _ _ H1 H2. rewrite !Z.compare_le_iff in *. lia.
Qed.
Definition longer (a b : ServiceRegistration) : Prop := char_count (service_route_pattern b) ≤ char_count (service_route_pattern a).
Lemma decoded_sorted rows l : Forall2 (λ r s, service_registration_from_row r = Some s) rows l →
  StronglySorted (λ a b, by_route_length a b ≠ Gt) rows → StronglySorted longer l.
Proof.
  induction 1 as [|r s rows l Hr Hl IH]; [constructor|]. inversion_clear 1 as [|? ? Hs Ha]. constructor; [by apply IH|].
  apply Forall_forall. intros x Hx. apply list_elem_of_lookup in Hx as [i Hi]. destruct (Forall2_lookup_r _ _ _ _ _ Hl Hi) as (y & Hy & Ey).
  rewrite Forall_forall in Ha. specialize (Ha y (list_elem_of_lookup_2 _ _ _ Hy)). unfold by_route_length in Ha. rewrite Z.compare_le_iff in Ha.
  unfold longer. by rewrite (decoded_route _ _ Hr), (decoded_route _ _ Ey).
Qed.
(** A request is routed to a stored service that matches its path and method,
    and none that matches has a longer pattern; only if none matches it is
    routed nowhere. *)
Theorem longest_route_selected d method path out : service_registration_for_route method path d = Ok out →
  ∀ n r s, sd_services d !! n = Some r → service_registration_from_row r = Some s → serves method path s = true →
  ∃ best, out = Some best ∧ serves method path best = true ∧ char_count (service_route_pattern s) ≤ char_count (service_route_pattern best) ∧
    ∃ m r', sd_services d !! m = Some r' ∧ service_registration_from_row r' = Some best.
Proof.
  unfold service_registration_for_route. set (rows := sort_by _ _). destruct (mapM service_registration_from_row rows) as [l|] eqn:Hl; [|done]. cbn.
  intros [= <-] n r s Hr Hs Hm. apply mapM_Some in Hl. assert (∀ x, x ∈ rows ↔ ∃ m, sd_services d !! m = Some x) as Hrows.
  { intros x. subst rows. rewrite sort_by_perm. change (map snd) with (fmap (M := list) (A := string * ServiceRow) snd). rewrite list_elem_of_fmap. split.
    - intros ([m y] & -> & Hy). exists m. by apply elem_of_map_to_list in Hy.
    - intros [m Hx]. exists (m, x). split; [done|by apply elem_of_map_to_list]. }
  assert (r ∈ rows) as Hin by (apply Hrows; by exists n). apply list_elem_of_lookup in Hin as [i Hi].
  destruct (Forall2_lookup_l _ _ _ _ _ Hl Hi) as (s' & Hsi & E). rewrite Hs in E. injection E as <-. apply list_elem_of_lookup_2 in Hsi.
  destruct (find_least longer (serves method path) l s) as (best & Hf & Hb & Hbl & Hlong); [|done..|].
  { eapply decoded_sorted; [exact Hl|]. apply sort_by_sorted, by_route_length_total. }
  exists best. split; [done|]. split; [done|]. split; [destruct Hlong as [->|]; [lia|done]|].
  apply list_elem_of_lookup in Hbl as [k Hk]. destruct (Forall2_lookup_r _ _ _ _ _ Hl Hk) as (rb & Hrb & Eb).
  apply list_elem_of_lookup_2, Hrows in Hrb as [m Hmr]. by exists m, rb.
Qed.
End properties.

(** A service with an authentication profile, changed after it was read. *)
Module ServiceSample.
Definition profile (id : string) : AuthenticationProfile :=
  {| profile_id := id; profile_name := id; profile_enabled := true; authentication := RelaynaKeyOnly; profile_entra := None |}.
Definition access_at (n : Z) (ids : list string) : EndpointAccess :=
  {| authentication_profiles := Some {| revision := n; profiles := map profile ids; bindings := [{| bound_key := "k-1"; bound_profile := "batch" |}] |};
     skip_entra := false; entra := None; accessa := None; websocket := None; user_token_forwarding := None |}.
Definition request (health : option string) (a : EndpointAccess) : ServiceCreateRequest :=
  {| cr_foundry := None; cr_access := a; cr_name := "billing"; cr_project_id := Some "p-1"; cr_studio_service_id := Some "studio-7";
     cr_route_pattern := None; cr_upstream_base_url := Some ""; cr_health_check_path := health; cr_health_check_method := "GET"; cr_enabled := true;
     cr_allowed_methods := ["POST"]; cr_credential := Some "secret"; cr_timeout_ms := 30000; cr_max_body_bytes := 1048576; cr_cost_mode := CostNone;
     cr_estimated_cost_usd := None; cr_pricing_rules := []; cr_openapi_source_path := None; cr_openapi_endpoints := []; cr_endpoint_pricing_rules := [];
     cr_fallback_services := [] |}.
Definition patch_access (a : EndpointAccess) : ServicePatchRequest :=
  {| pr_foundry := None; pr_access := Some a; pr_project_id := None; pr_studio_service_id := None; pr_route_pattern := None;
     pr_upstream_base_url := None; pr_health_check_path := None; pr_health_check_method := None; pr_enabled := None; pr_allowed_methods := None;
     pr_credential := None; pr_timeout_ms := None; pr_max_body_bytes := None; pr_cost_mode := None; pr_estimated_cost_usd := None;
     pr_pricing_rules := None; pr_openapi_source_path := None; pr_openapi_schema_hash := None; pr_openapi_synced_at := None;
     pr_openapi_endpoints := None; pr_endpoint_pricing_rules := None; pr_fallback_services := None; pr_sync_status := None;
     reprice_existing_usage := false |}.
Definition import (n : string) : StudioServiceImportRequest :=
  {| im_studio_service_id := "studio-7"; im_name := n; im_project_id := None; im_route_pattern := None; im_upstream_base_url := None;
     im_health_check_path := None; im_health_check_method := "GET"; im_allowed_methods := ["POST"]; im_category := None; im_default_pricing := None |}.
Abbreviation after ops d :=
  (foldl (services_after (λ _, None) (λ _, true) (λ _, "1") (λ _, false) (λ s, s) (λ _, true) (λ _, "") (λ s, s) f64_of_Z (λ _, 0) PosInt Some) d ops).
Definition created : list ServiceOp := [AddsProject "p-1"; AddsKey "k-1" (Some "p-1"); Creates 1 (request None (access_at 0 ["batch"]))].
Definition changed : list ServiceOp := [Patches 2 "billing" (patch_access (access_at 1 ["batch"; "spare"])); Enables 3 "billing" false].
Definition d0 : ServicesDb := after created no_services.
Definition d1 : ServicesDb := after changed d0.
Definition billing (d : ServicesDb) : ServiceRow := default (imported_row 0 (import "billing")) (sd_services d !! "billing").
Example changed_revision : (rev_of (billing d0), rev_of (billing d1)) = (1, 2).
Proof. by vm_compute. Qed.
End ServiceSample.
Lemma stale_profiles_refused_witness :
  let stale := ServiceSample.patch_access (ServiceSample.access_at 1 ["batch"]) in
  let d1 := ServiceSample.d1 in
  (patch_service (λ _, None) (λ _, true) (λ _, "1") (λ _, false) (λ s, s) (λ _, true) (λ _, "") (λ s, s) f64_of_Z (λ _, 0) PosInt Some 4 "billing" stale d1).1 = d1.
Proof.
  refine (proj1 (proj1 (proj2 (stale_profiles_refused (λ _, None) (λ _, true) (λ _, "1") (λ _, false) (λ s, s) (λ _, true) (λ _, "") (λ s, s) f64_of_Z
    (λ _, 0) PosInt Some ServiceSample.created ServiceSample.changed "billing" (ServiceSample.billing ServiceSample.d0)
    (ServiceSample.billing ServiceSample.d1) 4 (ServiceSample.patch_access (ServiceSample.access_at 1 ["batch"])) (ServiceSample.access_at 1 ["batch"]) _ _ _ eq_refl)) _ _)).
  - vm_compute. reflexivity.
  - vm_compute. reflexivity.
  - vm_compute. reflexivity.
  - vm_compute. discriminate.
  - vm_compute. reflexivity.
Defined.

(** A blank path for health checks passes validation and is refused by the
    table, which is reported as if the database were not there. *)
Theorem blank_health_path_unavailable :
  let d := ServiceSample.after [AddsProject "p-1"] no_services in
  let q := ServiceSample.request (Some "") no_access in
  create_validate (λ _, None) (λ _, true) (λ _, "1") (λ _, false) (λ s, s) (λ _, true) q = Ok tt ∧
  create_service (λ _, None) (λ _, true) (λ _, "1") (λ _, false) (λ s, s) (λ _, true) 1 q d = (d, Err StoreUnavailable).
Proof. by vm_compute. Qed.
(** Importing a service again marks it synchronized although it has no upstream
    yet: a blank one is incomplete only when it is created or patched. *)
Theorem reimport_overstates :
  let d := ServiceSample.after [Imports 9 (ServiceSample.import "billing")] ServiceSample.d0 in
  (sw_sync_status (ServiceSample.billing ServiceSample.d0), sw_sync_status (ServiceSample.billing d)) = ("incomplete", "synced") ∧
  (missing_runtime_fields <$> service_registration_from_row (ServiceSample.billing d)) = Some ["upstream_base_url"].
Proof. by vm_compute. Qed.
(** Importing under a new name a service that something links to is refused,
    and a missing project is blamed. *)
Theorem renamed_import_refused :
  let d := ServiceSample.after [NamesService "billing"] ServiceSample.d0 in
  (upsert_studio_service (λ _, None) (λ _, true) (λ _, "1") 9 (ServiceSample.import "invoices") d) = (d, Err MissingProject).
Proof. by vm_compute. Qed.
