(* ===== verification/ProviderStore.v ===== *)
(** * Provider connections and settings in the database

    Models [AdminProviderConfigStore], [ProviderConfigLookup],
    [AdminStudioConnectionStore] and [AdminGatewayAuthSettingsStore] of
    [crates/gateway-store/src/postgres.rs] over their tables, with the checks
    and unique indexes and the trigger that raises the revision of a changed
    connection.  A call is one step, except that settings are read in one
    statement and written in another.  [now()] and new identifiers are
    arguments; texts carry no NUL.  The collation, the URL parser and the
    grammar of header names are parameters. *)

From S2P Require Import Prelude SocketFrames StreamGuardrails Errors Routing RouteSettings Json GuardrailPolicy Policies Guardrails AuthAdmission VerificationCache VerificationFlight Auth EndpointAccess Entra AuthSettings TrafficRequest ProviderSelection OpenApi UsageCsv Access KeyAdmin AdminStore ProxyContext Foundry ProviderConfigs.

(** ** Rows *)

Record ProviderRow := {
  vr_provider : string;
  vr_name : string;
  vr_base_url : string;
  vr_enabled : bool;
  vr_credential_secret : option string;
  vr_header_mode : string;
  vr_header_name : option string;
  vr_header_format : string;
  vr_foundry : option FoundryIdentity;
  vr_created_at : Z;
  vr_updated_at : Z;
  vr_config_revision : Z
}.
Record MappingRow := {
  mw_scope : string;
  mw_key_id : option string;
  mw_project_id : option string;
  mw_enabled : bool;
  mw_credential_secret : option string;
  mw_created_at : Z;
  mw_updated_at : Z
}.
(** Of keys and projects the names shown, of services the connections they use. *)
Record ProvidersDb := {
  vd_configs : gmap string ProviderRow;
  vd_mappings : gmap string MappingRow;
  vd_keys : gmap string string;
  vd_projects : gmap string string;
  vd_bound : gset string;
  vd_studio : option StoredStudioConnection;
  vd_auth : option StoredGatewayAuthSettings
}.
Definition set_configs x (d : ProvidersDb) : ProvidersDb :=
  {| vd_configs := x; vd_mappings := vd_mappings d; vd_keys := vd_keys d; vd_projects := vd_projects d; vd_bound := vd_bound d;
     vd_studio := vd_studio d; vd_auth := vd_auth d |}.
Definition set_mappings x (d : ProvidersDb) : ProvidersDb :=
  {| vd_configs := vd_configs d; vd_mappings := x; vd_keys := vd_keys d; vd_projects := vd_projects d; vd_bound := vd_bound d;
     vd_studio := vd_studio d; vd_auth := vd_auth d |}.
Definition set_settings s a (d : ProvidersDb) : ProvidersDb :=
  {| vd_configs := vd_configs d; vd_mappings := vd_mappings d; vd_keys := vd_keys d; vd_projects := vd_projects d; vd_bound := vd_bound d;
     vd_studio := s; vd_auth := a |}.

(** ** The tables' own rules *)

(** [~ '^https?://'], and the same without regard to case. *)
Definition http_start (s : string) : bool := starts_with s "http://" || starts_with s "https://".
Definition http_start_ci (s : string) : bool := http_start (to_ascii_lowercase s).
Definition char_length (s : string) : Z := Z.of_nat (length (char_starts 0 s)).
Definition trim_spaces (s : string) : string := trim_end_matches " " (ServiceTypes.trim_start_char " " s).
Definition config_checks (r : ProviderRow) : bool :=
  is_ok (parse_provider_config_kind (vr_provider r)) && (0 <? char_length (trim_spaces (vr_name r))) && (char_length (vr_name r) <=? 120)
  && http_start (vr_base_url r) && is_ok (parse_credential_header_mode (vr_header_mode r))
  && (negb (String.eqb (vr_header_mode r) "custom_header") || is_some (vr_header_name r))
  && is_ok (parse_credential_header_value_format (vr_header_format r))
  && Bool.eqb (String.eqb (vr_provider r) "azure-foundry") (is_some (vr_foundry r)) && (0 <? vr_config_revision r).
Definition enabled_litellm (r : ProviderRow) : bool := String.eqb (vr_provider r) "litellm" && vr_enabled r.
(** The unique indexes: one name per kind, and one enabled LiteLLM connection. *)
Definition config_taken (id : string) (r : ProviderRow) (d : ProvidersDb) : bool :=
  existsb (λ kr, negb (String.eqb kr.1 id)
                 && (String.eqb (vr_provider kr.2) (vr_provider r) && String.eqb (vr_name kr.2) (vr_name r)
                     || enabled_litellm kr.2 && enabled_litellm r)) (map_to_list (vd_configs d)).
Definition provider_write_error (taken : bool) : GatewayError := if taken then DuplicateProviderConfig else StoreUnavailable.
Definition insert_config (id : string) (r : ProviderRow) (d : ProvidersDb) : GatewayResult ProvidersDb :=
  if negb (config_checks r) then Err (provider_write_error false)
  else if is_some (vd_configs d !! id) || config_taken id r d then Err (provider_write_error true)
  else Ok (set_configs (<[id := r]> (vd_configs d)) d).
(** The trigger [advance_provider_config_revision]. *)
Definition advance_revision (old r : ProviderRow) : ProviderRow :=
  {| vr_provider := vr_provider r; vr_name := vr_name r; vr_base_url := vr_base_url r; vr_enabled := vr_enabled r;
     vr_credential_secret := vr_credential_secret r; vr_header_mode := vr_header_mode r; vr_header_name := vr_header_name r;
     vr_header_format := vr_header_format r; vr_foundry := vr_foundry r; vr_created_at := vr_created_at r; vr_updated_at := vr_updated_at r;
     vr_config_revision := vr_config_revision old + 1 |}.
Definition update_config (id : string) (old r : ProviderRow) (d : ProvidersDb) : GatewayResult (ProvidersDb * ProviderRow) :=
  let x := advance_revision old r in
  if (vr_config_revision old =? i64_max) || negb (config_checks x) then Err (provider_write_error false)
  else if config_taken id x d then Err (provider_write_error true)
  else Ok (set_configs (<[id := x]> (vd_configs d)) d, x).

(** ** Responses *)

Record ProviderConfigResponse := {
  wr_foundry : option FoundryIdentity;
  wr_id : string;
  wr_provider : ProviderConfigKind;
  wr_name : string;
  wr_base_url : string;
  wr_enabled : bool;
  wr_credential_configured : bool;
  wr_header_mode : CredentialHeaderMode;
  wr_header_name : option string;
  wr_header_format : CredentialHeaderValueFormat;
  wr_created_at : Z;
  wr_updated_at : Z
}.
Definition provider_config_response_from_row (id : string) (r : ProviderRow) : GatewayResult ProviderConfigResponse :=
  let? kind := parse_provider_config_kind (vr_provider r) in
  let? mode := parse_credential_header_mode (vr_header_mode r) in
  let? format := parse_credential_header_value_format (vr_header_format r) in
  Ok {| wr_foundry := vr_foundry r; wr_id := id; wr_provider := kind; wr_name := vr_name r; wr_base_url := vr_base_url r;
        wr_enabled := vr_enabled r; wr_credential_configured := is_some_and (λ v, negb (is_empty v)) (vr_credential_secret r);
        wr_header_mode := mode; wr_header_name := vr_header_name r; wr_header_format := format; wr_created_at := vr_created_at r;
        wr_updated_at := vr_updated_at r |}.
Record LiteLlmCredentialMappingResponse := {
  wm_id : string;
  wm_scope : LiteLlmCredentialMappingScope;
  wm_target_id : string;
  wm_target_label : option string;
  wm_enabled : bool;
  wm_credential_configured : bool;
  wm_created_at : Z;
  wm_updated_at : Z
}.
Definition litellm_mapping_response_from_row (d : ProvidersDb) (id : string) (r : MappingRow) : GatewayResult LiteLlmCredentialMappingResponse :=
  let? scope := parse_credential_mapping_scope (mw_scope r) in
  let? target := ok_or (match scope with KeyScope => mw_key_id r | ProjectScope => mw_project_id r end) InvalidProviderConfigPayload in
  Ok {| wm_id := id; wm_scope := scope; wm_target_id := target;
        wm_target_label := match scope with KeyScope => vd_keys d !! target | ProjectScope => vd_projects d !! target end;
        wm_enabled := mw_enabled r; wm_credential_configured := is_some_and (λ v, negb (is_empty v)) (mw_credential_secret r);
        wm_created_at := mw_created_at r; wm_updated_at := mw_updated_at r |}.

Section store.
Variable url_parse : string → option Url.
(** The scheme and host of a parsed URL. *)
Variable url_parts : string → option (string * option string).
Variable header_name_ok : string → bool.
Variable collate : string → string → comparison.

(** ** Connections *)

(** Identities without a secret of their own never keep one. *)
Definition secretless (foundry : option FoundryIdentity) : bool :=
  is_some_and (λ i, negb (bool_decide (method i = ClientSecret))) foundry.
Definition created_config (dbnow : Z) (q : ProviderConfigCreateRequest) : ProviderRow :=
  {| vr_provider := provider_config_kind_str (pc_provider q); vr_name := trim (pc_name q); vr_base_url := trim (pc_base_url q);
     vr_enabled := pc_enabled q; vr_credential_secret := if secretless (pc_foundry q) then None else pc_credential q;
     vr_header_mode := credential_header_mode_str (pc_header_mode q); vr_header_name := trim <$> pc_header_name q;
     vr_header_format := credential_header_value_format_str (pc_header_format q); vr_foundry := pc_foundry q; vr_created_at := dbnow;
     vr_updated_at := dbnow; vr_config_revision := 1 |}.
Definition create_provider_config (new_id : string) (dbnow : Z) (q : ProviderConfigCreateRequest) (d : ProvidersDb) :
    ProvidersDb * GatewayResult ProviderConfigResponse :=
  match create_validate url_parse header_name_ok q with
  | Err e => (d, Err e)
  | Ok _ => match insert_config new_id (created_config dbnow q) d with
            | Err e => (d, Err e)
            | Ok d' => (d', provider_config_response_from_row new_id (created_config dbnow q))
            end
  end.
Definition list_provider_configs (d : ProvidersDb) : GatewayResult (list ProviderConfigResponse) :=
  try_map (λ kr, provider_config_response_from_row kr.1 kr.2)
    (sort_by (λ a b, then_with (collate (vr_provider a.2) (vr_provider b.2)) (collate (vr_name a.2) (vr_name b.2))) (map_to_list (vd_configs d))).
Definition get_provider_config (id : string) (d : ProvidersDb) : GatewayResult (option ProviderConfigResponse) :=
  match vd_configs d !! id with
  | None => Ok None
  | Some r => let? x := provider_config_response_from_row id r in Ok (Some x)
  end.
Definition patched_response (p : ProviderConfigPatchRequest) (w : ProviderConfigResponse) : ProviderConfigResponse :=
  {| wr_foundry := match pq_foundry p with Some i => Some i | None => wr_foundry w end; wr_id := wr_id w; wr_provider := wr_provider w;
     wr_name := from_option trim (wr_name w) (pq_name p); wr_base_url := from_option trim (wr_base_url w) (pq_base_url p);
     wr_enabled := default (wr_enabled w) (pq_enabled p); wr_credential_configured := wr_credential_configured w;
     wr_header_mode := default (wr_header_mode w) (pq_header_mode p);
     wr_header_name := from_option (fmap trim) (wr_header_name w) (pq_header_name p);
     wr_header_format := default (wr_header_format w) (pq_header_format p); wr_created_at := wr_created_at w; wr_updated_at := wr_updated_at w |}.
(** The new credential, if it is to be written. *)
Definition patched_secret (p : ProviderConfigPatchRequest) (w : ProviderConfigResponse) : option (option string) :=
  if secretless (wr_foundry w) then Some None else pq_credential p.
Definition secret_present (secret : option (option string)) (w : ProviderConfigResponse) : bool :=
  from_option (is_some_and (λ v, negb (is_empty (trim v)))) (wr_credential_configured w) secret.
Definition updated_config (dbnow : Z) (w : ProviderConfigResponse) (secret : option (option string)) (r : ProviderRow) : ProviderRow :=
  {| vr_provider := vr_provider r; vr_name := wr_name w; vr_base_url := wr_base_url w; vr_enabled := wr_enabled w;
     vr_credential_secret := default (vr_credential_secret r) secret; vr_header_mode := credential_header_mode_str (wr_header_mode w);
     vr_header_name := wr_header_name w; vr_header_format := credential_header_value_format_str (wr_header_format w);
     vr_foundry := wr_foundry w; vr_created_at := vr_created_at r; vr_updated_at := dbnow; vr_config_revision := vr_config_revision r |}.
Definition patch_config_in_tx (dbnow : Z) (id : string) (p : ProviderConfigPatchRequest) (r : ProviderRow) (d : ProvidersDb) :
    GatewayResult (ProvidersDb * ProviderConfigResponse) :=
  let? current := provider_config_response_from_row id r in
  let w := patched_response p current in
  let secret := patched_secret p w in
  check? validate_foundry_config url_parse (wr_provider w) (wr_foundry w) (wr_base_url w) (secret_present secret w) in
  check? response_validate_header_settings header_name_ok (wr_provider w) (wr_header_mode w) (wr_header_name w) in
  let? x := update_config id r (updated_config dbnow w secret r) d in
  let? saved := provider_config_response_from_row id x.2 in
  Ok (x.1, saved).
Definition patch_provider_config (dbnow : Z) (id : string) (p : ProviderConfigPatchRequest) (d : ProvidersDb) :
    ProvidersDb * GatewayResult (option ProviderConfigResponse) :=
  match patch_validate url_parse header_name_ok p with
  | Err e => (d, Err e)
  | Ok _ => match vd_configs d !! id with
            | None => (d, Ok None)
            | Some r => match patch_config_in_tx dbnow id p r d with
                        | Err e => (d, Err e)
                        | Ok (d', w) => (d', Ok (Some w))
                        end
            end
  end.
Definition delete_provider_config (id : string) (d : ProvidersDb) : ProvidersDb * GatewayResult bool :=
  if is_none (vd_configs d !! id) then (d, Ok false)
  else if bool_decide (id ∈ vd_bound d) then (d, Err ProviderConfigInUse)
  else (set_configs (delete id (vd_configs d)) d, Ok true).
Definition enabled_config (dbnow : Z) (e : bool) (r : ProviderRow) : ProviderRow :=
  {| vr_provider := vr_provider r; vr_name := vr_name r; vr_base_url := vr_base_url r; vr_enabled := e;
     vr_credential_secret := vr_credential_secret r; vr_header_mode := vr_header_mode r; vr_header_name := vr_header_name r;
     vr_header_format := vr_header_format r; vr_foundry := vr_foundry r; vr_created_at := vr_created_at r; vr_updated_at := dbnow;
     vr_config_revision := vr_config_revision r |}.
Definition set_provider_config_enabled (dbnow : Z) (id : string) (e : bool) (d : ProvidersDb) :
    ProvidersDb * GatewayResult (option ProviderConfigResponse) :=
  match vd_configs d !! id with
  | None => (d, Ok None)
  | Some r => match update_config id r (enabled_config dbnow e r) d with
              | Err er => (d, Err er)
              | Ok (d', x) => (d', let? w := provider_config_response_from_row id x in Ok (Some w))
              end
  end.

(** *** What the proxy reads *)

Definition load_foundry_config (id : string) (enabled_only : bool) (d : ProvidersDb) : GatewayResult (option FoundryRuntimeConfig) :=
  match opt_filter (λ r, String.eqb (vr_provider r) "azure-foundry" && (negb enabled_only || vr_enabled r)) (vd_configs d !! id) with
  | None => Ok None
  | Some r =>
      let? identity := ok_or (vr_foundry r) StoreUnavailable in
      Ok (Some {| frc_id := id; frc_base_url := vr_base_url r; frc_identity := identity; frc_secret := vr_credential_secret r;
                  frc_revision := vr_config_revision r |})
  end.
Definition foundry_config (id : string) := load_foundry_config id true.
Definition foundry_config_for_check (id : string) := load_foundry_config id false.
Definition active_litellm_config (d : ProvidersDb) : GatewayResult (option ProviderRuntimeConfig) :=
  match head (sort_by (λ a b, vr_updated_at b ?= vr_updated_at a) (List.filter enabled_litellm (map snd (map_to_list (vd_configs d))))) with
  | None => Ok None
  | Some r =>
      let? mode := parse_credential_header_mode (vr_header_mode r) in
      let? format := parse_credential_header_value_format (vr_header_format r) in
      Ok (Some {| lc_provider := LiteLlm; lc_base_url := vr_base_url r; lc_credential := vr_credential_secret r; lc_header_mode := mode;
                  lc_header_name := vr_header_name r; lc_header_format := format |})
  end.

(** ** Credential mappings *)

Definition mapping_for (scope : LiteLlmCredentialMappingScope) (target : string) (r : MappingRow) : bool :=
  match scope with
  | KeyScope => String.eqb (mw_scope r) "key" && bool_decide (mw_key_id r = Some target)
  | ProjectScope => String.eqb (mw_scope r) "project" && bool_decide (mw_project_id r = Some target)
  end.
Definition target_exists (d : ProvidersDb) (scope : LiteLlmCredentialMappingScope) (target : string) : bool :=
  match scope with KeyScope => is_some (vd_keys d !! target) | ProjectScope => is_some (vd_projects d !! target) end.
Definition new_mapping (dbnow : Z) (q : LiteLlmCredentialMappingUpsertRequest) : MappingRow :=
  {| mw_scope := credential_mapping_scope_str (lm_scope q);
     mw_key_id := match lm_scope q with KeyScope => Some (lm_target_id q) | ProjectScope => None end;
     mw_project_id := match lm_scope q with KeyScope => None | ProjectScope => Some (lm_target_id q) end;
     mw_enabled := lm_enabled q; mw_credential_secret := trim <$> lm_credential q; mw_created_at := dbnow; mw_updated_at := dbnow |}.
Definition replaced_mapping (x r : MappingRow) : MappingRow :=
  {| mw_scope := mw_scope r; mw_key_id := mw_key_id r; mw_project_id := mw_project_id r; mw_enabled := mw_enabled x;
     mw_credential_secret := match mw_credential_secret x with Some c => Some c | None => mw_credential_secret r end;
     mw_created_at := mw_created_at r; mw_updated_at := mw_updated_at x |}.
Definition upsert_litellm_credential_mapping (new_id : string) (dbnow : Z) (q : LiteLlmCredentialMappingUpsertRequest) (d : ProvidersDb) :
    ProvidersDb * GatewayResult LiteLlmCredentialMappingResponse :=
  if is_some_and is_empty (trim <$> lm_credential q) then (d, Err InvalidProviderConfigPayload)
  else
    let x := new_mapping dbnow q in
    match List.find (λ kr, mapping_for (lm_scope q) (lm_target_id q) kr.2) (map_to_list (vd_mappings d)) with
    | Some (id, r) =>
        let y := replaced_mapping x r in
        (set_mappings (<[id := y]> (vd_mappings d)) d, litellm_mapping_response_from_row d id y)
    | None =>
        if is_some (vd_mappings d !! new_id) then (d, Err StoreUnavailable)
        else if negb (target_exists d (lm_scope q) (lm_target_id q)) then (d, Err InvalidProviderConfigPayload)
        else (set_mappings (<[new_id := x]> (vd_mappings d)) d, litellm_mapping_response_from_row d new_id x)
    end.
Definition list_litellm_credential_mappings (d : ProvidersDb) : GatewayResult (list LiteLlmCredentialMappingResponse) :=
  try_map (λ kr, litellm_mapping_response_from_row d kr.1 kr.2)
    (sort_by (λ a b, then_with (collate (mw_scope a.2) (mw_scope b.2)) (mw_updated_at b.2 ?= mw_updated_at a.2)) (map_to_list (vd_mappings d))).
Definition delete_litellm_credential_mapping (id : string) (d : ProvidersDb) : ProvidersDb * GatewayResult bool :=
  (set_mappings (delete id (vd_mappings d)) d, Ok (is_some (vd_mappings d !! id))).
Definition enabled_mapping (dbnow : Z) (e : bool) (r : MappingRow) : MappingRow :=
  {| mw_scope := mw_scope r; mw_key_id := mw_key_id r; mw_project_id := mw_project_id r; mw_enabled := e;
     mw_credential_secret := mw_credential_secret r; mw_created_at := mw_created_at r; mw_updated_at := dbnow |}.
Definition set_litellm_credential_mapping_enabled (dbnow : Z) (id : string) (e : bool) (d : ProvidersDb) :
    ProvidersDb * GatewayResult (option LiteLlmCredentialMappingResponse) :=
  match vd_mappings d !! id with
  | None => (d, Ok None)
  | Some r =>
      let y := enabled_mapping dbnow e r in
      (set_mappings (<[id := y]> (vd_mappings d)) d, let? w := litellm_mapping_response_from_row d id y in Ok (Some w))
  end.
(** The key's own mapping comes before its project's. *)
Definition scope_rank (r : MappingRow) : Z := if String.eqb (mw_scope r) "key" then 1 else if String.eqb (mw_scope r) "project" then 2 else 99.
Definition mapping_usable (key_id : string) (project_id : option string) (r : MappingRow) : bool :=
  mw_enabled r && is_some (mw_credential_secret r)
  && (mapping_for KeyScope key_id r || is_some_and (λ p, mapping_for ProjectScope p r) project_id).
Definition litellm_credential_mapping_for_context (key_id : string) (project_id : option string) (d : ProvidersDb) :
    GatewayResult (option LiteLlmCredentialMappingRuntime) :=
  match head (sort_by (λ a b, scope_rank a ?= scope_rank b) (List.filter (mapping_usable key_id project_id) (map snd (map_to_list (vd_mappings d))))) with
  | None => Ok None
  | Some r =>
      let? scope := parse_credential_mapping_scope (mw_scope r) in
      let? credential := ok_or (mw_credential_secret r) StoreUnavailable in
      Ok (Some {| mapping_scope := scope; mapping_credential := credential |})
  end.

(** ** Settings *)

Definition normalize_base_url (base_url : string) : GatewayResult string :=
  let trimmed := trim_end_matches "/" (trim base_url) in
  check? KeyAdmin.validate_base_url url_parts trimmed in Ok trimmed.
Definition normalize_secret (secret : string) : GatewayResult string := check? validate_secret (trim secret) in Ok (trim secret).
Definition studio_connection_settings (d : ProvidersDb) : GatewayResult (option StoredStudioConnection) := Ok (vd_studio d).
Definition no_studio : StoredStudioConnection := {| sc_base_url := None; sc_bearer_token_secret := None; sc_updated_at := None |}.
Definition patched_studio (p : StudioConnectionPatchRequest) (s : StoredStudioConnection) : GatewayResult (option string * option string) :=
  let? base := match sp_base_url p with
               | PatchUnchanged => Ok (sc_base_url s, sc_bearer_token_secret s)
               | PatchClear => Ok (None, None)
               | PatchSet v => let? u := normalize_base_url v in Ok (Some u, sc_bearer_token_secret s)
               end in
  match sp_token p with
  | PatchUnchanged => Ok base
  | PatchClear => Ok (base.1, None)
  | PatchSet v => let? t := normalize_secret v in Ok (base.1, Some t)
  end.
(** [d1]: the database when the settings are read; [d]: when they are written. *)
Definition patch_studio_connection_settings (dbnow : Z) (p : StudioConnectionPatchRequest) (d1 d : ProvidersDb) :
    ProvidersDb * GatewayResult StoredStudioConnection :=
  match (check? studio_patch_validate url_parts p in
         let? current := studio_connection_settings d1 in patched_studio p (default no_studio current)) with
  | Err e => (d, Err e)
  | Ok (base_url, token) =>
      if is_some_and (λ u, negb (http_start_ci u)) base_url then (d, Err StoreUnavailable)
      else
        let s := {| sc_base_url := base_url; sc_bearer_token_secret := token; sc_updated_at := Some dbnow |} in
        (set_settings (Some s) (vd_auth d) d, Ok s)
  end.
Definition gateway_auth_settings (d : ProvidersDb) : GatewayResult (option StoredGatewayAuthSettings) := Ok (vd_auth d).
Definition stamped (dbnow : Z) (s : StoredGatewayAuthSettings) : StoredGatewayAuthSettings :=
  {| st_unverified_bearer_enabled := st_unverified_bearer_enabled s; st_entra_enabled := st_entra_enabled s; st_tenant_id := st_tenant_id s;
     st_audience := st_audience s; st_issuer := st_issuer s; st_oidc_discovery_url := st_oidc_discovery_url s;
     st_required_scope := st_required_scope s; st_required_role := st_required_role s; st_allowed_groups := st_allowed_groups s;
     st_accepted_algorithms := st_accepted_algorithms s; st_relayna_key_header := st_relayna_key_header s;
     st_jwks_cache_ttl_seconds := st_jwks_cache_ttl_seconds s; st_clock_skew_seconds := st_clock_skew_seconds s;
     st_apigee_trusted_header_enabled := st_apigee_trusted_header_enabled s; st_apigee_trusted_header_secret := st_apigee_trusted_header_secret s;
     st_updated_at := Some dbnow |}.
Definition auth_checks (s : StoredGatewayAuthSettings) : bool :=
  is_none_or http_start_ci (st_oidc_discovery_url s) && negb (st_unverified_bearer_enabled s && st_apigee_trusted_header_enabled s).
Definition patch_gateway_auth_settings (dbnow : Z) (p : GatewayAuthSettingsPatchRequest) (d1 d : ProvidersDb) :
    ProvidersDb * GatewayResult StoredGatewayAuthSettings :=
  match (let? current := gateway_auth_settings d1 in apply_patch header_name_ok (default StoredGatewayAuthSettings_default current) p) with
  | Err e => (d, Err e)
  | Ok next =>
      if negb (auth_checks next) then (d, Err StoreUnavailable)
      else (set_settings (vd_studio d) (Some (stamped dbnow next)) d, Ok (stamped dbnow next))
  end.

(** ** The tables over time *)

Definition set_targets keys projects bound (d : ProvidersDb) : ProvidersDb :=
  {| vd_configs := vd_configs d; vd_mappings := vd_mappings d; vd_keys := keys; vd_projects := projects; vd_bound := bound;
     vd_studio := vd_studio d; vd_auth := vd_auth d |}.
Inductive ProviderOp : Type :=
| CreatesConfig (id : string) (dbnow : Z) (q : ProviderConfigCreateRequest)
| PatchesConfig (dbnow : Z) (id : string) (p : ProviderConfigPatchRequest)
| DeletesConfig (id : string)
| EnablesConfig (dbnow : Z) (id : string) (e : bool)
| UpsertsMapping (id : string) (dbnow : Z) (q : LiteLlmCredentialMappingUpsertRequest)
| DeletesMapping (id : string)
| EnablesMapping (dbnow : Z) (id : string) (e : bool)
| PatchesStudio (dbnow : Z) (p : StudioConnectionPatchRequest) (d1 : ProvidersDb)
| PatchesAuth (dbnow : Z) (p : GatewayAuthSettingsPatchRequest) (d1 : ProvidersDb)
| NamesKey (id prefix : string)
| NamesProject (id name : string)
| DropsProject (id : string)
| BindsProvider (id : string)
| UnbindsProvider (id : string).
Definition providers_after (d : ProvidersDb) (op : ProviderOp) : ProvidersDb :=
  match op with
  | CreatesConfig id dbnow q => (create_provider_config id dbnow q d).1
  | PatchesConfig dbnow id p => (patch_provider_config dbnow id p d).1
  | DeletesConfig id => (delete_provider_config id d).1
  | EnablesConfig dbnow id e => (set_provider_config_enabled dbnow id e d).1
  | UpsertsMapping id dbnow q => (upsert_litellm_credential_mapping id dbnow q d).1
  | DeletesMapping id => (delete_litellm_credential_mapping id d).1
  | EnablesMapping dbnow id e => (set_litellm_credential_mapping_enabled dbnow id e d).1
  | PatchesStudio dbnow p d1 => (patch_studio_connection_settings dbnow p d1 d).1
  | PatchesAuth dbnow p d1 => (patch_gateway_auth_settings dbnow p d1 d).1
  | NamesKey id prefix => set_targets (<[id := prefix]> (vd_keys d)) (vd_projects d) (vd_bound d) d
  | NamesProject id name => set_targets (vd_keys d) (<[id := name]> (vd_projects d)) (vd_bound d) d
  | DropsProject id =>
      (* mappings of the project go with it *)
      set_targets (vd_keys d) (delete id (vd_projects d)) (vd_bound d)
        (set_mappings (filter (λ kr, mw_project_id kr.2 ≠ Some id) (vd_mappings d)) d)
  | BindsProvider id =>
      if is_some_and (λ r, String.eqb (vr_provider r) "azure-foundry") (vd_configs d !! id)
      then set_targets (vd_keys d) (vd_projects d) ({[id]} ∪ vd_bound d) d else d
  | UnbindsProvider id => set_targets (vd_keys d) (vd_projects d) (vd_bound d ∖ {[id]}) d
  end.
Definition no_providers : ProvidersDb :=
  {| vd_configs := ∅; vd_mappings := ∅; vd_keys := ∅; vd_projects := ∅; vd_bound := ∅; vd_studio := None; vd_auth := None |}.

(** *** What is stored is valid *)

Definition nonblank (v : string) : bool := negb (is_empty (trim v)).
(** The secret that an identity needs is there, and no other. *)
Definition secret_ok (foundry : option FoundryIdentity) (secret : option string) : bool :=
  match foundry with
  | Some i => if bool_decide (method i = ClientSecret) then is_some_and nonblank secret else is_none secret
  | None => is_none_or nonblank secret
  end.
Record config_valid (r : ProviderRow) : Prop := {
  cv_checks : config_checks r = true;
  cv_secret : secret_ok (vr_foundry r) (vr_credential_secret r) = true;
  cv_identity i : vr_foundry r = Some i → method i ≠ ManagedIdentity → is_some (identity_tenant_id i) = true ∧ is_some (identity_client_id i) = true;
  cv_header : vr_header_mode r = "custom_header" →
    ∃ h, vr_header_name r = Some h ∧ validate_litellm_credential_header_name header_name_ok h = Ok tt;
  cv_bearer : vr_provider r = "azure-foundry" → vr_header_mode r = "authorization_bearer"
}.
Definition mapping_valid (d : ProvidersDb) (r : MappingRow) : Prop :=
  ∃ scope target, mw_scope r = credential_mapping_scope_str scope ∧ mapping_for scope target r = true ∧ target_exists d scope target = true ∧
    is_none_or (λ c, negb (is_empty c)) (mw_credential_secret r) = true.
Record providers_wf (d : ProvidersDb) : Prop := {
  pw_config id r : vd_configs d !! id = Some r → config_valid r;
  pw_name i j r s : vd_configs d !! i = Some r → vd_configs d !! j = Some s → vr_provider r = vr_provider s → vr_name r = vr_name s → i = j;
  pw_litellm i j r s : vd_configs d !! i = Some r → vd_configs d !! j = Some s → enabled_litellm r = true → enabled_litellm s = true → i = j;
  pw_bound id : id ∈ vd_bound d → ∃ r, vd_configs d !! id = Some r ∧ vr_provider r = "azure-foundry";
  pw_mapping id r : vd_mappings d !! id = Some r → mapping_valid d r;
  pw_one i j r s scope target : vd_mappings d !! i = Some r → vd_mappings d !! j = Some s → mapping_for scope target r = true →
    mapping_for scope target s = true → i = j;
  pw_studio s u : vd_studio d = Some s → sc_base_url s = Some u → http_start_ci u = true;
  pw_auth s : vd_auth d = Some s → stored_validate header_name_ok s = Ok tt ∧ auth_checks s = true
}.
Lemma config_taken_false id r d i s : config_taken id r d = false → vd_configs d !! i = Some s → i ≠ id →
  (vr_provider s = vr_provider r → vr_name s = vr_name r → False) ∧ (enabled_litellm s = true → enabled_litellm r = true → False).
Proof.
  unfold config_taken. rewrite existsb_false_iff. intros H Hs Hne. specialize (H (i, s) ltac:(by apply elem_of_map_to_list)). cbn in H.
  destruct (String.eqb_spec i id) as [|_]; [done|]. cbn in H. apply orb_false_iff in H as [Hn Hl]. split.
  - intros E1 E2. by rewrite E1, E2, !String.eqb_refl in Hn.
  - intros E1 E2. by rewrite E1, E2 in Hl.
Qed.
(** A row is written that no other row conflicts with. *)
Lemma written_config_wf d id r : providers_wf d → config_valid r → config_taken id r d = false →
  (∀ s, vd_configs d !! id = Some s → vr_provider s = vr_provider r) → providers_wf (set_configs (<[id := r]> (vd_configs d)) d).
Proof.
  intros [C N L B M O S A] Hr Ht Hk. split; cbn [set_configs vd_configs vd_mappings vd_bound vd_studio vd_auth]; try done.
  - intros i s [[_ <-]|[_ H]]%lookup_insert_Some; [done|by eapply C].
  - intros i j x y [[<- <-]|[Hi Hx]]%lookup_insert_Some [[<- <-]|[Hj Hy]]%lookup_insert_Some E1 E2; [done|..].
    + by destruct (config_taken_false _ _ _ _ _ Ht Hy (not_eq_sym Hj)) as [[] _].
    + by destruct (config_taken_false _ _ _ _ _ Ht Hx (not_eq_sym Hi)) as [[] _].
    + by eapply N.
  - intros i j x y [[<- <-]|[Hi Hx]]%lookup_insert_Some [[<- <-]|[Hj Hy]]%lookup_insert_Some E1 E2; [done|..].
    + by destruct (config_taken_false _ _ _ _ _ Ht Hy (not_eq_sym Hj)) as [_ []].
    + by destruct (config_taken_false _ _ _ _ _ Ht Hx (not_eq_sym Hi)) as [_ []].
    + by eapply L.
  - intros i Hi. destruct (B i Hi) as (s & Hs & E). destruct (decide (id = i)) as [<-|Hne].
    + exists r. rewrite lookup_insert_eq, <- (Hk s Hs). done.
    + exists s. by rewrite lookup_insert_ne.
Qed.
Lemma insert_config_wf d id r d' : providers_wf d → (config_checks r = true → config_valid r) → insert_config id r d = Ok d' → providers_wf d'.
Proof.
  intros Hw Hr. unfold insert_config. rewrite !guard_ok. intros (Hc%negb_false_iff & (Hn & Ht)%orb_false_iff & [= <-]).
  apply written_config_wf; auto. intros s Hs. by rewrite Hs in Hn.
Qed.
Lemma update_config_wf d id old r x : providers_wf d → vd_configs d !! id = Some old → vr_provider r = vr_provider old →
  (config_checks (advance_revision old r) = true → config_valid (advance_revision old r)) → update_config id old r d = Ok x → providers_wf x.1.
Proof.
  intros Hw Ho Hk Hr. unfold update_config. cbv zeta. rewrite !guard_ok. intros ((_ & Hc%negb_false_iff)%orb_false_iff & Ht & [= <-]).
  apply written_config_wf; auto. intros s Hs. rewrite Ho in Hs. by injection Hs as <-.
Qed.
Lemma header_mode_custom m : credential_header_mode_str m = "custom_header" → m = CustomHeader.
Proof. by destruct m. Qed.
Lemma header_name_trim h : validate_litellm_credential_header_name header_name_ok h = Ok tt →
  validate_litellm_credential_header_name header_name_ok (trim h) = Ok tt.
Proof. unfold validate_litellm_credential_header_name. by rewrite trim_trim. Qed.
Lemma kind_foundry k : provider_config_kind_str k = "azure-foundry" → k = KindAzureFoundry.
Proof. by destruct k. Qed.
Lemma foundry_mode_ok k m : foundry_header_mode k m = Ok tt → k = KindAzureFoundry → m = AuthorizationBearer.
Proof. unfold foundry_header_mode. intros H ->. cbn in H. apply guard_ok in H as [H _]. by apply negb_false_iff, bool_decide_eq_true in H. Qed.
(** What the validation of an identity says apart from its endpoint. *)
Lemma foundry_config_ok k foundry base present : validate_foundry_config url_parse k foundry base present = Ok tt →
  match foundry with
  | Some i => k = KindAzureFoundry ∧ (method i ≠ ManagedIdentity → is_some (identity_tenant_id i) = true ∧ is_some (identity_client_id i) = true) ∧
              (method i = ClientSecret → present = true)
  | None => k ≠ KindAzureFoundry
  end.
Proof.
  unfold validate_foundry_config. destruct foundry as [i|]; destruct k; try done. unfold identity_validate. destruct (project_url url_parse base); [|done].
  rewrite !guard_ok. intros (H1 & H2 & _). split; [done|]. split.
  - intros Hm. rewrite bool_decide_eq_false_2 in H1 by done. cbn in H1. apply orb_false_iff in H1 as [Ht Hc]. unfold is_none in *.
    by apply negb_false_iff in Ht, Hc.
  - intros Hm. rewrite bool_decide_eq_true_2 in H2 by done. by apply negb_false_iff in H2.
Qed.
Lemma optional_secret_ok c : validate_optional_secret c = Ok tt → is_none_or nonblank c = true.
Proof. unfold validate_optional_secret, nonblank. rewrite guard_ok. intros [H _]. destruct c; [|done]. cbn in *. by rewrite H. Qed.
Lemma created_config_valid dbnow q : create_validate url_parse header_name_ok q = Ok tt → config_checks (created_config dbnow q) = true →
  config_valid (created_config dbnow q).
Proof.
  unfold create_validate. rewrite !check_ok. intros (Hf%foundry_config_ok & Hm & _ & _ & Hs%optional_secret_ok & Hh & _) Hc.
  split; [done|cbn..].
  - unfold secret_ok, secretless. destruct (pc_foundry q) as [i|]; [|done]. cbn. destruct Hf as (_ & _ & Hp).
    case_bool_decide as E; [|done]. cbn. specialize (Hp E). by destruct (pc_credential q).
  - intros i E. rewrite E in Hf. by destruct Hf as (_ & ? & _).
  - intros Em%header_mode_custom. destruct (header_settings_ok _ _ _ Hh Em) as (h & E & Hv). rewrite E. exists (trim h). split; [done|by apply header_name_trim].
  - intros E%kind_foundry. by rewrite (foundry_mode_ok _ _ Hm).
Qed.
Lemma enabled_config_valid dbnow e r : config_valid r → config_checks (advance_revision r (enabled_config dbnow e r)) = true →
  config_valid (advance_revision r (enabled_config dbnow e r)).
Proof. by intros [? ? ? ? ?] ?; split. Qed.
Lemma parse_kind_str v k : parse_provider_config_kind v = Ok k → v = provider_config_kind_str k.
Proof.
  unfold parse_provider_config_kind. destruct (String.eqb_spec v "litellm") as [->|_]; [by intros [= <-]|].
  destruct (String.eqb_spec v "internal-service") as [->|_]; [by intros [= <-]|].
  by destruct (String.eqb_spec v "azure-foundry") as [->|_]; [intros [= <-]|].
Qed.
(** The fields of a decoded row. *)
Lemma response_of_row id r w : provider_config_response_from_row id r = Ok w →
  vr_provider r = provider_config_kind_str (wr_provider w) ∧ wr_foundry w = vr_foundry r ∧
  wr_credential_configured w = is_some_and (λ v, negb (is_empty v)) (vr_credential_secret r).
Proof.
  unfold provider_config_response_from_row. destruct (parse_provider_config_kind (vr_provider r)) as [k|] eqn:Hk; [|done].
  destruct (parse_credential_header_mode _); [|done]. destruct (parse_credential_header_value_format _); [|done]. intros [= <-]. cbn. split; [|done].
  by apply parse_kind_str.
Qed.
Lemma kind_checked r k : config_checks r = true → vr_provider r = provider_config_kind_str k → bool_decide (k = KindAzureFoundry) = is_some (vr_foundry r).
Proof.
  unfold config_checks. rewrite !andb_true_iff. intros [[_ H%eqb_prop] _] E. rewrite E in H. rewrite <- H. by destruct k.
Qed.
Lemma patched_secret_ok p w r (k := wr_provider w) (w' := patched_response p w) :
  config_valid r → vr_provider r = provider_config_kind_str k → wr_foundry w = vr_foundry r →
  wr_credential_configured w = is_some_and (λ v, negb (is_empty v)) (vr_credential_secret r) →
  (∀ c, pq_credential p = Some c → is_none_or nonblank c = true) →
  validate_foundry_config url_parse k (wr_foundry w') (wr_base_url w') (secret_present (patched_secret p w') w') = Ok tt →
  secret_ok (wr_foundry w') (default (vr_credential_secret r) (patched_secret p w')) = true.
Proof.
  intros Hv Hk Hf Hc Hp Hok%foundry_config_ok. pose proof (kind_checked _ _ (cv_checks _ Hv) Hk) as Hkf. fold k in Hkf.
  pose proof (cv_secret _ Hv) as Hs. unfold patched_secret, secret_ok, secret_present in *. destruct (wr_foundry w') as [i|] eqn:Ei; cbn [secretless is_some_and].
  - destruct Hok as (Ek & _ & Hpres). destruct (bool_decide (method i = ClientSecret)) eqn:Em; cbn; [|done].
    apply bool_decide_eq_true in Em. specialize (Hpres Em). cbn in Hpres. rewrite bool_decide_eq_true_2 in Hpres by done. cbn in Hpres.
    destruct (pq_credential p) as [[v|]|]; cbn in *; [done|done|]. rewrite Ek in Hkf. cbn in Hkf. subst w'. cbn in Hpres. rewrite Hc in Hpres.
    destruct (vr_foundry r) as [j|]; [|done]. destruct (bool_decide (method j = ClientSecret)); [done|]. by destruct (vr_credential_secret r).
  - rewrite bool_decide_eq_false_2 in Hkf by done. destruct (pq_credential p) as [c|]; cbn; [by apply Hp|]. by destruct (vr_foundry r).
Qed.
Lemma patch_config_wf dbnow id p r d x : providers_wf d → vd_configs d !! id = Some r → patch_validate url_parse header_name_ok p = Ok tt →
  patch_config_in_tx dbnow id p r d = Ok x → providers_wf x.1.
Proof.
  intros Hw Hr Hp. unfold patch_config_in_tx. destruct (provider_config_response_from_row id r) as [w|] eqn:Ew; [|done]. cbv zeta.
  apply response_of_row in Ew as (Hk & Hf & Hc). rewrite !check_ok. intros (Hok & Hh & Hu). pose proof (pw_config _ Hw _ _ Hr) as Hv.
  destruct (update_config _ _ _ d) as [y|] eqn:Hy; [|done]. eapply update_config_wf in Hy; [|done|done|done|].
  - destruct (provider_config_response_from_row id y.2); [|done]. by injection Hu as <-.
  - intros Hch. unfold patch_validate in Hp. rewrite !check_ok in Hp. destruct Hp as (_ & _ & Hsec & _).
    split; [done|cbn..].
    + apply (patched_secret_ok p w r); try done. intros c E. rewrite E in Hsec. by apply optional_secret_ok.
    + intros i E. apply foundry_config_ok in Hok. cbn in Hok. rewrite E in Hok. by destruct Hok as (_ & ? & _).
    + intros Em%header_mode_custom. unfold response_validate_header_settings in Hh. apply check_ok in Hh as [_ Hh].
      destruct (header_settings_ok _ _ _ Hh Em) as (h & E & Hv'). by exists h.
    + rewrite Hk. intros Ek%kind_foundry. unfold response_validate_header_settings in Hh. apply check_ok in Hh as [Hm _].
      pose proof (foundry_mode_ok _ _ Hm Ek) as E. cbn in E. by rewrite E.
Qed.

(** *** Mappings *)

Lemma mapping_for_unique scope scope' target target' r : mapping_for scope target r = true → mapping_for scope' target' r = true →
  scope = scope' ∧ target = target'.
Proof.
  unfold mapping_for. destruct scope, scope'; rewrite !andb_true_iff, !bool_decide_eq_true, !String.eqb_eq; intros [E1 E2] [E3 E4]; try congruence;
    (split; [done|congruence]).
Qed.
Lemma written_mapping_wf d id r scope target : providers_wf d → mapping_valid d r → mapping_for scope target r = true →
  (∀ j s, vd_mappings d !! j = Some s → mapping_for scope target s = true → j = id) →
  providers_wf (set_mappings (<[id := r]> (vd_mappings d)) d).
Proof.
  intros [C N L B M O S A] Hr Hm Hj. split; cbn [set_mappings vd_configs vd_mappings vd_bound vd_studio vd_auth]; try done.
  - intros i s [[_ <-]|[_ H]]%lookup_insert_Some; [done|by apply (M i)].
  - intros i j x y sc tg [[<- <-]|[Hi Hx]]%lookup_insert_Some [[<- <-]|[Hj' Hy]]%lookup_insert_Some E1 E2; [done|..].
    + destruct (mapping_for_unique _ _ _ _ _ E1 Hm) as [-> ->]. by rewrite (Hj _ _ Hy E2).
    + destruct (mapping_for_unique _ _ _ _ _ E2 Hm) as [-> ->]. by rewrite (Hj _ _ Hx E1).
    + by eapply O.
Qed.
Lemma upsert_mapping_wf id dbnow q d : providers_wf d → providers_wf (upsert_litellm_credential_mapping id dbnow q d).1.
Proof.
  intros Hw. unfold upsert_litellm_credential_mapping. destruct (is_some_and is_empty _) eqn:He; [done|]. cbv zeta.
  assert (is_none_or (λ c, negb (is_empty c)) (trim <$> lm_credential q) = true) as Hc by (destruct (lm_credential q); [cbn in *; by rewrite He|done]).
  destruct (List.find _ _) as [[i r]|] eqn:Hf.
  - apply find_some in Hf as [Hi%list_elem_of_In%elem_of_map_to_list Hm]. cbn in Hi, Hm.
    destruct (pw_mapping _ Hw _ _ Hi) as (scope & target & Es & Hm' & Ht & Hs). cbn.
    destruct (mapping_for_unique _ _ _ _ _ Hm Hm') as [<- <-].
    eapply (written_mapping_wf _ _ _ (lm_scope q) (lm_target_id q)); [done| |done|].
    + exists (lm_scope q), (lm_target_id q). split_and!; try done. cbn. by destruct (trim <$> lm_credential q).
    + intros j s Hj Hjm. by eapply (pw_one _ Hw).
  - destruct (is_some _); [done|]. destruct (target_exists d _ _) eqn:Ht; [|done]. cbn.
    assert (mapping_for (lm_scope q) (lm_target_id q) (new_mapping dbnow q) = true) as Hm.
    { unfold mapping_for, new_mapping. destruct (lm_scope q); cbn; by rewrite bool_decide_eq_true_2. }
    eapply (written_mapping_wf _ _ _ (lm_scope q) (lm_target_id q)); [done| |done|].
    + exists (lm_scope q), (lm_target_id q). by split_and!.
    + intros j s Hj Hjm. apply elem_of_map_to_list, list_elem_of_In in Hj. apply (find_none _ _ Hf) in Hj. cbn in Hj. congruence.
Qed.
(** Keys and projects may come and go with their mappings. *)
Lemma set_targets_wf d m keys projects bound : providers_wf d → m ⊆ vd_mappings d →
  (∀ id r, m !! id = Some r → mapping_valid d r → mapping_valid (set_targets keys projects bound (set_mappings m d)) r) →
  (∀ id, id ∈ bound → ∃ r, vd_configs d !! id = Some r ∧ vr_provider r = "azure-foundry") →
  providers_wf (set_targets keys projects bound (set_mappings m d)).
Proof.
  intros [C N L B M O S A] Hm Hv Hb. split; cbn [set_targets set_mappings vd_configs vd_mappings vd_bound vd_studio vd_auth]; try done.
  - intros id r Hr. apply (Hv id r Hr), (M id). by eapply lookup_weaken.
  - intros i j r s sc tg Hi Hj. apply O; by eapply lookup_weaken.
Qed.
Lemma same_mappings d : set_mappings (vd_mappings d) d = d.
Proof. by destruct d. Qed.
Lemma settings_wf d studio auth : providers_wf d →
  (∀ s u, studio = Some s → sc_base_url s = Some u → http_start_ci u = true) →
  (∀ s, auth = Some s → stored_validate header_name_ok s = Ok tt ∧ auth_checks s = true) → providers_wf (set_settings studio auth d).
Proof. by intros [? ? ? ? ? ? ? ?] ? ?; split. Qed.
Lemma apply_patch_validated s p next : apply_patch header_name_ok s p = Ok next → stored_validate header_name_ok next = Ok tt.
Proof.
  unfold apply_patch. intros H. do 2 match type of H with (match ?c with _ => _ end) = _ => destruct c; [|done] end.
  cbv zeta in H. by apply check_ok in H as [? [= <-]].
Qed.
Lemma delete_config_wf id d : providers_wf d → providers_wf (delete_provider_config id d).1.
Proof.
  intros Hw. unfold delete_provider_config. destruct (is_none _); [done|]. case_bool_decide as Hb; [done|]. cbn. destruct Hw as [C N L B M O S A].
  split; cbn [set_configs vd_configs vd_mappings vd_bound vd_studio vd_auth]; try done.
  - intros i r [_ H]%lookup_delete_Some. by eapply C.
  - intros i j r s [_ Hi]%lookup_delete_Some [_ Hj]%lookup_delete_Some. by apply N.
  - intros i j r s [_ Hi]%lookup_delete_Some [_ Hj]%lookup_delete_Some. by apply L.
  - intros i Hi. destruct (B i Hi) as (r & Hr & E). exists r. rewrite lookup_delete_ne; [done|]. by intros ->.
Qed.
(** A mapping keeps its target when keys and projects are only added. *)
Lemma targets_grow d keys projects bound r : mapping_valid d r → (∀ i, is_some (vd_keys d !! i) = true → is_some (keys !! i) = true) →
  (∀ i, is_some (vd_projects d !! i) = true → mw_project_id r = Some i → is_some (projects !! i) = true) →
  mapping_valid (set_targets keys projects bound d) r.
Proof.
  intros (scope & target & Es & Hm & Ht & Hs) Hk Hp. exists scope, target. split_and!; try done. unfold target_exists in *. destruct scope; cbn.
  - by apply Hk.
  - apply Hp; [done|]. unfold mapping_for in Hm. apply andb_true_iff in Hm as [_ Hm]. by apply bool_decide_eq_true in Hm.
Qed.
Lemma inserted_some {A} (m : gmap string A) i x j : is_some (m !! j) = true → is_some (<[i := x]> m !! j) = true.
Proof. destruct (decide (i = j)) as [->|]; [by rewrite lookup_insert_eq|by rewrite lookup_insert_ne]. Qed.
Lemma mapping_steps_wf op d : providers_wf d →
  match op with UpsertsMapping _ _ _ | DeletesMapping _ | EnablesMapping _ _ _ | NamesKey _ _ | NamesProject _ _ | DropsProject _ => True | _ => False end →
  providers_wf (providers_after d op).
Proof.
  intros Hw. pose proof Hw as [C N L B M O S A]. destruct op; try done; intros _; cbn [providers_after].
  - by apply upsert_mapping_wf.
  - cbn. split; cbn [set_mappings vd_configs vd_mappings vd_bound vd_studio vd_auth]; try done.
    + intros i r [_ H]%lookup_delete_Some. by apply (M i).
    + intros i j r s sc tg [_ Hi]%lookup_delete_Some [_ Hj]%lookup_delete_Some. by apply O.
  - unfold set_litellm_credential_mapping_enabled. destruct (vd_mappings d !! id) as [r|] eqn:Hr; [|done]. cbn.
    destruct (M id r Hr) as (scope & target & Es & Hm & Ht & Hs). eapply (written_mapping_wf _ _ _ scope target); [done|by exists scope, target|done|].
    intros j s Hj Hjm. by eapply O.
  - rewrite <- (same_mappings d) at 4. apply set_targets_wf; try done. intros i r _ Hv. rewrite same_mappings. apply targets_grow; auto using inserted_some.
  - rewrite <- (same_mappings d) at 4. apply set_targets_wf; try done. intros i r _ Hv. rewrite same_mappings. apply targets_grow; auto using inserted_some.
  - apply set_targets_wf; try done; [apply map_filter_subseteq|]. intros i r Hr Hv.
    assert (mapping_valid (set_mappings (filter (λ kr, mw_project_id kr.2 ≠ Some id) (vd_mappings d)) d) r) as Hv' by done.
    apply targets_grow; [done|done|]. cbn. intros j Hj Ej. apply map_lookup_filter_Some in Hr as [_ Hr]. cbn in Hr. rewrite lookup_delete_ne; congruence.
Qed.
Lemma providers_step_wf op d : providers_wf d → providers_wf (providers_after d op).
Proof.
  intros Hw. destruct op; try (by apply mapping_steps_wf); cbn [providers_after].
  - unfold create_provider_config. destruct (create_validate _ _ q) as [[]|] eqn:Hq; [|done]. destruct (insert_config _ _ d) as [d'|] eqn:Hd; [|done].
    eapply insert_config_wf in Hd; [done|done|]. by apply created_config_valid.
  - unfold patch_provider_config. destruct (patch_validate _ _ p) as [[]|] eqn:Hp; [|done]. destruct (vd_configs d !! id) as [r|] eqn:Hr; [|done].
    destruct (patch_config_in_tx dbnow id p r d) as [[d' w]|] eqn:Hd; [|done]. by eapply patch_config_wf in Hd.
  - by apply delete_config_wf.
  - unfold set_provider_config_enabled. destruct (vd_configs d !! id) as [r|] eqn:Hr; [|done]. destruct (update_config _ _ _ d) as [[d' x]|] eqn:Hd; [|done].
    eapply update_config_wf in Hd; [done|done|done|done|]. by apply enabled_config_valid, (pw_config _ Hw id).
  - unfold patch_studio_connection_settings. destruct (check? studio_patch_validate url_parts p in _) as [[base token]|]; [|done].
    destruct (is_some_and _ base) eqn:Hb; [done|]. apply settings_wf; [done| |apply (pw_auth _ Hw)]. intros s u [= <-] E. cbn in E. rewrite E in Hb. cbn in Hb.
    by apply negb_false_iff in Hb.
  - unfold patch_gateway_auth_settings. cbn [gateway_auth_settings]. destruct (apply_patch header_name_ok _ p) as [next|] eqn:Hn; [|done].
    destruct (auth_checks next) eqn:Hc; [|done]. apply settings_wf; [done|apply (pw_studio _ Hw)|]. intros s [= <-]. split; [|done].
    exact (apply_patch_validated _ _ _ Hn).
  - destruct (vd_configs d !! id) as [r|] eqn:Hr; [|done]. cbn. destruct (String.eqb_spec (vr_provider r) "azure-foundry") as [E|]; [|done].
    rewrite <- (same_mappings d) at 4. apply set_targets_wf; try done. intros i [->%elem_of_singleton|Hi]%elem_of_union; [by exists r|by apply (pw_bound _ Hw)].
  - rewrite <- (same_mappings d) at 4. apply set_targets_wf; try done. intros i [Hi _]%elem_of_difference. by apply (pw_bound _ Hw).
Qed.
Lemma providers_history_wf ops d : providers_wf d → providers_wf (foldl providers_after d ops).
Proof. revert d. induction ops as [|op ops IH]; intros d Hw; [done|]. apply IH. by apply providers_step_wf. Qed.
Lemma no_providers_wf : providers_wf no_providers.
Proof. split; intros *; cbn; rewrite ?lookup_empty; done. Qed.

(** *** Revisions *)

(** A connection stays as it is, changes under a new revision, or goes for good. *)
Definition later (o o' : option ProviderRow) : Prop :=
  match o, o' with
  | _, None => True
  | None, Some _ => False
  | Some r, Some r' => r' = r ∨ vr_config_revision r < vr_config_revision r'
  end.
#[local] Instance later_preorder : PreOrder later.
Proof.
  split; [intros [r|]; [by left|done]|]. intros [r|] [s|] [t|]; cbn; try done. intros [->|H1] [->|H2]; [by left|by right|by right|right; lia].
Qed.
Lemma update_later id old r d x i : vd_configs d !! id = Some old → update_config id old r d = Ok x → later (vd_configs d !! i) (vd_configs x.1 !! i).
Proof.
  intros Ho. unfold update_config. cbv zeta. rewrite !guard_ok. intros (_ & _ & [= <-]). cbn. destruct (decide (id = i)) as [<-|Hne].
  - rewrite lookup_insert_eq, Ho. cbn. right. lia.
  - by rewrite lookup_insert_ne.
Qed.
Definition creates (id : string) (op : ProviderOp) : bool := match op with CreatesConfig i _ _ => String.eqb i id | _ => false end.
Lemma step_later op d id : creates id op = false → later (vd_configs d !! id) (vd_configs (providers_after d op) !! id).
Proof.
  intros Hc. destruct op; cbn [providers_after]; try done.
  - unfold create_provider_config. destruct (create_validate _ _ q); [|done]. unfold insert_config. destruct (negb _); [done|].
    destruct (_ || _); [done|]. cbn in Hc |- *. rewrite lookup_insert_ne; [done|]. intros ->. by rewrite String.eqb_refl in Hc.
  - unfold patch_provider_config. destruct (patch_validate _ _ p); [|done]. destruct (vd_configs d !! id0) as [r|] eqn:Hr; [|done].
    destruct (patch_config_in_tx dbnow id0 p r d) as [[d' w]|] eqn:Hd; [|done]. cbn [fst]. unfold patch_config_in_tx in Hd.
    destruct (provider_config_response_from_row id0 r) as [current|]; [|done]. cbv zeta in Hd. rewrite !check_ok in Hd. destruct Hd as (_ & _ & Hd).
    destruct (update_config _ _ _ d) as [y|] eqn:Hy; [|done]. destruct (provider_config_response_from_row id0 y.2); [|done]. injection Hd as <- _.
    by eapply update_later.
  - unfold delete_provider_config. destruct (is_none _); [done|]. destruct (bool_decide _); [done|]. cbn. destruct (decide (id0 = id)) as [->|Hne].
    + rewrite lookup_delete_eq. by destruct (vd_configs d !! id).
    + by rewrite lookup_delete_ne.
  - unfold set_provider_config_enabled. destruct (vd_configs d !! id0) as [r|] eqn:Hr; [|done]. destruct (update_config _ _ _ d) as [[d' x]|] eqn:Hd; [|done].
    by eapply (update_later _ _ _ _ _ id) in Hd.
  - unfold upsert_litellm_credential_mapping. repeat case_match; done.
  - unfold set_litellm_credential_mapping_enabled. by destruct (vd_mappings d !! id0).
  - unfold patch_studio_connection_settings. destruct (check? studio_patch_validate url_parts p in _) as [[]|]; [|done]. by destruct (is_some_and _ _).
  - unfold patch_gateway_auth_settings. cbn. destruct (apply_patch header_name_ok _ p); [|done]. by destruct (auth_checks _).
  - by destruct (is_some_and _ _).
Qed.
Lemma history_later ops d id : existsb (creates id) ops = false → later (vd_configs d !! id) (vd_configs (foldl providers_after d ops) !! id).
Proof.
  revert d. induction ops as [|op ops IH]; intros d; [done|]. cbn. intros [H1 H2]%orb_false_iff. etrans; [by apply (step_later op)|by apply IH].
Qed.
Lemma load_foundry_row id e d c : load_foundry_config id e d = Ok (Some c) → ∃ r, vd_configs d !! id = Some r ∧ vr_config_revision r = frc_revision c ∧
  ∀ e' d' c', vd_configs d' !! id = Some r → load_foundry_config id e' d' = Ok (Some c') → c' = c.
Proof.
  unfold load_foundry_config. destruct (vd_configs d !! id) as [r|]; [|done]. cbn. destruct (_ && _); [|done].
  destruct (vr_foundry r) as [i|] eqn:Hi; [|done]. cbn. intros [= <-]. exists r. split; [done|]. split; [done|]. intros e' d' c' ->. cbn. destruct (_ && _); [|done].
  rewrite Hi. cbn. by intros [= <-].
Qed.
Lemma row_answers id r : config_valid r → is_ok (provider_config_response_from_row id r) = true.
Proof.
  intros [Hc _ _ _ _]. unfold config_checks in Hc. rewrite !andb_true_iff in Hc. unfold provider_config_response_from_row.
  destruct Hc as [[[[[[[[Hk _] _] _] Hm] _] Hf] _] _].
  destruct (parse_provider_config_kind _); [|done]. destruct (parse_credential_header_mode _); [|done]. by destruct (parse_credential_header_value_format _).
Qed.
Lemma mapping_answers d id r : mapping_valid d r → is_ok (litellm_mapping_response_from_row d id r) = true.
Proof.
  intros (scope & target & Es & Hm & _). unfold litellm_mapping_response_from_row. rewrite Es, mapping_scope_roundtrip.
  unfold mapping_for in Hm. destruct scope; apply andb_true_iff in Hm as [_ Hm]; apply bool_decide_eq_true in Hm; by rewrite Hm.
Qed.
End store.

(** ** Properties *)

Section properties.
Variable url_parse : string → option Url.
Variable url_parts : string → option (string * option string).
Variable header_name_ok : string → bool.
Variable collate : string → string → comparison.
Abbreviation after ops d := (foldl (providers_after url_parse url_parts header_name_ok) d ops).

(** C28: the revision of a Foundry connection identifies what it says: two loads
    that see the same revision see the same endpoint, identity and secret,
    whatever happened in between, as long as no identifier is given out twice. *)
Theorem revision_identifies_config ops0 ops id e1 e2 c1 c2 (d1 := after ops0 no_providers) (d2 := after ops d1)
    (Hfresh : existsb (creates id) ops = false)
    (H1 : load_foundry_config id e1 d1 = Ok (Some c1)) (H2 : load_foundry_config id e2 d2 = Ok (Some c2)) :
  frc_revision c1 ≤ frc_revision c2 ∧ (frc_revision c2 = frc_revision c1 → c2 = c1).
Proof.
  destruct (load_foundry_row _ _ _ _ H1) as (r & Hr & E1 & Hsame). destruct (load_foundry_row _ _ _ _ H2) as (r' & Hr' & E2 & _).
  pose proof (history_later url_parse url_parts header_name_ok ops d1 id Hfresh) as Hl. fold d2 in Hl. rewrite Hr, Hr' in Hl.
  destruct Hl as [->|Hlt]; [|split; [lia|intros; lia]]. split; [lia|]. intros _. by eapply Hsame.
Qed.

(** C35: whatever is called on an empty database, every stored connection and
    credential mapping can be read back; a Foundry connection has the secret its
    identity needs and no other; custom credential headers are never ones the
    gateway uses itself; names are unique, at most one LiteLLM connection is
    enabled, services use connections that exist, and the stored authentication
    settings pass their validation however their patches interleaved. *)
Theorem provider_tables_wf ops (d := after ops no_providers) :
  providers_wf header_name_ok d ∧ is_ok (list_provider_configs collate d) = true ∧ is_ok (list_litellm_credential_mappings collate d) = true ∧
  ∀ id e, is_ok (load_foundry_config id e d) = true.
Proof.
  assert (providers_wf header_name_ok d) as Hw by apply providers_history_wf, no_providers_wf. split_and!; [done|..].
  - unfold list_provider_configs. apply try_map_total. intros [id r]. rewrite sort_by_perm, elem_of_map_to_list. intros Hr.
    by eapply row_answers, pw_config.
  - unfold list_litellm_credential_mappings. apply try_map_total. intros [id r]. rewrite sort_by_perm, elem_of_map_to_list. intros Hr.
    by eapply mapping_answers, pw_mapping.
  - intros id e. unfold load_foundry_config. destruct (vd_configs d !! id) as [r|] eqn:Hr; [|done]. cbn.
    destruct (String.eqb (vr_provider r) "azure-foundry") eqn:Ek; [|done]. cbn. destruct (negb e || vr_enabled r); [|done].
    pose proof (cv_checks _ _ (pw_config _ _ Hw _ _ Hr)) as Hc. unfold config_checks in Hc. rewrite Ek, !andb_true_iff in Hc.
    destruct Hc as [[_ Hf] _]. by destruct (vr_foundry r).
Qed.
End properties.

Module ProviderSample.
(** Azure projects and one upper-case URL, as the URL parser reads them. *)
Definition url (s : string) : option Url :=
  if String.eqb s "https://contoso.services.ai.azure.com/api/projects/agents" then
    Some {| url_scheme := "https"; url_host_str := Some "contoso.services.ai.azure.com"; url_port_or_known_default := Some 443;
            url_path := "/api/projects/agents"; url_username := ""; url_password := None; url_query := None; url_fragment := None |}
  else if String.eqb s "HTTPS://litellm.internal" then
    Some {| url_scheme := "https"; url_host_str := Some "litellm.internal"; url_port_or_known_default := Some 443; url_path := "/";
            url_username := ""; url_password := None; url_query := None; url_fragment := None |}
  else None.
Definition request (kind : ProviderConfigKind) (base : string) (i : option FoundryIdentity) (secret : option string) : ProviderConfigCreateRequest :=
  {| pc_foundry := i; pc_provider := kind; pc_name := "main"; pc_base_url := base; pc_enabled := true; pc_credential := secret;
     pc_header_mode := AuthorizationBearer; pc_header_name := None; pc_header_format := RawValue |}.
Definition identity (m : FoundryIdentityMethod) : FoundryIdentity :=
  {| method := m; identity_tenant_id := Some "tenant"; identity_client_id := Some "client" |}.
Definition agents : string := "https://contoso.services.ai.azure.com/api/projects/agents".
Definition created : list ProviderOp := [CreatesConfig "f-1" 1 (request KindAzureFoundry agents (Some (identity ClientSecret)) (Some "s3cret"))].
Definition renamed : list ProviderOp :=
  [PatchesConfig 2 "f-1" {| pq_foundry := Some (identity WorkloadIdentity); pq_name := Some "agents"; pq_base_url := None; pq_enabled := None;
                            pq_credential := None; pq_header_mode := None; pq_header_name := None; pq_header_format := None |}].
Abbreviation after ops d := (foldl (providers_after url (λ _, None) (λ _, true)) d ops).
Definition secret_after (ops : list ProviderOp) : option (option string) := vr_credential_secret <$> vd_configs (after ops no_providers) !! "f-1".
Example secret_dropped : (secret_after created, secret_after (created ++ renamed)) = (Some (Some "s3cret"), Some None).
Proof. by vm_compute. Qed.
Definition config (d : ProvidersDb) : FoundryRuntimeConfig :=
  match load_foundry_config "f-1" true d with
  | Ok (Some c) => c
  | _ => {| frc_id := ""; frc_base_url := ""; frc_identity := identity ManagedIdentity; frc_secret := None; frc_revision := 0 |}
  end.

Definition auth_patch (unverified : option bool) (header : option string) : GatewayAuthSettingsPatchRequest :=
  {| ap_unverified_bearer_enabled := unverified; ap_relayna_key_header := header; ap_entra_enabled := None; ap_tenant_id := Unchanged;
     ap_audience := Unchanged; ap_issuer := Unchanged; ap_oidc_discovery_url := Unchanged; ap_required_scope := Unchanged;
     ap_required_role := Unchanged; ap_allowed_groups := None; ap_accepted_algorithms := None; ap_jwks_cache_ttl_seconds := None;
     ap_clock_skew_seconds := None; ap_apigee_trusted_header_enabled := None; ap_apigee_trusted_header_secret := Unchanged |}.
End ProviderSample.
Lemma revision_identifies_config_witness :
  let d1 := ProviderSample.after ProviderSample.created no_providers in
  let d2 := ProviderSample.after ProviderSample.renamed d1 in
  frc_revision (ProviderSample.config d1) ≤ frc_revision (ProviderSample.config d2).
Proof.
  refine (proj1 (revision_identifies_config ProviderSample.url (λ _, None) (λ _, true) ProviderSample.created ProviderSample.renamed "f-1" true true
    _ _ eq_refl _ _)); vm_compute; reflexivity.
Defined.

(** A base URL whose scheme is written in capitals passes validation and is
    refused by the table, which is reported as if the database were not there. *)
Theorem capital_scheme_unavailable :
  let q := ProviderSample.request KindLiteLlm "HTTPS://litellm.internal" None None in
  create_validate ProviderSample.url (λ _, true) q = Ok tt ∧
  create_provider_config ProviderSample.url (λ _, true) "l-1" 1 q no_providers = (no_providers, Err StoreUnavailable).
Proof. by vm_compute. Qed.
(** Settings are read before they are written, without a lock: of two patches
    that read the same settings the first is undone by the second, so that a
    gateway goes on accepting unverified bearers although both calls succeeded. *)
Theorem concurrent_auth_patches_lost :
  let patch := patch_gateway_auth_settings (λ _, true) in
  let d1 := (patch 1 (ProviderSample.auth_patch (Some true) None) no_providers no_providers).1 in
  let first := patch 2 (ProviderSample.auth_patch (Some false) None) d1 d1 in
  let second := patch 3 (ProviderSample.auth_patch None (Some "x-team-key")) d1 first.1 in
  is_ok first.2 = true ∧ is_ok second.2 = true ∧ (st_unverified_bearer_enabled <$> vd_auth first.1) = Some false ∧
  (st_unverified_bearer_enabled <$> vd_auth second.1) = Some true.
Proof. by vm_compute. Qed.
