(* ===== verification/RouteStore.v ===== *)
(** * Route settings in the database

    Models [AdminOpenAiRouteStore] and [OpenAiRouteSettingsLookup] of
    [crates/gateway-store/src/postgres.rs]: the tables of the OpenAI and
    Anthropic routes as the migrations fill them, the settings of the LiteLLM
    passthrough, and the identities that routes require, with the checks of the
    tables and the trigger that guards authentication profiles.  A call is one
    step, except that a switch is written in one statement and read back in
    another, and that the passthrough settings are read before they are written.
    [now()] is an argument; the collation, the parser of methods and the
    parameters of the validation of endpoints are parameters. *)

From S2P Require Import Prelude Errors Routing Json GuardrailPolicy EndpointAccess Foundry ServiceTypes ServicePricing Access KeyAdmin ServiceStore RouteSettings.

(** ** Rows *)

Record RouteRow := {
  rt_route : string;
  rt_enabled : bool;
  rt_mode : string;
  rt_timeout_ms : Z;
  rt_max_request_body_bytes : Z;
  rt_max_response_body_bytes : Z;
  rt_updated_at : Z
}.
Record PassthroughRow := {
  pt_authentication_mode : string;
  pt_blocked_paths : list string;
  pt_enabled : bool;
  pt_allowed_paths : list string;
  pt_allowed_methods : list string;
  pt_ui_exposure : string;
  pt_admin_api_exposure : string;
  pt_timeout_ms : Z;
  pt_max_request_body_bytes : Z;
  pt_max_response_body_bytes : Z;
  pt_updated_at : Z
}.
(** Of keys only that they exist; no call deletes one. *)
Record RoutesDb := {
  openai_route_settings : gmap string RouteRow;
  anthropic_route_settings : gmap string RouteRow;
  passthrough_settings : option PassthroughRow;
  route_identity_settings : gmap string EndpointAccess;
  rd_keys : gset string
}.
Definition set_openai t (d : RoutesDb) : RoutesDb :=
  {| openai_route_settings := t; anthropic_route_settings := anthropic_route_settings d; passthrough_settings := passthrough_settings d;
     route_identity_settings := route_identity_settings d; rd_keys := rd_keys d |}.
Definition set_anthropic t (d : RoutesDb) : RoutesDb :=
  {| openai_route_settings := openai_route_settings d; anthropic_route_settings := t; passthrough_settings := passthrough_settings d;
     route_identity_settings := route_identity_settings d; rd_keys := rd_keys d |}.
Definition set_passthrough p (d : RoutesDb) : RoutesDb :=
  {| openai_route_settings := openai_route_settings d; anthropic_route_settings := anthropic_route_settings d; passthrough_settings := p;
     route_identity_settings := route_identity_settings d; rd_keys := rd_keys d |}.
Definition set_identities i ks (d : RoutesDb) : RoutesDb :=
  {| openai_route_settings := openai_route_settings d; anthropic_route_settings := anthropic_route_settings d;
     passthrough_settings := passthrough_settings d; route_identity_settings := i; rd_keys := ks |}.

(** ** The tables' own rules *)

Definition limits_in_range (timeout_ms request_bytes response_bytes : Z) : bool :=
  in_range 1 600000 timeout_ms && in_range 1 104857600 request_bytes && in_range 1 104857600 response_bytes.
(** What an update can break of the checks of a table of routes. *)
Definition route_checks (r : RouteRow) : bool :=
  str_mem (rt_mode r) ["managed_by_gateway"; "direct_litellm_passthrough"]
  && limits_in_range (rt_timeout_ms r) (rt_max_request_body_bytes r) (rt_max_response_body_bytes r).
Definition passthrough_checks (r : PassthroughRow) : bool :=
  negb (is_nil (pt_allowed_paths r)) && negb (is_nil (pt_allowed_methods r))
  && str_mem (pt_ui_exposure r) ["disabled"; "operator_only"; "explicitly_exposed"; "trusted_ingress"]
  && str_mem (pt_admin_api_exposure r) ["disabled"; "operator_only"; "explicitly_exposed"]
  && limits_in_range (pt_timeout_ms r) (pt_max_request_body_bytes r) (pt_max_response_body_bytes r)
  && str_mem (pt_authentication_mode r) ["gateway"; "litellm_bearer"].
(** The trigger on [route_identity_settings]; routes belong to no project. *)
Definition guard_route_profiles (keys : gset string) (old : option EndpointAccess) (a : EndpointAccess) : result SqlError EndpointAccess :=
  let previous := old ≫= authentication_profiles in
  let expected := from_option revision 0 previous in
  match authentication_profiles a with
  | None => if is_some previous then Err RevisionConflict else Ok a
  | Some ps =>
      if negb (revision ps =? expected) then Err RevisionConflict
      else
        check? try_for_each (λ b, if bool_decide (bound_key b ∈ keys) then Ok tt else Err InvalidBinding) (bindings ps) in
        if bool_decide (old = Some a) then Ok a else Ok (at_revision (expected + 1) a)
  end.
(** [UPDATE .. WHERE route_id = $1]. *)
Definition update_route (f : RouteRow → RouteRow) (id : string) (t : gmap string RouteRow) : GatewayResult (gmap string RouteRow) :=
  match t !! id with
  | None => Ok t
  | Some r => if route_checks (f r) then Ok (<[id := f r]> t) else Err StoreUnavailable
  end.

(** ** Routes *)

Record OpenAiRouteSetting := {
  os_route_id : string;
  os_route : string;
  os_enabled : bool;
  os_mode : OpenAiRouteMode;
  os_timeout_ms : Z;
  os_max_request_body_bytes : Z;
  os_max_response_body_bytes : Z;
  os_updated_at : Z
}.
Definition openai_route_setting_from_row (id : string) (r : RouteRow) : GatewayResult OpenAiRouteSetting :=
  let? mode := parse_openai_route_mode (rt_mode r) in
  Ok {| os_route_id := id; os_route := rt_route r; os_enabled := rt_enabled r; os_mode := mode; os_timeout_ms := rt_timeout_ms r;
        os_max_request_body_bytes := rt_max_request_body_bytes r; os_max_response_body_bytes := rt_max_response_body_bytes r;
        os_updated_at := rt_updated_at r |}.
Definition litellm_route_limits_from_row (r : RouteRow) : LiteLlmRouteLimits :=
  {| limits_timeout_ms := rt_timeout_ms r; limits_max_request_body_bytes := rt_max_request_body_bytes r;
     limits_max_response_body_bytes := rt_max_response_body_bytes r |}.
Definition route_row_setting (id : string) (t : gmap string RouteRow) : GatewayResult (option OpenAiRouteSetting) :=
  match t !! id with
  | None => Ok None
  | Some r => let? s := openai_route_setting_from_row id r in Ok (Some s)
  end.
Definition with_switch (dbnow : Z) (e : bool) (r : RouteRow) : RouteRow :=
  {| rt_route := rt_route r; rt_enabled := e; rt_mode := rt_mode r; rt_timeout_ms := rt_timeout_ms r;
     rt_max_request_body_bytes := rt_max_request_body_bytes r; rt_max_response_body_bytes := rt_max_response_body_bytes r; rt_updated_at := dbnow |}.
Definition with_mode (dbnow : Z) (m : OpenAiRouteMode) (r : RouteRow) : RouteRow :=
  {| rt_route := rt_route r; rt_enabled := rt_enabled r; rt_mode := openai_route_mode_str m; rt_timeout_ms := rt_timeout_ms r;
     rt_max_request_body_bytes := rt_max_request_body_bytes r; rt_max_response_body_bytes := rt_max_response_body_bytes r; rt_updated_at := dbnow |}.
Definition with_config (dbnow : Z) (p : OpenAiRouteConfigPatchRequest) (r : RouteRow) : RouteRow :=
  {| rt_route := rt_route r; rt_enabled := rt_enabled r; rt_mode := from_option openai_route_mode_str (rt_mode r) (rc_mode p);
     rt_timeout_ms := default (rt_timeout_ms r) (rc_timeout_ms p);
     rt_max_request_body_bytes := default (rt_max_request_body_bytes r) (rc_max_request_body_bytes p);
     rt_max_response_body_bytes := default (rt_max_response_body_bytes r) (rc_max_response_body_bytes p); rt_updated_at := dbnow |}.

(** The operations of the two tables differ only in the table; [known] is its
    [.._route_from_id], [d2] the database when the row is read back. *)
Section table.
Variable known : string → option Route.
Variable table : RoutesDb → gmap string RouteRow.
Variable set_table : gmap string RouteRow → RoutesDb → RoutesDb.
Definition write_then_read (id : string) (f : RouteRow → RouteRow) (d d2 : RoutesDb) : RoutesDb * GatewayResult (option OpenAiRouteSetting) :=
  if is_none (known id) then (d, Ok None)
  else match update_route f id (table d) with
       | Err e => (d, Err e)
       | Ok t => (set_table t d, route_row_setting id (table d2))
       end.
Definition patch_route_config (dbnow : Z) (id : string) (p : OpenAiRouteConfigPatchRequest) (d : RoutesDb) :
    RoutesDb * GatewayResult (option OpenAiRouteSetting) :=
  if is_none (known id) then (d, Ok None)
  else match route_config_patch_validate p with
       | Err e => (d, Err e)
       | Ok _ => match update_route (with_config dbnow p) id (table d) with
                 | Err e => (d, Err e)
                 | Ok t => (set_table t d, route_row_setting id t)
                 end
       end.
End table.
Definition set_openai_route_enabled (dbnow : Z) (id : string) (e : bool) :=
  write_then_read openai_route_from_id openai_route_settings set_openai id (with_switch dbnow e).
Definition set_openai_route_mode (dbnow : Z) (id : string) (m : OpenAiRouteMode) :=
  write_then_read openai_route_from_id openai_route_settings set_openai id (with_mode dbnow m).
Definition patch_openai_route_config := patch_route_config openai_route_from_id openai_route_settings set_openai.
Definition set_anthropic_route_enabled (dbnow : Z) (id : string) (e : bool) :=
  write_then_read anthropic_route_from_id anthropic_route_settings set_anthropic id (with_switch dbnow e).
Definition set_anthropic_route_mode (dbnow : Z) (id : string) (m : OpenAiRouteMode) :=
  write_then_read anthropic_route_from_id anthropic_route_settings set_anthropic id (with_mode dbnow m).
Definition patch_anthropic_route_config := patch_route_config anthropic_route_from_id anthropic_route_settings set_anthropic.

(** What the proxy asks of a route: without an identifier the default. *)
Definition ask_row {A} (id : option string) (t : gmap string RouteRow) (none : A) (read : RouteRow → GatewayResult A) : GatewayResult A :=
  match id with
  | None => Ok none
  | Some id => let? r := ok_or (t !! id) StoreUnavailable in read r
  end.
Definition openai_route_enabled (route : Route) (d : RoutesDb) : GatewayResult bool :=
  ask_row (openai_route_id route) (openai_route_settings d) true (λ r, Ok (rt_enabled r)).
Definition openai_route_mode (route : Route) (d : RoutesDb) : GatewayResult OpenAiRouteMode :=
  ask_row (openai_route_id route) (openai_route_settings d) ManagedByGateway (λ r, parse_openai_route_mode (rt_mode r)).
Definition openai_route_limits (route : Route) (d : RoutesDb) : GatewayResult LiteLlmRouteLimits :=
  ask_row (openai_route_id route) (openai_route_settings d) LiteLlmRouteLimits_default (λ r, Ok (litellm_route_limits_from_row r)).
Definition anthropic_route_enabled (route : Route) (d : RoutesDb) : GatewayResult bool :=
  ask_row (anthropic_route_id route) (anthropic_route_settings d) true (λ r, Ok (rt_enabled r)).
Definition anthropic_route_mode (route : Route) (d : RoutesDb) : GatewayResult OpenAiRouteMode :=
  ask_row (anthropic_route_id route) (anthropic_route_settings d) ManagedByGateway (λ r, parse_openai_route_mode (rt_mode r)).
Definition anthropic_route_limits (route : Route) (d : RoutesDb) : GatewayResult LiteLlmRouteLimits :=
  ask_row (anthropic_route_id route) (anthropic_route_settings d) LiteLlmRouteLimits_default (λ r, Ok (litellm_route_limits_from_row r)).

(** ** The LiteLLM passthrough *)

Definition parse_authentication_mode (value : string) : GatewayResult LiteLlmAuthenticationMode :=
  if String.eqb value "gateway" then Ok Gateway
  else if String.eqb value "litellm_bearer" then Ok LitellmBearer else Err InvalidConfiguration.
Definition litellm_passthrough_settings_from_row (r : PassthroughRow) : GatewayResult LiteLlmPassthroughSettings :=
  let? mode := parse_authentication_mode (pt_authentication_mode r) in
  let? ui := parse_litellm_exposure (pt_ui_exposure r) in
  let? admin := parse_litellm_exposure (pt_admin_api_exposure r) in
  Ok {| ps_authentication_mode := mode; ps_blocked_paths := pt_blocked_paths r; ps_enabled := pt_enabled r; ps_allowed_paths := pt_allowed_paths r;
        ps_allowed_methods := pt_allowed_methods r; ps_ui_exposure := ui; ps_admin_api_exposure := admin; ps_timeout_ms := pt_timeout_ms r;
        ps_max_request_body_bytes := pt_max_request_body_bytes r; ps_max_response_body_bytes := pt_max_response_body_bytes r;
        ps_updated_at := pt_updated_at r |}.
(** [now]: the clock of the gateway, for settings that are not there. *)
Definition litellm_passthrough_settings (now : Z) (d : RoutesDb) : GatewayResult LiteLlmPassthroughSettings :=
  match passthrough_settings d with
  | Some r => litellm_passthrough_settings_from_row r
  | None => Ok (default_with_updated_at now)
  end.
Definition get_litellm_passthrough_settings := litellm_passthrough_settings.
Definition patched_passthrough (dbnow : Z) (p : LiteLlmPassthroughSettingsPatchRequest) (s : LiteLlmPassthroughSettings) : PassthroughRow :=
  {| pt_authentication_mode := authentication_mode_as_str (default (ps_authentication_mode s) (pp_authentication_mode p));
     pt_blocked_paths := default (ps_blocked_paths s) (pp_blocked_paths p);
     pt_enabled := default (ps_enabled s) (pp_enabled p);
     pt_allowed_paths := default (ps_allowed_paths s) (pp_allowed_paths p);
     pt_allowed_methods := from_option (map (λ m, to_ascii_uppercase (trim m))) (ps_allowed_methods s) (pp_allowed_methods p);
     pt_ui_exposure := litellm_exposure_str (default (ps_ui_exposure s) (pp_ui_exposure p));
     pt_admin_api_exposure := litellm_exposure_str (default (ps_admin_api_exposure s) (pp_admin_api_exposure p));
     pt_timeout_ms := default (ps_timeout_ms s) (pp_timeout_ms p);
     pt_max_request_body_bytes := default (ps_max_request_body_bytes s) (pp_max_request_body_bytes p);
     pt_max_response_body_bytes := default (ps_max_response_body_bytes s) (pp_max_response_body_bytes p); pt_updated_at := dbnow |}.

Section store.
Variable method_parses : string → bool.
Variable to_lowercase : string → string.
Variable has_control header_name_ok : string → bool.
Variable collate : string → string → comparison.
Abbreviation identity_validate := (route_identity_validate to_lowercase has_control header_name_ok).
Abbreviation access_validate := (endpoint_validate to_lowercase has_control header_name_ok).

(** [d1]: the database when the settings are read; [d]: when they are written. *)
Definition patch_litellm_passthrough_settings (now dbnow : Z) (p : LiteLlmPassthroughSettingsPatchRequest) (d1 d : RoutesDb) :
    RoutesDb * GatewayResult LiteLlmPassthroughSettings :=
  match (check? passthrough_patch_validate method_parses p in litellm_passthrough_settings now d1) with
  | Err e => (d, Err e)
  | Ok current =>
      let r := patched_passthrough dbnow p current in
      if passthrough_checks r then (set_passthrough (Some r) d, litellm_passthrough_settings_from_row r) else (d, Err StoreUnavailable)
  end.

(** ** Identities *)

Definition route_identity (route : Route) (d : RoutesDb) : GatewayResult EndpointAccess :=
  let a := default no_access (route_identity_settings d !! route_as_str route) in
  check? access_validate a (route_as_str route) in Ok a.
(** The rows are collected in a map, out of which each route takes its own. *)
Fixpoint take_identities (values : gmap string EndpointAccess) (routes : list Route) : list RouteIdentitySetting :=
  match routes with
  | [] => []
  | route :: routes =>
      {| ri_route := route_as_str route; ri_access := default no_access (values !! route_as_str route) |}
      :: take_identities (delete (route_as_str route) values) routes
  end.
Definition list_route_identities (d : RoutesDb) : GatewayResult (list RouteIdentitySetting) :=
  Ok (take_identities (route_identity_settings d) IDENTITY_ROUTES).
Definition set_route_identity (s : RouteIdentitySetting) (d : RoutesDb) : RoutesDb * GatewayResult RouteIdentitySetting :=
  match identity_validate s with
  | Err e => (d, Err e)
  | Ok _ => match guard_route_profiles (rd_keys d) (route_identity_settings d !! ri_route s) (ri_access s) with
            | Err e => (d, Err (profile_write_error e))
            | Ok a => (set_identities (<[ri_route s := a]> (route_identity_settings d)) (rd_keys d) d, Ok {| ri_route := ri_route s; ri_access := a |})
            end
  end.

(** ** Lists of routes *)

Definition list_routes (t : gmap string RouteRow) : GatewayResult (list OpenAiRouteSetting) :=
  try_map (λ kr, openai_route_setting_from_row kr.1 kr.2) (sort_by (λ a b, collate a.1 b.1) (map_to_list t)).
Definition list_openai_route_settings (d : RoutesDb) := list_routes (openai_route_settings d).
Definition list_anthropic_route_settings (d : RoutesDb) := list_routes (anthropic_route_settings d).

(** ** The tables over time

    A patch of the passthrough settings may have read them any number of steps
    before it writes; [past] are the earlier states, latest first. *)

Inductive RouteOp : Type :=
| SwitchesOpenAi (dbnow : Z) (id : string) (e : bool)
| ModesOpenAi (dbnow : Z) (id : string) (m : OpenAiRouteMode)
| PatchesOpenAi (dbnow : Z) (id : string) (p : OpenAiRouteConfigPatchRequest)
| SwitchesAnthropic (dbnow : Z) (id : string) (e : bool)
| ModesAnthropic (dbnow : Z) (id : string) (m : OpenAiRouteMode)
| PatchesAnthropic (dbnow : Z) (id : string) (p : OpenAiRouteConfigPatchRequest)
| PatchesPassthrough (now dbnow : Z) (p : LiteLlmPassthroughSettingsPatchRequest) (steps_ago : nat)
| SetsIdentity (s : RouteIdentitySetting)
| CreatesKey (id : string).
Definition route_step (d : RoutesDb) (past : list RoutesDb) (op : RouteOp) : RoutesDb :=
  match op with
  | SwitchesOpenAi dbnow id e => (set_openai_route_enabled dbnow id e d d).1
  | ModesOpenAi dbnow id m => (set_openai_route_mode dbnow id m d d).1
  | PatchesOpenAi dbnow id p => (patch_openai_route_config dbnow id p d).1
  | SwitchesAnthropic dbnow id e => (set_anthropic_route_enabled dbnow id e d d).1
  | ModesAnthropic dbnow id m => (set_anthropic_route_mode dbnow id m d d).1
  | PatchesAnthropic dbnow id p => (patch_anthropic_route_config dbnow id p d).1
  | PatchesPassthrough now dbnow p steps_ago => (patch_litellm_passthrough_settings now dbnow p (nth steps_ago (d :: past) d) d).1
  | SetsIdentity s => (set_route_identity s d).1
  | CreatesKey id => set_identities (route_identity_settings d) ({[id]} ∪ rd_keys d) d
  end.
Definition routes_after (run : RoutesDb * list RoutesDb) (op : RouteOp) : RoutesDb * list RoutesDb :=
  (route_step run.1 run.2 op, run.1 :: run.2).
(** The tables as the migrations leave them at [t0]. *)
Definition seeded (t0 : Z) (route : string) : RouteRow :=
  {| rt_route := route; rt_enabled := true; rt_mode := "managed_by_gateway"; rt_timeout_ms := 120000; rt_max_request_body_bytes := 1048576;
     rt_max_response_body_bytes := 1048576; rt_updated_at := t0 |}.
Definition migrated (t0 : Z) : RoutesDb :=
  {| openai_route_settings :=
       {["chat-completions" := seeded t0 "/v1/chat/completions"; "responses" := seeded t0 "/v1/responses";
         "embeddings" := seeded t0 "/v1/embeddings"; "rerank" := seeded t0 "/v1/rerank"]};
     anthropic_route_settings :=
       {["messages" := seeded t0 "/v1/messages"; "messages-count-tokens" := seeded t0 "/v1/messages/count_tokens";
         "message-batches" := seeded t0 "/v1/messages/batches"; "message-batch" := seeded t0 "/v1/messages/batches/*";
         "message-batch-results" := seeded t0 "/v1/messages/batches/*/results";
         "message-batch-cancel" := seeded t0 "/v1/messages/batches/*/cancel"; "models" := seeded t0 "/v1/models"]};
     passthrough_settings :=
       Some {| pt_authentication_mode := "gateway"; pt_blocked_paths := []; pt_enabled := false; pt_allowed_paths := ["/v1/*"];
               pt_allowed_methods := ["GET"; "POST"]; pt_ui_exposure := "disabled"; pt_admin_api_exposure := "disabled";
               pt_timeout_ms := 120000; pt_max_request_body_bytes := 1048576; pt_max_response_body_bytes := 1048576; pt_updated_at := t0 |};
     route_identity_settings := ∅; rd_keys := ∅ |}.
Definition routes_run (t0 : Z) (ops : list RouteOp) : RoutesDb * list RoutesDb := foldl routes_after (migrated t0, []) ops.

(** ** What the switches of a route are, without a table *)

Record Switches := { sw_on : bool; sw_passes : OpenAiRouteMode; sw_limits : LiteLlmRouteLimits }.
Definition initial_switches : Switches := {| sw_on := true; sw_passes := ManagedByGateway; sw_limits := LiteLlmRouteLimits_default |}.
Definition configured (p : OpenAiRouteConfigPatchRequest) (s : Switches) : Switches :=
  {| sw_on := sw_on s; sw_passes := default (sw_passes s) (rc_mode p);
     sw_limits := {| limits_timeout_ms := default (limits_timeout_ms (sw_limits s)) (rc_timeout_ms p);
                     limits_max_request_body_bytes := default (limits_max_request_body_bytes (sw_limits s)) (rc_max_request_body_bytes p);
                     limits_max_response_body_bytes := default (limits_max_response_body_bytes (sw_limits s)) (rc_max_response_body_bytes p) |} |}.
(** The effect of a call on the switches of its own route. *)
Inductive SwitchChange : Type := TurnsTo (e : bool) | PassesAs (m : OpenAiRouteMode) | Configures (p : OpenAiRouteConfigPatchRequest).
Definition changed_switches (s : Switches) (c : SwitchChange) : Switches :=
  match c with
  | TurnsTo e => {| sw_on := e; sw_passes := sw_passes s; sw_limits := sw_limits s |}
  | PassesAs m => {| sw_on := sw_on s; sw_passes := m; sw_limits := sw_limits s |}
  | Configures p => if is_ok (route_config_patch_validate p) then configured p s else s
  end.
Definition openai_change (op : RouteOp) : option (string * SwitchChange) :=
  match op with
  | SwitchesOpenAi _ id e => Some (id, TurnsTo e)
  | ModesOpenAi _ id m => Some (id, PassesAs m)
  | PatchesOpenAi _ id p => Some (id, Configures p)
  | _ => None
  end.
Definition anthropic_change (op : RouteOp) : option (string * SwitchChange) :=
  match op with
  | SwitchesAnthropic _ id e => Some (id, TurnsTo e)
  | ModesAnthropic _ id m => Some (id, PassesAs m)
  | PatchesAnthropic _ id p => Some (id, Configures p)
  | _ => None
  end.
Definition switches_of (change : RouteOp → option (string * SwitchChange)) (ops : list RouteOp) (id : string) : Switches :=
  foldl (λ s op, match change op with Some (i, c) => if String.eqb i id then changed_switches s c else s | None => s end) initial_switches ops.
End store.

(** ** The rows show the switches *)

Record row_is (r : RouteRow) (s : Switches) : Prop := {
  row_on : rt_enabled r = sw_on s;
  row_mode : rt_mode r = openai_route_mode_str (sw_passes s);
  row_limits : litellm_route_limits_from_row r = sw_limits s;
  row_range : limits_in_range (rt_timeout_ms r) (rt_max_request_body_bytes r) (rt_max_response_body_bytes r) = true
}.
Lemma route_mode_roundtrip m : parse_openai_route_mode (openai_route_mode_str m) = Ok m.
Proof. by destruct m. Qed.
Lemma exposure_roundtrip e : parse_litellm_exposure (litellm_exposure_str e) = Ok e.
Proof. by destruct e. Qed.
Lemma row_is_checks r s : row_is r s → route_checks r = true.
Proof. intros [_ Hm _ Hr]. unfold route_checks. rewrite Hm, Hr. by destruct (sw_passes s). Qed.
Lemma switched_row dbnow e r s : row_is r s → row_is (with_switch dbnow e r) (changed_switches s (TurnsTo e)).
Proof. intros []. by split. Qed.
Lemma moded_row dbnow m r s : row_is r s → row_is (with_mode dbnow m r) (changed_switches s (PassesAs m)).
Proof. intros []. by split. Qed.
Lemma runtime_limit_ok t b : validate_optional_runtime_limit t b = Ok tt ↔
  is_none_or (in_range 1 600000) t = true ∧ is_none_or (in_range 1 104857600) b = true.
Proof.
  unfold validate_optional_runtime_limit. rewrite !guard_ok. destruct t, b; cbn; rewrite ?negb_false_iff; tauto.
Qed.
Lemma config_patch_ok p : route_config_patch_validate p = Ok tt ↔
  is_none_or (in_range 1 600000) (rc_timeout_ms p) = true ∧ is_none_or (in_range 1 104857600) (rc_max_request_body_bytes p) = true ∧
  is_none_or (in_range 1 104857600) (rc_max_response_body_bytes p) = true.
Proof. unfold route_config_patch_validate. rewrite !check_ok, !runtime_limit_ok. tauto. Qed.
Lemma default_range lo hi o v : is_none_or (in_range lo hi) o = true → in_range lo hi v = true → in_range lo hi (default v o) = true.
Proof. by destruct o. Qed.
Lemma limits_default t b b' ot ob ob' : limits_in_range t b b' = true → is_none_or (in_range 1 600000) ot = true →
  is_none_or (in_range 1 104857600) ob = true → is_none_or (in_range 1 104857600) ob' = true →
  limits_in_range (default t ot) (default b ob) (default b' ob') = true.
Proof. unfold limits_in_range. rewrite !andb_true_iff. intros [[??]?] ???. split_and!; by apply default_range. Qed.
Lemma configured_row dbnow p r s : route_config_patch_validate p = Ok tt → row_is r s →
  row_is (with_config dbnow p r) (changed_switches s (Configures p)).
Proof.
  intros Hp [Ho Hm Hl Hr]. cbn. rewrite Hp. apply config_patch_ok in Hp as (H1 & H2 & H3). split; cbn.
  - done.
  - by destruct (rc_mode p).
  - unfold litellm_route_limits_from_row in *. rewrite <- Hl. done.
  - by apply limits_default.
Qed.

(** A table has a row for every route it knows, and the rows are the switches. *)
Record table_is (known : string → option Route) (t : gmap string RouteRow) (S : string → Switches) : Prop := {
  table_known id : is_Some (t !! id) ↔ is_Some (known id);
  table_rows id r : t !! id = Some r → row_is r (S id)
}.
Lemma update_table known f g i t S : (∀ r s, row_is r s → row_is (f r) (g s)) → table_is known t S →
  ∃ t', update_route f i t = Ok t' ∧ table_is known t' (λ id, if String.eqb i id then g (S id) else S id).
Proof.
  intros Hf [Hk Hr]. unfold update_route. destruct (t !! i) as [x|] eqn:Ex.
  - pose proof (Hf _ _ (Hr _ _ Ex)) as Hx. rewrite (row_is_checks _ _ Hx). eexists. split; [done|]. split; intros id.
    + rewrite <- Hk, lookup_insert_is_Some'. split; [intros [<-|?]; [by rewrite Ex|done]|auto].
    + intros r. destruct (String.eqb_spec i id) as [<-|Hn].
      * rewrite lookup_insert, decide_True by done. by intros [= <-].
      * rewrite lookup_insert_ne by done. apply Hr.
  - eexists. split; [done|]. split; [done|]. intros id r E. destruct (String.eqb_spec i id) as [->|]; [congruence|auto].
Qed.
Lemma table_ext known t S S' : (∀ id, is_Some (known id) → S id = S' id) → table_is known t S → table_is known t S'.
Proof. intros E [Hk Hr]. split; [done|]. intros id r H. rewrite <- E; [by apply Hr|]. apply Hk. by rewrite H. Qed.

Section tables.
Variable known : string → option Route.
Variable table : RoutesDb → gmap string RouteRow.
Variable set_table : gmap string RouteRow → RoutesDb → RoutesDb.
Hypothesis table_set : ∀ t d, table (set_table t d) = t.
Abbreviation changed S i c := (λ id, if String.eqb i id then changed_switches (S id) c else S id).
Lemma unknown_same i c t S : known i = None → table_is known t S → table_is known t (changed S i c).
Proof. intros Hi. apply table_ext. intros id Hid. destruct (String.eqb_spec i id) as [->|]; [|done]. rewrite Hi in Hid. by destruct Hid. Qed.
Lemma write_table f c i d d2 S : (∀ r s, row_is r s → row_is (f r) (changed_switches s c)) → table_is known (table d) S →
  table_is known (table (write_then_read known table set_table i f d d2).1) (changed S i c).
Proof using table_set.
  intros Hf Ht. unfold write_then_read. destruct (known i) as [x|] eqn:Hi; cbn; [|by apply unknown_same].
  destruct (update_table known f (λ s, changed_switches s c) i (table d) S Hf Ht) as (t' & -> & Ht'). cbn. by rewrite table_set.
Qed.
Lemma config_table dbnow p i d S : table_is known (table d) S →
  table_is known (table (patch_route_config known table set_table dbnow i p d).1) (changed S i (Configures p)).
Proof using table_set.
  intros Ht. unfold patch_route_config. destruct (known i) as [x|] eqn:Hi; cbn [is_none]; [|by apply unknown_same].
  destruct (route_config_patch_validate p) as [[]|] eqn:Hp.
  - destruct (update_table known (with_config dbnow p) (λ s, changed_switches s (Configures p)) i (table d) S) as (t' & -> & Ht'); [|done|].
    { intros. by apply configured_row. }
    cbn. rewrite table_set. exact Ht'.
  - cbn. rewrite Hp. cbn. eapply table_ext; [|exact Ht]. intros id _. by destruct (String.eqb i id).
Qed.
Lemma write_shape f i d d2 : (write_then_read known table set_table i f d d2).1 = d ∨
  ∃ t, (write_then_read known table set_table i f d d2).1 = set_table t d.
Proof. unfold write_then_read. destruct (is_none _); [by left|]. destruct (update_route _ _ _); [right; by eexists|by left]. Qed.
Lemma config_shape dbnow p i d : (patch_route_config known table set_table dbnow i p d).1 = d ∨
  ∃ t, (patch_route_config known table set_table dbnow i p d).1 = set_table t d.
Proof.
  unfold patch_route_config. destruct (is_none _); [by left|]. destruct (route_config_patch_validate p); [|by left].
  destruct (update_route _ _ _); [right; by eexists|by left].
Qed.
End tables.

(** ** Steps *)

Section steps.
Variable method_parses : string → bool.
Variable to_lowercase : string → string.
Variable has_control header_name_ok : string → bool.
Abbreviation step := (route_step method_parses to_lowercase has_control header_name_ok).
Abbreviation after := (foldl (routes_after method_parses to_lowercase has_control header_name_ok)).
Abbreviation identity_validate := (route_identity_validate to_lowercase has_control header_name_ok).
Abbreviation access_validate := (endpoint_validate to_lowercase has_control header_name_ok).

(** The steps that leave a part of the database as it is. *)
Lemma patch_shape now dbnow p d1 d : (patch_litellm_passthrough_settings method_parses now dbnow p d1 d).1 = d ∨
  ∃ r, (patch_litellm_passthrough_settings method_parses now dbnow p d1 d).1 = set_passthrough r d.
Proof.
  unfold patch_litellm_passthrough_settings. destruct (check? _ in _); [|by left]. destruct (passthrough_checks _); [right; by eexists|by left].
Qed.
Lemma identity_shape s d : (set_route_identity to_lowercase has_control header_name_ok s d).1 = d ∨
  ∃ i, (set_route_identity to_lowercase has_control header_name_ok s d).1 = set_identities i (rd_keys d) d.
Proof.
  unfold set_route_identity. destruct (identity_validate s); [|by left]. destruct (guard_route_profiles _ _ _); [right; by eexists|by left].
Qed.
Ltac frame :=
  unfold set_openai_route_enabled, set_openai_route_mode, patch_openai_route_config, set_anthropic_route_enabled, set_anthropic_route_mode,
    patch_anthropic_route_config;
  match goal with
  | |- context [(write_then_read ?k ?t ?s ?i ?f ?d ?d2).1] => destruct (write_shape k t s f i d d2) as [->|[? ->]]
  | |- context [(patch_route_config ?k ?t ?s ?n ?i ?p ?d).1] => destruct (config_shape k t s n p i d) as [->|[? ->]]
  | |- context [(patch_litellm_passthrough_settings _ ?n ?m ?p ?d1 ?d).1] => destruct (patch_shape n m p d1 d) as [->|[? ->]]
  | |- context [(set_route_identity _ _ _ ?s ?d).1] => destruct (identity_shape s d) as [->|[? ->]]
  | _ => idtac
  end; done.
Lemma openai_step d past op S : table_is openai_route_from_id (openai_route_settings d) S →
  table_is openai_route_from_id (openai_route_settings (step d past op))
    (λ id, match openai_change op with Some (i, c) => if String.eqb i id then changed_switches (S id) c else S id | None => S id end).
Proof.
  intros Ht. destruct op; cbn [route_step openai_change];
    try (replace (openai_route_settings _) with (openai_route_settings d) by frame; exact Ht).
  - exact (write_table openai_route_from_id openai_route_settings set_openai (λ _ _, eq_refl) (with_switch dbnow e) (TurnsTo e) id d d S (switched_row dbnow e) Ht).
  - exact (write_table openai_route_from_id openai_route_settings set_openai (λ _ _, eq_refl) (with_mode dbnow m) (PassesAs m) id d d S (moded_row dbnow m) Ht).
  - exact (config_table openai_route_from_id openai_route_settings set_openai (λ _ _, eq_refl) dbnow p id d S Ht).
Qed.
Lemma anthropic_step d past op S : table_is anthropic_route_from_id (anthropic_route_settings d) S →
  table_is anthropic_route_from_id (anthropic_route_settings (step d past op))
    (λ id, match anthropic_change op with Some (i, c) => if String.eqb i id then changed_switches (S id) c else S id | None => S id end).
Proof.
  intros Ht. destruct op; cbn [route_step anthropic_change];
    try (replace (anthropic_route_settings _) with (anthropic_route_settings d) by frame; exact Ht).
  - exact (write_table anthropic_route_from_id anthropic_route_settings set_anthropic (λ _ _, eq_refl) (with_switch dbnow e) (TurnsTo e) id d d S (switched_row dbnow e) Ht).
  - exact (write_table anthropic_route_from_id anthropic_route_settings set_anthropic (λ _ _, eq_refl) (with_mode dbnow m) (PassesAs m) id d d S (moded_row dbnow m) Ht).
  - exact (config_table anthropic_route_from_id anthropic_route_settings set_anthropic (λ _ _, eq_refl) dbnow p id d S Ht).
Qed.
Lemma run_snoc t0 ops op : after (migrated t0, []) (ops ++ [op]) =
  (step (after (migrated t0, []) ops).1 (after (migrated t0, []) ops).2 op, (after (migrated t0, []) ops).1 :: (after (migrated t0, []) ops).2).
Proof. by rewrite foldl_app. Qed.
(** The rows of the migrations, identifier by identifier. *)
Ltac each_id id l :=
  lazymatch l with
  | @nil _ => cbn; rewrite !lookup_insert_ne, lookup_singleton_ne by done
  | @cons _ ?i ?l =>
      destruct (decide (id = i)) as [->|]; [vm_compute; first [split; intros _; by eexists | intros ? [= <-]; by split]|each_id id l]
  end.
Lemma openai_seeded t0 : table_is openai_route_from_id (openai_route_settings (migrated t0)) (λ _, initial_switches).
Proof.
  split; intros id; each_id id constr:(["chat-completions"; "responses"; "embeddings"; "rerank"]); [|done].
  unfold openai_route_from_id. by rewrite !(λ x y, proj2 (String.eqb_neq x y)).
Qed.
Lemma anthropic_seeded t0 : table_is anthropic_route_from_id (anthropic_route_settings (migrated t0)) (λ _, initial_switches).
Proof.
  split; intros id; each_id id constr:(["messages"; "messages-count-tokens"; "message-batches"; "message-batch"; "message-batch-results";
    "message-batch-cancel"; "models"]); [|done].
  unfold anthropic_route_from_id. by rewrite !(λ x y, proj2 (String.eqb_neq x y)).
Qed.
Lemma openai_history t0 ops : table_is openai_route_from_id (openai_route_settings (after (migrated t0, []) ops).1) (switches_of openai_change ops).
Proof.
  induction ops as [|op ops IH] using rev_ind; [apply openai_seeded|]. rewrite run_snoc.
  eapply table_ext; [|apply openai_step, IH]. intros id _. unfold switches_of. by rewrite foldl_app.
Qed.
Lemma anthropic_history t0 ops :
  table_is anthropic_route_from_id (anthropic_route_settings (after (migrated t0, []) ops).1) (switches_of anthropic_change ops).
Proof.
  induction ops as [|op ops IH] using rev_ind; [apply anthropic_seeded|]. rewrite run_snoc.
  eapply table_ext; [|apply anthropic_step, IH]. intros id _. unfold switches_of. by rewrite foldl_app.
Qed.
(** What a lookup of a route finds in its table. *)
Lemma asked_row {A} known t S (id : option string) (none : A) read val : table_is known t S → (∀ i, id = Some i → is_Some (known i)) →
  (∀ r s, row_is r s → read r = Ok (val s)) → val initial_switches = none →
  ask_row id t none read = Ok (val (from_option S initial_switches id)).
Proof.
  intros [Hk Hr] Hid Hread <-. destruct id as [i|]; [|done]. destruct (proj2 (Hk i) (Hid i eq_refl)) as [r E]. cbn. rewrite E. by apply Hread, Hr.
Qed.
Lemma openai_known route i : openai_route_id route = Some i → is_Some (openai_route_from_id i).
Proof. intros H. exists route. by apply route_ids_roundtrip. Qed.
Lemma anthropic_known route i : anthropic_route_id route = Some i → is_Some (anthropic_route_from_id i).
Proof. intros H. exists route. by apply route_ids_roundtrip. Qed.
Lemma mode_read r s : row_is r s → parse_openai_route_mode (rt_mode r) = Ok (sw_passes s).
Proof. intros [_ -> _ _]. apply route_mode_roundtrip. Qed.

(** *** The passthrough settings *)

Record passthrough_ok (s : LiteLlmPassthroughSettings) : Prop := {
  ok_allowed : validate_allowed_paths (ps_allowed_paths s) = Ok tt;
  ok_blocked : ps_blocked_paths s = [] ∨ validate_allowed_paths (ps_blocked_paths s) = Ok tt;
  ok_methods : is_nil (ps_allowed_methods s) = false ∧ Z.of_nat (length (ps_allowed_methods s)) ≤ 16;
  ok_admin : ps_admin_api_exposure s ≠ TrustedIngress;
  ok_limits : limits_in_range (ps_timeout_ms s) (ps_max_request_body_bytes s) (ps_max_response_body_bytes s) = true
}.
Lemma default_passthrough_ok now : passthrough_ok (default_with_updated_at now).
Proof. split; try done. by left. Qed.
Lemma admin_exposure_checked e : e ≠ TrustedIngress → str_mem (litellm_exposure_str e) ["disabled"; "operator_only"; "explicitly_exposed"] = true.
Proof. by destruct e. Qed.
Lemma ui_exposure_checked e : str_mem (litellm_exposure_str e) ["disabled"; "operator_only"; "explicitly_exposed"; "trusted_ingress"] = true.
Proof. by destruct e. Qed.
(** A patch that validates makes a row out of valid settings that the table
    takes and that reads back as valid settings. *)
Lemma patched_passthrough_ok dbnow p s (r := patched_passthrough dbnow p s) : passthrough_patch_validate method_parses p = Ok tt → passthrough_ok s →
  passthrough_checks r = true ∧ ∃ s', litellm_passthrough_settings_from_row r = Ok s' ∧ passthrough_ok s'.
Proof.
  unfold passthrough_patch_validate. rewrite !check_ok, guard_ok, !check_ok, !runtime_limit_ok.
  intros (Ha & Hb & Hm & Ht%bool_decide_eq_false & (L1 & L2) & (_ & L3) & _) [Sa Sb [Sm Sm'] St Sl].
  assert (default (ps_admin_api_exposure s) (pp_admin_api_exposure p) ≠ TrustedIngress) as Hadm.
  { destruct (pp_admin_api_exposure p) as [e|]; cbn; [congruence|done]. }
  pose proof (limits_default _ _ _ _ _ _ Sl L1 L2 L3) as Hl.
  assert (validate_allowed_paths (default (ps_allowed_paths s) (pp_allowed_paths p)) = Ok tt) as Hpaths by (by destruct (pp_allowed_paths p)).
  assert (is_nil (pt_allowed_methods r) = false ∧ Z.of_nat (length (pt_allowed_methods r)) ≤ 16) as [Hmeth Hmeth'].
  { subst r. cbn. destruct (pp_allowed_methods p) as [l|]; cbn; [|done]. apply guard_ok in Hm as [[Hm1 Hm2]%orb_false_iff _].
    rewrite length_map. destruct l; [done|]. split; [done|lia]. }
  split.
  - unfold passthrough_checks. rewrite !andb_true_iff. apply guard_ok in Hpaths as [[Hn _]%orb_false_iff _]. split_and!.
    + by apply negb_true_iff.
    + by apply negb_true_iff.
    + apply ui_exposure_checked.
    + by apply admin_exposure_checked.
    + exact Hl.
    + unfold r. cbn -[default str_mem]. by destruct (default _ (pp_authentication_mode p)).
  - unfold litellm_passthrough_settings_from_row, r at 1 2 3, patched_passthrough at 1 2 3. cbn -[default]. rewrite !exposure_roundtrip.
    destruct (parse_authentication_mode _) as [m|] eqn:E; [|by destruct (default _ (pp_authentication_mode p))].
    eexists. split; [done|]. split; cbn -[default]; try done.
    destruct (pp_blocked_paths p) as [l|]; cbn; [|done]. destruct l; [by left|by right].
Qed.
Definition passthrough_valid (d : RoutesDb) : Prop := ∀ now, ∃ s, litellm_passthrough_settings now d = Ok s ∧ passthrough_ok s.
Lemma patch_valid now dbnow p d1 d : passthrough_valid d1 → passthrough_valid d →
  passthrough_valid (patch_litellm_passthrough_settings method_parses now dbnow p d1 d).1.
Proof.
  intros H1 H. unfold patch_litellm_passthrough_settings. destruct (passthrough_patch_validate method_parses p) as [[]|] eqn:Hp; [|done].
  destruct (H1 now) as (s & -> & Hs). cbn. destruct (patched_passthrough_ok dbnow p s Hp Hs) as (-> & s' & E & Hs'). cbn.
  intros n. exists s'. by rewrite <- E.
Qed.
Lemma passthrough_history t0 ops : Forall passthrough_valid ((after (migrated t0, []) ops).1 :: (after (migrated t0, []) ops).2).
Proof.
  induction ops as [|op ops IH] using rev_ind.
  { constructor; [|done]. intros now. eexists. split; [done|]. apply (default_passthrough_ok t0). }
  rewrite run_snoc. set (run := after _ _) in *. constructor; [|done]. cbn [fst]. apply Forall_cons in IH as [Hd Hpast].
  assert (∀ d', passthrough_settings d' = passthrough_settings run.1 → passthrough_valid d') as Hsame.
  { intros d' E now. unfold litellm_passthrough_settings. rewrite E. apply Hd. }
  destruct op; cbn [route_step]; try (apply Hsame; frame). apply patch_valid; [|done].
  assert (Forall passthrough_valid (run.1 :: run.2)) as Hall by (by constructor). rewrite Forall_forall in Hall.
  destruct (nth_in_or_default steps_ago (run.1 :: run.2) run.1) as [Hin|E]; [apply Hall; by apply list_elem_of_In|by rewrite E].
Qed.

(** *** Identities *)

Definition route_profiles (d : RoutesDb) (route : string) : option AuthenticationProfiles :=
  route_identity_settings d !! route ≫= authentication_profiles.
Definition route_revision (d : RoutesDb) (route : string) : Z := from_option revision 0 (route_profiles d route).
Record identity_ok (keys : gset string) (route : string) (a : EndpointAccess) : Prop := {
  io_route : existsb (λ r, String.eqb (route_as_str r) route) IDENTITY_ROUTES = true;
  io_accessa : accessa a = None;
  io_access : access_validate (at_revision 0 a) route = Ok tt;
  io_bindings : ∀ ps b, authentication_profiles a = Some ps → b ∈ bindings ps → bound_key b ∈ keys
}.
(** A revision that can still be raised is no obstacle to validation. *)
Lemma access_at_revision a route : from_option revision 0 (authentication_profiles a) < i64_max → access_validate (at_revision 0 a) route = Ok tt →
  access_validate a route = Ok tt.
Proof.
  unfold endpoint_validate, accessa_invalid, at_revision. cbn. destruct (authentication_profiles a) as [ps|]; [|done]. cbn. intros Hr.
  rewrite !check_ok, !guard_ok, !check_ok. intros (H1 & H2 & (Hp & H3 & _) & H4 & H5 & H6). split_and!; try done.
  unfold profiles_validate in *. cbn in *. apply guard_ok in Hp as [E Hp]. rewrite !orb_false_iff in E.
  destruct E as [[[-> ->] ->] _]. cbn. by rewrite (proj2 (Z.leb_gt _ _) Hr).
Qed.
(** What the trigger lets through. *)
Lemma guard_outcome keys old a x : guard_route_profiles keys old a = Ok x → (x = a ∨ ∃ n, x = at_revision n a) ∧
  (∀ ps b, authentication_profiles x = Some ps → b ∈ bindings ps → bound_key b ∈ keys) ∧
  let before := old ≫= authentication_profiles in let after := authentication_profiles x in
  (is_Some before → is_Some after) ∧
  (after = before ∨ from_option revision 0 after = from_option revision 0 before + 1).
Proof.
  unfold guard_route_profiles. destruct (authentication_profiles a) as [ps|] eqn:Ea.
  - rewrite guard_ok, check_ok, negb_false_iff, Z.eqb_eq. intros (Hr & Hb & Hx). apply try_for_each_ok in Hb. rewrite Forall_forall in Hb.
    assert (∀ b, b ∈ bindings ps → bound_key b ∈ keys) as Hk. { intros b Hin. specialize (Hb b Hin). by destruct (bool_decide_reflect (bound_key b ∈ keys)). }
    case_bool_decide as Eo; injection Hx as <-; cbn; rewrite Ea; cbn.
    + subst old. cbn. rewrite Ea. split; [by left|]. split; [by intros ?? [= <-]; auto|]. split; [done|by left].
    + split; [right; by eexists|]. split; [by intros ?? [= <-]; auto|]. split; [done|by right].
  - destruct (old ≫= authentication_profiles) as [o|]; [done|]. cbn. intros [= <-]. rewrite Ea. split; [by left|]. split; [done|]. split; [done|by left].
Qed.
Record identities_ok (d : RoutesDb) (n : Z) : Prop := {
  ids_valid route a : route_identity_settings d !! route = Some a → identity_ok (rd_keys d) route a;
  ids_revision route : route_revision d route ≤ n
}.
Lemma identities_mono d n m : identities_ok d n → n ≤ m → identities_ok d m.
Proof. intros [Hv Hr] Hm. split; [done|]. intros route. specialize (Hr route). lia. Qed.
Lemma set_identity_ok s d n : 0 ≤ n → identities_ok d n → identities_ok (set_route_identity to_lowercase has_control header_name_ok s d).1 (n + 1).
Proof.
  intros Hn Hd. unfold set_route_identity. destruct (identity_validate s) as [[]|] eqn:Hs; [|apply (identities_mono d n); [done|lia]].
  destruct (guard_route_profiles _ _ _) as [x|] eqn:Hg; [|apply (identities_mono d n); [done|lia]]. destruct Hd as [Hv Hr].
  apply guard_outcome in Hg as (Hx & Hb & _ & Hrev). cbn zeta in Hrev. unfold route_identity_validate in Hs.
  rewrite guard_ok, !orb_false_iff, negb_false_iff in Hs. destruct Hs as ([[H1 H2] _] & H3). apply access_any_revision in H3. cbn. split; cbn.
  - intros route a. destruct (decide (ri_route s = route)) as [<-|Hne]; [|rewrite lookup_insert_ne by done; apply Hv].
    rewrite lookup_insert, decide_True by done. intros [= <-]. split; try done; destruct Hx as [->|[m ->]]; try done; cbn.
    1, 2: by destruct (accessa (ri_access s)).
    by rewrite at_revision_twice.
  - intros route. unfold route_revision, route_profiles in *. cbn. destruct (decide (ri_route s = route)) as [<-|Hne].
    + rewrite lookup_insert, decide_True by done. cbn. specialize (Hr (ri_route s)). destruct Hrev as [->|E]; [|rewrite E]; lia.
    + rewrite lookup_insert_ne by done. specialize (Hr route). lia.
Qed.
Lemma identities_history t0 ops : identities_ok (after (migrated t0, []) ops).1 (Z.of_nat (length ops)).
Proof.
  induction ops as [|op ops IH] using rev_ind; [split; [done|]; by intros route|]. rewrite run_snoc, length_app. set (run := after _ _) in *. cbn [fst length].
  replace (Z.of_nat (length ops + 1)) with (Z.of_nat (length ops) + 1) by lia.
  assert (∀ d', route_identity_settings d' = route_identity_settings run.1 → rd_keys run.1 ⊆ rd_keys d' → identities_ok d' (Z.of_nat (length ops) + 1)) as Hsame.
  { destruct IH as [Hv Hr]. intros d' E Hk. split.
    - intros route a. rewrite E. intros H. destruct (Hv _ _ H) as [??? Hb]. split; try done. intros ps b E1 E2. apply Hk. by eapply Hb.
    - intros route. unfold route_revision, route_profiles in *. rewrite E. specialize (Hr route). lia. }
  destruct op; cbn [route_step]; try (apply Hsame; frame); [|apply Hsame; [done|cbn; set_solver]]. apply set_identity_ok; [lia|done].
Qed.
End steps.

(** ** Properties *)

Section properties.
Variable method_parses : string → bool.
Variable to_lowercase : string → string.
Variable has_control header_name_ok : string → bool.
Variable collate : string → string → comparison.
Abbreviation run := (routes_run method_parses to_lowercase has_control header_name_ok).
Abbreviation identity := (route_identity to_lowercase has_control header_name_ok).
Abbreviation set_identity := (set_route_identity to_lowercase has_control header_name_ok).

(** C33: on the tables that the migrations leave, every lookup of the proxy
    succeeds and answers what the calls made for that route, in their order,
    amount to without any table: the last switch, the last mode and, field by
    field, the last valid limits. *)
Theorem route_settings_exact t0 ops route (d := (run t0 ops).1)
    (openai := from_option (switches_of openai_change ops) initial_switches (openai_route_id route))
    (anthropic := from_option (switches_of anthropic_change ops) initial_switches (anthropic_route_id route)) :
  openai_route_enabled route d = Ok (sw_on openai) ∧ openai_route_mode route d = Ok (sw_passes openai) ∧
  openai_route_limits route d = Ok (sw_limits openai) ∧
  anthropic_route_enabled route d = Ok (sw_on anthropic) ∧ anthropic_route_mode route d = Ok (sw_passes anthropic) ∧
  anthropic_route_limits route d = Ok (sw_limits anthropic).
Proof.
  pose proof (openai_history method_parses to_lowercase has_control header_name_ok t0 ops) as Ho.
  pose proof (anthropic_history method_parses to_lowercase has_control header_name_ok t0 ops) as Ha.
  split_and!.
  - apply (asked_row _ _ _ _ _ _ sw_on Ho (openai_known route)); [|done]. by intros r s [-> _ _ _].
  - apply (asked_row _ _ _ _ _ _ sw_passes Ho (openai_known route)); [|done]. apply mode_read.
  - apply (asked_row _ _ _ _ _ _ sw_limits Ho (openai_known route)); [|done]. by intros r s [_ _ <- _].
  - apply (asked_row _ _ _ _ _ _ sw_on Ha (anthropic_known route)); [|done]. by intros r s [-> _ _ _].
  - apply (asked_row _ _ _ _ _ _ sw_passes Ha (anthropic_known route)); [|done]. apply mode_read.
  - apply (asked_row _ _ _ _ _ _ sw_limits Ha (anthropic_known route)); [|done]. by intros r s [_ _ <- _].
Qed.

Lemma listed_rows known t S : table_is known t S → is_ok (list_routes collate t) = true.
Proof.
  intros [_ Hr]. apply try_map_total. intros [id r]. rewrite sort_by_perm, elem_of_map_to_list. intros H%Hr. cbn.
  unfold openai_route_setting_from_row. by rewrite (mode_read _ _ H).
Qed.
(** Each route takes its own row out of the map. *)
Lemma taken_identities m routes s : NoDup (route_as_str <$> routes) → s ∈ take_identities m routes →
  ri_route s ∈ route_as_str <$> routes ∧ ri_access s = default no_access (m !! ri_route s).
Proof.
  revert m. induction routes as [|r routes IH]; intros m; cbn; [by intros _ ?%elem_of_nil|]. intros [Hn Hd]%NoDup_cons [->|Hs]%elem_of_cons.
  - split; [by left|done].
  - destruct (IH (delete (route_as_str r) m) Hd Hs) as [Hin ->]. split; [by right|]. rewrite lookup_delete_ne; [done|]. intros E. by rewrite E in Hn.
Qed.
Lemma identity_routes_distinct : NoDup (route_as_str <$> IDENTITY_ROUTES).
Proof. by apply (bool_decide_unpack _). Qed.
Lemma identity_answers d n route : identities_ok to_lowercase has_control header_name_ok d n → n < i64_max →
  identity route d = Ok (default no_access (route_identity_settings d !! route_as_str route)).
Proof.
  intros [Hv Hr] Hn. unfold route_identity. specialize (Hr (route_as_str route)). unfold route_revision, route_profiles in Hr.
  destruct (route_identity_settings d !! route_as_str route) as [a|] eqn:E; cbn [default from_option] in *; [|done].
  rewrite (access_at_revision to_lowercase has_control header_name_ok); [done| |by eapply io_access, Hv]. exact (Z.le_lt_trans _ _ _ Hr Hn).
Qed.
(** whatever is called, the settings of the passthrough can be read and are
    valid, so that the administration of LiteLLM is never open to a trusted
    ingress, and the identity of every route can be read, belongs to no Accessa
    endpoint and is the one that is listed; all this however often a patch
    wrote what it had read long before. *)
Theorem route_settings_valid t0 ops (d := (run t0 ops).1) (Hops : Z.of_nat (length ops) < i64_max) :
  passthrough_valid d ∧ is_ok (list_openai_route_settings collate d) = true ∧ is_ok (list_anthropic_route_settings collate d) = true ∧
  (∀ route, ∃ a, identity route d = Ok a ∧ accessa a = None) ∧
  ∀ s, list_route_identities d = Ok s → ∀ x, x ∈ s → ∃ route, route_as_str route = ri_route x ∧ identity route d = Ok (ri_access x).
Proof.
  pose proof (identities_history method_parses to_lowercase has_control header_name_ok t0 ops) as Hi.
  assert (∀ route, identity route d = Ok (default no_access (route_identity_settings d !! route_as_str route))) as Hid.
  { intros route. by eapply identity_answers. }
  split_and!.
  - pose proof (passthrough_history method_parses to_lowercase has_control header_name_ok t0 ops) as Hp. by apply Forall_cons in Hp as [? _].
  - eapply listed_rows, openai_history.
  - eapply listed_rows, anthropic_history.
  - intros route. eexists. split; [apply Hid|]. destruct (_ !! _) as [a|] eqn:E; [|done]. by eapply io_accessa, (ids_valid _ _ _ _ _ Hi).
  - unfold list_route_identities. intros s E x Hx. assert (s = take_identities (route_identity_settings d) IDENTITY_ROUTES) as -> by congruence.
    destruct (taken_identities _ _ _ identity_routes_distinct Hx) as [(route & Er & _)%list_elem_of_fmap ->]. exists route. by rewrite Er.
Qed.

(** Revisions never fall, and the same revision means the same profiles. *)
Record profiles_later (d d' : RoutesDb) (route : string) : Prop := {
  later_kept : is_Some (route_profiles d route) → is_Some (route_profiles d' route);
  later_revision : route_revision d route ≤ route_revision d' route;
  later_same : route_revision d' route = route_revision d route → route_profiles d' route = route_profiles d route
}.
Lemma later_refl d d' route : route_identity_settings d' = route_identity_settings d → profiles_later d d' route.
Proof. intros E. split; unfold route_revision, route_profiles; rewrite E; done. Qed.
Lemma later_trans d1 d2 d3 route : profiles_later d1 d2 route → profiles_later d2 d3 route → profiles_later d1 d3 route.
Proof. intros [K1 R1 S1] [K2 R2 S2]. split; [auto|lia|]. intros E. rewrite S2, S1; [done|lia|lia]. Qed.
Lemma set_identity_later s d route : profiles_later d (set_identity s d).1 route.
Proof.
  unfold set_route_identity. destruct (route_identity_validate _ _ _ s); [|by apply later_refl].
  destruct (guard_route_profiles _ _ _) as [x|] eqn:Hg; [|by apply later_refl]. apply guard_outcome in Hg as (_ & _ & Hk & Hr). cbn [fst].
  destruct (decide (ri_route s = route)) as [<-|Hne].
  - split; unfold route_revision, route_profiles; cbn; rewrite lookup_insert, decide_True by done; cbn; [exact Hk|..]; destruct Hr as [E|E];
      first [by rewrite E | rewrite E; lia].
  - split; unfold route_revision, route_profiles; cbn; by rewrite lookup_insert_ne.
Qed.
Lemma route_step_later d past op route : profiles_later d (route_step method_parses to_lowercase has_control header_name_ok d past op) route.
Proof.
  destruct op; cbn [route_step]; try apply set_identity_later; apply later_refl; try done.
  all: unfold set_openai_route_enabled, set_openai_route_mode, patch_openai_route_config, set_anthropic_route_enabled, set_anthropic_route_mode,
    patch_anthropic_route_config.
  1, 2, 4, 5: match goal with |- context [(write_then_read ?k ?t ?s ?i ?f ?d ?d2).1] => by destruct (write_shape k t s f i d d2) as [->|[? ->]] end.
  1, 2: match goal with |- context [(patch_route_config ?k ?t ?s ?n ?i ?p ?d).1] => by destruct (config_shape k t s n p i d) as [->|[? ->]] end.
  by destruct (patch_shape method_parses now dbnow p (nth steps_ago (d :: past) d) d) as [->|[? ->]].
Qed.
Lemma route_history_later ops r route :
  profiles_later r.1 (foldl (routes_after method_parses to_lowercase has_control header_name_ok) r ops).1 route.
Proof.
  revert r. induction ops as [|op ops IH]; intros r; cbn [foldl]; [by apply later_refl|].
  eapply later_trans; [apply (route_step_later r.1 r.2 op)|exact (IH (routes_after _ _ _ _ r op))].
Qed.
(** The trigger refuses what was built on another revision, and no profiles where there are some. *)
Lemma stale_identity_refused s d : from_option revision 0 (authentication_profiles (ri_access s)) ≠ route_revision d (ri_route s) ∨
  authentication_profiles (ri_access s) = None ∧ is_Some (route_profiles d (ri_route s)) →
  (set_identity s d).1 = d ∧ is_ok (set_identity s d).2 = false.
Proof.
  intros H. unfold set_route_identity. destruct (route_identity_validate _ _ _ s) as [[]|]; [|done].
  assert (guard_route_profiles (rd_keys d) (route_identity_settings d !! ri_route s) (ri_access s) = Err RevisionConflict) as ->; [|done].
  unfold guard_route_profiles. unfold route_revision, route_profiles in H. destruct (authentication_profiles (ri_access s)) as [ps|]; cbn in *.
  - destruct H as [H|[H _]]; [|done]. by rewrite (proj2 (Z.eqb_neq _ _) H).
  - destruct (_ ≫= authentication_profiles) as [o|]; [done|]. destruct H as [H|[_ [? H]]]; done.
Qed.
(** Authentication profiles, once a route has them, stay; and settings built on
    profiles that have been replaced since they were read, or that would drop
    them, are refused and change nothing, however other calls intervened. *)
Theorem route_profiles_guarded t0 ops0 ops s (r0 := run t0 ops0)
    (d1 := (foldl (routes_after method_parses to_lowercase has_control header_name_ok) r0 ops).1) (route := ri_route s) :
  (is_Some (route_profiles r0.1 route) → is_Some (route_profiles d1 route)) ∧
  (route_profiles d1 route ≠ route_profiles r0.1 route →
   from_option revision 0 (authentication_profiles (ri_access s)) = route_revision r0.1 route →
   (set_identity s d1).1 = d1 ∧ is_ok (set_identity s d1).2 = false) ∧
  (authentication_profiles (ri_access s) = None → is_Some (route_profiles d1 route) →
   (set_identity s d1).1 = d1 ∧ is_ok (set_identity s d1).2 = false).
Proof.
  destruct (route_history_later ops r0 route) as [K R S]. fold d1 in K, R, S. split; [done|]. split.
  - intros Hne E. apply stale_identity_refused. left. fold route. rewrite E. intros E'. by apply Hne, S.
  - intros E Hs. apply stale_identity_refused. by right.
Qed.
End properties.

Module RouteSample.
Definition patch (blocked : option (list string)) (timeout : option Z) : LiteLlmPassthroughSettingsPatchRequest :=
  {| pp_authentication_mode := None; pp_blocked_paths := blocked; pp_enabled := Some true; pp_allowed_paths := None; pp_allowed_methods := None;
     pp_ui_exposure := None; pp_admin_api_exposure := None; pp_timeout_ms := timeout; pp_max_request_body_bytes := None;
     pp_max_response_body_bytes := None |}.
Definition block : RouteOp := PatchesPassthrough 1 1 (patch (Some ["/v1/files*"]) None) 0.
(** Read before the block was written. *)
Definition slow_patch : RouteOp := PatchesPassthrough 2 2 (patch None (Some 5000)) 1.
Definition final (ops : list RouteOp) : RoutesDb := (routes_run (λ _, true) (λ s, s) (λ _, false) (λ _, true) 0 ops).1.
Definition denied (ops : list RouteOp) (path : string) : option bool :=
  match litellm_passthrough_settings 9 (final ops) with Ok s => Some (denies_path s path) | Err _ => None end.
Definition limits (t : Z) : OpenAiRouteConfigPatchRequest :=
  {| rc_mode := Some DirectLiteLlmPassthrough; rc_timeout_ms := Some t; rc_max_request_body_bytes := None; rc_max_response_body_bytes := None |}.
Example switched :
  let d := final [PatchesOpenAi 1 "responses" (limits 9000); PatchesOpenAi 2 "responses" (limits 0); SwitchesOpenAi 3 "responses" false] in
  (openai_route_enabled Responses d, openai_route_mode Responses d, limits_timeout_ms <$> (match openai_route_limits Responses d with Ok l => Some l | Err _ => None end)) =
  (Ok false, Ok DirectLiteLlmPassthrough, Some 9000).
Proof. by vm_compute. Qed.
End RouteSample.

(** The passthrough settings are read before they are written, without a lock:
    a path that one patch blocks is open again after another that had read the
    settings before, although both succeeded. *)
Theorem concurrent_block_lost :
  RouteSample.denied [RouteSample.block] "/v1/files/7" = Some true ∧
  RouteSample.denied [RouteSample.block; RouteSample.slow_patch] "/v1/files/7" = Some false.
Proof. by vm_compute. Qed.
