(* ===== verification/GuardrailStore.v ===== *)
(** * Guardrails in the database

    Models [GuardrailStore] and [GuardrailObservabilityStore] of
    [crates/gateway-store/src/postgres.rs]: the definitions of guardrails, which
    the administration creates, patches and deletes, and the events of their
    executions; beside the tables of [KeyStore], whose policies name guardrails
    and whose keys and projects the events refer to.  A call is one step, except
    that a patch reads a definition before it writes it; writing a policy is one
    step with the check of its names, which the code makes just before its
    transaction.  A JSON column is the value written to it; [now()] is an
    argument, the collation a parameter. *)

From S2P Require Import Prelude SocketFrames StreamGuardrails Errors Routing Json GuardrailPolicy Policies AuthAdmission VerificationCache VerificationFlight Auth EndpointAccess Foundry ServiceTypes ProviderConfigs Entra TrafficRequest Access KeyAdmin AdminStore KeyStore Guardrails.

(** ** Rows *)

Record GuardrailRow := {
  gr_description : string;
  gr_modes : list string;
  gr_default_on : bool;
  gr_failure_policy : string;
  gr_config_schema : Value;
  gr_config : Value;
  gr_enabled : bool
}.
Record GuardrailEventRow := {
  gv_request_id : string;
  gv_key_id : option string;
  gv_project_id : option string;
  gv_route : option string;
  gv_model : option string;
  gv_provider : option string;
  gv_guardrail_name : string;
  gv_mode : string;
  gv_action : string;
  gv_failure_policy : string;
  gv_latency_ms : Z;
  gv_reason : option string;
  gv_metadata : Value;
  gv_created_at : Z
}.
Record GuardrailsDb := {
  gd_definitions : gmap string GuardrailRow;
  gd_keys : KeysDb;
  gd_events : list GuardrailEventRow
}.
(** [KeyStore] keeps of the definitions their names. *)
Definition with_definitions (t : gmap string GuardrailRow) (k : KeysDb) (d : GuardrailsDb) : GuardrailsDb :=
  {| gd_definitions := t; gd_keys := set_others (dom t) (usage k) k; gd_events := gd_events d |}.

(** ** Definitions *)

Definition parse_guardrail_modes (values : list string) : GatewayResult (list GuardrailMode) := try_map mode_from_str values.
Definition mode_strings (ms : list GuardrailMode) : list string := map mode_as_str ms.
Definition guardrail_definition_from_row (n : string) (r : GuardrailRow) : GatewayResult GuardrailDefinition :=
  let? ms := parse_guardrail_modes (gr_modes r) in
  let? policy := failure_policy_from_str (gr_failure_policy r) in
  Ok {| name := n; description := gr_description r; modes := ms; default_on := gr_default_on r; failure_policy := policy;
        config_schema := gr_config_schema r; config := gr_config r; enabled := gr_enabled r |}.
Inductive GuardrailProviderKind : Type := BuiltIn | Http.
Record AdminGuardrailDefinitionResponse := {
  ag_name : string;
  ag_description : string;
  ag_provider_kind : GuardrailProviderKind;
  ag_modes : list GuardrailMode;
  ag_default_on : bool;
  ag_failure_policy : GuardrailFailurePolicy;
  ag_config_schema : Value;
  ag_runtime_config : Value;
  ag_enabled : bool;
  ag_endpoint_configured : bool;
  ag_endpoint_url : option string;
  ag_timeout_ms : option Z;
  ag_token_configured : bool
}.
Definition runtime_config_for_admin (c : Value) (kind : GuardrailProviderKind) : Value :=
  match kind with BuiltIn => c | Http => default (JObject []) (value_get "provider_config" c) end.
Definition nonempty_str (key : string) (c : Value) : option string := opt_filter (λ v, negb (is_empty v)) (value_get key c ≫= as_str).
(** [Value::as_i64]. *)
Definition as_i64 (v : Value) : option Z :=
  match v with JNumber (PosInt n) => if n <=? i64_max then Some n else None | JNumber (NegInt n) => Some n | _ => None end.
Definition timeout_of (v : Value) : option Z :=
  match as_u64 v with Some n => Some n | None => opt_filter (λ n, 0 <=? n) (as_i64 v) end.
Definition admin_guardrail_definition_from_row (n : string) (r : GuardrailRow) : GatewayResult AdminGuardrailDefinitionResponse :=
  let? g := guardrail_definition_from_row n r in
  let kind := if is_http_config (config g) then Http else BuiltIn in
  Ok {| ag_name := name g; ag_description := description g; ag_provider_kind := kind; ag_modes := modes g; ag_default_on := default_on g;
        ag_failure_policy := failure_policy g; ag_config_schema := config_schema g; ag_runtime_config := runtime_config_for_admin (config g) kind;
        ag_enabled := enabled g; ag_endpoint_configured := is_some (nonempty_str "endpoint_url" (config g));
        ag_endpoint_url := nonempty_str "endpoint_url" (config g); ag_timeout_ms := value_get "timeout_ms" (config g) ≫= timeout_of;
        ag_token_configured := is_some (nonempty_str "bearer_token_secret" (config g)) |}.
Definition ensure_json_object (v : Value) : GatewayResult unit := if is_object v then Ok tt else Err InvalidGuardrailRequest.

Section store.
Variable collate : string → string → comparison.
Definition by_name {A} (a b : string * A) : comparison := collate a.1 b.1.
Definition list_guardrail_definitions (d : GuardrailsDb) : GatewayResult (list GuardrailDefinition) :=
  try_map (λ kr, guardrail_definition_from_row kr.1 kr.2) (sort_by by_name (List.filter (λ kr, gr_enabled kr.2) (map_to_list (gd_definitions d)))).
Definition list_admin_guardrail_definitions (d : GuardrailsDb) : GatewayResult (list AdminGuardrailDefinitionResponse) :=
  try_map (λ kr, admin_guardrail_definition_from_row kr.1 kr.2) (sort_by by_name (map_to_list (gd_definitions d))).

Definition clamp_timeout (t : Z) : Z := Z.max 100 (Z.min 10000 t).
Definition http_config (q : GuardrailAdminCreateRequest) : Value :=
  JObject [("bearer_token_secret", from_option JString JNull (gc_bearer_token q)); ("endpoint_url", JString (trim (gc_endpoint_url q)));
           ("guardrail_name", JString (trim (gc_name q))); ("provider_config", gc_runtime_config q); ("provider_kind", JString "http");
           ("timeout_ms", JNumber (PosInt (clamp_timeout (default 1500 (gc_timeout_ms q)))))].
Definition created_row (q : GuardrailAdminCreateRequest) : GuardrailRow :=
  {| gr_description := trim (gc_description q); gr_modes := mode_strings (if is_nil (gc_modes q) then [PreCall; PostCall] else gc_modes q);
     gr_default_on := gc_default_on q; gr_failure_policy := failure_policy_as_str (gc_failure_policy q); gr_config_schema := gc_config_schema q;
     gr_config := http_config q; gr_enabled := gc_enabled q |}.
Definition create_http_guardrail (q : GuardrailAdminCreateRequest) (d : GuardrailsDb) : GuardrailsDb * GatewayResult AdminGuardrailDefinitionResponse :=
  match ensure_json_object (gc_runtime_config q) with
  | Err e => (d, Err e)
  | Ok _ =>
      let n := trim (gc_name q) in
      if is_some (gd_definitions d !! n) then (d, Err InvalidGuardrailRequest)
      else (with_definitions (<[n := created_row q]> (gd_definitions d)) (gd_keys d) d, admin_guardrail_definition_from_row n (created_row q))
  end.

Definition insert_some (key : string) (v : option Value) (m : JMap) : JMap := match v with Some v => map_insert key v m | None => m end.
(** The configuration after a patch: of a built-in guardrail it is replaced, of
    an HTTP guardrail its members are. *)
Definition patched_config (q : GuardrailAdminPatchRequest) (c : Value) : Value :=
  if is_http_config c then
    JObject (insert_some "bearer_token_secret" (from_option JString JNull <$> gp_bearer_token q)
            (insert_some "timeout_ms" ((λ t, JNumber (PosInt (clamp_timeout t))) <$> gp_timeout_ms q)
            (insert_some "endpoint_url" (JString <$> gp_endpoint_url q)
            (insert_some "provider_config" (gp_runtime_config q) (default [] (as_object c))))))
  else default c (gp_runtime_config q).
Definition patched_row (q : GuardrailAdminPatchRequest) (g : GuardrailDefinition) : GuardrailRow :=
  {| gr_description := default (description g) (gp_description q); gr_modes := mode_strings (default (modes g) (gp_modes q));
     gr_default_on := default (default_on g) (gp_default_on q);
     gr_failure_policy := failure_policy_as_str (default (failure_policy g) (gp_failure_policy q));
     gr_config_schema := default (config_schema g) (gp_config_schema q); gr_config := patched_config q (config g);
     gr_enabled := default (enabled g) (gp_enabled q) |}.
Definition patch_checked (n : string) (q : GuardrailAdminPatchRequest) (d1 : GuardrailsDb) : GatewayResult GuardrailRow :=
  let? r := ok_or (gd_definitions d1 !! n) InvalidGuardrailRequest in
  let? g := guardrail_definition_from_row n r in
  check? match gp_runtime_config q with Some c => ensure_json_object c | None => Ok tt end in
  if negb (is_http_config (config g))
     && (is_some (gp_description q) || is_some (gp_endpoint_url q) || is_some (gp_timeout_ms q) || is_some (gp_bearer_token q))
  then Err InvalidGuardrailRequest
  else Ok (patched_row q g).
(** [d1]: the database when the definition is read; [d]: when it is written. *)
Definition patch_admin_guardrail (n : string) (q : GuardrailAdminPatchRequest) (d1 d : GuardrailsDb) :
    GuardrailsDb * GatewayResult AdminGuardrailDefinitionResponse :=
  match patch_checked n q d1 with
  | Err e => (d, Err e)
  | Ok r =>
      if is_none (gd_definitions d !! n) then (d, Err StoreUnavailable)
      else (with_definitions (<[n := r]> (gd_definitions d)) (gd_keys d) d, admin_guardrail_definition_from_row n r)
  end.

(** [array_remove] in each list, and the override taken out. *)
Definition without (n : string) (l : list string) : list string := List.filter (λ x, negb (String.eqb x n)) l.
Definition unmentioned (n : string) (p : GuardrailPolicy) : GuardrailPolicy :=
  if str_mem n (mandatory_guardrails p) || str_mem n (optional_guardrails p) || str_mem n (forbidden_guardrails p)
     || map_contains_key n (guardrail_config_overrides p)
  then {| mandatory_guardrails := without n (mandatory_guardrails p); optional_guardrails := without n (optional_guardrails p);
          forbidden_guardrails := without n (forbidden_guardrails p); guardrail_config_overrides := map_remove n (guardrail_config_overrides p) |}
  else p.
Definition delete_admin_guardrail (n : string) (d : GuardrailsDb) : GuardrailsDb * GatewayResult unit :=
  match gd_definitions d !! n with
  | None => (d, Err InvalidGuardrailRequest)
  | Some r =>
      if negb (is_http_config (gr_config r)) then (d, Err InvalidGuardrailRequest)
      else (with_definitions (delete n (gd_definitions d)) (set_key_guardrails (unmentioned n <$> key_guardrail_policies (gd_keys d)) (gd_keys d)) d, Ok tt)
  end.

(** ** Executions *)

Record GuardrailEventQuery := {
  gq_from : option Z;
  gq_to : option Z;
  gq_key_id : option string;
  gq_project_id : option string;
  gq_route : option string;
  gq_model : option string;
  gq_provider : option string;
  gq_guardrail : option string;
  gq_mode : option string;
  gq_action : option string;
  gq_limit : option Z;
  gq_offset : option Z
}.
Record GuardrailExecutionSummary := {
  gs_guardrail_name : string;
  gs_mode : GuardrailMode;
  gs_action : GuardrailAction;
  gs_failure_policy : GuardrailFailurePolicy;
  gs_count : Z;
  gs_total_latency_ms : Z
}.
Definition event_row (e : GuardrailExecutionEvent) : GuardrailEventRow :=
  {| gv_request_id := ev_request_id e; gv_key_id := ev_key_id e; gv_project_id := ev_project_id e; gv_route := route_as_str <$> ev_route e;
     gv_model := ev_model e; gv_provider := provider_as_str <$> ev_provider e; gv_guardrail_name := ev_guardrail_name e;
     gv_mode := mode_as_str (ev_mode e); gv_action := action_as_str (ev_action e); gv_failure_policy := failure_policy_as_str (ev_failure_policy e);
     gv_latency_ms := ev_latency_ms e; gv_reason := ev_reason e; gv_metadata := ev_metadata e; gv_created_at := created_at e |}.
Definition with_events (l : list GuardrailEventRow) (d : GuardrailsDb) : GuardrailsDb :=
  {| gd_definitions := gd_definitions d; gd_keys := gd_keys d; gd_events := l |}.
(** The key and the project of an event must exist. *)
Definition insert_guardrail_execution_event (e : GuardrailExecutionEvent) (d : GuardrailsDb) : GuardrailsDb * GatewayResult unit :=
  if is_none_or (λ k, is_some (api_keys (gd_keys d) !! k)) (ev_key_id e) && project_known (ev_project_id e) (gd_keys d)
  then (with_events (gd_events d ++ [event_row e]) d, Ok tt) else (d, Err StoreUnavailable).
Definition parsed {A} (f : string → GatewayResult A) (o : option string) : GatewayResult (option A) :=
  match o with Some s => let? a := f s in Ok (Some a) | None => Ok None end.
Definition guardrail_execution_event_from_row (r : GuardrailEventRow) : GatewayResult GuardrailExecutionEvent :=
  let? route := parsed parse_route (gv_route r) in
  let? provider := parsed parse_provider (gv_provider r) in
  let? mode := mode_from_str (gv_mode r) in
  let? action := action_from_str (gv_action r) in
  let? policy := failure_policy_from_str (gv_failure_policy r) in
  Ok {| ev_request_id := gv_request_id r; ev_key_id := gv_key_id r; ev_project_id := gv_project_id r; ev_route := route; ev_model := gv_model r;
        ev_provider := provider; ev_guardrail_name := gv_guardrail_name r; ev_mode := mode; ev_action := action; ev_failure_policy := policy;
        ev_latency_ms := gv_latency_ms r; ev_reason := gv_reason r; ev_metadata := gv_metadata r; created_at := gv_created_at r |}.
(** [column = $1], which a missing value does not meet. *)
Definition meets (wanted : option string) (column : option string) : bool := is_none_or (λ w, bool_decide (column = Some w)) wanted.
Definition guardrail_event_filters (q : GuardrailEventQuery) (r : GuardrailEventRow) : bool :=
  is_none_or (λ t, t <=? gv_created_at r) (gq_from q) && is_none_or (λ t, gv_created_at r <? t) (gq_to q)
  && meets (gq_project_id q) (gv_project_id r) && meets (gq_key_id q) (gv_key_id r) && meets (gq_route q) (gv_route r)
  && meets (gq_provider q) (gv_provider r) && meets (gq_model q) (gv_model r) && meets (gq_guardrail q) (Some (gv_guardrail_name r))
  && meets (gq_mode q) (Some (gv_mode r)) && meets (gq_action q) (Some (gv_action r)).
Definition matching (q : GuardrailEventQuery) (d : GuardrailsDb) : list GuardrailEventRow := List.filter (guardrail_event_filters q) (gd_events d).
Definition event_limit (q : GuardrailEventQuery) : Z := Z.max 1 (Z.min 500 (default 100 (gq_limit q))).
Definition event_offset (q : GuardrailEventQuery) : Z := Z.max 0 (default 0 (gq_offset q)).
Definition guardrail_execution_events (q : GuardrailEventQuery) (d : GuardrailsDb) : GatewayResult (list GuardrailExecutionEvent) :=
  try_map guardrail_execution_event_from_row
    (take (Z.to_nat (event_limit q)) (drop (Z.to_nat (event_offset q)) (sort_by (λ a b, gv_created_at b ?= gv_created_at a) (matching q d)))).
(** [GROUP BY guardrail_name, mode, action, failure_policy]. *)
Definition group_of (r : GuardrailEventRow) : string * string * string * string :=
  (gv_guardrail_name r, gv_mode r, gv_action r, gv_failure_policy r).
Definition groups (l : list GuardrailEventRow) : list (string * string * string * string) :=
  sort_by (λ a b, then_with (collate a.1.1.1 b.1.1.1) (then_with (collate a.1.1.2 b.1.1.2) (collate a.1.2 b.1.2))) (remove_dups (map group_of l)).
Definition in_group (g : string * string * string * string) (l : list GuardrailEventRow) : list GuardrailEventRow :=
  List.filter (λ r, bool_decide (group_of r = g)) l.
Definition total_latency (l : list GuardrailEventRow) : Z := foldr Z.add 0 (map gv_latency_ms l).
(** The sum is cast to [bigint]. *)
Definition guardrail_summary_of (g : string * string * string * string) (l : list GuardrailEventRow) : GatewayResult GuardrailExecutionSummary :=
  let total := total_latency (in_group g l) in
  if negb (in_range (- i64_max - 1) i64_max total) then Err StoreUnavailable
  else
    let? mode := mode_from_str g.1.1.2 in
    let? action := action_from_str g.1.2 in
    let? policy := failure_policy_from_str g.2 in
    Ok {| gs_guardrail_name := g.1.1.1; gs_mode := mode; gs_action := action; gs_failure_policy := policy;
          gs_count := Z.of_nat (length (in_group g l)); gs_total_latency_ms := total |}.
Definition guardrail_execution_summary (q : GuardrailEventQuery) (d : GuardrailsDb) : GatewayResult (list GuardrailExecutionSummary) :=
  try_map (λ g, guardrail_summary_of g (matching q d)) (groups (matching q d)).
End store.

(** ** The tables over time *)

Inductive GuardrailOp : Type :=
| KeyCall (op : KeyOp)
| CreatesGuardrail (q : GuardrailAdminCreateRequest)
| PatchesGuardrail (n : string) (q : GuardrailAdminPatchRequest) (steps_ago : nat)
| DeletesGuardrail (n : string)
| RecordsEvent (e : GuardrailExecutionEvent).
(** The calls of the administration and the proxy; nothing but a test writes
    the guardrails of a key on their own, and definitions are the rows here. *)
Definition served (op : KeyOp) : bool := match op with PutKeyGuardrails _ _ | GuardrailsDefined _ => false | _ => true end.
(** Events of a project that is deleted stay without it. *)
Definition orphaned (k : KeysDb) (r : GuardrailEventRow) : GuardrailEventRow :=
  {| gv_request_id := gv_request_id r; gv_key_id := gv_key_id r;
     gv_project_id := opt_filter (λ p, is_some (projects k !! p)) (gv_project_id r); gv_route := gv_route r; gv_model := gv_model r;
     gv_provider := gv_provider r; gv_guardrail_name := gv_guardrail_name r; gv_mode := gv_mode r; gv_action := gv_action r;
     gv_failure_policy := gv_failure_policy r; gv_latency_ms := gv_latency_ms r; gv_reason := gv_reason r; gv_metadata := gv_metadata r;
     gv_created_at := gv_created_at r |}.
(** The row of the migrations. *)
Definition pii_redact : GuardrailRow :=
  {| gr_description := "Redacts common PII before provider calls and optionally restores placeholders after responses.";
     gr_modes := ["pre_call"; "post_call"; "during_call"]; gr_default_on := false; gr_failure_policy := "fail_closed";
     gr_config_schema := JObject [("restore_output", JString "boolean")]; gr_config := JObject [("restore_output", JBool true)]; gr_enabled := true |}.
Definition migrated_guardrails : GuardrailsDb :=
  {| gd_definitions := {["pii-redact" := pii_redact]}; gd_keys := set_others {["pii-redact"]} [] empty_keys; gd_events := [] |}.

Section histories.
Variable has_control : string → bool.
Variable collate : string → string → comparison.
Variable days_before : Z → Z → Z.
Abbreviation key_step := (keys_after has_control collate days_before).
(** [past]: the earlier states, latest first; a patch may have read any of them. *)
Definition guardrail_step (d : GuardrailsDb) (past : list GuardrailsDb) (op : GuardrailOp) : GuardrailsDb :=
  match op with
  | KeyCall op =>
      if served op then
        let k := key_step (gd_keys d) op in
        {| gd_definitions := gd_definitions d; gd_keys := k; gd_events := map (orphaned k) (gd_events d) |}
      else d
  | CreatesGuardrail q => (create_http_guardrail q d).1
  | PatchesGuardrail n q steps_ago => (patch_admin_guardrail n q (nth steps_ago (d :: past) d) d).1
  | DeletesGuardrail n => (delete_admin_guardrail n d).1
  | RecordsEvent e => (insert_guardrail_execution_event e d).1
  end.
Definition guardrails_after (run : GuardrailsDb * list GuardrailsDb) (op : GuardrailOp) : GuardrailsDb * list GuardrailsDb :=
  (guardrail_step run.1 run.2 op, run.1 :: run.2).
Definition guardrails_run (ops : list GuardrailOp) : GuardrailsDb * list GuardrailsDb := foldl guardrails_after (migrated_guardrails, []) ops.
End histories.

(** *** Policies name what is defined *)

Lemma mode_roundtrip m : mode_from_str (mode_as_str m) = Ok m.
Proof. by destruct m. Qed.
Lemma modes_roundtrip l : parse_guardrail_modes (mode_strings l) = Ok l.
Proof. apply try_map_ok, Forall2_fmap_l, Forall_Forall2_diag, Forall_true. exact mode_roundtrip. Qed.
Lemma action_roundtrip a : action_from_str (action_as_str a) = Ok a.
Proof. by destruct a. Qed.
Lemma failure_policy_roundtrip p : failure_policy_from_str (failure_policy_as_str p) = Ok p.
Proof. by destruct p. Qed.

(** What a call leaves of the guardrails of keys. *)
Record guardrails_same (d d' : KeysDb) : Prop := {
  same_policies : key_guardrail_policies d' = key_guardrail_policies d;
  same_definitions : guardrail_definitions d' = guardrail_definitions d
}.
Definition guardrails_known (d d' : KeysDb) : Prop :=
  guardrail_definitions d' = guardrail_definitions d ∧
  ∀ id g, key_guardrail_policies d' !! id = Some g →
    key_guardrail_policies d !! id = Some g ∨ referenced_guardrail_policy_names g ⊆ guardrail_definitions d.
Lemma same_known d d' : guardrails_same d d' → guardrails_known d d'.
Proof. intros [E1 E2]. split; [done|]. intros id g. rewrite E1. by left. Qed.
Lemma known_after d d1 d2 : guardrails_same d d1 → guardrails_known d1 d2 → guardrails_known d d2.
Proof. intros [E1 E2] [E3 H]. split; [congruence|]. intros id g Hg. rewrite <- E1, <- E2. auto. Qed.
Lemma known_before d d1 d2 : guardrails_known d d1 → guardrails_same d1 d2 → guardrails_known d d2.
Proof. intros [E3 H] [E1 E2]. split; [congruence|]. intros id g. rewrite E1. auto. Qed.
Lemma same_trans d d1 d2 : guardrails_same d d1 → guardrails_same d1 d2 → guardrails_same d d2.
Proof. intros [E1 E2] [E3 E4]. split; congruence. Qed.
Lemma catalog_known p d : validate_guardrail_policy_catalog p d = Ok tt → referenced_guardrail_policy_names p ⊆ guardrail_definitions d.
Proof.
  unfold validate_guardrail_policy_catalog. rewrite check_ok. cbv zeta. intros [_ H]. destruct (decide _) as [->|_]; [set_solver|].
  destruct (_ =? _) eqn:E; [|done]. apply Z.eqb_eq in E. set (names := referenced_guardrail_policy_names p) in *.
  assert (names ∩ guardrail_definitions d = names) as E'; [|set_solver].
  apply set_subseteq_size_eq; [set_solver|lia].
Qed.

Section steps.
Variable has_control : string → bool.
Variable collate : string → string → comparison.
Variable days_before : Z → Z → Z.
Abbreviation key_step := (keys_after has_control collate days_before).

Lemma upsert_guardrails_known id p d d' : referenced_guardrail_policy_names p ⊆ guardrail_definitions d →
  upsert_guardrail_policy_in_tx id p d = Ok d' → guardrails_known d d'.
Proof.
  intros Hp. unfold upsert_guardrail_policy_in_tx. rewrite check_ok. intros [_ H]. destruct (is_none _); [done|]. injection H as <-. split; [done|].
  intros i g. cbn. intros [[_ <-]|[_ Hg]]%lookup_insert_Some; auto.
Qed.
Lemma upsert_policy_same id p d d' : upsert_policy_in_tx id p d = Ok d' → guardrails_same d d'.
Proof. unfold upsert_policy_in_tx. intros H. repeat (case_match; try done); by injection H as <-. Qed.
Lemma replace_links_same id names d d' : replace_key_service_links_in_tx id names d = Ok d' → guardrails_same d d'.
Proof. unfold replace_key_service_links_in_tx. destruct (link_services _ _ _ _); [|done]. cbn. by intros [= <-]. Qed.
Lemma insert_key_same id r d d' : insert_key id r d = Ok d' → guardrails_same d d'.
Proof. unfold insert_key. intros H. repeat (case_match; try done); by injection H as <-. Qed.
Lemma update_key_same id r r' d d' : update_key id r r' d = Ok d' → guardrails_same d d'.
Proof. unfold update_key. intros H. repeat (case_match; try done); by injection H as <-. Qed.
Lemma create_key_known id dbnow q m d : guardrails_known d (create_admin_key has_control collate id dbnow q m d).1.
Proof.
  unfold create_admin_key, in_tx. destruct (normalize_key_name _ _); [|by apply same_known]. destruct (validate_key_owner _ _); [|by apply same_known].
  destruct (apply_policy_patch _ _); [|by apply same_known]. destruct (validate_guardrail_policy_catalog _ _) as [[]|] eqn:Hc; [|by apply same_known].
  destruct (insert_key _ _ _) as [d1|] eqn:E1; [|by apply same_known]. apply insert_key_same in E1.
  destruct (upsert_policy_in_tx _ _ _) as [d2|] eqn:E2; [|by apply same_known]. apply upsert_policy_same in E2.
  destruct (upsert_guardrail_policy_in_tx _ _ _) as [d3|] eqn:E3; [|by apply same_known]. pose proof (same_trans _ _ _ E1 E2) as E12.
  apply upsert_guardrails_known in E3; [|rewrite (same_definitions _ _ E12); by apply catalog_known].
  destruct (replace_key_service_links_in_tx _ _ _) as [d4|] eqn:E4; [|by apply same_known]. apply replace_links_same in E4.
  cbn. eapply known_before; [|exact E4]. by eapply known_after.
Qed.
Lemma patch_checks_known id p d name policy g : patch_checks has_control collate id p d = Ok (Some (name, policy, Some g)) →
  referenced_guardrail_policy_names g ⊆ guardrail_definitions d.
Proof.
  unfold patch_checks. destruct (normalize_key_name _ _); [|done].
  destruct (if is_some (ak_owner_type p) || is_some (ak_project_id p) then _ else _) as [[]|]; [|done..]. cbn [negb].
  destruct (match ak_policy p with Some _ => _ | None => _ end); [|done]. destruct (ak_guardrail_policy p) as [q|]; [|done].
  destruct (guardrail_policy_for_key id d); [|done]. destruct (guardrail_policy_patch_apply q _) as [g'|]; [|done].
  destruct (validate_guardrail_policy_catalog g' d) as [[]|] eqn:Hc; [|done]. intros [= _ _ <-]. by apply catalog_known.
Qed.
Lemma patch_key_known dbnow id p d : guardrails_known d (patch_admin_key has_control collate dbnow id p d).1.
Proof.
  unfold patch_admin_key. destruct (patch_checks _ _ _ _ _) as [[[[name policy] guardrails]|]|] eqn:Hc; [|by apply same_known..].
  destruct (api_keys d !! id) as [r|]; [|by apply same_known]. destruct (revoked r); [by apply same_known|]. unfold in_tx.
  destruct (update_key _ _ _ _) as [d1|] eqn:E1; [|by apply same_known]. apply update_key_same in E1.
  destruct (if_some policy _ d1) as [d2|] eqn:E2; [|by apply same_known].
  assert (guardrails_same d d2) as E12.
  { destruct policy as [q|]; cbn in E2; [|by injection E2 as <-]. apply upsert_policy_same in E2. by eapply same_trans. }
  destruct (if_some guardrails _ d2) as [d3|] eqn:E3; [|by apply same_known].
  assert (guardrails_known d d3) as E3'.
  { eapply known_after; [exact E12|]. destruct guardrails as [g|]; cbn in E3; [|injection E3 as <-; by apply same_known].
    eapply upsert_guardrails_known; [|exact E3]. rewrite (same_definitions _ _ E12). by eapply patch_checks_known. }
  destruct (if_some (ak_service_names p) _ d3) as [d4|] eqn:E4; [|by apply same_known]. cbn.
  destruct (ak_service_names p) as [names|]; cbn in E4; [|by injection E4 as <-]. eapply known_before; [exact E3'|]. by eapply replace_links_same.
Qed.
(** No call that is served lets the policy of a key name what is not defined. *)
Lemma key_step_known d op : served op = true → guardrails_known d (key_step d op).
Proof.
  destruct op; cbn [served keys_after]; intros Hs; try done; try apply create_key_known; try apply patch_key_known; apply same_known.
  all: unfold create_project, patch_project, delete_project, revoke_admin_key, disable_admin_key, enable_admin_key, find_by_prefix, mark_key_used,
    update_live_key, upsert_policy_layer, delete_policy_layer, register_service, drop_service, in_tx, replace_project_service_links; cbv zeta.
  all: repeat (case_match; try done); simplify_eq; by split.
Qed.
End steps.

(** *** What the tables always satisfy *)

Definition event_decodes (r : GuardrailEventRow) : Prop := is_ok (guardrail_execution_event_from_row r) = true.
Record guardrails_wf (d : GuardrailsDb) : Prop := {
  gw_keys : keys_wf (gd_keys d);
  gw_names : guardrail_definitions (gd_keys d) = dom (gd_definitions d);
  gw_rows n r : gd_definitions d !! n = Some r → is_ok (guardrail_definition_from_row n r) = true;
  gw_policies id p : key_guardrail_policies (gd_keys d) !! id = Some p → referenced_guardrail_policy_names p ⊆ dom (gd_definitions d);
  gw_events : Forall event_decodes (gd_events d)
}.
Lemma migrated_wf : guardrails_wf migrated_guardrails.
Proof.
  split; [apply others_wf, empty_keys_wf|cbn; by rewrite dom_singleton_L| |done..].
  intros n r. cbn. by intros [<- <-]%lookup_singleton_Some.
Qed.
(** Writing a row that can be read keeps the tables as they should be. *)
Lemma write_wf n r d : guardrails_wf d → is_ok (guardrail_definition_from_row n r) = true →
  guardrails_wf (with_definitions (<[n := r]> (gd_definitions d)) (gd_keys d) d).
Proof.
  intros [Hk Hn Hr Hp He] Hd. split; cbn; try done.
  - by apply others_wf.
  - intros m x [[<- <-]|[_ Hx]]%lookup_insert_Some; [done|by eapply Hr].
  - intros id p H%Hp. rewrite dom_insert_L. set_solver.
Qed.
Lemma created_decodes n q : is_ok (guardrail_definition_from_row n (created_row q)) = true.
Proof. unfold guardrail_definition_from_row. cbn. by rewrite modes_roundtrip, failure_policy_roundtrip. Qed.
Lemma patched_decodes n q g : is_ok (guardrail_definition_from_row n (patched_row q g)) = true.
Proof. unfold guardrail_definition_from_row. cbn. by rewrite modes_roundtrip, failure_policy_roundtrip. Qed.
Lemma create_guardrail_wf q d : guardrails_wf d → guardrails_wf (create_http_guardrail q d).1.
Proof.
  intros Hw. unfold create_http_guardrail. destruct (ensure_json_object _); [|done]. cbv zeta. destruct (is_some _); [done|].
  apply write_wf; [done|apply created_decodes].
Qed.
Lemma patch_guardrail_wf n q d1 d : guardrails_wf d → guardrails_wf (patch_admin_guardrail n q d1 d).1.
Proof.
  intros Hw. unfold patch_admin_guardrail. destruct (patch_checked n q d1) as [r|] eqn:Hc; [|done]. destruct (is_none _); [done|].
  apply write_wf; [done|]. unfold patch_checked in Hc. result_cases; try done; apply patched_decodes.
Qed.
Lemma event_roundtrip e : guardrail_execution_event_from_row (event_row e) = Ok e.
Proof.
  unfold guardrail_execution_event_from_row, event_row, parsed. cbn. destruct e as [? ? ? [ro|] ? [pr|] ? m a f ? ? ? ?]; cbn;
    rewrite ?parse_route_of; cbn; rewrite ?parse_provider_of; cbn; by rewrite mode_roundtrip, action_roundtrip, failure_policy_roundtrip.
Qed.
(** Deleting a guardrail takes its name out of every policy of a key. *)
Lemma without_elem n x l : x ∈ without n l ↔ x ∈ l ∧ x ≠ n.
Proof. unfold without. rewrite list_elem_of_In, filter_In, <- list_elem_of_In, negb_true_iff, String.eqb_neq. done. Qed.
Lemma removed_elem n x (m : JMap) : x ∈ map_remove n m ↔ x ∈ m ∧ n ≠ x.1.
Proof. unfold map_remove. rewrite list_elem_of_In, filter_In, <- list_elem_of_In, negb_true_iff, String.eqb_neq. done. Qed.
Lemma contains_elem n (m : JMap) : map_contains_key n m = true ↔ n ∈ map fst m.
Proof.
  unfold map_contains_key, map_get. induction m as [|[k v] m IH]; cbn; [split; [done|by intros ?%elem_of_nil]|].
  rewrite elem_of_cons. destruct (String.eqb_spec n k) as [->|Hn]; cbn; [tauto|]. rewrite IH. naive_solver.
Qed.
Lemma referenced_elem x p : x ∈ referenced_guardrail_policy_names p ↔
  x ∈ mandatory_guardrails p ∨ x ∈ optional_guardrails p ∨ x ∈ forbidden_guardrails p ∨ x ∈ map fst (guardrail_config_overrides p).
Proof. unfold referenced_guardrail_policy_names. by rewrite elem_of_list_to_set, !elem_of_app. Qed.
Lemma unmentioned_names n p : referenced_guardrail_policy_names (unmentioned n p) = referenced_guardrail_policy_names p ∖ {[n]}.
Proof.
  apply set_eq. intros x. rewrite elem_of_difference, elem_of_singleton. unfold unmentioned.
  destruct (_ || map_contains_key n _) eqn:E; rewrite !referenced_elem; cbn.
  - rewrite !without_elem. assert (x ∈ map fst (map_remove n (guardrail_config_overrides p)) ↔ x ∈ map fst (guardrail_config_overrides p) ∧ x ≠ n) as ->.
    { change (map fst) with (fmap (M := list) (A := string * Value) fst). rewrite !list_elem_of_fmap. setoid_rewrite removed_elem. naive_solver. }
    tauto.
  - rewrite !orb_false_iff in E. destruct E as [[[E1%str_mem_false E2%str_mem_false] E3%str_mem_false] E4].
    assert (n ∉ map fst (guardrail_config_overrides p)) as E5 by (rewrite <- contains_elem; by rewrite E4). naive_solver.
Qed.
Lemma unmentioned_valid n p : guardrail_policy_validate p = Ok tt → guardrail_policy_validate (unmentioned n p) = Ok tt.
Proof.
  unfold unmentioned. destruct (_ || _); [|done]. rewrite !guardrail_policy_validate_ok. cbn. intros [H1 H2]. split.
  - intros x. rewrite !elem_of_app, !without_elem. intros Hx. apply H1. rewrite !elem_of_app. tauto.
  - intros x v [Hx _]%removed_elem. destruct (H2 x v Hx) as (? & ? & ?). rewrite without_elem. tauto.
Qed.
Lemma delete_guardrail_wf n d : guardrails_wf d → guardrails_wf (delete_admin_guardrail n d).1.
Proof.
  intros Hw. unfold delete_admin_guardrail. destruct (gd_definitions d !! n) as [r|]; [|done]. destruct (negb _); [done|].
  destruct Hw as [Hk Hn Hr Hp He]. split; cbn; try done.
  - apply others_wf, wf_guardrails; [done|]. intros id x. rewrite lookup_fmap_Some. intros (y & <- & Hy).
    destruct (guardrails_ok _ Hk _ _ Hy) as [Hv Hi]. split; [by apply unmentioned_valid|done].
  - intros m x [_ Hx]%lookup_delete_Some. by eapply Hr.
  - intros id p. rewrite lookup_fmap_Some. intros (y & <- & Hy). rewrite unmentioned_names, dom_delete_L. specialize (Hp id y Hy). set_solver.
Qed.

(** *** Histories *)

Lemma sublist_elem {A} (x : A) l k : x ∈ l → l `sublist_of` k → x ∈ k.
Proof. intros Hx Hs. revert Hx. induction Hs; [done|..]; rewrite ?elem_of_cons; naive_solver. Qed.

Section properties.
Variable has_control : string → bool.
Variable collate : string → string → comparison.
Variable days_before : Z → Z → Z.
Abbreviation step := (guardrail_step has_control collate days_before).
Abbreviation run := (guardrails_run has_control collate days_before).

Lemma orphaned_decodes k r : event_decodes r → event_decodes (orphaned k r).
Proof. unfold event_decodes, guardrail_execution_event_from_row. cbn. intros H. by repeat (case_match; try done). Qed.
Lemma guardrail_step_wf d past op : guardrails_wf d → guardrails_wf (step d past op).
Proof.
  intros Hw. destruct op as [op|q|n q m|n|e]; cbn [guardrail_step];
    [|by apply create_guardrail_wf|by apply patch_guardrail_wf|by apply delete_guardrail_wf|].
  - destruct (served op) eqn:Hs; [|done]. cbv zeta. destruct (key_step_known has_control collate days_before (gd_keys d) op Hs) as [Ed Hg].
    destruct Hw as [Hk Hn Hr Hp He]. split; cbn; try done.
    + by apply keys_step_wf.
    + by rewrite Ed.
    + intros id p [H|H]%Hg; [by eapply Hp|by rewrite <- Hn].
    + rewrite Forall_forall in *. intros x (y & -> & Hy)%list_elem_of_fmap. by apply orphaned_decodes, He.
  - unfold insert_guardrail_execution_event. destruct (_ && _); [|done]. destruct Hw as [Hk Hn Hr Hp He]. split; cbn; try done.
    apply Forall_app. split; [done|]. constructor; [|done]. unfold event_decodes. by rewrite event_roundtrip.
Qed.
Lemma guardrails_history ops : guardrails_wf (run ops).1.
Proof.
  induction ops as [|op ops IH] using rev_ind; [apply migrated_wf|]. unfold guardrails_run in *. rewrite foldl_app. by apply guardrail_step_wf.
Qed.

(** whatever the administration and the proxy call, every definition and
    event can be read back, and the guardrails that the policy of a key names
    are all defined: deleting one takes its name out of the policies of keys,
    which stay valid. *)
Theorem guardrail_tables_wf ops (d := (run ops).1) :
  guardrails_wf d ∧ is_ok (list_guardrail_definitions collate d) = true ∧ is_ok (list_admin_guardrail_definitions collate d) = true ∧
  (∀ q, is_ok (guardrail_execution_events q d) = true) ∧
  ∀ n, is_ok (delete_admin_guardrail n d).2 = true →
    let d' := (delete_admin_guardrail n d).1 in
    gd_definitions d' = delete n (gd_definitions d) ∧
    ∀ id p, key_guardrail_policies (gd_keys d) !! id = Some p → ∃ p', key_guardrail_policies (gd_keys d') !! id = Some p' ∧
      referenced_guardrail_policy_names p' = referenced_guardrail_policy_names p ∖ {[n]}.
Proof.
  pose proof (guardrails_history ops) as Hw. fold d in Hw. split_and!.
  - done.
  - apply try_map_total. intros [n r]. rewrite sort_by_perm, list_elem_of_In, filter_In, <- list_elem_of_In, elem_of_map_to_list.
    intros [Hr _]. by eapply gw_rows.
  - apply try_map_total. intros [n r]. rewrite sort_by_perm, elem_of_map_to_list. intros Hr. unfold admin_guardrail_definition_from_row.
    pose proof (gw_rows _ Hw _ _ Hr) as H. cbn. by destruct (guardrail_definition_from_row n r).
  - intros q. apply try_map_total. intros r Hr. eapply sublist_elem in Hr; [|apply sublist_take]. eapply sublist_elem in Hr; [|apply sublist_drop].
    rewrite sort_by_perm, list_elem_of_In in Hr. apply filter_In in Hr as [Hr _]. apply list_elem_of_In in Hr.
    pose proof (gw_events _ Hw) as He. rewrite Forall_forall in He. by apply He.
  - intros n. unfold delete_admin_guardrail. destruct (gd_definitions d !! n) as [r|]; [|done]. destruct (negb _); [done|]. intros _. cbn. split; [done|].
    intros id p Hp. exists (unmentioned n p). rewrite lookup_fmap, Hp. split; [done|]. apply unmentioned_names.
Qed.
End properties.

(** ** Secrets and summaries *)

Definition with_token (t : string) (r : GuardrailRow) : GuardrailRow :=
  {| gr_description := gr_description r; gr_modes := gr_modes r; gr_default_on := gr_default_on r; gr_failure_policy := gr_failure_policy r;
     gr_config_schema := gr_config_schema r;
     gr_config := JObject (map_insert "bearer_token_secret" (JString t) (default [] (as_object (gr_config r)))); gr_enabled := gr_enabled r |}.
Lemma token_elsewhere k t r : k ≠ "bearer_token_secret" →
  value_get k (gr_config (with_token t r)) = map_get k (default [] (as_object (gr_config r))).
Proof. intros Hk. unfold value_get. cbn. rewrite map_get_insert. by destruct (String.eqb_spec k "bearer_token_secret"). Qed.
(** What the administration is shown of an HTTP guardrail does not depend on
    its bearer token, only on there being one. *)
Theorem guardrail_token_hidden n r t t' : is_http_config (gr_config r) = true → is_empty t = false → is_empty t' = false →
  admin_guardrail_definition_from_row n (with_token t r) = admin_guardrail_definition_from_row n (with_token t' r).
Proof.
  intros Hh Ht Ht'.
  assert (∀ t, is_http_config (gr_config (with_token t r)) = true) as Hhttp.
  { intros x. unfold is_http_config in *. rewrite token_elsewhere by done. unfold value_get in Hh. by destruct (as_object (gr_config r)). }
  assert (∀ k, k ≠ "bearer_token_secret" → value_get k (gr_config (with_token t r)) = value_get k (gr_config (with_token t' r))) as Hk.
  { intros k Hk. by rewrite !token_elsewhere. }
  assert (∀ t, is_empty t = false → is_some (nonempty_str "bearer_token_secret" (gr_config (with_token t r))) = true) as Htok.
  { intros x Hx. unfold nonempty_str, value_get. cbn. rewrite map_get_insert. cbn. by rewrite Hx. }
  unfold admin_guardrail_definition_from_row, guardrail_definition_from_row. cbn [with_token gr_modes gr_failure_policy].
  destruct (parse_guardrail_modes _); [|done]. destruct (failure_policy_from_str _); [|done]. cbn -[with_token is_http_config].
  rewrite !Hhttp, !Htok by done. unfold runtime_config_for_admin, nonempty_str. by rewrite !Hk.
Qed.

(** Groups that are distinct and cover the events count each of them once. *)
Lemma groups_partition gs l : NoDup gs → (∀ r, r ∈ l → group_of r ∈ gs) →
  foldr (λ g n, Z.of_nat (length (in_group g l)) + n) 0 gs = Z.of_nat (length l).
Proof.
  intros Hd. induction l as [|r l IH]; intros Hc; cbn [length].
  - clear. induction gs as [|g gs IH]; [done|]. exact IH.
  - assert (∀ hs, NoDup hs → foldr (λ g n, Z.of_nat (length (in_group g (r :: l))) + n) 0 hs =
      foldr (λ g n, Z.of_nat (length (in_group g l)) + n) 0 hs + (if bool_decide (group_of r ∈ hs) then 1 else 0)) as Hstep.
    { induction hs as [|h hs IHh]; [done|]. intros [Hn Hh]%NoDup_cons. cbn [foldr]. rewrite IHh by done. unfold in_group. cbn [List.filter].
      destruct (bool_decide_reflect (group_of r = h)) as [<-|Hne]; cbn [length].
      - rewrite bool_decide_eq_false_2 by done. rewrite bool_decide_eq_true_2 by (by left). lia.
      - rewrite (bool_decide_ext (group_of r ∈ h :: hs) (group_of r ∈ hs)); [lia|]. rewrite elem_of_cons. naive_solver. }
    rewrite Hstep, IH by (done || (intros; apply Hc; by right)). rewrite bool_decide_eq_true_2 by (apply Hc; by left). lia.
Qed.
Lemma summaries_count {A} (f : A → GatewayResult GuardrailExecutionSummary) (count : A → Z) gs l : (∀ g s, f g = Ok s → gs_count s = count g) →
  try_map f gs = Ok l → foldr (λ s n, gs_count s + n) 0 l = foldr (λ g n, count g + n) 0 gs.
Proof.
  intros Hf. revert l. induction gs as [|g gs IH]; intros l; cbn; [by intros [= <-]|]. destruct (f g) as [s|] eqn:E; [|done]. cbn.
  destruct (try_map f gs) as [k|]; [|done]. cbn. intros [= <-]. cbn. by rewrite (Hf _ _ E), (IH k).
Qed.
(** Adding up the counts of a summary gives the number of executions that meet
    the query: none is missed and none is counted twice. *)
Theorem guardrail_summary_complete collate q d l : guardrail_execution_summary collate q d = Ok l →
  foldr (λ s n, gs_count s + n) 0 l = Z.of_nat (length (matching q d)).
Proof.
  unfold guardrail_execution_summary. intros H.
  rewrite (summaries_count _ (λ g, Z.of_nat (length (in_group g (matching q d)))) _ _) with (2 := H).
  - apply groups_partition; unfold groups.
    + rewrite sort_by_perm. apply NoDup_remove_dups.
    + intros r Hr. rewrite sort_by_perm, elem_of_remove_dups. exact (list_elem_of_fmap_2 group_of _ _ Hr).
  - intros g s. unfold guardrail_summary_of. cbv zeta. intros Hg. result_cases; done.
Qed.

Module GuardrailSample.
Definition request : GuardrailAdminCreateRequest :=
  {| gc_name := "brand"; gc_description := "Brand safety"; gc_endpoint_url := "https://guard.internal/brand"; gc_modes := []; gc_default_on := false;
     gc_failure_policy := FailClosed; gc_timeout_ms := None; gc_bearer_token := Some "s3cret"; gc_config_schema := JNull;
     gc_runtime_config := JObject []; gc_enabled := true |}.
Definition layer : KeyOp :=
  PutLayer "l-1" {| lu_kind := LayerGlobal; lu_scope_id := None; lu_policy := KeySample.no_patch;
                    lu_guardrail_policy := {| patch_mandatory := Some ["brand"]; patch_optional := None; patch_forbidden := None; patch_overrides := None |} |}.
Definition governed : list GuardrailOp := CreatesGuardrail request :: map KeyCall (KeySample.with_key ++ [layer]).
Definition final (ops : list GuardrailOp) : GuardrailsDb := (guardrails_run (λ _, false) String.compare KeySample.days ops).1.
(** The plan of a request with the key, as the proxy makes it. *)
Definition plan (ops : list GuardrailOp) : GatewayResult (list string) :=
  let d := final ops in
  let? loaded := load_policy_context String.compare (λ now, now) 10 "k-1" None None (Some ChatCompletions) None (gd_keys d) in
  let? definitions := list_guardrail_definitions String.compare d in
  let? p := resolve_guardrail_plan
    {| plan_mode := PreCall; definitions := definitions;
       policies := {| key_policy := from_option (λ e, eff_guardrail_policy e.1) GuardrailPolicy_default loaded; team_policy := None;
                      route_policy := None; model_policy := None |};
       client_requested_guardrails := [] |} in
  Ok (map name p).
Example governed_plan : plan governed = Ok ["brand"].
Proof. by vm_compute. Qed.
Definition to_http : GuardrailAdminPatchRequest :=
  {| gp_description := None; gp_endpoint_url := None; gp_modes := None; gp_default_on := None; gp_failure_policy := None; gp_timeout_ms := None;
     gp_bearer_token := None; gp_config_schema := None; gp_runtime_config := Some (JObject [("provider_kind", JString "http")]); gp_enabled := None |}.
End GuardrailSample.

(** Deleting a guardrail cleans the policies of keys and not those of layers:
    when a layer demands it, every request under the layer is refused from then
    on. *)
Theorem deleted_guardrail_demanded :
  let d := GuardrailSample.final GuardrailSample.governed in
  (delete_admin_guardrail "brand" d).2 = Ok tt ∧
  GuardrailSample.plan (GuardrailSample.governed ++ [DeletesGuardrail "brand"]) = Err GuardrailUnavailable.
Proof. by vm_compute. Qed.
(** A built-in guardrail cannot be deleted, until a patch of its configuration
    calls it an HTTP guardrail. *)
Theorem builtin_guardrail_deleted :
  is_ok (delete_admin_guardrail "pii-redact" migrated_guardrails).2 = false ∧
  let d := GuardrailSample.final [PatchesGuardrail "pii-redact" GuardrailSample.to_http 0] in
  (delete_admin_guardrail "pii-redact" d).2 = Ok tt.
Proof. by vm_compute. Qed.
